(* ===== verification/_CoqProject ===== *)
-Q . S2P
Prelude.v
OMap.v
Word32.v
Addr.v
IPv4.v
IPv6.v
IPNet.v
Sample.v
NetProps.v
Trie.v
TrieSpec.v
TrieMap.v
TrieIter.v
TrieBounds.v
AsPath.v
AsPathProps.v
Decision.v
DecisionProps.v
DecisionTable.v
VrrpPacket.v
VrrpPacketProps.v
Vrrp.v
VrrpProps.v
VrrpVifProps.v
VrrpProtocol.v
Spt.v
SptProps.v
SptCompute.v
SptRun.v
TimeVal.v
Heap.v
HeapProps.v
HeapQueue.v
Timer.v
TimerProps.v
TimerRun.v
TimerClaims.v
BgpPeer.v
BgpPeerProps.v
BgpPeerRun.v
RibTables.v
ExtInt.v
Rib.v
ExtIntProps.v
RibKeys.v
RibProps.v
RibRun.v
RibClaims.v
RipQueue.v
RipQueueProps.v
RipQueueRun.v
RipQueueClaims.v
RipRoute.v
RipDB.v
RipDBProps.v
RipDBUpdate.v
RipDBRun.v
RipClaims.v
RipPacket.v
RipAuth.v
RipPeer.v
RipOutput.v
RipOutputProps.v
RipAsm.v
RipPort.v
RipPortProps.v
RipPortSafe.v
RipHeard.v
RipPortClaims.v
RipExamples.v
PolicyElem.v
PolicyOps.v
PolicyExec.v
PolicyCode.v
PolicyVisit.v
PolicyRun.v
PolicyText.v
PolicyVar.v
PolicyTypes.v
PolicyClaims.v
