(* ===== verification/Prelude.v ===== *)
(** * A verification of the core of the XORP routing suite

    XORP is a set of routing daemons (BGP, OSPF, RIP, VRRP, PIM, a RIB and a
    forwarding engine) over a common library.  This development models the parts
    that decide: the address and subnet classes and the route trie every daemon
    stores its routes in, the timers every daemon runs on, the shortest path tree of
    the link-state protocols, the AS paths, the decision process and the session
    machine of BGP, the RIB that merges the routes of all protocols, and the RIP and VRRP
    daemons.  All paths below are under [src/xorp/].

    ** How the parts fit together

    Subnets ([IPNet<A>]) and tries ([Trie<A, Payload>]) are templates over an address
    class; the model has the same interface as a type class, [AddrSpec], and the
    theorems about subnets and tries are proved against it, once for IPv4 and IPv6.
    The tables of the RIB are tries of routes, and its theorems rest on those about
    tries.  The decision process uses AS paths only through their length and first AS; the
    VRRP packets use the octets of an IPv4 address.  A timer list is an array of the
    heaps of libxorp/heap.cc, whose keys are [TimeVal]s.  The BGP and VRRP machines
    see a timer as scheduled or not, and receive its expiry as an event.

    In RIP, a port turns received packets into updates of the route database, on behalf
    of the peer that sent them; the database shares its routes with the update queue,
    whose readers are the triggered updates of the ports and the notifier of the RIB; the
    output of a port walks the table, or reads the queue, and packs routes into packets.
    The queue is a container over any type; the database is written against the class
    [NextHop]; the output against the record [assembler], whose laws are the class
    [AssemblerLaws], discharged for RIPv2 with its authentication and for RIPng; the port
    against the record [family], whose contract towards received octets is the class
    [FamilySafe], with an instance per address family.

    ** Files

    - Prelude.v, this file: errors as values ([result]), the invariant-preserving
      sequencing lemmas, generic facts on lists, options and integers.
    - OMap.v: [std::map] as a sorted list of pairs, with the iteration order.
    - Word32.v: 32-bit words, byte order ([HostOrder]), bit counts
      (libxorp/utils.hh).
    - Addr.v: the address interface [AddrOps] and its laws [AddrSpec].
    - IPv4.v, IPv6.v: the two address classes (libxorp/ipv4.hh, ipv4.cc, ipv6.hh,
      ipv6.cc), with the instances that discharge [AddrSpec].
    - IPNet.v, NetProps.v: subnets (libxorp/ipnet.hh) and their contracts.
    - Sample.v: concrete addresses, subnets and tries for the witnesses.
    - Trie.v: the trie of libxorp/trie.hh.  TrieSpec.v: its invariant and its
      abstract map.  TrieMap.v: refinement.  TrieIter.v: the iterators.
      TrieBounds.v: [find_bounds], [lower_bound], [unbind_root].
    - AsPath.v, AsPathProps.v: AS numbers, segments and paths (libxorp/asnum.hh,
      bgp/aspath.hh, bgp/aspath.cc).
    - Decision.v: [DecisionTable] for one subnet (bgp/route_table_decision.cc).
      DecisionProps.v: [find_winner].  DecisionTable.v: the table.
    - VrrpPacket.v, VrrpPacketProps.v: advertisements (vrrp/vrrp_packet.cc,
      libproto/checksum.c).  Vrrp.v: [Vrrp] and [VrrpVif] (vrrp/vrrp.cc,
      vrrp_vif.cc, vrrp_target.cc).  VrrpProps.v, VrrpVifProps.v: the invariants
      of a router and of an interface.  VrrpProtocol.v: runs, and two masters.
    - Spt.v: [Spt], [Node], [PriorityQueue] (libproto/spt.hh).  SptProps.v:
      Dijkstra's loop.  SptCompute.v: [compute].  SptRun.v: runs.
    - TimeVal.v (libxorp/timeval.hh).  Heap.v, HeapProps.v, HeapQueue.v: the heap
      (libxorp/heap.hh, heap.cc) and the priority queue it refines.  Timer.v: timer
      nodes, handles and the timer list (libxorp/timer.hh, timer.cc).  TimerProps.v:
      its invariant.  TimerRun.v, TimerClaims.v: programs that use timers.
    - BgpPeer.v: [BGPPeer] and [SocketClient] (bgp/peer.cc, bgp/socket.cc).
      BgpPeerProps.v: the invariant of the machine.  BgpPeerRun.v: runs.
    - RibTables.v: routes, [OriginTable], [RedistTable] (rib/route.hh, rt_tab_origin.cc,
      rt_tab_redist.cc).  ExtInt.v: [ExtIntTable] (rib/rt_tab_extint.cc), with the
      resolution of next hops.  Rib.v: [RIB] (rib/rib.cc), with the interfaces.
      ExtIntProps.v, RibKeys.v: what the handlers of [ExtIntTable] do, on the maps of
      winning routes and at one subnet.  RibProps.v, RibRun.v, RibClaims.v: the
      invariant, the operations and the runs of the RIB.
    - RipQueue.v: [UpdateQueueImpl] (rip/update_queue.cc).  RipQueueProps.v,
      RipQueueRun.v, RipQueueClaims.v: the log with cursors that it refines.
    - RipRoute.v: [RouteEntry], its filters (rip/route_entry.cc, rip_varrw.cc) and the
      order of subnets.
      RipDB.v: [RouteDB] and [RouteEntryOrigin] (rip/route_db.cc, route_entry.cc).
      RipDBProps.v, RipDBUpdate.v, RipDBRun.v, RipClaims.v: its invariant, what an update
      does in each case, the runs, and convergence.
    - RipPacket.v: packets and entries (rip/packets.hh, packet_assembly.hh).  RipAuth.v: authentication (rip/auth.cc).  RipPeer.v: peers
      (rip/peer.cc).  RipOutput.v, RipOutputProps.v: [PacketQueue], [RouteWalker],
      [OutputTable], [OutputUpdates] (rip/packet_queue.cc, output_table.cc,
      output_updates.cc).  RipAsm.v: the two assemblers keep their laws.
    - RipPort.v: [Port] (rip/port.cc).  RipPortProps.v, RipPortSafe.v: received
      responses.  RipHeard.v: a dump as a neighbour hears it.  RipPortClaims.v: split
      horizon, keys, and the runs that fail.  RipExamples.v: concrete ports and packets.
    - PolicyElem.v, PolicyOps.v: the elements of policies with their texts, the operations
      and [Dispatcher] (policy/common).  PolicyExec.v: [IvExec] and the interface [VarRW]
      (policy/backend/iv_exec.cc, policy/common/varrw.cc).
      PolicyCode.v: policies as trees, [VarMap], [CodeGenerator], the text that
      [FilterManager] sends, the scanner and grammar of the backend, [PolicyFilter] and
      [PolicyFilters] (policy/node.hh, var_map.cc, code_generator.cc, filter_manager.cc,
      policy/backend).  PolicyVisit.v: [VisitorSemantic] and [VisitorTest].
      PolicyRun.v: the code against the test run.  PolicyText.v: the text against the
      code.  PolicyTypes.v: the types of the semantic check.  PolicyVar.v: [SingleVarRW]
      and the [RIPVarRW] of both families; [rip_run_filter] is the policy that RipRoute.v
      takes as a parameter.  PolicyClaims.v: what follows for a configured filter.

    ** How the code is translated

    A class is a [Record] of its data members; a member function is a definition
    from the object to its new value.  Words are [Z] with the wrap-around or the
    truncation written out; arithmetic of [int], undefined on overflow, is checked
    ([IntOverflow]).  A thrown exception, a failed assertion, a fatal log and a read
    outside an object are four different values of [xorp_exn].  A pointer to a trie
    node is the path to it; pointers to the nodes of a shortest path tree, to timer
    nodes and to heap objects are names in a store, because these objects are shared.
    What a daemon does to the outside (XRLs, packets, installed addresses) is
    recorded in the order in which it happens.

    ** What is proved

    - Addresses and subnets: containment is inclusion of address sets, the order of
      subnets is total with a subnet before those that contain it, [common_subnet] is
      the smallest common superset, the steps to the neighbouring block are inverse
      and wrap, masks and octets round trip on either byte order.
    - Trie: every operation keeps the invariant and every sequence of operations is
      simulated by a finite map; [find] is the longest prefix match; the scans
      terminate and enumerate the map; the lower end of [find_bounds] is exact.
    - AS paths: encoding and decoding are inverse, decoding is safe on arbitrary
      octets, prepending and merging do what RFC 4271 and RFC 4893 ask.
    - Decision process: [find_winner] is total on acceptable routes, independent of
      the order of the branches, and the table announces a winner in every reachable
      state.
    - VRRP: the invariant of an interface in every run and the one event that aborts it,
      the round trip of an advertisement, takeover by a backup and the election between
      two masters.
    - Shortest path tree: Dijkstra's loop terminates with shortest distances and
      consistent next hops; in every run the commands of [compute] turn the previous
      routes into shortest ones.
    - Timers: the heap refines a priority queue, no program that uses live handles
      reaches an error, the most urgent expired timer fires, a periodic timer does not
      drift, and the event loop sleeps for the right time.
    - BGP sessions: without a delayed open, every run that avoids three situations is
      free of aborts and keeps socket, timers and handler as the state requires, and each
      of the three leads to an abort ([careless_event_aborts]); a
      session is entered only by the handshake and torn down on the hold timer.
    - RIB: with connected next hops, in every run no assertion fails and the route
      installed for a subnet is the stored one with the lowest distance; a lookup
      answers with the longest prefix of any protocol; operations store what they say.
    - RIP: the update queue refines a log with a cursor per reader; every run of the
      database that respects its conditions is safe and counts references exactly; after
      two rounds of announcements the table has a route of lowest cost; a route that is
      not refreshed becomes unreachable and leaves; a dump says every advertised route
      once and in order, and a RIPv2 neighbour turns it into exactly these updates; no
      response whose authentication stays in the packet makes a port fail; split horizon
      holds; a packet under a key cannot be replayed while its sender is not a new peer.
    - Policies: the text made for an import policy is read back as its instructions, sets
      and subroutines; a filter configured with it does what the test run of the policy
      says, on any variables that keep the laws of [VarRW], without leaving the stack and
      the trash of the machine; the types found by the semantic check are those of the
      test run; the variables of a route are cached and committed as last written.  The
      conditions are [policy_ok] (the test run and the code have the same order of effects),
      [fits] (the sizes of stack and trash), [vars_sane] (the map of variables is filled by
      [add_variable]) and [policies_readable] (names are words, elements have texts that are
      read back).
    - The places where the code does not do what it means to do are theorems: among them
      [peer_runs_that_abort], [rib_runs_that_fail], [different_names_abort],
      [configure_no_address_aborts], [as4path_decode_aborts],
      [trie_erase_key_erases_other], [rip_clash_aborts], [rip_revived_update_lost],
      [ripng_dump_heard], [md5_short_offset_overread], [md5_add_key_disables],
      [rip_passive_request_aborts], [ripng_long_prefix_aborts], and for policies
      [next_policy_escapes], [accept_comes_last], [keyword_names_fail],
      [nexthop_kind_aborts] and [recursive_policy_never_ends].

    ** Fuel

    The searches of the trie recurse on the tree.  The iterators and the scans of a trie
    carry the number of its nodes; Dijkstra's loop carries the number of nodes plus one,
    since every node enters the queue at most once; [bubble_up] and [move_up] carry the
    index of the hole plus one, which every turn halves; [fill_hole] and [move_down]
    carry the number of elements, which bounds the index; the loops over next hops in
    [ExtIntTable] carry the number of entries of their multimap plus one.  In RIP, fast
    forwarding all readers carries their number, the packing of a dump the number of
    routes plus one, of triggered updates the number of queued updates plus one, the loops
    over the entries of a packet its octets, and the making of space in the packet queue
    its length plus one.  Policies carry the depth of the calls of subroutines;
    the program recurses without a bound, and does not end on a policy that calls itself
    ([recursive_policy_never_ends]).  Running out is [Throw Fatal]
    or [None], and the theorems state that a result is returned, so that the fuel is
    enough; for policies they are stated of runs of the test run that have an outcome, and the
    machine with the depth of the policy as fuel then has one.  The loops over next hops are entered only with external next hops, which the
    theorems about the RIB do not cover.  The other exception is the merge of AS4_PATHs, whose loop of [pad_segment] does
    not terminate on an empty set, as [merge_hangs] shows.

    ** Parameters

    The host byte order; the conversion of strings to addresses ([inet_pton]); the next
    hop resolver of BGP, a function from next hops to resolvability and metric; the
    callbacks of timers ([dispatch]), which may do any operation on the timers; the
    outcome of a [connect] and the decoded packets that reach a session; the addresses
    at which nodes of the shortest path tree are allocated.  In RIP: the policy engine
    ([run_filter]), which may reject a route, change its variables or raise an exception;
    the digest of MD5; the random part of intervals; the success of a send; and the tree
    of interfaces.  In policies: regular expressions ([regcomp]) and the texts of addresses
    ([inet_ntop], [inet_pton]).

    ** Not modelled

    The XRL transport and the generated stubs, the CLI, the process manager and the
    forwarding engine are input and output around the logic.  The second session
    machine for incoming connections ([AcceptSession]) appears only through its effects
    on the first; parameter negotiation and the encoding of BGP packets appear as
    their outcomes.  [DecisionTable] is modelled for one subnet, without route dumps,
    next-hop changes and peering events.  The random jitter of timers, floating-point
    time values and the system clock are left out.  [Spt::incremental_spt] is
    unfinished in the source.  In VRRP the XRL callbacks are left out: an error of a send
    is an event, and any other error is fatal to the process.  In the RIB, the deletion of the routes of a protocol that
    shuts down, the registrations and the policy tags are left out, and correctness of
    the resolution of next hops, which fails in the situations of [rib_runs_that_fail],
    is not stated.  In RIP the XRL handlers, the creation and removal of ports and their
    sockets, and the notifier of the RIB are left out; the handlers bound the expiry and
    deletion times by 10000 seconds, which keeps the arithmetic on them in range.  Of the
    policy engine, the generators of export and source-match code, the order of terms by
    [ConfigNodeId], the grammar of the configuration, [Configuration] and its dependencies,
    the queues of [FilterManager], the traces and profiles, and the [VarRW]s of the
    protocols other than RIP are left out.  BGP's
    path attributes and damping, OSPF's databases and PIM are not modelled. *)

From Stdlib Require Import ZArith Lia.
From stdpp Require Import base tactics option list numbers decidable.

#[global] Set Default Goal Selector "!".

Declare Scope xorp_scope.
Delimit Scope xorp_scope with xorp.

(** ** Fallible computations

    The C++ code signals errors with exceptions ([xorp_throw]); a function that
    may throw returns a [result].  Five constructors are not caught by the program:
    a false [XLOG_ASSERT], an [XLOG_FATAL] (also the answer of a loop that runs out
    of fuel), and, undefined in the language, a read outside an object, an
    arithmetic overflow of an [int] and a division by zero. *)
Inductive xorp_exn : Type :=
  | InvalidNetmaskLength (len : Z)
  | InvalidString
  | InvalidFamily (family : Z)
  | CorruptMessage
  | AssertFailed
  | Fatal
  | OutOfBounds
  | IntOverflow
  | DivideByZero
  | VrrpException
  | PolicyException.

Inductive result (E A : Type) : Type :=
  | Ok (a : A)
  | Throw (e : E).
Arguments Ok {E A} a.
Arguments Throw {E A} e.

Definition result_bind {E A B} (m : result E A) (k : A -> result E B) : result E B :=
  match m with Ok a => k a | Throw e => Throw e end.

Notation "x <-! m ;; k" := (result_bind m (fun x => k))
  (at level 60, m at next level, right associativity) : xorp_scope.

#[global] Instance xorp_exn_eq_dec : EqDecision xorp_exn.
Proof. solve_decision. Defined.

#[global] Instance result_eq_dec {E A} `{EqDecision E, EqDecision A} :
  EqDecision (result E A).
Proof. solve_decision. Defined.

(** ** Automation *)
Create HintDb xorp discriminated.
Create HintDb xorp_arith discriminated.

(** Case analysis on the boolean tests of the code, turned into propositions. *)
Ltac bool_prop :=
  repeat match goal with
  | H : (_ && _)%bool = true |- _ => apply andb_true_iff in H; destruct H
  | H : (_ && _)%bool = false |- _ => apply andb_false_iff in H; destruct H
  | H : (_ || _)%bool = true |- _ => apply orb_true_iff in H; destruct H
  | H : (_ || _)%bool = false |- _ => apply orb_false_iff in H; destruct H
  | H : negb _ = true |- _ => apply negb_true_iff in H
  | H : negb _ = false |- _ => apply negb_false_iff in H
  | H : (_ =? _)%Z = true |- _ => apply Z.eqb_eq in H
  | H : (_ =? _)%Z = false |- _ => apply Z.eqb_neq in H
  | H : (_ <? _)%Z = true |- _ => apply Z.ltb_lt in H
  | H : (_ <? _)%Z = false |- _ => apply Z.ltb_ge in H
  | H : (_ <=? _)%Z = true |- _ => apply Z.leb_le in H
  | H : (_ <=? _)%Z = false |- _ => apply Z.leb_gt in H
  | H : (_ >? _)%Z = true |- _ => rewrite Z.gtb_ltb in H; apply Z.ltb_lt in H
  | H : (_ >? _)%Z = false |- _ => rewrite Z.gtb_ltb in H; apply Z.ltb_ge in H
  | H : (_ >=? _)%Z = true |- _ => rewrite Z.geb_leb in H; apply Z.leb_le in H
  | H : (_ >=? _)%Z = false |- _ => rewrite Z.geb_leb in H; apply Z.leb_gt in H
  end.

(** Split every [if] of the goal, with the test as a proposition. *)
Ltac case_if :=
  match goal with
  | |- context [if ?b then _ else _] =>
      lazymatch b with context [if _ then _ else _] => fail | _ => idtac end;
      match type of b with bool => let E := fresh "E" in destruct b eqn:E end
  end; bool_prop.

Ltac case_if_in H :=
  match type of H with
  | context [if ?b then _ else _] =>
      lazymatch b with context [if _ then _ else _] => fail | _ => idtac end;
      match type of b with bool => let E := fresh "E" in destruct b eqn:E end
  end; bool_prop.

(** Split the conjunctions of the goal without unfolding a definition. *)
Ltac split_conj := repeat match goal with |- _ /\ _ => split end.

(** [lia] for goals with division or modulo by a constant. *)
Ltac dlia := Z.div_mod_to_equations; lia.

(** Two booleans are equal when they decide equivalent propositions. *)
Lemma bool_eq_iff (b c : bool) : (b = true <-> c = true) -> b = c.
Proof. destruct b, c; intuition congruence. Qed.

Local Open Scope Z_scope.

(** ** Powers of two and bits *)
Lemma pow2_pos n : 0 <= n -> 0 < 2 ^ n.
Proof. intros; apply Z.pow_pos_nonneg; lia. Qed.

Lemma pow2_split a b : 0 <= b <= a -> 2 ^ a = 2 ^ (a - b) * 2 ^ b.
Proof. intros; rewrite <- Z.pow_add_r by lia; f_equal; lia. Qed.

Lemma pow2_mono a b : 0 <= a <= b -> 2 ^ a <= 2 ^ b.
Proof. intros; apply Z.pow_le_mono_r; lia. Qed.

#[export] Hint Resolve pow2_pos : xorp_arith.

(** A number below [2^n] has no bit at or above [n]. *)
Lemma testbit_high x n i : 0 <= x < 2 ^ n -> n <= i -> Z.testbit x i = false.
Proof.
  intros Hx Hi. destruct (Z.eq_dec x 0) as [->|Hne]; [apply Z.bits_0|].
  apply Z.bits_above_log2; [lia|].
  assert (0 <= n) by (destruct (Z.le_gt_cases 0 n); [done|]; rewrite Z.pow_neg_r in Hx by lia; lia).
  apply Z.log2_lt_pow2; [lia|].
  assert (2 ^ n <= 2 ^ i) by (apply Z.pow_le_mono_r; lia). lia.
Qed.

(** Conversely, no bit at or above [n] bounds a nonnegative number. *)
Lemma bits_bound x n :
  0 <= x -> 0 <= n -> (forall i, n <= i -> Z.testbit x i = false) -> x < 2 ^ n.
Proof.
  intros Hx Hn Hb. destruct (Z.eq_dec x 0) as [->|]; [auto with xorp_arith|].
  apply Z.log2_lt_pow2; [lia|].
  destruct (Z.lt_ge_cases (Z.log2 x) n) as [|Hge]; [done|].
  specialize (Hb _ Hge). rewrite Z.bit_log2 in Hb by lia. done.
Qed.

(** Two numbers below [2^n] are equal when their low [n] bits are. *)
Lemma bits_ext n x y :
  0 <= x < 2 ^ n -> 0 <= y < 2 ^ n ->
  (forall i, 0 <= i < n -> Z.testbit x i = Z.testbit y i) -> x = y.
Proof.
  intros Hx Hy Hb. apply Z.bits_inj'. intros i Hi.
  destruct (Z.lt_ge_cases i n); [by apply Hb; lia|].
  rewrite !(testbit_high _ n) by lia. done.
Qed.

Lemma land_bound x y n : 0 <= x < 2 ^ n -> 0 <= y -> 0 <= Z.land x y < 2 ^ n.
Proof.
  intros Hx Hy.
  assert (0 <= Z.land x y) by (apply Z.land_nonneg; lia).
  assert (0 <= n) by (destruct (Z.le_gt_cases 0 n); [done|]; rewrite Z.pow_neg_r in Hx by lia; lia).
  split; [done|]. apply bits_bound; [done|done|].
  intros i Hi. rewrite Z.land_spec, (testbit_high x n) by lia. done.
Qed.

Lemma lor_bound x y n :
  0 <= n -> 0 <= x < 2 ^ n -> 0 <= y < 2 ^ n -> 0 <= Z.lor x y < 2 ^ n.
Proof.
  intros Hn Hx Hy.
  assert (0 <= Z.lor x y) by (apply Z.lor_nonneg; lia).
  split; [done|]. apply bits_bound; [done|done|].
  intros i Hi. rewrite Z.lor_spec, !(testbit_high _ n) by lia. done.
Qed.

Lemma lxor_bound x y n :
  0 <= n -> 0 <= x < 2 ^ n -> 0 <= y < 2 ^ n -> 0 <= Z.lxor x y < 2 ^ n.
Proof.
  intros Hn Hx Hy.
  assert (0 <= Z.lxor x y) by (apply Z.lxor_nonneg; lia).
  split; [done|]. apply bits_bound; [done|done|].
  intros i Hi. rewrite Z.lxor_spec, !(testbit_high _ n) by lia. done.
Qed.

(** Bitwise complement within [n] bits is subtraction from all ones. *)
Lemma lnot_mod x n : 0 <= n -> 0 <= x < 2 ^ n -> (Z.lnot x) mod 2 ^ n = 2 ^ n - 1 - x.
Proof.
  intros Hn Hx. pose proof (pow2_pos n Hn). symmetry.
  apply (Z.mod_unique _ _ (-1)); [lia|]. unfold Z.lnot. lia.
Qed.

Lemma testbit_ones n i : 0 <= n -> Z.testbit (Z.ones n) i = (0 <=? i) && (i <? n).
Proof.
  intros. apply Z.testbit_ones; lia.
Qed.

Lemma testbit_mod_pow2 x n i :
  0 <= n -> 0 <= i -> Z.testbit (x mod 2 ^ n) i = (i <? n) && Z.testbit x i.
Proof.
  intros Hn Hi. destruct (Z.ltb_spec i n); simpl.
  - apply Z.mod_pow2_bits_low; lia.
  - apply Z.mod_pow2_bits_high; lia.
Qed.

(** The bits of the [n]-bit complement. *)
Lemma testbit_lnot_mod x n i :
  0 <= n -> 0 <= i -> Z.testbit (Z.lnot x mod 2 ^ n) i = (i <? n) && negb (Z.testbit x i).
Proof. intros. rewrite testbit_mod_pow2, Z.lnot_spec by lia. done. Qed.

(** ** Blocks of addresses

    A prefix of a [w]-bit address that leaves [n] free bits is the block of the
    [2^n] addresses that share the high bits: [align n x] is its first address. *)
Definition align (n x : Z) : Z := x - x mod 2 ^ n.

Lemma align_div n x : 0 <= n -> align n x = x / 2 ^ n * 2 ^ n.
Proof.
  intros Hn. pose proof (pow2_pos n Hn). unfold align.
  rewrite (Z.div_mod x (2 ^ n)) at 1 by lia. lia.
Qed.

Lemma align_bounds n x : 0 <= n -> align n x <= x < align n x + 2 ^ n.
Proof.
  intros Hn. pose proof (pow2_pos n Hn). unfold align.
  pose proof (Z.mod_pos_bound x (2 ^ n) ltac:(lia)). lia.
Qed.

Lemma align_nonneg n x : 0 <= n -> 0 <= x -> 0 <= align n x.
Proof.
  intros Hn Hx. pose proof (pow2_pos n Hn). rewrite align_div by done.
  apply Z.mul_nonneg_nonneg; [apply Z.div_pos|]; lia.
Qed.

(** [x] and [y] have the same block iff [y] lies in the block of [x]. *)
Lemma align_eq_iff n x y :
  0 <= n -> align n y = align n x <-> align n x <= y < align n x + 2 ^ n.
Proof.
  intros Hn. pose proof (pow2_pos n Hn). split.
  - intros <-. by apply align_bounds.
  - rewrite !align_div by done. intros Hy. f_equal. symmetry.
    apply (Z.div_unique_pos _ _ _ (y - x / 2 ^ n * 2 ^ n)); lia.
Qed.

Lemma align_idemp n x : 0 <= n -> align n (align n x) = align n x.
Proof.
  intros Hn. pose proof (pow2_pos n Hn). apply align_eq_iff; [done|]. lia.
Qed.

(** A coarser alignment absorbs a finer one. *)
Lemma align_align n m x : 0 <= m <= n -> align n (align m x) = align n x.
Proof.
  intros Hmn. pose proof (pow2_pos n ltac:(lia)). pose proof (pow2_pos m ltac:(lia)).
  apply align_eq_iff; [lia|].
  pose proof (align_bounds m x ltac:(lia)). pose proof (align_bounds n x ltac:(lia)).
  split; [|lia].
  rewrite !align_div by lia. rewrite (pow2_split n m) by lia.
  rewrite Z.mul_assoc. apply Z.mul_le_mono_nonneg_r; [lia|].
  rewrite <- Z.div_le_lower_bound with (a := x) (q := x / (2 ^ (n - m) * 2 ^ m) * 2 ^ (n - m)) (b := 2 ^ m); [lia|lia|].
  pose proof (Z.mul_div_le x (2 ^ (n - m) * 2 ^ m) ltac:(nia)). nia.
Qed.

(** Clearing the low [n] bits with a mask is [align]. *)
Lemma land_high_mask w n x :
  0 <= n <= w -> 0 <= x < 2 ^ w -> Z.land x (2 ^ w - 2 ^ n) = align n x.
Proof.
  intros Hn Hx. unfold align.
  rewrite <- Z.land_ones by lia.
  replace (2 ^ w - 2 ^ n) with (Z.ldiff (Z.ones w) (Z.ones n)).
  2:{ rewrite <- Z.sub_nocarry_ldiff; [rewrite !Z.ones_equiv; lia|].
      apply Z.bits_inj'. intros i Hi. rewrite Z.ldiff_spec, Z.bits_0, !testbit_ones by lia.
      destruct (Z.ltb_spec i n), (Z.ltb_spec i w), (Z.leb_spec 0 i); simpl; lia || done. }
  rewrite Z.sub_nocarry_ldiff.
  - apply Z.bits_inj'. intros i Hi. rewrite Z.land_spec, !Z.ldiff_spec, Z.land_spec.
    rewrite !testbit_ones by lia.
    destruct (Z.lt_ge_cases i w).
    + destruct (Z.ltb_spec i w), (Z.leb_spec 0 i), (Z.ltb_spec i n), (Z.testbit x i); simpl; lia || done.
    + rewrite (testbit_high x w) by lia. done.
  - apply Z.bits_inj'. intros i Hi. rewrite Z.ldiff_spec, Z.land_spec, Z.bits_0.
    by destruct (Z.testbit x i), (Z.testbit (Z.ones n) i).
Qed.

(** Blocks agree when the addresses differ only in host bits. *)
Lemma align_eq_lxor n v w : 0 <= n -> 0 <= v -> 0 <= w ->
  align n v = align n w <-> Z.lxor v w < 2 ^ n.
Proof.
  intros Hn Hv Hw. pose proof (pow2_pos n Hn). rewrite !align_div by done.
  assert (0 <= Z.lxor v w) by (apply Z.lxor_nonneg; lia).
  assert (Z.lxor v w < 2 ^ n <-> Z.lxor v w / 2 ^ n = 0) as ->.
  { rewrite Z.div_small_iff by lia. lia. }
  rewrite <- (Z.shiftr_div_pow2 (Z.lxor v w)), Z.shiftr_lxor, Z.lxor_eq_0_iff, !Z.shiftr_div_pow2 by done.
  split; [|by intros ->]. intros E. apply Z.mul_cancel_r in E; lia.
Qed.
