(* ===== verification/OMap.v ===== *)
(** * Ordered maps

    [std::map<K, V>] and its iteration order: the list of its pairs, with the keys
    in increasing order of the comparison of [K].  The keys are compared with
    [operator<] alone, as the container does. *)

From Stdlib Require Import ZArith Lia Sorted.
From stdpp Require Import base tactics option numbers list.
From S2P Require Import Prelude.
Local Open Scope Z_scope.

(** The comparison of the keys, and what the container requires of it. *)
Class KeyOrder (K : Type) := key_ltb : K -> K -> bool.

Class KeyOrderLaws (K : Type) `{KeyOrder K} : Prop := {
  key_irrefl k : key_ltb k k = false;
  key_trans a b c : key_ltb a b = true -> key_ltb b c = true -> key_ltb a c = true;
  key_total a b : key_ltb a b = false -> key_ltb b a = false -> a = b }.

#[global] Instance Z_key : KeyOrder Z := Z.ltb.
#[global] Instance Z_key_laws : KeyOrderLaws Z.
Proof.
  split; unfold key_ltb, Z_key; intros; rewrite ?Z.ltb_lt, ?Z.ltb_ge, ?Z.ltb_irrefl in *; done || lia.
Qed.

Section OMap.
Context {K V : Type} `{KeyOrder K}.
Implicit Types (k : K) (v : V) (m : list (K * V)).

(** [find], [insert] or assignment through [operator[]], [erase(key)]. *)
Fixpoint m_find k m : option V :=
  match m with
  | [] => None
  | (k', v) :: m => if key_ltb k k' then None else if key_ltb k' k then m_find k m else Some v
  end.
Fixpoint m_insert k v m : list (K * V) :=
  match m with
  | [] => [(k, v)]
  | (k', v') :: m' =>
      if key_ltb k k' then (k, v) :: m else if key_ltb k' k then (k', v') :: m_insert k v m' else (k, v) :: m'
  end.
Fixpoint m_erase k m : list (K * V) :=
  match m with
  | [] => []
  | (k', v') :: m' => if key_ltb k k' then m else if key_ltb k' k then (k', v') :: m_erase k m' else m'
  end.

(** The keys increase. *)
Definition m_sorted m : Prop := StronglySorted (fun a b => key_ltb (fst a) (fst b) = true) m.

Context `{!KeyOrderLaws K}.

Lemma sorted_cons k v m : m_sorted ((k, v) :: m) <-> m_sorted m /\ forall k' v', (k', v') ∈ m -> key_ltb k k' = true.
Proof.
  split.
  - intros Hs. apply StronglySorted_inv in Hs as [Hs Hf]. split; [done|]. rewrite Forall_forall in Hf.
    intros k' v' Hin. by apply (Hf (k', v')).
  - intros [Hs Hf]. constructor; [done|]. apply Forall_forall. intros [k' v'] Hin. by apply (Hf k' v').
Qed.

Lemma find_elem k v m : m_sorted m -> m_find k m = Some v <-> (k, v) ∈ m.
Proof.
  induction m as [|[k' v'] m IH]; intros Hs; cbn [m_find]; [split; [done|by intros ?%elem_of_nil]|].
  apply sorted_cons in Hs as [Hs Hlt]. rewrite elem_of_cons.
  destruct (key_ltb k k') eqn:E1.
  { split; [done|]. intros [[= -> ->]|Hin]; [by rewrite key_irrefl in E1|].
    apply Hlt in Hin. pose proof (key_trans _ _ _ E1 Hin) as E. by rewrite key_irrefl in E. }
  destruct (key_ltb k' k) eqn:E2.
  { rewrite IH by done. split; [auto|]. intros [[= -> ->]|Hin]; [by rewrite key_irrefl in E2|done]. }
  pose proof (key_total _ _ E1 E2) as ->. split; [intros [= ->]; by left|]. intros [[= ->]|Hin]; [done|].
  apply Hlt in Hin. by rewrite key_irrefl in Hin.
Qed.

Lemma find_unique k v v' m : m_sorted m -> (k, v) ∈ m -> (k, v') ∈ m -> v = v'.
Proof. intros Hs H1 H2. apply find_elem in H1, H2; [|done..]. congruence. Qed.

Lemma insert_elem k v m k' v' : m_sorted m ->
  (k', v') ∈ m_insert k v m <-> (k' = k /\ v' = v) \/ (k' <> k /\ (k', v') ∈ m).
Proof.
  induction m as [|[a b] m IH]; intros Hs; cbn [m_insert].
  { rewrite list_elem_of_singleton, elem_of_nil. split; [intros [= -> ->]; auto|intros [[-> ->]|[_ []]]; done]. }
  pose proof Hs as Hs'. apply sorted_cons in Hs as [Hs Hlt].
  destruct (key_ltb k a) eqn:E1; [|destruct (key_ltb a k) eqn:E2].
  - rewrite elem_of_cons. split; [intros [[= -> ->]|Hin]; [auto|]|intros [[-> ->]|[_ Hin]]; auto].
    right. split; [|done]. intros ->. apply elem_of_cons in Hin as [[= -> ->]|Hin]; [by rewrite key_irrefl in E1|].
    apply Hlt in Hin. pose proof (key_trans _ _ _ E1 Hin) as E. by rewrite key_irrefl in E.
  - rewrite !elem_of_cons, IH by done. split.
    + intros [[= -> ->]|[?|[? ?]]]; auto. right. split; [|auto]. intros ->. by rewrite key_irrefl in E2.
    + intros [?|[? [[= -> ->]|?]]]; auto.
  - pose proof (key_total _ _ E1 E2) as ->. rewrite !elem_of_cons. split.
    + intros [[= -> ->]|Hin]; [auto|]. right. split; [|auto]. intros ->. apply Hlt in Hin. by rewrite key_irrefl in Hin.
    + intros [[-> ->]|[Hne [[= -> ->]|Hin]]]; auto. done.
Qed.

Lemma erase_elem k m k' v' : m_sorted m -> (k', v') ∈ m_erase k m <-> k' <> k /\ (k', v') ∈ m.
Proof.
  induction m as [|[a b] m IH]; intros Hs; cbn [m_erase].
  { rewrite elem_of_nil. split; [done|by intros [_ ?]]. }
  apply sorted_cons in Hs as [Hs Hlt].
  destruct (key_ltb k a) eqn:E1; [|destruct (key_ltb a k) eqn:E2].
  - rewrite elem_of_cons. split; [|by intros [_ ?]]. intros Hin. split; [|done]. intros ->.
    destruct Hin as [[= -> ->]|Hin]; [by rewrite key_irrefl in E1|].
    apply Hlt in Hin. pose proof (key_trans _ _ _ E1 Hin) as E. by rewrite key_irrefl in E.
  - rewrite !elem_of_cons, IH by done. split.
    + intros [[= -> ->]|[? ?]]; [|auto]. split; [|auto]. intros ->. by rewrite key_irrefl in E2.
    + intros [? [?|?]]; auto.
  - pose proof (key_total _ _ E1 E2) as ->. rewrite elem_of_cons. split.
    + intros Hin. split; [|auto]. intros ->. apply Hlt in Hin. by rewrite key_irrefl in Hin.
    + intros [Hne [[= -> ->]|Hin]]; done.
Qed.

Lemma insert_sorted k v m : m_sorted m -> m_sorted (m_insert k v m).
Proof.
  induction m as [|[a b] m IH]; intros Hs; cbn [m_insert].
  { apply sorted_cons. split; [done|]. by intros ? ? ?%elem_of_nil. }
  pose proof Hs as Hs'. apply sorted_cons in Hs as [Hs Hlt].
  destruct (key_ltb k a) eqn:E1; [|destruct (key_ltb a k) eqn:E2].
  - apply sorted_cons. split; [done|]. intros k' v' [[= -> ->]|Hin]%elem_of_cons; [done|].
    apply Hlt in Hin. by eapply key_trans.
  - apply sorted_cons. split; [by apply IH|]. intros k' v' Hin.
    apply insert_elem in Hin as [[-> ->]|[_ Hin]]; [done| |done]. by eapply Hlt.
  - pose proof (key_total _ _ E1 E2) as ->. apply sorted_cons. split; [done|]. apply Hlt.
Qed.

Lemma erase_sorted k m : m_sorted m -> m_sorted (m_erase k m).
Proof.
  induction m as [|[a b] m IH]; intros Hs; cbn [m_erase]; [done|].
  pose proof Hs as Hs'. apply sorted_cons in Hs as [Hs Hlt].
  destruct (key_ltb k a); [done|]. destruct (key_ltb a k); [|done].
  apply sorted_cons. split; [by apply IH|]. intros k' v' Hin. apply erase_elem in Hin as [_ Hin]; [|done]. by eapply Hlt.
Qed.

Lemma filter_sorted (P : K * V -> Prop) `{!forall x, Decision (P x)} m : m_sorted m -> m_sorted (filter P m).
Proof.
  induction m as [|[a b] m IH]; intros Hs; [done|]. rewrite filter_cons. apply sorted_cons in Hs as [Hs Hlt].
  destruct (decide (P (a, b))); [|by apply IH]. apply sorted_cons. split; [by apply IH|].
  intros k' v' [_ Hin]%list_elem_of_filter. by eapply Hlt.
Qed.

Lemma sorted_keys m : m_sorted m -> NoDup (map fst m).
Proof.
  induction m as [|[a b] m IH]; intros Hs; [constructor|]. apply sorted_cons in Hs as [Hs Hlt].
  simpl. apply NoDup_cons. split; [|by apply IH]. intros Hin. apply list_elem_of_fmap in Hin as ([k v] & -> & Hin).
  apply Hlt in Hin. by rewrite key_irrefl in Hin.
Qed.

Lemma find_insert `{!EqDecision K} k v m k' : m_sorted m ->
  m_find k' (m_insert k v m) = if decide (k' = k) then Some v else m_find k' m.
Proof.
  intros Hs. pose proof (insert_sorted k v m Hs) as Hs'. apply option_eq. intros x. rewrite find_elem, insert_elem by done.
  case_decide as E; rewrite <- ?(find_elem k' x m) by done; split.
  - intros [[_ ->]|[? _]]; done.
  - intros [= ->]. auto.
  - intros [[? _]|[_ ?]]; done.
  - auto.
Qed.
End OMap.

#[export] Hint Resolve insert_sorted erase_sorted filter_sorted : xorp.
