(* ===== verification/Word32.v ===== *)
(** * 32-bit words

    The machine words of the C++ code: [uint32_t] arithmetic with its
    wrap-around, the byte-order conversions [ntohl]/[htonl] of the host, and the
    two bit-counting routines of libxorp/utils.hh.  A [uint32_t] is a [Z] in
    [[0, 2^32)]. *)

From Stdlib Require Import ZArith Lia.
From stdpp Require Import base tactics option list numbers.
From S2P Require Import Prelude.
Local Open Scope Z_scope.

Definition u32_max : Z := 0xffffffff.
Definition is_u32 (x : Z) : Prop := 0 <= x < 2 ^ 32.
Definition u32 (x : Z) : Z := x mod 2 ^ 32.
Definition u32_not (x : Z) : Z := u32 (Z.lnot x).
Definition u32_add (x y : Z) : Z := u32 (x + y).
Definition u32_sub (x y : Z) : Z := u32 (x - y).
Definition u32_shl (x n : Z) : Z := u32 (Z.shiftl x n).

Lemma u32_range x : is_u32 (u32 x).
Proof. unfold is_u32, u32. apply Z.mod_pos_bound. lia. Qed.

Lemma u32_small x : is_u32 x -> u32 x = x.
Proof. intros H. apply Z.mod_small. exact H. Qed.

Lemma u32_land x y : is_u32 x -> is_u32 y -> is_u32 (Z.land x y).
Proof. unfold is_u32. intros. apply land_bound; lia. Qed.

Lemma u32_lor x y : is_u32 x -> is_u32 y -> is_u32 (Z.lor x y).
Proof. unfold is_u32. intros. apply lor_bound; lia. Qed.

Lemma u32_lxor x y : is_u32 x -> is_u32 y -> is_u32 (Z.lxor x y).
Proof. unfold is_u32. intros. apply lxor_bound; lia. Qed.

Lemma u32_shiftr x n : 0 <= n -> is_u32 x -> is_u32 (Z.shiftr x n).
Proof.
  unfold is_u32. intros Hn Hx. rewrite Z.shiftr_div_pow2 by done.
  pose proof (pow2_pos n Hn). split; [apply Z.div_pos; lia|].
  apply Z.div_lt_upper_bound; [lia|]. nia.
Qed.

#[export] Hint Resolve u32_range u32_land u32_lor u32_lxor : xorp.

(** ** Byte order

    [ntohl] and [htonl] are the identity on a big-endian host and reverse the
    four octets on a little-endian one.  The host is a parameter, so that what
    is proved holds on both. *)
Class HostOrder := big_endian : bool.

Definition bswap32 (x : Z) : Z :=
  Z.lor (Z.lor (Z.shiftl (Z.land (Z.shiftr x 0) 0xff) 24)
               (Z.shiftl (Z.land (Z.shiftr x 8) 0xff) 16))
        (Z.lor (Z.shiftl (Z.land (Z.shiftr x 16) 0xff) 8)
               (Z.shiftl (Z.land (Z.shiftr x 24) 0xff) 0)).

Definition ntohl `{HostOrder} (x : Z) : Z := if big_endian then x else bswap32 x.
Definition htonl `{HostOrder} (x : Z) : Z := if big_endian then x else bswap32 x.

Lemma testbit_octet x a b i :
  0 <= a -> 0 <= b -> 0 <= i ->
  Z.testbit (Z.shiftl (Z.land (Z.shiftr x a) 0xff) b) i
  = (b <=? i) && (i <? b + 8) && Z.testbit x (i - b + a).
Proof.
  intros Ha Hb Hi. rewrite Z.shiftl_spec by lia.
  destruct (Z.leb_spec b i); simpl; [|by apply Z.testbit_neg_r; lia].
  rewrite Z.land_spec, Z.shiftr_spec by lia.
  change 0xff with (Z.ones 8). rewrite testbit_ones by lia.
  destruct (Z.leb_spec 0 (i - b)), (Z.ltb_spec (i - b) 8), (Z.ltb_spec i (b + 8));
    try lia; simpl; by rewrite ?andb_true_r, ?andb_false_r.
Qed.

(** Octet reversal permutes the bits: bit [i] comes from the same place of the
    mirrored octet. *)
Lemma testbit_bswap32 x i :
  0 <= i < 32 -> Z.testbit (bswap32 x) i = Z.testbit x (i mod 8 + 8 * (3 - i / 8)).
Proof.
  intros Hi. unfold bswap32. rewrite !Z.lor_spec, !testbit_octet by lia.
  assert (0 <= i < 8 /\ i / 8 = 0 \/ 8 <= i < 16 /\ i / 8 = 1 \/
          16 <= i < 24 /\ i / 8 = 2 \/ 24 <= i < 32 /\ i / 8 = 3)
    as [[? E]|[[? E]|[[? E]|[? E]]]] by dlia.
  all: rewrite E.
  all: repeat match goal with
       | |- context [?a <=? ?b] => destruct (Z.leb_spec a b); try lia
       | |- context [?a <? ?b] => destruct (Z.ltb_spec a b); try lia
       end; simpl; rewrite ?orb_false_r; f_equal; dlia.
Qed.

Lemma bswap32_range x : is_u32 (bswap32 x).
Proof.
  unfold is_u32, bswap32.
  assert (forall a b, 0 <= a -> 0 <= b <= 24 ->
            0 <= Z.shiftl (Z.land (Z.shiftr x a) 0xff) b < 2 ^ 32) as Hoct.
  { intros a b Ha Hb. rewrite Z.shiftl_mul_pow2 by lia.
    change 0xff with (Z.ones 8). rewrite Z.land_ones by lia.
    pose proof (Z.mod_pos_bound (Z.shiftr x a) (2 ^ 8) ltac:(lia)).
    pose proof (pow2_mono b 24 ltac:(lia)). pose proof (pow2_pos b ltac:(lia)). nia. }
  repeat apply lor_bound; try apply Hoct; lia.
Qed.

Lemma bswap32_involutive x : is_u32 x -> bswap32 (bswap32 x) = x.
Proof.
  intros Hx. apply (bits_ext 32); [apply bswap32_range|exact Hx|].
  intros i Hi. rewrite !testbit_bswap32 by dlia. f_equal. dlia.
Qed.

Section HostOrder.
Context `{HostOrder}.

Lemma ntohl_range x : is_u32 x -> is_u32 (ntohl x).
Proof. unfold ntohl. destruct big_endian; auto using bswap32_range. Qed.

Lemma htonl_range x : is_u32 x -> is_u32 (htonl x).
Proof. exact (ntohl_range x). Qed.

Lemma htonl_ntohl x : is_u32 x -> htonl (ntohl x) = x.
Proof. unfold htonl, ntohl. destruct big_endian; auto using bswap32_involutive. Qed.

Lemma ntohl_htonl x : is_u32 x -> ntohl (htonl x) = x.
Proof. exact (htonl_ntohl x). Qed.

Lemma ntohl_inj x y : is_u32 x -> is_u32 y -> ntohl x = ntohl y -> x = y.
Proof. intros Hx Hy E. rewrite <- (htonl_ntohl x), <- (htonl_ntohl y), E; auto. Qed.

(** A bitwise operation may be done before or after the conversion. *)
Lemma ntohl_bitwise2 (f : Z -> Z -> Z) (g : bool -> bool -> bool) x y :
  (forall a b i, Z.testbit (f a b) i = g (Z.testbit a i) (Z.testbit b i)) ->
  is_u32 x -> is_u32 y ->
  (forall a b, is_u32 a -> is_u32 b -> is_u32 (f a b)) ->
  ntohl (f x y) = f (ntohl x) (ntohl y).
Proof.
  intros Hf Hx Hy Hr. unfold ntohl. destruct big_endian; [done|].
  apply (bits_ext 32); [apply bswap32_range|apply Hr; apply bswap32_range|].
  intros i Hi. rewrite Hf, !testbit_bswap32, Hf by lia. done.
Qed.

Lemma ntohl_land x y : is_u32 x -> is_u32 y -> ntohl (Z.land x y) = Z.land (ntohl x) (ntohl y).
Proof. intros. apply (ntohl_bitwise2 _ andb); auto using Z.land_spec with xorp. Qed.

Lemma ntohl_lor x y : is_u32 x -> is_u32 y -> ntohl (Z.lor x y) = Z.lor (ntohl x) (ntohl y).
Proof. intros. apply (ntohl_bitwise2 _ orb); auto using Z.lor_spec with xorp. Qed.

Lemma ntohl_lxor x y : is_u32 x -> is_u32 y -> ntohl (Z.lxor x y) = Z.lxor (ntohl x) (ntohl y).
Proof. intros. apply (ntohl_bitwise2 _ xorb); auto using Z.lxor_spec with xorp. Qed.

Lemma ntohl_not x : is_u32 x -> ntohl (u32_not x) = u32_not (ntohl x).
Proof.
  intros Hx. unfold ntohl, u32_not. destruct big_endian; [done|].
  apply (bits_ext 32); [apply bswap32_range|apply u32_range|].
  intros i Hi. unfold u32. rewrite testbit_bswap32, !testbit_lnot_mod, testbit_bswap32 by dlia.
  destruct (Z.ltb_spec (i mod 8 + 8 * (3 - i / 8)) 32), (Z.ltb_spec i 32); dlia || done.
Qed.

Lemma ntohl_0 : ntohl 0 = 0.
Proof. unfold ntohl. by destruct big_endian. Qed.

Lemma ntohl_max : ntohl u32_max = u32_max.
Proof. unfold ntohl. by destruct big_endian. Qed.
End HostOrder.

#[export] Hint Resolve ntohl_range htonl_range bswap32_range : xorp.

(** [memcpy] from and to an [uint32_t]: the octets in the order of the host's
    memory. *)
Definition u32_to_mem `{HostOrder} (x : Z) : list Z :=
  let le := [Z.land x 0xff; Z.land (Z.shiftr x 8) 0xff;
             Z.land (Z.shiftr x 16) 0xff; Z.land (Z.shiftr x 24) 0xff] in
  if big_endian then rev le else le.
Definition u32_of_le (l : list Z) : Z :=
  foldr (fun b acc => Z.lor b (Z.shiftl acc 8)) 0 l.
Definition u32_of_mem `{HostOrder} (l : list Z) : Z :=
  u32_of_le (if big_endian then rev l else l).

(** ** Bit counting (libxorp/utils.hh) *)
Definition xorp_bit_count_uint32 (x : Z) : Z :=
  let x := u32_sub x (Z.land (Z.shiftr x 1) 0x55555555) in
  let x := u32_add (Z.land (Z.shiftr x 2) 0x33333333) (Z.land x 0x33333333) in
  let x := Z.land (u32_add (Z.shiftr x 4) x) 0x0f0f0f0f in
  let x := u32_add x (Z.shiftr x 8) in
  let x := u32_add x (Z.shiftr x 16) in
  Z.land x 0x0000003f.

Definition smear (x : Z) : Z :=
  let x := Z.lor x (Z.shiftr x 1) in
  let x := Z.lor x (Z.shiftr x 2) in
  let x := Z.lor x (Z.shiftr x 4) in
  let x := Z.lor x (Z.shiftr x 8) in
  Z.lor x (Z.shiftr x 16).

Definition xorp_leading_zero_count_uint32 (x : Z) : Z :=
  u32_sub 32 (xorp_bit_count_uint32 (smear x)).

(** Reference definition: the number of set bits among the low [n]. *)
Fixpoint popcount (n : nat) (x : Z) : Z :=
  match n with
  | O => 0
  | S n => Z.b2z (Z.odd x) + popcount n (Z.div2 x)
  end.

(** A number as the list of its base-[2^w] digits, least significant first. *)
Fixpoint fields (w : Z) (ds : list Z) : Z :=
  match ds with [] => 0 | d :: ds => d + 2 ^ w * fields w ds end.

Fixpoint bits (n : nat) (x : Z) : list Z :=
  match n with O => [] | S n => Z.b2z (Z.odd x) :: bits n (Z.div2 x) end.

Definition digits_ok (w : Z) (ds : list Z) : Prop := Forall (fun d => 0 <= d < 2 ^ w) ds.

Lemma fields_nonneg w ds : 0 <= w -> digits_ok w ds -> 0 <= fields w ds.
Proof.
  intros Hw. induction 1 as [|d ds Hd _ IH]; simpl; [lia|].
  pose proof (pow2_pos w Hw). nia.
Qed.

Lemma fields_bits n x : 0 <= x < 2 ^ Z.of_nat n -> fields 1 (bits n x) = x.
Proof.
  revert x. induction n as [|n IH]; intros x Hx; cbn [bits fields]; [simpl in Hx; lia|].
  rewrite Nat2Z.inj_succ, Z.pow_succ_r in Hx by lia.
  rewrite IH by (rewrite Z.div2_div; split; [apply Z.div_pos|apply Z.div_lt_upper_bound]; lia).
  rewrite (Z.div2_odd x) at 3. lia.
Qed.

Lemma bits_digits n x : digits_ok 1 (bits n x).
Proof.
  revert x. induction n as [|n IH]; intros x; constructor; [|apply IH].
  destruct (Z.odd x); simpl; lia.
Qed.

Lemma popcount_bits n x : popcount n x = foldr Z.add 0 (bits n x).
Proof. revert x. induction n as [|n IH]; intros x; simpl; [done|]. by rewrite IH. Qed.

(** Digits do not overlap: their sum is their disjunction. *)
Lemma add_lor_shiftl w a n :
  0 <= w -> 0 <= a < 2 ^ w -> a + 2 ^ w * n = Z.lor a (Z.shiftl n w).
Proof.
  intros Hw Ha. rewrite (Z.mul_comm (2 ^ w)), <- Z.shiftl_mul_pow2 by done.
  assert (Z.land a (Z.shiftl n w) = 0) as Hdisj.
  { apply Z.bits_inj'. intros i Hi. rewrite Z.land_spec, Z.bits_0, Z.shiftl_spec by lia.
    destruct (Z.lt_ge_cases i w); [by rewrite (Z.testbit_neg_r n), andb_false_r by lia|].
    by rewrite (testbit_high a w) by lia. }
  by rewrite Z.add_nocarry_lxor, Z.lxor_lor by done.
Qed.

(** A bitwise operation works digit by digit. *)
Lemma fields_bitwise2 (f : Z -> Z -> Z) (g : bool -> bool -> bool) w ds ms :
  (forall a b i, Z.testbit (f a b) i = g (Z.testbit a i) (Z.testbit b i)) ->
  g false false = false ->
  (forall a b, 0 <= a < 2 ^ w -> 0 <= b < 2 ^ w -> 0 <= f a b < 2 ^ w) ->
  0 <= w -> digits_ok w ds -> digits_ok w ms -> length ds = length ms ->
  f (fields w ds) (fields w ms) = fields w (zip_with f ds ms).
Proof.
  intros Hf Hg Hr Hw Hds. revert ms.
  induction Hds as [|d ds Hd Hds IH]; intros [|m ms] Hms Hl; try done.
  { simpl. apply Z.bits_inj'. intros i Hi. by rewrite Hf, Z.bits_0, Hg. }
  inversion Hms as [|? ? Hm Hms']; subst. simpl. rewrite <- IH by (done || (simpl in Hl; lia)).
  rewrite !add_lor_shiftl by auto.
  apply Z.bits_inj'. intros i Hi. rewrite Hf, !Z.lor_spec, Hf, !Z.shiftl_spec, Hf by lia.
  destruct (Z.lt_ge_cases i w).
  - rewrite !(Z.testbit_neg_r _ (i - w)) by lia. by rewrite Hg, !orb_false_r.
  - by rewrite (testbit_high d w), (testbit_high m w), Hg by lia.
Qed.

Lemma fields_land w ds ms :
  0 <= w -> digits_ok w ds -> digits_ok w ms -> length ds = length ms ->
  Z.land (fields w ds) (fields w ms) = fields w (zip_with Z.land ds ms).
Proof.
  intros. apply (fields_bitwise2 _ andb); auto using Z.land_spec.
  intros. apply land_bound; lia.
Qed.

Lemma fields_shiftr w d ds :
  0 <= w -> 0 <= d < 2 ^ w -> Z.shiftr (fields w (d :: ds)) w = fields w ds.
Proof.
  intros Hw Hd. rewrite Z.shiftr_div_pow2 by done. simpl.
  symmetry. apply (Z.div_unique_pos _ _ _ d); lia.
Qed.

Fixpoint pair_sums (ds : list Z) : list Z :=
  match ds with a :: b :: ds => (a + b) :: pair_sums ds | _ => ds end.

Lemma foldr_pair_sums n ds :
  length ds = (2 * n)%nat -> foldr Z.add 0 (pair_sums ds) = foldr Z.add 0 ds.
Proof.
  revert ds. induction n as [|n IH]; intros [|a [|b ds]] Hl; simpl in *; try lia.
  rewrite IH by lia. lia.
Qed.

Lemma pair_sums_bound n B ds :
  length ds = (2 * n)%nat -> Forall (fun d => 0 <= d <= B) ds ->
  length (pair_sums ds) = n /\ Forall (fun d => 0 <= d <= B + B) (pair_sums ds).
Proof.
  revert ds. induction n as [|n IH]; intros [|a [|b ds]] Hl H; simpl in *; try lia.
  - by split; constructor.
  - inversion H as [|? ? Ha H']; subst. inversion H' as [|? ? Hb H'']; subst.
    destruct (IH ds ltac:(lia) H'') as [Hl' Hf]. split; [lia|]. constructor; [lia|done].
Qed.


Lemma land_full w d : 0 <= w -> 0 <= d < 2 ^ w -> Z.land d (2 ^ w - 1) = d.
Proof.
  intros Hw Hd. replace (2 ^ w - 1) with (Z.ones w) by (rewrite Z.ones_equiv; lia).
  rewrite Z.land_ones by done. by apply Z.mod_small.
Qed.

Tactic Notation "explode" integer(n) hyp(ds) hyp(H) hyp(Hl) :=
  do n (destruct ds as [|? ds]; [simpl in Hl; lia|]; apply Forall_cons_iff in H; destruct H as [? H]);
  destruct ds; [|simpl in Hl; lia]; clear H Hl.

Ltac digits := first [lia | done | repeat constructor; lia].

Lemma bit_count_step1 ds :
  length ds = 32%nat -> Forall (fun d => 0 <= d <= 1) ds ->
  u32_sub (fields 1 ds) (Z.land (Z.shiftr (fields 1 ds) 1) 0x55555555) = fields 2 (pair_sums ds).
Proof.
  intros Hl H. explode 32 ds H Hl.
  rewrite fields_shiftr by lia.
  replace 0x55555555 with (fields 1 [1;0;1;0;1;0;1;0;1;0;1;0;1;0;1;0;1;0;1;0;1;0;1;0;1;0;1;0;1;0;1]) by done.
  rewrite fields_land by digits.
  cbn [zip_with pair_sums]. rewrite !Z.land_0_r.
  rewrite !(land_full 1) by lia.
  unfold u32_sub. rewrite u32_small; [|unfold is_u32]; simpl fields; lia.
Qed.

Lemma bit_count_step2 ds :
  length ds = 16%nat -> Forall (fun d => 0 <= d <= 2) ds ->
  u32_add (Z.land (Z.shiftr (fields 2 ds) 2) 0x33333333) (Z.land (fields 2 ds) 0x33333333)
  = fields 4 (pair_sums ds).
Proof.
  intros Hl H. explode 16 ds H Hl.
  rewrite fields_shiftr by lia.
  replace 0x33333333 with (fields 2 [3;0;3;0;3;0;3;0;3;0;3;0;3;0;3]) at 1 by done.
  replace 0x33333333 with (fields 2 [3;0;3;0;3;0;3;0;3;0;3;0;3;0;3;0]) at 1 by done.
  rewrite !fields_land by digits.
  cbn [zip_with pair_sums]. rewrite !Z.land_0_r.
  rewrite !(land_full 2) by lia.
  unfold u32_add. rewrite u32_small; [|unfold is_u32]; simpl fields; lia.
Qed.

Lemma bit_count_step3 ds :
  length ds = 8%nat -> Forall (fun d => 0 <= d <= 4) ds ->
  Z.land (u32_add (Z.shiftr (fields 4 ds) 4) (fields 4 ds)) 0x0f0f0f0f
  = fields 8 (pair_sums ds).
Proof.
  intros Hl H. explode 8 ds H Hl.
  rewrite fields_shiftr by lia.
  unfold u32_add. rewrite u32_small by (unfold is_u32; simpl fields; lia).
  match goal with |- Z.land ?s _ = _ => replace s with 
    (fields 4 [z+z0;z0+z1;z1+z2;z2+z3;z3+z4;z4+z5;z5+z6;z6]) by (simpl fields; lia) end.
  replace 0x0f0f0f0f with (fields 4 [15;0;15;0;15;0;15;0]) at 1 by done.
  rewrite !fields_land by digits.
  cbn [zip_with pair_sums]. rewrite !Z.land_0_r.
  rewrite !(land_full 4) by lia. simpl fields. lia.
Qed.

Lemma bit_count_step4 ds :
  length ds = 4%nat -> Forall (fun d => 0 <= d <= 8) ds ->
  let x := u32_add (fields 8 ds) (Z.shiftr (fields 8 ds) 8) in
  let x := u32_add x (Z.shiftr x 16) in
  Z.land x 0x0000003f = foldr Z.add 0 ds.
Proof.
  intros Hl H. explode 4 ds H Hl. cbv zeta.
  rewrite fields_shiftr by lia.
  unfold u32_add. rewrite (u32_small (fields 8 _ + fields 8 _)) by (unfold is_u32; simpl fields; lia).
  match goal with |- context [u32 (?s + _)] => replace s with 
    (fields 16 [z + z0 + 2 ^ 8 * (z0 + z1); z1 + z2 + 2 ^ 8 * z2]) by (simpl fields; lia) end.
  rewrite fields_shiftr by lia.
  rewrite u32_small by (unfold is_u32; simpl fields; lia).
  match goal with |- Z.land ?s _ = _ => replace s with
    (fields 8 [z + z0 + z1 + z2; z0 + z1 + z2; z1+z2; z2]) by (simpl fields; lia) end.
  replace 0x3f with (fields 8 [0x3f;0;0;0]) by done.
  rewrite !fields_land by digits. cbn [zip_with]. rewrite !Z.land_0_r.
  change 0x3f with (2 ^ 6 - 1). rewrite land_full by lia. simpl. lia.
Qed.

Theorem bit_count_correct x : is_u32 x -> xorp_bit_count_uint32 x = popcount 32 x.
Proof.
  intros Hx. rewrite popcount_bits.
  transitivity (xorp_bit_count_uint32 (fields 1 (bits 32 x)));
    [by rewrite fields_bits by exact Hx|].
  unfold xorp_bit_count_uint32.
  assert (length (bits 32 x) = 32%nat) as Hl by done.
  assert (Forall (fun d => 0 <= d <= 1) (bits 32 x)) as Hb.
  { pose proof (bits_digits 32 x) as Hd. apply Forall_forall. intros d Hin.
    pose proof (proj1 (Forall_forall _ _) Hd d Hin) as Hr. simpl in Hr. lia. }
  revert Hl Hb. generalize (bits 32 x). intros ds Hl Hb. cbv zeta.
  rewrite bit_count_step1 by done.
  destruct (pair_sums_bound 16 _ _ Hl Hb) as [Hl1 Hb1].
  rewrite bit_count_step2 by done.
  destruct (pair_sums_bound 8 _ _ Hl1 Hb1) as [Hl2 Hb2].
  rewrite bit_count_step3 by done.
  destruct (pair_sums_bound 4 _ _ Hl2 Hb2) as [Hl3 Hb3].
  rewrite bit_count_step4 by done.
  by rewrite (foldr_pair_sums 4), (foldr_pair_sums 8), (foldr_pair_sums 16).
Qed.

(** ** Leading zeroes *)
Definition filled (k x y : Z) : Prop :=
  forall i, 0 <= i -> Z.testbit y i = true <-> exists j, 0 <= j < k /\ Z.testbit x (i + j) = true.

(** One smearing step doubles the window each bit is the disjunction of. *)
Lemma filled_step k x y : 0 <= k -> filled k x y -> filled (k + k) x (Z.lor y (Z.shiftr y k)).
Proof.
  intros Hk Hf i Hi. rewrite Z.lor_spec, Z.shiftr_spec, orb_true_iff by lia.
  rewrite (Hf i Hi), (Hf (i + k) ltac:(lia)). split.
  - intros [(j & Hj & Ht)|(j & Hj & Ht)]; [exists j|exists (k + j)]; (split; [lia|]).
    + done.
    + rewrite <- Ht. f_equal. lia.
  - intros (j & Hj & Ht). destruct (Z.lt_ge_cases j k); [left; exists j|right; exists (j - k)].
    + auto with lia.
    + split; [lia|]. rewrite <- Ht. f_equal. lia.
Qed.

Lemma filled_smear x : filled 32 x (smear x).
Proof.
  unfold smear.
  assert (filled 1 x x) as H1.
  { intros i Hi. split; [intros Ht; exists 0; rewrite Z.add_0_r; auto with lia|].
    intros (j & Hj & Ht). replace (i + j) with i in Ht by lia. done. }
  apply (filled_step 16); [lia|]. apply (filled_step 8); [lia|].
  apply (filled_step 4); [lia|]. apply (filled_step 2); [lia|].
  apply (filled_step 1); [lia|done].
Qed.

(** Smearing fills every bit below the leading one. *)
Lemma smear_ones x : 0 < x < 2 ^ 32 -> smear x = Z.ones (Z.log2 x + 1).
Proof.
  intros Hx. pose proof (Z.log2_nonneg x).
  assert (Z.log2 x < 32) by (apply Z.log2_lt_pow2; lia).
  apply Z.bits_inj'. intros i Hi. apply bool_eq_iff.
  rewrite (filled_smear x i Hi), testbit_ones, andb_true_iff, Z.leb_le, Z.ltb_lt by lia.
  split.
  - intros (j & Hj & Ht). split; [lia|].
    destruct (Z.lt_ge_cases i (Z.log2 x + 1)); [done|].
    rewrite Z.bits_above_log2 in Ht by lia. done.
  - intros [_ Hlt]. exists (Z.log2 x - i). split; [lia|].
    replace (i + (Z.log2 x - i)) with (Z.log2 x) by lia. apply Z.bit_log2. lia.
Qed.

Theorem leading_zero_count_correct x :
  is_u32 x -> xorp_leading_zero_count_uint32 x = if x =? 0 then 32 else 31 - Z.log2 x.
Proof.
  intros Hx. destruct (Z.eqb_spec x 0) as [->|Hne]; [done|].
  unfold is_u32 in Hx. unfold xorp_leading_zero_count_uint32. rewrite smear_ones by lia.
  pose proof (Z.log2_nonneg x).
  assert (Z.log2 x < 32) by (apply Z.log2_lt_pow2; lia).
  assert (exists d, (d < 32)%nat /\ Z.log2 x = Z.of_nat d) as (d & Hd & Ed)
    by (exists (Z.to_nat (Z.log2 x)); lia).
  rewrite Ed. do 32 (destruct d as [|d]; [vm_compute; reflexivity|]). lia.
Qed.

(** ** Words in memory *)

Definition octet (k x : Z) : Z := Z.land (Z.shiftr x (8 * k)) 0xff.

Lemma octet_mod k x : 0 <= k -> octet k x = x / 2 ^ (8 * k) mod 256.
Proof.
  intros Hk. unfold octet. change 0xff with (Z.ones 8).
  rewrite Z.land_ones, Z.shiftr_div_pow2 by lia. done.
Qed.

Lemma octet_range k x : 0 <= octet k x < 256.
Proof. unfold octet. change 0xff with (Z.ones 8). rewrite Z.land_ones by lia. apply Z.mod_pos_bound. lia. Qed.

Lemma octet_bswap32 k x : 0 <= k <= 3 -> octet k (bswap32 x) = octet (3 - k) x.
Proof.
  intros Hk. apply (bits_ext 8); [apply octet_range..|]. intros i Hi. unfold octet.
  rewrite !Z.land_spec, !Z.shiftr_spec, testbit_bswap32 by lia. f_equal. f_equal. dlia.
Qed.

Lemma u32_of_le_val b0 b1 b2 b3 :
  0 <= b0 < 256 -> 0 <= b1 < 256 -> 0 <= b2 < 256 -> 0 <= b3 < 256 ->
  u32_of_le [b0; b1; b2; b3] = b0 + 256 * (b1 + 256 * (b2 + 256 * b3)).
Proof.
  intros H0 H1 H2 H3. unfold u32_of_le. simpl foldr. change 256 with (2 ^ 8).
  rewrite Z.shiftl_0_l, Z.lor_0_r. by rewrite !(add_lor_shiftl 8) by lia.
Qed.

Section Memory.
Context `{HostOrder}.

Lemma u32_to_mem_octets x :
  u32_to_mem x = if big_endian then [octet 3 x; octet 2 x; octet 1 x; octet 0 x]
                 else [octet 0 x; octet 1 x; octet 2 x; octet 3 x].
Proof. unfold u32_to_mem, octet. rewrite Z.shiftr_0_r. by destruct big_endian. Qed.

(** The octets of a network-order word are those of its value, first the most
    significant, whatever the host. *)
Lemma u32_to_mem_htonl x : u32_to_mem (htonl x) = [octet 3 x; octet 2 x; octet 1 x; octet 0 x].
Proof. rewrite u32_to_mem_octets. unfold htonl. destruct big_endian; [done|]. by rewrite !octet_bswap32 by lia. Qed.

Lemma u32_of_le_octets x : is_u32 x -> u32_of_le [octet 0 x; octet 1 x; octet 2 x; octet 3 x] = x.
Proof.
  intros Hx. rewrite u32_of_le_val by apply octet_range. rewrite !octet_mod by lia.
  unfold is_u32 in Hx. change (2 ^ (8 * 0)) with 1. change (2 ^ (8 * 1)) with 256.
  change (2 ^ (8 * 2)) with 65536. change (2 ^ (8 * 3)) with 16777216. dlia.
Qed.

Lemma u32_mem_roundtrip x : is_u32 x -> u32_of_mem (u32_to_mem x) = x.
Proof.
  intros Hx. unfold u32_of_mem. rewrite u32_to_mem_octets. destruct big_endian; by apply u32_of_le_octets.
Qed.

Lemma u32_of_le_range b0 b1 b2 b3 :
  0 <= b0 < 256 -> 0 <= b1 < 256 -> 0 <= b2 < 256 -> 0 <= b3 < 256 -> is_u32 (u32_of_le [b0; b1; b2; b3]).
Proof. intros. rewrite u32_of_le_val by done. unfold is_u32. lia. Qed.

Lemma mem_u32_roundtrip b0 b1 b2 b3 :
  0 <= b0 < 256 -> 0 <= b1 < 256 -> 0 <= b2 < 256 -> 0 <= b3 < 256 ->
  u32_to_mem (u32_of_mem [b0; b1; b2; b3]) = [b0; b1; b2; b3] /\ is_u32 (u32_of_mem [b0; b1; b2; b3]).
Proof.
  intros H0 H1 H2 H3. unfold u32_of_mem. rewrite u32_to_mem_octets.
  assert (forall b0 b1 b2 b3, 0 <= b0 < 256 -> 0 <= b1 < 256 -> 0 <= b2 < 256 -> 0 <= b3 < 256 ->
    let x := u32_of_le [b0; b1; b2; b3] in
    octet 0 x = b0 /\ octet 1 x = b1 /\ octet 2 x = b2 /\ octet 3 x = b3) as Hoct.
  { clear. intros b0 b1 b2 b3 H0 H1 H2 H3 x. unfold x. rewrite u32_of_le_val, !octet_mod by lia.
    change (2 ^ (8 * 0)) with 1. change (2 ^ (8 * 1)) with 256.
    change (2 ^ (8 * 2)) with 65536. change (2 ^ (8 * 3)) with 16777216. split_conj; dlia. }
  destruct big_endian; simpl rev.
  - destruct (Hoct b3 b2 b1 b0) as (-> & -> & -> & ->); try done. split; [done|]. by apply u32_of_le_range.
  - destruct (Hoct b0 b1 b2 b3) as (-> & -> & -> & ->); try done. split; [done|]. by apply u32_of_le_range.
Qed.

Lemma htonl_htonl x : is_u32 x -> htonl (htonl x) = x.
Proof. intros Hx. unfold htonl. destruct big_endian; [done|]. by apply bswap32_involutive. Qed.
End Memory.
