(* ===== verification/Addr.v ===== *)
(** * The address interface

    [IPNet<A>] and [Trie<A, Payload>] are C++ templates over an address class
    [A].  [AddrOps] lists the members of [A] they use, with their C++ names;
    [AddrSpec] states what those members promise: an address stands for a number
    [a_val] of [addr_bitlen] bits, and each operation computes on it.  The
    subnets and the tries are verified against this interface; IPv4.v and IPv6.v
    discharge it. *)

From Stdlib Require Import ZArith Lia.
From stdpp Require Import base tactics option list numbers.
From S2P Require Import Prelude.
Local Open Scope Z_scope.

Class AddrOps (A : Type) := {
  addr_bitlen : Z;                          (* A::addr_bitlen() *)
  a_af : Z;                                 (* A::af() *)
  a_zero : A;                               (* A::ZERO(), also A() *)
  a_not : A -> A;                           (* operator~ *)
  a_or : A -> A -> A;                       (* operator| *)
  a_and : A -> A -> A;                      (* operator& *)
  a_xor : A -> A -> A;                      (* operator^ *)
  a_shl : A -> Z -> A;                      (* operator<<(uint32_t) *)
  a_shr : A -> Z -> A;                      (* operator>>(uint32_t) *)
  a_ltb : A -> A -> bool;                   (* operator< *)
  a_eqb : A -> A -> bool;                   (* operator== *)
  a_dec : A -> A;                           (* operator-- *)
  a_inc : A -> A;                           (* operator++ *)
  a_make_prefix : Z -> result xorp_exn A;   (* A::make_prefix *)
  a_mask_by_prefix_len : A -> Z -> result xorp_exn A;
  a_masked_eqb : A -> Z -> A -> bool;       (* IPNet<A>::contains(const A&) of A *)
  a_leading_zero_count : A -> Z;
}.

(** The other comparisons are those of std::rel_ops, defined from [operator<]. *)
Definition a_leb `{AddrOps A} (x y : A) : bool := negb (a_ltb y x).
Definition a_geb `{AddrOps A} (x y : A) : bool := negb (a_ltb x y).
Definition a_gtb `{AddrOps A} (x y : A) : bool := a_ltb y x.

Class AddrSpec (A : Type) `{AddrOps A} := {
  a_wf : A -> Prop;
  a_val : A -> Z;
  bitlen_pos : 0 < addr_bitlen;
  (* a prefix length is a uint8_t *)
  bitlen_small : addr_bitlen < 2 ^ 8;
  a_val_range a : a_wf a -> 0 <= a_val a < 2 ^ addr_bitlen;
  a_val_inj a b : a_wf a -> a_wf b -> a_val a = a_val b -> a = b;
  a_val_surj z : 0 <= z < 2 ^ addr_bitlen -> exists a, a_wf a /\ a_val a = z;
  a_zero_spec : a_wf a_zero /\ a_val a_zero = 0;
  a_not_spec a : a_wf a -> a_wf (a_not a) /\ a_val (a_not a) = 2 ^ addr_bitlen - 1 - a_val a;
  a_or_spec a b : a_wf a -> a_wf b -> a_wf (a_or a b) /\ a_val (a_or a b) = Z.lor (a_val a) (a_val b);
  a_and_spec a b : a_wf a -> a_wf b -> a_wf (a_and a b) /\ a_val (a_and a b) = Z.land (a_val a) (a_val b);
  a_xor_spec a b : a_wf a -> a_wf b -> a_wf (a_xor a b) /\ a_val (a_xor a b) = Z.lxor (a_val a) (a_val b);
  a_shl_spec a n : a_wf a -> 0 <= n < 2 ^ 32 ->
    a_wf (a_shl a n) /\ a_val (a_shl a n) = Z.shiftl (a_val a) n mod 2 ^ addr_bitlen;
  a_shr_spec a n : a_wf a -> 0 <= n < 2 ^ 32 ->
    a_wf (a_shr a n) /\ a_val (a_shr a n) = Z.shiftr (a_val a) n;
  a_ltb_spec a b : a_wf a -> a_wf b -> a_ltb a b = (a_val a <? a_val b);
  a_eqb_spec a b : a_wf a -> a_wf b -> a_eqb a b = (a_val a =? a_val b);
  a_dec_spec a : a_wf a -> a_wf (a_dec a) /\ a_val (a_dec a) = (a_val a - 1) mod 2 ^ addr_bitlen;
  a_inc_spec a : a_wf a -> a_wf (a_inc a) /\ a_val (a_inc a) = (a_val a + 1) mod 2 ^ addr_bitlen;
  a_make_prefix_ok n : 0 <= n <= addr_bitlen ->
    exists m, a_make_prefix n = Ok m /\ a_wf m /\ a_val m = 2 ^ addr_bitlen - 2 ^ (addr_bitlen - n);
  a_make_prefix_throw n : addr_bitlen < n -> a_make_prefix n = Throw (InvalidNetmaskLength n);
  a_mask_spec a n : a_wf a ->
    a_mask_by_prefix_len a n =
      match a_make_prefix n with Ok m => Ok (a_and a m) | Throw e => Throw e end;
  a_masked_eqb_spec a n b m : a_wf a -> a_wf b -> a_make_prefix n = Ok m ->
    a_masked_eqb a n b = a_eqb (a_and a m) b;
  a_leading_zero_count_spec a : a_wf a ->
    a_leading_zero_count a
    = if a_val a =? 0 then addr_bitlen else addr_bitlen - 1 - Z.log2 (a_val a);
}.

Section AddrFacts.
Context `{AddrSpec A}.

Lemma a_leb_spec (x y : A) : a_wf x -> a_wf y -> a_leb x y = (a_val x <=? a_val y).
Proof. intros. unfold a_leb. rewrite a_ltb_spec by done. by rewrite Z.leb_antisym. Qed.

Lemma a_geb_spec (x y : A) : a_wf x -> a_wf y -> a_geb x y = (a_val y <=? a_val x).
Proof. intros. unfold a_geb. rewrite a_ltb_spec by done. by rewrite Z.leb_antisym. Qed.

Lemma a_eqb_eq (x y : A) : a_wf x -> a_wf y -> a_eqb x y = true <-> x = y.
Proof.
  intros Hx Hy. rewrite a_eqb_spec, Z.eqb_eq by done.
  split; [by apply a_val_inj|by intros ->].
Qed.

(** Masking an address keeps the first address of its block. *)
Lemma a_mask_ok (a : A) n :
  a_wf a -> 0 <= n <= addr_bitlen ->
  exists b, a_mask_by_prefix_len a n = Ok b /\ a_wf b /\ a_val b = align (addr_bitlen - n) (a_val a).
Proof.
  intros Ha Hn. rewrite a_mask_spec by done.
  destruct (a_make_prefix_ok n Hn) as (m & -> & Hm & Em).
  destruct (a_and_spec a m Ha Hm) as [Hw Hv].
  eexists; repeat split; [done|]. rewrite Hv, Em. apply land_high_mask; [lia|].
  by apply a_val_range.
Qed.

Lemma a_mask_throw (a : A) n :
  a_wf a -> addr_bitlen < n -> a_mask_by_prefix_len a n = Throw (InvalidNetmaskLength n).
Proof. intros Ha Hn. by rewrite a_mask_spec, a_make_prefix_throw. Qed.
End AddrFacts.

#[export] Hint Resolve a_val_range : xorp.
