(* ===== verification/IPv4.v ===== *)
(** * IPv4 addresses (libxorp/ipv4.hh, libxorp/ipv4.cc)

    The class [IPv4]: one [uint32_t] in network byte order.  Every member that
    computes on the value converts with [ntohl]/[htonl] exactly where the source
    does.  The instance [ipv4_spec] discharges the address interface. *)

From Stdlib Require Import ZArith Lia.
From stdpp Require Import base tactics option list numbers.
From S2P Require Import Prelude Word32 Addr.
Local Open Scope Z_scope.

Record IPv4 := mkIPv4 { ipv4_addr : Z (* _addr, network order *) }.

#[global] Instance IPv4_eq_dec : EqDecision IPv4.
Proof. solve_decision. Defined.

Definition AF_INET : Z := 2.

Section IPv4.
Context `{HostOrder}.

Definition ipv4_ZERO : IPv4 := mkIPv4 0.
Definition ipv4_ALL_ONES : IPv4 := mkIPv4 0xffffffff.
Definition ipv4_LOOPBACK : IPv4 := mkIPv4 (htonl 0x7f000001).
Definition ipv4_MULTICAST_BASE : IPv4 := mkIPv4 (htonl 0xe0000000).

Definition ipv4_not (a : IPv4) : IPv4 := mkIPv4 (u32_not (ipv4_addr a)).
Definition ipv4_or (a b : IPv4) : IPv4 := mkIPv4 (Z.lor (ipv4_addr a) (ipv4_addr b)).
Definition ipv4_and (a b : IPv4) : IPv4 := mkIPv4 (Z.land (ipv4_addr a) (ipv4_addr b)).
Definition ipv4_xor (a b : IPv4) : IPv4 := mkIPv4 (Z.lxor (ipv4_addr a) (ipv4_addr b)).

Definition ipv4_shl (a : IPv4) (left_shift : Z) : IPv4 :=
  if 32 <=? left_shift then ipv4_ZERO
  else mkIPv4 (htonl (u32_shl (ntohl (ipv4_addr a)) left_shift)).

Definition ipv4_shr (a : IPv4) (right_shift : Z) : IPv4 :=
  if 32 <=? right_shift then ipv4_ZERO
  else mkIPv4 (htonl (Z.shiftr (ntohl (ipv4_addr a)) right_shift)).

Definition ipv4_ltb (a b : IPv4) : bool := ntohl (ipv4_addr a) <? ntohl (ipv4_addr b).
Definition ipv4_eqb (a b : IPv4) : bool := ipv4_addr a =? ipv4_addr b.

Definition ipv4_dec (a : IPv4) : IPv4 := mkIPv4 (htonl (u32_sub (ntohl (ipv4_addr a)) 1)).
Definition ipv4_inc (a : IPv4) : IPv4 := mkIPv4 (htonl (u32_add (ntohl (ipv4_addr a)) 1)).

Definition ipv4_make_prefix (mask_len : Z) : result xorp_exn IPv4 :=
  if 32 <? mask_len then Throw (InvalidNetmaskLength mask_len)
  else
    let m := if mask_len =? 0 then 0 else u32_shl (u32_not 0) (32 - mask_len) in
    Ok (mkIPv4 (htonl m)).

Definition ipv4_make_prefix_uint (mask_len : Z) : result xorp_exn Z :=
  if 32 <? mask_len then Throw (InvalidNetmaskLength mask_len)
  else
    let m := if mask_len =? 0 then 0 else u32_shl (u32_not 0) (32 - mask_len) in
    Ok (htonl m).

Definition ipv4_mask_by_prefix_len (a : IPv4) (mask_len : Z) : result xorp_exn IPv4 :=
  match ipv4_make_prefix mask_len with
  | Ok m => Ok (ipv4_and a m)
  | Throw e => Throw e
  end.

Definition ipv4_mask_by_prefix_len_uint (a : IPv4) (mask_len : Z) : result xorp_exn Z :=
  match ipv4_make_prefix_uint mask_len with
  | Ok m => Ok (Z.land (ipv4_addr a) m)
  | Throw e => Throw e
  end.

(** [IPNet<IPv4>::contains(const IPv4&)], with [b] the masked address of the
    subnet; the exception does not arise for the prefix length of a subnet. *)
Definition ipv4_masked_eqb (a : IPv4) (prefix_len : Z) (b : IPv4) : bool :=
  match ipv4_mask_by_prefix_len_uint a prefix_len with
  | Ok m => m =? ipv4_addr b
  | Throw _ => false
  end.

(** The loop of [IPv4::mask_len], [i] iterations to go. *)
Fixpoint ipv4_mask_len_loop (i : nat) (ctr shift : Z) : Z :=
  match i with
  | O => ctr
  | S i => if negb (Z.land shift 0x80000000 =? 0)
           then ipv4_mask_len_loop i (u32_add ctr 1) (u32_shl shift 1)
           else ctr
  end.
Definition ipv4_mask_len (a : IPv4) : Z := ipv4_mask_len_loop 32 0 (ntohl (ipv4_addr a)).

(** [len >= 32] is the case where the C++ mask is overridden. *)
Definition ipv4_bits (a : IPv4) (lsb len : Z) : Z :=
  let mask := if 32 <=? len then 0xffffffff else u32_not (u32_shl 0xffffffff len) in
  Z.land (Z.shiftr (ntohl (ipv4_addr a)) lsb) mask.

Definition ipv4_bit_count (a : IPv4) : Z := xorp_bit_count_uint32 (ipv4_addr a).
Definition ipv4_leading_zero_count (a : IPv4) : Z :=
  xorp_leading_zero_count_uint32 (ntohl (ipv4_addr a)).

(** The address class macros of <netinet/in.h>. *)
Definition IN_CLASSA (x : Z) : bool := Z.land x 0x80000000 =? 0.
Definition IN_CLASSB (x : Z) : bool := Z.land x 0xc0000000 =? 0x80000000.
Definition IN_CLASSC (x : Z) : bool := Z.land x 0xe0000000 =? 0xc0000000.
Definition IN_MULTICAST (x : Z) : bool := Z.land x 0xf0000000 =? 0xe0000000.
Definition IN_BADCLASS (x : Z) : bool := Z.land x 0xf0000000 =? 0xf0000000.

Definition ipv4_is_unicast (a : IPv4) : bool :=
  let addr4 := ntohl (ipv4_addr a) in
  negb (IN_MULTICAST addr4 || IN_BADCLASS addr4 || (addr4 =? 0)).
Definition ipv4_is_multicast (a : IPv4) : bool := IN_MULTICAST (ntohl (ipv4_addr a)).
Definition ipv4_is_class_a (a : IPv4) : bool := IN_CLASSA (ntohl (ipv4_addr a)).
Definition ipv4_is_class_b (a : IPv4) : bool := IN_CLASSB (ntohl (ipv4_addr a)).
Definition ipv4_is_class_c (a : IPv4) : bool := IN_CLASSC (ntohl (ipv4_addr a)).
Definition ipv4_is_experimental (a : IPv4) : bool := IN_BADCLASS (ntohl (ipv4_addr a)).
Definition INADDR_MAX_LOCAL_GROUP : Z := 0xe00000ff.
Definition ipv4_is_linklocal_multicast (a : IPv4) : bool :=
  let addr4 := ntohl (ipv4_addr a) in
  IN_MULTICAST addr4 && (addr4 <=? INADDR_MAX_LOCAL_GROUP).
Definition ipv4_is_loopback (a : IPv4) : bool :=
  let loopnet := u32_shl 127 24 in
  Z.land (ntohl (ipv4_addr a)) 0xff000000 =? loopnet.

Definition ipv4_copy_out (a : IPv4) : list Z := u32_to_mem (ipv4_addr a).
Definition ipv4_copy_in (from_uint8 : list Z) : IPv4 := mkIPv4 (u32_of_mem (take 4 from_uint8)).

(** The comparisons with an [IPv4Range] (ipv4.hh): [lo] and [hi] are its ends. *)
Definition ipv4_range_eqb (a lo hi : IPv4) : bool :=
  (ipv4_addr lo <=? ipv4_addr a) && (ipv4_addr a <=? ipv4_addr hi).
Definition ipv4_range_neqb (a lo hi : IPv4) : bool :=
  (ipv4_addr a <? ipv4_addr lo) || (ipv4_addr hi <? ipv4_addr a).
Definition ipv4_range_ltb (a lo hi : IPv4) : bool := ipv4_addr a <? ipv4_addr lo.
Definition ipv4_range_leb (a lo hi : IPv4) : bool := ipv4_addr a <=? ipv4_addr hi.
Definition ipv4_range_gtb (a lo hi : IPv4) : bool := ipv4_addr hi <? ipv4_addr a.
Definition ipv4_range_geb (a lo hi : IPv4) : bool := ipv4_addr lo <=? ipv4_addr a.

#[global] Instance ipv4_ops : AddrOps IPv4 := {
  addr_bitlen := 32;
  a_af := AF_INET;
  a_zero := ipv4_ZERO;
  a_not := ipv4_not;
  a_or := ipv4_or;
  a_and := ipv4_and;
  a_xor := ipv4_xor;
  a_shl := ipv4_shl;
  a_shr := ipv4_shr;
  a_ltb := ipv4_ltb;
  a_eqb := ipv4_eqb;
  a_dec := ipv4_dec;
  a_inc := ipv4_inc;
  a_make_prefix := ipv4_make_prefix;
  a_mask_by_prefix_len := ipv4_mask_by_prefix_len;
  a_masked_eqb := ipv4_masked_eqb;
  a_leading_zero_count := ipv4_leading_zero_count;
}.

Definition ipv4_wf (a : IPv4) : Prop := is_u32 (ipv4_addr a).
Definition ipv4_val (a : IPv4) : Z := ntohl (ipv4_addr a).

Lemma ipv4_val_range a : ipv4_wf a -> is_u32 (ipv4_val a).
Proof. apply ntohl_range. Qed.

Lemma ipv4_val_inj a b : ipv4_wf a -> ipv4_wf b -> ipv4_val a = ipv4_val b -> a = b.
Proof. destruct a, b. intros Ha Hb E. f_equal. by apply ntohl_inj. Qed.

(** An address built from a host-order word has that value. *)
Lemma ipv4_of_host x : is_u32 x -> ipv4_wf (mkIPv4 (htonl x)) /\ ipv4_val (mkIPv4 (htonl x)) = x.
Proof. intros Hx. split; [by apply htonl_range|by apply ntohl_htonl]. Qed.

Lemma ipv4_not_spec a : ipv4_wf a -> ipv4_wf (ipv4_not a) /\ ipv4_val (ipv4_not a) = 2 ^ 32 - 1 - ipv4_val a.
Proof.
  intros Ha. split; [apply u32_range|]. unfold ipv4_val. simpl.
  rewrite ntohl_not by done. apply lnot_mod; [lia|]. by apply ntohl_range.
Qed.

Lemma u32_prefix n : 0 <= n <= 32 ->
  (if n =? 0 then 0 else u32_shl (u32_not 0) (32 - n)) = 2 ^ 32 - 2 ^ (32 - n).
Proof.
  intros Hn. destruct (Z.eqb_spec n 0) as [->|]; [done|].
  unfold u32_shl, u32_not. change (u32 (Z.lnot 0)) with (2 ^ 32 - 1).
  rewrite Z.shiftl_mul_pow2 by lia. unfold u32. symmetry.
  pose proof (pow2_pos (32 - n) ltac:(lia)).
  pose proof (pow2_mono (32 - n) 32 ltac:(lia)).
  pose proof (pow2_mono 1 (32 - n)).
  apply (Z.mod_unique_pos _ _ (2 ^ (32 - n) - 1)); lia.
Qed.

Lemma u32_prefix_range n : 0 <= n <= 32 -> is_u32 (2 ^ 32 - 2 ^ (32 - n)).
Proof.
  intros Hn. pose proof (pow2_pos (32 - n) ltac:(lia)).
  pose proof (pow2_mono (32 - n) 32 ltac:(lia)). unfold is_u32. lia.
Qed.

Lemma ipv4_make_prefix_ok n : 0 <= n <= 32 ->
  ipv4_make_prefix n = Ok (mkIPv4 (htonl (2 ^ 32 - 2 ^ (32 - n)))).
Proof.
  intros Hn. unfold ipv4_make_prefix. destruct (Z.ltb_spec 32 n); [lia|].
  by rewrite u32_prefix.
Qed.

Lemma ipv4_shl_spec a n : ipv4_wf a -> 0 <= n ->
  ipv4_wf (ipv4_shl a n) /\ ipv4_val (ipv4_shl a n) = Z.shiftl (ipv4_val a) n mod 2 ^ 32.
Proof.
  intros Ha Hn. unfold ipv4_shl. destruct (Z.leb_spec 32 n).
  - split; [unfold ipv4_wf, is_u32; simpl; lia|]. unfold ipv4_val. simpl. rewrite ntohl_0.
    rewrite Z.shiftl_mul_pow2 by lia. rewrite (pow2_split n 32) by lia.
    by rewrite Z.mul_assoc, Z.mod_mul.
  - apply ipv4_of_host. apply u32_range.
Qed.

Lemma ipv4_shr_spec a n : ipv4_wf a -> 0 <= n ->
  ipv4_wf (ipv4_shr a n) /\ ipv4_val (ipv4_shr a n) = Z.shiftr (ipv4_val a) n.
Proof.
  intros Ha Hn. unfold ipv4_shr. destruct (Z.leb_spec 32 n).
  - split; [unfold ipv4_wf, is_u32; simpl; lia|]. unfold ipv4_val at 1. simpl. rewrite ntohl_0.
    rewrite Z.shiftr_div_pow2 by lia. symmetry. apply Z.div_small.
    pose proof (ipv4_val_range a Ha). pose proof (pow2_mono 32 n). unfold is_u32 in *. lia.
  - apply ipv4_of_host. apply u32_shiftr; [done|]. by apply ntohl_range.
Qed.

#[global] Instance ipv4_spec : AddrSpec IPv4.
Proof.
  refine {| a_wf := ipv4_wf; a_val := ipv4_val |}; simpl.
  - lia.
  - lia.
  - apply ipv4_val_range.
  - apply ipv4_val_inj.
  - intros z Hz. exists (mkIPv4 (htonl z)). by apply ipv4_of_host.
  - split; [unfold ipv4_wf, is_u32; simpl; lia|]. apply ntohl_0.
  - apply ipv4_not_spec.
  - intros a b Ha Hb. split; [by apply u32_lor|by apply ntohl_lor].
  - intros a b Ha Hb. split; [by apply u32_land|by apply ntohl_land].
  - intros a b Ha Hb. split; [by apply u32_lxor|by apply ntohl_lxor].
  - intros a n Ha Hn. apply ipv4_shl_spec; [done|lia].
  - intros a n Ha Hn. apply ipv4_shr_spec; [done|lia].
  - done.
  - intros a b Ha Hb. unfold ipv4_eqb. apply bool_eq_iff. rewrite !Z.eqb_eq.
    split; [by unfold ipv4_val; intros ->|]. intros E. by rewrite (ipv4_val_inj a b).
  - intros a Ha. apply ipv4_of_host, u32_range.
  - intros a Ha. apply ipv4_of_host, u32_range.
  - intros n Hn. eexists. split; [by apply ipv4_make_prefix_ok|].
    by apply ipv4_of_host, u32_prefix_range.
  - intros n Hn. unfold ipv4_make_prefix. destruct (Z.ltb_spec 32 n); [done|lia].
  - done.
  - intros a n b m Ha Hb. unfold ipv4_make_prefix, ipv4_masked_eqb, ipv4_mask_by_prefix_len_uint,
      ipv4_make_prefix_uint. destruct (32 <? n); [done|]. by intros [= <-].
  - intros a Ha. unfold ipv4_leading_zero_count.
    rewrite leading_zero_count_correct by (by apply ntohl_range). done.
Defined.
End IPv4.
