(* ===== verification/IPv6.v ===== *)
(** * IPv6 addresses (libxorp/ipv6.hh, libxorp/ipv6.cc)

    The class [IPv6]: four [uint32_t] words in network byte order, most
    significant first.  The shifts, comparisons and increments work word by word
    as the source does; the instance [ipv6_spec] shows that they are the
    operations of a 128-bit number. *)

From Stdlib Require Import ZArith Lia.
From stdpp Require Import base tactics option list numbers.
From S2P Require Import Prelude Word32 Addr.
Local Open Scope Z_scope.

Record IPv6 := mkIPv6 { v6_0 : Z; v6_1 : Z; v6_2 : Z; v6_3 : Z (* _addr[4] *) }.

#[global] Instance IPv6_eq_dec : EqDecision IPv6.
Proof. solve_decision. Defined.

Definition AF_INET6 : Z := 10.

(** Split the range conditions of four words. *)
Ltac four_words := refine (conj _ (conj _ (conj _ _))); simpl.

Section IPv6.
Context `{HostOrder}.

Definition ipv6_ZERO : IPv6 := mkIPv6 0 0 0 0.

Definition ipv6_not (a : IPv6) : IPv6 :=
  mkIPv6 (u32_not (v6_0 a)) (u32_not (v6_1 a)) (u32_not (v6_2 a)) (u32_not (v6_3 a)).
Definition ipv6_map2 (f : Z -> Z -> Z) (a b : IPv6) : IPv6 :=
  mkIPv6 (f (v6_0 a) (v6_0 b)) (f (v6_1 a) (v6_1 b))
         (f (v6_2 a) (v6_2 b)) (f (v6_3 a) (v6_3 b)).
Definition ipv6_or : IPv6 -> IPv6 -> IPv6 := ipv6_map2 Z.lor.
Definition ipv6_and : IPv6 -> IPv6 -> IPv6 := ipv6_map2 Z.land.
Definition ipv6_xor : IPv6 -> IPv6 -> IPv6 := ipv6_map2 Z.lxor.

(** The four temporary words [tmp_addr] of the shifts, in host order. *)
Definition words : Type := Z * Z * Z * Z.
Definition to_host (a : IPv6) : words :=
  (ntohl (v6_0 a), ntohl (v6_1 a), ntohl (v6_2 a), ntohl (v6_3 a)).
Definition to_net (t : words) : IPv6 :=
  let '(t0, t1, t2, t3) := t in mkIPv6 (htonl t0) (htonl t1) (htonl t2) (htonl t3).

Definition ipv6_shl (a : IPv6) (ls : Z) : IPv6 :=
  let '(h0, h1, h2, h3) := to_host a in
  let moved : option words :=
    match ls / 32 with
    | 0 => Some (h0, h1, h2, h3)
    | 1 => Some (h1, h2, h3, 0)
    | 2 => Some (h2, h3, 0, 0)
    | 3 => Some (h3, 0, 0, 0)
    | _ => None
    end in
  match moved with
  | None => ipv6_ZERO
  | Some (t0, t1, t2, t3) =>
      let ls := Z.land ls 0x1f in
      if ls =? 0 then to_net (t0, t1, t2, t3)
      else
        let rs := 32 - ls in
        to_net (Z.lor (u32_shl t0 ls) (Z.shiftr t1 rs),
                Z.lor (u32_shl t1 ls) (Z.shiftr t2 rs),
                Z.lor (u32_shl t2 ls) (Z.shiftr t3 rs),
                u32_shl t3 ls)
  end.

Definition ipv6_shr (a : IPv6) (rs : Z) : IPv6 :=
  let '(h0, h1, h2, h3) := to_host a in
  let moved : option words :=
    match rs / 32 with
    | 0 => Some (h0, h1, h2, h3)
    | 1 => Some (0, h0, h1, h2)
    | 2 => Some (0, 0, h0, h1)
    | 3 => Some (0, 0, 0, h0)
    | _ => None
    end in
  match moved with
  | None => ipv6_ZERO
  | Some (t0, t1, t2, t3) =>
      let rs := Z.land rs 0x1f in
      if rs =? 0 then to_net (t0, t1, t2, t3)
      else
        let ls := 32 - rs in
        to_net (Z.shiftr t0 rs,
                Z.lor (Z.shiftr t1 rs) (u32_shl t0 ls),
                Z.lor (Z.shiftr t2 rs) (u32_shl t1 ls),
                Z.lor (Z.shiftr t3 rs) (u32_shl t2 ls))
  end.

(** The loop stops at the first differing word, or at the last one. *)
Definition ipv6_ltb (a b : IPv6) : bool :=
  if negb (v6_0 a =? v6_0 b) then ntohl (v6_0 a) <? ntohl (v6_0 b)
  else if negb (v6_1 a =? v6_1 b) then ntohl (v6_1 a) <? ntohl (v6_1 b)
  else if negb (v6_2 a =? v6_2 b) then ntohl (v6_2 a) <? ntohl (v6_2 b)
  else ntohl (v6_3 a) <? ntohl (v6_3 b).

Definition ipv6_eqb (a b : IPv6) : bool :=
  (v6_0 a =? v6_0 b) && (v6_1 a =? v6_1 b) && (v6_2 a =? v6_2 b) && (v6_3 a =? v6_3 b).

(** The loop over the words from the last: a word [from] becomes [to] and the
    loop goes on, any other word is stepped and the loop returns. *)
Definition ipv6_step_loop (from to : Z) (step : Z -> Z) (a : IPv6) : IPv6 :=
  let w x := htonl (step (ntohl x)) in
  if negb (v6_3 a =? from) then mkIPv6 (v6_0 a) (v6_1 a) (v6_2 a) (w (v6_3 a))
  else if negb (v6_2 a =? from) then mkIPv6 (v6_0 a) (v6_1 a) (w (v6_2 a)) to
  else if negb (v6_1 a =? from) then mkIPv6 (v6_0 a) (w (v6_1 a)) to to
  else if negb (v6_0 a =? from) then mkIPv6 (w (v6_0 a)) to to to
  else mkIPv6 to to to to.
Definition ipv6_dec : IPv6 -> IPv6 := ipv6_step_loop 0 0xffffffff (fun x => u32_sub x 1).
Definition ipv6_inc : IPv6 -> IPv6 := ipv6_step_loop 0xffffffff 0 (fun x => u32_add x 1).

(** [init_prefixes]: the table of the 129 masks, built with the shift. *)
Definition ipv6_v6prefix : list IPv6 :=
  map (fun i => ipv6_shl (mkIPv6 0xffffffff 0xffffffff 0xffffffff 0xffffffff) (128 - Z.of_nat i))
      (seq 0 129).
Definition ipv6_make_prefix (mask_len : Z) : result xorp_exn IPv6 :=
  if 128 <? mask_len then Throw (InvalidNetmaskLength mask_len)
  else match ipv6_v6prefix !! Z.to_nat mask_len with
       | Some p => Ok p
       | None => Throw (InvalidNetmaskLength mask_len)
       end.

Definition ipv6_mask_by_prefix_len (a : IPv6) (prefix_len : Z) : result xorp_exn IPv6 :=
  match ipv6_make_prefix prefix_len with
  | Ok m => Ok (ipv6_and a m)
  | Throw e => Throw e
  end.

(** [IPNet<IPv6>::contains(const IPv6&)] through [mask_by_prefix_len_uint]. *)
Definition ipv6_masked_eqb (a : IPv6) (prefix_len : Z) (b : IPv6) : bool :=
  match ipv6_make_prefix prefix_len with
  | Ok other =>
      (Z.land (v6_0 a) (v6_0 other) =? v6_0 b) && (Z.land (v6_1 a) (v6_1 other) =? v6_1 b)
      && (Z.land (v6_2 a) (v6_2 other) =? v6_2 b) && (Z.land (v6_3 a) (v6_3 other) =? v6_3 b)
  | Throw _ => false
  end.

Definition ipv6_bits (a : IPv6) (lsb len : Z) : Z :=
  let mask := if 32 <=? len then 0xffffffff else u32_not (u32_shl 0xffffffff len) in
  Z.land (ntohl (v6_3 (ipv6_shr a lsb))) mask.

Definition ipv6_bit_count (a : IPv6) : Z :=
  u32_add (u32_add (u32_add (xorp_bit_count_uint32 (v6_0 a)) (xorp_bit_count_uint32 (v6_1 a)))
                   (xorp_bit_count_uint32 (v6_2 a))) (xorp_bit_count_uint32 (v6_3 a)).

Fixpoint ipv6_leading_zero_loop (r : Z) (ws : list Z) : Z :=
  match ws with
  | [] => r
  | w :: ws => if negb (w =? 0) then u32_add r (xorp_leading_zero_count_uint32 (ntohl w))
               else ipv6_leading_zero_loop (u32_add r 32) ws
  end.
Definition ipv6_leading_zero_count (a : IPv6) : Z :=
  ipv6_leading_zero_loop 0 [v6_0 a; v6_1 a; v6_2 a; v6_3 a].

(** [mask_len]: the inner loop over a word's bits returns from the whole
    function ([inl]) at the first zero bit. *)
Fixpoint ipv6_mask_len_word (i : nat) (ctr shift : Z) : Z + Z :=
  match i with
  | O => inr ctr
  | S i => if negb (Z.land shift 0x80000000 =? 0)
           then ipv6_mask_len_word i (u32_add ctr 1) (u32_shl shift 1)
           else inl ctr
  end.
Definition ipv6_mask_len (a : IPv6) : Z :=
  let outer acc w :=
    match acc with
    | inl ctr => inl ctr
    | inr ctr => ipv6_mask_len_word 32 ctr (ntohl w)
    end in
  match foldl outer (inr 0) [v6_0 a; v6_1 a; v6_2 a; v6_3 a] with
  | inl ctr => ctr
  | inr ctr => ctr
  end.

(** The octets of the address as [memcpy] sees them. *)
Definition ipv6_copy_out (a : IPv6) : list Z :=
  u32_to_mem (v6_0 a) ++ u32_to_mem (v6_1 a) ++ u32_to_mem (v6_2 a) ++ u32_to_mem (v6_3 a).
Definition ipv6_copy_in (l : list Z) : IPv6 :=
  mkIPv6 (u32_of_mem (take 4 l)) (u32_of_mem (take 4 (drop 4 l)))
         (u32_of_mem (take 4 (drop 8 l))) (u32_of_mem (take 4 (drop 12 l))).

#[global] Instance ipv6_ops : AddrOps IPv6 := {
  addr_bitlen := 128;
  a_af := AF_INET6;
  a_zero := ipv6_ZERO;
  a_not := ipv6_not;
  a_or := ipv6_or;
  a_and := ipv6_and;
  a_xor := ipv6_xor;
  a_shl := ipv6_shl;
  a_shr := ipv6_shr;
  a_ltb := ipv6_ltb;
  a_eqb := ipv6_eqb;
  a_dec := ipv6_dec;
  a_inc := ipv6_inc;
  a_make_prefix := ipv6_make_prefix;
  a_mask_by_prefix_len := ipv6_mask_by_prefix_len;
  a_masked_eqb := ipv6_masked_eqb;
  a_leading_zero_count := ipv6_leading_zero_count;
}.

(** ** The value of an address *)
Definition ipv6_wf (a : IPv6) : Prop :=
  is_u32 (v6_0 a) /\ is_u32 (v6_1 a) /\ is_u32 (v6_2 a) /\ is_u32 (v6_3 a).
Definition words_wf (t : words) : Prop :=
  let '(t0, t1, t2, t3) := t in is_u32 t0 /\ is_u32 t1 /\ is_u32 t2 /\ is_u32 t3.
Definition words_val (t : words) : Z :=
  let '(t0, t1, t2, t3) := t in fields 32 [t3; t2; t1; t0].
Definition ipv6_val (a : IPv6) : Z := words_val (to_host a).

Lemma to_host_wf a : ipv6_wf a -> words_wf (to_host a).
Proof. destruct a. unfold ipv6_wf, words_wf. simpl. intuition auto with xorp. Qed.

Lemma words_val_range t : words_wf t -> 0 <= words_val t < 2 ^ 128.
Proof.
  destruct t as [[[t0 t1] t2] t3]. unfold words_wf, is_u32, words_val. simpl fields. lia.
Qed.

(** An address built from host-order words has their value. *)
Lemma to_net_spec t : words_wf t -> ipv6_wf (to_net t) /\ ipv6_val (to_net t) = words_val t.
Proof.
  destruct t as [[[t0 t1] t2] t3]. intros (H0 & H1 & H2 & H3).
  unfold ipv6_wf, ipv6_val. simpl. rewrite !ntohl_htonl by done. auto 6 with xorp.
Qed.

Lemma words_val_inj t u : words_wf t -> words_wf u -> words_val t = words_val u -> t = u.
Proof.
  destruct t as [[[t0 t1] t2] t3], u as [[[u0 u1] u2] u3].
  unfold words_wf, is_u32, words_val. simpl fields. intros.
  assert (t3 = u3) by lia. assert (t2 = u2) by lia. assert (t1 = u1) by lia.
  assert (t0 = u0) by lia. congruence.
Qed.

Lemma ipv6_val_inj a b : ipv6_wf a -> ipv6_wf b -> ipv6_val a = ipv6_val b -> a = b.
Proof.
  intros Ha Hb E. apply words_val_inj in E; [|by apply to_host_wf..].
  destruct a, b. unfold to_host in E. simpl in E. injection E as E0 E1 E2 E3.
  destruct Ha as (?&?&?&?), Hb as (?&?&?&?). simpl in *.
  f_equal; by apply ntohl_inj.
Qed.

(** Splitting a number of 128 bits in words. *)
Lemma words_of_val z : 0 <= z < 2 ^ 128 -> exists t, words_wf t /\ words_val t = z.
Proof.
  intros Hz. exists (z / 2 ^ 96, z / 2 ^ 64 mod 2 ^ 32, z / 2 ^ 32 mod 2 ^ 32, z mod 2 ^ 32).
  unfold words_wf, words_val, is_u32. simpl fields. dlia.
Qed.

(** ** Bitwise operations *)
Lemma ipv6_map2_spec f g a b :
  (forall x y i, Z.testbit (f x y) i = g (Z.testbit x i) (Z.testbit y i)) ->
  g false false = false ->
  (forall x y, is_u32 x -> is_u32 y -> is_u32 (f x y)) ->
  (forall x y, is_u32 x -> is_u32 y -> ntohl (f x y) = f (ntohl x) (ntohl y)) ->
  ipv6_wf a -> ipv6_wf b ->
  ipv6_wf (ipv6_map2 f a b) /\ ipv6_val (ipv6_map2 f a b) = f (ipv6_val a) (ipv6_val b).
Proof.
  intros Hf Hg Hr Hn (?&?&?&?) (?&?&?&?). split; [four_words; auto|].
  unfold ipv6_val, words_val, to_host, ipv6_map2.
  cbn [v6_0 v6_1 v6_2 v6_3]. rewrite !Hn by done.
  symmetry. rewrite (fields_bitwise2 f g); [done|done|done|exact Hr|lia| | |done].
  all: repeat constructor; by apply ntohl_range.
Qed.

Lemma ipv6_and_spec a b : ipv6_wf a -> ipv6_wf b ->
  ipv6_wf (ipv6_and a b) /\ ipv6_val (ipv6_and a b) = Z.land (ipv6_val a) (ipv6_val b).
Proof. apply (ipv6_map2_spec _ andb); auto using Z.land_spec, ntohl_land with xorp. Qed.

Lemma ipv6_or_spec a b : ipv6_wf a -> ipv6_wf b ->
  ipv6_wf (ipv6_or a b) /\ ipv6_val (ipv6_or a b) = Z.lor (ipv6_val a) (ipv6_val b).
Proof. apply (ipv6_map2_spec _ orb); auto using Z.lor_spec, ntohl_lor with xorp. Qed.

Lemma ipv6_xor_spec a b : ipv6_wf a -> ipv6_wf b ->
  ipv6_wf (ipv6_xor a b) /\ ipv6_val (ipv6_xor a b) = Z.lxor (ipv6_val a) (ipv6_val b).
Proof. apply (ipv6_map2_spec _ xorb); auto using Z.lxor_spec, ntohl_lxor with xorp. Qed.

Lemma ipv6_not_spec a : ipv6_wf a ->
  ipv6_wf (ipv6_not a) /\ ipv6_val (ipv6_not a) = 2 ^ 128 - 1 - ipv6_val a.
Proof.
  intros (?&?&?&?). split; [four_words; apply u32_range|].
  unfold ipv6_val. simpl words_val. rewrite !ntohl_not by done.
  unfold u32_not, u32. rewrite !lnot_mod by (lia || by apply ntohl_range).
  simpl fields. lia.
Qed.

(** ** Shifts *)
Lemma u32_shl_split t r : is_u32 t -> 0 <= r <= 32 ->
  t * 2 ^ r = Z.shiftr t (32 - r) * 2 ^ 32 + u32_shl t r
  /\ u32_shl t r = 2 ^ r * (t mod 2 ^ (32 - r)).
Proof.
  intros Ht Hr. unfold u32_shl, u32. rewrite Z.shiftl_mul_pow2, Z.shiftr_div_pow2 by lia.
  pose proof (pow2_pos r ltac:(lia)). pose proof (pow2_pos (32 - r) ltac:(lia)).
  assert (t * 2 ^ r mod 2 ^ 32 = 2 ^ r * (t mod 2 ^ (32 - r))) as E.
  { rewrite (pow2_split 32 r) by lia. rewrite Z.mul_comm, (Z.mul_comm (2 ^ (32 - r))).
    apply Z.mul_mod_distr_l; lia. }
  split; [|done]. rewrite E, (pow2_split 32 r) by lia.
  rewrite (Z.div_mod t (2 ^ (32 - r))) at 1 by lia. ring.
Qed.

Lemma shiftr_small t n : is_u32 t -> 0 <= n <= 32 -> 0 <= Z.shiftr t n < 2 ^ (32 - n).
Proof.
  intros Ht Hn. rewrite Z.shiftr_div_pow2 by lia. unfold is_u32 in Ht.
  pose proof (pow2_pos n ltac:(lia)).
  split; [apply Z.div_pos; lia|]. apply Z.div_lt_upper_bound; [lia|].
  rewrite Z.mul_comm, <- pow2_split by lia. lia.
Qed.

(** The two halves that a shifted word is assembled from are disjoint. *)
Lemma lor_shl_shr t u r : is_u32 t -> is_u32 u -> 0 <= r <= 32 ->
  Z.lor (u32_shl t r) (Z.shiftr u (32 - r)) = u32_shl t r + Z.shiftr u (32 - r)
  /\ is_u32 (u32_shl t r + Z.shiftr u (32 - r)).
Proof.
  intros Ht Hu Hr. destruct (u32_shl_split t r Ht Hr) as [_ E].
  pose proof (shiftr_small u (32 - r) Hu ltac:(lia)) as Hs.
  replace (32 - (32 - r)) with r in Hs by lia.
  assert (Z.lor (u32_shl t r) (Z.shiftr u (32 - r)) = u32_shl t r + Z.shiftr u (32 - r)) as El.
  { rewrite Z.lor_comm, Z.add_comm, E.
    rewrite add_lor_shiftl by lia. by rewrite Z.shiftl_mul_pow2, Z.mul_comm by lia. }
  split; [done|]. rewrite <- El. apply u32_lor; [apply u32_range|].
  apply u32_shiftr; [lia|done].
Qed.

Lemma shl_words_spec t0 t1 t2 t3 r :
  words_wf (t0, t1, t2, t3) -> 0 <= r <= 32 ->
  let t' := (Z.lor (u32_shl t0 r) (Z.shiftr t1 (32 - r)),
             Z.lor (u32_shl t1 r) (Z.shiftr t2 (32 - r)),
             Z.lor (u32_shl t2 r) (Z.shiftr t3 (32 - r)), u32_shl t3 r) in
  words_wf t' /\ words_val t' = (words_val (t0, t1, t2, t3) * 2 ^ r) mod 2 ^ 128.
Proof.
  intros (H0 & H1 & H2 & H3) Hr. cbv zeta.
  destruct (lor_shl_shr t0 t1 r) as [-> W0]; [done..|].
  destruct (lor_shl_shr t1 t2 r) as [-> W1]; [done..|].
  destruct (lor_shl_shr t2 t3 r) as [-> W2]; [done..|].
  assert (words_wf (u32_shl t0 r + Z.shiftr t1 (32 - r), u32_shl t1 r + Z.shiftr t2 (32 - r),
            u32_shl t2 r + Z.shiftr t3 (32 - r), u32_shl t3 r)) as W
    by (four_words; try done; apply u32_range).
  split; [done|]. apply words_val_range in W.
  apply (Z.mod_unique_pos _ _ (Z.shiftr t0 (32 - r))); [exact W|].
  destruct (u32_shl_split t0 r H0 Hr) as [E0 _], (u32_shl_split t1 r H1 Hr) as [E1 _],
    (u32_shl_split t2 r H2 Hr) as [E2 _], (u32_shl_split t3 r H3 Hr) as [E3 _].
  simpl words_val. simpl fields. lia.
Qed.

Lemma shr_words_spec t0 t1 t2 t3 r :
  words_wf (t0, t1, t2, t3) -> 0 <= r <= 32 ->
  let t' := (Z.shiftr t0 r, Z.lor (Z.shiftr t1 r) (u32_shl t0 (32 - r)),
             Z.lor (Z.shiftr t2 r) (u32_shl t1 (32 - r)),
             Z.lor (Z.shiftr t3 r) (u32_shl t2 (32 - r))) in
  words_wf t' /\ words_val t' = words_val (t0, t1, t2, t3) / 2 ^ r.
Proof.
  intros (H0 & H1 & H2 & H3) Hr. cbv zeta. rewrite !(Z.lor_comm (Z.shiftr _ _)).
  assert (forall t u, is_u32 t -> is_u32 u ->
    Z.lor (u32_shl t (32 - r)) (Z.shiftr u r) = u32_shl t (32 - r) + Z.shiftr u r
    /\ is_u32 (u32_shl t (32 - r) + Z.shiftr u r)) as Hlor.
  { intros t u Ht Hu. pose proof (lor_shl_shr t u (32 - r) Ht Hu ltac:(lia)) as E.
    by replace (32 - (32 - r)) with r in E by lia. }
  destruct (Hlor t0 t1) as [-> W1]; [done..|]. destruct (Hlor t1 t2) as [-> W2]; [done..|].
  destruct (Hlor t2 t3) as [-> W3]; [done..|].
  split; [four_words; try done; apply u32_shiftr; by try lia|].
  assert (forall t, is_u32 t -> u32_shl t (32 - r) * 2 ^ r = 2 ^ 32 * (t mod 2 ^ r)
            /\ t = 2 ^ r * Z.shiftr t r + t mod 2 ^ r) as Hsplit.
  { intros t Ht. destruct (u32_shl_split t (32 - r) Ht ltac:(lia)) as [_ ->].
    replace (32 - (32 - r)) with r by lia. split.
    - rewrite (pow2_split 32 r) by lia. ring.
    - rewrite Z.shiftr_div_pow2 by lia. apply Z.div_mod. pose proof (pow2_pos r). lia. }
  destruct (Hsplit t0 H0) as [S0 D0], (Hsplit t1 H1) as [S1 D1], (Hsplit t2 H2) as [S2 D2],
    (Hsplit t3 H3) as [_ D3].
  pose proof (Z.mod_pos_bound t3 (2 ^ r) ltac:(apply pow2_pos; lia)).
  apply (Z.div_unique_pos _ _ _ (t3 mod 2 ^ r)); [done|].
  simpl words_val. simpl fields. lia.
Qed.

Lemma land_31 n : 0 <= n -> Z.land n 0x1f = n mod 32.
Proof. intros. change 0x1f with (Z.ones 5). by rewrite Z.land_ones. Qed.

Lemma shift_cases n : 0 <= n ->
  n / 32 = 0 \/ n / 32 = 1 \/ n / 32 = 2 \/ n / 32 = 3 \/ (128 <= n /\ 4 <= n / 32).
Proof. intros. dlia. Qed.

(** Moving whole words, then the bits inside the words. *)
Lemma shl_moved_spec t t' q n :
  words_wf t -> words_val t = (words_val t' * 2 ^ (32 * q)) mod 2 ^ 128 ->
  0 <= q -> 0 <= n -> n / 32 = q ->
  let '(t0, t1, t2, t3) := t in
  let a := if n mod 32 =? 0 then to_net (t0, t1, t2, t3)
           else to_net (Z.lor (u32_shl t0 (n mod 32)) (Z.shiftr t1 (32 - n mod 32)),
                        Z.lor (u32_shl t1 (n mod 32)) (Z.shiftr t2 (32 - n mod 32)),
                        Z.lor (u32_shl t2 (n mod 32)) (Z.shiftr t3 (32 - n mod 32)),
                        u32_shl t3 (n mod 32)) in
  ipv6_wf a /\ ipv6_val a = Z.shiftl (words_val t') n mod 2 ^ 128.
Proof.
  destruct t as [[[t0 t1] t2] t3]. intros Hw Hv Hq Hn En.
  assert (n = 32 * q + n mod 32) as Es by dlia.
  pose proof (Z.mod_pos_bound n 32 ltac:(lia)).
  assert (Z.shiftl (words_val t') n mod 2 ^ 128
          = (words_val (t0, t1, t2, t3) * 2 ^ (n mod 32)) mod 2 ^ 128) as ->.
  { rewrite Hv, Z.mul_mod_idemp_l, Z.shiftl_mul_pow2, Es at 1 by lia.
    by rewrite Z.pow_add_r, Z.mul_assoc by lia. }
  destruct (Z.eqb_spec (n mod 32) 0) as [->|_].
  - rewrite Z.mul_1_r, Z.mod_small by (by apply words_val_range). by apply to_net_spec.
  - destruct (shl_words_spec t0 t1 t2 t3 (n mod 32) Hw ltac:(lia)) as [W <-].
    by apply to_net_spec.
Qed.

Lemma shr_moved_spec t t' q n :
  words_wf t -> words_val t = words_val t' / 2 ^ (32 * q) ->
  0 <= q -> 0 <= n -> n / 32 = q ->
  let '(t0, t1, t2, t3) := t in
  let a := if n mod 32 =? 0 then to_net (t0, t1, t2, t3)
           else to_net (Z.shiftr t0 (n mod 32),
                        Z.lor (Z.shiftr t1 (n mod 32)) (u32_shl t0 (32 - n mod 32)),
                        Z.lor (Z.shiftr t2 (n mod 32)) (u32_shl t1 (32 - n mod 32)),
                        Z.lor (Z.shiftr t3 (n mod 32)) (u32_shl t2 (32 - n mod 32))) in
  ipv6_wf a /\ ipv6_val a = Z.shiftr (words_val t') n.
Proof.
  destruct t as [[[t0 t1] t2] t3]. intros Hw Hv Hq Hn En.
  assert (n = 32 * q + n mod 32) as Es by dlia.
  pose proof (Z.mod_pos_bound n 32 ltac:(lia)).
  assert (Z.shiftr (words_val t') n = words_val (t0, t1, t2, t3) / 2 ^ (n mod 32)) as ->.
  { rewrite Hv, Z.div_div, <- Z.pow_add_r, <- Es by (try apply Z.pow_nonzero; try apply pow2_pos; lia).
    apply Z.shiftr_div_pow2. lia. }
  destruct (Z.eqb_spec (n mod 32) 0) as [->|_].
  - rewrite Z.div_1_r. by apply to_net_spec.
  - destruct (shr_words_spec t0 t1 t2 t3 (n mod 32) Hw ltac:(lia)) as [W <-].
    by apply to_net_spec.
Qed.

Lemma u32_0 : is_u32 0.
Proof. unfold is_u32. lia. Qed.

Lemma ipv6_zero_spec : ipv6_wf ipv6_ZERO /\ ipv6_val ipv6_ZERO = 0.
Proof. split; [four_words; apply u32_0|]. unfold ipv6_val, to_host. simpl. by rewrite ntohl_0. Qed.

Lemma ipv6_shl_spec a n : ipv6_wf a -> 0 <= n ->
  ipv6_wf (ipv6_shl a n) /\ ipv6_val (ipv6_shl a n) = Z.shiftl (ipv6_val a) n mod 2 ^ 128.
Proof.
  intros Ha Hn. apply to_host_wf in Ha. unfold ipv6_shl, ipv6_val at 2.
  destruct (to_host a) as [[[h0 h1] h2] h3] eqn:Eh. destruct Ha as (H0 & H1 & H2 & H3).
  pose proof u32_0 as Z0. unfold is_u32 in *.
  destruct (shift_cases n Hn) as [E|[E|[E|[E|[Hge E]]]]]; rewrite ?E; cbn iota; rewrite ?land_31 by done.
  - apply (shl_moved_spec (h0, h1, h2, h3) (h0, h1, h2, h3) 0); [by four_words| |lia|done|done].
    unfold words_val; cbn [fields]. rewrite Z.mul_1_r. symmetry. apply Z.mod_small. lia.
  - apply (shl_moved_spec (h1, h2, h3, 0) (h0, h1, h2, h3) 1); [by four_words| |lia|done|done].
    unfold words_val; cbn [fields]. apply (Z.mod_unique_pos _ _ h0); lia.
  - apply (shl_moved_spec (h2, h3, 0, 0) (h0, h1, h2, h3) 2); [by four_words| |lia|done|done].
    unfold words_val; cbn [fields]. apply (Z.mod_unique_pos _ _ (h0 * 2 ^ 32 + h1)); lia.
  - apply (shl_moved_spec (h3, 0, 0, 0) (h0, h1, h2, h3) 3); [by four_words| |lia|done|done].
    unfold words_val; cbn [fields]. apply (Z.mod_unique_pos _ _ (h0 * 2 ^ 64 + h1 * 2 ^ 32 + h2)); lia.
  - assert (Z.shiftl (words_val (h0, h1, h2, h3)) n mod 2 ^ 128 = 0) as ->.
    { rewrite Z.shiftl_mul_pow2, (pow2_split n 128), Z.mul_assoc by lia. apply Z.mod_mul. lia. }
    destruct (n / 32) as [|[[?|?|]|[?|?|]|]|?]; try lia; apply ipv6_zero_spec.
Qed.

Lemma ipv6_shr_spec a n : ipv6_wf a -> 0 <= n ->
  ipv6_wf (ipv6_shr a n) /\ ipv6_val (ipv6_shr a n) = Z.shiftr (ipv6_val a) n.
Proof.
  intros Ha Hn. apply to_host_wf in Ha. unfold ipv6_shr, ipv6_val at 2.
  destruct (to_host a) as [[[h0 h1] h2] h3] eqn:Eh.
  pose proof (words_val_range _ Ha) as Hr. destruct Ha as (H0 & H1 & H2 & H3).
  pose proof u32_0 as Z0. unfold is_u32 in *.
  destruct (shift_cases n Hn) as [E|[E|[E|[E|[Hge E]]]]]; rewrite ?E; cbn iota; rewrite ?land_31 by done.
  - apply (shr_moved_spec (h0, h1, h2, h3) (h0, h1, h2, h3) 0); [by four_words| |lia|done|done].
    symmetry. apply Z.div_1_r.
  - apply (shr_moved_spec (0, h0, h1, h2) (h0, h1, h2, h3) 1); [by four_words| |lia|done|done].
    unfold words_val; cbn [fields]. apply (Z.div_unique_pos _ _ _ h3); lia.
  - apply (shr_moved_spec (0, 0, h0, h1) (h0, h1, h2, h3) 2); [by four_words| |lia|done|done].
    unfold words_val; cbn [fields]. apply (Z.div_unique_pos _ _ _ (h2 * 2 ^ 32 + h3)); lia.
  - apply (shr_moved_spec (0, 0, 0, h0) (h0, h1, h2, h3) 3); [by four_words| |lia|done|done].
    unfold words_val; cbn [fields]. apply (Z.div_unique_pos _ _ _ (h1 * 2 ^ 64 + h2 * 2 ^ 32 + h3)); lia.
  - assert (Z.shiftr (words_val (h0, h1, h2, h3)) n = 0) as ->.
    { rewrite Z.shiftr_div_pow2 by lia. apply Z.div_small.
      pose proof (pow2_mono 128 n ltac:(lia)). lia. }
    destruct (n / 32) as [|[[?|?|]|[?|?|]|]|?]; try lia; apply ipv6_zero_spec.
Qed.

(** ** Order, equality, increments *)
Lemma ntohl_eqb x y : is_u32 x -> is_u32 y -> (x =? y) = (ntohl x =? ntohl y).
Proof.
  intros Hx Hy. apply bool_eq_iff. rewrite !Z.eqb_eq.
  split; [by intros ->|by apply ntohl_inj].
Qed.

Lemma ntohl_eqb_0 x : is_u32 x -> (x =? 0) = (ntohl x =? 0).
Proof. intros. rewrite ntohl_eqb, ntohl_0 by auto using u32_0. done. Qed.

Lemma ntohl_eqb_max x : is_u32 x -> (x =? 0xffffffff) = (ntohl x =? 0xffffffff).
Proof.
  intros. rewrite ntohl_eqb by (done || (unfold is_u32; lia)).
  change 0xffffffff with u32_max at 1. by rewrite ntohl_max.
Qed.

Lemma ipv6_eqb_spec a b : ipv6_wf a -> ipv6_wf b -> ipv6_eqb a b = (ipv6_val a =? ipv6_val b).
Proof.
  intros Ha Hb. apply bool_eq_iff. rewrite Z.eqb_eq. unfold ipv6_eqb. split.
  - intros E. bool_prop. destruct a, b. simpl in *. congruence.
  - intros E. apply ipv6_val_inj in E as ->; [|done..]. by rewrite !Z.eqb_refl.
Qed.

Lemma ipv6_ltb_spec a b : ipv6_wf a -> ipv6_wf b -> ipv6_ltb a b = (ipv6_val a <? ipv6_val b).
Proof.
  intros Ha Hb. pose proof (to_host_wf a Ha) as (A0 & A1 & A2 & A3).
  pose proof (to_host_wf b Hb) as (B0 & B1 & B2 & B3).
  destruct Ha as (?&?&?&?), Hb as (?&?&?&?).
  unfold ipv6_ltb.
  rewrite (ntohl_eqb (v6_0 a)), (ntohl_eqb (v6_1 a)), (ntohl_eqb (v6_2 a)) by done.
  unfold ipv6_val, words_val, to_host. cbn [fields]. unfold is_u32 in *.
  apply bool_eq_iff. rewrite Z.ltb_lt.
  repeat case_if; rewrite Z.ltb_lt; lia.
Qed.

Lemma ipv6_dec_spec a : ipv6_wf a ->
  ipv6_wf (ipv6_dec a) /\ ipv6_val (ipv6_dec a) = (ipv6_val a - 1) mod 2 ^ 128.
Proof.
  intros Ha. pose proof (to_host_wf a Ha) as (A0 & A1 & A2 & A3). destruct Ha as (?&?&?&?).
  unfold ipv6_dec, ipv6_step_loop. rewrite (ntohl_eqb_0 (v6_0 a)), (ntohl_eqb_0 (v6_1 a)), (ntohl_eqb_0 (v6_2 a)),
    (ntohl_eqb_0 (v6_3 a)) by done.
  assert (is_u32 0xffffffff) by (unfold is_u32; lia).
  unfold ipv6_val, words_val, to_host. cbn [fields v6_0 v6_1 v6_2 v6_3].
  split.
  - repeat case_if; four_words; auto using u32_0 with xorp.
    all: apply htonl_range, u32_range.
  - unfold u32_sub, u32. repeat case_if; cbn [v6_0 v6_1 v6_2 v6_3];
      change 0xffffffff with u32_max; rewrite ?ntohl_max, ?ntohl_htonl by (apply u32_range).
    all: unfold is_u32, u32_max in *; rewrite ?(Z.mod_small (ntohl _ - 1)) by lia.
    all: first [apply (Z.mod_unique_pos _ _ 0); lia | apply (Z.mod_unique_pos _ _ (-1)); lia].
Qed.

Lemma ipv6_inc_spec a : ipv6_wf a ->
  ipv6_wf (ipv6_inc a) /\ ipv6_val (ipv6_inc a) = (ipv6_val a + 1) mod 2 ^ 128.
Proof.
  intros Ha. pose proof (to_host_wf a Ha) as (A0 & A1 & A2 & A3). destruct Ha as (?&?&?&?).
  unfold ipv6_inc, ipv6_step_loop. rewrite (ntohl_eqb_max (v6_0 a)), (ntohl_eqb_max (v6_1 a)), (ntohl_eqb_max (v6_2 a)),
    (ntohl_eqb_max (v6_3 a)) by done.
  unfold ipv6_val, words_val, to_host. cbn [fields v6_0 v6_1 v6_2 v6_3].
  split.
  - repeat case_if; four_words; auto using u32_0 with xorp.
    all: apply htonl_range, u32_range.
  - unfold u32_add, u32. repeat case_if; cbn [v6_0 v6_1 v6_2 v6_3];
      rewrite ?ntohl_0, ?ntohl_htonl by (apply u32_range).
    all: unfold is_u32 in *; rewrite ?(Z.mod_small (ntohl _ + 1)) by lia.
    all: first [apply (Z.mod_unique_pos _ _ 0); lia | apply (Z.mod_unique_pos _ _ 1); lia].
Qed.

(** ** Masks *)
Lemma ipv6_make_prefix_ok n : 0 <= n <= 128 ->
  exists m, ipv6_make_prefix n = Ok m /\ ipv6_wf m /\ ipv6_val m = 2 ^ 128 - 2 ^ (128 - n).
Proof.
  intros Hn. unfold ipv6_make_prefix. destruct (Z.ltb_spec 128 n); [lia|].
  unfold ipv6_v6prefix.
  rewrite (list_lookup_fmap _ (seq 0 129) (Z.to_nat n)), lookup_seq_lt by lia. simpl.
  set (ones := mkIPv6 _ _ _ _).
  assert (ipv6_wf ones) as Hw by (four_words; unfold is_u32; lia).
  assert (ipv6_val ones = 2 ^ 128 - 1) as Hv.
  { unfold ipv6_val, to_host, words_val. cbn [ones v6_0 v6_1 v6_2 v6_3].
    change 0xffffffff with u32_max. by rewrite ntohl_max. }
  rewrite Z2Nat.id by lia.
  destruct (ipv6_shl_spec ones (128 - n) Hw ltac:(lia)) as [W V].
  eexists. split; [done|]. split; [done|]. rewrite V, Hv, Z.shiftl_mul_pow2 by lia.
  symmetry. pose proof (pow2_pos (128 - n) ltac:(lia)). pose proof (pow2_mono (128 - n) 128 ltac:(lia)).
  apply (Z.mod_unique_pos _ _ (2 ^ (128 - n) - 1)); lia.
Qed.

Lemma ipv6_leading_zero_count_spec a : ipv6_wf a ->
  ipv6_leading_zero_count a = if ipv6_val a =? 0 then 128 else 128 - 1 - Z.log2 (ipv6_val a).
Proof.
  intros Ha. pose proof (to_host_wf a Ha) as (A0 & A1 & A2 & A3). destruct Ha as (?&?&?&?).
  unfold ipv6_leading_zero_count. cbn [ipv6_leading_zero_loop].
  change (u32_add 0 32) with 32. change (u32_add 32 32) with 64.
  change (u32_add 64 32) with 96. change (u32_add 96 32) with 128.
  rewrite (ntohl_eqb_0 (v6_0 a)), (ntohl_eqb_0 (v6_1 a)), (ntohl_eqb_0 (v6_2 a)),
    (ntohl_eqb_0 (v6_3 a)), !leading_zero_count_correct by done.
  unfold ipv6_val, words_val, to_host. cbn [fields]. unfold is_u32, u32_add, u32 in *.
  assert (forall h k r, 0 < h < 2 ^ 32 -> 0 <= k -> 0 <= r < 2 ^ k ->
            Z.log2 (r + 2 ^ k * h) = k + Z.log2 h) as Hlog.
  { intros h k r Hh Hk Hr. pose proof (Z.log2_nonneg h). pose proof (Z.log2_spec h ltac:(lia)).
    apply Z.log2_unique; [lia|]. rewrite <- Z.add_succ_r, !Z.pow_add_r by lia. nia. }
  assert (forall h, 0 < h < 2 ^ 32 -> 0 <= Z.log2 h < 32) as Hl32.
  { intros h Hh. split; [apply Z.log2_nonneg|apply Z.log2_lt_pow2; lia]. }
  set (h0 := ntohl (v6_0 a)) in *. set (h1 := ntohl (v6_1 a)) in *.
  set (h2 := ntohl (v6_2 a)) in *. set (h3 := ntohl (v6_3 a)) in *.
  destruct (Z.eqb_spec h0 0) as [E0|]; simpl.
  2:{ destruct (Z.eqb_spec (h3 + 2 ^ 32 * (h2 + 2 ^ 32 * (h1 + 2 ^ 32 * (h0 + 2 ^ 32 * 0)))) 0); [lia|].
      replace (h3 + 2 ^ 32 * (h2 + 2 ^ 32 * (h1 + 2 ^ 32 * (h0 + 2 ^ 32 * 0))))
        with ((h3 + 2 ^ 32 * h2 + 2 ^ 64 * h1) + 2 ^ 96 * h0) by lia.
      rewrite Hlog by lia. pose proof (Hl32 h0 ltac:(lia)). rewrite Z.mod_small; lia. }
  destruct (Z.eqb_spec h1 0) as [E1|]; simpl.
  2:{ destruct (Z.eqb_spec (h3 + 2 ^ 32 * (h2 + 2 ^ 32 * (h1 + 2 ^ 32 * (h0 + 2 ^ 32 * 0)))) 0); [lia|].
      replace (h3 + 2 ^ 32 * (h2 + 2 ^ 32 * (h1 + 2 ^ 32 * (h0 + 2 ^ 32 * 0))))
        with ((h3 + 2 ^ 32 * h2) + 2 ^ 64 * h1) by lia.
      rewrite Hlog by lia. pose proof (Hl32 h1 ltac:(lia)). rewrite Z.mod_small; lia. }
  destruct (Z.eqb_spec h2 0) as [E2|]; simpl.
  2:{ destruct (Z.eqb_spec (h3 + 2 ^ 32 * (h2 + 2 ^ 32 * (h1 + 2 ^ 32 * (h0 + 2 ^ 32 * 0)))) 0); [lia|].
      replace (h3 + 2 ^ 32 * (h2 + 2 ^ 32 * (h1 + 2 ^ 32 * (h0 + 2 ^ 32 * 0))))
        with (h3 + 2 ^ 32 * h2) by lia.
      rewrite Hlog by lia. pose proof (Hl32 h2 ltac:(lia)). rewrite Z.mod_small; lia. }
  replace (h3 + 2 ^ 32 * (h2 + 2 ^ 32 * (h1 + 2 ^ 32 * (h0 + 2 ^ 32 * 0)))) with h3 by lia.
  destruct (Z.eqb_spec h3 0) as [E3|]; simpl; [done|].
  pose proof (Hl32 h3 ltac:(lia)). rewrite Z.mod_small; lia.
Qed.

#[global] Instance ipv6_spec : AddrSpec IPv6.
Proof.
  refine {| a_wf := ipv6_wf; a_val := ipv6_val |}; cbn [addr_bitlen ipv6_ops a_af a_zero a_not
    a_or a_and a_xor a_shl a_shr a_ltb a_eqb a_dec a_inc a_make_prefix a_mask_by_prefix_len
    a_masked_eqb a_leading_zero_count].
  - lia.
  - lia.
  - intros a Ha. by apply words_val_range, to_host_wf.
  - apply ipv6_val_inj.
  - intros z Hz. destruct (words_of_val z Hz) as (t & Ht & <-). exists (to_net t). by apply to_net_spec.
  - apply ipv6_zero_spec.
  - apply ipv6_not_spec.
  - apply ipv6_or_spec.
  - apply ipv6_and_spec.
  - apply ipv6_xor_spec.
  - intros a n Ha Hn. apply ipv6_shl_spec; [done|lia].
  - intros a n Ha Hn. apply ipv6_shr_spec; [done|lia].
  - apply ipv6_ltb_spec.
  - apply ipv6_eqb_spec.
  - apply ipv6_dec_spec.
  - apply ipv6_inc_spec.
  - apply ipv6_make_prefix_ok.
  - intros n Hn. unfold ipv6_make_prefix. by destruct (Z.ltb_spec 128 n); [|lia].
  - done.
  - intros a n b m Ha Hb E. unfold ipv6_masked_eqb. by rewrite E.
  - apply ipv6_leading_zero_count_spec.
Defined.
End IPv6.
