(* ===== verification/IPNet.v ===== *)
(** * Subnets (libxorp/ipnet.hh, libxorp/ipnet.cc)

    [IPNet<A>]: a masked address and a prefix length.  The template parameter is
    the address interface of Addr.v.  A well-formed subnet is the block
    [[net_lo, net_hi]] of addresses; the operations are characterised on those
    blocks. *)

From Stdlib Require Import ZArith Lia Ascii String.
From stdpp Require Import base tactics option list numbers strings.
From S2P Require Import Prelude Addr.
Local Open Scope Z_scope.

Record IPNet (A : Type) := mkIPNet { masked_addr : A; prefix_len : Z }.
Arguments mkIPNet {A} _ _.
Arguments masked_addr {A} _.
Arguments prefix_len {A} _.

#[global] Instance IPNet_eq_dec A `{EqDecision A} : EqDecision (IPNet A).
Proof. solve_decision. Defined.

Section IPNetOps.
Context `{AddrOps A}.
Implicit Types (n x y : IPNet A) (a : A).

(** [IPNet()]: INADDR_ANY/0. *)
Definition net_default : IPNet A := mkIPNet a_zero 0.

(** [IPNet(const A&, uint8_t)]. *)
Definition net_new (a : A) (plen : Z) : result xorp_exn (IPNet A) :=
  if addr_bitlen <? plen then Throw (InvalidNetmaskLength plen)
  else match a_mask_by_prefix_len a plen with
       | Ok m => Ok (mkIPNet m plen)
       | Throw e => Throw e
       end.

Definition net_eqb x y : bool :=
  (prefix_len x =? prefix_len y) && a_eqb (masked_addr x) (masked_addr y).

(** [netmask()].  [make_prefix] throws only above [addr_bitlen], which the
    constructor excludes. *)
Definition netmask n : A :=
  match a_make_prefix (prefix_len n) with Ok m => m | Throw _ => a_zero end.

Definition top_addr n : A := a_or (masked_addr n) (a_not (netmask n)).

(** [contains(const A&)]. *)
Definition net_contains_addr n a : bool := a_masked_eqb a (prefix_len n) (masked_addr n).

(** [contains(const IPNet&)]. *)
Definition net_contains x y : bool :=
  if prefix_len y <? prefix_len x then false
  else if prefix_len x =? prefix_len y then a_eqb (masked_addr y) (masked_addr x)
  else net_contains_addr x (masked_addr y).

(** [operator<]; both sides have the family of [A]. *)
Definition net_ltb x y : bool :=
  if net_contains x y then false
  else if net_contains y x then true
  else a_ltb (masked_addr x) (masked_addr y).

Definition net_is_overlap x y : bool :=
  if prefix_len y <? prefix_len x then
    match net_new (masked_addr x) (prefix_len y) with
    | Ok other_masked => a_eqb (masked_addr other_masked) (masked_addr y)
    | Throw _ => false
    end
  else if prefix_len x <? prefix_len y then
    match net_new (masked_addr y) (prefix_len x) with
    | Ok other_masked => a_eqb (masked_addr other_masked) (masked_addr x)
    | Throw _ => false
    end
  else a_eqb (masked_addr y) (masked_addr x).

Definition net_overlap x y : Z :=
  let xor_addr := a_xor (masked_addr x) (masked_addr y) in
  let done := a_leading_zero_count xor_addr in
  let p := if prefix_len x <? prefix_len y then prefix_len x else prefix_len y in
  if p <? done then p else done.

Definition common_subnet x y : result xorp_exn (IPNet A) :=
  net_new (masked_addr x) (net_overlap x y).

Definition net_dec n : IPNet A :=
  let s := addr_bitlen - prefix_len n in
  mkIPNet (a_shl (a_dec (a_shr (masked_addr n) s)) s) (prefix_len n).
Definition net_inc n : IPNet A :=
  let s := addr_bitlen - prefix_len n in
  mkIPNet (a_shl (a_inc (a_shr (masked_addr n) s)) s) (prefix_len n).

(** [initialize_from_string].  [strrchr] splits at the last slash; [atoi] reads
    the digits that the loop has checked, as [strtol] would, and the result is
    stored in a [uint8_t].
    [A_of_string] is the string constructor of [A] ([inet_pton]). *)
Fixpoint strrchr (c : ascii) (s : string) : option (string * string) :=
  match s with
  | EmptyString => None
  | String x s' =>
      match strrchr c s' with
      | Some (before, after) => Some (String x before, after)
      | None => if bool_decide (x = c) then Some (EmptyString, s') else None
      end
  end.

Definition digit_val (c : ascii) : Z := Z.of_nat (Ascii.nat_of_ascii c) - 48.
Definition is_digit (c : ascii) : bool := (0 <=? digit_val c) && (digit_val c <=? 9).

Fixpoint all_digits (s : string) : bool :=
  match s with EmptyString => true | String c s => is_digit c && all_digits s end.
Fixpoint atoi (acc : Z) (s : string) : Z :=
  match s with EmptyString => acc | String c s => atoi (10 * acc + digit_val c) s end.

Definition net_of_string (A_of_string : string -> result xorp_exn A) (cp : string) :
    result xorp_exn (IPNet A) :=
  match strrchr "/"%char cp with
  | None => Throw InvalidString
  | Some (addr, digits) =>
      if bool_decide (digits = EmptyString) then Throw InvalidString
      else if negb (all_digits digits) then Throw InvalidString
      else
        let plen := Z.min (atoi 0 digits) (2 ^ 63 - 1) mod 2 ^ 8 in
        match A_of_string addr with
        | Throw e => Throw e
        | Ok a => match a_mask_by_prefix_len a plen with
                  | Ok m => Ok (mkIPNet m plen)
                  | Throw e => Throw e
                  end
        end
  end.
End IPNetOps.

(** ** Blocks *)
Section IPNetSpec.
Context `{AddrSpec A}.
Implicit Types (n x y z : IPNet A) (a : A).

(** The number of host bits, and the ends of the block. *)
Definition net_free n : Z := addr_bitlen - prefix_len n.
Definition net_lo n : Z := a_val (masked_addr n).
Definition net_hi n : Z := net_lo n + 2 ^ net_free n - 1.
Definition in_net (v : Z) n : Prop := net_lo n <= v <= net_hi n.

Definition net_wf n : Prop :=
  a_wf (masked_addr n) /\ 0 <= prefix_len n <= addr_bitlen
  /\ align (net_free n) (net_lo n) = net_lo n.

Lemma net_wf_free n : net_wf n -> 0 <= net_free n <= addr_bitlen.
Proof. unfold net_wf, net_free. lia. Qed.

Lemma net_free_pow n : net_wf n -> 0 < 2 ^ net_free n.
Proof. intros Hn. apply pow2_pos. by apply net_wf_free. Qed.

Lemma net_wf_lo n : net_wf n -> 0 <= net_lo n <= net_hi n.
Proof.
  intros Hn. pose proof (net_wf_free n Hn). destruct Hn as (Hw & _ & _).
  pose proof (a_val_range _ Hw). pose proof (pow2_pos (net_free n)). unfold net_hi, net_lo in *. lia.
Qed.

(** The block ends inside the address space: it is aligned. *)
Lemma net_wf_hi n : net_wf n -> net_hi n < 2 ^ addr_bitlen.
Proof.
  intros Hn. pose proof (net_wf_free n Hn) as Hf. destruct Hn as (Hw & Hp & Ha).
  pose proof (a_val_range _ Hw) as Hr. unfold net_hi. rewrite <- Ha, align_div by lia.
  fold (net_lo n) in Hr. pose proof (pow2_pos (net_free n) ltac:(lia)).
  assert (net_lo n / 2 ^ net_free n < 2 ^ (addr_bitlen - net_free n)).
  { apply Z.div_lt_upper_bound; [lia|]. rewrite Z.mul_comm, <- pow2_split by lia. lia. }
  rewrite (pow2_split addr_bitlen (net_free n)) by lia. nia.
Qed.

Lemma in_net_align n v : net_wf n -> in_net v n <-> align (net_free n) v = net_lo n.
Proof.
  intros Hn. pose proof (net_wf_free n Hn) as Hf. destruct Hn as (_ & _ & Ha).
  pose proof (align_eq_iff (net_free n) (net_lo n) v ltac:(lia)) as E.
  rewrite Ha in E. rewrite E. unfold in_net, net_hi. lia.
Qed.

Lemma net_wf_default : net_wf net_default.
Proof.
  destruct a_zero_spec as [W V]. pose proof bitlen_pos.
  unfold net_wf, net_lo, net_free. simpl. rewrite V. split; [done|]. split; [lia|].
  unfold align. rewrite Z.mod_0_l; [done|]. apply Z.pow_nonzero; lia.
Qed.

Lemma net_eq x y : net_wf x -> net_wf y ->
  prefix_len x = prefix_len y -> net_lo x = net_lo y -> x = y.
Proof.
  destruct x, y. intros (Hx & _) (Hy & _) Ep El. simpl in *. subst. f_equal.
  by apply a_val_inj.
Qed.

(** ** The operations on blocks *)
Lemma net_new_ok a p : a_wf a -> 0 <= p <= addr_bitlen ->
  exists n, net_new a p = Ok n /\ net_wf n /\ prefix_len n = p
            /\ net_lo n = align (addr_bitlen - p) (a_val a).
Proof.
  intros Ha Hp. unfold net_new. destruct (Z.ltb_spec addr_bitlen p); [lia|].
  destruct (a_mask_ok a p Ha Hp) as (m & -> & Hm & Ev).
  eexists. split; [done|]. unfold net_wf, net_free, net_lo. simpl. rewrite Ev, align_idemp by lia.
  auto with lia.
Qed.

Lemma net_eqb_spec x y : net_wf x -> net_wf y -> net_eqb x y = true <-> x = y.
Proof.
  intros Hx Hy. unfold net_eqb. rewrite andb_true_iff, Z.eqb_eq.
  rewrite a_eqb_eq by (apply Hx || apply Hy). split; [|by intros ->].
  destruct x, y. simpl. by intros [-> ->].
Qed.

Lemma netmask_spec n : net_wf n ->
  a_make_prefix (prefix_len n) = Ok (netmask n) /\ a_wf (netmask n)
  /\ a_val (netmask n) = 2 ^ addr_bitlen - 2 ^ net_free n.
Proof.
  intros (_ & Hp & _). unfold netmask, net_free.
  destruct (a_make_prefix_ok _ Hp) as (m & -> & Hm & Ev). auto.
Qed.

Lemma not_netmask_spec n : net_wf n ->
  a_wf (a_not (netmask n)) /\ a_val (a_not (netmask n)) = 2 ^ net_free n - 1.
Proof.
  intros Hn. destruct (netmask_spec n Hn) as (_ & Wm & Vm).
  destruct (a_not_spec _ Wm) as [W V]. split; [done|]. rewrite V, Vm. lia.
Qed.

(** An address of the block plus host bits. *)
Lemma lor_host n h : net_wf n -> 0 <= h < 2 ^ net_free n -> Z.lor (net_lo n) h = net_lo n + h.
Proof.
  intros Hn Hh. pose proof (net_wf_free n Hn). destruct Hn as (_ & _ & Ha).
  rewrite <- Ha, align_div by lia. rewrite Z.lor_comm, Z.add_comm.
  rewrite <- Z.shiftl_mul_pow2 by lia.
  assert (Z.land h (Z.shiftl (net_lo n / 2 ^ net_free n) (net_free n)) = 0) as Hd.
  { apply Z.bits_inj'. intros i Hi. rewrite Z.land_spec, Z.bits_0, Z.shiftl_spec by lia.
    destruct (Z.lt_ge_cases i (net_free n)).
    - by rewrite (Z.testbit_neg_r (_ / _)), andb_false_r by lia.
    - by rewrite (testbit_high h (net_free n)) by lia. }
  by rewrite Z.add_nocarry_lxor, Z.lxor_lor by done.
Qed.

Lemma top_addr_spec n : net_wf n -> a_wf (top_addr n) /\ a_val (top_addr n) = net_hi n.
Proof.
  intros Hn. destruct (not_netmask_spec n Hn) as [W V]. unfold top_addr.
  destruct (a_or_spec (masked_addr n) _ (proj1 Hn) W) as [W' V']. split; [done|].
  rewrite V', V. pose proof (pow2_pos (net_free n)). pose proof (net_wf_free n Hn).
  fold (net_lo n). rewrite lor_host by (done || lia). unfold net_hi. lia.
Qed.

Lemma contains_addr_spec n a : net_wf n -> a_wf a ->
  net_contains_addr n a = true <-> in_net (a_val a) n.
Proof.
  intros Hn Ha. destruct (netmask_spec n Hn) as (Em & Wm & Vm).
  unfold net_contains_addr. rewrite (a_masked_eqb_spec _ _ _ _ Ha (proj1 Hn) Em).
  destruct (a_and_spec a _ Ha Wm) as [W V].
  rewrite a_eqb_spec, Z.eqb_eq, V, Vm by (done || apply Hn).
  rewrite land_high_mask by (auto using net_wf_free with xorp).
  rewrite in_net_align by done. done.
Qed.

(** Two aligned blocks are nested or disjoint. *)
Lemma nets_laminar x y v : net_wf x -> net_wf y ->
  in_net v x -> in_net v y -> prefix_len x <= prefix_len y ->
  net_lo x <= net_lo y /\ net_hi y <= net_hi x.
Proof.
  intros Hx Hy Ix Iy Hp. pose proof (net_wf_free x Hx). pose proof (net_wf_free y Hy).
  assert (0 <= net_free y <= net_free x) as Hf by (unfold net_free in *; lia).
  assert (forall u, in_net u y -> in_net u x) as Hsub.
  { intros u Iu. rewrite in_net_align in * by done.
    rewrite <- (align_align _ (net_free y)), Iu, <- Iy, align_align by done. done. }
  pose proof (net_wf_lo y Hy).
  split; [apply (Hsub (net_lo y))|apply (Hsub (net_hi y))]; unfold in_net; lia.
Qed.

Lemma net_size x y : net_wf x -> net_wf y ->
  net_lo x <= net_lo y -> net_hi y <= net_hi x -> prefix_len x <= prefix_len y.
Proof.
  intros Hx Hy Hl Hh. pose proof (net_wf_free x Hx). pose proof (net_wf_free y Hy).
  assert (2 ^ net_free y <= 2 ^ net_free x) as Hs by (unfold net_hi in *; lia).
  apply Z.pow_le_mono_r_iff in Hs; [|lia..]. unfold net_free in *. lia.
Qed.

Lemma contains_iff x y : net_wf x -> net_wf y ->
  net_contains x y = true <-> net_lo x <= net_lo y /\ net_hi y <= net_hi x.
Proof.
  intros Hx Hy. pose proof (net_wf_lo y Hy) as Ly. pose proof (net_wf_lo x Hx) as Lx.
  unfold net_contains. destruct (Z.ltb_spec (prefix_len y) (prefix_len x)).
  { split; [done|]. intros [? ?]. pose proof (net_size x y Hx Hy). lia. }
  destruct (Z.eqb_spec (prefix_len x) (prefix_len y)) as [E|].
  { rewrite a_eqb_eq by (apply Hx || apply Hy). split.
    - intros Em. assert (x = y) as -> by (destruct x, y; simpl in *; congruence). lia.
    - intros [? ?]. assert (net_free x = net_free y) as Ef by (unfold net_free; lia).
      apply a_val_inj; [apply Hy|apply Hx|]. fold (net_lo x) (net_lo y).
      unfold net_hi in *. rewrite Ef in *. lia. }
  rewrite contains_addr_spec by (done || apply Hy). fold (net_lo y). split.
  - intros I. apply (nets_laminar x y (net_lo y)); try done; unfold in_net; lia.
  - unfold in_net. lia.
Qed.

Lemma contains_align x y : net_wf x -> net_wf y ->
  net_contains x y = true
  <-> prefix_len x <= prefix_len y /\ align (net_free x) (net_lo y) = net_lo x.
Proof.
  intros Hx Hy. rewrite contains_iff by done. pose proof (net_wf_lo y Hy).
  rewrite <- in_net_align by done. split.
  - intros [? ?]. split; [by apply net_size|]. unfold in_net. lia.
  - intros [? I]. apply (nets_laminar x y (net_lo y)); try done. unfold in_net. lia.
Qed.

Lemma contains_refl x : net_wf x -> net_contains x x = true.
Proof. intros. rewrite contains_iff by done. lia. Qed.

Lemma contains_trans x y z : net_wf x -> net_wf y -> net_wf z ->
  net_contains x y = true -> net_contains y z = true -> net_contains x z = true.
Proof. intros. rewrite contains_iff in * by done. lia. Qed.

Lemma contains_antisym x y : net_wf x -> net_wf y ->
  net_contains x y = true -> net_contains y x = true -> x = y.
Proof.
  intros Hx Hy Hxy Hyx. apply contains_align in Hxy as Ha; [|done..]. apply contains_align in Hyx as Hb; [|done..].
  rewrite contains_iff in * by done. apply net_eq; [done..|lia|lia].
Qed.

Lemma not_contains x y : net_wf x -> net_wf y ->
  net_contains x y = false -> ~ (net_lo x <= net_lo y /\ net_hi y <= net_hi x).
Proof. intros Hx Hy E Hc. apply contains_iff in Hc; [|done..]. congruence. Qed.

(** Blocks that do not contain each other are apart. *)
Lemma not_contains_disjoint x y : net_wf x -> net_wf y ->
  net_contains x y = false -> net_contains y x = false ->
  net_hi x < net_lo y \/ net_hi y < net_lo x.
Proof.
  intros Hx Hy Exy Eyx. apply not_contains in Exy, Eyx; try done.
  pose proof (net_wf_lo x Hx). pose proof (net_wf_lo y Hy).
  destruct (Z.lt_ge_cases (net_hi x) (net_lo y)); [auto|].
  destruct (Z.lt_ge_cases (net_hi y) (net_lo x)); [auto|].
  assert (in_net (Z.max (net_lo x) (net_lo y)) x) as Ix by (unfold in_net; lia).
  assert (in_net (Z.max (net_lo x) (net_lo y)) y) as Iy by (unfold in_net; lia).
  destruct (Z.le_ge_cases (prefix_len x) (prefix_len y)).
  - pose proof (nets_laminar x y _ Hx Hy Ix Iy). lia.
  - pose proof (nets_laminar y x _ Hy Hx Iy Ix). lia.
Qed.

(** ** The order of subnets

    [operator<] is the lexicographic order of (last address, first address
    downwards): the post-order of the tree of subnets. *)
Lemma ltb_iff x y : net_wf x -> net_wf y ->
  net_ltb x y = true
  <-> net_hi x < net_hi y \/ (net_hi x = net_hi y /\ net_lo y < net_lo x).
Proof.
  intros Hx Hy. unfold net_ltb. pose proof (net_wf_lo x Hx). pose proof (net_wf_lo y Hy).
  destruct (net_contains x y) eqn:Exy; [apply contains_iff in Exy; [lia|done..]|].
  destruct (net_contains y x) eqn:Eyx.
  { apply contains_iff in Eyx; [|done..]. apply not_contains in Exy; [|done..]. lia. }
  pose proof (not_contains_disjoint x y Hx Hy Exy Eyx).
  rewrite a_ltb_spec, Z.ltb_lt by (apply Hx || apply Hy). fold (net_lo x) (net_lo y). lia.
Qed.

Lemma ltb_irrefl x : net_wf x -> net_ltb x x = false.
Proof. intros Hx. destruct (net_ltb x x) eqn:E; [|done]. apply ltb_iff in E; [lia|done..]. Qed.

Lemma ltb_trans x y z : net_wf x -> net_wf y -> net_wf z ->
  net_ltb x y = true -> net_ltb y z = true -> net_ltb x z = true.
Proof. intros. rewrite ltb_iff in * by done. lia. Qed.

Lemma ltb_total x y : net_wf x -> net_wf y ->
  net_ltb x y = true \/ x = y \/ net_ltb y x = true.
Proof.
  intros Hx Hy. rewrite !ltb_iff by done.
  destruct (Z.lt_trichotomy (net_hi x) (net_hi y)) as [|[Eh|]]; [lia| |lia].
  destruct (Z.lt_trichotomy (net_lo x) (net_lo y)) as [|[El|]]; [lia| |lia].
  right; left. apply contains_antisym; [done..| |]; apply contains_iff; done || lia.
Qed.

(** ** Common prefixes *)
Lemma overlap_range x y : net_wf x -> net_wf y ->
  0 <= net_overlap x y <= prefix_len x /\ net_overlap x y <= prefix_len y.
Proof.
  intros Hx Hy. unfold net_overlap.
  destruct (a_xor_spec _ _ (proj1 Hx) (proj1 Hy)) as [W V].
  rewrite a_leading_zero_count_spec by done. pose proof (a_val_range _ W) as Hr.
  pose proof bitlen_pos. destruct Hx as (_ & ? & _), Hy as (_ & ? & _).
  set (v := a_val (a_xor _ _)) in *. clearbody v. destruct (Z.eqb_spec v 0).
  - repeat case_if; lia.
  - assert (Z.log2 v < addr_bitlen) by (apply Z.log2_lt_pow2; lia). repeat case_if; lia.
Qed.

(** [overlap] counts the leading bits on which the two prefixes agree. *)
Lemma overlap_spec x y p : net_wf x -> net_wf y ->
  0 <= p <= prefix_len x -> p <= prefix_len y ->
  p <= net_overlap x y
  <-> align (addr_bitlen - p) (net_lo x) = align (addr_bitlen - p) (net_lo y).
Proof.
  intros Hx Hy Hpx Hpy. pose proof (net_wf_lo x Hx). pose proof (net_wf_lo y Hy).
  destruct (a_xor_spec _ _ (proj1 Hx) (proj1 Hy)) as [W V].
  pose proof (a_val_range _ W) as Hr. destruct Hx as (_ & ? & _), Hy as (_ & ? & _).
  rewrite align_eq_lxor by lia. unfold net_overlap. rewrite a_leading_zero_count_spec by done.
  unfold net_lo. rewrite <- V. clear V.
  set (v := a_val (a_xor _ _)) in *. clearbody v.
  assert (0 < 2 ^ (addr_bitlen - p)) by (apply pow2_pos; lia).
  destruct (Z.eqb_spec v 0) as [->|].
  { repeat case_if; lia. }
  rewrite Z.log2_lt_pow2 by lia. repeat case_if; lia.
Qed.

Lemma common_subnet_spec x y : net_wf x -> net_wf y ->
  exists c, common_subnet x y = Ok c /\ net_wf c
    /\ net_contains c x = true /\ net_contains c y = true
    /\ prefix_len c = net_overlap x y
    /\ forall z, net_wf z -> net_contains z x = true -> net_contains z y = true ->
                 net_contains z c = true.
Proof.
  intros Hx Hy. pose proof (overlap_range x y Hx Hy) as Ho.
  pose proof (proj1 (proj2 Hx)). pose proof (proj1 (proj2 Hy)).
  assert (0 <= net_overlap x y <= addr_bitlen) as Hb by lia.
  destruct (net_new_ok (masked_addr x) (net_overlap x y) (proj1 Hx) Hb)
    as (c & Ec & Hc & Pc & Lc).
  fold (net_lo x) in Lc. exists c. split; [done|]. split; [done|].
  assert (align (net_free c) (net_lo x) = align (net_free c) (net_lo y)) as Exy.
  { unfold net_free. rewrite Pc. apply overlap_spec; done || lia. }
  assert (net_lo c = align (net_free c) (net_lo x)) as Lc' by (unfold net_free; by rewrite Pc).
  split; [rewrite contains_align by done; split; [lia|done]|].
  split; [rewrite contains_align by done; split; [lia|congruence]|].
  split; [done|]. intros z Hz Hzx Hzy. rewrite contains_align in * by done.
  destruct Hzx as [Pzx Azx], Hzy as [Pzy Azy]. pose proof (proj1 (proj2 Hz)).
  assert (prefix_len z <= net_overlap x y).
  { apply overlap_spec; [done..|lia|lia|]. fold (net_free z). congruence. }
  split; [lia|]. rewrite Lc', align_align by (unfold net_free; lia). done.
Qed.

Lemma is_overlap_iff x y : net_wf x -> net_wf y ->
  net_is_overlap x y = true <-> exists v, in_net v x /\ in_net v y.
Proof.
  intros Hx Hy. assert (net_is_overlap x y = net_contains x y || net_contains y x) as ->.
  { apply bool_eq_iff. rewrite orb_true_iff, !contains_align by done. unfold net_is_overlap, net_free.
    destruct Hx as (Wx & Px & Ax), Hy as (Wy & Py & Ay).
    destruct (Z.ltb_spec (prefix_len y) (prefix_len x)).
    - destruct (net_new_ok (masked_addr x) (prefix_len y) Wx Py) as (m & -> & Hm & Pm & Lm).
      rewrite a_eqb_spec, Z.eqb_eq by (done || apply Hm). fold (net_lo m) (net_lo y).
      rewrite Lm. fold (net_lo x). intuition lia.
    - destruct (Z.ltb_spec (prefix_len x) (prefix_len y)).
      + destruct (net_new_ok (masked_addr y) (prefix_len x) Wy Px) as (m & -> & Hm & Pm & Lm).
        rewrite a_eqb_spec, Z.eqb_eq by (done || apply Hm). fold (net_lo m) (net_lo x).
        rewrite Lm. fold (net_lo y). intuition lia.
      + rewrite a_eqb_spec, Z.eqb_eq by done. fold (net_lo x) (net_lo y).
        unfold net_free in Ax, Ay. replace (prefix_len y) with (prefix_len x) in * by lia.
        rewrite Ax, Ay. intuition lia. }
  pose proof (net_wf_lo x Hx). pose proof (net_wf_lo y Hy).
  rewrite orb_true_iff, !contains_iff by done. split.
  - intros [?|?]; [exists (net_lo y)|exists (net_lo x)]; unfold in_net; lia.
  - intros (v & Ix & Iy). destruct (Z.le_ge_cases (prefix_len x) (prefix_len y)).
    + left. by apply (nets_laminar x y v).
    + right. by apply (nets_laminar y x v).
Qed.

(** ** Stepping to the neighbouring block *)
Lemma net_step_spec n f k : net_wf n ->
  (forall a, a_wf a -> a_wf (f a) /\ a_val (f a) = (a_val a + k) mod 2 ^ addr_bitlen) ->
  let s := net_free n in
  let n' := mkIPNet (a_shl (f (a_shr (masked_addr n) s)) s) (prefix_len n) in
  net_wf n' /\ net_lo n' = (net_lo n + k * 2 ^ s) mod 2 ^ addr_bitlen.
Proof.
  intros Hn Hf s n'. pose proof (net_wf_free n Hn) as Hs. fold s in Hs.
  pose proof bitlen_small as Hb. destruct Hn as (Wn & Pn & An).
  destruct (a_shr_spec (masked_addr n) s Wn ltac:(lia)) as [W1 V1].
  destruct (Hf _ W1) as [W2 V2]. destruct (a_shl_spec _ s W2 ltac:(lia)) as [W3 V3].
  assert (0 < 2 ^ s) by (apply pow2_pos; lia).
  assert (0 < 2 ^ addr_bitlen) by (apply pow2_pos; lia).
  assert (net_lo n' = (net_lo n + k * 2 ^ s) mod 2 ^ addr_bitlen) as E.
  { unfold net_lo at 1. subst n'. simpl. rewrite V3, V2, V1, Z.shiftl_mul_pow2, Z.shiftr_div_pow2 by lia.
    fold (net_lo n). rewrite Z.mul_mod_idemp_l, Z.mul_add_distr_r, <- align_div by lia.
    unfold s. by rewrite An. }
  split; [|done]. split; [done|]. split; [done|].
  change (net_free n') with s. rewrite E.
  assert (((net_lo n + k * 2 ^ s) mod 2 ^ addr_bitlen) mod 2 ^ s = 0) as Hd.
  { rewrite Z.mod_mod_divide by (exists (2 ^ (addr_bitlen - s)); apply pow2_split; lia).
    rewrite Z.mod_add by lia. unfold align in An. fold s in An. lia. }
  unfold align. rewrite Hd. lia.
Qed.

Lemma net_inc_spec n : net_wf n ->
  net_wf (net_inc n) /\ net_lo (net_inc n) = (net_lo n + 2 ^ net_free n) mod 2 ^ addr_bitlen.
Proof.
  intros Hn. pose proof (net_step_spec n a_inc 1 Hn a_inc_spec) as E.
  cbv zeta in E. by rewrite Z.mul_1_l in E.
Qed.

Lemma net_dec_spec n : net_wf n ->
  net_wf (net_dec n) /\ net_lo (net_dec n) = (net_lo n - 2 ^ net_free n) mod 2 ^ addr_bitlen.
Proof.
  intros Hn. pose proof (net_step_spec n a_dec (-1) Hn a_dec_spec) as E.
  cbv zeta in E. by replace (net_lo n + -1 * 2 ^ net_free n) with (net_lo n - 2 ^ net_free n) in E by lia.
Qed.
End IPNetSpec.
