(* ===== verification/Sample.v ===== *)
(** * Concrete IPv4 addresses, subnets and tries

    The sample data of the witnesses: dotted quads on a little-endian host, the
    subnets built from them with the [IPNet] constructor, and the tactic that
    decides well-formedness of closed data by evaluation. *)

From Stdlib Require Import ZArith Lia.
From stdpp Require Import base tactics list numbers.
From S2P Require Import Prelude Word32 Addr IPv4 IPNet.
Local Open Scope Z_scope.

#[global] Instance little_endian : HostOrder := false.

Definition ip4 (a b c d : Z) : IPv4 :=
  mkIPv4 (htonl (a * 2 ^ 24 + b * 2 ^ 16 + c * 2 ^ 8 + d)).

Definition net4 (a b c d n : Z) : IPNet IPv4 :=
  match net_new (ip4 a b c d) n with Ok x => x | Throw _ => net_default end.

(** Closed bounds and equations by evaluation. *)
Ltac by_eval :=
  try match goal with |- Forall _ ?l => let l' := eval vm_compute in l in change l with l' end;
  repeat match goal with
  | |- Forall _ (_ :: _) => apply Forall_cons_2
  | |- Forall _ [] => apply Forall_nil_2
  end;
  vm_compute;
  repeat match goal with
  | |- _ /\ _ => split
  | |- _ = _ -> _ => intros ?
  end;
  first [reflexivity | discriminate | exact I | exfalso; congruence].
