(* ===== verification/NetProps.v ===== *)
(** * What the addresses and subnets promise (libxorp/ipv4.hh, ipv6.hh, ipnet.hh)

    The contracts of the address and subnet classes as their users see them:
    containment as inclusion of address sets, the order of subnets, common
    subnets, stepping, mask lengths and the octets of an address. *)

From Stdlib Require Import ZArith Lia String Ascii.
From stdpp Require Import base tactics option numbers list.
From S2P Require Import Prelude Word32 Addr IPv4 IPv6 IPNet Sample.
Local Open Scope Z_scope.

Section Nets.
Context `{AddrSpec A}.
Implicit Types (n x y z : IPNet A) (a : A).

(** [IPNet::contains] is inclusion of the sets of addresses, for a subnet and
    for a single address: the mask comparisons of the code decide exactly whether
    every address of the one block is in the other. *)
Theorem net_contains_correct x y : net_wf x -> net_wf y ->
  (net_contains x y = true <-> forall v, in_net v y -> in_net v x)
  /\ forall a, a_wf a -> net_contains_addr x a = true <-> in_net (a_val a) x.
Proof.
  intros Hx Hy. split; [|intros a Ha; by apply contains_addr_spec].
  rewrite contains_iff by done. pose proof (net_wf_lo y Hy). unfold in_net. split; [lia|].
  intros Hi. pose proof (Hi (net_lo y)). pose proof (Hi (net_hi y)). lia.
Qed.

(** [IPNet::operator<] is a strict total order in which a subnet comes before
    every subnet that contains it, so that a map ordered by it lists
    more-specific subnets first. *)
Theorem net_order_correct x y z : net_wf x -> net_wf y -> net_wf z ->
  net_ltb x x = false
  /\ (net_ltb x y = true -> net_ltb y z = true -> net_ltb x z = true)
  /\ (net_ltb x y = true \/ x = y \/ net_ltb y x = true)
  /\ (net_contains y x = true -> x <> y -> net_ltb x y = true).
Proof.
  intros Hx Hy Hz. split; [by apply ltb_irrefl|]. split; [by apply ltb_trans|]. split; [by apply ltb_total|].
  intros Hc Hne. unfold net_ltb. destruct (net_contains x y) eqn:E; [|by rewrite Hc].
  by destruct Hne; apply contains_antisym.
Qed.

(** [common_subnet] returns the smallest subnet that contains both arguments,
    and [is_overlap] says whether two subnets share an address. *)
Theorem common_subnet_correct x y : net_wf x -> net_wf y ->
  (exists c, common_subnet x y = Ok c /\ net_wf c /\ net_contains c x = true /\ net_contains c y = true
     /\ forall z, net_wf z -> net_contains z x = true -> net_contains z y = true -> net_contains z c = true)
  /\ (net_is_overlap x y = true <-> exists v, in_net v x /\ in_net v y).
Proof.
  intros Hx Hy. split; [|by apply is_overlap_iff].
  destruct (common_subnet_spec x y Hx Hy) as (c & E & Hc & Hcx & Hcy & _ & Hmin). exists c. auto.
Qed.

(** [operator++] moves a subnet to the block that follows, modulo the address
    space, and [operator--] undoes it. *)
Theorem net_inc_dec n : net_wf n ->
  net_wf (net_inc n) /\ net_lo (net_inc n) = (net_lo n + 2 ^ net_free n) mod 2 ^ addr_bitlen
  /\ net_dec (net_inc n) = n.
Proof.
  intros Hn. destruct (net_inc_spec n Hn) as [Hi Ei]. split; [done|]. split; [done|].
  destruct (net_dec_spec (net_inc n) Hi) as [Hd Ed]. apply net_eq; [done|done|done|].
  change (net_free (net_inc n)) with (net_free n) in Ed. rewrite Ed, Ei, Zminus_mod_idemp_l.
  replace (net_lo n + 2 ^ net_free n - 2 ^ net_free n) with (net_lo n) by lia.
  apply Z.mod_small. pose proof (net_wf_lo n Hn). pose proof (net_wf_hi n Hn). lia.
Qed.
End Nets.

Section Words.
Context `{HostOrder}.

Definition prefix_roundtrip {A} (make : Z -> result xorp_exn A) (len : A -> Z) (n : nat) : bool :=
  match make (Z.of_nat n) with Ok m => len m =? Z.of_nat n | Throw _ => false end.

Lemma prefix_roundtrip_all {A} (make : Z -> result xorp_exn A) len k n :
  forallb (prefix_roundtrip make len) (seq 0 (S k)) = true -> 0 <= n <= Z.of_nat k ->
  exists m, make n = Ok m /\ len m = n.
Proof.
  intros Hall Hn. rewrite forallb_forall in Hall. specialize (Hall (Z.to_nat n)).
  unfold prefix_roundtrip in Hall. rewrite Z2Nat.id in Hall by lia. destruct (make n) as [m|e].
  - exists m. split; [done|]. apply Z.eqb_eq, Hall, in_seq. lia.
  - discriminate Hall. apply in_seq. lia.
Qed.

(** [mask_len] reads back the length of every mask [make_prefix] builds, on
    both kinds of host and for both address families. *)
Theorem mask_len_make_prefix n :
  (0 <= n <= 32 -> exists m, ipv4_make_prefix n = Ok m /\ ipv4_mask_len m = n)
  /\ (0 <= n <= 128 -> exists m, ipv6_make_prefix n = Ok m /\ ipv6_mask_len m = n).
Proof.
  split; intros Hn.
  - apply (prefix_roundtrip_all _ _ 32); [|done]. destruct H; vm_compute; reflexivity.
  - apply (prefix_roundtrip_all _ _ 128); [|done]. destruct H; vm_compute; reflexivity.
Qed.

(** The [n] most significant octets first. *)
Fixpoint be_octets (n : nat) (v : Z) : list Z :=
  match n with O => [] | S n => octet (Z.of_nat n) v :: be_octets n v end.

Lemma to_mem_be x : is_u32 x -> u32_to_mem x = be_octets 4 (ntohl x).
Proof. intros Hx. rewrite <- (htonl_ntohl x Hx) at 1. by rewrite u32_to_mem_htonl. Qed.

Lemma u32_to_mem_length x : length (u32_to_mem x) = 4%nat.
Proof. by rewrite u32_to_mem_octets; destruct big_endian. Qed.

Lemma take_mem x l : take 4 (u32_to_mem x ++ l) = u32_to_mem x.
Proof. apply take_app_length'. by rewrite u32_to_mem_length. Qed.
Lemma drop_mem x l : drop 4 (u32_to_mem x ++ l) = l.
Proof. apply drop_app_length'. by rewrite u32_to_mem_length. Qed.

(** [copy_out] writes the address in network order, most significant octet
    first, whatever the byte order of the host, and [copy_in] reads it back; for
    IPv6 the four words follow each other. *)
Theorem copy_network_order :
  (forall a, ipv4_wf a -> ipv4_copy_out a = be_octets 4 (ipv4_val a) /\ ipv4_copy_in (ipv4_copy_out a) = a)
  /\ (forall a, ipv6_wf a ->
        ipv6_copy_out a = be_octets 4 (ntohl (v6_0 a)) ++ be_octets 4 (ntohl (v6_1 a))
                          ++ be_octets 4 (ntohl (v6_2 a)) ++ be_octets 4 (ntohl (v6_3 a))
        /\ ipv6_copy_in (ipv6_copy_out a) = a).
Proof.
  split.
  - intros [x] Hx. split; [by apply to_mem_be|]. unfold ipv4_copy_in, ipv4_copy_out. simpl.
    rewrite take_ge by (by rewrite u32_to_mem_length). by rewrite u32_mem_roundtrip.
  - intros [x0 x1 x2 x3] (H0 & H1 & H2 & H3). simpl in *.
    split; [unfold ipv6_copy_out; simpl; by rewrite !to_mem_be|].
    unfold ipv6_copy_in, ipv6_copy_out. simpl.
    change 12%nat with (4 + (4 + 4))%nat. change 8%nat with (4 + 4)%nat.
    rewrite <- !drop_drop. rewrite !drop_mem, !take_mem.
    rewrite (take_ge (u32_to_mem x3)) by (by rewrite u32_to_mem_length).
    by rewrite !u32_mem_roundtrip.
Qed.
End Words.

(** The comparisons of an [IPv4] with an [IPv4Range] compare the words in
    network order: on a little-endian host 10.1.0.5 does not "fall inside" the
    range from 10.0.0.9 to 10.2.0.1. *)
Theorem ipv4_range_network_order :
  let a := ip4 10 1 0 5 in let lo := ip4 10 0 0 9 in let hi := ip4 10 2 0 1 in
  ipv4_val lo < ipv4_val a < ipv4_val hi
  /\ ipv4_range_eqb a lo hi = false /\ ipv4_range_neqb a lo hi = true /\ ipv4_range_ltb a lo hi = true.
Proof. by_eval. Qed.

(** The prefix length of a subnet string is cut to 8 bits before it is checked:
    for every string constructor that accepts "10.0.0.0", the string
    "10.0.0.0/264" is accepted and means 10.0.0.0/8. *)
Theorem net_of_string_wraps (of_string : string -> result xorp_exn IPv4) :
  of_string "10.0.0.0"%string = Ok (ip4 10 0 0 0) ->
  net_of_string of_string "10.0.0.0/264"%string = Ok (net4 10 0 0 0 8).
Proof.
  intros E. vm_compute in E. vm_compute. rewrite E. reflexivity.
Qed.

(** ** Concrete subnets *)

Lemma sample_nets : net_wf (net4 10 0 0 0 8) /\ net_wf (net4 10 1 0 0 16) /\ net_wf (net4 10 1 2 0 24).
Proof. unfold net_wf. by_eval. Qed.

Lemma net_contains_correct_witness :
  (net_contains (net4 10 0 0 0 8) (net4 10 1 0 0 16) = true
     <-> forall v, in_net v (net4 10 1 0 0 16) -> in_net v (net4 10 0 0 0 8))
  /\ forall a, a_wf a -> net_contains_addr (net4 10 0 0 0 8) a = true <-> in_net (a_val a) (net4 10 0 0 0 8).
Proof. apply net_contains_correct; apply sample_nets. Defined.

Lemma net_order_correct_witness : net_ltb (net4 10 1 2 0 24) (net4 10 1 0 0 16) = true.
Proof.
  destruct sample_nets as (H8 & H16 & H24).
  destruct (net_order_correct _ _ _ H24 H16 H8) as (_ & _ & _ & Hc). apply Hc; by_eval.
Defined.

Lemma common_subnet_correct_witness :
  (exists c, common_subnet (net4 10 1 0 0 16) (net4 10 1 2 0 24) = Ok c /\ net_wf c
     /\ net_contains c (net4 10 1 0 0 16) = true /\ net_contains c (net4 10 1 2 0 24) = true
     /\ forall z, net_wf z -> net_contains z (net4 10 1 0 0 16) = true -> net_contains z (net4 10 1 2 0 24) = true ->
          net_contains z c = true)
  /\ (net_is_overlap (net4 10 1 0 0 16) (net4 10 1 2 0 24) = true
       <-> exists v, in_net v (net4 10 1 0 0 16) /\ in_net v (net4 10 1 2 0 24)).
Proof. apply common_subnet_correct; apply sample_nets. Defined.

Lemma net_inc_dec_witness : net_dec (net_inc (net4 10 1 0 0 16)) = net4 10 1 0 0 16.
Proof. apply net_inc_dec. apply sample_nets. Defined.

Lemma mask_len_make_prefix_witness : exists m, ipv4_make_prefix 20 = Ok m /\ ipv4_mask_len m = 20.
Proof. apply (mask_len_make_prefix 20). lia. Defined.

Lemma copy_network_order_witness :
  ipv4_copy_out (ip4 10 1 2 3) = [10; 1; 2; 3] /\ ipv4_copy_in (ipv4_copy_out (ip4 10 1 2 3)) = ip4 10 1 2 3.
Proof.
  destruct (proj1 copy_network_order (ip4 10 1 2 3)) as [E1 E2]; [unfold ipv4_wf, is_u32; by_eval|].
  split; [rewrite E1; by_eval|exact E2].
Defined.

Lemma net_of_string_wraps_witness :
  net_of_string (fun s => if bool_decide (s = "10.0.0.0"%string) then Ok (ip4 10 0 0 0) else Throw InvalidString)
    "10.0.0.0/264"%string = Ok (net4 10 0 0 0 8).
Proof. apply net_of_string_wraps. reflexivity. Defined.
