(* ===== verification/Trie.v ===== *)
(** * The route trie (libxorp/trie.hh): data and operations

    A [TrieNode] is a [TNode] with its key, its optional payload and its two
    children; the null pointer is [Null].  A pointer to a node is the path from
    the root to it, so that the [_up] pointer is the path without its last step;
    the loops that climb with [_up] run over the list of the frames above the
    node.  [insert] is [None] where the C++ code would reach [abort()] or let an
    exception escape. *)

From Stdlib Require Import ZArith Lia.
From stdpp Require Import base tactics option list numbers.
From S2P Require Import Prelude Addr IPNet.
Local Open Scope Z_scope.

Inductive dir := L | R.
Abbreviation path := (list dir).

#[global] Instance dir_eq_dec : EqDecision dir.
Proof. solve_decision. Defined.

Section TrieData.
Context {A P : Type}.

Inductive tree :=
  | Null
  | TNode (k : IPNet A) (p : option P) (l r : tree).

Definition is_null (t : tree) : bool := match t with Null => true | _ => false end.

(** What a frame of the spine above a node keeps: the parent's key and payload,
    and the sibling. *)
Inductive frame :=
  | FL (k : IPNet A) (p : option P) (r : tree)
  | FR (k : IPNet A) (p : option P) (l : tree).

Definition plug (f : frame) (t : tree) : tree :=
  match f with FL k p r => TNode k p t r | FR k p l => TNode k p l t end.
Definition plug_all (ctx : list frame) (t : tree) : tree := foldl (fun t f => plug f t) t ctx.

(** The node at a path, with the frames above it, nearest first. *)
Fixpoint focus (q : path) (t : tree) (ctx : list frame) : option (tree * list frame) :=
  match q, t with
  | [], _ => Some (t, ctx)
  | L :: q, TNode k p l r => focus q l (FL k p r :: ctx)
  | R :: q, TNode k p l r => focus q r (FR k p l :: ctx)
  | _ :: _, Null => None
  end.

Fixpoint node_at (q : path) (t : tree) : tree :=
  match q, t with
  | [], _ => t
  | L :: q, TNode _ _ l _ => node_at q l
  | R :: q, TNode _ _ _ r => node_at q r
  | _ :: _, Null => Null
  end.
End TrieData.
Arguments tree : clear implicits.
Arguments frame : clear implicits.

Section TrieOps.
Context `{AddrOps A} {P : Type}.
Implicit Types (t : tree A P) (x y : IPNet A).

Definition new_leaf (x : IPNet A) (p : P) : tree A P := TNode x (Some p) Null Null.

Definition has_payload (o : option P) : bool := match o with Some _ => true | None => false end.

(** The midpoint of a subnet: the last address of its lower half. *)
Definition midpoint (x : IPNet A) : A :=
  a_or (masked_addr x) (a_shr (a_not (netmask x)) 1).

(** [TrieNode::insert]: the new subtree, the pointer to the node of [x], and
    [replaced].  The cases carry the letters of the source. *)
Fixpoint node_insert (root : tree A P) (x : IPNet A) (p : P) : option (tree A P * path * bool) :=
  match root with
  | Null => Some (new_leaf x p, [], false)
  | TNode y py l r =>
      if net_eqb x y then Some (TNode y (Some p) l r, [], has_payload py)   (* case 0 *)
      else
        let x_m := midpoint x in
        let y_m := midpoint y in
        let x_l := masked_addr x in
        let x_h := top_addr x in
        let y_l := masked_addr y in
        let y_h := top_addr y in
        if a_ltb x_h y_l then                                               (* case A *)
          match common_subnet x y with
          | Ok k => Some (TNode k None (new_leaf x p) root, [L], false)
          | Throw _ => None
          end
        else if a_ltb y_h x_l then                                          (* case B *)
          match common_subnet x y with
          | Ok k => Some (TNode k None root (new_leaf x p), [R], false)
          | Throw _ => None
          end
        else if a_geb x_l y_l && a_leb x_h y_m then                         (* case C *)
          match node_insert l x p with
          | Some (l', me, replaced) => Some (TNode y py l' r, L :: me, replaced)
          | None => None
          end
        else if a_gtb x_l y_m && a_leb x_h y_h then                         (* case D *)
          match node_insert r x p with
          | Some (r', me, replaced) => Some (TNode y py l r', R :: me, replaced)
          | None => None
          end
        else if a_gtb y_l x_m && a_leb y_h x_h then                         (* case E *)
          Some (TNode x (Some p) Null root, [], false)
        else if a_geb y_l x_l && a_leb y_h x_m then                         (* case F *)
          Some (TNode x (Some p) root Null, [], false)
        else None
  end.

(** [TrieNode::erase].  A node is useless when it has no payload and at most
    one child; its child is linked in its place and the loop goes on with the
    parent, or, at the root, with the child that becomes the root. *)
Definition useless t : bool :=
  match t with
  | Null => false
  | TNode _ p l r => negb (has_payload p) && (is_null l || is_null r)
  end.
Definition only_child t : tree A P :=
  match t with Null => Null | TNode _ _ l r => if is_null l then r else l end.

Fixpoint erase_root t : tree A P :=
  match t with
  | Null => Null
  | TNode k p l r =>
      if useless t then (if is_null l then erase_root r else erase_root l) else t
  end.

Fixpoint erase_loop (ctx : list (frame A P)) (me : tree A P) : tree A P :=
  match ctx with
  | [] => erase_root me
  | f :: up => if useless me then erase_loop up (plug f (only_child me))
               else plug_all ctx me
  end.

Definition clear_payload t : tree A P :=
  match t with Null => Null | TNode k _ l r => TNode k None l r end.

(** The erasure of the node at a path: the new root of the trie. *)
Definition node_erase (q : path) t : tree A P :=
  match focus q t [] with
  | Some (me, ctx) => erase_loop ctx (clear_payload me)
  | None => t
  end.

(** [TrieNode::find]: the most specific node with a payload that contains the
    key.  [here] is the pointer [r], [cand] the candidate so far. *)
Definition child_contains t (key : IPNet A) : bool :=
  match t with Null => false | TNode k _ _ _ => net_contains k key end.

Fixpoint find_loop t (key : IPNet A) (here : path) (cand : option path) : option path :=
  match t with
  | Null => cand
  | TNode k p l r =>
      if net_contains k key then
        let cand := if has_payload p then Some here else cand in
        if child_contains l key then find_loop l key (here ++ [L]) cand
        else find_loop r key (here ++ [R]) cand
      else cand
  end.
Definition node_find t (key : IPNet A) : option path := find_loop t key [] None.

(** [TrieNode::find_subtree]. *)
Definition key_contains (key : IPNet A) t : bool :=
  match t with Null => false | TNode k _ _ _ => net_contains key k end.

Fixpoint find_subtree_loop t (key : IPNet A) (here : path) (cand : option path) : option path :=
  match t with
  | Null => cand
  | TNode k p l r =>
      if net_contains k key then
        if net_contains key k then Some here
        else if child_contains l key then find_subtree_loop l key (here ++ [L]) cand
        else if child_contains r key then find_subtree_loop r key (here ++ [R]) cand
        else if key_contains key l then Some (here ++ [L])
        else if key_contains key r then Some (here ++ [R])
        else cand
      else cand
  end.
Definition find_subtree t (key : IPNet A) : option path :=
  find_subtree_loop t key [] (if key_contains key t then Some [] else None).

(** [leftmost]: down the left child if there is one, else the right one. *)
Fixpoint leftmost t (here : path) : path :=
  match t with
  | Null => here
  | TNode _ _ l r =>
      if is_null l then (if is_null r then here else leftmost r (here ++ [R]))
      else leftmost l (here ++ [L])
  end.

(** [low] and [high]: the ends of the routes of a subtree; [None] on the null
    pointer, on which the code does not call them. *)
Fixpoint low t : option A :=
  match t with
  | Null => None
  | TNode k p l r =>
      if has_payload p || (is_null l && is_null r) then Some (masked_addr k)
      else if is_null l then low r else low l
  end.
Fixpoint high t : option A :=
  match t with
  | Null => None
  | TNode k p l r =>
      if has_payload p || (is_null l && is_null r) then Some (top_addr k)
      else if is_null r then high l else high r
  end.

Definition dec_opt (o : option A) (d : A) : A := match o with Some a => a_dec a | None => d end.
Definition inc_opt (o : option A) (d : A) : A := match o with Some a => a_inc a | None => d end.

(** The loop of [TrieNode::find_bounds] from node [n]. *)
Fixpoint bounds_loop n (a lo hi : A) : A * A :=
  match n with
  | Null => (lo, hi)
  | TNode _ _ l r =>
      match (if is_null l then r else l) with
      | Null => (lo, hi)
      | TNode xk _ _ _ as x =>
          if a_ltb a (masked_addr xk) then (lo, dec_opt (low x) hi)           (* case 1 *)
          else if a_leb a (top_addr xk) then                                  (* case 2 *)
            (if is_null l then bounds_loop r a lo hi else bounds_loop l a lo hi)
          else
            match l, r with
            | TNode _ _ _ _, TNode rk _ _ _ =>
                if a_ltb a (masked_addr rk) then                              (* case 3 *)
                  (inc_opt (high x) lo, dec_opt (low r) hi)
                else if a_leb a (top_addr rk) then                            (* case 4 *)
                  let lo := match l with
                            | TNode lk _ _ _ =>
                                if a_gtb a (top_addr lk) then inc_opt (high l) lo else lo
                            | Null => lo
                            end in
                  bounds_loop r a lo hi
                else (inc_opt (high r) lo, hi)                                (* case 5 *)
            | _, _ => (inc_opt (high x) lo, hi)                               (* case 3' *)
            end
      end
  end.

(** [Key(a, a.addr_bitlen())]: the host subnet of an address. *)
Definition host_key (a : A) : IPNet A :=
  match net_new a addr_bitlen with Ok k => k | Throw _ => net_default end.

(** [TrieNode::find_bounds]; without a route the search starts at a fake
    default node whose left child is the root. *)
Definition node_find_bounds t (a : A) : A * A :=
  let n := match node_find t (host_key a) with
           | Some q => node_at q t
           | None => TNode net_default None t Null
           end in
  match n with
  | TNode k _ _ _ => bounds_loop n a (masked_addr k) (top_addr k)
  | Null => (a, a)
  end.
End TrieOps.

(** ** The trie *)
Section Trie.
Context `{AddrOps A} {P : Type}.

Record Trie := mkTrie { root : tree A P; payload_count : Z }.

Definition trie_empty : Trie := mkTrie Null 0.

(** [Trie::insert]; the iterator returned points at the node. *)
Definition trie_insert (t : Trie) (net : IPNet A) (p : P) : option (Trie * path) :=
  match node_insert (root t) net p with
  | Some (r, out, replaced) =>
      Some (mkTrie r (if replaced then payload_count t else payload_count t + 1), out)
  | None => None
  end.

Definition payload_at (q : path) (t : tree A P) : option P :=
  match node_at q t with TNode _ p _ _ => p | Null => None end.

(** [Trie::erase(iterator)]: [i] is the node pointed at, if any. *)
Definition trie_erase_at (t : Trie) (i : option path) : Trie :=
  match i with
  | Some q =>
      if negb (is_null (root t)) && has_payload (payload_at q (root t))
      then mkTrie (node_erase q (root t)) (payload_count t - 1)
      else t
  | None => t
  end.

(** [Trie::find(const Key&)] and [Trie::find(const A&)]. *)
Definition trie_find (t : Trie) (k : IPNet A) : option path :=
  if is_null (root t) then None else node_find (root t) k.
Definition trie_find_addr (t : Trie) (a : A) : option path := trie_find t (host_key a).

(** [Trie::erase(const Key&)]. *)
Definition trie_erase (t : Trie) (k : IPNet A) : Trie := trie_erase_at t (trie_find t k).

(** [Trie::lookup_node]: the exact match. *)
Definition trie_lookup_node (t : Trie) (k : IPNet A) : option path :=
  match trie_find t k with
  | Some q => match node_at q (root t) with
              | TNode nk _ _ _ => if net_eqb nk k then Some q else None
              | Null => None
              end
  | None => None
  end.

(** [Trie::find_less_specific]. *)
Definition trie_find_less_specific (t : Trie) (key : IPNet A) : option path :=
  if prefix_len key =? 0 then None
  else match net_new (masked_addr key) (prefix_len key - 1) with
       | Ok x => trie_find t x
       | Throw _ => None
       end.

Definition trie_search_subtree (t : Trie) (key : IPNet A) : option path :=
  if is_null (root t) then None else find_subtree (root t) key.

Definition trie_find_bounds (t : Trie) (a : A) : A * A := node_find_bounds (root t) a.

Definition trie_delete_all_nodes (t : Trie) : Trie := mkTrie Null 0.
End Trie.
Arguments Trie : clear implicits.
