(* ===== verification/TrieSpec.v ===== *)
(** * The route trie: specification and correctness

    The abstract view of a trie is a finite map from subnets to payloads
    ([model]); the structural invariant ([tree_wf]) is the one the comment of
    libxorp/trie.hh states.  The operations of Trie.v refine the operations of
    the map, and [find] is the longest prefix match. *)

From Stdlib Require Import ZArith Lia.
From stdpp Require Import base tactics option list numbers gmap.
From S2P Require Import Prelude Addr IPNet Trie.
Local Open Scope Z_scope.

(** ** Halves of a subnet *)
Section Halves.
Context `{AddrSpec A}.
Implicit Types (x y c k : IPNet A).

Definition net_mid x : Z := net_lo x + (2 ^ net_free x - 1) / 2.

Definition half_lo (d : dir) k : Z :=
  match d with L => net_lo k | R => net_lo k + 2 ^ (net_free k - 1) end.

(** [c] is strictly inside the [d] half of [k]. *)
Definition in_half (d : dir) k c : Prop :=
  prefix_len k < prefix_len c /\ align (net_free k - 1) (net_lo c) = half_lo d k.

Lemma midpoint_spec x : net_wf x -> a_wf (midpoint x) /\ a_val (midpoint x) = net_mid x.
Proof.
  intros Hx. destruct (not_netmask_spec x Hx) as [W V]. unfold midpoint.
  destruct (a_shr_spec _ 1 W ltac:(lia)) as [W1 V1].
  destruct (a_or_spec (masked_addr x) _ (proj1 Hx) W1) as [W2 V2]. split; [done|].
  pose proof (net_wf_free x Hx). pose proof (net_free_pow x Hx).
  rewrite V2, V1, V, Z.shiftr_div_pow2 by lia. change (2 ^ 1) with 2.
  fold (net_lo x). rewrite lor_host; [done|done|]. dlia.
Qed.

(** The comparisons of [insert] on the ends of the blocks. *)
Lemma cmp_top_lo x y : net_wf x -> net_wf y ->
  a_ltb (top_addr x) (masked_addr y) = (net_hi x <? net_lo y).
Proof.
  intros Hx Hy. destruct (top_addr_spec x Hx) as [W V].
  rewrite a_ltb_spec, V by (done || apply Hy). done.
Qed.
Lemma cmp_lo_lo x y : net_wf x -> net_wf y ->
  a_geb (masked_addr x) (masked_addr y) = (net_lo y <=? net_lo x).
Proof. intros Hx Hy. by rewrite a_geb_spec by (apply Hx || apply Hy). Qed.
Lemma cmp_top_mid x y : net_wf x -> net_wf y ->
  a_leb (top_addr x) (midpoint y) = (net_hi x <=? net_mid y).
Proof.
  intros Hx Hy. destruct (top_addr_spec x Hx) as [W V], (midpoint_spec y Hy) as [W' V'].
  by rewrite a_leb_spec, V, V'.
Qed.
Lemma cmp_lo_mid x y : net_wf x -> net_wf y ->
  a_gtb (masked_addr x) (midpoint y) = (net_mid y <? net_lo x).
Proof.
  intros Hx Hy. destruct (midpoint_spec y Hy) as [W V]. unfold a_gtb.
  by rewrite a_ltb_spec, V by (done || apply Hx).
Qed.
Lemma cmp_top_top x y : net_wf x -> net_wf y ->
  a_leb (top_addr x) (top_addr y) = (net_hi x <=? net_hi y).
Proof.
  intros Hx Hy. destruct (top_addr_spec x Hx) as [W V], (top_addr_spec y Hy) as [W' V'].
  by rewrite a_leb_spec, V, V'.
Qed.

Lemma pow2_half n : 0 < n -> 2 ^ n = 2 * 2 ^ (n - 1) /\ 0 < 2 ^ (n - 1).
Proof.
  intros Hn. split; [|apply pow2_pos; lia].
  rewrite <- Z.pow_succ_r by lia. f_equal. lia.
Qed.

Lemma net_mid_half x : net_wf x -> 0 < net_free x -> net_mid x = net_lo x + 2 ^ (net_free x - 1) - 1.
Proof.
  intros Hx Hf. destruct (pow2_half (net_free x) Hf) as [E Hp]. unfold net_mid. rewrite E. dlia.
Qed.

Lemma net_mid_bounds x : net_wf x ->
  net_lo x <= net_mid x <= net_hi x /\ (net_mid x = net_hi x -> net_lo x = net_hi x).
Proof. intros Hx. pose proof (net_free_pow x Hx). unfold net_mid, net_hi. dlia. Qed.

Lemma contains_strict_len x y : net_wf x -> net_wf y ->
  net_contains y x = true -> x <> y -> prefix_len y < prefix_len x.
Proof.
  intros Hx Hy Hc Hne. apply contains_align in Hc as [Hp Ha]; [|done..].
  destruct (Z.eq_dec (prefix_len x) (prefix_len y)) as [E|]; [|lia].
  exfalso. apply Hne. apply net_eq; [done..|]. rewrite <- Ha.
  replace (net_free y) with (net_free x) by (unfold net_free; lia). symmetry. apply Hx.
Qed.

(** A subnet strictly inside another lies in one of its halves. *)
Lemma half_cases x y : net_wf x -> net_wf y -> net_contains y x = true -> x <> y ->
  (in_half L y x /\ net_lo y <= net_lo x /\ net_hi x <= net_mid y)
  \/ (in_half R y x /\ net_mid y < net_lo x /\ net_hi x <= net_hi y).
Proof.
  intros Hx Hy Hc Hne. pose proof (contains_strict_len x y Hx Hy Hc Hne) as Hp.
  apply contains_iff in Hc as [Hl Hh]; [|done..].
  pose proof (net_wf_free x Hx). pose proof (net_wf_free y Hy).
  assert (0 < net_free y) as Hf by (unfold net_free in *; lia).
  destruct (pow2_half (net_free y) Hf) as [E2 Hp2].
  rewrite net_mid_half by done.
  assert (0 <= net_free x <= net_free y - 1) as Hfx by (unfold net_free in *; lia).
  assert (0 <= net_free y - 1) as Hf1 by lia.
  pose proof (align_bounds (net_free y - 1) (net_lo x) Hf1) as Hb.
  assert (net_hi x < align (net_free y - 1) (net_lo x) + 2 ^ (net_free y - 1)) as Hhx.
  { apply (proj1 (align_eq_iff (net_free y - 1) (net_lo x) (net_hi x) Hf1)).
    rewrite <- (align_align _ (net_free x) (net_hi x)) by lia. f_equal.
    apply in_net_align; [done|]. pose proof (net_wf_lo x Hx). unfold in_net. lia. }
  pose proof (net_free_pow x Hx).
  assert (align (net_free y - 1) (net_lo y) = net_lo y) as Ay.
  { destruct Hy as (_ & _ & Hay). unfold align in *. rewrite E2 in Hay.
    rewrite <- (Z.mod_mod_divide (net_lo y) (2 * 2 ^ (net_free y - 1))) by (exists 2; lia).
    replace (net_lo y mod (2 * 2 ^ (net_free y - 1))) with 0 by lia. rewrite Z.mod_0_l; lia. }
  rewrite align_div in Hb, Hhx, Ay by lia. unfold net_hi in Hh, Hhx.
  set (q := net_lo x / 2 ^ (net_free y - 1)) in *. set (b := net_lo y / 2 ^ (net_free y - 1)) in *.
  unfold in_half, half_lo. rewrite align_div by lia. fold q.
  assert (q = b \/ q = b + 1) as [->| ->] by nia.
  - left. rewrite Ay in *. unfold net_hi. lia.
  - right. unfold net_hi. rewrite <- Ay in *. lia.
Qed.

Lemma in_half_contains d k c : net_wf k -> net_wf c -> in_half d k c -> net_contains k c = true.
Proof.
  intros Hk Hc [Hp Ha]. apply contains_align; [done..|]. split; [lia|].
  pose proof (net_wf_free k Hk). pose proof (net_wf_free c Hc).
  assert (0 < net_free k) as Hf by (unfold net_free in *; lia).
  destruct (pow2_half (net_free k) Hf) as [E2 Hp2].
  rewrite <- (align_align _ (net_free k - 1)), Ha by lia.
  destruct Hk as (_ & _ & Hak). destruct d; simpl; [done|].
  rewrite <- Hak at 2. apply align_eq_iff; [lia|]. rewrite Hak. lia.
Qed.

Lemma in_half_neq d k c : in_half d k c -> c <> k.
Proof. intros [Hp _] ->. lia. Qed.

(** What lies in a subnet of a half lies in that half. *)
Lemma in_half_trans d k c n : net_wf c -> net_wf n -> in_half d k c ->
  net_contains c n = true -> in_half d k n.
Proof.
  intros Hc Hn [Hp Ha] Hcn. apply contains_align in Hcn as [Hp' Ha']; [|done..].
  pose proof (net_wf_free c Hc). pose proof (net_wf_free n Hn).
  split; [lia|]. rewrite <- Ha, <- Ha'. rewrite align_align by (unfold net_free in *; lia). done.
Qed.

Lemma in_half_unique d d' k c : net_wf k -> net_wf c -> in_half d k c -> in_half d' k c -> d = d'.
Proof.
  intros Hk Hc [Hp Ha] [_ Ha']. pose proof (net_wf_free c Hc).
  destruct (pow2_half (net_free k)) as [_ ?]; [unfold net_free in *; lia|].
  destruct d, d'; simpl in *; congruence || lia.
Qed.

(** The common subnet separates two subnets that are apart. *)
Lemma common_subnet_halves x y : net_wf x -> net_wf y -> net_hi x < net_lo y ->
  exists c, common_subnet x y = Ok c /\ common_subnet y x = Ok c /\ net_wf c
            /\ in_half L c x /\ in_half R c y.
Proof.
  intros Hx Hy Hlt. pose proof (net_wf_lo x Hx). pose proof (net_wf_lo y Hy).
  destruct (common_subnet_spec x y Hx Hy) as (c & Ec & Hc & Cx & Cy & Pc & Lub).
  destruct (common_subnet_spec y x Hy Hx) as (c' & Ec' & Hc' & Cy' & Cx' & Pc' & Lub').
  assert (c' = c) as -> by (apply contains_antisym; auto).
  exists c. split; [done|]. split; [done|]. split; [done|].
  assert (x <> c) as Nx. { intros <-. apply contains_iff in Cy; [lia|done..]. }
  assert (y <> c) as Ny. { intros <-. apply contains_iff in Cx; [lia|done..]. }
  destruct (half_cases x c Hx Hc Cx Nx) as [(Ix & ? & ?)|(Ix & ? & ?)],
    (half_cases y c Hy Hc Cy Ny) as [(Iy & ? & ?)|(Iy & ? & ?)]; [|done|lia|].
  all: exfalso; pose proof (contains_strict_len x c Hx Hc Cx Nx);
    pose proof (contains_strict_len y c Hy Hc Cy Ny); pose proof (proj1 (proj2 Hc)).
  all: assert (prefix_len c + 1 <= net_overlap x y); [|lia].
  all: apply overlap_spec; [done..|lia|lia|].
  all: destruct Ix as [_ Ix], Iy as [_ Iy];
    replace (addr_bitlen - (prefix_len c + 1)) with (net_free c - 1) by (unfold net_free; lia);
    congruence.
Qed.

(** ... and stays in any half that contains both. *)
Lemma common_subnet_in_half d k x y c : net_wf x -> net_wf y ->
  in_half d k x -> in_half d k y -> 0 <= prefix_len k ->
  common_subnet x y = Ok c -> in_half d k c.
Proof.
  intros Hx Hy [Px Ax] [Py Ay] Hk Ec.
  destruct (common_subnet_spec x y Hx Hy) as (c' & Ec' & Hc & Cx & _ & Pc & _).
  assert (c' = c) as -> by congruence. pose proof (net_wf_free c Hc).
  assert (prefix_len k + 1 <= net_overlap x y).
  { apply overlap_spec; [done..|lia|lia|].
    replace (addr_bitlen - (prefix_len k + 1)) with (net_free k - 1) by (unfold net_free; lia). congruence. }
  apply contains_align in Cx as [_ Acx]; [|done..].
  split; [lia|]. rewrite <- Acx, align_align by (unfold net_free in *; lia). done.
Qed.
End Halves.

(** ** Invariant and abstraction *)
Section TrieModel.
Context `{AddrSpec A} {P : Type}.
Implicit Types (t l r : tree A P) (x y k n : IPNet A) (p : P).

(** The root of a subtree satisfies [Q]. *)
Definition root_ok (Q : IPNet A -> Prop) t : Prop :=
  match t with Null => True | TNode k _ _ _ => Q k end.

(** A node without a payload has two children; each child lies in its half. *)
Fixpoint tree_wf t : Prop :=
  match t with
  | Null => True
  | TNode k o l r =>
      net_wf k /\ (o = None -> l <> Null /\ r <> Null)
      /\ root_ok (in_half L k) l /\ root_ok (in_half R k) r /\ tree_wf l /\ tree_wf r
  end.

Definition net_id n : Z * Z := (net_lo n, prefix_len n).

Fixpoint model t : gmap (Z * Z) P :=
  match t with
  | Null => ∅
  | TNode k (Some p) l r => <[net_id k := p]> (model l ∪ model r)
  | TNode k None l r => model l ∪ model r
  end.

Lemma net_id_inj x y : net_wf x -> net_wf y -> net_id x = net_id y -> x = y.
Proof. intros Hx Hy [= El Ep]. by apply net_eq. Qed.

(** Every entry of a well-formed tree is a subnet inside its root. *)
Lemma model_in t i p : tree_wf t -> model t !! i = Some p ->
  exists n, net_wf n /\ net_id n = i /\ root_ok (fun k => net_contains k n = true) t.
Proof.
  induction t as [|k o l IHl r IHr]; simpl.
  { intros _ Hi. by rewrite lookup_empty in Hi. }
  intros (Hk & _ & Hl & Hr & Wl & Wr) Hi.
  assert (forall d c, root_ok (in_half d k) c -> tree_wf c ->
            (exists n, net_wf n /\ net_id n = i /\ root_ok (fun k' => net_contains k' n = true) c) ->
            c <> Null ->
            exists n, net_wf n /\ net_id n = i /\ net_contains k n = true) as Hsub.
  { intros d [|ck co cl cr] Hd Hw (n & Hn & En & Hc) Hnn; [done|].
    exists n. split; [done|]. split; [done|]. simpl in *. destruct Hw as [Hck _].
    apply (in_half_contains d); [done..|]. by apply (in_half_trans d k ck n). }
  assert ((model l ∪ model r) !! i = Some p -> exists n, net_wf n /\ net_id n = i /\ net_contains k n = true) as Hu.
  { rewrite lookup_union_Some_raw. intros [El|[_ Er]].
    - apply (Hsub L l); auto. by intros ->.
    - apply (Hsub R r); auto. by intros ->. }
  destruct o as [v|]; [|by apply Hu].
  apply lookup_insert_Some in Hi as [[<- _]|[_ Hi]]; [|by apply Hu].
  exists k. split; [done|]. split; [done|]. by apply contains_refl.
Qed.

(** An entry of a child lies in the child's half. *)
Lemma model_half d k t n p : root_ok (in_half d k) t -> tree_wf t -> net_wf n ->
  model t !! net_id n = Some p -> in_half d k n.
Proof.
  intros Hd Hw Hn Hi. destruct (model_in t _ p Hw Hi) as (n' & Hn' & En & Hc).
  apply net_id_inj in En as ->; [|done..].
  destruct t as [|ck co cl cr]; simpl in *; [by rewrite lookup_empty in Hi|].
  destruct Hw as [Hck _]. by apply (in_half_trans d k ck n).
Qed.

Lemma model_half_None d k t n : root_ok (in_half d k) t -> tree_wf t -> net_wf n ->
  ~ in_half d k n -> model t !! net_id n = None.
Proof.
  intros Hd Hw Hn Hnot. destruct (model t !! net_id n) eqn:E; [|done].
  exfalso. apply Hnot. by eapply model_half.
Qed.

Lemma model_outside t n : tree_wf t -> net_wf n ->
  root_ok (fun k => net_contains k n = false) t -> model t !! net_id n = None.
Proof.
  intros Hw Hn Hc. destruct (model t !! net_id n) as [p|] eqn:E; [|done].
  destruct (model_in t _ p Hw E) as (n' & Hn' & En & Hc').
  apply net_id_inj in En as ->; [|done..]. destruct t; simpl in *; [done|congruence].
Qed.

(** The subtrees of a node are disjoint, and neither holds its key. *)
Lemma model_children_disjoint k o l r : tree_wf (TNode k o l r) -> model l ##ₘ model r.
Proof.
  intros (Hk & _ & Hl & Hr & Wl & Wr). apply map_disjoint_spec. intros i p1 p2 E1 E2.
  destruct (model_in l i p1 Wl E1) as (n & Hn & <- & _).
  pose proof (model_half L k l n p1 Hl Wl Hn E1) as I1.
  pose proof (model_half R k r n p2 Hr Wr Hn E2) as I2.
  by pose proof (in_half_unique L R k n Hk Hn I1 I2).
Qed.

Lemma model_children_key k o l r : tree_wf (TNode k o l r) ->
  model l !! net_id k = None /\ model r !! net_id k = None.
Proof.
  intros (Hk & _ & Hl & Hr & Wl & Wr).
  split; eapply model_half_None; try done; intros I; by apply in_half_neq in I.
Qed.

Lemma model_leaf x p : model (new_leaf x p) = {[net_id x := p]}.
Proof. simpl. by rewrite map_union_empty, insert_empty. Qed.

(** ** Insertion *)

(** What [node_insert] establishes about its result. *)
Definition insert_post t x p (res : option (tree A P * path * bool)) : Prop :=
  exists t' me replaced, res = Some (t', me, replaced)
    /\ tree_wf t' /\ model t' = <[net_id x := p]> (model t)
    /\ replaced = has_payload (model t !! net_id x)
    /\ (exists l r, node_at me t' = TNode x (Some p) l r)
    /\ (forall d k, 0 <= prefix_len k -> in_half d k x -> root_ok (in_half d k) t ->
                    root_ok (in_half d k) t')
    /\ t' <> Null.

(** The tests of [node_insert] decide how [x] lies relative to the root. *)
Lemma insert_relation x y : net_wf x -> net_wf y -> x <> y ->
  (net_hi x < net_lo y)
  \/ (net_hi y < net_lo x)
  \/ (in_half L y x /\ net_lo y <= net_lo x /\ net_hi x <= net_mid y)
  \/ (in_half R y x /\ net_mid y < net_lo x /\ net_hi x <= net_hi y)
  \/ (in_half R x y /\ net_mid x < net_lo y /\ net_hi y <= net_hi x)
  \/ (in_half L x y /\ net_lo x <= net_lo y /\ net_hi y <= net_mid x).
Proof.
  intros Hx Hy Hne.
  destruct (net_contains y x) eqn:Cyx; [destruct (half_cases x y Hx Hy Cyx Hne); tauto|].
  destruct (net_contains x y) eqn:Cxy.
  { destruct (half_cases y x Hy Hx Cxy) as [?|?]; [congruence|tauto|tauto]. }
  destruct (not_contains_disjoint x y Hx Hy Cxy Cyx); tauto.
Qed.

Lemma leaf_wf x p : net_wf x -> tree_wf (new_leaf x p).
Proof. intros Hx. split; [done|]. split; [done|]. simpl. auto. Qed.

Lemma disjoint_not_contains x y : net_wf x -> net_wf y ->
  net_hi x < net_lo y \/ net_hi y < net_lo x -> net_contains y x = false.
Proof.
  intros Hx Hy Hd. destruct (net_contains y x) eqn:E; [|done].
  apply contains_iff in E; [|done..].
  pose proof (net_wf_lo x Hx). pose proof (net_wf_lo y Hy). lia.
Qed.

(** Cases A and B: a new empty root above both. *)
Lemma insert_post_A k o l r x p c : let t := TNode k o l r in
  tree_wf t -> net_wf x -> common_subnet x k = Ok c -> net_wf c ->
  in_half L c x -> in_half R c k -> net_hi x < net_lo k ->
  insert_post t x p (Some (TNode c None (new_leaf x p) t, [L], false)).
Proof.
  intros t Hw Hx Ec Hc Ix Ik Hd. pose proof (proj1 Hw) as Hk.
  assert (model t !! net_id x = None) as Hn
    by (apply model_outside; [done..|]; simpl; apply disjoint_not_contains; auto).
  do 3 eexists. split; [done|]. split; [|split; [|split; [|split; [|split]]]].
  - split; [done|]. split; [done|]. split; [done|]. split; [done|]. split; [by apply leaf_wf|done].
  - change (model (new_leaf x p) ∪ model t = <[net_id x:=p]> (model t)).
    rewrite model_leaf. symmetry. apply insert_union_singleton_l.
  - by rewrite Hn.
  - simpl. eauto.
  - intros d k' Hk' Dx Dk. simpl. by apply (common_subnet_in_half d k' x k).
  - done.
Qed.

Lemma insert_post_B k o l r x p c : let t := TNode k o l r in
  tree_wf t -> net_wf x -> common_subnet x k = Ok c -> net_wf c ->
  in_half R c x -> in_half L c k -> net_hi k < net_lo x ->
  insert_post t x p (Some (TNode c None t (new_leaf x p), [R], false)).
Proof.
  intros t Hw Hx Ec Hc Ix Ik Hd. pose proof (proj1 Hw) as Hk.
  assert (model t !! net_id x = None) as Hn
    by (apply model_outside; [done..|]; simpl; apply disjoint_not_contains; auto).
  do 3 eexists. split; [done|]. split; [|split; [|split; [|split; [|split]]]].
  - split; [done|]. split; [done|]. split; [done|]. split; [done|]. split; [done|by apply leaf_wf].
  - change (model t ∪ model (new_leaf x p) = <[net_id x:=p]> (model t)).
    rewrite model_leaf. symmetry. by apply insert_union_singleton_r.
  - by rewrite Hn.
  - simpl. eauto.
  - intros d k' Hk' Dx Dk. simpl. by apply (common_subnet_in_half d k' x k).
  - done.
Qed.

Lemma has_payload_insert_ne (m : gmap (Z * Z) P) i j v :
  i <> j -> has_payload (<[i := v]> m !! j) = has_payload (m !! j).
Proof. intros. by rewrite lookup_insert_ne. Qed.

Lemma model_node k o l r j : net_id k <> j ->
  model (TNode k o l r) !! j = (model l ∪ model r) !! j.
Proof. intros Hne. destruct o; simpl; [by rewrite lookup_insert_ne|done]. Qed.

(** Cases C and D: the insertion happened in a child. *)
Lemma insert_post_C k o l r x p res : tree_wf (TNode k o l r) -> net_wf x -> in_half L k x ->
  insert_post l x p res ->
  insert_post (TNode k o l r) x p
    (match res with
     | Some (l', me, replaced) => Some (TNode k o l' r, L :: me, replaced)
     | None => None
     end).
Proof.
  intros Hw Hx Ix (l' & me & rep & -> & Wl' & Ml' & Er & Hat & Hroot & Hnn).
  pose proof Hw as (Hk & Ho & Hl & Hr & Wl & Wr).
  assert (net_id k <> net_id x) as Hne.
  { intros E. apply net_id_inj in E; [|done..]. by apply (in_half_neq L k x). }
  assert (model r !! net_id x = None) as Hrx.
  { eapply (model_half_None R k); try done. intros I.
    by pose proof (in_half_unique L R k x Hk Hx Ix I). }
  do 3 eexists. split; [done|]. split; [|split; [|split; [|split; [|split]]]].
  - split; [done|]. split; [intros E; split; [done|by apply Ho]|].
    split; [apply Hroot; try done; apply Hk|]. done.
  - simpl. rewrite Ml', <- insert_union_l.
    destruct o; [by rewrite insert_insert_ne|done].
  - rewrite Er, model_node, lookup_union_l by done. done.
  - done.
  - done.
  - done.
Qed.

Lemma insert_post_D k o l r x p res : tree_wf (TNode k o l r) -> net_wf x -> in_half R k x ->
  insert_post r x p res ->
  insert_post (TNode k o l r) x p
    (match res with
     | Some (r', me, replaced) => Some (TNode k o l r', R :: me, replaced)
     | None => None
     end).
Proof.
  intros Hw Hx Ix (r' & me & rep & -> & Wr' & Mr' & Er & Hat & Hroot & Hnn).
  pose proof Hw as (Hk & Ho & Hl & Hr & Wl & Wr).
  assert (net_id k <> net_id x) as Hne.
  { intros E. apply net_id_inj in E; [|done..]. by apply (in_half_neq R k x). }
  assert (model l !! net_id x = None) as Hlx.
  { eapply (model_half_None L k); try done. intros I.
    by pose proof (in_half_unique R L k x Hk Hx Ix I). }
  do 3 eexists. split; [done|]. split; [|split; [|split; [|split; [|split]]]].
  - split; [done|]. split; [intros E; split; [by apply Ho|done]|].
    split; [done|]. split; [apply Hroot; try done; apply Hk|]. done.
  - simpl. rewrite Mr', <- insert_union_r by done.
    destruct o; [by rewrite insert_insert_ne|done].
  - rewrite Er, model_node, lookup_union_r by done. done.
  - done.
  - done.
  - done.
Qed.

(** Cases E and F: the new node takes the place of the root. *)
Lemma insert_post_EF d k o l r x p : let t := TNode k o l r in
  tree_wf t -> net_wf x -> in_half d x k ->
  insert_post t x p
    (Some (match d with L => TNode x (Some p) t Null | R => TNode x (Some p) Null t end, [], false)).
Proof.
  intros t Hw Hx Ik. pose proof (proj1 Hw) as Hk.
  assert (model t !! net_id x = None) as Hn.
  { apply model_outside; [done..|]. simpl. destruct (net_contains k x) eqn:E; [|done].
    exfalso. apply (in_half_neq d x k); [done|].
    apply contains_antisym; [done..|]. by apply (in_half_contains d). }
  do 3 eexists. split; [done|]. split; [|split; [|split; [|split; [|split]]]].
  - destruct d; simpl; auto 10.
  - destruct d; simpl; [by rewrite map_union_empty|].
    by rewrite map_empty_union.
  - by rewrite Hn.
  - destruct d; simpl; eauto.
  - intros d' k' Hk' Dx Dk. by destruct d.
  - by destruct d.
Qed.

(** [insert] always succeeds on well-formed arguments and refines the insertion
    of the map. *)
Lemma node_insert_ok t x p : tree_wf t -> net_wf x -> insert_post t x p (node_insert t x p).
Proof.
  intros Hw Hx. induction t as [|k o l IHl r IHr].
  { exists (new_leaf x p), [], false. split; [done|]. split; [by apply leaf_wf|].
    rewrite model_leaf. split; [done|].
    split; [done|]. split; [by simpl; eauto|]. split; [|done].
    by intros d k _ Dx _. }
  pose proof Hw as (Hk & Ho & Hl & Hr & Wl & Wr). cbn [node_insert].
  destruct (net_eqb x k) eqn:Exk.
  { apply net_eqb_spec in Exk as ->; [|done..]. do 3 eexists. split; [done|].
    split; [by do 2 (split; [done|])|]. destruct (model_children_key k o l r Hw) as [Nl Nr].
    split; [simpl; destruct o; [by rewrite insert_insert_eq|done]|].
    split; [|split; [simpl; eauto|split; [by intros|done]]].
    destruct o; simpl; [by rewrite lookup_insert_eq|].
    rewrite lookup_union_r, Nr by done. done. }
  assert (x <> k) as Hne.
  { intros ->. rewrite (proj2 (net_eqb_spec k k Hk Hk) eq_refl) in Exk. done. }
  cbv zeta. rewrite !cmp_top_lo, !cmp_lo_lo, !cmp_top_mid, !cmp_lo_mid, !cmp_top_top by done.
  pose proof (net_wf_lo x Hx). pose proof (net_wf_lo k Hk).
  pose proof (net_mid_bounds x Hx). pose proof (net_mid_bounds k Hk).
  assert (net_lo x <> net_lo k \/ net_hi x <> net_hi k) as Hdiff.
  { destruct (Z.eq_dec (net_lo x) (net_lo k)), (Z.eq_dec (net_hi x) (net_hi k)); auto.
    exfalso. apply Hne, contains_antisym; [done..| |]; apply contains_iff; done || lia. }
  destruct (insert_relation x k Hx Hk Hne) as [Hd|[Hd|[(I & ? & ?)|[(I & ? & ?)|[(I & ? & ?)|(I & ? & ?)]]]]].
  - destruct (Z.ltb_spec (net_hi x) (net_lo k)); [|lia].
    destruct (common_subnet_halves x k Hx Hk Hd) as (c & Ec & _ & Hc & Ix & Ik).
    rewrite Ec. by apply insert_post_A.
  - destruct (Z.ltb_spec (net_hi x) (net_lo k)); [lia|].
    destruct (Z.ltb_spec (net_hi k) (net_lo x)); [|lia].
    destruct (common_subnet_halves k x Hk Hx Hd) as (c & _ & Ec & Hc & Ik & Ix).
    rewrite Ec. by apply insert_post_B.
  - repeat case_if; try lia. apply insert_post_C; auto.
  - repeat case_if; try lia. apply insert_post_D; auto.
  - repeat case_if; try lia. all: by apply (insert_post_EF R).
  - repeat case_if; try lia. all: by apply (insert_post_EF L).
Qed.

(** ** Longest prefix match *)

(** [k], with payload [v], is the most specific entry of [m] that contains [key]. *)
Definition is_lpm (m : gmap (Z * Z) P) (key k : IPNet A) (v : P) : Prop :=
  net_wf k /\ m !! net_id k = Some v /\ net_contains k key = true
  /\ forall n w, net_wf n -> m !! net_id n = Some w -> net_contains n key = true ->
                 prefix_len n <= prefix_len k.

(** No entry of [m] contains [key]. *)
Definition no_match (m : gmap (Z * Z) P) (key : IPNet A) : Prop :=
  forall n w, net_wf n -> m !! net_id n = Some w -> net_contains n key = false.

(** The search as a recursive function, without the candidate. *)
Fixpoint best t (key : IPNet A) : option path :=
  match t with
  | Null => None
  | TNode k o l r =>
      if net_contains k key then
        match (if child_contains l key then cons L <$> best l key else cons R <$> best r key) with
        | Some q => Some q
        | None => if has_payload o then Some [] else None
        end
      else None
  end.

Lemma find_loop_best t key here cand :
  find_loop t key here cand = match best t key with Some q => Some (here ++ q) | None => cand end.
Proof.
  revert here cand. induction t as [|k o l IHl r IHr]; intros here cand; simpl; [done|].
  destruct (net_contains k key); [|done].
  destruct (child_contains l key); [rewrite IHl; destruct (best l key)|rewrite IHr; destruct (best r key)];
    simpl; rewrite <- ?app_assoc; try done; destruct (has_payload o); by rewrite ?app_nil_r.
Qed.

Definition best_post t key (res : option path) : Prop :=
  match res with
  | Some q => exists k v l r, node_at q t = TNode k (Some v) l r /\ is_lpm (model t) key k v
  | None => no_match (model t) key
  end.

(** Entries of a subtree that contain the key make its root contain the key. *)
Lemma model_contains t n v key : tree_wf t -> net_wf n -> net_wf key ->
  model t !! net_id n = Some v -> net_contains n key = true ->
  root_ok (fun k => net_contains k key = true) t /\ t <> Null.
Proof.
  intros Hw Hn Hkey Hi Hc. destruct (model_in t _ v Hw Hi) as (n' & Hn' & En & Hr).
  apply net_id_inj in En as ->; [|done..].
  destruct t as [|k o l r]; simpl in *; [by rewrite lookup_empty in Hi|].
  split; [|done]. destruct Hw as [Hk _]. by apply (contains_trans k n key).
Qed.

(** The child that the search does not enter holds no match. *)
Lemma other_child_no_match k o l r key : tree_wf (TNode k o l r) -> net_wf key ->
  if child_contains l key then no_match (model r) key else no_match (model l) key.
Proof.
  intros (Hk & _ & Hl & Hr & Wl & Wr) Hkey. destruct (child_contains l key) eqn:El.
  - intros n v Hn Hi. destruct (net_contains n key) eqn:E; [|done]. exfalso.
    destruct l as [|lk lo ll lr]; simpl in *; [done|].
    assert (in_half L k key) as IL by (apply (in_half_trans L k lk key); try done; apply Wl).
    pose proof (model_half R k r n v Hr Wr Hn Hi) as In.
    assert (in_half R k key) as IR by (by apply (in_half_trans R k n key)).
    by pose proof (in_half_unique L R k key Hk Hkey IL IR).
  - intros n v Hn Hi. destruct (net_contains n key) eqn:E; [|done]. exfalso.
    destruct (model_contains l n v key Wl Hn Hkey Hi E) as [Hc Hnn].
    destruct l; simpl in *; congruence.
Qed.

(** The entries of a node. *)
Lemma model_node_Some k o l r n w : tree_wf (TNode k o l r) -> net_wf n ->
  model (TNode k o l r) !! net_id n = Some w <->
  (n = k /\ o = Some w) \/ model l !! net_id n = Some w \/ model r !! net_id n = Some w.
Proof.
  intros Hw Hn. pose proof (model_children_disjoint k o l r Hw) as Hd.
  destruct (model_children_key k o l r Hw) as [Nl Nr]. destruct Hw as [Hk _].
  assert ((model l ∪ model r) !! net_id n = Some w <->
          model l !! net_id n = Some w \/ model r !! net_id n = Some w) as Hu
    by (by apply lookup_union_Some).
  destruct o as [v|]; simpl; [|rewrite Hu; intuition congruence].
  rewrite lookup_insert_Some, Hu. split.
  - intros [[E ->]|[_ ?]]; [|tauto]. left. apply net_id_inj in E as ->; done.
  - intros [[-> [= ->]]|Hlr]; [tauto|]. right. split; [|done].
    intros E. apply net_id_inj in E as ->; [|done..]. destruct Hlr; congruence.
Qed.

Lemma best_child d k o l r key res : tree_wf (TNode k o l r) -> net_wf key ->
  net_contains k key = true ->
  let c := match d with L => l | R => r end in
  let c' := match d with L => r | R => l end in
  no_match (model c') key -> best_post c key res ->
  best_post (TNode k o l r) key
    (match cons d <$> res with
     | Some q => Some q
     | None => if has_payload o then Some [] else None
     end).
Proof.
  intros Hw Hkey Hc c c' Hno Hb.
  assert (forall n w, net_wf n -> model (TNode k o l r) !! net_id n = Some w ->
            net_contains n key = true -> (n = k /\ o = Some w) \/ model c !! net_id n = Some w) as Hent.
  { intros n w Hn Hi Hcn. apply model_node_Some in Hi; [|done..]. subst c c'.
    destruct d, Hi as [?|[Hi|Hi]]; auto; specialize (Hno n w Hn Hi); congruence. }
  assert (forall n w, net_wf n -> model c !! net_id n = Some w ->
            model (TNode k o l r) !! net_id n = Some w /\ prefix_len k < prefix_len n) as Hin.
  { intros n w Hn Hi. pose proof Hw as (_ & _ & Hl & Hr & Wl & Wr). split.
    - apply model_node_Some; [done..|]. subst c. destruct d; auto.
    - subst c. destruct d.
      + by destruct (model_half L k l n w Hl Wl Hn Hi).
      + by destruct (model_half R k r n w Hr Wr Hn Hi). }
  destruct res as [q|]; simpl in *.
  - destruct Hb as (k' & v & l' & r' & Hat & Hk' & Hi & Hc' & Hmax).
    exists k', v, l', r'. split; [by subst c; destruct d|].
    destruct (Hin k' v Hk' Hi) as [Hi' Hlt].
    split; [done|]. split; [done|]. split; [done|].
    intros n w Hn Hni Hcn. destruct (Hent n w Hn Hni Hcn) as [[-> _]|Hcm]; [lia|]. eauto.
  - destruct o as [v|]; simpl.
    + exists k, v, l, r. split; [done|]. split; [apply Hw|].
      split; [by rewrite lookup_insert_eq|]. split; [done|].
      intros n w Hn Hni Hcn. destruct (Hent n w Hn Hni Hcn) as [[-> _]|Hcm]; [lia|].
      specialize (Hb n w Hn Hcm). congruence.
    + intros n w Hn Hni. destruct (net_contains n key) eqn:E; [|done].
      destruct (Hent n w Hn Hni E) as [[_ ?]|Hcm]; [done|]. specialize (Hb n w Hn Hcm). congruence.
Qed.

Lemma best_correct t key : tree_wf t -> net_wf key -> best_post t key (best t key).
Proof.
  intros Hw Hkey. induction t as [|k o l IHl r IHr]; simpl.
  { intros n w _ Hi. by rewrite lookup_empty in Hi. }
  pose proof Hw as (Hk & _ & Hl & Hr & Wl & Wr).
  destruct (net_contains k key) eqn:Ek.
  - pose proof (other_child_no_match k o l r key Hw Hkey) as Hno.
    destruct (child_contains l key).
    + apply (best_child L); auto.
    + apply (best_child R); auto.
  - intros n w Hn Hi. destruct (net_contains n key) eqn:E; [|done].
    destruct (model_contains (TNode k o l r) n w key Hw Hn Hkey Hi E) as [Hc _]. simpl in Hc. congruence.
Qed.

Lemma node_find_correct t key : tree_wf t -> net_wf key -> best_post t key (node_find t key).
Proof.
  intros Hw Hkey. unfold node_find. rewrite find_loop_best.
  pose proof (best_correct t key Hw Hkey) as Hb. by destruct (best t key).
Qed.

(** ** Erasure *)

(** A level of the erasure: a useless node gives way to its child. *)
Definition shrink t : tree A P := if useless t then only_child t else t.

(** The erasure as a recursive function; [unlinked q t] is the tree before the
    test of its own root. *)
Fixpoint unlinked (q : path) t : tree A P :=
  match q, t with
  | [], _ => clear_payload t
  | L :: q, TNode k o l r => TNode k o (shrink (unlinked q l)) r
  | R :: q, TNode k o l r => TNode k o l (shrink (unlinked q r))
  | _ :: _, Null => Null
  end.

Lemma tree_wf_useless t : tree_wf t -> useless t = false.
Proof.
  destruct t as [|k [v|] l r]; simpl; try done. intros (_ & Ho & _).
  destruct (Ho eq_refl). by destruct l, r.
Qed.

Lemma erase_loop_stop ctx t : useless t = false -> erase_loop ctx t = plug_all ctx t.
Proof. intros E. destruct ctx; simpl; [|by rewrite E]. destruct t; simpl in *; [done|]. by rewrite E. Qed.

Lemma unlinked_not_null q t : node_at q t <> Null -> unlinked q t <> Null.
Proof. destruct q as [|[] q], t; simpl; done. Qed.

Lemma erase_loop_unlinked q t ctx : tree_wf t -> node_at q t <> Null ->
  exists me up, focus q t ctx = Some (me, up)
    /\ erase_loop up (clear_payload me) = erase_loop ctx (unlinked q t).
Proof.
  revert t ctx. induction q as [|d q IH]; intros t ctx Hw Hat; [by exists t, ctx|].
  destruct t as [|k o l r]; [by destruct d|]. pose proof Hw as (_ & Ho & _ & _ & Wl & Wr).
  destruct d; simpl in *.
  - destruct (IH l (FL k o r :: ctx) Wl Hat) as (me & up & Ef & El).
    exists me, up. split; [done|]. rewrite El. simpl. unfold shrink.
    destruct (useless (unlinked q l)) eqn:Eu; [done|].
    symmetry. apply erase_loop_stop. simpl. destruct o; [done|].
    destruct (Ho eq_refl) as [_ Hr]. pose proof (unlinked_not_null q l Hat).
    by destruct (unlinked q l), r.
  - destruct (IH r (FR k o l :: ctx) Wr Hat) as (me & up & Ef & El).
    exists me, up. split; [done|]. rewrite El. simpl. unfold shrink.
    destruct (useless (unlinked q r)) eqn:Eu; [done|].
    symmetry. apply erase_loop_stop. simpl. destruct o; [done|].
    destruct (Ho eq_refl) as [Hl _]. pose proof (unlinked_not_null q r Hat).
    by destruct (unlinked q r), l.
Qed.

Lemma erase_root_shrink t : useless (only_child t) = false -> erase_root t = shrink t.
Proof.
  destruct t as [|k o l r]; [done|]. unfold shrink. cbn [erase_root].
  destruct (useless (TNode k o l r)) eqn:E; [|done]. simpl.
  assert (forall u : tree A P, useless u = false -> erase_root u = u) as Hstop.
  { intros u Hu. by pose proof (erase_loop_stop [] u Hu). }
  destruct (is_null l); auto.
Qed.

Lemma only_child_unlinked q t : tree_wf t -> useless (unlinked q t) = true ->
  useless (only_child (unlinked q t)) = false.
Proof.
  destruct q as [|d q], t as [|k o l r]; [done| |by destruct d|].
  - simpl. intros (_ & _ & _ & _ & Wl & Wr) _. destruct (is_null l); by apply tree_wf_useless.
  - intros (_ & Ho & _ & _ & Wl & Wr). destruct d; simpl; destruct o as [v|]; try done; simpl;
      destruct (Ho eq_refl) as [Nl Nr].
    + intros E. destruct r; [done|]. destruct (shrink (unlinked q l)); [by apply tree_wf_useless|done].
    + intros E. destruct l; [done|]. by apply tree_wf_useless.
Qed.

Lemma node_erase_shrink q t : tree_wf t -> node_at q t <> Null ->
  node_erase q t = shrink (unlinked q t).
Proof.
  intros Hw Hat. unfold node_erase.
  destruct (erase_loop_unlinked q t [] Hw Hat) as (me & up & -> & ->). simpl.
  destruct (useless (unlinked q t)) eqn:E.
  - apply erase_root_shrink. by apply only_child_unlinked.
  - unfold shrink. rewrite E. by pose proof (erase_loop_stop [] _ E).
Qed.

Lemma root_ok_child d k o l r d' k' : tree_wf (TNode k o l r) ->
  in_half d' k' k -> root_ok (in_half d' k') (match d with L => l | R => r end).
Proof.
  intros (Hk & _ & Hl & Hr & Wl & Wr) I.
  destruct d; [destruct l as [|ck]|destruct r as [|ck]]; simpl in *; try done.
  - apply (in_half_trans d' k' k ck); try done; [apply Wl|].
    apply (in_half_contains L); try done. apply Wl.
  - apply (in_half_trans d' k' k ck); try done; [apply Wr|].
    apply (in_half_contains R); try done. apply Wr.
Qed.

Definition erase_post t k t' : Prop :=
  tree_wf t' /\ model t' = delete (net_id k) (model t)
  /\ forall d k', root_ok (in_half d k') t -> root_ok (in_half d k') t'.

Lemma erase_here k v l r : tree_wf (TNode k (Some v) l r) ->
  erase_post (TNode k (Some v) l r) k (shrink (TNode k None l r)).
Proof.
  intros Hw. destruct (model_children_key _ _ _ _ Hw) as [Nl Nr].
  pose proof Hw as (Hk & _ & Hl & Hr & Wl & Wr).
  assert (delete (net_id k) (model (TNode k (Some v) l r)) = model l ∪ model r) as Em.
  { simpl. rewrite delete_insert_id; [done|]. apply lookup_union_None. done. }
  unfold erase_post. rewrite Em. unfold shrink. simpl.
  destruct (is_null l) eqn:El; [|destruct (is_null r) eqn:Er]; simpl.
  - destruct l; [|done]. split; [done|]. split; [simpl; by rewrite map_empty_union|].
    intros d k'. apply (root_ok_child R k (Some v) Null r d k' Hw).
  - destruct r; [|done]. split; [done|]. split; [simpl; by rewrite map_union_empty|].
    intros d k'. apply (root_ok_child L k (Some v) l Null d k' Hw).
  - split; [|done]. split; [done|]. split; [intros _; by destruct l, r|]. done.
Qed.

(** The erasure in a child, seen from its parent. *)
Lemma erase_below d n k o l r c' : tree_wf (TNode k o l r) -> net_wf n -> in_half d k n ->
  erase_post (match d with L => l | R => r end) n c' ->
  erase_post (TNode k o l r) n
    (shrink (match d with L => TNode k o c' r | R => TNode k o l c' end)).
Proof.
  intros Hw Hn In (Wc & Mc & Rc). pose proof Hw as (Hk & Ho & Hl & Hr & Wl & Wr).
  assert (net_id k <> net_id n) as Hne.
  { intros E. apply net_id_inj in E; [|done..]. by apply (in_half_neq d k n). }
  assert (forall m : gmap (Z * Z) P, delete (net_id n) (match o with Some v => <[net_id k := v]> m | None => m end)
      = match o with Some v => <[net_id k := v]> (delete (net_id n) m) | None => delete (net_id n) m end) as Hdel.
  { intros m. destruct o; [|done]. by rewrite delete_insert_ne by done. }
  assert (forall l' r', model (TNode k o l' r')
            = match o with Some v => <[net_id k := v]> (model l' ∪ model r') | None => model l' ∪ model r' end) as Hm
    by (intros; by destruct o).
  assert (model (match d with L => TNode k o c' r | R => TNode k o l c' end)
          = delete (net_id n) (model (TNode k o l r))) as Emod.
  { rewrite Hm, Hdel, delete_union. destruct d; rewrite Hm, Mc.
    - rewrite (delete_id (model r)); [done|]. eapply (model_half_None R k); try done.
      intros I. by pose proof (in_half_unique L R k n Hk Hn In I).
    - rewrite (delete_id (model l)); [done|]. eapply (model_half_None L k); try done.
      intros I. by pose proof (in_half_unique R L k n Hk Hn In I). }
  unfold erase_post. rewrite <- Emod. unfold shrink. destruct d; simpl in *.
  - destruct o as [v|]; simpl; [split_conj; auto; done|].
    destruct (Ho eq_refl) as [Nl Nr]. destruct r as [|rk ro rl rr]; [done|]. simpl.
    destruct c' as [|ck co cl cr]; simpl.
    + split; [done|]. split; [by rewrite map_empty_union|]. intros d k'.
      apply (root_ok_child R k None l _ d k' Hw).
    + split; [|done]. split; [done|]. split; [done|]. split; [by apply (Rc _ k)|done].
  - destruct o as [v|]; simpl; [split_conj; auto; done|].
    destruct (Ho eq_refl) as [Nl Nr]. destruct l as [|lk lo ll lr]; [done|]. simpl.
    destruct c' as [|ck co cl cr]; simpl.
    + split; [done|]. split; [by rewrite map_union_empty|]. intros d k'.
      apply (root_ok_child L k None _ r d k' Hw).
    + split; [|done]. split; [done|]. split; [done|]. split; [done|]. split; [by apply (Rc _ k)|done].
Qed.

(** The key of a node of a child lies in the child's half. *)
Lemma node_at_half d q k t n o l r : tree_wf t -> root_ok (in_half d k) t ->
  node_at q t = TNode n o l r -> net_wf n /\ in_half d k n.
Proof.
  revert t d k. induction q as [|d' q IH]; intros [|tk to tl tr] d k Hw Hd Hat; simpl in *;
    try done; try (by destruct d').
  - injection Hat as -> -> -> ->. split; [apply Hw|done].
  - pose proof Hw as (Htk & _ & Hl & Hr & Wl & Wr).
    destruct d'; [destruct (IH tl L tk Wl Hl Hat) as [Hn I]|destruct (IH tr R tk Wr Hr Hat) as [Hn I]];
      (split; [done|]); apply (in_half_trans d k tk n); try done; eapply in_half_contains; eauto.
Qed.

Lemma node_erase_ok q t k v l r : tree_wf t -> node_at q t = TNode k (Some v) l r ->
  erase_post t k (node_erase q t).
Proof.
  intros Hw Hat. rewrite node_erase_shrink by (done || by rewrite Hat).
  revert t Hw Hat. induction q as [|d q IH]; intros [|tk to tl tr] Hw Hat; simpl in *;
    try done; try (by destruct d).
  - injection Hat as -> -> -> ->. by apply erase_here.
  - pose proof Hw as (Htk & _ & Hl & Hr & Wl & Wr). destruct d; simpl in *.
    + destruct (node_at_half L q tk tl k (Some v) l r Wl Hl Hat) as [Hk I].
      apply (erase_below L); auto.
    + destruct (node_at_half R q tk tr k (Some v) l r Wr Hr Hat) as [Hk I].
      apply (erase_below R); auto.
Qed.

Lemma node_at_wf q t : tree_wf t -> tree_wf (node_at q t).
Proof.
  revert t. induction q as [|d q IH]; intros [|k o l r] Hw; simpl; try done; [by destruct d|].
  destruct Hw as (_ & _ & _ & _ & Wl & Wr). destruct d; auto.
Qed.

(** A node with a payload is an entry of the map. *)
Lemma node_at_model q t k v l r : tree_wf t -> node_at q t = TNode k (Some v) l r ->
  net_wf k /\ model t !! net_id k = Some v.
Proof.
  intros Hw Hat. assert (net_wf k) as Hk.
  { pose proof (node_at_wf q t Hw) as Hn. rewrite Hat in Hn. apply Hn. }
  split; [done|]. revert t Hw Hat.
  induction q as [|d q IH]; intros [|tk to tl tr] Hw Hat; simpl in Hat; try done; try (by destruct d).
  - injection Hat as -> -> -> ->. simpl. by rewrite lookup_insert_eq.
  - apply model_node_Some; [done..|]. right. destruct Hw as (_ & _ & _ & _ & Wl & Wr).
    destruct d; [left|right]; by apply IH.
Qed.
End TrieModel.
