(* ===== verification/TrieMap.v ===== *)
(** * The route trie as a finite map (libxorp/trie.hh)

    The abstract state of a [Trie] is the finite map from its subnets to their
    payloads; [trie_ok] is its invariant.  Every operation of the class is shown
    to keep the invariant and to be the map operation its comment announces,
    and any sequence of operations from the empty trie is simulated by the same
    sequence on the map. *)

From Stdlib Require Import ZArith Lia.
From stdpp Require Import base tactics option list numbers gmap.
From S2P Require Import Prelude Word32 Addr IPv4 IPNet Sample Trie TrieSpec.
Local Open Scope Z_scope.

Section TrieMap.
Context `{AddrSpec A} {P : Type}.
Implicit Types (t : Trie A P) (x k key : IPNet A).

Definition trie_model t : gmap (Z * Z) P := model (root t).

(** The class invariant: the tree is well formed and [_payload_count] counts
    its payloads. *)
Definition trie_ok t : Prop :=
  tree_wf (root t) /\ payload_count t = Z.of_nat (size (trie_model t)).

Lemma trie_empty_ok : trie_ok trie_empty.
Proof. by split. Qed.

Lemma insert_size (m : gmap (Z * Z) P) i v :
  Z.of_nat (size (<[i := v]> m)) = Z.of_nat (size m) + if has_payload (m !! i) then 0 else 1.
Proof.
  destruct (m !! i) eqn:E; simpl.
  - rewrite map_size_insert_Some by done. lia.
  - rewrite map_size_insert_None by done. lia.
Qed.

Lemma insert_ok t x p : trie_ok t -> net_wf x ->
  exists t' q l r, trie_insert t x p = Some (t', q) /\ trie_ok t'
    /\ trie_model t' = <[net_id x := p]> (trie_model t)
    /\ node_at q (root t') = TNode x (Some p) l r.
Proof.
  intros [Hw Hc] Hx. unfold trie_insert.
  destruct (node_insert_ok (root t) x p Hw Hx) as (t' & me & rep & -> & Hw' & Hm & -> & (l & r & Hat) & _).
  eexists _, _, l, r. split; [done|]. split; [|by split].
  split; [done|]. unfold trie_model. simpl. rewrite Hm, insert_size.
  unfold trie_model in Hc. rewrite Hc. destruct (has_payload _); lia.
Qed.

Lemma find_correct t key : trie_ok t -> net_wf key -> best_post (root t) key (trie_find t key).
Proof.
  intros [Hw _] Hk. unfold trie_find. destruct (root t) eqn:E; simpl.
  - intros n w _ Hi. by rewrite lookup_empty in Hi.
  - rewrite <- E in *. by apply node_find_correct.
Qed.

Lemma erase_at_ok t q k v l r : trie_ok t -> node_at q (root t) = TNode k (Some v) l r ->
  trie_ok (trie_erase_at t (Some q))
  /\ trie_model (trie_erase_at t (Some q)) = delete (net_id k) (trie_model t).
Proof.
  intros [Hw Hc] Hat. destruct (node_at_model q (root t) k v l r Hw Hat) as [_ Hi].
  unfold trie_erase_at, payload_at. rewrite Hat.
  assert (is_null (root t) = false) as ->.
  { destruct (root t); [|done]. by destruct q as [|[]]. }
  simpl. destruct (node_erase_ok q (root t) k v l r Hw Hat) as (Hw' & Hm & _).
  split; [|done]. split; [done|]. unfold trie_model in *. simpl.
  pose proof (insert_size (delete (net_id k) (model (root t))) (net_id k) v) as Hs.
  rewrite insert_delete_id, lookup_delete_eq in Hs by done. simpl in Hs. rewrite Hm. lia.
Qed.

(** The node found by an exact search. *)
Lemma lookup_node_cases t k : trie_ok t -> net_wf k ->
  match trie_lookup_node t k with
  | Some q => exists v l r, node_at q (root t) = TNode k (Some v) l r
                            /\ trie_model t !! net_id k = Some v
  | None => trie_model t !! net_id k = None
  end.
Proof.
  intros Hok Hk. pose proof (find_correct t k Hok Hk) as Hf. unfold trie_lookup_node.
  destruct (trie_find t k) as [q|]; simpl in Hf.
  - destruct Hf as (nk & v & l & r & Hat & Hnk & Hi & Hc & Hmax). rewrite Hat.
    destruct (net_eqb nk k) eqn:E.
    + apply net_eqb_spec in E as ->; [|done..]. by exists v, l, r.
    + destruct (trie_model t !! net_id k) as [w|] eqn:Ek; [|done]. exfalso.
      pose proof (Hmax k w Hk Ek (contains_refl k Hk)).
      assert (prefix_len nk < prefix_len k); [|lia]. apply contains_strict_len; try done.
      intros ->. assert (net_eqb nk nk = true) by (by apply net_eqb_spec). congruence.
  - destruct (trie_model t !! net_id k) as [w|] eqn:Ek; [|done].
    pose proof (Hf k w Hk Ek) as Hc. by rewrite contains_refl in Hc.
Qed.

(** The search by address is the search of its host subnet. *)
Lemma host_key_spec (a : A) : a_wf a ->
  net_wf (host_key a) /\ (forall n, net_wf n -> net_contains n (host_key a) = true <-> in_net (a_val a) n).
Proof.
  intros Ha. unfold host_key. pose proof bitlen_pos.
  destruct (net_new_ok a addr_bitlen Ha) as (k & -> & Hk & Hp & Hlo); [lia|].
  split; [done|]. intros n Hn. rewrite contains_iff by done.
  assert (net_lo k = a_val a) as E.
  { rewrite Hlo, Z.sub_diag. unfold align. rewrite Z.pow_0_r, Z.mod_1_r. lia. }
  assert (net_hi k = a_val a) as E'.
  { unfold net_hi, net_free. rewrite E, Hp, Z.sub_diag, Z.pow_0_r. lia. }
  rewrite E, E'. unfold in_net. done.
Qed.

(** The subnets that contain the parent of [key] are those that strictly
    contain [key]. *)
Lemma parent_spec key : net_wf key -> 0 < prefix_len key ->
  exists x, net_new (masked_addr key) (prefix_len key - 1) = Ok x /\ net_wf x
    /\ forall n, net_wf n ->
         net_contains n x = true <-> net_contains n key = true /\ prefix_len n < prefix_len key.
Proof.
  intros Hk Hp. pose proof Hk as (Wk & Pk & _).
  destruct (net_new_ok (masked_addr key) (prefix_len key - 1)) as (x & E & Hx & Px & Lx); [done|lia|].
  exists x. split; [done|]. split; [done|]. intros n Hn. rewrite !contains_align by done.
  pose proof (net_wf_free n Hn). pose proof (net_wf_free x Hx).
  rewrite Px, Lx. fold (net_lo key).
  replace (addr_bitlen - (prefix_len key - 1)) with (net_free x) by (unfold net_free; lia).
  split.
  - intros [Hle Ha]. rewrite align_align in Ha by (unfold net_free in *; lia). split; [split; [lia|done]|lia].
  - intros [[_ Ha] Hlt]. rewrite align_align by (unfold net_free in *; lia). split; [lia|done].
Qed.

Lemma find_addr_cases t a : trie_ok t -> a_wf a ->
  match trie_find_addr t a with
  | Some q => exists k v l r, node_at q (root t) = TNode k (Some v) l r
      /\ trie_model t !! net_id k = Some v /\ in_net (a_val a) k
      /\ forall n w, net_wf n -> trie_model t !! net_id n = Some w -> in_net (a_val a) n ->
                     prefix_len n <= prefix_len k
  | None => forall n w, net_wf n -> trie_model t !! net_id n = Some w -> ~ in_net (a_val a) n
  end.
Proof.
  intros Hok Ha. destruct (host_key_spec a Ha) as [Hk Hin]. unfold trie_find_addr.
  pose proof (find_correct t (host_key a) Hok Hk) as Hf. destruct (trie_find t (host_key a)) as [q|].
  - destruct Hf as (k & v & l & r & Hat & Wk & Hi & Hc & Hmax). exists k, v, l, r.
    rewrite Hin in Hc by done. split; [done|]. split; [done|]. split; [done|].
    intros n w Hn Hw I. apply (Hmax n w); try done. by apply Hin.
  - intros n w Hn Hw I. apply Hin in I; [|done]. by rewrite (Hf n w) in I.
Qed.

Lemma find_less_specific_cases t key : trie_ok t -> net_wf key ->
  match trie_find_less_specific t key with
  | Some q => exists k v l r, node_at q (root t) = TNode k (Some v) l r
      /\ trie_model t !! net_id k = Some v
      /\ net_contains k key = true /\ prefix_len k < prefix_len key
      /\ forall n w, net_wf n -> trie_model t !! net_id n = Some w -> net_contains n key = true ->
           prefix_len n < prefix_len key -> prefix_len n <= prefix_len k
  | None => forall n w, net_wf n -> trie_model t !! net_id n = Some w ->
           net_contains n key = true -> prefix_len key <= prefix_len n
  end.
Proof.
  intros Hok Hk. unfold trie_find_less_specific. destruct (Z.eqb_spec (prefix_len key) 0) as [E|E].
  { intros n w (_ & Hn & _) _ _. lia. }
  destruct (parent_spec key Hk) as (x & -> & Hx & Hin); [destruct Hk; lia|].
  pose proof (find_correct t x Hok Hx) as Hf. destruct (trie_find t x) as [q|].
  - destruct Hf as (k & v & l & r & Hat & Wk & Hi & Hc & Hmax). exists k, v, l, r.
    rewrite Hin in Hc by done. destruct Hc. do 4 (split; [done|]).
    intros n w Hn Hw C Lt. apply (Hmax n w); try done. by apply Hin.
  - intros n w Hn Hw C. destruct (Z.lt_ge_cases (prefix_len n) (prefix_len key)); [|done].
    assert (net_contains n x = true) as C' by (by apply Hin). by rewrite (Hf n w) in C'.
Qed.

(** ** The contract *)

(** The operations of the interface that change the trie. *)
Inductive trie_op :=
  | OpInsert (x : IPNet A) (p : P)   (* insert(x, p) *)
  | OpErase (x : IPNet A)            (* erase(lookup_node(x)) *)
  | OpEraseKey (x : IPNet A)         (* erase(x) *)
  | OpDeleteAll.                     (* delete_all_nodes() *)

Definition op_wf (o : trie_op) : Prop :=
  match o with OpInsert x _ | OpErase x | OpEraseKey x => net_wf x | OpDeleteAll => True end.

Definition trie_exec t (o : trie_op) : option (Trie A P) :=
  match o with
  | OpInsert x p => match trie_insert t x p with Some (t', _) => Some t' | None => None end
  | OpErase x => Some (trie_erase_at t (trie_lookup_node t x))
  | OpEraseKey x => Some (trie_erase t x)
  | OpDeleteAll => Some (trie_delete_all_nodes t)
  end.

Fixpoint trie_run t (os : list trie_op) : option (Trie A P) :=
  match os with
  | [] => Some t
  | o :: os => match trie_exec t o with Some t' => trie_run t' os | None => None end
  end.

(** The same operations on the map. *)
Inductive map_step : gmap (Z * Z) P -> trie_op -> gmap (Z * Z) P -> Prop :=
  | MInsert m x p : map_step m (OpInsert x p) (<[net_id x := p]> m)
  | MErase m x : map_step m (OpErase x) (delete (net_id x) m)
  | MEraseKey m x k v : is_lpm m x k v -> map_step m (OpEraseKey x) (delete (net_id k) m)
  | MEraseKeyNone m x : no_match m x -> map_step m (OpEraseKey x) m
  | MDeleteAll m : map_step m OpDeleteAll ∅.

Inductive map_run : gmap (Z * Z) P -> list trie_op -> gmap (Z * Z) P -> Prop :=
  | MNil m : map_run m [] m
  | MCons m o m' os m'' : map_step m o m' -> map_run m' os m'' -> map_run m (o :: os) m''.

Lemma erase_key_ok t x : trie_ok t -> net_wf x ->
  trie_ok (trie_erase t x) /\ map_step (trie_model t) (OpEraseKey x) (trie_model (trie_erase t x)).
Proof.
  intros Hok Hx. unfold trie_erase. pose proof (find_correct t x Hok Hx) as Hf.
  destruct (trie_find t x) as [q|]; simpl in Hf.
  - destruct Hf as (k & v & l & r & Hat & Hl).
    destruct (erase_at_ok t q k v l r Hok Hat) as [Hok' ->]. split; [done|]. by eapply MEraseKey.
  - split; [done|]. by apply MEraseKeyNone.
Qed.

Lemma erase_exact_ok t x : trie_ok t -> net_wf x ->
  trie_ok (trie_erase_at t (trie_lookup_node t x))
  /\ trie_model (trie_erase_at t (trie_lookup_node t x)) = delete (net_id x) (trie_model t).
Proof.
  intros Hok Hx. pose proof (lookup_node_cases t x Hok Hx) as Hl.
  destruct (trie_lookup_node t x) as [q|].
  - destruct Hl as (v & l & r & Hat & _). by eapply erase_at_ok.
  - split; [done|]. by rewrite delete_id.
Qed.

Lemma exec_ok t o : trie_ok t -> op_wf o ->
  exists t', trie_exec t o = Some t' /\ trie_ok t' /\ map_step (trie_model t) o (trie_model t').
Proof.
  intros Hok Ho. destruct o as [x p|x|x|]; simpl in *.
  - destruct (insert_ok t x p Hok Ho) as (t' & q & l & r & -> & Hok' & Hm & _).
    exists t'. split; [done|]. split; [done|]. rewrite Hm. constructor.
  - destruct (erase_exact_ok t x Hok Ho) as [Hok' Hm].
    eexists. split; [done|]. split; [done|]. rewrite Hm. constructor.
  - destruct (erase_key_ok t x Hok Ho). by eexists.
  - eexists. split; [done|]. split; [apply trie_empty_ok|]. constructor.
Qed.

Lemma run_ok t os : trie_ok t -> Forall op_wf os ->
  exists t', trie_run t os = Some t' /\ trie_ok t' /\ map_run (trie_model t) os (trie_model t').
Proof.
  intros Hok Hos. revert t Hok.
  induction Hos as [|o os Ho _ IH]; intros t Hok; simpl; [by exists t; eauto using map_run|].
  destruct (exec_ok t o Hok Ho) as (t' & -> & Hok' & Hs).
  destruct (IH t' Hok') as (t'' & Hr & Hok'' & Hm). exists t''. eauto using map_run.
Qed.

(** ** The properties *)

(** C2: Simulation.  Every sequence of insertions, erasures and clearings of
    well-formed subnets, from the empty trie, runs to its end (no [abort()], no
    exception), keeps the class invariant (shape of the tree and value of
    [_payload_count]), and leaves the map that the same sequence of map
    operations leaves. *)
Theorem trie_refines_map (os : list trie_op) : Forall op_wf os ->
  exists t, trie_run trie_empty os = Some t /\ trie_ok t /\ map_run ∅ os (trie_model t).
Proof. apply (run_ok trie_empty os trie_empty_ok). Qed.

(** [Trie::insert] of a well-formed subnet returns; it adds the subnet or
    replaces its payload and changes nothing else, keeps the invariant, and its
    iterator points at the node of the subnet with the new payload. *)
Theorem trie_insert_correct t x p : trie_ok t -> net_wf x ->
  exists t' q l r, trie_insert t x p = Some (t', q) /\ trie_ok t'
    /\ trie_model t' = <[net_id x := p]> (trie_model t)
    /\ node_at q (root t') = TNode x (Some p) l r.
Proof. apply insert_ok. Qed.

(** [Trie::lookup_node] is the exact lookup: it returns the node of the
    subnet with its payload when the subnet is stored, and [end()] only when
    it is not. *)
Theorem trie_lookup_node_exact t k v : trie_ok t -> net_wf k ->
  (exists q l r, trie_lookup_node t k = Some q /\ node_at q (root t) = TNode k (Some v) l r)
  <-> trie_model t !! net_id k = Some v.
Proof.
  intros Hok Hk. pose proof (lookup_node_cases t k Hok Hk) as Hl.
  destruct (trie_lookup_node t k) as [q|].
  - destruct Hl as (w & l & r & Hat & ->). split.
    + intros (q' & l' & r' & [= <-] & Hat'). congruence.
    + intros [= ->]. eauto.
  - rewrite Hl. split; [by intros (? & ? & ? & ? & _)|done].
Qed.

(** Erasing the node that [lookup_node] finds removes exactly that subnet
    from the map, keeps the invariant, and is the identity when the subnet is
    absent. *)
Theorem trie_erase_exact t x : trie_ok t -> net_wf x ->
  let t' := trie_erase_at t (trie_lookup_node t x) in
  trie_ok t' /\ trie_model t' = delete (net_id x) (trie_model t).
Proof. apply erase_exact_ok. Qed.

(** C16: [Trie::find] on an address is the longest prefix match: the node
    returned holds the address and no stored subnet that holds it is more
    specific; [end()] means that no stored subnet holds it. *)
Theorem trie_find_addr_lpm t a : trie_ok t -> a_wf a ->
  match trie_find_addr t a with
  | Some q => exists k v l r, node_at q (root t) = TNode k (Some v) l r
      /\ trie_model t !! net_id k = Some v /\ in_net (a_val a) k
      /\ forall n w, net_wf n -> trie_model t !! net_id n = Some w -> in_net (a_val a) n ->
                     prefix_len n <= prefix_len k
  | None => forall n w, net_wf n -> trie_model t !! net_id n = Some w -> ~ in_net (a_val a) n
  end.
Proof. apply find_addr_cases. Qed.

(** [Trie::find_less_specific] returns the longest stored subnet that
    strictly contains the key, whether or not the key is stored, and [end()]
    only when there is none. *)
Theorem trie_find_less_specific_correct t key : trie_ok t -> net_wf key ->
  match trie_find_less_specific t key with
  | Some q => exists k v l r, node_at q (root t) = TNode k (Some v) l r
      /\ trie_model t !! net_id k = Some v
      /\ net_contains k key = true /\ prefix_len k < prefix_len key
      /\ forall n w, net_wf n -> trie_model t !! net_id n = Some w -> net_contains n key = true ->
           prefix_len n < prefix_len key -> prefix_len n <= prefix_len k
  | None => forall n w, net_wf n -> trie_model t !! net_id n = Some w ->
           net_contains n key = true -> prefix_len key <= prefix_len n
  end.
Proof. apply find_less_specific_cases. Qed.
End TrieMap.
Arguments trie_op : clear implicits.

(** ** Witnesses *)

Definition sample_ops : list (trie_op IPv4 Z) :=
  [ OpInsert (net4 10 0 0 0 8) 1; OpInsert (net4 10 1 0 0 16) 2; OpInsert (net4 10 1 2 0 24) 3;
    OpInsert (net4 192 168 0 0 16) 4; OpInsert (net4 10 1 0 0 16) 5; OpErase (net4 10 1 2 0 24);
    OpEraseKey (net4 192 168 0 0 16) ].

Definition sample_trie : Trie IPv4 Z :=
  match trie_run trie_empty sample_ops with Some t => t | None => trie_empty end.

Lemma sample_trie_ok : trie_ok sample_trie.
Proof.
  destruct (run_ok trie_empty sample_ops trie_empty_ok) as (t & E & Hok & _); [by_eval|].
  unfold sample_trie. by rewrite E.
Qed.

(** A stored subnet of a closed trie, by evaluation of the exact lookup. *)
Lemma lookup_eval (t : Trie IPv4 Z) k v : trie_ok t -> net_wf k ->
  (match trie_lookup_node t k with Some q => payload_at q (root t) | None => None end) = v ->
  trie_model t !! net_id k = v.
Proof.
  intros Hok Hk <-. pose proof (lookup_node_cases t k Hok Hk) as Hl.
  destruct (trie_lookup_node t k) as [q|]; [|done]. destruct Hl as (w & l & r & Hat & ->).
  unfold payload_at. by rewrite Hat.
Qed.

Lemma trie_refines_map_witness :
  exists t, trie_run trie_empty sample_ops = Some t /\ trie_ok t /\ map_run ∅ sample_ops (trie_model t).
Proof. apply (trie_refines_map sample_ops). by_eval. Defined.

Lemma trie_insert_correct_witness :
  exists t' q l r, trie_insert sample_trie (net4 10 2 0 0 16) 7 = Some (t', q) /\ trie_ok t'
    /\ trie_model t' = <[net_id (net4 10 2 0 0 16) := 7]> (trie_model sample_trie)
    /\ node_at q (root t') = TNode (net4 10 2 0 0 16) (Some 7) l r.
Proof. apply (trie_insert_correct sample_trie (net4 10 2 0 0 16) 7); [apply sample_trie_ok|by_eval]. Defined.

Lemma trie_lookup_node_exact_witness :
  exists q l r, trie_lookup_node sample_trie (net4 10 1 0 0 16) = Some q
    /\ node_at q (root sample_trie) = TNode (net4 10 1 0 0 16) (Some 5) l r.
Proof.
  apply (trie_lookup_node_exact sample_trie (net4 10 1 0 0 16) 5); [apply sample_trie_ok|by_eval|].
  apply lookup_eval; [apply sample_trie_ok|by_eval..].
Defined.

Lemma trie_erase_exact_witness :
  trie_model (trie_erase_at sample_trie (trie_lookup_node sample_trie (net4 10 1 0 0 16)))
  = delete (net_id (net4 10 1 0 0 16)) (trie_model sample_trie).
Proof.
  apply (trie_erase_exact sample_trie (net4 10 1 0 0 16)); [apply sample_trie_ok|by_eval].
Defined.

Lemma trie_find_addr_lpm_witness :
  exists k v l r, node_at [L] (root sample_trie) = TNode k (Some v) l r
    /\ trie_model sample_trie !! net_id k = Some v /\ in_net (a_val (ip4 10 1 9 9)) k
    /\ forall n w, net_wf n -> trie_model sample_trie !! net_id n = Some w ->
         in_net (a_val (ip4 10 1 9 9)) n -> prefix_len n <= prefix_len k.
Proof.
  pose proof (trie_find_addr_lpm sample_trie (ip4 10 1 9 9) sample_trie_ok ltac:(by_eval)) as Hw.
  assert (trie_find_addr sample_trie (ip4 10 1 9 9) = Some [L]) as E by by_eval.
  rewrite E in Hw. exact Hw.
Defined.

Lemma trie_find_less_specific_correct_witness :
  exists k v l r, node_at [] (root sample_trie) = TNode k (Some v) l r
    /\ trie_model sample_trie !! net_id k = Some v
    /\ net_contains k (net4 10 1 0 0 16) = true /\ prefix_len k < prefix_len (net4 10 1 0 0 16)
    /\ forall n w, net_wf n -> trie_model sample_trie !! net_id n = Some w ->
         net_contains n (net4 10 1 0 0 16) = true ->
         prefix_len n < prefix_len (net4 10 1 0 0 16) -> prefix_len n <= prefix_len k.
Proof.
  pose proof (trie_find_less_specific_correct sample_trie (net4 10 1 0 0 16) sample_trie_ok
                ltac:(by_eval)) as Hw.
  assert (trie_find_less_specific sample_trie (net4 10 1 0 0 16) = Some []) as E by by_eval.
  rewrite E in Hw. exact Hw.
Defined.

(** [Trie::erase(const Key&)] is [erase(find(k))] and [find] is the longest
    match: asked to erase 10.1.0.0/16, which is not stored, it erases the route
    10.0.0.0/8 instead of leaving the trie alone. *)
Theorem trie_erase_key_erases_other :
  exists t : Trie IPv4 Z, trie_ok t
    /\ trie_lookup_node t (net4 10 1 0 0 16) = None
    /\ trie_model t !! net_id (net4 10 0 0 0 8) = Some 1
    /\ trie_model (trie_erase t (net4 10 1 0 0 16)) !! net_id (net4 10 0 0 0 8) = None.
Proof.
  set (t := mkTrie (new_leaf (net4 10 0 0 0 8) 1) 1 : Trie IPv4 Z). exists t.
  assert (trie_ok t) as Hok.
  { split; [by_eval|]. unfold trie_model. simpl root. by rewrite model_leaf, map_size_singleton. }
  split; [done|]. split; [by_eval|]. split; apply lookup_eval; [done|by_eval|by_eval| |by_eval|by_eval].
  apply (erase_key_ok t (net4 10 1 0 0 16)); [done|by_eval].
Qed.
