(* ===== verification/TrieIter.v ===== *)
(** * Iteration over the trie (libxorp/trie.hh)

    [TriePostOrderIterator], [TriePreOrderIterator] and the scans written with
    them ([begin()] .. [end()], [search_subtree()] .. [end()]).  A position is
    the path of a node, [None] is the null pointer.  The loops carry a fuel; the
    fuel of a scan is the number of nodes, and the theorems show that it never
    runs out on a well-formed trie. *)

From Stdlib Require Import ZArith Lia Sorted.
From stdpp Require Import base tactics option list numbers gmap.
From S2P Require Import Prelude Word32 Addr IPv4 IPNet Sample Trie TrieSpec TrieMap.
Local Open Scope Z_scope.

Section IterOps.
Context `{AddrOps A} {P : Type}.
Implicit Types (t s : tree A P) (q here : path) (rt : IPNet A).

Definition tree_right t : tree A P := match t with Null => Null | TNode _ _ _ r => r end.
Definition node_has_payload t : bool := match t with Null => false | TNode _ o _ _ => has_payload o end.

Fixpoint tree_nodes t : nat :=
  match t with Null => O | TNode _ _ l r => S (tree_nodes l + tree_nodes r) end.

(** [get_parent()] of the node at a path, with the side the node is on. *)
Definition parent (q : path) : option (path * dir) :=
  match rev q with [] => None | d :: up => Some (rev up, d) end.

(** The climb of [begin()]: up while the parent is inside the root key.  The
    path is read from its last step. *)
Fixpoint climb t rt (rq : path) : path :=
  match rq with
  | [] => []
  | d :: up => if key_contains rt (node_at (rev up) t) then climb t rt up else rev rq
  end.

Definition post_begin t rt (q : path) : path :=
  let n := climb t rt (rev q) in leftmost (node_at n t) n.

(** One turn of the loop of [TriePostOrderIterator::next] before its tests. *)
Definition post_move t (q : path) : option path :=
  match parent q with
  | None => None
  | Some (up, d) =>
      let right := tree_right (node_at up t) in
      if bool_decide (d = L) && negb (is_null right)
      then Some (leftmost right (up ++ [R]))
      else Some up
  end.

(** The outer [None] is an exhausted fuel. *)
Fixpoint post_next (fuel : nat) t rt (q : path) : option (option path) :=
  match fuel with
  | O => None
  | S fuel =>
      match post_move t q with
      | None => Some None
      | Some n =>
          if negb (key_contains rt (node_at n t)) then Some None
          else if node_has_payload (node_at n t) then Some (Some n)
          else post_next fuel t rt n
      end
  end.

(** A loop [for (i = ...; i != end(); ++i)]: the nodes it visits. *)
Fixpoint post_scan (fuel : nat) t rt (cur : option path) : option (list path) :=
  match cur with
  | None => Some []
  | Some q =>
      match fuel with
      | O => None
      | S fuel =>
          match post_next (S (tree_nodes t)) t rt q with
          | None => None
          | Some nxt => match post_scan fuel t rt nxt with
                        | Some qs => Some (q :: qs)
                        | None => None
                        end
          end
      end
  end.

(** [TriePreOrderIterator::next]: the stack of the nodes to visit; the result
    is the current node and the new stack.  [top()] of an empty stack is
    undefined: the inner [None]. *)
Definition push_children t (q : path) (stack : list path) : list path :=
  match node_at q t with
  | Null => stack
  | TNode _ _ l r =>
      let stack := if is_null r then stack else (q ++ [R]) :: stack in
      if is_null l then stack else (q ++ [L]) :: stack
  end.

Fixpoint pre_loop (fuel : nat) t (stack : list path) : option (path * list path) :=
  match fuel, stack with
  | O, _ | _, [] => None
  | S fuel, q :: stack =>
      let stack := push_children t q stack in
      if node_has_payload (node_at q t) then Some (q, stack) else pre_loop fuel t stack
  end.

Definition pre_next t (stack : list path) : option (option path * list path) :=
  match stack with
  | [] => Some (None, [])
  | _ => match pre_loop (tree_nodes t) t stack with
         | Some (q, stack) => Some (Some q, stack)
         | None => None
         end
  end.

Definition pre_begin t rt (q : path) : option (option path * list path) :=
  pre_next t [climb t rt (rev q)].

Fixpoint pre_scan (fuel : nat) t (st : option (option path * list path)) : option (list path) :=
  match st with
  | None => None
  | Some (None, _) => Some []
  | Some (Some q, stack) =>
      match fuel with
      | O => None
      | S fuel => match pre_scan fuel t (pre_next t stack) with
                  | Some qs => Some (q :: qs)
                  | None => None
                  end
      end
  end.
End IterOps.

Section TrieScan.
Context `{AddrOps A} {P : Type}.
Implicit Types (t : Trie A P).

(** [iterator(n, key)]: the position and the loop from it to [end()]. *)
Definition scan_from t (key : IPNet A) (n : option path) : option (list path) :=
  post_scan (tree_nodes (root t)) (root t) key
    (match n with Some q => Some (post_begin (root t) key q) | None => None end).

(** [for (i = begin(); i != end(); ++i)]. *)
Definition scan_all t : option (list path) :=
  scan_from t net_default (if is_null (root t) then None else Some []).

(** [for (i = search_subtree(key); i != end(); ++i)]. *)
Definition scan_subtree t (key : IPNet A) : option (list path) :=
  scan_from t key (trie_search_subtree t key).

(** The same whole scan with the pre-order iterator. *)
Definition pre_scan_all t : option (list path) :=
  if is_null (root t) then Some []
  else pre_scan (tree_nodes (root t)) (root t) (pre_begin (root t) net_default []).

(** The key of the node at a position. *)
Definition key_at t (q : path) : option (IPNet A) :=
  match node_at q (root t) with TNode k _ _ _ => Some k | Null => None end.
End TrieScan.

(** ** Chains *)
Fixpoint chain {X} (R : X -> X -> Prop) (l : list X) : Prop :=
  match l with x :: ((y :: _) as l') => R x y /\ chain R l' | _ => True end.

Lemma chain_app {X} (R : X -> X -> Prop) l1 l2 : chain R l1 -> chain R l2 ->
  (forall a b, last l1 = Some a -> head l2 = Some b -> R a b) -> chain R (l1 ++ l2).
Proof.
  intros H1 H2 Hb. induction l1 as [|x l1 IH]; [done|].
  destruct l1 as [|y l1]; simpl in *.
  - destruct l2 as [|z l2]; [done|]. split; [by apply Hb|done].
  - destruct H1. split; [done|]. by apply IH.
Qed.

Lemma chain_suffix {X} (R : X -> X -> Prop) l1 l2 : chain R (l1 ++ l2) -> chain R l2.
Proof.
  induction l1 as [|x l1 IH]; [done|]. simpl. intros Hc. apply IH.
  destruct (l1 ++ l2); [done|]. by destruct Hc.
Qed.

Section IterSpec.
Context `{AddrSpec A} {P : Type}.
Implicit Types (t s : tree A P) (q here : path) (rt key : IPNet A).

(** The paths of the nodes of a subtree, in post-order. *)
Fixpoint posts s here : list path :=
  match s with
  | Null => []
  | TNode _ _ l r => posts l (here ++ [L]) ++ posts r (here ++ [R]) ++ [here]
  end.

Lemma posts_head s here : s <> Null -> head (posts s here) = Some (leftmost s here).
Proof.
  revert here. induction s as [|k o l IHl r IHr]; intros here Hs; [done|]. simpl.
  destruct (is_null l) eqn:El.
  - destruct l; [|done]. simpl. destruct (is_null r) eqn:Er; [by destruct r|].
    rewrite head_app, IHr by (by destruct r). done.
  - rewrite head_app, IHl by (by destruct l). done.
Qed.

Lemma posts_last s here : s <> Null -> last (posts s here) = Some here.
Proof. destruct s; [done|]. intros _. simpl. by rewrite app_assoc, last_snoc. Qed.

Lemma posts_length s here : length (posts s here) = tree_nodes s.
Proof.
  revert here. induction s as [|k o l IHl r IHr]; intros here; simpl; [done|].
  rewrite !length_app, IHl, IHr. simpl. lia.
Qed.

Lemma node_at_app q1 q2 t : node_at (q1 ++ q2) t = node_at q2 (node_at q1 t).
Proof.
  revert t. induction q1 as [|d q1 IH]; intros t; [done|].
  destruct t as [|k o l r]; simpl; [|by destruct d]. destruct d; by destruct q2 as [|[]].
Qed.

Lemma tree_nodes_at q t : (tree_nodes (node_at q t) <= tree_nodes t)%nat.
Proof.
  revert t. induction q as [|d q IH]; intros [|k o l r]; simpl; try lia; [by destruct d|].
  destruct d; [specialize (IH l)|specialize (IH r)]; lia.
Qed.

Lemma parent_snoc q d : parent (q ++ [d]) = Some (q, d).
Proof. unfold parent. rewrite rev_app_distr. simpl. by rewrite rev_involutive. Qed.

(** The moves of the iterator follow the post-order. *)
Lemma posts_chain t s here : node_at here t = s ->
  chain (fun a b => post_move t a = Some b) (posts s here).
Proof.
  revert here. induction s as [|k o l IHl r IHr]; intros here Hs; [done|]. simpl.
  apply chain_app; [|apply chain_app|].
  - apply IHl. by rewrite node_at_app, Hs.
  - apply IHr. by rewrite node_at_app, Hs.
  - done.
  - intros a b Ha [= <-]. destruct r as [|rk ro rl rr]; [done|].
    rewrite posts_last in Ha by done. injection Ha as <-.
    unfold post_move. by rewrite parent_snoc.
  - intros a b Ha Hb. destruct l as [|lk lo ll lr]; [done|].
    rewrite posts_last in Ha by done. injection Ha as <-.
    unfold post_move. rewrite parent_snoc, Hs. simpl.
    destruct r as [|rk ro rl rr]; simpl; [by injection Hb as <-|].
    rewrite head_app, posts_head in Hb by done. by injection Hb as <-.
Qed.

(** ** Scans along a chain *)

Definition payload_path t q : Prop := node_has_payload (node_at q t) = true.
#[global] Instance payload_path_dec t q : Decision (payload_path t q).
Proof. unfold payload_path. apply _. Defined.

(** The position from which the iterator ends. *)
Definition stops t rt q : Prop :=
  match post_move t q with None => True | Some n => key_contains rt (node_at n t) = false end.

Definition walk t rt (q : path) (rest : list path) : Prop :=
  chain (fun a b => post_move t a = Some b) (q :: rest)
  /\ Forall (fun n => key_contains rt (node_at n t) = true) rest
  /\ forall z, last (q :: rest) = Some z -> stops t rt z.

Lemma walk_suffix t rt q pre n rest : walk t rt q (pre ++ n :: rest) -> walk t rt n rest.
Proof.
  intros (Hc & Hf & Hs). split; [|split].
  - by apply (chain_suffix _ (q :: pre)).
  - apply Forall_app in Hf as [_ Hf]. by inversion Hf.
  - intros z Hz. apply Hs. change (q :: pre ++ n :: rest) with ((q :: pre) ++ n :: rest).
    by rewrite last_app, Hz.
Qed.

Lemma post_next_walk t rt q rest fuel : walk t rt q rest -> (length rest < fuel)%nat ->
  post_next fuel t rt q = Some (head (filter (payload_path t) rest)).
Proof.
  revert q fuel. induction rest as [|n rest IH]; intros q fuel Hw Hf;
    (destruct fuel as [|fuel]; [simpl in Hf; lia|]); simpl.
  - destruct Hw as (_ & _ & Hs). specialize (Hs q eq_refl). unfold stops in Hs.
    destruct (post_move t q); [|done]. by rewrite Hs.
  - pose proof (walk_suffix t rt q [] n rest Hw) as Hw'.
    destruct Hw as ([-> _] & Hc & _). apply Forall_cons in Hc as [-> _]. simpl.
    destruct (node_has_payload (node_at n t)) eqn:E.
    + by rewrite filter_cons_True.
    + rewrite filter_cons_False by (unfold payload_path; congruence). apply IH; [done|simpl in Hf; lia].
Qed.

Lemma filter_head_split {X} (Q : X -> Prop) `{!forall x, Decision (Q x)} (l : list X) y :
  head (filter Q l) = Some y ->
  exists pre post, l = pre ++ y :: post /\ filter Q l = y :: filter Q post.
Proof.
  induction l as [|x l IH]; [done|]. destruct (decide (Q x)) as [Hq|Hq].
  - rewrite filter_cons_True by done. intros [= ->]. by exists [], l.
  - rewrite filter_cons_False by done. intros Hh. destruct (IH Hh) as (pre & post & -> & E).
    exists (x :: pre), post. done.
Qed.

Lemma post_scan_walk t rt q rest fuel : walk t rt q rest ->
  (length rest <= tree_nodes t)%nat -> (length rest < fuel)%nat ->
  post_scan fuel t rt (Some q) = Some (q :: filter (payload_path t) rest).
Proof.
  revert q rest. induction fuel as [|fuel IH]; intros q rest Hw Hn Hf; [lia|]. cbn [post_scan].
  rewrite (post_next_walk t rt q rest) by (done || lia).
  destruct (head (filter (payload_path t) rest)) as [n|] eqn:E.
  - destruct (filter_head_split _ rest n E) as (pre & post & -> & ->).
    rewrite (IH n post); [done|by eapply walk_suffix|..]; rewrite length_app in *; simpl in *; lia.
  - destruct (filter (payload_path t) rest); [|done]. by destruct fuel.
Qed.

(** ** The entries of a subtree in post-order *)

Fixpoint elems s : list (IPNet A * P) :=
  match s with
  | Null => []
  | TNode k o l r => elems l ++ elems r ++ match o with Some v => [(k, v)] | None => [] end
  end.

Definition entry_at t q : option (IPNet A * P) :=
  match node_at q t with TNode k (Some v) _ _ => Some (k, v) | _ => None end.

Lemma posts_elems t s here : node_at here t = s -> omap (entry_at t) (posts s here) = elems s.
Proof.
  revert here. induction s as [|k o l IHl r IHr]; intros here Hs; [done|]. simpl.
  rewrite !omap_app, IHl, IHr by (by rewrite node_at_app, Hs). simpl.
  unfold entry_at. rewrite Hs. by destruct o.
Qed.

Lemma omap_cons' {X Y} (f : X -> option Y) x l :
  omap f (x :: l) = match f x with Some y => y :: omap f l | None => omap f l end.
Proof. done. Qed.

Lemma omap_filter t (qs : list path) :
  omap (entry_at t) (filter (payload_path t) qs) = omap (entry_at t) qs.
Proof.
  induction qs as [|q qs IH]; [done|]. destruct (decide (payload_path t q)) as [Hp|Hp].
  - by rewrite filter_cons_True, !omap_cons', IH.
  - rewrite filter_cons_False, omap_cons', IH by done. unfold entry_at, payload_path in *.
    by destruct (node_at q t) as [|k [v|] l r].
Qed.

Lemma elems_model s n v : tree_wf s -> net_wf n ->
  (n, v) ∈ elems s <-> model s !! net_id n = Some v.
Proof.
  induction s as [|k o l IHl r IHr]; intros Hw Hn.
  { simpl. rewrite lookup_empty. split; [by intros ?%not_elem_of_nil|done]. }
  rewrite model_node_Some by done. destruct Hw as (_ & _ & _ & _ & Wl & Wr). simpl.
  rewrite !elem_of_app, IHl, IHr by done. destruct o as [w|].
  - rewrite list_elem_of_singleton. split.
    + intros [?|[?|[= -> ->]]]; auto.
    + intros [[-> [= ->]]|[?|?]]; auto.
  - pose proof (not_elem_of_nil (n, v)). split; [tauto|]. intros [[_ [=]]|[?|?]]; auto.
Qed.

Lemma elems_wf s n v : tree_wf s -> (n, v) ∈ elems s -> net_wf n.
Proof.
  induction s as [|k o l IHl r IHr]; simpl; [by intros _ ?%not_elem_of_nil|].
  intros (Hk & _ & _ & _ & Wl & Wr). rewrite !elem_of_app. intros [?|[?|Ho]]; auto.
  destruct o; [|by apply not_elem_of_nil in Ho]. by apply list_elem_of_singleton in Ho as [= -> _].
Qed.

Lemma elems_half d k s n v : root_ok (in_half d k) s -> tree_wf s -> (n, v) ∈ elems s ->
  net_wf n /\ in_half d k n.
Proof.
  intros Hd Hw Hi. pose proof (elems_wf s n v Hw Hi) as Hn. split; [done|].
  apply (model_half d k s n v); try done. by apply elems_model.
Qed.

(** ** Order of the entries *)

Lemma contains_ltb x k : net_wf x -> net_wf k -> net_contains k x = true -> x <> k ->
  net_ltb x k = true.
Proof.
  intros Hx Hk Hc Hne. unfold net_ltb. destruct (net_contains x k) eqn:E; [|by rewrite Hc].
  by destruct Hne; apply contains_antisym.
Qed.

Lemma in_half_range d k x : net_wf k -> net_wf x -> in_half d k x ->
  match d with L => net_hi x <= net_mid k | R => net_mid k < net_lo x end.
Proof.
  intros Hk Hx I. pose proof (in_half_contains d k x Hk Hx I) as Hc.
  destruct (half_cases x k Hx Hk Hc (in_half_neq d k x I)) as [(I' & ? & ?)|(I' & ? & ?)];
    pose proof (in_half_unique _ _ k x Hk Hx I I'); subst d; done.
Qed.

Lemma halves_ltb k x y : net_wf k -> net_wf x -> net_wf y -> in_half L k x -> in_half R k y ->
  net_ltb x y = true.
Proof.
  intros Hk Hx Hy Ix Iy. pose proof (in_half_range L k x Hk Hx Ix).
  pose proof (in_half_range R k y Hk Hy Iy). pose proof (net_wf_lo y Hy).
  apply ltb_iff; [done..|]. simpl in *. lia.
Qed.

Definition entry_lt (a b : IPNet A * P) : Prop := net_ltb a.1 b.1 = true.

Lemma sorted_append {X} (R : X -> X -> Prop) l1 l2 :
  StronglySorted R l1 -> StronglySorted R l2 ->
  (forall a b, a ∈ l1 -> b ∈ l2 -> R a b) -> StronglySorted R (l1 ++ l2).
Proof.
  intros H1 H2 Hc. induction H1 as [|x l1 H1 IH Hx]; [done|]. simpl. constructor.
  - apply IH. intros a b Ha. apply Hc. by right.
  - apply Forall_app. split; [done|]. apply Forall_forall. intros b Hb. apply Hc; [left|done].
Qed.

Lemma elems_sorted s : tree_wf s -> StronglySorted entry_lt (elems s).
Proof.
  induction s as [|k o l IHl r IHr]; simpl; [constructor|].
  intros (Hk & _ & Hl & Hr & Wl & Wr).
  assert (forall d c n v, root_ok (in_half d k) c -> tree_wf c -> (n, v) ∈ elems c ->
    net_ltb n k = true) as Hup.
  { intros d c n v Hd Hw Hi. destruct (elems_half d k c n v Hd Hw Hi) as [Hn I].
    apply contains_ltb; [done..|by eapply in_half_contains|by eapply in_half_neq]. }
  apply sorted_append; [auto|apply sorted_append; [auto|..]|].
  - destruct o; repeat constructor.
  - intros [n v] b Hi Hb. destruct o; [|by apply not_elem_of_nil in Hb].
    apply list_elem_of_singleton in Hb as ->. by apply (Hup R r n v).
  - intros [n v] [n' v'] Hi Hb. destruct (elems_half L k l n v Hl Wl Hi) as [Hn I].
    apply elem_of_app in Hb as [Hb|Hb].
    + destruct (elems_half R k r n' v' Hr Wr Hb) as [Hn' I']. by apply (halves_ltb k).
    + destruct o; [|by apply not_elem_of_nil in Hb].
      apply list_elem_of_singleton in Hb as [= -> ->]. by apply (Hup L l n v).
Qed.

(** A well-formed subtree ends, on the left, in a node with a payload. *)
Lemma leftmost_payload t s here : tree_wf s -> s <> Null -> node_at here t = s ->
  payload_path t (leftmost s here).
Proof.
  revert here. induction s as [|k o l IHl r IHr]; intros here Hw Hs Hat; [done|].
  pose proof Hw as (_ & Ho & _ & _ & Wl & Wr). simpl.
  destruct (is_null l) eqn:El; [destruct (is_null r) eqn:Er|].
  - unfold payload_path. rewrite Hat. destruct l, r, o; try done. by destruct (Ho eq_refl).
  - apply IHr; [done|by destruct r|]. by rewrite node_at_app, Hat.
  - apply IHl; [done|by destruct l|]. by rewrite node_at_app, Hat.
Qed.

(** Every node of a subtree lies inside the key of its root. *)
Lemma posts_inside t k o l r here q : tree_wf (TNode k o l r) ->
  node_at here t = TNode k o l r -> q ∈ posts (TNode k o l r) here ->
  exists k', root_ok (fun x => x = k') (node_at q t) /\ node_at q t <> Null
             /\ net_wf k' /\ net_contains k k' = true.
Proof.
  remember (TNode k o l r) as s eqn:Es. revert here k o l r Es.
  induction s as [|k0 o0 l0 IHl r0 IHr]; intros here k o l r Es Hw Hat Hq; [done|].
  injection Es as <- <- <- <-. pose proof Hw as (Hk & _ & Hl & Hr & Wl & Wr). simpl in Hq.
  assert (forall d c, (forall here k o l r, c = TNode k o l r -> tree_wf c -> node_at here t = c ->
      q ∈ posts c here -> exists k', root_ok (fun x => x = k') (node_at q t)
        /\ node_at q t <> Null /\ net_wf k' /\ net_contains k k' = true) ->
    root_ok (in_half d k0) c -> tree_wf c -> node_at (here ++ [d]) t = c -> q ∈ posts c (here ++ [d]) ->
    exists k', root_ok (fun x => x = k') (node_at q t) /\ node_at q t <> Null
             /\ net_wf k' /\ net_contains k0 k' = true) as Hchild.
  { intros d c IH Hd Wc Hc Hqc. destruct c as [|ck co cl cr]; [by apply not_elem_of_nil in Hqc|].
    destruct (IH _ _ _ _ _ eq_refl Wc Hc Hqc) as (k' & E & Hn & Hk' & Hin).
    exists k'. do 3 (split; [done|]). apply (contains_trans k0 ck k'); try done; [apply Wc|].
    apply (in_half_contains d); try done. apply Wc. }
  rewrite !elem_of_app in Hq. destruct Hq as [Hq|[Hq|Hq]].
  - apply (Hchild L l0); try done. by rewrite node_at_app, Hat.
  - apply (Hchild R r0); try done. by rewrite node_at_app, Hat.
  - apply list_elem_of_singleton in Hq as ->. exists k0. rewrite Hat.
    split; [done|]. split; [done|]. split; [done|by apply contains_refl].
Qed.

(** ** The subtree of a key *)

Fixpoint subtree_rec s key : option path :=
  match s with
  | Null => None
  | TNode k _ l r =>
      if net_contains key k then Some []
      else if net_contains k key then
        if child_contains l key then cons L <$> subtree_rec l key
        else if child_contains r key then cons R <$> subtree_rec r key
        else if key_contains key l then Some [L]
        else if key_contains key r then Some [R]
        else None
      else None
  end.

Lemma find_subtree_loop_rec s key here cand : child_contains s key = true ->
  find_subtree_loop s key here cand
  = match subtree_rec s key with Some q => Some (here ++ q) | None => cand end.
Proof.
  revert here. induction s as [|k o l IHl r IHr]; intros here Hs; [done|]. simpl in *. rewrite Hs.
  destruct (net_contains key k); [by rewrite app_nil_r|].
  destruct (child_contains l key) eqn:El; [|destruct (child_contains r key) eqn:Er].
  - rewrite IHl by done. destruct (subtree_rec l key); simpl; by rewrite <- ?app_assoc.
  - rewrite IHr by done. destruct (subtree_rec r key); simpl; by rewrite <- ?app_assoc.
  - destruct (key_contains key l); [done|]. by destruct (key_contains key r).
Qed.

Lemma find_subtree_eq s key : find_subtree s key = subtree_rec s key.
Proof.
  unfold find_subtree. destruct s as [|k o l r]; [done|].
  destruct (net_contains k key) eqn:E.
  - rewrite find_subtree_loop_rec by done. simpl. destruct (net_contains key k); [done|]. rewrite E.
    by destruct (child_contains l key), (child_contains r key), (subtree_rec l key), (subtree_rec r key),
      (key_contains key l), (key_contains key r).
  - simpl. rewrite E. by destruct (net_contains key k).
Qed.

(** The topmost node inside [key]: every entry inside [key] is below it. *)
Definition inside_post s key (res : option path) : Prop :=
  match res with
  | Some q => key_contains key (node_at q s) = true
      /\ (forall up d, q = up ++ [d] -> key_contains key (node_at up s) = false)
      /\ forall n v, net_wf n -> model s !! net_id n = Some v -> net_contains key n = true ->
                     model (node_at q s) !! net_id n = Some v
  | None => forall n v, net_wf n -> model s !! net_id n = Some v -> net_contains key n = false
  end.

Lemma contains_comparable x y n : net_wf x -> net_wf y -> net_wf n ->
  net_contains x n = true -> net_contains y n = true ->
  net_contains x y = true \/ net_contains y x = true.
Proof.
  intros Hx Hy Hn Cx Cy. destruct (net_contains x y) eqn:E1; [by left|].
  destruct (net_contains y x) eqn:E2; [by right|]. exfalso.
  rewrite contains_iff in Cx, Cy by done. pose proof (net_wf_lo n Hn).
  pose proof (not_contains_disjoint x y Hx Hy E1 E2). lia.
Qed.

(** Entries inside [key] of a subtree whose root is neither inside nor around
    [key] do not exist. *)
Lemma outside_none s key : tree_wf s -> net_wf key ->
  child_contains s key = false -> key_contains key s = false ->
  forall n v, net_wf n -> model s !! net_id n = Some v -> net_contains key n = false.
Proof.
  intros Hw Hkey E1 E2 n v Hn Hi. destruct (net_contains key n) eqn:E; [|done].
  destruct (model_in s _ v Hw Hi) as (n' & Hn' & En & Hc).
  apply net_id_inj in En as ->; [|done..].
  destruct s as [|k o l r]; simpl in *; [by rewrite lookup_empty in Hi|].
  destruct (contains_comparable k key n) as [?|?]; try done; [apply Hw|congruence..].
Qed.

(** Entries inside [key] of a node strictly around [key], by children. *)
Lemma inside_children k o (l r : tree A P) key n v : tree_wf (TNode k o l r) -> net_wf n -> net_wf key ->
  net_contains key k = false -> net_contains key n = true ->
  model (TNode k o l r) !! net_id n = Some v ->
  model l !! net_id n = Some v \/ model r !! net_id n = Some v.
Proof.
  intros Hw Hn Hkey E Hc Hi. apply model_node_Some in Hi as [[-> _]|Hi]; [congruence|done..].
Qed.

(** A key inside one half has nothing in common with the other child. *)
Lemma inside_half d d' k (c : tree A P) key n v : net_wf k -> net_wf key -> net_wf n -> d <> d' ->
  root_ok (in_half d' k) c -> tree_wf c -> in_half d k key ->
  model c !! net_id n = Some v -> net_contains key n = false.
Proof.
  intros Hk Hkey Hn Hd Hc Hw I Hi. destruct (net_contains key n) eqn:E; [|done].
  destruct Hd. apply (in_half_unique d d' k n); try done.
  - by apply (in_half_trans d k key n).
  - by apply (model_half d' k c n v).
Qed.

Definition child d t : tree A P :=
  match t with Null => Null | TNode _ _ l r => match d with L => l | R => r end end.
Definition other d : dir := match d with L => R | R => L end.

(** The side of [key] below a node strictly around it. *)
Lemma key_side d k (c : tree A P) key : net_wf k -> net_wf key -> root_ok (in_half d k) c -> tree_wf c ->
  net_contains k key = true -> net_contains key k = false ->
  child_contains c key = true \/ key_contains key c = true -> in_half d k key.
Proof.
  intros Hk Hkey Hd Hw E1 E2 Hc. destruct c as [|ck co cl cr]; [by destruct Hc|]. simpl in *.
  destruct Hc as [Hc|Hc]; [apply (in_half_trans d k ck key); try done; apply Hw|].
  assert (exists d', in_half d' k key) as [d' I].
  { destruct (half_cases key k) as [(I & _)|(I & _)]; try done; [|by eauto..].
    intros ->. by rewrite contains_refl in E2. }
  assert (in_half d' k ck) as I' by (apply (in_half_trans d' k key ck); try done; apply Hw).
  by rewrite (in_half_unique d d' k ck Hk (proj1 Hw) Hd I').
Qed.

Lemma inside_lift d s key res : tree_wf s -> net_wf key ->
  child_contains s key = true -> key_contains key s = false ->
  (forall n v, net_wf n -> model (child (other d) s) !! net_id n = Some v -> net_contains key n = false) ->
  inside_post (child d s) key res -> inside_post s key (cons d <$> res).
Proof.
  intros Hw Hkey E1 E2 Hoth Hin. destruct s as [|k o l r]; [done|].
  assert (forall n v, net_wf n -> model (TNode k o l r) !! net_id n = Some v ->
    net_contains key n = true -> model (child d (TNode k o l r)) !! net_id n = Some v) as Hch.
  { intros n v Hn Hi Hc.
    destruct (inside_children k o l r key n v Hw Hn Hkey E2 Hc Hi) as [Hc'|Hc'], d; try done;
      by rewrite (Hoth n v) in Hc. }
  destruct res as [q|]; simpl in *.
  - destruct Hin as (Hk & Hup & Hall). split; [by destruct d|]. split.
    + intros [|d' up] d'' E; [done|]. injection E as <- ->. simpl. destruct d; by apply (Hup up d'').
    + intros n v Hn Hi Hc. destruct d; apply Hall; auto.
  - intros n v Hn Hi. destruct (net_contains key n) eqn:E; [|done].
    by rewrite (Hin n v) in E by auto.
Qed.

Lemma subtree_rec_correct s key : tree_wf s -> net_wf key -> inside_post s key (subtree_rec s key).
Proof.
  intros Hw Hkey. induction s as [|k o l IHl r IHr]; simpl.
  { intros n v _ Hi. simpl in Hi. by rewrite lookup_empty in Hi. }
  pose proof Hw as (Hk & _ & Hl & Hr & Wl & Wr).
  destruct (net_contains key k) eqn:E2.
  { simpl. split; [done|]. split; [by intros [|]|done]. }
  destruct (net_contains k key) eqn:E1; [|exact (outside_none (TNode k o l r) key Hw Hkey E1 E2)].
  assert (forall d, child_contains (child d (TNode k o l r)) key = true
                    \/ key_contains key (child d (TNode k o l r)) = true ->
    forall n v, net_wf n -> model (child (other d) (TNode k o l r)) !! net_id n = Some v ->
    net_contains key n = false) as Hoth.
  { intros d Hc n v Hn Hi. eapply (inside_half d (other d) k (child (other d) (TNode k o l r)));
      try done; try (by destruct d). apply (key_side d k (child d (TNode k o l r))); by destruct d. }
  assert (forall c, key_contains key c = true -> inside_post c key (Some [])) as Htop.
  { intros c Hc. split; [done|]. split; [by intros [|]|done]. }
  destruct (child_contains l key) eqn:Cl; [apply (inside_lift L); auto; apply Hoth; auto|].
  destruct (child_contains r key) eqn:Cr; [apply (inside_lift R); auto; apply Hoth; auto|].
  destruct (key_contains key l) eqn:Kl.
  { apply (inside_lift L _ _ (Some [])); auto. apply Hoth; auto. }
  destruct (key_contains key r) eqn:Kr.
  { apply (inside_lift R _ _ (Some [])); auto. apply Hoth; auto. }
  intros n v Hn Hi. destruct (net_contains key n) eqn:E; [|done].
  destruct (inside_children k o l r key n v) as [Hi'|Hi']; try done.
  - by rewrite (outside_none l key Wl Hkey Cl Kl n v) in E.
  - by rewrite (outside_none r key Wr Hkey Cr Kr n v) in E.
Qed.

(** ** Subtree scans *)

Definition topmost t key q : Prop :=
  key_contains key (node_at q t) = true
  /\ forall up d, q = up ++ [d] -> key_contains key (node_at up t) = false.

Lemma climb_topmost t key q : topmost t key q -> climb t key (rev q) = q.
Proof.
  intros [_ Hup]. destruct (rev q) as [|d up] eqn:E; simpl.
  - by rewrite <- (rev_involutive q), E.
  - assert (q = rev up ++ [d]) as Eq by (by rewrite <- (rev_involutive q), E).
    by rewrite (Hup _ _ Eq).
Qed.

(** After the topmost node inside the key the iterator leaves the key. *)
Lemma stops_topmost t key q : tree_wf t -> net_wf key -> topmost t key q -> stops t key q.
Proof.
  intros Hw Hkey [Hin Hup]. unfold stops, post_move.
  destruct (parent q) as [[up d]|] eqn:Ep; [|done].
  assert (q = up ++ [d]) as ->.
  { unfold parent in Ep. destruct (rev q) as [|d' up'] eqn:E; [done|]. injection Ep as <- <-.
    by rewrite <- (rev_involutive q), E. }
  specialize (Hup up d eq_refl). pose proof (node_at_wf up t Hw) as Wp.
  rewrite node_at_app in Hin. destruct (node_at up t) as [|k o l r] eqn:Eu; [by destruct d|].
  simpl in Hin, Hup. destruct (bool_decide (d = L) && negb (is_null (tree_right (TNode k o l r)))) eqn:Eb;
    [|by rewrite Eu].
  apply andb_true_iff in Eb as [->%bool_decide_eq_true Er]. simpl in Er, Hin |- *.
  destruct (key_contains key (node_at (leftmost r (up ++ [R])) t)) eqn:E; [|done]. exfalso.
  pose proof Wp as (Hk & _ & Hl & Hr & Wl & Wr).
  destruct l as [|lk lo ll lr]; [done|]. destruct r as [|rk ro rl rr]; [done|].
  assert (node_at (up ++ [R]) t = TNode rk ro rl rr) as Er' by (by rewrite node_at_app, Eu).
  assert (leftmost (TNode rk ro rl rr) (up ++ [R]) ∈ posts (TNode rk ro rl rr) (up ++ [R])) as Hm.
  { apply head_Some_elem_of. by apply posts_head. }
  destruct (posts_inside t rk ro rl rr (up ++ [R]) _ Wr Er' Hm) as (k' & Hk' & Hnn & Wk' & Cr).
  destruct (node_at (leftmost _ _) t) as [|nk no nl nr]; [done|]. simpl in Hk', E, Hin. subst nk.
  destruct (contains_comparable k key lk) as [C|C]; try done; [apply Wl| | |congruence].
  { apply (in_half_contains L); try done. apply Wl. }
  destruct (half_cases key k) as [(I & _)|(I & _)]; try done.
  - intros ->. by rewrite contains_refl in Hup.
  - assert (in_half R k k') as I' by (apply (in_half_trans R k rk k'); try done; apply Wr).
    pose proof (in_half_trans L k key k' Hkey Wk' I E) as I''. by pose proof (in_half_unique _ _ k k' Hk Wk' I' I'').
  - pose proof (in_half_trans R k key lk Hkey (proj1 Wl) I Hin) as I''.
    by pose proof (in_half_unique _ _ k lk Hk (proj1 Wl) Hl I'').
Qed.

Lemma scan_topmost t key q : tree_wf t -> net_wf key -> topmost t key q ->
  post_scan (tree_nodes t) t key (Some (post_begin t key q))
  = Some (filter (payload_path t) (posts (node_at q t) q)).
Proof.
  intros Hw Hkey Htop. unfold post_begin. rewrite climb_topmost by done.
  pose proof (node_at_wf q t Hw) as Wq. pose proof (proj1 Htop) as Hin.
  destruct (node_at q t) as [|k o l r] eqn:Eq; [done|].
  assert (TNode k o l r <> Null) as Hnn by done.
  pose proof (posts_head (TNode k o l r) q Hnn) as Hh.
  pose proof (posts_length (TNode k o l r) q) as Hlen.
  pose proof (tree_nodes_at q t) as Hle. rewrite Eq in Hle.
  destruct (posts (TNode k o l r) q) as [|z rest] eqn:Ep; [done|]. apply (inj Some) in Hh as ->.
  rewrite filter_cons_True by (by apply leftmost_payload).
  apply post_scan_walk; [|simpl in *; lia..].
  split; [|split].
  - rewrite <- Ep. by apply posts_chain.
  - apply Forall_forall. intros n Hn.
    destruct (posts_inside t k o l r q n Wq Eq) as (k' & Hk' & Hn' & Wk & Hc).
    { rewrite Ep. by right. }
    destruct (node_at n t); [done|]. simpl in *. subst.
    apply (contains_trans key k k'); try done. apply Wq.
  - rewrite <- Ep, posts_last by done. intros z [= <-]. by apply stops_topmost.
Qed.

(** ** Pre-order *)

Fixpoint pres s here : list path :=
  match s with
  | Null => []
  | TNode _ _ l r => here :: pres l (here ++ [L]) ++ pres r (here ++ [R])
  end.

Fixpoint pre_elems s : list (IPNet A * P) :=
  match s with
  | Null => []
  | TNode k o l r => match o with Some v => [(k, v)] | None => [] end ++ pre_elems l ++ pre_elems r
  end.

Lemma pres_perm s here : pres s here ≡ₚ posts s here.
Proof.
  revert here. induction s as [|k o l IHl r IHr]; intros here; [done|]. simpl.
  rewrite IHl, IHr, app_assoc.
  apply Permutation_cons_append.
Qed.

Lemma pre_elems_perm s : pre_elems s ≡ₚ elems s.
Proof.
  induction s as [|k o l IHl r IHr]; [done|]. simpl.
  by rewrite IHl, IHr, (Permutation_app_comm (match o with _ => _ end)), app_assoc.
Qed.

Lemma pres_elems t s here : node_at here t = s -> omap (entry_at t) (pres s here) = pre_elems s.
Proof.
  revert here. induction s as [|k o l IHl r IHr]; intros here Hs; [done|]. simpl pres.
  rewrite omap_cons', omap_app, IHl, IHr by (by rewrite node_at_app, Hs).
  unfold entry_at. rewrite Hs. by destruct o.
Qed.

(** The nodes still to visit. *)
Definition pend t (stack : list path) : list path :=
  concat (map (fun q => pres (node_at q t) q) stack).

Definition stack_ok t (stack : list path) : Prop := Forall (fun q => node_at q t <> Null) stack.

Lemma push_children_ok t q stack : stack_ok t (q :: stack) ->
  stack_ok t (push_children t q stack) /\ pend t (q :: stack) = q :: pend t (push_children t q stack).
Proof.
  intros Hs. apply Forall_cons in Hs as [Hq Hs]. unfold push_children, pend. simpl.
  destruct (node_at q t) as [|k o l r] eqn:E; [done|].
  assert (forall d, node_at (q ++ [d]) t = child d (TNode k o l r)) as Hd
    by (intros []; by rewrite node_at_app, E).
  simpl. destruct (is_null r) eqn:Er, (is_null l) eqn:El; simpl;
    rewrite ?Hd; simpl; rewrite <- ?app_assoc; try (destruct l; [|done]); try (destruct r; [|done]);
    (split; [|done]); repeat apply Forall_cons_2; try done; rewrite Hd; simpl; intros ->; done.
Qed.

Lemma pre_loop_pend fuel t stack b bs : stack_ok t stack -> (length (pend t stack) <= fuel)%nat ->
  filter (payload_path t) (pend t stack) = b :: bs ->
  exists stack', pre_loop fuel t stack = Some (b, stack') /\ stack_ok t stack'
    /\ bs = filter (payload_path t) (pend t stack')
    /\ (length (pend t stack') < length (pend t stack))%nat.
Proof.
  revert stack. induction fuel as [|fuel IH]; intros stack Hs Hf Hb.
  { destruct (pend t stack); [done|simpl in Hf; lia]. }
  destruct stack as [|q stack]; [done|]. destruct (push_children_ok t q stack Hs) as [Hs' E].
  rewrite E in *. simpl in Hf |- *. destruct (node_has_payload (node_at q t)) eqn:Ep.
  - rewrite filter_cons_True in Hb by done. injection Hb as <- <-. eexists. split; [done|].
    split; [done|]. split; [done|]. lia.
  - rewrite filter_cons_False in Hb by (unfold payload_path; congruence).
    destruct (IH _ Hs') as (stack' & ? & ? & ? & ?); [lia|done|]. exists stack'. auto with lia.
Qed.

Lemma pend_payload t stack : tree_wf t -> stack_ok t stack -> stack <> [] ->
  filter (payload_path t) (pend t stack) <> [].
Proof.
  intros Hw Hs Hne. destruct stack as [|q stack]; [done|]. apply Forall_cons in Hs as [Hq _].
  pose proof (leftmost_payload t (node_at q t) q (node_at_wf q t Hw) Hq eq_refl) as Hp.
  intros E. apply (not_elem_of_nil (leftmost (node_at q t) q)). rewrite <- E.
  apply list_elem_of_filter. split; [done|]. unfold pend. simpl. apply elem_of_app. left.
  rewrite pres_perm. apply head_Some_elem_of. by apply posts_head.
Qed.

Lemma pre_scan_pend fuel t stack : tree_wf t -> stack_ok t stack ->
  (length (pend t stack) <= fuel)%nat -> (length (pend t stack) <= tree_nodes t)%nat ->
  pre_scan fuel t (pre_next t stack) = Some (filter (payload_path t) (pend t stack)).
Proof.
  intros Hw. revert stack. induction fuel as [|fuel IH]; intros stack Hs Hf Hn;
    (destruct stack as [|q stack]; [done|]); pose proof (pend_payload t (q :: stack) Hw Hs) as Hne.
  { destruct (pend t (q :: stack)); [by destruct Hne|simpl in Hf; lia]. }
  destruct (filter (payload_path t) (pend t (q :: stack))) as [|b bs] eqn:Eb; [by destruct Hne|].
  destruct (pre_loop_pend (tree_nodes t) t (q :: stack) b bs Hs Hn Eb) as (stack' & E & Hs' & -> & Hl).
  unfold pre_next. rewrite E. cbn [pre_scan]. rewrite IH by (done || lia). done.
Qed.

(** A pre-order list never has a subnet before one that contains it. *)
Definition entry_not_below (a b : IPNet A * P) : Prop := net_contains b.1 a.1 = false.

Lemma pre_elems_sorted s : tree_wf s -> StronglySorted entry_not_below (pre_elems s).
Proof.
  induction s as [|k o l IHl r IHr]; simpl; [constructor|].
  intros (Hk & _ & Hl & Hr & Wl & Wr).
  assert (forall d c n v, root_ok (in_half d k) c -> tree_wf c -> (n, v) ∈ pre_elems c ->
    net_wf n /\ in_half d k n) as Hin.
  { intros d c n v Hd Hw Hi. rewrite pre_elems_perm in Hi. by apply (elems_half d k c n v). }
  apply sorted_append; [by destruct o; repeat constructor|apply sorted_append; auto|].
  - intros [n v] [n' v'] Hi Hi'. destruct (Hin L l n v Hl Wl Hi) as [Hn I].
    destruct (Hin R r n' v' Hr Wr Hi') as [Hn' I']. unfold entry_not_below. simpl.
    destruct (net_contains n' n) eqn:E; [|done].
    pose proof (in_half_trans R k n' n Hn' Hn I' E) as I2. by pose proof (in_half_unique _ _ k n Hk Hn I I2).
  - intros a [n v] Ha Hi. destruct o; [|by apply not_elem_of_nil in Ha].
    apply list_elem_of_singleton in Ha as ->. unfold entry_not_below. simpl.
    assert (exists d, net_wf n /\ in_half d k n) as (d & Hn & I).
    { apply elem_of_app in Hi as [Hi|Hi]; eauto. }
    destruct (net_contains n k) eqn:E; [|done]. exfalso.
    apply (in_half_neq d k n I). apply contains_antisym; try done. by apply (in_half_contains d).
Qed.
End IterSpec.

Section ScanProps.
Context `{AddrSpec A} {P : Type}.
Implicit Types (t : Trie A P) (key : IPNet A).

Definition entries t (qs : list path) : list (IPNet A * P) := omap (entry_at (root t)) qs.

Lemma default_contains n : net_wf n -> net_contains net_default n = true.
Proof.
  intros Hn. apply contains_iff; [apply net_wf_default|done|].
  pose proof (net_wf_lo n Hn). pose proof (net_wf_hi n Hn).
  destruct a_zero_spec as [_ V].
  assert (net_lo net_default = 0) as Hlo by done.
  assert (net_hi net_default = 2 ^ addr_bitlen - 1) as Hhi.
  { unfold net_hi, net_free. rewrite Hlo. simpl. rewrite Z.sub_0_r. lia. }
  lia.
Qed.

Lemma scan_from_none t key : scan_from t key None = Some [].
Proof. unfold scan_from. by destruct (tree_nodes (root t)). Qed.

Lemma entries_scan t q : trie_ok t ->
  let s := node_at q (root t) in
  let es := entries t (filter (payload_path (root t)) (posts s q)) in
  StronglySorted entry_lt es
  /\ forall n v, (n, v) ∈ es <-> net_wf n /\ model s !! net_id n = Some v.
Proof.
  intros [Hw _] s es. unfold es, entries. rewrite omap_filter, (posts_elems _ s) by done.
  pose proof (node_at_wf q _ Hw) as Ws. fold s in Ws. split; [by apply elems_sorted|].
  intros n v. split.
  - intros Hi. pose proof (elems_wf s n v Ws Hi) as Hn. split; [done|]. by apply elems_model.
  - intros [Hn Hi]. by apply elems_model.
Qed.

(** An entry below a node is an entry of the tree, inside the node's key. *)
Lemma model_below (u : tree A P) q n v : tree_wf u -> net_wf n ->
  model (node_at q u) !! net_id n = Some v ->
  model u !! net_id n = Some v /\ root_ok (fun k => net_contains k n = true) (node_at q u).
Proof.
  intros Hw Hn Hi. split.
  - revert u Hw Hi. induction q as [|d q IH]; intros u Hw Hi; [done|].
    destruct u as [|k o l r]; [by destruct d|]. apply model_node_Some; [done..|]. right.
    destruct Hw as (_ & _ & _ & _ & Wl & Wr). destruct d; [left|right]; by apply IH.
  - destruct (model_in _ _ v (node_at_wf q u Hw) Hi) as (n' & Hn' & En & Hr).
    by apply net_id_inj in En as ->.
Qed.

Lemma scan_top_ok t key q : trie_ok t -> net_wf key -> topmost (root t) key q ->
  (forall n v, net_wf n -> trie_model t !! net_id n = Some v -> net_contains key n = true ->
               model (node_at q (root t)) !! net_id n = Some v) ->
  exists qs, scan_from t key (Some q) = Some qs /\ StronglySorted entry_lt (entries t qs)
    /\ forall n v, (n, v) ∈ entries t qs
       <-> net_wf n /\ net_contains key n = true /\ trie_model t !! net_id n = Some v.
Proof.
  intros Hok Hkey Htop Hall. unfold scan_from. rewrite scan_topmost by (done || apply Hok).
  eexists. split; [done|]. destruct (entries_scan t q Hok) as [Hs He]. split; [done|].
  intros n v. rewrite He. split.
  - intros [Hn Hi]. destruct (model_below _ q n v (proj1 Hok) Hn Hi) as [Hm Hr].
    split; [done|]. split; [|done]. destruct Htop as [Hc _].
    pose proof (node_at_wf q _ (proj1 Hok)) as Wq.
    destruct (node_at q (root t)) as [|k o l r]; [done|]. simpl in *.
    apply (contains_trans key k n); try done. apply Wq.
  - intros (Hn & Hc & Hi). auto.
Qed.

(** The loop from [search_subtree(key)] to [end()] terminates, visits every
    stored subnet inside [key] exactly once, no other, in the increasing order
    of [IPNet::operator<]. *)
Theorem scan_subtree_correct t key : trie_ok t -> net_wf key ->
  exists qs, scan_subtree t key = Some qs /\ StronglySorted entry_lt (entries t qs)
    /\ forall n v, (n, v) ∈ entries t qs
       <-> net_wf n /\ net_contains key n = true /\ trie_model t !! net_id n = Some v.
Proof.
  intros Hok Hkey. unfold scan_subtree, trie_search_subtree.
  assert (forall m : gmap (Z * Z) P, (forall n v, net_wf n -> m !! net_id n = Some v -> net_contains key n = false) ->
    forall n v, (n, v) ∈ entries t [] <-> net_wf n /\ net_contains key n = true /\ m !! net_id n = Some v) as Hnone.
  { intros m Hm n v. split; [by intros ?%not_elem_of_nil|].
    intros (Hn & Hc & Hi). by rewrite (Hm n v) in Hc. }
  destruct (is_null (root t)) eqn:En.
  { exists []. rewrite ?scan_from_none. split; [done|]. split; [constructor|]. apply Hnone. intros n v _ Hi.
    unfold trie_model in Hi. destruct (root t); [|done]. simpl in Hi. by rewrite lookup_empty in Hi. }
  rewrite find_subtree_eq. pose proof (subtree_rec_correct (root t) key (proj1 Hok) Hkey) as Hs.
  destruct (subtree_rec (root t) key) as [q|].
  - destruct Hs as (Hc & Hup & Hall). by apply scan_top_ok.
  - exists []. rewrite ?scan_from_none. split; [done|]. split; [constructor|]. by apply Hnone.
Qed.

(** C30: The loop from [begin()] to [end()] terminates and enumerates the map:
    every stored subnet exactly once, in the increasing order of
    [IPNet::operator<]. *)
Theorem scan_all_correct t : trie_ok t ->
  exists qs, scan_all t = Some qs /\ StronglySorted entry_lt (entries t qs)
    /\ forall n v, (n, v) ∈ entries t qs <-> net_wf n /\ trie_model t !! net_id n = Some v.
Proof.
  intros Hok. unfold scan_all. destruct (is_null (root t)) eqn:En.
  { exists []. rewrite ?scan_from_none. split; [done|]. split; [constructor|]. intros n v.
    unfold trie_model. destruct (root t); [|done]. simpl. rewrite lookup_empty.
    split; [by intros ?%not_elem_of_nil|by intros [_ ?]]. }
  destruct (scan_top_ok t net_default []) as (qs & E & Hs & He); try done; [apply net_wf_default| |].
  - split; [|by intros [|]]. destruct (root t) as [|k o l r] eqn:Er; [done|]. simpl.
    apply default_contains. destruct Hok as [Hw _]. rewrite Er in Hw. apply Hw.
  - exists qs. split; [done|]. split; [done|]. intros n v. rewrite He. split; [by intros (? & _ & ?)|].
    intros [Hn Hi]. split; [done|]. split; [by apply default_contains|done].
Qed.

(** The loop of the pre-order iterator terminates and enumerates the map,
    each stored subnet exactly once and never after a subnet inside it. *)
Theorem pre_scan_all_correct t : trie_ok t ->
  exists qs, pre_scan_all t = Some qs /\ StronglySorted entry_not_below (entries t qs)
    /\ NoDup (entries t qs)
    /\ forall n v, (n, v) ∈ entries t qs <-> net_wf n /\ trie_model t !! net_id n = Some v.
Proof.
  intros Hok. unfold pre_scan_all.
  assert (forall u : tree A P, tree_wf u -> NoDup (elems u)) as Hnd.
  { intros u Hu. pose proof (elems_sorted u Hu) as Hs.
    assert (forall n v, (n, v) ∈ elems u -> net_wf n) as Hwf by (intros n v; by apply elems_wf).
    induction Hs as [|[n v] l Hs IH Hx]; constructor; [|apply IH; intros n' v' ?; apply (Hwf n' v'); by right].
    intros Hi. rewrite Forall_forall in Hx. specialize (Hx _ Hi). unfold entry_lt in Hx. simpl in Hx.
    rewrite ltb_irrefl in Hx; [done|]. apply (Hwf n v). by left. }
  assert (forall es, es ≡ₚ elems (root t) -> NoDup es
    /\ forall n v, (n, v) ∈ es <-> net_wf n /\ trie_model t !! net_id n = Some v) as Hel.
  { intros es E. rewrite E. split; [apply Hnd, Hok|]. intros n v. rewrite E. split.
    - intros Hi. pose proof (elems_wf _ n v (proj1 Hok) Hi). split; [done|]. by apply elems_model; [apply Hok|..].
    - intros [Hn Hi]. by apply elems_model; [apply Hok|..]. }
  destruct (is_null (root t)) eqn:En.
  { exists []. rewrite ?scan_from_none. split; [done|]. split; [constructor|]. apply Hel. by destruct (root t). }
  exists (filter (payload_path (root t)) (pend (root t) [[]])). split.
  - unfold pre_begin. simpl climb. assert (length (pend (root t) [[]]) = tree_nodes (root t)) as Hlen.
    { unfold pend. simpl. rewrite app_nil_r, (Permutation_length (pres_perm _ _)). apply posts_length. }
    apply pre_scan_pend; [apply Hok| |lia..]. constructor; [|constructor]. by destruct (root t).
  - unfold entries. rewrite omap_filter. unfold pend. simpl. rewrite app_nil_r, (pres_elems _ (root t)) by done.
    split; [apply pre_elems_sorted, Hok|]. apply Hel, pre_elems_perm.
Qed.
End ScanProps.

(** ** Witnesses *)

Lemma scan_subtree_correct_witness :
  exists qs, scan_subtree sample_trie (net4 10 1 0 0 16) = Some qs
    /\ StronglySorted entry_lt (entries sample_trie qs)
    /\ forall n v, (n, v) ∈ entries sample_trie qs
       <-> net_wf n /\ net_contains (net4 10 1 0 0 16) n = true /\ trie_model sample_trie !! net_id n = Some v.
Proof. apply (scan_subtree_correct sample_trie (net4 10 1 0 0 16) sample_trie_ok). by_eval. Defined.

Lemma scan_all_correct_witness :
  exists qs, scan_all sample_trie = Some qs /\ StronglySorted entry_lt (entries sample_trie qs)
    /\ forall n v, (n, v) ∈ entries sample_trie qs <-> net_wf n /\ trie_model sample_trie !! net_id n = Some v.
Proof. apply (scan_all_correct sample_trie sample_trie_ok). Defined.

Lemma pre_scan_all_correct_witness :
  exists qs, pre_scan_all sample_trie = Some qs
    /\ StronglySorted entry_not_below (entries sample_trie qs) /\ NoDup (entries sample_trie qs)
    /\ forall n v, (n, v) ∈ entries sample_trie qs <-> net_wf n /\ trie_model sample_trie !! net_id n = Some v.
Proof. apply (pre_scan_all_correct sample_trie sample_trie_ok). Defined.
