(* ===== verification/TrieBounds.v ===== *)
(** * Ranges and lower bounds in the trie (libxorp/trie.hh)

    [TrieNode::find_bounds], [TrieNode::lower_bound] and [Trie::unbind_root]:
    the lower end of the range [find_bounds] returns is proved exact; the upper
    end, [lower_bound] on an absent key and [unbind_root] do not do what their
    comments say, shown on concrete tries. *)

From Stdlib Require Import ZArith Lia.
From stdpp Require Import base tactics option list numbers gmap.
From S2P Require Import Prelude Word32 Addr IPv4 IPNet Sample Trie TrieSpec TrieMap TrieIter.
Local Open Scope Z_scope.

Section LowerBound.
Context `{AddrOps A} {P : Type}.
Implicit Types (t : tree A P) (key : IPNet A).

(** The descent of [TrieNode::lower_bound]: the last node that contains the key,
    with or without a payload. *)
Fixpoint lb_loop t key (here : path) (cand : option path) : option path :=
  match t with
  | Null => cand
  | TNode k _ l r =>
      if net_contains k key then
        if child_contains l key then lb_loop l key (here ++ [L]) (Some here)
        else lb_loop r key (here ++ [R]) (Some here)
      else cand
  end.

(** [key < child->_k], false on the null pointer. *)
Definition key_before key t : bool :=
  match t with Null => false | TNode k _ _ _ => net_ltb key k end.

(** The climb; the path is read from its last step. *)
Fixpoint lb_climb t key (rq : path) : option path :=
  let q := rev rq in
  match node_at q t with
  | Null => None
  | TNode _ _ l r =>
      if key_before key l then Some (leftmost l (q ++ [L]))
      else if key_before key r then Some (leftmost r (q ++ [R]))
      else match rq with [] => None | _ :: up => lb_climb t key up end
  end.

(** The outer [None] is an exhausted fuel of the iterator. *)
Definition node_lower_bound t key : option (option path) :=
  let cand := match lb_loop t key [] None with Some q => q | None => [] end in
  match node_at cand t with
  | Null => Some None
  | TNode k p _ _ =>
      if net_eqb k key then
        if has_payload p then Some (Some cand)
        else post_next (S (tree_nodes t)) t net_default (post_begin t net_default cand)
      else Some (lb_climb t key (rev cand))
  end.

Definition trie_lower_bound (t : Trie A P) key : option (option path) := node_lower_bound (root t) key.

(** [Trie::unbind_root]: the constructor of the iterator calls [begin()]. *)
Definition trie_unbind_root (t : Trie A P) (i : path) : path :=
  post_begin (root t) (match root t with TNode k _ _ _ => k | Null => net_default end) i.
End LowerBound.

Section BoundsSpec.
Context `{AddrSpec A} {P : Type}.
Implicit Types (t s l r : tree A P) (a b : A).

(** [low] and [high] are the ends of the entries of a subtree. *)
Lemma high_spec t : tree_wf t -> t <> Null -> exists h, high t = Some h /\ a_wf h
  /\ (forall n v, net_wf n -> model t !! net_id n = Some v -> net_hi n <= a_val h)
  /\ (exists n v, net_wf n /\ model t !! net_id n = Some v /\ net_hi n = a_val h)
  /\ root_ok (fun k => a_val h <= net_hi k) t.
Proof.
  induction t as [|k o l IHl r IHr]; intros Hw Hn; [done|]. simpl.
  pose proof Hw as (Hk & Ho & Hl & Hr & Wl & Wr).
  destruct (has_payload o || (is_null l && is_null r)) eqn:E.
  - destruct o as [v|]; [|destruct (Ho eq_refl); by destruct l, r].
    destruct (top_addr_spec k Hk) as [W V]. exists (top_addr k). split; [done|]. split; [done|].
    rewrite V. split; [|split; [|lia]].
    + intros n w Wn Hi. destruct (model_in _ _ w Hw Hi) as (n' & Wn' & En & Hc).
      apply net_id_inj in En as ->; [|done..]. simpl in Hc. apply contains_iff in Hc; [lia|done..].
    + exists k, v. split; [done|]. split; [|done]. by rewrite lookup_insert_eq.
  - destruct o as [v|]; [done|]. destruct (Ho eq_refl) as [Nl Nr].
    destruct (is_null r) eqn:Er; [by destruct r|].
    destruct (IHr Wr Nr) as (h & Eh & Wh & Hmax & (n0 & v0 & Wn0 & Hi0 & Eh0) & Hroot).
    exists h. split; [done|]. split; [done|].
    assert (forall n v, net_wf n -> model r !! net_id n = Some v -> net_hi n <= net_hi k) as Htop.
    { intros n v Wn Hi. destruct (model_half R k r n v Hr Wr Wn Hi) as [? ?].
      assert (net_contains k n = true) as C by (by apply (in_half_contains R)). apply contains_iff in C; [lia|done..]. }
    split; [|split].
    + intros n v Wn Hi. apply (model_node_Some k None l r n v Hw Wn) in Hi as [[_ ?]|[Hi|Hi]]; [done| |by eauto].
      pose proof (in_half_range L k n Hk Wn (model_half L k l n v Hl Wl Wn Hi)).
      pose proof (in_half_range R k n0 Hk Wn0 (model_half R k r n0 v0 Hr Wr Wn0 Hi0)).
      pose proof (net_wf_lo n0 Wn0). simpl in *. lia.
    + exists n0, v0. split; [done|]. split; [|done]. by apply (model_node_Some k None l r n0 v0 Hw Wn0); auto.
    + rewrite <- Eh0. by apply (Htop n0 v0).
Qed.

Lemma entry_range k o l r n v : let t := TNode k o l r in
  tree_wf t -> net_wf n -> model t !! net_id n = Some v -> net_lo k <= net_lo n /\ net_hi n <= net_hi k.
Proof.
  intros t Hw Hn Hi. destruct (model_in t _ v Hw Hi) as (n' & Wn' & En & Hc).
  apply net_id_inj in En as ->; [|done..]. simpl in Hc. apply contains_iff in Hc; [done|apply Hw|done].
Qed.

Lemma cmp_addr_lo a k : a_wf a -> net_wf k -> a_ltb a (masked_addr k) = (a_val a <? net_lo k).
Proof. intros Ha Hk. by rewrite a_ltb_spec by (done || apply Hk). Qed.
Lemma cmp_addr_hi a k : a_wf a -> net_wf k -> a_leb a (top_addr k) = (a_val a <=? net_hi k).
Proof. intros Ha Hk. destruct (top_addr_spec k Hk) as [W V]. by rewrite a_leb_spec, V. Qed.

(** Entries of the children of a node. *)
Definition below l r n : Prop :=
  exists v, net_wf n /\ (model l !! net_id n = Some v \/ model r !! net_id n = Some v).

(** [lo'] is the lower end of the range of [a] inside a node that starts at [lo]:
    nothing below the node meets [[lo', a]], and [lo'] cannot be smaller. *)
Definition lower_post (E : IPNet A -> Prop) a (lo lo' : A) : Prop :=
  a_wf lo' /\ a_val lo <= a_val lo' <= a_val a
  /\ (forall n, E n -> forall z, a_val lo' <= z <= a_val a -> ~ in_net z n)
  /\ (lo' = lo \/ exists n, E n /\ in_net (a_val lo' - 1) n).

(** The entries of a child that ends before [a]. *)
Lemma lower_after k o l r a lo : let t := TNode k o l r in
  tree_wf t -> a_wf a -> a_wf lo -> a_val lo <= net_lo k -> net_hi k < a_val a ->
  lower_post (fun n => exists v, net_wf n /\ model t !! net_id n = Some v) a lo (inc_opt (high t) lo).
Proof.
  intros t Hw Ha Hlo Hle Hlt.
  destruct (high_spec t Hw) as (h & -> & Wh & Hmax & (n0 & v0 & Wn0 & Hi0 & Eh) & Hr); [done|]. simpl in Hr |- *.
  pose proof (a_val_range a Ha). pose proof (a_val_range h Wh).
  destruct (a_inc_spec h Wh) as [W V]. rewrite Z.mod_small in V by lia.
  destruct (entry_range k o l r n0 v0 Hw Wn0 Hi0). pose proof (net_wf_lo n0 Wn0).
  split; [done|]. split; [lia|]. split.
  - intros n (v & Wn & Hi) b Hb I. specialize (Hmax n v Wn Hi). unfold in_net in I. lia.
  - right. exists n0. split; [by exists v0|]. unfold in_net. lia.
Qed.

(** Adding entries that lie after [a], or before [lo']. *)
Lemma lower_mono (E E' : IPNet A -> Prop) a lo lo' : lower_post E a lo lo' ->
  (forall n, E n -> E' n) ->
  (forall n, E' n -> E n \/ a_val a < net_lo n \/ net_hi n < a_val lo') -> lower_post E' a lo lo'.
Proof.
  intros (W & Hr & Hno & Ht) Hsub Hsup. split; [done|]. split; [done|]. split.
  - intros n Hn b Hb I. destruct (Hsup n Hn) as [He|Ho]; [by apply (Hno n He b)|].
    unfold in_net in I. lia.
  - destruct Ht as [?|(n & He & I)]; [by left|right; eauto].
Qed.

(** Raising [lo] to the end of earlier entries first. *)
Lemma lower_trans (E1 E2 : IPNet A -> Prop) a lo lo1 lo' :
  lower_post E1 a lo lo1 -> lower_post E2 a lo1 lo' ->
  lower_post (fun n => E1 n \/ E2 n) a lo lo'.
Proof.
  intros (W1 & R1 & N1 & T1) (W2 & R2 & N2 & T2). split; [done|]. split; [lia|]. split.
  - intros n [Hn|Hn] b Hb; [apply (N1 n Hn); lia|by apply (N2 n Hn)].
  - destruct T2 as [->|(n & Hn & I)]; [|right; eauto].
    destruct T1 as [->|(n & Hn & I)]; [by left|right; eauto].
Qed.

Lemma lower_nil (E : IPNet A -> Prop) a lo : a_wf lo -> a_val lo <= a_val a ->
  (forall n, E n -> a_val a < net_lo n) -> lower_post E a lo lo.
Proof.
  intros W Hle He. split; [done|]. split; [lia|]. split; [|by left].
  intros n Hn b Hb I. specialize (He n Hn). unfold in_net in I. lia.
Qed.

Definition entry t n : Prop := exists v, net_wf n /\ model t !! net_id n = Some v.

(** The children of a node between which the loop chooses. *)
Definition siblings l r : Prop :=
  tree_wf l /\ tree_wf r
  /\ match l, r with TNode lk _ _ _, TNode rk _ _ _ => net_hi lk < net_lo rk | _, _ => True end.

Lemma node_siblings k o l r : tree_wf (TNode k o l r) -> siblings l r.
Proof.
  intros (Hk & _ & Hl & Hr & Wl & Wr). split; [done|]. split; [done|].
  destruct l as [|lk lo ll lr], r as [|rk ro rl rr]; try done. simpl in *.
  pose proof (in_half_range L k lk Hk (proj1 Wl) Hl).
  pose proof (in_half_range R k rk Hk (proj1 Wr) Hr). simpl in *. lia.
Qed.

Lemma entry_bounds k o l r n : tree_wf (TNode k o l r) -> entry (TNode k o l r) n ->
  net_lo k <= net_lo n /\ net_lo n <= net_hi n <= net_hi k.
Proof.
  intros Hw (v & Wn & Hi). pose proof (entry_range k o l r n v Hw Wn Hi).
  pose proof (net_wf_lo n Wn). lia.
Qed.

Lemma entry_null n : ~ entry Null n.
Proof. intros (v & _ & Hi). simpl in Hi. by rewrite lookup_empty in Hi. Qed.

(** A node of which no entry holds [a] although its key does has no payload. *)
Lemma entry_node k o l r a n : tree_wf (TNode k o l r) -> in_net (a_val a) k ->
  (forall n, entry (TNode k o l r) n -> ~ in_net (a_val a) n) ->
  entry (TNode k o l r) n <-> entry l n \/ entry r n.
Proof.
  intros Hw I Hno. split.
  - intros (v & Wn & Hi). pose proof Hi as Hi'. apply model_node_Some in Hi as [[-> _]|[?|?]]; try done.
    + destruct (Hno k); [by exists v|done].
    + left. by exists v.
    + right. by exists v.
  - intros [(v & Wn & Hi)|(v & Wn & Hi)]; exists v; (split; [done|]); apply model_node_Some; auto.
Qed.

(** What the loop guarantees from a node. *)
Definition loop_lower a s : Prop :=
  match s with
  | Null => True
  | TNode k o l r => forall lo hi, siblings l r -> a_wf lo -> a_val lo <= a_val a ->
      root_ok (fun x => a_val lo <= net_lo x) l -> root_ok (fun x => a_val lo <= net_lo x) r ->
      (forall n, entry l n \/ entry r n -> ~ in_net (a_val a) n) ->
      lower_post (fun n => entry l n \/ entry r n) a lo (fst (bounds_loop s a lo hi))
  end.

Lemma root_ok_lo d k o l r (z : Z) : tree_wf (TNode k o l r) -> z <= net_lo k ->
  root_ok (fun x => z <= net_lo x) (child d (TNode k o l r)).
Proof.
  intros Hw Hz. pose proof Hw as (Hk & _ & Hl & Hr & Wl & Wr).
  assert (forall c : tree A P, root_ok (in_half d k) c -> tree_wf c -> root_ok (fun x => z <= net_lo x) c) as Hc.
  { intros [|xk xo xl xr] I W; [done|]. simpl in *.
    pose proof (in_half_contains d k xk Hk (proj1 W) I) as C.
    apply contains_iff in C; [lia|done|apply W]. }
  destruct d; simpl; auto.
Qed.

(** The descent into a child that holds [a]. *)
Lemma bounds_descend a c lo hi : loop_lower a c -> tree_wf c -> a_wf lo -> c <> Null ->
  root_ok (fun x => a_val lo <= net_lo x) c -> root_ok (in_net (a_val a)) c ->
  (forall n, entry c n -> ~ in_net (a_val a) n) ->
  lower_post (entry c) a lo (fst (bounds_loop c a lo hi)).
Proof.
  intros Hll Hw Hlo Hn Lc I Hno. destruct c as [|k o l r]; [done|]. simpl in Lc, I.
  pose proof (fun n => entry_node k o l r a n Hw I Hno) as Hent.
  apply (lower_mono (fun n => entry l n \/ entry r n)).
  - apply Hll; [by eapply node_siblings|done|unfold in_net in I; lia|
      by apply (root_ok_lo L k o l r)|by apply (root_ok_lo R k o l r)|].
    intros n He. apply Hno. by apply Hent.
  - intros n. apply Hent.
  - intros n He. left. by apply Hent.
Qed.

(** The turns of the loop. *)
Lemma bounds_loop_one k (o : option P) a lo hi d xk xo xl xr : let x := TNode xk xo xl xr in
  bounds_loop (match d with L => TNode k o x Null | R => TNode k o Null x end) a lo hi
  = if a_ltb a (masked_addr xk) then (lo, dec_opt (low x) hi)
    else if a_leb a (top_addr xk) then bounds_loop x a lo hi
    else (inc_opt (high x) lo, hi).
Proof. by destruct d. Qed.

Lemma bounds_loop_two k (o : option P) a lo hi lk lo' ll lr rk ro rl rr :
  let l := TNode lk lo' ll lr in let r := TNode rk ro rl rr in
  bounds_loop (TNode k o l r) a lo hi
  = if a_ltb a (masked_addr lk) then (lo, dec_opt (low l) hi)
    else if a_leb a (top_addr lk) then bounds_loop l a lo hi
    else if a_ltb a (masked_addr rk) then (inc_opt (high l) lo, dec_opt (low r) hi)
    else if a_leb a (top_addr rk) then
      bounds_loop r a (if a_gtb a (top_addr lk) then inc_opt (high l) lo else lo) hi
    else (inc_opt (high r) lo, hi).
Proof. done. Qed.

Lemma lower_one k o d x a lo hi : x <> Null -> tree_wf x -> loop_lower a x -> a_wf a -> a_wf lo ->
  a_val lo <= a_val a -> root_ok (fun y => a_val lo <= net_lo y) x ->
  (forall n, entry x n -> ~ in_net (a_val a) n) ->
  lower_post (entry x) a lo
    (fst (bounds_loop (match d with L => TNode k o x Null | R => TNode k o Null x end) a lo hi)).
Proof.
  intros Hx Wx IH Ha Hlo Hle Lx Hno. destruct x as [|xk xo xl xr]; [done|].
  rewrite bounds_loop_one, cmp_addr_lo, cmp_addr_hi by (done || apply Wx).
  destruct (Z.ltb_spec (a_val a) (net_lo xk)); cbn [fst].
  - apply lower_nil; [done..|]. intros n He. pose proof (entry_bounds _ _ _ _ _ Wx He). lia.
  - destruct (Z.leb_spec (a_val a) (net_hi xk)).
    + by apply bounds_descend.
    + apply lower_after; done.
Qed.

Lemma lower_two k o l r a lo hi : l <> Null -> r <> Null -> siblings l r ->
  loop_lower a l -> loop_lower a r -> a_wf a -> a_wf lo -> a_val lo <= a_val a ->
  root_ok (fun y => a_val lo <= net_lo y) l ->
  (forall n, entry l n \/ entry r n -> ~ in_net (a_val a) n) ->
  lower_post (fun n => entry l n \/ entry r n) a lo (fst (bounds_loop (TNode k o l r) a lo hi)).
Proof.
  intros Hl Hr (Wl & Wr & Hsep) IHl IHr Ha Hlo Hle Ll Hno.
  destruct l as [|lk lo' ll lr]; [done|]. destruct r as [|rk ro rl rr]; [done|].
  rewrite bounds_loop_two, !cmp_addr_lo, !cmp_addr_hi by (done || apply Wl || apply Wr).
  pose proof (fun n => entry_bounds lk lo' ll lr n Wl) as Bl.
  pose proof (fun n => entry_bounds rk ro rl rr n Wr) as Br.
  pose proof (net_wf_lo lk (proj1 Wl)). pose proof (net_wf_lo rk (proj1 Wr)). simpl in Ll.
  assert (a_gtb a (top_addr lk) = (net_hi lk <? a_val a)) as ->.
  { unfold a_gtb. destruct (top_addr_spec lk (proj1 Wl)) as [W V]. by rewrite a_ltb_spec, V. }
  destruct (Z.ltb_spec (a_val a) (net_lo lk)); cbn [fst].
  { apply lower_nil; [done..|]. intros n [He|He]; [specialize (Bl n He)|specialize (Br n He)]; lia. }
  destruct (Z.leb_spec (a_val a) (net_hi lk)).
  { apply (lower_mono (entry (TNode lk lo' ll lr))); [|by auto|].
    - apply bounds_descend; try done. by auto.
    - intros n [He|He]; [by left|]. specialize (Br n He). lia. }
  assert (lower_post (entry (TNode lk lo' ll lr)) a lo (inc_opt (high (TNode lk lo' ll lr)) lo)) as Hla
    by (by apply lower_after).
  generalize dependent (inc_opt (high (TNode lk lo' ll lr)) lo). intros lo1 Hla.
  destruct (Z.ltb_spec (a_val a) (net_lo rk)); cbn [fst].
  { apply (lower_mono _ _ _ _ _ Hla); [by auto|].
    intros n [He|He]; [by left|]. specialize (Br n He). lia. }
  destruct (Z.ltb_spec (net_hi lk) (a_val a)); [|lia].
  destruct (Z.leb_spec (a_val a) (net_hi rk)); cbn [fst].
  - apply (lower_trans _ _ a lo _ _ Hla). destruct Hla as (W1 & R1 & _ & T1).
    apply bounds_descend; try done; [|by auto]. simpl.
    destruct T1 as [->|(n & He & I)]; [lia|]. specialize (Bl n He). unfold in_net in I. lia.
  - assert (lower_post (entry (TNode rk ro rl rr)) a lo (inc_opt (high (TNode rk ro rl rr)) lo)) as Hra
      by (apply lower_after; done || lia).
    apply (lower_mono _ _ _ _ _ Hra); [by auto|].
    intros n [He|He]; [|by left]. right; right. specialize (Bl n He).
    destruct (high_spec _ Wr Hr) as (_ & _ & _ & _ & (n0 & v0 & Wn0 & Hi0 & _) & _).
    assert (entry (TNode rk ro rl rr) n0) as He0 by (by exists v0). specialize (Br n0 He0).
    destruct Hra as (_ & _ & N & _). pose proof (N n0 He0 (net_lo n0)) as N0. unfold in_net in N0. lia.
Qed.

Lemma bounds_lower a s : a_wf a -> loop_lower a s.
Proof.
  intros Ha. induction s as [|k o l IHl r IHr]; [done|].
  intros lo hi (Wl & Wr & Hsep) Hlo Hle Ll Lr Hno.
  destruct (is_null l) eqn:El, (is_null r) eqn:Er.
  - destruct l, r; try done. apply lower_nil; [done..|]. intros n [He|He]; by apply entry_null in He.
  - destruct l; [|done]. apply (lower_mono (entry r)); [|by right|].
    + apply (lower_one k o R); try done; [by destruct r|by auto].
    + intros n [He|He]; [by apply entry_null in He|by left].
  - destruct r; [|done]. apply (lower_mono (entry l)); [|by left|].
    + apply (lower_one k o L); try done; [by destruct l|by auto].
    + intros n [He|He]; [by left|by apply entry_null in He].
  - apply lower_two; try done; [by destruct l|by destruct r].
Qed.
End BoundsSpec.

Section BoundsProps.
Context `{AddrSpec A} {P : Type}.
Implicit Types (t : Trie A P) (a b : A).

(** The route of an address: the entry of [find]. *)
Definition route t a : option (IPNet A * P) :=
  match trie_find_addr t a with Some q => entry_at (root t) q | None => None end.

Lemma route_spec t a : trie_ok t -> a_wf a ->
  match route t a with
  | Some (k, v) => net_wf k /\ trie_model t !! net_id k = Some v /\ in_net (a_val a) k
      /\ forall n w, net_wf n -> trie_model t !! net_id n = Some w -> in_net (a_val a) n ->
                     prefix_len n <= prefix_len k
  | None => forall n w, net_wf n -> trie_model t !! net_id n = Some w -> ~ in_net (a_val a) n
  end.
Proof.
  intros Hok Ha. pose proof (find_addr_cases t a Hok Ha) as Hf. unfold route.
  destruct (trie_find_addr t a) as [q|]; [|done].
  destruct Hf as (k & v & l & r & Hat & Hi & I & Hmax). unfold entry_at. rewrite Hat.
  split; [|done]. apply (node_at_model q (root t) k v l r (proj1 Hok) Hat).
Qed.

(** An address has the route [k] as soon as [k] is the longest match. *)
Lemma route_unique t a k v : trie_ok t -> a_wf a -> net_wf k ->
  trie_model t !! net_id k = Some v -> in_net (a_val a) k ->
  (forall n w, net_wf n -> trie_model t !! net_id n = Some w -> in_net (a_val a) n ->
               prefix_len n <= prefix_len k) -> route t a = Some (k, v).
Proof.
  intros Hok Ha Hk Hi I Hmax. pose proof (route_spec t a Hok Ha) as Hr.
  destruct (route t a) as [[k' v']|].
  - destruct Hr as (Hk' & Hi' & I' & Hmax'). pose proof (Hmax k' v' Hk' Hi' I'). pose proof (Hmax' k v Hk Hi I).
    assert (k' = k) as -> by (apply net_eq; [done..|lia|];
      rewrite in_net_align in I, I' by done; rewrite <- I, <- I'; f_equal; unfold net_free; lia).
    congruence.
  - by destruct (Hr k v Hk Hi).
Qed.

Lemma find_none t a : trie_ok t -> a_wf a -> trie_find_addr t a = None <-> route t a = None.
Proof.
  intros Hok Ha. pose proof (find_addr_cases t a Hok Ha) as Hf. unfold route.
  destruct (trie_find_addr t a) as [q|]; [|done].
  destruct Hf as (k & v & l & r & Hat & _). unfold entry_at. by rewrite Hat.
Qed.

(** The entries inside the key of a node are below the node. *)
Lemma model_at (u : tree A P) q k o l r n v : tree_wf u -> node_at q u = TNode k o l r -> net_wf n ->
  model u !! net_id n = Some v -> net_contains k n = true -> model (TNode k o l r) !! net_id n = Some v.
Proof.
  intros Hw Hat Hn Hi Hc. revert u Hw Hat Hi.
  induction q as [|d q IH]; intros [|uk uo ul ur] Hw Hat Hi; simpl in Hat; try done; try (by destruct d).
  { by rewrite <- Hat. }
  pose proof Hw as (Huk & _ & Hl & Hr & Wl & Wr).
  assert (in_half d uk n) as I.
  { destruct (node_at_half d q uk (child d (TNode uk uo ul ur)) k o l r) as [Hk I]; [by destruct d..|].
    by apply (in_half_trans d uk k n). }
  apply (IH (child d (TNode uk uo ul ur))); [by destruct d..|].
  apply (model_node_Some uk uo ul ur n v Hw Hn) in Hi as [[-> _]|[Hi|Hi]]; [by apply in_half_neq in I| |];
    (destruct d; [|]); simpl; try done.
  - by pose proof (in_half_unique _ _ uk n Huk Hn I (model_half L uk ul n v Hl Wl Hn Hi)).
  - by pose proof (in_half_unique _ _ uk n Huk Hn I (model_half R uk ur n v Hr Wr Hn Hi)).
Qed.

(** The entries below the node of a route are the more specific ones inside it. *)
Lemma below_iff t q k v l r n : trie_ok t -> node_at q (root t) = TNode k (Some v) l r ->
  entry l n \/ entry r n <->
  exists w, net_wf n /\ trie_model t !! net_id n = Some w /\ net_contains k n = true
            /\ prefix_len k < prefix_len n.
Proof.
  intros [Hw _] Hat. pose proof (node_at_wf q _ Hw) as Wn. rewrite Hat in Wn.
  pose proof Wn as (Hk & _ & Hl & Hr & Wl & Wr). split.
  - intros [(w & Hn & Hi)|(w & Hn & Hi)]; exists w.
    + pose proof (model_half L k l n w Hl Wl Hn Hi) as I. split; [done|]. split; [|split; [by eapply in_half_contains|apply I]].
      apply (model_below _ q n w Hw Hn). rewrite Hat. apply model_node_Some; auto.
    + pose proof (model_half R k r n w Hr Wr Hn Hi) as I. split; [done|]. split; [|split; [by eapply in_half_contains|apply I]].
      apply (model_below _ q n w Hw Hn). rewrite Hat. apply model_node_Some; auto.
  - intros (w & Hn & Hi & Hc & Hp). apply (model_at _ q k (Some v) l r n w Hw Hat Hn) in Hi; [|done].
    apply model_node_Some in Hi as [[-> _]|[Hi|Hi]]; [lia|left|right|done..]; by exists w.
Qed.

Lemma find_bounds_some t a q k v l r : trie_ok t -> a_wf a ->
  trie_find_addr t a = Some q -> node_at q (root t) = TNode k (Some v) l r -> net_wf k ->
  in_net (a_val a) k ->
  (forall n w, net_wf n -> trie_model t !! net_id n = Some w -> in_net (a_val a) n ->
               prefix_len n <= prefix_len k) ->
  lower_post (fun n => entry l n \/ entry r n) a (masked_addr k) (fst (trie_find_bounds t a)).
Proof.
  intros Hok Ha Hf Hat Hk I Hmax. unfold trie_find_bounds, node_find_bounds.
  assert (node_find (root t) (host_key a) = Some q) as ->.
  { unfold trie_find_addr, trie_find in Hf. by destruct (is_null (root t)). }
  pose proof (node_at_wf q _ (proj1 Hok)) as Wn. rewrite Hat in Wn |- *.
  assert (a_val (masked_addr k) = net_lo k) as Hlo by done.
  apply (bounds_lower a (TNode k (Some v) l r) Ha);
    [by eapply node_siblings|apply Hk|unfold in_net in I; lia|apply (root_ok_lo L k (Some v) l r); lia || done
    |apply (root_ok_lo R k (Some v) l r); lia || done|].
  intros n Hb In. apply (below_iff t q k v l r n Hok Hat) in Hb as (w & Hn & Hi & _ & Hp).
  specialize (Hmax n w Hn Hi In). lia.
Qed.

Lemma find_bounds_none t a : trie_ok t -> a_wf a -> trie_find_addr t a = None ->
  lower_post (entry (root t)) a a_zero (fst (trie_find_bounds t a)).
Proof.
  intros Hok Ha Hf. unfold trie_find_bounds, node_find_bounds.
  pose proof (find_addr_cases t a Hok Ha) as Hno. rewrite Hf in Hno.
  assert (node_find (root t) (host_key a) = None) as ->.
  { unfold trie_find_addr, trie_find in Hf. by destruct (root t). }
  destruct a_zero_spec as [W0 V0]. pose proof (a_val_range a Ha).
  apply (lower_mono (fun n => entry (root t) n \/ entry (@Null A P) n)).
  - apply (bounds_lower a (TNode net_default None (root t) Null) Ha).
    + split; [apply Hok|]. split; [done|]. by destruct (root t).
    + done.
    + simpl. lia.
    + destruct (root t) as [|k o l r] eqn:E; [done|]. simpl. rewrite V0. apply net_wf_lo.
      destruct Hok as [Hw _]. rewrite E in Hw. apply Hw.
    + done.
    + intros n [(w & Hn & Hi)|He]; [by apply (Hno n w)|by apply entry_null in He].
  - intros n [?|He]; [done|by apply entry_null in He].
  - auto.
Qed.

(** The lower end of [find_bounds] is exact: every address from [lo] to
    [a] has the route of [a], and the address before [lo], if there is one,
    has another route. *)
Theorem find_bounds_lower t a lo hi : trie_ok t -> a_wf a -> trie_find_bounds t a = (lo, hi) ->
  a_wf lo /\ a_val lo <= a_val a
  /\ (forall b, a_wf b -> a_val lo <= a_val b <= a_val a -> route t b = route t a)
  /\ (forall b, a_wf b -> a_val b = a_val lo - 1 -> route t b <> route t a).
Proof.
  intros Hok Ha E. pose proof (find_addr_cases t a Hok Ha) as Hf.
  destruct (trie_find_addr t a) as [q|] eqn:Ef.
  - destruct Hf as (k & v & l & r & Hat & Hi & I & Hmax).
    assert (net_wf k) as Hk by (apply (node_at_model q (root t) k v l r (proj1 Hok) Hat)).
    destruct (find_bounds_some t a q k v l r Hok Ha Ef Hat Hk I Hmax) as (W & Rg & Hno & Ht).
    rewrite E in W, Rg, Hno, Ht. cbn [fst] in *. rewrite (route_unique t a k v) by done.
    split; [done|]. split; [lia|]. split.
    + intros b Hb Rb. assert (in_net (a_val b) k) as Ib.
      { unfold in_net in I |- *. assert (a_val (masked_addr k) = net_lo k) by done. lia. }
      apply route_unique; try done. intros n w Hn Hin In.
      destruct (Z.le_gt_cases (prefix_len n) (prefix_len k)); [done|]. exfalso.
      apply (Hno n) with (z := a_val b); [|done..]. apply (below_iff t q k v l r n Hok Hat).
      exists w. split; [done|]. split; [done|]. split; [|lia].
      apply contains_iff; [done..|]. apply (nets_laminar k n (a_val b)); done || lia.
    + intros b Hb Eb Hr. pose proof (route_spec t b Hok Hb) as Hs. rewrite Hr in Hs.
      destruct Hs as (_ & _ & Ib & Hmaxb). destruct Ht as [->|(n & He & In)].
      * assert (a_val (masked_addr k) = net_lo k) by done. unfold in_net in Ib. lia.
      * apply (below_iff t q k v l r n Hok Hat) in He as (w & Hn & Hin & _ & Hp).
        rewrite <- Eb in In. specialize (Hmaxb n w Hn Hin In). lia.
  - destruct (find_bounds_none t a Hok Ha Ef) as (W & Rg & Hno & Ht).
    rewrite E in W, Rg, Hno, Ht. cbn [fst] in *.
    assert (route t a = None) as -> by (by apply find_none).
    split; [done|]. split; [lia|]. split.
    + intros b Hb Rb. pose proof (route_spec t b Hok Hb) as Hs.
      destruct (route t b) as [[n w]|]; [|done]. destruct Hs as (Hn & Hin & In & _).
      by destruct (Hno n) with (z := a_val b); [by exists w|..].
    + intros b Hb Eb Hr. pose proof (route_spec t b Hok Hb) as Hs. rewrite Hr in Hs.
      destruct a_zero_spec as [_ V0]. pose proof (a_val_range b Hb).
      destruct Ht as [->|(n & (w & Hn & Hin) & In)]; [lia|]. rewrite <- Eb in In. by destruct (Hs n w).
Qed.

(** The climb under the key of the root reaches the root. *)
Lemma climb_root (u : tree A P) k o l r rq : tree_wf u -> u = TNode k o l r ->
  node_at (rev rq) u <> Null -> climb u k rq = [].
Proof.
  intros Hw Eu. induction rq as [|d up IH]; intros Hn; [done|]. simpl in *.
  rewrite node_at_app in Hn.
  assert (node_at (rev up) u <> Null) as Hup by (intros E; rewrite E in Hn; by destruct d).
  destruct (key_contains k (node_at (rev up) u)) eqn:E; [by apply IH|]. exfalso.
  destruct (node_at (rev up) u) as [|k' o' l' r'] eqn:Ea; [done|]. simpl in E.
  destruct (rev up) as [|d' up']; [simpl in Ea; subst u; injection Ea as -> _ _ _;
    rewrite contains_refl in E; [done|apply Hw]|].
  subst u. pose proof Hw as (Hk & _ & Hl & Hr & Wl & Wr). simpl in Ea.
  destruct (node_at_half d' up' k (child d' (TNode k o l r)) k' o' l' r') as [Hk' I]; [by destruct d'..|].
  rewrite (in_half_contains d' k k') in E; done.
Qed.

(** [Trie::unbind_root] does not keep the position of its argument: the
    iterator it returns always stands at the first entry of the trie, because
    the constructor it calls restarts the iteration. *)
Theorem unbind_root_restarts t q : trie_ok t -> node_at q (root t) <> Null ->
  trie_unbind_root t q = leftmost (root t) [].
Proof.
  intros [Hw _] Hq. unfold trie_unbind_root, post_begin.
  destruct (root t) as [|k o l r] eqn:E; [by destruct q as [|[]]|].
  rewrite (climb_root _ k o l r) by (done || by rewrite rev_involutive). done.
Qed.

Lemma lb_loop_stored (u : tree A P) key here cand v : tree_wf u -> net_wf key ->
  model u !! net_id key = Some v ->
  exists q l r, lb_loop u key here cand = Some (here ++ q) /\ node_at q u = TNode key (Some v) l r.
Proof.
  intros Hw Hkey Hi. revert here cand.
  induction u as [|k o l IHl r IHr]; intros here cand; [by simpl in Hi; rewrite lookup_empty in Hi|].
  pose proof Hw as (Hk & _ & Hl & Hr & Wl & Wr).
  destruct (model_in _ _ v Hw Hi) as (n & Hn & En & Hc). apply net_id_inj in En as ->; [|done..].
  simpl in Hc |- *. rewrite Hc.
  assert (forall c : tree A P, tree_wf c -> model c !! net_id key = Some v -> child_contains c key = true) as Hcc.
  { intros c Wc Hic. destruct (model_contains c key v key Wc Hkey Hkey Hic (contains_refl key Hkey)) as [Hr' Hn'].
    by destruct c. }
  assert (forall d, root_ok (in_half d k) (child d (TNode k o l r)) ->
    child_contains (child d (TNode k o l r)) key = true -> in_half d k key) as Hside.
  { intros d Hd Hch. destruct (child d (TNode k o l r)) as [|ck co cl cr] eqn:Ec; [done|].
    apply (in_half_trans d k ck key); try done.
    destruct d; simpl in Ec; subst; [apply Wl|apply Wr]. }
  apply model_node_Some in Hi as [[<- ->]|[Hi|Hi]]; [| | |done..].
  - exists [], l, r. rewrite app_nil_r. split; [|done].
    assert (forall d, child_contains (child d (TNode key (Some v) l r)) key = false) as Hnot.
    { intros d. destruct (child_contains _ key) eqn:E; [|done].
      destruct (in_half_neq d key key); [|done]. apply Hside; [by destruct d|done]. }
    rewrite (Hnot L : child_contains l key = false). pose proof (Hnot R : child_contains r key = false) as Hrr.
    destruct r as [|rk ro rl rr]; [done|]. simpl in *. by rewrite Hrr.
  - rewrite (Hcc l Wl Hi). destruct (IHl Wl Hi (here ++ [L]) (Some here)) as (q & l' & r' & -> & Hat).
    exists (L :: q), l', r'. by rewrite <- app_assoc.
  - destruct (child_contains l key) eqn:El.
    + by pose proof (in_half_unique L R k key Hk Hkey (Hside L Hl El) (Hside R Hr (Hcc r Wr Hi))).
    + destruct (IHr Wr Hi (here ++ [R]) (Some here)) as (q & l' & r' & -> & Hat).
      exists (R :: q), l', r'. by rewrite <- app_assoc.
Qed.

(** [Trie::lower_bound] of a stored subnet is the node of that subnet. *)
Theorem lower_bound_stored t key v : trie_ok t -> net_wf key ->
  trie_model t !! net_id key = Some v ->
  exists q l r, trie_lower_bound t key = Some (Some q) /\ node_at q (root t) = TNode key (Some v) l r.
Proof.
  intros [Hw _] Hkey Hi.
  destruct (lb_loop_stored (root t) key [] None v Hw Hkey Hi) as (q & l & r & E & Hat).
  exists q, l, r. split; [|done]. unfold trie_lower_bound, node_lower_bound. rewrite E. simpl. rewrite Hat.
  by assert (net_eqb key key = true) as -> by (by apply net_eqb_spec).
Qed.
End BoundsProps.

(** ** Witnesses and counterexamples *)

Definition run4 (os : list (trie_op IPv4 Z)) : Trie IPv4 Z :=
  match trie_run trie_empty os with Some t => t | None => trie_empty end.

Lemma run4_ok os : Forall op_wf os -> trie_ok (run4 os).
Proof.
  intros Hos. unfold run4. by destruct (run_ok trie_empty os trie_empty_ok Hos) as (t & -> & Hok & _).
Qed.

(** 10.0.0.0/8 with 10.0.0.0/16 and 10.64.0.0/16 under an empty node, and
    10.128.0.0/9. *)
Definition bounds_trie : Trie IPv4 Z :=
  run4 [ OpInsert (net4 10 0 0 0 8) 1; OpInsert (net4 10 0 0 0 16) 2;
         OpInsert (net4 10 64 0 0 16) 3; OpInsert (net4 10 128 0 0 9) 4 ].

Lemma bounds_trie_ok : trie_ok bounds_trie.
Proof. apply run4_ok. by_eval. Qed.

Lemma find_bounds_lower_witness :
  route bounds_trie (ip4 10 65 0 0) = route bounds_trie (ip4 10 100 0 0)
  /\ route bounds_trie (ip4 10 64 255 255) <> route bounds_trie (ip4 10 100 0 0).
Proof.
  destruct (find_bounds_lower bounds_trie (ip4 10 100 0 0) (ip4 10 65 0 0) (ip4 10 255 255 255)
              bounds_trie_ok) as (_ & _ & Hsame & Hdiff); [by_eval|by_eval|].
  split; [apply Hsame|apply Hdiff]; by_eval.
Defined.

(** The upper end of [find_bounds] is too high when the address lies after
    the last route of the left half of its node: of 10.100.0.0 it says that the
    range up to 10.255.255.255 has its route, 10.0.0.0/8, and 10.200.0.0, which
    has the route 10.128.0.0/9, is in that range. *)
Theorem find_bounds_upper_wrong :
  exists t : Trie IPv4 Z, exists a b lo hi, trie_ok t /\ a_wf a /\ a_wf b
    /\ trie_find_bounds t a = (lo, hi) /\ a_val a <= a_val b <= a_val hi
    /\ route t a = Some (net4 10 0 0 0 8, 1) /\ route t b = Some (net4 10 128 0 0 9, 4).
Proof.
  exists bounds_trie, (ip4 10 100 0 0), (ip4 10 200 0 0), (ip4 10 65 0 0), (ip4 10 255 255 255).
  split; [apply bounds_trie_ok|]. by_eval.
Qed.

Lemma unbind_root_restarts_witness : trie_unbind_root bounds_trie [R] = leftmost (root bounds_trie) [].
Proof. apply (unbind_root_restarts bounds_trie [R] bounds_trie_ok). by_eval. Defined.

Lemma lower_bound_stored_witness : exists q l r,
  trie_lower_bound bounds_trie (net4 10 64 0 0 16) = Some (Some q)
  /\ node_at q (root bounds_trie) = TNode (net4 10 64 0 0 16) (Some 3) l r.
Proof.
  apply (lower_bound_stored bounds_trie (net4 10 64 0 0 16) 3 bounds_trie_ok); [by_eval|].
  apply lookup_eval; [apply bounds_trie_ok|by_eval|by_eval].
Defined.

(** [lower_bound] of a key that is not stored can return an entry before the
    key: of 10.96.0.0/16 it returns 10.0.0.0/16, although 10.0.0.0/9 is the first
    entry after the key.  With no payload on the node of the key itself it
    returns an entry of the start of the trie. *)
Theorem lower_bound_before_key :
  (exists (t : Trie IPv4 Z) q, trie_ok t /\ trie_lower_bound t (net4 10 96 0 0 16) = Some (Some q)
     /\ key_at t q = Some (net4 10 0 0 0 16)
     /\ net_ltb (net4 10 0 0 0 16) (net4 10 96 0 0 16) = true
     /\ trie_lookup_node t (net4 10 0 0 0 9) <> None
     /\ net_ltb (net4 10 96 0 0 16) (net4 10 0 0 0 9) = true)
  /\ (exists (t : Trie IPv4 Z) q, trie_ok t /\ trie_lower_bound t (net4 10 0 0 0 8) = Some (Some q)
     /\ key_at t q = Some (net4 10 0 0 0 9)
     /\ net_ltb (net4 10 0 0 0 9) (net4 10 0 0 0 8) = true).
Proof.
  split.
  - exists (run4 [OpInsert (net4 10 0 0 0 8) 1; OpInsert (net4 10 0 0 0 9) 2; OpInsert (net4 10 0 0 0 16) 3]), [L; L].
    split; [apply run4_ok; by_eval|]. by_eval.
  - exists (run4 [OpInsert (net4 1 0 0 0 8) 1; OpInsert (net4 10 0 0 0 9) 2; OpInsert (net4 10 128 0 0 9) 3]), [R; L].
    split; [apply run4_ok; by_eval|]. by_eval.
Qed.
