(* ===== verification/AsPath.v ===== *)
(** * AS numbers, segments and paths (libxorp/asnum.hh, bgp/aspath.hh, bgp/aspath.cc)

    An [ASPath] keeps its list of segments and two counters, [_num_segments] and
    [_path_len]; the operations update them as the code does, so that the places
    where they leave the list behind are visible.  A buffer is the list of its
    octets; a read past its end is [Throw OutOfBounds]. *)

From Stdlib Require Import ZArith Lia Ascii.
From stdpp Require Import base tactics option list numbers strings.
From S2P Require Import Prelude Word32.
Local Open Scope Z_scope.
Local Open Scope xorp_scope.

(** ** AsNum *)

Definition AS_TRAN : Z := 23456.

Definition extended (n : Z) : bool := 0xffff <? n.
(** [as()]: the 16-bit number. *)
Definition as16 (n : Z) : Z := if extended n then AS_TRAN else n.

Definition as_copy_out (n : Z) : list Z :=
  let x := as16 n in [Z.land (Z.shiftr x 8) 0xff; Z.land x 0xff].
Definition as_of_bytes (d0 d1 : Z) : Z := Z.shiftl d0 8 + d1.

(** [AsNum(const string&)] on characters: digits with at most one dot.  The two
    flags are [four_byte] and [seen_digit]. *)
Definition chr_digit (c : ascii) : Z := Z.of_nat (nat_of_ascii c) - 48.
Definition is_dec (c : ascii) : bool := (0 <=? chr_digit c) && (chr_digit c <=? 9).
Definition dot : ascii := "."%char.

Fixpoint asnum_syntax (s : list ascii) (four_byte seen_digit : bool) : option bool :=
  match s with
  | [] => if seen_digit then Some four_byte else None
  | c :: s =>
      if bool_decide (c = dot) then
        if four_byte || negb seen_digit then None else asnum_syntax s true false
      else if is_dec c then asnum_syntax s four_byte true
      else None
  end.

(** The decimal number at the head of a string, as [strtoul] reads it in 64 bits. *)
Fixpoint strtoul (acc : Z) (s : list ascii) : Z :=
  match s with
  | c :: s => if is_dec c then strtoul (Z.min (10 * acc + chr_digit c) (2 ^ 64 - 1)) s else acc
  | [] => acc
  end.

Fixpoint after_dot (s : list ascii) : list ascii :=
  match s with [] => [] | c :: s => if bool_decide (c = dot) then s else after_dot s end.

Definition asnum_of_string (s : list ascii) : result xorp_exn Z :=
  match asnum_syntax s false false with
  | None => Throw InvalidString
  | Some false =>
      let v := u32 (Z.min (strtoul 0 s) (2 ^ 63 - 1)) in   (* atoi *)
      if (v <? 1) || (65535 <? v) then Throw InvalidString else Ok v
  | Some true =>
      let upper := u32 (strtoul 0 s) in
      let lower := u32 (strtoul 0 (after_dot s)) in
      if (65535 <? upper) || (65535 <? lower) then Throw InvalidString
      else Ok (Z.lor (u32_shl upper 16) lower)
  end.

(** ** ASSegment *)

Inductive ASPathSegType := AS_NONE | AS_SET | AS_SEQUENCE | AS_CONFED_SEQUENCE | AS_CONFED_SET.

#[global] Instance segtype_eq_dec : EqDecision ASPathSegType.
Proof. solve_decision. Defined.

Definition segtype_code (t : ASPathSegType) : Z :=
  match t with
  | AS_NONE => 0 | AS_SET => 1 | AS_SEQUENCE => 2 | AS_CONFED_SEQUENCE => 3 | AS_CONFED_SET => 4
  end.
Definition segtype_of_code (c : Z) : option ASPathSegType :=
  if c =? 0 then Some AS_NONE else if c =? 1 then Some AS_SET else if c =? 2 then Some AS_SEQUENCE
  else if c =? 3 then Some AS_CONFED_SEQUENCE else if c =? 4 then Some AS_CONFED_SET else None.

Record ASSegment := mkSeg { seg_type : ASPathSegType; aslist : list Z }.

#[global] Instance ASSegment_eq_dec : EqDecision ASSegment.
Proof. solve_decision. Defined.

Definition as_size (s : ASSegment) : Z := Z.of_nat (length (aslist s)).

Definition seg_path_length (s : ASSegment) : Z :=
  match seg_type s with
  | AS_SET | AS_CONFED_SET => 1
  | AS_SEQUENCE | AS_CONFED_SEQUENCE => as_size s
  | AS_NONE => 0
  end.

Definition seg_add_as (s : ASSegment) (n : Z) : ASSegment := mkSeg (seg_type s) (aslist s ++ [n]).
Definition seg_prepend_as (s : ASSegment) (n : Z) : ASSegment := mkSeg (seg_type s) (n :: aslist s).
Definition seg_set_type (s : ASSegment) (t : ASPathSegType) : ASSegment := mkSeg t (aslist s).

Fixpoint list_contains (l : list Z) (n : Z) : bool :=
  match l with [] => false | x :: l => if x =? n then true else list_contains l n end.
Definition seg_contains (s : ASSegment) (n : Z) : bool := list_contains (aslist s) n.

Definition seg_first_asnum (s : ASSegment) : result xorp_exn Z :=
  match aslist s with [] => Throw AssertFailed | n :: _ => Ok n end.

(** [as_num(n)]: the iterator walks [n] steps without a check. *)
Definition seg_as_num (s : ASSegment) (n : Z) : result xorp_exn Z :=
  match aslist s !! Z.to_nat n with Some x => Ok x | None => Throw OutOfBounds end.

Definition seg_wire_size (s : ASSegment) : Z := 2 + 2 * as_size s.
Definition seg4_wire_size (s : ASSegment) : Z := 2 + 4 * as_size s.

Definition byte_at (d : list Z) (i : Z) : result xorp_exn Z :=
  match d !! Z.to_nat i with Some b => Ok b | None => Throw OutOfBounds end.

(** The entries of a segment: 2 octets each, or 4. *)
Fixpoint decode_as (n : nat) (d : list Z) : result xorp_exn (list Z) :=
  match n with
  | O => Ok []
  | S n => match d with
           | d0 :: d1 :: d => l <-! decode_as n d ;; Ok (as_of_bytes d0 d1 :: l)
           | _ => Throw OutOfBounds
           end
  end.

Fixpoint decode_as4 `{HostOrder} (n : nat) (d : list Z) : result xorp_exn (list Z) :=
  match n with
  | O => Ok []
  | S n => match d with
           | d0 :: d1 :: d2 :: d3 :: d =>
               l <-! decode_as4 n d ;; Ok (htonl (u32_of_mem [d0; d1; d2; d3]) :: l)
           | _ => Throw OutOfBounds
           end
  end.

(** [ASSegment::decode] and [AS4Segment::decode] differ in the reading of the
    entries, [encode] in their writing. *)
Definition decode_with (entries : nat -> list Z -> result xorp_exn (list Z)) (d : list Z) : result xorp_exn ASSegment :=
  n <-! byte_at d 1 ;; t <-! byte_at d 0 ;;
  match segtype_of_code t with
  | None => Throw CorruptMessage
  | Some t => l <-! entries (Z.to_nat n) (drop 2 d) ;; Ok (mkSeg t l)
  end.
Definition seg_decode : list Z -> result xorp_exn ASSegment := decode_with decode_as.
Definition seg4_decode `{HostOrder} : list Z -> result xorp_exn ASSegment := decode_with decode_as4.

(** [encode] into a buffer of the right size. *)
Definition encode_with (entry : Z -> list Z) (s : ASSegment) : result xorp_exn (list Z) :=
  if 255 <? as_size s then Throw AssertFailed
  else Ok (segtype_code (seg_type s) :: as_size s :: concat (map entry (aslist s))).
Definition as_copy_out4 `{HostOrder} (n : Z) : list Z := u32_to_mem (htonl n).
Definition seg_encode : ASSegment -> result xorp_exn (list Z) := encode_with as_copy_out.
Definition seg4_encode `{HostOrder} : ASSegment -> result xorp_exn (list Z) := encode_with as_copy_out4.

(** [ASSegment::operator==] and [operator<]. *)
Fixpoint list_eqb (a b : list Z) : bool :=
  match a, b with
  | x :: a, y :: b => if x =? y then list_eqb a b else false
  | _, _ => true
  end.
Definition seg_eqb (a b : ASSegment) : bool :=
  if negb (as_size a =? as_size b) then false else list_eqb (aslist a) (aslist b).

Fixpoint list_ltb (a b : list Z) : bool :=
  match a, b with
  | x :: a, y :: b => if x =? y then list_ltb a b else x <? y
  | _, _ => false
  end.
Definition seg_ltb (a b : ASSegment) : bool :=
  if as_size a <? as_size b then true
  else if as_size b <? as_size a then false
  else list_ltb (aslist a) (aslist b).

Definition seg_two_byte_compatible (s : ASSegment) : bool := forallb (fun n => negb (extended n)) (aslist s).

(** ** ASPath *)

Record ASPath := mkPath { segments : list ASSegment; num_segments : Z; path_len : Z }.

Definition aspath_empty : ASPath := mkPath [] 0 0.

Definition add_segment (p : ASPath) (s : ASSegment) : ASPath :=
  mkPath (segments p ++ [s]) (num_segments p + 1) (path_len p + seg_path_length s).
Definition prepend_segment (p : ASPath) (s : ASSegment) : ASPath :=
  mkPath (s :: segments p) (num_segments p + 1) (path_len p + seg_path_length s).

Definition aspath_contains (p : ASPath) (n : Z) : bool := existsb (fun s => seg_contains s n) (segments p).

Definition aspath_first_asnum (p : ASPath) : result xorp_exn Z :=
  match segments p with [] => Throw AssertFailed | s :: _ => seg_first_asnum s end.

(** [segment(n)]; [n] is a [size_t], so that a negative difference is beyond
    every count. *)
Definition segment (p : ASPath) (n : Z) : result xorp_exn ASSegment :=
  if (0 <=? n) && (n <? num_segments p) then
    match segments p !! Z.to_nat n with Some s => Ok s | None => Throw OutOfBounds end
  else Throw Fatal.

(** [ASPath(const char *p)].  The blanks are removed first; a number extends over
    the digits and dots that follow. *)
Definition remove_blanks (s : list ascii) : list ascii := filter (fun c => c <> " "%char) s.
Definition num_char (c : ascii) : bool := is_dec c || bool_decide (c = dot).

Fixpoint num_span (s : list ascii) : list ascii * list ascii :=
  match s with
  | c :: s' => if num_char c then let '(a, b) := num_span s' in (c :: a, b) else ([], s)
  | [] => ([], [])
  end.

(** An opening bracket closes a running sequence and starts a segment. *)
Definition open_seg (p : ASPath) (seg : ASSegment) (t : ASPathSegType) : result xorp_exn (ASPath * ASSegment) :=
  match seg_type seg with
  | AS_SEQUENCE => Ok (add_segment p seg, mkSeg t [])
  | AS_NONE => Ok (p, seg_set_type seg t)
  | _ => Throw InvalidString
  end.
Definition close_seg (p : ASPath) (seg : ASSegment) (t : ASPathSegType) : result xorp_exn (ASPath * ASSegment) :=
  if decide (seg_type seg = t) then Ok (add_segment p seg, mkSeg AS_NONE []) else Throw InvalidString.

Fixpoint parse_path (fuel : nat) (s : list ascii) (p : ASPath) (seg : ASSegment) : result xorp_exn ASPath :=
  match fuel, s with
  | O, _ => Throw Fatal
  | S _, [] =>
      match seg_type seg with
      | AS_SEQUENCE => Ok (add_segment p seg)
      | AS_SET => Throw InvalidString
      | _ => Ok p
      end
  | S fuel, c :: s' =>
      if is_dec c then
        let seg := if decide (seg_type seg = AS_NONE) then seg_set_type seg AS_SEQUENCE else seg in
        let '(num, rest) := num_span s in
        n <-! asnum_of_string num ;; parse_path fuel rest p (seg_add_as seg n)
      else
        st <-! (if decide (c = "["%char) then open_seg p seg AS_SEQUENCE
                else if decide (c = "]"%char) then close_seg p seg AS_SEQUENCE
                else if decide (c = "{"%char) then open_seg p seg AS_SET
                else if decide (c = "}"%char) then close_seg p seg AS_SET
                else if decide (c = "("%char) then open_seg p seg AS_CONFED_SEQUENCE
                else if decide (c = ")"%char) then close_seg p seg AS_CONFED_SEQUENCE
                else if decide (c = "<"%char) then open_seg p seg AS_CONFED_SET
                else if decide (c = ">"%char) then close_seg p seg AS_CONFED_SET
                else if bool_decide (c = ","%char) || bool_decide (c = "009"%char) then Ok (p, seg)
                else Throw InvalidString) ;;
        let '(p, seg) := st in parse_path fuel s' p seg
  end.

Definition aspath_of_string (s : list ascii) : result xorp_exn ASPath :=
  let s := remove_blanks s in parse_path (S (length s)) s aspath_empty (mkSeg AS_NONE []).

(** [ASPath::decode] and [AS4Path::decode]: [d] is the memory from the data on,
    [l] the length of the attribute.  Each turn consumes at least two octets.
    [width] is the size of an AS number and [e] what a segment longer than the
    attribute leads to: an exception in one, a failed assertion in the other. *)
Fixpoint path_decode (width : Z) (e : xorp_exn) (dec : list Z -> result xorp_exn ASSegment)
    (fuel : nat) (d : list Z) (l : Z) (p : ASPath) : result xorp_exn ASPath :=
  if l <=? 0 then Ok p else
  match fuel with
  | O => Throw Fatal
  | S fuel =>
      n <-! byte_at d 1 ;;
      let len := 2 + n * width in
      if l <? len then Throw e else
      s <-! dec d ;;
      path_decode width e dec fuel (drop (Z.to_nat len) d) (l - len) (add_segment p s)
  end.
Definition aspath_decode (d : list Z) (l : Z) : result xorp_exn ASPath :=
  path_decode 2 CorruptMessage seg_decode (Z.to_nat l) d l aspath_empty.
Definition as4path_decode `{HostOrder} (d : list Z) (l : Z) : result xorp_exn ASPath :=
  path_decode 4 AssertFailed seg4_decode (Z.to_nat l) d l aspath_empty.

Definition aspath_wire_size (p : ASPath) : Z := foldr (fun s acc => seg_wire_size s + acc) 0 (segments p).
Definition as4path_wire_size (p : ASPath) : Z := foldr (fun s acc => seg4_wire_size s + acc) 0 (segments p).

Fixpoint encode_segs (enc : ASSegment -> result xorp_exn (list Z)) (l : list ASSegment) : result xorp_exn (list Z) :=
  match l with
  | [] => Ok []
  | s :: l => b <-! enc s ;; bs <-! encode_segs enc l ;; Ok (b ++ bs)
  end.
Definition aspath_encode (p : ASPath) : result xorp_exn (list Z) :=
  if num_segments p =? Z.of_nat (length (segments p)) then encode_segs seg_encode (segments p)
  else Throw AssertFailed.
Definition as4path_encode `{HostOrder} (p : ASPath) : result xorp_exn (list Z) :=
  if num_segments p =? Z.of_nat (length (segments p)) then encode_segs seg4_encode (segments p)
  else Throw AssertFailed.

Definition prepend_as (p : ASPath) (n : Z) : result xorp_exn ASPath :=
  match segments p with
  | s :: rest =>
      if decide (seg_type s = AS_SET) then
        Ok (mkPath (mkSeg AS_SEQUENCE [n] :: segments p) (num_segments p + 1) (path_len p + 1))
      else if decide (seg_type s = AS_SEQUENCE) then
        Ok (mkPath (seg_prepend_as s n :: rest) (num_segments p) (path_len p + 1))
      else Throw AssertFailed
  | [] => Ok (mkPath [mkSeg AS_SEQUENCE [n]] (num_segments p + 1) (path_len p + 1))
  end.

Definition prepend_confed_as (p : ASPath) (n : Z) : result xorp_exn ASPath :=
  match segments p with
  | s :: rest =>
      if bool_decide (seg_type s = AS_SET) || bool_decide (seg_type s = AS_SEQUENCE) then
        Ok (mkPath (mkSeg AS_CONFED_SEQUENCE [n] :: segments p) (num_segments p + 1) (path_len p + 1))
      else if decide (seg_type s = AS_CONFED_SEQUENCE) then
        Ok (mkPath (seg_prepend_as s n :: rest) (num_segments p) (path_len p + 1))
      else Throw AssertFailed
  | [] => Ok (mkPath [mkSeg AS_CONFED_SEQUENCE [n]] (num_segments p + 1) (path_len p + 1))
  end.

Definition is_confed (s : ASSegment) : bool :=
  bool_decide (seg_type s = AS_CONFED_SEQUENCE) || bool_decide (seg_type s = AS_CONFED_SET).
Definition contains_confed_segments (p : ASPath) : bool := existsb is_confed (segments p).

(** [operator==] and [operator<]. *)
Fixpoint segs_eqb (a b : list ASSegment) : bool :=
  match a, b with
  | x :: a, y :: b => if seg_eqb x y then segs_eqb a b else false
  | _, _ => true
  end.
Definition aspath_eqb (p q : ASPath) : bool :=
  if negb (num_segments p =? num_segments q) then false else segs_eqb (segments p) (segments q).

Fixpoint segs_ltb (a b : list ASSegment) : bool :=
  match a, b with
  | x :: a, y :: b => if seg_ltb x y then true else if seg_ltb y x then false else segs_ltb a b
  | _, _ => false
  end.
Definition aspath_ltb (p q : ASPath) : bool :=
  if num_segments p <? num_segments q then true
  else if num_segments q <? num_segments p then false
  else segs_ltb (segments p) (segments q).

Definition aspath_two_byte_compatible (p : ASPath) : bool := forallb seg_two_byte_compatible (segments p).

(** [operator=]: the segments only. *)
Definition aspath_assign (p him : ASPath) : ASPath := mkPath (segments him) (num_segments p) (path_len p).

(** [_path_len--] and [_num_segments--] on [size_t]. *)
Definition size_dec (x : Z) : Z := (x - 1) mod 2 ^ 64.

(** [remove_confed_segments]: [pre] is what the iterator has passed.  The call
    [_segments.remove( *iter )] erases every segment equal to [*iter], before and
    after it; if the next one is among them, [next_iter] dangles. *)
Fixpoint remove_confed (fuel : nat) (pre rest : list ASSegment) (num len : Z) : result xorp_exn ASPath :=
  match rest, fuel with
  | [], _ => Ok (mkPath pre num len)
  | _ :: _, O => Throw Fatal
  | s :: rest', S fuel =>
      if is_confed s then
        let keep := filter (fun x => seg_eqb x s = false) in
        if match rest' with n :: _ => seg_eqb n s | [] => false end then Throw OutOfBounds
        else remove_confed fuel (keep pre) (keep rest') (size_dec num) (size_dec len)
      else remove_confed fuel (pre ++ [s]) rest' num len
  end.
Definition remove_confed_segments (p : ASPath) : result xorp_exn ASPath :=
  remove_confed (length (segments p)) [] (segments p) (num_segments p) (path_len p).

(** *** The aggregate of two paths *)

(** The number of leading elements that agree, up to [minseglen]. *)
Fixpoint match_elems (fuel : nat) (i minseglen : Z) (s1 s2 : ASSegment) : result xorp_exn Z :=
  match fuel with
  | O => Ok i
  | S fuel =>
      if i <? minseglen then
        n1 <-! seg_as_num s1 i ;; n2 <-! seg_as_num s2 i ;;
        if n1 =? n2 then match_elems fuel (i + 1) minseglen s1 s2 else Ok i
      else Ok i
  end.

Record agg_state := mkAgg { agg_path : ASPath; agg_curseg : Z; agg_matchelem : Z; agg_fullmatch : bool }.

Fixpoint agg_loop (fuel : nat) (asp1 asp2 : ASPath) (st : agg_state) : result xorp_exn agg_state :=
  match fuel with
  | O => Ok st
  | S fuel =>
      let cur := agg_curseg st in
      if (cur <? num_segments asp1) && (cur <? num_segments asp2) then
        s1 <-! segment asp1 cur ;; s2 <-! segment asp2 cur ;;
        if decide (seg_type s1 = seg_type s2) then
          let minseglen := Z.min (seg_path_length s1) (seg_path_length s2) in
          m <-! match_elems (S (Z.to_nat minseglen)) 0 minseglen s1 s2 ;;
          let p := if m =? 0 then agg_path st
                   else add_segment (agg_path st) (mkSeg (seg_type s1) (take (Z.to_nat m) (aslist s1))) in
          if (m <? seg_path_length s1) || (m <? seg_path_length s2)
          then Ok (mkAgg p cur m false)
          else agg_loop fuel asp1 asp2 (mkAgg p (cur + 1) m (agg_fullmatch st))
        else Ok st
      else Ok st
  end.

(** The elements from [elem] to the path length of one segment, read in the
    segment [src]. *)
Fixpoint agg_elems (fuel : nat) (src : ASSegment) (elem len : Z) (set : ASSegment) : result xorp_exn ASSegment :=
  match fuel with
  | O => Ok set
  | S fuel =>
      if elem <? len then
        asn <-! seg_as_num src elem ;;
        agg_elems fuel src (elem + 1) len (if seg_contains set asn then set else seg_add_as set asn)
      else Ok set
  end.

(** The segments of [asp] from [i] on; the elements are read in the segment
    [curseg]. *)
Fixpoint agg_rest (fuel : nat) (asp : ASPath) (curseg i startelem : Z) (set : ASSegment) : result xorp_exn ASSegment :=
  match fuel with
  | O => Ok set
  | S fuel =>
      if i <? num_segments asp then
        si <-! segment asp i ;; src <-! segment asp curseg ;;
        set <-! agg_elems (Z.to_nat (seg_path_length si)) src startelem (seg_path_length si) set ;;
        agg_rest fuel asp curseg (i + 1) 0 set
      else Ok set
  end.

Definition aspath_aggregate (asp1 asp2 : ASPath) : result xorp_exn ASPath :=
  st <-! agg_loop (S (Z.to_nat (num_segments asp1))) asp1 asp2 (mkAgg aspath_empty 0 0 true) ;;
  if agg_fullmatch st then Ok (agg_path st) else
  let cur := agg_curseg st in
  set <-! agg_rest (Z.to_nat (num_segments asp1 - cur)) asp1 cur cur (agg_matchelem st) (mkSeg AS_SET []) ;;
  set <-! agg_rest (Z.to_nat (num_segments asp2 - cur)) asp2 cur cur (agg_matchelem st) set ;;
  Ok (add_segment (agg_path st) set).

(** *** The merge of AS_PATH and AS4_PATH

    [None] is an exhausted fuel of the padding loop. *)
Definition dres (X : Type) : Type := option (result xorp_exn X).
Definition dbind {X Y} (m : dres X) (k : X -> dres Y) : dres Y :=
  match m with Some (Ok x) => k x | Some (Throw e) => Some (Throw e) | None => None end.
Notation "x <-? m ;; k" := (dbind m (fun x => k))
  (at level 60, m at next level, right associativity) : xorp_scope.

(** The AS_SET case of [pad_segment]: the ASes of the old segment, last first,
    then the loop [while (old_seg.as_size() < new_seg.as_size())]. *)
Definition pad_missing (old new : ASSegment) : ASSegment :=
  foldr (fun asn seg => if as16 asn =? AS_TRAN then seg
                        else if seg_contains seg asn then seg else seg_prepend_as seg asn)
        new (aslist old).

Fixpoint pad_inflate (fuel : nat) (old_size : Z) (new : ASSegment) : dres ASSegment :=
  if old_size <? as_size new then
    match fuel with
    | O => None
    | S fuel => n <-? Some (seg_first_asnum new) ;; pad_inflate fuel old_size (seg_prepend_as new n)
    end
  else Some (Ok new).

Definition pad_set (fuel : nat) (old new : ASSegment) : dres ASSegment :=
  pad_inflate fuel (as_size old) (pad_missing old new).

(** The comparison of the 16-bit numbers from the ends: [Ok false] on a mismatch. *)
Fixpoint suffix_match (fuel : nat) (i : Z) (old new : ASSegment) : result xorp_exn bool :=
  match fuel with
  | O => Ok true
  | S fuel =>
      if i <=? as_size new then
        o <-! (if as_size old <? i then Throw OutOfBounds else seg_as_num old (as_size old - i)) ;;
        n <-! seg_as_num new (as_size new - i) ;;
        if as16 o =? as16 n then suffix_match fuel (i + 1) old new else Ok false
      else Ok true
  end.

(** [pad_segment]: the new segment and what is added to [_path_len]. *)
Definition pad_segment (fuel : nat) (old new : ASSegment) : dres (ASSegment * Z) :=
  if decide (seg_type new = AS_SET) then
    s <-? pad_set fuel old new ;; Some (Ok (s, 0))
  else if decide (seg_type old = AS_SET) then
    s <-? pad_set fuel old (seg_set_type new AS_SET) ;; Some (Ok (s, 0))
  else
    same <-? Some (suffix_match (length (aslist new)) 1 old new) ;;
    if same : bool then
      let missing := take (Z.to_nat (as_size old - as_size new)) (aslist old) in
      Some (Ok (mkSeg (seg_type new) (missing ++ aslist new), Z.of_nat (length missing)))
    else s <-? pad_set fuel old (seg_set_type new AS_SET) ;; Some (Ok (s, 0)).

(** [do_patchup]: the loop over the elements of a segment of the AS_PATH.  The
    result says whether enough has been collected. *)
Fixpoint patch_elems (fuel : nat) (this as_path : ASPath) (s : ASSegment) (j : Z) (new_set : ASSegment)
  : result xorp_exn (ASSegment * bool) :=
  match fuel with
  | O => Ok (new_set, false)
  | S fuel =>
      if j <? seg_path_length s then
        asn <-! seg_as_num s j ;;
        if as16 asn =? AS_TRAN then patch_elems fuel this as_path s (j + 1) new_set
        else if aspath_contains this asn then patch_elems fuel this as_path s (j + 1) new_set
        else
          let new_set := seg_add_as new_set asn in
          if seg_path_length new_set + path_len this =? path_len as_path then Ok (new_set, true)
          else patch_elems fuel this as_path s (j + 1) new_set
      else Ok (new_set, false)
  end.

Fixpoint patch_segs (fuel : nat) (this as_path : ASPath) (i : Z) (new_set : ASSegment) : result xorp_exn ASSegment :=
  match fuel with
  | O => Ok new_set
  | S fuel =>
      if i <? path_len as_path then
        s <-! segment as_path i ;;
        r <-! patch_elems (Z.to_nat (seg_path_length s)) this as_path s 0 new_set ;;
        let '(new_set, enough) := r in
        if enough : bool then Ok new_set else patch_segs fuel this as_path (i + 1) new_set
      else Ok new_set
  end.

(** [while (as_path.path_length() > path_length()) prepend_as(first_asnum())]. *)
Fixpoint patch_pad (fuel : nat) (this : ASPath) (len : Z) : result xorp_exn ASPath :=
  match fuel with
  | O => Ok this
  | S fuel =>
      if path_len this <? len then
        n <-! aspath_first_asnum this ;; this <-! prepend_as this n ;; patch_pad fuel this len
      else Ok this
  end.

Definition do_patchup (this as_path : ASPath) : result xorp_exn ASPath :=
  new_set <-! patch_segs (Z.to_nat (path_len as_path)) this as_path 0 (mkSeg AS_SET []) ;;
  this <-! match segments this with
           | [] => Throw OutOfBounds
           | front :: rest =>
               if decide (seg_type front = AS_SET) then
                 n <-! seg_as_num new_set 0 ;;
                 Ok (mkPath (seg_add_as front n :: rest) (num_segments this) (path_len this))
               else Ok (prepend_segment this new_set)
           end ;;
  patch_pad (Z.to_nat (path_len as_path - path_len this)) this (path_len as_path).

(** One turn of the loop of [cross_validate] over the segments from the last. *)
Definition validate_seg (fuel : nat) (this as_path : ASPath) (i : Z) : dres ASPath :=
  old <-? Some (segment as_path (num_segments as_path - i)) ;;
  new <-? Some (segment this (num_segments this - i)) ;;
  if seg_path_length old =? seg_path_length new then Some (Ok this) else
  this <-? (if seg_path_length old <? seg_path_length new then Some (do_patchup this as_path)
            else Some (Ok this)) ;;
  new <-? Some (segment this (num_segments this - i)) ;;
  if seg_path_length new <? seg_path_length old then
    r <-? pad_segment fuel old new ;;
    Some (Ok (mkPath (<[Z.to_nat (num_segments this - i) := fst r]> (segments this))
                     (num_segments this) (path_len this + snd r)))
  else Some (Ok this).

(** The loop ends: [as_path.segment(n - i)] is fatal when [i] passes [n]. *)
Fixpoint validate_loop (turns fuel : nat) (this as_path : ASPath) (i : Z) : dres ASPath :=
  match turns with
  | O => Some (Ok this)
  | S turns =>
      if i <=? num_segments this then
        this <-? validate_seg fuel this as_path i ;; validate_loop turns fuel this as_path (i + 1)
      else Some (Ok this)
  end.

(** The missing leading segments, last first. *)
Fixpoint prepend_missing (n : nat) (this as_path : ASPath) : result xorp_exn ASPath :=
  match n with
  | O => Ok this
  | S n => s <-! segment as_path (Z.of_nat n) ;; prepend_missing n (prepend_segment this s) as_path
  end.

Definition cross_validate (fuel : nat) (this as_path : ASPath) : dres ASPath :=
  if path_len as_path <? path_len this then
    Some (Ok (foldl add_segment (mkPath [] (num_segments this) (path_len this))
                    (take (Z.to_nat (num_segments as_path)) (segments as_path))))
  else if path_len this <? path_len as_path then
    if num_segments as_path <? num_segments this then Some (do_patchup this as_path)
    else
      this <-? validate_loop (S (Z.to_nat (num_segments as_path))) fuel this as_path 1 ;;
      if path_len as_path =? path_len this then Some (Ok this)
      else if num_segments as_path <=? num_segments this then Some (Throw AssertFailed)
      else
        this <-? Some (prepend_missing (Z.to_nat (num_segments as_path - num_segments this)) this as_path) ;;
        if path_len as_path =? path_len this then Some (Ok this) else Some (Throw AssertFailed)
  else Some (Ok this).

(** [merge_as4_path]: both paths afterwards. *)
Definition merge_as4_path (fuel : nat) (this as4 : ASPath) : dres (ASPath * ASPath) :=
  as4 <-? cross_validate fuel as4 this ;; Some (Ok (aspath_assign this as4, as4)).
