(* ===== verification/AsPathProps.v ===== *)
(** * Properties of AS paths (bgp/aspath.cc)

    The wire format round trips, the counters of an [ASPath], prepending, the
    order of paths, aggregation and the merge of AS_PATH with AS4_PATH. *)

From Stdlib Require Import ZArith Lia Ascii.
From stdpp Require Import base tactics option list numbers strings.
From S2P Require Import Prelude Word32 Sample AsPath.
Local Open Scope Z_scope.

(** ** The counters *)

Definition total_length (l : list ASSegment) : Z := foldr (fun s acc => seg_path_length s + acc) 0 l.

Definition aspath_ok (p : ASPath) : Prop :=
  num_segments p = Z.of_nat (length (segments p)) /\ path_len p = total_length (segments p).

Lemma total_length_app l1 l2 : total_length (l1 ++ l2) = total_length l1 + total_length l2.
Proof. unfold total_length. induction l1 as [|s l1 IH]; simpl; [done|]. rewrite IH. lia. Qed.

Lemma add_segment_ok p s : aspath_ok p -> aspath_ok (add_segment p s).
Proof.
  intros [Hn Hl]. split; simpl; [rewrite length_app; simpl; lia|].
  rewrite total_length_app, Hl. simpl. lia.
Qed.

Lemma add_segments_ok p l : aspath_ok p -> aspath_ok (foldl add_segment p l)
  /\ segments (foldl add_segment p l) = segments p ++ l.
Proof.
  revert p. induction l as [|s l IH]; intros p Hp; simpl; [by rewrite app_nil_r|].
  destruct (IH (add_segment p s)) as [H1 H2]; [by apply add_segment_ok|].
  split; [done|]. rewrite H2. simpl. by rewrite <- app_assoc.
Qed.

Lemma aspath_ok_eq p : aspath_ok p ->
  p = mkPath (segments p) (Z.of_nat (length (segments p))) (total_length (segments p)).
Proof. destruct p as [l n k]. intros [Hn Hl]. simpl in *. by subst. Qed.

(** ** Octets *)

Definition is_byte (b : Z) : Prop := 0 <= b < 256.

Lemma land_ff x : 0 <= x -> Z.land x 0xff = x mod 256.
Proof. intros Hx. change 0xff with (Z.ones 8). rewrite Z.land_ones by lia. done. Qed.

Lemma as16_bytes n : 0 <= n < 2 ^ 16 ->
  as_of_bytes (Z.land (Z.shiftr n 8) 0xff) (Z.land n 0xff) = n.
Proof.
  intros Hn. unfold as_of_bytes. rewrite !land_ff by (apply Z.shiftr_nonneg || idtac; lia).
  rewrite Z.shiftl_mul_pow2, Z.shiftr_div_pow2 by lia.
  change (2 ^ 8) with 256. change (2 ^ 16) with 65536 in Hn. dlia.
Qed.

Lemma as16_range n : 0 <= n < 2 ^ 32 -> 0 <= as16 n < 2 ^ 16.
Proof.
  intros Hn. unfold as16, extended, AS_TRAN. destruct (Z.ltb_spec 0xffff n); lia.
Qed.

Lemma bytes_as16 d0 d1 : is_byte d0 -> is_byte d1 ->
  as16 (as_of_bytes d0 d1) = as_of_bytes d0 d1 /\ as_copy_out (as_of_bytes d0 d1) = [d0; d1]
  /\ 0 <= as_of_bytes d0 d1 < 2 ^ 16.
Proof.
  intros H0 H1. unfold is_byte in *.
  assert (as_of_bytes d0 d1 = d0 * 256 + d1) as E.
  { unfold as_of_bytes. rewrite Z.shiftl_mul_pow2 by lia. done. }
  assert (as16 (as_of_bytes d0 d1) = as_of_bytes d0 d1) as E16.
  { unfold as16, extended. rewrite E. destruct (Z.ltb_spec 0xffff (d0 * 256 + d1)); lia. }
  split; [done|]. split; [|lia]. unfold as_copy_out. rewrite E16, E.
  rewrite !land_ff by (apply Z.shiftr_nonneg || idtac; lia). rewrite Z.shiftr_div_pow2 by lia.
  change (2 ^ 8) with 256. f_equal; [dlia|]. f_equal. dlia.
Qed.

Lemma decode_as_app ns rest : Forall (fun n => 0 <= n < 2 ^ 32) ns ->
  decode_as (length ns) (concat (map as_copy_out ns) ++ rest) = Ok (map as16 ns).
Proof.
  intros Hns. induction Hns as [|n ns Hn _ IH]; [done|]. simpl.
  rewrite as16_bytes by (by apply as16_range). rewrite IH. done.
Qed.

Lemma decode_as4_app `{HostOrder} ns rest : Forall (fun n => 0 <= n < 2 ^ 32) ns ->
  decode_as4 (length ns) (concat (map as_copy_out4 ns) ++ rest) = Ok ns.
Proof.
  intros Hns. induction Hns as [|n ns Hn _ IH]; [done|]. simpl. unfold as_copy_out4 at 1.
  pose proof (u32_mem_roundtrip (htonl n) (htonl_range n Hn)) as Hm.
  rewrite u32_to_mem_htonl in Hm |- *. simpl. rewrite Hm, htonl_htonl, IH by done. done.
Qed.

Lemma segtype_code_of t : segtype_of_code (segtype_code t) = Some t.
Proof. by destruct t. Qed.

Lemma segtype_of_code_some c t : segtype_of_code c = Some t -> segtype_code t = c.
Proof.
  unfold segtype_of_code. repeat case_if; intros [= <-]; simpl; lia.
Qed.

(** ** The wire format

    The two formats differ in the width of an entry. *)
Definition seg_wire_ok (s : ASSegment) : Prop :=
  (length (aslist s) <= 255)%nat /\ Forall (fun n => 0 <= n < 2 ^ 32) (aslist s).
Definition path_wire_ok (p : ASPath) : Prop := aspath_ok p /\ Forall seg_wire_ok (segments p).
Definition seg_map (f : Z -> Z) (s : ASSegment) : ASSegment := mkSeg (seg_type s) (map f (aslist s)).

Section Wire.
Variables (width : nat) (entry : Z -> list Z) (norm : Z -> Z)
          (entries : nat -> list Z -> result xorp_exn (list Z)) (e : xorp_exn).
Hypothesis entry_length : forall n, length (entry n) = width.
Hypothesis entries_app : forall ns rest, Forall (fun n => 0 <= n < 2 ^ 32) ns ->
  entries (length ns) (concat (map entry ns) ++ rest) = Ok (map norm ns).

Lemma entry_concat_length ns : length (concat (map entry ns)) = (length ns * width)%nat.
Proof. induction ns as [|n ns IH]; simpl; [done|]. rewrite length_app, entry_length, IH. lia. Qed.

Lemma seg_wire_roundtrip s rest : seg_wire_ok s ->
  exists b0 b, encode_with entry s = Ok (b0 :: as_size s :: b)
    /\ length b = (length (aslist s) * width)%nat
    /\ decode_with entries ((b0 :: as_size s :: b) ++ rest) = Ok (seg_map norm s).
Proof.
  intros [Hl Hf]. unfold encode_with. destruct (Z.ltb_spec 255 (as_size s)); [unfold as_size in *; lia|].
  eexists _, _. split; [done|]. split; [apply entry_concat_length|].
  unfold decode_with, result_bind.
  change (byte_at _ 1) with (Ok (E := xorp_exn) (as_size s)).
  change (byte_at _ 0) with (Ok (E := xorp_exn) (segtype_code (seg_type s))). cbv iota beta.
  rewrite segtype_code_of. unfold as_size. rewrite Nat2Z.id. simpl app. rewrite !skipn_cons, drop_0.
  by rewrite entries_app.
Qed.

Lemma path_wire_roundtrip l rest p fuel : Forall seg_wire_ok l ->
  exists b, encode_segs (encode_with entry) l = Ok b
    /\ (Z.of_nat (length b) = foldr (fun s acc => 2 + Z.of_nat width * as_size s + acc) 0 l)
    /\ ((length b <= fuel)%nat ->
        path_decode (Z.of_nat width) e (decode_with entries) fuel (b ++ rest) (Z.of_nat (length b)) p
        = Ok (foldl add_segment p (map (seg_map norm) l))).
Proof.
  intros Hl. revert p fuel. induction Hl as [|s l Hs _ IH]; intros p fuel.
  { exists []. split; [done|]. split; [done|]. intros _. by destruct fuel. }
  destruct (IH (add_segment p (seg_map norm s)) (pred fuel)) as (b & E & Hlen & Hdec).
  destruct (seg_wire_roundtrip s (b ++ rest) Hs) as (b0 & bs & Es & Hbs & Hds).
  exists ((b0 :: as_size s :: bs) ++ b). cbn [encode_segs]. rewrite Es. cbn [result_bind]. rewrite E.
  split; [done|]. rewrite length_app. cbn [length]. unfold as_size in *.
  split; [cbn [foldr]; rewrite <- Hlen; lia|].
  intros Hf. destruct fuel as [|fuel]; [lia|]. cbn [path_decode].
  destruct (Z.leb_spec (Z.of_nat (S (S (length bs)) + length b)) 0); [lia|].
  rewrite <- app_assoc. rewrite Hds.
  assert (byte_at ((b0 :: Z.of_nat (length (aslist s)) :: bs) ++ b ++ rest) 1
          = Ok (Z.of_nat (length (aslist s)))) as -> by done.
  cbn [result_bind].
  destruct (Z.ltb_spec (Z.of_nat (S (S (length bs)) + length b)) (2 + Z.of_nat (length (aslist s)) * Z.of_nat width)); [lia|].
  replace (Z.to_nat (2 + Z.of_nat (length (aslist s)) * Z.of_nat width))
    with (length (b0 :: Z.of_nat (length (aslist s)) :: bs)) by (simpl; lia).
  rewrite drop_app_length.
  replace (Z.of_nat (S (S (length bs)) + length b) - (2 + Z.of_nat (length (aslist s)) * Z.of_nat width))
    with (Z.of_nat (length b)) by lia.
  apply Hdec. simpl. lia.
Qed.

Hypothesis entries_inv : forall n d ns, Forall is_byte d -> entries n d = Ok ns ->
  length ns = n /\ Forall (fun n => 0 <= n < 2 ^ 32) ns /\ exists rest, d = concat (map entry ns) ++ rest.

Lemma seg_wire_inv d s : Forall is_byte d -> decode_with entries d = Ok s ->
  seg_wire_ok s /\ exists b0 b rest, d = (b0 :: as_size s :: b) ++ rest
    /\ encode_with entry s = Ok (b0 :: as_size s :: b)
    /\ length b = (length (aslist s) * width)%nat.
Proof.
  intros Hd. unfold decode_with. destruct d as [|b0 [|b1 d]]; [done|done|].
  change (byte_at _ 1) with (Ok (E := xorp_exn) b1). change (byte_at _ 0) with (Ok (E := xorp_exn) b0).
  cbn [result_bind]. destruct (segtype_of_code b0) as [t|] eqn:Et; [|done].
  apply segtype_of_code_some in Et as <-. rewrite !skipn_cons, drop_0.
  apply Forall_cons in Hd as [_ Hd]. apply Forall_cons in Hd as [H1 Hd]. unfold is_byte in H1.
  destruct (entries (Z.to_nat b1) d) as [ns|] eqn:En; [|done]. intros [= <-].
  destruct (entries_inv _ _ _ Hd En) as (Hlen & Hns & rest & ->).
  assert (as_size (mkSeg t ns) = b1) as Hsz by (unfold as_size; simpl; lia).
  split; [split; [simpl; lia|done]|]. exists (segtype_code t), (concat (map entry ns)), rest.
  rewrite Hsz. split; [done|]. split; [|apply entry_concat_length].
  unfold encode_with. rewrite Hsz. destruct (Z.ltb_spec 255 b1); [lia|done].
Qed.

Lemma path_wire_inv fuel d l p q : Forall is_byte d -> 0 <= l <= Z.of_nat (length d) ->
  path_decode (Z.of_nat width) e (decode_with entries) fuel d l p = Ok q ->
  exists segs, q = foldl add_segment p segs /\ Forall seg_wire_ok segs
    /\ encode_segs (encode_with entry) segs = Ok (take (Z.to_nat l) d).
Proof.
  revert d l p. induction fuel as [|fuel IH]; intros d l p Hd Hl; cbn [path_decode];
    destruct (Z.leb_spec l 0).
  { intros [= <-]. exists []. by replace (Z.to_nat l) with O by lia. }
  { done. }
  { intros [= <-]. exists []. by replace (Z.to_nat l) with O by lia. }
  destruct (decode_with entries d) as [s|] eqn:Es.
  2:{ destruct (byte_at d 1); [|done]. cbn [result_bind]. by destruct (l <? _). }
  destruct (seg_wire_inv d s Hd Es) as (Hs & b0 & b & rest & -> & Ee & Hb).
  change (byte_at _ 1) with (Ok (E := xorp_exn) (as_size s)). cbn [result_bind].
  assert (2 + as_size s * Z.of_nat width = Z.of_nat (length (b0 :: as_size s :: b))) as ->
    by (simpl; unfold as_size; lia).
  destruct (Z.ltb_spec l (Z.of_nat (length (b0 :: as_size s :: b)))); [done|].
  rewrite Nat2Z.id, drop_app_length. rewrite length_app in Hl. intros Hq.
  apply Forall_app in Hd as [_ Hd].
  destruct (IH rest (l - Z.of_nat (length (b0 :: as_size s :: b))) (add_segment p s) Hd) as (segs & -> & Hsegs & Henc);
    [lia|done|].
  exists (s :: segs). split; [done|]. split; [by constructor|]. cbn [encode_segs]. rewrite Ee, Henc.
  cbn [result_bind]. rewrite (take_app_ge (b0 :: as_size s :: b)) by lia. f_equal. f_equal. f_equal. lia.
Qed.
End Wire.

Definition path_map (f : Z -> Z) (p : ASPath) : ASPath :=
  mkPath (map (seg_map f) (segments p)) (num_segments p) (path_len p).

Lemma total_length_map f l : total_length (map (seg_map f) l) = total_length l.
Proof.
  unfold total_length. induction l as [|s l IH]; simpl; [done|]. rewrite IH. f_equal.
  unfold seg_path_length, as_size, seg_map. simpl. by rewrite length_map.
Qed.

Lemma path_map_fold f p : aspath_ok p -> foldl add_segment aspath_empty (map (seg_map f) (segments p)) = path_map f p.
Proof.
  intros [Hn Hl]. destruct (add_segments_ok aspath_empty (map (seg_map f) (segments p))) as [Hok Hs]; [done|].
  rewrite (aspath_ok_eq _ Hok), Hs. simpl. unfold path_map.
  by rewrite length_map, total_length_map, <- Hn, <- Hl.
Qed.

(** C32: [ASPath::encode] writes [wire_size()] octets from which [ASPath::decode]
    reads the same path, segment types, order and counters included, with every
    4-octet AS number replaced by AS_TRAN. *)
Theorem aspath_wire_roundtrip p rest : path_wire_ok p ->
  exists b, aspath_encode p = Ok b /\ Z.of_nat (length b) = aspath_wire_size p
    /\ aspath_decode (b ++ rest) (aspath_wire_size p) = Ok (path_map as16 p).
Proof.
  intros [Hok Hs].
  destruct (path_wire_roundtrip 2 as_copy_out as16 decode_as CorruptMessage (fun _ => eq_refl) decode_as_app
              (segments p) rest aspath_empty (Z.to_nat (aspath_wire_size p)) Hs) as (b & E & Hlen & Hdec).
  exists b. unfold aspath_encode. destruct Hok as [Hn Hl]. rewrite (proj2 (Z.eqb_eq _ _) Hn).
  split; [done|]. change (Z.of_nat (length b) = aspath_wire_size p) in Hlen. split; [done|].
  unfold aspath_decode, seg_decode. rewrite <- Hlen in Hdec |- *. rewrite Nat2Z.id in Hdec |- *. etrans; [by apply Hdec|].
  by rewrite path_map_fold.
Qed.

(** [AS4Path::encode] and [AS4Path::decode] lose nothing. *)
Theorem as4path_wire_roundtrip `{HostOrder} p rest : path_wire_ok p ->
  exists b, as4path_encode p = Ok b /\ Z.of_nat (length b) = as4path_wire_size p
    /\ as4path_decode (b ++ rest) (as4path_wire_size p) = Ok p.
Proof.
  intros [Hok Hs].
  destruct (path_wire_roundtrip 4 as_copy_out4 id decode_as4 AssertFailed
              (fun n => ltac:(unfold as_copy_out4; by rewrite u32_to_mem_htonl))
              (fun ns r Hns => ltac:(rewrite decode_as4_app by done; by rewrite map_id))
              (segments p) rest aspath_empty (Z.to_nat (as4path_wire_size p)) Hs) as (b & E & Hlen & Hdec).
  exists b. unfold as4path_encode. pose proof Hok as [Hn Hl]. rewrite (proj2 (Z.eqb_eq _ _) Hn).
  split; [done|]. change (Z.of_nat (length b) = as4path_wire_size p) in Hlen. split; [done|].
  unfold as4path_decode, seg4_decode. rewrite <- Hlen in Hdec |- *. rewrite Nat2Z.id in Hdec |- *. etrans; [by apply Hdec|].
  rewrite path_map_fold by done. f_equal. destruct p as [l n k]. unfold path_map. simpl. f_equal.
  rewrite <- (map_id l) at 2. apply map_ext. intros [t ns]. unfold seg_map. simpl. by rewrite map_id.
Qed.

Lemma decode_as_inv n d ns : Forall is_byte d -> decode_as n d = Ok ns ->
  length ns = n /\ Forall (fun n => 0 <= n < 2 ^ 32) ns /\ exists rest, d = concat (map as_copy_out ns) ++ rest.
Proof.
  revert d ns. induction n as [|n IH]; intros d ns Hd; simpl.
  { intros [= <-]. split; [done|]. split; [constructor|]. by exists d. }
  destruct d as [|d0 [|d1 d]]; [done..|]. apply Forall_cons in Hd as [H0 Hd]. apply Forall_cons in Hd as [H1 Hd].
  destruct (decode_as n d) as [l|] eqn:E; [|done]. intros [= <-].
  destruct (IH d l Hd E) as (<- & Hl & rest & ->). destruct (bytes_as16 d0 d1 H0 H1) as (_ & E1 & E2).
  split; [done|]. split; [constructor; [lia|done]|]. exists rest. cbn [map concat]. by rewrite E1.
Qed.

Lemma decode_as4_inv `{HostOrder} n d ns : Forall is_byte d -> decode_as4 n d = Ok ns ->
  length ns = n /\ Forall (fun n => 0 <= n < 2 ^ 32) ns /\ exists rest, d = concat (map as_copy_out4 ns) ++ rest.
Proof.
  revert d ns. induction n as [|n IH]; intros d ns Hd; simpl.
  { intros [= <-]. split; [done|]. split; [constructor|]. by exists d. }
  destruct d as [|d0 [|d1 [|d2 [|d3 d]]]]; [done..|].
  apply Forall_cons in Hd as [H0 Hd]. apply Forall_cons in Hd as [H1 Hd].
  apply Forall_cons in Hd as [H2 Hd]. apply Forall_cons in Hd as [H3 Hd].
  destruct (decode_as4 n d) as [l|] eqn:E; [|done]. intros [= <-].
  destruct (IH d l Hd E) as (<- & Hl & rest & ->).
  destruct (mem_u32_roundtrip d0 d1 d2 d3 H0 H1 H2 H3) as [Em Hr].
  split; [done|]. split; [constructor; [by apply htonl_range|done]|]. exists rest. cbn [map concat].
  assert (as_copy_out4 (htonl (u32_of_mem [d0; d1; d2; d3])) = [d0; d1; d2; d3]) as -> ; [|done].
  unfold as_copy_out4. by rewrite htonl_htonl, Em.
Qed.

(** C33: What [ASPath::decode] accepts is a well-formed path with exact counters,
    and encoding it gives back the octets that were read: the wire format has no
    second spelling of a path. *)
Theorem aspath_decode_encode d l p : Forall is_byte d -> 0 <= l <= Z.of_nat (length d) ->
  aspath_decode d l = Ok p ->
  path_wire_ok p /\ aspath_encode p = Ok (take (Z.to_nat l) d).
Proof.
  intros Hd Hl E.
  destruct (path_wire_inv 2 as_copy_out decode_as CorruptMessage (fun _ => eq_refl) decode_as_inv
              _ _ _ _ _ Hd Hl E) as (segs & -> & Hs & He).
  destruct (add_segments_ok aspath_empty segs) as [Hok Es]; [done|]. simpl in Es.
  split; [split; [done|by rewrite Es]|]. unfold aspath_encode. destruct Hok as [Hn _].
  by rewrite (proj2 (Z.eqb_eq _ _) Hn), Es.
Qed.

(** The same for [AS4Path::decode]. *)
Theorem as4path_decode_encode `{HostOrder} d l p : Forall is_byte d -> 0 <= l <= Z.of_nat (length d) ->
  as4path_decode d l = Ok p ->
  path_wire_ok p /\ as4path_encode p = Ok (take (Z.to_nat l) d).
Proof.
  intros Hd Hl E.
  destruct (path_wire_inv 4 as_copy_out4 decode_as4 AssertFailed
              (fun n => ltac:(unfold as_copy_out4; by rewrite u32_to_mem_htonl)) decode_as4_inv
              _ _ _ _ _ Hd Hl E) as (segs & -> & Hs & He).
  destruct (add_segments_ok aspath_empty segs) as [Hok Es]; [done|]. simpl in Es.
  split; [split; [done|by rewrite Es]|]. unfold as4path_encode. destruct Hok as [Hn _].
  by rewrite (proj2 (Z.eqb_eq _ _) Hn), Es.
Qed.

Lemma decode_as_enough n d : (2 * n <= length d)%nat -> exists ns, decode_as n d = Ok ns.
Proof.
  revert d. induction n as [|n IH]; intros d Hd; simpl; [eauto|].
  destruct d as [|d0 [|d1 d]]; simpl in Hd; [lia..|]. destruct (IH d) as [ns ->]; [lia|]. simpl. eauto.
Qed.

Lemma seg_decode_safe d n : byte_at d 1 = Ok n -> 0 <= n -> 2 + n * 2 <= Z.of_nat (length d) ->
  (exists s, seg_decode d = Ok s) \/ seg_decode d = Throw CorruptMessage.
Proof.
  intros E Hn Hl. unfold seg_decode, decode_with. rewrite E.
  destruct d as [|b0 [|b1 d]]; [done..|]. change (byte_at _ 0) with (Ok (E := xorp_exn) b0).
  cbn [result_bind]. destruct (segtype_of_code b0); [|by right]. rewrite !skipn_cons, drop_0.
  destruct (decode_as_enough (Z.to_nat n) d) as [ns ->]; [simpl in Hl; lia|]. left. simpl. eauto.
Qed.

(** C34: On every attribute that is followed by at least one more octet in memory,
    [ASPath::decode] returns a path or throws CorruptMessage: it reads nothing
    outside the buffer and its loop ends. *)
Theorem aspath_decode_safe d l : Forall is_byte d -> 0 <= l < Z.of_nat (length d) ->
  (exists p, aspath_decode d l = Ok p) \/ aspath_decode d l = Throw CorruptMessage.
Proof.
  intros Hd Hl. unfold aspath_decode. generalize aspath_empty. intros p.
  assert (l <= Z.of_nat (Z.to_nat l)) as Hf by lia. revert Hf.
  generalize (Z.to_nat l) as fuel. intros fuel. revert d l p Hd Hl.
  induction fuel as [|fuel IH]; intros d l p Hd Hl Hf; cbn [path_decode];
    (destruct (Z.leb_spec l 0); [left; eauto|]); [lia|].
  destruct d as [|b0 [|b1 d]]; [simpl in Hl; lia..|].
  assert (byte_at (b0 :: b1 :: d) 1 = Ok b1) as E1 by done. rewrite E1. cbn [result_bind].
  destruct (Z.ltb_spec l (2 + b1 * 2)); [by right|].
  assert (is_byte b1) as H1 by (apply Forall_cons in Hd as [_ Hd]; by apply Forall_cons in Hd as [? _]).
  unfold is_byte in H1.
  destruct (seg_decode_safe _ b1 E1) as [[s ->]| ->]; [lia..| |by right]. cbn [result_bind].
  apply IH; [by apply Forall_drop|rewrite length_drop; lia|lia].
Qed.

(** [AS4Path::decode] aborts the process on an attribute whose last segment
    is longer than the attribute: where [ASPath::decode] throws CorruptMessage,
    it has an assertion.  Two octets received from a peer suffice. *)
Theorem as4path_decode_aborts `{HostOrder} n rest : 0 < n < 256 ->
  as4path_decode (2 :: n :: rest) 2 = Throw AssertFailed
  /\ aspath_decode (2 :: n :: rest) 2 = Throw CorruptMessage.
Proof.
  intros Hn. unfold as4path_decode, aspath_decode.
  change (Z.to_nat 2) with 2%nat. cbn [path_decode]. change (2 <=? 0) with false.
  assert (byte_at (2 :: n :: rest) 1 = Ok n) as -> by done. cbn [result_bind].
  destruct (Z.ltb_spec 2 (2 + n * 4)); [|lia]. by destruct (Z.ltb_spec 2 (2 + n * 2)); [|lia].
Qed.

(** ** Prepending *)

Definition as_flat (p : ASPath) : list Z := concat (map aslist (segments p)).

Definition front_prependable (p : ASPath) : Prop :=
  match segments p with [] => True | s :: _ => seg_type s = AS_SET \/ seg_type s = AS_SEQUENCE end.

Lemma list_contains_spec l n : list_contains l n = true <-> n ∈ l.
Proof.
  induction l as [|x l IH]; simpl; [split; [done|by intros ?%not_elem_of_nil]|].
  rewrite elem_of_cons. destruct (Z.eqb_spec x n) as [->|]; [split; auto|]. rewrite IH.
  split; [by right|]. intros [->|?]; done.
Qed.

Lemma aspath_contains_spec p n : aspath_contains p n = true <-> n ∈ as_flat p.
Proof.
  unfold aspath_contains, as_flat. induction (segments p) as [|s l IH]; simpl.
  { split; [done|by intros ?%not_elem_of_nil]. }
  rewrite orb_true_iff, IH, elem_of_app. unfold seg_contains. by rewrite list_contains_spec.
Qed.

(** [prepend_as] puts the AS number in front of the path and leaves the rest
    of the sequence of ASes as it was; the counters stay exact and the length
    grows by one, whether the path was empty, began with a set or with a
    sequence. *)
Theorem prepend_as_correct p n : aspath_ok p -> front_prependable p ->
  exists p', prepend_as p n = Ok p' /\ aspath_ok p' /\ as_flat p' = n :: as_flat p
    /\ path_len p' = path_len p + 1 /\ aspath_first_asnum p' = Ok n.
Proof.
  destruct p as [l k len]. intros [Hn Hl] Hf. unfold prepend_as, front_prependable, as_flat, aspath_ok, total_length in *. simpl in *.
  destruct l as [|[t ns] l]; simpl in *.
  { eexists. split; [done|]. split; [unfold seg_path_length, as_size in *; simpl in *; lia|]. done. }
  destruct Hf as [->| ->]; simpl.
  - eexists. split; [done|]. split; [unfold seg_path_length, as_size in *; simpl in *; lia|]. done.
  - eexists. split; [done|]. split; [unfold seg_path_length, as_size in *; simpl in *; lia|]. done.
Qed.

(** A sequence of 255 ASes, the largest that can be sent, accepts one more
    AS number, after which the path can no longer be encoded: [prepend_as] does
    not start a new segment and [encode] runs into its assertion. *)
Theorem prepend_as_full_segment ns l n : length ns = 255%nat ->
  let p := foldl add_segment aspath_empty (mkSeg AS_SEQUENCE ns :: l) in
  exists p', prepend_as p n = Ok p' /\ aspath_encode p' = Throw AssertFailed.
Proof.
  intros Hns p. destruct (add_segments_ok aspath_empty (mkSeg AS_SEQUENCE ns :: l)) as [[Hn _] Hs]; [done|].
  fold p in Hn, Hs. simpl in Hs. unfold prepend_as. rewrite Hs. simpl. eexists. split; [done|].
  unfold aspath_encode. simpl. rewrite Hs in Hn. simpl in Hn. rewrite (proj2 (Z.eqb_eq _ _) Hn). simpl.
  unfold seg_encode, encode_with. destruct (Z.ltb_spec 255 (as_size (seg_prepend_as (mkSeg AS_SEQUENCE ns) n))); [done|].
  unfold as_size in *. simpl in *. lia.
Qed.

(** ** Equality and order *)

Lemma list_eqb_eq a b : length a = length b -> list_eqb a b = true <-> a = b.
Proof.
  revert b. induction a as [|x a IH]; intros [|y b] Hl; simpl in *; try done.
  destruct (Z.eqb_spec x y) as [->|]; [|split; [done|congruence]].
  rewrite IH by lia. split; congruence.
Qed.

Lemma list_ltb_irrefl a : list_ltb a a = false.
Proof. induction a as [|x a IH]; simpl; [done|]. by rewrite Z.eqb_refl. Qed.

Lemma list_ltb_trans a b c : length a = length b -> length b = length c ->
  list_ltb a b = true -> list_ltb b c = true -> list_ltb a c = true.
Proof.
  revert b c. induction a as [|x a IH]; intros [|y b] [|z c] H1 H2; simpl in *; try done.
  destruct (Z.eqb_spec x y), (Z.eqb_spec y z), (Z.eqb_spec x z); subst; try done;
    rewrite ?Z.ltb_lt; intros; try lia; eauto with lia.
Qed.

Lemma list_ltb_total a b : length a = length b -> a <> b -> list_ltb a b = true \/ list_ltb b a = true.
Proof.
  revert b. induction a as [|x a IH]; intros [|y b] Hl Hne; simpl in *; try done.
  rewrite (Z.eqb_sym y x). destruct (Z.eqb_spec x y) as [->|]; [|rewrite !Z.ltb_lt; lia].
  apply IH; [lia|congruence].
Qed.

Lemma seg_eqb_eq a b : seg_eqb a b = true <-> aslist a = aslist b.
Proof.
  unfold seg_eqb, as_size. destruct (Z.eqb_spec (Z.of_nat (length (aslist a))) (Z.of_nat (length (aslist b)))); simpl.
  - apply list_eqb_eq. lia.
  - split; [done|congruence].
Qed.

Definition seg_lt (a b : list Z) : Prop :=
  (length a < length b)%nat \/ (length a = length b /\ list_ltb a b = true).

Lemma seg_ltb_lt a b : seg_ltb a b = true <-> seg_lt (aslist a) (aslist b).
Proof.
  unfold seg_ltb, seg_lt, as_size. repeat case_if; split; try done; try lia; intros; auto with lia.
  destruct H; [lia|]. by destruct H.
Qed.

Lemma seg_lt_irrefl a : ~ seg_lt a a.
Proof. intros [?|[_ E]]; [lia|]. by rewrite list_ltb_irrefl in E. Qed.

Lemma seg_lt_trans a b c : seg_lt a b -> seg_lt b c -> seg_lt a c.
Proof.
  unfold seg_lt. intros [?|[? ?]] [?|[? ?]]; [left; lia..|].
  right. split; [lia|]. by apply (list_ltb_trans a b c).
Qed.

Lemma seg_lt_total a b : a <> b -> seg_lt a b \/ seg_lt b a.
Proof.
  intros Hne. unfold seg_lt. destruct (Nat.lt_trichotomy (length a) (length b)) as [?|[?|?]]; auto.
  destruct (list_ltb_total a b); auto.
Qed.

Lemma seg_ltb_cases a b :
  (seg_lt (aslist a) (aslist b) /\ seg_ltb a b = true)
  \/ (aslist a = aslist b /\ seg_ltb a b = false /\ seg_ltb b a = false)
  \/ (seg_lt (aslist b) (aslist a) /\ seg_ltb a b = false /\ seg_ltb b a = true).
Proof.
  assert (forall x y, seg_lt (aslist x) (aslist y) -> seg_ltb y x = false) as Hno.
  { intros x y Hlt. destruct (seg_ltb y x) eqn:E; [|done]. apply seg_ltb_lt in E.
    destruct (seg_lt_irrefl (aslist x)). by apply (seg_lt_trans _ (aslist y)). }
  destruct (decide (aslist a = aslist b)) as [E|E].
  - right; left. assert (forall x y, aslist x = aslist y -> seg_ltb x y = false) as Heq; [|auto].
    intros x y Exy. destruct (seg_ltb x y) eqn:El; [|done]. apply seg_ltb_lt in El.
    rewrite Exy in El. by apply seg_lt_irrefl in El.
  - destruct (seg_lt_total _ _ E) as [Hlt|Hlt].
    + left. split; [done|]. by apply seg_ltb_lt.
    + right; right. split; [done|]. split; [by apply Hno|by apply seg_ltb_lt].
Qed.

Lemma segs_ltb_irrefl l : segs_ltb l l = false.
Proof.
  induction l as [|s l IH]; simpl; [done|].
  destruct (seg_ltb_cases s s) as [[Hlt _]|[(_ & -> & _)|[Hlt _]]]; [by apply seg_lt_irrefl in Hlt|done|by apply seg_lt_irrefl in Hlt].
Qed.

Lemma segs_ltb_trans a b c : length a = length b -> length b = length c ->
  segs_ltb a b = true -> segs_ltb b c = true -> segs_ltb a c = true.
Proof.
  revert b c. induction a as [|x a IH]; intros [|y b] [|z c] H1 H2; simpl in *; try done.
  destruct (seg_ltb_cases x y) as [[Hxy ->]|[(Exy & -> & ->)|(Hxy & -> & ->)]]; [| |done];
    destruct (seg_ltb_cases y z) as [[Hyz ->]|[(Eyz & -> & ->)|(Hyz & -> & ->)]]; try done; intros Ha Hb.
  - assert (seg_ltb x z = true) as -> by (apply seg_ltb_lt; by eapply seg_lt_trans). done.
  - assert (seg_ltb x z = true) as -> by (apply seg_ltb_lt; by rewrite <- Eyz). done.
  - assert (seg_ltb x z = true) as -> by (apply seg_ltb_lt; by rewrite Exy). done.
  - destruct (seg_ltb_cases x z) as [[Hxz ->]|[(Exz & -> & ->)|(Hxz & _)]]; [done|apply (IH b c); [lia|lia|done|done]|].
    rewrite <- Eyz, Exy in Hxz. by apply seg_lt_irrefl in Hxz.
Qed.

Lemma segs_ltb_total a b : length a = length b ->
  segs_ltb a b = false /\ segs_ltb b a = false <-> segs_eqb a b = true.
Proof.
  revert b. induction a as [|x a IH]; intros [|y b] Hl; simpl in *; try done.
  destruct (seg_eqb x y) eqn:Eq.
  - apply seg_eqb_eq in Eq. destruct (seg_ltb_cases x y) as [[Hlt _]|[(_ & -> & ->)|[Hlt _]]].
    + rewrite Eq in Hlt. by apply seg_lt_irrefl in Hlt.
    + apply IH. lia.
    + rewrite Eq in Hlt. by apply seg_lt_irrefl in Hlt.
  - assert (aslist x <> aslist y) as Hne by (intros E; apply seg_eqb_eq in E; congruence).
    destruct (seg_ltb_cases x y) as [[_ ->]|[(E & _)|(_ & -> & ->)]]; [split; [by intros [? ?]|done]|done|].
    split; [by intros [? ?]|done].
Qed.

(** [ASPath::operator<] is a strict order on paths with exact counters, and
    two paths are unordered exactly when [operator==] holds of them. *)
Theorem aspath_order p q r : aspath_ok p -> aspath_ok q -> aspath_ok r ->
  aspath_ltb p p = false
  /\ (aspath_ltb p q = true -> aspath_ltb q r = true -> aspath_ltb p r = true)
  /\ (aspath_ltb p q = false /\ aspath_ltb q p = false <-> aspath_eqb p q = true).
Proof.
  intros [Hp _] [Hq _] [Hr _]. unfold aspath_ltb, aspath_eqb. rewrite Hp, Hq, Hr.
  split; [|split].
  - rewrite Z.ltb_irrefl. apply segs_ltb_irrefl.
  - repeat case_if; try done; try lia. apply segs_ltb_trans; lia.
  - destruct (Z.eqb_spec (Z.of_nat (length (segments p))) (Z.of_nat (length (segments q)))) as [E|E]; simpl.
    + rewrite E, Z.ltb_irrefl. apply segs_ltb_total. lia.
    + repeat case_if; try lia; split; try done; by intros [? ?].
Qed.

(** [operator==] compares the AS numbers only: a set and a sequence of the
    same ASes, or a confederation segment and a plain one, are equal paths. *)
Theorem aspath_eqb_ignores_types t t' ns :
  aspath_eqb (add_segment aspath_empty (mkSeg t ns)) (add_segment aspath_empty (mkSeg t' ns)) = true.
Proof. unfold aspath_eqb. simpl. by assert (seg_eqb (mkSeg t ns) (mkSeg t' ns) = true) as -> by (by apply seg_eqb_eq). Qed.

(** ** Aggregation *)

Fixpoint common (a b : list Z) : nat :=
  match a, b with
  | x :: a, y :: b => if x =? y then S (common a b) else O
  | _, _ => O
  end.

Lemma common_bound a b : (common a b <= length a)%nat /\ (common a b <= length b)%nat.
Proof.
  revert b. induction a as [|x a IH]; intros [|y b]; simpl; try lia.
  destruct (x =? y); [|lia]. specialize (IH b). lia.
Qed.

Lemma common_full a b : common a b = length a -> common a b = length b -> a = b.
Proof.
  revert b. induction a as [|x a IH]; intros [|y b]; simpl; try done.
  destruct (Z.eqb_spec x y) as [->|]; [|done]. intros [= H1] [= H2]. f_equal. auto.
Qed.

Lemma common_take a b : take (common a b) a = take (common a b) b.
Proof.
  revert b. induction a as [|x a IH]; intros [|y b]; simpl; try done.
  destruct (Z.eqb_spec x y) as [->|]; [|done]. simpl. by rewrite IH.
Qed.

Lemma seg_as_num_ok t ns i n : ns !! i = Some n -> seg_as_num (mkSeg t ns) (Z.of_nat i) = Ok n.
Proof. intros E. unfold seg_as_num. simpl. by rewrite Nat2Z.id, E. Qed.

Lemma match_elems_common t t' a b i fuel :
  let m := Z.min (Z.of_nat (length a)) (Z.of_nat (length b)) in
  m <= Z.of_nat i + Z.of_nat fuel -> (Z.of_nat i <= m) ->
  match_elems fuel (Z.of_nat i) m (mkSeg t a) (mkSeg t' b)
  = Ok (Z.of_nat (i + common (drop i a) (drop i b))).
Proof.
  revert i. induction fuel as [|fuel IH]; intros i m Hf Hi; cbn [match_elems].
  { assert (drop i a = [] \/ drop i b = []) as Hd.
    { destruct (Nat.le_gt_cases (length a) i); [left|right]; apply drop_ge; lia. }
    f_equal. destruct Hd as [->| ->]; simpl; [lia|]. destruct (drop i a); simpl; lia. }
  destruct (Z.ltb_spec (Z.of_nat i) m) as [Hlt|Hge].
  2:{ assert (drop i a = [] \/ drop i b = []) as Hd.
      { destruct (Nat.le_gt_cases (length a) i); [left|right]; apply drop_ge; lia. }
      f_equal. destruct Hd as [->| ->]; simpl; [lia|]. destruct (drop i a); simpl; lia. }
  destruct (lookup_lt_is_Some_2 a i) as [x Hx]; [lia|]. destruct (lookup_lt_is_Some_2 b i) as [y Hy]; [lia|].
  rewrite (seg_as_num_ok t a i x Hx), (seg_as_num_ok t' b i y Hy). cbn [result_bind].
  rewrite (drop_S a x i Hx), (drop_S b y i Hy). cbn [common]. destruct (x =? y); [|f_equal; lia].
  replace (Z.of_nat i + 1) with (Z.of_nat (S i)) by lia. rewrite IH by lia. f_equal. lia.
Qed.

Definition add_new (l : list Z) (n : Z) : list Z := if list_contains l n then l else l ++ [n].

Lemma add_new_elem l ns n : n ∈ foldl add_new l ns <-> n ∈ l \/ n ∈ ns.
Proof.
  revert l. induction ns as [|x ns IH]; intros l; simpl.
  { split; [by left|]. by intros [?|?%not_elem_of_nil]. }
  rewrite IH, elem_of_cons. unfold add_new. destruct (list_contains l x) eqn:E.
  - apply list_contains_spec in E. split; [tauto|]. intros [?|[->|?]]; auto.
  - rewrite elem_of_app, list_elem_of_singleton. tauto.
Qed.

Lemma agg_elems_spec t t' ns i fuel l : (length ns <= i + fuel)%nat ->
  agg_elems fuel (mkSeg t ns) (Z.of_nat i) (Z.of_nat (length ns)) (mkSeg t' l)
  = Ok (mkSeg t' (foldl add_new l (drop i ns))).
Proof.
  revert i l. induction fuel as [|fuel IH]; intros i l Hf; cbn [agg_elems].
  { by rewrite drop_ge by lia. }
  destruct (Z.ltb_spec (Z.of_nat i) (Z.of_nat (length ns))); [|by rewrite drop_ge by lia].
  destruct (lookup_lt_is_Some_2 ns i) as [x Hx]; [lia|].
  rewrite (seg_as_num_ok t ns i x Hx). cbn [result_bind]. rewrite (drop_S ns x i Hx). cbn [foldl].
  replace (Z.of_nat i + 1) with (Z.of_nat (S i)) by lia. unfold seg_contains, seg_add_as. simpl. unfold add_new at 2.
  destruct (list_contains l x); apply IH; lia.
Qed.

Definition seq_path (ns : list Z) : ASPath := add_segment aspath_empty (mkSeg AS_SEQUENCE ns).

Lemma agg_rest_one ns i l : (i <= length ns)%nat ->
  agg_rest 1 (seq_path ns) 0 0 (Z.of_nat i) (mkSeg AS_SET l)
  = Ok (mkSeg AS_SET (foldl add_new l (drop i ns))).
Proof.
  intros Hi. cbn [agg_rest]. simpl num_segments. change (0 <? 1) with true. cbv iota.
  assert (segment (seq_path ns) 0 = Ok (mkSeg AS_SEQUENCE ns)) as -> by done. cbn [result_bind].
  assert (seg_path_length (mkSeg AS_SEQUENCE ns) = Z.of_nat (length ns)) as -> by done.
  rewrite agg_elems_spec by lia. done.
Qed.

(** The result on two sequences: the common leading ASes, then the set of the
    others. *)
Definition aggregate_spec (a b : list Z) : ASPath :=
  let c := common a b in
  let p := if decide (c = O) then aspath_empty else seq_path (take c a) in
  if decide (a = b) then p
  else add_segment p (mkSeg AS_SET (foldl add_new [] (drop c a ++ drop c b))).

Lemma aggregate_sequences_eq a b : aspath_aggregate (seq_path a) (seq_path b) = Ok (aggregate_spec a b).
Proof.
  unfold aspath_aggregate, aggregate_spec. change (Z.to_nat (num_segments (seq_path a))) with 1%nat.
  cbn [agg_loop agg_curseg]. simpl num_segments. change ((0 <? 0 + 1) && (0 <? 0 + 1)) with true. cbv iota.
  assert (forall ns, segment (seq_path ns) 0 = Ok (mkSeg AS_SEQUENCE ns)) as Hseg by done. rewrite !Hseg.
  cbn [result_bind seg_type aslist]. rewrite decide_True by done.
  assert (forall ns, seg_path_length (mkSeg AS_SEQUENCE ns) = Z.of_nat (length ns)) as Hlen by done. rewrite !Hlen.
  rewrite (match_elems_common AS_SEQUENCE AS_SEQUENCE a b 0) by lia.
  rewrite !drop_0. simpl Nat.add. cbn [result_bind agg_path]. rewrite Nat2Z.id.
  destruct (common_bound a b) as [Ba Bb]. pose proof (common_full a b) as Hfull.
  assert ((Z.of_nat (common a b) =? 0) = bool_decide (common a b = O)) as ->.
  { apply bool_eq_iff. rewrite Z.eqb_eq, bool_decide_eq_true. lia. }
  rewrite <- decide_bool_decide.
  assert (common b b = length b) as Hself by (clear; induction b; simpl; [done|]; rewrite Z.eqb_refl; lia).
  destruct ((Z.of_nat (common a b) <? Z.of_nat (length a)) || (Z.of_nat (common a b) <? Z.of_nat (length b))) eqn:E.
  - rewrite (decide_False (P := a = b)) by (intros ->; bool_prop; lia).
    cbn [result_bind agg_fullmatch agg_curseg agg_matchelem].
    change (Z.to_nat (0 + 1 - 0)) with 1%nat. rewrite agg_rest_one by done. cbn [result_bind]. rewrite agg_rest_one by done. cbn [result_bind agg_path].
    by rewrite foldl_app.
  - bool_prop. rewrite (decide_True (P := a = b)) by (apply Hfull; lia). done.
Qed.

Lemma elem_take_drop (n : Z) c l : n ∈ l <-> n ∈ take c l \/ n ∈ drop c l.
Proof. rewrite <- elem_of_app. by rewrite take_drop. Qed.

(** The aggregate of two paths that are one AS_SEQUENCE each has exact
    counters, begins with their common leading ASes, in order, and contains the
    ASes of both and no other: the loop check of a receiver still sees them
    all. *)
Theorem aggregate_sequences a b :
  exists p, aspath_aggregate (seq_path a) (seq_path b) = Ok p /\ aspath_ok p
    /\ take (common a b) (as_flat p) = take (common a b) a
    /\ forall n, aspath_contains p n = true <-> n ∈ a \/ n ∈ b.
Proof.
  rewrite aggregate_sequences_eq. eexists. split; [done|]. unfold aggregate_spec.
  set (c := common a b). pose proof (common_take a b) as Ht. fold c in Ht.
  set (p := if decide (c = O) then aspath_empty else seq_path (take c a)).
  assert (aspath_ok p) as Hp by (unfold p; case_decide; [done|by apply add_segment_ok]).
  assert (as_flat p = take c a) as Hflat.
  { unfold p. case_decide as E; [by rewrite E|]. unfold as_flat. simpl. by rewrite app_nil_r. }
  assert (forall n, n ∈ a \/ n ∈ b <-> n ∈ take c a \/ n ∈ drop c a \/ n ∈ drop c b) as Hel.
  { intros n. rewrite (elem_take_drop n c a), (elem_take_drop n c b), <- Ht. tauto. }
  destruct (decide (a = b)) as [Eab|Eab].
  - split; [done|]. rewrite Hflat. split; [by rewrite take_take, Nat.min_id|].
    intros n. rewrite aspath_contains_spec, Hflat, Hel.
    assert (c = length a /\ c = length b) as [Ea Eb].
    { subst b. unfold c. clear. induction a as [|x a IH]; simpl; [done|]. rewrite Z.eqb_refl. lia. }
    rewrite !drop_ge by lia. pose proof (not_elem_of_nil n). tauto.
  - split; [by apply add_segment_ok|].
    assert (as_flat (add_segment p (mkSeg AS_SET (foldl add_new [] (drop c a ++ drop c b))))
            = take c a ++ foldl add_new [] (drop c a ++ drop c b)) as Hf2.
    { unfold as_flat in *. simpl. rewrite map_app, concat_app, Hflat. simpl. by rewrite app_nil_r. }
    rewrite Hf2. split.
    + rewrite take_app_le; [by rewrite take_take, Nat.min_id|]. rewrite length_take.
      pose proof (common_bound a b). fold c in H. lia.
    + intros n. rewrite aspath_contains_spec, Hf2, Hel, elem_of_app, add_new_elem, elem_of_app.
      pose proof (not_elem_of_nil n). tauto.
Qed.

(** In general the aggregate loses ASes: when the segments at one position
    have different types, or one path has more segments than the other, what is
    left of both paths is dropped instead of being put in a set.  Of "1" and
    "{2}" the aggregate is the empty path. *)
Theorem aggregate_loses_ases :
  let p1 := seq_path [1] in
  let p2 := add_segment aspath_empty (mkSeg AS_SET [2]) in
  aspath_aggregate p1 p2 = Ok aspath_empty
  /\ aspath_aggregate p1 (add_segment p1 (mkSeg AS_SET [2; 3])) = Ok p1.
Proof. by vm_compute. Qed.

(** ** The merge of AS_PATH and AS4_PATH *)

Lemma suffix_match_ok t t' old new fuel i :
  (length new <= length old)%nat ->
  map as16 (drop (length old - length new) old) = map as16 new -> (1 <= i)%nat ->
  suffix_match fuel (Z.of_nat i) (mkSeg t old) (mkSeg t' new) = Ok true.
Proof.
  intros Hl Hs. revert i. induction fuel as [|fuel IH]; intros i Hi; [done|]. cbn [suffix_match].
  unfold as_size. cbn [aslist].
  destruct (Z.leb_spec (Z.of_nat i) (Z.of_nat (length new))); [|done].
  destruct (Z.ltb_spec (Z.of_nat (length old)) (Z.of_nat i)); [lia|].
  replace (Z.of_nat (length old) - Z.of_nat i) with (Z.of_nat (length old - i)) by lia.
  replace (Z.of_nat (length new) - Z.of_nat i) with (Z.of_nat (length new - i)) by lia.
  destruct (lookup_lt_is_Some_2 old (length old - i)) as [x Hx]; [lia|].
  destruct (lookup_lt_is_Some_2 new (length new - i)) as [y Hy]; [lia|].
  rewrite (seg_as_num_ok t old _ x Hx), (seg_as_num_ok t' new _ y Hy). cbn [result_bind].
  assert (as16 x = as16 y) as ->.
  { assert (map as16 new !! (length new - i)%nat = Some (as16 y)) as E by (by rewrite list_lookup_fmap, Hy).
    rewrite <- Hs, list_lookup_fmap, lookup_drop in E.
    replace (length old - length new + (length new - i))%nat with (length old - i)%nat in E by lia.
    rewrite Hx in E. simpl in E. congruence. }
  rewrite Z.eqb_refl. replace (Z.of_nat i + 1) with (Z.of_nat (S i)) by lia. apply IH. lia.
Qed.

Lemma pad_segment_sequences old new fuel : (length new <= length old)%nat ->
  map as16 (drop (length old - length new) old) = map as16 new ->
  let k := (length old - length new)%nat in
  pad_segment fuel (mkSeg AS_SEQUENCE old) (mkSeg AS_SEQUENCE new)
  = Some (Ok (mkSeg AS_SEQUENCE (take k old ++ new), Z.of_nat k)).
Proof.
  intros Hl Hs k. unfold pad_segment. cbn [seg_type aslist].
  rewrite !decide_False by done. rewrite (suffix_match_ok AS_SEQUENCE AS_SEQUENCE old new _ 1) by (done || lia).
  cbn [dbind]. unfold as_size. cbn [aslist].
  replace (Z.to_nat (Z.of_nat (length old) - Z.of_nat (length new))) with k by lia.
  by rewrite length_take_le by lia.
Qed.

Lemma as16_idemp n : as16 (as16 n) = as16 n.
Proof.
  unfold as16, extended, AS_TRAN. destruct (Z.ltb_spec 0xffff n); [done|].
  destruct (Z.ltb_spec 0xffff n); [lia|done].
Qed.

Lemma seq_segment l : segment (seq_path l) (num_segments (seq_path l) - 1) = Ok (mkSeg AS_SEQUENCE l).
Proof. done. Qed.
Lemma seq_length l : seg_path_length (mkSeg AS_SEQUENCE l) = Z.of_nat (length l).
Proof. done. Qed.

Lemma validate_sequences pre new fuel : pre <> [] ->
  validate_seg fuel (seq_path new) (seq_path (pre ++ map as16 new)) 1 = Some (Ok (seq_path (pre ++ new))).
Proof.
  intros Hpre. assert (length pre <> O) as Hne by (by destruct pre).
  unfold validate_seg. rewrite !seq_segment. cbn [dbind]. rewrite !seq_length, length_app, length_map.
  destruct (Z.eqb_spec (Z.of_nat (length pre + length new)) (Z.of_nat (length new))); [lia|].
  destruct (Z.ltb_spec (Z.of_nat (length pre + length new)) (Z.of_nat (length new))); [lia|].
  cbn [dbind]. rewrite seq_segment. cbn [dbind]. rewrite seq_length.
  destruct (Z.ltb_spec (Z.of_nat (length new)) (Z.of_nat (length pre + length new))); [|lia].
  rewrite pad_segment_sequences; rewrite length_app, length_map;
    replace (length pre + length new - length new)%nat with (length pre) by lia; [|lia|].
  - rewrite take_app_length. cbn [dbind fst snd]. unfold seq_path, add_segment. simpl.
    rewrite !seq_length, length_app. do 3 f_equal. lia.
  - rewrite drop_app_length, map_map. apply map_ext. apply as16_idemp.
Qed.

(** The usual merge: a 2-octet speaker has prepended ASes to an AS_PATH
    whose end is the 16-bit image of the AS4_PATH, both one sequence.  The result
    is the prepended ASes followed by the 4-octet ones; both paths end up with
    it, with exact counters, and its 16-bit image is the AS_PATH received. *)
Theorem merge_sequences pre new fuel : pre <> [] -> Forall (fun n => extended n = false) pre ->
  let received := seq_path (pre ++ map as16 new) in
  let merged := seq_path (pre ++ new) in
  merge_as4_path fuel received (seq_path new) = Some (Ok (merged, merged))
  /\ path_map as16 merged = received.
Proof.
  intros Hpre Hsmall received merged.
  assert (length pre <> O) as Hne by (by destruct pre).
  assert (forall l, path_len (seq_path l) = Z.of_nat (length l)) as Hlen by done.
  assert (path_len received = path_len merged) as Hrm.
  { unfold received, merged. rewrite !Hlen, !length_app, length_map. done. }
  assert (path_len (seq_path new) < path_len received) as Hlt.
  { unfold received. rewrite !Hlen, length_app, length_map. lia. }
  split.
  - unfold merge_as4_path, cross_validate.
    destruct (Z.ltb_spec (path_len received) (path_len (seq_path new))); [lia|].
    destruct (Z.ltb_spec (path_len (seq_path new)) (path_len received)); [|lia].
    change (num_segments received <? num_segments (seq_path new)) with false. cbv iota.
    change (Z.to_nat (num_segments received)) with 1%nat. cbn [validate_loop].
    change (1 <=? num_segments (seq_path new)) with true. cbv iota.
    rewrite (validate_sequences pre new fuel Hpre : validate_seg fuel (seq_path new) received 1 = _). cbn [dbind].
    change (1 + 1 <=? num_segments (seq_path (pre ++ new))) with false. cbv iota. cbn [dbind].
    fold merged. rewrite (proj2 (Z.eqb_eq _ _) Hrm). cbn [dbind]. unfold aspath_assign. rewrite Hrm. done.
  - unfold path_map, merged, received, seq_path, add_segment, seg_map. simpl.
    assert (map as16 (pre ++ new) = pre ++ map as16 new) as ->.
    { rewrite map_app. f_equal. rewrite <- (map_id pre) at 2. apply map_ext_in. intros n Hn.
      rewrite Forall_forall in Hsmall. unfold as16. rewrite Hsmall; [done|]. by apply list_elem_of_In. }
    rewrite !seq_length, !length_app, length_map. done.
Qed.

(** [pad_segment] does not return when the AS4_PATH segment is a set that
    ends up larger than the AS_PATH segment: its loop "to match size" runs while
    the new segment is the larger one and makes it larger.  The AS_PATH [1, 2]
    with the AS4_PATH set of three 4-octet ASes is such a case, so that a peer
    can hang the process. *)
Theorem merge_hangs fuel :
  merge_as4_path fuel (seq_path [1; 2]) (add_segment aspath_empty (mkSeg AS_SET [70000; 70001; 70002])) = None.
Proof.
  unfold merge_as4_path, cross_validate.
  assert (forall l, (3 <= length l)%nat -> pad_inflate fuel 2 (mkSeg AS_SET l) = None) as Hloop.
  { induction fuel as [|f IH]; intros l Hl; simpl.
    - unfold as_size. simpl. destruct (Z.ltb_spec 2 (Z.of_nat (length l))); [done|lia].
    - unfold as_size. simpl. destruct (Z.ltb_spec 2 (Z.of_nat (length l))); [|lia].
      destruct l as [|x l]; [simpl in Hl; lia|]. simpl. apply IH. simpl in *. lia. }
  assert (pad_segment fuel (mkSeg AS_SEQUENCE [1; 2]) (mkSeg AS_SET [70000; 70001; 70002]) = None) as Hpad.
  { unfold pad_segment. rewrite decide_True by done. unfold pad_set.
    change (pad_missing _ _) with (mkSeg AS_SET [1; 2; 70000; 70001; 70002]).
    change (as_size (mkSeg AS_SEQUENCE [1; 2])) with 2. rewrite Hloop; [done|]. simpl. lia. }
  cbv -[pad_segment]. by rewrite Hpad.
Qed.

(** [remove_confed_segments] does not keep the counters: a confederation
    sequence of two ASes shortens [_path_len] by one only; and it erases every
    segment with the same AS numbers, so that a plain sequence elsewhere in the
    path goes with the confederation segment. *)
Theorem remove_confed_wrong :
  (exists p p', aspath_ok p /\ remove_confed_segments p = Ok p' /\ ~ aspath_ok p')
  /\ (exists p p', aspath_ok p /\ remove_confed_segments p = Ok p'
        /\ In (mkSeg AS_SEQUENCE [1]) (segments p) /\ ~ In (mkSeg AS_SEQUENCE [1]) (segments p')).
Proof.
  split.
  - exists (foldl add_segment aspath_empty [mkSeg AS_CONFED_SEQUENCE [1; 2]; mkSeg AS_SEQUENCE [3]]).
    eexists. split; [by apply add_segments_ok|]. split; [by vm_compute|]. unfold aspath_ok. vm_compute. intuition discriminate.
  - exists (foldl add_segment aspath_empty [mkSeg AS_CONFED_SEQUENCE [1]; mkSeg AS_SET [2]; mkSeg AS_SEQUENCE [1]]).
    eexists. split; [by apply add_segments_ok|]. split; [by vm_compute|]. vm_compute. intuition discriminate.
Qed.

(** ** Concrete paths *)

(** "65000 70000 {1,2}". *)
Definition sample_mixed : ASPath :=
  foldl add_segment aspath_empty [mkSeg AS_SEQUENCE [65000; 70000]; mkSeg AS_SET [1; 2]].

Lemma sample_mixed_ok : path_wire_ok sample_mixed.
Proof. split; [done|]. repeat constructor; simpl; lia. Qed.

Lemma aspath_wire_roundtrip_witness : exists b, aspath_encode sample_mixed = Ok b
  /\ Z.of_nat (length b) = aspath_wire_size sample_mixed
  /\ aspath_decode (b ++ [7]) (aspath_wire_size sample_mixed) = Ok (path_map as16 sample_mixed).
Proof. apply (aspath_wire_roundtrip sample_mixed [7]). exact sample_mixed_ok. Defined.

Lemma as4path_wire_roundtrip_witness : exists b, as4path_encode sample_mixed = Ok b
  /\ Z.of_nat (length b) = as4path_wire_size sample_mixed
  /\ as4path_decode (b ++ [7]) (as4path_wire_size sample_mixed) = Ok sample_mixed.
Proof. apply (as4path_wire_roundtrip sample_mixed [7]). exact sample_mixed_ok. Defined.

Lemma aspath_decode_encode_witness :
  path_wire_ok (seq_path [258; 3]) /\ aspath_encode (seq_path [258; 3]) = Ok [2; 2; 1; 2; 0; 3].
Proof. apply (aspath_decode_encode [2; 2; 1; 2; 0; 3; 9] 6); [repeat constructor; lia|simpl; lia|reflexivity]. Defined.

Lemma as4path_decode_encode_witness :
  path_wire_ok (seq_path [65538]) /\ as4path_encode (seq_path [65538]) = Ok [2; 1; 0; 1; 0; 2].
Proof. apply (as4path_decode_encode [2; 1; 0; 1; 0; 2; 9] 6); [repeat constructor; lia|simpl; lia|reflexivity]. Defined.

Lemma aspath_decode_safe_witness :
  (exists p, aspath_decode [2; 3; 0; 1; 0] 4 = Ok p) \/ aspath_decode [2; 3; 0; 1; 0] 4 = Throw CorruptMessage.
Proof. apply aspath_decode_safe; [repeat constructor; lia|simpl; lia]. Defined.

Lemma as4path_decode_aborts_witness :
  as4path_decode [2; 1] 2 = Throw AssertFailed /\ aspath_decode [2; 1] 2 = Throw CorruptMessage.
Proof. apply (as4path_decode_aborts 1 []). lia. Defined.

Lemma prepend_as_correct_witness : exists p', prepend_as sample_mixed 7 = Ok p' /\ aspath_ok p'
  /\ as_flat p' = 7 :: as_flat sample_mixed /\ path_len p' = path_len sample_mixed + 1 /\ aspath_first_asnum p' = Ok 7.
Proof. apply prepend_as_correct; [done|by right]. Defined.

Lemma prepend_as_full_segment_witness :
  exists p', prepend_as (seq_path (replicate 255 9)) 7 = Ok p' /\ aspath_encode p' = Throw AssertFailed.
Proof. apply (prepend_as_full_segment (replicate 255 9) [] 7). reflexivity. Defined.

Lemma aspath_order_witness : aspath_ltb sample_mixed sample_mixed = false
  /\ (aspath_ltb sample_mixed (seq_path [1]) = true -> aspath_ltb (seq_path [1]) (seq_path [2]) = true ->
      aspath_ltb sample_mixed (seq_path [2]) = true)
  /\ (aspath_ltb sample_mixed (seq_path [1]) = false /\ aspath_ltb (seq_path [1]) sample_mixed = false
      <-> aspath_eqb sample_mixed (seq_path [1]) = true).
Proof. apply (aspath_order sample_mixed (seq_path [1]) (seq_path [2])); by_eval. Defined.

Lemma merge_sequences_witness :
  merge_as4_path 0 (seq_path [64512; 23456; 23456]) (seq_path [70000; 80000])
  = Some (Ok (seq_path [64512; 70000; 80000], seq_path [64512; 70000; 80000]))
  /\ path_map as16 (seq_path [64512; 70000; 80000]) = seq_path [64512; 23456; 23456].
Proof. apply (merge_sequences [64512] [70000; 80000] 0); [done|by repeat constructor]. Defined.
