(* ===== verification/Decision.v ===== *)
(** * The BGP decision process (bgp/route_table_decision.cc)

    [DecisionTable] for one subnet: the upstream tables hold at most one route
    each for it, and the downstream table is told of the winner.  [find_winner]
    is the cascade of the source, with its C++ conversions: the preferences, MEDs
    and distances are compared as [int].  The next hop resolver is a parameter:
    a function from next hops to resolvability and metric. *)

From Stdlib Require Import ZArith Lia.
From stdpp Require Import base tactics option numbers list.
From S2P Require Import Prelude Word32 IPv4 AsPath.
Local Open Scope Z_scope.
Local Open Scope xorp_scope.

(** The conversion of a [uint32_t] or [size_t] to [int]. *)
Definition s32 (x : Z) : Z := (x + 2 ^ 31) mod 2 ^ 32 - 2 ^ 31.

Lemma s32_small x : 0 <= x < 2 ^ 31 -> s32 x = x.
Proof. intros Hx. unfold s32. rewrite Z.mod_small; lia. Qed.

Record PeerHandler := mkPeer { get_unique_id : Z; ibgp : bool; bgp_id : IPv4 }.

(** [neighbour_address()]: the address of the BGP ID. *)
Definition neighbour_address (p : PeerHandler) : Z := ipv4_addr (bgp_id p).

Record PAList (N : Type) := mkPA {
  local_pref_att : option Z; aspath : ASPath; origin : Z; med_att : option Z; nexthop : N }.
Arguments mkPA {N}. Arguments local_pref_att {N}. Arguments aspath {N}.
Arguments origin {N}. Arguments med_att {N}. Arguments nexthop {N}.

(** A [SubnetRoute] without its flags; [rid] is its identity (its address). *)
Record SubnetRoute (N : Type) := mkRoute { rid : Z; attributes : PAList N; nexthop_resolved : bool }.
Arguments mkRoute {N}. Arguments rid {N}. Arguments attributes {N}. Arguments nexthop_resolved {N}.

Record RouteData (N : Type) := mkRD {
  rd_route : SubnetRoute N; parent_table : Z; peer_handler : PeerHandler; genid : Z }.
Arguments mkRD {N}. Arguments rd_route {N}. Arguments parent_table {N}.
Arguments peer_handler {N}. Arguments genid {N}.

Section FindWinner.
Context `{HostOrder} {N : Type}.
Variable resolver : N -> option (bool * Z).
Abbreviation RouteData := (RouteData N).
Implicit Types (r : RouteData) (l : list RouteData).

Definition pa r : PAList N := attributes (rd_route r).

Definition local_pref (p : PAList N) : Z := match local_pref_att p with Some v => v | None => 0 end.
Definition med (p : PAList N) : Z := match med_att p with Some v => v | None => 0 end.

Definition resolvable (nh : N) : result xorp_exn bool :=
  match resolver nh with Some (b, _) => Ok b | None => Throw Fatal end.
Definition igp_distance (nh : N) : result xorp_exn Z :=
  match resolver nh with Some (_, m) => Ok m | None => Throw Fatal end.

(** One pass of the cascade: [test] is the key of the routes kept so far; a
    better route erases them, a worse one is erased. *)
Fixpoint pass {X} (key : RouteData -> result xorp_exn X) (worse better : X -> X -> bool)
    (keep : list RouteData) (test : X) (rest : list RouteData) : result xorp_exn (list RouteData) :=
  match rest with
  | [] => Ok keep
  | r :: rest =>
      k <-! key r ;;
      if worse k test then pass key worse better keep test rest
      else if better k test then pass key worse better [r] k rest
      else pass key worse better (keep ++ [r]) test rest
  end.

(** A pass is skipped when one route is left; [key0] is read on the first route. *)
Definition stage {X} (key0 key : RouteData -> result xorp_exn X) (worse better : X -> X -> bool) l
  : result xorp_exn (list RouteData) :=
  match l with
  | [] => Ok []
  | [r] => Ok [r]
  | r :: rest => t <-! key0 r ;; pass key worse better [r] t rest
  end.

Definition lp_key r : result xorp_exn Z := Ok (s32 (local_pref (pa r))).
Definition lp_key_checked r : result xorp_exn Z :=
  let lp := s32 (local_pref (pa r)) in if lp <? 0 then Throw AssertFailed else Ok lp.
Definition len_key r : result xorp_exn Z := Ok (s32 (path_len (aspath (pa r)))).
Definition len_key_checked r : result xorp_exn Z :=
  let n := s32 (path_len (aspath (pa r))) in if n <? 0 then Throw AssertFailed else Ok n.
Definition origin_key r : result xorp_exn Z := Ok (origin (pa r)).
Definition ibgp_key r : result xorp_exn bool := Ok (ibgp (peer_handler r)).
Definition igp_key r : result xorp_exn Z := d <-! igp_distance (nexthop (pa r)) ;; Ok (s32 d).
Definition id_key r : result xorp_exn IPv4 := Ok (bgp_id (peer_handler r)).
Definition addr_key r : result xorp_exn Z := Ok (s32 (neighbour_address (peer_handler r))).

Definition higher (k t : Z) : bool := t <? k.
Definition lower (k t : Z) : bool := k <? t.

(** The neighbour AS of the MED test. *)
Definition neighbour_as r : result xorp_exn Z :=
  let p := aspath (pa r) in if path_len p =? 0 then Ok 0 else aspath_first_asnum p.
Definition med_key r : Z := s32 (med (pa r)).

(** The inner loop of the MED test, over a part of the list without [i]: the
    part after it, and whether [i] is to be erased. *)
Fixpoint med_scan (asnum1 med1 : Z) l : result xorp_exn (list RouteData * bool) :=
  match l with
  | [] => Ok ([], false)
  | j :: l =>
      asnum2 <-! neighbour_as j ;;
      let med2 := med_key j in
      if asnum1 =? asnum2 then
        if med2 <? med1 then Ok (j :: l, true)
        else if med1 <? med2 then med_scan asnum1 med1 l
        else s <-! med_scan asnum1 med1 l ;; Ok (j :: fst s, snd s)
      else s <-! med_scan asnum1 med1 l ;; Ok (j :: fst s, snd s)
  end.

(** The outer loop: [pre] is before the iterator, [post] from it on. *)
Fixpoint med_loop (fuel : nat) (pre post : list RouteData) : result xorp_exn (list RouteData) :=
  match post, fuel with
  | [], _ => Ok pre
  | _ :: _, O => Throw Fatal
  | i :: post, S fuel =>
      asnum1 <-! neighbour_as i ;;
      let med1 := med_key i in
      s1 <-! med_scan asnum1 med1 pre ;;
      if snd s1 : bool then med_loop fuel (fst s1) post
      else
        s2 <-! med_scan asnum1 med1 post ;;
        if snd s2 : bool then med_loop fuel (fst s1) (fst s2)
        else med_loop fuel (fst s1 ++ [i]) (fst s2)
  end.
Definition med_stage l : result xorp_exn (list RouteData) :=
  match l with [r] => Ok [r] | _ => med_loop (length l) [] l end.

Definition find_winner l : result xorp_exn (option RouteData) :=
  let l := filter (fun r => nexthop_resolved (rd_route r) = true) l in
  l <-! stage lp_key lp_key_checked lower higher l ;;
  l <-! stage len_key len_key_checked higher lower l ;;
  l <-! stage origin_key origin_key higher lower l ;;
  l <-! med_stage l ;;
  l <-! stage ibgp_key ibgp_key (fun k t => negb t && k) (fun k t => t && negb k) l ;;
  l <-! stage igp_key igp_key higher lower l ;;
  l <-! stage id_key id_key (fun k t => ipv4_ltb t k) (fun k t => ipv4_ltb k t) l ;;
  l <-! stage addr_key addr_key higher lower l ;;
  Ok (head l).
End FindWinner.

(** ** The table *)

Definition ADD_USED : Z := 1.
Definition ADD_UNUSED : Z := 2.

(** An upstream branch: its identity, its peering, and its route for the subnet
    with the flags of that route (SRF_WINNER and the recorded metric). *)
Record Parent (N : Type) := mkParent {
  p_table : Z; p_peer : PeerHandler; p_genid : Z;
  p_route : option (SubnetRoute N); p_winner : bool; p_igp_metric : Z }.
Arguments mkParent {N}. Arguments p_table {N}. Arguments p_peer {N}. Arguments p_genid {N}.
Arguments p_route {N}. Arguments p_winner {N}. Arguments p_igp_metric {N}.

(** What the table sends: to the next table, and [route_used] to a parent. *)
Inductive event (N : Type) :=
  | EvDelete (r : RouteData N) (push : bool)
  | EvAdd (r : RouteData N) (push : bool)
  | EvReplace (old new : RouteData N) (old_push push : bool)
  | EvPush
  | EvRouteUsed (r : RouteData N) (used : bool).
Arguments EvDelete {N}. Arguments EvAdd {N}. Arguments EvReplace {N}. Arguments EvPush {N}.
Arguments EvRouteUsed {N}.

Section Table.
Context `{HostOrder} {N : Type}.
Variable resolver : N -> option (bool * Z).
(** What the next table answers to an add or a replace. *)
Variable next_result : Z.
Abbreviation RouteData := (RouteData N).
Abbreviation table := (list (Parent N)).
Implicit Types (st : table) (r : RouteData).

(** [add_parent] and [remove_parent]: a branch is known by its table, and the
    sorted map has one branch per peer. *)
Definition add_parent st (new_parent : Z) (peer : PeerHandler) (gen : Z) : result xorp_exn (Z * table) :=
  if existsb (fun p => p_table p =? new_parent) st then Ok (-1, st)
  else if existsb (fun p => get_unique_id (p_peer p) =? get_unique_id peer) st then Throw AssertFailed
  else Ok (0, st ++ [mkParent new_parent peer gen None false 0]).
Definition remove_parent st (ex_parent : Z) : table := filter (fun p => p_table p <> ex_parent) st.

Definition parent_rd (p : Parent N) : option RouteData :=
  match p_route p with Some rt => Some (mkRD rt (p_table p) (p_peer p) (p_genid p)) | None => None end.

(** The branches other than the caller's. *)
Definition others st (caller : Z) : table := filter (fun p => p_table p <> caller) st.

(** [find_alternative_routes]: the routes of the other branches, and the one
    among them that is the winner. *)
Fixpoint find_previous (ps : table) (prev : option RouteData) : result xorp_exn (option RouteData) :=
  match ps with
  | [] => Ok prev
  | p :: ps =>
      match parent_rd p with
      | Some r => if p_winner p then
                    match prev with Some _ => Throw AssertFailed | None => find_previous ps (Some r) end
                  else find_previous ps prev
      | None => find_previous ps prev
      end
  end.
Definition find_alternative_routes st (caller : Z) : result xorp_exn (list RouteData * option RouteData) :=
  prev <-! find_previous (others st caller) None ;;
  Ok (omap parent_rd (others st caller), prev).

(** [set_is_winner] and [set_is_not_winner] on a route, which is the route of
    its parent if the parent still has it. *)
Definition on_route (id : Z) (f : Parent N -> Parent N) st : table :=
  map (fun p => match p_route p with
                | Some rt => if rid rt =? id then f p else p
                | None => p
                end) st.
Definition set_is_winner (id metric : Z) : table -> table :=
  on_route id (fun p => mkParent (p_table p) (p_peer p) (p_genid p) (p_route p) true metric).
Definition set_is_not_winner (id : Z) : table -> table :=
  on_route id (fun p => mkParent (p_table p) (p_peer p) (p_genid p) (p_route p) false (p_igp_metric p)).

Definition rid_of r : Z := rid (rd_route r).
Definition same_route r r' : bool := rid_of r =? rid_of r'.
Definition nh r : N := nexthop (pa r).

(** [add_route]: [new] is the route of the message, already in the caller's
    table. *)
Definition dt_add_route st (new : RouteData) (push : bool) : result xorp_exn (Z * table * list (event N)) :=
  can <-! resolvable resolver (nh new) ;;
  if negb (Bool.eqb (nexthop_resolved (rd_route new)) can) then Throw AssertFailed
  else if negb can then Ok (ADD_UNUSED, st, [])
  else
    alts <-! find_alternative_routes st (parent_table new) ;;
    let '(alternatives, old_winner) := alts in
    w <-! match alternatives with
          | [] => Ok (Some new)
          | _ => find_winner resolver (alternatives ++ [new])
          end ;;
    match w with
    | None => Throw AssertFailed
    | Some new_winner =>
        let announce st evs :=
          d <-! igp_distance resolver (nh new_winner) ;;
          let result := if next_result =? ADD_UNUSED then ADD_USED else next_result in
          Ok (result, set_is_winner (rid_of new_winner) d st, evs ++ [EvAdd new_winner push]) in
        match old_winner with
        | Some old =>
            if same_route old new_winner then Ok (ADD_UNUSED, st, [])
            else announce (set_is_not_winner (rid_of old) st) [EvDelete old false; EvRouteUsed old false]
        | None => announce st []
        end
    end.

(** [delete_route]: [old] is the route of the message, no longer in the caller's
    table; [was_winner] is its flag. *)
Definition dt_delete_route st (old : RouteData) (was_winner push : bool)
  : result xorp_exn (Z * table * list (event N)) :=
  alts <-! find_alternative_routes st (parent_table old) ;;
  let '(alternatives, old_winner) := alts in
  let old_winner := match old_winner with
                    | Some o => Some o
                    | None => if was_winner then Some old else None
                    end in
  new_winner <-! match alternatives with [] => Ok None | _ => find_winner resolver alternatives end ;;
  match old_winner, new_winner with
  | None, None => Ok (-1, st, [])
  | _, _ =>
      if match old_winner, new_winner with Some o, Some w => same_route o w | _, _ => false end
      then Ok (-1, st, [])
      else
        let '(st, evs) :=
          match old_winner with
          | None => (st, [])
          | Some o =>
              if same_route o old
              then (st, [EvDelete old (match new_winner with None => push | _ => false end)])
              else (set_is_not_winner (rid_of o) st,
                    [EvDelete o (match new_winner with None => push | _ => false end); EvRouteUsed o false])
          end in
        match new_winner with
        | None => Ok (0, st, evs)
        | Some w =>
            d <-! igp_distance resolver (nh w) ;;
            Ok (0, set_is_winner (rid_of w) d st,
                evs ++ [EvAdd w false] ++ (if push then [EvPush] else []))
        end
  end.

(** [replace_route]: [new] has taken the place of [old] in the caller's table. *)
Definition dt_replace_route st (old : RouteData) (was_winner old_push : bool) (new : RouteData) (new_push : bool)
  : result xorp_exn (Z * table * list (event N)) :=
  alts <-! find_alternative_routes st (parent_table new) ;;
  let '(alternatives, old_winner) := alts in
  match (match old_winner with Some o => Some o | None => if was_winner then Some old else None end) with
  | None => dt_add_route st new new_push
  | Some ow =>
      w <-! match alternatives with
            | [] => can <-! resolvable resolver (nh new) ;; Ok (if can : bool then Some new else None)
            | _ => find_winner resolver (alternatives ++ [new])
            end ;;
      match w with
      | None =>
          d <-! dt_delete_route st old was_winner old_push ;;
          let '(_, st, evs) := d in
          Ok (ADD_UNUSED, st, evs ++ (if new_push && negb old_push then [EvPush] else []))
      | Some new_winner =>
          if same_route new_winner ow then Ok (ADD_USED, st, [])
          else
            let '(st, used, del_push) :=
              if same_route ow old then (st, [], false)
              else (set_is_not_winner (rid_of ow) st, [EvRouteUsed ow false], false) in
            d <-! igp_distance resolver (nh new_winner) ;;
            let st := set_is_winner (rid_of new_winner) d st in
            let evs :=
              if get_unique_id (peer_handler ow) =? get_unique_id (peer_handler new_winner)
              then [EvReplace ow new_winner del_push new_push]
              else [EvDelete ow del_push; EvAdd new_winner new_push] in
            Ok (next_result, st, used ++ evs)
      end
  end.

(** The first [lookup_route]: the winner outside [ignore_parent], else the best
    of those routes. *)
Definition dt_lookup_alternative st (ignore_parent : Z) : result xorp_exn (option RouteData) :=
  alts <-! find_alternative_routes st ignore_parent ;;
  match snd alts, fst alts with
  | Some w, _ => Ok (Some w)
  | None, [] => Ok None
  | None, l => find_winner resolver l
  end.

(** The second [lookup_route]: the winner, if there is one. *)
Definition dt_lookup_route st : result xorp_exn (option RouteData) := find_previous st None.
End Table.
