(* ===== verification/DecisionProps.v ===== *)
(** * Properties of the BGP decision process (bgp/route_table_decision.cc)

    [find_winner] is the composition of eight selections, each independent of
    the order of the routes; the table keeps the downstream table told of one
    winner, which is a best route among those of all branches. *)

From Stdlib Require Import ZArith Lia.
From stdpp Require Import base tactics option numbers list.
From S2P Require Import Prelude Word32 Addr IPv4 Sample AsPath Decision.
Local Open Scope Z_scope.

Section Selections.
Context {X : Type}.
Implicit Types (l : list X) (key : X -> Z).

(** The elements with the least key. *)
Definition mins_by key l : list X := filter (fun x => Forall (fun y => key x <= key y) l) l.

Lemma elem_mins_by key l x : x ∈ mins_by key l <-> x ∈ l /\ forall y, y ∈ l -> key x <= key y.
Proof. unfold mins_by. rewrite list_elem_of_filter, Forall_forall. split; intros [? ?]; split; auto. Qed.

Lemma filter_ext_in (P Q : X -> Prop) `{!forall x, Decision (P x), !forall x, Decision (Q x)} l :
  (forall x, x ∈ l -> P x <-> Q x) -> filter P l = filter Q l.
Proof.
  induction l as [|x l IH]; intros Hpq; [done|].
  assert (forall y, y ∈ l -> P y <-> Q y) as Hl by (intros y Hy; apply Hpq; by right).
  assert (P x <-> Q x) as Hx by (apply Hpq; left).
  destruct (decide (P x)).
  - rewrite !filter_cons_True by tauto. by rewrite IH.
  - rewrite !filter_cons_False by tauto. by apply IH.
Qed.

Lemma filter_none (P : X -> Prop) `{!forall x, Decision (P x)} l : (forall x, x ∈ l -> ~ P x) -> filter P l = [].
Proof.
  induction l as [|x l IH]; intros Hn; [done|]. rewrite filter_cons_False by (apply Hn; left).
  apply IH. intros y Hy. apply Hn. by right.
Qed.

(** The least key of a list that starts with [test]. *)
Fixpoint least key (test : Z) l : Z :=
  match l with [] => test | x :: l => least key (Z.min test (key x)) l end.

Lemma least_spec key t l : least key t l <= t /\ (forall x, x ∈ l -> least key t l <= key x)
  /\ (least key t l = t \/ exists x, x ∈ l /\ key x = least key t l).
Proof.
  revert t. induction l as [|x l IH]; intros t; simpl.
  { split; [lia|]. split; [intros y Hy; by apply not_elem_of_nil in Hy|by left]. }
  destruct (IH (Z.min t (key x))) as (H1 & H2 & H3). split; [lia|]. split.
  - intros y Hy. apply elem_of_cons in Hy as [->|Hy]; [lia|by apply H2].
  - destruct H3 as [E|(y & Hy & E)].
    + destruct (Z.min_spec t (key x)) as [[_ E']|[_ E']]; rewrite E' in E |- *; [by left|].
      right. exists x. split; [left|done].
    + right. exists y. split; [by right|done].
Qed.

Lemma mins_by_least key x l : mins_by key (x :: l) = filter (fun y => key y = least key (key x) l) (x :: l).
Proof.
  destruct (least_spec key (key x) l) as (H1 & H2 & H3). apply filter_ext_in. intros y Hy.
  rewrite Forall_forall. split.
  - intros Hle. assert (least key (key x) l <= key y) by (apply elem_of_cons in Hy as [->|Hy]; [done|by apply H2]).
    destruct H3 as [E|(z & Hz & E)].
    + assert (key y <= key x) by (apply Hle; left). lia.
    + assert (key y <= key z) by (apply Hle; by right). lia.
  - intros E z Hz. rewrite E. apply elem_of_cons in Hz as [->|Hz]; [done|by apply H2].
Qed.

Lemma mins_by_one key x : mins_by key [x] = [x].
Proof. unfold mins_by. rewrite filter_cons_True; [done|]. by repeat constructor. Qed.

(** The elements that no element of the list beats. *)
Section Unbeaten.
Context (beats : X -> X -> bool).
Hypothesis beats_trans : forall x y z, beats x y = true -> beats y z = true -> beats x z = true.
Hypothesis beats_irrefl : forall x, beats x x = false.

Definition unbeaten l : list X := filter (fun x => Forall (fun y => beats y x = false) l) l.

Lemma elem_unbeaten l x : x ∈ unbeaten l <-> x ∈ l /\ forall y, y ∈ l -> beats y x = false.
Proof. unfold unbeaten. rewrite list_elem_of_filter, Forall_forall. split; intros [? ?]; split; auto. Qed.

(** Erasing a beaten element changes nothing. *)
Lemma unbeaten_erase a x b y : y ∈ a ++ b -> beats y x = true -> unbeaten (a ++ x :: b) = unbeaten (a ++ b).
Proof.
  intros Hy Hb. unfold unbeaten. rewrite !filter_app, filter_cons_False.
  - assert (forall z, Forall (fun w => beats w z = false) (a ++ x :: b)
                      <-> Forall (fun w => beats w z = false) (a ++ b)) as E.
    { intros z. rewrite !Forall_app, Forall_cons. split; [tauto|]. intros [Ha Hb']. split; [done|]. split; [|done].
      destruct (beats x z) eqn:Ez; [|done]. pose proof (beats_trans _ _ _ Hb Ez).
      apply elem_of_app in Hy. rewrite Forall_forall in Ha, Hb'. destruct Hy as [Hy|Hy]; [by rewrite Ha in H|by rewrite Hb' in H]. }
    f_equal; apply filter_ext_in; intros z _; apply E.
  - rewrite Forall_app, Forall_cons. rewrite !Forall_forall. intros (Ha & _ & Hb').
    apply elem_of_app in Hy. destruct Hy as [Hy|Hy]; [by rewrite Ha in Hb|by rewrite Hb' in Hb].
Qed.

Lemma unbeaten_all l : (forall x y, x ∈ l -> y ∈ l -> beats y x = false) -> unbeaten l = l.
Proof.
  intros Hl. unfold unbeaten. transitivity (filter (fun _ : X => True) l).
  - apply filter_ext_in. intros x Hx. split; [done|]. intros _. apply Forall_forall. intros y Hy. by apply Hl.
  - clear. induction l as [|x l IH]; [done|]. rewrite filter_cons_True by done. by rewrite IH.
Qed.
End Unbeaten.
End Selections.

Section WinnerSpec.
Context `{HostOrder} {N : Type}.
Variable resolver : N -> option (bool * Z).
Abbreviation RouteData := (RouteData N).
Implicit Types (r : RouteData) (l : list RouteData).

(** A pass keeps the routes with the least rank; [z] ranks the key values, and
    the two tests compare the ranks. *)
Lemma pass_least {X} (key : RouteData -> result xorp_exn X) (kv : RouteData -> X) (z : X -> Z)
    (worse better : X -> X -> bool) keep test rest :
  (forall k t, worse k t = (z t <? z k)) -> (forall k t, better k t = (z k <? z t)) ->
  Forall (fun r => key r = Ok (kv r)) rest -> Forall (fun r => z (kv r) = z test) keep ->
  pass key worse better keep test rest
  = Ok (filter (fun r => z (kv r) = least (fun r => z (kv r)) (z test) rest) (keep ++ rest)).
Proof.
  intros Hw Hb Hr. revert keep test. induction Hr as [|r rest Hk _ IH]; intros keep test Hkeep; simpl.
  { f_equal. rewrite app_nil_r. symmetry. induction Hkeep as [|x l Hx _ IH]; [done|].
    rewrite filter_cons_True by done. by f_equal. }
  rewrite Hk. cbn [result_bind]. rewrite Hw, Hb.
  destruct (Z.ltb_spec (z test) (z (kv r))); [|destruct (Z.ltb_spec (z (kv r)) (z test))].
  - rewrite IH by done. rewrite Z.min_l by lia. f_equal. rewrite !filter_app, filter_cons_False; [done|].
    destruct (least_spec (fun r => z (kv r)) (z test) rest) as [? _]. lia.
  - rewrite IH by (by repeat constructor). rewrite Z.min_r by lia. f_equal. rewrite (filter_app _ keep).
    destruct (least_spec (fun r => z (kv r)) (z (kv r)) rest) as [Hle _].
    rewrite (filter_none _ keep); [done|]. intros x Hx. rewrite Forall_forall in Hkeep.
    rewrite (Hkeep x Hx). lia.
  - assert (z (kv r) = z test) as E by lia. rewrite IH by (apply Forall_app; by repeat constructor).
    rewrite E, Z.min_id, <- app_assoc. done.
Qed.

Lemma stage_mins {X} (key0 key : RouteData -> result xorp_exn X) (kv : RouteData -> X) (z : X -> Z)
    (worse better : X -> X -> bool) l :
  (forall k t, worse k t = (z t <? z k)) -> (forall k t, better k t = (z k <? z t)) ->
  Forall (fun r => key0 r = Ok (kv r)) l -> Forall (fun r => key r = Ok (kv r)) l ->
  stage key0 key worse better l = Ok (mins_by (fun r => z (kv r)) l).
Proof.
  intros Hw Hb H0 Hk. destruct l as [|r [|r' l]]; [done|by rewrite mins_by_one|].
  cbn [stage]. apply Forall_cons in H0 as [-> _]. apply Forall_cons in Hk as [_ Hk]. cbn [result_bind].
  rewrite (pass_least key kv z worse better [r] (kv r) (r' :: l)) by (done || by repeat constructor).
  f_equal. by rewrite mins_by_least.
Qed.

(** ** The MED test *)

Definition nas r : Z := match neighbour_as r with Ok a => a | Throw _ => 0 end.
Definition med_beats (y x : RouteData) : bool := (nas y =? nas x) && (med_key y <? med_key x).

Lemma med_beats_true y x : med_beats y x = true <-> nas y = nas x /\ med_key y < med_key x.
Proof. unfold med_beats. by rewrite andb_true_iff, Z.eqb_eq, Z.ltb_lt. Qed.
Lemma med_beats_trans x y z : med_beats x y = true -> med_beats y z = true -> med_beats x z = true.
Proof. rewrite !med_beats_true. intros [? ?] [? ?]. split; [congruence|lia]. Qed.

Definition has_nas r : Prop := neighbour_as r = Ok (nas r).

(** The inner loop around route [i], which stands in [a] or [b]: erasures do
    not change who is unbeaten. *)
Lemma med_scan_spec i a l b : has_nas i -> Forall has_nas l -> i ∈ a ++ b ->
  exists l' del, med_scan (nas i) (med_key i) l = Ok (l', del)
    /\ unbeaten med_beats (a ++ l ++ b) = unbeaten med_beats (a ++ l' ++ b)
    /\ (forall j, j ∈ l' -> j ∈ l) /\ (length l' <= length l)%nat
    /\ if del : bool then exists j, j ∈ l' /\ med_beats j i = true
       else forall j, j ∈ l' -> med_beats j i = false.
Proof.
  intros Hi Hl. revert a. induction Hl as [|j l Hj _ IH]; intros a Hin.
  { exists [], false. do 4 (split; [done|]). intros j Hj. by apply not_elem_of_nil in Hj. }
  cbn [med_scan]. rewrite Hj. cbn [result_bind].
  assert (i ∈ (a ++ [j]) ++ b) as Hin'.
  { rewrite !elem_of_app in *. tauto. }
  destruct (IH (a ++ [j]) Hin') as (l' & del & E & Hu & Hsub & Hlen & Hd). rewrite <- !app_assoc in Hu. simpl in Hu.
  assert (med_beats j i = false ->
    exists l'' del, (s <-! med_scan (nas i) (med_key i) l ;; Ok (j :: fst s, snd s))%xorp = Ok (l'', del)
    /\ unbeaten med_beats (a ++ (j :: l) ++ b) = unbeaten med_beats (a ++ l'' ++ b)
    /\ (forall x, x ∈ l'' -> x ∈ j :: l) /\ (length l'' <= length (j :: l))%nat
    /\ if del : bool then exists x, x ∈ l'' /\ med_beats x i = true
       else forall x, x ∈ l'' -> med_beats x i = false) as Hkeep.
  { intros Hji. exists (j :: l'), del. rewrite E. split; [done|]. split; [done|].
    split; [intros x; rewrite !elem_of_cons; intros [?|?]; auto|]. split; [simpl; lia|]. destruct del.
    - destruct Hd as (x & Hx & Hb). exists x. split; [by right|done].
    - intros x Hx. apply elem_of_cons in Hx as [->|Hx]; auto. }
  destruct (Z.eqb_spec (nas i) (nas j)) as [En|En].
  - destruct (Z.ltb_spec (med_key j) (med_key i)); [|destruct (Z.ltb_spec (med_key i) (med_key j))].
    + exists (j :: l), true. do 4 (split; [done|]). exists j. split; [left|]. by apply med_beats_true.
    + destruct (IH a Hin) as (l2 & del2 & E2 & Hu2 & Hsub2 & Hlen2 & Hd2). exists l2, del2.
      split; [done|]. split; [|split; [intros x Hx; right; auto|split; [simpl; lia|done]]].
      rewrite <- Hu2. simpl. apply (unbeaten_erase med_beats med_beats_trans a j (l ++ b) i).
      * rewrite !elem_of_app in *. tauto.
      * by apply med_beats_true.
    + apply Hkeep. unfold med_beats. destruct (Z.ltb_spec (med_key j) (med_key i)); [lia|by rewrite andb_false_r].
  - apply Hkeep. unfold med_beats. by destruct (Z.eqb_spec (nas j) (nas i)); [congruence|].
Qed.

Lemma med_loop_spec fuel pre post : (length post <= fuel)%nat ->
  Forall has_nas pre -> Forall has_nas post ->
  (forall x y, x ∈ pre -> y ∈ pre ++ post -> med_beats y x = false) ->
  med_loop fuel pre post = Ok (unbeaten med_beats (pre ++ post)).
Proof.
  assert (forall l l', (forall x, x ∈ l' -> x ∈ l) -> Forall has_nas l -> Forall has_nas l') as Hmono.
  { intros l l' Hs Hf. rewrite Forall_forall in *. auto. }
  revert pre post. induction fuel as [|fuel IH]; intros pre post Hf Hp Hq Hmin;
    (destruct post as [|i post]; [rewrite app_nil_r in *; rewrite unbeaten_all; [done|auto]|]);
    [simpl in Hf; lia|].
  apply Forall_cons in Hq as [Hi Hq]. cbn [med_loop]. rewrite Hi. cbn [result_bind]. simpl in Hf.
  destruct (med_scan_spec i [] pre (i :: post) Hi Hp) as (pre' & d1 & -> & Hu1 & Hs1 & _ & Hd1); [left|].
  cbn [result_bind fst snd]. simpl in Hu1.
  assert (forall x y, x ∈ pre' -> y ∈ pre' ++ i :: post -> med_beats y x = false) as Hmin1.
  { intros x y Hx Hy. apply Hmin; [auto|]. rewrite elem_of_app in *. destruct Hy; auto. }
  destruct d1.
  - destruct Hd1 as (j & Hj & Hb). rewrite IH; [|lia|by eapply Hmono|done|].
    + f_equal. rewrite Hu1. symmetry. apply (unbeaten_erase med_beats med_beats_trans pre' i post j); [|done].
      apply elem_of_app. by left.
    + intros x y Hx Hy. apply Hmin1; [done|]. rewrite elem_of_app, elem_of_cons in *. tauto.
  - destruct (med_scan_spec i (pre' ++ [i]) post [] Hi Hq) as (post' & d2 & -> & Hu2 & Hs2 & Hl2 & Hd2).
    { rewrite !elem_of_app. left. right. left. }
    cbn [result_bind fst snd]. rewrite !app_nil_r, <- !app_assoc in Hu2. simpl in Hu2. destruct d2.
    + destruct Hd2 as (j & Hj & Hb). rewrite IH; [|lia|by eapply Hmono|by eapply Hmono|].
      * f_equal. rewrite Hu1, Hu2. symmetry. apply (unbeaten_erase med_beats med_beats_trans pre' i post' j); [|done].
        apply elem_of_app. by right.
      * intros x y Hx Hy. apply Hmin1; [done|]. rewrite elem_of_app, elem_of_cons in *. destruct Hy; auto.
    + rewrite IH; [|lia| |by eapply Hmono|].
      * f_equal. by rewrite Hu1, Hu2, <- app_assoc.
      * apply Forall_app. split; [by eapply Hmono|by constructor].
      * intros x y Hx Hy. rewrite <- app_assoc in Hy. simpl in Hy. apply elem_of_app in Hx as [Hx|Hx].
        -- apply Hmin1; [done|]. rewrite elem_of_app, elem_of_cons in *. destruct Hy as [?|[?|?]]; auto.
        -- apply list_elem_of_singleton in Hx as ->. rewrite elem_of_app, elem_of_cons in Hy.
           destruct Hy as [Hy|[->|Hy]]; auto. unfold med_beats. by rewrite Z.ltb_irrefl, andb_false_r.
Qed.

Lemma med_stage_spec l : Forall has_nas l -> med_stage l = Ok (unbeaten med_beats l).
Proof.
  intros Hl. unfold med_stage. destruct l as [|r [|r' l]].
  - done.
  - rewrite unbeaten_all; [done|]. intros x y Hx Hy. apply list_elem_of_singleton in Hx as ->, Hy as ->.
    unfold med_beats. by rewrite Z.ltb_irrefl, andb_false_r.
  - rewrite med_loop_spec; try done. intros x y Hx. by apply not_elem_of_nil in Hx.
Qed.

(** ** The cascade *)

Definition lp_rank r : Z := - s32 (local_pref (pa r)).
Definition len_rank r : Z := s32 (path_len (aspath (pa r))).
Definition origin_rank r : Z := origin (pa r).
Definition ibgp_rank r : Z := if ibgp (peer_handler r) then 1 else 0.
Definition igp_metric r : Z := match resolver (nexthop (pa r)) with Some (_, m) => m | None => 0 end.
Definition igp_rank r : Z := s32 (igp_metric r).
Definition id_rank r : Z := ntohl (ipv4_addr (bgp_id (peer_handler r))).
Definition addr_rank r : Z := s32 (neighbour_address (peer_handler r)).

(** The routes left after the eight tests: highest local preference, shortest
    AS path, lowest origin, lowest MED among the routes of one neighbour AS,
    external before internal, nearest next hop, lowest BGP ID, lowest
    "neighbour address". *)
Definition survivors l : list RouteData :=
  mins_by addr_rank (mins_by id_rank (mins_by igp_rank (mins_by ibgp_rank
    (unbeaten med_beats (mins_by origin_rank (mins_by len_rank (mins_by lp_rank l))))))).

Definition resolved_routes l : list RouteData := filter (fun r => nexthop_resolved (rd_route r) = true) l.

(** What the assertions of the code ask of a route. *)
Definition route_ok r : Prop :=
  0 <= s32 (local_pref (pa r)) /\ 0 <= s32 (path_len (aspath (pa r))) /\ has_nas r
  /\ resolver (nexthop (pa r)) <> None.

Lemma Forall_subset {X} (Q : X -> Prop) (l l' : list X) : (forall x, x ∈ l' -> x ∈ l) -> Forall Q l -> Forall Q l'.
Proof. intros Hs. rewrite !Forall_forall. auto. Qed.
Lemma Forall_mins {X} (Q : X -> Prop) key (l : list X) : Forall Q l -> Forall Q (mins_by key l).
Proof. apply Forall_subset. intros x Hx. by apply elem_mins_by in Hx as [? _]. Qed.
Lemma Forall_unbeaten {X} (Q : X -> Prop) b (l : list X) : Forall Q l -> Forall Q (unbeaten b l).
Proof. apply Forall_subset. intros x Hx. by apply elem_unbeaten in Hx as [? _]. Qed.

Lemma opp_ltb a b : (a <? b) = (- b <? - a).
Proof. apply bool_eq_iff. rewrite !Z.ltb_lt. lia. Qed.

Lemma find_winner_survivors l : Forall route_ok (resolved_routes l) ->
  find_winner resolver l = Ok (head (survivors (resolved_routes l))).
Proof.
  unfold find_winner, survivors. fold (resolved_routes l). generalize (resolved_routes l). clear l. intros l Hl.
  rewrite (stage_mins lp_key lp_key_checked (fun r => s32 (local_pref (pa r))) Z.opp).
  2,3: intros; apply opp_ltb.
  2: by apply Forall_true.
  2:{ eapply Forall_impl; [exact Hl|]. intros r (Hlp & _). unfold lp_key_checked.
      destruct (Z.ltb_spec (s32 (local_pref (pa r))) 0); [lia|done]. }
  cbn [result_bind]. fold lp_rank. apply (Forall_mins _ lp_rank) in Hl. revert Hl.
  generalize (mins_by lp_rank l). clear l. intros l Hl.
  rewrite (stage_mins len_key len_key_checked len_rank id); [|done|done|by apply Forall_true|].
  2:{ eapply Forall_impl; [exact Hl|]. intros r (_ & Hlen & _). unfold len_key_checked, len_rank.
      destruct (Z.ltb_spec (s32 (path_len (aspath (pa r)))) 0); [lia|done]. }
  cbn [result_bind]. apply (Forall_mins _ len_rank) in Hl.
  rewrite (stage_mins origin_key origin_key origin_rank id); [|done|done|by apply Forall_true..].
  cbn [result_bind]. apply (Forall_mins _ origin_rank) in Hl.
  rewrite med_stage_spec by (eapply Forall_impl; [exact Hl|]; by intros r (_ & _ & ? & _)).
  cbn [result_bind]. apply (Forall_unbeaten _ med_beats) in Hl.
  rewrite (stage_mins ibgp_key ibgp_key (fun r => ibgp (peer_handler r)) (fun b : bool => if b then 1 else 0));
    [|by intros [] []|by intros [] []|by apply Forall_true..].
  cbn [result_bind]. apply (Forall_mins _ ibgp_rank) in Hl.
  rewrite (stage_mins (igp_key resolver) (igp_key resolver) igp_rank id); [|done|done| |].
  2,3: eapply Forall_impl; [exact Hl|]; intros r (_ & _ & _ & Hr); unfold igp_key, igp_distance, igp_rank, igp_metric;
       by destruct (resolver (nexthop (pa r))) as [[? ?]|].
  cbn [result_bind].
  rewrite (stage_mins id_key id_key (fun r => bgp_id (peer_handler r)) (fun a => ntohl (ipv4_addr a)));
    [|done|done|by apply Forall_true..].
  cbn [result_bind].
  rewrite (stage_mins addr_key addr_key addr_rank id); [|done|done|by apply Forall_true..]. done.
Qed.

(** ** Who survives does not depend on the order of the routes *)

Definition same_elems {X} (l l' : list X) : Prop := forall x, x ∈ l <-> x ∈ l'.

Lemma same_mins {X} key (l l' : list X) : same_elems l l' -> same_elems (mins_by key l) (mins_by key l').
Proof. intros E x. rewrite !elem_mins_by. split; intros [Hx Hmin]; (split; [by apply E|]); intros y Hy; apply Hmin; by apply E. Qed.
Lemma same_unbeaten {X} b (l l' : list X) : same_elems l l' -> same_elems (unbeaten b l) (unbeaten b l').
Proof. intros E x. rewrite !elem_unbeaten. split; intros [Hx Hmin]; (split; [by apply E|]); intros y Hy; apply Hmin; by apply E. Qed.

Lemma same_survivors l l' : same_elems l l' -> same_elems (survivors l) (survivors l').
Proof. intros E. unfold survivors. by repeat first [apply same_mins | apply same_unbeaten]. Qed.

Lemma same_resolved l l' : same_elems l l' -> same_elems (resolved_routes l) (resolved_routes l').
Proof. intros E x. unfold resolved_routes. rewrite !list_elem_of_filter. by rewrite (E x). Qed.

Lemma mins_not_nil {X} key (l : list X) : l <> [] -> mins_by key l <> [].
Proof.
  destruct l as [|x l]; [done|]. intros _ E. destruct (least_spec key (key x) l) as (H1 & H2 & H3).
  assert (exists y, y ∈ x :: l /\ key y = least key (key x) l) as (y & Hy & Ey).
  { destruct H3 as [E3|(y & Hy & Ey)]; [exists x; split; [left|done]|exists y; split; [by right|done]]. }
  apply (not_elem_of_nil y). rewrite <- E. rewrite mins_by_least. by apply list_elem_of_filter.
Qed.

Lemma unbeaten_not_nil l : l <> [] -> unbeaten med_beats l <> [].
Proof.
  intros Hl E. apply (mins_not_nil med_key) in Hl. destruct (mins_by med_key l) as [|x m] eqn:Em; [done|].
  assert (x ∈ mins_by med_key l) as Hx by (rewrite Em; left). apply elem_mins_by in Hx as [Hx Hmin].
  apply (not_elem_of_nil x). rewrite <- E. apply elem_unbeaten. split; [done|]. intros y Hy.
  specialize (Hmin y Hy). unfold med_beats. destruct (Z.ltb_spec (med_key y) (med_key x)); [lia|by rewrite andb_false_r].
Qed.

Lemma survivors_not_nil l : l <> [] -> survivors l <> [].
Proof. intros Hl. unfold survivors. by repeat first [apply mins_not_nil | apply unbeaten_not_nil]. Qed.

Lemma survivors_in l r : r ∈ survivors l -> r ∈ l.
Proof.
  unfold survivors. intros Hr. repeat (apply elem_mins_by in Hr as [Hr _]).
  apply elem_unbeaten in Hr as [Hr _]. by repeat (apply elem_mins_by in Hr as [Hr _]).
Qed.

Lemma resolved_in l r : r ∈ resolved_routes l <-> r ∈ l /\ nexthop_resolved (rd_route r) = true.
Proof. unfold resolved_routes. rewrite list_elem_of_filter. tauto. Qed.

(** The answer of [find_winner] on a list with the routes of [l']. *)
Lemma find_winner_cases l l' : same_elems l l' -> Forall route_ok l' ->
  exists w, find_winner resolver l = Ok w /\
    match w with
    | Some w => w ∈ survivors (resolved_routes l') /\ w ∈ l
    | None => resolved_routes l' = []
    end.
Proof.
  intros E Hok. assert (Forall route_ok (resolved_routes l)) as Hok'.
  { apply (Forall_subset _ l'); [|done]. intros x Hx. apply resolved_in in Hx as [Hx _]. by apply E. }
  rewrite find_winner_survivors by done. eexists. split; [done|].
  destruct (survivors (resolved_routes l)) as [|w m] eqn:Es; simpl.
  - destruct (resolved_routes l) as [|r rs] eqn:Er; [|by apply survivors_not_nil in Es].
    destruct (resolved_routes l') as [|r' rs'] eqn:Er'; [done|].
    assert (r' ∈ resolved_routes l) as Hr' by (apply (same_resolved l l' E); rewrite Er'; left).
    rewrite Er in Hr'. by apply not_elem_of_nil in Hr'.
  - assert (w ∈ survivors (resolved_routes l)) as Hw by (rewrite Es; left). split.
    + by apply (same_survivors _ _ (same_resolved _ _ E)).
    + apply survivors_in in Hw. by apply resolved_in in Hw as [? _].
Qed.

(** C24: [find_winner] never aborts on routes that its assertions accept, and its
    answer is the first route left after the tests of the BGP decision process
    on the resolved routes: highest local preference, shortest AS path, lowest
    origin, no better MED from the same neighbour AS, external before internal,
    nearest next hop, lowest BGP ID, lowest neighbour address; there is no
    winner exactly when no route is resolved. *)
Theorem find_winner_correct l : Forall route_ok (resolved_routes l) ->
  find_winner resolver l = Ok (head (survivors (resolved_routes l)))
  /\ (head (survivors (resolved_routes l)) = None <-> resolved_routes l = []).
Proof.
  intros Hok. split; [by apply find_winner_survivors|].
  destruct (resolved_routes l) as [|r rs]; [done|]. split; [|done].
  pose proof (survivors_not_nil (r :: rs)) as Hn. destruct (survivors (r :: rs)); [by destruct Hn|done].
Qed.

(** C29: Among acceptable routes of which no two come from peers with the same BGP ID, the
    winner does not depend on the order in which the branches are asked: the MED test,
    which compares only routes of one neighbour AS, does not make the outcome depend on
    the order.  With equal IDs the first of the last survivors wins. *)
Theorem find_winner_order_independent l l' : l ≡ₚ l' -> Forall route_ok l ->
  (forall r r', r ∈ l -> r' ∈ l -> id_rank r = id_rank r' -> r = r') ->
  find_winner resolver l = find_winner resolver l'.
Proof.
  intros Hp Hok Hid. assert (same_elems l l') as E by (intros x; by rewrite Hp).
  assert (Forall route_ok l') as Hok' by (by rewrite <- Hp).
  destruct (find_winner_cases l l' E Hok') as (w & -> & Hw).
  destruct (find_winner_cases l' l') as (w' & -> & Hw'); [done|done|].
  destruct w as [w|], w' as [w'|].
  - destruct Hw as [Hw Hin], Hw' as [Hw' Hin']. do 2 f_equal. apply Hid; [done|by apply E|].
    apply elem_mins_by in Hw as [Hw _], Hw' as [Hw' _]. apply elem_mins_by in Hw as [Hw Hmin], Hw' as [Hw' Hmin'].
    specialize (Hmin w' Hw'). specialize (Hmin' w Hw). lia.
  - destruct Hw as [Hw _]. apply survivors_in in Hw. rewrite Hw' in Hw. by apply not_elem_of_nil in Hw.
  - destruct Hw' as [Hw' _]. apply survivors_in in Hw'. rewrite Hw in Hw'. by apply not_elem_of_nil in Hw'.
  - done.
Qed.

(** The last test of the cascade, on the "neighbour address", never removes a
    route: [neighbour_address()] returns the word of the BGP ID, which the test
    before has made equal for all routes left, instead of the address of the
    peering its comment names. *)
Theorem neighbour_address_never_decides l m : Forall (fun r => is_u32 (neighbour_address (peer_handler r))) l ->
  stage id_key id_key (fun k t => ipv4_ltb t k) (fun k t => ipv4_ltb k t) l = Ok m ->
  stage addr_key addr_key higher lower m = Ok m.
Proof.
  intros Hl. rewrite (stage_mins id_key id_key (fun r => bgp_id (peer_handler r)) (fun a => ntohl (ipv4_addr a)));
    [|done|done|by apply Forall_true..].
  intros [= <-]. rewrite (stage_mins addr_key addr_key addr_rank id); [|done|done|by apply Forall_true..].
  f_equal. unfold mins_by at 1. transitivity (filter (fun _ : RouteData => True) (mins_by id_rank l)).
  - apply filter_ext_in. intros x Hx. split; [done|]. intros _. apply Forall_forall. intros y Hy.
    fold id_rank in Hy. apply elem_mins_by in Hx as [Hx Hmx], Hy as [Hy Hmy]. specialize (Hmx y Hy). specialize (Hmy x Hx).
    rewrite Forall_forall in Hl. unfold addr_rank, neighbour_address in *. simpl.
    rewrite (ntohl_inj (ipv4_addr (bgp_id (peer_handler x))) (ipv4_addr (bgp_id (peer_handler y)))); [lia|auto|auto|].
    unfold id_rank in *. lia.
  - change (mins_by (fun r => ntohl (ipv4_addr (bgp_id (peer_handler r)))) l) with (mins_by id_rank l).
    induction (mins_by id_rank l) as [|x k IH]; [done|]. rewrite filter_cons_True by done. by rewrite IH.
Qed.

Lemma s32_high x : 2 ^ 31 <= x < 2 ^ 32 -> s32 x = x - 2 ^ 32.
Proof. intros Hx. unfold s32. rewrite <- (Z.mod_unique (x + 2 ^ 31) (2 ^ 32) 1 (x - 2 ^ 31)); lia. Qed.

(** A local preference of 2^31 or more, which the attribute carries as an
    unsigned 32-bit value, becomes a negative [int]: when such a route is
    compared with another one, the assertion on the preference stops the
    process. *)
Theorem local_pref_high_aborts r1 r2 :
  nexthop_resolved (rd_route r1) = true -> nexthop_resolved (rd_route r2) = true ->
  2 ^ 31 <= local_pref (pa r2) < 2 ^ 32 ->
  find_winner resolver [r1; r2] = Throw AssertFailed.
Proof.
  intros H1 H2 Hlp. unfold find_winner.
  assert (filter (fun r => nexthop_resolved (rd_route r) = true) [r1; r2] = [r1; r2]) as ->.
  { by rewrite !filter_cons_True. }
  cbn [stage result_bind lp_key pass]. unfold lp_key_checked. rewrite (s32_high _ Hlp).
  destruct (Z.ltb_spec (local_pref (pa r2) - 2 ^ 32) 0); [done|lia].
Qed.

(** MEDs are compared as signed numbers: of two routes from the same
    neighbour AS, the one with a MED of 2^31 or more is preferred to one with a
    small MED. *)
Theorem med_high_preferred r1 r2 a : neighbour_as r1 = Ok a -> neighbour_as r2 = Ok a ->
  2 ^ 31 <= med (pa r1) < 2 ^ 32 -> 0 <= med (pa r2) < 2 ^ 31 ->
  med_stage [r1; r2] = Ok [r1].
Proof.
  intros N1 N2 H1 H2. unfold med_stage. cbn [length med_loop]. rewrite N1. cbn [result_bind med_scan fst snd].
  rewrite N2. cbn [result_bind]. unfold med_key. rewrite (s32_high _ H1), (s32_small _ H2), Z.eqb_refl.
  destruct (Z.ltb_spec (med (pa r2)) (med (pa r1) - 2 ^ 32)); [lia|].
  destruct (Z.ltb_spec (med (pa r1) - 2 ^ 32) (med (pa r2))); [done|lia].
Qed.
End WinnerSpec.

(** ** Concrete routes *)

Definition sample_resolver (n : Z) : option (bool * Z) := Some (true, n).
Definition sample_path (ases : list Z) : ASPath :=
  fold_right (fun a p => match prepend_as p a with Ok p => p | Throw _ => p end) aspath_empty ases.
Definition sample_peer (i : Z) : PeerHandler := mkPeer i false (ip4 10 0 0 i).
Definition sample_attrs (lp med : Z) (ases : list Z) (nh : Z) : PAList Z :=
  mkPA (Some lp) (sample_path ases) 0 (Some med) nh.
Definition sample_rd (i : Z) (p : PAList Z) : RouteData Z := mkRD (mkRoute i p true) i (sample_peer i) 1.

(** Three routes: two of AS 100 that differ in MED, one of AS 200. *)
Definition sample_routes : list (RouteData Z) :=
  [sample_rd 1 (sample_attrs 100 20 [100; 300] 5); sample_rd 2 (sample_attrs 100 10 [100; 300] 5);
   sample_rd 3 (sample_attrs 100 0 [200; 300] 7)].

Lemma find_winner_correct_witness :
  find_winner sample_resolver sample_routes = Ok (head (survivors sample_resolver (resolved_routes sample_routes))).
Proof. apply (find_winner_correct sample_resolver sample_routes). repeat constructor; by_eval. Defined.

Lemma find_winner_order_independent_witness :
  find_winner sample_resolver sample_routes = find_winner sample_resolver (rev sample_routes).
Proof.
  apply (find_winner_order_independent sample_resolver sample_routes (rev sample_routes)).
  - symmetry. apply Permutation_rev.
  - repeat constructor; by_eval.
  - intros r r' Hr Hr'. unfold sample_routes in *.
    repeat (apply elem_of_cons in Hr as [->|Hr]); repeat (apply elem_of_cons in Hr' as [->|Hr']);
      try (by apply not_elem_of_nil in Hr); try (by apply not_elem_of_nil in Hr'); by_eval.
Defined.

Lemma neighbour_address_never_decides_witness :
  stage addr_key addr_key higher lower [sample_rd 1 (sample_attrs 100 20 [100; 300] 5)]
  = Ok [sample_rd 1 (sample_attrs 100 20 [100; 300] 5)].
Proof. apply (neighbour_address_never_decides sample_routes); [repeat constructor; by_eval|by_eval]. Defined.

Lemma local_pref_high_aborts_witness :
  find_winner sample_resolver
    [sample_rd 1 (sample_attrs 100 0 [100] 5); sample_rd 2 (sample_attrs (2 ^ 31) 0 [200] 5)] = Throw AssertFailed.
Proof. apply local_pref_high_aborts; [done|done|by_eval]. Defined.

Lemma med_high_preferred_witness :
  med_stage [sample_rd 1 (sample_attrs 100 (2 ^ 31) [100] 5); sample_rd 2 (sample_attrs 100 1 [100] 5)]
  = Ok [sample_rd 1 (sample_attrs 100 (2 ^ 31) [100] 5)].
Proof. apply (med_high_preferred _ _ 100); by_eval. Defined.
