(* ===== verification/DecisionTable.v ===== *)
(** * The decision table (bgp/route_table_decision.cc)

    The invariant of [DecisionTable] for one subnet: the winner flags of the
    upstream routes say which route the next table was told of, and that route is
    a best one among all branches.  [add_route], [delete_route] and
    [replace_route] preserve it and send messages that fit what the next table
    holds. *)

From Stdlib Require Import ZArith Lia.
From stdpp Require Import base tactics option numbers list.
From S2P Require Import Prelude Word32 Addr IPv4 Sample AsPath Decision DecisionProps.
Local Open Scope Z_scope.

Section TableSpec.
Context `{HostOrder} {N : Type}.
Variable resolver : N -> option (bool * Z).
Variable next_result : Z.
Abbreviation RouteData := (RouteData N).
Abbreviation table := (list (Parent N)).
Implicit Types (st : table) (p : Parent N) (r : RouteData) (ann : option Z).

Definition all_routes st : list RouteData := omap parent_rd st.

Lemma elem_all_routes st r : r ∈ all_routes st <-> exists p, p ∈ st /\ parent_rd p = Some r.
Proof. unfold all_routes. rewrite list_elem_of_omap. done. Qed.

(** The next table, as the messages describe it: the route announced, if any;
    [None] when a message does not fit. *)
Definition downstream_step ann (e : event N) : option (option Z) :=
  match e with
  | EvDelete r _ => if decide (ann = Some (rid_of r)) then Some None else None
  | EvAdd r _ => if decide (ann = None) then Some (Some (rid_of r)) else None
  | EvReplace o r _ _ => if decide (ann = Some (rid_of o)) then Some (Some (rid_of r)) else None
  | EvPush | EvRouteUsed _ _ => Some ann
  end.
Fixpoint downstream ann (es : list (event N)) : option (option Z) :=
  match es with
  | [] => Some ann
  | e :: es => match downstream_step ann e with Some ann' => downstream ann' es | None => None end
  end.

Lemma downstream_app ann es1 es2 ann' : downstream ann es1 = Some ann' ->
  downstream ann (es1 ++ es2) = downstream ann' es2.
Proof.
  revert ann. induction es1 as [|e es1 IH]; intros ann; simpl; [by intros [= ->]|].
  destruct (downstream_step ann e); [apply IH|done].
Qed.

(** The routes of the branches: one branch per table, one identity per route,
    resolved as the resolver says. *)
Definition good_route r : Prop :=
  route_ok resolver r /\ resolvable resolver (nh r) = Ok (nexthop_resolved (rd_route r)).
Definition table_ok st : Prop :=
  NoDup (map p_table st)
  /\ (forall p q r r', p ∈ st -> q ∈ st -> parent_rd p = Some r -> parent_rd q = Some r' ->
        rid_of r = rid_of r' -> p = q)
  /\ Forall good_route (all_routes st).

(** The winner flags say which route is announced. *)
Definition flags_ok st ann : Prop :=
  forall p, p ∈ st -> p_winner p = true <-> exists r, parent_rd p = Some r /\ ann = Some (rid_of r).

(** The route announced is a best one. *)
Definition best_ok st ann : Prop :=
  match ann with
  | None => resolved_routes (all_routes st) = []
  | Some id => exists r, rid_of r = id /\ r ∈ survivors resolver (resolved_routes (all_routes st))
  end.

Definition dt_inv st ann : Prop := table_ok st /\ flags_ok st ann /\ best_ok st ann.

(** ** The flags *)

Lemma parent_rd_flags p b m : parent_rd (mkParent (p_table p) (p_peer p) (p_genid p) (p_route p) b m) = parent_rd p.
Proof. done. Qed.

(** Setting flags changes neither the routes nor the branches. *)
Definition flag_change (f : Parent N -> Parent N) : Prop :=
  forall p, parent_rd (f p) = parent_rd p /\ p_table (f p) = p_table p.

Lemma on_route_elem id f st q : q ∈ on_route id f st <->
  exists p, p ∈ st /\ q = match p_route p with Some rt => if rid rt =? id then f p else p | None => p end.
Proof. unfold on_route. rewrite list_elem_of_fmap. split; intros (p & ? & ?); eauto. Qed.

Lemma on_route_rd id f p : flag_change f ->
  parent_rd (match p_route p with Some rt => if rid rt =? id then f p else p | None => p end) = parent_rd p.
Proof. intros Hf. destruct (p_route p); [|done]. destruct (_ =? _); [apply Hf|done]. Qed.

Lemma on_route_all id f st : flag_change f -> all_routes (on_route id f st) = all_routes st.
Proof.
  intros Hf. unfold all_routes, on_route. induction st as [|p st IH]; [done|]. simpl.
  rewrite on_route_rd by done. destruct (parent_rd p); [f_equal|]; apply IH.
Qed.

Lemma on_route_table id f st : flag_change f -> table_ok st -> table_ok (on_route id f st).
Proof.
  intros Hf (Ht & Hr & Hg). split; [|split; [|by rewrite on_route_all]].
  - unfold on_route. rewrite map_map. erewrite map_ext; [exact Ht|]. intros p. simpl.
    destruct (p_route p); [|done]. destruct (_ =? _); [apply Hf|done].
  - intros p q r r' Hp Hq Er Er' E. apply on_route_elem in Hp as (p0 & Hp & ->), Hq as (q0 & Hq & ->).
    rewrite on_route_rd in Er, Er' by done. by rewrite (Hr p0 q0 r r').
Qed.

Lemma winner_change b m : flag_change (fun p => mkParent (p_table p) (p_peer p) (p_genid p) (p_route p) b (m p)).
Proof. done. Qed.

Lemma rd_rid p r : parent_rd p = Some r -> exists rt, p_route p = Some rt /\ rid rt = rid_of r.
Proof. unfold parent_rd. destruct (p_route p) as [rt|]; [|done]. intros [= <-]. by exists rt. Qed.

Lemma flags_unset st ann id : flags_ok st ann -> ann = Some id -> flags_ok (set_is_not_winner id st) None.
Proof.
  intros Hf -> q Hq. apply on_route_elem in Hq as (p & Hp & ->). split; [|by intros (r & _ & ?)].
  specialize (Hf p Hp). destruct (p_route p) as [rt|] eqn:Er; intros Hw; exfalso; revert Hw.
  - destruct (Z.eqb_spec (rid rt) id) as [_|Hne]; [done|]. intros Hw. apply Hf in Hw as (r & Hr & [= Eid]).
    destruct (rd_rid p r Hr) as (rt' & Er' & Erid). congruence.
  - intros Hw. apply Hf in Hw as (r & Hr & _). unfold parent_rd in Hr. by rewrite Er in Hr.
Qed.

Lemma flags_set st id d : flags_ok st None -> flags_ok (set_is_winner id d st) (Some id).
Proof.
  intros Hf q Hq. apply on_route_elem in Hq as (p & Hp & ->). specialize (Hf p Hp).
  assert (p_winner p = false) as Hw by (destruct (p_winner p); [|done]; by destruct (proj1 Hf eq_refl) as (? & _ & ?)).
  destruct (p_route p) as [rt|] eqn:Er.
  - destruct (Z.eqb_spec (rid rt) id) as [<-|Hne].
    + split; [|done]. intros _. eexists. split; [done|done].
    + rewrite Hw. split; [done|]. intros (r & Hr & [= E]). destruct (rd_rid p r Hr) as (rt' & Er' & Erid). congruence.
  - rewrite Hw. split; [done|]. intros (r & Hr & _). unfold parent_rd in Hr. by rewrite Er in Hr.
Qed.

(** ** The alternatives *)

Lemma find_previous_none ps prev : Forall (fun p => p_winner p = false) ps -> find_previous ps prev = Ok prev.
Proof.
  intros Hps. induction Hps as [|p ps Hp _ IH]; [done|]. simpl. rewrite Hp. by destruct (parent_rd p).
Qed.

Lemma find_previous_ok ps ann : flags_ok ps ann -> NoDup ps ->
  (forall p q r r', p ∈ ps -> q ∈ ps -> parent_rd p = Some r -> parent_rd q = Some r' ->
        rid_of r = rid_of r' -> p = q) ->
  exists o, find_previous ps None = Ok o /\
    match o with
    | Some r => ann = Some (rid_of r) /\ r ∈ all_routes ps
    | None => forall r, r ∈ all_routes ps -> ann <> Some (rid_of r)
    end.
Proof.
  intros Hf Hnd Hu. induction ps as [|p ps IH].
  { exists None. split; [done|]. intros r Hr. by apply not_elem_of_nil in Hr. }
  apply NoDup_cons in Hnd as [Hnp Hnd].
  destruct IH as (o & E & Ho); [|done| |].
  { intros q Hq. apply Hf. by right. }
  { intros q q' r r' Hq Hq'. apply Hu; by right. }
  cbn [find_previous]. destruct (parent_rd p) as [r|] eqn:Er.
  - pose proof (Hf p ltac:(left)) as Hp. destruct (p_winner p) eqn:Ew.
    + destruct (proj1 Hp eq_refl) as (r' & Er' & Ea). assert (r' = r) as -> by congruence.
      rewrite find_previous_none.
      * exists (Some r). split; [done|]. split; [done|]. apply elem_all_routes. exists p. split; [left|done].
      * apply Forall_forall. intros q Hq. destruct (p_winner q) eqn:Eq; [|done].
        destruct (proj1 (Hf q ltac:(by right)) Eq) as (r'' & Er'' & Ea').
        assert (p = q) as <- by (apply (Hu p q r r''); try done; [left|by right|congruence]). done.
    + exists o. split; [done|]. destruct o as [r'|].
      * destruct Ho as [? Ho]. split; [done|]. apply elem_all_routes in Ho as (q & Hq & Eq).
        apply elem_all_routes. exists q. split; [by right|done].
      * intros r' Hr'. apply elem_all_routes in Hr' as (q & Hq & Eq). apply elem_of_cons in Hq as [->|Hq].
        -- intros Ea. assert (p_winner p = true) as Hw; [|congruence]. apply Hf; [left|]. by exists r'.
        -- apply Ho. apply elem_all_routes. by exists q.
  - exists o. split; [done|]. destruct o as [r'|].
    + destruct Ho as [? Ho]. split; [done|]. apply elem_all_routes in Ho as (q & Hq & Eq).
      apply elem_all_routes. exists q. split; [by right|done].
    + intros r' Hr'. apply elem_all_routes in Hr' as (q & Hq & Eq). apply elem_of_cons in Hq as [->|Hq]; [congruence|].
      apply Ho. apply elem_all_routes. by exists q.
Qed.

(** The state in which an operation of branch [c] starts: the flags are those of
    the route announced, which is a route of another branch. *)
Record op_start st (c : Z) ann : Prop := {
  start_ok : table_ok st;
  start_flags : flags_ok st ann;
  start_caller : forall p, p ∈ st -> p_table p = c -> p_winner p = false;
  start_live : forall id, ann = Some id -> exists r, r ∈ all_routes st /\ rid_of r = id }.

Lemma elem_others st c p : p ∈ others st c <-> p ∈ st /\ p_table p <> c.
Proof. unfold others. rewrite list_elem_of_filter. tauto. Qed.

Lemma table_NoDup st : table_ok st -> NoDup st.
Proof. intros (Hn & _). by apply (NoDup_fmap_1 p_table). Qed.

Lemma table_same st p q : table_ok st -> p ∈ st -> q ∈ st -> p_table p = p_table q -> p = q.
Proof.
  intros (Hn & _). clear -Hn. induction st as [|x st IH]; intros Hp Hq E; [by apply not_elem_of_nil in Hp|].
  apply NoDup_cons in Hn as [Hx Hn].
  apply elem_of_cons in Hp as [->|Hp], Hq as [->|Hq]; [done| | |by apply IH].
  - destruct Hx. rewrite E. by apply (list_elem_of_fmap_2 p_table).
  - destruct Hx. rewrite <- E. by apply (list_elem_of_fmap_2 p_table).
Qed.

Lemma alternatives_ok st c ann : op_start st c ann ->
  exists o, find_alternative_routes st c = Ok (all_routes (others st c), o)
    /\ rid_of <$> o = ann /\ (forall r, o = Some r -> r ∈ all_routes (others st c)).
Proof.
  intros [Hok Hf Hc Hl]. pose proof (table_NoDup st Hok) as Hnd. destruct Hok as (_ & Hu & _).
  destruct (find_previous_ok (others st c) ann) as (o & E & Ho).
  - intros p Hp. apply elem_others in Hp as [Hp _]. by apply Hf.
  - by apply NoDup_filter.
  - intros p q r r' Hp Hq. apply elem_others in Hp as [Hp _], Hq as [Hq _]. by apply Hu.
  - exists o. unfold find_alternative_routes. rewrite E. split; [done|]. destruct o as [r|].
    + destruct Ho as [-> Ho]. split; [done|]. by intros r' [= <-].
    + split; [|done]. destruct ann as [id|]; [|done]. destruct (Hl id eq_refl) as (r & Hr & Erid).
      apply elem_all_routes in Hr as (p & Hp & Ep). destruct (Ho r); [|by rewrite Erid].
      apply elem_all_routes. exists p. split; [|done]. apply elem_others. split; [done|]. intros Ec.
      assert (p_winner p = true) as Hw; [|by rewrite (Hc p Hp Ec) in Hw].
      apply Hf; [done|]. exists r. split; [done|by rewrite Erid].
Qed.

(** The routes of the other branches and the caller's are all the routes. *)
Lemma others_and_caller st p new : table_ok st -> p ∈ st -> parent_rd p = Some new ->
  same_elems (all_routes (others st (parent_table new)) ++ [new]) (all_routes st).
Proof.
  intros Hok Hp Ep r. rewrite elem_of_app, list_elem_of_singleton, !elem_all_routes.
  assert (parent_table new = p_table p) as Ec.
  { unfold parent_rd in Ep. destruct (p_route p); [|done]. by injection Ep as <-. }
  split.
  - intros [(q & Hq & Eq)| ->]; [|by exists p]. apply elem_others in Hq as [Hq _]. by exists q.
  - intros (q & Hq & Eq). destruct (decide (p_table q = parent_table new)) as [E|E].
    + right. rewrite Ec in E. assert (q = p) as -> by (by apply (table_same st)). congruence.
    + left. exists q. split; [|done]. by apply elem_others.
Qed.

(** ** The operations *)

Ltac by_downstream := simpl; repeat (rewrite decide_True by done; simpl); repeat case_match; done.

Lemma best_same st st' ann : same_elems (resolved_routes (all_routes st)) (resolved_routes (all_routes st')) ->
  best_ok st ann -> best_ok st' ann.
Proof.
  intros E. destruct ann as [id|]; simpl.
  - intros (r & Hid & Hr). exists r. split; [done|]. by apply (same_survivors _ _ _ E).
  - intros Er. destruct (resolved_routes (all_routes st')) as [|r l] eqn:E'; [done|].
    assert (r ∈ resolved_routes (all_routes st)) as Hr by (apply E; rewrite ?E'; left).
    rewrite Er in Hr. by apply not_elem_of_nil in Hr.
Qed.

Lemma good_others st c : table_ok st -> Forall (route_ok resolver) (all_routes (others st c)).
Proof.
  intros (_ & _ & Hg). apply Forall_forall. intros r Hr. rewrite Forall_forall in Hg.
  apply Hg. apply elem_all_routes in Hr as (q & Hq & Eq). apply elem_others in Hq as [Hq _].
  apply elem_all_routes. by exists q.
Qed.

Lemma others_on_route id f st c : flag_change f ->
  all_routes (others (on_route id f st) c) = all_routes (others st c).
Proof.
  intros Hf. unfold others, on_route. induction st as [|p st IH]; [done|]. simpl map.
  set (p' := match p_route p with Some rt => if rid rt =? id then f p else p | None => p end).
  assert (p_table p' = p_table p) as Et.
  { unfold p'. destruct (p_route p); [|done]. destruct (_ =? _); [apply Hf|done]. }
  destruct (decide (p_table p = c)) as [E|E].
  - rewrite !filter_cons_False by (rewrite ?Et; tauto). exact IH.
  - rewrite !filter_cons_True by (rewrite ?Et; tauto). unfold all_routes in *. cbn [omap list_omap].
    rewrite IH. unfold p'. by rewrite on_route_rd.
Qed.

Lemma good_distance st r : table_ok st -> r ∈ all_routes st -> exists d, igp_distance resolver (nh r) = Ok d.
Proof.
  intros (_ & _ & Hg) Hr. rewrite Forall_forall in Hg. destruct (Hg r Hr) as [(_ & _ & _ & Hn) _].
  unfold igp_distance, nh. destruct (resolver (nexthop (pa r))) as [[b m]|]; [by exists m|done].
Qed.

Lemma same_route_true r r' : same_route r r' = true <-> rid_of r = rid_of r'.
Proof. unfold same_route. by rewrite Z.eqb_eq. Qed.

(** What an operation gives: the messages fit what was announced, and the
    table has the flags and the winner of the same routes. *)
Definition op_result st ann (m : result xorp_exn (Z * table * list (event N))) : Prop :=
  exists code st' evs ann', m = Ok (code, st', evs) /\ downstream ann evs = Some ann' /\ dt_inv st' ann'
    /\ all_routes st' = all_routes st.

Lemma survivor_in st w : w ∈ survivors resolver (resolved_routes (all_routes st)) -> w ∈ all_routes st.
Proof. intros Hw. apply survivors_in in Hw. by apply resolved_in in Hw as [? _]. Qed.

(** [w] is a best route of the table, or there is none. *)
Definition winner_of st (w : option RouteData) : Prop :=
  match w with
  | Some w => w ∈ survivors resolver (resolved_routes (all_routes st))
  | None => resolved_routes (all_routes st) = []
  end.

Lemma pool_winner st p new : table_ok st -> p ∈ st -> parent_rd p = Some new ->
  exists w, find_winner resolver (all_routes (others st (parent_table new)) ++ [new]) = Ok w /\ winner_of st w.
Proof.
  intros Hok Hp Ep. destruct (find_winner_cases resolver _ _ (others_and_caller st p new Hok Hp Ep)) as (w & E & Hw).
  - destruct Hok as (_ & _ & Hg). eapply Forall_impl; [exact Hg|]. by intros r [? _].
  - exists w. split; [done|]. destruct w; [apply Hw|done].
Qed.

Lemma pool_alone st p new : table_ok st -> p ∈ st -> parent_rd p = Some new ->
  all_routes (others st (parent_table new)) = [] ->
  winner_of st (if nexthop_resolved (rd_route new) then Some new else None).
Proof.
  intros Hok Hp Ep E. pose proof (others_and_caller st p new Hok Hp Ep) as Hs. rewrite E in Hs. simpl in Hs.
  pose proof (same_resolved _ _ Hs) as Hr. destruct (nexthop_resolved (rd_route new)) eqn:En; simpl.
  - assert (new ∈ resolved_routes (all_routes st)) as Hn by (apply resolved_in; split; [apply Hs; left|done]).
    destruct (survivors resolver (resolved_routes (all_routes st))) as [|x l] eqn:Es.
    + apply survivors_not_nil in Es; [done|]. intros E'. rewrite E' in Hn. by apply not_elem_of_nil in Hn.
    + assert (x ∈ all_routes st) as Hx by (apply survivor_in; rewrite Es; left).
      apply Hs, list_elem_of_singleton in Hx as ->. left.
  - destruct (resolved_routes (all_routes st)) as [|x l] eqn:Ex; [done|].
    assert (x ∈ resolved_routes [new]) as Hx by (apply Hr; left).
    apply resolved_in in Hx as [Hx Hx']. apply list_elem_of_singleton in Hx as ->. congruence.
Qed.

(** Announcing [w] when nothing is announced. *)
Lemma announce_ok st w d : table_ok st -> flags_ok st None ->
  w ∈ survivors resolver (resolved_routes (all_routes st)) ->
  dt_inv (set_is_winner (rid_of w) d st) (Some (rid_of w))
  /\ all_routes (set_is_winner (rid_of w) d st) = all_routes st.
Proof.
  intros Hok Hf Hw. assert (all_routes (set_is_winner (rid_of w) d st) = all_routes st) as E
    by (apply on_route_all, (winner_change true (fun _ => d))).
  split; [|done]. split; [by apply on_route_table|]. split; [by apply flags_set|].
  exists w. by rewrite E.
Qed.

Lemma unset_all st id : all_routes (set_is_not_winner id st) = all_routes st.
Proof. by apply on_route_all. Qed.
Lemma unset_table st id : table_ok st -> table_ok (set_is_not_winner id st).
Proof. by apply on_route_table. Qed.
Lemma unset_others st id c : all_routes (others (set_is_not_winner id st) c) = all_routes (others st c).
Proof. by apply others_on_route. Qed.

Lemma parent_of p r : parent_rd p = Some r -> parent_table r = p_table p.
Proof. unfold parent_rd. destruct (p_route p); [|done]. by intros [= <-]. Qed.

(** A caller whose route is not resolved does not matter. *)
Lemma best_unresolved st p new ann : table_ok st -> p ∈ st -> parent_rd p = Some new ->
  nexthop_resolved (rd_route new) = false -> best_ok (others st (parent_table new)) ann -> best_ok st ann.
Proof.
  intros Hok Hp Ep En. apply best_same. intros r. rewrite !resolved_in.
  rewrite <- (others_and_caller st p new Hok Hp Ep r), elem_of_app, list_elem_of_singleton.
  split; [tauto|]. intros [[?| ->] ?]; [done|congruence].
Qed.

Lemma add_core st p new ann push : op_start st (p_table p) ann -> p ∈ st -> parent_rd p = Some new ->
  best_ok (others st (p_table p)) ann ->
  op_result st ann (dt_add_route resolver next_result st new push).
Proof.
  intros Hst Hp Ep Hbest. destruct (alternatives_ok st _ ann Hst) as (o & Ealt & Eo & Ho).
  destruct Hst as [Hok Hf _ _]. rewrite <- (parent_of p new Ep) in *.
  assert (new ∈ all_routes st) as Hn by (apply elem_all_routes; eauto).
  unfold dt_add_route. pose proof Hok as (_ & _ & Hg). rewrite Forall_forall in Hg.
  destruct (Hg new Hn) as [_ ->]. cbn [result_bind]. rewrite Bool.eqb_reflx. cbn [negb].
  destruct (nexthop_resolved (rd_route new)) eqn:En; cbn [negb].
  2:{ exists ADD_UNUSED, st, [], ann. do 2 (split; [done|]). split; [|done]. split; [done|]. split; [done|].
      by eapply best_unresolved. }
  rewrite Ealt. cbn [result_bind].
  assert (exists w, match all_routes (others st (parent_table new)) with
                    | [] => Ok (Some new)
                    | _ => find_winner resolver (all_routes (others st (parent_table new)) ++ [new])
                    end = Ok (Some w) /\ w ∈ survivors resolver (resolved_routes (all_routes st))) as (w & -> & Hw).
  { pose proof (pool_alone st p new Hok Hp Ep) as Ha. rewrite En in Ha.
    destruct (pool_winner st p new Hok Hp Ep) as ([w|] & E & Hw).
    - destruct (all_routes (others st (parent_table new))) as [|a l]; [exists new; split; [done|by apply Ha]|exists w; by split].
    - assert (new ∈ resolved_routes (all_routes st)) as Hr by (by apply resolved_in).
      simpl in Hw. rewrite Hw in Hr. by apply not_elem_of_nil in Hr. }
  cbn [result_bind]. destruct (good_distance st w Hok (survivor_in st w Hw)) as (d & Ed).
  destruct o as [old|]; simpl in Eo; subst ann.
  - destruct (same_route old w) eqn:Es.
    + exists ADD_UNUSED, st, [], (Some (rid_of old)). do 2 (split; [done|]). split; [|done]. split; [done|].
      split; [done|]. exists w. split; [|done]. by apply same_route_true in Es.
    + rewrite Ed. cbn [result_bind]. do 4 eexists. split; [done|]. split.
      * by_downstream.
      * rewrite <- (unset_all st (rid_of old)). apply announce_ok; [by apply unset_table|by eapply flags_unset|].
        by rewrite unset_all.
  - rewrite Ed. cbn [result_bind]. do 4 eexists. split; [done|]. split; [by_downstream|].
    by apply announce_ok.
Qed.

Lemma others_in st c r : r ∈ all_routes (others st c) -> r ∈ all_routes st.
Proof.
  rewrite !elem_all_routes. intros (q & Hq & Eq). apply elem_others in Hq as [Hq _]. by exists q.
Qed.

(** Announcing a best route of the branches other than [c] when nothing is
    announced; [st1] is [st] with the flags taken off. *)
Lemma announce_others st st1 c w : table_ok st -> w ∈ survivors resolver (resolved_routes (all_routes (others st c))) ->
  table_ok st1 -> flags_ok st1 None -> all_routes st1 = all_routes st ->
  all_routes (others st1 c) = all_routes (others st c) ->
  exists d, igp_distance resolver (nh w) = Ok d /\ table_ok (set_is_winner (rid_of w) d st1)
    /\ flags_ok (set_is_winner (rid_of w) d st1) (Some (rid_of w))
    /\ best_ok (others (set_is_winner (rid_of w) d st1) c) (Some (rid_of w))
    /\ all_routes (set_is_winner (rid_of w) d st1) = all_routes st
    /\ all_routes (others (set_is_winner (rid_of w) d st1) c) = all_routes (others st c).
Proof.
  intros Hok Hw Hok1 Hf1 Ea Eb. destruct (good_distance st w Hok) as (d & Ed).
  { apply (others_in _ c). by apply survivor_in. }
  exists d. split; [done|]. split; [by apply on_route_table|]. split; [by apply flags_set|]. split.
  - exists w. split; [done|]. unfold set_is_winner. rewrite others_on_route by done. by rewrite Eb.
  - unfold set_is_winner. by rewrite on_route_all, others_on_route.
Qed.

(** [delete_route], whatever the caller's table holds now: [old] is neither
    there nor in another branch. *)
Lemma delete_core st c ann old was_winner push : op_start st c ann -> parent_table old = c ->
  (was_winner = true -> ann = None) -> (forall r, r ∈ all_routes st -> rid_of r <> rid_of old) ->
  exists code st' evs ann', dt_delete_route resolver st old was_winner push = Ok (code, st', evs)
    /\ downstream (if was_winner then Some (rid_of old) else ann) evs = Some ann'
    /\ table_ok st' /\ flags_ok st' ann' /\ best_ok (others st' c) ann'
    /\ all_routes st' = all_routes st /\ all_routes (others st' c) = all_routes (others st c).
Proof.
  intros Hst Ec Hww Hfresh. destruct (alternatives_ok st _ ann Hst) as (o & Ealt & Eo & Ho).
  destruct Hst as [Hok Hf _ _]. unfold dt_delete_route. rewrite Ec, Ealt. cbn [result_bind].
  assert (exists w, match all_routes (others st c) with
                    | [] => Ok None
                    | _ => find_winner resolver (all_routes (others st c))
                    end = Ok w /\ winner_of (others st c) w) as (w & -> & Hw).
  { pose proof (good_others st c Hok) as Hgo. destruct (all_routes (others st c)) as [|a l] eqn:Ea.
    - exists None. split; [done|]. simpl. by rewrite Ea.
    - destruct (find_winner_cases resolver (a :: l) (a :: l)) as (w & E & Hw); [done|done|].
      exists w. split; [done|]. destruct w; simpl; rewrite Ea; [apply Hw|done]. }
  cbn [result_bind].
  destruct was_winner.
  - specialize (Hww eq_refl). subst ann. destruct o as [o|]; [done|]. cbn [same_route].
    destruct w as [w|].
    + simpl in Hw. destruct (same_route old w) eqn:Es; [apply same_route_true in Es; by destruct (Hfresh w (others_in _ c _ (survivor_in _ _ Hw)))|].
      unfold same_route at 1. rewrite Z.eqb_refl.
      destruct (announce_others st st c w Hok Hw Hok Hf eq_refl eq_refl) as (d & -> & ? & ? & ? & ? & ?). cbn [result_bind].
      do 4 eexists. split; [done|]. split; [|done].
      by_downstream.
    + unfold same_route. rewrite Z.eqb_refl. do 4 eexists. split; [done|]. split; [by_downstream|]. done.
  - destruct o as [o|]; simpl in Eo; subst ann.
    + assert (same_route o old = false) as Eso.
      { destruct (same_route o old) eqn:Es; [|done]. apply same_route_true in Es.
        by destruct (Hfresh o (others_in _ c _ (Ho o eq_refl))). }
      destruct w as [w|].
      * destruct (same_route o w) eqn:Es.
        { exists (-1), st, [], (Some (rid_of o)). do 4 (split; [done|]). split; [|done].
          exists w. split; [|done]. by apply same_route_true in Es. }
        rewrite Eso.
        destruct (announce_others st (set_is_not_winner (rid_of o) st) c w Hok Hw) as (d & -> & ? & ? & ? & ? & ?);
          [by apply unset_table|by eapply flags_unset|by apply unset_all|by apply unset_others|].
        cbn [result_bind]. do 4 eexists. split; [done|]. split; [|done].
        by_downstream.
      * rewrite Eso. do 4 eexists. split; [done|]. split; [by_downstream|].
        split; [by apply unset_table|]. split; [by eapply flags_unset|]. split; [|by rewrite unset_all, unset_others].
        simpl. by rewrite unset_others.
    + destruct w as [w|].
      * destruct (announce_others st st c w Hok Hw Hok Hf eq_refl eq_refl) as (d & -> & ? & ? & ? & ? & ?). cbn [result_bind].
        do 4 eexists. split; [done|]. split; [|done]. by_downstream.
      * do 4 eexists. split; [done|]. split; [done|]. done.
Qed.

(** The deletion inside a replacement, when no route is left to win. *)
Lemma replace_none st c ann old was_winner push extra : op_start st c ann -> parent_table old = c ->
  (was_winner = true -> ann = None) -> (forall r, r ∈ all_routes st -> rid_of r <> rid_of old) ->
  resolved_routes (all_routes st) = [] ->
  op_result st (if was_winner then Some (rid_of old) else ann)
    (d <-! dt_delete_route resolver st old was_winner push ;;
     let '(_, st, evs) := d in Ok (ADD_UNUSED, st, evs ++ (if extra : bool then [EvPush] else [])))%xorp.
Proof.
  intros Hst Ec Hww Hfresh Hnone.
  destruct (delete_core st c ann old was_winner push Hst Ec Hww Hfresh) as (code & st' & evs & ann' & -> & Hd & Hok' & Hf' & Hb' & Ea & Eb).
  cbn [result_bind]. exists ADD_UNUSED, st', (evs ++ (if extra then [EvPush] else [])), ann'. split; [done|].
  split; [erewrite downstream_app by done; by destruct extra|]. split; [|done]. split; [done|]. split; [done|].
  destruct ann' as [id|]; [|simpl; by rewrite Ea]. destruct Hb' as (r & _ & Hr). apply survivors_in, resolved_in in Hr as [Hr Hr'].
  assert (r ∈ resolved_routes (all_routes st)) as Hx.
  { apply resolved_in. split; [|done]. rewrite <- Ea. by apply others_in in Hr. }
  rewrite Hnone in Hx. by apply not_elem_of_nil in Hx.
Qed.

(** [replace_route]: the caller's table has [new] in place of [old]. *)
Lemma replace_core st p new ann old was_winner old_push new_push :
  op_start st (p_table p) ann -> p ∈ st -> parent_rd p = Some new -> parent_table old = p_table p ->
  (was_winner = true -> ann = None) -> (forall r, r ∈ all_routes st -> rid_of r <> rid_of old) ->
  (ann = None -> was_winner = false -> resolved_routes (all_routes (others st (p_table p))) = []) ->
  op_result st (if was_winner then Some (rid_of old) else ann)
    (dt_replace_route resolver next_result st old was_winner old_push new new_push).
Proof.
  intros Hst Hp Ep Ec Hww Hfresh Hnone. pose proof Hst as Hst0.
  destruct (alternatives_ok st _ ann Hst) as (o & Ealt & Eo & Ho). pose proof Hst as [Hok Hf _ _].
  rewrite <- (parent_of p new Ep) in Ealt, Ho. unfold dt_replace_route. rewrite Ealt. cbn [result_bind].
  assert (new ∈ all_routes st) as Hn by (apply elem_all_routes; eauto).
  destruct (match o with Some o => Some o | None => if was_winner then Some old else None end) as [ow|] eqn:Eow.
  2:{ destruct o; [done|]. destruct was_winner; [done|]. simpl in Eo. subst ann.
      eapply add_core; [done|done|done|]. by apply Hnone. }
  assert ((was_winner = true /\ ow = old /\ ann = None /\ same_route ow old = true)
          \/ (was_winner = false /\ ann = Some (rid_of ow) /\ same_route ow old = false)) as Hcase.
  { destruct was_winner.
    - left. rewrite (Hww eq_refl) in *. destruct o; [done|]. injection Eow as <-. by rewrite same_route_true.
    - right. destruct o as [o|]; [|done]. injection Eow as ->. split; [done|]. split; [done|].
      destruct (same_route ow old) eqn:E; [|done]. apply same_route_true in E.
      by destruct (Hfresh ow (others_in _ _ _ (Ho ow eq_refl))). }
  assert (exists w, match all_routes (others st (parent_table new)) with
                    | [] => (can <-! resolvable resolver (nh new) ;; Ok (if can : bool then Some new else None))%xorp
                    | _ => find_winner resolver (all_routes (others st (parent_table new)) ++ [new])
                    end = Ok w /\ winner_of st w) as (w & -> & Hw).
  { pose proof (pool_alone st p new Hok Hp Ep) as Ha. pose proof Hok as (_ & _ & Hg). rewrite Forall_forall in Hg.
    destruct (pool_winner st p new Hok Hp Ep) as (w & E & Hw). destruct (Hg new Hn) as [_ ->].
    destruct (all_routes (others st (parent_table new))) as [|a l]; [|by exists w].
    eexists. split; [done|]. by apply Ha. }
  cbn [result_bind]. destruct w as [w|]; [|by apply (replace_none st (p_table p))].
  simpl in Hw. destruct (good_distance st w Hok (survivor_in st w Hw)) as (d & ->).
  destruct Hcase as [(-> & -> & -> & ->)|(-> & -> & ->)].
  - destruct (same_route w old) eqn:Es.
    { apply same_route_true in Es. by destruct (Hfresh w (survivor_in _ _ Hw)). }
    cbn [result_bind]. do 4 eexists. split; [done|]. split; [|by apply announce_ok].
    destruct (_ =? _); by_downstream.
  - destruct (same_route w ow) eqn:Es.
    { exists ADD_USED, st, [], (Some (rid_of ow)). do 2 (split; [done|]). split; [|done]. split; [done|].
      split; [done|]. exists w. split; [|done]. by apply same_route_true in Es. }
    cbn [result_bind]. do 4 eexists. split; [done|]. split; [|rewrite <- (unset_all st (rid_of ow)); apply announce_ok].
    + destruct (_ =? _); by_downstream.
    + by apply unset_table.
    + by eapply flags_unset.
    + by rewrite unset_all.
Qed.

(** ** The upstream branches

    A branch changes its route and then calls the table; a route it puts in
    starts without flags.  A branch adds a route only when it has none, and
    otherwise replaces it. *)

Definition put (c : Z) (o : option (SubnetRoute N)) st : table :=
  map (fun p => if p_table p =? c then mkParent (p_table p) (p_peer p) (p_genid p) o false 0xffffffff else p) st.

Inductive dt_op :=
  | OpAdd (c : Z) (rt : SubnetRoute N) (push : bool)
  | OpDelete (c : Z) (push : bool)
  | OpReplace (c : Z) (rt : SubnetRoute N) (old_push push : bool).

Definition caller_of (op : dt_op) : Z :=
  match op with OpAdd c _ _ | OpDelete c _ | OpReplace c _ _ _ => c end.
Definition route_of (op : dt_op) : option (SubnetRoute N) :=
  match op with OpAdd _ rt _ | OpReplace _ rt _ _ => Some rt | OpDelete _ _ => None end.
Definition upstream (op : dt_op) st : table := put (caller_of op) (route_of op) st.
Definition branch st (c : Z) : option (Parent N) := find (fun p => p_table p =? c) st.

Definition dt_exec st (op : dt_op) : result xorp_exn (Z * table * list (event N)) :=
  match branch st (caller_of op) with
  | None => Throw AssertFailed
  | Some p =>
      let rd rt := mkRD rt (p_table p) (p_peer p) (p_genid p) in
      match op, p_route p with
      | OpAdd _ rt push, None => dt_add_route resolver next_result (upstream op st) (rd rt) push
      | OpDelete _ push, Some o => dt_delete_route resolver (upstream op st) (rd o) (p_winner p) push
      | OpReplace _ rt opush push, Some o =>
          dt_replace_route resolver next_result (upstream op st) (rd o) (p_winner p) opush (rd rt) push
      | _, _ => Throw AssertFailed
      end
  end.

(** The operations a branch may do. *)
Definition op_valid st (op : dt_op) : Prop :=
  exists p, p ∈ st /\ p_table p = caller_of op
    /\ match op with OpAdd _ _ _ => p_route p = None | _ => is_Some (p_route p) end
    /\ forall rt, route_of op = Some rt ->
        (forall r, r ∈ all_routes st -> rid_of r <> rid rt)
        /\ good_route (mkRD rt (p_table p) (p_peer p) (p_genid p)).

Lemma put_elem c o st q : q ∈ put c o st <-> exists p, p ∈ st /\
  q = if p_table p =? c then mkParent (p_table p) (p_peer p) (p_genid p) o false 0xffffffff else p.
Proof. unfold put. rewrite list_elem_of_fmap. split; intros (p & ? & ?); eauto. Qed.

Lemma put_tables c o st : map p_table (put c o st) = map p_table st.
Proof. unfold put. rewrite map_map. apply map_ext. intros p. by destruct (_ =? _). Qed.

Lemma put_others c o st : others (put c o st) c = others st c.
Proof.
  unfold others, put. induction st as [|p st IH]; [done|]. simpl map. destruct (Z.eqb_spec (p_table p) c) as [E|E].
  - rewrite !filter_cons_False by (simpl; tauto). exact IH.
  - rewrite !filter_cons_True by (simpl; tauto). by rewrite IH.
Qed.

Lemma branch_ok st p : table_ok st -> p ∈ st -> branch st (p_table p) = Some p.
Proof.
  intros Hok Hp. unfold branch. destruct (find _ st) as [q|] eqn:E.
  - apply find_some in E as [Hq E]. apply Z.eqb_eq in E. apply list_elem_of_In in Hq. by rewrite (table_same st p q).
  - apply list_elem_of_In in Hp. pose proof (find_none _ _ E p Hp) as Hn. simpl in Hn. by rewrite Z.eqb_refl in Hn.
Qed.

(** A route of the changed table is the caller's new one or another branch's. *)
Lemma put_parent st p o q r : table_ok st -> p ∈ st -> q ∈ put (p_table p) o st -> parent_rd q = Some r ->
  (exists rt, o = Some rt /\ r = mkRD rt (p_table p) (p_peer p) (p_genid p)
              /\ q = mkParent (p_table p) (p_peer p) (p_genid p) o false 0xffffffff)
  \/ (q ∈ st /\ p_table q <> p_table p).
Proof.
  intros Hok Hp Hq Er. apply put_elem in Hq as (q0 & Hq & ->).
  destruct (Z.eqb_spec (p_table q0) (p_table p)) as [E|E]; [|by right]. left.
  assert (q0 = p) as -> by (by apply (table_same st)). unfold parent_rd in Er. simpl in Er.
  destruct o as [rt|]; [|done]. injection Er as <-. by exists rt.
Qed.

Lemma put_ok st p o : table_ok st -> p ∈ st ->
  (forall rt, o = Some rt -> (forall r, r ∈ all_routes st -> rid_of r <> rid rt)
                             /\ good_route (mkRD rt (p_table p) (p_peer p) (p_genid p))) ->
  table_ok (put (p_table p) o st).
Proof.
  intros Hok Hp Hnew. pose proof Hok as (Hn & Hu & Hg). split; [by rewrite put_tables|]. split.
  - intros q q' r r' Hq Hq' Er Er' E.
    destruct (put_parent st p o q r Hok Hp Hq Er) as [(rt & -> & Eq & ->)|[Hq1 _]];
      destruct (put_parent st p _ q' r' Hok Hp Hq' Er') as [(rt' & Eo & Eq' & ->)|[Hq1' _]].
    + done.
    + destruct (Hnew rt eq_refl) as [Hf _]. destruct (Hf r'); [apply elem_all_routes; by exists q'|].
      by rewrite <- E, Eq.
    + destruct (Hnew rt' Eo) as [Hf _]. destruct (Hf r); [apply elem_all_routes; by exists q|]. by rewrite E, Eq'.
    + by apply (Hu q q' r r').
  - apply Forall_forall. intros r Hr. apply elem_all_routes in Hr as (q & Hq & Er).
    destruct (put_parent st p o q r Hok Hp Hq Er) as [(rt & -> & -> & _)|[Hq1 _]]; [by apply Hnew|].
    rewrite Forall_forall in Hg. apply Hg, elem_all_routes. by exists q.
Qed.

Lemma winner_is st p rt ann : flags_ok st ann -> p ∈ st -> p_route p = Some rt ->
  p_winner p = true <-> ann = Some (rid rt).
Proof.
  intros Hf Hp Er. rewrite (Hf p Hp). unfold parent_rd. rewrite Er. split.
  - intros (r & [= <-] & ->). done.
  - intros ->. eexists. split; [done|]. done.
Qed.

Lemma put_start st p o ann : dt_inv st ann -> p ∈ st ->
  (forall rt, o = Some rt -> (forall r, r ∈ all_routes st -> rid_of r <> rid rt)
                             /\ good_route (mkRD rt (p_table p) (p_peer p) (p_genid p))) ->
  op_start (put (p_table p) o st) (p_table p) (if p_winner p then None else ann).
Proof.
  intros (Hok & Hf & Hb) Hp Hnew.
  assert (forall id r, ann = Some id -> r ∈ all_routes st -> rid_of r = id ->
            p_winner p = true \/ exists q, q ∈ st /\ p_table q <> p_table p /\ parent_rd q = Some r) as Hlive.
  { intros id r -> Hr Hid. apply elem_all_routes in Hr as (q & Hq & Eq).
    destruct (decide (p_table q = p_table p)) as [E|E]; [|right; by exists q].
    rewrite (table_same st q p Hok Hq Hp E) in Eq. left. apply Hf; [done|]. exists r. by rewrite Hid. }
  split.
  - by apply put_ok.
  - intros q Hq. pose proof Hq as Hq'. apply put_elem in Hq' as (q0 & Hq0 & ->).
    destruct (Z.eqb_spec (p_table q0) (p_table p)) as [E|E].
    + simpl. split; [done|]. rewrite (table_same st q0 p Hok Hq0 Hp E) in *. unfold parent_rd. simpl.
      intros (r & Er & Ea). destruct o as [rt|]; [|done]. injection Er as <-.
      destruct (p_winner p) eqn:Ew; [done|]. destruct (Hnew rt eq_refl) as [Hfr _].
      destruct ann as [id|]; [|done]. destruct Hb as (r & Hid & Hr).
      destruct (Hfr r (survivor_in _ _ Hr)). rewrite Hid. by injection Ea.
    + rewrite (Hf q0 Hq0). destruct (p_winner p) eqn:Ew; [|done].
      split; [|by intros (r & _ & ?)]. intros (r & Er & ->). destruct (proj1 (Hf p Hp) Ew) as (r' & Er' & [= Ea]).
      destruct Hok as (_ & Hu & _). destruct E. by rewrite (Hu q0 p r r').
  - intros q Hq E. apply put_elem in Hq as (q0 & Hq0 & ->). destruct (Z.eqb_spec (p_table q0) (p_table p)); [done|].
    by destruct n.
  - intros id Ea. destruct (p_winner p) eqn:Ew; [done|]. subst ann. destruct Hb as (r & Hid & Hr).
    destruct (Hlive id r eq_refl (survivor_in _ _ Hr) Hid) as [?|(q & Hq & E & Eq)]; [done|].
    exists r. split; [|done]. apply elem_all_routes. exists q. split; [|done]. apply put_elem. exists q.
    split; [done|]. by destruct (Z.eqb_spec (p_table q) (p_table p)).
Qed.

Lemma others_all st p : table_ok st -> p ∈ st -> p_route p = None ->
  same_elems (all_routes (others st (p_table p))) (all_routes st).
Proof.
  intros Hok Hp En r. split; [apply others_in|]. rewrite !elem_all_routes. intros (q & Hq & Eq). exists q.
  split; [|done]. apply elem_others. split; [done|]. intros E. rewrite (table_same st q p Hok Hq Hp E) in Eq.
  unfold parent_rd in Eq. by rewrite En in Eq.
Qed.

Definition rd_for p (rt : SubnetRoute N) : RouteData := mkRD rt (p_table p) (p_peer p) (p_genid p).

Lemma put_new st p rt : p ∈ st -> exists q, q ∈ put (p_table p) (Some rt) st /\ p_table q = p_table p
  /\ parent_rd q = Some (rd_for p rt).
Proof.
  intros Hp. exists (mkParent (p_table p) (p_peer p) (p_genid p) (Some rt) false 0xffffffff). split; [|done].
  apply put_elem. exists p. split; [done|]. by rewrite Z.eqb_refl.
Qed.

(** The route that was the caller's is gone. *)
Lemma put_gone st p old o : table_ok st -> p ∈ st -> p_route p = Some old ->
  (forall rt, o = Some rt -> forall r, r ∈ all_routes st -> rid_of r <> rid rt) ->
  forall r, r ∈ all_routes (put (p_table p) o st) -> rid_of r <> rid_of (rd_for p old).
Proof.
  intros Hok Hp Eold Hnew r Hr E. assert (parent_rd p = Some (rd_for p old)) as Ep by (unfold parent_rd; by rewrite Eold).
  apply elem_all_routes in Hr as (q & Hq & Eq).
  destruct (put_parent st p o q r Hok Hp Hq Eq) as [(rt & Ert & -> & _)|[Hqs Hne]].
  - apply (Hnew rt Ert (rd_for p old)); [apply elem_all_routes; by exists p|done].
  - destruct Hok as (_ & Hu & _). destruct Hne. f_equal. by apply (Hu q p r (rd_for p old)).
Qed.

(** The route announced before the operation: the caller's old one, or one of
    another branch. *)
Lemma old_announced st p old ann : flags_ok st ann -> p ∈ st -> p_route p = Some old ->
  (if p_winner p then Some (rid_of (rd_for p old)) else if p_winner p then None else ann) = ann.
Proof.
  intros Hf Hp Eold. destruct (p_winner p) eqn:Ew; [|done]. symmetry. by apply (winner_is st p old ann Hf Hp Eold).
Qed.

(** An operation of a branch keeps the invariant. *)
Lemma dt_exec_ok st ann op : dt_inv st ann -> op_valid st op -> op_result (upstream op st) ann (dt_exec st op).
Proof.
  intros Hinv (p & Hp & Ec & Hr & Hnew). pose proof (put_start st p (route_of op) ann Hinv Hp Hnew) as Hst.
  pose proof Hinv as (Hok & Hf & Hb). unfold dt_exec, upstream. rewrite <- Ec, (branch_ok st p) by done.
  assert (p_winner p = true -> (if p_winner p then None else ann) = None) as Hww by (by intros ->).
  destruct op as [c rt push|c push|c rt opush push]; cbn [route_of] in *.
  - rewrite Hr. destruct (put_new st p rt Hp) as (q & Hq & Etq & Eq).
    assert (p_winner p = false) as Ew.
    { destruct (p_winner p) eqn:Ew; [|done]. apply Hf in Ew as (r & Er & _); [|done]. unfold parent_rd in Er. by rewrite Hr in Er. }
    apply (add_core _ q); [rewrite Etq; by rewrite Ew in Hst|done|done|]. rewrite Etq, put_others.
    eapply best_same; [|exact Hb]. intros r. symmetry. by apply same_resolved, others_all.
  - destruct Hr as [old Eold]. rewrite Eold.
    destruct (delete_core _ _ _ (rd_for p old) (p_winner p) push Hst eq_refl Hww) as (code & st' & evs & ann' & E & Hd & Hok' & Hf' & Hb' & Ea & Eb).
    { by apply put_gone. }
    rewrite (old_announced st p old ann) in Hd by done. exists code, st', evs, ann'. do 2 (split; [done|]).
    split; [|done]. split; [done|]. split; [done|].
    eapply best_same; [|exact Hb']. apply same_resolved. rewrite Ea, Eb.
    apply (others_all (put (p_table p) None st) (mkParent (p_table p) (p_peer p) (p_genid p) None false 0xffffffff));
      [by destruct Hst| |done]. apply put_elem. exists p. split; [done|]. by rewrite Z.eqb_refl.
  - destruct Hr as [old Eold]. rewrite Eold. destruct (put_new st p rt Hp) as (q & Hq & Etq & Eq).
    rewrite <- (old_announced st p old ann Hf Hp Eold).
    apply (replace_core _ q); [by rewrite Etq|done|done|by rewrite Etq|done| |].
    { apply put_gone; [done..|]. intros rt' Ert. apply (Hnew rt' Ert). }
    intros Ea Ew. rewrite Ew in Ea. subst ann. rewrite Etq, put_others. simpl in Hb.
    destruct (resolved_routes (all_routes (others st (p_table p)))) as [|r l] eqn:E; [done|].
    assert (r ∈ resolved_routes (all_routes st)) as Hx; [|rewrite Hb in Hx; by apply not_elem_of_nil in Hx].
    assert (r ∈ resolved_routes (all_routes (others st (p_table p)))) as Hr by (rewrite E; left).
    apply resolved_in in Hr as [Hr Hr']. apply resolved_in. split; [by apply others_in in Hr|done].
Qed.

(** Whatever the state of the branches, when the invariant holds an operation
    of a branch never aborts (no assertion of the code fails), sends the next
    table messages that fit the route it was told of (a delete or replace names
    it, an add comes only when there is none), leaves the routes of the branches
    alone, and restores the invariant: one winner flag, on the route announced,
    which is a best resolved route of all branches. *)
Theorem decision_table_step st ann op : dt_inv st ann -> op_valid st op ->
  exists code st' evs ann', dt_exec st op = Ok (code, st', evs)
    /\ downstream ann evs = Some ann' /\ dt_inv st' ann'
    /\ all_routes st' = all_routes (upstream op st).
Proof. apply dt_exec_ok. Qed.

(** The states of the table: branches are plumbed in before they have routes,
    then operate in any order. *)
Inductive reachable : table -> option Z -> Prop :=
  | reach_empty : reachable [] None
  | reach_parent st ann t peer gen code st' : reachable st ann ->
      add_parent st t peer gen = Ok (code, st') -> reachable st' ann
  | reach_op st ann op code st' evs ann' : reachable st ann -> op_valid st op ->
      dt_exec st op = Ok (code, st', evs) -> downstream ann evs = Some ann' -> reachable st' ann'.

Lemma add_parent_inv st ann t peer gen code st' : dt_inv st ann ->
  add_parent st t peer gen = Ok (code, st') -> dt_inv st' ann.
Proof.
  intros (Hok & Hf & Hb). unfold add_parent.
  destruct (existsb (fun p => p_table p =? t) st) eqn:E1; [by intros [= <- <-]|].
  destruct (existsb (fun p => _ =? get_unique_id peer) st); [done|]. intros [= _ <-].
  assert (all_routes (st ++ [mkParent t peer gen None false 0]) = all_routes st) as E.
  { unfold all_routes. rewrite omap_app. simpl. by rewrite app_nil_r. }
  assert (t ∉ map p_table st) as Ht.
  { intros Hin. apply list_elem_of_fmap in Hin as (p & -> & Hp). apply list_elem_of_In in Hp.
    assert (existsb (fun q => p_table q =? p_table p) st = true) as Ex; [|congruence].
    apply existsb_exists. exists p. split; [done|]. apply Z.eqb_refl. }
  assert (forall q r, q ∈ st ++ [mkParent t peer gen None false 0] -> parent_rd q = Some r -> q ∈ st) as Hin.
  { intros q r Hq Er. apply elem_of_app in Hq as [Hq|Hq]; [done|]. by apply list_elem_of_singleton in Hq as ->. }
  destruct Hok as (Hn & Hu & Hg). split; [split; [|split]|split].
  - rewrite map_app. simpl. apply NoDup_app. split; [done|]. split; [|apply NoDup_singleton].
    intros x Hx Hx'. by apply list_elem_of_singleton in Hx' as ->.
  - intros p q r r' Hp Hq Er Er'. apply Hu; eauto.
  - by rewrite E.
  - intros p Hp. apply elem_of_app in Hp as [Hp|Hp]; [by apply Hf|]. apply list_elem_of_singleton in Hp as ->. simpl.
    split; [done|]. by intros (r & ? & _).
  - eapply best_same; [|exact Hb]. by rewrite E.
Qed.

Lemma reachable_inv st ann : reachable st ann -> dt_inv st ann.
Proof.
  induction 1 as [|st ann t peer gen code st' _ IH E|st ann op code st' evs ann' _ IH Hv E Hd].
  - split; [split; [by apply NoDup_nil|split; [|by constructor]]|split; [|done]].
    + intros p q r r' Hp. by apply not_elem_of_nil in Hp.
    + intros p Hp. by apply not_elem_of_nil in Hp.
  - by eapply add_parent_inv.
  - destruct (dt_exec_ok st ann op IH Hv) as (c & s1 & e1 & a1 & E' & Hd' & Hi & _).
    rewrite E in E'. injection E' as <- <- <-. rewrite Hd in Hd'. by injection Hd' as <-.
Qed.

(** C1: In every state the table reaches, from empty branches and through any
    sequence of additions, deletions and replacements, the next table has been
    told of a best resolved route when there is one and of none otherwise, and
    [lookup_route] answers with exactly that route. *)
Theorem decision_table_reachable st ann : reachable st ann ->
  best_ok st ann /\ exists o, dt_lookup_route st = Ok o /\ rid_of <$> o = ann.
Proof.
  intros Hr. apply reachable_inv in Hr as (Hok & Hf & Hb). split; [done|]. unfold dt_lookup_route.
  destruct (find_previous_ok st ann Hf (table_NoDup st Hok)) as (o & E & Ho); [by apply Hok|].
  exists o. split; [done|]. destruct o as [r|]; [by destruct Ho as [-> _]|].
  destruct ann as [id|]; [|done]. destruct Hb as (r & Hid & Hin). destruct (Ho r (survivor_in _ _ Hin)). by rewrite Hid.
Qed.
End TableSpec.

(** ** A concrete table: two branches *)

Definition sample_table : list (Parent Z) :=
  [mkParent 1 (sample_peer 1) 1 (Some (mkRoute 11 (sample_attrs 100 0 [100; 300] 5) true)) true 5;
   mkParent 2 (sample_peer 2) 1 None false 0].
Definition better_route : SubnetRoute Z := mkRoute 12 (sample_attrs 100 0 [200] 5) true.

Lemma sample_reach : reachable sample_resolver ADD_USED sample_table (Some 11).
Proof.
  eapply (reach_op _ _ [mkParent 1 (sample_peer 1) 1 None false 0; mkParent 2 (sample_peer 2) 1 None false 0] None
    (OpAdd 1 (mkRoute 11 (sample_attrs 100 0 [100; 300] 5) true) true)).
  - eapply (reach_parent _ _ [mkParent 1 (sample_peer 1) 1 None false 0] None 2 (sample_peer 2) 1); [|by_eval].
    eapply (reach_parent _ _ [] None 1 (sample_peer 1) 1); [constructor|by_eval].
  - eexists. split; [left|]. split; [done|]. split; [done|]. intros rt [= <-]. split; [|split; by_eval].
    intros r Hr. by apply not_elem_of_nil in Hr.
  - by_eval.
  - by_eval.
Qed.

Lemma sample_valid : op_valid sample_resolver sample_table (OpAdd 2 better_route true).
Proof.
  eexists. split; [right; left|]. split; [done|]. split; [done|]. intros rt [= <-]. split; [|split; by_eval].
  intros r Hr. apply list_elem_of_singleton in Hr as ->. by_eval.
Qed.

Lemma decision_table_step_witness : exists code st' evs ann',
  dt_exec sample_resolver ADD_USED sample_table (OpAdd 2 better_route true) = Ok (code, st', evs)
  /\ downstream (Some 11) evs = Some ann' /\ dt_inv sample_resolver st' ann'
  /\ all_routes st' = all_routes (upstream (OpAdd 2 better_route true) sample_table).
Proof.
  apply decision_table_step; [exact (reachable_inv _ _ _ _ sample_reach)|exact sample_valid].
Defined.

Lemma decision_table_reachable_witness : best_ok sample_resolver sample_table (Some 11)
  /\ exists o, dt_lookup_route sample_table = Ok o /\ rid_of <$> o = Some 11.
Proof. exact (decision_table_reachable _ _ _ _ sample_reach). Defined.

(** The better route of the second branch takes over. *)
Example sample_takeover : exists st', dt_exec sample_resolver ADD_USED sample_table (OpAdd 2 better_route true)
  = Ok (ADD_USED, st',
        [EvDelete (mkRD (mkRoute 11 (sample_attrs 100 0 [100; 300] 5) true) 1 (sample_peer 1) 1) false;
         EvRouteUsed (mkRD (mkRoute 11 (sample_attrs 100 0 [100; 300] 5) true) 1 (sample_peer 1) 1) false;
         EvAdd (mkRD better_route 2 (sample_peer 2) 1) true]).
Proof. eexists. vm_compute. reflexivity. Qed.
