(* ===== verification/VrrpPacket.v ===== *)
(** * VRRP packets (vrrp/vrrp_packet.cc, vrrp/vrrp_packet.hh, libproto/checksum.c)

    A packet is the list of its octets.  [VrrpHeader] is a view of the octets from
    the 20th on: the first octet holds version and type, on both kinds of host,
    since the order of the two bit fields follows the byte order. *)

From Stdlib Require Import ZArith Lia.
From stdpp Require Import base tactics option numbers list.
From S2P Require Import Prelude Word32 IPv4.
Local Open Scope Z_scope.
Local Open Scope xorp_scope.

(** ** 16-bit words *)

Definition u16_octets (x : Z) : list Z := [Z.land (Z.shiftr x 8) 0xff; Z.land x 0xff].
Definition bswap16 (x : Z) : Z := Z.lor (Z.shiftl (Z.land x 0xff) 8) (Z.land (Z.shiftr x 8) 0xff).
Definition htons `{HostOrder} (x : Z) : Z := if big_endian then x else bswap16 x.
Definition ntohs `{HostOrder} (x : Z) : Z := if big_endian then x else bswap16 x.
Definition u16_to_mem `{HostOrder} (x : Z) : list Z := if big_endian then u16_octets x else rev (u16_octets x).

(** [embed_16]. *)
Definition embed_16 (v : Z) : list Z := u16_octets v.

(** [inet_checksum]. *)
Fixpoint sum_words (sum : Z) (w : list Z) : Z :=
  match w with
  | w0 :: w1 :: w => sum_words (u32_add sum (Z.lor (Z.shiftl w0 8) w1)) w
  | [w0] => u32_add sum (Z.shiftl w0 8)
  | [] => sum
  end.
Definition fold_sum (sum : Z) : Z :=
  let sum := u32_add (Z.shiftr sum 16) (Z.land sum 0xffff) in
  let sum := u32_add sum (Z.shiftr sum 16) in
  Z.land (u32_not sum) 0xffff.
Definition inet_checksum `{HostOrder} (addr : list Z) : Z := htons (fold_sum (sum_words 0 addr)).

(** ** Buffers *)

(** Octets written at an offset; the buffer is long enough. *)
Definition put (off : nat) (bs p : list Z) : list Z := take off p ++ bs ++ drop (off + length bs) p.
Definition octet_at (p : list Z) (off : nat) : Z := nth off p 0.
(** [vector::resize]. *)
Definition resize (n : nat) (p : list Z) : list Z := take n p ++ replicate (n - length p) 0.

(** ** VrrpHeader *)

Definition VRRP_VERSION : Z := 2.
Definition VRRP_TYPE_ADVERTISEMENT : Z := 1.
Definition VRRP_AUTH_NONE : Z := 0.
Definition VRRP_HEADER : nat := 8.
Definition VRRP_AUTH : nat := 8.
Definition IP_HEADER_MIN_SIZE : nat := 20.
Definition VRRP_MAX_PACKET_SIZE : nat := IP_HEADER_MIN_SIZE + VRRP_HEADER + VRRP_AUTH + 4 * 255.

Definition vh_v (p : list Z) : Z := Z.shiftr (octet_at p 0) 4.
Definition vh_type (p : list Z) : Z := Z.land (octet_at p 0) 0xf.
Definition vh_vrid (p : list Z) : Z := octet_at p 1.
Definition vh_priority (p : list Z) : Z := octet_at p 2.
Definition vh_ipcount (p : list Z) : Z := octet_at p 3.
Definition vh_auth (p : list Z) : Z := octet_at p 4.
Definition vh_interval (p : list Z) : Z := octet_at p 5.
Definition vh_sum (p : list Z) : list Z := [octet_at p 6; octet_at p 7].

Section Packet.
Context `{HostOrder}.

(** [VrrpHeader::assign(uint8_t* data)] at the head of a buffer. *)
Definition vh_init (p : list Z) : list Z :=
  put 0 [VRRP_VERSION * 16 + VRRP_TYPE_ADVERTISEMENT; 0; 0; 0; VRRP_AUTH_NONE; 0; 0; 0] p.

(** [VrrpHeader::add_ip] and [VrrpHeader::ip]. *)
Definition vh_add_ip (p : list Z) (ip : IPv4) : result xorp_exn (list Z) :=
  if vh_ipcount p <? 255 then
    let p := put (VRRP_HEADER + 4 * Z.to_nat (vh_ipcount p)) (ipv4_copy_out ip) p in
    Ok (put 3 [vh_ipcount p + 1] p)
  else Throw AssertFailed.
Definition vh_ip (p : list Z) (idx : Z) : result xorp_exn IPv4 :=
  if idx <? vh_ipcount p then Ok (ipv4_copy_in (drop (VRRP_HEADER + 4 * Z.to_nat idx) p)) else Throw AssertFailed.

(** [VrrpHeader::finalize]: the packet and its length. *)
Definition vh_finalize (p : list Z) : list Z * nat :=
  let len := (VRRP_HEADER + 4 * Z.to_nat (vh_ipcount p))%nat in
  let p := put len (replicate VRRP_AUTH 0) p in
  let len := (len + VRRP_AUTH)%nat in
  let p := put 6 [0; 0] p in
  (put 6 (u16_to_mem (inet_checksum (take len p))) p, len).

(** [VrrpHeader::assign(const PAYLOAD&)]: the header is the packet, with the
    authentication data overwritten. *)
Definition vh_parse (p : list Z) : result xorp_exn (list Z) :=
  if (length p <? VRRP_HEADER + VRRP_AUTH)%nat then Throw VrrpException
  else if negb (vh_v p =? VRRP_VERSION) then Throw VrrpException
  else if negb (vh_type p =? VRRP_TYPE_ADVERTISEMENT) then Throw VrrpException
  else
    let size := (VRRP_HEADER + VRRP_AUTH + 4 * Z.to_nat (vh_ipcount p))%nat in
    if negb (size =? length p)%nat then Throw VrrpException
    else
      let checksum := vh_sum p in
      let '(p, sz2) := vh_finalize p in
      if negb (size =? sz2)%nat then Throw AssertFailed
      else if bool_decide (checksum = vh_sum p) then Ok p else Throw VrrpException.

(** ** VrrpPacket *)

(** 224.0.0.18 *)
Definition mcast_group : IPv4 := mkIPv4 (htonl 0xe0000012).
Definition IPPROTO_VRRP : Z := 112.

(** The constructor: the IP header fields, the checksum and the length 0. *)
Definition packet_new : list Z :=
  let d := put IP_HEADER_MIN_SIZE (vh_init (replicate (VRRP_MAX_PACKET_SIZE - IP_HEADER_MIN_SIZE) 0))
               (replicate VRRP_MAX_PACKET_SIZE 0) in
  let d := put 0 [Z.lor (Z.shiftl 4 4) (Z.shiftr (Z.of_nat IP_HEADER_MIN_SIZE) 2)] d in
  let d := put 1 [0] d in
  let d := put 2 (embed_16 0) d in
  let d := put 4 (embed_16 0) d in
  let d := put 6 (embed_16 0) d in
  let d := put 8 [255] d in
  let d := put 9 [IPPROTO_VRRP] d in
  let d := put 10 (embed_16 0) d in
  put 16 (ipv4_copy_out mcast_group) d.

(** A change of the VRRP part of the packet. *)
Definition vrrp_part (d : list Z) : list Z := drop IP_HEADER_MIN_SIZE d.
Definition with_vrrp (d : list Z) (p : list Z) : list Z := take IP_HEADER_MIN_SIZE d ++ p.

Definition set_source (d : list Z) (ip : IPv4) : list Z := put 12 (ipv4_copy_out ip) d.
Definition set_vrid (d : list Z) (vrid : Z) : list Z := with_vrrp d (put 1 [vrid mod 256] (vrrp_part d)).
Definition set_pkt_priority (d : list Z) (p : Z) : list Z := with_vrrp d (put 2 [p mod 256] (vrrp_part d)).
Definition set_pkt_interval (d : list Z) (i : Z) : list Z := with_vrrp d (put 5 [i mod 256] (vrrp_part d)).
Definition clear_ips (d : list Z) : list Z := with_vrrp d (put 3 [0] (vrrp_part d)).
Definition packet_add_ip (d : list Z) (ip : IPv4) : result xorp_exn (list Z) :=
  let d := resize VRRP_MAX_PACKET_SIZE d in
  p <-! vh_add_ip (vrrp_part d) ip ;; Ok (with_vrrp d p).
Fixpoint add_ips (d : list Z) (ips : list IPv4) : result xorp_exn (list Z) :=
  match ips with [] => Ok d | ip :: ips => d <-! packet_add_ip d ip ;; add_ips d ips end.
Definition set_ips (d : list Z) (ips : list IPv4) : result xorp_exn (list Z) := add_ips (clear_ips d) ips.

(** [IpHeader4Writer::compute_checksum]. *)
Definition ip_header_len (d : list Z) : nat := Z.to_nat (Z.shiftl (Z.land (octet_at d 0) 0xf) 2).
Definition compute_checksum (d : list Z) : list Z :=
  let d := put 10 (embed_16 0) d in
  put 10 (embed_16 (ntohs (inet_checksum (take (ip_header_len d) d)))) d.

Definition packet_finalize (d : list Z) : result xorp_exn (list Z) :=
  let '(p, size) := vh_finalize (vrrp_part d) in
  let d := with_vrrp d p in
  let size := (size + IP_HEADER_MIN_SIZE)%nat in
  let d := put 2 (embed_16 (Z.of_nat size)) d in
  let d := compute_checksum d in
  if (size <=? VRRP_MAX_PACKET_SIZE)%nat then Ok (resize size d) else Throw AssertFailed.

(** [Vrrp::prepare_advertisement] on the packet. *)
Definition prepare_packet (d : list Z) (source : IPv4) (vrid priority interval : Z) (ips : list IPv4)
  : result xorp_exn (list Z) :=
  let d := resize VRRP_MAX_PACKET_SIZE d in
  let d := set_source d source in
  let d := set_vrid d vrid in
  let d := set_pkt_priority d priority in
  let d := set_pkt_interval d interval in
  d <-! set_ips d ips ;; packet_finalize d.
End Packet.
