(* ===== verification/VrrpPacketProps.v ===== *)
(** * Advertisements survive the trip (vrrp/vrrp_packet.cc)

    The octets of the advertisement that [prepare_advertisement] builds, whatever
    the packet object held before, and the round trip through the parser. *)

From Stdlib Require Import ZArith Lia.
From stdpp Require Import base tactics option numbers list.
From S2P Require Import Prelude Word32 IPv4 Sample NetProps VrrpPacket.
Local Open Scope Z_scope.

(** ** Buffers *)

Lemma put_app off bs a z : length a = off -> put off bs (a ++ z) = a ++ bs ++ drop (length bs) z.
Proof.
  intros Ha. unfold put. rewrite take_app_length' by done. f_equal. f_equal.
  rewrite <- drop_drop. by rewrite drop_app_length'.
Qed.

Lemma put_prefix off bs a z : (off + length bs <= length a)%nat -> put off bs (a ++ z) = put off bs a ++ z.
Proof.
  intros Hl. unfold put. rewrite take_app_le by lia. rewrite drop_app_le by lia. by rewrite <- !app_assoc.
Qed.

Lemma resize_id n p : length p = n -> resize n p = p.
Proof. intros Hl. unfold resize. rewrite take_ge by lia. rewrite Hl, Nat.sub_diag. apply app_nil_r. Qed.

Lemma resize_length n p : length (resize n p) = n.
Proof. unfold resize. rewrite length_app, length_take, length_replicate. lia. Qed.

(** ** The shape of the packet

    The parts of the IP and VRRP headers that the constructor sets once and for
    all; the other octets are free. *)

Definition ip_part (l1 l2 c1 c2 s1 s2 s3 s4 : Z) : list Z :=
  [0x45; 0; l1; l2; 0; 0; 0; 0; 255; 112; c1; c2; s1; s2; s3; s4; 224; 0; 0; 18].
Definition vrrp_head (v p n i k1 k2 : Z) : list Z := [0x21; v; p; n; 0; i; k1; k2].

Definition packet_shape (d : list Z) : Prop :=
  exists l1 l2 c1 c2 s1 s2 s3 s4 v p n i k1 k2 rest,
    d = ip_part l1 l2 c1 c2 s1 s2 s3 s4 ++ vrrp_head v p n i k1 k2 ++ rest.

Section Roundtrip.
Context `{HostOrder}.

Lemma packet_new_shape : packet_shape packet_new.
Proof. repeat eexists. destruct H; vm_compute; reflexivity. Qed.

Lemma resize_shape n d : (28 <= n)%nat -> packet_shape d -> packet_shape (resize n d).
Proof.
  intros Hn (l1 & l2 & c1 & c2 & s1 & s2 & s3 & s4 & v & p & m & i & k1 & k2 & rest & ->).
  exists l1, l2, c1, c2, s1, s2, s3, s4, v, p, m, i, k1, k2,
    (take (n - 28) rest ++ replicate (n - (28 + length rest)) 0).
  unfold resize. rewrite (app_assoc (ip_part _ _ _ _ _ _ _ _)).
  rewrite take_app_ge by (simpl; lia). rewrite !length_app. simpl length. by rewrite <- !app_assoc.
Qed.

Lemma copy_out_length a : length (ipv4_copy_out a) = 4%nat.
Proof. apply u32_to_mem_length. Qed.

Lemma concat_copy_out_length ips : length (concat (map ipv4_copy_out ips)) = (4 * length ips)%nat.
Proof. induction ips as [|a ips IH]; simpl; [done|]. rewrite length_app, copy_out_length, IH. lia. Qed.

(** The addresses go one after the other behind the header. *)
Lemma add_ips_shape ip v p i k1 k2 ips k w z :
  length ip = 20%nat -> length w = (4 * k)%nat ->
  (28 + length w + length z = VRRP_MAX_PACKET_SIZE)%nat -> (k + length ips <= 255)%nat ->
  add_ips (ip ++ vrrp_head v p (Z.of_nat k) i k1 k2 ++ w ++ z) ips
  = Ok (ip ++ vrrp_head v p (Z.of_nat (k + length ips)) i k1 k2 ++ w ++ concat (map ipv4_copy_out ips)
           ++ drop (4 * length ips) z).
Proof.
  intros Hip. revert k w z. induction ips as [|a ips IH]; intros k w z Hw Hmax Hk; cbn [add_ips].
  { simpl. by rewrite Nat.add_0_r. }
  cbn [length] in Hk. unfold packet_add_ip.
  rewrite resize_id by (rewrite !length_app; simpl length; lia).
  unfold vrrp_part, IP_HEADER_MIN_SIZE, with_vrrp. rewrite drop_app_length' by done. unfold vh_add_ip.
  change (vh_ipcount (vrrp_head v p (Z.of_nat k) i k1 k2 ++ w ++ z)) with (Z.of_nat k).
  rewrite (proj2 (Z.ltb_lt _ _)) by lia. cbn [result_bind]. rewrite Nat2Z.id.
  rewrite (app_assoc (vrrp_head _ _ _ _ _ _)), put_app by (rewrite length_app; simpl; lia).
  rewrite copy_out_length, take_app_length' by done. rewrite <- (app_assoc (vrrp_head _ _ _ _ _ _)).
  change (vh_ipcount (vrrp_head v p (Z.of_nat k) i k1 k2 ++ w ++ ipv4_copy_out a ++ drop 4 z)) with (Z.of_nat k).
  rewrite put_prefix by (simpl; lia).
  change (put 3 [Z.of_nat k + 1] (vrrp_head v p (Z.of_nat k) i k1 k2)) with (vrrp_head v p (Z.of_nat k + 1) i k1 k2).
  replace (Z.of_nat k + 1) with (Z.of_nat (S k)) by lia. rewrite (app_assoc w).
  assert (4 <= length z)%nat as Hz by (unfold VRRP_MAX_PACKET_SIZE, IP_HEADER_MIN_SIZE, VRRP_HEADER, VRRP_AUTH in *; lia).
  rewrite IH; [|rewrite length_app, copy_out_length; lia|rewrite length_app, copy_out_length, length_drop; lia|lia].
  replace (S k + length ips)%nat with (k + length (a :: ips))%nat by (simpl; lia).
  cbn [map concat length]. rewrite drop_drop, <- !app_assoc.
  by replace (4 * S (length ips))%nat with (4 + 4 * length ips)%nat by lia.
Qed.

(** The checksum octets of a header with addresses [w]. *)
Definition adv_sum (v p n i : Z) (w : list Z) : list Z :=
  u16_to_mem (inet_checksum (vrrp_head v p n i 0 0 ++ w ++ replicate VRRP_AUTH 0)).

Lemma u16_mem_two x : exists a b, u16_to_mem x = [a; b].
Proof. unfold u16_to_mem, u16_octets. destruct big_endian; simpl; eauto. Qed.

(** The VRRP part of an advertisement. *)
Definition adv_octets (v p i : Z) (ips : list IPv4) : list Z :=
  let n := Z.of_nat (length ips) in
  let w := concat (map ipv4_copy_out ips) in
  [0x21; v; p; n; 0; i] ++ adv_sum v p n i w ++ w ++ replicate VRRP_AUTH 0.

Lemma finalize_closed v p i k1 k2 ips z : (8 <= length z)%nat ->
  let n := Z.of_nat (length ips) in
  let w := concat (map ipv4_copy_out ips) in
  vh_finalize (vrrp_head v p n i k1 k2 ++ w ++ z)
  = (adv_octets v p i ips ++ drop 8 z, (16 + 4 * length ips)%nat).
Proof.
  intros Hz n w.
  assert (length w = (4 * length ips)%nat) as Hw by apply concat_copy_out_length.
  assert (vh_ipcount (vrrp_head v p n i k1 k2 ++ w ++ z) = n) as En by done.
  assert (Z.to_nat n = length ips) as Et by apply Nat2Z.id.
  assert (put (8 + 4 * length ips) (replicate 8 0) (vrrp_head v p n i k1 k2 ++ w ++ z)
          = vrrp_head v p n i k1 k2 ++ w ++ replicate 8 0 ++ drop 8 z) as E1.
  { rewrite (app_assoc (vrrp_head _ _ _ _ _ _)), put_app by (rewrite length_app; simpl; lia).
    by rewrite <- app_assoc, length_replicate. }
  assert (put 6 [0; 0] (vrrp_head v p n i k1 k2 ++ w ++ replicate 8 0 ++ drop 8 z)
          = (vrrp_head v p n i 0 0 ++ w ++ replicate 8 0) ++ drop 8 z) as E2.
  { rewrite put_prefix by (simpl; lia). by rewrite <- !app_assoc. }
  unfold vh_finalize. rewrite En, Et. unfold VRRP_HEADER, VRRP_AUTH. rewrite E1, E2.
  rewrite take_app_length' by (rewrite !length_app, length_replicate; simpl; lia).
  fold (adv_sum v p n i w). unfold adv_octets. fold n w.
  destruct (u16_mem_two (inet_checksum (vrrp_head v p n i 0 0 ++ w ++ replicate VRRP_AUTH 0))) as (x & y & E).
  unfold adv_sum, VRRP_AUTH in *. rewrite E, <- !app_assoc, put_prefix by (simpl; lia).
  f_equal. lia.
Qed.

Lemma parse_adv v p i ips : (length ips <= 255)%nat -> vh_parse (adv_octets v p i ips) = Ok (adv_octets v p i ips).
Proof.
  intros Hn. assert (length (concat (map ipv4_copy_out ips)) = (4 * length ips)%nat) as Hw by apply concat_copy_out_length.
  set (n := Z.of_nat (length ips)). set (w := concat (map ipv4_copy_out ips)) in *.
  destruct (u16_mem_two (inet_checksum (vrrp_head v p n i 0 0 ++ w ++ replicate VRRP_AUTH 0))) as (a & b & E).
  assert (adv_octets v p i ips = vrrp_head v p n i a b ++ w ++ replicate 8 0) as Ea.
  { unfold adv_octets, adv_sum. fold n w. by rewrite E. }
  assert (length (adv_octets v p i ips) = (16 + 4 * length ips)%nat) as Hl.
  { rewrite Ea, !length_app, length_replicate, Hw. simpl. lia. }
  assert (vh_finalize (adv_octets v p i ips) = (adv_octets v p i ips, (16 + 4 * length ips)%nat)) as Ef.
  { rewrite Ea at 1. unfold n, w. rewrite finalize_closed by (by rewrite length_replicate). simpl. by rewrite app_nil_r. }
  unfold vh_parse. rewrite Hl, Ef.
  assert (vh_ipcount (adv_octets v p i ips) = n) as -> by done. unfold n. rewrite Nat2Z.id.
  unfold VRRP_HEADER, VRRP_AUTH. destruct (Nat.ltb_spec (16 + 4 * length ips) (8 + 8)); [lia|].
  change (vh_v (adv_octets v p i ips)) with 2. change (vh_type (adv_octets v p i ips)) with 1.
  cbn [Z.eqb negb Pos.eqb VRRP_VERSION VRRP_TYPE_ADVERTISEMENT].
  rewrite (proj2 (Nat.eqb_eq (8 + 8 + 4 * length ips) (16 + 4 * length ips))) by lia. cbn [negb].
  by rewrite bool_decide_true.
Qed.

Lemma adv_octets_length v p i ips : length (adv_octets v p i ips) = (16 + 4 * length ips)%nat.
Proof.
  unfold adv_octets, adv_sum.
  destruct (u16_mem_two (inet_checksum (vrrp_head v p (Z.of_nat (length ips)) i 0 0
                           ++ concat (map ipv4_copy_out ips) ++ replicate VRRP_AUTH 0))) as (x & y & ->).
  rewrite !length_app, concat_copy_out_length, length_replicate. simpl. unfold VRRP_AUTH. lia.
Qed.

Lemma compute_checksum_shape l1 l2 c1 c2 s1 s2 s3 s4 rest : exists c1' c2',
  compute_checksum (ip_part l1 l2 c1 c2 s1 s2 s3 s4 ++ rest) = ip_part l1 l2 c1' c2' s1 s2 s3 s4 ++ rest.
Proof. unfold compute_checksum, embed_16, u16_octets. do 2 eexists. reflexivity. Qed.

Lemma packet_finalize_closed ip v p i k1 k2 ips z : length ip = 20%nat -> (length ips <= 255)%nat -> (8 <= length z)%nat ->
  (exists l1 l2 c1 c2 s1 s2 s3 s4, ip = ip_part l1 l2 c1 c2 s1 s2 s3 s4) ->
  exists l1 l2 c1 c2 s1 s2 s3 s4,
    packet_finalize (ip ++ vrrp_head v p (Z.of_nat (length ips)) i k1 k2 ++ concat (map ipv4_copy_out ips) ++ z)
    = Ok (ip_part l1 l2 c1 c2 s1 s2 s3 s4 ++ adv_octets v p i ips).
Proof.
  intros Hip Hn Hz (l1 & l2 & c1 & c2 & s1 & s2 & s3 & s4 & ->).
  pose proof (adv_octets_length v p i ips) as Hl.
  unfold packet_finalize, vrrp_part, with_vrrp, IP_HEADER_MIN_SIZE. rewrite drop_app_length', take_app_length' by done.
  rewrite finalize_closed by done. generalize dependent (adv_octets v p i ips). intros adv Hl.
  change (embed_16 (Z.of_nat (16 + 4 * length ips + 20)))
    with [Z.land (Z.shiftr (Z.of_nat (16 + 4 * length ips + 20)) 8) 0xff; Z.land (Z.of_nat (16 + 4 * length ips + 20)) 0xff].
  generalize (Z.land (Z.shiftr (Z.of_nat (16 + 4 * length ips + 20)) 8) 0xff) as l1'.
  generalize (Z.land (Z.of_nat (16 + 4 * length ips + 20)) 0xff) as l2'. intros l2' l1'.
  change (put 2 [l1'; l2'] (ip_part l1 l2 c1 c2 s1 s2 s3 s4 ++ adv ++ drop 8 z))
    with (ip_part l1' l2' c1 c2 s1 s2 s3 s4 ++ adv ++ drop 8 z).
  destruct (compute_checksum_shape l1' l2' c1 c2 s1 s2 s3 s4 (adv ++ drop 8 z)) as (c1' & c2' & ->).
  rewrite (proj2 (Nat.leb_le _ _)) by (unfold VRRP_MAX_PACKET_SIZE, IP_HEADER_MIN_SIZE, VRRP_HEADER, VRRP_AUTH; lia).
  exists l1', l2', c1', c2', s1, s2, s3, s4. f_equal. unfold resize.
  rewrite app_assoc, take_app_length' by (rewrite length_app, Hl; simpl; lia).
  rewrite !length_app, Hl. simpl length.
  replace (16 + 4 * length ips + 20 - (20 + (16 + 4 * length ips) + length (drop 8 z)))%nat with O by lia.
  apply app_nil_r.
Qed.

Lemma copy_out_four a : exists a0 a1 a2 a3, ipv4_copy_out a = [a0; a1; a2; a3].
Proof.
  pose proof (copy_out_length a) as Hl. destruct (ipv4_copy_out a) as [|a0 [|a1 [|a2 [|a3 [|]]]]]; try done.
  by exists a0, a1, a2, a3.
Qed.

Lemma prepare_closed d source vrid prio interval ips : packet_shape d -> (length ips <= 255)%nat ->
  exists l1 l2 c1 c2 s1 s2 s3 s4, prepare_packet d source vrid prio interval ips
    = Ok (ip_part l1 l2 c1 c2 s1 s2 s3 s4 ++ adv_octets (vrid mod 256) (prio mod 256) (interval mod 256) ips).
Proof.
  intros Hd Hn. unfold prepare_packet. pose proof (resize_length VRRP_MAX_PACKET_SIZE d) as Hl.
  apply (resize_shape VRRP_MAX_PACKET_SIZE) in Hd;
    [|unfold VRRP_MAX_PACKET_SIZE, IP_HEADER_MIN_SIZE, VRRP_HEADER, VRRP_AUTH; lia].
  destruct Hd as (l1 & l2 & c1 & c2 & s1 & s2 & s3 & s4 & v & p & m & i & k1 & k2 & rest & E).
  rewrite E in Hl |- *. rewrite !length_app in Hl. simpl length in Hl.
  destruct (copy_out_four source) as (a0 & a1 & a2 & a3 & Es). unfold set_source. rewrite Es.
  change (put 12 [a0; a1; a2; a3] (ip_part l1 l2 c1 c2 s1 s2 s3 s4 ++ vrrp_head v p m i k1 k2 ++ rest))
    with (ip_part l1 l2 c1 c2 a0 a1 a2 a3 ++ vrrp_head v p m i k1 k2 ++ rest).
  set (ip := ip_part l1 l2 c1 c2 a0 a1 a2 a3).
  set (v' := vrid mod 256). set (p' := prio mod 256). set (i' := interval mod 256).
  unfold set_ips.
  change (clear_ips _) with (ip ++ vrrp_head v' p' (Z.of_nat 0) i' k1 k2 ++ [] ++ rest).
  rewrite add_ips_shape by (done || simpl; lia). cbn [result_bind]. rewrite app_nil_l.
  apply (packet_finalize_closed ip v' p' i' k1 k2 ips (drop (4 * length ips) rest)); [done|done| |].
  - rewrite length_drop. unfold VRRP_MAX_PACKET_SIZE, IP_HEADER_MIN_SIZE, VRRP_HEADER, VRRP_AUTH in Hl. lia.
  - unfold ip. repeat eexists.
Qed.

Lemma drop_concat_copy_out ips i a rest : ips !! i = Some a -> exists rest',
  drop (4 * i) (concat (map ipv4_copy_out ips) ++ rest) = ipv4_copy_out a ++ rest'.
Proof.
  intros Hi. pose proof (lookup_lt_Some _ _ _ Hi) as Hlt. rewrite <- (take_drop_middle ips i a Hi).
  rewrite map_app, concat_app. cbn [map concat]. rewrite <- !app_assoc.
  rewrite drop_app_length' by (rewrite concat_copy_out_length, length_take; lia). eauto.
Qed.

Lemma vh_ip_adv v p i ips k a : ips !! k = Some a -> ipv4_wf a ->
  vh_ip (adv_octets v p i ips) (Z.of_nat k) = Ok a.
Proof.
  intros Hk Ha. unfold vh_ip. change (vh_ipcount (adv_octets v p i ips)) with (Z.of_nat (length ips)).
  apply lookup_lt_Some in Hk as Hlt. rewrite (proj2 (Z.ltb_lt _ _)) by lia. rewrite Nat2Z.id. f_equal.
  unfold adv_octets, adv_sum.
  destruct (u16_mem_two (inet_checksum (vrrp_head v p (Z.of_nat (length ips)) i 0 0
                           ++ concat (map ipv4_copy_out ips) ++ replicate VRRP_AUTH 0))) as (x & y & ->).
  unfold VRRP_HEADER. simpl app. cbn [drop Nat.add].
  destruct (drop_concat_copy_out ips k a (replicate 8 0) Hk) as (rest' & E).
  change (replicate 8 0) with [0; 0; 0; 0; 0; 0; 0; 0] in E. rewrite E. unfold ipv4_copy_in.
  rewrite take_app_length' by (symmetry; apply copy_out_length). destruct a as [x0]. unfold ipv4_copy_out. simpl.
  by rewrite u32_mem_roundtrip.
Qed.

Lemma advertisement_closed d source vrid prio interval ips : packet_shape d -> (length ips <= 255)%nat ->
  exists d', prepare_packet d source vrid prio interval ips = Ok d' /\ packet_shape d'.
Proof.
  intros Hd Hn.
  destruct (prepare_closed d source vrid prio interval ips Hd Hn) as (l1 & l2 & c1 & c2 & s1 & s2 & s3 & s4 & E).
  eexists. split; [exact E|]. unfold adv_octets, adv_sum.
  match goal with |- context [u16_to_mem ?x] => destruct (u16_mem_two x) as (y & z & ->) end.
  repeat eexists.
Qed.

(** The receiver accepts the octets of [d], checksum included, and reads these
    fields and addresses. *)
Definition carries (d : list Z) (vrid prio interval : Z) (ips : list IPv4) : Prop :=
  exists h, vh_parse (vrrp_part d) = Ok h
    /\ vh_vrid h = vrid /\ vh_priority h = prio /\ vh_interval h = interval /\ vh_auth h = VRRP_AUTH_NONE
    /\ vh_ipcount h = Z.of_nat (length ips)
    /\ forall k a, ips !! k = Some a -> vh_ip h (Z.of_nat k) = Ok a.

Lemma advertisement_carries d source vrid prio interval ips :
  packet_shape d -> 0 <= vrid < 256 -> 0 <= prio < 256 -> 0 <= interval < 256 ->
  (length ips <= 255)%nat -> Forall ipv4_wf ips ->
  exists d', prepare_packet d source vrid prio interval ips = Ok d' /\ packet_shape d' /\ carries d' vrid prio interval ips.
Proof.
  intros Hd Hv Hp Hi Hn Hips.
  destruct (prepare_closed d source vrid prio interval ips Hd Hn) as (l1 & l2 & c1 & c2 & s1 & s2 & s3 & s4 & E).
  destruct (advertisement_closed d source vrid prio interval ips Hd Hn) as (d' & E' & Hs).
  rewrite !Z.mod_small in E by lia.
  assert (d' = ip_part l1 l2 c1 c2 s1 s2 s3 s4 ++ adv_octets vrid prio interval ips) as -> by congruence.
  eexists. split; [exact E'|]. split; [done|]. eexists.
  split; [unfold vrrp_part, IP_HEADER_MIN_SIZE; rewrite drop_app_length' by done; by apply parse_adv|].
  do 5 (split; [done|]). intros k a Hk. apply vh_ip_adv; [done|]. rewrite Forall_lookup in Hips. by eapply Hips.
Qed.

(** C35: An advertisement survives the trip: whatever addresses and fields the
    packet object carried before, [prepare_advertisement] succeeds for up to 255
    addresses, and the parser of the receiver accepts its octets, checksum
    included, and reads the same virtual router ID, priority, interval, count and
    addresses. *)
Theorem advertisement_roundtrip d source vrid prio interval ips :
  packet_shape d -> 0 <= vrid < 256 -> 0 <= prio < 256 -> 0 <= interval < 256 ->
  (length ips <= 255)%nat -> Forall ipv4_wf ips ->
  exists d' h, prepare_packet d source vrid prio interval ips = Ok d' /\ packet_shape d'
    /\ vh_parse (vrrp_part d') = Ok h
    /\ vh_vrid h = vrid /\ vh_priority h = prio /\ vh_interval h = interval /\ vh_auth h = VRRP_AUTH_NONE
    /\ vh_ipcount h = Z.of_nat (length ips)
    /\ forall k a, ips !! k = Some a -> vh_ip h (Z.of_nat k) = Ok a.
Proof.
  intros Hd Hv Hp Hi Hn Hips.
  destruct (advertisement_carries d source vrid prio interval ips) as (d' & E & Hs & h & Hh); [done..|].
  by exists d', h.
Qed.
End Roundtrip.

Lemma advertisement_roundtrip_witness : exists d' h,
  prepare_packet packet_new (ip4 10 0 0 1) 7 100 1 [ip4 10 0 0 254] = Ok d' /\ packet_shape d'
  /\ vh_parse (vrrp_part d') = Ok h
  /\ vh_vrid h = 7 /\ vh_priority h = 100 /\ vh_interval h = 1 /\ vh_auth h = VRRP_AUTH_NONE
  /\ vh_ipcount h = 1
  /\ forall k a, [ip4 10 0 0 254] !! k = Some a -> vh_ip h (Z.of_nat k) = Ok a.
Proof.
  apply (advertisement_roundtrip packet_new (ip4 10 0 0 1) 7 100 1 [ip4 10 0 0 254]);
    [exact packet_new_shape|lia|lia|lia|simpl; lia|repeat constructor; by_eval].
Defined.
