(* ===== verification/Vrrp.v ===== *)
(** * The VRRP state machine (vrrp/vrrp.cc, vrrp/vrrp_vif.cc)

    [Vrrp] is one virtual router, [VrrpVif] the interface with its virtual
    routers.  A method of [Vrrp] works on the virtual router, on the counter of
    multicast memberships of the interface, and sends commands and packets, which
    are collected in the order they are sent.  Times are in 1/256 s: the
    floating-point values of the code are multiples of it, computed without
    rounding. *)

From Stdlib Require Import ZArith Lia String.
From stdpp Require Import base tactics option numbers list strings.
From S2P Require Import Prelude Word32 IPv4 VrrpPacket.
Local Open Scope Z_scope.
Local Open Scope xorp_scope.

Inductive vrrp_state := INITIALIZE | MASTER | BACKUP.

#[global] Instance vrrp_state_eq_dec : EqDecision vrrp_state.
Proof. solve_decision. Defined.

Definition PRIORITY_LEAVE : Z := 0.
Definition PRIORITY_OWN : Z := 255.
Definition ETHERTYPE_IP : Z := 0x0800.
Definition ETHERTYPE_ARP : Z := 0x0806.

(** The timers hold the milliseconds they were set to, when scheduled. *)
Record Vrrp := mkVrrp {
  last_adv : IPv4; vrid : Z; priority : Z; interval : Z;
  skew_time : Z; master_down_interval : Z; preempt : bool;
  vr_ips : list IPv4; prefixes : list (Z * Z); vr_state : vrrp_state;
  master_down_timer : option Z; adver_timer : option Z; disable : bool; adv_packet : list Z }.

Definition Mac : Type := list Z.
Definition mcast_mac : Mac := [0x01; 0x00; 0x5e; 0x00; 0x00; 0x12].
Definition broadcast_mac : Mac := [0xff; 0xff; 0xff; 0xff; 0xff; 0xff].
(** "00:00:5E:00:01:%X" *)
Definition source_mac (v : Vrrp) : Mac := [0x00; 0x00; 0x5e; 0x00; 0x01; vrid v].

(** What the interface is told to do. *)
Inductive command :=
  | CJoin | CLeave
  | CAddMac (m : Mac) | CDelMac (m : Mac)
  | CAddIp (ip : IPv4) (prefix : Z) | CDelIp (ip : IPv4)
  | CSend (src dst : Mac) (ether : Z) (payload : list Z).

(** The part of [VrrpVif] that a virtual router sees: [e_others] counts the other
    running virtual routers of the interface, and [e_listed] is whether this one
    is still in its table. *)
Record VifEnv := mkEnv {
  e_ready : bool; e_join : Z; e_ips : list IPv4; e_ifname : string; e_vifname : string; e_others : Z; e_listed : bool }.
(** The test of the assertions of [add_mac], [delete_mac], [add_ip] and [delete_ip]. *)
Definition e_same_name (e : VifEnv) : bool := bool_decide (e_ifname e = e_vifname e).

Record St := mkSt { env : VifEnv; vr : Vrrp; out : list command }.

Definition set_vr (v : Vrrp) (s : St) : St := mkSt (env s) v (out s).
Definition emit (c : command) (s : St) : St := mkSt (env s) (vr s) (out s ++ [c]).
Definition assert (b : bool) (s : St) : result xorp_exn St := if b then Ok s else Throw AssertFailed.

Definition with_state (x : vrrp_state) (v : Vrrp) : Vrrp :=
  mkVrrp (last_adv v) (vrid v) (priority v) (interval v) (skew_time v) (master_down_interval v) (preempt v)
    (vr_ips v) (prefixes v) x (master_down_timer v) (adver_timer v) (disable v) (adv_packet v).
Definition with_timers (m a : option Z) (v : Vrrp) : Vrrp :=
  mkVrrp (last_adv v) (vrid v) (priority v) (interval v) (skew_time v) (master_down_interval v) (preempt v)
    (vr_ips v) (prefixes v) (vr_state v) m a (disable v) (adv_packet v).
Definition with_packet (d : list Z) (v : Vrrp) : Vrrp :=
  mkVrrp (last_adv v) (vrid v) (priority v) (interval v) (skew_time v) (master_down_interval v) (preempt v)
    (vr_ips v) (prefixes v) (vr_state v) (master_down_timer v) (adver_timer v) (disable v) d.
Definition with_last_adv (a : IPv4) (v : Vrrp) : Vrrp :=
  mkVrrp a (vrid v) (priority v) (interval v) (skew_time v) (master_down_interval v) (preempt v)
    (vr_ips v) (prefixes v) (vr_state v) (master_down_timer v) (adver_timer v) (disable v) (adv_packet v).
Definition with_intervals (sk md : Z) (v : Vrrp) : Vrrp :=
  mkVrrp (last_adv v) (vrid v) (priority v) (interval v) sk md (preempt v)
    (vr_ips v) (prefixes v) (vr_state v) (master_down_timer v) (adver_timer v) (disable v) (adv_packet v).
Definition with_config (p i : Z) (pre dis : bool) (v : Vrrp) : Vrrp :=
  mkVrrp (last_adv v) (vrid v) p i (skew_time v) (master_down_interval v) pre
    (vr_ips v) (prefixes v) (vr_state v) (master_down_timer v) (adver_timer v) dis (adv_packet v).
Definition with_ips (l : list IPv4) (pf : list (Z * Z)) (v : Vrrp) : Vrrp :=
  mkVrrp (last_adv v) (vrid v) (priority v) (interval v) (skew_time v) (master_down_interval v) (preempt v)
    l pf (vr_state v) (master_down_timer v) (adver_timer v) (disable v) (adv_packet v).

Definition is_state (x : vrrp_state) (v : Vrrp) : bool := bool_decide (vr_state v = x).
Definition running (v : Vrrp) : bool := negb (is_state INITIALIZE v).

Section Vrrp.
Context `{HostOrder}.

(** ** The interface *)

Definition join_mcast (s : St) : result xorp_exn St :=
  let e := env s in
  let j := u32_add (e_join e) 1 in
  s <-! assert (negb (j =? 0)) (mkSt (mkEnv (e_ready e) j (e_ips e) (e_ifname e) (e_vifname e) (e_others e) (e_listed e)) (vr s) (out s)) ;;
  Ok (if j =? 1 then emit CJoin s else s).

Definition leave_mcast (s : St) : result xorp_exn St :=
  let e := env s in
  s <-! assert (negb (e_join e =? 0)) s ;;
  let j := e_join e - 1 in
  let s := mkSt (mkEnv (e_ready e) j (e_ips e) (e_ifname e) (e_vifname e) (e_others e) (e_listed e)) (vr s) (out s) in
  if 0 <? j then Ok s
  else
    let cnt := e_others e + (if e_listed e && running (vr s) then 1 else 0) in
    assert (cnt <=? 1) (emit CLeave s).

(** [VrrpVif::addr]: the lowest address. *)
Definition vif_addr (s : St) : result xorp_exn IPv4 :=
  match e_ips (env s) with [] => Throw AssertFailed | a :: _ => Ok a end.

Definition vif_send (src dst : Mac) (ether : Z) (payload : list Z) (s : St) : result xorp_exn St :=
  s <-! assert (e_ready (env s)) s ;; Ok (emit (CSend src dst ether payload) s).
(** [add_mac], [delete_mac], [add_ip] and [delete_ip] of the interface. *)
Definition vif_command (c : command) (s : St) : result xorp_exn St :=
  s <-! assert (e_same_name (env s)) s ;; Ok (emit c s).

Fixpoint for_each {X} (l : list X) (f : X -> St -> result xorp_exn St) (s : St) : result xorp_exn St :=
  match l with [] => Ok s | x :: l => s <-! f x s ;; for_each l f s end.

(** ** Vrrp *)

Definition cancel_timers (s : St) : St := set_vr (with_timers None None (vr s)) s.

Definition setup_timers (skew : bool) (s : St) : result xorp_exn St :=
  if negb (running (vr s)) then Ok s
  else
    let s := cancel_timers s in
    let v := vr s in
    match vr_state v with
    | INITIALIZE => Throw AssertFailed
    | MASTER => Ok (set_vr (with_timers None (Some (interval v * 1000)) v) s)
    | BACKUP =>
        let t := if skew then skew_time v else master_down_interval v in
        Ok (set_vr (with_timers (Some (t * 1000 / 256)) None v) s)
    end.

(** The interval is computed from the skew time before it is updated. *)
Definition setup_intervals (s : St) : result xorp_exn St :=
  let v := vr s in
  let sk := 256 - priority v in
  let md := 3 * (256 * interval v) + skew_time v in
  if negb (skew_time v =? sk) || negb (master_down_interval v =? md)
  then setup_timers false (set_vr (with_intervals sk md v) s)
  else Ok s.

(** The constructor. *)
Definition vrrp_new (id : Z) : result xorp_exn Vrrp :=
  if (id <? 1) || (255 <? id) then Throw VrrpException
  else
    let v := mkVrrp ipv4_ZERO id 100 1 0 0 true [] [] INITIALIZE None None true packet_new in
    s <-! setup_intervals (mkSt (mkEnv false 0 [] ""%string ""%string 0 false) v []) ;; Ok (vr s).

Definition prepare_advertisement (p : Z) (s : St) : result xorp_exn St :=
  let v := vr s in
  a <-! vif_addr s ;;
  d <-! prepare_packet (adv_packet v) a (vrid v) p (interval v) (vr_ips v) ;;
  Ok (set_vr (with_packet d v) s).

Definition send_advertisement (p : Z) (s : St) : result xorp_exn St :=
  s <-! assert (p <=? PRIORITY_OWN) s ;;
  s <-! assert (is_state MASTER (vr s)) s ;;
  s <-! prepare_advertisement p s ;;
  vif_send (source_mac (vr s)) mcast_mac ETHERTYPE_IP (adv_packet (vr s)) s.

(** [ArpHeader::make_gratuitous]. *)
Definition gratuitous_arp (m : Mac) (ip : IPv4) : list Z :=
  [0; 1] ++ embed_16 ETHERTYPE_IP ++ [6; 4] ++ [0; 1] ++ m ++ ipv4_copy_out ip ++ replicate 6 0 ++ ipv4_copy_out ip.
Definition send_arp (ip : IPv4) (s : St) : result xorp_exn St :=
  let m := source_mac (vr s) in vif_send m broadcast_mac ETHERTYPE_ARP (gratuitous_arp m ip) s.
Definition send_arps (s : St) : result xorp_exn St :=
  s <-! assert (is_state MASTER (vr s)) s ;; for_each (vr_ips (vr s)) send_arp s.

(** The prefix length for an address: 24 unless configured. *)
Definition lookup_prefix (l : list (Z * Z)) (ip : IPv4) : option Z :=
  match find (fun kv => fst kv =? ipv4_addr ip) l with Some kv => Some (snd kv) | None => None end.
Definition ip_prefix (v : Vrrp) (ip : IPv4) : Z :=
  match lookup_prefix (prefixes v) ip with
  | Some pf => let pf := if pf <=? 0 then 24 else pf in if 32 <? pf then 32 else pf
  | None => 24
  end.

Definition become_master (s : St) : result xorp_exn St :=
  let s := set_vr (with_state MASTER (vr s)) s in
  s <-! vif_command (CAddMac (source_mac (vr s))) s ;;
  s <-! for_each (vr_ips (vr s)) (fun ip s => vif_command (CAddIp ip (ip_prefix (vr s) ip)) s) s ;;
  s <-! send_advertisement (priority (vr s)) s ;;
  s <-! send_arps s ;;
  setup_timers false s.

Definition release (s : St) : result xorp_exn St :=
  s <-! vif_command (CDelMac (source_mac (vr s))) s ;;
  for_each (vr_ips (vr s)) (fun ip s => vif_command (CDelIp ip) s) s.

Definition become_backup (s : St) : result xorp_exn St :=
  s <-! (if is_state MASTER (vr s) then release s else Ok s) ;;
  setup_timers false (set_vr (with_state BACKUP (vr s)) s).

Definition start (s : St) : result xorp_exn St :=
  if running (vr s) then Ok s
  else if negb (e_ready (env s)) then Ok s
  else
    s <-! join_mcast s ;;
    if priority (vr s) =? PRIORITY_OWN then become_master s else become_backup s.

Definition stop (s : St) : result xorp_exn St :=
  if negb (running (vr s)) then Ok s
  else
    s <-! leave_mcast s ;;
    let s := cancel_timers s in
    s <-! (if is_state MASTER (vr s) then s <-! send_advertisement PRIORITY_LEAVE s ;; release s else Ok s) ;;
    Ok (set_vr (with_state INITIALIZE (vr s)) s).

(** *** Configuration *)

Definition set_priority (p : Z) (s : St) : result xorp_exn St :=
  if (p =? PRIORITY_LEAVE) || (PRIORITY_OWN <=? p) then Throw VrrpException
  else let v := vr s in setup_intervals (set_vr (with_config p (interval v) (preempt v) (disable v) v) s).

Definition set_interval (i : Z) (s : St) : result xorp_exn St :=
  let i := if i =? 0 then 1 else i in
  let i := if 255 <? i then 255 else i in
  let v := vr s in setup_intervals (set_vr (with_config (priority v) i (preempt v) (disable v) v) s).

Definition set_preempt (b : bool) (s : St) : result xorp_exn St :=
  let v := vr s in Ok (set_vr (with_config (priority v) (interval v) b (disable v) v) s).

Definition set_disable (b : bool) (s : St) : result xorp_exn St :=
  let v := vr s in
  let s := set_vr (with_config (priority v) (interval v) (preempt v) b v) s in
  if b then stop s else start s.

(** [set<IPv4>]: in increasing order, without duplicates. *)
Fixpoint ip_insert (ip : IPv4) (l : list IPv4) : list IPv4 :=
  match l with
  | [] => [ip]
  | x :: l' => if ipv4_ltb ip x then ip :: l else if ipv4_ltb x ip then x :: ip_insert ip l' else l
  end.
Definition ip_mem (ip : IPv4) (l : list IPv4) : bool := existsb (ipv4_eqb ip) l.

Definition add_ip (ip : IPv4) (s : St) : result xorp_exn St :=
  let v := vr s in Ok (set_vr (with_ips (ip_insert ip (vr_ips v)) (prefixes v) v) s).
Definition set_prefix (ip : IPv4) (p : Z) (s : St) : result xorp_exn St :=
  let v := vr s in
  let s := set_vr (with_ips (vr_ips v) ((ipv4_addr ip, p) :: prefixes v) v) s in
  if ip_mem ip (vr_ips v) then Ok s else add_ip ip s.
Definition delete_ip (ip : IPv4) (s : St) : result xorp_exn St :=
  let v := vr s in
  Ok (set_vr (with_ips (filter (fun x => ipv4_eqb ip x = false) (vr_ips v)) (prefixes v) v) s).

(** *** Timers; the one that fires is no longer scheduled. *)

Definition master_down_expiry (s : St) : result xorp_exn St :=
  let s := set_vr (with_timers None (adver_timer (vr s)) (vr s)) s in
  s <-! assert (is_state BACKUP (vr s)) s ;; become_master s.

Definition adver_expiry (s : St) : result xorp_exn St :=
  let s := set_vr (with_timers (master_down_timer (vr s)) None (vr s)) s in
  s <-! assert (is_state MASTER (vr s)) s ;;
  s <-! send_advertisement (priority (vr s)) s ;; setup_timers false s.

(** *** Reception *)

Definition recv_adver_backup (pri : Z) (s : St) : result xorp_exn St :=
  if pri =? PRIORITY_LEAVE then setup_timers true s
  else if negb (preempt (vr s)) || (priority (vr s) <=? pri) then setup_timers false s
  else Ok s.

Definition recv_adver_master (from : IPv4) (pri : Z) (s : St) : result xorp_exn St :=
  if pri =? PRIORITY_LEAVE then
    s <-! send_advertisement (priority (vr s)) s ;; setup_timers false s
  else if priority (vr s) <? pri then become_backup s
  else if pri =? priority (vr s) then
    a <-! vif_addr s ;; if ipv4_ltb a from then become_backup s else Ok s
  else Ok s.

Definition recv_advertisement (from : IPv4) (pri : Z) (s : St) : result xorp_exn St :=
  s <-! assert (pri <=? PRIORITY_OWN) s ;;
  match vr_state (vr s) with
  | INITIALIZE => Throw AssertFailed
  | BACKUP => recv_adver_backup pri (set_vr (with_last_adv from (vr s)) s)
  | MASTER => recv_adver_master from pri s
  end.

(** [check_ips]: as many addresses, each of them configured here. *)
Fixpoint check_each (h : list Z) (i : Z) (n : nat) (l : list IPv4) : result xorp_exn bool :=
  match n with
  | O => Ok true
  | S n => ip <-! vh_ip h i ;; if ip_mem ip l then check_each h (i + 1) n l else Ok false
  end.
Definition check_ips (h : list Z) (v : Vrrp) : result xorp_exn bool :=
  if negb (vh_ipcount h =? Z.of_nat (length (vr_ips v))) then Ok false
  else check_each h 0 (Z.to_nat (vh_ipcount h)) (vr_ips v).

Definition recv (from : IPv4) (h : list Z) (s : St) : result xorp_exn St :=
  s <-! assert (vh_vrid h =? vrid (vr s)) s ;;
  if negb (running (vr s)) then Throw VrrpException
  else if negb (vh_auth h =? VRRP_AUTH_NONE) then Throw VrrpException
  else
    ok <-! check_ips h (vr s) ;;
    if negb ok && negb (vh_priority h =? PRIORITY_OWN) then Throw VrrpException
    else if negb (vh_interval h =? interval (vr s)) then Throw VrrpException
    else recv_advertisement from (vh_priority h) s.
End Vrrp.

(** ** The interface and its virtual routers *)

Record VrrpVif := mkVif {
  vv_ifname : string; vv_vifname : string; vv_ready : bool; vv_join : Z; vv_ips : list IPv4; vv_vrrps : list (Z * Vrrp) }.

Definition vif_new (ifname vifname : string) : VrrpVif := mkVif ifname vifname false 0 [] [].

(** What the interface manager says of the interface: missing or disabled, or its
    addresses and whether they are enabled. *)
Inductive if_conf := NotEnabled | Addrs (l : list (IPv4 * bool)).

Inductive vrrp_cmd :=
  | SetPriority (p : Z) | SetInterval (i : Z) | SetPreempt (b : bool) | SetDisable (b : bool)
  | AddIp (ip : IPv4) | SetPrefix (ip : IPv4) (p : Z) | DeleteIp (ip : IPv4).

Inductive vif_event :=
  | EvConfigure (c : if_conf)
  | EvXrlError
  | EvAddVrid (k : Z)
  | EvDeleteVrid (k : Z)
  | EvCommand (k : Z) (c : vrrp_cmd)
  | EvMasterDown (k : Z)
  | EvAdver (k : Z)
  | EvRecv (dst from : IPv4) (proto ttl : Z) (payload : list Z).

Section VrrpVif.
Context `{HostOrder}.

Definition count_running (l : list (Z * Vrrp)) : Z :=
  foldr (fun kv acc => (if running (snd kv) then 1 else 0) + acc) 0 l.

Fixpoint find_vrid (k : Z) (pre post : list (Z * Vrrp)) : option (list (Z * Vrrp) * Vrrp * list (Z * Vrrp)) :=
  match post with
  | [] => None
  | (k', v) :: post => if k =? k' then Some (pre, v, post) else find_vrid k (pre ++ [(k', v)]) post
  end.

(** A method of the virtual router between [pre] and [post]. *)
Definition call (listed : bool) (pre : list (Z * Vrrp)) (v : Vrrp) (post : list (Z * Vrrp))
    (m : St -> result xorp_exn St) (w : VrrpVif) : result xorp_exn St :=
  m (mkSt (mkEnv (vv_ready w) (vv_join w) (vv_ips w) (vv_ifname w) (vv_vifname w) (count_running (pre ++ post)) listed) v []).
Definition after (s : St) (l : list (Z * Vrrp)) (w : VrrpVif) : VrrpVif :=
  mkVif (vv_ifname w) (vv_vifname w) (vv_ready w) (e_join (env s)) (vv_ips w) l.

Definition with_ready (b : bool) (w : VrrpVif) : VrrpVif :=
  mkVif (vv_ifname w) (vv_vifname w) b (vv_join w) (vv_ips w) (vv_vrrps w).

(** [set_ready]: the flag goes up before the loop and down after it. *)
Fixpoint ready_loop (b : bool) (pre post : list (Z * Vrrp)) (w : VrrpVif) : result xorp_exn (VrrpVif * list command) :=
  match post with
  | [] => Ok (w, [])
  | (k, v) :: post =>
      s <-! call true pre v post (if b then start else stop) w ;;
      let pre := pre ++ [(k, vr s)] in
      r <-! ready_loop b pre post (after s (pre ++ post) w) ;;
      Ok (fst r, out s ++ snd r)
  end.
Definition set_ready (b : bool) (w : VrrpVif) : result xorp_exn (VrrpVif * list command) :=
  let w := if b then with_ready true w else w in
  r <-! ready_loop b [] (vv_vrrps w) w ;;
  Ok (with_ready b (fst r), snd r).

Definition configure (c : if_conf) (w : VrrpVif) : result xorp_exn (VrrpVif * list command) :=
  match c with
  | NotEnabled => set_ready false w
  | Addrs l =>
      let ips := foldl (fun acc (ab : IPv4 * bool) => if snd ab then ip_insert (fst ab) acc else acc) [] l in
      let w := mkVif (vv_ifname w) (vv_vifname w) (vv_ready w) (vv_join w) ips (vv_vrrps w) in
      match ips with [] => set_ready false w | _ => set_ready true w end
  end.

Fixpoint vrrp_insert (k : Z) (v : Vrrp) (l : list (Z * Vrrp)) : list (Z * Vrrp) :=
  match l with
  | [] => [(k, v)]
  | (k', v') :: l' => if k <? k' then (k, v) :: l else (k', v') :: vrrp_insert k v l'
  end.

Definition add_vrid (k : Z) (w : VrrpVif) : result xorp_exn (VrrpVif * list command) :=
  match find_vrid k [] (vv_vrrps w) with
  | Some _ => Throw VrrpException
  | None =>
      v <-! vrrp_new k ;;
      Ok (mkVif (vv_ifname w) (vv_vifname w) (vv_ready w) (vv_join w) (vv_ips w) (vrrp_insert k v (vv_vrrps w)), [])
  end.

(** The destructor stops a virtual router that is no longer in the table. *)
Definition delete_vrid (k : Z) (w : VrrpVif) : result xorp_exn (VrrpVif * list command) :=
  match find_vrid k [] (vv_vrrps w) with
  | None => Throw VrrpException
  | Some (pre, v, post) =>
      s <-! call false pre v post stop w ;; Ok (after s (pre ++ post) w, out s)
  end.

Definition on_vrid (k : Z) (m : St -> result xorp_exn St) (w : VrrpVif) : result xorp_exn (VrrpVif * list command) :=
  match find_vrid k [] (vv_vrrps w) with
  | None => Throw VrrpException
  | Some (pre, v, post) =>
      s <-! call true pre v post m w ;; Ok (after s (pre ++ (k, vr s) :: post) w, out s)
  end.

Definition run_cmd (c : vrrp_cmd) : St -> result xorp_exn St :=
  match c with
  | SetPriority p => set_priority p
  | SetInterval i => set_interval i
  | SetPreempt b => set_preempt b
  | SetDisable b => set_disable b
  | AddIp ip => add_ip ip
  | SetPrefix ip p => set_prefix ip p
  | DeleteIp ip => delete_ip ip
  end.

(** The exceptions of VRRP are caught: the error goes to the caller. *)
Definition catching (m : VrrpVif -> result xorp_exn (VrrpVif * list command)) (w : VrrpVif)
  : result xorp_exn (VrrpVif * list command) :=
  match m w with Throw VrrpException => Ok (w, []) | r => r end.

Definition vif_recv (from : IPv4) (payload : list Z) (w : VrrpVif) : result xorp_exn (VrrpVif * list command) :=
  h <-! vh_parse payload ;;
  match find_vrid (vh_vrid h) [] (vv_vrrps w) with
  | None => Ok (w, [])
  | Some _ => on_vrid (vh_vrid h) (recv from h) w
  end.

(** [raw_packet4_client_0_1_recv], for the packets of this interface. *)
Definition raw_packet_recv (dst from : IPv4) (proto ttl : Z) (payload : list Z) (w : VrrpVif)
  : result xorp_exn (VrrpVif * list command) :=
  if negb (ipv4_eqb dst mcast_group) then Ok (w, [])
  else if negb (proto =? IPPROTO_VRRP) then Ok (w, [])
  else if negb (ttl =? 255) then Ok (w, [])
  else catching (vif_recv from payload) w.

(** [get_info]: the state and the address of the master. *)
Definition get_info (s : St) : result xorp_exn (vrrp_state * IPv4) :=
  match vr_state (vr s) with
  | MASTER => a <-! vif_addr s ;; Ok (MASTER, a)
  | x => Ok (x, last_adv (vr s))
  end.
Definition get_vrids (w : VrrpVif) : list Z := map fst (vv_vrrps w).

Definition vif_exec (e : vif_event) (w : VrrpVif) : result xorp_exn (VrrpVif * list command) :=
  match e with
  | EvConfigure c => configure c w
  | EvXrlError => set_ready false w
  | EvAddVrid k => catching (add_vrid k) w
  | EvDeleteVrid k => catching (delete_vrid k) w
  | EvCommand k c => catching (on_vrid k (run_cmd c)) w
  | EvMasterDown k => on_vrid k master_down_expiry w
  | EvAdver k => on_vrid k adver_expiry w
  | EvRecv dst from proto ttl payload => raw_packet_recv dst from proto ttl payload w
  end.
End VrrpVif.
