(* ===== verification/VrrpProps.v ===== *)
(** * Properties of the VRRP state machine (vrrp/vrrp.cc, vrrp/vrrp_vif.cc)

    The invariant of an interface and its virtual routers: the timers that run are
    those of the state, the multicast counter counts the running virtual routers,
    and the virtual MAC address is installed exactly in the MASTER state.  Every
    event preserves it and no assertion fails, one event excepted. *)

From Stdlib Require Import ZArith Lia.
From stdpp Require Import base tactics option numbers list.
From S2P Require Import Prelude Word32 Addr IPv4 Sample VrrpPacket VrrpPacketProps Vrrp.
Local Open Scope Z_scope.

#[local] Arguments send_advertisement : simpl never.
#[local] Arguments send_arps : simpl never.
#[local] Arguments setup_timers : simpl never.
#[local] Arguments become_master : simpl never.
#[local] Arguments become_backup : simpl never.

(** ** What the methods do *)

Section Methods.
Context `{HostOrder}.
Implicit Types (v : Vrrp) (s : St) (e : VifEnv).

(** The configuration of a virtual router, and its packet. *)
Record vrrp_base v : Prop := {
  base_vrid : 1 <= vrid v <= 255;
  base_priority : 1 <= priority v <= 254;
  base_interval : 1 <= interval v <= 255;
  base_count : (length (vr_ips v) <= 255)%nat;
  base_ips : Forall ipv4_wf (vr_ips v);
  base_packet : packet_shape (adv_packet v) }.

Definition timers_ok v : Prop :=
  match vr_state v with
  | INITIALIZE => master_down_timer v = None /\ adver_timer v = None
  | MASTER => master_down_timer v = None /\ adver_timer v = Some (interval v * 1000)
  | BACKUP => is_Some (master_down_timer v) /\ adver_timer v = None
  end.

(** The intervals, in 1/256 s: the skew time is less than a second, and the
    master-down interval is three times the interval and some skew time. *)
Definition intervals_ok (i : Z) v : Prop :=
  0 <= skew_time v <= 256 /\ 768 * i <= master_down_interval v <= 768 * i + 256.

Definition vrrp_ok v : Prop := vrrp_base v /\ timers_ok v /\ intervals_ok (interval v) v.

Definition usable e : Prop := e_ready e = true /\ e_ips e <> [] /\ e_same_name e = true.

Lemma for_each_eq {X} (l : list X) (f : X -> St -> result xorp_exn St) (c : X -> command) s :
  (forall x s', env s' = env s -> vr s' = vr s -> f x s' = Ok (emit (c x) s')) ->
  for_each l f s = Ok (mkSt (env s) (vr s) (out s ++ map c l)).
Proof.
  intros Hf. destruct s as [e v o]. simpl in *. revert o. induction l as [|x l IH]; intros o; simpl.
  - by rewrite app_nil_r.
  - rewrite Hf by done. simpl. unfold emit. simpl. by rewrite IH, <- app_assoc.
Qed.

Definition adv_cmd v (d : list Z) : command := CSend (source_mac v) mcast_mac ETHERTYPE_IP d.

Lemma send_advertisement_carries p s : usable (env s) -> vrrp_base (vr s) -> vr_state (vr s) = MASTER -> 0 <= p <= 255 ->
  exists d, send_advertisement p s = Ok (mkSt (env s) (with_packet d (vr s)) (out s ++ [adv_cmd (vr s) d]))
    /\ packet_shape d /\ carries d (vrid (vr s)) p (interval (vr s)) (vr_ips (vr s)).
Proof.
  intros (Hr & Hi & _) Hb Hm Hp. destruct (e_ips (env s)) as [|a l] eqn:Ea; [done|].
  destruct Hb as [Hb1 _ Hb2 Hb3 Hb4 Hb5].
  destruct (advertisement_carries (adv_packet (vr s)) a (vrid (vr s)) p (interval (vr s)) (vr_ips (vr s)))
    as (d & E & Hd); [done|lia|lia|lia|done|done|]. exists d. split; [|done].
  unfold send_advertisement, is_state, vif_send, prepare_advertisement, vif_addr. unfold assert at 1.
  unfold PRIORITY_OWN. rewrite (proj2 (Z.leb_le p 255)) by lia. cbn [result_bind]. unfold assert at 1.
  rewrite bool_decide_true by done. cbn [result_bind]. rewrite Ea. cbn [result_bind]. rewrite E. cbn [result_bind].
  unfold assert. simpl. rewrite Hr. done.
Qed.

Lemma send_advertisement_eq p s : usable (env s) -> vrrp_base (vr s) -> vr_state (vr s) = MASTER -> 0 <= p <= 255 ->
  exists d, send_advertisement p s = Ok (mkSt (env s) (with_packet d (vr s)) (out s ++ [adv_cmd (vr s) d]))
    /\ packet_shape d.
Proof. intros. destruct (send_advertisement_carries p s) as (d & E & Hd & _); [done..|]. by exists d. Qed.

Definition arp_cmd v (ip : IPv4) : command :=
  CSend (source_mac v) broadcast_mac ETHERTYPE_ARP (gratuitous_arp (source_mac v) ip).

Lemma send_arps_eq s : usable (env s) -> vr_state (vr s) = MASTER ->
  send_arps s = Ok (mkSt (env s) (vr s) (out s ++ map (arp_cmd (vr s)) (vr_ips (vr s)))).
Proof.
  intros (Hr & _) Hm. unfold send_arps, assert, is_state. rewrite bool_decide_true by done. cbn [result_bind].
  apply for_each_eq. intros ip s' He Hv. unfold send_arp, vif_send, assert. rewrite He, Hr, Hv. done.
Qed.

Lemma vif_command_eq c s : e_same_name (env s) = true -> vif_command c s = Ok (emit c s).
Proof. intros Hn. unfold vif_command, assert. by rewrite Hn. Qed.

Lemma release_eq s : e_same_name (env s) = true ->
  release s = Ok (mkSt (env s) (vr s) (out s ++ CDelMac (source_mac (vr s)) :: map CDelIp (vr_ips (vr s)))).
Proof.
  intros Hn. unfold release. rewrite vif_command_eq by done. cbn [result_bind].
  rewrite (for_each_eq _ _ CDelIp).
  - simpl. by rewrite <- app_assoc.
  - intros ip s' He _. apply vif_command_eq. by rewrite He.
Qed.

(** The timers of the state. *)
Definition state_timers (skew : bool) v : Vrrp :=
  match vr_state v with
  | INITIALIZE => v
  | MASTER => with_timers None (Some (interval v * 1000)) v
  | BACKUP => with_timers (Some ((if skew then skew_time v else master_down_interval v) * 1000 / 256)) None v
  end.

Lemma setup_timers_eq skew s : setup_timers skew s = Ok (set_vr (state_timers skew (vr s)) s).
Proof.
  destruct s as [e v o]. unfold setup_timers, running, is_state, state_timers, cancel_timers. simpl.
  destruct (vr_state v) eqn:E; simpl; rewrite ?E; done.
Qed.

Lemma state_timers_ok skew v : (vr_state v = INITIALIZE -> timers_ok v) -> timers_ok (state_timers skew v).
Proof. unfold timers_ok, state_timers. destruct (vr_state v) eqn:E; simpl; rewrite ?E; eauto. Qed.

Definition master_cmds v (d : list Z) : list command :=
  CAddMac (source_mac v) :: map (fun ip => CAddIp ip (ip_prefix v ip)) (vr_ips v)
  ++ adv_cmd v d :: map (arp_cmd v) (vr_ips v).

Lemma become_master_carries s : usable (env s) -> vrrp_base (vr s) ->
  exists d, packet_shape d /\ carries d (vrid (vr s)) (priority (vr s)) (interval (vr s)) (vr_ips (vr s)) /\
    become_master s = Ok (mkSt (env s) (state_timers false (with_packet d (with_state MASTER (vr s))))
                               (out s ++ master_cmds (vr s) d)).
Proof.
  intros Hu Hb. unfold become_master. rewrite vif_command_eq by apply Hu. cbn [result_bind].
  rewrite (for_each_eq _ _ (fun ip => CAddIp ip (ip_prefix (vr s) ip))).
  2:{ intros ip s' He Hv. rewrite vif_command_eq by (rewrite He; apply Hu). by rewrite Hv. }
  cbn [result_bind].
  match goal with |- context [send_advertisement ?p ?s1] =>
    destruct (send_advertisement_carries p s1) as (d & E & Hd & Hc) end;
    [done|by destruct Hb; split|done|destruct Hb; simpl; lia|].
  exists d. split; [done|]. split; [exact Hc|]. rewrite E. cbn [result_bind].
  rewrite send_arps_eq by done. cbn [result_bind]. rewrite setup_timers_eq. unfold set_vr, master_cmds. simpl.
  by rewrite <- !app_assoc.
Qed.

Lemma become_master_eq s : usable (env s) -> vrrp_base (vr s) ->
  exists d, packet_shape d /\
    become_master s = Ok (mkSt (env s) (state_timers false (with_packet d (with_state MASTER (vr s))))
                               (out s ++ master_cmds (vr s) d)).
Proof. intros Hu Hb. destruct (become_master_carries s Hu Hb) as (d & Hd & _ & E). by exists d. Qed.

Definition backup_cmds v : list command :=
  if is_state MASTER v then CDelMac (source_mac v) :: map CDelIp (vr_ips v) else [].

Lemma become_backup_eq s : e_same_name (env s) = true ->
  become_backup s = Ok (mkSt (env s) (state_timers false (with_state BACKUP (vr s))) (out s ++ backup_cmds (vr s))).
Proof.
  intros Hn. unfold become_backup, backup_cmds. destruct (is_state MASTER (vr s)).
  - rewrite release_eq by done. cbn [result_bind]. by rewrite setup_timers_eq.
  - cbn [result_bind]. rewrite setup_timers_eq, app_nil_r. done.
Qed.

(** ** The invariant of a virtual router on its interface *)

Definition env_ok e v : Prop :=
  e_same_name e = true /\ (running v = true -> e_ready e = true) /\ (e_ready e = true -> e_ips e <> [])
  /\ 0 <= e_others e <= 255 /\ e_join e = e_others e + (if running v then 1 else 0).

Definition same_env e e' : Prop :=
  e_ready e' = e_ready e /\ e_ips e' = e_ips e /\ e_same_name e' = e_same_name e
  /\ e_others e' = e_others e /\ e_listed e' = e_listed e.

(** Whether the address [m] is installed after the commands [cs]. *)
Definition mac_step (m : Mac) (b : bool) (c : command) : bool :=
  match c with
  | CAddMac x => if decide (x = m) then true else b
  | CDelMac x => if decide (x = m) then false else b
  | _ => b
  end.
Definition mac_after (m : Mac) (cs : list command) (b : bool) : bool := foldl (mac_step m) b cs.

Lemma mac_after_app m cs1 cs2 b : mac_after m (cs1 ++ cs2) b = mac_after m cs2 (mac_after m cs1 b).
Proof. apply foldl_app. Qed.

Definition not_mac (c : command) : Prop := match c with CAddMac _ | CDelMac _ => False | _ => True end.

Lemma mac_after_none m cs b : Forall not_mac cs -> mac_after m cs b = b.
Proof. intros Hc. revert b. induction Hc as [|c cs Hc _ IH]; intros b; [done|]. unfold mac_after in *. simpl. destruct c; try done; apply IH. Qed.

Lemma not_mac_map {X} (f : X -> command) l : (forall x, not_mac (f x)) -> Forall not_mac (map f l).
Proof. intros Hf. induction l; constructor; auto. Qed.

(** The commands of a transition: only this router's address changes hands, and
    it is installed afterwards in the MASTER state. *)
Definition mac_ok v v' (cs : list command) : Prop :=
  mac_after (source_mac v) cs (is_state MASTER v) = is_state MASTER v'
  /\ forall m b, m <> source_mac v -> mac_after m cs b = b.

Lemma mac_ok_none v v' cs : Forall not_mac cs -> vr_state v' = vr_state v -> mac_ok v v' cs.
Proof.
  intros Hc E. split; [rewrite mac_after_none by done; unfold is_state; by rewrite E|].
  intros m b _. by apply mac_after_none.
Qed.

Lemma mac_ok_add v v' cs : Forall not_mac cs -> vr_state v' = MASTER -> mac_ok v v' (CAddMac (source_mac v) :: cs).
Proof.
  intros Hc E. unfold mac_ok, mac_after. simpl. fold (mac_after (source_mac v) cs).
  split; [rewrite decide_True by done|intros m b Hm; rewrite decide_False by done].
  - unfold is_state. rewrite (bool_decide_true (vr_state v' = MASTER)) by done. by apply mac_after_none.
  - by apply mac_after_none.
Qed.

Lemma mac_ok_del v v' cs : Forall not_mac cs -> vr_state v' <> MASTER -> mac_ok v v' (CDelMac (source_mac v) :: cs).
Proof.
  intros Hc E. unfold mac_ok, mac_after. simpl. fold (mac_after (source_mac v) cs).
  split; [rewrite decide_True by done|intros m b Hm; rewrite decide_False by done].
  - unfold is_state. rewrite (bool_decide_false (vr_state v' = MASTER)) by done. by apply mac_after_none.
  - by apply mac_after_none.
Qed.

Record op_post s s' : Prop := {
  post_vrrp : vrrp_ok (vr s');
  post_env_ok : env_ok (env s') (vr s');
  post_env : same_env (env s) (env s');
  post_vrid : vrid (vr s') = vrid (vr s);
  post_mac : exists cs, out s' = out s ++ cs /\ mac_ok (vr s) (vr s') cs }.

Definition op_ok s (r : result xorp_exn St) : Prop :=
  match r with Ok s' => op_post s s' | Throw e => e = VrrpException end.

Definition st_ok s : Prop := vrrp_ok (vr s) /\ env_ok (env s) (vr s).

Lemma env_usable e v : env_ok e v -> running v = true -> usable e.
Proof. intros (Hn & Hr & Hi & _) Hv. split; [by apply Hr|]. split; [by apply Hi, Hr|done]. Qed.

(** An operation that changes neither state nor interface. *)
Lemma quiet_ok s v' : st_ok s -> vrrp_ok v' -> vr_state v' = vr_state (vr s) -> vrid v' = vrid (vr s) ->
  op_post s (set_vr v' s).
Proof.
  intros [Hv He] Hv' Es Ei. split; [done| |done|done|].
  - unfold env_ok, running, is_state in *. simpl. by rewrite Es.
  - exists []. split; [simpl; by rewrite app_nil_r|]. by apply mac_ok_none.
Qed.

Lemma op_refl s : st_ok s -> op_post s s.
Proof. intros Hs. destruct s as [e v o]. apply (quiet_ok (mkSt e v o) v); [done|apply Hs|done|done]. Qed.

(** Changes that leave the configuration alone. *)
Lemma base_timers m a v : vrrp_base v -> vrrp_base (with_timers m a v).
Proof. by intros []; split. Qed.
Lemma base_state x v : vrrp_base v -> vrrp_base (with_state x v).
Proof. by intros []; split. Qed.
Lemma base_with_packet d v : packet_shape d -> vrrp_base v -> vrrp_base (with_packet d v).
Proof. by intros ? []; split. Qed.
Lemma base_state_timers b v : vrrp_base v -> vrrp_base (state_timers b v).
Proof. unfold state_timers. destruct (vr_state v); auto using base_timers. Qed.
Lemma intervals_state_timers i b v : intervals_ok i v -> intervals_ok i (state_timers b v).
Proof. unfold intervals_ok, state_timers. by destruct (vr_state v). Qed.
Lemma state_timers_fields b v : vr_state (state_timers b v) = vr_state v /\ interval (state_timers b v) = interval v
  /\ vrid (state_timers b v) = vrid v.
Proof. unfold state_timers. destruct (vr_state v) eqn:E; simpl; by rewrite ?E. Qed.

Lemma state_timers_vrrp b v : vrrp_base v -> intervals_ok (interval v) v -> (vr_state v = INITIALIZE -> timers_ok v) ->
  vrrp_ok (state_timers b v).
Proof.
  intros Hb Hi Ht. split; [by apply base_state_timers|]. split; [by apply state_timers_ok|].
  destruct (state_timers_fields b v) as (_ & -> & _). by apply intervals_state_timers.
Qed.

Lemma env_running e v v' : usable e -> 0 <= e_others e <= 255 -> e_join e = e_others e + 1 ->
  running v' = true -> env_ok e v'.
Proof. intros (Hr & Hi & Hn) Ho Hj Hv. unfold env_ok. rewrite Hv. done. Qed.

(** Entering BACKUP, or MASTER, when the interface has this router counted in. *)
Lemma backup_post s : vrrp_base (vr s) -> intervals_ok (interval (vr s)) (vr s) -> usable (env s) ->
  0 <= e_others (env s) <= 255 -> e_join (env s) = e_others (env s) + 1 ->
  exists s', become_backup s = Ok s' /\ vrrp_ok (vr s') /\ env_ok (env s') (vr s') /\ env s' = env s
    /\ vrid (vr s') = vrid (vr s) /\ out s' = out s ++ backup_cmds (vr s) /\ vr_state (vr s') = BACKUP.
Proof.
  intros Hb Hi Hu Ho Hj. eexists. split; [apply become_backup_eq, Hu|]. simpl.
  split; [by apply state_timers_vrrp; [apply base_state| |]|]. split; [by apply (env_running _ (vr s))|]. done.
Qed.

Lemma master_post s : vrrp_base (vr s) -> intervals_ok (interval (vr s)) (vr s) -> usable (env s) ->
  0 <= e_others (env s) <= 255 -> e_join (env s) = e_others (env s) + 1 ->
  exists s' d, become_master s = Ok s' /\ vrrp_ok (vr s') /\ env_ok (env s') (vr s') /\ env s' = env s
    /\ vrid (vr s') = vrid (vr s) /\ out s' = out s ++ master_cmds (vr s) d /\ vr_state (vr s') = MASTER.
Proof.
  intros Hb Hi Hu Ho Hj. destruct (become_master_eq s Hu Hb) as (d & Hd & E). eexists _, d. split; [exact E|]. simpl.
  split; [by apply state_timers_vrrp; [apply base_with_packet, base_state| |]|].
  split; [by apply (env_running _ (vr s))|]. done.
Qed.

Lemma mac_backup v v' : vr_state v' = BACKUP -> mac_ok v v' (backup_cmds v).
Proof.
  intros E. unfold backup_cmds. destruct (is_state MASTER v) eqn:Em.
  - apply mac_ok_del; [by apply not_mac_map|by rewrite E].
  - split; [|done]. unfold mac_after. simpl. rewrite Em. unfold is_state. by rewrite E.
Qed.

Lemma mac_master v v' d : vr_state v' = MASTER -> mac_ok v v' (master_cmds v d).
Proof.
  intros E. apply mac_ok_add; [|done]. apply Forall_app. split; [by apply not_mac_map|].
  constructor; [done|]. by apply not_mac_map.
Qed.

Lemma start_ok s : st_ok s -> exists s', start s = Ok s' /\ op_post s s'.
Proof.
  intros Hs. pose proof Hs as [(Hb & Ht & Hi) (Hn & Hr & Hip & Ho & Hj)]. unfold start.
  destruct (running (vr s)) eqn:Er; [exists s; split; [done|by apply op_refl]|].
  destruct (e_ready (env s)) eqn:Ee; [|exists s; split; [done|by apply op_refl]]. cbn [negb].
  unfold join_mcast, assert. rewrite Hj. unfold u32_add. rewrite u32_small by (unfold is_u32; lia).
  destruct (Z.eqb_spec (e_others (env s) + 0 + 1) 0); [lia|]. cbn [negb result_bind].
  match goal with |- context [if ?b then emit CJoin ?x else ?y] => set (s1 := if b then emit CJoin x else y) end.
  assert (vr s1 = vr s) as Ev by (unfold s1; by case_match).
  assert (same_env (env s) (env s1) /\ e_join (env s1) = e_others (env s) + 1 /\ usable (env s1)) as (Hse & Hj1 & Hu1).
  { assert (e_others (env s) + 0 + 1 = e_others (env s) + 1) as E1 by lia.
    unfold s1, same_env, usable. case_match; simpl; rewrite E1; by auto 10. }
  assert (exists cs, out s1 = out s ++ cs /\ Forall not_mac cs) as (cs & Eo & Hcs).
  { unfold s1. case_match; simpl; [exists [CJoin]|exists []]; rewrite ?app_nil_r; (split; [done|by repeat constructor]). }
  rewrite Ev. destruct (Z.eqb_spec (priority (vr s)) PRIORITY_OWN) as [E|_]; [destruct Hb; unfold PRIORITY_OWN in *; lia|].
  destruct (backup_post s1) as (s' & -> & Hv' & He' & Ee' & Ei' & Eo' & Es'); rewrite ?Ev; auto.
  { destruct Hse as (_ & _ & _ & -> & _). lia. } { destruct Hse as (_ & _ & _ & -> & _). lia. }
  exists s'. split; [done|]. split; [done|done|by rewrite Ee'|by rewrite Ei', Ev|].
  exists (cs ++ backup_cmds (vr s1)). rewrite Eo', Eo, <- app_assoc. split; [done|]. rewrite Ev.
  destruct (mac_backup (vr s) (vr s') Es') as [M1 M2]. split.
  - rewrite mac_after_app, (mac_after_none _ cs) by done. done.
  - intros m b Hm. rewrite mac_after_app, (mac_after_none _ cs) by done. by apply M2.
Qed.

Lemma leave_eq s : 0 <= e_others (env s) <= 255 -> e_join (env s) = e_others (env s) + 1 ->
  exists e' cs, leave_mcast s = Ok (mkSt e' (vr s) (out s ++ cs)) /\ same_env (env s) e'
    /\ e_join e' = e_others e' /\ Forall not_mac cs.
Proof.
  intros Ho Hj. unfold leave_mcast, assert. rewrite Hj.
  destruct (Z.eqb_spec (e_others (env s) + 1) 0); [lia|]. cbn [negb result_bind].
  replace (e_others (env s) + 1 - 1) with (e_others (env s)) by lia. simpl.
  destruct (Z.ltb_spec 0 (e_others (env s))) as [Hlt|Hle].
  - eexists _, []. rewrite app_nil_r. split; [done|]. split; [done|]. split; [done|constructor].
  - assert (e_others (env s) = 0) as E0 by lia.
    rewrite (proj2 (Z.leb_le _ 1)) by (rewrite E0; by case_match).
    eexists _, [CLeave]. split; [done|]. split; [done|]. split; [done|by repeat constructor].
Qed.

Lemma stop_ok s : st_ok s -> exists s', stop s = Ok s' /\ op_post s s' /\ vr_state (vr s') = INITIALIZE.
Proof.
  intros Hs. pose proof Hs as [(Hb & Ht & Hi) He]. pose proof He as (Hn & Hr & Hip & Ho & Hj). unfold stop.
  destruct (running (vr s)) eqn:Er; cbn [negb].
  2:{ exists s. split; [done|]. split; [by apply op_refl|]. unfold running, is_state in Er.
      by case_bool_decide. }
  destruct (leave_eq s Ho Hj) as (e' & cs & -> & Hse & Hj' & Hcs). cbn [result_bind]. unfold cancel_timers. simpl.
  assert (usable e') as Hu.
  { destruct Hse as (E1 & E2 & E3 & _). destruct (env_usable _ _ He Er) as (? & ? & ?). split; [congruence|split; congruence]. }
  assert (forall v' o' cs', vrrp_base v' -> interval v' = interval (vr s) -> intervals_ok (interval v') v' ->
            vrid v' = vrid (vr s) -> vr_state v' = INITIALIZE -> timers_ok v' ->
            o' = out s ++ cs' -> mac_ok (vr s) v' cs' -> op_post s (mkSt e' v' o')) as Hpost.
  { intros v' o' cs' Hb' Ei Hi' Ek Es Ht' -> Hm. split; simpl; [by split| |done|done|by exists cs'].
    destruct Hse as (E1 & E2 & E3 & E4 & _). unfold env_ok, running, is_state. rewrite Es, E1, E2, E3. simpl.
    rewrite E4 in Hj' |- *. split; [done|]. split; [done|]. split; [done|]. split; [done|lia]. }
  unfold is_state at 1. simpl. destruct (bool_decide_reflect (vr_state (vr s) = MASTER)) as [Em|Em].
  - match goal with |- context [send_advertisement ?p ?s1] =>
      destruct (send_advertisement_eq p s1) as (d & E & Hd) end;
      [done|by apply base_timers|done|unfold PRIORITY_LEAVE; lia|].
    rewrite E. cbn [result_bind]. rewrite release_eq by (simpl; apply Hu). cbn [result_bind]. eexists. split; [done|].
    split; [|done]. eapply Hpost; try done.
    + by apply base_state, base_with_packet, base_timers.
    + simpl. by rewrite <- !app_assoc.
    + unfold mac_ok. split; [|intros m b Hm]; rewrite mac_after_app, (mac_after_none _ cs) by done.
      * by apply (mac_ok_del (vr s)); [apply not_mac_map|].
      * by apply (mac_ok_del (vr s) (with_state INITIALIZE (vr s))); [apply not_mac_map| |].
  - eexists. split; [done|]. split; [|done]. eapply Hpost; try done; [by apply base_state, base_timers|].
    unfold mac_ok. split; [|intros m b Hm]; rewrite (mac_after_none _ cs) by done; [|done].
    unfold is_state. by rewrite bool_decide_false.
Qed.

(** [setup_intervals] after a change of the configuration: [i0] is the interval
    the timers were set up with. *)
Lemma setup_intervals_ok s v' i0 : st_ok s -> vrrp_base v' -> intervals_ok i0 v' ->
  i0 = interval (vr s) -> vr_state v' = vr_state (vr s) -> vrid v' = vrid (vr s) ->
  master_down_timer v' = master_down_timer (vr s) -> adver_timer v' = adver_timer (vr s) ->
  op_ok s (setup_intervals (set_vr v' s)).
Proof.
  intros Hs Hb' (Hsk & Hmd) -> Es Ek Em Ea. pose proof Hs as [(Hb & Ht & Hi) He].
  unfold setup_intervals. cbn [vr set_vr]. set (sk := 256 - priority v'). set (md := 3 * (256 * interval v') + skew_time v').
  assert (timers_ok v' \/ interval v' <> interval (vr s)) as Ht'.
  { destruct (Z.eq_dec (interval v') (interval (vr s))) as [E|E]; [left|by right].
    unfold timers_ok in *. rewrite Es, Em, Ea, E. done. }
  destruct (negb (skew_time v' =? sk) || negb (master_down_interval v' =? md)) eqn:E.
  - rewrite setup_timers_eq. apply (quiet_ok s (state_timers false (with_intervals sk md v'))); [done| | |].
    + apply state_timers_vrrp; [by destruct Hb'; split|unfold intervals_ok; simpl; destruct Hb'; lia|].
      unfold timers_ok in *. simpl. rewrite Es, Em, Ea. intros E0. by rewrite E0 in Ht |- *.
    + by rewrite (proj1 (state_timers_fields _ _)).
    + by rewrite (proj2 (proj2 (state_timers_fields _ _))).
  - apply orb_false_iff in E as [E1 E2]. apply negb_false_iff, Z.eqb_eq in E1, E2.
    apply quiet_ok; [done| |done|done]. split; [done|]. split; [|unfold intervals_ok; lia].
    destruct Ht' as [?|Hne]; [done|]. unfold md in E2. lia.
Qed.

Lemma set_priority_ok p s : st_ok s -> 0 <= p -> op_ok s (set_priority p s).
Proof.
  intros Hs Hp. unfold set_priority, PRIORITY_LEAVE, PRIORITY_OWN.
  destruct (Z.eqb_spec p 0); [done|]. destruct (Z.leb_spec 255 p); [done|]. cbn [orb].
  pose proof Hs as [(Hb & _ & Hi) _]. eapply setup_intervals_ok; try done. destruct Hb. split; simpl; done || lia.
Qed.

Lemma set_interval_ok i s : st_ok s -> 0 <= i -> op_ok s (set_interval i s).
Proof.
  intros Hs Hi0. unfold set_interval. pose proof Hs as [(Hb & _ & Hi) _].
  eapply setup_intervals_ok; try done. destruct Hb. split; simpl; try done. repeat case_if; bool_prop; lia.
Qed.

Lemma set_preempt_ok b s : st_ok s -> op_ok s (set_preempt b s).
Proof. intros Hs. apply quiet_ok; try done. destruct Hs as [(Hb & Ht & Hi) _]. split; [by destruct Hb; split|done]. Qed.

Lemma set_disable_ok b s : st_ok s -> op_ok s (set_disable b s).
Proof.
  intros Hs. unfold set_disable.
  set (s1 := set_vr (with_config (priority (vr s)) (interval (vr s)) (preempt (vr s)) b (vr s)) s).
  assert (op_post s s1) as Hp.
  { apply quiet_ok; try done. destruct Hs as [(Hb & Ht & Hi) _]. split; [by destruct Hb; split|done]. }
  assert (st_ok s1) as Hs1 by (destruct Hp; by split).
  assert (forall s', op_post s1 s' -> op_post s s') as Htr by (by intros s' []; split).
  destruct b.
  - destruct (stop_ok s1 Hs1) as (s' & -> & Hp' & _). by apply Htr.
  - destruct (start_ok s1 Hs1) as (s' & -> & Hp'). by apply Htr.
Qed.

(** *** The set of addresses *)

Lemma ip_insert_elem ip l x : x ∈ ip_insert ip l -> x = ip \/ x ∈ l.
Proof.
  induction l as [|y l IH]; simpl; [rewrite list_elem_of_singleton; auto|].
  repeat case_if; rewrite ?elem_of_cons; intuition.
Qed.

Lemma ip_insert_length ip l : (length (ip_insert ip l) <= S (length l))%nat.
Proof. induction l as [|y l IH]; simpl; [lia|]. repeat case_if; simpl; lia. Qed.

Lemma with_ips_ok l pf s : st_ok s -> (length l <= 255)%nat -> Forall ipv4_wf l ->
  op_post s (set_vr (with_ips l pf (vr s)) s).
Proof.
  intros Hs Hl Hw. apply quiet_ok; try done. destruct Hs as [(Hb & Ht & Hi) _].
  split; [destruct Hb; split; simpl; done|done].
Qed.

Lemma ip_insert_wf ip l : ipv4_wf ip -> Forall ipv4_wf l -> Forall ipv4_wf (ip_insert ip l).
Proof.
  intros Hi Hl. rewrite Forall_forall in *. intros x Hx. apply ip_insert_elem in Hx as [->|Hx]; auto.
Qed.

Lemma add_ip_ok ip s : st_ok s -> ipv4_wf ip -> (length (vr_ips (vr s)) < 255)%nat -> op_ok s (add_ip ip s).
Proof.
  intros Hs Hi Hl. apply with_ips_ok; [done|pose proof (ip_insert_length ip (vr_ips (vr s))); lia|].
  apply ip_insert_wf; [done|]. apply Hs.
Qed.

Lemma set_prefix_ok ip p s : st_ok s -> ipv4_wf ip -> (length (vr_ips (vr s)) < 255)%nat -> op_ok s (set_prefix ip p s).
Proof.
  intros Hs Hi Hl. unfold set_prefix, add_ip. destruct (ip_mem ip (vr_ips (vr s))).
  - apply with_ips_ok; [done|lia|apply Hs].
  - apply (with_ips_ok (ip_insert ip (vr_ips (vr s))) ((ipv4_addr ip, p) :: prefixes (vr s)) s);
      [done|pose proof (ip_insert_length ip (vr_ips (vr s))); lia|].
    apply ip_insert_wf; [done|]. apply Hs.
Qed.

Lemma delete_ip_ok ip s : st_ok s -> op_ok s (delete_ip ip s).
Proof.
  intros Hs. pose proof Hs as [([_ _ _ Hc Hw _] & _) _].
  apply with_ips_ok; [done| |].
  - etrans; [apply length_filter|done].
  - rewrite Forall_forall in *. intros x Hx. apply list_elem_of_filter in Hx as [_ Hx]. auto.
Qed.

(** *** Timers *)

Lemma master_running s : st_ok s -> vr_state (vr s) <> INITIALIZE -> usable (env s)
  /\ 0 <= e_others (env s) <= 255 /\ e_join (env s) = e_others (env s) + 1.
Proof.
  intros [_ He] Hs. assert (running (vr s) = true) as Hr by (unfold running, is_state; by rewrite bool_decide_false).
  split; [by eapply env_usable|]. destruct He as (_ & _ & _ & Ho & Hj). by rewrite Hr in Hj.
Qed.

(** The timer of a state runs only in it. *)
Lemma master_down_backup s : st_ok s -> is_Some (master_down_timer (vr s)) -> vr_state (vr s) = BACKUP.
Proof.
  intros [(_ & Ht & _) _] [t Hm]. unfold timers_ok in Ht. destruct (vr_state (vr s)); destruct Ht; congruence.
Qed.
Lemma adver_master s : st_ok s -> is_Some (adver_timer (vr s)) -> vr_state (vr s) = MASTER.
Proof.
  intros [(_ & Ht & _) _] [t Hm]. unfold timers_ok in Ht. destruct (vr_state (vr s)); destruct Ht; congruence.
Qed.

Lemma master_down_ok s : st_ok s -> is_Some (master_down_timer (vr s)) ->
  exists s', master_down_expiry s = Ok s' /\ op_post s s' /\ vr_state (vr s') = MASTER
    /\ exists d, adv_cmd (vr s) d ∈ out s'.
Proof.
  intros Hs Hm. pose proof (master_down_backup s Hs Hm) as Eb. pose proof Hs as [(Hb & Ht & Hi) He].
  destruct (master_running s Hs) as (Hu & Ho & Hj); [by rewrite Eb|].
  unfold master_down_expiry, assert, is_state. simpl. rewrite bool_decide_true by done. cbn [result_bind].
  destruct (master_post (set_vr (with_timers None (adver_timer (vr s)) (vr s)) s)) as
    (s' & d & E & Hv' & He' & Ee' & Ek' & Eo' & Es'); [by apply base_timers|done..|].
  exists s'. split; [exact E|]. split; [|split; [done|]].
  - split; [done|done|by rewrite Ee'|by rewrite Ek'|]. eexists. split; [exact Eo'|].
    by apply (mac_master (vr s) (vr s') d).
  - exists d. rewrite Eo'. apply elem_of_app. right. unfold master_cmds. right. apply elem_of_app. right. left.
Qed.

Lemma advertise_ok s s0 : vr_state (vr s0) = MASTER -> st_ok s0 -> env s = env s0 -> vr_state (vr s) = MASTER ->
  vrrp_base (vr s) -> intervals_ok (interval (vr s)) (vr s) -> vrid (vr s) = vrid (vr s0) -> out s = out s0 ->
  exists s', (s <-! send_advertisement (priority (vr s)) s ;; setup_timers false s)%xorp = Ok s' /\ op_post s0 s'
    /\ exists d, out s' = out s0 ++ [adv_cmd (vr s) d].
Proof.
  intros Em0 Hs0 Ee Em Hb Hi Ek Eo. destruct (master_running s0 Hs0) as (Hu & Ho & Hj); [by rewrite Em0|].
  destruct (send_advertisement_eq (priority (vr s)) s) as (d & -> & Hd); [by rewrite Ee|done|done|destruct Hb; lia|].
  cbn [result_bind]. rewrite setup_timers_eq. eexists. split; [done|]. split; [|exists d; simpl; by rewrite Eo].
  unfold set_vr. cbn [vr env out]. split; cbn [vr env out].
  - apply state_timers_vrrp; [by apply base_with_packet|done|]. simpl. by rewrite Em.
  - rewrite Ee. apply (env_running _ (vr s0)); [done..|]. unfold running, is_state.
    rewrite (proj1 (state_timers_fields _ _)). simpl. by rewrite Em.
  - by rewrite Ee.
  - by rewrite (proj2 (proj2 (state_timers_fields _ _))).
  - exists [adv_cmd (vr s) d]. split; [by rewrite Eo|]. apply mac_ok_none; [by repeat constructor|].
    rewrite (proj1 (state_timers_fields _ _)). simpl. congruence.
Qed.

Lemma adver_ok s : st_ok s -> is_Some (adver_timer (vr s)) ->
  exists s', adver_expiry s = Ok s' /\ op_post s s' /\ exists d, out s' = out s ++ [adv_cmd (vr s) d].
Proof.
  intros Hs Ha. pose proof (adver_master s Hs Ha) as Em. pose proof Hs as [(Hb & Ht & Hi) He].
  unfold adver_expiry, assert, is_state. simpl. rewrite bool_decide_true by done. cbn [result_bind].
  by apply (advertise_ok (set_vr (with_timers (master_down_timer (vr s)) None (vr s)) s) s);
    try done; apply base_timers.
Qed.

(** *** Reception *)

Lemma recv_backup_ok pri s from : st_ok s -> vr_state (vr s) = BACKUP ->
  op_ok s (recv_adver_backup pri (set_vr (with_last_adv from (vr s)) s)).
Proof.
  intros Hs Eb. pose proof Hs as [(Hb & Ht & Hi) He]. unfold recv_adver_backup.
  assert (vrrp_ok (with_last_adv from (vr s))) as Hok by (split; [by destruct Hb; split|done]).
  assert (forall b, op_ok s (setup_timers b (set_vr (with_last_adv from (vr s)) s))) as Hset.
  { intros b. rewrite setup_timers_eq. apply (quiet_ok s (state_timers b (with_last_adv from (vr s)))); [done| | |].
    - apply state_timers_vrrp; [apply Hok|apply Hok|]. simpl. by rewrite Eb.
    - by rewrite (proj1 (state_timers_fields _ _)).
    - by rewrite (proj2 (proj2 (state_timers_fields _ _))). }
  destruct (pri =? PRIORITY_LEAVE); [apply Hset|].
  destruct (negb _ || _); [apply Hset|by apply quiet_ok].
Qed.

Lemma step_down_ok s : st_ok s -> vr_state (vr s) = MASTER -> op_ok s (become_backup s).
Proof.
  intros Hs Em. pose proof Hs as [(Hb & Ht & Hi) He]. destruct (master_running s Hs) as (Hu & Ho & Hj); [by rewrite Em|].
  destruct (backup_post s) as (s' & -> & Hv' & He' & Ee' & Ek' & Eo' & Es'); [done..|].
  split; [done|done|by rewrite Ee'|done|]. eexists. split; [exact Eo'|]. by apply mac_backup.
Qed.

Lemma recv_master_ok from pri s : st_ok s -> vr_state (vr s) = MASTER -> op_ok s (recv_adver_master from pri s).
Proof.
  intros Hs Em. pose proof Hs as [(Hb & Ht & Hi) He]. destruct (master_running s Hs) as (Hu & Ho & Hj); [by rewrite Em|].
  unfold recv_adver_master. destruct (pri =? PRIORITY_LEAVE).
  { destruct (advertise_ok s s) as (s' & -> & Hp & _); try done. }
  destruct (_ <? _); [by apply step_down_ok|]. destruct (_ =? _); [|by apply op_refl].
  unfold vif_addr. destruct (e_ips (env s)) eqn:Ei; [by destruct Hu as (_ & ? & _)|]. cbn [result_bind].
  destruct (ipv4_ltb _ _); [by apply step_down_ok|by apply op_refl].
Qed.

Lemma check_each_ok h i n l : 0 <= i -> i + Z.of_nat n <= vh_ipcount h -> exists b, check_each h i n l = Ok b.
Proof.
  revert i. induction n as [|n IH]; intros i Hi Hn; cbn [check_each]; [eauto|].
  unfold vh_ip. rewrite (proj2 (Z.ltb_lt _ _)) by lia. cbn [result_bind].
  destruct (ip_mem _ l); [|eauto]. apply IH; lia.
Qed.

Lemma recv_ok from h s : st_ok s -> vh_vrid h = vrid (vr s) -> 0 <= vh_ipcount h -> vh_priority h <= 255 ->
  op_ok s (recv from h s).
Proof.
  intros Hs Ek Hc Hp. unfold recv, assert. rewrite (proj2 (Z.eqb_eq _ _) Ek). cbn [result_bind].
  destruct (running (vr s)) eqn:Er; [|done]. cbn [negb]. destruct (vh_auth h =? VRRP_AUTH_NONE); [|done]. cbn [negb].
  assert (exists b, check_ips h (vr s) = Ok b) as [b ->].
  { unfold check_ips. destruct (negb _); [eauto|]. apply check_each_ok; lia. }
  cbn [result_bind]. destruct (negb b && _); [done|]. destruct (negb _); [done|].
  unfold recv_advertisement, assert, PRIORITY_OWN. rewrite (proj2 (Z.leb_le _ _)) by lia. cbn [result_bind].
  destruct (vr_state (vr s)) eqn:Es.
  - unfold running, is_state in Er. by rewrite bool_decide_true in Er.
  - by apply recv_master_ok.
  - by apply recv_backup_ok.
Qed.
End Methods.
