(* ===== verification/VrrpVifProps.v ===== *)
(** * The VRRP interface (vrrp/vrrp_vif.cc)

    The invariant of an interface with its virtual routers, its preservation by
    every event, and what it means for the protocol. *)

From Stdlib Require Import ZArith Lia.
From stdpp Require Import base tactics option numbers list.
From S2P Require Import Prelude Word32 Addr IPv4 Sample VrrpPacket VrrpPacketProps Vrrp VrrpProps.
Local Open Scope Z_scope.

Definition mac_of (k : Z) : Mac := [0x00; 0x00; 0x5e; 0x00; 0x01; k].

(** [mac] says which addresses are installed on the interface. *)
Record vif_inv `{HostOrder} (w : VrrpVif) (mac : Mac -> bool) : Prop := {
  inv_keys : NoDup (map fst (vv_vrrps w));
  inv_vrrps : forall k v, (k, v) ∈ vv_vrrps w -> vrid v = k /\ vrrp_ok v;
  inv_name : vv_ifname w = vv_vifname w;
  inv_join : vv_join w = count_running (vv_vrrps w);
  inv_ready : forall k v, (k, v) ∈ vv_vrrps w -> running v = true -> vv_ready w = true;
  inv_ips : vv_ready w = true -> vv_ips w <> [];
  inv_mac : forall k v, (k, v) ∈ vv_vrrps w -> mac (mac_of k) = is_state MASTER v;
  inv_nomac : forall k, k ∉ map fst (vv_vrrps w) -> mac (mac_of k) = false }.

Section Vif.
Context `{HostOrder}.
Implicit Types (w : VrrpVif) (v : Vrrp) (l pre post : list (Z * Vrrp)) (mac : Mac -> bool).

Lemma count_running_app l l' : count_running (l ++ l') = count_running l + count_running l'.
Proof. unfold count_running. induction l as [|x l IH]; simpl; [done|]. rewrite IH. lia. Qed.

Lemma count_running_bound l : 0 <= count_running l <= Z.of_nat (length l).
Proof. unfold count_running. induction l as [|x l IH]; simpl; [lia|]. destruct (running _); lia. Qed.

Lemma small_keys (ks : list Z) : NoDup ks -> (forall k, k ∈ ks -> 1 <= k <= 255) -> (length ks <= 255)%nat.
Proof.
  intros Hn Hr. assert (length (seqZ 1 255) = 255%nat) as <- by done. apply submseteq_length, NoDup_submseteq; [done|].
  intros k Hk. apply elem_of_seqZ. specialize (Hr k Hk). lia.
Qed.

Lemma inv_count w mac : vif_inv w mac -> (length (vv_vrrps w) <= 255)%nat.
Proof.
  intros Hi. rewrite <- (length_map fst). apply small_keys; [apply Hi|].
  intros k Hk. apply list_elem_of_fmap in Hk as ([k' v] & -> & Hv). destruct (inv_vrrps _ _ Hi _ _ Hv) as [<- [Hb _]].
  apply Hb.
Qed.

(** The state in which a virtual router of the table is called. *)
Definition call_state (listed : bool) pre v post w : St :=
  mkSt (mkEnv (vv_ready w) (vv_join w) (vv_ips w) (vv_ifname w) (vv_vifname w) (count_running (pre ++ post)) listed) v [].

Lemma member_ok w mac pre k v post listed : vif_inv w mac -> vv_vrrps w = pre ++ (k, v) :: post ->
  st_ok (call_state listed pre v post w).
Proof.
  intros Hi E. assert ((k, v) ∈ vv_vrrps w) as Hv by (rewrite E; apply elem_of_app; right; left).
  split; [apply (inv_vrrps _ _ Hi _ _ Hv)|]. split; [by apply bool_decide_true, Hi|]. split; [apply (inv_ready _ _ Hi _ _ Hv)|].
  split; [apply Hi|]. pose proof (inv_count w mac Hi) as Hl. pose proof (count_running_bound (pre ++ post)) as Hb.
  rewrite E, length_app in Hl. rewrite length_app in Hb. simpl in *. split; [lia|].
  rewrite (inv_join _ _ Hi), E, !count_running_app. unfold count_running at 2. simpl.
  fold (count_running post). lia.
Qed.

Lemma keys_split pre k v post : NoDup (map fst (pre ++ (k, v) :: post)) ->
  forall k' v', (k', v') ∈ pre ++ post -> k' <> k.
Proof.
  intros Hn k' v' Hv ->. rewrite map_app in Hn. simpl in Hn. apply NoDup_app in Hn as (_ & Hd & Hn).
  apply NoDup_cons in Hn as [Hn _]. apply elem_of_app in Hv as [Hv|Hv].
  - apply (Hd k); [|left]. apply (list_elem_of_fmap_2 fst _ _ Hv).
  - apply Hn. apply (list_elem_of_fmap_2 fst _ _ Hv).
Qed.

Lemma mac_of_inj k k' : mac_of k = mac_of k' -> k = k'.
Proof. by intros [= ->]. Qed.

Lemma source_mac_of v : source_mac v = mac_of (vrid v).
Proof. done. Qed.

(** A call that keeps its promises keeps the invariant of the interface. *)
Lemma call_post w mac pre k v post s' : vif_inv w mac -> vv_vrrps w = pre ++ (k, v) :: post ->
  op_post (call_state true pre v post w) s' ->
  vif_inv (after s' (pre ++ (k, vr s') :: post) w) (fun m => mac_after m (out s') (mac m)).
Proof.
  intros Hi E [Hv He (E1 & E2 & E3 & E4 & E5) Ek (cs & Eo & Hm & Hm')]. simpl in *.
  pose proof (keys_split pre k v post) as Hks. rewrite <- E in Hks. specialize (Hks (inv_keys _ _ Hi)).
  assert ((k, v) ∈ vv_vrrps w) as Hkv by (rewrite E; apply elem_of_app; right; left).
  destruct (inv_vrrps _ _ Hi _ _ Hkv) as [Eid _]. rewrite Eid in Ek.
  assert (forall k' v', (k', v') ∈ pre ++ (k, vr s') :: post ->
            (k' = k /\ v' = vr s') \/ ((k', v') ∈ vv_vrrps w /\ (k', v') ∈ pre ++ post)) as Hcase.
  { intros k' v' Hin. rewrite E, !elem_of_app, !elem_of_cons in *. destruct Hin as [?|[[= -> ->]|?]]; auto. }
  destruct He as (_ & Hr & Hips & _ & Hj). rewrite E1 in Hr, Hips. rewrite E2 in Hips. rewrite E4 in Hj.
  split; simpl.
  - pose proof (inv_keys _ _ Hi) as Hn. rewrite E in Hn. by rewrite map_app in Hn |- *.
  - intros k' v' Hin. destruct (Hcase k' v' Hin) as [[-> ->]|[Hin' _]]; [done|]. by apply Hi.
  - apply Hi.
  - rewrite Hj, !count_running_app. unfold count_running at 4. simpl. fold (count_running post). lia.
  - intros k' v' Hin Hrun. destruct (Hcase k' v' Hin) as [[-> ->]|[Hin' _]]; [auto|]. by eapply (inv_ready _ _ Hi).
  - done.
  - intros k' v' Hin. destruct (Hcase k' v' Hin) as [[-> ->]|[Hin' Hin'']].
    + rewrite (inv_mac _ _ Hi _ _ Hkv). rewrite source_mac_of, Eid in Hm. rewrite Eo. done.
    + rewrite Eo. simpl. rewrite Hm'; [by apply (inv_mac _ _ Hi)|]. rewrite source_mac_of, Eid.
      intros Em. apply mac_of_inj in Em. by apply (Hks k' v').
  - intros k' Hk'. assert (k' ∉ map fst (vv_vrrps w)) as Hnk by (rewrite E, map_app in *; done).
    rewrite Eo. simpl. rewrite Hm'; [by apply (inv_nomac _ _ Hi)|]. rewrite source_mac_of, Eid.
    intros Em. apply mac_of_inj in Em. subst. destruct Hnk. apply (list_elem_of_fmap_2 fst _ _ Hkv).
Qed.

(** ** The table of virtual routers *)

Lemma find_vrid_some k pre post p v q : find_vrid k pre post = Some (p, v, q) -> pre ++ post = p ++ (k, v) :: q.
Proof.
  revert pre. induction post as [|[k' v'] post IH]; intros pre; simpl; [done|].
  destruct (Z.eqb_spec k k') as [->|]; [by intros [= -> -> ->]|]. intros E. apply IH in E. by rewrite <- app_assoc in E.
Qed.
Lemma find_vrid_none k pre post : find_vrid k pre post = None -> k ∉ map fst post.
Proof.
  revert pre. induction post as [|[k' v'] post IH]; intros pre; simpl; [intros _; apply not_elem_of_nil|].
  destruct (Z.eqb_spec k k') as [->|Hne]; [done|]. intros E. apply not_elem_of_cons. split; [done|]. by eapply IH.
Qed.

(** What an event gives: the invariant again, with the addresses as installed. *)
Definition event_ok w mac (r : result xorp_exn (VrrpVif * list command)) : Prop :=
  exists w' cs, r = Ok (w', cs) /\ vif_inv w' (fun m => mac_after m cs (mac m)).

Lemma event_refl w mac : vif_inv w mac -> event_ok w mac (Ok (w, [])).
Proof. intros Hi. exists w, []. split; [done|]. by destruct Hi; split. Qed.

Lemma on_vrid_ok w mac k m : vif_inv w mac ->
  (forall pre v post, vv_vrrps w = pre ++ (k, v) :: post ->
     let s := call_state true pre v post w in st_ok s -> vrid v = k -> op_ok s (m s)) ->
  event_ok w mac (catching (on_vrid k m) w).
Proof.
  intros Hi Hm. unfold catching, on_vrid. destruct (find_vrid k [] (vv_vrrps w)) as [[[pre v] post]|] eqn:Ef;
    [|by apply event_refl].
  apply find_vrid_some in Ef. simpl in Ef. pose proof (member_ok w mac pre k v post true Hi Ef) as Hs.
  assert (vrid v = k) as Ek.
  { eapply (inv_vrrps _ _ Hi). rewrite Ef. apply elem_of_app. right. left. }
  specialize (Hm pre v post Ef Hs Ek). unfold call. fold (call_state true pre v post w).
  destruct (m (call_state true pre v post w)) as [s'|e]; simpl in Hm |- *.
  - eexists _, _. split; [done|]. by apply (call_post w mac pre k v post s').
  - subst e. by apply event_refl.
Qed.

(** ** [set_ready] *)

Lemma with_ready_true w mac : vif_inv w mac -> vv_ips w <> [] -> vif_inv (with_ready true w) mac.
Proof. by intros [] ?; split. Qed.

Definition all_stopped l : Prop := Forall (fun kv => vr_state (snd kv) = INITIALIZE) l.

Lemma with_ready_false w mac : vif_inv w mac -> all_stopped (vv_vrrps w) -> vif_inv (with_ready false w) mac.
Proof.
  intros [] Hs. split; simpl; try done. intros k v Hv Hr. unfold all_stopped in Hs. rewrite Forall_forall in Hs.
  specialize (Hs _ Hv). simpl in Hs. unfold running, is_state in Hr. by rewrite bool_decide_true in Hr.
Qed.

Lemma ready_loop_ok b w mac pre post : vif_inv w mac -> vv_vrrps w = pre ++ post ->
  (b = false -> all_stopped pre) ->
  exists w' cs, ready_loop b pre post w = Ok (w', cs) /\ vif_inv w' (fun m => mac_after m cs (mac m))
    /\ vv_ready w' = vv_ready w /\ vv_ips w' = vv_ips w /\ (b = false -> all_stopped (vv_vrrps w')).
Proof.
  revert w mac pre. induction post as [|[k v] post IH]; intros w mac pre Hi E Hst; cbn [ready_loop].
  { exists w, []. split; [done|]. split; [by destruct Hi; split|]. rewrite app_nil_r in E. by rewrite E. }
  pose proof (member_ok w mac pre k v post true Hi E) as Hs. unfold call. fold (call_state true pre v post w).
  assert (exists s', (if b then start else stop) (call_state true pre v post w) = Ok s'
            /\ op_post (call_state true pre v post w) s' /\ (b = false -> vr_state (vr s') = INITIALIZE)) as (s' & -> & Hp & Hs').
  { destruct b.
    - destruct (start_ok _ Hs) as (s' & -> & Hp). by exists s'.
    - destruct (stop_ok _ Hs) as (s' & -> & Hp & Hz). by exists s'. }
  cbn [result_bind]. pose proof (call_post w mac pre k v post s' Hi E Hp) as Hi'.
  destruct (IH (after s' ((pre ++ [(k, vr s')]) ++ post) w) (fun m => mac_after m (out s') (mac m)) (pre ++ [(k, vr s')]))
    as (w' & cs & -> & Hi'' & Er & Eip & Hz); [by rewrite <- app_assoc|done| |].
  { intros Hb. apply Forall_app. split; [by apply Hst|]. repeat constructor. by apply Hs'. }
  cbn [result_bind fst snd]. exists w', (out s' ++ cs). split; [done|]. split; [|done].
  destruct Hi''; split; try done; intros; rewrite mac_after_app; auto.
Qed.

Lemma set_ready_ok b w mac : vif_inv w mac -> (b = true -> vv_ips w <> []) -> event_ok w mac (set_ready b w).
Proof.
  intros Hi Hb. unfold set_ready.
  destruct (ready_loop_ok b (if b then with_ready true w else w) mac [] (vv_vrrps (if b then with_ready true w else w)))
    as (w' & cs & E & Hi' & Er & Eip & Hz).
  - destruct b; [by apply with_ready_true; auto|done].
  - done.
  - intros _. constructor.
  - rewrite E. cbn [result_bind fst snd]. exists (with_ready b w'), cs. split; [done|]. destruct b.
    + apply with_ready_true; [done|]. rewrite Eip. by apply Hb.
    + by apply with_ready_false; [|apply Hz].
Qed.

(** *** Without addresses

    [configure] has taken the addresses away before it stops the routers; that
    matters only to a master, which still wants to send. *)

Definition vif_with_ips (ips : list IPv4) w : VrrpVif :=
  mkVif (vv_ifname w) (vv_vifname w) (vv_ready w) (vv_join w) ips (vv_vrrps w).
Definition st_with_ips (ips : list IPv4) (s : St) : St :=
  mkSt (mkEnv (e_ready (env s)) (e_join (env s)) ips (e_ifname (env s)) (e_vifname (env s)) (e_others (env s)) (e_listed (env s)))
       (vr s) (out s).

Lemma stop_ips ips (s s' : St) : vr_state (vr s) <> MASTER -> stop s = Ok s' ->
  stop (st_with_ips ips s) = Ok (st_with_ips ips s').
Proof.
  intros Hm. destruct s as [[r j i n1 n2 o li] v cs]. unfold stop, leave_mcast, assert, is_state. simpl in *.
  destruct (running v) eqn:Er; cbn [negb]; [|by intros [= <-]].
  destruct (negb (j =? 0)); [|done]. cbn [result_bind].
  destruct (0 <? j - 1); cbn [result_bind].
  - simpl. rewrite bool_decide_false by done. cbn [result_bind]. by intros [= <-].
  - destruct (_ <=? 1); [|done]. cbn [result_bind]. simpl. rewrite bool_decide_false by done. cbn [result_bind].
    by intros [= <-].
Qed.

Definition no_master l : Prop := Forall (fun kv => vr_state (snd kv) <> MASTER) l.

Lemma ready_loop_ips ips pre post w w' cs : no_master post -> ready_loop false pre post w = Ok (w', cs) ->
  ready_loop false pre post (vif_with_ips ips w) = Ok (vif_with_ips ips w', cs).
Proof.
  intros Hm. revert pre w w' cs. induction Hm as [|[k v] post Hv _ IH]; intros pre w w' cs; cbn [ready_loop].
  { by intros [= <- <-]. }
  unfold call at 1. destruct (stop (mkSt _ v [])) as [s'|e] eqn:Es; [|done]. cbn [result_bind].
  destruct (ready_loop false (pre ++ [(k, vr s')]) post (after s' ((pre ++ [(k, vr s')]) ++ post) w)) as [[w1 cs1]|e] eqn:El; [|done].
  cbn [result_bind fst snd]. intros [= <- <-].
  apply (stop_ips ips) in Es; [|done]. unfold call. unfold st_with_ips in Es. simpl in Es |- *. rewrite Es. cbn [result_bind].
  apply IH in El. unfold vif_with_ips, after in El |- *. simpl in El |- *. by rewrite El.
Qed.

Lemma set_unready_ips w mac : vif_inv w mac -> no_master (vv_vrrps w) ->
  event_ok w mac (set_ready false (vif_with_ips [] w)).
Proof.
  intros Hi Hm. unfold set_ready.
  destruct (ready_loop_ok false w mac [] (vv_vrrps w)) as (w' & cs & E & Hi' & Er & Eip & Hz); [done|done|constructor|].
  apply (ready_loop_ips []) in E; [|done]. simpl. rewrite E. cbn [result_bind fst snd].
  eexists _, cs. split; [done|]. pose proof (with_ready_false w' _ Hi' (Hz eq_refl)) as Hf.
  by destruct Hf; split.
Qed.

Definition enabled_ips (l : list (IPv4 * bool)) : list IPv4 :=
  foldl (fun acc (ab : IPv4 * bool) => if snd ab then ip_insert (fst ab) acc else acc) [] l.

Lemma configure_ok c w mac : vif_inv w mac ->
  (forall (cl : list (IPv4 * bool)), c = Addrs cl -> enabled_ips cl = [] -> no_master (vv_vrrps w)) -> event_ok w mac (configure c w).
Proof.
  intros Hi Hc. destruct c as [|cl]; cbn [configure]; [by apply set_ready_ok|].
  fold (enabled_ips cl). destruct (enabled_ips cl) as [|a ips] eqn:El; [by apply set_unready_ips; [|eapply Hc]|].
  assert (vif_inv (vif_with_ips (a :: ips) w) mac) as Hi' by (by destruct Hi; split).
  destruct (set_ready_ok true _ mac Hi') as (w' & cs & E & Hw); [done|].
  exists w', cs. split; [exact E|done].
Qed.

(** *** New and deleted virtual routers *)

Lemma vrrp_new_ok k : 1 <= k <= 255 ->
  exists v, vrrp_new k = Ok v /\ vrrp_ok v /\ vrid v = k /\ vr_state v = INITIALIZE.
Proof.
  intros Hk. unfold vrrp_new. destruct (Z.ltb_spec k 1); [lia|]. destruct (Z.ltb_spec 255 k); [lia|]. cbn [orb].
  eexists. split; [reflexivity|]. cbn [vr set_vr]. split; [|done].
  split; [|split; [done|unfold intervals_ok; simpl; lia]].
  split; simpl; try lia; [constructor|apply packet_new_shape].
Qed.

Lemma vrrp_insert_perm k v l : vrrp_insert k v l ≡ₚ (k, v) :: l.
Proof.
  induction l as [|[k' v'] l IH]; simpl; [done|]. destruct (k <? k'); [done|]. rewrite IH. apply Permutation_swap.
Qed.

Lemma count_running_perm l l' : l ≡ₚ l' -> count_running l = count_running l'.
Proof. unfold count_running. induction 1; simpl; lia. Qed.

Lemma add_vrid_ok k w mac : vif_inv w mac -> event_ok w mac (catching (add_vrid k) w).
Proof.
  intros Hi. unfold catching, add_vrid. destruct (find_vrid k [] (vv_vrrps w)) eqn:Ef; [by apply event_refl|].
  apply find_vrid_none in Ef. destruct (decide (1 <= k <= 255)) as [Hk|Hk].
  2:{ unfold vrrp_new. destruct (Z.ltb_spec k 1); [by apply event_refl|].
      destruct (Z.ltb_spec 255 k); [by apply event_refl|lia]. }
  destruct (vrrp_new_ok k Hk) as (v & -> & Hv & Ek & Es). cbn [result_bind].
  pose proof (vrrp_insert_perm k v (vv_vrrps w)) as Hp.
  assert (running v = false) as Hr by (unfold running, is_state; by rewrite bool_decide_true).
  assert (forall k' v', (k', v') ∈ vrrp_insert k v (vv_vrrps w) -> (k' = k /\ v' = v) \/ (k', v') ∈ vv_vrrps w) as Hcase.
  { intros k' v'. rewrite Hp, elem_of_cons. intros [[= -> ->]|?]; auto. }
  eexists _, []. split; [done|]. split; simpl.
  - rewrite (Permutation_map fst Hp). simpl. apply NoDup_cons. split; [done|]. apply Hi.
  - intros k' v' Hin. apply Hcase in Hin as [[-> ->]|Hin]; [done|]. by apply Hi.
  - apply Hi.
  - rewrite (count_running_perm _ _ Hp). unfold count_running. simpl. rewrite Hr. by rewrite (inv_join _ _ Hi).
  - intros k' v' Hin Hrun. apply Hcase in Hin as [[-> ->]|Hin]; [congruence|]. by eapply (inv_ready _ _ Hi).
  - apply Hi.
  - intros k' v' Hin. apply Hcase in Hin as [[-> ->]|Hin]; [|by apply (inv_mac _ _ Hi)].
    rewrite (inv_nomac _ _ Hi) by done. unfold is_state. by rewrite Es.
  - intros k' Hk'. apply (inv_nomac _ _ Hi). intros Hin. apply Hk'. rewrite (Permutation_map fst Hp). by right.
Qed.

Lemma delete_vrid_ok k w mac : vif_inv w mac -> event_ok w mac (catching (delete_vrid k) w).
Proof.
  intros Hi. unfold catching, delete_vrid. destruct (find_vrid k [] (vv_vrrps w)) as [[[pre v] post]|] eqn:Ef;
    [|by apply event_refl].
  apply find_vrid_some in Ef. simpl in Ef. pose proof (member_ok w mac pre k v post false Hi Ef) as Hs.
  unfold call. fold (call_state false pre v post w). destruct (stop_ok _ Hs) as (s' & -> & Hpost & Hst). cbn [result_bind].
  destruct Hpost as [_ He (E1 & E2 & E3 & E4 & _) _ (cs & Eo & Hm & Hm')]. simpl in *.
  pose proof (keys_split pre k v post) as Hks. rewrite <- Ef in Hks. specialize (Hks (inv_keys _ _ Hi)).
  assert ((k, v) ∈ vv_vrrps w) as Hkv by (rewrite Ef; apply elem_of_app; right; left).
  destruct (inv_vrrps _ _ Hi _ _ Hkv) as [Eid _]. rewrite source_mac_of, Eid in Hm, Hm'.
  assert (forall k' v', (k', v') ∈ pre ++ post -> (k', v') ∈ vv_vrrps w) as Hsub.
  { intros k' v'. rewrite Ef, !elem_of_app, elem_of_cons. tauto. }
  eexists _, _. split; [done|]. rewrite Eo. split; simpl.
  - pose proof (inv_keys _ _ Hi) as Hn. rewrite Ef, map_app in Hn. rewrite map_app. simpl in Hn.
    apply NoDup_app in Hn as (H1 & H2 & H3). apply NoDup_cons in H3 as [_ H3]. apply NoDup_app.
    split; [done|]. split; [|done]. intros x Hx Hx'. apply (H2 x Hx). by right.
  - intros k' v' Hin. apply Hi. auto.
  - apply Hi.
  - destruct He as (_ & _ & _ & _ & Hj). rewrite Hj, E4. unfold running, is_state. rewrite Hst. simpl. lia.
  - intros k' v' Hin. apply (inv_ready _ _ Hi k' v'). auto.
  - apply Hi.
  - intros k' v' Hin. rewrite Hm'; [apply (inv_mac _ _ Hi); auto|].
    intros Em. apply mac_of_inj in Em. by apply (Hks k' v').
  - intros k' Hk'. destruct (decide (k' = k)) as [->|Hne].
    + rewrite (inv_mac _ _ Hi _ _ Hkv), Hm. unfold is_state. by rewrite Hst.
    + rewrite Hm' by (intros Em; by apply mac_of_inj in Em). apply (inv_nomac _ _ Hi).
      rewrite Ef, map_app. rewrite map_app in Hk'. simpl. rewrite elem_of_app, elem_of_cons in *. tauto.
Qed.

(** *** Reception *)

Definition is_octet (x : Z) : Prop := 0 <= x <= 255.

Lemma octet_at_range p i : Forall is_octet p -> is_octet (octet_at p i).
Proof.
  intros Hp. unfold octet_at. destruct (nth_in_or_default i p 0) as [Hin| ->]; [|unfold is_octet; lia].
  rewrite Forall_forall in Hp. apply Hp. by apply list_elem_of_In.
Qed.

Lemma put_octets off bs p : Forall is_octet bs -> Forall is_octet p -> Forall is_octet (put off bs p).
Proof. intros Hb Hp. unfold put. rewrite !Forall_app. auto using Forall_take, Forall_drop. Qed.

Lemma land_octet x : is_octet (Z.land x 0xff).
Proof.
  pose proof (Z.land_ones x 8 ltac:(lia)) as E. change (Z.ones 8) with 0xff in E. unfold is_octet. rewrite E.
  pose proof (Z.mod_pos_bound x (2 ^ 8)). lia.
Qed.

Lemma u16_mem_octets x : Forall is_octet (u16_to_mem x).
Proof. unfold u16_to_mem, u16_octets. destruct big_endian; repeat constructor; apply land_octet. Qed.

Lemma finalize_octets p : Forall is_octet p -> Forall is_octet (fst (vh_finalize p)).
Proof.
  intros Hp. unfold vh_finalize. cbn [fst]. apply put_octets; [apply u16_mem_octets|].
  apply put_octets; [repeat constructor; unfold is_octet; lia|]. apply put_octets; [|done].
  repeat constructor; unfold is_octet; lia.
Qed.

Lemma parse_cases p : Forall is_octet p ->
  (exists h, vh_parse p = Ok h /\ Forall is_octet h) \/ vh_parse p = Throw VrrpException.
Proof.
  intros Hp. unfold vh_parse. destruct (Nat.ltb _ _); [by right|]. destruct (negb _); [by right|].
  destruct (negb _); [by right|]. destruct (negb _) eqn:Es; [by right|].
  pose proof (finalize_octets p Hp) as Hf.
  assert (snd (vh_finalize p) = (VRRP_HEADER + VRRP_AUTH + 4 * Z.to_nat (vh_ipcount p))%nat) as En.
  { unfold vh_finalize, VRRP_HEADER, VRRP_AUTH. cbn [snd]. simpl. lia. }
  destruct (vh_finalize p) as [h n]. simpl in Hf, En. rewrite En, Nat.eqb_refl. cbn [negb].
  case_bool_decide; [left; eauto|by right].
Qed.

Lemma vif_recv_ok dst from proto ttl payload w mac : vif_inv w mac -> Forall is_octet payload ->
  event_ok w mac (raw_packet_recv dst from proto ttl payload w).
Proof.
  intros Hi Hp. unfold raw_packet_recv, catching, vif_recv. destruct (negb _); [by apply event_refl|].
  destruct (negb _); [by apply event_refl|]. destruct (negb _); [by apply event_refl|].
  destruct (parse_cases payload Hp) as [(h & -> & Hh)| ->]; [|by apply event_refl]. cbn [result_bind].
  destruct (find_vrid (vh_vrid h) [] (vv_vrrps w)) as [x|] eqn:Ef; [|by apply event_refl].
  apply (on_vrid_ok w mac (vh_vrid h) (recv from h) Hi).
  intros pre v post _ s Hs Ek. apply recv_ok; [done|by rewrite <- Ek|apply octet_at_range, Hh|apply octet_at_range, Hh].
Qed.

(** ** Every event *)

Definition cmd_valid v (c : vrrp_cmd) : Prop :=
  match c with
  | SetPriority p | SetInterval p => 0 <= p
  | SetPreempt _ | SetDisable _ | DeleteIp _ => True
  | AddIp ip | SetPrefix ip _ => ipv4_wf ip /\ (length (vr_ips v) < 255)%nat
  end.

(** The events the event loop and the XRLs can deliver.  One restriction is of
    substance: a virtual router has at most 255 addresses. *)
Definition event_possible w (e : vif_event) : Prop :=
  match e with
  | EvConfigure _ | EvXrlError | EvAddVrid _ | EvDeleteVrid _ => True
  | EvCommand k c => forall v, (k, v) ∈ vv_vrrps w -> cmd_valid v c
  | EvMasterDown k => exists v, (k, v) ∈ vv_vrrps w /\ is_Some (master_down_timer v)
  | EvAdver k => exists v, (k, v) ∈ vv_vrrps w /\ is_Some (adver_timer v)
  | EvRecv _ _ _ _ payload => Forall is_octet payload
  end.
(** The interface loses its last address while one of its routers is master. *)
Definition loses_address w (e : vif_event) : Prop :=
  match e with
  | EvConfigure (Addrs l) => enabled_ips l = [] /\ Exists (fun kv => vr_state (snd kv) = MASTER) (vv_vrrps w)
  | _ => False
  end.
Definition event_valid w (e : vif_event) : Prop := event_possible w e /\ ~ loses_address w e.

Lemma run_cmd_ok c s : st_ok s -> cmd_valid (vr s) c -> op_ok s (run_cmd c s).
Proof.
  intros Hs Hc. destruct c; simpl in Hc |- *.
  - by apply set_priority_ok.
  - by apply set_interval_ok.
  - by apply set_preempt_ok.
  - by apply set_disable_ok.
  - by apply add_ip_ok; [|apply Hc..].
  - by apply set_prefix_ok; [|apply Hc..].
  - by apply delete_ip_ok.
Qed.

(** A timer of a router of the table fires. *)
Lemma timer_ok w mac k (scheduled : Vrrp -> Prop) (m : St -> result xorp_exn St) : vif_inv w mac ->
  (exists v, (k, v) ∈ vv_vrrps w /\ scheduled v) ->
  (forall s, st_ok s -> scheduled (vr s) -> exists s', m s = Ok s' /\ op_post s s') ->
  event_ok w mac (on_vrid k m w).
Proof.
  intros Hi (v & Hv & Ht) Hm. unfold on_vrid.
  destruct (find_vrid k [] (vv_vrrps w)) as [[[pre v'] post]|] eqn:Ef.
  - apply find_vrid_some in Ef. simpl in Ef.
    assert (v' = v) as ->.
    { pose proof (keys_split pre k v' post) as Hks. rewrite <- Ef in Hks. specialize (Hks (inv_keys _ _ Hi) k v).
      rewrite Ef, elem_of_app, elem_of_cons in Hv. rewrite elem_of_app in Hks.
      destruct Hv as [?|[[= ->]|?]]; [by destruct Hks; auto|done|by destruct Hks; auto]. }
    pose proof (member_ok w mac pre k v post true Hi Ef) as Hs.
    destruct (Hm _ Hs Ht) as (s' & E & Hp). unfold call. fold (call_state true pre v post w). rewrite E. cbn [result_bind].
    eexists _, _. split; [done|]. by apply (call_post w mac pre k v post s').
  - apply find_vrid_none in Ef. destruct Ef. apply (list_elem_of_fmap_2 fst _ _ Hv).
Qed.

Lemma vif_exec_ok w mac e : vif_inv w mac -> event_valid w e -> event_ok w mac (vif_exec e w).
Proof.
  intros Hi [He Hl]. destruct e as [c| |k|k|k c|k|k|dst from proto ttl payload]; cbn [vif_exec event_possible] in *.
  - apply configure_ok; [done|]. intros cl -> Hn. apply Forall_Exists_neg. intros Hm. by apply Hl.
  - by apply set_ready_ok.
  - by apply add_vrid_ok.
  - by apply delete_vrid_ok.
  - apply on_vrid_ok; [done|]. intros pre v post E s Hs _. apply run_cmd_ok; [done|]. apply He.
    rewrite E. apply elem_of_app. right. left.
  - apply (timer_ok w mac k (fun v => is_Some (master_down_timer v))); [done|done|].
    intros s Hs Hm. destruct (master_down_ok s Hs Hm) as (s' & E & Hp & _). by exists s'.
  - apply (timer_ok w mac k (fun v => is_Some (adver_timer v))); [done|done|].
    intros s Hs Hm. destruct (adver_ok s Hs Hm) as (s' & E & Hp & _). by exists s'.
  - by apply vif_recv_ok.
Qed.
End Vif.
