(* ===== verification/VrrpProtocol.v ===== *)
(** * The VRRP protocol (vrrp/vrrp.cc, vrrp/vrrp_vif.cc)

    What the virtual routers promise to each other: the runs of an interface are
    safe, a backup takes over, two masters become one.  Then the places where the
    code departs from the protocol. *)

From Stdlib Require Import ZArith Lia String.
From stdpp Require Import base tactics option numbers list strings.
From S2P Require Import Prelude Word32 Addr IPv4 Sample VrrpPacket VrrpPacketProps Vrrp VrrpProps VrrpVifProps.
Local Open Scope Z_scope.

(** ** The protocol *)

Section Protocol.
Context `{HostOrder}.
Implicit Types (v : Vrrp) (s : St).

(** The header of an advertisement that this router accepts. *)
Record header_for (h : list Z) v : Prop := {
  hf_vrid : vh_vrid h = vrid v;
  hf_auth : vh_auth h = VRRP_AUTH_NONE;
  hf_interval : vh_interval h = interval v;
  hf_count : vh_ipcount h = Z.of_nat (length (vr_ips v));
  hf_ips : forall k a, vr_ips v !! k = Some a -> vh_ip h (Z.of_nat k) = Ok a }.

Lemma ip_mem_elem a l : a ∈ l -> ip_mem a l = true.
Proof.
  intros Hin. apply existsb_exists. exists a. split; [by apply list_elem_of_In|]. apply Z.eqb_refl.
Qed.

Lemma check_each_same h l j n : (forall k a, l !! k = Some a -> vh_ip h (Z.of_nat k) = Ok a) ->
  (j + n = length l)%nat -> check_each h (Z.of_nat j) n l = Ok true.
Proof.
  intros Hl. revert j. induction n as [|n IH]; intros j Hj; cbn [check_each]; [done|].
  destruct (lookup_lt_is_Some_2 l j) as [a Ha]; [lia|]. rewrite (Hl j a Ha). cbn [result_bind].
  rewrite ip_mem_elem by (by eapply list_elem_of_lookup_2).
  replace (Z.of_nat j + 1) with (Z.of_nat (S j)) by lia. apply IH. lia.
Qed.

Lemma recv_accepted from h s : header_for h (vr s) -> vr_state (vr s) <> INITIALIZE ->
  recv from h s = recv_advertisement from (vh_priority h) s.
Proof.
  intros [Hv Ha Hi Hc Hl] Hs. unfold recv, assert. rewrite (proj2 (Z.eqb_eq _ _) Hv). cbn [result_bind].
  unfold running, is_state. rewrite bool_decide_false by done. cbn [negb]. rewrite Ha, Z.eqb_refl. cbn [negb].
  assert (check_ips h (vr s) = Ok true) as ->.
  { unfold check_ips. rewrite Hc, Z.eqb_refl, Nat2Z.id. cbn [negb]. by apply (check_each_same h _ 0%nat). }
  cbn [result_bind negb andb]. by rewrite Hi, Z.eqb_refl.
Qed.

(** Priority first, then the higher address: [p], [a] lose against [q], [b]. *)
Definition beaten (p : Z) (a : IPv4) (q : Z) (b : IPv4) : bool :=
  (p <? q) || (q =? p) && ipv4_ltb a b.

Lemma beaten_total p a q b : ipv4_wf a -> ipv4_wf b -> a <> b -> beaten q b p a = negb (beaten p a q b).
Proof.
  intros Ha Hb Hne. unfold beaten, ipv4_ltb. fold (ipv4_val a) (ipv4_val b).
  assert (ipv4_val a <> ipv4_val b) by (intros E; apply Hne; by apply ipv4_val_inj).
  destruct (Z.ltb_spec p q), (Z.ltb_spec q p), (Z.eqb_spec q p), (Z.eqb_spec p q),
    (Z.ltb_spec (ipv4_val a) (ipv4_val b)), (Z.ltb_spec (ipv4_val b) (ipv4_val a)); simpl; done || lia.
Qed.

Lemma master_hears from h s a : st_ok s -> vr_state (vr s) = MASTER -> header_for h (vr s) ->
  vif_addr s = Ok a -> 1 <= vh_priority h <= 255 ->
  exists s', recv from h s = Ok s'
    /\ vr_state (vr s') = if beaten (priority (vr s)) a (vh_priority h) from then BACKUP else MASTER.
Proof.
  intros Hs Em Hh Ea Hp. rewrite recv_accepted by (done || by rewrite Em).
  unfold recv_advertisement, assert, PRIORITY_OWN. rewrite (proj2 (Z.leb_le _ _)) by lia. cbn [result_bind].
  rewrite Em. unfold recv_adver_master, beaten, PRIORITY_LEAVE. destruct (Z.eqb_spec (vh_priority h) 0); [lia|].
  destruct Hs as [_ He]. assert (e_same_name (env s) = true) as Hn by apply He.
  rewrite (become_backup_eq s Hn), Ea.
  assert (forall v', vr_state (state_timers false (with_state BACKUP v')) = BACKUP) as Hb.
  { intros v'. by rewrite (proj1 (state_timers_fields _ _)). }
  destruct (_ <? _); simpl; [eauto|]. destruct (_ =? _); simpl; [|eauto]. destruct (ipv4_ltb _ _); simpl; eauto.
Qed.

(** What a router receives when another one advertises. *)
Lemma carries_header d v v' : carries d (vrid v) (priority v) (interval v) (vr_ips v) ->
  vrid v' = vrid v -> interval v' = interval v -> vr_ips v' = vr_ips v ->
  exists h, vh_parse (vrrp_part d) = Ok h /\ header_for h v' /\ vh_priority h = priority v.
Proof.
  intros (h & E & Hv & Hp & Hi & Ha & Hc & Hl) Ev Ei El. exists h. split; [done|].
  split; [|done]. split; rewrite ?Ev, ?Ei, ?El; done.
Qed.

(** C28: Two masters of the same virtual router, on interfaces with different
    addresses, that hear each other's advertisement: both send one, both parse
    and accept what the other sent, and exactly one stays master: the one with
    the higher priority or, when the priorities are equal, the one with the
    higher address. *)
Theorem two_masters_elect s1 s2 a b :
  st_ok s1 -> st_ok s2 -> vr_state (vr s1) = MASTER -> vr_state (vr s2) = MASTER ->
  vrid (vr s2) = vrid (vr s1) -> interval (vr s2) = interval (vr s1) -> vr_ips (vr s2) = vr_ips (vr s1) ->
  vif_addr s1 = Ok a -> vif_addr s2 = Ok b -> ipv4_wf a -> ipv4_wf b -> a <> b ->
  exists d1 d2 t1 t2 h1 h2 u1 u2,
    send_advertisement (priority (vr s1)) s1 = Ok t1 /\ out t1 = out s1 ++ [adv_cmd (vr s1) d1]
    /\ send_advertisement (priority (vr s2)) s2 = Ok t2 /\ out t2 = out s2 ++ [adv_cmd (vr s2) d2]
    /\ vh_parse (vrrp_part d1) = Ok h1 /\ vh_parse (vrrp_part d2) = Ok h2
    /\ recv b h2 t1 = Ok u1 /\ recv a h1 t2 = Ok u2
    /\ if beaten (priority (vr s1)) a (priority (vr s2)) b
       then vr_state (vr u1) = BACKUP /\ vr_state (vr u2) = MASTER
       else vr_state (vr u1) = MASTER /\ vr_state (vr u2) = BACKUP.
Proof.
  intros Hs1 Hs2 Em1 Em2 Ev Ei El Ea Eb Ha Hb Hne.
  assert (forall s, st_ok s -> vr_state (vr s) = MASTER -> exists d,
    send_advertisement (priority (vr s)) s = Ok (mkSt (env s) (with_packet d (vr s)) (out s ++ [adv_cmd (vr s) d]))
    /\ st_ok (mkSt (env s) (with_packet d (vr s)) (out s ++ [adv_cmd (vr s) d]))
    /\ carries d (vrid (vr s)) (priority (vr s)) (interval (vr s)) (vr_ips (vr s))) as Hsend.
  { intros s Hs Em. destruct (master_running s Hs) as (Hu & _); [by rewrite Em|].
    pose proof Hs as [(Hbase & Ht & Hi) He].
    destruct (send_advertisement_carries (priority (vr s)) s) as (d & E & Hd & Hc);
      [done|done|done|destruct Hbase; lia|]. exists d. split; [done|]. split; [|done].
    split; [split; [by apply base_with_packet|done]|done]. }
  destruct (Hsend s1 Hs1 Em1) as (d1 & E1 & Ht1 & Hc1). destruct (Hsend s2 Hs2 Em2) as (d2 & E2 & Ht2 & Hc2).
  set (t1 := mkSt _ (with_packet d1 _) _) in *. set (t2 := mkSt _ (with_packet d2 _) _) in *.
  destruct (carries_header d1 (vr s1) (vr t2) Hc1) as (h1 & P1 & Hh1 & Q1); [done..|].
  destruct (carries_header d2 (vr s2) (vr t1) Hc2) as (h2 & P2 & Hh2 & Q2); [done..|].
  assert (1 <= priority (vr s1) <= 254) as Hp1 by apply Hs1. assert (1 <= priority (vr s2) <= 254) as Hp2 by apply Hs2.
  destruct (master_hears b h2 t1 a) as (u1 & R1 & F1); [done|done|done|done|lia|].
  destruct (master_hears a h1 t2 b) as (u2 & R2 & F2); [done|done|done|done|lia|].
  rewrite Q2 in F1. rewrite Q1 in F2. change (priority (vr t1)) with (priority (vr s1)) in F1.
  change (priority (vr t2)) with (priority (vr s2)) in F2. rewrite (beaten_total (priority (vr s1)) a) in F2 by done.
  exists d1, d2, t1, t2, h1, h2, u1, u2. do 8 (split; [done|]). destruct (beaten _ _ _ _); done.
Qed.
(** When the master goes silent, a backup takes over: the expiry of the
    master-down timer makes it master, it installs the virtual MAC address, then
    every address, advertises with its own priority in a packet that the other
    routers parse, announces every address by ARP, in this order, and schedules
    the next advertisement. *)
Theorem master_down_takes_over s : st_ok s -> is_Some (master_down_timer (vr s)) ->
  exists s' d, master_down_expiry s = Ok s' /\ vr_state (vr s') = MASTER
    /\ carries d (vrid (vr s)) (priority (vr s)) (interval (vr s)) (vr_ips (vr s))
    /\ out s' = out s ++ [CAddMac (source_mac (vr s))]
                 ++ map (fun ip => CAddIp ip (ip_prefix (vr s) ip)) (vr_ips (vr s))
                 ++ [CSend (source_mac (vr s)) mcast_mac ETHERTYPE_IP d]
                 ++ map (arp_cmd (vr s)) (vr_ips (vr s))
    /\ master_down_timer (vr s') = None /\ adver_timer (vr s') = Some (interval (vr s) * 1000)
    /\ env s' = env s.
Proof.
  intros Hs Hm. pose proof (master_down_backup s Hs Hm) as Eb. pose proof Hs as [(Hb & _) _].
  destruct (master_running s Hs) as (Hu & _); [by rewrite Eb|].
  unfold master_down_expiry, assert, is_state. simpl. rewrite bool_decide_true by done. cbn [result_bind].
  destruct (become_master_carries (set_vr (with_timers None (adver_timer (vr s)) (vr s)) s)) as (d & _ & Hc & E);
    [done|by apply base_timers|].
  rewrite E. eexists _, d. split; [done|]. split; [done|]. split; [exact Hc|]. split; [done|done].
Qed.

(** A backup that hears an acceptable advertisement stays backup, sends
    nothing, and remembers the sender; it waits a whole master-down interval again
    when the priority is at least its own or it may not preempt, only the skew
    time when the master leaves, and otherwise keeps the timer, so that it takes
    over from a master of lower priority. *)
Theorem backup_hears from h s : st_ok s -> vr_state (vr s) = BACKUP -> header_for h (vr s) ->
  0 <= vh_priority h <= 255 ->
  exists s', recv from h s = Ok s' /\ vr_state (vr s') = BACKUP /\ out s' = out s /\ last_adv (vr s') = from
    /\ adver_timer (vr s') = None
    /\ master_down_timer (vr s') =
        if vh_priority h =? 0 then Some (skew_time (vr s) * 1000 / 256)
        else if negb (preempt (vr s)) || (priority (vr s) <=? vh_priority h)
        then Some (master_down_interval (vr s) * 1000 / 256)
        else master_down_timer (vr s).
Proof.
  intros [(_ & Ht & _) _] Eb Hh Hp. rewrite recv_accepted by (done || by rewrite Eb).
  unfold timers_ok in Ht. rewrite Eb in Ht. destruct Ht as [_ Ha].
  unfold recv_advertisement, assert, PRIORITY_OWN. rewrite (proj2 (Z.leb_le _ _)) by lia. cbn [result_bind]. rewrite Eb.
  unfold recv_adver_backup, PRIORITY_LEAVE. simpl. rewrite !setup_timers_eq. unfold state_timers. simpl. rewrite Eb.
  destruct (vh_priority h =? 0); [by eexists|]. destruct (negb _ || _); by eexists.
Qed.
End Protocol.

(** ** Departures *)

Section Departures.
Context `{HostOrder}.
Implicit Types (v : Vrrp) (s : St).

(** The master-down interval lags behind the priority: after a change of the
    priority it is three intervals and the skew time of the priority before,
    although the skew time itself is the one of the new priority.  The timers of
    two backups whose priorities were just set from the same default are equal, so
    they do not take over in the order of their priorities. *)
Theorem set_priority_stale_skew p s : 1 <= p <= 254 ->
  exists s', set_priority p s = Ok s' /\ priority (vr s') = p /\ skew_time (vr s') = 256 - p
    /\ master_down_interval (vr s') = 768 * interval (vr s) + skew_time (vr s).
Proof.
  intros Hp. unfold set_priority, PRIORITY_LEAVE, PRIORITY_OWN.
  destruct (Z.eqb_spec p 0); [lia|]. destruct (Z.leb_spec 255 p); [lia|]. cbn [orb].
  unfold setup_intervals. cbn [vr set_vr priority interval skew_time master_down_interval with_config].
  destruct (negb _ || negb _) eqn:E.
  - rewrite setup_timers_eq. eexists. split; [done|]. unfold state_timers. simpl. case_match; simpl; auto with lia.
  - apply orb_false_iff in E as [E1 E2]. apply negb_false_iff, Z.eqb_eq in E1, E2.
    eexists. split; [done|]. simpl. lia.
Qed.

(** What a stopping loop does when the interface has no address. *)
Lemma stop_no_address s : e_ips (env s) = [] -> 0 <= e_others (env s) <= 255 ->
  e_join (env s) = e_others (env s) + (if running (vr s) then 1 else 0) ->
  if is_state MASTER (vr s) then stop s = Throw AssertFailed
  else exists s', stop s = Ok s' /\ e_join (env s') = e_others (env s) /\ running (vr s') = false.
Proof.
  intros Hi Ho Hj. unfold stop. destruct (running (vr s)) eqn:Er; cbn [negb].
  - destruct (leave_eq s Ho Hj) as (e' & cs & -> & (_ & E2 & _ & E4 & _) & Hj' & _). cbn [result_bind].
    unfold cancel_timers. simpl. change (is_state MASTER (with_timers None None (vr s))) with (is_state MASTER (vr s)).
    destruct (is_state MASTER (vr s)) eqn:Em.
    + unfold send_advertisement, assert. simpl. change (is_state MASTER (with_timers None None (vr s))) with (is_state MASTER (vr s)).
      rewrite Em. simpl. unfold prepare_advertisement, vif_addr. simpl. rewrite E2, Hi. done.
    + eexists. split; [done|]. simpl. split; [congruence|done].
  - unfold running, is_state in *. apply negb_false_iff, bool_decide_eq_true in Er. rewrite Er. simpl.
    exists s. split; [done|]. split; [lia|]. unfold running, is_state. by rewrite Er.
Qed.

Lemma stop_loop_no_address (pre post : list (Z * Vrrp)) (w : VrrpVif) :
  vv_ips w = [] -> vv_join w = count_running (pre ++ post) -> (length (pre ++ post) <= 255)%nat ->
  Exists (fun kv => vr_state (snd kv) = MASTER) post -> ready_loop false pre post w = Throw AssertFailed.
Proof.
  revert pre w. induction post as [|[k v] post IH]; intros pre w Hi Hj Hl Hm; [by apply Exists_nil in Hm|].
  cbn [ready_loop]. unfold call. fold (call_state true pre v post w).
  pose proof (count_running_bound (pre ++ post)) as Hc. rewrite length_app in Hl, Hc. simpl in Hl.
  assert (vv_join w = count_running (pre ++ post) + (if running v then 1 else 0)) as Hj'.
  { rewrite Hj, !count_running_app. unfold count_running at 2. simpl. fold (count_running post). lia. }
  pose proof (stop_no_address (call_state true pre v post w)) as Hstop.
  cbn [call_state env vr e_ips e_others e_join] in Hstop. specialize (Hstop Hi ltac:(lia) Hj').
  destruct (is_state MASTER v) eqn:Em; [by rewrite Hstop|]. destruct Hstop as (s' & -> & Ej & Er). cbn [result_bind].
  rewrite IH; [done|done| | |].
  - simpl. rewrite Ej, <- app_assoc, !count_running_app. unfold count_running at 4. simpl. rewrite Er.
    fold (count_running post). lia.
  - rewrite <- app_assoc, length_app. simpl. lia.
  - apply Exists_cons in Hm as [Hm|Hm]; [|done]. unfold is_state in Em. by rewrite bool_decide_true in Em.
Qed.

(** When the interface loses its last enabled address while one of its
    virtual routers is master, the process aborts: the new, empty set of addresses
    is stored before the routers are stopped, and the farewell advertisement of the
    master asks for the address of the interface. *)
Theorem configure_no_address_aborts (w : VrrpVif) mac (l : list (IPv4 * bool)) : vif_inv w mac -> enabled_ips l = [] ->
  Exists (fun kv => vr_state (snd kv) = MASTER) (vv_vrrps w) ->
  vif_exec (EvConfigure (Addrs l)) w = Throw AssertFailed.
Proof.
  intros Hi Hl Hm. cbn [vif_exec configure]. fold (enabled_ips l). rewrite Hl. unfold set_ready. simpl.
  rewrite stop_loop_no_address; [done|done|by apply Hi|by apply (inv_count w mac)|done].
Qed.

(** An address that is deleted while the router is master stays on the interface:
    no later step of the router deletes it there. *)
Lemma deleted_address_stays ip s s1 s' : ipv4_wf ip -> Forall ipv4_wf (vr_ips (vr s)) -> e_same_name (env s) = true ->
  vr_state (vr s) = MASTER -> delete_ip ip s = Ok s1 -> become_backup s1 = Ok s' -> CDelIp ip ∉ out s ->
  vr_state (vr s') = BACKUP /\ CDelIp ip ∉ out s'.
Proof.
  intros Hw Hws Hn Em [= <-] Hb Ho. rewrite become_backup_eq in Hb by done. injection Hb as <-.
  split; [by cbn [vr]; rewrite (proj1 (state_timers_fields _ _))|]. simpl. rewrite not_elem_of_app. split; [done|].
  unfold backup_cmds. case_match; [|by apply not_elem_of_nil]. simpl. rewrite not_elem_of_cons. split; [done|].
  intros Hin. apply list_elem_of_fmap in Hin as (x & [= <-] & Hx). apply list_elem_of_filter in Hx as [Hx _].
  unfold ipv4_eqb in Hx. by rewrite Z.eqb_refl in Hx.
Qed.

(** [start] does not look at [_disable]: an interface that becomes ready starts a
    disabled router. *)
Lemma disabled_router_starts s : st_ok s -> vr_state (vr s) = INITIALIZE -> disable (vr s) = true ->
  e_ready (env s) = true -> exists s', start s = Ok s' /\ running (vr s') = true /\ disable (vr s') = true.
Proof.
  intros Hs Ei Hd Hr. pose proof Hs as [(Hb & _) (Hn & _ & _ & Ho & Hj)]. unfold start.
  assert (running (vr s) = false) as Ern by (unfold running, is_state; by rewrite Ei). rewrite Ern, Hr in *. cbn [negb].
  unfold join_mcast, assert. rewrite Hj. unfold u32_add. rewrite u32_small by (unfold is_u32; lia).
  destruct (Z.eqb_spec (e_others (env s) + 0 + 1) 0); [lia|]. cbn [negb result_bind].
  match goal with |- context [if ?b then emit CJoin ?x else ?y] => set (s1 := if b then emit CJoin x else y) end.
  assert (vr s1 = vr s) as Ev by (unfold s1; by case_match).
  assert (e_same_name (env s1) = true) as Hn1 by (unfold s1; by case_match).
  rewrite Ev. destruct (Z.eqb_spec (priority (vr s)) PRIORITY_OWN) as [E|_]; [destruct Hb; unfold PRIORITY_OWN in *; lia|].
  rewrite become_backup_eq by done. eexists. split; [done|]. simpl. rewrite Ev. done.
Qed.
End Departures.

(** ** Runs of an interface *)

(** The interfaces with these names that are reached by possible events, with the addresses
    that were added to the interface and not deleted again. *)
Inductive vif_run `{HostOrder} (ifname vifname : string) : VrrpVif -> (Mac -> bool) -> Prop :=
  | run_new : vif_run ifname vifname (vif_new ifname vifname) (fun _ => false)
  | run_step w mac e w' cs : vif_run ifname vifname w mac -> event_possible w e -> vif_exec e w = Ok (w', cs) ->
      vif_run ifname vifname w' (fun m => mac_after m cs (mac m)).

Section Runs.
Context `{HostOrder}.

Lemma new_inv name : vif_inv (vif_new name name) (fun _ => false).
Proof. by split; try (apply NoDup_nil_2 || intros ? ? Hin%elem_of_nil). Qed.

(** An event that returns is a valid one. *)
Lemma event_returns w mac e r : vif_inv w mac -> event_possible w e -> vif_exec e w = Ok r -> event_valid w e.
Proof.
  intros Hi He E. split; [done|]. intros Hl. destruct e as [[|l]| | | | | | |]; try done. destruct Hl as [Hl Hm].
  by rewrite (configure_no_address_aborts w mac l Hi Hl Hm) in E.
Qed.

Lemma run_inv name w mac : vif_run name name w mac -> vif_inv w mac.
Proof.
  induction 1 as [|w mac e w' cs _ IH He E]; [apply new_inv|].
  destruct (vif_exec_ok w mac e IH (event_returns _ _ _ _ IH He E)) as (w1 & cs1 & E1 & Hi). rewrite E in E1. by injection E1 as <- <-.
Qed.


(** The XRLs take any two names, and the templates pass those of the interface and of the
    vif: when they differ, a backup that becomes master aborts the process, since the
    virtual MAC address is a matter of the whole interface. *)
Lemma different_names_abort w k pre v post : vv_ifname w <> vv_vifname w ->
  find_vrid k [] (vv_vrrps w) = Some (pre, v, post) -> vr_state v = BACKUP -> vif_exec (EvMasterDown k) w = Throw AssertFailed.
Proof.
  intros Hn Hf Hs. cbn [vif_exec]. unfold on_vrid. rewrite Hf. unfold call, master_down_expiry, assert, is_state, set_vr.
  cbn [vr with_timers vr_state]. rewrite Hs, bool_decide_true by done. cbn [result_bind]. unfold become_master, vif_command, assert, e_same_name.
  cbn. by rewrite bool_decide_false by done.
Qed.
End Runs.

(** ** Concrete routers *)

(** A running virtual router 7 for 10.0.0.254 on an interface with address [a]. *)
Definition sample_router (x : vrrp_state) (a : IPv4) (p : Z) : St :=
  mkSt (mkEnv true 1 [a] "eth0" "eth0" 0 true)
    (mkVrrp ipv4_ZERO 7 p 1 (256 - p) (768 + (256 - p)) true [ip4 10 0 0 254] [] x
      (if bool_decide (x = BACKUP) then Some 3609 else None)
      (if bool_decide (x = MASTER) then Some 1000 else None) false packet_new) [].

Lemma sample_router_ok x a p : x <> INITIALIZE -> 1 <= p <= 254 -> st_ok (sample_router x a p).
Proof.
  intros Hx Hp. split; [split; [|split]|].
  - split; simpl; try lia; [repeat constructor; by_eval|apply packet_new_shape].
  - destruct x; [done|done|by split].
  - unfold intervals_ok. simpl. lia.
  - unfold env_ok. simpl. unfold running, is_state. simpl. rewrite bool_decide_false by done. simpl. repeat split; done || lia.
Qed.

(** The advertisement with priority [p] of that router. *)
Definition sample_header (p : Z) : list Z := adv_octets 7 p 1 [ip4 10 0 0 254].

Lemma sample_header_for p x a q : header_for (sample_header p) (vr (sample_router x a q)).
Proof.
  split; try done. intros k ip Hk. unfold sample_header. apply vh_ip_adv; [done|].
  destruct k as [|k]; [|done]. injection Hk as <-. by_eval.
Qed.

Definition sample_events : list vif_event :=
  [EvAddVrid 7; EvCommand 7 (AddIp (ip4 10 0 0 254)); EvConfigure (Addrs [(ip4 10 0 0 1, true)]); EvMasterDown 7].

Definition vif_next (w : VrrpVif) (e : vif_event) : VrrpVif :=
  match vif_exec e w with Ok (w', _) => w' | Throw _ => w end.
Definition sample_vif : VrrpVif := foldl vif_next (vif_new "eth0" "eth0") sample_events.

Lemma run_next name w mac e : vif_run name name w mac -> event_valid w e -> exists mac', vif_run name name (vif_next w e) mac'.
Proof.
  intros Hr He. destruct (vif_exec_ok w mac e (run_inv name w mac Hr) He) as (w' & cs & E & _).
  eexists. unfold vif_next. rewrite E. eapply run_step; [done|apply He|done].
Qed.

Lemma sample_vif_run : exists mac, vif_run "eth0" "eth0" sample_vif mac.
Proof.
  destruct (run_next _ _ _ (EvAddVrid 7) (run_new "eth0" "eth0")) as [m1 H1]; [by split; [|intros []]|].
  destruct (run_next _ _ _ (EvCommand 7 (AddIp (ip4 10 0 0 254))) H1) as [m2 H2].
  { split; [|by intros []]. intros v Hv. vm_compute in Hv. apply list_elem_of_singleton in Hv. injection Hv as ->. split; [by_eval|simpl; lia]. }
  destruct (run_next _ _ _ (EvConfigure (Addrs [(ip4 10 0 0 1, true)])) H2) as [m3 H3]; [split; [done|intros [E _]; vm_compute in E; discriminate E]|].
  destruct (run_next _ _ _ (EvMasterDown 7) H3) as [m4 H4]; [|by exists m4].
  split; [|by intros []]. eexists. split; [vm_compute; left|by eexists].
Qed.


(** A run of an interface whose vif has another name, up to the abort. *)
Lemma different_names_abort_witness : vif_exec (EvMasterDown 7) (foldl vif_next (vif_new "eth0" "eth0.1") (take 3 sample_events)) = Throw AssertFailed.
Proof. eapply different_names_abort; [vm_compute; discriminate|vm_compute; reflexivity|reflexivity]. Qed.

Lemma two_masters_elect_witness :
  let s1 := sample_router MASTER (ip4 10 0 0 1) 100 in
  let s2 := sample_router MASTER (ip4 10 0 0 2) 100 in
  exists d1 d2 t1 t2 h1 h2 u1 u2,
    send_advertisement 100 s1 = Ok t1 /\ out t1 = [adv_cmd (vr s1) d1]
    /\ send_advertisement 100 s2 = Ok t2 /\ out t2 = [adv_cmd (vr s2) d2]
    /\ vh_parse (vrrp_part d1) = Ok h1 /\ vh_parse (vrrp_part d2) = Ok h2
    /\ recv (ip4 10 0 0 2) h2 t1 = Ok u1 /\ recv (ip4 10 0 0 1) h1 t2 = Ok u2
    /\ vr_state (vr u1) = BACKUP /\ vr_state (vr u2) = MASTER.
Proof.
  intros s1 s2.
  destruct (two_masters_elect s1 s2 (ip4 10 0 0 1) (ip4 10 0 0 2))
    as (d1 & d2 & t1 & t2 & h1 & h2 & u1 & u2 & H1 & H2 & H3 & H4 & H5 & H6 & H7 & H8 & H9);
    [by apply sample_router_ok|by apply sample_router_ok|reflexivity..|by_eval|by_eval|by intros [=]|].
  assert (beaten (priority (vr s1)) (ip4 10 0 0 1) (priority (vr s2)) (ip4 10 0 0 2) = true) as Hb by (vm_compute; reflexivity).
  rewrite Hb in H9. by exists d1, d2, t1, t2, h1, h2, u1, u2.
Defined.

Lemma master_down_takes_over_witness :
  let s := sample_router BACKUP (ip4 10 0 0 1) 100 in
  exists s' d, master_down_expiry s = Ok s' /\ vr_state (vr s') = MASTER
    /\ carries d 7 100 1 [ip4 10 0 0 254]
    /\ out s' = [CAddMac (source_mac (vr s)); CAddIp (ip4 10 0 0 254) 24;
                 CSend (source_mac (vr s)) mcast_mac ETHERTYPE_IP d; arp_cmd (vr s) (ip4 10 0 0 254)]
    /\ master_down_timer (vr s') = None /\ adver_timer (vr s') = Some 1000
    /\ env s' = env s.
Proof.
  apply (master_down_takes_over (sample_router BACKUP (ip4 10 0 0 1) 100)); [by apply sample_router_ok|by eexists].
Defined.

Lemma backup_hears_witness :
  let s := sample_router BACKUP (ip4 10 0 0 1) 100 in
  exists s', recv (ip4 10 0 0 2) (sample_header 200) s = Ok s' /\ vr_state (vr s') = BACKUP /\ out s' = []
    /\ last_adv (vr s') = ip4 10 0 0 2 /\ adver_timer (vr s') = None /\ master_down_timer (vr s') = Some 3609.
Proof.
  apply (backup_hears (ip4 10 0 0 2) (sample_header 200) (sample_router BACKUP (ip4 10 0 0 1) 100));
    [by apply sample_router_ok|done|apply sample_header_for|vm_compute; split; discriminate].
Defined.

(** Priorities 200 and 50, set from the default: the same master-down interval. *)
Lemma set_priority_stale_skew_witness :
  let s := sample_router BACKUP (ip4 10 0 0 1) 100 in
  exists s1 s2, set_priority 200 s = Ok s1 /\ set_priority 50 s = Ok s2
    /\ skew_time (vr s1) = 56 /\ skew_time (vr s2) = 206
    /\ master_down_interval (vr s1) = 924 /\ master_down_interval (vr s2) = 924.
Proof.
  intros s. destruct (set_priority_stale_skew 200 s) as (s1 & E1 & _ & K1 & M1); [lia|].
  destruct (set_priority_stale_skew 50 s) as (s2 & E2 & _ & K2 & M2); [lia|].
  exists s1, s2. split; [exact E1|]. split; [exact E2|]. split; [exact K1|]. split; [exact K2|]. split; [exact M1|exact M2].
Defined.

Lemma configure_no_address_aborts_witness :
  vif_exec (EvConfigure (Addrs [(ip4 10 0 0 1, false)])) sample_vif = Throw AssertFailed.
Proof.
  destruct sample_vif_run as [mac Hr].
  apply (configure_no_address_aborts sample_vif mac [(ip4 10 0 0 1, false)]);
    [by apply (run_inv "eth0")|reflexivity|vm_compute; apply Exists_cons_hd; reflexivity].
Defined.
