(* ===== verification/Spt.v ===== *)
(** * Shortest path trees (libproto/spt.hh): data and operations

    A [NodeRef] is an address; [heap] holds the nodes, which are reference counted
    and therefore never dangling, and is never shrunk.  An address is an input of
    the operation that allocates a node, since the priority queue breaks ties by
    comparing addresses.  [Nodes] and [adjacency] are ordered maps, and the loops
    visit them in their order.  The arithmetic of [int] is exact or undefined. *)

From Stdlib Require Import ZArith Lia.
From stdpp Require Import base tactics option numbers gmap list.
From S2P Require Import Prelude OMap.
Local Open Scope Z_scope.
Local Open Scope xorp_scope.

Definition addr : Type := Z.

Definition int_add (a b : Z) : result xorp_exn Z :=
  if (- 2 ^ 31 <=? a + b) && (a + b <? 2 ^ 31) then Ok (a + b) else Throw IntOverflow.

(** [Node::path]; the length is meaningful when [p_valid]. *)
Record path := mkPath { p_valid : bool; first_hop : option addr; last_hop : option addr; path_length : Z }.

Definition path_new : path := mkPath false None None 0.
Definition path_clear (p : path) : path := mkPath (p_valid p) None None (path_length p).

(** An [Edge] is its destination and its weight. *)
Record Node (A : Type) := mkNode {
  n_valid : bool; nodename : A; adjacencies : list (A * (addr * Z)); tentative : bool;
  current : path; previous : path }.
Arguments mkNode {A} _ _ _ _ _ _.
Arguments n_valid {A} _.
Arguments nodename {A} _.
Arguments adjacencies {A} _.
Arguments tentative {A} _.
Arguments current {A} _.
Arguments previous {A} _.

Record Spt (A : Type) := mkSpt { heap : gmap addr (Node A); nodes : list (A * addr); origin : option addr }.
Arguments mkSpt {A} _ _ _.
Arguments heap {A} _.
Arguments nodes {A} _.
Arguments origin {A} _.

Inductive RouteCmd (A : Type) :=
  | ADD (node nexthop prevhop : A) (weight : Z)
  | DELETE (node : A)
  | REPLACE (node nexthop prevhop : A) (weight : Z) (next_hop_changed weight_changed : bool).
Arguments ADD {A} _ _ _ _.
Arguments DELETE {A} _.
Arguments REPLACE {A} _ _ _ _ _ _.

Section Node.
Context {A : Type} `{KeyOrder A}.
Implicit Types (n : Node A) (h : gmap addr (Node A)).

(** ** Node *)

Definition node_new (a : A) : Node A := mkNode true a [] false path_new path_new.

Definition set_valid (b : bool) n : Node A :=
  mkNode b (nodename n) (adjacencies n) (tentative n) (current n) (previous n).
Definition set_nodename (a : A) n : Node A :=
  mkNode (n_valid n) a (adjacencies n) (tentative n) (current n) (previous n).
Definition set_tentative (b : bool) n : Node A :=
  mkNode (n_valid n) (nodename n) (adjacencies n) b (current n) (previous n).
Definition set_adjacencies (l : list (A * (addr * Z))) n : Node A :=
  mkNode (n_valid n) (nodename n) l (tentative n) (current n) (previous n).
Definition set_current (p : path) n : Node A :=
  mkNode (n_valid n) (nodename n) (adjacencies n) (tentative n) p (previous n).
Definition set_previous (p : path) n : Node A :=
  mkNode (n_valid n) (nodename n) (adjacencies n) (tentative n) (current n) p.

Definition invalidate_weights n : Node A :=
  let c := current n in set_current (mkPath false (first_hop c) (last_hop c) (path_length c)) n.
Definition set_first_hop (f : option addr) n : Node A :=
  let c := current n in set_current (mkPath (p_valid c) f (last_hop c) (path_length c)) n.
Definition set_last_hop (l : option addr) n : Node A :=
  let c := current n in set_current (mkPath (p_valid c) (first_hop c) l (path_length c)) n.
Definition get_first_hop n : result xorp_exn (option addr) :=
  if p_valid (current n) then Ok (first_hop (current n)) else Throw AssertFailed.
Definition get_last_hop n : result xorp_exn (option addr) :=
  if p_valid (current n) then Ok (last_hop (current n)) else Throw AssertFailed.
Definition node_clear n : Node A :=
  mkNode (n_valid n) (nodename n) [] (tentative n) (path_clear (current n)) (path_clear (previous n)).

(** The destination of an edge is named by its node. *)
Definition node_add_edge (dst : addr) (name : A) (weight : Z) n : Node A * bool :=
  match m_find name (adjacencies n) with
  | Some _ => (n, false)
  | None => (set_adjacencies (m_insert name (dst, weight) (adjacencies n)) n, true)
  end.
Definition node_update_edge_weight (name : A) (weight : Z) n : Node A * bool :=
  match m_find name (adjacencies n) with
  | None => (n, false)
  | Some (dst, _) => (set_adjacencies (m_insert name (dst, weight) (adjacencies n)) n, true)
  end.
Definition node_get_edge_weight (name : A) n : option Z :=
  match m_find name (adjacencies n) with Some (_, w) => Some w | None => None end.
Definition node_remove_edge (name : A) n : Node A * bool :=
  match m_find name (adjacencies n) with
  | None => (n, false)
  | Some _ => (set_adjacencies (m_erase name (adjacencies n)) n, true)
  end.
Definition drop_adjacencies n : Node A := set_adjacencies [] n.

Definition set_local_weight (weight : Z) n : result xorp_exn (Node A * bool) :=
  if negb (tentative n) then Throw AssertFailed
  else
    let c := current n in
    let new := set_current (mkPath true (first_hop c) (last_hop c) weight) n in
    if negb (p_valid c) then Ok (new, true)
    else if weight <? path_length c then Ok (new, true)
    else Ok (n, false).

Definition get_local_weight n : result xorp_exn Z :=
  if negb (n_valid n) then Throw AssertFailed
  else if negb (tentative n) then Throw AssertFailed
  else if negb (p_valid (current n)) then Throw AssertFailed
  else Ok (path_length (current n)).

Definition deref h (a : addr) : result xorp_exn (Node A) :=
  match h !! a with Some n => Ok n | None => Throw OutOfBounds end.
Definition deref_opt h (a : option addr) : result xorp_exn (Node A) :=
  match a with Some a => deref h a | None => Throw OutOfBounds end.

(** ** PriorityQueue *)

(** [lweight] *)
Definition less h (a b : addr) : result xorp_exn bool :=
  na <-! deref h a ;; aw <-! get_local_weight na ;;
  nb <-! deref h b ;; bw <-! get_local_weight nb ;;
  Ok (if aw =? bw then a <? b else aw <? bw).

(** The elements before [lower_bound(a)] and the others. *)
Fixpoint lower_bound h (a : addr) (q : list addr) : result xorp_exn (list addr * list addr) :=
  match q with
  | [] => Ok ([], [])
  | x :: q' =>
      b <-! less h x a ;;
      if b then r <-! lower_bound h a q' ;; Ok (x :: fst r, snd r) else Ok ([], q)
  end.

(** [set::find] and the loop that erases the node from there on. *)
Fixpoint erase_first (a : addr) (q : list addr) : list addr :=
  match q with [] => [] | x :: q => if x =? a then q else x :: erase_first a q end.
Definition queue_erase h (a : addr) (q : list addr) : result xorp_exn (list addr) :=
  r <-! lower_bound h a q ;;
  match snd r with
  | [] => Ok q
  | x :: _ => b <-! less h a x ;; Ok (if b then q else fst r ++ erase_first a (snd r))
  end.
Definition queue_insert h (a : addr) (q : list addr) : result xorp_exn (list addr) :=
  r <-! lower_bound h a q ;;
  match snd r with
  | [] => Ok (fst r ++ [a])
  | x :: _ => b <-! less h a x ;; Ok (if b then fst r ++ a :: snd r else q)
  end.

Definition queue_add h (q : list addr) (a : addr) (weight : Z)
  : result xorp_exn (gmap addr (Node A) * list addr * bool) :=
  n <-! deref h a ;;
  q <-! (if p_valid (current n) then queue_erase h a q else Ok q) ;;
  r <-! set_local_weight weight n ;;
  let h := <[a := fst r]> h in
  q <-! queue_insert h a q ;;
  Ok (h, q, snd r).

(** [set_adjacent_weights]: the loop over the edges of [me]. *)
Fixpoint set_adjacent_weights (me : addr) (delta_weight : Z) (edges : list (A * (addr * Z))) h (q : list addr)
  : result xorp_exn (gmap addr (Node A) * list addr) :=
  match edges with
  | [] => Ok (h, q)
  | (_, (a, w)) :: edges =>
      n <-! deref h a ;;
      if n_valid n && tentative n then
        weight <-! int_add delta_weight w ;;
        r <-! queue_add h q a weight ;;
        let '(h, q, accepted) := r in
        n <-! deref h a ;;
        let h := if accepted then <[a := set_last_hop (Some me) n]> h else h in
        set_adjacent_weights me delta_weight edges h q
      else set_adjacent_weights me delta_weight edges h q
  end.

(** ** Dijkstra *)

Definition on_node (f : Node A -> Node A) h (a : addr) : gmap addr (Node A) := alter f a h.

Definition init_dijkstra n : Node A := invalidate_weights (set_tentative true n).

(** The loop: [cur] is permanent, at distance [weight]. *)
Fixpoint dijkstra_loop (fuel : nat) (o cur : addr) (weight : Z) h (q : list addr) : result xorp_exn (gmap addr (Node A)) :=
  match fuel with
  | O => Throw Fatal
  | S fuel =>
      c <-! deref h cur ;;
      r <-! set_adjacent_weights cur weight (adjacencies c) h q ;;
      match snd r with
      | [] => Ok (fst r)
      | cur :: q =>
          let h := fst r in
          c <-! deref h cur ;;
          weight <-! get_local_weight c ;;
          let c := set_tentative false c in
          prev <-! get_last_hop c ;;
          f <-! (if bool_decide (prev = Some o) then Ok (Some cur)
                 else p <-! deref_opt (<[cur := c]> h) prev ;; get_first_hop p) ;;
          dijkstra_loop fuel o cur weight (<[cur := set_first_hop f c]> h) q
      end
  end.
End Node.

Section Spt.
Context {A : Type} `{KeyOrder A}.
Implicit Types (s : Spt A) (n : Node A) (h : gmap addr (Node A)).

Definition spt_new : Spt A := mkSpt ∅ [] None.

Definition with_heap h s : Spt A := mkSpt h (nodes s) (origin s).
Definition find_node (a : A) s : option addr := m_find a (nodes s).

(** ** The graph *)

Definition set_origin (a : A) s : Spt A * bool :=
  match find_node a s with
  | None => (s, false)
  | Some x => (mkSpt (heap s) (nodes s) (Some x), true)
  end.

(** [p] is the address of the node, when one is allocated. *)
Definition add_node (a : A) (p : addr) s : result xorp_exn (Spt A * bool) :=
  match find_node a s with
  | Some x =>
      n <-! deref (heap s) x ;;
      if n_valid n then Ok (s, false)
      else Ok (with_heap (<[x := set_valid true (drop_adjacencies n)]> (heap s)) s, true)
  | None => Ok (mkSpt (<[p := node_new a]> (heap s)) (m_insert a p (nodes s)) (origin s), true)
  end.

Definition update_node (a : A) s : result xorp_exn (Spt A * bool) :=
  match find_node a s with
  | None => Ok (s, false)
  | Some x =>
      n <-! deref (heap s) x ;;
      if n_valid n then Ok (with_heap (<[x := set_nodename a n]> (heap s)) s, true) else Ok (s, false)
  end.

Definition remove_node (a : A) s : result xorp_exn (Spt A * bool) :=
  match find_node a s with
  | None => Ok (s, false)
  | Some x =>
      n <-! deref (heap s) x ;;
      if n_valid n then Ok (with_heap (<[x := set_valid false n]> (heap s)) s, true) else Ok (s, false)
  end.

Definition exists_node (a : A) s : bool := match find_node a s with Some _ => true | None => false end.

Definition add_edge (src : A) (weight : Z) (dst : A) (p : addr) s : result xorp_exn (Spt A * bool) :=
  match find_node src s with
  | None => Ok (s, false)
  | Some x =>
      r <-! (match find_node dst s with None => add_node dst p s | Some _ => Ok (s, true) end) ;;
      if negb (snd r) then Ok (fst r, false)
      else
        let s := fst r in
        match find_node dst s with
        | None => Ok (s, false)
        | Some y =>
            n <-! deref (heap s) x ;;
            d <-! deref (heap s) y ;;
            let '(n, ok) := node_add_edge y (nodename d) weight n in
            Ok (with_heap (<[x := n]> (heap s)) s, ok)
        end
  end.

(** An operation on the edge from [src] to [dst]. *)
Definition on_edge (src dst : A) (f : A -> Node A -> Node A * bool) s : result xorp_exn (Spt A * bool) :=
  match find_node src s, find_node dst s with
  | Some x, Some y =>
      n <-! deref (heap s) x ;;
      d <-! deref (heap s) y ;;
      let '(n, ok) := f (nodename d) n in
      Ok (with_heap (<[x := n]> (heap s)) s, ok)
  | _, _ => Ok (s, false)
  end.
Definition update_edge_weight (src : A) (weight : Z) (dst : A) s : result xorp_exn (Spt A * bool) :=
  on_edge src dst (fun name => node_update_edge_weight name weight) s.
Definition remove_edge (src dst : A) s : result xorp_exn (Spt A * bool) := on_edge src dst node_remove_edge s.
Definition get_edge_weight (src dst : A) s : result xorp_exn (option Z) :=
  match find_node src s, find_node dst s with
  | Some x, Some y =>
      n <-! deref (heap s) x ;;
      d <-! deref (heap s) y ;;
      Ok (node_get_edge_weight (nodename d) n)
  | _, _ => Ok None
  end.

(** ** The computation *)

Definition dijkstra s : result xorp_exn (Spt A * bool) :=
  match origin s with
  | None => Ok (s, false)
  | Some o =>
      let h := foldl (on_node init_dijkstra) (heap s) (map snd (nodes s)) in
      let h := on_node (set_tentative false) h o in
      h <-! dijkstra_loop (S (length (nodes s))) o o 0 h [] ;;
      Ok (with_heap h s, true)
  end.

Definition name_of h (a : option addr) : result xorp_exn A := n <-! deref_opt h a ;; Ok (nodename n).

(** [Node::delta]: the node afterwards and the command. *)
Definition delta h n : result xorp_exn (Node A * option (RouteCmd A)) :=
  if negb (n_valid n) then Ok (n, Some (DELETE (nodename n)))
  else
    let c := current n in
    let p := previous n in
    let n' := set_previous c n in
    if negb (p_valid c) then
      Ok (n', if p_valid p then Some (DELETE (nodename n)) else None)
    else if negb (p_valid p) then
      f <-! name_of h (first_hop c) ;;
      l <-! name_of h (last_hop c) ;;
      Ok (n', Some (ADD (nodename n) f l (path_length c)))
    else if bool_decide (first_hop c = first_hop p) && (path_length c =? path_length p) then Ok (n', None)
    else
      f <-! name_of h (first_hop c) ;;
      l <-! name_of h (last_hop c) ;;
      Ok (n', Some (REPLACE (nodename n) f l (path_length c)
                      (negb (bool_decide (first_hop c = first_hop p))) (negb (path_length c =? path_length p)))).

Fixpoint delta_loop (o : option addr) (ns : list (A * addr)) h : result xorp_exn (gmap addr (Node A) * list (RouteCmd A)) :=
  match ns with
  | [] => Ok (h, [])
  | (_, x) :: ns =>
      if bool_decide (Some x = o) then delta_loop o ns h
      else
        n <-! deref h x ;;
        r <-! delta h n ;;
        t <-! delta_loop o ns (<[x := fst r]> h) ;;
        Ok (fst t, option_list (snd r) ++ snd t)
  end.

(** [Node::garbage_collect]: the edges of a node that point at removed nodes. *)
Fixpoint gc_edges h (edges : list (A * (addr * Z))) : result xorp_exn (gmap addr (Node A) * list (A * (addr * Z))) :=
  match edges with
  | [] => Ok (h, [])
  | (a, (d, w)) :: edges =>
      n <-! deref h d ;;
      if n_valid n then r <-! gc_edges h edges ;; Ok (fst r, (a, (d, w)) :: snd r)
      else gc_edges (<[d := node_clear n]> h) edges
  end.
Fixpoint gc_nodes h (ns : list (A * addr)) : result xorp_exn (gmap addr (Node A)) :=
  match ns with
  | [] => Ok h
  | (_, x) :: ns =>
      n <-! deref h x ;;
      r <-! gc_edges h (adjacencies n) ;;
      n <-! deref (fst r) x ;;
      gc_nodes (<[x := set_adjacencies (snd r) n]> (fst r)) ns
  end.
Fixpoint valid_nodes h (ns : list (A * addr)) : result xorp_exn (list (A * addr)) :=
  match ns with
  | [] => Ok []
  | (a, x) :: ns =>
      n <-! deref h x ;;
      r <-! valid_nodes h ns ;;
      Ok (if n_valid n then (a, x) :: r else r)
  end.
Definition garbage_collect s : result xorp_exn (Spt A) :=
  ns <-! valid_nodes (heap s) (nodes s) ;;
  h <-! gc_nodes (heap s) ns ;;
  Ok (mkSpt h ns (origin s)).

Definition compute s : result xorp_exn (Spt A * bool * list (RouteCmd A)) :=
  r <-! dijkstra s ;;
  let s := fst r in
  if negb (snd r) then Ok (s, false, [])
  else
    t <-! delta_loop (origin s) (nodes s) (heap s) ;;
    s <-! garbage_collect (with_heap (fst t) s) ;;
    Ok (s, true, snd t).
End Spt.
