(* ===== verification/SptProps.v ===== *)
(** * Dijkstra's algorithm (libproto/spt.hh)

    [dijkstra] computes shortest paths: the invariant of its loop, with the queue
    sorted by weight and address, the permanent nodes at their final distances and
    their edges relaxed. *)

From Stdlib Require Import ZArith Lia Sorted.
From stdpp Require Import base tactics option numbers gmap list.
From S2P Require Import Prelude OMap Spt.
Local Open Scope Z_scope.

(** ** The priority queue *)

Section Queue.
Context {A : Type} `{KeyOrder A}.
Implicit Types (n : Node A) (h : gmap addr (Node A)) (a b x : addr) (q : list addr).

(** A node that may be compared: its weight. *)
Definition weight_of n : option Z :=
  if n_valid n && tentative n && p_valid (current n) then Some (path_length (current n)) else None.
Definition wt h a : option Z := h !! a ≫= weight_of.

Definition before h a b : Prop :=
  exists v w, wt h a = Some v /\ wt h b = Some w /\ (v < w \/ v = w /\ a < b).

Lemma wt_spec h a w : wt h a = Some w <-> exists n, h !! a = Some n /\ n_valid n = true /\ tentative n = true
  /\ p_valid (current n) = true /\ path_length (current n) = w.
Proof.
  unfold wt, weight_of. destruct (h !! a) as [n|]; simpl; [|split; [done|by intros (? & ? & _)]].
  destruct (n_valid n) eqn:E1, (tentative n) eqn:E2, (p_valid (current n)) eqn:E3; simpl;
    (split; [intros [= <-]; eauto 10|intros (m & [= <-] & ? & ? & ? & <-); congruence]).
Qed.

Lemma get_weight h a w : wt h a = Some w -> exists n, h !! a = Some n /\ get_local_weight n = Ok w.
Proof.
  intros (n & E & E1 & E2 & E3 & E4)%wt_spec. exists n. split; [done|]. unfold get_local_weight. by rewrite E1, E2, E3, E4.
Qed.

Lemma less_spec h a b v w : wt h a = Some v -> wt h b = Some w ->
  exists t : bool, less h a b = Ok t /\ (t = true <-> before h a b).
Proof.
  intros Ha Hb. destruct (get_weight h a v Ha) as (na & Ea & Ga). destruct (get_weight h b w Hb) as (nb & Eb & Gb).
  unfold less, deref. rewrite Ea. cbn [result_bind]. rewrite Ga. cbn [result_bind]. rewrite Eb. cbn [result_bind].
  rewrite Gb. cbn [result_bind]. eexists. split; [done|]. unfold before. rewrite Ha, Hb.
  destruct (Z.eqb_spec v w) as [->|Hne]; rewrite Z.ltb_lt; split.
  - intros Hlt. exists w, w. auto.
  - intros (v' & w' & [= <-] & [= <-] & [?|[_ ?]]); [lia|done].
  - intros Hlt. exists v, w. auto.
  - intros (v' & w' & [= <-] & [= <-] & [?|[? _]]); [done|lia].
Qed.

Lemma before_trans h a b c : before h a b -> before h b c -> before h a c.
Proof.
  intros (v & w & Ea & Eb & Hab) (w' & u & Eb' & Ec & Hbc). rewrite Eb in Eb'. injection Eb' as <-.
  exists v, u. split; [done|]. split; [done|]. lia.
Qed.
Lemma before_irrefl h a : ~ before h a a.
Proof. intros (v & w & Ea & Eb & Hab). rewrite Ea in Eb. injection Eb as <-. lia. Qed.
Lemma before_total h a b v w : wt h a = Some v -> wt h b = Some w -> a <> b -> ~ before h a b -> before h b a.
Proof.
  intros Ha Hb Hne Hn. exists w, v. split; [done|]. split; [done|].
  destruct (Z.lt_trichotomy v w) as [Hlt|[Heq|Hlt]]; [destruct Hn; exists v, w; auto| |auto].
  destruct (Z.lt_trichotomy a b) as [Hl|[->|Hl]]; [destruct Hn; exists v, w; auto|done|auto].
Qed.

Record queue_ok h q : Prop := {
  qo_sorted : StronglySorted (before h) q;
  qo_good : forall x, x ∈ q -> is_Some (wt h x) }.

Lemma queue_nil h : queue_ok h [].
Proof. split; [constructor|by intros x ?%elem_of_nil]. Qed.

Lemma queue_cons h x q : queue_ok h (x :: q) <-> is_Some (wt h x) /\ queue_ok h q /\ forall y, y ∈ q -> before h x y.
Proof.
  split.
  - intros [Hs Hg]. apply StronglySorted_inv in Hs as [Hs Hf]. rewrite Forall_forall in Hf.
    split; [apply Hg; left|]. split; [|done]. split; [done|]. intros y Hy. apply Hg. by right.
  - intros (Hx & [Hs Hg] & Hf). split; [constructor; [done|by apply Forall_forall]|].
    intros y [->|Hy]%elem_of_cons; auto.
Qed.

Lemma queue_app h p q : queue_ok h (p ++ q) <->
  queue_ok h p /\ queue_ok h q /\ forall x y, x ∈ p -> y ∈ q -> before h x y.
Proof.
  induction p as [|x p IH]; simpl.
  - split; [intros Hq; split; [apply queue_nil|split; [done|by intros x y ?%elem_of_nil]]|by intros (_ & ? & _)].
  - rewrite !queue_cons, IH. split.
    + intros (Hx & (Hp & Hq & Hpq) & Hb). split; [split; [done|split; [done|]]|split; [done|]].
      * intros y Hy. apply Hb, elem_of_app. by left.
      * intros a b [->|Ha]%elem_of_cons Hy; [|by apply Hpq]. apply Hb, elem_of_app. by right.
    + intros ((Hx & Hp & Hb) & Hq & Hpq). split; [done|]. split.
      * split; [done|]. split; [done|]. intros a b Ha Hb'. apply Hpq; [by right|done].
      * intros y [Hy|Hy]%elem_of_app; [by apply Hb|]. apply Hpq; [by left|done].
Qed.

Lemma queue_NoDup h q : queue_ok h q -> NoDup q.
Proof.
  induction q as [|x q IH]; intros Hq; [constructor|]. apply queue_cons in Hq as (_ & Hq & Hb).
  apply NoDup_cons. split; [|by apply IH]. intros Hx. by apply (before_irrefl h x), Hb.
Qed.

Lemma lower_bound_spec h a q v : queue_ok h q -> wt h a = Some v ->
  exists l1 l2, lower_bound h a q = Ok (l1, l2) /\ q = l1 ++ l2
    /\ (forall x, x ∈ l1 -> before h x a) /\ (forall x, x ∈ l2 -> ~ before h x a).
Proof.
  intros Hq Ha. induction q as [|x q IH]; cbn [lower_bound].
  { exists [], []. split; [done|]. split; [done|]. split; by intros x ?%elem_of_nil. }
  apply queue_cons in Hq as ([u Hx] & Hq & Hb). destruct (less_spec h x a u v Hx Ha) as (t & -> & Ht). cbn [result_bind].
  destruct t.
  - destruct (IH Hq) as (l1 & l2 & -> & -> & H1 & H2). cbn [result_bind fst snd].
    exists (x :: l1), l2. split; [done|]. split; [done|]. split; [|done].
    intros y [->|Hy]%elem_of_cons; [by apply Ht|by apply H1].
  - assert (~ before h x a) as Hn by (intros Hxa; apply Ht in Hxa; done).
    exists [], (x :: q). split; [done|]. split; [done|]. split; [by intros y ?%elem_of_nil|].
    intros y [->|Hy]%elem_of_cons; [done|]. intros Hya. apply Hn. eapply before_trans; [by apply Hb|done].
Qed.

Lemma queue_erase_ok h a q : queue_ok h q -> a ∈ q ->
  exists l1 l2, queue_erase h a q = Ok (l1 ++ l2) /\ q = l1 ++ a :: l2.
Proof.
  intros Hq Ha. destruct (qo_good _ _ Hq a Ha) as [v Hv]. unfold queue_erase.
  destruct (lower_bound_spec h a q v Hq Hv) as (l1 & l2 & -> & -> & H1 & H2). cbn [result_bind fst snd].
  apply queue_app in Hq as (_ & Hq2 & _). apply elem_of_app in Ha as [Ha|Ha]; [by destruct (before_irrefl h a (H1 a Ha))|].
  destruct l2 as [|x l2]; [by apply elem_of_nil in Ha|]. apply queue_cons in Hq2 as (_ & _ & Hb).
  assert (x = a) as ->.
  { apply elem_of_cons in Ha as [->|Ha]; [done|]. destruct (H2 x); [left|by apply Hb]. }
  destruct (less_spec h a a v v Hv Hv) as (t & -> & Ht). cbn [result_bind].
  assert (t = false) as ->. { destruct t; [|done]. destruct (before_irrefl h a). by apply Ht. }
  exists l1, l2. simpl. by rewrite Z.eqb_refl.
Qed.

Lemma queue_insert_ok h a q v : queue_ok h q -> wt h a = Some v -> a ∉ q ->
  exists q', queue_insert h a q = Ok q' /\ queue_ok h q' /\ forall x, x ∈ q' <-> x = a \/ x ∈ q.
Proof.
  intros Hq Hv Ha. unfold queue_insert.
  destruct (lower_bound_spec h a q v Hq Hv) as (l1 & l2 & -> & -> & H1 & H2). cbn [result_bind fst snd].
  pose proof Hq as (Hq1 & Hq2 & Hq12)%queue_app. rewrite not_elem_of_app in Ha.
  assert (forall x, x ∈ l2 -> before h a x) as Hb.
  { intros x Hx. destruct (qo_good _ _ Hq2 x Hx) as [u Hu].
    apply (before_total h x a u v); [done|done| |by apply H2]. intros ->. tauto. }
  assert (queue_ok h (l1 ++ a :: l2)) as Hok.
  { apply queue_app. split; [done|]. split; [apply queue_cons; by split; [exists v|]|].
    intros x y Hx [->|Hy]%elem_of_cons; [by apply H1|by apply Hq12]. }
  destruct l2 as [|x l2].
  - exists (l1 ++ [a]). split; [done|]. split; [done|]. intros y. rewrite app_nil_r, elem_of_app, list_elem_of_singleton. tauto.
  - destruct (qo_good _ _ Hq2 x) as [u Hu]; [left|]. destruct (less_spec h a x v u Hv Hu) as (t & -> & Ht). cbn [result_bind].
    assert (t = true) as -> by (apply Ht, Hb; left).
    exists (l1 ++ a :: x :: l2). split; [done|]. split; [done|]. intros y. rewrite !elem_of_app, !elem_of_cons. tauto.
Qed.

(** The queue depends only on the weights of its elements. *)
Lemma queue_same h h' q : (forall x, x ∈ q -> wt h' x = wt h x) -> queue_ok h q -> queue_ok h' q.
Proof.
  intros Hw Hq. induction q as [|x q IH]; [apply queue_nil|].
  apply queue_cons in Hq as (Hx & Hq & Hb). apply queue_cons. split; [by rewrite Hw by left|].
  split; [apply IH; [|done]; intros y Hy; apply Hw; by right|]. intros y Hy.
  destruct (Hb y Hy) as (v & w & Ev & Ew & Hlt). exists v, w. rewrite !Hw by (by left || by right). auto.
Qed.

(** [PriorityQueue::add] of a tentative node that is in the queue exactly when it
    has a weight. *)
Lemma queue_add_ok h q a n w : queue_ok h q -> h !! a = Some n -> n_valid n = true -> tentative n = true ->
  (a ∈ q <-> p_valid (current n) = true) ->
  exists n' q', queue_add h q a w = Ok (<[a := n']> h, q', negb (p_valid (current n)) || (w <? path_length (current n)))
    /\ n' = (if negb (p_valid (current n)) || (w <? path_length (current n))
             then set_current (mkPath true (first_hop (current n)) (last_hop (current n)) w) n else n)
    /\ queue_ok (<[a := n']> h) q' /\ forall x, x ∈ q' <-> x = a \/ x ∈ q.
Proof.
  intros Hq Ea Hv Ht Hin. unfold queue_add, deref. rewrite Ea. cbn [result_bind].
  assert (exists q0, (if p_valid (current n) then queue_erase h a q else Ok q) = Ok q0 /\ queue_ok h q0
            /\ (a ∉ q0) /\ forall x, x ∈ q0 <-> x <> a /\ x ∈ q) as (q0 & -> & Hq0 & Ha0 & Hel).
  { destruct (p_valid (current n)).
    - destruct (queue_erase_ok h a q Hq) as (l1 & l2 & -> & ->); [by apply Hin|].
      pose proof (queue_NoDup _ _ Hq) as Hnd. apply NoDup_app in Hnd as (Hn1 & Hn12 & Hn2). apply NoDup_cons in Hn2 as [Hn2 _].
      apply queue_app in Hq as (Hq1 & (_ & Hq2 & _)%queue_cons & Hq12).
      assert (a ∉ l1) as Hal1 by (intros Hx; apply (Hn12 a Hx); left).
      exists (l1 ++ l2). split; [done|]. split; [apply queue_app; split; [done|]; split; [done|]; intros x y Hx Hy; apply Hq12; [done|by right]|].
      split; [rewrite not_elem_of_app; done|]. intros x. rewrite !elem_of_app, elem_of_cons. split; [|tauto].
      intros Hx. split; [|tauto]. intros ->. tauto.
    - exists q. split; [done|]. split; [done|]. assert (a ∉ q) as Hnq by (intros ?%Hin; done). split; [done|].
      intros x. split; [|tauto]. intros Hx. split; [|done]. by intros ->. }
  cbn [result_bind]. unfold set_local_weight. rewrite Ht. cbn [negb].
  set (acc := negb (p_valid (current n)) || (w <? path_length (current n))).
  set (n' := if acc then set_current (mkPath true (first_hop (current n)) (last_hop (current n)) w) n else n).
  assert ((if negb (p_valid (current n)) then Ok (set_current (mkPath true (first_hop (current n)) (last_hop (current n)) w) n, true)
           else if w <? path_length (current n) then Ok (set_current (mkPath true (first_hop (current n)) (last_hop (current n)) w) n, true)
           else Ok (n, false)) = Ok (E := xorp_exn) (n', acc)) as ->.
  { unfold n', acc. destruct (negb _); [done|]. by destruct (_ <? _). }
  cbn [result_bind fst snd].
  assert (exists u, wt (<[a := n']> h) a = Some u) as [u Hu].
  { exists (path_length (current n')). apply wt_spec. exists n'. rewrite lookup_insert, decide_True by done.
    split; [done|]. unfold n', acc. destruct (p_valid (current n)) eqn:Ep; simpl; [destruct (_ <? _)|]; simpl; auto. }
  destruct (queue_insert_ok (<[a := n']> h) a q0 u) as (q' & -> & Hq' & Hel').
  { apply (queue_same h); [|done]. intros x Hx. unfold wt. rewrite lookup_insert_ne; [done|]. by intros ->. }
  { done. } { done. }
  cbn [result_bind]. exists n', q'. split; [done|]. split; [done|]. split; [done|].
  intros x. rewrite Hel', Hel. destruct (decide (x = a)); tauto.
Qed.
End Queue.

(** ** Paths *)

Section Paths.
Context {A : Type} `{KeyOrder A}.
Implicit Types (n : Node A) (h : gmap addr (Node A)) (a b : addr).

(** An edge to a node that is not removed. *)
Definition arc h a b (w : Z) : Prop :=
  exists n k m, h !! a = Some n /\ (k, (b, w)) ∈ adjacencies n /\ h !! b = Some m /\ n_valid m = true.

(** The walks from the origin, with their lengths. *)
Inductive walk h (o : addr) : addr -> Z -> Prop :=
  | walk_nil : walk h o o 0
  | walk_snoc a c b w : walk h o a c -> arc h a b w -> walk h o b (c + w).

(** The walks that leave the origin once, with the node they go to first. *)
Inductive route h (o : addr) : addr -> addr -> Z -> Prop :=
  | route_one b w : arc h o b w -> route h o b b w
  | route_snoc a f c b w : route h o a f c -> a <> o -> arc h a b w -> route h o b f (c + w).

Lemma route_walk h o a f c : route h o a f c -> walk h o a c.
Proof.
  induction 1 as [b w Hb|a f c b w _ IH _ Hb]; [|by eapply walk_snoc].
  replace w with (0 + w) by lia. eapply walk_snoc; [constructor|done].
Qed.

(** What the computation leaves alone. *)
Definition static n := (n_valid n, nodename n, adjacencies n, previous n).
Definition same_graph h h' : Prop := forall a, static <$> h !! a = static <$> h' !! a.

Lemma same_graph_node h h' a n : same_graph h h' -> h' !! a = Some n -> exists m, h !! a = Some m /\ static m = static n.
Proof. intros Hg E. specialize (Hg a). rewrite E in Hg. destruct (h !! a) as [m|]; [|done]. injection Hg as Hg. exists m. split; [done|]. unfold static. congruence. Qed.

Lemma same_graph_sym h h' : same_graph h h' -> same_graph h' h.
Proof. intros Hg a. by rewrite Hg. Qed.
Lemma same_graph_trans h1 h2 h3 : same_graph h1 h2 -> same_graph h2 h3 -> same_graph h1 h3.
Proof. intros H1 H2 a. by rewrite H1, H2. Qed.

Lemma same_graph_insert h a n n' : h !! a = Some n -> static n' = static n -> same_graph h (<[a := n']> h).
Proof.
  intros E Hs b. rewrite lookup_insert. case_decide as Hd; [|done]. subst. rewrite E. simpl. by rewrite Hs.
Qed.

Lemma static_fields n n' : static n = static n' ->
  n_valid n = n_valid n' /\ nodename n = nodename n' /\ adjacencies n = adjacencies n' /\ previous n = previous n'.
Proof. by intros [= -> -> -> ->]. Qed.

Lemma arc_same h h' a b w : same_graph h h' -> arc h a b w -> arc h' a b w.
Proof.
  intros Hg (n & k & m & E1 & Hin & E2 & Hv). apply same_graph_sym in Hg.
  destruct (same_graph_node _ _ _ _ Hg E1) as (n' & E1' & Hs1). destruct (same_graph_node _ _ _ _ Hg E2) as (m' & E2' & Hs2).
  apply static_fields in Hs1 as (_ & _ & Ha & _), Hs2 as (Hv' & _). exists n', k, m'. rewrite Ha, Hv'. auto.
Qed.

Lemma walk_same h h' o a c : same_graph h h' -> walk h o a c -> walk h' o a c.
Proof. intros Hg. induction 1; [constructor|]. eapply walk_snoc; [done|by eapply arc_same]. Qed.
Lemma route_same h h' o a f c : same_graph h h' -> route h o a f c -> route h' o a f c.
Proof. intros Hg. induction 1; [constructor|eapply route_snoc; try done]; by eapply arc_same. Qed.
End Paths.

(** ** The loop of [dijkstra] *)

Section Loop.
Context {A : Type} `{KeyOrder A}.
Context (h0 : gmap addr (Node A)) (V : list addr) (o : addr) (W : Z).
Implicit Types (n : Node A) (h : gmap addr (Node A)) (a b p x cur : addr) (q : list addr).

(** The edges of the nodes in [V] stay in [V], with weights in [[0, W]], and the
    sum of [W] over a path does not overflow. *)
Record graph_ok : Prop := {
  go_dup : NoDup V;
  go_origin : o ∈ V;
  go_max : 0 <= W;
  go_int : W * Z.of_nat (length V) < 2 ^ 31;
  go_edges : forall a, a ∈ V -> exists n, h0 !! a = Some n
    /\ forall k b w, (k, (b, w)) ∈ adjacencies n -> b ∈ V /\ 0 <= w <= W }.

Definition tent h a : bool := match h !! a with Some n => tentative n | None => false end.
Definition n_tent h : nat := length (filter (fun a => tent h a = true) V).

(** The distance of a node that has one. *)
Definition dist h a (c : Z) : Prop :=
  (a = o /\ c = 0) \/ (a <> o /\ exists n, h !! a = Some n /\ p_valid (current n) = true /\ path_length (current n) = c).

(** [cur] is the last permanent node, at distance [d], and [rest] its edges that
    are not relaxed yet. *)
Record loop_inv h q cur (d : Z) (rest : list (A * (addr * Z))) : Prop := {
  iv_graph : same_graph h0 h;
  iv_queue : queue_ok h q;
  iv_elems : forall a, a ∈ q <-> a ∈ V /\ is_Some (wt h a);
  iv_origin : tent h o = false;
  iv_perm : forall a n, a ∈ V -> a <> o -> h !! a = Some n -> tentative n = false ->
    p_valid (current n) = true
    /\ exists f, first_hop (current n) = Some f /\ route h0 o a f (path_length (current n));
  iv_label : forall a n, a ∈ V -> a <> o -> h !! a = Some n -> p_valid (current n) = true ->
    n_valid n = true /\ exists p c w, last_hop (current n) = Some p /\ p ∈ V /\ tent h p = false /\ dist h p c
      /\ arc h0 p a w /\ path_length (current n) = c + w;
  iv_cur : cur ∈ V /\ tent h cur = false /\ dist h cur d;
  iv_mono : forall a c, a ∈ V -> tent h a = false -> dist h a c -> 0 <= c <= d;
  iv_ahead : forall a w, a ∈ q -> wt h a = Some w -> d <= w;
  iv_relaxed : forall p b w c, p ∈ V -> tent h p = false -> arc h0 p b w -> dist h p c ->
    (p = cur /\ exists k, (k, (b, w)) ∈ rest) \/ exists c', dist h b c' /\ c' <= c + w;
  iv_bound : d + W * (1 + Z.of_nat (n_tent h)) <= W * Z.of_nat (length V) }.

Context (Hgraph : graph_ok).

Lemma dist_unique h a c c' : dist h a c -> dist h a c' -> c = c'.
Proof. intros [[-> ->]|[? (n & E & _ & <-)]] [[? ->]|[? (n' & E' & _ & <-)]]; done || congruence. Qed.

Lemma wt_dist h a w : a <> o -> wt h a = Some w -> dist h a w.
Proof. intros Hne (n & E & _ & _ & Ep & El)%wt_spec. right. split; [done|]. by exists n. Qed.

Lemma inv_nonneg h q cur d rest : loop_inv h q cur d rest -> 0 <= d.
Proof. intros Hi. destruct (iv_cur _ _ _ _ _ Hi) as (Hc & Ht & Hd). by apply (iv_mono _ _ _ _ _ Hi cur d). Qed.

(** An edge to a permanent or removed node needs no work. *)
Lemma skip_edge h q cur d k b w rest n : loop_inv h q cur d ((k, (b, w)) :: rest) -> b ∈ V -> 0 <= w ->
  h !! b = Some n -> n_valid n && tentative n = false -> loop_inv h q cur d rest.
Proof.
  intros Hi HbV Hw En Hsk. pose proof (inv_nonneg _ _ _ _ _ Hi) as Hd0. pose proof Hi as []. split; try done.
  intros p b' w' c Hp Htp Harc Hdc. destruct (iv_relaxed0 p b' w' c Hp Htp Harc Hdc) as [[-> [k' Hin]]|?]; [|by right].
  apply elem_of_cons in Hin as [[= -> -> ->]|Hin]; [|left; eauto]. right.
  destruct Harc as (_ & _ & m & _ & _ & Em & Hm). destruct (same_graph_node _ _ _ _ (same_graph_sym _ _ iv_graph0) Em) as (m' & Em' & Hs).
  rewrite En in Em'. injection Em' as <-. apply static_fields in Hs as (Hv & _). rewrite Hv, Hm in Hsk. simpl in Hsk.
  assert (c = d) as -> by (eapply dist_unique; [done|apply iv_cur0]).
  destruct (decide (b = o)) as [->|Hne]; [exists 0; split; [by left|lia]|].
  destruct (iv_perm0 b n HbV Hne En Hsk) as [Hpv _]. assert (dist h b (path_length (current n))) as Hdb.
  { right. split; [done|]. by exists n. }
  exists (path_length (current n)). split; [done|]. assert (tent h b = false) as Htb by (unfold tent; by rewrite En).
  pose proof (iv_mono0 b _ HbV Htb Hdb). lia.
Qed.

(** What an update of a tentative node keeps. *)
Section Update.
Context (h : gmap addr (Node A)) (b : addr) (n nf : Node A) (En : h !! b = Some n)
  (Htn : tentative n = true) (Htf : tentative nf = true) (Hst : static nf = static n).

Lemma upd_tent a : tent (<[b := nf]> h) a = tent h a.
Proof. unfold tent. rewrite lookup_insert. case_decide; [|done]. subst. by rewrite En, Htf. Qed.
Lemma upd_n_tent : n_tent (<[b := nf]> h) = n_tent h.
Proof. unfold n_tent. f_equal. apply list_filter_iff. intros a. by rewrite upd_tent. Qed.
Lemma upd_ne a : tent h a = false -> a <> b.
Proof. intros Ht ->. unfold tent in Ht. rewrite En in Ht. congruence. Qed.
Lemma upd_dist_perm a c : tent h a = false -> dist (<[b := nf]> h) a c <-> dist h a c.
Proof. intros Hp. apply upd_ne in Hp. unfold dist. rewrite lookup_insert_ne by done. done. Qed.
Lemma upd_dist a c : (p_valid (current n) = true -> p_valid (current nf) = true /\ path_length (current nf) <= path_length (current n)) ->
  dist h a c -> exists c', dist (<[b := nf]> h) a c' /\ c' <= c.
Proof.
  intros Hle [[-> ->]|[Hne (m & Em & Hv & <-)]]; [exists 0; split; [by left|lia]|].
  destruct (decide (a = b)) as [->|Hab].
  - rewrite En in Em. injection Em as <-. destruct (Hle Hv) as [Hv' Hl]. exists (path_length (current nf)). split; [|done].
    right. split; [done|]. exists nf. by rewrite lookup_insert, decide_True.
  - exists (path_length (current m)). split; [|lia]. right. split; [done|]. exists m. by rewrite lookup_insert_ne.
Qed.
End Update.
(** An edge to a tentative node: the node gets the shorter of the two distances. *)
Lemma take_edge h q cur d k b w rest n n' q' : loop_inv h q cur d ((k, (b, w)) :: rest) -> b ∈ V -> 0 <= w <= W ->
  h !! b = Some n -> n_valid n = true -> tentative n = true ->
  let acc := negb (p_valid (current n)) || (d + w <? path_length (current n)) in
  n' = (if acc then set_current (mkPath true (first_hop (current n)) (last_hop (current n)) (d + w)) n else n) ->
  queue_ok (<[b := n']> h) q' -> (forall x, x ∈ q' <-> x = b \/ x ∈ q) ->
  let nf := if acc then set_last_hop (Some cur) n' else n' in
  (exists c w', h0 !! cur = Some c /\ (k, (b, w')) ∈ adjacencies c /\ w' = w) ->
  loop_inv (<[b := nf]> h) q' cur d rest.
Proof.
  intros Hi HbV Hw En Hv Ht acc En' Hq' Hel nf Hedge.
  assert (b <> o) as Hbo. { intros ->. pose proof (iv_origin _ _ _ _ _ Hi) as Ho. unfold tent in Ho. rewrite En in Ho. congruence. }
  assert (static nf = static n /\ tentative nf = true /\ n_valid nf = true /\ p_valid (current nf) = true) as (Hst & Htf & Hvf & Hpf).
  { subst nf n'. unfold acc. destruct (p_valid (current n)) eqn:Ep; simpl; [destruct (_ <? _); simpl|]; auto. }
  assert ((acc = true /\ path_length (current nf) = d + w /\ last_hop (current nf) = Some cur)
          \/ (acc = false /\ nf = n /\ p_valid (current n) = true /\ path_length (current n) <= d + w)) as Hcase.
  { subst nf n'. destruct acc eqn:Ea; [left; auto|right]. unfold acc in Ea. apply orb_false_iff in Ea as [Ea1 Ea2].
    apply negb_false_iff in Ea1. apply Z.ltb_ge in Ea2. auto. }
  assert (p_valid (current n) = true -> p_valid (current nf) = true /\ path_length (current nf) <= path_length (current n)) as Hle.
  { intros Hpn. split; [done|]. destruct Hcase as [(Ea & -> & _)|(_ & -> & _)]; [|lia].
    unfold acc in Ea. rewrite Hpn in Ea. simpl in Ea. apply Z.ltb_lt in Ea. lia. }
  assert (path_length (current nf) <= d + w) as Hlen by (destruct Hcase as [(_ & -> & _)|(_ & -> & _ & ?)]; lia).
  assert (forall a, wt (<[b := nf]> h) a = wt (<[b := n']> h) a) as Hwt.
  { intros a. unfold wt. rewrite !lookup_insert. case_decide; [|done]. simpl. subst nf. by destruct acc. }
  assert (dist (<[b := nf]> h) b (path_length (current nf))) as Hdb.
  { right. split; [done|]. exists nf. by rewrite lookup_insert, decide_True. }
  assert (arc h0 cur b w) as Harc.
  { destruct Hedge as (c & w' & Ec & Hin & ->). destruct (same_graph_node _ _ _ _ (iv_graph _ _ _ _ _ Hi) En) as (m & Em & Hs).
    apply static_fields in Hs as (Hvm & _). exists c, k, m. rewrite Hvm. auto. }
  pose proof (inv_nonneg _ _ _ _ _ Hi) as Hd0.
  pose proof (upd_tent h b n nf En Ht Htf) as Utent. pose proof (upd_dist_perm h b n nf En Ht) as Uperm.
  pose proof (iv_cur _ _ _ _ _ Hi) as (HcV & Hct & Hcd).
  split.
  - eapply same_graph_trans; [apply Hi|]. by eapply same_graph_insert.
  - by apply (queue_same (<[b := n']> h)).
  - intros a. rewrite Hel, (iv_elems _ _ _ _ _ Hi). destruct (decide (a = b)) as [->|Hne].
    + split; [intros _|auto]. split; [done|]. eexists. apply wt_spec. exists nf. by rewrite lookup_insert, decide_True.
    + unfold wt. rewrite lookup_insert_ne by done. split; [intros [->|?]; done|auto].
  - rewrite Utent. apply Hi.
  - intros a m HaV Hao Em Htm. rewrite lookup_insert in Em. case_decide; [|by eapply (iv_perm _ _ _ _ _ Hi)].
    injection Em as <-. congruence.
  - intros a m HaV Hao Em Hpm. rewrite lookup_insert in Em.
    assert (forall p c w', last_hop (current m) = Some p -> p ∈ V -> tent h p = false -> dist h p c -> arc h0 p a w' ->
              path_length (current m) = c + w' -> n_valid m = true -> n_valid m = true /\ exists p c w', last_hop (current m) = Some p /\ p ∈ V
              /\ tent (<[b := nf]> h) p = false /\ dist (<[b := nf]> h) p c /\ arc h0 p a w' /\ path_length (current m) = c + w') as Hmk.
    { intros p c w' ? ? Htp ? ? ? ?. split; [done|]. exists p, c, w'. rewrite Utent, Uperm by done. auto 10. }
    case_decide as Hab.
    + injection Em as <-. subst a. destruct Hcase as [(_ & E1 & E2)|(_ & -> & Hpn & _)].
      * by apply (Hmk cur d w).
      * destruct (iv_label _ _ _ _ _ Hi b n HbV Hbo En Hpn) as (_ & p & c & w' & ? & ? & ? & ? & ? & ?).
        by apply (Hmk p c w').
    + destruct (iv_label _ _ _ _ _ Hi a m HaV Hao Em Hpm) as (? & p & c & w' & ? & ? & ? & ? & ? & ?). by apply (Hmk p c w').
  - rewrite Utent, Uperm by done. done.
  - intros a c HaV Hta Hda. rewrite Utent in Hta. rewrite Uperm in Hda by done. by apply (iv_mono _ _ _ _ _ Hi a).
  - intros a w' Ha Hwa. destruct (decide (a = b)) as [->|Hne].
    + apply wt_dist in Hwa; [|done]. rewrite (dist_unique _ _ _ _ Hwa Hdb).
      destruct Hcase as [(_ & -> & _)|(_ & -> & Hpn & _)]; [lia|]. apply (iv_ahead _ _ _ _ _ Hi b).
      { apply Hi. split; [done|]. eexists. apply wt_spec. by exists n. }
      apply wt_spec. by exists n.
    + unfold wt in Hwa. rewrite lookup_insert_ne in Hwa by done. apply (iv_ahead _ _ _ _ _ Hi a); [|done].
      apply Hel in Ha as [?|?]; done.
  - intros p b' w' c Hp Htp Harc' Hdc. rewrite Utent in Htp. rewrite Uperm in Hdc by done.
    destruct (iv_relaxed _ _ _ _ _ Hi p b' w' c Hp Htp Harc' Hdc) as [[-> [k' Hin]]|(c' & Hdc' & Hcc)].
    + apply elem_of_cons in Hin as [[= -> -> ->]|Hin]; [|left; eauto]. right. exists (path_length (current nf)).
      split; [done|]. rewrite (dist_unique _ _ _ _ Hdc Hcd). lia.
    + right. destruct (upd_dist h b n nf En b' c' Hle Hdc') as (c'' & ? & ?). exists c''. split; [done|lia].
  - rewrite (upd_n_tent h b n nf En Ht Htf). apply Hi.
Qed.

(** [set_adjacent_weights] relaxes all edges of the last permanent node. *)
Lemma relax_ok edges h q cur d c : loop_inv h q cur d edges -> h0 !! cur = Some c ->
  (forall k b w, (k, (b, w)) ∈ edges -> (k, (b, w)) ∈ adjacencies c) ->
  exists h' q', set_adjacent_weights cur d edges h q = Ok (h', q') /\ loop_inv h' q' cur d []
    /\ n_tent h' = n_tent h.
Proof.
  revert h q. induction edges as [|[k [b w]] edges IH]; intros h q Hi Ec Hsub; cbn [set_adjacent_weights].
  { exists h, q. auto. }
  assert (b ∈ V /\ 0 <= w <= W) as [HbV Hw].
  { destruct (iv_cur _ _ _ _ _ Hi) as (HcV & _). destruct (go_edges Hgraph cur HcV) as (n & En & He).
    rewrite Ec in En. injection En as <-. apply (He k b w), Hsub. left. }
  assert (forall k' b' w', (k', (b', w')) ∈ edges -> (k', (b', w')) ∈ adjacencies c) as Hsub' by (intros; apply Hsub; by right).
  destruct (go_edges Hgraph b HbV) as (nb & Enb & _).
  destruct (same_graph_node _ _ _ _ (same_graph_sym _ _ (iv_graph _ _ _ _ _ Hi)) Enb) as (n & En & _).
  unfold deref at 1. rewrite En. cbn [result_bind]. destruct (n_valid n && tentative n) eqn:Evt.
  2:{ apply IH; [|done|done]. eapply skip_edge; [done|done|lia|done|done]. }
  apply andb_true_iff in Evt as [Hv Ht].
  assert (int_add d w = Ok (d + w)) as ->.
  { unfold int_add. pose proof (inv_nonneg _ _ _ _ _ Hi). pose proof (iv_bound _ _ _ _ _ Hi). pose proof (go_int Hgraph).
    pose proof (go_max Hgraph). assert (d + w < 2 ^ 31) by nia.
    rewrite (proj2 (Z.leb_le _ _)), (proj2 (Z.ltb_lt _ _)) by lia. done. }
  cbn [result_bind]. assert (b <> o) as Hbo.
  { intros ->. pose proof (iv_origin _ _ _ _ _ Hi) as Ho. unfold tent in Ho. rewrite En in Ho. congruence. }
  destruct (queue_add_ok h q b n (d + w)) as (n' & q' & -> & En' & Hq' & Hel); [apply Hi|done|done|done| |].
  { rewrite (iv_elems _ _ _ _ _ Hi). split.
    - intros [_ [v Hv']]. apply wt_spec in Hv' as (m & Em & _ & _ & Hp & _). congruence.
    - intros Hp. split; [done|]. eexists. apply wt_spec. by exists n. }
  cbn [result_bind]. unfold deref at 1. rewrite lookup_insert, decide_True by done. cbn [result_bind].
  set (acc := negb (p_valid (current n)) || (d + w <? path_length (current n))) in *.
  set (nf := if acc then set_last_hop (Some cur) n' else n').
  assert ((if acc then <[b := set_last_hop (Some cur) n']> (<[b := n']> h) else <[b := n']> h) = <[b := nf]> h) as ->.
  { subst nf. destruct acc; [apply insert_insert_eq|done]. }
  assert (loop_inv (<[b := nf]> h) q' cur d edges) as Hi'.
  { eapply (take_edge h q cur d k b w edges n n' q'); try done. exists c, w. split; [done|]. split; [|done]. apply Hsub. left. }
  destruct (IH _ _ Hi' Ec Hsub') as (h'' & q'' & E & Hi'' & Hn). exists h'', q''. split; [exact E|]. split; [done|]. rewrite Hn.
  apply (upd_n_tent h b n nf En Ht). subst nf n'. by destruct acc.
Qed.
(** One node less is tentative. *)
Lemma count_less (P P' : addr -> Prop) `{!forall x, Decision (P x), !forall x, Decision (P' x)} (l : list addr) m :
  NoDup l -> m ∈ l -> P m -> (forall x, x ∈ l -> P' x <-> P x /\ x <> m) -> length (filter P l) = S (length (filter P' l)).
Proof.
  intros Hn Hm HP Hiff. assert (filter P l ≡ₚ m :: filter P' l) as ->; [|done].
  apply NoDup_Permutation.
  - by apply NoDup_filter.
  - apply NoDup_cons. split; [|by apply NoDup_filter]. intros [Hx _]%list_elem_of_filter. apply Hiff in Hx; tauto.
  - intros x. rewrite elem_of_cons, !list_elem_of_filter. specialize (Hiff x). destruct (decide (x = m)) as [->|]; tauto.
Qed.

(** The first hop of the node that becomes permanent. *)
Lemma first_hop_ok h m q cur d n : loop_inv h (m :: q) cur d [] -> h !! m = Some n ->
  exists p f, last_hop (current n) = Some p
    /\ (if bool_decide (Some p = Some o) then Ok (Some m)
        else (x <-! deref_opt (<[m := set_tentative false n]> h) (Some p) ;; get_first_hop x)%xorp) = Ok (Some f)
    /\ route h0 o m f (path_length (current n)).
Proof.
  intros Hi En. destruct (proj1 (iv_elems _ _ _ _ _ Hi m)) as [HmV [v Hv]]; [left|].
  apply wt_spec in Hv as (n' & En' & Hvn & Htn & Hpn & Hl). rewrite En in En'. injection En' as <-.
  assert (m <> o) as Hmo. { intros ->. pose proof (iv_origin _ _ _ _ _ Hi) as Ho. unfold tent in Ho. rewrite En in Ho. congruence. }
  destruct (iv_label _ _ _ _ _ Hi m n HmV Hmo En Hpn) as (_ & p & c & w & Elh & HpV & Htp & Hdp & Harc & Elen).
  exists p. case_bool_decide as Hpo.
  - injection Hpo as ->. exists m. split; [done|]. split; [done|]. destruct Hdp as [[_ ->]|[? _]]; [|done].
    rewrite Elen. replace (0 + w) with w by lia. by constructor.
  - assert (p <> o) as Hne by congruence. assert (p <> m) as Hpm by (intros ->; unfold tent in Htp; rewrite En in Htp; congruence).
    destruct Hdp as [[? _]|[_ (x & Ex & Hpx & <-)]]; [done|].
    assert (tentative x = false) as Htx by (unfold tent in Htp; by rewrite Ex in Htp).
    destruct (iv_perm _ _ _ _ _ Hi p x HpV Hne Ex Htx) as (_ & f & Ef & Hr). exists f. split; [done|].
    split; [|rewrite Elen; by eapply route_snoc]. simpl. unfold deref. rewrite lookup_insert_ne by done. rewrite Ex.
    cbn [result_bind]. unfold get_first_hop. by rewrite Hpx, Ef.
Qed.

(** The node with the least distance becomes permanent. *)
Lemma pop_ok h m q cur d n f : loop_inv h (m :: q) cur d [] -> h !! m = Some n ->
  route h0 o m f (path_length (current n)) ->
  let h' := <[m := set_first_hop (Some f) (set_tentative false n)]> h in
  loop_inv h' q m (path_length (current n)) (adjacencies n) /\ n_tent h = S (n_tent h') /\ get_local_weight n = Ok (path_length (current n)).
Proof.
  intros Hi En Hroute h'. destruct (proj1 (iv_elems _ _ _ _ _ Hi m)) as [HmV [v Hv]]; [left|].
  pose proof Hv as Hwm. apply wt_spec in Hv as (n' & En' & Hvn & Htn & Hpn & <-). rewrite En in En'. injection En' as <-.
  set (nf := set_first_hop (Some f) (set_tentative false n)) in *.
  assert (m <> o) as Hmo. { intros ->. pose proof (iv_origin _ _ _ _ _ Hi) as Ho. unfold tent in Ho. rewrite En in Ho. congruence. }
  assert (forall a, tent h' a = true <-> tent h a = true /\ a <> m) as Htent.
  { intros a. unfold tent, h'. rewrite lookup_insert. case_decide as Ha; [subst; rewrite En; simpl; split; [done|tauto]|].
    split; [intros ?; split; [done|congruence]|tauto]. }
  assert (forall a, tent h' a = false <-> a = m \/ tent h a = false) as Htent'.
  { intros a. rewrite <- !not_true_iff_false, Htent. destruct (decide (a = m)), (decide (tent h a = true)); tauto. }
  assert (forall a c, dist h' a c <-> dist h a c) as Hdist.
  { intros a c. unfold dist, h'. rewrite lookup_insert. case_decide as Ha; [|done]. subst a. rewrite En.
    split; (intros [?|[? (x & [= <-] & ? & ?)]]; [by left|right]; split; [done|]); eexists; (split; [done|]); simpl; auto. }
  assert (forall a, a <> m -> wt h' a = wt h a) as Hwt by (intros a Ha; unfold wt, h'; by rewrite lookup_insert_ne).
  assert (wt h' m = None) as Hwtm.
  { unfold wt, h'. rewrite lookup_insert, decide_True by done. simpl. unfold weight_of. simpl. by rewrite andb_false_r. }
  pose proof (iv_queue _ _ _ _ _ Hi) as Hq. pose proof (queue_NoDup _ _ Hq) as [Hmq _]%NoDup_cons.
  apply queue_cons in Hq as (_ & Hq & Hb).
  assert (d <= path_length (current n)) as Hd by (apply (iv_ahead _ _ _ _ _ Hi m); [left|done]).
  assert (dist h m (path_length (current n))) as Hdm by (by apply wt_dist).
  assert (n_tent h = S (n_tent h')) as Hcount.
  { apply (count_less _ _ _ m); [apply Hgraph|done|unfold tent; by rewrite En|intros ? _; apply Htent]. }
  assert (exists n0, h0 !! m = Some n0 /\ adjacencies n0 = adjacencies n) as (n0 & En0 & Eadj).
  { destruct (same_graph_node _ _ _ _ (iv_graph _ _ _ _ _ Hi) En) as (n0 & En0 & Hs). exists n0.
    by apply static_fields in Hs as (_ & _ & ? & _). }
  split; [|split; [done|unfold get_local_weight; by rewrite Hvn, Htn, Hpn]]. split.
  - eapply same_graph_trans; [apply Hi|]. by eapply same_graph_insert.
  - apply (queue_same h); [|done]. intros x Hx. apply Hwt. by intros ->.
  - intros a. destruct (decide (a = m)) as [->|Hne].
    + rewrite Hwtm. split; [done|]. intros [_ [? ?]]; done.
    + rewrite Hwt, <- (iv_elems _ _ _ _ _ Hi), elem_of_cons by done. tauto.
  - apply Htent'. right. apply Hi.
  - intros a x HaV Hao Ex Htx. unfold h' in Ex. rewrite lookup_insert in Ex. case_decide as Ha; [|by eapply (iv_perm _ _ _ _ _ Hi)].
    subst a. injection Ex as <-. simpl. split; [done|]. by exists f.
  - intros a x HaV Hao Ex Hpx. unfold h' in Ex. rewrite lookup_insert in Ex.
    assert (exists y, h !! a = Some y /\ n_valid y = n_valid x /\ p_valid (current y) = true
              /\ last_hop (current y) = last_hop (current x) /\ path_length (current y) = path_length (current x)) as (y & Ey & E1 & E2 & E3 & E4).
    { case_decide as Ha; [subst a; injection Ex as <-; exists n; auto|exists x; auto 10]. }
    destruct (iv_label _ _ _ _ _ Hi a y HaV Hao Ey E2) as (? & p & c & w & ? & ? & ? & ? & ? & ?). split; [congruence|].
    exists p, c, w. rewrite Hdist. split; [congruence|]. split; [done|]. split; [apply Htent'; by right|]. split; [done|]. split; [done|congruence].
  - split; [done|]. split; [apply Htent'; by left|by apply Hdist].
  - intros a c HaV Hta Hda. apply Hdist in Hda. apply Htent' in Hta as [->|Hta].
    + pose proof (inv_nonneg _ _ _ _ _ Hi). rewrite (dist_unique _ _ _ _ Hda Hdm). lia.
    + pose proof (iv_mono _ _ _ _ _ Hi a c HaV Hta Hda). lia.
  - intros a w Ha Hwa. assert (a <> m) as Hne by (by intros ->). rewrite Hwt in Hwa by done.
    destruct (Hb a Ha) as (v & w' & Ev & Ew & Hlt). rewrite Hwm in Ev. rewrite Hwa in Ew. injection Ev as <-. injection Ew as <-. lia.
  - intros p b w c HpV Htp Harc Hdc. apply Hdist in Hdc. destruct (decide (p = m)) as [->|Hne].
    + left. split; [done|]. destruct Harc as (y & k & _ & Ey & Hin & _). rewrite En0 in Ey. injection Ey as <-. exists k. by rewrite <- Eadj.
    + apply Htent' in Htp as [?|Htp]; [done|]. right.
      destruct (iv_relaxed _ _ _ _ _ Hi p b w c HpV Htp Harc Hdc) as [[_ [k Hk]]|(c' & Hc' & ?)]; [by apply elem_of_nil in Hk|].
      exists c'. by rewrite Hdist.
  - destruct (iv_label _ _ _ _ _ Hi m n HmV Hmo En Hpn) as (_ & p & c & w & _ & HpV & Htp & Hdp & (y & k & _ & Ey & Hin & _) & Elen).
    destruct (go_edges Hgraph p HpV) as (y' & Ey' & He). rewrite Ey in Ey'. injection Ey' as <-. destruct (He _ _ _ Hin) as [_ Hw].
    pose proof (iv_mono _ _ _ _ _ Hi p c HpV Htp Hdp). pose proof (iv_bound _ _ _ _ _ Hi) as Hbd. rewrite Hcount in Hbd. nia.
Qed.

(** What the loop leaves: nothing is left to relax, and the queue is empty. *)
Lemma loop_ok fuel h q cur d c : loop_inv h q cur d (adjacencies c) -> h0 !! cur = Some c -> (n_tent h < fuel)%nat ->
  exists h' cur' d', dijkstra_loop fuel o cur d h q = Ok h' /\ loop_inv h' [] cur' d' [].
Proof.
  revert h q cur d c. induction fuel as [|fuel IH]; intros h q cur d c Hi Ec Hf; [lia|]. cbn [dijkstra_loop].
  destruct (same_graph_node _ _ _ _ (same_graph_sym _ _ (iv_graph _ _ _ _ _ Hi)) Ec) as (c1 & Ec1 & Hs).
  apply static_fields in Hs as (_ & _ & Ha & _). unfold deref at 1. rewrite Ec1. cbn [result_bind]. rewrite Ha.
  destruct (relax_ok (adjacencies c) h q cur d c Hi Ec) as (h1 & q1 & -> & Hi1 & Hn); [done|]. cbn [result_bind fst snd].
  destruct q1 as [|m q1]; [by exists h1, cur, d|].
  destruct (proj1 (iv_elems _ _ _ _ _ Hi1 m)) as [HmV [v Hv]]; [left|].
  pose proof Hv as (n & En & _ & _ & Hp & _)%wt_spec. unfold deref at 1. rewrite En. cbn [result_bind].
  destruct (first_hop_ok h1 m q1 cur d n Hi1 En) as (p & f & El & Ef & Hr).
  destruct (pop_ok h1 m q1 cur d n f Hi1 En Hr) as (Hi2 & Hc2 & ->). cbn [result_bind].
  assert (get_last_hop (set_tentative false n) = Ok (Some p)) as -> by (unfold get_last_hop; simpl; by rewrite Hp, El).
  cbn [result_bind]. rewrite Ef. cbn [result_bind].
  destruct (same_graph_node _ _ _ _ (iv_graph _ _ _ _ _ Hi1) En) as (n0 & En0 & Hs0).
  apply static_fields in Hs0 as (_ & _ & Ha0 & _). rewrite <- Ha0 in Hi2.
  eapply (IH _ _ _ _ n0 Hi2 En0). lia.
Qed.
(** At the end every walk leads to a permanent node that is not further. *)
Lemma done_walk h cur d a c : loop_inv h [] cur d [] -> walk h0 o a c ->
  a ∈ V /\ tent h a = false /\ exists c', dist h a c' /\ c' <= c.
Proof.
  intros Hi. induction 1 as [|a c b w _ (HaV & Hta & c' & Hda & Hc) Harc].
  { split; [apply Hgraph|]. split; [apply Hi|]. exists 0. split; [by left|lia]. }
  destruct (iv_relaxed _ _ _ _ _ Hi a b w c' HaV Hta Harc Hda) as [[_ [k Hk]]|(c'' & Hdb & Hle)]; [by apply elem_of_nil in Hk|].
  destruct Harc as (y & k & m & Ey & Hin & Em & Hm). destruct (go_edges Hgraph a HaV) as (y' & Ey' & He).
  rewrite Ey in Ey'. injection Ey' as <-. destruct (He _ _ _ Hin) as [HbV _]. split; [done|].
  split; [|exists c''; split; [done|lia]]. destruct Hdb as [[-> _]|[Hne (n & En & Hp & _)]]; [apply Hi|].
  destruct (tent h b) eqn:Ht; [|done]. unfold tent in Ht. rewrite En in Ht.
  destruct (same_graph_node _ _ _ _ (iv_graph _ _ _ _ _ Hi) En) as (m' & Em' & Hs). rewrite Em in Em'. injection Em' as <-.
  apply static_fields in Hs as (Hv & _). assert (b ∈ []) as Hx; [|by apply elem_of_nil in Hx].
  apply (iv_elems _ _ _ _ _ Hi). split; [done|]. eexists. apply wt_spec. exists n. rewrite <- Hv. auto.
Qed.

(** The result for one node. *)
Definition shortest h a n : Prop :=
  if p_valid (current n) then
    exists f l c w, first_hop (current n) = Some f /\ last_hop (current n) = Some l
      /\ route h o a f (path_length (current n)) /\ walk h o l c /\ arc h l a w /\ path_length (current n) = c + w
      /\ forall c', walk h o a c' -> path_length (current n) <= c'
  else forall c, ~ walk h o a c.

Lemma done_shortest h cur d a n : loop_inv h [] cur d [] -> a ∈ V -> a <> o -> h !! a = Some n -> shortest h0 a n.
Proof.
  intros Hi HaV Hao En. unfold shortest. destruct (p_valid (current n)) eqn:Hp.
  2:{ intros c Hw. destruct (done_walk h cur d a c Hi Hw) as (_ & _ & c' & [[? _]|[_ (n' & En' & Hp' & _)]] & _); congruence. }
  assert (tentative n = false) as Ht.
  { destruct (tentative n) eqn:Ht; [|done]. assert (a ∈ []) as Hx; [|by apply elem_of_nil in Hx].
    apply (iv_elems _ _ _ _ _ Hi). split; [done|]. eexists. apply wt_spec. exists n.
    destruct (iv_label _ _ _ _ _ Hi a n HaV Hao En Hp) as [? _]. auto. }
  destruct (iv_perm _ _ _ _ _ Hi a n HaV Hao En Ht) as (_ & f & Ef & Hr).
  destruct (iv_label _ _ _ _ _ Hi a n HaV Hao En Hp) as (_ & l & c & w & El & HlV & Htl & Hdl & Harc & Elen).
  exists f, l, c, w. do 3 (split; [done|]). split; [|split; [done|split; [done|]]].
  - destruct Hdl as [[-> ->]|[Hlo (x & Ex & Hpx & <-)]]; [constructor|].
    assert (tentative x = false) as Htx by (unfold tent in Htl; by rewrite Ex in Htl).
    destruct (iv_perm _ _ _ _ _ Hi l x HlV Hlo Ex Htx) as (_ & g & _ & Hg). by eapply route_walk.
  - intros c' Hw. destruct (done_walk h cur d a c' Hi Hw) as (_ & _ & c'' & Hd & Hle).
    assert (dist h a (path_length (current n))) as Hd' by (right; split; [done|by exists n]).
    rewrite (dist_unique _ _ _ _ Hd' Hd). done.
Qed.
End Loop.

(** ** [dijkstra] *)

Section Dijkstra.
Context {A : Type} `{KeyOrder A, !KeyOrderLaws A}.
Implicit Types (s : Spt A) (n : Node A) (h : gmap addr (Node A)) (a b o : addr).

(** A graph whose weights are in [[0, W]]: the nodes are in the table under their
    names, the edges lead to nodes of the table, and the origin is one of them. *)
Record spt_ok (W : Z) s : Prop := {
  so_sorted : m_sorted (nodes s);
  so_node : forall k a, (k, a) ∈ nodes s -> exists n, heap s !! a = Some n /\ nodename n = k
    /\ m_sorted (adjacencies n) /\ forall k' b w, (k', (b, w)) ∈ adjacencies n -> (k', b) ∈ nodes s /\ 0 <= w <= W;
  so_origin : forall o, origin s = Some o -> exists k, (k, o) ∈ nodes s }.

Lemma spt_addresses W s : spt_ok W s -> NoDup (map snd (nodes s)).
Proof.
  intros Hs. pose proof (sorted_keys _ (so_sorted _ _ Hs)) as Hn.
  assert (forall k k' a, (k, a) ∈ nodes s -> (k', a) ∈ nodes s -> k = k') as Hinj.
  { intros k k' a H1 H2. destruct (so_node _ _ Hs _ _ H1) as (n & E & <- & _). destruct (so_node _ _ Hs _ _ H2) as (n' & E' & <- & _).
    congruence. }
  clear Hs. induction (nodes s) as [|[k a] l IH]; [constructor|]. simpl in *. apply NoDup_cons in Hn as [Hk Hn]. apply NoDup_cons.
  split; [|apply IH; [done|]; intros; eapply Hinj; by right].
  intros Hin. apply list_elem_of_fmap in Hin as ([k' a'] & -> & Hin). simpl in *. apply Hk.
  rewrite (Hinj k k' a'); [|by left|by right]. by apply (list_elem_of_fmap_2 fst _ (k', a')).
Qed.

Lemma elem_snd (l : list (A * addr)) a : a ∈ map snd l <-> exists k, (k, a) ∈ l.
Proof.
  rewrite list_elem_of_fmap. split; [intros ([k a'] & -> & ?); by exists k|intros [k ?]; by exists (k, a)].
Qed.

Lemma foldl_on_node (f : Node A -> Node A) h l a : NoDup l ->
  foldl (on_node f) h l !! a = if decide (a ∈ l) then f <$> h !! a else h !! a.
Proof.
  revert h. induction l as [|x l IH]; intros h Hn; simpl; [done|]. apply NoDup_cons in Hn as [Hx Hn]. rewrite IH by done.
  unfold on_node. destruct (decide (a = x)) as [->|Hne].
  - rewrite decide_False by done. rewrite decide_True by left. apply lookup_alter_eq.
  - rewrite lookup_alter_ne by done. destruct (decide (a ∈ l)); [rewrite decide_True by (by right)|rewrite decide_False by (by intros [?|?]%elem_of_cons)]; done.
Qed.

Lemma graph_ok_of W s o : spt_ok W s -> origin s = Some o -> 0 <= W -> W * Z.of_nat (length (nodes s)) < 2 ^ 31 ->
  graph_ok (heap s) (map snd (nodes s)) o W.
Proof.
  intros Hs Ho HW Hb. split; [by eapply spt_addresses|by apply elem_snd, (so_origin _ _ Hs)|done|by rewrite length_map|].
  intros a [k Ha]%elem_snd. destruct (so_node _ _ Hs _ _ Ha) as (n & E & _ & _ & He). exists n. split; [done|].
  intros k' b w Hin. destruct (He _ _ _ Hin) as [? ?]. split; [by apply elem_snd; exists k'|done].
Qed.

(** The state before the loop. *)
Lemma init_inv W s o h : spt_ok W s -> origin s = Some o -> 0 <= W -> W * Z.of_nat (length (nodes s)) < 2 ^ 31 ->
  h = on_node (set_tentative false) (foldl (on_node init_dijkstra) (heap s) (map snd (nodes s))) o ->
  exists c, heap s !! o = Some c /\ loop_inv (heap s) (map snd (nodes s)) o W h [] o 0 (adjacencies c)
    /\ (n_tent (map snd (nodes s)) h < length (nodes s))%nat.
Proof.
  intros Hs Ho HW Hb Eh. pose proof (graph_ok_of W s o Hs Ho HW Hb) as Hg. set (V := map snd (nodes s)) in *.
  assert (forall a n, a ∈ V -> h !! a = Some n -> exists m, heap s !! a = Some m /\ static n = static m /\ p_valid (current n) = false
            /\ tentative n = negb (bool_decide (a = o))) as Hnode.
  { intros a n HaV En. subst h. unfold on_node in En at 1. rewrite lookup_alter, !foldl_on_node in En by apply Hg.
    case_decide as Ha; [subst a|]; rewrite decide_True in En by done; destruct (heap s !! _) as [m|]; try done;
      injection En as <-; exists m; split; try done; simpl;
      [rewrite bool_decide_true by done|rewrite bool_decide_false by congruence]; done. }
  assert (forall a, static <$> heap s !! a = static <$> h !! a) as Hst.
  { intros a. subst h. unfold on_node at 1. rewrite lookup_alter, !foldl_on_node by apply Hg.
    case_decide; [subst a|]; case_decide; by destruct (heap s !! _). }
  destruct (go_edges _ _ _ _ Hg o (go_origin _ _ _ _ Hg)) as (c & Ec & He).
  assert (forall a, a ∈ V -> tent h a = negb (bool_decide (a = o))) as Htent.
  { intros a HaV. destruct (go_edges _ _ _ _ Hg a HaV) as (m & Em & _). pose proof (Hst a) as Hsa. rewrite Em in Hsa.
    unfold tent. destruct (h !! a) as [n|] eqn:En; [|done]. destruct (Hnode a n HaV En) as (_ & _ & _ & _ & ->). done. }
  assert (tent h o = false) as Hto by (rewrite Htent by apply Hg; by rewrite bool_decide_true).
  assert (forall a, a ∈ V -> wt h a = None) as Hwt.
  { intros a HaV. destruct (wt h a) as [w|] eqn:E; [|done]. apply wt_spec in E as (n & En & _ & _ & Hp & _).
    destruct (Hnode a n HaV En) as (_ & _ & _ & Hp' & _). congruence. }
  assert (forall a d, a ∈ V -> dist o h a d -> a = o /\ d = 0) as Hdist.
  { intros a d HaV [?|[_ (n & En & Hp & _)]]; [done|]. destruct (Hnode a n HaV En) as (_ & _ & _ & Hp' & _). congruence. }
  assert (length V = S (n_tent V h)) as Hlen.
  { unfold n_tent. assert (V ≡ₚ o :: filter (fun a => tent h a = true) V) as Hp; [|by rewrite Hp at 1].
    apply NoDup_Permutation; [apply Hg|apply NoDup_cons; split; [|apply NoDup_filter, Hg]; intros [? _]%list_elem_of_filter; congruence|].
    intros x. rewrite elem_of_cons, list_elem_of_filter. pose proof (go_origin _ _ _ _ Hg).
    destruct (decide (x = o)) as [->|Hne]; [tauto|]. split; [|tauto]. intros HxV. right. split; [|done].
    rewrite Htent by done. by rewrite bool_decide_false. }
  exists c. split; [done|]. split; [|rewrite <- (length_map snd); fold V; lia].
  split.
  - exact Hst.
  - apply queue_nil.
  - intros a. split; [by intros ?%elem_of_nil|]. intros [HaV [w Hw]]. rewrite Hwt in Hw; done.
  - done.
  - intros a n HaV Hao En Htn. destruct (Hnode a n HaV En) as (_ & _ & _ & _ & Htn'). rewrite bool_decide_false in Htn' by done.
    simpl in Htn'. congruence.
  - intros a n HaV Hao En Hp. destruct (Hnode a n HaV En) as (_ & _ & _ & Hp' & _). congruence.
  - split; [apply Hg|]. split; [done|by left].
  - intros a d HaV _ Hd. destruct (Hdist a d HaV Hd) as [_ ->]. lia.
  - by intros a w ?%elem_of_nil.
  - intros p b w d HpV _ Harc Hd. destruct (Hdist p d HpV Hd) as [-> ->]. left. split; [done|].
    destruct Harc as (n & k & _ & En & Hin & _). exists k. congruence.
  - rewrite Hlen. lia.
Qed.

Lemma dijkstra_ok W s o : spt_ok W s -> origin s = Some o -> 0 <= W -> W * Z.of_nat (length (nodes s)) < 2 ^ 31 ->
  exists h, dijkstra s = Ok (with_heap h s, true) /\ same_graph (heap s) h
    /\ forall k a, (k, a) ∈ nodes s -> a <> o -> exists n, h !! a = Some n /\ shortest o (heap s) a n.
Proof.
  intros Hs Ho HW Hb. pose proof (graph_ok_of W s o Hs Ho HW Hb) as Hg. unfold dijkstra. rewrite Ho.
  destruct (init_inv W s o _ Hs Ho HW Hb eq_refl) as (c & Ec & Hi & Hn).
  destruct (loop_ok _ _ _ _ Hg (S (length (nodes s))) _ _ _ _ c Hi Ec) as (h' & cur & d & -> & Hd); [lia|]. cbn [result_bind].
  exists h'. split; [done|]. split; [apply Hd|]. intros k a Ha Hao.
  destruct (so_node _ _ Hs _ _ Ha) as (m & Em & _). destruct (same_graph_node _ _ _ _ (same_graph_sym _ _ (iv_graph _ _ _ _ _ _ _ _ _ Hd)) Em) as (n & En & _).
  exists n. split; [done|]. eapply (done_shortest _ _ _ _ Hg h'); try done. apply elem_snd. by exists k.
Qed.

(** C11: Dijkstra.  On a graph whose weights do not overflow, [dijkstra] returns and
    changes no edge; afterwards every node other than the origin is labelled with a
    shortest path: the length is that of a walk from the origin over nodes that are
    not removed, no walk is shorter, the last hop is a node before it on a walk of
    that length and the first hop is the neighbour of the origin through which a
    walk of that length leaves it.  A node without a label is not reachable. *)
Theorem dijkstra_correct (W : Z) s o : spt_ok W s -> origin s = Some o -> 0 <= W -> W * Z.of_nat (length (nodes s)) < 2 ^ 31 ->
  exists h, dijkstra s = Ok (with_heap h s, true) /\ same_graph (heap s) h
    /\ forall k a, (k, a) ∈ nodes s -> a <> o -> exists n, h !! a = Some n /\
      if p_valid (current n) then
        exists f l c w, first_hop (current n) = Some f /\ last_hop (current n) = Some l
          /\ route (heap s) o a f (path_length (current n))
          /\ walk (heap s) o l c /\ arc (heap s) l a w /\ path_length (current n) = c + w
          /\ forall c', walk (heap s) o a c' -> path_length (current n) <= c'
      else forall c, ~ walk (heap s) o a c.
Proof. apply dijkstra_ok. Qed.
End Dijkstra.
