(* ===== verification/SptCompute.v ===== *)
(** * The route computation (libproto/spt.hh)

    [Spt::compute] as a whole: the invariant of the graph is kept by every
    operation, and the commands that [compute] returns turn the routes of the
    last computation into the shortest routes of this one. *)

From Stdlib Require Import ZArith Lia.
From stdpp Require Import base tactics option numbers gmap list.
From S2P Require Import Prelude OMap Spt SptProps.
Local Open Scope Z_scope.
Local Open Scope xorp_scope.

Section Compute.
Context {A : Type} `{KeyOrder A, !KeyOrderLaws A, !EqDecision A}.
Implicit Types (s : Spt A) (n : Node A) (h : gmap addr (Node A)) (a b o x : addr) (k : A).

(** ** The routes as the receiver of the commands sees them *)

(** A route: the name of the first hop and the length. *)
Definition routes : Type := A -> option (A * Z).

Definition apply_cmd (t : routes) (c : RouteCmd A) : routes :=
  match c with
  | ADD k f _ w | REPLACE k f _ w _ _ => fun k' => if decide (k' = k) then Some (f, w) else t k'
  | DELETE k => fun k' => if decide (k' = k) then None else t k'
  end.
Definition apply_cmds (cs : list (RouteCmd A)) (t : routes) : routes := foldl apply_cmd t cs.

(** The route that a path of a node stands for. *)
Definition path_route h (p : path) : option (A * Z) :=
  if p_valid p then f ← first_hop p; n ← h !! f; Some (nodename n, path_length p) else None.

(** The routes of the last computation. *)
Definition last_routes s : routes := fun k =>
  x ← find_node k s; n ← heap s !! x; path_route (heap s) (previous n).

(** The path leads over nodes that exist. *)
Definition path_ok h (p : path) : Prop :=
  p_valid p = true -> (exists f n, first_hop p = Some f /\ h !! f = Some n) /\ (exists l n, last_hop p = Some l /\ h !! l = Some n).

Definition same_names h h' : Prop := forall a, nodename <$> h !! a = nodename <$> h' !! a.

Lemma path_route_same h h' p : same_names h h' -> path_route h p = path_route h' p.
Proof.
  intros Hn. unfold path_route. destruct (p_valid p); [|done]. destruct (first_hop p) as [f|]; simpl; [|done].
  specialize (Hn f). destruct (h !! f), (h' !! f); simplify_eq/=; done || by rewrite Hn.
Qed.

Lemma path_ok_same h h' p : same_names h h' -> path_ok h p -> path_ok h' p.
Proof.
  intros Hn Hp Hv. destruct (Hp Hv) as [(f & n & Ef & En) (l & m & El & Em)].
  assert (forall a (m1 : Node A), h !! a = Some m1 -> exists y, h' !! a = Some y) as Hex.
  { intros a y E. specialize (Hn a). rewrite E in Hn. destruct (h' !! a); [eauto|done]. }
  destruct (Hex _ _ En), (Hex _ _ Em). split; eauto.
Qed.

(** ** [delta] *)

Definition on_receiver k (r : option (A * Z)) (t : routes) : routes := fun k' => if decide (k' = k) then r else t k'.

Definition opt_cmds (c : option (RouteCmd A)) : list (RouteCmd A) := option_list c.

Lemma name_of_ok h f n : h !! f = Some n -> name_of h (Some f) = Ok (nodename n).
Proof. intros E. unfold name_of, deref_opt, deref. by rewrite E. Qed.

(** What [delta] does to the node, and what its command does to the routes. *)
Definition delta_node n : Node A := if n_valid n then set_previous (current n) n else n.

Lemma delta_ok h n : path_ok h (current n) ->
  exists c, delta h n = Ok (delta_node n, c) /\
    forall t : routes, t (nodename n) = path_route h (previous n) ->
      forall k', apply_cmds (opt_cmds c) t k'
        = on_receiver (nodename n) (if n_valid n then path_route h (current n) else None) t k'.
Proof.
  intros Hc. unfold delta, delta_node. destruct (n_valid n); cbn [negb].
  2:{ eexists. split; [done|]. intros t Ht k'. done. }
  destruct (p_valid (current n)) eqn:Ec; cbn [negb].
  2:{ eexists. split; [done|]. intros t Ht k'. unfold path_route at 1. rewrite Ec. unfold on_receiver.
      destruct (p_valid (previous n)) eqn:Ep; [done|]. change (apply_cmds (opt_cmds None) t k') with (t k'). case_decide; [|done]. subst. rewrite Ht. unfold path_route. by rewrite Ep. }
  destruct (Hc Ec) as [(f & nf & Ef & Enf) (l & nl & El & Enl)].
  assert (path_route h (current n) = Some (nodename nf, path_length (current n))) as Er.
  { unfold path_route. rewrite Ec, Ef. simpl. by rewrite Enf. }
  rewrite Ef, El, (name_of_ok h f nf Enf), (name_of_ok h l nl Enl). cbn [result_bind].
  destruct (p_valid (previous n)) eqn:Ep; cbn [negb].
  2:{ eexists. split; [done|]. intros t Ht k'. by rewrite Er. }
  destruct (bool_decide (Some f = first_hop (previous n))) eqn:Eb; simpl.
  2:{ eexists. split; [done|]. intros t Ht k'. by rewrite Er. }
  destruct (Z.eqb_spec (path_length (current n)) (path_length (previous n))) as [El'|].
  2:{ eexists. split; [done|]. intros t Ht k'. by rewrite Er. }
  eexists. split; [done|]. intros t Ht k'. rewrite Er. unfold on_receiver. change (apply_cmds (opt_cmds None) t k') with (t k'). destruct (decide (k' = nodename n)) as [Hk|]; [|done]. rewrite Hk, Ht.
  apply bool_decide_eq_true in Eb. unfold path_route. rewrite Ep, <- Eb. simpl. rewrite Enf. simpl. by rewrite El'.
Qed.

(** The loop over the table: every node other than the origin. *)
Definition delta_at (o : option addr) (ns : list (A * addr)) x n : Node A :=
  if bool_decide (x ∈ map snd ns) && negb (bool_decide (Some x = o)) then delta_node n else n.

Lemma delta_node_name n : nodename (delta_node n) = nodename n.
Proof. unfold delta_node. by destruct (n_valid n). Qed.

Lemma insert_same_names h x n n' : h !! x = Some n -> nodename n' = nodename n -> same_names h (<[x := n']> h).
Proof. intros E En a. rewrite lookup_insert. case_decide; [|done]. subst. rewrite E. simpl. by rewrite En. Qed.

Lemma delta_loop_ok (o : option addr) (ns : list (A * addr)) h : NoDup (map fst ns) -> NoDup (map snd ns) ->
  (forall k x, (k, x) ∈ ns -> exists n, h !! x = Some n /\ nodename n = k /\ (Some x <> o -> path_ok h (current n))) ->
  exists h' cs, delta_loop o ns h = Ok (h', cs)
    /\ (forall x, h' !! x = delta_at o ns x <$> h !! x)
    /\ forall t : routes, (forall k x n, (k, x) ∈ ns -> Some x <> o -> h !! x = Some n -> t k = path_route h (previous n)) ->
        (forall k x n, (k, x) ∈ ns -> Some x <> o -> h !! x = Some n ->
           apply_cmds cs t k = if n_valid n then path_route h (current n) else None)
        /\ (forall k, (forall x, (k, x) ∈ ns -> Some x = o) -> apply_cmds cs t k = t k).
Proof.
  revert h. induction ns as [|[k x] ns IH]; intros h Hk Hx Hn; cbn [delta_loop].
  { exists h, []. split; [done|]. split; [intros x; unfold delta_at; simpl; by destruct (h !! x)|]. intros t Ht.
    split; [by intros ? ? ? ?%elem_of_nil|done]. }
  simpl in Hk, Hx. apply NoDup_cons in Hk as [Hk Hks], Hx as [Hx Hxs].
  assert (forall k' x', (k', x') ∈ ns -> k' <> k /\ x' <> x) as Hne.
  { intros k' x' Hin. split; intros ->; [apply Hk|apply Hx]; [apply (list_elem_of_fmap_2 fst _ _ Hin)|apply (list_elem_of_fmap_2 snd _ _ Hin)]. }
  destruct (Hn k x) as (n & En & Enk & Hp); [left|].
  destruct (bool_decide (Some x = o)) eqn:Eo.
  - apply bool_decide_eq_true in Eo. destruct (IH h Hks Hxs) as (h' & cs & E & Hh & Ht). { intros. apply Hn. by right. }
    exists h', cs. split; [done|]. split.
    { intros y. rewrite Hh. destruct (h !! y) as [m|]; [|done]. simpl. f_equal. unfold delta_at. simpl.
      destruct (decide (y = x)) as [->|Hy].
      - rewrite (bool_decide_true (Some x = o)) by done. by rewrite !andb_false_r.
      - rewrite (bool_decide_ext (y ∈ x :: map snd ns) (y ∈ map snd ns)); [done|]. rewrite elem_of_cons. tauto. }
    intros t Hprev. destruct (Ht t) as [H1 H2]. { intros k' x' m Hin. apply Hprev. by right. } split.
    + intros k' x' m [[= -> ->]|Hin]%elem_of_cons Hxo Em; [done|]. by eapply H1.
    + intros k' Hk'. apply H2. intros x' Hin. apply Hk'. by right.
  - apply bool_decide_eq_false in Eo. unfold deref. rewrite En. cbn [result_bind].
    destruct (delta_ok h n (Hp Eo)) as (c & -> & Hc). cbn [result_bind fst snd]. rewrite Enk in Hc.
    assert (same_names h (<[x := delta_node n]> h)) as Hsame by (eapply insert_same_names; [done|apply delta_node_name]).
    assert (forall k' x', (k', x') ∈ ns -> (<[x := delta_node n]> h) !! x' = h !! x') as Hrest.
    { intros k' x' Hin. apply lookup_insert_ne. apply not_eq_sym. by eapply Hne. }
    destruct (IH (<[x := delta_node n]> h) Hks Hxs) as (h' & cs & -> & Hh & Ht).
    { intros k' x' Hin. rewrite (Hrest k' x' Hin). destruct (Hn k' x') as (m & Em & Ek & Hpm); [by right|]. exists m. split; [done|].
      split; [done|]. intros Ho. eapply path_ok_same; [done|by apply Hpm]. }
    cbn [result_bind fst snd]. exists h', (opt_cmds c ++ cs). split; [done|]. split.
    { intros y. rewrite Hh, lookup_insert. unfold delta_at. simpl. case_decide as Hy.
      - subst y. rewrite En. simpl. f_equal. rewrite (bool_decide_false (x ∈ map snd ns)), (bool_decide_true (x ∈ x :: _)) by (done || left).
        by rewrite (bool_decide_false (Some x = o)).
      - destruct (h !! y) as [m|]; [|done]. simpl. f_equal.
        rewrite (bool_decide_ext (y ∈ x :: map snd ns) (y ∈ map snd ns)); [done|]. rewrite elem_of_cons. split; [|tauto]. intros [->|?]; done. }
    intros t Hprev. assert (t k = path_route h (previous n)) as Htk by (eapply Hprev; [left|done|done]).
    unfold apply_cmds. rewrite foldl_app. fold (apply_cmds (opt_cmds c) t). fold (apply_cmds cs (apply_cmds (opt_cmds c) t)).
    destruct (Ht (apply_cmds (opt_cmds c) t)) as [H1 H2].
    { intros k' x' m Hin Hxo Em. rewrite (Hrest _ _ Hin) in Em. rewrite Hc by done. unfold on_receiver.
      rewrite decide_False by (by eapply Hne). rewrite <- (path_route_same h) by done. eapply Hprev; [by right|done|done]. }
    split.
    + intros k' x' m [[= -> ->]|Hin]%elem_of_cons Hxo Em.
      * rewrite H2; [|by intros x' Hin; destruct (Hne _ _ Hin)]. rewrite Hc by done. unfold on_receiver. rewrite decide_True by done.
        rewrite En in Em. by injection Em as <-.
      * rewrite (path_route_same h _ _ Hsame). eapply H1; [done|done|]. by rewrite (Hrest _ _ Hin).
    + intros k' Hk'. assert (k' <> k) as Hkk by (intros ->; apply Eo, Hk'; left). rewrite H2.
      * rewrite Hc by done. unfold on_receiver. by rewrite decide_False.
      * intros x' Hin. apply Hk'. by right.
Qed.
(** ** Garbage collection *)

Definition live h x : bool := match h !! x with Some n => n_valid n | None => false end.

(** Removed nodes may lose their edges and paths; the others stay. *)
Definition gc_rel h h' : Prop :=
  forall a, match h !! a, h' !! a with
  | Some n, Some n' => nodename n' = nodename n /\ n_valid n' = n_valid n /\ (n_valid n = true -> n' = n)
  | None, None => True
  | _, _ => False
  end.

Lemma gc_rel_refl h : gc_rel h h.
Proof. intros a. by destruct (h !! a). Qed.
Lemma gc_rel_trans h1 h2 h3 : gc_rel h1 h2 -> gc_rel h2 h3 -> gc_rel h1 h3.
Proof.
  intros H1 H2 a. specialize (H1 a). specialize (H2 a). destruct (h1 !! a), (h2 !! a), (h3 !! a); try done.
  destruct H1 as (E1 & E2 & E3), H2 as (F1 & F2 & F3). split; [congruence|]. split; [congruence|].
  intros Hv. rewrite F3 by congruence. by apply E3.
Qed.
Lemma gc_rel_live h h' x : gc_rel h h' -> live h' x = live h x.
Proof. intros Hg. specialize (Hg x). unfold live. destruct (h !! x), (h' !! x); try done. apply Hg. Qed.
Lemma gc_rel_valid h h' x n : gc_rel h h' -> h !! x = Some n -> n_valid n = true -> h' !! x = Some n.
Proof. intros Hg E Hv. specialize (Hg x). rewrite E in Hg. destruct (h' !! x) as [n'|]; [|done]. f_equal. by apply Hg. Qed.
Lemma gc_rel_names h h' : gc_rel h h' -> same_names h h'.
Proof. intros Hg a. specialize (Hg a). destruct (h !! a), (h' !! a); try done. simpl. by destruct Hg as [-> _]. Qed.
Lemma gc_rel_some h h' x n : gc_rel h h' -> h !! x = Some n -> is_Some (h' !! x).
Proof. intros Hg E. specialize (Hg x). rewrite E in Hg. by destruct (h' !! x). Qed.

Definition live_edges h (edges : list (A * (addr * Z))) : list (A * (addr * Z)) :=
  filter (fun e => live h (fst (snd e)) = true) edges.

Lemma live_edges_same h h' edges : gc_rel h h' -> live_edges h' edges = live_edges h edges.
Proof. intros Hg. unfold live_edges. apply list_filter_iff. intros e. by rewrite (gc_rel_live h h'). Qed.

Lemma gc_edges_ok edges h : (forall k x w, (k, (x, w)) ∈ edges -> is_Some (h !! x)) ->
  exists h', gc_edges h edges = Ok (h', live_edges h edges) /\ gc_rel h h'.
Proof.
  revert h. induction edges as [|[k [x w]] edges IH]; intros h Hd; cbn [gc_edges].
  { exists h. split; [done|apply gc_rel_refl]. }
  destruct (Hd k x w) as [n En]; [left|]. unfold deref. rewrite En. cbn [result_bind].
  assert (forall k' x' w', (k', (x', w')) ∈ edges -> is_Some (h !! x')) as Hd' by (intros; eapply Hd; by right).
  assert (live h x = n_valid n) as Hl by (unfold live; by rewrite En).
  unfold live_edges. rewrite filter_cons. simpl. rewrite Hl. fold (live_edges h edges). destruct (n_valid n) eqn:Hv.
  - destruct (IH h Hd') as (h' & -> & Hg). cbn [result_bind fst snd]. exists h'. done.
  - assert (gc_rel h (<[x := node_clear n]> h)) as Hg1.
    { intros a. rewrite lookup_insert. case_decide; [subst a; rewrite En; simpl; by rewrite Hv|by destruct (h !! a)]. }
    destruct (IH (<[x := node_clear n]> h)) as (h' & -> & Hg).
    { intros k' x' w' Hin. destruct (Hd' _ _ _ Hin) as [m Em]. by eapply gc_rel_some. }
    exists h'. split; [by rewrite (live_edges_same h) by done|]. by eapply gc_rel_trans.
Qed.

Lemma gc_nodes_ok (ns : list (A * addr)) h : NoDup (map snd ns) ->
  (forall k x, (k, x) ∈ ns -> exists n, h !! x = Some n /\ n_valid n = true
     /\ forall k' y w, (k', (y, w)) ∈ adjacencies n -> is_Some (h !! y)) ->
  exists h', gc_nodes h ns = Ok h' /\ same_names h h' /\ (forall x, live h' x = live h x)
    /\ (forall k x n, (k, x) ∈ ns -> h !! x = Some n -> h' !! x = Some (set_adjacencies (live_edges h (adjacencies n)) n))
    /\ (forall x n, x ∉ map snd ns -> h !! x = Some n -> n_valid n = true -> h' !! x = Some n).
Proof.
  revert h. induction ns as [|[k x] ns IH]; intros h Hd Hn; cbn [gc_nodes].
  { exists h. split; [done|]. split; [done|]. split; [done|]. split; [by intros ? ? ? ?%elem_of_nil|done]. }
  simpl in Hd. apply NoDup_cons in Hd as [Hx Hd]. destruct (Hn k x) as (n & En & Hv & He); [left|].
  unfold deref. rewrite En. cbn [result_bind].
  destruct (gc_edges_ok (adjacencies n) h He) as (h1 & -> & Hg). cbn [result_bind fst snd].
  rewrite (gc_rel_valid h h1 x n Hg En Hv). cbn [result_bind]. set (h2 := <[x := set_adjacencies _ n]> h1).
  assert (same_names h h2) as Hnm.
  { intros a. rewrite (gc_rel_names h h1 Hg a). unfold h2. rewrite lookup_insert. case_decide; [|done]. subst a.
    by rewrite (gc_rel_valid h h1 x n Hg En Hv). }
  assert (forall a, live h2 a = live h a) as Hl.
  { intros a. rewrite <- (gc_rel_live h h1 a Hg). unfold live, h2. rewrite lookup_insert. case_decide; [|done]. subst a.
    by rewrite (gc_rel_valid h h1 x n Hg En Hv). }
  assert (forall a m, a <> x -> h !! a = Some m -> n_valid m = true -> h2 !! a = Some m) as Hkeep.
  { intros a m Ha Em Hm. unfold h2. rewrite lookup_insert_ne by done. by eapply gc_rel_valid. }
  assert (forall k' x', (k', x') ∈ ns -> x' <> x) as Hne.
  { intros k' x' Hin ->. apply Hx, (list_elem_of_fmap_2 snd _ _ Hin). }
  destruct (IH h2 Hd) as (h' & -> & Hnm' & Hl' & H1 & H2).
  { intros k' x' Hin. destruct (Hn k' x') as (m & Em & Hm & He'); [by right|]. exists m. split; [by apply Hkeep; [eapply Hne|..]|].
    split; [done|]. intros k'' y w Hy. destruct (He' _ _ _ Hy) as [z Ez]. specialize (Hnm y). rewrite Ez in Hnm. by destruct (h2 !! y). }
  assert (forall e, live_edges h2 e = live_edges h e) as Hle.
  { intros e. unfold live_edges. apply list_filter_iff. intros [? ?]. by rewrite Hl. }
  exists h'. split; [done|]. split; [intros a; by rewrite Hnm|]. split; [intros a; by rewrite Hl'|]. split.
  - intros k' x' m [[= -> ->]|Hin]%elem_of_cons Em.
    + rewrite En in Em. injection Em as <-. apply (H2 x); [done| |done]. unfold h2. by rewrite lookup_insert, decide_True.
    + rewrite <- Hle. apply (H1 k' x'); [done|]. destruct (Hn k' x') as (m' & Em' & Hm & _); [by right|].
      assert (m' = m) as -> by congruence. apply Hkeep; [by eapply Hne|done|done].
  - intros a m Ha Em Hm. simpl in Ha. rewrite not_elem_of_cons in Ha. apply H2; [tauto| |done]. apply Hkeep; [tauto|done|done].
Qed.

Lemma valid_nodes_ok (ns : list (A * addr)) h : (forall k x, (k, x) ∈ ns -> is_Some (h !! x)) ->
  valid_nodes h ns = Ok (filter (fun e => live h (snd e) = true) ns).
Proof.
  induction ns as [|[k x] ns IH]; intros Hd; cbn [valid_nodes]; [done|]. destruct (Hd k x) as [n En]; [left|].
  unfold deref. rewrite En. cbn [result_bind]. rewrite IH by (intros; eapply Hd; by right). cbn [result_bind]. f_equal.
  assert (live h x = n_valid n) as Hl by (unfold live; by rewrite En).
  rewrite filter_cons. simpl. rewrite Hl. by destruct (n_valid n).
Qed.
(** ** The invariant, and [compute] *)

Record spt_inv (W : Z) s : Prop := {
  si_ok : spt_ok W s;
  si_live : forall o, origin s = Some o -> live (heap s) o = true;
  si_prev : forall k a n, (k, a) ∈ nodes s -> heap s !! a = Some n -> path_ok (heap s) (previous n) }.

Lemma same_graph_names h h' : same_graph h h' -> same_names h h'.
Proof. intros Hg a. specialize (Hg a). destruct (h !! a), (h' !! a); try done. simpl in *. unfold static in Hg. congruence. Qed.

Lemma arc_heap h a b w : arc h a b w -> (exists n, h !! a = Some n) /\ (exists n, h !! b = Some n).
Proof. intros (n & _ & m & En & _ & Em & _). eauto. Qed.
Lemma route_heap h o a f c : route h o a f c -> exists n, h !! f = Some n.
Proof. induction 1 as [b w Hb|]; [by apply arc_heap in Hb as [_ ?]|done]. Qed.

(** A shortest path leads over existing nodes. *)
Lemma shortest_path_ok o h h' a n : same_names h h' -> shortest o h a n -> path_ok h' (current n).
Proof.
  intros Hn Hs. eapply path_ok_same; [done|]. intros Hv. unfold shortest in Hs. rewrite Hv in Hs.
  destruct Hs as (f & l & c & w & -> & -> & Hr & _ & Ha & _). apply route_heap in Hr as [x Ex]. apply arc_heap in Ha as [[y Ey] _]. eauto 10.
Qed.

(** The route that the receiver holds for a node is a shortest one. *)
Definition best_route h o a (r : option (A * Z)) : Prop :=
  match r with
  | Some (g, c) => (exists f m, h !! f = Some m /\ nodename m = g /\ route h o a f c) /\ forall c', walk h o a c' -> c <= c'
  | None => forall c, ~ walk h o a c
  end.

Lemma shortest_best o h h' a n : same_names h h' -> shortest o h a n -> best_route h o a (path_route h' (current n)).
Proof.
  intros Hn Hs. rewrite <- (path_route_same h) by done. unfold shortest in Hs. unfold path_route, best_route.
  destruct (p_valid (current n)); [|done]. destruct Hs as (f & l & c & w & -> & _ & Hr & _ & _ & _ & Hmin). simpl.
  destruct (route_heap _ _ _ _ _ Hr) as [m Em]. rewrite Em. simpl. eauto 10.
Qed.

(** The table after the computation: [h1] is the heap that [dijkstra] leaves, [h2]
    the heap after the deltas and [h3] the heap after the collection. *)
Section After.
Context (W : Z) (s : Spt A) (o : addr) (Hinv : spt_inv W s) (Ho : origin s = Some o)
  (h1 h2 h3 : gmap addr (Node A)) (Hg : same_graph (heap s) h1)
  (Hsh : forall k a, (k, a) ∈ nodes s -> a <> o -> exists n, h1 !! a = Some n /\ shortest o (heap s) a n)
  (Hdelta : forall x, h2 !! x = delta_at (Some o) (nodes s) x <$> h1 !! x).

Let ns : list (A * addr) := filter (fun e => live h2 (snd e) = true) (nodes s).

Context (Hnames : same_names h2 h3)
  (Hcollect : forall k x n, (k, x) ∈ ns -> h2 !! x = Some n -> h3 !! x = Some (set_adjacencies (live_edges h2 (adjacencies n)) n)).

Lemma after_node k a : (k, a) ∈ nodes s -> exists n0 n1 n2, heap s !! a = Some n0 /\ h1 !! a = Some n1 /\ h2 !! a = Some n2
  /\ static n1 = static n0 /\ n2 = (if bool_decide (a = o) then n1 else delta_node n1).
Proof.
  intros Ha. destruct (so_node _ _ (si_ok _ _ Hinv) _ _ Ha) as (n0 & E0 & _).
  destruct (same_graph_node _ _ _ _ (same_graph_sym _ _ Hg) E0) as (n1 & E1 & Hs). exists n0, n1. eexists. split; [done|]. split; [done|].
  rewrite Hdelta, E1. split; [done|]. split; [done|]. unfold delta_at.
  rewrite (bool_decide_true (a ∈ map snd (nodes s))) by (apply elem_snd; by exists k). simpl.
  case_bool_decide as Hao; [|rewrite bool_decide_false by congruence; done].
  injection Hao as ->. by rewrite bool_decide_true.
Qed.

Lemma delta_fields n : n_valid (delta_node n) = n_valid n /\ nodename (delta_node n) = nodename n
  /\ adjacencies (delta_node n) = adjacencies n /\ (n_valid n = true -> previous (delta_node n) = current n).
Proof. unfold delta_node. destruct (n_valid n) eqn:E; simpl; rewrite ?E; done. Qed.

Lemma names_all : same_names (heap s) h2 /\ same_names (heap s) h3 /\ same_names h1 h3.
Proof.
  assert (same_names h1 h2) as H12.
  { intros a. rewrite Hdelta. destruct (h1 !! a) as [n|]; [|done]. simpl. unfold delta_at.
    destruct (_ && _); [|done]. by rewrite delta_node_name. }
  pose proof (same_graph_names _ _ Hg) as H01. split; [intros a; by rewrite H01|]. split; intros a; [by rewrite H01, H12|by rewrite H12].
Qed.

Lemma live_after k a n0 : (k, a) ∈ nodes s -> heap s !! a = Some n0 -> live h2 a = n_valid n0.
Proof.
  intros Ha E0. destruct (after_node k a Ha) as (m0 & n1 & n2 & E0' & E1 & E2 & Hs & En2). rewrite E0 in E0'. injection E0' as <-.
  apply static_fields in Hs as (<- & _). unfold live. rewrite E2, En2. case_bool_decide; [done|apply delta_fields].
Qed.

Lemma elem_ns k a : (k, a) ∈ ns <-> (k, a) ∈ nodes s /\ live h2 a = true.
Proof. unfold ns. rewrite list_elem_of_filter. simpl. tauto. Qed.

Lemma after_inv : spt_inv W (mkSpt h3 ns (origin s)).
Proof.
  pose proof names_all as (N02 & N03 & N13). pose proof (si_ok _ _ Hinv) as Hok.
  assert (forall k a, (k, a) ∈ ns -> exists n0 n1 n2, heap s !! a = Some n0 /\ h1 !! a = Some n1
            /\ h3 !! a = Some (set_adjacencies (live_edges h2 (adjacencies n2)) n2)
            /\ static n1 = static n0 /\ n2 = (if bool_decide (a = o) then n1 else delta_node n1)) as Hnode.
  { intros k a Ha. pose proof Ha as [Ha' _]%elem_ns. destruct (after_node k a Ha') as (n0 & n1 & n2 & E0 & E1 & E2 & Hs & En2).
    exists n0, n1, n2. split; [done|]. split; [done|]. split; [by eapply Hcollect|done]. }
  split; [split|..]; simpl.
  - apply filter_sorted. apply Hok.
  - intros k a Ha. pose proof Ha as [Ha' _]%elem_ns. destruct (Hnode k a Ha) as (n0 & n1 & n2 & E0 & E1 & E3 & Hs & En2).
    destruct (so_node _ _ Hok _ _ Ha') as (m & Em & Ek & Hsort & He). rewrite E0 in Em. injection Em as <-.
    apply static_fields in Hs as (_ & Hnm & Hadj & _).
    assert (nodename n2 = k /\ adjacencies n2 = adjacencies n0) as [Hk2 Ha2].
    { rewrite En2. case_bool_decide; [split; congruence|]. destruct (delta_fields n1) as (_ & -> & -> & _). split; congruence. }
    eexists. split; [done|]. simpl. rewrite Ha2. split; [done|]. split; [by apply filter_sorted|].
    intros k' b w [Hl Hin]%list_elem_of_filter. destruct (He _ _ _ Hin) as [Hb Hw]. split; [|done]. by apply elem_ns.
  - intros x Hx. rewrite Ho in Hx. injection Hx as <-. destruct (so_origin _ _ Hok o Ho) as [k Hk]. exists k. apply elem_ns. split; [done|].
    destruct (so_node _ _ Hok _ _ Hk) as (n & En & _). rewrite (live_after k o n Hk En).
    pose proof (si_live _ _ Hinv o Ho) as Hl. unfold live in Hl. by rewrite En in Hl.
  - intros x Hx. rewrite Ho in Hx. injection Hx as <-. destruct (so_origin _ _ Hok o Ho) as [k Hk].
    destruct (so_node _ _ Hok _ _ Hk) as (n & En & _). pose proof (si_live _ _ Hinv o Ho) as Hl. unfold live in Hl. rewrite En in Hl.
    destruct (Hnode k o) as (n0 & n1 & n2 & E0 & E1 & E3 & Hs & En2). { apply elem_ns. split; [done|]. by rewrite (live_after k o n). }
    unfold live. rewrite E3. simpl. rewrite En2, bool_decide_true by done. apply static_fields in Hs as (-> & _). congruence.
  - intros k a n Ha En. destruct (Hnode k a Ha) as (n0 & n1 & n2 & E0 & E1 & E3 & Hs & En2). rewrite E3 in En. injection En as <-. simpl.
    pose proof Ha as [Ha' Hl]%elem_ns. apply static_fields in Hs as (Hv & _ & _ & Hp). rewrite En2. case_bool_decide as Hao.
    + rewrite Hp. apply (path_ok_same (heap s)); [done|]. by eapply (si_prev _ _ Hinv).
    + destruct (delta_fields n1) as (_ & _ & _ & Hpd). rewrite (live_after k a n0 Ha' E0), <- Hv in Hl. rewrite Hpd by done.
      destruct (Hsh k a Ha' Hao) as (n1' & E1' & Hsh'). rewrite E1 in E1'. injection E1' as <-.
      by apply (shortest_path_ok o (heap s) h3 a).
Qed.

(** The routes that the collected table stands for. *)
Lemma after_routes k : last_routes (mkSpt h3 ns (origin s)) k =
  match m_find k (nodes s) with
  | Some x => if bool_decide (x = o) then last_routes s k
              else n1 ← h1 !! x; if n_valid n1 then path_route h1 (current n1) else None
  | None => None
  end.
Proof.
  pose proof names_all as (N02 & N03 & N13). pose proof (si_ok _ _ Hinv) as Hok. pose proof (so_sorted _ _ Hok) as Hsort.
  assert (m_sorted ns) as Hsn by (by apply filter_sorted). unfold last_routes at 1, find_node. simpl.
  destruct (m_find k (nodes s)) as [x|] eqn:Ef.
  2:{ destruct (m_find k ns) as [y|] eqn:Ey; [|done]. apply find_elem in Ey; [|done]. apply elem_ns in Ey as [Ey _].
      apply find_elem in Ey; [|done]. congruence. }
  pose proof Ef as Hx. apply find_elem in Hx; [|done]. destruct (after_node k x Hx) as (n0 & n1 & n2 & E0 & E1 & E2 & Hs & En2).
  pose proof Hs as (Hv & _ & _ & Hp)%static_fields. pose proof (live_after k x n0 Hx E0) as Hl. rewrite <- Hv in Hl.
  rewrite E1. simpl. destruct (n_valid n1) eqn:Hv1.
  - assert ((k, x) ∈ ns) as Hin by (by apply elem_ns). pose proof Hin as Hin'. apply find_elem in Hin'; [|done]. rewrite Hin'. simpl.
    rewrite (Hcollect k x n2 Hin E2). simpl. rewrite En2. case_bool_decide as Hxo.
    + unfold last_routes, find_node. rewrite Ef. simpl. rewrite E0. simpl. rewrite Hp. symmetry. by apply path_route_same.
    + destruct (delta_fields n1) as (_ & _ & _ & Hpd). rewrite Hpd by done. symmetry. by apply path_route_same.
  - assert (m_find k ns = None) as ->.
    { destruct (m_find k ns) as [y|] eqn:Ey; [|done]. apply find_elem in Ey; [|done]. apply elem_ns in Ey as [Ey Hly].
      rewrite (find_unique k y x _ Hsort Ey Hx) in Hly. congruence. }
    simpl. case_bool_decide as Hxo; [|done]. subst x. pose proof (si_live _ _ Hinv o Ho) as Hlo. unfold live in Hlo. rewrite E0 in Hlo. congruence.
Qed.
End After.
Lemma compute_ok W s o : spt_inv W s -> origin s = Some o -> 0 <= W -> W * Z.of_nat (length (nodes s)) < 2 ^ 31 ->
  exists s' cs, compute s = Ok (s', true, cs) /\ spt_inv W s'
    /\ (forall k, apply_cmds cs (last_routes s) k = last_routes s' k)
    /\ (forall k, exists_node k s' = true -> exists_node k s = true)
    /\ (forall k a, find_node k s' = Some a -> a <> o -> best_route (heap s) o a (last_routes s' k)).
Proof.
  intros Hinv Ho HW Hb. pose proof (si_ok _ _ Hinv) as Hok. pose proof (so_sorted _ _ Hok) as Hsort. unfold compute.
  destruct (dijkstra_ok W s o Hok Ho HW Hb) as (h1 & -> & Hg & Hsh). cbn [result_bind fst snd negb with_heap nodes heap origin].
  rewrite Ho. pose proof (same_graph_names _ _ Hg) as N01.
  assert (forall k a, (k, a) ∈ nodes s -> exists n0 n1, heap s !! a = Some n0 /\ h1 !! a = Some n1 /\ static n1 = static n0) as Hnode.
  { intros k a Ha. destruct (so_node _ _ Hok _ _ Ha) as (n0 & E0 & _).
    destruct (same_graph_node _ _ _ _ (same_graph_sym _ _ Hg) E0) as (n1 & E1 & Hs). eauto. }
  destruct (delta_loop_ok (Some o) (nodes s) h1) as (h2 & cs & -> & Hdelta & Hcmds); [by apply sorted_keys|by eapply spt_addresses| |].
  { intros k a Ha. destruct (Hnode k a Ha) as (n0 & n1 & E0 & E1 & Hs). exists n1. split; [done|].
    destruct (so_node _ _ Hok _ _ Ha) as (m & Em & Ek & _). rewrite E0 in Em. injection Em as <-.
    split; [rewrite <- Ek; by apply static_fields in Hs as (_ & ? & _)|]. intros Hao. destruct (Hsh k a Ha) as (n1' & E1' & Hsh'); [congruence|].
    rewrite E1 in E1'. injection E1' as <-. by apply (shortest_path_ok o (heap s) h1 a). }
  cbn [result_bind fst snd]. unfold garbage_collect. cbn [with_heap nodes heap origin].
  assert (forall k a, (k, a) ∈ nodes s -> exists n2, h2 !! a = Some n2 /\ forall k' b w, (k', (b, w)) ∈ adjacencies n2 -> is_Some (h2 !! b)) as H2.
  { intros k a Ha. destruct (after_node W s o Hinv Ho h1 h2 Hg Hdelta k a Ha) as (n0 & n1 & n2 & E0 & E1 & E2 & Hs & En2). exists n2. split; [done|].
    intros k' b w Hin. assert (adjacencies n2 = adjacencies n0) as Hadj.
    { rewrite En2. apply static_fields in Hs as (_ & _ & <- & _). case_bool_decide; [done|]. apply delta_fields. }
    destruct (so_node _ _ Hok _ _ Ha) as (m & Em & _ & _ & He). rewrite E0 in Em. injection Em as <-. rewrite Hadj in Hin.
    destruct (He _ _ _ Hin) as [Hb' _]. destruct (after_node W s o Hinv Ho h1 h2 Hg Hdelta k' b Hb') as (_ & _ & m2 & _ & _ & -> & _). eauto. }
  rewrite valid_nodes_ok by (intros k a Ha; destruct (H2 k a Ha) as (? & -> & _); eauto). cbn [result_bind].
  set (ns := filter (fun e => live h2 (snd e) = true) (nodes s)).
  destruct (gc_nodes_ok ns h2) as (h3 & -> & Hnames & _ & Hcollect & _).
  { eapply sublist_NoDup; [by eapply spt_addresses|]. apply (fmap_sublist snd), sublist_filter. }
  { intros k a [Hl Ha]%list_elem_of_filter. destruct (H2 k a Ha) as (n2 & E2 & He). exists n2. split; [done|].
    simpl in Hl. unfold live in Hl. rewrite E2 in Hl. done. }
  cbn [result_bind]. eexists _, cs. split; [done|].
  pose proof (after_routes W s o Hinv Ho h1 h2 h3 Hg Hdelta Hnames Hcollect) as Hroutes.
  split; [|split; [|split]].
  - exact (after_inv W s o Hinv Ho h1 h2 h3 Hg Hsh Hdelta Hnames Hcollect).
  - intros k. fold ns in Hroutes. rewrite Hroutes. destruct (Hcmds (last_routes s)) as [Hc1 Hc2].
    { intros k' x n Hx Hxo En. unfold last_routes, find_node. pose proof Hx as Hx'. apply find_elem in Hx'; [|done]. rewrite Hx'. simpl.
      destruct (Hnode k' x Hx) as (n0 & n1 & E0 & E1 & Hs). rewrite E0. simpl. rewrite En in E1. injection E1 as <-.
      apply static_fields in Hs as (_ & _ & _ & <-). by apply path_route_same. }
    destruct (m_find k (nodes s)) as [x|] eqn:Ef.
    + pose proof Ef as Hx. apply find_elem in Hx; [|done]. destruct (Hnode k x Hx) as (n0 & n1 & E0 & E1 & Hs).
      case_bool_decide as Hxo.
      * apply Hc2. intros y Hy. by rewrite (find_unique k y x _ Hsort Hy Hx), Hxo.
      * rewrite E1. simpl. apply (Hc1 k x n1 Hx); [congruence|done].
    + rewrite Hc2; [unfold last_routes, find_node; by rewrite Ef|]. intros x Hx. apply find_elem in Hx; [|done]. congruence.
  - intros k. unfold exists_node, find_node. simpl. destruct (m_find k ns) as [x|] eqn:Ex; [|done]. intros _.
    apply find_elem in Ex; [|by apply filter_sorted]. apply list_elem_of_filter in Ex as [_ Ex]. apply find_elem in Ex; [|done]. by rewrite Ex.
  - intros k a Ha Hao. unfold find_node in Ha. simpl in Ha. apply find_elem in Ha; [|by apply filter_sorted].
    apply list_elem_of_filter in Ha as [Hl Ha]. simpl in Hl. fold ns in Hroutes. rewrite Hroutes.
    pose proof Ha as Ha'. apply find_elem in Ha'; [|done]. rewrite Ha', bool_decide_false by done.
    destruct (Hsh k a Ha Hao) as (n1 & E1 & Hsh'). rewrite E1. simpl.
    assert (n_valid n1 = true) as ->.
    { destruct (Hnode k a Ha) as (n0 & n1' & E0 & E1' & Hs). rewrite E1 in E1'. injection E1' as <-.
      rewrite (live_after W s o Hinv Ho h1 h2 Hg Hdelta k a n0 Ha E0) in Hl. apply static_fields in Hs as (-> & _). done. }
    by apply (shortest_best o (heap s) h1).
Qed.
End Compute.
