(* ===== verification/SptRun.v ===== *)
(** * Runs of the shortest path tree (libproto/spt.hh)

    The operations of [Spt] keep its invariant, so that after any sequence of
    changes and computations the receiver of the commands holds shortest routes. *)

From Stdlib Require Import ZArith Lia Sorted.
From stdpp Require Import base tactics option numbers gmap list.
From S2P Require Import Prelude OMap Spt SptProps SptCompute.
Local Open Scope Z_scope.
Local Open Scope xorp_scope.

(** The operations; the addresses are those of the nodes that are allocated. *)
Inductive spt_op (A : Type) :=
  | OpAddNode (k : A) (p : addr)
  | OpUpdateNode (k : A)
  | OpRemoveNode (k : A)
  | OpAddEdge (src : A) (w : Z) (dst : A) (p : addr)
  | OpUpdateEdge (src : A) (w : Z) (dst : A)
  | OpRemoveEdge (src dst : A)
  | OpSetOrigin (k : A)
  | OpCompute.
Arguments OpAddNode {A} _ _.
Arguments OpUpdateNode {A} _.
Arguments OpRemoveNode {A} _.
Arguments OpAddEdge {A} _ _ _ _.
Arguments OpUpdateEdge {A} _ _ _.
Arguments OpRemoveEdge {A} _ _.
Arguments OpSetOrigin {A} _.
Arguments OpCompute {A}.

Section Run.
Context {A : Type} `{KeyOrder A, !KeyOrderLaws A, !EqDecision A}.
Context (W : Z).
Implicit Types (s : Spt A) (n : Node A) (h : gmap addr (Node A)) (a b o x p : addr) (k : A).

Definition quiet (r : result xorp_exn (Spt A * bool)) : result xorp_exn (Spt A * bool * list (RouteCmd A)) :=
  t <-! r ;; Ok (fst t, snd t, []).

Definition spt_exec (op : spt_op A) s : result xorp_exn (Spt A * bool * list (RouteCmd A)) :=
  match op with
  | OpAddNode k p => quiet (add_node k p s)
  | OpUpdateNode k => quiet (update_node k s)
  | OpRemoveNode k => quiet (remove_node k s)
  | OpAddEdge src w dst p => quiet (add_edge src w dst p s)
  | OpUpdateEdge src w dst => quiet (update_edge_weight src w dst s)
  | OpRemoveEdge src dst => quiet (remove_edge src dst s)
  | OpSetOrigin k => Ok (fst (set_origin k s), snd (set_origin k s), [])
  | OpCompute => compute s
  end.

(** The allocator returns a new address, the weights are in range, the origin is
    not removed, and when the tree is computed no path can overflow. *)
Definition op_valid s (op : spt_op A) : Prop :=
  match op with
  | OpAddNode _ p => heap s !! p = None
  | OpUpdateNode _ | OpRemoveEdge _ _ => True
  | OpRemoveNode k => forall x, find_node k s = Some x -> origin s <> Some x
  | OpAddEdge _ w _ p => heap s !! p = None /\ 0 <= w <= W
  | OpUpdateEdge _ w _ => 0 <= w <= W
  | OpSetOrigin k => forall x, find_node k s = Some x -> live (heap s) x = true
  | OpCompute => W * Z.of_nat (length (nodes s)) < 2 ^ 31
  end.

(** ** The operations keep the invariant and the routes of the last computation *)

Definition kept s s' : Prop := spt_inv W s' /\ forall k, last_routes s' k = last_routes s k.

Lemma kept_refl s : spt_inv W s -> kept s s.
Proof. done. Qed.

Lemma last_routes_names s s' : nodes s' = nodes s -> same_names (heap s) (heap s') ->
  (forall k x, (k, x) ∈ nodes s -> previous <$> heap s' !! x = previous <$> heap s !! x) -> m_sorted (nodes s) ->
  forall k, last_routes s' k = last_routes s k.
Proof.
  intros En Hn Hp Hs k. unfold last_routes, find_node. rewrite En. destruct (m_find k (nodes s)) as [x|] eqn:Ex; simpl; [|done].
  apply find_elem in Ex; [|done]. specialize (Hp k x Ex). destruct (heap s !! x), (heap s' !! x); try done. simpl in *.
  injection Hp as ->. symmetry. by apply path_route_same.
Qed.

(** A change of one node of the table. *)
Lemma update_kept s k x n n' : spt_inv W s -> (k, x) ∈ nodes s -> heap s !! x = Some n ->
  nodename n' = nodename n -> previous n' = previous n -> m_sorted (adjacencies n') ->
  (forall k' b w, (k', (b, w)) ∈ adjacencies n' -> (k', b) ∈ nodes s /\ 0 <= w <= W) ->
  (n_valid n' = true \/ origin s <> Some x) ->
  kept s (with_heap (<[x := n']> (heap s)) s).
Proof.
  intros Hi Hx En Enm Epv Hs He Hv. pose proof (si_ok _ _ Hi) as Hok.
  assert (same_names (heap s) (<[x := n']> (heap s))) as Hnm by (by eapply insert_same_names).
  split; [split; [split|..]|]; simpl.
  - apply Hok.
  - intros k' a Ha. rewrite lookup_insert. case_decide as Hxa; [|by apply Hok]. subst a. exists n'.
    destruct (so_node _ _ Hok _ _ Ha) as (m & Em & Ek & _). rewrite En in Em. injection Em as <-. split; [done|]. split; [congruence|done].
  - apply Hok.
  - intros o Ho. unfold live. rewrite lookup_insert. case_decide as Hxo; [subst; destruct Hv; [done|congruence]|by apply (si_live _ _ Hi)].
  - intros k' a m Ha Em. rewrite lookup_insert in Em. apply (path_ok_same (heap s)); [done|]. case_decide as Hxa.
    + injection Em as <-. subst a. rewrite Epv. by eapply (si_prev _ _ Hi).
    + by eapply (si_prev _ _ Hi).
  - apply last_routes_names; [done|done| |apply Hok]. intros k' y Hy. simpl. rewrite lookup_insert. case_decide; [|done].
    subst. rewrite En. simpl. by rewrite Epv.
Qed.

(** A new node. *)
Lemma new_node_kept s k p : spt_inv W s -> m_find k (nodes s) = None -> heap s !! p = None ->
  kept s (mkSpt (<[p := node_new k]> (heap s)) (m_insert k p (nodes s)) (origin s)).
Proof.
  intros Hi Hk Hp. pose proof (si_ok _ _ Hi) as Hok. pose proof (so_sorted _ _ Hok) as Hsort.
  assert (forall k' a, (k', a) ∈ nodes s -> a <> p) as Hne.
  { intros k' a Ha ->. destruct (so_node _ _ Hok _ _ Ha) as (n & En & _). congruence. }
  assert (forall k' a, (k', a) ∈ nodes s -> k' <> k) as Hkne.
  { intros k' a Ha ->. apply find_elem in Ha; [|done]. congruence. }
  assert (forall pt, path_ok (heap s) pt -> path_ok (<[p := node_new k]> (heap s)) pt) as Hpath.
  { intros pt Hpt Hv. destruct (Hpt Hv) as [(f & n & Ef & En) (l & m & El & Em)].
    split; [exists f, n|exists l, m]; (split; [done|]); rewrite lookup_insert_ne; congruence. }
  split; [split; [split|..]|]; simpl.
  - by apply insert_sorted.
  - intros k' a Ha. apply insert_elem in Ha as [[-> ->]|[_ Ha]]; [| |done].
    + exists (node_new k). rewrite lookup_insert, decide_True by done. split; [done|]. split; [done|]. split; [constructor|].
      by intros ? ? ? ?%elem_of_nil.
    + destruct (so_node _ _ Hok _ _ Ha) as (n & En & Ek & Hs & He). exists n.
      rewrite lookup_insert_ne by (apply not_eq_sym; by eapply Hne). split; [done|]. split; [done|]. split; [done|].
      intros k'' b w Hin. destruct (He _ _ _ Hin) as [Hb Hw]. split; [|done]. apply insert_elem; [done|]. right. split; [by eapply Hkne|done].
  - intros o Ho. destruct (so_origin _ _ Hok o Ho) as [k' Hk']. exists k'. apply insert_elem; [done|]. right. split; [by eapply Hkne|done].
  - intros o Ho. destruct (so_origin _ _ Hok o Ho) as [k' Hk']. unfold live. rewrite lookup_insert_ne by (apply not_eq_sym; by eapply Hne).
    by apply (si_live _ _ Hi).
  - intros k' a n Ha En. apply insert_elem in Ha as [[-> ->]|[_ Ha]]; [| |done].
    + rewrite lookup_insert, decide_True in En by done. injection En as <-. done.
    + rewrite lookup_insert_ne in En by (apply not_eq_sym; by eapply Hne). apply Hpath. by eapply (si_prev _ _ Hi).
  - intros k'. unfold last_routes, find_node. simpl. rewrite find_insert by done. case_decide as Hkk.
    + subst k'. rewrite Hk. simpl. by rewrite lookup_insert, decide_True.
    + destruct (m_find k' (nodes s)) as [x|] eqn:Ex; simpl; [|done]. apply find_elem in Ex; [|done].
      rewrite lookup_insert_ne by (apply not_eq_sym; by eapply Hne).
      destruct (so_node _ _ Hok _ _ Ex) as (n & En & _). rewrite En. simpl.
      pose proof (si_prev _ _ Hi _ _ _ Ex En) as Hpo. unfold path_route. destruct (p_valid (previous n)) eqn:Epv; [|done].
      destruct (Hpo Epv) as [(f & m & -> & Em) _]. simpl. rewrite lookup_insert_ne by congruence. done.
Qed.

Lemma node_at s k x : spt_inv W s -> find_node k s = Some x -> (k, x) ∈ nodes s /\ exists n, heap s !! x = Some n /\ nodename n = k
  /\ m_sorted (adjacencies n) /\ forall k' b w, (k', (b, w)) ∈ adjacencies n -> (k', b) ∈ nodes s /\ 0 <= w <= W.
Proof.
  intros Hi Hx. apply find_elem in Hx; [|apply Hi]. split; [done|]. by apply (so_node _ _ (si_ok _ _ Hi)).
Qed.

Definition op_kept s (r : result xorp_exn (Spt A * bool)) : Prop := exists s' ok, r = Ok (s', ok) /\ kept s s'.

Lemma add_node_kept s k p : spt_inv W s -> heap s !! p = None ->
  exists s' ok, add_node k p s = Ok (s', ok) /\ kept s s' /\ (m_find k (nodes s) = None -> ok = true) /\
    (forall k' x, find_node k' s = Some x -> find_node k' s' = Some x).
Proof.
  intros Hi Hp. unfold add_node. destruct (find_node k s) as [x|] eqn:Ex.
  - destruct (node_at s k x Hi Ex) as (Hx & n & En & Ek & Hs & He). unfold deref. rewrite En. cbn [result_bind].
    assert (m_find k (nodes s) = None -> forall ok, ok = true) as Hno by (unfold find_node in Ex; congruence).
    destruct (n_valid n); eexists _, _; (split; [done|]); (split; [|split; [by intros ?; apply Hno|done]]); [done|].
    apply (update_kept s k x n); [done|done|done|done|done|constructor|by intros ? ? ? ?%elem_of_nil|by left].
  - eexists _, _. split; [done|]. split; [by apply new_node_kept|]. split; [done|]. intros k' x Hx. unfold find_node in *. simpl.
    rewrite find_insert by apply Hi. case_decide; [congruence|done].
Qed.

(** An operation on an edge of a node. *)
Lemma edge_kept s src x n n' : spt_inv W s -> find_node src s = Some x -> heap s !! x = Some n ->
  n' = set_adjacencies (adjacencies n') n -> m_sorted (adjacencies n') ->
  (forall k' b w, (k', (b, w)) ∈ adjacencies n' -> (k', b) ∈ nodes s /\ 0 <= w <= W) ->
  kept s (with_heap (<[x := n']> (heap s)) s).
Proof.
  intros Hi Hx En En' Hs He. destruct (node_at s src x Hi Hx) as (Hin & _).
  apply (update_kept s src x n); try done; [by rewrite En'|by rewrite En'|].
  destruct (decide (origin s = Some x)) as [Ho|]; [left|by right]. rewrite En'. simpl.
  pose proof (si_live _ _ Hi x Ho) as Hl. unfold live in Hl. by rewrite En in Hl.
Qed.

Lemma add_edge_kept s src w dst p : spt_inv W s -> heap s !! p = None -> 0 <= w <= W -> op_kept s (add_edge src w dst p s).
Proof.
  intros Hi Hp Hw. unfold add_edge. destruct (find_node src s) as [x|] eqn:Ex; [|by eexists _, _].
  assert (exists s1, (match find_node dst s with None => add_node dst p s | Some _ => Ok (s, true) end) = Ok (s1, true)
            /\ kept s s1 /\ find_node src s1 = Some x /\ exists y, find_node dst s1 = Some y) as (s1 & -> & [Hi1 Hr1] & Ex1 & y & Ey).
  { destruct (find_node dst s) as [y|] eqn:Ey; [exists s; split; [done|]; split; [done|]; split; [done|by exists y]|].
    destruct (add_node_kept s dst p Hi Hp) as (s1 & ok & E & Hk & Hok & Hf). rewrite (Hok Ey) in E. exists s1. split; [done|].
    split; [done|]. split; [by apply Hf|]. unfold add_node in E. rewrite Ey in E. injection E as <-. exists p. unfold find_node. simpl.
    rewrite find_insert by apply Hi. by rewrite decide_True. }
  cbn [result_bind fst snd negb]. rewrite Ey.
  destruct (node_at s1 src x Hi1 Ex1) as (_ & n & En & _ & Hs & He). destruct (node_at s1 dst y Hi1 Ey) as (Hy & d & Ed & Ek & _).
  unfold deref. rewrite En. cbn [result_bind]. rewrite Ed. cbn [result_bind]. unfold node_add_edge.
  assert (forall s2, kept s1 s2 -> kept s s2) as Htr by (intros s2 [? Hr2]; split; [done|]; intros k; by rewrite Hr2).
  destruct (m_find (nodename d) (adjacencies n)) eqn:Ef; eexists _, _; (split; [done|]); apply Htr.
  - apply (edge_kept s1 src x n n); try done. by destruct n.
  - apply (edge_kept s1 src x n); [done|done|done|done|by apply insert_sorted|].
    intros k' b w' Hin. simpl in Hin. apply insert_elem in Hin as [[-> [= -> ->]]|[_ Hin]]; [by rewrite Ek|by eapply He|done].
Qed.

(** [update_edge_weight] and [remove_edge]. *)
Lemma on_edge_kept s src dst (f : A -> Node A -> Node A * bool) : spt_inv W s ->
  (forall k n, m_sorted (adjacencies n) ->
     fst (f k n) = set_adjacencies (adjacencies (fst (f k n))) n /\ m_sorted (adjacencies (fst (f k n)))
     /\ forall k' b w, (k', (b, w)) ∈ adjacencies (fst (f k n)) -> exists w', (k', (b, w')) ∈ adjacencies n /\ (w = w' \/ 0 <= w <= W)) ->
  op_kept s (on_edge src dst f s).
Proof.
  intros Hi Hf. unfold on_edge. destruct (find_node src s) as [x|] eqn:Ex; [|by eexists _, _].
  destruct (find_node dst s) as [y|] eqn:Ey; [|by eexists _, _].
  destruct (node_at s src x Hi Ex) as (_ & n & En & _ & Hs & He). destruct (node_at s dst y Hi Ey) as (Hy & d & Ed & Ek & _).
  unfold deref. rewrite En. cbn [result_bind]. rewrite Ed. cbn [result_bind]. destruct (Hf (nodename d) n Hs) as (F1 & F2 & F3).
  destruct (f (nodename d) n) as [n' ok]. simpl in *. eexists _, _. split; [done|]. apply (edge_kept s src x n); try done.
  intros k' b w Hin. destruct (F3 _ _ _ Hin) as (w' & Hin' & Hw). destruct (He _ _ _ Hin') as [? ?]. split; [done|]. by destruct Hw as [->|].
Qed.

Lemma op_kept_ok s op : spt_inv W s -> op <> OpCompute -> op_valid s op ->
  exists s' ok, spt_exec op s = Ok (s', ok, []) /\ kept s s'.
Proof.
  intros Hi Hop Hv. assert (forall r, op_kept s r -> exists s' ok, quiet r = Ok (s', ok, []) /\ kept s s') as Hq.
  { intros r (s' & ok & -> & Hk). by exists s', ok. }
  destruct op as [k p|k|k|src w dst p|src w dst|src dst|k|]; cbn [spt_exec]; simpl in Hv; [apply Hq..| |done].
  - destruct (add_node_kept s k p Hi Hv) as (s' & ok & E & Hk & _). by exists s', ok.
  - unfold update_node. destruct (find_node k s) as [x|] eqn:Ex; [|by eexists _, _].
    destruct (node_at s k x Hi Ex) as (Hx & n & En & Ek & Hs & He). unfold deref. rewrite En. cbn [result_bind].
    destruct (n_valid n) eqn:Hvn; [|by eexists _, _]. eexists _, _. split; [done|]. apply (update_kept s k x n); try done. by left.
  - unfold remove_node. destruct (find_node k s) as [x|] eqn:Ex; [|by eexists _, _].
    destruct (node_at s k x Hi Ex) as (Hx & n & En & Ek & Hs & He). unfold deref. rewrite En. cbn [result_bind].
    destruct (n_valid n) eqn:Hvn; [|by eexists _, _]. eexists _, _. split; [done|]. apply (update_kept s k x n); try done. right. by apply Hv.
  - destruct Hv. by apply add_edge_kept.
  - apply on_edge_kept; [done|]. intros k n Hs. unfold node_update_edge_weight.
    destruct (m_find k (adjacencies n)) as [[d w0]|] eqn:Ef; simpl; [|split; [by destruct n|]; eauto 10].
    split; [done|]. split; [by apply insert_sorted|]. intros k' b w' Hin.
    apply insert_elem in Hin as [[-> [= -> ->]]|[_ Hin]]; [| |done]; [apply find_elem in Ef; [|done]; eauto|eauto].
  - apply on_edge_kept; [done|]. intros k n Hs. unfold node_remove_edge.
    destruct (m_find k (adjacencies n)) as [[d w0]|] eqn:Ef; simpl; [|split; [by destruct n|]; eauto 10].
    split; [done|]. split; [by apply erase_sorted|]. intros k' b w' Hin. apply erase_elem in Hin as [_ Hin]; [|done]. eauto.
  - eexists _, _. split; [done|]. unfold set_origin. destruct (find_node k s) as [x|] eqn:Ex; [|done]. simpl.
    destruct (node_at s k x Hi Ex) as (Hx & n & En & Ek & Hs & He). pose proof (si_ok _ _ Hi) as Hok.
    split; [split; [split|..]|done]; simpl; [apply Hok|apply Hok|intros o [= <-]; by exists k|intros o [= <-]; by apply Hv|apply Hi].
Qed.

(** ** Runs *)

(** The states that are reached, with the routes of the receiver. *)
Inductive spt_run : Spt A -> routes (A := A) -> Prop :=
  | run_new : spt_run spt_new (fun _ => None)
  | run_op s t op s' ok cs : spt_run s t -> op_valid s op -> spt_exec op s = Ok (s', ok, cs) -> spt_run s' (apply_cmds cs t).

Lemma spt_new_inv : spt_inv W spt_new.
Proof.
  split; [split|..]; simpl; [exact (SSorted_nil _)|by intros ? ? ?%elem_of_nil|done|done|by intros ? ? ? ?%elem_of_nil].
Qed.

Lemma apply_cmds_ext cs (t t' : routes (A := A)) : (forall k, t k = t' k) -> forall k, apply_cmds cs t k = apply_cmds cs t' k.
Proof.
  revert t t'. induction cs as [|c cs IH]; intros t t' Ht k; [by apply Ht|]. apply (IH (apply_cmd t c) (apply_cmd t' c)).
  intros k'. destruct c; simpl; case_decide; done || apply Ht.
Qed.

Lemma exec_run_ok s t op : 0 <= W -> spt_inv W s -> (forall k, t k = last_routes s k) -> op_valid s op ->
  exists s' ok cs, spt_exec op s = Ok (s', ok, cs) /\ spt_inv W s' /\ forall k, apply_cmds cs t k = last_routes s' k.
Proof.
  intros HW Hi Ht Hv. assert (op = OpCompute \/ op <> OpCompute) as [->|Hop] by (destruct op; by (left + right)).
  - cbn [spt_exec]. destruct (origin s) as [o|] eqn:Ho.
    + destruct (compute_ok W s o Hi Ho HW Hv) as (s' & cs & -> & Hi' & Hc & _). exists s', true, cs. split; [done|]. split; [done|].
      intros k. rewrite <- Hc. by apply apply_cmds_ext.
    + unfold compute, dijkstra. rewrite Ho. by exists s, false, [].
  - destruct (op_kept_ok s op Hi Hop Hv) as (s' & ok & -> & Hi' & Hr). exists s', ok, []. split; [done|]. split; [done|].
    intros k. by rewrite Hr.
Qed.

Lemma spt_run_ok s t : 0 <= W -> spt_run s t -> spt_inv W s /\ forall k, t k = last_routes s k.
Proof.
  intros HW. induction 1 as [|s t op s' ok cs _ [Hi Ht] Hv E]; [split; [apply spt_new_inv|done]|].
  destruct (exec_run_ok s t op HW Hi Ht Hv) as (s1 & ok1 & cs1 & E1 & Hi1 & H1). rewrite E in E1. by injection E1 as <- <- <-.
Qed.

(** C15: In every run of the tree, through any changes of the graph and any
    computations, no operation fails, and after a computation the receiver of its
    commands holds, for every node that is not removed, other than the origin, a
    shortest route if it is reachable and none otherwise, and no route to any other
    name. *)
Theorem spt_run_correct s t : 0 <= W -> spt_run s t ->
  (forall op, op_valid s op -> exists r, spt_exec op s = Ok r)
  /\ forall o, origin s = Some o -> W * Z.of_nat (length (nodes s)) < 2 ^ 31 ->
      exists s' cs, compute s = Ok (s', true, cs) /\
        forall k, match find_node k s' with
        | Some a => a <> o -> match apply_cmds cs t k with
            | Some (g, c) => (exists f m, heap s !! f = Some m /\ nodename m = g /\ route (heap s) o a f c)
                             /\ forall c', walk (heap s) o a c' -> c <= c'
            | None => forall c, ~ walk (heap s) o a c
            end
        | None => apply_cmds cs t k = None
        end.
Proof.
  intros HW Hrun. destruct (spt_run_ok s t HW Hrun) as [Hi Ht]. split.
  - intros op Hv. destruct (exec_run_ok s t op HW Hi Ht Hv) as (s' & ok & cs & E & _). by exists (s', ok, cs).
  - intros o Ho Hb. destruct (compute_ok W s o Hi Ho HW Hb) as (s' & cs & E & _ & Hc & _ & Hbest). exists s', cs. split; [done|].
    intros k. rewrite (apply_cmds_ext cs _ _ Ht), Hc. destruct (find_node k s') as [a|] eqn:Ea.
    + intros Hao. exact (Hbest k a Ea Hao).
    + unfold last_routes. by rewrite Ea.
Qed.
End Run.

(** ** A concrete graph *)

(** Three nodes: the direct edge from 1 to 2 is longer than the way over 3, and the
    edges of node 4 do not make it reachable. *)
Definition sample_ops : list (spt_op Z) :=
  [OpAddNode 1 10; OpAddNode 2 20; OpAddNode 3 30; OpAddNode 4 40; OpAddEdge 1 5 2 50; OpAddEdge 1 1 3 50;
   OpAddEdge 3 1 2 50; OpAddEdge 4 1 2 50; OpSetOrigin 1].

Definition spt_next (s : Spt Z) (op : spt_op Z) : Spt Z :=
  match spt_exec op s with Ok (s', _, _) => s' | Throw _ => s end.
Definition sample_spt : Spt Z := foldl spt_next spt_new sample_ops.

Lemma spt_run_next W s op : 0 <= W -> (exists t, spt_run W s t) -> op_valid W s op -> exists t, spt_run W (spt_next s op) t.
Proof.
  intros HW [t Hr] Hv. destruct (spt_run_ok W s t HW Hr) as [Hi Ht].
  destruct (exec_run_ok W s t op HW Hi Ht Hv) as (s' & ok & cs & E & _). unfold spt_next. rewrite E.
  eexists. by eapply run_op.
Qed.

Lemma sample_spt_run : exists t, spt_run 100 sample_spt t.
Proof.
  unfold sample_spt, sample_ops. cbn [foldl].
  repeat (apply spt_run_next; [lia| |vm_compute; first [reflexivity | split; [reflexivity|split; discriminate] | intros ? [= <-]; reflexivity]]).
  exists (fun _ => None). apply run_new.
Qed.

Lemma sample_compute : exists s', compute sample_spt = Ok (s', true, [ADD 2 3 3 2; ADD 3 3 1 1]).
Proof. eexists. vm_compute. reflexivity. Qed.

Lemma spt_run_correct_witness : exists t, spt_run 100 sample_spt t
  /\ exists s' cs, compute sample_spt = Ok (s', true, cs) /\
      forall k, match find_node k s' with
      | Some a => a <> 10 -> match apply_cmds cs t k with
          | Some (g, c) => (exists f m, heap sample_spt !! f = Some m /\ nodename m = g /\ route (heap sample_spt) 10 a f c)
                           /\ forall c', walk (heap sample_spt) 10 a c' -> c <= c'
          | None => forall c, ~ walk (heap sample_spt) 10 a c
          end
      | None => apply_cmds cs t k = None
      end.
Proof.
  destruct sample_spt_run as [t Hr]. exists t. split; [exact Hr|].
  apply (proj2 (spt_run_correct 100 sample_spt t ltac:(lia) Hr) 10); vm_compute; reflexivity.
Defined.

Lemma dijkstra_correct_witness :
  exists h, dijkstra sample_spt = Ok (with_heap h sample_spt, true) /\ same_graph (heap sample_spt) h
    /\ forall k a, (k, a) ∈ nodes sample_spt -> a <> 10 -> exists n, h !! a = Some n /\
      if p_valid (current n) then
        exists f l c w, first_hop (current n) = Some f /\ last_hop (current n) = Some l
          /\ route (heap sample_spt) 10 a f (path_length (current n))
          /\ walk (heap sample_spt) 10 l c /\ arc (heap sample_spt) l a w /\ path_length (current n) = c + w
          /\ forall c', walk (heap sample_spt) 10 a c' -> path_length (current n) <= c'
      else forall c, ~ walk (heap sample_spt) 10 a c.
Proof.
  destruct sample_spt_run as [t Hr]. destruct (spt_run_ok 100 sample_spt t ltac:(lia) Hr) as [Hi _].
  apply (dijkstra_correct 100 sample_spt 10); [apply Hi|vm_compute; reflexivity|lia|vm_compute; reflexivity].
Defined.
