(* ===== verification/TimeVal.v ===== *)
(** * Time values (libxorp/timeval.hh)

    A [TimeVal] has two [int32_t] fields, and its operators compute in [int]: a sum
    or a product that does not fit is undefined in C++ and [Throw IntOverflow] here.
    A value is normal when its microseconds are below a million; normal values stand
    for the number of microseconds [tv_value], and the operators compute with it. *)

From Stdlib Require Import ZArith Lia.
From stdpp Require Import base tactics option numbers.
From S2P Require Import Prelude.
Local Open Scope Z_scope.
Local Open Scope xorp_scope.

Record TimeVal := mkTV { sec : Z; usec : Z }.

#[global] Instance TimeVal_eq_dec : EqDecision TimeVal.
Proof. solve_decision. Defined.

Definition ONE_MILLION : Z := 1000000.
Definition ZERO : TimeVal := mkTV 0 0.
Definition MAXIMUM : TimeVal := mkTV (2 ^ 31 - 1) (ONE_MILLION - 1).

(** The result of an [int] expression. *)
Definition int_result (z : Z) : result xorp_exn Z :=
  if (- 2 ^ 31 <=? z) && (z <? 2 ^ 31) then Ok z else Throw IntOverflow.

Definition tv_eqb (a b : TimeVal) : bool := (sec a =? sec b) && (usec a =? usec b).
Definition tv_ltb (a b : TimeVal) : bool := if sec a =? sec b then usec a <? usec b else sec a <? sec b.
(** [std::rel_ops]: [<=], [>] and [>=] *)
Definition tv_leb (a b : TimeVal) : bool := negb (tv_ltb b a).
Definition tv_gtb (a b : TimeVal) : bool := tv_ltb b a.
Definition tv_geb (a b : TimeVal) : bool := negb (tv_ltb a b).

(** [operator+=] and [operator+] *)
Definition tv_add (a delta : TimeVal) : result xorp_exn TimeVal :=
  s <-! int_result (sec a + sec delta) ;;
  u <-! int_result (usec a + usec delta) ;;
  if ONE_MILLION <=? u then
    s <-! int_result (s + 1) ;;
    Ok (mkTV s (u - ONE_MILLION))
  else Ok (mkTV s u).

(** [operator-=] and [operator-] *)
Definition tv_sub (a delta : TimeVal) : result xorp_exn TimeVal :=
  s <-! int_result (sec a - sec delta) ;;
  r <-! (if usec a <? usec delta then
           s <-! int_result (s - 1) ;;
           u <-! int_result (usec a + ONE_MILLION) ;;
           Ok (s, u)
         else Ok (s, usec a)) ;;
  u <-! int_result (snd r - usec delta) ;;
  Ok (mkTV (fst r) u).

(** [operator*(int)]: the two products are [int], the rest is [uint32_t]. *)
Definition tv_mul (a : TimeVal) (n : Z) : result xorp_exn TimeVal :=
  pu <-! int_result (usec a * n) ;;
  ps <-! int_result (sec a * n) ;;
  let tmp_usec := pu mod 2 ^ 32 in
  let tmp_sec := (ps + tmp_usec / ONE_MILLION) mod 2 ^ 32 in
  Ok (mkTV (if tmp_sec <? 2 ^ 31 then tmp_sec else tmp_sec - 2 ^ 32) (tmp_usec mod ONE_MILLION)).

(** ** The order *)
Definition tv_le (a b : TimeVal) : Prop := sec a < sec b \/ (sec a = sec b /\ usec a <= usec b).

Lemma tv_ltb_spec a b : tv_ltb a b = true <-> ~ tv_le b a.
Proof. unfold tv_ltb, tv_le. case_if; rewrite Z.ltb_lt; lia. Qed.
Lemma tv_ltb_false a b : tv_ltb a b = false <-> tv_le b a.
Proof. unfold tv_ltb, tv_le. case_if; rewrite Z.ltb_ge; lia. Qed.
Lemma tv_leb_spec a b : tv_leb a b = true <-> tv_le a b.
Proof. unfold tv_leb. rewrite negb_true_iff. apply tv_ltb_false. Qed.
Lemma tv_leb_false a b : tv_leb a b = false <-> ~ tv_le a b.
Proof. unfold tv_leb. rewrite negb_false_iff. apply tv_ltb_spec. Qed.

#[global] Instance tv_le_dec a b : Decision (tv_le a b).
Proof. refine (cast_if (decide (tv_leb a b = true))); rewrite <- tv_leb_spec; done. Defined.

Lemma tv_le_refl a : tv_le a a.
Proof. unfold tv_le. lia. Qed.
Lemma tv_le_trans a b c : tv_le a b -> tv_le b c -> tv_le a c.
Proof. unfold tv_le. lia. Qed.
Lemma tv_le_total a b : tv_le a b \/ tv_le b a.
Proof. unfold tv_le. lia. Qed.
Lemma tv_not_le a b : ~ tv_le a b -> tv_le b a.
Proof. unfold tv_le. lia. Qed.
#[export] Hint Resolve tv_le_refl tv_not_le : xorp.

(** ** Normal values *)
Definition is_int (z : Z) : Prop := - 2 ^ 31 <= z < 2 ^ 31.
Definition tv_normal (a : TimeVal) : Prop := is_int (sec a) /\ 0 <= usec a < ONE_MILLION.
Definition tv_value (a : TimeVal) : Z := sec a * ONE_MILLION + usec a.
Definition value_fits (v : Z) : Prop := is_int (v / ONE_MILLION).

Lemma tv_le_value a b : tv_normal a -> tv_normal b -> tv_le a b <-> tv_value a <= tv_value b.
Proof. unfold tv_normal, tv_le, tv_value, ONE_MILLION. lia. Qed.

Lemma int_result_ok z : is_int z -> int_result z = Ok z.
Proof. unfold int_result, is_int. intros. case_if; [done|lia..]. Qed.

Ltac int_ok := rewrite int_result_ok by (unfold is_int in *; dlia); cbn [result_bind].

(** On normal values the operator [+] adds the numbers of microseconds and
    returns a normal value, whenever the sum has a representation. *)
Theorem tv_add_correct a b :
  tv_normal a -> tv_normal b -> is_int (sec a + sec b) -> value_fits (tv_value a + tv_value b) ->
  exists c, tv_add a b = Ok c /\ tv_normal c /\ tv_value c = tv_value a + tv_value b.
Proof.
  unfold tv_normal, value_fits, tv_value, tv_add, ONE_MILLION. intros [Ha Hua] [Hb Hub] Hs Hv.
  int_ok. int_ok. case_if.
  - int_ok. eexists. split; [done|]. cbn. unfold is_int in *. dlia.
  - eexists. split; [done|]. cbn. unfold is_int in *. dlia.
Qed.

Lemma tv_sub_exact a b :
  tv_normal a -> tv_normal b -> is_int (sec a - sec b) -> value_fits (tv_value a - tv_value b) ->
  exists c, tv_sub a b = Ok c /\ tv_normal c /\ tv_value c = tv_value a - tv_value b.
Proof.
  unfold tv_normal, value_fits, tv_value, tv_sub, ONE_MILLION. intros [Ha Hua] [Hb Hub] Hs Hv.
  int_ok. case_if.
  - int_ok. int_ok. cbn [fst snd]. int_ok. eexists. split; [done|]. cbn. unfold is_int in *. dlia.
  - cbn [fst snd result_bind]. int_ok. eexists. split; [done|]. cbn. unfold is_int in *. dlia.
Qed.

(** On normal values the operator [-] subtracts the numbers of microseconds
    and returns a normal value, also when the difference is negative. *)
Theorem tv_sub_correct a b :
  tv_normal a -> tv_normal b -> is_int (sec a - sec b) -> value_fits (tv_value a - tv_value b) ->
  exists c, tv_sub a b = Ok c /\ tv_normal c /\ tv_value c = tv_value a - tv_value b.
Proof. apply tv_sub_exact. Qed.

(** The product by a number below 2148 is exact; above, the product
    of the microseconds may not be an [int]. *)
Lemma tv_mul_correct a n :
  tv_normal a -> 0 <= sec a -> 0 <= n < 2148 -> is_int (tv_value a * n / ONE_MILLION) ->
  exists c, tv_mul a n = Ok c /\ tv_normal c /\ tv_value c = tv_value a * n.
Proof.
  unfold tv_normal, tv_value, tv_mul, ONE_MILLION. intros [Ha Hua] Hpos Hn Hv.
  assert (0 <= usec a * n <= 999999 * 2147) by nia. assert (0 <= sec a * n) by nia.
  assert (Hd : (sec a * 1000000 + usec a) * n / 1000000 = sec a * n + usec a * n / 1000000).
  { rewrite <- Z.div_add_l by lia. f_equal. lia. }
  rewrite Hd in Hv. unfold is_int in *.
  assert (0 <= usec a * n / 1000000) by (apply Z.div_pos; lia).
  rewrite !int_result_ok by (unfold is_int; lia). cbn [result_bind].
  rewrite (Z.mod_small (usec a * n) (2 ^ 32)) by lia. rewrite (Z.mod_small _ (2 ^ 32)) by lia.
  eexists. split; [done|]. cbn. case_if; [|lia]. pose proof (Z.mod_pos_bound (usec a * n) 1000000).
  split; [lia|]. rewrite (Z.mul_add_distr_r (sec a * 1000000)). pose proof (Z.div_mod (usec a * n) 1000000). lia.
Qed.
