(* ===== verification/Heap.v ===== *)
(** * The timer heap (libxorp/heap.hh, libxorp/heap.cc)

    [Heap]: a binary heap in an array of [_size] slots, of which the first
    [_elements] are in use.  When the heap is intrusive, every object knows its
    index; these indices live in the objects and are kept in [pos].  An access
    outside the array, or through a null object, is [Throw OutOfBounds]. *)

From Stdlib Require Import ZArith Lia.
From stdpp Require Import base tactics option numbers gmap list.
From S2P Require Import Prelude TimeVal.
Local Open Scope Z_scope.
Local Open Scope xorp_scope.

Definition NOT_IN_HEAP : Z := -1.
Definition HEAP_FATHER (x : nat) : nat := ((x - 1) / 2)%nat.
Definition HEAP_LEFT (x : nat) : nat := (2 * x + 1)%nat.
Definition HEAP_INCREMENT : Z := 15.

(** An object is named by an identifier; a slot that was never used has none. *)
Definition obj : Type := positive.
Record heap_entry := mkEntry { key : TimeVal; object : option obj }.

Record Heap := mkHeap { elements : nat; intrude : bool; slots : list heap_entry; pos : gmap obj Z }.

(** The array has [_size] slots. *)
Definition size (h : Heap) : nat := length (slots h).

Definition heap_new (b : bool) : Heap := mkHeap 0 b [] ∅.

Definition at_slot (h : Heap) (i : nat) : result xorp_exn heap_entry :=
  match slots h !! i with Some e => Ok e | None => Throw OutOfBounds end.
Definition set_slot (h : Heap) (i : nat) (e : heap_entry) : Heap :=
  mkHeap (elements h) (intrude h) (<[i := e]> (slots h)) (pos h).
Definition set_pos (h : Heap) (o : obj) (i : Z) : Heap :=
  mkHeap (elements h) (intrude h) (slots h) (<[o := i]> (pos h)).
Definition set_elements (h : Heap) (n : nat) : Heap := mkHeap n (intrude h) (slots h) (pos h).

(** The field [_pos_in_heap] of an object, [NOT_IN_HEAP] by its constructor. *)
Definition pos_in_heap (h : Heap) (o : obj) : Z := default NOT_IN_HEAP (pos h !! o).

(** [SET_OFFSET] and [RESET_OFFSET] *)
Definition offset (h : Heap) (node : nat) (i : Z) : result xorp_exn Heap :=
  if intrude h then
    e <-! at_slot h node ;;
    match object e with Some o => Ok (set_pos h o i) | None => Throw OutOfBounds end
  else Ok h.
Definition SET_OFFSET (h : Heap) (node : nat) : result xorp_exn Heap := offset h node (Z.of_nat node).
Definition RESET_OFFSET (h : Heap) (node : nat) : result xorp_exn Heap := offset h node NOT_IN_HEAP.

(** [resize]: the size is rounded up to a multiple of 16. *)
Definition resize (h : Heap) (new_size : nat) : Heap :=
  if (new_size <=? size h)%nat then h
  else
    let n := Z.to_nat (Z.land (Z.of_nat new_size + HEAP_INCREMENT) (Z.lnot HEAP_INCREMENT)) in
    mkHeap (elements h) (intrude h) (slots h ++ replicate (n - size h) (mkEntry (mkTV 0 0) None)) (pos h).

(** The loop of [push] that bubbles up from [son]. *)
Fixpoint bubble_up (fuel : nat) (h : Heap) (son : nat) : result xorp_exn Heap :=
  match fuel with
  | O => Throw Fatal
  | S fuel =>
      if (son =? 0)%nat then SET_OFFSET h son
      else
        let father := HEAP_FATHER son in
        f <-! at_slot h father ;;
        s <-! at_slot h son ;;
        if tv_leb (key f) (key s) then SET_OFFSET h son
        else
          let h := set_slot (set_slot h son f) father s in
          h <-! SET_OFFSET h son ;;
          bubble_up fuel h father
  end.

(** [push(int)] *)
Definition push_at (h : Heap) (son : nat) : result xorp_exn Heap := bubble_up (S son) h son.

Definition push (h : Heap) (k : TimeVal) (p : obj) : result xorp_exn Heap :=
  let son := elements h in
  let h := if (son =? size h)%nat then resize h (elements h + 1) else h in
  _ <-! at_slot h son ;;
  push_at (set_elements (set_slot h son (mkEntry k (Some p))) (elements h + 1)) son.

Definition top (h : Heap) : option heap_entry := if (elements h =? 0)%nat then None else slots h !! 0%nat.

(** The child, left or right, with the smaller key, and its entry. *)
Definition smaller_child (h : Heap) (child max_entry : nat) : result xorp_exn (nat * heap_entry) :=
  c <-! at_slot h child ;;
  if (child =? max_entry)%nat then Ok (child, c)
  else
    d <-! at_slot h (child + 1) ;;
    Ok (if tv_ltb (key d) (key c) then ((child + 1)%nat, d) else (child, c)).

(** The loop of [pop_obj] that moves the smaller child up into the hole. *)
Fixpoint fill_hole (fuel : nat) (h : Heap) (father max_entry : nat) : result xorp_exn (Heap * nat) :=
  match fuel with
  | O => Throw Fatal
  | S fuel =>
      let child := HEAP_LEFT father in
      if (max_entry <? child)%nat then Ok (h, father)
      else
        r <-! smaller_child h child max_entry ;;
        let '(child, c) := r in
        h <-! SET_OFFSET (set_slot h father c) father ;;
        fill_hole fuel h child max_entry
  end.

(** [pop_obj]: the slot to empty, 0 or the one of [obj] *)
Definition pop_father (h : Heap) (o : option obj) : result xorp_exn nat :=
  match o with
  | None => Ok 0%nat
  | Some o =>
      if negb (intrude h) then Throw Fatal
      else
        let father := pos_in_heap h o in
        if (father <? 0) || (Z.of_nat (elements h) <=? father) then Throw Fatal
        else
          e <-! at_slot h (Z.to_nat father) ;;
          if bool_decide (object e = Some o) then Ok (Z.to_nat father) else Throw Fatal
  end.

(** [pop_obj]: the hole moves down to a leaf, and the last entry fills it. *)
Definition pop_at (h : Heap) (father : nat) : result xorp_exn Heap :=
  let max_entry := (elements h - 1)%nat in
  h <-! RESET_OFFSET h father ;;
  r <-! fill_hole (elements h) h father max_entry ;;
  let '(h, father) := r in
  let h := set_elements h max_entry in
  if (father =? max_entry)%nat then Ok h
  else
    e <-! at_slot h max_entry ;;
    push_at (set_slot h father e) father.

(** The [XLOG_ERROR] on the empty heap leaves it alone. *)
Definition pop_obj (h : Heap) (o : option obj) : result xorp_exn Heap :=
  if (elements h =? 0)%nat then Ok h
  else father <-! pop_father h o ;; pop_at h father.

Definition pop (h : Heap) : result xorp_exn Heap := pop_obj h None.

(** [heapify] *)
Fixpoint heapify_from (h : Heap) (i n : nat) : result xorp_exn Heap :=
  match n with
  | O => Ok h
  | S n => h <-! push_at h i ;; heapify_from h (S i) n
  end.
Definition heapify (h : Heap) : result xorp_exn Heap := heapify_from h 0 (elements h).

(** [verify]: no warning. *)
Definition verify (h : Heap) : bool :=
  forallb (fun i => match slots h !! i, slots h !! HEAP_FATHER i with
                    | Some e, Some f => negb (tv_ltb (key e) (key f))
                    | _, _ => false
                    end) (seq 1 (elements h - 1)).

(** [move]: up while the father is larger, or down while a child is smaller. *)
Fixpoint move_up (fuel : nat) (h : Heap) (i : nat) (new_key : TimeVal) : result xorp_exn (Heap * nat) :=
  match fuel with
  | O => Throw Fatal
  | S fuel =>
      if (i =? 0)%nat then Ok (h, i)
      else
        let temp := HEAP_FATHER i in
        f <-! at_slot h temp ;;
        if tv_ltb new_key (key f) then
          s <-! at_slot h i ;;
          h <-! SET_OFFSET (set_slot (set_slot h i f) temp s) i ;;
          move_up fuel h temp new_key
        else Ok (h, i)
  end.
Fixpoint move_down (fuel : nat) (h : Heap) (i max_entry : nat) (new_key : TimeVal) : result xorp_exn (Heap * nat) :=
  match fuel with
  | O => Throw Fatal
  | S fuel =>
      let temp := HEAP_LEFT i in
      if (max_entry <? temp)%nat then Ok (h, i)
      else
        r <-! smaller_child h temp max_entry ;;
        let '(temp, c) := r in
        if tv_ltb (key c) new_key then
          s <-! at_slot h i ;;
          h <-! SET_OFFSET (set_slot (set_slot h i c) temp s) i ;;
          move_down fuel h temp max_entry new_key
        else Ok (h, i)
  end.
Definition move (h : Heap) (new_key : TimeVal) (o : obj) : result xorp_exn Heap :=
  if negb (intrude h) then Throw Fatal
  else
    i <-! (let z := pos_in_heap h o in if z <? 0 then Throw OutOfBounds else Ok (Z.to_nat z)) ;;
    e <-! at_slot h i ;;
    let h' := set_slot h i (mkEntry new_key (object e)) in
    r <-! (if tv_ltb new_key (key e) then move_up (S i) h' i new_key
           else move_down (S (elements h)) h' i (elements h - 1) new_key) ;;
    SET_OFFSET (fst r) (snd r).
