(* ===== verification/HeapProps.v ===== *)
(** * The timer heap is a priority queue

    The first [_elements] slots of a heap are its contents, a list of entries.  Each
    operation keeps the heap order, changes the contents as a priority queue does and
    keeps the index stored in every object equal to the object's slot.  Objects that
    belong to another heap keep the index they have. *)

From Stdlib Require Import ZArith Lia.
From stdpp Require Import base tactics option numbers gmap list.
From S2P Require Import Prelude TimeVal Heap.
Local Open Scope nat_scope.

#[global] Instance heap_entry_eq_dec : EqDecision heap_entry.
Proof. solve_decision. Defined.

(** ** Lists as trees *)
Implicit Types (c : list heap_entry) (e : heap_entry) (h : Heap).

Lemma father_lt i : 0 < i -> HEAP_FATHER i < i.
Proof. unfold HEAP_FATHER. intros. apply Nat.Div0.div_lt_upper_bound. lia. Qed.
Lemma father_iff i s : 0 < i -> HEAP_FATHER i = s <-> i = HEAP_LEFT s \/ i = HEAP_LEFT s + 1.
Proof.
  unfold HEAP_FATHER, HEAP_LEFT. intros. split.
  - intros <-. pose proof (Nat.div_mod_eq (i - 1) 2). pose proof (Nat.mod_upper_bound (i - 1) 2). lia.
  - intros [-> | ->]; symmetry.
    + apply (Nat.div_unique _ _ _ 0); lia.
    + apply (Nat.div_unique _ _ _ 1); lia.
Qed.

(** Slot [i] is above its children, but for the slot [s] in its father's view;
    [ord c 0] is the heap order.  [grand c s]: the children of [s] are below the
    father of [s]. *)
Definition ord c (s : nat) : Prop :=
  forall i a b, i <> s -> 0 < i -> c !! i = Some a -> c !! HEAP_FATHER i = Some b -> tv_le (key b) (key a).
Definition grand c (s : nat) : Prop :=
  forall i a b, 0 < s -> 0 < i -> HEAP_FATHER i = s -> c !! i = Some a -> c !! HEAP_FATHER s = Some b ->
    tv_le (key b) (key a).

(** Replacing and moving an entry, as permutations. *)
Lemma insert_perm c i e : i < length c -> <[i := e]> c ≡ₚ e :: delete i c.
Proof.
  intros Hi. rewrite (delete_Permutation (<[i := e]> c) i e) by (by apply list_lookup_insert_eq).
  f_equiv. rewrite !delete_take_drop, take_insert_ge, drop_insert_lt by lia. done.
Qed.

Lemma move_perm c i j b : i <> j -> i < length c -> c !! j = Some b -> delete j (<[i := b]> c) ≡ₚ delete i c.
Proof.
  intros Hne Hi Hj. apply (Permutation_cons_inv (a := b)).
  rewrite <- (insert_perm c i b) by done. symmetry. apply delete_Permutation. by rewrite list_lookup_insert_ne.
Qed.

(** The list after two slots were exchanged. *)
Definition swap c (i j : nat) (a b : heap_entry) : list heap_entry := <[j := a]> (<[i := b]> c).

Lemma swap_lookup c i j a b x e : i <> j -> c !! i = Some a -> c !! j = Some b ->
  swap c i j a b !! x = Some e <-> (x = j /\ e = a) \/ (x = i /\ e = b) \/ (x <> i /\ x <> j /\ c !! x = Some e).
Proof.
  intros Hne Hi Hj. unfold swap. apply lookup_lt_Some in Hi, Hj.
  rewrite list_lookup_insert_Some, list_lookup_insert_Some, length_insert. intuition (subst; try done; lia).
Qed.
Lemma swap_perm c i j a b : c !! i = Some a -> c !! j = Some b -> swap c i j a b ≡ₚ c.
Proof. apply Permutation_insert_swap. Qed.
Lemma swap_length c i j a b : length (swap c i j a b) = length c.
Proof. unfold swap. by rewrite !length_insert. Qed.

(** Bubbling up: the son [s] is smaller than its father. *)
Lemma ord_swap_up c s a b :
  0 < s -> c !! s = Some a -> c !! HEAP_FATHER s = Some b -> ~ tv_le (key b) (key a) ->
  ord c s -> grand c s -> ord (swap c s (HEAP_FATHER s) a b) (HEAP_FATHER s).
Proof.
  intros Hs Ha Hb Hlt Ho Hg i x y Hi Hi0 Hx Hy. pose proof (father_lt s Hs). pose proof (father_lt i Hi0).
  apply tv_not_le in Hlt. apply swap_lookup in Hx, Hy; try done; try lia.
  destruct Hx as [[-> ->]|[[-> ->]|(Hxs & Hxf & Hx)]]; [done| |].
  - destruct Hy as [[E ->]|[[E ->]|(? & ? & Hy)]]; [done|lia|done].
  - destruct Hy as [[E ->]|[[E ->]|(? & ? & Hy)]].
    + eapply tv_le_trans; [done|]. rewrite <- E in Hb. by eapply (Ho i).
    + by eapply (Hg i).
    + by eapply (Ho i).
Qed.
Lemma grand_swap_up c s a b :
  0 < s -> c !! s = Some a -> c !! HEAP_FATHER s = Some b ->
  ord c s -> grand (swap c s (HEAP_FATHER s) a b) (HEAP_FATHER s).
Proof.
  intros Hs Ha Hb Ho i x y Hf Hi0 Hi Hx Hy. pose proof (father_lt s Hs). pose proof (father_lt _ Hf).
  apply swap_lookup in Hx, Hy; try done; try lia.
  destruct Hy as [[E ->]|[[E ->]|(_ & _ & Hy)]]; [lia|lia|].
  assert (tv_le (key y) (key b)) by (eapply (Ho (HEAP_FATHER s)); done || lia).
  destruct Hx as [[-> ->]|[[-> ->]|(Hxs & Hxf & Hx)]]; [pose proof (father_lt _ Hi0); lia|done|].
  eapply tv_le_trans; [done|]. rewrite <- Hi in Hb. by eapply (Ho i).
Qed.

(** ** The representation *)
Definition rep h c : Prop := elements h = length c /\ exists rest, slots h = c ++ rest.

Lemma rep_lookup h c i : rep h c -> i < length c -> slots h !! i = c !! i.
Proof. intros [_ [rest ->]] Hi. by rewrite lookup_app_l. Qed.
Lemma rep_at h c i e : rep h c -> c !! i = Some e -> at_slot h i = Ok e.
Proof.
  intros Hr He. unfold at_slot. erewrite rep_lookup by eauto using lookup_lt_Some. by rewrite He.
Qed.
Lemma rep_set h c i e : rep h c -> i < length c -> rep (set_slot h i e) (<[i := e]> c).
Proof.
  intros [Hn [rest Hs]] Hi. split; [by rewrite length_insert|]. exists rest. cbn. by rewrite Hs, insert_app_l.
Qed.

(** [SET_OFFSET] and [RESET_OFFSET] on a slot that holds an object. *)
Definition upd h (o : obj) (z : Z) : Heap := if intrude h then set_pos h o z else h.

Lemma rep_offset h c i k o z : rep h c -> c !! i = Some (mkEntry k (Some o)) -> offset h i z = Ok (upd h o z).
Proof.
  intros Hr He. unfold offset, upd. destruct (intrude h); [|done]. by erewrite rep_at by done.
Qed.
Lemma rep_upd h c o z : rep h c -> rep (upd h o z) c.
Proof. unfold upd. by destruct (intrude h). Qed.
Lemma intrude_upd h o z : intrude (upd h o z) = intrude h.
Proof. unfold upd. by destruct (intrude h) eqn:?. Qed.
Lemma pos_upd h o z o' : intrude h = true ->
  pos_in_heap (upd h o z) o' = if decide (o' = o) then z else pos_in_heap h o'.
Proof.
  unfold upd, pos_in_heap. intros ->. cbn [pos set_pos]. rewrite lookup_insert. repeat case_decide; cbn; congruence.
Qed.
#[export] Hint Resolve rep_upd rep_set : xorp.

(** ** The invariant, for the objects [own] that only this heap may hold *)
Section Own.
Context (own : obj -> Prop).

Definition holds c (i : nat) (o : obj) : Prop := exists k, c !! i = Some (mkEntry k (Some o)).
Definition good (b : bool) c : Prop :=
  Forall (fun e => exists o, object e = Some o /\ own o) c /\ (b = true -> NoDup (object <$> c)).
(** The indices of the objects are right, but for [x]. *)
Definition exact h c (x : option obj) : Prop :=
  intrude h = true -> forall o, own o -> Some o <> x -> forall i : nat, pos_in_heap h o = Z.of_nat i <-> holds c i o.
Definition heap_inv h c : Prop := rep h c /\ good (intrude h) c /\ ord c 0 /\ exact h c None.
Definition frame h h' : Prop :=
  intrude h' = intrude h /\ forall o, ~ own o -> pos h' !! o = pos h !! o.

Lemma good_perm b c c' : c ≡ₚ c' -> good b c -> good b c'.
Proof. intros Hp [Hf Hn]. split; [by rewrite <- Hp|]. intros Hb. rewrite <- Hp. auto. Qed.
Lemma good_lookup b c i e : good b c -> c !! i = Some e -> exists o, object e = Some o /\ own o /\ holds c i o.
Proof.
  intros [Hf _] He. destruct (Forall_lookup_1 _ _ _ _ Hf He) as (o & Ho & Hown). exists o. split_conj; [done..|].
  exists (key e). destruct e; cbn in *. by subst.
Qed.
Lemma good_unique c i j o : good true c -> holds c i o -> holds c j o -> i = j.
Proof.
  intros [_ Hn] [k Hi] [k' Hj]. specialize (Hn eq_refl). eapply NoDup_lookup; [done| |];
    rewrite list_lookup_fmap, ?Hi, ?Hj; done.
Qed.

Lemma frame_refl h : frame h h.
Proof. done. Qed.
Lemma frame_trans h1 h2 h3 : frame h1 h2 -> frame h2 h3 -> frame h1 h3.
Proof. intros [E1 F1] [E2 F2]. split; [congruence|]. intros o Ho. by rewrite F2, F1. Qed.
Lemma frame_upd h o z : own o -> frame h (upd h o z).
Proof.
  intros Ho. split; [apply intrude_upd|]. intros o' Ho'. unfold upd. destruct (intrude h); [|done]. cbn.
  rewrite lookup_insert_ne; [done|congruence].
Qed.

(** Exchanging two slots and recording the new place [i] of the second object. *)
Lemma exact_swap h c i j ka kb a b (x : option obj) :
  i <> j -> good (intrude h) c ->
  c !! i = Some (mkEntry ka (Some a)) -> c !! j = Some (mkEntry kb (Some b)) -> x = Some a ->
  exact h c x ->
  exact (upd h b (Z.of_nat i)) (swap c i j (mkEntry ka (Some a)) (mkEntry kb (Some b))) x.
Proof.
  intros Hne Hg Hi Hj -> He Hint o Hown Hox y. rewrite intrude_upd in Hint. rewrite pos_upd by done.
  rewrite Hint in Hg. unfold holds. setoid_rewrite swap_lookup; [|done..]. case_decide as Hd.
  - subst o. rewrite Nat2Z.inj_iff. split.
    + intros <-. exists kb. auto.
    + intros [k [[_ [= _ ->]]|[[-> _]|(Hyi & Hyj & Hy)]]]; [done|done|].
      destruct Hyj. eapply good_unique; [done|by exists k|by exists kb].
  - rewrite (He Hint o Hown Hox y). unfold holds. split.
    + intros [k Hk]. exists k. right; right. split_conj; [..|done]; intros ->; congruence.
    + intros [k [[_ [= _ ->]]|[[_ [= _ ->]]|(_ & _ & Hy)]]]; [done|done|]. by exists k.
Qed.

(** The last [SET_OFFSET]. *)
Lemma exact_set h c i k o : good (intrude h) c -> c !! i = Some (mkEntry k (Some o)) ->
  exact h c (Some o) -> exact (upd h o (Z.of_nat i)) c None.
Proof.
  intros Hg Hi He Hint o' Hown _ j. rewrite intrude_upd in Hint. rewrite Hint in Hg. rewrite pos_upd by done. case_decide.
  - subst o'. rewrite Nat2Z.inj_iff. split; [intros <-; by exists k|]. intros Hj. eapply good_unique; [done|by exists k|done].
  - apply He; [done..|congruence].
Qed.

Definition bubbled h c (r : result xorp_exn Heap) : Prop :=
  exists h' c', r = Ok h' /\ heap_inv h' c' /\ c' ≡ₚ c /\ frame h h'.

Lemma bubbled_set h c s k o : rep h c -> good (intrude h) c -> ord c 0 ->
  c !! s = Some (mkEntry k (Some o)) -> exact h c (Some o) -> bubbled h c (SET_OFFSET h s).
Proof.
  intros Hr Hg Ho Hs He. pose proof Hg as [Hf _]. destruct (Forall_lookup_1 _ _ _ _ Hf Hs) as (o' & [= <-] & Hown).
  exists (upd h o (Z.of_nat s)), c. split_conj; [by eapply rep_offset| |done|by apply frame_upd].
  (split; [|split; [|split]]); [auto with xorp|by rewrite intrude_upd|done|by eapply exact_set].
Qed.

Lemma bubble_ok fuel s h c k o :
  s < fuel -> rep h c -> good (intrude h) c -> ord c s -> grand c s ->
  c !! s = Some (mkEntry k (Some o)) -> exact h c (Some o) -> bubbled h c (bubble_up fuel h s).
Proof.
  revert s h c. induction fuel as [|fuel IH]; intros s h c Hfu Hr Hg Ho Hgr Hs He; [lia|].
  cbn [bubble_up]. destruct (Nat.eqb_spec s 0) as [->|Hs0]; [by eapply bubbled_set|].
  pose proof (father_lt s ltac:(lia)) as Hlt. pose proof (lookup_lt_Some _ _ _ Hs).
  destruct (lookup_lt_is_Some_2 c (HEAP_FATHER s)) as [f Hf]; [lia|].
  destruct (good_lookup _ _ _ _ Hg Hf) as (fo & Hfo & Hown & _). destruct f as [fk ?]; cbn in Hfo; subst.
  rewrite (rep_at h c _ _ Hr Hf), (rep_at h c _ _ Hr Hs). cbn [result_bind key].
  destruct (tv_leb fk k) eqn:Hle.
  - apply tv_leb_spec in Hle. eapply bubbled_set; [done..| |done|done]. intros i a b Hi Hi0 Ha Hb.
    destruct (decide (i = s)) as [->|]; [|by eapply (Ho i)]. by simplify_eq.
  - apply tv_leb_false in Hle. set (e := mkEntry k (Some o)) in *. set (f := mkEntry fk (Some fo)) in *.
    assert (Hr1 : rep (set_slot (set_slot h s f) (HEAP_FATHER s) e) (swap c s (HEAP_FATHER s) e f)).
    { apply rep_set; [by apply rep_set|]. rewrite length_insert. lia. }
    set (h1 := set_slot (set_slot h s f) (HEAP_FATHER s) e) in *.
    assert (Hs1 : swap c s (HEAP_FATHER s) e f !! s = Some f) by (apply swap_lookup; auto; lia).
    unfold SET_OFFSET at 1. rewrite (rep_offset _ _ _ _ _ _ Hr1 Hs1). cbn [result_bind].
    destruct (IH (HEAP_FATHER s) (upd h1 fo (Z.of_nat s)) (swap c s (HEAP_FATHER s) e f)) as (h' & c' & E & Hi & Hp & Hfr).
    + lia.
    + auto with xorp.
    + rewrite intrude_upd. eapply good_perm; [|exact Hg]. symmetry. by apply swap_perm.
    + apply ord_swap_up; done || lia.
    + apply grand_swap_up; done || lia.
    + apply swap_lookup; auto; lia.
    + eapply (exact_swap h1); [lia|done..].
    + exists h', c'. split_conj; [done..| |].
      * etrans; [done|by apply swap_perm].
      * eapply frame_trans; [|exact Hfr]. by apply (frame_upd h1).
Qed.

(** ** push *)
Lemma resize_room n : (Z.of_nat n < Z.land (Z.of_nat (n + 1) + HEAP_INCREMENT) (Z.lnot HEAP_INCREMENT))%Z.
Proof.
  unfold HEAP_INCREMENT. rewrite <- Z.ldiff_land. change 15%Z with (Z.ones 4) at 2.
  rewrite Z.ldiff_ones_r, Z.shiftl_mul_pow2, Z.shiftr_div_pow2 by lia.
  change (2 ^ 4)%Z with 16%Z. dlia.
Qed.

Lemma rep_room h c : rep h c ->
  exists x rest, slots (if elements h =? size h then resize h (elements h + 1) else h) = c ++ x :: rest /\
    elements (if elements h =? size h then resize h (elements h + 1) else h) = length c /\
    intrude (if elements h =? size h then resize h (elements h + 1) else h) = intrude h /\
    pos (if elements h =? size h then resize h (elements h + 1) else h) = pos h.
Proof.
  intros [Hn [rest Hs]]. unfold size. destruct (Nat.eqb_spec (elements h) (length (slots h))) as [E|E].
  - unfold resize, size. rewrite <- E. destruct (Nat.leb_spec (elements h + 1) (elements h)); [lia|]. cbn.
    pose proof (resize_room (elements h)) as Hroom. set (z := Z.land _ _) in *.
    assert (Hd : Z.to_nat z - elements h = S (Z.to_nat z - elements h - 1)) by lia. rewrite Hd. cbn [replicate].
    rewrite Hs in E. rewrite length_app in E. destruct rest; [|cbn in E; lia]. rewrite Hs, app_nil_r.
    rewrite app_nil_r in Hs. eexists _, _. split_conj; done.
  - rewrite Hs in E. rewrite length_app in E. destruct rest as [|x rest]; [cbn in E; lia|]. by eexists _, _.
Qed.

Lemma ord_snoc c e : ord c 0 -> ord (c ++ [e]) (length c) /\ grand (c ++ [e]) (length c).
Proof.
  intros Ho. split.
  - intros i a b Hi Hi0 Ha Hb. pose proof (lookup_lt_Some _ _ _ Ha) as Hl. rewrite length_app in Hl. cbn in Hl.
    pose proof (father_lt i Hi0). rewrite lookup_app_l in Ha, Hb by lia. eapply (Ho i); done || lia.
  - intros i a b _ Hi0 Hi Ha _. pose proof (lookup_lt_Some _ _ _ Ha) as Hl. rewrite length_app in Hl. cbn in Hl.
    pose proof (father_lt i Hi0). lia.
Qed.

Lemma holds_snoc c k o i o' : o' <> o -> holds (c ++ [mkEntry k (Some o)]) i o' <-> holds c i o'.
Proof.
  intros Hne. unfold holds. split; intros [k' Hk]; exists k'.
  - apply lookup_app_Some in Hk as [Hk|[Hge Hk]]; [done|]. apply list_lookup_singleton_Some in Hk as [_ [= _ ->]]. done.
  - by apply lookup_app_l_Some.
Qed.

Lemma push_ok h c k o :
  heap_inv h c -> own o -> (intrude h = true -> forall i, ~ holds c i o) ->
  exists h' c', push h k o = Ok h' /\ heap_inv h' c' /\ c' ≡ₚ mkEntry k (Some o) :: c /\ frame h h'.
Proof.
  intros (Hr & Hg & Ho & He) Hown Hfresh. unfold push. destruct (rep_room h c Hr) as (x & rest & Hs & Hn & Hint & Hpos).
  set (h1 := if elements h =? size h then _ else _) in *. unfold at_slot. rewrite Hs.
  replace (elements h) with (length c) by (symmetry; apply Hr). rewrite list_lookup_middle by done. cbn [result_bind].
  set (e := mkEntry k (Some o)). set (h2 := set_elements _ _).
  destruct (bubble_ok (S (length c)) (length c) h2 (c ++ [e]) k o) as (h' & c' & E & Hi & Hp & Hfr).
  - lia.
  - split; [rewrite length_app; cbn; lia|]. exists rest. cbn. rewrite Hs, insert_app_r_alt, Nat.sub_diag by lia.
    by rewrite <- app_assoc.
  - destruct Hg as [Hf Hnd]. split; [apply Forall_app; split; [done|apply Forall_singleton; by exists o]|].
    cbn [h2 set_elements set_slot intrude]. rewrite Hint. intros Hi. rewrite fmap_app. apply NoDup_app. split_conj; [by apply Hnd| |apply NoDup_singleton].
    intros y Hy ->%list_elem_of_singleton. apply list_elem_of_fmap in Hy as ([k' ?] & Eq & Hy). cbn in Eq. subst.
    apply list_elem_of_lookup in Hy as [i Hy]. apply (Hfresh Hi i). by exists k'.
  - by apply ord_snoc.
  - by apply ord_snoc.
  - by rewrite list_lookup_middle.
  - intros Hi o' Hown' Hne i. unfold e. rewrite holds_snoc by congruence. rewrite <- (He (eq_trans (eq_sym Hint) Hi)) by done.
    unfold pos_in_heap. cbn. by rewrite Hpos.
  - exists h', c'. split_conj; [done..| |].
    + rewrite Hp. by rewrite (comm (++)).
    + destruct Hfr as [F1 F2]. split; [by rewrite F1; cbn|]. intros o' Ho'. rewrite F2 by done. cbn. by rewrite Hpos.
Qed.

(** ** pop_obj *)
Lemma smaller_child_ok h c f : rep h c -> HEAP_LEFT f < length c ->
  exists m e, smaller_child h (HEAP_LEFT f) (length c - 1) = Ok (m, e) /\ c !! m = Some e /\ f < m /\ HEAP_FATHER m = f /\
    forall i x, 0 < i -> HEAP_FATHER i = f -> c !! i = Some x -> tv_le (key e) (key x).
Proof.
  intros Hr Hl. assert (Hlt : f < HEAP_LEFT f) by (unfold HEAP_LEFT; lia).
  destruct (lookup_lt_is_Some_2 _ _ Hl) as [a Ha]. unfold smaller_child. rewrite (rep_at _ _ _ _ Hr Ha). cbn [result_bind].
  assert (HF : forall j, j = HEAP_LEFT f \/ j = HEAP_LEFT f + 1 -> HEAP_FATHER j = f) by (intros j ?; apply father_iff; lia).
  destruct (Nat.eqb_spec (HEAP_LEFT f) (length c - 1)) as [E|E].
  - exists (HEAP_LEFT f), a. split_conj; auto. intros i x Hi0 Hi Hx. apply father_iff in Hi as [-> | ->]; [..|done].
    + simplify_eq. apply tv_le_refl.
    + apply lookup_lt_Some in Hx. lia.
  - destruct (lookup_lt_is_Some_2 c (HEAP_LEFT f + 1)) as [b Hb]; [lia|]. rewrite (rep_at _ _ _ _ Hr Hb). cbn [result_bind].
    destruct (tv_ltb (key b) (key a)) eqn:Hlb.
    + apply tv_ltb_spec, tv_not_le in Hlb. exists (HEAP_LEFT f + 1), b. split_conj; auto; [lia|]. intros i x Hi0 Hi Hx.
      apply father_iff in Hi as [-> | ->]; [..|done]; simplify_eq; auto with xorp.
    + apply tv_ltb_false in Hlb. exists (HEAP_LEFT f), a. split_conj; auto. intros i x Hi0 Hi Hx.
      apply father_iff in Hi as [-> | ->]; [..|done]; simplify_eq; auto with xorp.
Qed.

(** The heap with a hole at [f]: the entry in slot [f] does not count. *)
Definition hole_ord c (f : nat) : Prop :=
  forall i a b, 0 < i -> i <> f -> HEAP_FATHER i <> f -> c !! i = Some a -> c !! HEAP_FATHER i = Some b ->
    tv_le (key b) (key a).
Definition hole_exact h c (f : nat) : Prop :=
  intrude h = true -> forall o, own o -> forall i : nat, pos_in_heap h o = Z.of_nat i <-> i <> f /\ holds c i o.
Record hole_inv h c (f : nat) : Prop := {
  hole_rep : rep h c; hole_lt : f < length c; hole_good : good (intrude h) (delete f c);
  hole_ordered : hole_ord c f; hole_grand : grand c f; hole_pos : hole_exact h c f }.

Lemma hole_lookup h c f i e : hole_inv h c f -> i <> f -> c !! i = Some e ->
  exists k o, e = mkEntry k (Some o) /\ own o.
Proof.
  intros Hh Hne Hi. destruct (hole_good _ _ _ Hh) as [Hf _]. rewrite Forall_forall in Hf.
  destruct (Hf e) as (o & Ho & Hown); [|exists (key e), o; destruct e; cbn in *; by subst].
  apply list_elem_of_lookup. destruct (decide (i < f)).
  - exists i. by rewrite list_lookup_delete_lt.
  - exists (i - 1). rewrite list_lookup_delete_ge by lia. by replace (S (i - 1)) with i by lia.
Qed.

(** The smaller child [m] of the hole moves up, and the hole moves to [m]. *)
Lemma hole_step h c f m k o :
  hole_inv h c f -> f < m -> HEAP_FATHER m = f -> c !! m = Some (mkEntry k (Some o)) -> own o ->
  (forall i x, 0 < i -> HEAP_FATHER i = f -> c !! i = Some x -> tv_le k (key x)) ->
  hole_inv (upd (set_slot h f (mkEntry k (Some o))) o (Z.of_nat f)) (<[f := mkEntry k (Some o)]> c) m.
Proof.
  intros Hh Hlt Hf Hm Hown Hmin. destruct Hh as [Hr Hl Hg Ho Hgr He]. set (e := mkEntry k (Some o)) in *.
  pose proof (lookup_lt_Some _ _ _ Hm).
  assert (Hlk : forall i x, (<[f := e]> c) !! i = Some x <-> (i = f /\ x = e) \/ (i <> f /\ c !! i = Some x)).
  { intros i x. rewrite list_lookup_insert_Some. intuition (subst; done). }
  split.
  - auto with xorp.
  - by rewrite length_insert.
  - rewrite intrude_upd. eapply good_perm; [|exact Hg]. symmetry. apply move_perm; [lia|done..].
  - intros i a b Hi0 Him Hif Ha Hb. apply Hlk in Ha, Hb. destruct Ha as [[-> ->]|[Hne Ha]].
    + destruct Hb as [[Hff ->]|[_ Hb]]; [apply tv_le_refl|]. by eapply (Hgr m); [lia|lia|..].
    + destruct Hb as [[Hff ->]|[Hff Hb]]; [by eapply (Hmin i)|]. by eapply (Ho i).
  - intros i a b _ Hi0 Him Ha Hb. rewrite Hf in Hb. apply Hlk in Ha, Hb. destruct Hb as [[_ ->]|[? _]]; [|done].
    destruct Ha as [[-> ->]|[Hne Ha]]; [apply tv_le_refl|]. eapply (Ho i); rewrite ?Him; done || lia.
  - intros Hint o' Hown' i. rewrite intrude_upd in Hint. rewrite pos_upd by done.
    change (pos_in_heap (set_slot h f e) o') with (pos_in_heap h o').
    unfold holds. setoid_rewrite Hlk. case_decide.
    + subst o'. rewrite Nat2Z.inj_iff. split; [intros <-; split; [lia|exists k; auto]|].
      intros [Him [k' [[-> _]|[Hne Hk]]]]; [done|]. destruct Him. apply Nat2Z.inj.
      rewrite <- (proj2 (He Hint o Hown i)) by (split; [done|by exists k']).
      apply He; [done..|]. split; [lia|by exists k].
    + rewrite (He Hint o' Hown' i). unfold holds. split.
      * intros [Hne [k' Hk]]. split; [intros ->; unfold e in *; congruence|]. exists k'. auto.
      * intros [Him [k' [[-> [= _ ?]]|[Hne Hk]]]]; [done|]. split; [done|by exists k'].
Qed.

Lemma fill_ok fuel h c f : length c - f <= fuel -> hole_inv h c f ->
  exists h' c' f', fill_hole fuel h f (length c - 1) = Ok (h', f') /\ hole_inv h' c' f' /\
    delete f' c' ≡ₚ delete f c /\ length c' = length c /\ length c <= HEAP_LEFT f' /\ frame h h'.
Proof.
  revert h c f. induction fuel as [|fuel IH]; intros h c f Hfu Hh; pose proof (hole_lt _ _ _ Hh); [lia|].
  cbn [fill_hole]. destruct (Nat.ltb_spec (length c - 1) (HEAP_LEFT f)) as [Hle|Hle].
  { exists h, c, f. split_conj; done || lia. }
  destruct (smaller_child_ok h c f (hole_rep _ _ _ Hh)) as (m & e & E & Hm & Hlt & Hf & Hmin); [lia|].
  rewrite E. cbn [result_bind]. destruct (hole_lookup h c f m e Hh) as (k & o & -> & Hown); [lia|done|].
  assert (Hat : (<[f := mkEntry k (Some o)]> c) !! f = Some (mkEntry k (Some o))) by (by apply list_lookup_insert_eq).
  unfold SET_OFFSET. rewrite (rep_offset _ _ _ _ _ _ (rep_set _ _ _ _ (hole_rep _ _ _ Hh) (hole_lt _ _ _ Hh)) Hat).
  cbn [result_bind]. pose proof (hole_step _ _ _ _ _ _ Hh Hlt Hf Hm Hown Hmin) as Hh'.
  edestruct IH as (h' & c' & f' & E' & Hi & Hp & Hl & Hend & Hfr); [|exact Hh'|]; [rewrite length_insert; lia|].
  rewrite length_insert in E', Hl, Hend. exists h', c', f'. split_conj; [done|done| |done|done|].
  - rewrite Hp. apply move_perm; [lia|done..].
  - eapply frame_trans; [|exact Hfr]. by apply (frame_upd (set_slot h f _)).
Qed.

(** The hole appears. *)
Lemma hole_start h c f k o : heap_inv h c -> c !! f = Some (mkEntry k (Some o)) -> hole_inv (upd h o NOT_IN_HEAP) c f.
Proof.
  intros (Hr & Hg & Ho & He) Hf. pose proof (lookup_lt_Some _ _ _ Hf). split.
  - auto with xorp.
  - done.
  - rewrite intrude_upd. destruct Hg as [Hfa Hnd]. split.
    + eapply Forall_cons_1. by rewrite <- delete_Permutation by exact Hf.
    + intros Hi. specialize (Hnd Hi). rewrite (delete_Permutation _ _ _ Hf) in Hnd. by apply NoDup_cons in Hnd as [_ ?].
  - intros i a b Hi0 _ _ Ha Hb. eapply (Ho i); done || lia.
  - intros i a b Hf0 Hi0 Hi Ha Hb. eapply tv_le_trans.
    + eapply (Ho f); done || lia.
    + eapply (Ho i); rewrite ?Hi; done || lia.
  - intros Hint o' Hown i. rewrite intrude_upd in Hint. rewrite pos_upd by done. rewrite Hint in Hg. case_decide.
    + subst o'. unfold NOT_IN_HEAP. split; [lia|]. intros [Hne Hi]. destruct Hne. eapply good_unique; [done..|by exists k].
    + rewrite (He Hint o' Hown ltac:(done) i). split; [|by intros [_ ?]]. intros [k' Hk]. split; [intros ->; congruence|by exists k'].
Qed.

(** The hole is the last slot. *)
Lemma hole_last h c f : hole_inv h c f -> f = length c - 1 -> heap_inv (set_elements h (length c - 1)) (delete f c).
Proof.
  intros [[Hn [rest Hs]] Hl Hg Ho Hgr He] ->.
  assert (Hdel : delete (length c - 1) c = take (length c - 1) c).
  { rewrite delete_take_drop, drop_ge by lia. apply app_nil_r. }
  assert (Hlk : forall i x, delete (length c - 1) c !! i = Some x <-> i < length c - 1 /\ c !! i = Some x).
  { intros i x. rewrite Hdel, lookup_take_Some. tauto. }
  split; [|split; [|split]].
  - split; [cbn; rewrite Hdel, length_take; lia|]. exists (drop (length c - 1) c ++ rest). cbn.
    by rewrite Hdel, app_assoc, take_drop.
  - done.
  - intros i a b _ Hi0 Ha Hb. apply Hlk in Ha as [Hi Ha], Hb as [Hb' Hb]. eapply (Ho i); done || lia.
  - intros Hint o Hown _ i. change (pos_in_heap (set_elements h (length c - 1)) o) with (pos_in_heap h o).
    rewrite (He Hint o Hown). unfold holds. setoid_rewrite Hlk. split.
    + intros [Hne [k Hk]]. exists k. split; [|done]. apply lookup_lt_Some in Hk. lia.
    + intros [k [Hi Hk]]. split; [lia|by exists k].
Qed.

(** The last entry fills the hole at a leaf. *)
Lemma hole_leaf h c f : hole_inv h c f -> length c <= HEAP_LEFT f -> f <> length c - 1 ->
  exists k o, c !! (length c - 1) = Some (mkEntry k (Some o)) /\
    bubbled h (delete f c) (push_at (set_slot (set_elements h (length c - 1)) f (mkEntry k (Some o))) f).
Proof.
  intros Hh Hleaf Hne. pose proof Hh as [[Hn [rest Hs]] Hl Hg Ho Hgr He].
  destruct (lookup_lt_is_Some_2 c (length c - 1)) as [e Hlast]; [lia|].
  destruct (hole_lookup _ _ _ _ _ Hh ltac:(done) Hlast) as (k & o & -> & Hown). exists k, o. split; [done|].
  set (e := mkEntry k (Some o)) in *. set (n := length c - 1) in *. set (d := <[f := e]> (take n c)).
  assert (Hlen : length (take n c) = n) by (rewrite length_take; lia).
  assert (Hlk : forall i x, d !! i = Some x <-> (i = f /\ x = e) \/ (i <> f /\ i < n /\ c !! i = Some x)).
  { intros i x. unfold d. rewrite list_lookup_insert_Some, lookup_take_Some, Hlen. intuition (subst; done || lia). }
  assert (Hp : d ≡ₚ delete f c).
  { unfold d. rewrite insert_perm by lia. rewrite !delete_take_drop.
    rewrite take_take, Nat.min_l by lia.
    assert (Hd : drop (S f) c ≡ₚ e :: drop (S f) (take n c)).
    { rewrite <- (take_drop_middle c n e Hlast) at 1. rewrite (drop_ge c (S n)) by lia. rewrite drop_app_le by lia.
      by rewrite (comm (++)). }
    rewrite Hd. apply Permutation_middle. }
  destruct (bubble_ok (S f) f (set_slot (set_elements h n) f e) d k o) as (h' & c' & E & Hi & Hp' & Hfr).
  - lia.
  - split; [unfold d; rewrite length_insert; cbn; lia|]. exists (drop n c ++ rest). cbn. unfold d.
    rewrite Hs, <- insert_app_l by lia. by rewrite app_assoc, take_drop.
  - eapply good_perm; [symmetry; exact Hp|done].
  - intros i a b Hif Hi0 Ha Hb. apply Hlk in Ha as [[-> _]|(_ & Hin & Ha)]; [done|].
    apply Hlk in Hb as [[Hff _]|(Hff & _ & Hb)]; [|by eapply (Ho i)]. apply father_iff in Hff; [|done]. lia.
  - intros i a b _ Hi0 Hi Ha _. apply father_iff in Hi; [|done]. apply Hlk in Ha as [[-> _]|(_ & Hin & Ha)]; unfold HEAP_LEFT in *; lia.
  - apply Hlk. auto.
  - intros Hint o' Hown' Hoo i. change (pos_in_heap (set_slot (set_elements h n) f e) o') with (pos_in_heap h o').
    rewrite (He Hint o' Hown' i). unfold holds. setoid_rewrite Hlk. split.
    + intros [Hif [k' Hk]]. exists k'. right. split_conj; [done| |done]. pose proof (lookup_lt_Some _ _ _ Hk).
      assert (i <> n) by (intros ->; unfold e in *; congruence). lia.
    + intros [k' [[_ Hk]|(Hif & _ & Hk)]]; [unfold e in Hk; congruence|]. split; [done|by exists k'].
  - exists h', c'. split_conj; [done|done|by rewrite Hp'|done].
Qed.

Lemma pop_at_ok h c f k o : heap_inv h c -> c !! f = Some (mkEntry k (Some o)) -> bubbled h (delete f c) (pop_at h f).
Proof.
  intros Hi Hf. pose proof Hi as ((Hn & _) & (Hfa & _) & _ & _).
  destruct (Forall_lookup_1 _ _ _ _ Hfa Hf) as (o' & [= <-] & Hown).
  unfold pop_at, RESET_OFFSET. rewrite (rep_offset _ _ _ _ _ _ (proj1 Hi) Hf). cbn [result_bind].
  assert (Hel : elements (upd h o NOT_IN_HEAP) = length c) by (unfold upd; by destruct (intrude h)).
  rewrite Hn, Hel. destruct (fill_ok (length c) _ c f ltac:(lia) (hole_start _ _ _ _ _ Hi Hf))
    as (h' & c' & f' & E & Hh & Hp & Hl & Hend & Hfr).
  rewrite E. cbn [result_bind]. pose proof (frame_upd h o NOT_IN_HEAP Hown) as Hfr0.
  rewrite <- Hl in Hend |- *. destruct (Nat.eqb_spec f' (length c' - 1)) as [Hlast|Hlast].
  - exists (set_elements h' (length c' - 1)), (delete f' c'). split_conj; [done|by apply hole_last|done|].
    by eapply frame_trans.
  - destruct (hole_leaf _ _ _ Hh Hend Hlast) as (k' & x & Hx & h2 & c2 & E2 & Hi2 & Hp2 & Hfr2).
    rewrite (rep_at h' c' _ _ (hole_rep _ _ _ Hh) Hx : at_slot (set_elements h' _) _ = _). cbn [result_bind].
    exists h2, c2. split_conj; [done|done|by rewrite Hp2|]. by do 2 (eapply frame_trans; [done|]).
Qed.

(** An object of the heap, and one that is not in it. *)
Lemma pop_father_in h c i k o : heap_inv h c -> intrude h = true -> own o -> c !! i = Some (mkEntry k (Some o)) ->
  pop_father h (Some o) = Ok i.
Proof.
  intros (Hr & Hg & Ho & He) Hint Hown Hi. unfold pop_father. rewrite Hint. cbn [negb].
  rewrite (proj2 (He Hint o Hown ltac:(done) i)) by (by exists k). rewrite (proj1 Hr). apply lookup_lt_Some in Hi as Hl.
  destruct (Z.ltb_spec (Z.of_nat i) 0); [lia|]. destruct (Z.leb_spec (Z.of_nat (length c)) (Z.of_nat i)); [lia|].
  cbn [orb]. rewrite Nat2Z.id, (rep_at _ _ _ _ Hr Hi). cbn [result_bind object]. by rewrite bool_decide_eq_true_2.
Qed.
Lemma pop_father_out h c o : heap_inv h c -> intrude h = true -> own o -> (forall i, ~ holds c i o) ->
  (pos_in_heap h o < 0)%Z /\ pop_father h (Some o) = Throw Fatal.
Proof.
  intros (Hr & Hg & Ho & He) Hint Hown Hi. unfold pop_father. rewrite Hint. cbn [negb].
  destruct (Z.ltb_spec (pos_in_heap h o) 0) as [Hlt|Hge]; [done|]. destruct (Hi (Z.to_nat (pos_in_heap h o))).
  apply He; [done..|]. lia.
Qed.

(** The top is a smallest entry. *)
Lemma root_min c i a e : ord c 0 -> c !! 0 = Some a -> c !! i = Some e -> tv_le (key a) (key e).
Proof.
  intros Ho Ha. revert e. induction (lt_wf i) as [i _ IH]. intros e He. destruct (decide (i = 0)) as [->|Hne].
  - simplify_eq. apply tv_le_refl.
  - pose proof (father_lt i ltac:(lia)). pose proof (lookup_lt_Some _ _ _ He).
    destruct (lookup_lt_is_Some_2 c (HEAP_FATHER i)) as [b Hb]; [lia|].
    eapply tv_le_trans; [by eapply IH|]. eapply (Ho i); done || lia.
Qed.
Lemma top_lookup h c : heap_inv h c -> top h = c !! 0.
Proof.
  intros (Hr & _). unfold top. destruct (Nat.eqb_spec (elements h) 0) as [E|E]; rewrite (proj1 Hr) in E.
  - by destruct c.
  - apply rep_lookup; [done|lia].
Qed.
Lemma verify_ok h c : heap_inv h c -> verify h = true.
Proof.
  intros (Hr & _ & Ho & _). unfold verify. apply forallb_forall. intros i Hi%in_seq. rewrite (proj1 Hr) in Hi.
  assert (Hi0 : 0 < i) by lia. pose proof (father_lt i Hi0).
  destruct (lookup_lt_is_Some_2 c i) as [a Ha]; [lia|]. destruct (lookup_lt_is_Some_2 c (HEAP_FATHER i)) as [b Hb]; [lia|].
  rewrite !(rep_lookup _ c) by (done || lia). rewrite Ha, Hb. apply negb_true_iff, tv_ltb_false. eapply (Ho i); done || lia.
Qed.

(** ** move *)
Lemma move_up_bubble fuel h c i k o : rep h c -> c !! i = Some (mkEntry k (Some o)) ->
  result_bind (move_up fuel h i k) (fun r => SET_OFFSET (fst r) (snd r)) = bubble_up fuel h i.
Proof.
  revert h c i. induction fuel as [|fuel IH]; intros h c i Hr Hi; [done|]. cbn [move_up bubble_up].
  destruct (Nat.eqb_spec i 0) as [->|Hi0]; [done|]. destruct (at_slot h (HEAP_FATHER i)) as [f|] eqn:Hf; [|done].
  rewrite (rep_at _ _ _ _ Hr Hi). cbn [result_bind key]. unfold tv_leb. destruct (tv_ltb k (key f)); cbn [negb]; [|done].
  set (h1 := set_slot (set_slot h i f) (HEAP_FATHER i) (mkEntry k (Some o))).
  destruct (SET_OFFSET h1 i) as [h2|] eqn:E2; cbn [result_bind]; [|done].
  pose proof (lookup_lt_Some _ _ _ Hi). pose proof (father_lt i ltac:(lia)).
  apply (IH _ (<[HEAP_FATHER i := mkEntry k (Some o)]> (<[i := f]> c))).
  - assert (Hr1 : rep h1 (<[HEAP_FATHER i := mkEntry k (Some o)]> (<[i := f]> c))).
    { apply rep_set; [by apply rep_set|]. rewrite length_insert. lia. }
    unfold SET_OFFSET, offset in E2. destruct (intrude h1); [|by simplify_eq]. destruct (at_slot h1 i) as [x|]; [|done].
    cbn in E2. destruct (object x); by simplify_eq.
  - apply list_lookup_insert_eq. rewrite length_insert. lia.
Qed.

(** Sinking: the entry in slot [s] may be larger than its children. *)
Definition sink_ord c (s : nat) : Prop :=
  forall i a b, 0 < i -> HEAP_FATHER i <> s -> c !! i = Some a -> c !! HEAP_FATHER i = Some b -> tv_le (key b) (key a).

Lemma sink_step c s m a b :
  s < m -> HEAP_FATHER m = s -> c !! s = Some a -> c !! m = Some b -> ~ tv_le (key a) (key b) ->
  (forall i x, 0 < i -> HEAP_FATHER i = s -> c !! i = Some x -> tv_le (key b) (key x)) ->
  sink_ord c s -> grand c s -> sink_ord (swap c s m a b) m /\ grand (swap c s m a b) m.
Proof.
  intros Hlt Hm Ha Hb Hgt Hmin Ho Hgr. apply tv_not_le in Hgt. assert (Hne : s <> m) by lia. split.
  - intros i x y Hi0 Hi Hx Hy. apply swap_lookup in Hx, Hy; try done. pose proof (father_lt i Hi0).
    destruct Hx as [[-> ->]|[[-> ->]|(Hxs & Hxm & Hx)]].
    + destruct Hy as [[E ->]|[[E ->]|(E & ? & Hy)]]; [lia|done|]. destruct E; done.
    + destruct Hy as [[E ->]|[[E ->]|(? & ? & Hy)]]; [lia|lia|]. by eapply (Hgr m); [lia|lia|..].
    + destruct Hy as [[E ->]|[[E ->]|(? & ? & Hy)]]; [done|by eapply (Hmin i)|]. by eapply (Ho i).
  - intros i x y _ Hi0 Hi Hx Hy. rewrite Hm in Hy. apply swap_lookup in Hx, Hy; try done. pose proof (father_lt i Hi0).
    destruct Hy as [[E ->]|[[E ->]|(E & ? & Hy)]]; [lia| |done].
    destruct Hx as [[-> ->]|[[-> ->]|(Hxs & Hxm & Hx)]]; [lia|lia|]. eapply (Ho i); rewrite ?Hi; done || lia.
Qed.

Lemma move_down_ok fuel h c s k o :
  length c - s < fuel -> rep h c -> good (intrude h) c -> sink_ord c s -> grand c s ->
  c !! s = Some (mkEntry k (Some o)) -> exact h c (Some o) ->
  bubbled h c (result_bind (move_down fuel h s (length c - 1) k) (fun r => SET_OFFSET (fst r) (snd r))).
Proof.
  revert h c s. induction fuel as [|fuel IH]; intros h c s Hfu Hr Hg Ho Hgr Hs He; [lia|].
  pose proof (lookup_lt_Some _ _ _ Hs). cbn [move_down].
  destruct (Nat.ltb_spec (length c - 1) (HEAP_LEFT s)) as [Hle|Hle].
  { cbn [result_bind fst snd]. eapply bubbled_set; [done..| |done|done]. intros i a b _ Hi0 Ha Hb. eapply (Ho i); try done.
    intros Hi%father_iff; [|done]. apply lookup_lt_Some in Ha. lia. }
  destruct (smaller_child_ok h c s Hr) as (m & [mk mo] & E & Hm & Hlt & Hf & Hmin); [lia|].
  destruct (good_lookup _ _ _ _ Hg Hm) as (m' & Hmo & Hown & _). cbn in Hmo. subst mo.
  rewrite E. cbn [result_bind key]. destruct (tv_ltb mk k) eqn:Hlk.
  - apply tv_ltb_spec in Hlk. rewrite (rep_at _ _ _ _ Hr Hs). cbn [result_bind].
    set (e := mkEntry k (Some o)) in *. set (f := mkEntry mk (Some m')) in *.
    pose proof (lookup_lt_Some _ _ _ Hm).
    assert (Hr1 : rep (set_slot (set_slot h s f) m e) (swap c s m e f)).
    { apply rep_set; [by apply rep_set|]. rewrite length_insert. lia. }
    set (h1 := set_slot (set_slot h s f) m e) in *.
    assert (Hs1 : swap c s m e f !! s = Some f) by (apply swap_lookup; auto; lia).
    unfold SET_OFFSET at 1. rewrite (rep_offset _ _ _ _ _ _ Hr1 Hs1). cbn [result_bind].
    destruct (sink_step c s m e f) as [Ho' Hgr']; [done..|].
    destruct (IH (upd h1 m' (Z.of_nat s)) (swap c s m e f) m) as (h' & c' & E' & Hi & Hp & Hfr).
    + rewrite swap_length. lia.
    + auto with xorp.
    + rewrite intrude_upd. eapply good_perm; [|exact Hg]. symmetry. by apply swap_perm.
    + done.
    + done.
    + apply swap_lookup; auto; lia.
    + eapply (exact_swap h1); [lia|done..].
    + rewrite swap_length in E'. exists h', c'. split_conj; [done..| |].
      * etrans; [done|by apply swap_perm].
      * eapply frame_trans; [|exact Hfr]. by apply (frame_upd h1).
  - apply tv_ltb_false in Hlk. cbn [result_bind fst snd]. eapply bubbled_set; [done..| |done|done].
    intros i a b _ Hi0 Ha Hb. destruct (decide (HEAP_FATHER i = s)) as [Hi|]; [|by eapply (Ho i)].
    rewrite Hi in Hb. simplify_eq. eapply tv_le_trans; [done|]. by eapply (Hmin i).
Qed.

Lemma move_ok h c i k k0 o : heap_inv h c -> intrude h = true -> own o -> c !! i = Some (mkEntry k0 (Some o)) ->
  bubbled h (<[i := mkEntry k (Some o)]> c) (move h k o).
Proof.
  intros (Hr & Hg & Ho & He) Hint Hown Hi. unfold move. rewrite Hint. cbn [negb].
  rewrite (proj2 (He Hint o Hown ltac:(done) i)) by (by exists k0).
  destruct (Z.ltb_spec (Z.of_nat i) 0); [lia|]. cbn [result_bind]. rewrite Nat2Z.id, (rep_at _ _ _ _ Hr Hi).
  cbn [result_bind object key]. set (e := mkEntry k (Some o)). pose proof (lookup_lt_Some _ _ _ Hi) as Hl.
  assert (Hlk : forall j x, (<[i := e]> c) !! j = Some x <-> (j = i /\ x = e) \/ (j <> i /\ c !! j = Some x)).
  { intros j x. rewrite list_lookup_insert_Some. intuition (subst; done). }
  assert (Hi1 : (<[i := e]> c) !! i = Some e) by (by apply list_lookup_insert_eq).
  pose proof (rep_set h c i e Hr Hl) as Hr1.
  assert (Hg1 : good (intrude h) (<[i := e]> c)).
  { destruct Hg as [Hf Hnd]. split; [apply Forall_insert; [done|by exists o]|]. intros Hb.
    rewrite list_fmap_insert, list_insert_id; [by apply Hnd|]. by rewrite list_lookup_fmap, Hi. }
  assert (He1 : exact (set_slot h i e) (<[i := e]> c) (Some o)).
  { intros Hb o' Hown' Hne j. change (pos_in_heap (set_slot h i e) o') with (pos_in_heap h o').
    rewrite (He Hb o' Hown' ltac:(done) j). unfold holds. setoid_rewrite Hlk. split; intros [k' Hk]; exists k'.
    - right. split; [intros ->; congruence|done].
    - destruct Hk as [[_ [= _ ->]]|[_ ?]]; done. }
  assert (Hgr : grand (<[i := e]> c) i).
  { intros j a b Hi0 Hj0 Hj Ha Hb. pose proof (father_lt j Hj0). pose proof (father_lt i Hi0).
    apply Hlk in Ha as [[-> _]|[_ Ha]]; [lia|]. apply Hlk in Hb as [[? _]|[_ Hb]]; [lia|].
    eapply tv_le_trans; [eapply (Ho i); done || lia|]. eapply (Ho j); rewrite ?Hj; done || lia. }
  destruct (tv_ltb k k0) eqn:Hk.
  - apply tv_ltb_spec, tv_not_le in Hk. rewrite (move_up_bubble _ _ _ _ _ _ Hr1 Hi1).
    eapply (bubble_ok (S i) i (set_slot h i e)); [lia|done|done| |done..]. intros j a b Hne Hj0 Ha Hb.
    apply Hlk in Ha as [[-> _]|[_ Ha]]; [done|]. apply Hlk in Hb as [[Hj ->]|[_ Hb]]; [|eapply (Ho j); done || lia].
    eapply tv_le_trans; [exact Hk|]. eapply (Ho j _ (mkEntry k0 (Some o))); rewrite ?Hj; done || lia.
  - apply tv_ltb_false in Hk. rewrite (proj1 Hr).
    replace (length c - 1) with (length (<[i := e]> c) - 1) by (by rewrite length_insert).
    eapply (move_down_ok _ (set_slot h i e)); [rewrite length_insert; lia|done|done| |done..]. intros j a b Hj0 Hj Ha Hb.
    apply Hlk in Hb as [[? _]|[Hne Hb]]; [done|]. apply Hlk in Ha as [[-> ->]|[_ Ha]]; [|eapply (Ho j); done || lia].
    eapply tv_le_trans; [|exact Hk]. eapply (Ho i (mkEntry k0 (Some o))); done || lia.
Qed.

End Own.
