(* ===== verification/HeapQueue.v ===== *)
(** * The timer heap refines a priority queue

    The abstract state is a finite map from the queued objects to their keys; [pop]
    removes an object with a smallest key.  Any sequence of operations that pushes
    only objects that are not queued, and moves or removes by name only objects that
    are, runs without an error and is a run of the abstract queue. *)

From Stdlib Require Import ZArith Lia.
From stdpp Require Import base tactics option numbers gmap list.
From S2P Require Import Prelude TimeVal Heap HeapProps.
Local Open Scope xorp_scope.

Abbreviation queue := (gmap obj TimeVal).

Inductive heap_op : Type :=
  | HPush (k : TimeVal) (o : obj)
  | HPop
  | HPopObj (o : obj)
  | HMove (k : TimeVal) (o : obj).

Definition heap_exec (h : Heap) (op : heap_op) : result xorp_exn Heap :=
  match op with
  | HPush k o => push h k o
  | HPop => pop h
  | HPopObj o => pop_obj h (Some o)
  | HMove k o => move h k o
  end.
Fixpoint heap_run (h : Heap) (ops : list heap_op) : result xorp_exn Heap :=
  match ops with
  | [] => Ok h
  | op :: ops => h <-! heap_exec h op ;; heap_run h ops
  end.

(** ** The abstract queue *)
Definition smallest (m : queue) (o : obj) (k : TimeVal) : Prop :=
  m !! o = Some k /\ forall o' k', m !! o' = Some k' -> tv_le k k'.

Inductive queue_step : queue -> heap_op -> queue -> Prop :=
  | q_push m k o : m !! o = None -> queue_step m (HPush k o) (<[o := k]> m)
  | q_pop m k o : smallest m o k -> queue_step m HPop (delete o m)
  | q_pop_empty : queue_step ∅ HPop ∅
  | q_pop_obj m k o : m !! o = Some k -> queue_step m (HPopObj o) (delete o m)
  | q_move m k k0 o : m !! o = Some k0 -> queue_step m (HMove k o) (<[o := k]> m).

Inductive queue_steps : queue -> list heap_op -> queue -> Prop :=
  | qs_nil m : queue_steps m [] m
  | qs_cons m m1 m2 op ops : queue_step m op m1 -> queue_steps m1 ops m2 -> queue_steps m (op :: ops) m2.

Definition permitted (m : queue) (op : heap_op) : Prop :=
  match op with
  | HPush _ o => m !! o = None
  | HPop => True
  | HPopObj o | HMove _ o => is_Some (m !! o)
  end.
Fixpoint permitted_all (m : queue) (ops : list heap_op) : Prop :=
  match ops with
  | [] => True
  | op :: ops => permitted m op /\ forall m', queue_step m op m' -> permitted_all m' ops
  end.

(** ** The refinement *)
Definition any (o : obj) : Prop := True.

(** The entries of the list are the pairs of the map. *)
Definition entries_of (m : queue) (c : list heap_entry) : Prop :=
  forall o k, m !! o = Some k <-> mkEntry k (Some o) ∈ c.
Definition queue_rel (h : Heap) (m : queue) : Prop :=
  intrude h = true /\ exists c, heap_inv any h c /\ entries_of m c.

Lemma entries_perm m c c' : c ≡ₚ c' -> entries_of m c -> entries_of m c'.
Proof. intros Hp He o k. by rewrite <- Hp. Qed.

(** The objects of [x :: c] are distinct. *)
Lemma entries_cons m c k o : NoDup (object <$> mkEntry k (Some o) :: c) ->
  entries_of m (mkEntry k (Some o) :: c) -> m !! o = Some k /\ entries_of (delete o m) c.
Proof.
  intros [Hn _]%NoDup_cons He. split; [apply He; left|]. intros o' k'. rewrite lookup_delete_Some, (He o' k').
  rewrite elem_of_cons. split; [intros [Hne [[= _ ->]|Hin]]; done|]. intros Hin. split; [|by right].
  intros <-. destruct Hn. apply list_elem_of_fmap. by exists (mkEntry k' (Some o)).
Qed.
Lemma entries_insert m c k o : m !! o = None -> entries_of m c -> entries_of (<[o := k]> m) (mkEntry k (Some o) :: c).
Proof.
  intros Hn He o' k'. rewrite lookup_insert_Some, (He o' k'), elem_of_cons. split.
  - intros [[<- <-]|[_ Hin]]; auto.
  - intros [[= -> ->]|Hin]; [auto|]. destruct (decide (o = o')) as [<-|]; [|auto]. apply He in Hin. congruence.
Qed.
Lemma entries_delete m c i k o : NoDup (object <$> c) -> c !! i = Some (mkEntry k (Some o)) -> entries_of m c ->
  m !! o = Some k /\ entries_of (delete o m) (delete i c).
Proof.
  intros Hn Hi He. pose proof (delete_Permutation _ _ _ Hi) as Hp. rewrite Hp in Hn.
  apply entries_cons; [done|]. by eapply entries_perm.
Qed.
Lemma inv_nodup h c : intrude h = true -> heap_inv any h c -> NoDup (object <$> c).
Proof. intros Hi (_ & [_ Hn] & _). auto. Qed.
Lemma entries_holds m c o : entries_of m c -> is_Some (m !! o) <-> exists i, holds c i o.
Proof.
  intros He. split.
  - intros [k Hk]. apply He, list_elem_of_lookup in Hk as [i Hi]. by exists i, k.
  - intros [i [k Hi]]. exists k. apply He. by eapply list_elem_of_lookup_2.
Qed.

Lemma queue_rel_bubbled h c m r : intrude h = true -> bubbled any h c r -> entries_of m c ->
  exists h', r = Ok h' /\ queue_rel h' m.
Proof.
  intros Hi (h' & c' & -> & Hinv & Hp & [Hfr _]) He. exists h'. split; [done|]. split; [congruence|].
  exists c'. split; [done|]. by eapply entries_perm; [symmetry|].
Qed.

Lemma exec_refines h m op : queue_rel h m -> permitted m op ->
  exists h' m', heap_exec h op = Ok h' /\ queue_step m op m' /\ queue_rel h' m'.
Proof.
  intros [Hi (c & Hinv & He)] Hp. pose proof (inv_nodup h c Hi Hinv) as Hn. destruct op as [k o| |o|k o]; cbn in *.
  - destruct (push_ok any h c k o Hinv) as (h' & c' & E & Hinv' & Hpc & [Hfr _]); [done| |].
    { intros _ i Hh. assert (is_Some (m !! o)) as [? ?] by (apply (entries_holds _ _ _ He); by exists i). congruence. }
    exists h', (<[o := k]> m). split_conj; [done|by constructor|]. split; [congruence|]. exists c'. split; [done|].
    eapply entries_perm; [symmetry; exact Hpc|]. by apply entries_insert.
  - unfold pop, pop_obj. destruct Hinv as (Hr & Hinv') eqn:Heq. destruct (Nat.eqb_spec (elements h) 0) as [E0|E0].
    { exists h, m. split_conj; [done| |by split; [|exists c]]. rewrite (proj1 Hr) in E0. destruct c; [|done].
      assert (m = ∅) as ->; [|constructor]. apply map_empty. intros o. apply eq_None_not_Some. intros [k Hk].
      apply He in Hk. by apply elem_of_nil in Hk. }
    rewrite (proj1 Hr) in E0. destruct (lookup_lt_is_Some_2 c 0) as [[k ?] Ha]; [lia|].
    destruct (good_lookup any _ _ _ _ (proj1 Hinv') Ha) as (o & Ho & _). cbn in Ho. subst.
    destruct (entries_delete m c 0 k o Hn Ha He) as [Hm Hd].
    cbn [pop_father result_bind]. destruct (queue_rel_bubbled h (delete 0 c) (delete o m) (pop_at h 0) Hi) as (h' & E & Hr'); [|done|].
    { eapply pop_at_ok; [by split|done]. }
    exists h', (delete o m). split_conj; [done| |done]. apply (q_pop _ k). split; [done|]. intros o' k' Hk'.
    apply He, list_elem_of_lookup in Hk' as [j Hj].
    apply (root_min c j (mkEntry k (Some o)) (mkEntry k' (Some o'))); [apply Hinv'|done..].
  - destruct Hp as [k Hk]. apply He in Hk as Hin. apply list_elem_of_lookup in Hin as [i Ha].
    destruct (entries_delete m c i k o Hn Ha He) as [_ Hd].
    unfold pop_obj. apply lookup_lt_Some in Ha as Hl. rewrite (proj1 (proj1 Hinv)).
    destruct (Nat.eqb_spec (length c) 0); [lia|]. erewrite pop_father_in by done. cbn [result_bind].
    destruct (queue_rel_bubbled h (delete i c) (delete o m) (pop_at h i) Hi) as (h' & E & Hr'); [|done|].
    { by eapply pop_at_ok. }
    exists h', (delete o m). split_conj; [done|by econstructor|done].
  - destruct Hp as [k0 Hk]. apply He in Hk as Hin. apply list_elem_of_lookup in Hin as [i Ha].
    destruct (entries_delete m c i k0 o Hn Ha He) as [_ Hd]. apply lookup_lt_Some in Ha as Hl.
    destruct (queue_rel_bubbled h (<[i := mkEntry k (Some o)]> c) (<[o := k]> m) (move h k o) Hi) as (h' & E & Hr').
    { by eapply move_ok. }
    { eapply entries_perm; [symmetry; by apply insert_perm|]. rewrite <- insert_delete_eq.
      apply entries_insert; [by rewrite lookup_delete_eq|done]. }
    exists h', (<[o := k]> m). split_conj; [done|by econstructor|done].
Qed.

Lemma run_refines ops h m : queue_rel h m -> permitted_all m ops ->
  exists h' m', heap_run h ops = Ok h' /\ queue_steps m ops m' /\ queue_rel h' m'.
Proof.
  revert h m. induction ops as [|op ops IH]; intros h m Hr Hp; cbn.
  - exists h, m. split_conj; [done|constructor|done].
  - destruct Hp as [Hp1 Hp]. destruct (exec_refines h m op Hr Hp1) as (h1 & m1 & E & Hs & Hr1). rewrite E. cbn.
    destruct (IH h1 m1 Hr1 (Hp _ Hs)) as (h2 & m2 & E2 & Hs2 & Hr2). exists h2, m2. split_conj; [done|by econstructor|done].
Qed.

Lemma new_refines : queue_rel (heap_new true) ∅.
Proof.
  split; [done|]. exists []. split; [split; [|split; [|split]]|].
  - split; [done|]. by exists [].
  - split; [constructor|intros _; constructor].
  - done.
  - intros _ o _ _ i. cbn. unfold pos_in_heap, NOT_IN_HEAP. cbn. rewrite lookup_empty. cbn.
    split; [unfold NOT_IN_HEAP; lia|by intros [k ?]].
  - intros o k. rewrite lookup_empty, elem_of_nil. done.
Qed.

(** What the queue says of the heap: its top, its size, its order and the indices. *)
Lemma queue_rel_facts h m : queue_rel h m ->
  match top h with
  | None => m = ∅
  | Some e => exists o, object e = Some o /\ smallest m o (key e)
  end /\
  verify h = true /\ (forall o, (0 <= pos_in_heap h o)%Z <-> is_Some (m !! o)).
Proof.
  intros [Hi (c & Hinv & He)]. split_conj.
  - rewrite (top_lookup any h c Hinv). destruct (c !! 0) as [e|] eqn:E.
    + destruct (good_lookup any _ _ _ _ (proj1 (proj2 Hinv)) E) as (o & Ho & _ & [k Hk]). exists o. split; [done|].
      rewrite E in Hk. injection Hk as ->. cbn. split; [apply He; by eapply list_elem_of_lookup_2|].
      intros o' k' Hk'. apply He, list_elem_of_lookup in Hk' as [j Hj].
      apply (root_min c j (mkEntry k (Some o)) (mkEntry k' (Some o'))); [apply Hinv|done..].
    + apply map_empty. intros o. apply eq_None_not_Some. intros [k Hk]. apply He in Hk.
      destruct c; [by apply elem_of_nil in Hk|done].
  - by eapply verify_ok.
  - intros o. rewrite (entries_holds m c o He). destruct Hinv as (_ & _ & _ & Hex).
    split.
    + intros Hp. exists (Z.to_nat (pos_in_heap h o)). apply Hex; [done..|lia].
    + intros [i Hh]. apply Hex in Hh; [lia|done..].
Qed.

(** C17: The binary heap of heap.cc, with removal from the middle, refines a priority
    queue: from the empty heap, a sequence of [push], [pop], [pop_obj] and [move]
    that names queued objects correctly returns (no access outside the array, no
    [XLOG_FATAL]), is a run of the abstract queue, and ends with an entry of smallest
    key at the top, the heap order intact, and [_pos_in_heap] nonnegative exactly for
    the queued objects. *)
Theorem heap_refines_queue ops : permitted_all ∅ ops ->
  exists h m, heap_run (heap_new true) ops = Ok h /\ queue_steps ∅ ops m /\
    match top h with
    | None => m = ∅
    | Some e => exists o, object e = Some o /\ smallest m o (key e)
    end /\
    verify h = true /\ (forall o, (0 <= pos_in_heap h o)%Z <-> is_Some (m !! o)).
Proof.
  intros Hp. destruct (run_refines ops _ _ new_refines Hp) as (h & m & E & Hs & Hr). exists h, m.
  split; [done|]. split; [done|]. by apply queue_rel_facts.
Qed.

Definition sample_ops : list heap_op :=
  [HPush (mkTV 5 0) 1%positive; HPush (mkTV 3 0) 2%positive; HPush (mkTV 4 7) 3%positive; HPopObj 2%positive; HMove (mkTV 1 0) 1%positive].

Lemma heap_refines_queue_witness :
  permitted_all ∅ sample_ops /\ exists h m, heap_run (heap_new true) sample_ops = Ok h /\ queue_steps ∅ sample_ops m /\ verify h = true.
Proof.
  assert (Hp : permitted_all ∅ sample_ops).
  { cbn [permitted_all sample_ops].
    repeat match goal with
    | |- True => exact I
    | |- forall m', queue_step _ _ m' -> _ => let H := fresh in intros ? H; inversion H; subst; clear H
    | |- _ /\ _ => split
    | |- permitted _ _ => cbn; first [reflexivity | eexists; reflexivity]
    end. }
  split; [exact Hp|]. destruct (heap_refines_queue sample_ops Hp) as (h & m & E & Hs & _ & Hv & _). by exists h, m.
Defined.
