(* ===== verification/Timer.v ===== *)
(** * Timers (libxorp/timer.hh, libxorp/timer.cc)

    A [TimerList] keeps a heap of nodes per priority, in increasing order of the
    priority.  A node is named by an [obj]; it is reference counted by the [XorpTimer]
    handles, and its index in its heap is the node's field [_pos_in_heap], kept in
    [tl_pos].  The clock is the time of the last [advance_time].  A use of a node that
    was deleted is [Throw OutOfBounds], and so is a read of [_priority] before the first
    [schedule_at] or [schedule_after], which the constructor does not set.  The
    observer is not modelled: it is told of the changes and has no say in them. *)

From Stdlib Require Import ZArith Lia.
From stdpp Require Import base tactics option numbers gmap list.
From S2P Require Import Prelude OMap TimeVal Heap.
Local Open Scope Z_scope.
Local Open Scope xorp_scope.

(** [XorpTask::PRIORITY_INFINITY] *)
Definition PRIORITY_INFINITY : Z := 255.

(** [TimerNode], [OneoffTimerNode2] and [PeriodicTimerNode2] *)
Inductive timer_kind : Type := Plain | Oneoff | Periodic (period : TimeVal).

Record TimerNode := mkTimer { ref_cnt : Z; expires : TimeVal; t_priority : option Z; t_kind : timer_kind }.

Record TimerList := mkTL {
  heaplist : list (Z * Heap); nodes : gmap obj TimerNode; tl_pos : gmap obj Z; clock : TimeVal }.

Definition timerlist_new (now : TimeVal) : TimerList := mkTL [] ∅ ∅ now.

Definition set_nodes (tl : TimerList) (ns : gmap obj TimerNode) : TimerList := mkTL (heaplist tl) ns (tl_pos tl) (clock tl).
Definition node_at (tl : TimerList) (o : obj) : result xorp_exn TimerNode :=
  match nodes tl !! o with Some n => Ok n | None => Throw OutOfBounds end.
Definition set_expires (n : TimerNode) (t : TimeVal) : TimerNode := mkTimer (ref_cnt n) t (t_priority n) (t_kind n).
Definition set_t_priority (n : TimerNode) (p : Z) : TimerNode := mkTimer (ref_cnt n) (expires n) (Some p) (t_kind n).
Definition set_ref_cnt (n : TimerNode) (r : Z) : TimerNode := mkTimer r (expires n) (t_priority n) (t_kind n).

(** [scheduled] *)
Definition scheduled (tl : TimerList) (o : obj) : bool := 0 <=? default NOT_IN_HEAP (tl_pos tl !! o).

(** The heap sees the indices that the nodes hold. *)
Definition load (tl : TimerList) (h : Heap) : Heap := mkHeap (elements h) (intrude h) (slots h) (tl_pos tl).
Definition store (tl : TimerList) (p : Z) (h : Heap) : TimerList :=
  mkTL (m_insert p h (heaplist tl)) (nodes tl) (pos h) (clock tl).

Definition find_heap (tl : TimerList) (p : Z) : TimerList * Heap :=
  match m_find p (heaplist tl) with
  | Some h => (tl, h)
  | None => let h := heap_new true in (mkTL (m_insert p h (heaplist tl)) (nodes tl) (tl_pos tl) (clock tl), h)
  end.

Definition priority_of (n : TimerNode) : result xorp_exn Z :=
  match t_priority n with Some p => Ok p | None => Throw OutOfBounds end.

(** [schedule_node], with its last assertion, and [unschedule_node] *)
Definition schedule_node (tl : TimerList) (o : obj) : result xorp_exn TimerList :=
  n <-! node_at tl o ;;
  p <-! priority_of n ;;
  let '(tl, h) := find_heap tl p in
  h <-! push (load tl h) (expires n) o ;;
  let tl := store tl p h in
  if scheduled tl o then Ok tl else Throw AssertFailed.
Definition unschedule_node (tl : TimerList) (o : obj) : result xorp_exn TimerList :=
  n <-! node_at tl o ;;
  p <-! priority_of n ;;
  let '(tl, h) := find_heap tl p in
  h <-! pop_obj (load tl h) (Some o) ;;
  Ok (store tl p h).

(** ** TimerNode *)
Definition unschedule (tl : TimerList) (o : obj) : result xorp_exn TimerList :=
  if scheduled tl o then unschedule_node tl o else Ok tl.

Definition update_node (tl : TimerList) (o : obj) (f : TimerNode -> TimerNode) : TimerList :=
  set_nodes tl (alter f o (nodes tl)).

Definition schedule_at (tl : TimerList) (o : obj) (t : TimeVal) (p : Z) : result xorp_exn TimerList :=
  _ <-! node_at tl o ;;
  tl <-! unschedule tl o ;;
  schedule_node (update_node tl o (fun n => set_t_priority (set_expires n t) p)) o.
Definition schedule_after (tl : TimerList) (o : obj) (wait : TimeVal) (p : Z) : result xorp_exn TimerList :=
  _ <-! node_at tl o ;;
  tl <-! unschedule tl o ;;
  t <-! tv_add (clock tl) wait ;;
  schedule_node (update_node tl o (fun n => set_t_priority (set_expires n t) p)) o.
Definition reschedule_after (tl : TimerList) (o : obj) (wait : TimeVal) : result xorp_exn TimerList :=
  n <-! node_at tl o ;;
  tl <-! unschedule tl o ;;
  t <-! tv_add (expires n) wait ;;
  schedule_node (update_node tl o (fun n => set_expires n t)) o.

(** [time_remaining] *)
Definition time_remaining (tl : TimerList) (o : obj) : result xorp_exn TimeVal :=
  n <-! node_at tl o ;;
  if tv_leb (expires n) (clock tl) then Ok ZERO else tv_sub (expires n) (clock tl).

(** [add_ref], and [release_ref] with the destructor *)
Definition add_ref (tl : TimerList) (o : obj) : result xorp_exn TimerList :=
  _ <-! node_at tl o ;; Ok (update_node tl o (fun n => set_ref_cnt n (ref_cnt n + 1))).
Definition release_ref (tl : TimerList) (o : obj) : result xorp_exn TimerList :=
  n <-! node_at tl o ;;
  if ref_cnt n - 1 <=? 0 then
    tl <-! unschedule tl o ;;
    Ok (mkTL (heaplist tl) (delete o (nodes tl)) (delete o (tl_pos tl)) (clock tl))
  else Ok (update_node tl o (fun n => set_ref_cnt n (ref_cnt n - 1))).

(** ** Creation: the new node gets an unused name. *)
Definition new_node (tl : TimerList) (o : obj) (k : timer_kind) : TimerList :=
  mkTL (heaplist tl) (<[o := mkTimer 0 ZERO None k]> (nodes tl)) (<[o := NOT_IN_HEAP]> (tl_pos tl)) (clock tl).

Definition new_timer (tl : TimerList) (o : obj) : result xorp_exn TimerList := add_ref (new_node tl o Plain) o.
Definition new_oneoff_at (tl : TimerList) (o : obj) (t : TimeVal) (p : Z) : result xorp_exn TimerList :=
  tl <-! schedule_at (new_node tl o Oneoff) o t p ;; add_ref tl o.
Definition new_oneoff_after (tl : TimerList) (o : obj) (wait : TimeVal) (p : Z) : result xorp_exn TimerList :=
  tl <-! schedule_after (new_node tl o Oneoff) o wait p ;; add_ref tl o.
Definition new_periodic (tl : TimerList) (o : obj) (wait : TimeVal) (p : Z) : result xorp_exn TimerList :=
  tl <-! schedule_after (new_node tl o (Periodic wait)) o wait p ;; add_ref tl o.

(** [advance_time]: the clock is set to the time of the system. *)
Definition advance_time (tl : TimerList) (now : TimeVal) : TimerList := mkTL (heaplist tl) (nodes tl) (tl_pos tl) now.

(** ** The operations of a program on its timers *)
Inductive timer_op : Type :=
  | NewTimer (o : obj)
  | NewOneoffAt (o : obj) (t : TimeVal) (p : Z)
  | NewOneoffAfter (o : obj) (wait : TimeVal) (p : Z)
  | NewPeriodic (o : obj) (wait : TimeVal) (p : Z)
  | ScheduleAt (o : obj) (t : TimeVal) (p : Z)
  | ScheduleAfter (o : obj) (wait : TimeVal) (p : Z)
  | RescheduleAfter (o : obj) (wait : TimeVal)
  | Unschedule (o : obj)
  | CopyTimer (o : obj)
  | ClearTimer (o : obj)
  | AdvanceTime (now : TimeVal).

Definition timer_exec (tl : TimerList) (op : timer_op) : result xorp_exn TimerList :=
  match op with
  | NewTimer o => new_timer tl o
  | NewOneoffAt o t p => new_oneoff_at tl o t p
  | NewOneoffAfter o wait p => new_oneoff_after tl o wait p
  | NewPeriodic o wait p => new_periodic tl o wait p
  | ScheduleAt o t p => schedule_at tl o t p
  | ScheduleAfter o wait p => schedule_after tl o wait p
  | RescheduleAfter o wait => reschedule_after tl o wait
  | Unschedule o => _ <-! node_at tl o ;; unschedule tl o
  | CopyTimer o => add_ref tl o
  | ClearTimer o => release_ref tl o
  | AdvanceTime now => Ok (advance_time tl now)
  end.
Fixpoint timer_exec_all (tl : TimerList) (ops : list timer_op) : result xorp_exn TimerList :=
  match ops with
  | [] => Ok tl
  | op :: ops => tl <-! timer_exec tl op ;; timer_exec_all tl ops
  end.

(** ** Expiry

    [dispatch o tl] is what the callback of [o] does: the operations it performs on
    the timers, and what it returns, which only a periodic timer looks at. *)
Section Expiry.
Context (dispatch : obj -> TimerList -> list timer_op * bool).

(** [TimerNode::expire] and those of its children *)
Definition expire (tl : TimerList) (o : obj) : result xorp_exn TimerList :=
  n <-! node_at tl o ;;
  let '(ops, again) := dispatch o tl in
  tl <-! timer_exec_all tl ops ;;
  match t_kind n with
  | Plain | Oneoff => Ok tl
  | Periodic period => if again then reschedule_after tl o period else Ok tl
  end.

(** The first heap, up to [worst_priority], whose top has expired. *)
Fixpoint first_due (now : TimeVal) (worst_priority : Z) (hl : list (Z * Heap)) : option (Z * Heap * heap_entry) :=
  match hl with
  | [] => None
  | (p, h) :: hl =>
      if p <=? worst_priority then
        match top h with
        | Some n => if tv_leb (key n) now then Some (p, h, n) else first_due now worst_priority hl
        | None => first_due now worst_priority hl
        end
      else None
  end.

(** The placeholder holds a reference to the node while its callback runs. *)
Definition fire (tl : TimerList) (o : obj) : result xorp_exn TimerList :=
  tl <-! add_ref tl o ;;
  tl <-! expire tl o ;;
  release_ref tl o.

Definition expire_one (tl : TimerList) (worst_priority : Z) : result xorp_exn (TimerList * bool) :=
  match first_due (clock tl) worst_priority (heaplist tl) with
  | None => Ok (tl, false)
  | Some (p, h, n) =>
      _ <-! tv_sub (clock tl) (key n) ;;
      match object n with
      | None => Throw OutOfBounds
      | Some t =>
          h <-! pop (load tl h) ;;
          tl <-! fire (store tl p h) t ;;
          Ok (tl, true)
      end
  end.

(** [run] *)
Fixpoint run_loop (tl : TimerList) (ps : list Z) : result xorp_exn TimerList :=
  match ps with
  | [] => Ok tl
  | p :: ps =>
      r <-! expire_one tl p ;;
      if snd r then Ok (fst r) else run_loop (fst r) ps
  end.
Definition run (tl : TimerList) : result xorp_exn TimerList := run_loop tl (map fst (heaplist tl)).

End Expiry.

(** ** Queries *)
Fixpoint expired_priority (now : TimeVal) (hl : list (Z * Heap)) : Z :=
  match hl with
  | [] => PRIORITY_INFINITY
  | (p, h) :: hl =>
      match top h with
      | Some n => if tv_geb now (key n) then p else expired_priority now hl
      | None => expired_priority now hl
      end
  end.
Definition get_expired_priority (tl : TimerList) : Z := expired_priority (clock tl) (heaplist tl).

Definition timers_empty (tl : TimerList) : bool :=
  forallb (fun ph => match top (snd ph) with None => true | Some _ => false end) (heaplist tl).
Definition timers_size (tl : TimerList) : nat := foldr (fun ph n => (elements (snd ph) + n)%nat) 0%nat (heaplist tl).

(** The earliest key of the tops. *)
Fixpoint earliest_top (t : option heap_entry) (hl : list (Z * Heap)) : option heap_entry :=
  match hl with
  | [] => t
  | (_, h) :: hl =>
      earliest_top (match top h, t with
                    | None, _ => t
                    | Some e, None => Some e
                    | Some e, Some t => if tv_ltb (key e) (key t) then Some e else Some t
                    end) hl
  end.
Definition get_next_delay (tl : TimerList) : result xorp_exn (bool * TimeVal) :=
  match earliest_top None (heaplist tl) with
  | None => Ok (false, MAXIMUM)
  | Some t =>
      if tv_gtb (key t) (clock tl) then
        d <-! tv_sub (key t) (clock tl) ;; Ok (true, d)
      else Ok (true, ZERO)
  end.
