(* ===== verification/TimerProps.v ===== *)
(** * The timer list

    [tl_inv] ties the heaps to the nodes: the heap of a priority holds exactly the
    scheduled nodes of this priority, each with its expiry time as the key, and the
    index in every node is right.  Every operation keeps it, whatever the callbacks
    do; the timer that fires is the most urgent one. *)

From Stdlib Require Import ZArith Lia.
From stdpp Require Import base tactics option numbers gmap list.
From S2P Require Import Prelude OMap TimeVal Heap HeapProps Timer.
Local Open Scope Z_scope.
Local Open Scope xorp_scope.

(** ** The invariant *)
Definition owns (ns : gmap obj TimerNode) (p : Z) (o : obj) : Prop := exists n, ns !! o = Some n /\ t_priority n = Some p.

(** The entry of a node in the heap of priority [p] has the node's expiry time. *)
Definition entries_right (ns : gmap obj TimerNode) (c : list heap_entry) : Prop :=
  forall k o, mkEntry k (Some o) ∈ c -> exists n, ns !! o = Some n /\ expires n = k.

(** A time that is not before 1970. *)
Definition tv_time (t : TimeVal) : Prop := tv_normal t /\ 0 <= sec t.

Definition node_ok (n : TimerNode) : Prop :=
  tv_time (expires n) /\ 0 <= ref_cnt n /\ match t_kind n with Periodic w => tv_time w | _ => True end.

Definition heap_ok (tl : TimerList) (p : Z) (h : Heap) : Prop :=
  intrude h = true /\ exists c, heap_inv (owns (nodes tl) p) (load tl h) c /\ entries_right (nodes tl) c.

Record tl_inv (tl : TimerList) : Prop := {
  tl_sorted : m_sorted (heaplist tl);
  tl_heaps p h : (p, h) ∈ heaplist tl -> heap_ok tl p h;
  tl_heaped o n : nodes tl !! o = Some n -> scheduled tl o = true ->
    exists p h, t_priority n = Some p /\ (p, h) ∈ heaplist tl;
  tl_clock : tv_time (clock tl);
  tl_nodes o n : nodes tl !! o = Some n -> node_ok n }.

(** ** Changing the owner of unscheduled objects *)
Lemma heap_inv_ext (own own' : obj -> Prop) h h' c :
  heap_inv own h c -> elements h' = elements h -> slots h' = slots h -> intrude h' = intrude h ->
  (forall i o, holds c i o -> own' o) ->
  (forall o, own' o -> (own o /\ pos_in_heap h' o = pos_in_heap h o) \/
                       (pos_in_heap h' o < 0 /\ forall i, ~ holds c i o)) ->
  heap_inv own' h' c.
Proof.
  intros (Hr & Hg & Ho & He) E1 E2 E3 Hin Hpos. split; [|split; [|split]].
  - unfold rep in *. by rewrite E1, E2.
  - rewrite E3. destruct Hg as [Hf Hn]. split; [|done]. apply Forall_lookup. intros i e Hi.
    destruct (Forall_lookup_1 _ _ _ _ Hf Hi) as (o & Heo & _). exists o. split; [done|]. apply (Hin i). exists (key e).
    destruct e; cbn in *. by subst.
  - done.
  - intros Hint o Hown _ i. rewrite E3 in Hint. destruct (Hpos o Hown) as [[Hown' ->]|[Hneg Hno]].
    + by apply He.
    + split; [lia|]. by intros ?%Hno.
Qed.

Lemma pos_load tl h o : pos_in_heap (load tl h) o = default NOT_IN_HEAP (tl_pos tl !! o).
Proof. done. Qed.

(** What a heap contains. *)
Definition is_sched (tl : TimerList) (o : obj) (t : TimeVal) (p : Z) : Prop :=
  exists n, nodes tl !! o = Some n /\ expires n = t /\ t_priority n = Some p /\ scheduled tl o = true.

Lemma holds_sched tl p h c o : intrude h = true -> heap_inv (owns (nodes tl) p) (load tl h) c ->
  owns (nodes tl) p o -> scheduled tl o = true <-> exists i, holds c i o.
Proof.
  intros Hint (_ & _ & _ & He) Hown. unfold scheduled. rewrite Z.leb_le, <- (pos_load tl h o). split.
  - intros Hp. exists (Z.to_nat (pos_in_heap (load tl h) o)). apply He; [done..|lia].
  - intros [i Hi]. apply He in Hi; [lia|done..].
Qed.

Lemma heap_contents tl p h : tl_inv tl -> (p, h) ∈ heaplist tl ->
  exists c, heap_inv (owns (nodes tl) p) (load tl h) c /\ forall k o, mkEntry k (Some o) ∈ c <-> is_sched tl o k p.
Proof.
  intros Hi Hin. destruct (tl_heaps _ Hi p h Hin) as (Hint & c & Hc & Hr). exists c. split; [done|]. intros k o. split.
  - intros Hk. destruct (Hr _ _ Hk) as (n & Hn & Ht). apply list_elem_of_lookup in Hk as [i Hk].
    destruct (good_lookup _ _ _ _ _ (proj1 (proj2 Hc)) Hk) as (o' & [= <-] & Hown & Hh). pose proof Hown as (n' & Hn' & Hp).
    simplify_eq. exists n. split_conj; [done..|]. apply (holds_sched tl p h c o Hint Hc Hown). by exists i.
  - intros (n & Hn & Ht & Hp & Hs). assert (Hown : owns (nodes tl) p o) by (by exists n).
    apply (holds_sched tl p h c o Hint Hc Hown) in Hs as [i [k' Hk]]. apply list_elem_of_lookup_2 in Hk.
    destruct (Hr _ _ Hk) as (n' & Hn' & Ht'). by simplify_eq.
Qed.

(** ** Replacing the heap of a priority *)
Section Store.
Context (tl : TimerList) (p : Z) (h h' : Heap) (c' : list heap_entry).
Hypothesis Hinv : tl_inv tl.
Hypothesis Hin : (p, h) ∈ heaplist tl.
Hypothesis Hc' : heap_inv (owns (nodes tl) p) h' c'.
Hypothesis Hfr : frame (owns (nodes tl) p) (load tl h) h'.
Hypothesis Hr : entries_right (nodes tl) c'.

Lemma load_store : load (store tl p h') h' = h'.
Proof. unfold load, store. by destruct h'. Qed.

Lemma store_others o : ~ owns (nodes tl) p o -> scheduled (store tl p h') o = scheduled tl o.
Proof. intros Ho. unfold scheduled. destruct Hfr as [_ E]. cbn. by rewrite (E o Ho). Qed.

Lemma owns_unique q o : owns (nodes tl) p o -> owns (nodes tl) q o -> q = p.
Proof. intros (n & Hn & Hp) (n' & Hn' & Hq). simplify_eq. congruence. Qed.

Lemma store_inv : tl_inv (store tl p h').
Proof.
  destruct Hinv as [Hs Hh Hhd Hck Ht]. split; [by apply insert_sorted| |..].
  - intros q g Hg. cbn in Hg. apply insert_elem in Hg as [[-> ->]|[Hne Hg]]; [| |done].
    + split; [rewrite (proj1 Hfr); apply (Hh p h Hin)|]. exists c'. split; [|done]. by rewrite load_store.
    + destruct (Hh q g Hg) as (Hint & c & Hc & Hrc). split; [done|]. exists c. split; [|done].
      eapply heap_inv_ext; [exact Hc|done..| |].
      * intros i o [k Hk]. by destruct (good_lookup _ _ _ _ _ (proj1 (proj2 Hc)) Hk) as (o' & [= <-] & Hown & _).
      * intros o Hown. left. split; [done|]. rewrite !pos_load. cbn. destruct Hfr as [_ E]. rewrite E; [done|].
        intros Hown'. by apply (owns_unique q o) in Hown.
  - intros o n Hn Hso. cbn in Hn. destruct (decide (t_priority n = Some p)) as [Hp|Hp].
    + exists p, h'. split; [done|]. cbn. apply insert_elem; auto.
    + rewrite store_others in Hso by (intros (n' & ? & ?); simplify_eq; done).
      destruct (Hhd o n Hn Hso) as (q & g & Hq & Hg). exists q, g. split; [done|]. cbn. apply insert_elem; [done|].
      right. split; [congruence|done].
  - done.
  - done.
Qed.

Lemma store_sched o t q : is_sched (store tl p h') o t q <->
  (q = p /\ mkEntry t (Some o) ∈ c') \/ (q <> p /\ is_sched tl o t q).
Proof.
  destruct (decide (q = p)) as [->|Hne].
  - destruct Hc' as (_ & Hg & _). split.
    + intros (n & Hn & Ht & Hp & Hs). left. split; [done|]. cbn in Hn.
      assert (Hown : owns (nodes tl) p o) by (by exists n).
      apply (holds_sched (store tl p h') p h' c') in Hs as [i [k Hk]]; [..|by rewrite load_store|done].
      * apply list_elem_of_lookup_2 in Hk. destruct (Hr _ _ Hk) as (n' & Hn' & Ht'). by simplify_eq.
      * rewrite (proj1 Hfr). by apply (tl_heaps _ Hinv p h Hin).
    + intros [[_ Hk]|[? _]]; [|done]. destruct (Hr _ _ Hk) as (n & Hn & Ht). apply list_elem_of_lookup in Hk as [i Hk].
      destruct (good_lookup _ _ _ _ _ Hg Hk) as (o' & [= <-] & Hown & Hh). pose proof Hown as (n' & Hn' & Hp). simplify_eq.
      exists n. split_conj; [done..|]. apply (holds_sched (store tl p h') p h' c'); [|by rewrite load_store|done|by exists i].
      rewrite (proj1 Hfr). by apply (tl_heaps _ Hinv p h Hin).
  - assert (E : is_sched (store tl p h') o t q <-> is_sched tl o t q).
    { unfold is_sched. apply exist_proper. intros n. cbn. split; intros (Hn & Ht & Hq & Hs); split_conj; try done;
        [rewrite <- Hs; symmetry|rewrite <- Hs]; apply store_others; intros (n' & ? & ?); simplify_eq; congruence. }
    rewrite E. split; [auto|]. intros [[? _]|[_ ?]]; done.
Qed.
End Store.

Lemma find_heap_ok tl p : tl_inv tl ->
  tl_inv (fst (find_heap tl p)) /\ (p, snd (find_heap tl p)) ∈ heaplist (fst (find_heap tl p)) /\
  nodes (fst (find_heap tl p)) = nodes tl /\ tl_pos (fst (find_heap tl p)) = tl_pos tl /\
  clock (fst (find_heap tl p)) = clock tl.
Proof.
  intros Hi. unfold find_heap. destruct (m_find p (heaplist tl)) as [h|] eqn:E; cbn.
  - split_conj; [done| |done..]. apply find_elem; [apply Hi|done].
  - destruct Hi as [Hs Hh Hhd Hck Ht].
    assert (Hno : forall h, (p, h) ∉ heaplist tl) by (intros h Hin; apply find_elem in Hin; [congruence|done]).
    split_conj; [|by apply insert_elem; auto|done..]. split; cbn; [by apply insert_sorted|..|done|done].
    + intros q g [[-> ->]|[Hne Hg]]%insert_elem; [|by apply Hh|done]. split; [done|]. exists []. split.
      * split; [|split; [|split]].
        -- split; [done|]. by exists [].
        -- split; [constructor|intros _; constructor].
        -- done.
        -- intros _ o (n & Hn & Hp) _ i. split; [|by intros [k ?]]. intros Hpos. rewrite pos_load in Hpos. cbn in *.
           destruct (Hhd o n Hn) as (q & g & Hq & Hg); [unfold scheduled; rewrite Hpos; apply Z.leb_le; lia|].
           simplify_eq. by destruct (Hno g).
      * intros k o Hin. by apply elem_of_nil in Hin.
    + intros o n Hn Hso. destruct (Hhd o n Hn Hso) as (q & g & Hq & Hg). exists q, g. split; [done|].
      apply insert_elem; [done|]. right. split; [|done]. intros ->. by destruct (Hno g).
Qed.

(** ** schedule_node and unschedule *)

(** [tl'] has the nodes and the clock of [tl], and the scheduled timers of [P]. *)
Record rescheduled (tl tl' : TimerList) (P : obj -> TimeVal -> Z -> Prop) : Prop := {
  re_inv : tl_inv tl'; re_nodes : nodes tl' = nodes tl; re_clock : clock tl' = clock tl;
  re_sched o t p : is_sched tl' o t p <-> P o t p }.

Lemma sched_find tl p o t q : is_sched (fst (find_heap tl p)) o t q <-> is_sched tl o t q.
Proof. unfold is_sched, find_heap, scheduled. by destruct (m_find p (heaplist tl)). Qed.

Lemma not_holds tl p h c n o : tl_inv tl -> (p, h) ∈ heaplist tl -> heap_inv (owns (nodes tl) p) (load tl h) c ->
  nodes tl !! o = Some n -> t_priority n = Some p -> scheduled tl o = false -> forall i, ~ holds c i o.
Proof.
  intros Hi Hin Hc Hn Hp Hs i Hh. destruct (tl_heaps _ Hi p h Hin) as (Hint & _).
  assert (scheduled tl o = true); [|congruence]. apply (holds_sched tl p h c o Hint Hc); [by exists n|by exists i].
Qed.

Lemma sched_scheduled tl o t p : is_sched tl o t p -> scheduled tl o = true.
Proof. by intros (n & _ & _ & _ & ?). Qed.

Lemma schedule_node_ok tl o n p : tl_inv tl -> nodes tl !! o = Some n -> t_priority n = Some p -> scheduled tl o = false ->
  exists tl', schedule_node tl o = Ok tl' /\
    rescheduled tl tl' (fun o' t q => (o' = o /\ t = expires n /\ q = p) \/ is_sched tl o' t q).
Proof.
  intros Hi Hn Hp Hs. unfold schedule_node, node_at, priority_of. rewrite Hn. cbn [result_bind]. rewrite Hp. cbn [result_bind].
  destruct (find_heap_ok tl p Hi) as (Hi1 & Hin & En & Ep & Ec). pose proof (sched_find tl p) as Hsf.
  destruct (find_heap tl p) as [tl1 h]; cbn [fst snd] in *.
  destruct (heap_contents tl1 p h Hi1 Hin) as (c & Hc & Hcs). rewrite <- En in Hn.
  assert (Hs1 : scheduled tl1 o = false) by (unfold scheduled; by rewrite Ep).
  destruct (push_ok _ _ _ (expires n) o Hc) as (h' & c' & E & Hc' & Hpc & Hfr).
  { by exists n. }
  { intros _. by eapply (not_holds tl1). }
  rewrite E. cbn [result_bind].
  assert (Hr : entries_right (nodes tl1) c').
  { intros k o' Hk. rewrite Hpc, elem_of_cons in Hk. destruct Hk as [[= -> ->]|Hk]; [by exists n|].
    apply Hcs in Hk as (n' & Hn' & Ht' & _). by exists n'. }
  pose proof (store_inv _ _ _ _ _ Hi1 Hin Hc' Hfr Hr) as Hi2.
  pose proof (store_sched _ _ _ _ _ Hi1 Hin Hc' Hfr Hr) as Hs2.
  assert (Hs' : is_sched (store tl1 p h') o (expires n) p) by (apply Hs2; left; rewrite Hpc; split; [done|by left]).
  rewrite (sched_scheduled _ _ _ _ Hs'). eexists. split; [done|]. split; [done|done|done|]. intros o' t q.
  rewrite Hs2, Hpc, elem_of_cons, Hcs, <- Hsf. split.
  - intros [[-> [[= -> ->]|Hk]]|[_ Hk]]; auto.
  - intros [(-> & -> & ->)|Hk]; [auto|]. destruct (decide (q = p)) as [->|]; auto.
Qed.

Lemma scheduled_heaped tl o n : tl_inv tl -> nodes tl !! o = Some n -> scheduled tl o = true ->
  exists p, t_priority n = Some p.
Proof. intros Hi Hn Hs. destruct (tl_heaped _ Hi o n Hn Hs) as (p & h & Hp & _). eauto. Qed.

(** Removing the entry of a scheduled node from its heap. *)
Lemma remove_entry tl p h c i k o h' c' :
  tl_inv tl -> (p, h) ∈ heaplist tl -> heap_inv (owns (nodes tl) p) (load tl h) c ->
  (forall k o, mkEntry k (Some o) ∈ c <-> is_sched tl o k p) ->
  c !! i = Some (mkEntry k (Some o)) -> heap_inv (owns (nodes tl) p) h' c' -> c' ≡ₚ delete i c ->
  frame (owns (nodes tl) p) (load tl h) h' ->
  rescheduled tl (store tl p h') (fun o' t q => o' <> o /\ is_sched tl o' t q).
Proof.
  intros Hi Hin Hc Hcs Hk Hc' Hpc Hfr. pose proof (delete_Permutation _ _ _ Hk) as Hp.
  destruct (tl_heaps _ Hi p h Hin) as (Hint & _).
  assert (Hr : entries_right (nodes tl) c').
  { intros k' o' Hk'. rewrite Hpc in Hk'. assert (Hk2 : mkEntry k' (Some o') ∈ c) by (rewrite Hp; by right).
    apply Hcs in Hk2 as (n' & Hn' & Ht' & _). by exists n'. }
  split; [by eapply store_inv|done|done|]. intros o' t q. rewrite (store_sched _ _ _ _ _ Hi Hin Hc' Hfr Hr), Hpc.
  assert (Hnd : NoDup (object <$> c)) by (by apply (proj1 (proj2 Hc))). rewrite Hp in Hnd. apply NoDup_cons in Hnd as [Hnd _].
  split.
  - intros [[-> Hk']|[Hne Hs]].
    + split; [|apply Hcs; rewrite Hp; by right]. intros ->. destruct Hnd. apply list_elem_of_fmap. by exists (mkEntry t (Some o)).
    + split; [|done]. intros ->. assert (Hs0 : is_sched tl o k p) by (apply Hcs; by eapply list_elem_of_lookup_2).
      destruct Hs as (n & Hn & _ & Hq & _), Hs0 as (n' & Hn' & _ & Hq' & _). simplify_eq.
  - intros [Hne Hs]. destruct (decide (q = p)) as [->|]; [|auto]. left. split; [done|]. apply Hcs in Hs.
    rewrite Hp in Hs. apply elem_of_cons in Hs as [[= _ ->]|?]; done.
Qed.

Lemma unschedule_ok tl o n : tl_inv tl -> nodes tl !! o = Some n ->
  exists tl', unschedule tl o = Ok tl' /\ rescheduled tl tl' (fun o' t q => o' <> o /\ is_sched tl o' t q).
Proof.
  intros Hi Hn. unfold unschedule. destruct (scheduled tl o) eqn:Hs.
  - destruct (tl_heaped _ Hi o n Hn Hs) as (p & h & Hp & Hin). unfold unschedule_node, node_at, priority_of.
    rewrite Hn. cbn [result_bind]. rewrite Hp. cbn [result_bind]. unfold find_heap.
    rewrite (proj2 (find_elem _ _ _ (tl_sorted _ Hi)) Hin). destruct (heap_contents tl p h Hi Hin) as (c & Hc & Hcs).
    assert (Hown : owns (nodes tl) p o) by (by exists n). pose proof (tl_heaps _ Hi p h Hin) as (Hint & _).
    destruct (proj1 (holds_sched tl p h c o Hint Hc Hown) Hs) as [i [k Hk]]. unfold pop_obj.
    apply lookup_lt_Some in Hk as Hl. rewrite (proj1 (proj1 Hc)). destruct (Nat.eqb_spec (length c) 0); [lia|].
    rewrite (pop_father_in _ _ _ _ _ _ Hc Hint Hown Hk). cbn [result_bind].
    destruct (pop_at_ok _ _ _ _ _ _ Hc Hk) as (h' & c' & E & Hc' & Hpc & Hfr). rewrite E. cbn [result_bind].
    eexists. split; [done|]. by eapply remove_entry.
  - exists tl. split; [done|]. split; [done|done|done|]. intros o' t q. split; [|by intros [_ ?]]. intros H. split; [|done].
    intros ->. apply sched_scheduled in H. congruence.
Qed.

(** ** Changing a node *)
Definition view (tl : TimerList) (o : obj) : option (TimeVal * option Z) :=
  (fun n => (expires n, t_priority n)) <$> nodes tl !! o.

(** Either the heaps see no difference in [o], or [o] is in none of them. *)
Definition same_or_idle (tl tl' : TimerList) (o : obj) : Prop :=
  (view tl' o = view tl o /\ tl_pos tl' !! o = tl_pos tl !! o) \/
  ((forall t p, ~ is_sched tl o t p) /\ scheduled tl' o = false).

Lemma view_owns tl tl' p o : view tl' o = view tl o -> owns (nodes tl) p o -> owns (nodes tl') p o.
Proof.
  intros Hv (n & Hn & Hp). unfold view in Hv. rewrite Hn in Hv. cbn in Hv.
  destruct (nodes tl' !! o) as [n'|] eqn:E; [|done]. injection Hv as ? Hp'. exists n'. split; [done|congruence].
Qed.
Lemma view_sched tl tl' o t p : view tl' o = view tl o -> tl_pos tl' !! o = tl_pos tl !! o ->
  is_sched tl o t p -> is_sched tl' o t p.
Proof.
  intros Hv Hp (n & Hn & Ht & Hq & Hs). unfold view in Hv. rewrite Hn in Hv. cbn in Hv.
  destruct (nodes tl' !! o) as [n'|] eqn:E; [|done]. injection Hv as ? ?. exists n'. split_conj; [done|congruence..|].
  unfold scheduled in *. by rewrite Hp.
Qed.

Section Change.
Context (tl tl' : TimerList).
Hypothesis Hinv : tl_inv tl.
Hypothesis Hheaps : heaplist tl' = heaplist tl.
Hypothesis Hclock : tv_time (clock tl').
Hypothesis Hnodes : forall o n, nodes tl' !! o = Some n -> node_ok n.
Hypothesis Hsame : forall o, same_or_idle tl tl' o.

Lemma change_sched o t p : is_sched tl' o t p <-> is_sched tl o t p.
Proof.
  destruct (Hsame o) as [[Hv Hp]|[Hno Hs]].
  - split; by apply view_sched.
  - split; [|by intros ?%Hno]. intros H%sched_scheduled. congruence.
Qed.

Lemma change_inv : tl_inv tl'.
Proof.
  split; [rewrite Hheaps; apply Hinv| | |done|done].
  - intros p h Hin. rewrite Hheaps in Hin. destruct (tl_heaps _ Hinv p h Hin) as (Hint & _). split; [done|].
    destruct (heap_contents tl p h Hinv Hin) as (c & Hc & Hcs). exists c.
    assert (Hheld : forall i o, holds c i o -> exists k, is_sched tl o k p).
    { intros i o [k Hk]. exists k. apply Hcs. by eapply list_elem_of_lookup_2. }
    split.
    + eapply heap_inv_ext; [exact Hc|done..| |].
      * intros i o Hh. destruct (Hheld _ _ Hh) as [k Hs]. apply change_sched in Hs as (n & Hn & _ & Hp & _). by exists n.
      * intros o Hown. destruct (Hsame o) as [[Hv Hp]|[Hno Hs]].
        -- left. split; [by eapply view_owns|]. rewrite !pos_load. by rewrite Hp.
        -- right. rewrite pos_load. unfold scheduled in Hs. apply Z.leb_gt in Hs. split; [done|].
           intros i Hh. destruct (Hheld _ _ Hh) as [k Hk]. by apply Hno in Hk.
    + intros k o Hk. apply Hcs, change_sched in Hk as (n & Hn & Ht & _). by exists n.
  - intros o n Hn Hs. rewrite Hheaps. destruct (Hsame o) as [[Hv Hp]|[_ Hs']]; [|congruence].
    unfold view in Hv. rewrite Hn in Hv. cbn in Hv. destruct (nodes tl !! o) as [n'|] eqn:E; [|done]. injection Hv as ? Hpr.
    rewrite Hpr. apply (tl_heaped _ Hinv o n' E). unfold scheduled in *. by rewrite <- Hp.
Qed.
End Change.

(** The three ways to change a node: one the heaps cannot see, one of an idle node,
    and its removal. *)
Lemma update_ok tl o n f : tl_inv tl -> nodes tl !! o = Some n -> node_ok (f n) ->
  (expires (f n) = expires n /\ t_priority (f n) = t_priority n) \/ scheduled tl o = false ->
  tl_inv (update_node tl o f) /\ forall o' t p, is_sched (update_node tl o f) o' t p <-> is_sched tl o' t p.
Proof.
  intros Hi Hn Hok Hf. unfold update_node. set (tl' := set_nodes _ _).
  assert (Hsame : forall o', same_or_idle tl tl' o').
  { intros o'. unfold same_or_idle, view. cbn. destruct (decide (o = o')) as [<-|Hne].
    - rewrite lookup_alter_eq, Hn. cbn. destruct Hf as [[E1 E2]|Hs].
      + left. by rewrite E1, E2.
      + right. split; [|done]. intros t p H%sched_scheduled. congruence.
    - left. by rewrite lookup_alter_ne. }
  assert (Hns : forall o' n', nodes tl' !! o' = Some n' -> node_ok n').
  { intros o' n'. cbn. destruct (decide (o = o')) as [<-|Hne]; [rewrite lookup_alter_eq, Hn; intros [= <-]; done|].
    rewrite lookup_alter_ne by done. apply (tl_nodes _ Hi). }
  split; [by eapply change_inv; [exact Hi|..]; try done; apply Hi|]. by apply change_sched.
Qed.
