(* ===== verification/TimerRun.v ===== *)
(** * Runs of a program with timers

    What each operation does to the set of scheduled timers, that no operation fails
    on live handles, and which timer fires. *)

From Stdlib Require Import ZArith Lia.
From stdpp Require Import base tactics option numbers gmap list.
From S2P Require Import Prelude OMap TimeVal Heap HeapProps Timer TimerProps.
Local Open Scope Z_scope.
Local Open Scope xorp_scope.

(** ** The operations *)

(** Node [o] became [n], scheduled with priority [p], and nothing else changed. *)
Record set_to (tl tl' : TimerList) (o : obj) (n : TimerNode) (p : Z) : Prop := {
  set_inv : tl_inv tl'; set_node : nodes tl' = <[o := n]> (nodes tl); set_clock : clock tl' = clock tl;
  set_sched o' t q : is_sched tl' o' t q <-> (o' = o /\ t = expires n /\ q = p) \/ (o' <> o /\ is_sched tl o' t q) }.

Lemma unscheduled tl tl' o : rescheduled tl tl' (fun o' t q => o' <> o /\ is_sched tl o' t q) ->
  is_Some (nodes tl !! o) -> scheduled tl' o = false.
Proof.
  intros Hr [n Hn]. apply not_true_is_false. intros Hs. rewrite <- (re_nodes _ _ _ Hr) in Hn.
  destruct (scheduled_heaped _ _ _ (re_inv _ _ _ Hr) Hn Hs) as [p Hp].
  assert (is_sched tl' o (expires n) p) as [? _]%(re_sched _ _ _ Hr) by (by exists n). done.
Qed.

Lemma set_schedule_ok tl o n f p : tl_inv tl -> nodes tl !! o = Some n -> node_ok (f n) -> t_priority (f n) = Some p ->
  exists tl1 tl', unschedule tl o = Ok tl1 /\ clock tl1 = clock tl /\
    schedule_node (update_node tl1 o f) o = Ok tl' /\ set_to tl tl' o (f n) p.
Proof.
  intros Hi Hn Hok Hp. destruct (unschedule_ok tl o n Hi Hn) as (tl1 & E1 & Hr).
  pose proof (unscheduled tl tl1 o Hr (mk_is_Some _ _ Hn)) as Hs1. destruct Hr as [Hi1 En Ec Hs].
  pose proof Hn as Hn1. rewrite <- En in Hn1.
  destruct (update_ok tl1 o n f Hi1 Hn1 Hok (or_intror Hs1)) as [Hi2 Hs2].
  assert (Hn2 : nodes (update_node tl1 o f) !! o = Some (f n)) by (cbn; by rewrite lookup_alter_eq, Hn1).
  destruct (schedule_node_ok _ _ _ _ Hi2 Hn2 Hp Hs1) as (tl' & E' & [Hi' En' Ec' Hs']).
  exists tl1, tl'. split_conj; [done..|]. split; [done| |by rewrite Ec'|].
  - rewrite En'. cbn. rewrite En. apply map_eq. intros j. destruct (decide (o = j)) as [<-|Hne].
    + by rewrite lookup_alter_eq, lookup_insert_eq, Hn.
    + by rewrite lookup_alter_ne, lookup_insert_ne.
  - intros o' t q. by rewrite Hs', Hs2, Hs.
Qed.

Lemma schedule_at_ok tl o n t p : tl_inv tl -> nodes tl !! o = Some n -> tv_time t ->
  exists tl', schedule_at tl o t p = Ok tl' /\ set_to tl tl' o (set_t_priority (set_expires n t) p) p.
Proof.
  intros Hi Hn Ht. pose proof (tl_nodes _ Hi o n Hn) as (_ & ? & ?).
  destruct (set_schedule_ok tl o n (fun n => set_t_priority (set_expires n t) p) p Hi Hn) as (tl1 & tl' & E1 & _ & E2 & Hset);
    [done..|]. exists tl'. split; [|done]. unfold schedule_at, node_at. rewrite Hn. cbn [result_bind]. by rewrite E1.
Qed.

(** The sum of two times is a time, or does not fit. *)
Lemma tv_add_time a b : tv_time a -> tv_time b ->
  (exists c, tv_add a b = Ok c /\ tv_time c /\ tv_value c = tv_value a + tv_value b) \/ tv_add a b = Throw IntOverflow.
Proof.
  unfold tv_time, tv_normal, tv_value, is_int, tv_add, int_result, ONE_MILLION. intros [[Ha Hua] Ha0] [[Hb Hub] Hb0].
  destruct (Z.ltb_spec (sec a + sec b) (2 ^ 31)); [|rewrite andb_false_r; by right].
  rewrite (proj2 (Z.leb_le _ (sec a + sec b))) by lia. cbn [andb result_bind].
  rewrite (proj2 (Z.leb_le _ (usec a + usec b))), (proj2 (Z.ltb_lt (usec a + usec b) _)) by lia. cbn [andb result_bind].
  destruct (Z.leb_spec 1000000 (usec a + usec b)); [|left; eexists; split; [done|cbn; lia]].
  destruct (Z.ltb_spec (sec a + sec b + 1) (2 ^ 31)); [|rewrite andb_false_r; by right].
  rewrite (proj2 (Z.leb_le _ (sec a + sec b + 1))) by lia. left. eexists. split; [done|cbn; lia].
Qed.

Lemma schedule_after_ok tl o n wait p : tl_inv tl -> nodes tl !! o = Some n -> tv_time wait ->
  (exists t tl', tv_add (clock tl) wait = Ok t /\ tv_time t /\
    schedule_after tl o wait p = Ok tl' /\ set_to tl tl' o (set_t_priority (set_expires n t) p) p) \/
  schedule_after tl o wait p = Throw IntOverflow.
Proof.
  intros Hi Hn Hw. pose proof (tl_nodes _ Hi o n Hn) as (_ & ? & ?).
  unfold schedule_after, node_at. rewrite Hn. cbn [result_bind].
  destruct (unschedule_ok tl o n Hi Hn) as (tl1 & E1 & Hr). rewrite E1. cbn [result_bind]. rewrite (re_clock _ _ _ Hr).
  destruct (tv_add_time (clock tl) wait (tl_clock _ Hi) Hw) as [(t & Et & Ht & _)| ->]; [|by right]. rewrite Et. cbn [result_bind].
  left. destruct (set_schedule_ok tl o n (fun n => set_t_priority (set_expires n t) p) p Hi Hn) as (tl2 & tl' & E2 & _ & E3 & Hset);
    [done..|]. rewrite E1 in E2. injection E2 as <-. by exists t, tl'.
Qed.

Lemma reschedule_after_ok tl o n wait p : tl_inv tl -> nodes tl !! o = Some n -> t_priority n = Some p -> tv_time wait ->
  (exists t tl', tv_add (expires n) wait = Ok t /\ tv_time t /\ tv_value t = tv_value (expires n) + tv_value wait /\
    reschedule_after tl o wait = Ok tl' /\ set_to tl tl' o (set_expires n t) p) \/
  reschedule_after tl o wait = Throw IntOverflow.
Proof.
  intros Hi Hn Hp Hw. pose proof (tl_nodes _ Hi o n Hn) as (? & ? & ?).
  unfold reschedule_after, node_at. rewrite Hn. cbn [result_bind].
  destruct (unschedule_ok tl o n Hi Hn) as (tl1 & E1 & Hr). rewrite E1. cbn [result_bind].
  destruct (tv_add_time (expires n) wait) as [(t & Et & Ht & Hv)| ->]; [done..| |by right]. rewrite Et. cbn [result_bind].
  left. destruct (set_schedule_ok tl o n (fun n => set_expires n t) p Hi Hn) as (tl2 & tl' & E2 & _ & E3 & Hset);
    [done..|]. rewrite E1 in E2. injection E2 as <-. by exists t, tl'.
Qed.

Lemma add_ref_ok tl o n : tl_inv tl -> nodes tl !! o = Some n ->
  exists tl', add_ref tl o = Ok tl' /\ tl_inv tl' /\ clock tl' = clock tl /\
    nodes tl' = alter (fun n => set_ref_cnt n (ref_cnt n + 1)) o (nodes tl) /\
    (forall o' t p, is_sched tl' o' t p <-> is_sched tl o' t p).
Proof.
  intros Hi Hn. unfold add_ref, node_at. rewrite Hn. cbn [result_bind]. pose proof (tl_nodes _ Hi o n Hn) as (? & ? & ?).
  destruct (update_ok tl o n (fun n => set_ref_cnt n (ref_cnt n + 1)) Hi Hn) as [Hi' Hs].
  { unfold node_ok. split_conj; [done|cbn; lia|done]. }
  { by left. }
  eexists. split_conj; [done..|by apply Hs].
Qed.

(** Deleting an idle node. *)
Lemma delete_ok tl o n : tl_inv tl -> nodes tl !! o = Some n -> scheduled tl o = false ->
  tl_inv (mkTL (heaplist tl) (delete o (nodes tl)) (delete o (tl_pos tl)) (clock tl)) /\
  forall o' t p, is_sched (mkTL (heaplist tl) (delete o (nodes tl)) (delete o (tl_pos tl)) (clock tl)) o' t p <-> is_sched tl o' t p.
Proof.
  intros Hi Hn Hs. set (tl' := mkTL _ _ _ _).
  assert (Hsame : forall o', same_or_idle tl tl' o').
  { intros o'. unfold same_or_idle, view, scheduled. cbn. destruct (decide (o = o')) as [<-|Hne].
    - right. rewrite lookup_delete_eq. split; [|done]. intros t p H%sched_scheduled. congruence.
    - left. by rewrite !lookup_delete_ne. }
  assert (Hns : forall o' n', nodes tl' !! o' = Some n' -> node_ok n').
  { intros o' n'. cbn. intros [_ H]%lookup_delete_Some. by apply (tl_nodes _ Hi o'). }
  split; [by eapply change_inv; [exact Hi|..]; try done; apply Hi|]. by apply change_sched.
Qed.

Lemma release_ref_ok tl o n : tl_inv tl -> nodes tl !! o = Some n ->
  exists tl', release_ref tl o = Ok tl' /\ tl_inv tl' /\ clock tl' = clock tl /\
    (1 < ref_cnt n -> nodes tl' = alter (fun n => set_ref_cnt n (ref_cnt n - 1)) o (nodes tl) /\
       forall o' t p, is_sched tl' o' t p <-> is_sched tl o' t p) /\
    (ref_cnt n <= 1 -> nodes tl' = delete o (nodes tl) /\
       forall o' t p, is_sched tl' o' t p <-> o' <> o /\ is_sched tl o' t p).
Proof.
  intros Hi Hn. unfold release_ref, node_at. rewrite Hn. cbn [result_bind]. pose proof (tl_nodes _ Hi o n Hn) as (? & ? & ?).
  destruct (Z.leb_spec (ref_cnt n - 1) 0).
  - destruct (unschedule_ok tl o n Hi Hn) as (tl1 & E1 & Hr). rewrite E1. cbn [result_bind].
    pose proof (unscheduled tl tl1 o Hr (mk_is_Some _ _ Hn)) as Hs1. destruct Hr as [Hi1 En Ec Hs].
    pose proof Hn as Hn1. rewrite <- En in Hn1. destruct (delete_ok tl1 o n Hi1 Hn1 Hs1) as [Hi2 Hs2].
    eexists. split_conj; [done..|lia|]. intros _. split; [cbn; by rewrite En|]. intros o' t p. by rewrite Hs2.
  - destruct (update_ok tl o n (fun n => set_ref_cnt n (ref_cnt n - 1)) Hi Hn) as [Hi' Hs].
    { unfold node_ok. split_conj; [done|cbn; lia|done]. }
    { by left. }
    eexists. split_conj; [done..| |lia]. intros _. split; [done|by apply Hs].
Qed.

Lemma new_node_ok tl o k : tl_inv tl -> nodes tl !! o = None -> match k with Periodic w => tv_time w | _ => True end ->
  tl_inv (new_node tl o k) /\ forall o' t p, is_sched (new_node tl o k) o' t p <-> is_sched tl o' t p.
Proof.
  intros Hi Hn Hk.
  assert (Hsame : forall o', same_or_idle tl (new_node tl o k) o').
  { intros o'. unfold same_or_idle, view, scheduled. cbn. destruct (decide (o = o')) as [<-|Hne].
    - right. rewrite lookup_insert_eq. split; [|done]. intros t p (n & ? & _). congruence.
    - left. by rewrite !lookup_insert_ne. }
  assert (Hns : forall o' n', nodes (new_node tl o k) !! o' = Some n' -> node_ok n').
  { intros o' n'. cbn. intros [[<- <-]|[_ H]]%lookup_insert_Some; [|by apply (tl_nodes _ Hi o')]. unfold node_ok. split_conj; [|done|done].
    unfold tv_time, tv_normal, is_int, ONE_MILLION. cbn. lia. }
  split; [by eapply change_inv; [exact Hi|..]; try done; apply Hi|]. by apply change_sched.
Qed.

(** ** What a program may do

    It creates nodes under unused names, uses the handles it has, and reschedules a
    timer only once it has a priority.  While a callback runs, the node [busy] has one
    reference more than the program's handles. *)
Definition usable (tl : TimerList) (o : obj) : Prop := is_Some (nodes tl !! o).
Definition permitted (busy : option obj) (tl : TimerList) (op : timer_op) : Prop :=
  match op with
  | NewTimer o => nodes tl !! o = None
  | NewOneoffAt o t _ => nodes tl !! o = None /\ tv_time t
  | NewOneoffAfter o w _ | NewPeriodic o w _ => nodes tl !! o = None /\ tv_time w
  | ScheduleAt o t _ => usable tl o /\ tv_time t
  | ScheduleAfter o w _ => usable tl o /\ tv_time w
  | RescheduleAfter o w => (exists n, nodes tl !! o = Some n /\ is_Some (t_priority n)) /\ tv_time w
  | Unschedule o | CopyTimer o => usable tl o
  | ClearTimer o => exists n, nodes tl !! o = Some n /\ (if bool_decide (busy = Some o) then 1 else 0) < ref_cnt n
  | AdvanceTime now => tv_time now
  end.
Fixpoint permitted_all (busy : option obj) (tl : TimerList) (ops : list timer_op) : Prop :=
  match ops with
  | [] => True
  | op :: ops => permitted busy tl op /\ match timer_exec tl op with Ok tl' => permitted_all busy tl' ops | Throw _ => True end
  end.

(** A referenced node with a priority stays one. *)
Definition alive (tl : TimerList) (b : obj) (k : timer_kind) : Prop :=
  exists n, nodes tl !! b = Some n /\ 1 <= ref_cnt n /\ is_Some (t_priority n) /\ t_kind n = k.

Lemma alive_same tl tl' b k : nodes tl' !! b = nodes tl !! b -> alive tl b k -> alive tl' b k.
Proof. unfold alive. by intros ->. Qed.
Lemma alive_set tl tl' o n n' p b k : set_to tl tl' o n' p -> nodes tl !! o = Some n ->
  ref_cnt n' = ref_cnt n -> t_kind n' = t_kind n -> is_Some (t_priority n') -> alive tl b k -> alive tl' b k.
Proof.
  intros Hs Hn Er Ek Hp. destruct (decide (o = b)) as [->|Hne].
  - intros (n0 & Hn0 & Hr & _ & Hk). exists n'. rewrite (set_node _ _ _ _ _ Hs), lookup_insert_eq. simplify_eq.
    split_conj; [done|lia|done|done].
  - apply alive_same. by rewrite (set_node _ _ _ _ _ Hs), lookup_insert_ne.
Qed.
Lemma alive_ref tl tl' o d b k : nodes tl' = alter (fun n => set_ref_cnt n (ref_cnt n + d)) o (nodes tl) ->
  (o = b -> forall n, nodes tl !! o = Some n -> 1 <= ref_cnt n + d) -> alive tl b k -> alive tl' b k.
Proof.
  intros E Hd. destruct (decide (o = b)) as [->|Hne].
  - intros (n & Hn & Hr & Hp & Hk). eexists. rewrite E, lookup_alter_eq, Hn. cbn. split_conj; [done|by apply Hd|done|done].
  - apply alive_same. by rewrite E, lookup_alter_ne.
Qed.

(** The outcome of an operation: a good state in which [busy] is still alive, or an overflow. *)
Definition fine (busy : option obj) (tl : TimerList) (r : result xorp_exn TimerList) : Prop :=
  (exists tl', r = Ok tl' /\ tl_inv tl' /\ forall b k, busy = Some b -> alive tl b k -> alive tl' b k) \/ r = Throw IntOverflow.

Lemma fine_bind busy tl r f : fine busy tl r ->
  (forall tl', r = Ok tl' -> tl_inv tl' -> fine busy tl' (f tl')) -> fine busy tl (result_bind r f).
Proof.
  intros [(tl1 & -> & Hi & Ha)| ->] Hf; [|by right]. cbn. destruct (Hf tl1 eq_refl Hi) as [(tl2 & E & Hi2 & Ha2)|E]; [|by right].
  left. exists tl2. split_conj; [done..|]. intros b k Hb Hk. eauto.
Qed.

Lemma fine_set busy tl tl' o n n' p : set_to tl tl' o n' p -> nodes tl !! o = Some n ->
  ref_cnt n' = ref_cnt n -> t_kind n' = t_kind n -> is_Some (t_priority n') -> fine busy tl (Ok tl').
Proof. intros Hs. left. exists tl'. split_conj; [done|apply Hs|]. intros b k _. by eapply alive_set. Qed.

Lemma fine_add_ref busy tl o : tl_inv tl -> usable tl o -> fine busy tl (add_ref tl o).
Proof.
  intros Hi [n Hn]. destruct (add_ref_ok tl o n Hi Hn) as (tl' & E & Hi' & _ & Hns & _). left. exists tl'. split_conj; [done..|].
  intros b k _. eapply alive_ref; [exact Hns|]. intros <- n' Hn'. pose proof (tl_nodes _ Hi o n' Hn') as (_ & ? & _). lia.
Qed.

Lemma fine_new busy tl o k : tl_inv tl -> nodes tl !! o = None -> match k with Periodic w => tv_time w | _ => True end ->
  fine busy tl (Ok (new_node tl o k)).
Proof.
  intros Hi Hn Hk. left. eexists. split_conj; [done|by apply new_node_ok|]. intros b kb _ Ha. eapply alive_same; [|exact Ha]. cbn.
  apply lookup_insert_ne. intros <-. destruct Ha as (n & ? & _). congruence.
Qed.

Lemma fine_schedule_at busy tl o t p : tl_inv tl -> usable tl o -> tv_time t -> fine busy tl (schedule_at tl o t p).
Proof.
  intros Hi [n Hn] Ht. destruct (schedule_at_ok tl o n t p Hi Hn Ht) as (tl' & -> & Hs). by eapply fine_set.
Qed.
Lemma fine_schedule_after busy tl o w p : tl_inv tl -> usable tl o -> tv_time w -> fine busy tl (schedule_after tl o w p).
Proof.
  intros Hi [n Hn] Hw. destruct (schedule_after_ok tl o n w p Hi Hn Hw) as [(t & tl' & _ & _ & -> & Hs)| ->]; [|by right].
  by eapply fine_set.
Qed.
Lemma fine_reschedule_after busy tl o n w : tl_inv tl -> nodes tl !! o = Some n -> is_Some (t_priority n) -> tv_time w ->
  fine busy tl (reschedule_after tl o w).
Proof.
  intros Hi Hn [p Hp] Hw. destruct (reschedule_after_ok tl o n w p Hi Hn Hp Hw) as [(t & tl' & _ & _ & _ & -> & Hs)| ->]; [|by right].
  eapply fine_set; [done..|]. by exists p.
Qed.
Lemma fine_release busy tl o n : tl_inv tl -> nodes tl !! o = Some n ->
  (if bool_decide (busy = Some o) then 1 else 0) < ref_cnt n -> fine busy tl (release_ref tl o).
Proof.
  intros Hi Hn Hr. destruct (release_ref_ok tl o n Hi Hn) as (tl' & E & Hi' & _ & H1 & H2). left. exists tl'. split_conj; [done..|].
  intros b k ->. destruct (decide (1 < ref_cnt n)) as [Hlt|Hle].
  - destruct (H1 Hlt) as [Hns _]. eapply (alive_ref tl tl' o (-1)); [exact Hns|]. intros <- n' ?. simplify_eq. lia.
  - destruct (H2 ltac:(lia)) as [Hns _]. case_bool_decide; [lia|]. apply alive_same. rewrite Hns. apply lookup_delete_ne. congruence.
Qed.

Lemma new_scheduled busy tl o k r : tl_inv tl -> nodes tl !! o = None -> match k with Periodic w => tv_time w | _ => True end ->
  fine busy (new_node tl o k) r -> (forall tl', r = Ok tl' -> usable tl' o) ->
  fine busy tl (result_bind r (fun tl' => add_ref tl' o)).
Proof.
  intros Hi Hn Hk Hr Hu.
  change (fine busy tl (result_bind (Ok (new_node tl o k)) (fun _ => result_bind r (fun tl' => add_ref tl' o)))).
  apply fine_bind; [by apply fine_new|]. intros tl1 [= <-] _. apply fine_bind; [done|]. intros tl2 E2 Hi2.
  apply fine_add_ref; auto.
Qed.

Lemma exec_fine busy tl op : tl_inv tl -> permitted busy tl op -> fine busy tl (timer_exec tl op).
Proof.
  intros Hi Hp.
  assert (Hnew : forall o k, nodes (new_node tl o k) !! o = Some (mkTimer 0 ZERO None k)) by (intros; apply lookup_insert_eq).
  destruct op as [o|o t p|o w p|o w p|o t p|o w p|o w|o|o|o|now]; cbn [timer_exec]; cbn in Hp.
  - apply (new_scheduled busy tl o Plain (Ok _) Hi Hp I).
    + left. eexists. split_conj; [done|by apply new_node_ok|done].
    + intros tl' [= <-]. by eexists.
  - destruct Hp as [Hn Ht]. pose proof (proj1 (new_node_ok tl o Oneoff Hi Hn I)) as Hi1.
    apply (new_scheduled busy tl o Oneoff _ Hi Hn I); [by apply fine_schedule_at; [|eexists|]|]. intros tl' E.
    destruct (schedule_at_ok _ _ _ t p Hi1 (Hnew o _) Ht) as (tl2 & E2 & Hs). rewrite E in E2. injection E2 as <-.
    unfold usable. rewrite (set_node _ _ _ _ _ Hs), lookup_insert_eq. by eexists.
  - destruct Hp as [Hn Ht]. pose proof (proj1 (new_node_ok tl o Oneoff Hi Hn I)) as Hi1.
    apply (new_scheduled busy tl o Oneoff _ Hi Hn I); [by apply fine_schedule_after; [|eexists|]|]. intros tl' E.
    destruct (schedule_after_ok _ _ _ w p Hi1 (Hnew o _) Ht) as [(t & tl2 & _ & _ & E2 & Hs)|E2]; rewrite E in E2; [|done].
    injection E2 as <-. unfold usable. rewrite (set_node _ _ _ _ _ Hs), lookup_insert_eq. by eexists.
  - destruct Hp as [Hn Ht]. pose proof (proj1 (new_node_ok tl o (Periodic w) Hi Hn Ht)) as Hi1.
    apply (new_scheduled busy tl o (Periodic w) _ Hi Hn Ht); [by apply fine_schedule_after; [|eexists|]|]. intros tl' E.
    destruct (schedule_after_ok _ _ _ w p Hi1 (Hnew o _) Ht) as [(t & tl2 & _ & _ & E2 & Hs)|E2]; rewrite E in E2; [|done].
    injection E2 as <-. unfold usable. rewrite (set_node _ _ _ _ _ Hs), lookup_insert_eq. by eexists.
  - destruct Hp. by apply fine_schedule_at.
  - destruct Hp. by apply fine_schedule_after.
  - destruct Hp as [(n & Hn & Hpr) Hw]. by eapply fine_reschedule_after.
  - destruct Hp as [n Hn]. unfold node_at. rewrite Hn. cbn [result_bind].
    destruct (unschedule_ok tl o n Hi Hn) as (tl' & E & Hr). left. exists tl'. split_conj; [done|apply Hr|].
    intros b k _. apply alive_same. by rewrite (re_nodes _ _ _ Hr).
  - by apply fine_add_ref.
  - destruct Hp as (n & Hn & Hr). by eapply fine_release.
  - left. eexists. split_conj; [done| |done]. destruct Hi as [Hs Hh Hhd Hck Ht]. by split.
Qed.

Lemma exec_all_fine busy ops tl : tl_inv tl -> permitted_all busy tl ops -> fine busy tl (timer_exec_all tl ops).
Proof.
  revert tl. induction ops as [|op ops IH]; intros tl Hi Hp; cbn.
  - left. by exists tl.
  - destruct Hp as [Hp Hps]. apply fine_bind; [by apply exec_fine|]. intros tl' E Hi'. rewrite E in Hps. by apply IH.
Qed.

(** ** The timer that fires *)
Lemma sched_top tl o t p : tl_inv tl -> is_sched tl o t p ->
  exists h e, (p, h) ∈ heaplist tl /\ top h = Some e /\ tv_le (key e) t.
Proof.
  intros Hi Hs. pose proof Hs as (n & Hn & _ & Hp & Hsc). destruct (tl_heaped _ Hi o n Hn Hsc) as (q & h & Hq & Hin). simplify_eq.
  destruct (heap_contents tl p h Hi Hin) as (c & Hc & Hcs). apply Hcs, list_elem_of_lookup in Hs as [i Hk].
  destruct (lookup_lt_is_Some_2 c 0) as [e He]; [apply lookup_lt_Some in Hk; lia|]. exists h, e. split_conj; [done| |].
  - change (top (load tl h) = Some e). by rewrite (top_lookup _ _ _ Hc).
  - apply (root_min c i e (mkEntry t (Some o))); [apply Hc|done..].
Qed.
Lemma top_sched tl p h e : tl_inv tl -> (p, h) ∈ heaplist tl -> top h = Some e ->
  exists o, object e = Some o /\ is_sched tl o (key e) p.
Proof.
  intros Hi Hin He. destruct (heap_contents tl p h Hi Hin) as (c & Hc & Hcs).
  change (top (load tl h) = Some e) in He. rewrite (top_lookup _ _ _ Hc) in He.
  destruct (good_lookup _ _ _ _ _ (proj1 (proj2 Hc)) He) as (o & Ho & _). exists o. split; [done|]. apply Hcs.
  destruct e; cbn in *; subst. by eapply list_elem_of_lookup_2.
Qed.

Lemma first_due_ok now w hl : m_sorted hl ->
  match first_due now w hl with
  | Some (p, h, n) => (p, h) ∈ hl /\ top h = Some n /\ p <= w /\ tv_le (key n) now /\
      forall q g e, (q, g) ∈ hl -> top g = Some e -> tv_le (key e) now -> p <= q
  | None => forall q g e, (q, g) ∈ hl -> q <= w -> top g = Some e -> ~ tv_le (key e) now
  end.
Proof.
  induction hl as [|[p h] hl IH]; intros Hs; cbn [first_due]; [by intros q g e ?%elem_of_nil|].
  apply sorted_cons in Hs as [Hs Hlt].
  assert (Hlt' : forall q g, (q, g) ∈ hl -> p < q) by (intros q g Hg; by apply Z.ltb_lt, (Hlt q g)).
  destruct (Z.leb_spec p w) as [Hpw|Hpw].
  - assert (Hskip : (forall e, top h = Some e -> ~ tv_le (key e) now) ->
      match first_due now w hl with
      | Some (p', h', n) => (p', h') ∈ (p, h) :: hl /\ top h' = Some n /\ p' <= w /\ tv_le (key n) now /\
          forall q g e, (q, g) ∈ (p, h) :: hl -> top g = Some e -> tv_le (key e) now -> p' <= q
      | None => forall q g e, (q, g) ∈ (p, h) :: hl -> q <= w -> top g = Some e -> ~ tv_le (key e) now
      end).
    { intros Hno. specialize (IH Hs). destruct (first_due now w hl) as [[[p' h'] n]|].
      - destruct IH as (H1 & H2 & H3 & H4 & H5). split_conj; [by right|done..|].
        intros q g e [[= -> ->]|Hg]%elem_of_cons He Hle; [by apply Hno in He|by eapply H5].
      - intros q g e [[= -> ->]|Hg]%elem_of_cons Hq He; [by apply Hno|by eapply IH]. }
    destruct (top h) as [n|] eqn:Et; [|by apply Hskip]. destruct (tv_leb (key n) now) eqn:Hle.
    + apply tv_leb_spec in Hle. split_conj; [by left|done..|]. intros q g e [[= -> ->]|Hg]%elem_of_cons _ _; [lia|].
      apply Hlt' in Hg. lia.
    + apply tv_leb_false in Hle. apply Hskip. by intros e [= <-].
  - intros q g e [[= -> ->]|Hg]%elem_of_cons Hq; [lia|]. apply Hlt' in Hg. lia.
Qed.

(** The most urgent of the expired timers: the smallest priority number, then the
    earliest expiry time. *)
Definition urgent (tl : TimerList) (w : Z) (o : obj) (t : TimeVal) (p : Z) : Prop :=
  is_sched tl o t p /\ p <= w /\ tv_le t (clock tl) /\
  forall o' t' p', is_sched tl o' t' p' -> tv_le t' (clock tl) -> p < p' \/ (p = p' /\ tv_le t t').

Lemma tardiness_ok a b : tv_time a -> tv_time b -> exists c, tv_sub a b = Ok c.
Proof.
  unfold tv_time, tv_normal, is_int, tv_sub, int_result, ONE_MILLION. intros [[Ha Hua] Ha0] [[Hb Hub] Hb0].
  rewrite (proj2 (Z.leb_le _ (sec a - sec b))), (proj2 (Z.ltb_lt (sec a - sec b) _)) by lia. cbn [andb result_bind].
  destruct (Z.ltb_spec (usec a) (usec b)); cbn [fst snd result_bind].
  - rewrite (proj2 (Z.leb_le _ (sec a - sec b - 1))), (proj2 (Z.ltb_lt (sec a - sec b - 1) _)) by lia. cbn [andb result_bind].
    rewrite (proj2 (Z.leb_le _ (usec a + 1000000))), (proj2 (Z.ltb_lt (usec a + 1000000) _)) by lia. cbn [andb result_bind fst snd].
    rewrite (proj2 (Z.leb_le _ _)), (proj2 (Z.ltb_lt _ _)) by lia. by eexists.
  - rewrite (proj2 (Z.leb_le _ _)), (proj2 (Z.ltb_lt _ _)) by lia. by eexists.
Qed.

Section Fire.
Context (dispatch : obj -> TimerList -> list timer_op * bool).

Lemma expire_one_cases tl w : tl_inv tl ->
  ((forall o t p, is_sched tl o t p -> p <= w -> ~ tv_le t (clock tl)) /\ expire_one dispatch tl w = Ok (tl, false)) \/
  (exists o t p tl1, urgent tl w o t p /\ rescheduled tl tl1 (fun o' t' q => o' <> o /\ is_sched tl o' t' q) /\
     expire_one dispatch tl w = (tl' <-! fire dispatch tl1 o ;; Ok (tl', true))).
Proof.
  intros Hi. unfold expire_one. pose proof (first_due_ok (clock tl) w (heaplist tl) (tl_sorted _ Hi)) as Hd.
  destruct (first_due (clock tl) w (heaplist tl)) as [[[p h] n]|].
  - right. destruct Hd as (Hin & Ht & Hp & Hle & Hmin). destruct (top_sched tl p h n Hi Hin Ht) as (o & Ho & Hs).
    pose proof Hs as (nd & Hnd & Hex & _). pose proof (tl_nodes _ Hi o nd Hnd) as (Htm & _).
    destruct (tardiness_ok (clock tl) (key n) (tl_clock _ Hi)) as [c0 E0]; [by rewrite <- Hex|]. rewrite E0, Ho. cbn [result_bind].
    destruct (heap_contents tl p h Hi Hin) as (c & Hc & Hcs).
    assert (Hk : c !! 0%nat = Some (mkEntry (key n) (Some o))).
    { rewrite <- (top_lookup _ _ _ Hc). change (top h = Some (mkEntry (key n) (Some o))). rewrite Ht. destruct n; cbn in *. by subst. }
    destruct (pop_at_ok _ _ _ _ _ _ Hc Hk) as (h' & c' & E & Hc' & Hpc & Hfr).
    unfold pop, pop_obj. apply lookup_lt_Some in Hk as Hl. rewrite (proj1 (proj1 Hc)).
    destruct (Nat.eqb_spec (length c) 0); [lia|]. cbn [pop_father result_bind]. rewrite E. cbn [result_bind].
    exists o, (key n), p, (store tl p h'). split_conj; [|by eapply remove_entry|done]. unfold urgent. split_conj; [done..|].
    intros o' t' p' Hs' Hle'. destruct (sched_top tl o' t' p' Hi Hs') as (g & e & Hg & He & Hke).
    assert (p <= p') by (eapply Hmin; [done..|]; by eapply tv_le_trans).
    destruct (decide (p = p')) as [<-|]; [|left; lia]. right. split; [done|].
    pose proof (find_unique _ _ _ _ (tl_sorted _ Hi) Hin Hg) as ->. by simplify_eq.
  - left. split; [|done]. intros o t p Hs Hp Hle. destruct (sched_top tl o t p Hi Hs) as (h & e & Hin & He & Hke).
    eapply Hd; [done..|]. by eapply tv_le_trans.
Qed.

(** Every callback uses only what a program may, whatever the state it runs in. *)
Hypothesis Hcallbacks : forall o tl, tl_inv tl -> permitted_all (Some o) tl (fst (dispatch o tl)).

Lemma fire_fine tl o t p tl0 : is_sched tl0 o t p -> rescheduled tl0 tl (fun o' t' q => o' <> o /\ is_sched tl0 o' t' q) ->
  fine None tl (fire dispatch tl o).
Proof.
  intros (n & Hn & _ & Hp & _) [Hi En _ _]. rewrite <- En in Hn. unfold fire.
  destruct (add_ref_ok tl o n Hi Hn) as (tl1 & E1 & Hi1 & _ & Hns1 & _). rewrite E1. cbn [result_bind].
  pose proof (tl_nodes _ Hi o n Hn) as (_ & Href & Hper).
  assert (Ha1 : alive tl1 o (t_kind n)).
  { exists (set_ref_cnt n (ref_cnt n + 1)). rewrite Hns1, lookup_alter_eq, Hn. cbn. split_conj; [done|lia|by eexists|done]. }
  assert (Hex : fine (Some o) tl1 (expire dispatch tl1 o)).
  { unfold expire, node_at. rewrite Hns1, lookup_alter_eq, Hn. cbn [fmap option_fmap option_map result_bind].
    pose proof (Hcallbacks o tl1 Hi1) as Hcb. destruct (dispatch o tl1) as [ops again]. cbn [fst] in Hcb.
    pose proof (exec_all_fine (Some o) ops tl1 Hi1 Hcb) as [(tl2 & E2 & Hi2 & Ha2)| ->]; [|by right]. rewrite E2. cbn [result_bind].
    assert (H2 : fine (Some o) tl1 (Ok tl2)) by (left; by exists tl2). cbn [t_kind set_ref_cnt].
    destruct (t_kind n) as [| |w] eqn:Hk; [done|done|]. destruct again; [|done].
    destruct (Ha2 o (Periodic w) eq_refl Ha1) as (n2 & Hn2 & _ & Hp2 & _).
    change (fine (Some o) tl1 (result_bind (Ok tl2) (fun tl2 => reschedule_after tl2 o w))).
    apply fine_bind; [done|]. intros ? [= <-] _. by eapply fine_reschedule_after. }
  destruct Hex as [(tl2 & -> & Hi2 & Ha2)| ->]; [|by right]. cbn [result_bind].
  destruct (Ha2 o _ eq_refl Ha1) as (n2 & Hn2 & Hr2 & _).
  destruct (release_ref_ok tl2 o n2 Hi2 Hn2) as (tl3 & E3 & Hi3 & _). left. by exists tl3.
Qed.

Lemma expire_one_fine tl w : tl_inv tl ->
  (exists tl' b, expire_one dispatch tl w = Ok (tl', b) /\ tl_inv tl') \/ expire_one dispatch tl w = Throw IntOverflow.
Proof.
  intros Hi. destruct (expire_one_cases tl w Hi) as [[_ ->]|(o & t & p & tl1 & (Hs & _) & Hr & ->)]; [left; by eexists _, _|].
  destruct (fire_fine tl1 o t p tl Hs Hr) as [(tl2 & -> & Hi2 & _)| ->]; [|by right]. left. by exists tl2, true.
Qed.

Lemma run_loop_fine ps tl : tl_inv tl -> fine None tl (run_loop dispatch tl ps).
Proof.
  revert tl. induction ps as [|p ps IH]; intros tl Hi; cbn; [left; by exists tl|].
  destruct (expire_one_fine tl p Hi) as [(tl' & b & -> & Hi')| ->]; [|by right]. cbn.
  destruct b; [left; by exists tl'|]. destruct (IH tl' Hi') as [(tl2 & -> & Hi2 & _)| ->]; [left; by exists tl2|by right].
Qed.

End Fire.
