(* ===== verification/TimerClaims.v ===== *)
(** * Theorems about the timer list

    Safety of every program that uses its handles properly, which timer an expiry
    runs, what becomes of it, and the delay that the event loop sleeps for. *)

From Stdlib Require Import ZArith Lia.
From stdpp Require Import base tactics option numbers gmap list.
From S2P Require Import Prelude OMap TimeVal Heap HeapProps Timer TimerProps TimerRun.
Local Open Scope Z_scope.
Local Open Scope xorp_scope.

(** ** Programs *)
Inductive prog_step : Type := POp (op : timer_op) | PExpire (worst_priority : Z) | PRun.

Section Prog.
Context (dispatch : obj -> TimerList -> list timer_op * bool).

Definition prog_exec (tl : TimerList) (s : prog_step) : result xorp_exn TimerList :=
  match s with
  | POp op => timer_exec tl op
  | PExpire w => r <-! expire_one dispatch tl w ;; Ok (fst r)
  | PRun => run dispatch tl
  end.
Fixpoint prog_run (tl : TimerList) (l : list prog_step) : result xorp_exn TimerList :=
  match l with
  | [] => Ok tl
  | s :: l => tl <-! prog_exec tl s ;; prog_run tl l
  end.
Fixpoint permitted_prog (tl : TimerList) (l : list prog_step) : Prop :=
  match l with
  | [] => True
  | s :: l =>
      match s with POp op => permitted None tl op | _ => True end /\
      match prog_exec tl s with Ok tl' => permitted_prog tl' l | Throw _ => True end
  end.
End Prog.

Lemma tl_new_inv now : tv_time now -> tl_inv (timerlist_new now).
Proof.
  intros Ht. split; cbn; [constructor|by intros p h ?%elem_of_nil|by intros o n; rewrite lookup_empty|done|].
  intros o n. by rewrite lookup_empty.
Qed.

Section Claims.
Context (dispatch : obj -> TimerList -> list timer_op * bool).
Implicit Types tl : TimerList.

Lemma prog_fine l tl : (forall o tl, tl_inv tl -> permitted_all (Some o) tl (fst (dispatch o tl))) ->
  tl_inv tl -> permitted_prog dispatch tl l ->
  (exists tl', prog_run dispatch tl l = Ok tl' /\ tl_inv tl') \/ prog_run dispatch tl l = Throw IntOverflow.
Proof.
  intros Hcb. revert tl. induction l as [|s l IH]; intros tl Hi Hp; cbn; [left; by exists tl|]. destruct Hp as [Hp Hps].
  assert (Hs : (exists tl', prog_exec dispatch tl s = Ok tl' /\ tl_inv tl') \/ prog_exec dispatch tl s = Throw IntOverflow).
  { destruct s as [op|w|]; cbn.
    - destruct (exec_fine None tl op Hi Hp) as [(tl' & E & Hi' & _)|E]; [left; by exists tl'|by right].
    - destruct (expire_one_fine dispatch Hcb tl w Hi) as [(tl' & b & -> & Hi')| ->]; [left; by exists tl'|by right].
    - destruct (run_loop_fine dispatch Hcb (map fst (heaplist tl)) tl Hi) as [(tl' & E & Hi' & _)|E]; [left; by exists tl'|by right]. }
  destruct Hs as [(tl' & E & Hi')|E]; rewrite E in *; [|by right]. cbn. by apply IH.
Qed.

(** C14: Timer safety.  A program that uses live handles, and whose callbacks do the
    same, never reaches an error of the timer code: no false assertion, no
    [XLOG_FATAL] of the heap, no access outside a heap's array, no use of a deleted
    node.  In every state the heaps hold exactly the scheduled timers, in order.  Only
    a time beyond the range of an [int32_t] can stop it. *)
Theorem timers_safe now l : (forall o tl, tl_inv tl -> permitted_all (Some o) tl (fst (dispatch o tl))) ->
  tv_time now -> permitted_prog dispatch (timerlist_new now) l ->
  (exists tl, prog_run dispatch (timerlist_new now) l = Ok tl /\ tl_inv tl) \/
  prog_run dispatch (timerlist_new now) l = Throw IntOverflow.
Proof. intros Hcb Ht. apply prog_fine; [done|by apply tl_new_inv]. Qed.

(** C25: [expire_one] runs the callback of the most urgent expired timer: none with a
    smaller priority number has expired, and of its priority none has an earlier
    expiry time.  The timer is taken off the schedule first, the others stay.  When no
    timer up to the priority has expired it does nothing and returns false. *)
Theorem expire_one_most_urgent tl w : tl_inv tl ->
  ((forall o t p, is_sched tl o t p -> p <= w -> ~ tv_le t (clock tl)) /\ expire_one dispatch tl w = Ok (tl, false)) \/
  (exists o t p tl1, urgent tl w o t p /\ rescheduled tl tl1 (fun o' t' q => o' <> o /\ is_sched tl o' t' q) /\
     expire_one dispatch tl w = (tl' <-! fire dispatch tl1 o ;; Ok (tl', true))).
Proof. apply expire_one_cases. Qed.
End Claims.

(** ** Callbacks that leave the timers alone *)
Definition quiet (o : obj) (tl : TimerList) : list timer_op * bool := ([], true).

Lemma fire_quiet tl o n p : tl_inv tl -> nodes tl !! o = Some n -> 1 <= ref_cnt n -> t_priority n = Some p ->
  scheduled tl o = false ->
  fire quiet tl o = Throw IntOverflow \/
  exists tl', fire quiet tl o = Ok tl' /\ tl_inv tl' /\
    (forall o' t' q, o' <> o -> is_sched tl' o' t' q <-> is_sched tl o' t' q) /\
    match t_kind n with
    | Periodic w => exists t', is_sched tl' o t' p /\ tv_value t' = tv_value (expires n) + tv_value w
    | _ => scheduled tl' o = false
    end.
Proof.
  intros Hi Hn Hr Hp Hs. unfold fire. destruct (add_ref_ok tl o n Hi Hn) as (tl1 & E1 & Hi1 & _ & Hns1 & Hs1).
  rewrite E1. cbn [result_bind]. set (n1 := set_ref_cnt n (ref_cnt n + 1)).
  assert (Hn1 : nodes tl1 !! o = Some n1) by (by rewrite Hns1, lookup_alter_eq, Hn).
  assert (Hs1' : scheduled tl1 o = false).
  { unfold add_ref, node_at in E1. rewrite Hn in E1. cbn in E1. by injection E1 as <-. }
  unfold expire, node_at, quiet. rewrite Hn1. cbn [result_bind timer_exec_all].
  assert (Hk1 : t_kind n1 = t_kind n) by done. rewrite Hk1.
  assert (Hidle : forall tl2, release_ref tl1 o = Ok tl2 -> tl_inv tl2 /\
    (forall o' t' q, o' <> o -> is_sched tl2 o' t' q <-> is_sched tl o' t' q) /\ scheduled tl2 o = false).
  { intros tl2 E2. destruct (release_ref_ok tl1 o n1 Hi1 Hn1) as (tl2' & E2' & Hi2 & _ & H1 & _). rewrite E2 in E2'. injection E2' as <-.
    destruct H1 as [Hns2 Hs2]; [cbn; lia|]. split_conj; [done|intros; by rewrite Hs2, Hs1|].
    unfold release_ref, node_at in E2. rewrite Hn1 in E2. cbn [result_bind] in E2. cbn [n1 ref_cnt set_ref_cnt] in E2.
    destruct (Z.leb_spec (ref_cnt n + 1 - 1) 0); [lia|]. by injection E2 as <-. }
  destruct (release_ref_ok tl1 o n1 Hi1 Hn1) as (tl2 & E2 & _).
  destruct (t_kind n) as [| |w] eqn:Hk; cbn [result_bind].
  - right. rewrite E2. exists tl2. split; [done|]. by apply Hidle.
  - right. rewrite E2. exists tl2. split; [done|]. by apply Hidle.
  - pose proof (tl_nodes _ Hi1 o n1 Hn1) as (_ & _ & Hw). rewrite Hk1 in Hw. cbn [result_bind].
    destruct (reschedule_after_ok tl1 o n1 w p Hi1 Hn1 Hp Hw) as [(t & tl3 & _ & _ & Hv & E3 & Hset)| ->]; [|by left].
    rewrite E3. cbn [result_bind]. right. destruct Hset as [Hi3 Hns3 _ Hs3].
    assert (Hn3 : nodes tl3 !! o = Some (set_expires n1 t)) by (by rewrite Hns3, lookup_insert_eq).
    destruct (release_ref_ok tl3 o _ Hi3 Hn3) as (tl4 & E4 & Hi4 & _ & H1 & _). destruct H1 as [_ Hs4]; [cbn; lia|].
    exists tl4. split_conj; [done|done| |].
    + intros o' t' q Hne. rewrite Hs4, Hs3, Hs1. split; [intros [(? & _)|[_ ?]]; done|auto].
    + exists t. split; [|done]. apply Hs4, Hs3. by left.
Qed.

(** What becomes of a timer that expires, when its callback leaves the timers
    alone (and a periodic callback asks to go on): a one-off timer is off the
    schedule, a periodic one is scheduled one period after the time it was due, not
    after the time it ran, so that it does not drift; no other timer changes. *)
Theorem expiry_no_drift tl w tl' : tl_inv tl -> (forall o n, nodes tl !! o = Some n -> 1 <= ref_cnt n) ->
  expire_one quiet tl w = Ok (tl', true) ->
  exists o n t p, urgent tl w o t p /\ nodes tl !! o = Some n /\ expires n = t /\
    (forall o' t' q, o' <> o -> is_sched tl' o' t' q <-> is_sched tl o' t' q) /\
    match t_kind n with
    | Periodic w => exists t', is_sched tl' o t' p /\ tv_value t' = tv_value t + tv_value w
    | _ => scheduled tl' o = false
    end.
Proof.
  intros Hi Href E. destruct (expire_one_cases quiet tl w Hi) as [[_ E']|(o & t & p & tl1 & Hu & Hr & E')]; [congruence|].
  pose proof Hu as ((n & Hn & Ht & Hp & _) & _). pose proof (unscheduled tl tl1 o Hr (mk_is_Some _ _ Hn)) as Hs1.
  destruct Hr as [Hi1 En _ Hs]. pose proof Hn as Hn1. rewrite <- En in Hn1.
  destruct (fire_quiet tl1 o n p Hi1 Hn1 (Href o n Hn) Hp Hs1) as [Hf|(tl2 & Hf & _ & Ho & Hk)]; rewrite E', Hf in E; [done|].
  cbn in E. injection E as <-. exists o, n, t, p. rewrite Ht in Hk. split_conj; [done..| |done].
  intros o' t' q Hne. rewrite Ho, Hs by done. split; [by intros [_ ?]|auto].
Qed.

(** ** The delay until the next timer *)
Definition better (a b : heap_entry) : Prop := tv_le (key a) (key b).
Lemma earliest_top_ok hl t :
  match earliest_top t hl with
  | None => t = None /\ forall p h, (p, h) ∈ hl -> top h = None
  | Some e => (t = Some e \/ exists p h, (p, h) ∈ hl /\ top h = Some e) /\
      (forall e', t = Some e' -> better e e') /\ forall p h e', (p, h) ∈ hl -> top h = Some e' -> better e e'
  end.
Proof.
  revert t. induction hl as [|[p h] hl IH]; intros t; cbn [earliest_top].
  { destruct t as [e|]; [|by split; [|intros ? ? ?%elem_of_nil]]. split_conj; [by left| |by intros ? ? ? ?%elem_of_nil].
    intros e' [= <-]. apply tv_le_refl. }
  set (t1 := match top h with Some _ => _ | None => _ end). specialize (IH t1).
  assert (H1 : forall e, t1 = Some e -> (t = Some e \/ top h = Some e) /\
    (forall e', t = Some e' -> better e e') /\ forall e', top h = Some e' -> better e e').
  { unfold t1, better. intros e. destruct (top h) as [a|], t as [b|]; [destruct (tv_ltb (key a) (key b)) eqn:E|..]; intros [= <-];
      [apply tv_ltb_spec, tv_not_le in E|apply tv_ltb_false in E|..]; split_conj; auto; intros e' [= <-]; auto using tv_le_refl. }
  assert (H0 : t1 = None -> t = None /\ top h = None).
  { unfold t1. clear. destruct (top h) as [a|], t as [b|]; [destruct (tv_ltb (key a) (key b))|..]; done. }
  clearbody t1. destruct (earliest_top t1 hl) as [e|].
  - destruct IH as (Hin & Hle & Hall).
    assert (Ht1 : forall x, t1 = Some x -> better e x) by auto.
    assert (Hcov : forall e', t = Some e' \/ top h = Some e' -> better e e').
    { intros e' He'. destruct t1 as [x|]; [|destruct (H0 eq_refl) as [? ?]; destruct He'; congruence].
      destruct (H1 x eq_refl) as (_ & Ha & Hb). eapply tv_le_trans; [by apply Ht1|]. destruct He'; [by apply Ha|by apply Hb]. }
    split_conj.
    + destruct Hin as [Hin|(q & g & Hg & He)]; [|right; exists q, g; split; [by right|done]].
      destruct (H1 e Hin) as ([?|?] & _); [by left|]. right. exists p, h. split; [by left|done].
    + auto.
    + intros q g e' [[= -> ->]|Hg]%elem_of_cons He'; [auto|]. by eapply Hall.
  - destruct IH as [E Hall]. destruct (H0 E) as [-> Hh]. split; [done|]. intros q g [[= -> ->]|Hg]%elem_of_cons; [done|eauto].
Qed.

Lemma tv_sub_time a b : tv_time a -> tv_time b -> tv_le b a ->
  exists c, tv_sub a b = Ok c /\ tv_value c = tv_value a - tv_value b.
Proof.
  intros [Ha Ha0] [Hb Hb0] Hle. apply tv_le_value in Hle; [|done..]. destruct (tv_sub_exact a b) as (c & E & _ & Hv); [done|done|..].
  - unfold tv_normal, is_int in *. lia.
  - unfold tv_normal, is_int, value_fits, tv_value, ONE_MILLION in *. unfold is_int. dlia.
  - by exists c.
Qed.

(** [get_next_delay] returns the time from the clock to the earliest scheduled
    timer of any priority, zero when it has expired; without a scheduled timer it
    returns false and the largest time. *)
Theorem next_delay_correct tl : tl_inv tl ->
  ((forall o t p, ~ is_sched tl o t p) /\ get_next_delay tl = Ok (false, MAXIMUM)) \/
  exists o t p d, is_sched tl o t p /\ (forall o' t' p', is_sched tl o' t' p' -> tv_le t t') /\
    get_next_delay tl = Ok (true, d) /\ tv_value d = Z.max 0 (tv_value t - tv_value (clock tl)).
Proof.
  intros Hi. unfold get_next_delay. pose proof (earliest_top_ok (heaplist tl) None) as He.
  destruct (earliest_top None (heaplist tl)) as [e|].
  - right. destruct He as ([?|(p & h & Hin & Ht)] & _ & Hall); [done|].
    destruct (top_sched tl p h e Hi Hin Ht) as (o & Ho & Hs). exists o, (key e), p.
    assert (Hmin : forall o' t' p', is_sched tl o' t' p' -> tv_le (key e) t').
    { intros o' t' p' Hs'. destruct (sched_top tl o' t' p' Hi Hs') as (g & e' & Hg & Hte & Hle).
      eapply tv_le_trans; [by eapply Hall|done]. }
    pose proof Hs as (n & Hn & Hex & _). pose proof (tl_nodes _ Hi o n Hn) as (Htm & _). rewrite Hex in Htm.
    pose proof (tl_clock _ Hi) as Hck. unfold tv_gtb. destruct (tv_ltb (clock tl) (key e)) eqn:E.
    + apply tv_ltb_spec, tv_not_le in E. destruct (tv_sub_time (key e) (clock tl) Htm Hck E) as (d & Ed & Hd).
      rewrite Ed. exists d. split_conj; [done..|]. apply tv_le_value in E; [lia|apply Hck|apply Htm].
    + apply tv_ltb_false in E. exists ZERO. split_conj; [done..|]. apply tv_le_value in E; [change (tv_value ZERO) with 0; lia|apply Htm|apply Hck].
  - left. split; [|done]. intros o t p Hs. destruct (sched_top tl o t p Hi Hs) as (h & e & Hin & Ht & _).
    destruct He as [_ He]. rewrite (He p h Hin) in Ht. done.
Qed.

(** ** Witnesses: two timers of one priority and a periodic one of another *)
Definition sample_prog : list prog_step :=
  [POp (NewOneoffAt 1%positive (mkTV 5 0) 4); POp (NewOneoffAfter 2%positive (mkTV 2 0) 4); POp (NewPeriodic 3%positive (mkTV 3 0) 2);
   POp (ScheduleAt 1%positive (mkTV 14 0) 4); POp (AdvanceTime (mkTV 15 0)); PExpire 9; PRun].
Definition sample_start : TimeVal := mkTV 10 0.

Definition sample_timers : TimerList :=
  match prog_run quiet (timerlist_new sample_start) (take 5 sample_prog) with Ok tl => tl | Throw _ => timerlist_new sample_start end.

Ltac time_tac := unfold tv_time, tv_normal, is_int, ONE_MILLION; cbn; lia.

Lemma quiet_prog_ok o tl : tl_inv tl -> permitted_all (Some o) tl (fst (quiet o tl)).
Proof. done. Qed.

Lemma permitted_step dispatch tl s tl' l :
  match s with POp op => permitted None tl op | _ => True end -> prog_exec dispatch tl s = Ok tl' ->
  permitted_prog dispatch tl' l -> permitted_prog dispatch tl (s :: l).
Proof. intros Hp E Hl. cbn. by rewrite E. Qed.

Ltac permitted_tac :=
  first [exact I | reflexivity | eexists; reflexivity | time_tac | split; permitted_tac].

Lemma sample_permitted : permitted_prog quiet (timerlist_new sample_start) sample_prog.
Proof.
  unfold sample_prog.
  repeat (eapply permitted_step; [cbn [permitted]; permitted_tac|vm_compute; reflexivity|]). exact I.
Qed.

Lemma sample_inv : tl_inv sample_timers.
Proof.
  assert (Hp : permitted_prog quiet (timerlist_new sample_start) (take 5 sample_prog)).
  { cbn [take sample_prog].
    repeat (eapply permitted_step; [cbn [permitted]; permitted_tac|vm_compute; reflexivity|]). exact I. }
  destruct (prog_fine quiet (take 5 sample_prog) (timerlist_new sample_start)) as [(tl & E & Hi)|E]; [done|apply tl_new_inv; time_tac|done| |].
  - unfold sample_timers. by rewrite E.
  - vm_compute in E. done.
Qed.

Lemma timers_safe_witness :
  exists tl, prog_run quiet (timerlist_new sample_start) sample_prog = Ok tl /\ tl_inv tl.
Proof.
  destruct (timers_safe quiet sample_start sample_prog quiet_prog_ok ltac:(time_tac) sample_permitted) as [(tl & E & Hi)|E].
  - exists tl. split; [exact E|exact Hi].
  - exfalso. vm_compute in E. discriminate E.
Defined.

Lemma expire_one_most_urgent_witness :
  exists o t p tl1, urgent sample_timers 9 o t p /\ rescheduled sample_timers tl1 (fun o' t' q => o' <> o /\ is_sched sample_timers o' t' q).
Proof.
  destruct (expire_one_most_urgent quiet sample_timers 9 sample_inv) as [[_ E]|(o & t & p & tl1 & Hu & Hr & _)].
  - exfalso. vm_compute in E. discriminate E.
  - exists o, t, p, tl1. split; [exact Hu|exact Hr].
Defined.

Definition sample_fired : TimerList :=
  match expire_one quiet sample_timers 9 with Ok (tl, _) => tl | Throw _ => sample_timers end.

Lemma expiry_no_drift_witness : exists o n t p, urgent sample_timers 9 o t p /\ nodes sample_timers !! o = Some n.
Proof.
  destruct (expiry_no_drift sample_timers 9 sample_fired sample_inv) as (o & n & t & p & Hu & Hn & _).
  - intros o n Hn.
    assert (Hall : map_Forall (fun _ n => 1 <= ref_cnt n) (nodes sample_timers)).
    { apply (bool_decide_unpack _). vm_compute. exact I. }
    by apply (Hall o).
  - vm_compute. reflexivity.
  - exists o, n, t, p. split; [exact Hu|exact Hn].
Defined.

Lemma next_delay_correct_witness : exists d, get_next_delay sample_timers = Ok (true, d) /\ tv_value d = 0.
Proof.
  destruct (next_delay_correct sample_timers sample_inv) as [[_ E]|(o & t & p & d & _ & _ & E & _)].
  - exfalso. vm_compute in E. discriminate E.
  - exists d. split; [exact E|]. vm_compute in E. injection E as <-. reflexivity.
Defined.
