(* ===== verification/BgpPeer.v ===== *)
(** * The BGP session state machine (bgp/peer.cc, bgp/socket.cc)

    [BGPPeer] with its [SocketClient], its timers and the damping of peer
    oscillations.  A timer is scheduled or not (the random delays are not modelled);
    [_idle_hold] is shared by the idle hold time and the delayed open, as in the code.
    The outcome of a [connect] is an input of the event during which it is called.
    Packets arrive decoded: an undecodable one is the error that the decoder throws.
    What the machine does outside itself is recorded, newest last, in [acts].  The
    negotiation of parameters, the statistics and the second machine for incoming
    connections ([AcceptSession]) are not modelled; its effects on this machine are the
    events [EvIncoming] and [EvSwap]. *)

From Stdlib Require Import ZArith Lia.
From stdpp Require Import base tactics option numbers list.
From S2P Require Import Prelude Word32 IPv4.
Local Open Scope Z_scope.
Local Open Scope xorp_scope.

Inductive FSMState : Type :=
  | STATEIDLE | STATECONNECT | STATEACTIVE | STATEOPENSENT | STATEOPENCONFIRM | STATEESTABLISHED | STATESTOPPED.

#[global] Instance FSMState_eq_dec : EqDecision FSMState.
Proof. solve_decision. Defined.

Definition is_state (a b : FSMState) : bool :=
  match a, b with
  | STATEIDLE, STATEIDLE | STATECONNECT, STATECONNECT | STATEACTIVE, STATEACTIVE | STATEOPENSENT, STATEOPENSENT
  | STATEOPENCONFIRM, STATEOPENCONFIRM | STATEESTABLISHED, STATEESTABLISHED | STATESTOPPED, STATESTOPPED => true
  | _, _ => false
  end.

(** Codes of NOTIFICATION messages *)
Definition UNSPECIFIED : Z := 0.
Definition MSGHEADERERR : Z := 1.
Definition BADMESSLEN : Z := 2.
Definition BADMESSTYPE : Z := 3.
Definition OPENMSGERROR : Z := 2.
Definition UNSUPVERNUM : Z := 1.
Definition BADASPEER : Z := 2.
Definition BADBGPIDENT : Z := 3.
Definition UNSUPOPTPAR : Z := 4.
Definition UNACCEPTHOLDTIME : Z := 6.
Definition HOLDTIMEEXP : Z := 4.
Definition FSMERROR : Z := 5.
Definition CEASE : Z := 6.
Definition BGPVERSION : Z := 4.

(** ** SocketClient *)

(** A message in the output queue: its completion method is the one of ordinary
    messages, or the one of a NOTIFICATION with its two arguments. *)
Inductive outmsg : Type := OutMsg | OutNotify (restart automatic : bool).

Record Sock := mkSock { sk_valid : bool; sk_connecting : bool; sk_writer : bool; sk_reader : bool; sk_queue : list outmsg }.

Definition sock_new : Sock := mkSock false false false false [].
Definition is_connected (s : Sock) : bool := if sk_connecting s then false else sk_valid s.
Definition still_reading (s : Sock) : bool := sk_reader s.

Definition close_socket (s : Sock) : Sock := mkSock false (sk_connecting s) (sk_writer s) (sk_reader s) (sk_queue s).
(** [async_remove]: the flushed buffers' completion methods only free them. *)
Definition async_remove (s : Sock) : Sock := mkSock (sk_valid s) (sk_connecting s) false false [].
Definition async_add (s : Sock) : result xorp_exn Sock :=
  if sk_writer s || sk_reader s then Throw AssertFailed else Ok (mkSock (sk_valid s) (sk_connecting s) true true []).

Definition sock_disconnect (s : Sock) : result xorp_exn Sock :=
  if sk_valid s then Ok (close_socket (async_remove s)) else Throw AssertFailed.
Definition connect_break (s : Sock) : Sock := close_socket (mkSock (sk_valid s) false (sk_writer s) (sk_reader s) (sk_queue s)).
Definition sock_connected (s : Sock) : result xorp_exn Sock :=
  if sk_valid s || sk_connecting s then Throw AssertFailed
  else let s := async_remove s in async_add (mkSock true (sk_connecting s) (sk_writer s) (sk_reader s) (sk_queue s)).
Definition flush_transmit_queue (s : Sock) : Sock :=
  if sk_writer s then mkSock (sk_valid s) (sk_connecting s) true (sk_reader s) [] else s.
Definition stop_reader (s : Sock) : Sock := mkSock (sk_valid s) (sk_connecting s) (sk_writer s) false (sk_queue s).

(** [send_message]: false when there is no connection *)
Definition sock_send (s : Sock) (m : outmsg) : result xorp_exn (Sock * bool) :=
  if negb (is_connected s) then Ok (s, false)
  else if sk_writer s then Ok (mkSock (sk_valid s) (sk_connecting s) true (sk_reader s) (sk_queue s ++ [m]), true)
  else Throw AssertFailed.
Definition output_queue_busy (s : Sock) : bool := (20 <? length (sk_queue s))%nat.

(** [connect_socket_complete], before it calls back *)
Definition connect_complete (s : Sock) (success : bool) : result xorp_exn Sock :=
  if negb (sk_connecting s) then Throw AssertFailed
  else
    let s := mkSock (sk_valid s) false (sk_writer s) (sk_reader s) (sk_queue s) in
    if success then async_add (async_remove s) else Ok (close_socket s).

(** What the system answers to a [connect]. *)
Inductive connect_outcome : Type := BindFailed | InProgress | Immediate (success : bool).

(** [connect] and [connect_socket]: the new socket, and whether the attempt is complete *)
Definition sock_connect (s : Sock) (co : connect_outcome) : result xorp_exn (Sock * option bool) :=
  if sk_valid s then Throw AssertFailed
  else
    match co with
    | BindFailed => Ok (s, Some false)
    | _ =>
        if sk_connecting s then Throw AssertFailed
        else
          let s := mkSock true true (sk_writer s) (sk_reader s) (sk_queue s) in
          match co with
          | Immediate b => s <-! connect_complete s b ;; Ok (s, Some b)
          | _ => Ok (s, None)
          end
    end.

(** ** BGPPeer *)
Record PeerConfig := mkConfig {
  delay_open_time : Z; configured_hold_time : Z; peer_as : Z; damping : bool; prefix_limit : option Z }.

(** The two uses of the timer [_idle_hold] *)
Inductive idle_use : Type := IdleHold (secs : Z) | DelayOpen.

Inductive action : Type :=
  | SendOpen (capabilities : bool) | SendKeepalive | SendNotification (code subcode : Z)
  | StartConnect | Disconnected | RejectConnection
  | HandlerNew | HandlerUp | HandlerDown | HandlerStop | HandlerUpdate | HandlerNotBusy.

(** [handler]: whether it exists, and whether its peering is up *)
Record Peer := mkPeer {
  state : FSMState; sock : Sock;
  t_retry : bool; t_hold : option Z; t_keep : bool; t_stopped : bool; t_idle : option idle_use;
  hold_duration : Z; keepalive_duration : Z; handler : option bool;
  restart_counter : Z; t_zero : bool; last_error : Z * Z; peer_id : IPv4; was_busy : bool; acts : list action }.

(** Updates of the fields *)
Definition with_state (st : FSMState) (p : Peer) : Peer :=
  let 'mkPeer _ sk rt ho ke sp idl hd kd ha rc ze er pid bu ac := p in mkPeer st sk rt ho ke sp idl hd kd ha rc ze er pid bu ac.
Definition with_sock (sk : Sock) (p : Peer) : Peer :=
  let 'mkPeer st _ rt ho ke sp idl hd kd ha rc ze er pid bu ac := p in mkPeer st sk rt ho ke sp idl hd kd ha rc ze er pid bu ac.
Definition with_retry (rt : bool) (p : Peer) : Peer :=
  let 'mkPeer st sk _ ho ke sp idl hd kd ha rc ze er pid bu ac := p in mkPeer st sk rt ho ke sp idl hd kd ha rc ze er pid bu ac.
Definition with_hold (ho : option Z) (p : Peer) : Peer :=
  let 'mkPeer st sk rt _ ke sp idl hd kd ha rc ze er pid bu ac := p in mkPeer st sk rt ho ke sp idl hd kd ha rc ze er pid bu ac.
Definition with_keep (ke : bool) (p : Peer) : Peer :=
  let 'mkPeer st sk rt ho _ sp idl hd kd ha rc ze er pid bu ac := p in mkPeer st sk rt ho ke sp idl hd kd ha rc ze er pid bu ac.
Definition with_stopped (sp : bool) (p : Peer) : Peer :=
  let 'mkPeer st sk rt ho ke _ idl hd kd ha rc ze er pid bu ac := p in mkPeer st sk rt ho ke sp idl hd kd ha rc ze er pid bu ac.
Definition with_idle (idl : option idle_use) (p : Peer) : Peer :=
  let 'mkPeer st sk rt ho ke sp _ hd kd ha rc ze er pid bu ac := p in mkPeer st sk rt ho ke sp idl hd kd ha rc ze er pid bu ac.
Definition with_durations (hd kd : Z) (p : Peer) : Peer :=
  let 'mkPeer st sk rt ho ke sp idl _ _ ha rc ze er pid bu ac := p in mkPeer st sk rt ho ke sp idl hd kd ha rc ze er pid bu ac.
Definition with_handler (ha : option bool) (p : Peer) : Peer :=
  let 'mkPeer st sk rt ho ke sp idl hd kd _ rc ze er pid bu ac := p in mkPeer st sk rt ho ke sp idl hd kd ha rc ze er pid bu ac.
Definition with_damp (rc : Z) (ze : bool) (p : Peer) : Peer :=
  let 'mkPeer st sk rt ho ke sp idl hd kd ha _ _ er pid bu ac := p in mkPeer st sk rt ho ke sp idl hd kd ha rc ze er pid bu ac.
Definition with_error (er : Z * Z) (p : Peer) : Peer :=
  let 'mkPeer st sk rt ho ke sp idl hd kd ha rc ze _ pid bu ac := p in mkPeer st sk rt ho ke sp idl hd kd ha rc ze er pid bu ac.
Definition with_id (pid : IPv4) (p : Peer) : Peer :=
  let 'mkPeer st sk rt ho ke sp idl hd kd ha rc ze er _ bu ac := p in mkPeer st sk rt ho ke sp idl hd kd ha rc ze er pid bu ac.
Definition with_busy (bu : bool) (p : Peer) : Peer :=
  let 'mkPeer st sk rt ho ke sp idl hd kd ha rc ze er pid _ ac := p in mkPeer st sk rt ho ke sp idl hd kd ha rc ze er pid bu ac.
Definition act (a : action) (p : Peer) : Peer :=
  let 'mkPeer st sk rt ho ke sp idl hd kd ha rc ze er pid bu ac := p in mkPeer st sk rt ho ke sp idl hd kd ha rc ze er pid bu (ac ++ [a]).

Section Peer.
Context {HO : HostOrder} (cfg : PeerConfig).

Definition peer_new (id : IPv4) (hold keep : Z) : Peer :=
  mkPeer STATEIDLE sock_new false None false false None hold keep None 0 false (0, 0) id false [].

(** *** Timers *)
Definition start_connect_retry_timer (p : Peer) : Peer := with_retry true p.
Definition clear_connect_retry_timer (p : Peer) : Peer := with_retry false p.
Definition restart_connect_retry_timer (p : Peer) : Peer := start_connect_retry_timer (clear_connect_retry_timer p).
Definition start_hold_timer (p : Peer) : Peer :=
  if negb (hold_duration p =? 0) then with_hold (Some (hold_duration p + 1)) p else p.
Definition clear_hold_timer (p : Peer) : Peer := with_hold None p.
Definition restart_hold_timer (p : Peer) : Peer := start_hold_timer (clear_hold_timer p).
Definition start_keepalive_timer (p : Peer) : Peer := if 0 <? keepalive_duration p then with_keep true p else p.
Definition clear_keepalive_timer (p : Peer) : Peer := with_keep false p.
Definition start_stopped_timer (p : Peer) : Peer := with_stopped true p.
Definition clear_stopped_timer (p : Peer) : Peer := with_stopped false p.
(** [DampPeerOscillations]: 10 restarts in 300 seconds, then 120 seconds of idle hold *)
Definition idle_holdtime (p : Peer) : Z := if restart_counter p <? 10 then 0 else 120.
Definition damp_restart (p : Peer) : Peer :=
  with_damp ((restart_counter p + 1) mod 2 ^ 32) (if restart_counter p =? 0 then true else t_zero p) p.
Definition start_idle_hold_timer (p : Peer) : Peer := if damping cfg then with_idle (Some (IdleHold (idle_holdtime p))) p else p.
Definition clear_idle_hold_timer (p : Peer) : Peer := if damping cfg then with_idle None p else p.
Definition start_delay_open_timer (p : Peer) : Peer := with_idle (Some DelayOpen) p.
(** The timer [_delay_open] that this unschedules is never scheduled. *)
Definition clear_delay_open_timer (p : Peer) : Peer := p.
Definition clear_all_timers (p : Peer) : Peer :=
  clear_idle_hold_timer (clear_delay_open_timer (clear_stopped_timer (clear_keepalive_timer (clear_hold_timer (clear_connect_retry_timer p))))).
Definition automatic_restart (p : Peer) : Peer := if damping cfg then damp_restart p else p.

(** *** Resources *)
Definition established (p : Peer) : Peer :=
  match handler p with
  | None => with_handler (Some true) (act HandlerNew p)
  | Some _ => with_handler (Some true) (act HandlerUp p)
  end.
Definition disconnect (p : Peer) : result xorp_exn Peer :=
  s <-! sock_disconnect (sock p) ;; Ok (act Disconnected (with_sock s p)).
Definition release_resources (p : Peer) : result xorp_exn Peer :=
  let p := match handler p with Some true => with_handler (Some false) (act HandlerDown p) | _ => p end in
  if is_connected (sock p) then disconnect p else Ok p.

(** [set_state]; [start] is [event_start], which a restart calls at once unless it is automatic. *)
Definition set_state_with (start : Peer -> result xorp_exn Peer) (s : FSMState) (restart automatic : bool) (p : Peer)
  : result xorp_exn Peer :=
  let previous_state := state p in
  let p := with_state s p in
  let p := if is_state previous_state STATESTOPPED && negb (is_state s STATESTOPPED) then clear_stopped_timer p else p in
  match s with
  | STATEIDLE =>
      if negb (is_state previous_state STATEIDLE) then
        p <-! release_resources (clear_all_timers p) ;;
        if restart then
          if automatic then Ok (start_idle_hold_timer (automatic_restart p)) else start p
        else Ok p
      else Ok p
  | STATESTOPPED =>
      let p := if negb (is_state previous_state STATESTOPPED) then start_stopped_timer (clear_all_timers p) else p in
      if is_state previous_state STATEESTABLISHED then
        match handler p with None => Throw AssertFailed | Some _ => Ok (act HandlerStop p) end
      else Ok p
  | STATEESTABLISHED => if negb (is_state previous_state STATEESTABLISHED) then Ok (established p) else Ok p
  | _ => Ok p
  end.
(** The calls that do not restart. *)
Definition set_state0 : FSMState -> bool -> bool -> Peer -> result xorp_exn Peer := set_state_with Ok.

(** *** Messages *)
Definition send_message (a : action) (p : Peer) : result xorp_exn Peer :=
  r <-! sock_send (sock p) OutMsg ;;
  let p := with_sock (fst r) p in
  if snd r then
    let p := act a p in
    Ok (if output_queue_busy (sock p) then with_busy true p else p)
  else Ok p.
Definition send_notification (code subcode : Z) (restart automatic : bool) (p : Peer) : result xorp_exn Peer :=
  let s := stop_reader (flush_transmit_queue (sock p)) in
  r <-! sock_send s (OutNotify restart automatic) ;;
  let p := with_sock (fst r) p in
  Ok (if snd r then act (SendNotification code subcode) p else p).

(** [generate_open_message]: without capabilities after the error that refuses them *)
Definition send_open (p : Peer) : result xorp_exn Peer :=
  send_message (SendOpen (negb ((fst (last_error p) =? OPENMSGERROR) && (snd (last_error p) =? UNSUPOPTPAR)))) p.

(** *** Events that do not restart the machine *)
Definition event_open (p : Peer) : result xorp_exn Peer :=
  match state p with
  | STATECONNECT | STATEACTIVE =>
      if negb (delay_open_time cfg =? 0) then Ok (clear_connect_retry_timer (start_delay_open_timer p))
      else
        p <-! send_open p ;;
        let p := clear_connect_retry_timer p in
        let p := start_hold_timer (with_durations (4 * 60) (keepalive_duration p) p) in
        set_state0 STATEOPENSENT true true p
  | _ => Throw Fatal
  end.
Definition event_openfail (p : Peer) : result xorp_exn Peer :=
  match state p with
  | STATECONNECT =>
      p <-! (if delay_open_time cfg =? 0 then set_state0 STATEIDLE false true p else Ok p) ;;
      set_state0 STATEACTIVE true true (restart_connect_retry_timer p)
  | _ => Throw Fatal
  end.
(** [connect_to_peer] and [connect_to_peer_complete] *)
Definition connect_to_peer_complete (success : bool) (p : Peer) : result xorp_exn Peer :=
  if success then event_open p else event_openfail p.
Definition connect_to_peer (co : connect_outcome) (p : Peer) : result xorp_exn Peer :=
  r <-! sock_connect (sock p) co ;;
  let p := act StartConnect (with_sock (fst r) p) in
  match snd r with Some b => connect_to_peer_complete b p | None => Ok p end.

Definition event_start (co : connect_outcome) (p : Peer) : result xorp_exn Peer :=
  let go p :=
    p <-! set_state0 STATECONNECT true true (start_connect_retry_timer p) ;;
    connect_to_peer co p in
  match state p with
  | STATESTOPPED =>
      p <-! set_state0 STATEIDLE false true (with_sock (flush_transmit_queue (sock p)) p) ;;
      go p
  | STATEIDLE => go p
  | _ => Ok p
  end.

Definition set_state (co : connect_outcome) : FSMState -> bool -> bool -> Peer -> result xorp_exn Peer :=
  set_state_with (event_start co).

(** *** The other events *)
Section Events.
Context (co : connect_outcome).

Definition flush (p : Peer) : Peer := with_sock (flush_transmit_queue (sock p)) p.

(** A NOTIFICATION, then [STATESTOPPED] *)
Definition notify_and_stop (code subcode : Z) (restart automatic : bool) (p : Peer) : result xorp_exn Peer :=
  p <-! send_notification code subcode restart automatic p ;;
  set_state co STATESTOPPED restart automatic p.

Definition event_stop (restart automatic : bool) (p : Peer) : result xorp_exn Peer :=
  match state p with
  | STATEIDLE => Ok p
  | STATECONNECT =>
      set_state co STATEIDLE restart automatic (clear_connect_retry_timer (with_sock (connect_break (sock p)) p))
  | STATEACTIVE => set_state co STATEIDLE restart automatic p
  | STATEOPENSENT | STATEOPENCONFIRM | STATEESTABLISHED => notify_and_stop CEASE UNSPECIFIED restart automatic p
  | STATESTOPPED => set_state co STATEIDLE restart automatic (flush p)
  end.

Definition event_closed (p : Peer) : result xorp_exn Peer :=
  match state p with
  | STATEIDLE => Ok p
  | STATECONNECT =>
      let p := if is_connected (sock p) then with_sock (connect_break (sock p)) p else p in
      set_state co STATEIDLE true true (clear_connect_retry_timer p)
  | STATEACTIVE | STATEOPENCONFIRM | STATEESTABLISHED => set_state co STATEIDLE true true p
  | STATEOPENSENT =>
      p <-! disconnect p ;;
      set_state co STATEACTIVE true true (restart_connect_retry_timer p)
  | STATESTOPPED => set_state co STATEIDLE true true (flush p)
  end.

Definition event_tranfatal (p : Peer) : result xorp_exn Peer :=
  match state p with
  | STATEIDLE => Ok p
  | STATESTOPPED => set_state co STATEIDLE true true (flush p)
  | _ => set_state co STATEIDLE true true p
  end.

Definition event_connexp (p : Peer) : result xorp_exn Peer :=
  match state p with
  | STATEIDLE | STATESTOPPED => Ok p
  | STATECONNECT =>
      let p := restart_connect_retry_timer p in
      connect_to_peer co (with_sock (connect_break (sock p)) p)
  | STATEACTIVE =>
      p <-! set_state co STATECONNECT true true (restart_connect_retry_timer p) ;;
      connect_to_peer co p
  | _ => notify_and_stop FSMERROR UNSPECIFIED true true p
  end.

Definition event_holdexp (p : Peer) : result xorp_exn Peer :=
  match state p with
  | STATEIDLE | STATESTOPPED => Ok p
  | STATECONNECT | STATEACTIVE => set_state co STATEIDLE true true p
  | _ => notify_and_stop HOLDTIMEEXP UNSPECIFIED true true p
  end.

Definition event_keepexp (p : Peer) : result xorp_exn Peer :=
  match state p with
  | STATEOPENCONFIRM | STATEESTABLISHED => send_message SendKeepalive (start_keepalive_timer p)
  | _ => Throw Fatal
  end.

Definition event_delay_open_exp (p : Peer) : result xorp_exn Peer :=
  match state p with
  | STATECONNECT | STATEACTIVE | STATEOPENCONFIRM =>
      p <-! send_open p ;;
      let p := if is_state (state p) STATEACTIVE || is_state (state p) STATECONNECT
               then start_hold_timer (with_durations (4 * 60) (keepalive_duration p) p) else p in
      set_state co STATEOPENSENT true true p
  | _ => notify_and_stop FSMERROR UNSPECIFIED true true p
  end.

Definition event_idle_hold_exp (p : Peer) : result xorp_exn Peer :=
  if is_state (state p) STATEIDLE then event_start co p else Throw AssertFailed.

Definition hook_stopped (p : Peer) : result xorp_exn Peer :=
  if is_state (state p) STATESTOPPED then set_state co STATEIDLE true true p else Throw AssertFailed.

(** [notify_peer_of_error] *)
Definition notify_peer_of_error (code subcode : Z) (p : Peer) : result xorp_exn Peer :=
  if is_connected (sock p) then notify_and_stop code subcode true true p else event_tranfatal p.

Record OpenPacket := mkOpen { op_version : Z; op_as : Z; op_id : IPv4; op_hold : Z }.

(** [check_open_packet]: the peer data, and the error that is thrown *)
Definition check_open_packet (o : OpenPacket) (p : Peer) : Peer * option (Z * Z) :=
  if negb (op_version o =? BGPVERSION) then (p, Some (OPENMSGERROR, UNSUPVERNUM))
  else if negb (op_as o =? peer_as cfg) then (p, Some (OPENMSGERROR, BADASPEER))
  else if negb (ipv4_is_unicast (op_id o)) || (ipv4_addr (op_id o) =? 0) then (p, Some (OPENMSGERROR, BADBGPIDENT))
  else
    let p := with_id (op_id o) p in
    let hold_secs := op_hold o in
    if (hold_secs =? 1) || (hold_secs =? 2) then (p, Some (OPENMSGERROR, UNACCEPTHOLDTIME))
    else
      let hold_secs := if configured_hold_time cfg <? hold_secs then configured_hold_time cfg else hold_secs in
      (with_durations hold_secs (hold_secs / 3) p, None).

Definition process_open (o : OpenPacket) (p : Peer) : result xorp_exn Peer :=
  match check_open_packet o p with
  | (p, Some (code, subcode)) => notify_peer_of_error code subcode p
  | (p, None) =>
      p <-! send_message SendKeepalive p ;;
      set_state co STATEOPENCONFIRM true true (start_hold_timer (start_keepalive_timer (clear_all_timers p)))
  end.
Definition event_openmess (o : OpenPacket) (p : Peer) : result xorp_exn Peer :=
  match state p with
  | STATECONNECT | STATEACTIVE =>
      p <-! send_open (clear_delay_open_timer p) ;;
      process_open o p
  | STATEOPENSENT => process_open o p
  | STATEIDLE | STATEOPENCONFIRM | STATEESTABLISHED => notify_peer_of_error FSMERROR UNSPECIFIED p
  | STATESTOPPED => Ok p
  end.

Definition event_keepmess (p : Peer) : result xorp_exn Peer :=
  match state p with
  | STATEIDLE | STATECONNECT | STATEACTIVE => Throw Fatal
  | STATESTOPPED => Ok p
  | STATEOPENSENT => notify_and_stop FSMERROR UNSPECIFIED true true p
  | STATEOPENCONFIRM => p <-! set_state co STATEESTABLISHED true true p ;; Ok (restart_hold_timer p)
  | STATEESTABLISHED => Ok (restart_hold_timer p)
  end.

(** [nlri]: the prefixes of the message; [prefixes]: those the handler counts *)
Definition event_recvupdate (nlri prefixes : Z) (p : Peer) : result xorp_exn Peer :=
  match state p with
  | STATEESTABLISHED =>
      let p := restart_hold_timer p in
      if match prefix_limit cfg with Some limit => limit <? prefixes + nlri | None => false end then
        notify_and_stop CEASE UNSPECIFIED true true p
      else match handler p with None => Throw AssertFailed | Some _ => Ok (act HandlerUpdate p) end
  | STATESTOPPED => Ok p
  | _ => notify_and_stop FSMERROR UNSPECIFIED true true p
  end.

Definition event_recvnotify (code subcode : Z) (p : Peer) : result xorp_exn Peer :=
  let p := with_error (code, subcode) p in
  match state p with
  | STATEIDLE => Throw Fatal
  | STATESTOPPED => Ok p
  | _ => set_state co STATEIDLE true true p
  end.

(** [get_message] *)
Inductive message : Type :=
  | MOpen (o : OpenPacket) | MKeepalive | MUpdate (nlri prefixes : Z) | MNotification (code subcode : Z)
  | MCorrupt (code subcode : Z) | MUnusable | MUnknownType | MIllegalLength | MClosed.
Definition get_message (m : message) (p : Peer) : result xorp_exn Peer :=
  match m with
  | MIllegalLength => notify_peer_of_error MSGHEADERERR BADMESSLEN p
  | MClosed => event_closed p
  | MOpen o => event_openmess o p
  | MKeepalive => event_keepmess p
  | MUpdate nlri prefixes => event_recvupdate nlri prefixes p
  | MNotification code subcode => event_recvnotify code subcode p
  | MUnknownType => notify_peer_of_error MSGHEADERERR BADMESSTYPE p
  | MCorrupt code subcode => notify_peer_of_error code subcode p
  | MUnusable => Ok p
  end.

(** [send_message_complete] and [send_notification_complete] for the head of the queue *)
Definition pop_queue (p : Peer) : Peer :=
  let s := sock p in with_sock (mkSock (sk_valid s) (sk_connecting s) (sk_writer s) (sk_reader s) (tail (sk_queue s))) p.
Definition message_sent (m : outmsg) (p : Peer) : result xorp_exn Peer :=
  match m with
  | OutMsg =>
      if was_busy p && negb (output_queue_busy (sock p)) then
        let p := with_busy false p in
        Ok (match handler p with Some _ => act HandlerNotBusy p | None => p end)
      else Ok p
  | OutNotify restart _ => if is_state (state p) STATESTOPPED then set_state co STATEIDLE restart true p else Throw AssertFailed
  end.
Definition message_failed (m : outmsg) (p : Peer) : result xorp_exn Peer :=
  match m with
  | OutMsg => event_closed p
  | OutNotify restart automatic =>
      if is_state (state p) STATESTOPPED then set_state co STATEIDLE restart automatic p else Throw AssertFailed
  end.

(** [event_open(sock)]: an incoming connection *)
Definition event_open_sock (p : Peer) : result xorp_exn Peer :=
  match state p with
  | STATECONNECT | STATEACTIVE =>
      let s := if is_state (state p) STATECONNECT then connect_break (sock p) else sock p in
      s <-! sock_connected s ;;
      event_open (with_sock s p)
  | _ => Ok (act RejectConnection p)
  end.

(** [swap_sockets]: another, connected socket takes the place of the one in use *)
Definition swap_sockets (p : Peer) : result xorp_exn Peer :=
  match state p with
  | STATEACTIVE | STATECONNECT | STATEOPENSENT | STATEOPENCONFIRM =>
      p <-! set_state co STATEACTIVE true true (with_sock (mkSock true false true true []) p) ;;
      event_open p
  | _ => Throw AssertFailed
  end.
End Events.

(** ** Runs *)
Inductive event : Type :=
  | EvStart | EvStop (restart automatic : bool)
  | EvConnect (success : bool) | EvIncoming | EvSwap
  | EvMessage (m : message) | EvSent | EvSendError
  | EvRetry | EvHold | EvKeep | EvStopped | EvIdle | EvZeroRestart.

(** The events that the environment can deliver: the expiry of a scheduled timer, the
    end of a pending connect, data on an open socket that is read. *)
Definition enabled (p : Peer) (e : event) : bool :=
  match e with
  | EvStart | EvStop _ _ | EvIncoming => true
  | EvSwap => match state p with STATEACTIVE | STATECONNECT | STATEOPENSENT | STATEOPENCONFIRM => true | _ => false end
  | EvConnect _ => sk_connecting (sock p)
  | EvMessage _ => sk_reader (sock p) && is_connected (sock p)
  | EvSent | EvSendError => is_connected (sock p) && negb (bool_decide (length (sk_queue (sock p)) = 0%nat))
  | EvRetry => t_retry p
  | EvHold => match t_hold p with Some _ => true | None => false end
  | EvKeep => t_keep p
  | EvStopped => t_stopped p
  | EvIdle => match t_idle p with Some _ => true | None => false end
  | EvZeroRestart => t_zero p
  end.

Definition peer_step (co : connect_outcome) (p : Peer) (e : event) : result xorp_exn Peer :=
  match e with
  | EvStart => event_start co p
  | EvStop restart automatic => event_stop co restart automatic p
  | EvConnect success =>
      s <-! connect_complete (sock p) success ;;
      connect_to_peer_complete success (with_sock s p)
  | EvIncoming => event_open_sock p
  | EvSwap => swap_sockets co p
  | EvMessage m => get_message co m p
  | EvSent => match sk_queue (sock p) with m :: _ => message_sent co m (pop_queue p) | [] => Ok p end
  | EvSendError => match sk_queue (sock p) with m :: _ => message_failed co m p | [] => Ok p end
  | EvRetry => event_connexp co (with_retry false p)
  | EvHold => event_holdexp co (with_hold None p)
  | EvKeep => event_keepexp (with_keep false p)
  | EvStopped => hook_stopped co (with_stopped false p)
  | EvIdle =>
      match t_idle p with
      | Some (IdleHold _) => event_idle_hold_exp co (with_idle None p)
      | Some DelayOpen => event_delay_open_exp co (with_idle None p)
      | None => Ok p
      end
  | EvZeroRestart => Ok (with_damp 0 false p)
  end.

Fixpoint peer_run (p : Peer) (l : list (connect_outcome * event)) : result xorp_exn Peer :=
  match l with
  | [] => Ok p
  | (co, e) :: l => p <-! peer_step co p e ;; peer_run p l
  end.
End Peer.
