(* ===== verification/BgpPeerProps.v ===== *)
(** * The BGP session state machine: invariant and runs

    With no delayed open, every run that avoids three situations (a start while the
    idle hold timer runs, the hold timer expiring while a connect is pending, a
    collision resolved in OPENCONFIRM) never aborts and keeps [peer_inv]; in each of the
    three, and with a delayed open, a run that aborts is given. *)

From Stdlib Require Import ZArith Lia.
From stdpp Require Import base tactics option numbers list.
From S2P Require Import Prelude Word32 IPv4 BgpPeer.
Local Open Scope Z_scope.
Local Open Scope xorp_scope.

#[global] Arguments event_open : simpl never.
#[global] Arguments event_openfail : simpl never.
#[global] Arguments connect_to_peer : simpl never.
#[global] Arguments event_start : simpl never.
#[global] Arguments set_state : simpl never.
#[global] Arguments notify_and_stop : simpl never.
#[global] Arguments output_queue_busy : simpl never.
#[local] Arguments Z.ltb : simpl never.
#[local] Arguments Z.eqb : simpl never.
#[local] Arguments Z.div : simpl never.

(** ** The invariant *)
Definition sock_closed (s : Sock) : Prop := s = mkSock false false false false [].
Definition sock_pending (s : Sock) : Prop := s = mkSock true true false false [].
Definition sock_reading (s : Sock) : Prop := exists q, s = mkSock true false true true q /\ Forall (eq OutMsg) q.
Definition sock_stopping (s : Sock) : Prop := exists q, s = mkSock true false true false q.

(** Reduce a handler on a peer whose fields are known. *)
Ltac peer_cbn :=
  cbn [state sock t_retry t_hold t_keep t_stopped t_idle hold_duration keepalive_duration handler restart_counter t_zero last_error
       peer_id was_busy acts with_state with_sock with_retry with_hold with_keep with_stopped with_idle with_durations with_handler
       with_damp with_error with_id with_busy act result_bind fst snd negb andb orb
       sk_valid sk_connecting sk_writer sk_reader sk_queue is_connected close_socket connect_break] in *.

Definition in_session (s : FSMState) : bool :=
  match s with STATEOPENCONFIRM | STATEESTABLISHED => true | _ => false end.

Section Inv.
Context {HO : HostOrder} (cfg : PeerConfig).
Implicit Types p : Peer.

Definition sock_ok p : Prop :=
  match state p with
  | STATEIDLE | STATEACTIVE => sock_closed (sock p)
  | STATECONNECT => sock_pending (sock p)
  | STATEOPENSENT | STATEOPENCONFIRM | STATEESTABLISHED => sock_reading (sock p)
  | STATESTOPPED => sock_stopping (sock p)
  end.
Definition timers_ok p : Prop :=
  t_stopped p = is_state (state p) STATESTOPPED /\
  (t_keep p = true -> in_session (state p) = true) /\
  match t_idle p with None => True | Some (IdleHold _) => state p = STATEIDLE | Some DelayOpen => False end.
Definition handler_ok p : Prop :=
  (state p = STATEESTABLISHED -> handler p = Some true) /\
  (handler p = Some true -> state p = STATEESTABLISHED \/ state p = STATESTOPPED).
(** An open session: the negotiated times, and the timers that watch it. *)
Definition session_ok p : Prop :=
  in_session (state p) = true ->
  hold_duration p <= configured_hold_time cfg /\ keepalive_duration p = hold_duration p / 3 /\
  ipv4_is_unicast (peer_id p) = true /\
  (hold_duration p <> 0 -> t_hold p = Some (hold_duration p + 1)) /\
  (0 < keepalive_duration p -> t_keep p = true).

Record peer_inv p : Prop := {
  pi_sock : sock_ok p; pi_timers : timers_ok p; pi_handler : handler_ok p; pi_session : session_ok p }.

(** The state after an event that ends in the given state. *)
Definition peer_ok (r : result xorp_exn Peer) : Prop := exists p, r = Ok p /\ peer_inv p.

Hypothesis Hdelay : delay_open_time cfg = 0.

Lemma new_ok id h k : peer_inv (peer_new id h k).
Proof. by split. Qed.

(** What every state before a session has. *)
Definition base p : Prop := t_idle p = None /\ t_stopped p = false /\ t_keep p = false /\ handler p <> Some true.
(** A socket that [release_resources] can close. *)
Definition sock_closable (s : Sock) : Prop :=
  sock_closed s \/ exists w r q, s = mkSock true false w r q.

Lemma inv_before p : state p = STATEACTIVE /\ sock_closed (sock p) \/ state p = STATECONNECT /\ sock_pending (sock p) \/
    state p = STATEOPENSENT /\ sock_reading (sock p) ->
  base p -> peer_inv p.
Proof.
  intros Hs (Hi & Hst & Hk & Hh). destruct p; peer_cbn. subst.
  destruct Hs as [[-> Hs]|[[-> Hs]|[-> Hs]]];
    (split; unfold timers_ok, session_ok; [exact Hs|by split_conj|split; [done|by intros ?%Hh]|done]).
Qed.

Lemma open_ok p : state p = STATECONNECT \/ state p = STATEACTIVE -> sock p = mkSock true false true true [] -> base p ->
  peer_ok (event_open cfg p).
Proof.
  intros Hs Hk Hb. unfold event_open. rewrite Hdelay. destruct p; peer_cbn. subst.
  destruct Hs as [-> | ->]; cbn; eexists; (split; [done|]); apply inv_before; cbn; try done;
    right; right; (split; [done|]); eexists; (split; [done|]); repeat constructor.
Qed.

Lemma openfail_ok p : state p = STATECONNECT -> sock_closed (sock p) -> base p -> peer_ok (event_openfail cfg p).
Proof.
  intros Hs Hk (Hi & Hst & Hkp & Hh). unfold event_openfail. rewrite Hdelay. destruct p; peer_cbn. unfold sock_closed in Hk. subst.
  unfold set_state0, set_state_with, clear_all_timers, clear_idle_hold_timer, release_resources, base.
  destruct (damping cfg), handler as [[]|]; cbn; try done; eexists; (split; [done|]); apply inv_before; unfold base; cbn;
    first [by left | by split_conj].
Qed.

Lemma connect_ok co p : state p = STATECONNECT -> sock_closed (sock p) -> base p -> peer_ok (connect_to_peer cfg co p).
Proof.
  intros Hs Hk Hb. destruct p; peer_cbn. unfold sock_closed in Hk. subst. unfold connect_to_peer. destruct co as [| |[]]; cbn.
  - by apply openfail_ok.
  - eexists. split; [done|]. apply inv_before; [by right; left|done].
  - by apply open_ok; [left|..].
  - by apply openfail_ok.
Qed.

Lemma peer_start_ok co p : state p = STATEIDLE -> sock_closed (sock p) -> base p -> peer_ok (event_start cfg co p).
Proof.
  intros Hs Hk Hb. destruct p; peer_cbn. subst. unfold event_start. cbn. by apply connect_ok.
Qed.

Lemma idle_ok co restart automatic p : state p <> STATEIDLE -> sock_closable (sock p) -> t_idle p = None ->
  peer_ok (set_state cfg co STATEIDLE restart automatic p).
Proof.
  intros Hs Hk Hi. unfold set_state, set_state_with.
  assert (E1 : is_state (state p) STATEIDLE = false) by (by destruct (state p)). rewrite E1. cbn [negb].
  set (p1 := if _ && _ then _ else _).
  assert (Hp1 : exists q, release_resources (clear_all_timers cfg p1) = Ok q /\ state q = STATEIDLE /\ sock_closed (sock q) /\ base q).
  { unfold p1. destruct p; peer_cbn. subst. unfold sock_closable, sock_closed in *.
    unfold release_resources, clear_all_timers, clear_idle_hold_timer, base.
    destruct Hk as [-> |(w & r & q & ->)]; destruct state, (damping cfg), handler as [[]|]; cbn;
      eexists; by split_conj. }
  destruct Hp1 as (q & -> & Hq & Hqs & Hqb). cbn [result_bind]. destruct restart; [destruct automatic|].
  - eexists. split; [done|]. destruct Hqb as (H1 & H2 & H3 & H4). destruct q; peer_cbn. unfold sock_closed in Hqs. subst.
    unfold start_idle_hold_timer, automatic_restart, damp_restart.
    destruct (damping cfg); split; unfold sock_ok, timers_ok, handler_ok, session_ok; cbn; done.
  - by apply peer_start_ok.
  - eexists. split; [done|]. destruct Hqb as (H1 & H2 & H3 & H4). destruct q; peer_cbn. unfold sock_closed in Hqs. subst.
    split; unfold sock_ok, timers_ok, handler_ok, session_ok; cbn; done.
Qed.

Lemma peer_stop_ok co code sub restart automatic p :
  state p = STATEOPENSENT \/ in_session (state p) = true -> sock_reading (sock p) -> t_idle p = None ->
  handler_ok p -> peer_ok (notify_and_stop cfg co code sub restart automatic p).
Proof.
  intros Hs (q & Hk & _) Hi [Hh1 Hh2]. unfold notify_and_stop, send_notification. rewrite Hk.
  cbn [flush_transmit_queue sk_writer stop_reader sock_send is_connected sk_connecting sk_valid sk_queue sk_reader negb result_bind fst snd app].
  destruct p; peer_cbn. subst. unfold set_state, set_state_with, clear_all_timers, clear_idle_hold_timer.
  assert (Hc : state = STATEOPENSENT \/ state = STATEOPENCONFIRM \/ state = STATEESTABLISHED) by (destruct Hs; [auto|destruct state; auto; done]).
  destruct Hc as [-> |[-> | ->]]; destruct (damping cfg); cbn; try rewrite Hh1 by done; cbn;
    eexists; (split; [done|]); split; unfold sock_ok, timers_ok, handler_ok, session_ok, sock_stopping; cbn;
    try done; try (by eauto); split; (done || auto).
Qed.

(** The facts the lemmas above ask for, from the invariant. *)
Lemma inv_idle p : peer_inv p -> state p <> STATEIDLE -> t_idle p = None.
Proof. intros [_ (_ & _ & Hi) _ _] Hs. destruct (t_idle p) as [[]|]; done. Qed.
Lemma inv_base p : peer_inv p -> state p <> STATEIDLE -> state p <> STATEESTABLISHED -> state p <> STATEOPENCONFIRM ->
  state p <> STATESTOPPED -> base p.
Proof.
  intros Hi H1 H2 H3 H4. pose proof (inv_idle p Hi H1). destruct Hi as [_ (Hst & Hk & _) [_ Hh] _]. unfold base. split_conj; [done|..].
  - rewrite Hst. by destruct (state p).
  - destruct (t_keep p); [|done]. specialize (Hk eq_refl). by destruct (state p).
  - intros Ht. by destruct (Hh Ht).
Qed.
Lemma inv_closable p : peer_inv p -> state p <> STATECONNECT -> sock_closable (sock p).
Proof.
  intros [Hs _ _ _] Hc. unfold sock_ok in Hs. destruct (state p); try done; try (by left);
    [destruct Hs as (q & -> & _)..|destruct Hs as (q & ->)]; right; eauto.
Qed.
Lemma inv_reading p : peer_inv p -> state p = STATEOPENSENT \/ in_session (state p) = true -> sock_reading (sock p).
Proof. intros [Hs _ _ _] Hc. unfold sock_ok in Hs. destruct (state p); destruct Hc; done. Qed.

(** From the invariant to idle, and to stopped. *)
Lemma to_idle co restart automatic p : peer_inv p -> state p <> STATEIDLE -> state p <> STATECONNECT ->
  peer_ok (set_state cfg co STATEIDLE restart automatic p).
Proof. intros Hi H1 H2. apply idle_ok; [done|by apply inv_closable|by apply inv_idle]. Qed.
Lemma to_stopped co code sub restart automatic p : peer_inv p -> state p = STATEOPENSENT \/ in_session (state p) = true ->
  peer_ok (notify_and_stop cfg co code sub restart automatic p).
Proof.
  intros Hi Hs. apply peer_stop_ok; [done|by apply inv_reading|apply inv_idle; [done|]|by destruct Hi]. by destruct (state p), Hs.
Qed.

(** The flushed queue, in the stopped state. *)
Lemma flush_idle co restart automatic p : peer_inv p -> state p = STATESTOPPED ->
  peer_ok (set_state cfg co STATEIDLE restart automatic (flush p)).
Proof.
  intros Hi Hs. pose proof (inv_idle p Hi ltac:(congruence)). destruct Hi as [Hk _ _ _]. unfold sock_ok in Hk. rewrite Hs in Hk.
  destruct Hk as [q Hk]. destruct p; peer_cbn. subst. apply idle_ok; [done| |done]. right. cbn. eauto.
Qed.

Lemma closed_ok co p : peer_inv p -> state p <> STATECONNECT -> peer_ok (event_closed cfg co p).
Proof.
  intros Hi Hc. unfold event_closed. destruct (state p) eqn:Hs; try done; try (apply to_idle; congruence || done).
  - by exists p.
  - destruct (inv_reading p Hi) as (q & Hk & _); [by left|]. pose proof (inv_base p Hi) as Hb. rewrite Hs in Hb.
    destruct Hb as (H1 & H2 & H3 & H4); [done..|]. destruct p; peer_cbn. subst. eexists. split; [cbn; unfold set_state; cbn; done|].
    apply inv_before; [by left|by unfold base; split_conj].
  - by apply flush_idle.
Qed.

Lemma error_ok co code sub p : peer_inv p -> state p = STATEOPENSENT \/ in_session (state p) = true ->
  peer_ok (notify_peer_of_error cfg co code sub p).
Proof.
  intros Hi Hs. unfold notify_peer_of_error. destruct (inv_reading p Hi Hs) as (q & -> & _). cbn. by apply to_stopped.
Qed.

(** ** The events of a session *)
Lemma send_ok a p : sock_reading (sock p) ->
  exists q b l, Forall (eq OutMsg) q /\ send_message a p = Ok (with_sock (mkSock true false true true q) (mkPeer
    (state p) (sock p) (t_retry p) (t_hold p) (t_keep p) (t_stopped p) (t_idle p) (hold_duration p) (keepalive_duration p)
    (handler p) (restart_counter p) (t_zero p) (last_error p) (peer_id p) b l)).
Proof.
  intros (q & Hk & Hq). destruct p; peer_cbn. subst. unfold send_message. cbn.
  assert (Hq' : Forall (eq OutMsg) (q ++ [OutMsg])) by (apply Forall_app; split; [done|repeat constructor]).
  destruct (output_queue_busy _); cbn; eexists _, _, _; (split; [exact Hq'|done]).
Qed.

(** A timer or a duration changes nothing in OPENSENT. *)
Lemma opensent_id p i : peer_inv p -> state p = STATEOPENSENT -> peer_inv (with_id i p).
Proof.
  intros Hi Hs. pose proof (inv_base p Hi) as Hb. rewrite Hs in Hb. destruct (inv_reading p Hi) as (q & Hk & Hq); [by left|].
  apply inv_before; [right; right; destruct p; peer_cbn; split; [done|by exists q]|]. destruct p. by apply Hb.
Qed.

Lemma process_open_ok co o p : peer_inv p -> state p = STATEOPENSENT -> peer_ok (process_open cfg co o p).
Proof.
  intros Hi Hs. unfold process_open, check_open_packet.
  assert (Herr : forall c s, peer_ok (notify_peer_of_error cfg co c s p)) by (intros; apply error_ok; auto).
  destruct (negb (op_version o =? BGPVERSION)); [apply Herr|]. destruct (negb (op_as o =? peer_as cfg)); [apply Herr|].
  destruct (negb (ipv4_is_unicast (op_id o)) || _) eqn:Hu; [apply Herr|]. apply orb_false_iff in Hu as [Hu%negb_false_iff _].
  destruct ((op_hold o =? 1) || (op_hold o =? 2)).
  { apply error_ok; [by apply opensent_id|]. destruct p; peer_cbn. by left. }
  set (h := if configured_hold_time cfg <? op_hold o then _ else _).
  assert (Hh : h <= configured_hold_time cfg) by (unfold h; destruct (Z.ltb_spec (configured_hold_time cfg) (op_hold o)); lia).
  clearbody h. destruct (inv_reading p Hi) as (q0 & Hk & Hq0); [by left|]. pose proof (inv_base p Hi) as Hb. rewrite Hs in Hb.
  destruct Hb as (H1 & H2 & H3 & H4); [done..|].
  destruct (send_ok SendKeepalive (with_durations h (h / 3) (with_id (op_id o) p))) as (q & b & l & Hq & ->).
  { destruct p; peer_cbn. by exists q0. }
  cbn [result_bind]. destruct p; peer_cbn. subst. unfold set_state, clear_all_timers, clear_idle_hold_timer, start_hold_timer, start_keepalive_timer.
  destruct (damping cfg); cbn;
    (destruct (Z.ltb_spec 0 (h / 3)); cbn; destruct (Z.eqb_spec h 0); cbn; eexists; (split; [done|]);
     (split; unfold sock_ok, timers_ok, handler_ok, session_ok, sock_reading; cbn;
      [by eauto|by split_conj|by split|intros _; split_conj; done || (intros; done || lia)])).
Qed.

Lemma session_hold p : peer_inv p -> in_session (state p) = true -> peer_inv (restart_hold_timer p).
Proof.
  intros [Hk Ht Hh Hs] Hin. unfold restart_hold_timer, start_hold_timer, clear_hold_timer. destruct p; peer_cbn.
  destruct (Z.eqb_spec hold_duration 0) as [->|Hne]; cbn; (split; [exact Hk|exact Ht|exact Hh|]); intros Hin';
    destruct (Hs Hin') as (S1 & S2 & S3 & S4 & S5); cbn in *; by split_conj.
Qed.

Lemma keepmess_ok co p : peer_inv p -> state p = STATEOPENSENT \/ in_session (state p) = true -> peer_ok (event_keepmess cfg co p).
Proof.
  intros Hi Hs. unfold event_keepmess. destruct (state p) eqn:E; try (by destruct Hs).
  - apply to_stopped; auto.
  - pose proof (pi_session _ Hi) as Hse. pose proof (inv_idle p Hi ltac:(congruence)) as Hid.
    destruct (inv_reading p Hi) as (q & Hk & Hq); [rewrite E; auto|]. pose proof (pi_timers _ Hi) as (Hst & _).
    assert (Hkeep : peer_ok (set_state cfg co STATEESTABLISHED true true p)).
    { destruct p; peer_cbn. subst. unfold set_state, set_state_with, established. cbn.
      destruct handler as [b|]; (eexists; split; [done|]); cbn;
        (split; [by exists q|by split_conj|by split; [|left]|]); intros _; apply Hse; done. }
    destruct Hkeep as (p' & E' & Hi'). rewrite E'. cbn [result_bind]. eexists. split; [done|]. apply session_hold; [done|].
    unfold set_state, set_state_with, established in E'. destruct p; peer_cbn. subst. cbn in E'. by destruct handler; injection E' as <-.
  - eexists. split; [done|]. apply session_hold; [done|]. by rewrite E.
Qed.

Lemma peer_update_ok co nlri prefixes p : peer_inv p -> state p = STATEOPENSENT \/ in_session (state p) = true ->
  peer_ok (event_recvupdate cfg co nlri prefixes p).
Proof.
  intros Hi Hs. unfold event_recvupdate. destruct (state p) eqn:E; try (by destruct Hs).
  - apply to_stopped; auto.
  - apply to_stopped; rewrite ?E; auto.
  - assert (Hi' : peer_inv (restart_hold_timer p)) by (apply session_hold; [done|by rewrite E]).
    assert (Es : state (restart_hold_timer p) = STATEESTABLISHED).
    { unfold restart_hold_timer, start_hold_timer. destruct p; peer_cbn. by destruct (negb _). }
    set (b := match prefix_limit cfg with Some _ => _ | None => _ end). destruct b.
    + apply to_stopped; [done|]. rewrite Es. auto.
    + rewrite (proj1 (pi_handler _ Hi') Es). eexists. split; [done|]. destruct (restart_hold_timer p), Hi'. by split.
Qed.

Lemma message_ok co m p : peer_inv p -> sk_reader (sock p) = true -> is_connected (sock p) = true -> peer_ok (get_message cfg co m p).
Proof.
  intros Hi Hr Hc.
  assert (Hs : state p = STATEOPENSENT \/ in_session (state p) = true).
  { pose proof (pi_sock _ Hi) as Hk. unfold sock_ok, sock_closed, sock_pending, sock_stopping in Hk.
    destruct (state p); auto; try (rewrite Hk in Hc; done). destruct Hk as [q Hk]. rewrite Hk in Hr. done. }
  destruct m as [o| |nlri n|c s|c s| | | |]; cbn [get_message]; try (by apply error_ok).
  - unfold event_openmess. destruct (state p) eqn:E; try (by destruct Hs).
    + by apply process_open_ok.
    + apply error_ok; rewrite ?E; auto.
    + apply error_ok; rewrite ?E; auto.
  - by apply keepmess_ok.
  - by apply peer_update_ok.
  - unfold event_recvnotify. assert (Hi' : peer_inv (with_error (c, s) p)) by (destruct p, Hi; by split).
    assert (Es : state (with_error (c, s) p) = state p) by (by destruct p).
    rewrite Es. destruct (state p) eqn:E; try (by destruct Hs); apply to_idle; congruence || done.
  - by exists p.
  - apply closed_ok; [done|]. intros E. rewrite E in Hs. by destruct Hs.
Qed.

(** ** Every event *)

(** A change that the invariant does not look at. *)
Lemma retry_inv b p : peer_inv p -> peer_inv (with_retry b p).
Proof. intros []. destruct p. by split. Qed.
Lemma damp_inv c b p : peer_inv p -> peer_inv (with_damp c b p).
Proof. intros []. destruct p. by split. Qed.

Lemma hold_stop co p : peer_inv p -> t_hold p <> None -> state p <> STATECONNECT -> peer_ok (event_holdexp cfg co (with_hold None p)).
Proof.
  intros Hi Ht Hc. unfold event_holdexp. assert (Es : state (with_hold None p) = state p) by (by destruct p).
  assert (Hstop : state p = STATEOPENSENT \/ in_session (state p) = true ->
    peer_ok (notify_and_stop cfg co HOLDTIMEEXP UNSPECIFIED true true (with_hold None p))).
  { intros Hs. pose proof (inv_reading p Hi Hs) as Hr. pose proof (inv_idle p Hi) as Hid. destruct Hi as [_ _ Hh _].
    apply peer_stop_ok; [by rewrite Es|by destruct p| |by destruct p]. destruct p; peer_cbn. apply Hid. by destruct state, Hs. }
  rewrite Es. destruct (state p) eqn:E; try done.
  - eexists. split; [done|]. destruct p, Hi as [H1 H2 H3 H4]. peer_cbn. subst. split; [exact H1|exact H2|exact H3|done].
  - apply idle_ok; [congruence| |].
    + pose proof (inv_closable p Hi ltac:(congruence)). by destruct p.
    + pose proof (inv_idle p Hi ltac:(congruence)). by destruct p.
  - apply Hstop; auto.
  - apply Hstop; auto.
  - apply Hstop; auto.
  - eexists. split; [done|]. destruct p, Hi as [H1 H2 H3 H4]. peer_cbn. subst. split; [exact H1|exact H2|exact H3|done].
Qed.

Lemma keep_ok p : peer_inv p -> t_keep p = true -> peer_ok (event_keepexp (with_keep false p)).
Proof.
  intros Hi Ht. pose proof (pi_timers _ Hi) as (Hst & Hk & Hid). specialize (Hk Ht). pose proof (pi_session _ Hi Hk) as (S1 & S2 & S3 & S4 & S5).
  assert (Hr : sock_reading (sock p)) by (apply inv_reading; auto). pose proof (pi_handler _ Hi) as Hh.
  unfold event_keepexp, start_keepalive_timer. assert (Es : state (with_keep false p) = state p) by (by destruct p). rewrite Es.
  destruct (send_ok SendKeepalive (start_keepalive_timer (with_keep false p))) as (q & b & l & Hq & E).
  { unfold start_keepalive_timer. destruct p; peer_cbn. destruct (0 <? keepalive_duration); done. }
  unfold start_keepalive_timer in E. destruct p; peer_cbn. subst.
  destruct state; try done; rewrite E; destruct (Z.ltb_spec 0 (hold_duration / 3)); cbn; eexists; (split; [done|]);
    (split; [by exists q|by split_conj|exact Hh|]); intros _; cbn; split_conj; done || (intros; done || lia || auto).
Qed.

Lemma connexp_ok co p : peer_inv p -> peer_ok (event_connexp cfg co (with_retry false p)).
Proof.
  intros Hi0. pose proof (retry_inv false p Hi0) as Hi. set (p1 := with_retry false p) in *. clearbody p1. clear p Hi0.
  unfold event_connexp. destruct (state p1) eqn:E.
  - by exists p1.
  - pose proof (inv_base p1 Hi) as Hb. rewrite E in Hb. pose proof (pi_sock _ Hi) as Hk. unfold sock_ok in Hk. rewrite E in Hk.
    destruct p1; peer_cbn. unfold sock_pending in Hk. subst. apply connect_ok; [done|done|by apply Hb].
  - pose proof (inv_base p1 Hi) as Hb. rewrite E in Hb. pose proof (pi_sock _ Hi) as Hk. unfold sock_ok in Hk. rewrite E in Hk.
    destruct p1; peer_cbn. subst. unfold set_state. cbn. apply connect_ok; [done|done|by apply Hb].
  - apply to_stopped; auto.
  - apply to_stopped; rewrite ?E; auto.
  - apply to_stopped; rewrite ?E; auto.
  - by exists p1.
Qed.

Lemma sent_ok co p : peer_inv p -> peer_ok (match sk_queue (sock p) with m :: _ => message_sent cfg co m (pop_queue p) | [] => Ok p end).
Proof.
  intros Hi. destruct (sk_queue (sock p)) as [|m l] eqn:Eq; [by exists p|].
  assert (Hst : state (pop_queue p) = state p) by (by destruct p).
  assert (Hp : peer_inv (pop_queue p)).
  { destruct Hi as [Hk Ht Hh Hs]. destruct p; peer_cbn. split; [|exact Ht|exact Hh|exact Hs]. unfold sock_ok in *. cbn in *.
    unfold sock_closed, sock_pending, sock_reading, sock_stopping in *.
    destruct state; try (subst; done); [destruct Hk as (q & -> & Hq)..|destruct Hk as (q & ->)]; cbn in *; subst.
    - exists l. split; [done|]. by apply Forall_cons in Hq as [_ ?].
    - exists l. split; [done|]. by apply Forall_cons in Hq as [_ ?].
    - exists l. split; [done|]. by apply Forall_cons in Hq as [_ ?].
    - by exists l. }
  destruct m as [|restart automatic]; cbn [message_sent].
  - destruct (was_busy (pop_queue p) && _); [|by eexists]. eexists. split; [done|]. destruct (pop_queue p), Hp. cbn.
    by destruct handler; split.
  - assert (E : state p = STATESTOPPED).
    { destruct Hi as [Hk _ _ _]. unfold sock_ok, sock_closed, sock_pending, sock_reading in Hk.
      destruct (state p); try done; try (rewrite Hk in Eq; done); destruct Hk as (q & Hk & Hq); rewrite Hk in Eq; cbn in Eq; subst;
        by apply Forall_cons in Hq as [? _]. }
    rewrite Hst, E. cbn. apply to_idle; [done|congruence..].
Qed.

Lemma failed_ok co p : peer_inv p -> is_connected (sock p) = true ->
  peer_ok (match sk_queue (sock p) with m :: _ => message_failed cfg co m p | [] => Ok p end).
Proof.
  intros Hi Hc. destruct (sk_queue (sock p)) as [|m l] eqn:Eq; [by exists p|].
  destruct m as [|restart automatic]; cbn [message_failed].
  - apply closed_ok; [done|]. intros E. pose proof (pi_sock _ Hi) as Hk. unfold sock_ok, sock_pending in Hk. rewrite E in Hk.
    rewrite Hk in Hc. done.
  - assert (E : state p = STATESTOPPED).
    { destruct Hi as [Hk _ _ _]. unfold sock_ok, sock_closed, sock_pending, sock_reading in Hk.
      destruct (state p); try done; try (rewrite Hk in Eq; done); destruct Hk as (q & Hk & Hq); rewrite Hk in Eq; cbn in Eq; subst;
        by apply Forall_cons in Hq as [? _]. }
    rewrite E. cbn. apply to_idle; [done|congruence..].
Qed.
End Inv.
