(* ===== verification/BgpPeerRun.v ===== *)
(** * Runs of the BGP session state machine

    Safety of runs, the runs that abort, how a session comes up and how it is torn
    down. *)

From Stdlib Require Import ZArith Lia.
From stdpp Require Import base tactics option numbers list.
From S2P Require Import Prelude Word32 IPv4 Sample BgpPeer BgpPeerProps.
Local Open Scope Z_scope.
Local Open Scope xorp_scope.

#[local] Arguments Z.ltb : simpl never.
#[local] Arguments Z.eqb : simpl never.
#[local] Arguments Z.div : simpl never.

Section Run.
Context {HO : HostOrder} (cfg : PeerConfig).
Implicit Types p : Peer.

(** The situations that a safe run avoids. *)
Definition careful p (e : event) : Prop :=
  match e with
  | EvStart => state p = STATEIDLE -> t_idle p = None
  | EvHold => state p <> STATECONNECT
  | EvSwap => state p <> STATEOPENCONFIRM
  | _ => True
  end.

(** Every event of the run is one that the environment can deliver, and satisfies [ok]. *)
Fixpoint run_of (ok : Peer -> event -> Prop) p (l : list (connect_outcome * event)) : Prop :=
  match l with
  | [] => True
  | (co, e) :: l => enabled p e = true /\ ok p e /\ match peer_step cfg co p e with Ok p => run_of ok p l | Throw _ => True end
  end.

Lemma step_ok co p e : delay_open_time cfg = 0 -> peer_inv cfg p -> enabled p e = true -> careful p e ->
  peer_ok cfg (peer_step cfg co p e).
Proof.
  intros Hd Hi He Hc. destruct e as [|restart automatic|success| | |m| | | | | | | |]; cbn [peer_step]; cbn in He, Hc.
  - destruct (state p) eqn:E; try (by unfold event_start; rewrite E; exists p).
    + destruct Hi as [Hk (Hst & Hke & _) [_ Hh] _]. unfold sock_ok in Hk. rewrite E in *. apply peer_start_ok; [done..|]. unfold base.
      split_conj; [auto|done| |].
      * destruct (t_keep p); [|done]. by specialize (Hke eq_refl).
      * intros Ht. by destruct (Hh Ht).
    + pose proof (inv_idle cfg p Hi ltac:(congruence)) as Hid. destruct Hi as [Hk (Hst & Hke & _) [_ Hh] _]. unfold sock_ok in Hk.
      rewrite E in *. destruct Hk as [q Hk]. unfold event_start. rewrite E. destruct p; peer_cbn. subst.
      unfold set_state0, set_state_with, clear_all_timers, clear_idle_hold_timer, release_resources.
      assert (Hkf : t_keep = false) by (destruct t_keep; [by specialize (Hke eq_refl)|done]). subst.
      destruct (damping cfg), handler as [[]|]; cbn; (apply connect_ok; [done|done|done|by unfold base; split_conj]).
  - unfold event_stop. destruct (state p) eqn:E.
    + by exists p.
    + pose proof (pi_sock _ _ Hi) as Hk. pose proof (inv_idle cfg p Hi ltac:(congruence)) as Hid. unfold sock_ok in Hk. rewrite E in Hk.
      destruct p; peer_cbn. unfold sock_pending in Hk. subst. apply idle_ok; [done|done|by left|done].
    + apply to_idle; congruence || done.
    + apply to_stopped; auto.
    + apply to_stopped; rewrite ?E; auto.
    + apply to_stopped; rewrite ?E; auto.
    + by apply flush_idle.
  - pose proof (pi_sock _ _ Hi) as Hk. pose proof (inv_base cfg p Hi) as Hb.
    assert (E : state p = STATECONNECT).
    { unfold sock_ok, sock_closed, sock_reading, sock_stopping in Hk. destruct (state p); try done; try (rewrite Hk in He; done);
        [destruct Hk as (q & Hk & _)..|destruct Hk as (q & Hk)]; rewrite Hk in He; done. }
    unfold sock_ok in Hk. rewrite E in *. unfold sock_pending in Hk. destruct p; peer_cbn. subst. destruct success; cbn.
    + apply open_ok; [done|by left|done|by apply Hb].
    + apply openfail_ok; [done|done|done|by apply Hb].
  - unfold event_open_sock. destruct (state p) eqn:E; try (by eexists; split; [done|]; destruct p, Hi; split).
    + pose proof (pi_sock _ _ Hi) as Hk. pose proof (inv_base cfg p Hi) as Hb. unfold sock_ok, sock_pending in Hk. rewrite E in *.
      destruct p; peer_cbn. subst. cbn. apply open_ok; [done|by left|done|by apply Hb].
    + pose proof (pi_sock _ _ Hi) as Hk. pose proof (inv_base cfg p Hi) as Hb. unfold sock_ok, sock_closed in Hk. rewrite E in *.
      destruct p; peer_cbn. subst. cbn. apply open_ok; [done|by right|done|by apply Hb].
  - unfold swap_sockets. pose proof (inv_base cfg p Hi) as Hb.
    destruct (state p) eqn:E; try done; destruct p; peer_cbn; subst; unfold set_state; cbn;
      (apply open_ok; [done|by right|done|by apply Hb]).
  - apply andb_true_iff in He as [Hr Hco]. by apply message_ok.
  - by apply sent_ok.
  - apply andb_true_iff in He as [Hco _]. by apply failed_ok.
  - by apply connexp_ok.
  - apply hold_stop; [done|done|by destruct (t_hold p)|done].
  - by apply keep_ok.
  - assert (E : state p = STATESTOPPED).
    { pose proof (pi_timers _ _ Hi) as (Hst & _). rewrite He in Hst. by destruct (state p). }
    unfold hook_stopped. assert (Es : state (with_stopped false p) = STATESTOPPED) by (by destruct p). rewrite Es. cbn.
    pose proof (inv_closable cfg p Hi ltac:(congruence)). pose proof (inv_idle cfg p Hi ltac:(congruence)).
    apply idle_ok; [done|congruence|by destruct p..].
  - pose proof (pi_timers _ _ Hi) as (Hst & Hke & Hid). destruct (t_idle p) as [[secs|]|] eqn:Et; try done.
    unfold event_idle_hold_exp. assert (Es : state (with_idle None p) = STATEIDLE) by (by destruct p). rewrite Es. cbn.
    pose proof (pi_sock _ _ Hi) as Hk. unfold sock_ok in Hk. rewrite Hid in *. destruct Hi as [_ _ [_ Hh] _].
    apply peer_start_ok; [done|done|by destruct p|]. destruct p; peer_cbn. subst. unfold base. split_conj; cbn; [done|done| |].
    + destruct t_keep; [by specialize (Hke eq_refl)|done].
    + intros Ht. by destruct (Hh Ht).
  - eexists. split; [done|]. by apply damp_inv.
Qed.

Lemma peer_run_ok l p : delay_open_time cfg = 0 -> peer_inv cfg p -> run_of careful p l ->
  exists p', peer_run cfg p l = Ok p' /\ peer_inv cfg p'.
Proof.
  intros Hd. revert p. induction l as [|[co e] l IH]; intros p Hi Hr; cbn; [by exists p|]. destruct Hr as (He & Hc & Hr).
  destruct (step_ok co p e Hd Hi He Hc) as (p1 & E & Hi1). rewrite E in *. cbn. by apply IH.
Qed.

(** C10: Safety of the BGP session machine.  When no delayed open is configured, a run
    of any events that the environment can deliver, other than the three situations of
    [careful], never aborts: no false assertion, no [XLOG_FATAL] for an event in a wrong
    state, no operation on a socket that is not open.  In every state the socket and
    the timers are those of the state, the peer handler is up exactly in a session or
    its shutdown, and an open session has a hold time at most the configured one, with
    the hold and keepalive timers that watch it running. *)
Theorem peer_run_safe l id hold keep : delay_open_time cfg = 0 -> run_of careful (peer_new id hold keep) l ->
  exists p, peer_run cfg (peer_new id hold keep) l = Ok p /\ peer_inv cfg p.
Proof. intros Hd. apply peer_run_ok; [done|apply new_ok]. Qed.

(** C39: The three situations are what separates the safe runs from the others: in any state that the machine can reach
    safely, an event of [careful] that is delivered in its situation is handled, and then another event that the environment
    can deliver aborts the process: the idle hold timer after a start in its time, a start after the hold timer has
    expired in CONNECT, and the keepalive timer, where one runs, after a collision in OPENCONFIRM. *)
Theorem careless_event_aborts p e : delay_open_time cfg = 0 -> peer_inv cfg p -> enabled p e = true -> ~ careful p e ->
  (e = EvSwap -> t_keep p = true) ->
  exists p' e', peer_step cfg InProgress p e = Ok p' /\ enabled p' e' = true /\
    peer_step cfg InProgress p' e' = Throw (match e with EvSwap => Fatal | _ => AssertFailed end).
Proof.
  intros Hd Hi He Hc Hk. destruct e; try (by destruct Hc).
  - destruct (state p) eqn:E; try (by destruct Hc; cbn; rewrite E). pose proof (pi_sock _ _ Hi) as Hs. unfold sock_ok, sock_closed in Hs. rewrite E in Hs.
    destruct (t_idle p) as [[secs|]|] eqn:Et; [|destruct (pi_timers _ _ Hi) as (_ & _ & Hf); by rewrite Et in Hf|by destruct Hc; intros _].
    destruct p; peer_cbn. subst. eexists _, EvIdle. split; [reflexivity|]. split; reflexivity.
  - assert (E : state p = STATEOPENCONFIRM) by (destruct (decide (state p = STATEOPENCONFIRM)) as [|Hne]; [done|by destruct (Hc Hne)]). specialize (Hk eq_refl).
    destruct p; peer_cbn. subst. cbn [peer_step]. unfold swap_sockets, set_state, set_state_with. cbn. unfold event_open. rewrite Hd. cbn.
    eexists _, EvKeep. split; [reflexivity|]. split; reflexivity.
  - assert (E : state p = STATECONNECT) by (destruct (decide (state p = STATECONNECT)) as [|Hne]; [done|by destruct (Hc Hne)]). pose proof (pi_sock _ _ Hi) as Hs.
    unfold sock_ok, sock_pending in Hs. rewrite E in Hs. destruct p; peer_cbn. subst. cbn [peer_step]. unfold event_holdexp. peer_cbn.
    unfold set_state, set_state_with. destruct handler as [[]|]; cbn;
      unfold release_resources, clear_all_timers, start_idle_hold_timer, automatic_restart, clear_idle_hold_timer; peer_cbn;
      destruct (damping cfg); eexists _, EvStart; (split; [reflexivity|]); split; reflexivity.
Qed.

(** ** How a session comes up *)

(** The result is not in a session. *)
Definition out (r : result xorp_exn Peer) : Prop := forall p', r = Ok p' -> in_session (state p') = false.

Lemma out_ok p : in_session (state p) = false -> out (Ok p).
Proof. by intros H p' [= <-]. Qed.
Lemma out_bind {A} (r : result xorp_exn A) f : (forall a, r = Ok a -> out (f a)) -> out (result_bind r f).
Proof. intros H p'. destruct r as [a|]; [|done]. cbn. by apply H. Qed.
Lemma release_state p q : release_resources p = Ok q -> state q = state p.
Proof.
  unfold release_resources, disconnect, sock_disconnect. destruct p; peer_cbn.
  destruct handler as [[]|]; peer_cbn; (destruct sock as [[] [] w r q0]; cbn; intros [= <-]; done).
Qed.
Lemma clear_state p : state (clear_all_timers cfg p) = state p.
Proof. unfold clear_all_timers, clear_idle_hold_timer. destruct p. by destruct (damping cfg). Qed.

Lemma out_set0 start s restart automatic p : in_session s = false -> (forall q, state q = STATEIDLE -> out (start q)) ->
  out (set_state_with cfg start s restart automatic p).
Proof.
  intros Hs Hstart. unfold set_state_with. set (p1 := if _ && _ then _ else _).
  assert (H1 : state p1 = s) by (unfold p1; destruct p; peer_cbn; by destruct (is_state _ _ && _)). clearbody p1.
  destruct s; try done; try (by apply out_ok; rewrite H1).
  - destruct (negb _); [|by apply out_ok; rewrite H1]. apply out_bind. intros q Hq. apply release_state in Hq. rewrite clear_state, H1 in Hq.
    destruct restart; [|by apply out_ok; rewrite Hq]. destruct automatic; [|by apply Hstart]. apply out_ok.
    unfold start_idle_hold_timer, automatic_restart, damp_restart. destruct q; peer_cbn. subst. by destruct (damping cfg).
  - set (p2 := if negb _ then _ else _).
    assert (H2 : state p2 = STATESTOPPED).
    { unfold p2. destruct (negb _); [|done]. pose proof (clear_state p1) as Hc. rewrite H1 in Hc. by destruct (clear_all_timers cfg p1). }
    clearbody p2. destruct (is_state _ _); [|by apply out_ok; rewrite H2]. destruct p2 as [? ? ? ? ? ? ? ? ? [h|] ? ? ? ? ? ?]; [|done]. cbn in H2. subst. by apply out_ok.
Qed.
Lemma send_state a p q : send_message a p = Ok q -> state q = state p.
Proof.
  unfold send_message, sock_send. destruct p as [st [v c w r qu] ? ? ? ? ? ? ? ? ? ? ? ? ? ?]; cbn.
  destruct c, v, w; cbn; try (intros [= <-]; done); try done. by destruct (output_queue_busy _); intros [= <-].
Qed.
Lemma out_open p : out (event_open cfg p).
Proof.
  unfold event_open. destruct (state p) eqn:E; try done; (destruct (negb _);
    [apply out_ok; destruct p; peer_cbn; by subst|apply out_bind; intros q _; by apply out_set0; [|intros ? H; apply out_ok; rewrite H]]).
Qed.
Lemma out_openfail p : out (event_openfail cfg p).
Proof.
  unfold event_openfail. destruct (state p); try done. apply out_bind. intros q _.
  by apply out_set0; [|intros ? H; apply out_ok; rewrite H].
Qed.
Lemma out_connect co p : in_session (state p) = false -> out (connect_to_peer cfg co p).
Proof.
  intros Hs. unfold connect_to_peer. destruct (sock_connect (sock p) co) as [[s [b|]]|]; [..|done]; cbn.
  - unfold connect_to_peer_complete. destruct b; [apply out_open|apply out_openfail].
  - apply out_ok. by destruct p.
Qed.
Lemma out_start co p : in_session (state p) = false -> out (event_start cfg co p).
Proof.
  intros Hs. unfold event_start.
  assert (Hgo : forall q, in_session (state q) = false ->
    out (p <-! set_state0 cfg STATECONNECT true true (start_connect_retry_timer q) ;; connect_to_peer cfg co p)).
  { intros q Hq. apply out_bind. intros q' E. apply out_connect.
    apply (out_set0 Ok STATECONNECT true true (start_connect_retry_timer q)); [done| |exact E]. intros ? H. apply out_ok. by rewrite H. }
  destruct (state p) eqn:E; try (by apply out_ok; rewrite E).
  - apply Hgo. by rewrite E.
  - apply out_bind. intros q Hq. apply Hgo. apply (out_set0 Ok STATEIDLE false true (with_sock (flush_transmit_queue (sock p)) p)); [done| |exact Hq]. intros ? H. apply out_ok. by rewrite H.
Qed.
Lemma out_set co s restart automatic p : in_session s = false -> out (set_state cfg co s restart automatic p).
Proof. intros Hs. apply out_set0; [done|]. intros q Hq. apply out_start. by rewrite Hq. Qed.
Lemma out_notify co c s restart automatic p : out (notify_and_stop cfg co c s restart automatic p).
Proof. unfold notify_and_stop. apply out_bind. intros q _. by apply out_set. Qed.
Lemma out_tranfatal co p : out (event_tranfatal cfg co p).
Proof. unfold event_tranfatal. destruct (state p) eqn:E; try (by apply out_set). apply out_ok. by rewrite E. Qed.
Lemma out_error co c s p : out (notify_peer_of_error cfg co c s p).
Proof. unfold notify_peer_of_error. destruct (is_connected _); [apply out_notify|apply out_tranfatal]. Qed.
Lemma out_closed co p : out (event_closed cfg co p).
Proof.
  unfold event_closed. destruct (state p) eqn:E; try (by apply out_set); [by apply out_ok; rewrite E|].
  apply out_bind. intros q _. by apply out_set.
Qed.

(** Either not in a session, or in the state of [p]. *)
Definition calm p (r : result xorp_exn Peer) : Prop :=
  forall p', r = Ok p' -> in_session (state p') = true -> state p' = state p.
Lemma calm_out p r : out r -> calm p r.
Proof. intros H p' E Hs. specialize (H p' E). congruence. Qed.
Lemma calm_same p p' : state p' = state p -> calm p (Ok p').
Proof. by intros H ? [= <-]. Qed.

Lemma calm_step co p e : (forall o, e <> EvMessage (MOpen o)) -> e <> EvMessage MKeepalive -> calm p (peer_step cfg co p e).
Proof.
  intros Ho Hk. destruct e as [|restart automatic|success| | |m| | | | | | | |]; cbn [peer_step].
  - destruct (in_session (state p)) eqn:E; [|by apply calm_out, out_start]. unfold event_start. destruct (state p) eqn:Es; try done;
      by apply calm_same.
  - unfold event_stop. destruct (state p) eqn:E; try (by apply calm_out, out_set); try (by apply calm_out, out_notify). by apply calm_same.
  - apply calm_out, out_bind. intros s _. destruct success; [apply out_open|apply out_openfail].
  - unfold event_open_sock. destruct (state p) eqn:E; try (by apply calm_same; destruct p);
      apply calm_out, out_bind; intros s _; apply out_open.
  - unfold swap_sockets. destruct (state p); try done; apply calm_out, out_bind; intros q _; apply out_open.
  - destruct m as [o| |nlri n|c s|c s| | | |]; cbn [get_message]; try done; try (by apply calm_out, out_error); try (by apply calm_out, out_closed);
      try (by apply calm_same).
    + by destruct (Ho o).
    + unfold event_recvupdate. destruct (state p) eqn:E; try (by apply calm_out, out_notify); [|by apply calm_same].
      set (b := match prefix_limit cfg with Some _ => _ | None => _ end). destruct b; [by apply calm_out, out_notify|].
      destruct (handler _); [|done]. apply calm_same. rewrite E. unfold restart_hold_timer, start_hold_timer. destruct p; peer_cbn.
      by destruct (negb _).
    + unfold event_recvnotify. destruct p; peer_cbn. destruct state; try done; try (by apply calm_out, out_set). by apply calm_same.
  - destruct (sk_queue (sock p)) as [|[|restart automatic] l]; cbn [message_sent]; [by apply calm_same|..].
    + destruct (was_busy _ && _); [|by apply calm_same; destruct p]. apply calm_same. destruct p; peer_cbn. by destruct handler.
    + destruct (is_state _ _); [|done]. by apply calm_out, out_set.
  - destruct (sk_queue (sock p)) as [|[|restart automatic] l]; cbn [message_failed]; [by apply calm_same|by apply calm_out, out_closed|].
    destruct (is_state _ _); [|done]. by apply calm_out, out_set.
  - unfold event_connexp. destruct p as [st ? ? ? ? ? ? ? ? ? ? ? ? ? ? ?]. cbn [with_retry state].
    destruct st; try (by apply calm_same); try (by apply calm_out, out_notify).
    + by apply calm_out, out_connect.
    + apply calm_out, out_bind. intros q E. apply out_connect. by eapply out_set; [|exact E].
  - unfold event_holdexp. destruct p as [st ? ? ? ? ? ? ? ? ? ? ? ? ? ? ?]. cbn [with_hold state].
    destruct st; try (by apply calm_same); try (by apply calm_out, out_notify); by apply calm_out, out_set.
  - unfold event_keepexp. destruct p as [st ? ? ? ? ? ? ? ? ? ? ? ? ? ? ?]. cbn [with_keep state]. destruct st; try done;
      intros p' E _; apply send_state in E; rewrite E; unfold start_keepalive_timer; cbn; by destruct (0 <? _).
  - unfold hook_stopped. destruct (is_state _ _); [|done]. by apply calm_out, out_set.
  - destruct (t_idle p) as [[secs|]|]; [..|by apply calm_same].
    + unfold event_idle_hold_exp. destruct (is_state (state (with_idle None p)) STATEIDLE) eqn:E; [|done]. apply calm_out, out_start.
      by destruct (state (with_idle None p)).
    + unfold event_delay_open_exp. destruct (state (with_idle None p)); try (by apply calm_out, out_notify);
        apply calm_out, out_bind; intros q _; by apply out_set.
  - apply calm_same. by destruct p.
Qed.

Lemma open_session co o p p' : event_openmess cfg co o p = Ok p' -> in_session (state p') = true ->
  state p' = STATEOPENCONFIRM /\ snd (check_open_packet cfg o p) = None.
Proof.
  assert (Hsnd : forall q q', snd (check_open_packet cfg o q) = snd (check_open_packet cfg o q')).
  { intros q q'. unfold check_open_packet.
    destruct (op_version o =? BGPVERSION); [|done]. destruct (op_as o =? peer_as cfg); [|done].
    destruct (ipv4_is_unicast (op_id o)), (ipv4_addr (op_id o) =? 0); try done. by destruct (op_hold o =? 1), (op_hold o =? 2). }
  assert (Hpr : forall q, process_open cfg co o q = Ok p' -> in_session (state p') = true ->
    state p' = STATEOPENCONFIRM /\ snd (check_open_packet cfg o p) = None).
  { intros q E Hin. rewrite (Hsnd p q). unfold process_open in E. destruct (check_open_packet cfg o q) as [q1 [[c s]|]].
    - apply out_error in E. congruence.
    - split; [|done]. destruct (send_message SendKeepalive q1) as [q2|]; [|done]. cbn in E. unfold set_state, set_state_with in E.
      destruct (start_hold_timer _) eqn:Eq. cbn in E. destruct state; cbn in E; by injection E as <-. }
  intros E Hin. unfold event_openmess in E. destruct (state p) eqn:Es; try (apply out_error in E; congruence); try (by apply (Hpr p)).
  - destruct (send_open _) as [q|]; [|done]. by apply (Hpr q).
  - destruct (send_open _) as [q|]; [|done]. by apply (Hpr q).
  - injection E as <-. by rewrite Es in Hin.
Qed.

(** C26: A session is entered only by the handshake: OPENCONFIRM on an OPEN message that
    passes the checks (version, AS number, identifier, hold time), and ESTABLISHED from
    OPENCONFIRM on a KEEPALIVE.  No other event, in any state whatever, leads there. *)
Theorem session_by_handshake co p e p' : peer_step cfg co p e = Ok p' -> in_session (state p') = true ->
  state p' = state p \/
  (state p' = STATEOPENCONFIRM /\ exists o, e = EvMessage (MOpen o) /\ snd (check_open_packet cfg o p) = None) \/
  (state p' = STATEESTABLISHED /\ state p = STATEOPENCONFIRM /\ e = EvMessage MKeepalive).
Proof.
  intros E Hin. assert (Hother : (forall o, e <> EvMessage (MOpen o)) -> e <> EvMessage MKeepalive -> state p' = state p).
  { intros H1 H2. by apply (calm_step co p e H1 H2). }
  destruct e as [|restart automatic|success| | |m| | | | | | | |]; try (left; by apply Hother).
  destruct m as [o| |nlri n|c s|c s| | | |]; try (left; by apply Hother).
  - right; left. destruct (open_session co o p p' E Hin) as [H1 H2]. split; [done|]. by exists o.
  - cbn in E. unfold event_keepmess in E. destruct (state p) eqn:Es; try done.
    + apply out_notify in E. congruence.
    + right; right. split_conj; [|done|done]. destruct (set_state cfg co STATEESTABLISHED true true p) as [q|] eqn:Eq; [|done].
      unfold set_state, set_state_with, established in Eq. cbn in E. injection E as <-. destruct p; peer_cbn. subst. cbn in Eq.
      destruct handler; injection Eq as <-; unfold restart_hold_timer, start_hold_timer; cbn; by destruct (negb _).
    + left. injection E as <-. unfold restart_hold_timer, start_hold_timer. destruct p; peer_cbn. by destruct (negb _).
    + injection E as <-. by rewrite Es in Hin.
Qed.

(** The first half of the handshake. *)
Lemma opensent_reached rt ho ke sp idl hd kd ha rc ze er pid bu ac : delay_open_time cfg = 0 ->
  peer_run cfg (mkPeer STATEIDLE (mkSock false false false false []) rt ho ke sp idl hd kd ha rc ze er pid bu ac)
    [(InProgress, EvStart); (InProgress, EvConnect true)] =
  Ok (mkPeer STATEOPENSENT (mkSock true false true true [OutMsg]) false (Some 241) ke sp idl 240 kd ha rc ze er pid bu
        ((ac ++ [StartConnect]) ++ [SendOpen (negb ((fst er =? OPENMSGERROR) && (snd er =? UNSUPOPTPAR)))])).
Proof.
  intros Hd. cbn [peer_run peer_step]. unfold event_start. cbn [state]. unfold connect_to_peer. cbn. unfold event_open. cbn [state with_sock].
  rewrite Hd. reflexivity.
Qed.

Lemma run_app l1 l2 p p1 : peer_run cfg p l1 = Ok p1 -> peer_run cfg p (l1 ++ l2) = peer_run cfg p1 l2.
Proof.
  revert p. induction l1 as [|[co e] l1 IH]; intros p; cbn; [by intros [= ->]|]. destruct (peer_step cfg co p e); cbn; [apply IH|done].
Qed.

(** C31: The handshake brings a session up: from IDLE, a start, the completed connect,
    an acceptable OPEN and a KEEPALIVE lead to ESTABLISHED with the peer handler up.  The
    machine sends an OPEN and a KEEPALIVE, takes the smaller of the two hold times and
    a third of it for its keepalives, and remembers the identifier of the peer. *)
Theorem session_comes_up p o : delay_open_time cfg = 0 -> peer_inv cfg p -> state p = STATEIDLE ->
  snd (check_open_packet cfg o p) = None ->
  exists p', peer_run cfg p [(InProgress, EvStart); (InProgress, EvConnect true);
                             (InProgress, EvMessage (MOpen o)); (InProgress, EvMessage MKeepalive)] = Ok p' /\
    state p' = STATEESTABLISHED /\ handler p' = Some true /\ peer_id p' = op_id o /\
    hold_duration p' = Z.min (configured_hold_time cfg) (op_hold o) /\ keepalive_duration p' = hold_duration p' / 3 /\
    acts p' = acts p ++ [StartConnect;
                         SendOpen (negb ((fst (last_error p) =? OPENMSGERROR) && (snd (last_error p) =? UNSUPOPTPAR)));
                         SendKeepalive; match handler p with None => HandlerNew | Some _ => HandlerUp end].
Proof.
  intros Hd Hi Hs Ho. pose proof (pi_sock _ _ Hi) as Hk. unfold sock_ok in Hk. rewrite Hs in Hk. unfold sock_closed in Hk.
  destruct p; peer_cbn. subst.
  pose proof (run_app _ [(InProgress, EvMessage (MOpen o)); (InProgress, EvMessage MKeepalive)] _ _
    (opensent_reached t_retry t_hold t_keep t_stopped t_idle hold_duration keepalive_duration handler restart_counter t_zero
       last_error peer_id was_busy acts Hd)) as Hrun.
  cbn [app] in Hrun. rewrite Hrun. clear Hrun Hi. unfold check_open_packet in Ho.
  cbn [peer_run peer_step get_message]. unfold event_openmess. cbn [state]. unfold process_open, check_open_packet.
  destruct (op_version o =? BGPVERSION); [|done]. destruct (op_as o =? peer_as cfg); [|done]. cbn [negb] in *.
  destruct (ipv4_is_unicast (op_id o)), (ipv4_addr (op_id o) =? 0); try done. cbn [negb orb] in *.
  destruct ((op_hold o =? 1) || (op_hold o =? 2)); [done|]. clear Ho.
  assert (Hm : (if configured_hold_time cfg <? op_hold o then configured_hold_time cfg else op_hold o) =
               Z.min (configured_hold_time cfg) (op_hold o)).
  { destruct (Z.ltb_spec (configured_hold_time cfg) (op_hold o)); lia. }
  rewrite Hm. set (hold := Z.min _ _). clearbody hold. clear Hm.
  unfold send_message, set_state, clear_all_timers, clear_idle_hold_timer, start_keepalive_timer, start_hold_timer. cbn.
  unfold output_queue_busy. cbn. unfold event_keepmess, set_state, established, restart_hold_timer, start_hold_timer, clear_hold_timer.
  destruct (damping cfg); cbn; (destruct (0 <? hold / 3); cbn; destruct (hold =? 0) eqn:E; cbn;
    (destruct handler as [b|]; cbn; rewrite ?E; cbn; eexists; (split; [done|]); cbn; split_conj; try done; by rewrite <- !app_assoc)).
Qed.

Lemma clear_all_eq st sk rt ho ke sp idl hd kd ha rc ze er pid bu ac : damping cfg = true ->
  clear_all_timers cfg (mkPeer st sk rt ho ke sp idl hd kd ha rc ze er pid bu ac) =
  mkPeer st sk false None false false None hd kd ha rc ze er pid bu ac.
Proof. intros Hda. unfold clear_all_timers, clear_idle_hold_timer. by rewrite Hda. Qed.

(** A peer that goes silent is dropped: when the hold timer of an established
    session expires, the machine sends the NOTIFICATION of an expired hold time, stops
    the handler, reads no more, and once the message is sent closes the connection,
    takes the routes of the peer down and, as damping is on, schedules the next
    start. *)
Theorem hold_expiry_teardown p : damping cfg = true -> peer_inv cfg p -> state p = STATEESTABLISHED -> t_hold p <> None ->
  exists p', peer_run cfg p [(InProgress, EvHold); (InProgress, EvSent)] = Ok p' /\
    state p' = STATEIDLE /\ sock_closed (sock p') /\ handler p' = Some false /\ t_hold p' = None /\ t_keep p' = false /\
    t_idle p' = Some (IdleHold (if (restart_counter p + 1) mod 2 ^ 32 <? 10 then 0 else 120)) /\
    acts p' = acts p ++ [SendNotification HOLDTIMEEXP UNSPECIFIED; HandlerStop; HandlerDown; Disconnected].
Proof.
  intros Hda Hi Hs Ht. destruct (inv_reading cfg p Hi) as (q & Hk & _); [rewrite Hs; auto|].
  pose proof (proj1 (pi_handler _ _ Hi) Hs) as Hh. destruct p; peer_cbn. subst. cbn [peer_run peer_step]. unfold event_holdexp. cbn.
  unfold notify_and_stop, send_notification. cbn. unfold set_state. cbn. rewrite clear_all_eq by done. cbn.
  unfold set_state. cbn. rewrite clear_all_eq by done. cbn. unfold automatic_restart, start_idle_hold_timer. rewrite Hda.
  eexists. split; [done|]. cbn. split_conj; try done. by rewrite <- !app_assoc.
Qed.
End Run.

(** ** Runs that abort *)
Definition sample_cfg (delay : Z) : PeerConfig := mkConfig delay 90 65001 true None.
Definition sample_peer : Peer := peer_new (ip4 0 0 0 0) 90 30.
Definition sample_open : OpenPacket := mkOpen 4 65001 (ip4 192 0 2 1) 180.
Definition up : list (connect_outcome * event) :=
  [(InProgress, EvStart); (InProgress, EvConnect true); (InProgress, EvMessage (MOpen sample_open))].
Definition any_event (p : Peer) (e : event) : Prop := True.
Definition aborts (delay : Z) (l : list (connect_outcome * event)) (x : xorp_exn) : Prop :=
  run_of (sample_cfg delay) any_event sample_peer l /\ peer_run (sample_cfg delay) sample_peer l = Throw x.

(** The peer closes the connection in OPENSENT; the hold timer goes on and expires
    while the next connect is pending. *)
Definition hold_in_connect : list (connect_outcome * event) :=
  [(InProgress, EvStart); (InProgress, EvConnect true); (InProgress, EvMessage MClosed); (InProgress, EvRetry);
   (InProgress, EvHold); (InProgress, EvIdle)].
(** A collision is resolved in OPENCONFIRM; the keepalive timer of the first
    connection goes on and expires in OPENSENT. *)
Definition swap_in_openconfirm : list (connect_outcome * event) := up ++ [(InProgress, EvSwap); (InProgress, EvKeep)].
(** The peer is started while its idle hold timer runs. *)
Definition start_in_idle_hold : list (connect_outcome * event) :=
  up ++ [(InProgress, EvMessage MClosed); (InProgress, EvStart); (InProgress, EvIdle)].
(** With a delayed open, the peer sends a KEEPALIVE first; or a second connection comes in. *)
Definition keepalive_before_open : list (connect_outcome * event) :=
  [(InProgress, EvStart); (InProgress, EvConnect true); (InProgress, EvMessage MKeepalive)].
Definition second_connection : list (connect_outcome * event) :=
  [(InProgress, EvStart); (InProgress, EvConnect false); (InProgress, EvIncoming); (InProgress, EvIncoming)].

(** Each of these runs from the start consists of events that the environment can deliver, and ends in a false assertion or
    an [XLOG_FATAL]; the last two are those of a delayed open. *)
Lemma peer_runs_that_abort :
  aborts 0 hold_in_connect AssertFailed /\ aborts 0 swap_in_openconfirm Fatal /\ aborts 0 start_in_idle_hold AssertFailed /\
  aborts 5 keepalive_before_open Fatal /\ aborts 5 second_connection AssertFailed.
Proof. split_conj; (split; vm_compute; repeat split). Qed.

(** ** Witnesses *)
Definition safe_run : list (connect_outcome * event) :=
  up ++ [(InProgress, EvMessage MKeepalive); (InProgress, EvKeep); (InProgress, EvMessage (MUpdate 3 0)); (InProgress, EvHold);
         (InProgress, EvSent); (Immediate false, EvIdle); (Immediate true, EvRetry)].

Lemma peer_run_safe_witness : run_of (sample_cfg 0) careful sample_peer safe_run /\
  exists p, peer_run (sample_cfg 0) sample_peer safe_run = Ok p /\ peer_inv (sample_cfg 0) p.
Proof.
  assert (Hr : run_of (sample_cfg 0) careful sample_peer safe_run) by (vm_compute; repeat split; discriminate).
  split; [exact Hr|]. apply (peer_run_safe (sample_cfg 0) safe_run (ip4 0 0 0 0) 90 30 eq_refl Hr).
Defined.

Definition sample_at (n : nat) : Peer :=
  match peer_run (sample_cfg 0) sample_peer (take n safe_run) with Ok p => p | Throw _ => sample_peer end.

Lemma session_by_handshake_witness : state (sample_at 4) = STATEESTABLISHED /\ state (sample_at 3) = STATEOPENCONFIRM.
Proof.
  destruct (session_by_handshake (sample_cfg 0) InProgress (sample_at 3) (EvMessage MKeepalive) (sample_at 4)) as [E|[[_ (o & E & _)]|(E1 & E2 & _)]].
  - vm_compute. reflexivity.
  - reflexivity.
  - discriminate E.
  - discriminate E.
  - exact (conj E1 E2).
Defined.

Lemma session_comes_up_witness : exists p, peer_run (sample_cfg 0) sample_peer (up ++ [(InProgress, EvMessage MKeepalive)]) = Ok p /\
  state p = STATEESTABLISHED /\ hold_duration p = 90.
Proof.
  destruct (session_comes_up (sample_cfg 0) sample_peer sample_open) as (p & E & Hs & _ & _ & Hh & _).
  - reflexivity.
  - apply new_ok.
  - reflexivity.
  - vm_compute. reflexivity.
  - exists p. exact (conj E (conj Hs Hh)).
Defined.

Lemma sample_inv_at : peer_inv (sample_cfg 0) (sample_at 4).
Proof.
  destruct (peer_run_ok (sample_cfg 0) (take 4 safe_run) sample_peer eq_refl (new_ok _ _ _ _)) as (p & E & Hi); [vm_compute; repeat split; discriminate|].
  unfold sample_at. by rewrite E.
Qed.

Lemma sample_inv_confirm : peer_inv (sample_cfg 0) (sample_at 3).
Proof.
  destruct (peer_run_ok (sample_cfg 0) (take 3 safe_run) sample_peer eq_refl (new_ok _ _ _ _)) as (p & E & Hi); [vm_compute; repeat split; discriminate|].
  unfold sample_at. by rewrite E.
Qed.

Lemma careless_event_aborts_witness : exists p e, peer_step (sample_cfg 0) InProgress (sample_at 3) EvSwap = Ok p /\ enabled p e = true /\
  peer_step (sample_cfg 0) InProgress p e = Throw Fatal.
Proof.
  apply (careless_event_aborts (sample_cfg 0) (sample_at 3) EvSwap).
  - reflexivity.
  - exact sample_inv_confirm.
  - reflexivity.
  - intros Hc. apply Hc. reflexivity.
  - reflexivity.
Defined.

Lemma hold_expiry_teardown_witness : exists p, peer_run (sample_cfg 0) (sample_at 4) [(InProgress, EvHold); (InProgress, EvSent)] = Ok p /\
  state p = STATEIDLE.
Proof.
  destruct (hold_expiry_teardown (sample_cfg 0) (sample_at 4)) as (p & E & Hs & _).
  - reflexivity.
  - exact sample_inv_at.
  - reflexivity.
  - vm_compute. discriminate.
  - exists p. exact (conj E Hs).
Defined.
