(* ===== verification/RibTables.v ===== *)
(** * Route entries, origin tables and the final table of the RIB

    Routes (rib/route.hh), the [OriginTable] that stores the routes of one protocol
    (rib/rt_tab_origin.cc), and the [RedistTable] at the end of the plumbing
    (rib/rt_tab_redist.cc), which asserts that additions and deletions alternate.
    Multimaps are sorted lists in which equal keys keep their order of insertion. *)

From Stdlib Require Import ZArith Lia String.
From stdpp Require Import base tactics option list numbers gmap strings.
From S2P Require Import Prelude Addr IPNet OMap Trie.
Local Open Scope Z_scope.
Local Open Scope xorp_scope.

Definition u16 (z : Z) : Z := z mod 65536.

(** ** Routes *)
Inductive ProtocolType := IGP | EGP.
#[global] Instance ProtocolType_eq_dec : EqDecision ProtocolType.
Proof. solve_decision. Defined.

Inductive nexthop_type :=
  | GENERIC_NEXTHOP | PEER_NEXTHOP | ENCAPS_NEXTHOP | EXTERNAL_NEXTHOP | DISCARD_NEXTHOP | UNREACHABLE_NEXTHOP.
#[global] Instance nexthop_type_eq_dec : EqDecision nexthop_type.
Proof. solve_decision. Defined.

Definition UNKNOWN_ADMIN_DISTANCE : Z := 255.
Definition CONNECTED_ADMIN_DISTANCE : Z := 0.

Record IPRouteEntry (A : Type) := mkRoute {
  r_net : IPNet A;
  vif : option string;
  nh_type : nexthop_type;
  nexthop_addr : A;
  protocol : string;
  metric : Z;
  policytags : list Z;
  admin_distance : Z }.
Arguments mkRoute {A}.
Arguments r_net {A}.
Arguments vif {A}.
Arguments nh_type {A}.
Arguments nexthop_addr {A}.
Arguments protocol {A}.
Arguments metric {A}.
Arguments policytags {A}.
Arguments admin_distance {A}.

Definition set_admin_distance {A} (ad : Z) (r : IPRouteEntry A) : IPRouteEntry A :=
  mkRoute (r_net r) (vif r) (nh_type r) (nexthop_addr r) (protocol r) (metric r) (policytags r) ad.

(** ** Entries of the resolution: [res_id] and [unr_id] are their addresses. *)
Record ResolvedIPRouteEntry (A : Type) := mkResolved {
  res_id : Z; res_route : IPRouteEntry A; resolving_parent : IPRouteEntry A; egp_parent : IPRouteEntry A }.
Arguments mkResolved {A}.
Arguments res_id {A}.
Arguments res_route {A}.
Arguments resolving_parent {A}.
Arguments egp_parent {A}.

(** The constructor: subnet and attributes of the external route, interface and next hop of the other. *)
Definition resolved_new {A} (id : Z) (parent route : IPRouteEntry A) : ResolvedIPRouteEntry A :=
  mkResolved id
    (mkRoute (r_net route) (vif parent) (nh_type parent) (nexthop_addr parent) (protocol route) (metric route)
       (policytags route) (admin_distance route))
    parent route.

Record UnresolvedIPRouteEntry (A : Type) := mkUnresolved { unr_id : Z; unr_route : IPRouteEntry A }.
Arguments mkUnresolved {A}.
Arguments unr_id {A}.
Arguments unr_route {A}.

(** ** Multimaps *)
Section Multimap.
Context {K V : Type} `{KeyOrder K}.

(** [insert]: after the entries with the same key. *)
Fixpoint mm_insert (k : K) (v : V) (m : list (K * V)) : list (K * V) :=
  match m with
  | [] => [(k, v)]
  | (k', v') :: m' => if key_ltb k k' then (k, v) :: m else (k', v') :: mm_insert k v m'
  end.
(** [lower_bound]: the entries from the first key that is not smaller. *)
Fixpoint mm_lower_bound (k : K) (m : list (K * V)) : list (K * V) :=
  match m with
  | [] => []
  | (k', v') :: m' => if key_ltb k' k then mm_lower_bound k m' else m
  end.
(** [find]: the first entry with the key. *)
Definition mm_find (k : K) (m : list (K * V)) : option V :=
  match mm_lower_bound k m with
  | (k', v) :: _ => if key_ltb k k' then None else Some v
  | [] => None
  end.
(** An iterator: the entries from the one whose value is at address [i]. *)
Context (id : V -> Z).
Fixpoint mm_at (i : Z) (m : list (K * V)) : option (list (K * V)) :=
  match m with
  | [] => None
  | (k, v) :: m' => if id v =? i then Some m else mm_at i m'
  end.
(** [erase(iterator)] *)
Fixpoint mm_erase_at (i : Z) (m : list (K * V)) : result xorp_exn (list (K * V)) :=
  match m with
  | [] => Throw OutOfBounds
  | (k, v) :: m => if id v =? i then Ok m else m <-! mm_erase_at i m ;; Ok ((k, v) :: m)
  end.
End Multimap.

Section Tables.
Context `{AddrOps A}.
Abbreviation route := (IPRouteEntry A).

#[global] Instance net_key : KeyOrder (IPNet A) := net_ltb.
#[global] Instance rib_addr_key : KeyOrder A := a_ltb.

(** ** The tries of routes *)
Section Tries.
Context {P : Type}.
Definition t_insert (t : Trie A P) (n : IPNet A) (p : P) : result xorp_exn (Trie A P) :=
  match trie_insert t n p with Some (t, _) => Ok t | None => Throw Fatal end.
Definition t_payload (t : Trie A P) (q : option path) : option P :=
  match q with Some q => payload_at q (root t) | None => None end.
Definition t_lookup (t : Trie A P) (n : IPNet A) : option P := t_payload t (trie_lookup_node t n).
Definition t_find (t : Trie A P) (a : A) : option P := t_payload t (trie_find_addr t a).
End Tries.

(** ** OriginTable *)
Record OriginTable := mkOrigin { ot_type : ProtocolType; ot_admin_distance : Z; ip_route_table : Trie A route }.

Definition origin_new (ty : ProtocolType) (ad : Z) : result xorp_exn OriginTable :=
  if 255 <? ad then Throw AssertFailed else Ok (mkOrigin ty ad trie_empty).
Definition lookup_ip_route (ot : OriginTable) (n : IPNet A) : option route := t_lookup (ip_route_table ot) n.
Definition lookup_ip_route_addr (ot : OriginTable) (a : A) : option route := t_find (ip_route_table ot) a.
Definition route_count (ot : OriginTable) : Z := payload_count (ip_route_table ot).

(** The stored half of [add_route]: the route to propagate, unless the subnet has one. *)
Definition origin_store (r : route) (ot : OriginTable) : result xorp_exn (option (OriginTable * route)) :=
  match lookup_ip_route ot (r_net r) with
  | Some _ => Ok None
  | None =>
      let r := set_admin_distance (ot_admin_distance ot) r in
      t <-! t_insert (ip_route_table ot) (r_net r) r ;;
      Ok (Some (mkOrigin (ot_type ot) (ot_admin_distance ot) t, r))
  end.
(** The stored half of [delete_route]. *)
Definition origin_remove (n : IPNet A) (ot : OriginTable) : option (OriginTable * route) :=
  match lookup_ip_route ot n with
  | None => None
  | Some found =>
      Some (mkOrigin (ot_type ot) (ot_admin_distance ot) (trie_erase (ip_route_table ot) n), found)
  end.

(** ** RedistTable *)
Record RedistTable := mkRedist { rt_index : list (IPNet A); rt_routes : Trie A route }.

Definition redist_new : RedistTable := mkRedist [] trie_empty.
Definition indexed (n : IPNet A) (t : RedistTable) : bool := existsb (net_eqb n) (rt_index t).

Definition redist_add_route (r : route) (t : RedistTable) : result xorp_exn RedistTable :=
  if indexed (r_net r) t then Throw AssertFailed
  else
    rs <-! t_insert (rt_routes t) (r_net r) r ;;
    Ok (mkRedist (r_net r :: rt_index t) rs).
Definition redist_delete_route (r : route) (t : RedistTable) : result xorp_exn RedistTable :=
  if indexed (r_net r) t
  then Ok (mkRedist (List.filter (fun n => negb (net_eqb (r_net r) n)) (rt_index t)) (trie_erase (rt_routes t) (r_net r)))
  else Throw AssertFailed.
End Tables.
Arguments OriginTable : clear implicits.
Arguments RedistTable : clear implicits.
