(* ===== verification/ExtInt.v ===== *)
(** * The ExtIntTable of the RIB (rib/rt_tab_extint.cc)

    The table that chooses, for every subnet, the route with the lowest administrative
    distance among the origin tables, and resolves the next hops of external routes.
    The tries hold routes by value.  A resolved or unresolved entry is named by its
    address, and a multimap iterator by the address of the entry it points at; the use
    of an iterator whose entry was erased is [Throw OutOfBounds].  The origin tables are
    read through [origin], which maps a pointer, the type and the name of a table, to
    the table.  What is passed on goes to the final [RedistTable]; the tables between
    (registrations, policy tags) forward every route unchanged.  The codes that the
    handlers return are ignored by their callers and are left out. *)

From Stdlib Require Import ZArith Lia String.
From stdpp Require Import base tactics option list numbers gmap strings.
From S2P Require Import Prelude Addr IPNet OMap Trie RibTables.
Local Open Scope Z_scope.
Local Open Scope xorp_scope.

Abbreviation table_ptr := (ProtocolType * string)%type.

Record ExtIntTable (A : Type) := mkExtInt {
  igp_ad_set : gset Z;
  egp_ad_set : gset Z;
  all_tables : list (Z * table_ptr);
  ip_resolved_table : Trie A (ResolvedIPRouteEntry A);
  ip_unresolved_nexthops : list (A * UnresolvedIPRouteEntry A);
  ip_unresolved_table : list (IPNet A * UnresolvedIPRouteEntry A);
  ip_resolving_parents : list (IPNet A * ResolvedIPRouteEntry A);
  resolving_routes : Trie A (IPRouteEntry A);
  wining_igp_routes : Trie A (IPRouteEntry A);
  wining_routes : Trie A (IPRouteEntry A);
  next_id : Z;
  next_table : RedistTable A }.
Arguments mkExtInt {A}.
Arguments igp_ad_set {A}.
Arguments egp_ad_set {A}.
Arguments all_tables {A}.
Arguments ip_resolved_table {A}.
Arguments ip_unresolved_nexthops {A}.
Arguments ip_unresolved_table {A}.
Arguments ip_resolving_parents {A}.
Arguments resolving_routes {A}.
Arguments wining_igp_routes {A}.
Arguments wining_routes {A}.
Arguments next_id {A}.
Arguments next_table {A}.

Section Setters.
Context {A : Type}.
Implicit Types s : ExtIntTable A.

Definition set_ads i e t s := mkExtInt i e t (ip_resolved_table s) (ip_unresolved_nexthops s)
  (ip_unresolved_table s) (ip_resolving_parents s) (resolving_routes s) (wining_igp_routes s) (wining_routes s)
  (next_id s) (next_table s).
Definition set_resolved rt rp rr i s := mkExtInt (igp_ad_set s) (egp_ad_set s) (all_tables s) rt
  (ip_unresolved_nexthops s) (ip_unresolved_table s) rp rr (wining_igp_routes s) (wining_routes s) i (next_table s).
Definition set_unresolved un ut i s := mkExtInt (igp_ad_set s) (egp_ad_set s) (all_tables s) (ip_resolved_table s)
  un ut (ip_resolving_parents s) (resolving_routes s) (wining_igp_routes s) (wining_routes s) i (next_table s).
Definition set_wining_igp w s := mkExtInt (igp_ad_set s) (egp_ad_set s) (all_tables s) (ip_resolved_table s)
  (ip_unresolved_nexthops s) (ip_unresolved_table s) (ip_resolving_parents s) (resolving_routes s) w
  (wining_routes s) (next_id s) (next_table s).
Definition set_wining w s := mkExtInt (igp_ad_set s) (egp_ad_set s) (all_tables s) (ip_resolved_table s)
  (ip_unresolved_nexthops s) (ip_unresolved_table s) (ip_resolving_parents s) (resolving_routes s)
  (wining_igp_routes s) w (next_id s) (next_table s).
Definition set_next n s := mkExtInt (igp_ad_set s) (egp_ad_set s) (all_tables s) (ip_resolved_table s)
  (ip_unresolved_nexthops s) (ip_unresolved_table s) (ip_resolving_parents s) (resolving_routes s)
  (wining_igp_routes s) (wining_routes s) (next_id s) n.
End Setters.

Section ExtInt.
Context `{AddrOps A}.
Abbreviation route := (IPRouteEntry A).
Implicit Types (s : ExtIntTable A) (r : route).

Definition extint_new : ExtIntTable A :=
  mkExtInt ∅ ∅ [] trie_empty [] [] [] trie_empty trie_empty trie_empty 0 redist_new.

(** ** Lookups *)
Definition lookup_route s (n : IPNet A) : option route := t_lookup (wining_routes s) n.
Definition lookup_route_addr s (a : A) : option route := t_find (wining_routes s) a.
Definition lookup_winning_igp_route_addr s (a : A) : option route := t_find (wining_igp_routes s) a.
Definition lookup_in_resolved_table s (n : IPNet A) : option (ResolvedIPRouteEntry A) := t_lookup (ip_resolved_table s) n.
Definition lookup_by_igp_parent s (n : IPNet A) : option (ResolvedIPRouteEntry A) := mm_find n (ip_resolving_parents s).
(** The entry after the one at [previous], while it has the key [n]. *)
Definition lookup_next_by_igp_parent s (n : IPNet A) (previous : Z)
  : result xorp_exn (option (ResolvedIPRouteEntry A)) :=
  match mm_at res_id previous (ip_resolving_parents s) with
  | None => Throw OutOfBounds
  | Some (_ :: (k, e) :: _) => Ok (if key_ltb n k then None else Some e)
  | Some _ => Ok None
  end.
(** The route for an address and the range of addresses that it is the route of. *)
Definition lookup_route_range s (a : A) : option route * (A * A) :=
  (lookup_route_addr s a, trie_find_bounds (wining_routes s) a).

(** ** Passing routes on, with the matching change of [_wining_routes] *)
Definition pass_add r s : result xorp_exn (ExtIntTable A) :=
  n <-! redist_add_route r (next_table s) ;; Ok (set_next n s).
Definition pass_delete r s : result xorp_exn (ExtIntTable A) :=
  n <-! redist_delete_route r (next_table s) ;; Ok (set_next n s).
Definition win r s : result xorp_exn (ExtIntTable A) :=
  w <-! t_insert (wining_routes s) (r_net r) r ;; pass_add r (set_wining w s).
Definition unwin r s : result xorp_exn (ExtIntTable A) :=
  pass_delete r (set_wining (trie_erase (wining_routes s) (r_net r)) s).

(** ** External routes *)

(** The entry goes into the table unless the subnet has one, and among the next hops in any case. *)
Definition create_unresolved_route r s : ExtIntTable A :=
  let e := mkUnresolved (next_id s) r in
  let t := match m_find (r_net r) (ip_unresolved_table s) with
           | Some _ => ip_unresolved_table s
           | None => m_insert (r_net r) e (ip_unresolved_table s)
           end in
  set_unresolved (mm_insert (nexthop_addr r) e (ip_unresolved_nexthops s)) t (next_id s + 1) s.

Definition resolve_and_store_route r nexthop_route s : result xorp_exn (ExtIntTable A * ResolvedIPRouteEntry A) :=
  let e := resolved_new (next_id s) nexthop_route r in
  rt <-! t_insert (ip_resolved_table s) (r_net (res_route e)) e ;;
  rr <-! match t_lookup (resolving_routes s) (r_net nexthop_route) with
         | None => t_insert (resolving_routes s) (r_net nexthop_route) nexthop_route
         | Some _ => Ok (resolving_routes s)
         end ;;
  Ok (set_resolved rt (mm_insert (r_net nexthop_route) e (ip_resolving_parents s)) rr (next_id s + 1) s, e).

(** The route with the worse distance makes room: [None] when the one found is better. *)
Definition make_room r s : result xorp_exn (option (ExtIntTable A)) :=
  match lookup_route s (r_net r) with
  | None => Ok (Some s)
  | Some found =>
      if admin_distance found <? admin_distance r then Ok None
      else if admin_distance found =? admin_distance r then Throw AssertFailed
      else s <-! unwin found s ;; Ok (Some s)
  end.

Definition add_direct_egp_route r s : result xorp_exn (ExtIntTable A) :=
  room <-! make_room r s ;;
  match room with None => Ok s | Some s => win r s end.

Definition add_indirect_egp_route r s : result xorp_exn (ExtIntTable A) :=
  match lookup_winning_igp_route_addr s (nexthop_addr r) with
  | None => Ok (create_unresolved_route r s)
  | Some nexthop_route =>
      room <-! make_room r s ;;
      match room with
      | None => Ok s
      | Some s => p <-! resolve_and_store_route r nexthop_route s ;; win (res_route (snd p)) (fst p)
      end
  end.

Definition add_egp_route r s : result xorp_exn (ExtIntTable A) :=
  if negb (bool_decide (admin_distance r ∈ egp_ad_set s)) then Throw AssertFailed
  else if bool_decide (nh_type r = PEER_NEXTHOP) then add_direct_egp_route r s
  else add_indirect_egp_route r s.

Definition delete_unresolved_nexthop r s : result xorp_exn (option (ExtIntTable A)) :=
  match m_find (r_net r) (ip_unresolved_table s) with
  | None => Ok None
  | Some e =>
      un <-! mm_erase_at unr_id (unr_id e) (ip_unresolved_nexthops s) ;;
      Ok (Some (set_unresolved un (m_erase (r_net r) (ip_unresolved_table s)) (next_id s) s))
  end.

(** The entry leaves the resolved table and the multimap. *)
Definition drop_resolved (e : ResolvedIPRouteEntry A) s : result xorp_exn (ExtIntTable A) :=
  rp <-! mm_erase_at res_id (res_id e) (ip_resolving_parents s) ;;
  Ok (set_resolved (trie_erase (ip_resolved_table s) (r_net (res_route e))) rp (resolving_routes s) (next_id s) s).
(** Its parent resolves nothing any more. *)
Definition forget_parent (e : ResolvedIPRouteEntry A) s : ExtIntTable A :=
  let p := r_net (resolving_parent e) in
  match lookup_by_igp_parent s p with
  | None => set_resolved (ip_resolved_table s) (ip_resolving_parents s) (trie_erase (resolving_routes s) p) (next_id s) s
  | Some _ => s
  end.

(** [delete_ext_route] with [winning_route], its only use; the flag says whether a route was withdrawn. *)
Definition delete_ext_route r s : result xorp_exn (ExtIntTable A * bool) :=
  match lookup_in_resolved_table s (r_net r) with
  | Some e =>
      s <-! drop_resolved e s ;;
      s <-! unwin (res_route e) (forget_parent e s) ;;
      Ok (s, true)
  | None =>
      u <-! delete_unresolved_nexthop r s ;;
      match u with
      | Some s => Ok (s, false)
      | None =>
          let s := set_wining (trie_erase (wining_routes s) (r_net r)) s in
          s <-! (if bool_decide (admin_distance r ∈ egp_ad_set s) || bool_decide (admin_distance r ∈ igp_ad_set s)
                 then pass_delete r s else Ok s) ;;
          Ok (s, true)
      end
  end.

(** ** Next hops *)

(** The loop of [recalculate_nexthops]; [last] is [last_not_deleted]. *)
Fixpoint recalculate_loop (fuel : nat) (new old : IPNet A) (last : option Z) (found : option (ResolvedIPRouteEntry A)) s
  : result xorp_exn (ExtIntTable A) :=
  match found with
  | None => Ok s
  | Some e =>
      match fuel with
      | O => Throw Fatal
      | S fuel =>
          let p := egp_parent e in
          if bool_decide (nh_type p = DISCARD_NEXTHOP) || bool_decide (nh_type p = UNREACHABLE_NEXTHOP)
          then Throw AssertFailed
          else
            x <-! (if net_contains_addr new (nexthop_addr p) then
                     s <-! drop_resolved e s ;;
                     s <-! unwin (res_route e) (forget_parent e s) ;;
                     s <-! add_egp_route p s ;;
                     Ok (s, last)
                   else Ok (s, Some (res_id e))) ;;
            let s := fst x in
            found <-! match snd x with
                      | None => Ok (lookup_by_igp_parent s old)
                      | Some i => lookup_next_by_igp_parent s old i
                      end ;;
            recalculate_loop fuel new old (snd x) found s
      end
  end.
Definition recalculate_nexthops r s : result xorp_exn (ExtIntTable A) :=
  match t_payload (resolving_routes s) (trie_find_less_specific (resolving_routes s) (r_net r)) with
  | None => Ok s
  | Some old =>
      recalculate_loop (S (List.length (ip_resolving_parents s))) (r_net r) (r_net old) None
        (lookup_by_igp_parent s (r_net old)) s
  end.

(** The loop of [resolve_unresolved_nexthops] from the entry at [rpair]. *)
Definition position (m : list (A * UnresolvedIPRouteEntry A)) : option Z :=
  match m with [] => None | (_, e) :: _ => Some (unr_id e) end.

Fixpoint resolve_loop (fuel : nat) (n : IPNet A) (rpair : option Z) s : result xorp_exn (ExtIntTable A) :=
  match rpair with
  | None => Ok s
  | Some i =>
      match fuel, mm_at unr_id i (ip_unresolved_nexthops s) with
      | O, _ => Throw Fatal
      | S fuel, Some ((nexthop, e) :: rest) =>
          masked <-! a_mask_by_prefix_len nexthop (prefix_len n) ;;
          if a_eqb (masked_addr n) masked then
            un <-! mm_erase_at unr_id i (ip_unresolved_nexthops s) ;;
            let r := unr_route e in
            s <-! add_egp_route r (set_unresolved un (m_erase (r_net r) (ip_unresolved_table s)) (next_id s) s) ;;
            resolve_loop fuel n (position rest) s
          else if a_ltb (masked_addr n) masked then Ok s
          else resolve_loop fuel n (position rest) s
      | S _, _ => Throw OutOfBounds
      end
  end.
Definition resolve_unresolved_nexthops r s : result xorp_exn (ExtIntTable A) :=
  let m := ip_unresolved_nexthops s in
  resolve_loop (S (List.length m)) (r_net r) (position (mm_lower_bound (masked_addr (r_net r)) m)) s.

(** The loop of [delete_resolved_routes]: the routes resolved through [n] are added again, or wait. *)
Fixpoint delete_resolved_loop (fuel : nat) (n : IPNet A) (b : bool) (found : option (ResolvedIPRouteEntry A)) s
  : result xorp_exn (ExtIntTable A) :=
  match found with
  | None => Ok s
  | Some e =>
      match fuel with
      | O => Throw Fatal
      | S fuel =>
          s <-! drop_resolved e s ;;
          s <-! unwin (res_route e) s ;;
          s <-! (if b then Ok (create_unresolved_route (egp_parent e) s) else add_egp_route (egp_parent e) s) ;;
          delete_resolved_loop fuel n b (lookup_by_igp_parent s n) s
      end
  end.
Definition delete_resolved_routes r (b : bool) s : result xorp_exn (ExtIntTable A) :=
  let found := lookup_by_igp_parent s (r_net r) in
  let s := match found with
           | Some _ => set_resolved (ip_resolved_table s) (ip_resolving_parents s)
                         (trie_erase (resolving_routes s) (r_net r)) (next_id s) s
           | None => s
           end in
  delete_resolved_loop (S (List.length (ip_resolving_parents s))) (r_net r) b found s.

(** ** Internal routes *)

(** [None]: the route is not the winning internal one. *)
Definition deleting_best_igp_route r s : option (ExtIntTable A) :=
  match t_lookup (wining_igp_routes s) (r_net r) with
  | None => None
  | Some w =>
      if admin_distance w =? admin_distance r
      then Some (set_wining_igp (trie_erase (wining_igp_routes s) (r_net r)) s) else None
  end.

Section Masked.
Context (origin : table_ptr -> option (OriginTable A)).

(** The tables with a larger distance than that of [r], in order. *)
Definition worse_tables r s : list (Z * table_ptr) :=
  filter (fun p => admin_distance r < fst p) (all_tables s).
Fixpoint first_route (n : IPNet A) (ts : list (Z * table_ptr)) : result xorp_exn (option route) :=
  match ts with
  | [] => Ok None
  | (_, p) :: ts =>
      match origin p with
      | None => Throw OutOfBounds
      | Some ot => match lookup_ip_route ot n with Some r => Ok (Some r) | None => first_route n ts end
      end
  end.
Definition masked_route r s : result xorp_exn (option route) :=
  match m_find (admin_distance r) (all_tables s) with
  | None => Throw AssertFailed
  | Some _ => first_route (r_net r) (worse_tables r s)
  end.

(** The masked route is added by the handler of its kind. *)
Definition readd (add_igp : route -> ExtIntTable A -> result xorp_exn (ExtIntTable A)) (found : option route) s
  : result xorp_exn (ExtIntTable A) :=
  match found with
  | None => Ok s
  | Some r =>
      if bool_decide (admin_distance r ∈ igp_ad_set s) then add_igp r s
      else if bool_decide (admin_distance r ∈ egp_ad_set s) then add_egp_route r s
      else Throw AssertFailed
  end.

(** [add_igp] is [add_igp_route], which is called only when [b] is false. *)
Definition delete_best_igp_route (add_igp : route -> ExtIntTable A -> result xorp_exn (ExtIntTable A)) r (b : bool) s
  : result xorp_exn (ExtIntTable A) :=
  if negb (bool_decide (admin_distance r ∈ igp_ad_set s)) then Throw AssertFailed
  else match lookup_route s (r_net r) with
  | None => Ok s
  | Some found =>
      if admin_distance found <? admin_distance r then Ok s
      else if negb (admin_distance found =? admin_distance r) then Throw AssertFailed
      else
        s <-! unwin r s ;;
        s <-! (if bool_decide (egp_ad_set s = ∅) then Ok s else delete_resolved_routes r b s) ;;
        if b then Ok s else m <-! masked_route r s ;; readd add_igp m s
  end.
Definition delete_igp_route_with add_igp r (b : bool) s : result xorp_exn (ExtIntTable A) :=
  match deleting_best_igp_route r s with
  | None => Ok s
  | Some s => delete_best_igp_route add_igp r b s
  end.

(** The flag: the route is the winning internal one. *)
Definition best_igp_route r s : result xorp_exn (ExtIntTable A * bool) :=
  match t_lookup (wining_igp_routes s) (r_net r) with
  | None => w <-! t_insert (wining_igp_routes s) (r_net r) r ;; Ok (set_wining_igp w s, true)
  | Some old =>
      if admin_distance r <? admin_distance old then
        s <-! delete_igp_route_with (fun _ s => Ok s) old true s ;;
        w <-! t_insert (wining_igp_routes s) (r_net r) r ;;
        Ok (set_wining_igp w s, true)
      else Ok (s, admin_distance old =? admin_distance r)
  end.

Definition add_igp_route r s : result xorp_exn (ExtIntTable A) :=
  if negb (bool_decide (admin_distance r ∈ igp_ad_set s)) then Throw AssertFailed
  else if bool_decide (nh_type r = EXTERNAL_NEXTHOP) then Throw AssertFailed
  else
    x <-! best_igp_route r s ;;
    let s := fst x in
    if negb (snd x) then Ok s
    else
      let external := negb (bool_decide (egp_ad_set s = ∅)) in
      y <-! (if external then
               match lookup_route s (r_net r) with
               | None => Ok (Some s)
               | Some found =>
                   if admin_distance found <? admin_distance r then Ok None
                   else if admin_distance found =? admin_distance r then Throw AssertFailed
                   else d <-! delete_ext_route found s ;; Ok (Some (fst d))
               end
             else Ok (Some s)) ;;
      match y with
      | None => Ok s
      | Some s =>
          s <-! win r s ;;
          if external then s <-! recalculate_nexthops r s ;; resolve_unresolved_nexthops r s else Ok s
      end.

Definition delete_igp_route : route -> bool -> ExtIntTable A -> result xorp_exn (ExtIntTable A) :=
  delete_igp_route_with add_igp_route.

Definition delete_egp_route r (b : bool) s : result xorp_exn (ExtIntTable A) :=
  if negb (bool_decide (admin_distance r ∈ egp_ad_set s)) then Throw AssertFailed
  else if match lookup_route s (r_net r) with Some f => admin_distance f <? admin_distance r | None => false end
  then Ok s
  else if b then Ok s
  else
    m <-! masked_route r s ;;
    d <-! delete_ext_route r s ;;
    if snd d then readd add_igp_route m (fst d) else Ok (fst d).
End Masked.

(** ** Tables *)
Definition add_protocol_table (p : table_ptr) (ad : Z) s : result xorp_exn (ExtIntTable A) :=
  let same := match fst p with IGP => igp_ad_set s | EGP => egp_ad_set s end in
  if bool_decide (ad ∈ same) then Throw AssertFailed
  else if bool_decide (is_Some (m_find ad (all_tables s))) then Throw AssertFailed
  else
    let t := m_insert ad p (all_tables s) in
    Ok match fst p with
       | IGP => set_ads ({[ad]} ∪ igp_ad_set s) (egp_ad_set s) t s
       | EGP => set_ads (igp_ad_set s) ({[ad]} ∪ egp_ad_set s) t s
       end.

(** [change_admin_distance] of the empty table at [p], whose distance is [old]; [None] is an error. *)
Definition change_admin_distance (p : table_ptr) (old ad : Z) s : result xorp_exn (option (ExtIntTable A)) :=
  let same := match fst p with IGP => igp_ad_set s | EGP => egp_ad_set s end in
  if negb (bool_decide (old ∈ same)) then Ok None
  else
    let ad := u16 ad in
    let same := {[ad]} ∪ (same ∖ {[old]}) in
    if negb (bool_decide (m_find old (all_tables s) = Some p)) then Throw AssertFailed
    else
      let t := m_insert ad p (m_erase old (all_tables s)) in
      Ok (Some match fst p with
          | IGP => set_ads same (egp_ad_set s) t s
          | EGP => set_ads (igp_ad_set s) same t s
          end).
End ExtInt.
