(* ===== verification/Rib.v ===== *)
(** * The RIB (rib/rib.cc)

    [RIB<A>]: the origin tables by name, the table that merges them, the administrative
    distances and the network interfaces.  An operation that ends with [XORP_ERROR]
    returns [false] with the state it leaves.  The accounting of the interfaces that
    routes still use after their deletion, the target instances and the shutdown of a
    protocol are not modelled. *)

From Stdlib Require Import ZArith Lia String.
From stdpp Require Import base tactics option list numbers gmap strings.
From S2P Require Import Prelude Addr IPNet OMap Trie RibTables ExtInt.
Local Open Scope Z_scope.
Local Open Scope xorp_scope.

(** An address of an interface (libxorp/vif.hh), and the interface. *)
Record VifAddr (A : Type) := mkVifAddr { va_addr : A; va_subnet : IPNet A; va_broadcast : A; va_peer : A }.
Arguments mkVifAddr {A}.
Arguments va_addr {A}.
Arguments va_subnet {A}.
Arguments va_broadcast {A}.
Arguments va_peer {A}.

Record RibVif (A : Type) := mkVif { is_p2p : bool; is_underlying_vif_up : bool; addr_list : list (VifAddr A) }.
Arguments mkVif {A}.
Arguments is_p2p {A}.
Arguments is_underlying_vif_up {A}.
Arguments addr_list {A}.

Record RIB (A : Type) `{AddrOps A} := mkRIB {
  igp_origin_tables : gmap string (OriginTable A);
  egp_origin_tables : gmap string (OriginTable A);
  ext_int_table : ExtIntTable A;
  admin_distances : gmap string Z;
  vifs : gmap string (RibVif A);
  errors_are_fatal : bool }.
Arguments mkRIB {A _}.
Arguments igp_origin_tables {A _}.
Arguments egp_origin_tables {A _}.
Arguments ext_int_table {A _}.
Arguments admin_distances {A _}.
Arguments vifs {A _}.
Arguments errors_are_fatal {A _}.

Section Rib.
Context `{AddrOps A}.
Abbreviation route := (IPRouteEntry A).
Implicit Types (s : RIB A).

(** ** Tables *)
Definition find_table s (p : table_ptr) : option (OriginTable A) :=
  match fst p with IGP => igp_origin_tables s !! snd p | EGP => egp_origin_tables s !! snd p end.
Definition find_origin_table s (name : string) : option table_ptr :=
  match egp_origin_tables s !! name with
  | Some _ => Some (EGP, name)
  | None => match igp_origin_tables s !! name with Some _ => Some (IGP, name) | None => None end
  end.
Definition set_table (p : table_ptr) (ot : OriginTable A) s : RIB A :=
  match fst p with
  | IGP => mkRIB (<[snd p := ot]> (igp_origin_tables s)) (egp_origin_tables s) (ext_int_table s) (admin_distances s)
             (vifs s) (errors_are_fatal s)
  | EGP => mkRIB (igp_origin_tables s) (<[snd p := ot]> (egp_origin_tables s)) (ext_int_table s) (admin_distances s)
             (vifs s) (errors_are_fatal s)
  end.
Definition set_ext e s : RIB A :=
  mkRIB (igp_origin_tables s) (egp_origin_tables s) e (admin_distances s) (vifs s) (errors_are_fatal s).
Definition set_vifs v s : RIB A :=
  mkRIB (igp_origin_tables s) (egp_origin_tables s) (ext_int_table s) (admin_distances s) v (errors_are_fatal s).
Definition set_distances d s : RIB A :=
  mkRIB (igp_origin_tables s) (egp_origin_tables s) (ext_int_table s) d (vifs s) (errors_are_fatal s).

Definition get_protocol_admin_distance s (name : string) : Z :=
  match admin_distances s !! name with Some ad => ad | None => UNKNOWN_ADMIN_DISTANCE end.

(** [add_origin_table], [new_origin_table] and [plumb_origin_table]; an existing table is used again. *)
Definition add_origin_table (ty : ProtocolType) (name : string) s : result xorp_exn (RIB A) :=
  match find_table s (ty, name) with
  | Some _ => Ok s
  | None =>
      ot <-! origin_new ty (u16 (get_protocol_admin_distance s name)) ;;
      e <-! add_protocol_table (ty, name) (ot_admin_distance ot) (ext_int_table s) ;;
      Ok (set_ext e (set_table (ty, name) ot s))
  end.
Definition add_igp_table (name : string) s : result xorp_exn (RIB A) := add_origin_table IGP name s.
Definition add_egp_table (name : string) s : result xorp_exn (RIB A) := add_origin_table EGP name s.

Definition set_protocol_admin_distance (name : string) (ad : Z) s : result xorp_exn (RIB A * bool) :=
  let remember s := Ok (set_distances (<[name := ad]> (admin_distances s)) s, true) in
  match admin_distances s !! name with
  | None => remember s
  | Some _ =>
      match find_origin_table s name with
      | None => remember s
      | Some p =>
          match find_table s p with
          | None => Throw OutOfBounds
          | Some ot =>
              if 0 <? route_count ot then Ok (s, false)
              else
                c <-! change_admin_distance p (ot_admin_distance ot) ad (ext_int_table s) ;;
                match c with
                | None => Ok (s, false)
                | Some e => remember (set_ext e (set_table p (mkOrigin (ot_type ot) (u16 ad) (ip_route_table ot)) s))
                end
          end
      end
  end.

(** The distances a RIB starts with; that of static routes may come from the environment. *)
Definition default_distances (static_distance : Z) : gmap string Z :=
  list_to_map [("connected"%string, CONNECTED_ADMIN_DISTANCE); ("static"%string, static_distance);
    ("eigrp-summary"%string, 5); ("ebgp"%string, 20); ("eigrp-internal"%string, 90); ("igrp"%string, 100);
    ("ospf"%string, 110); ("is-is"%string, 115); ("rip"%string, 120); ("eigrp-external"%string, 170);
    ("ibgp"%string, 200); ("fib2mrib"%string, 254); ("unknown"%string, UNKNOWN_ADMIN_DISTANCE)].
(** The constructor and [initialize]. *)
Definition rib_new (static_distance : Z) (fatal : bool) : result xorp_exn (RIB A) :=
  add_igp_table "connected"%string
    (mkRIB ∅ ∅ extint_new (default_distances static_distance) ∅ fatal).

(** ** Routes of an origin table: the handlers of the next table follow the type of the table. *)
Definition ot_add_route (p : table_ptr) (r : route) s : result xorp_exn (RIB A * bool) :=
  match find_table s p with
  | None => Throw OutOfBounds
  | Some ot =>
      x <-! origin_store r ot ;;
      match x with
      | None => Ok (s, false)
      | Some (ot, r) =>
          let s := set_table p ot s in
          e <-! match fst p with
                | IGP => add_igp_route (find_table s) r (ext_int_table s)
                | EGP => add_egp_route r (ext_int_table s)
                end ;;
          Ok (set_ext e s, true)
      end
  end.
Definition ot_delete_route (p : table_ptr) (n : IPNet A) (b : bool) s : result xorp_exn (RIB A * bool) :=
  match find_table s p with
  | None => Throw OutOfBounds
  | Some ot =>
      match origin_remove n ot with
      | None => Ok (s, false)
      | Some (ot, found) =>
          let s := set_table p ot s in
          e <-! match fst p with
                | IGP => delete_igp_route (find_table s) found b (ext_int_table s)
                | EGP => delete_egp_route (find_table s) found b (ext_int_table s)
                end ;;
          Ok (set_ext e s, true)
      end
  end.

(** ** Routes of a protocol *)

(** The name of the interface is empty when none is given. *)
Definition rib_add_route (tablename : string) (n : IPNet A) (nexthop : A) (vifname : string) (m : Z) (tags : list Z) s
  : result xorp_exn (RIB A * bool) :=
  match igp_origin_tables s !! "connected"%string, find_origin_table s tablename with
  | None, _ => Throw AssertFailed
  | Some _, None => if errors_are_fatal s then Throw Fatal else Ok (s, false)
  | Some connected, Some p =>
      let add v ty :=
        x <-! ot_add_route p (mkRoute n v ty nexthop tablename m tags UNKNOWN_ADMIN_DISTANCE) s ;; Ok (fst x, true) in
      if negb (bool_decide (vifname = ""%string)) then
        match vifs s !! vifname with
        | None => Ok (s, false)
        | Some _ => add (Some vifname) PEER_NEXTHOP
        end
      else
        match match lookup_ip_route_addr connected nexthop with Some re => vif re | None => None end with
        | Some v => add (Some v) PEER_NEXTHOP
        | None =>
            match fst p with
            | IGP => Ok (s, false)
            | EGP => add None EXTERNAL_NEXTHOP
            end
        end
  end.

Definition rib_delete_route (tablename : string) (n : IPNet A) s : result xorp_exn (RIB A * bool) :=
  match find_origin_table s tablename with
  | None => Ok (s, false)
  | Some p => ot_delete_route p n false s
  end.

Definition rib_replace_route (tablename : string) (n : IPNet A) (nexthop : A) (vifname : string) (m : Z)
  (tags : list Z) s : result xorp_exn (RIB A * bool) :=
  match find_origin_table s tablename with
  | None => Ok (s, false)
  | Some p =>
      x <-! ot_delete_route p n true s ;;
      if snd x then rib_add_route tablename n nexthop vifname m tags (fst x) else Ok x
  end.

(** The next hop toward an address: [A::ZERO()] when there is none. *)
Definition rib_lookup_route s (a : A) : A :=
  match lookup_route_addr (ext_int_table s) a with
  | Some r => match vif r with Some _ => nexthop_addr r | None => a_zero end
  | None => a_zero
  end.

(** ** Interfaces and their connected routes *)

Definition peer_net (w : RibVif A) (n : IPNet A) (peer : A) : result xorp_exn (option (IPNet A)) :=
  if is_p2p w && negb (a_eqb peer a_zero) && negb (net_contains_addr n peer)
  then h <-! net_new peer addr_bitlen ;; Ok (Some h) else Ok None.

Definition add_connected_route (name : string) (w : RibVif A) (n : IPNet A) (nexthop peer : A) s
  : result xorp_exn (RIB A) :=
  x <-! rib_add_route "connected"%string n nexthop name 0 [] s ;;
  h <-! peer_net w n peer ;;
  match h with
  | None => Ok (fst x)
  | Some h => x <-! rib_add_route "connected"%string h peer name 0 [] (fst x) ;; Ok (fst x)
  end.
Definition delete_connected_route (w : RibVif A) (n : IPNet A) (peer : A) s : result xorp_exn (RIB A) :=
  x <-! rib_delete_route "connected"%string n s ;;
  h <-! peer_net w n peer ;;
  match h with
  | None => Ok (fst x)
  | Some h => x <-! rib_delete_route "connected"%string h (fst x) ;; Ok (fst x)
  end.

Fixpoint add_connected_routes (name : string) (w : RibVif A) (l : list (VifAddr A)) s : result xorp_exn (RIB A) :=
  match l with
  | [] => Ok s
  | a :: l => s <-! add_connected_route name w (va_subnet a) (va_addr a) (va_peer a) s ;; add_connected_routes name w l s
  end.
Fixpoint delete_connected_routes (w : RibVif A) (l : list (VifAddr A)) s : result xorp_exn (RIB A) :=
  match l with
  | [] => Ok s
  | a :: l => s <-! delete_connected_route w (va_subnet a) (va_peer a) s ;; delete_connected_routes w l s
  end.

Definition new_vif (name : string) (w : RibVif A) s : result xorp_exn (RIB A * bool) :=
  match vifs s !! name with
  | Some _ => Ok (s, false)
  | None =>
      let s := set_vifs (<[name := w]> (vifs s)) s in
      s <-! (if is_underlying_vif_up w then add_connected_routes name w (addr_list w) s else Ok s) ;;
      Ok (s, true)
  end.
Definition delete_vif (name : string) s : result xorp_exn (RIB A * bool) :=
  match vifs s !! name with
  | None => Ok (s, false)
  | Some w =>
      s <-! (if is_underlying_vif_up w then delete_connected_routes w (addr_list w) s else Ok s) ;;
      Ok (set_vifs (delete name (vifs s)) s, true)
  end.
Definition set_vif_flags (name : string) (p2p up : bool) s : result xorp_exn (RIB A * bool) :=
  match vifs s !! name with
  | None => Ok (s, false)
  | Some w =>
      let w' := mkVif p2p up (addr_list w) in
      let s := set_vifs (<[name := w']> (vifs s)) s in
      if Bool.eqb (is_underlying_vif_up w) up then Ok (s, true)
      else
        s <-! (if up then add_connected_routes name w' (addr_list w) s
               else delete_connected_routes w' (addr_list w) s) ;;
        Ok (s, true)
  end.

Definition vif_addr_eqb (x y : VifAddr A) : bool :=
  a_eqb (va_addr x) (va_addr y) && net_eqb (va_subnet x) (va_subnet y)
  && a_eqb (va_broadcast x) (va_broadcast y) && a_eqb (va_peer x) (va_peer y).
Definition vif_add_address (a : VifAddr A) (w : RibVif A) : RibVif A :=
  if existsb (vif_addr_eqb a) (addr_list w) then w
  else mkVif (is_p2p w) (is_underlying_vif_up w) (addr_list w ++ [a]).
Fixpoint erase_address (a : A) (l : list (VifAddr A)) : list (VifAddr A) :=
  match l with [] => [] | x :: l => if a_eqb (va_addr x) a then l else x :: erase_address a l end.

Definition add_vif_address (name : string) (a : VifAddr A) s : result xorp_exn (RIB A * bool) :=
  match vifs s !! name with
  | None => Ok (s, false)
  | Some w =>
      let w := vif_add_address a w in
      let s := set_vifs (<[name := w]> (vifs s)) s in
      s <-! (if is_underlying_vif_up w then add_connected_route name w (va_subnet a) (va_addr a) (va_peer a) s
             else Ok s) ;;
      Ok (s, true)
  end.
Definition delete_vif_address (name : string) (a : A) s : result xorp_exn (RIB A * bool) :=
  match vifs s !! name with
  | None => Ok (s, false)
  | Some w =>
      match List.find (fun x => a_eqb (va_addr x) a) (addr_list w) with
      | None => Ok (s, false)
      | Some x =>
          let w := mkVif (is_p2p w) (is_underlying_vif_up w) (erase_address a (addr_list w)) in
          let s := set_vifs (<[name := w]> (vifs s)) s in
          s <-! (if is_underlying_vif_up w then delete_connected_route w (va_subnet x) (va_peer x) s else Ok s) ;;
          Ok (s, true)
      end
  end.
End Rib.
