(* ===== verification/ExtIntProps.v ===== *)
(** * What the ExtIntTable does when every next hop is directly connected

    [rep e W I]: the table [e] represents the winning routes [W] and the winning
    internal routes [I], as finite maps, its final table holds [W], and no route waits
    for a resolution.  Each handler is characterised on these maps. *)

From Stdlib Require Import ZArith Lia String.
From stdpp Require Import base tactics option list numbers gmap strings.
From S2P Require Import Prelude Addr IPNet OMap Trie TrieSpec TrieMap RibTables ExtInt.
Local Open Scope Z_scope.
Local Open Scope xorp_scope.

(** ** Tries of routes *)
Section TrieFacts.
Context `{AddrSpec A} {P : Type}.
Implicit Types (t : Trie A P) (n : IPNet A).

Lemma t_insert_ok t n p : trie_ok t -> net_wf n ->
  exists t', t_insert t n p = Ok t' /\ trie_ok t' /\ trie_model t' = <[net_id n := p]> (trie_model t).
Proof.
  intros Ht Hn. destruct (insert_ok t n p Ht Hn) as (t' & q & l & r & E & Ht' & Em & _).
  exists t'. unfold t_insert. by rewrite E.
Qed.

Lemma t_lookup_model t n : trie_ok t -> net_wf n -> t_lookup t n = trie_model t !! net_id n.
Proof.
  intros Ht Hn. unfold t_lookup, t_payload. pose proof (lookup_node_cases t n Ht Hn) as Hc.
  destruct (trie_lookup_node t n) as [q|]; [|done]. destruct Hc as (v & l & r & E & ->).
  unfold payload_at. by rewrite E.
Qed.

(** Erasing a stored subnet by its key. *)
Lemma t_erase_ok t n v : trie_ok t -> net_wf n -> trie_model t !! net_id n = Some v ->
  trie_ok (trie_erase t n) /\ trie_model (trie_erase t n) = delete (net_id n) (trie_model t).
Proof.
  intros Ht Hn Hv. destruct (erase_key_ok t n Ht Hn) as [Hok Hs]. split; [done|].
  inversion Hs as [| |? ? k w (Hk & Hw & Hc & Hmax) E1 E2|? ? Hno|]; subst.
  - pose proof (Hmax n v Hn Hv (contains_refl n Hn)) as Hle.
    destruct (net_eqb k n) eqn:E; [by apply net_eqb_spec in E as ->|]. exfalso.
    assert (n <> k) as Hne by (intros ->; by rewrite (proj2 (net_eqb_spec k k Hk Hk) eq_refl) in E).
    pose proof (contains_strict_len n k Hn Hk Hc Hne). lia.
  - specialize (Hno n v Hn Hv). by rewrite contains_refl in Hno.
Qed.

Lemma t_find_model t a : trie_ok t -> a_wf a ->
  match t_find t a with
  | Some v => exists k, net_wf k /\ trie_model t !! net_id k = Some v /\ in_net (a_val a) k
      /\ forall n w, net_wf n -> trie_model t !! net_id n = Some w -> in_net (a_val a) n -> prefix_len n <= prefix_len k
  | None => forall n w, net_wf n -> trie_model t !! net_id n = Some w -> ~ in_net (a_val a) n
  end.
Proof.
  intros Ht Ha. unfold t_find, t_payload. pose proof (find_addr_cases t a Ht Ha) as Hc.
  destruct (trie_find_addr t a) as [q|]; [|done]. destruct Hc as (k & v & l & r & E & Hv & Hin & Hmax).
  unfold payload_at. rewrite E. exists k. split; [|done].
  by destruct (node_at_model q (root t) k v l r (proj1 Ht) E).
Qed.
End TrieFacts.

Section Rep.
Context `{AddrSpec A}.
Abbreviation route := (IPRouteEntry A).
Abbreviation routes := (gmap (Z * Z) (IPRouteEntry A)).
Implicit Types (e : ExtIntTable A) (r : route) (W I : routes).

Definition key_of r : Z * Z := net_id (r_net r).

(** Nothing is resolved or waits for a resolution. *)
Definition no_resolution e : Prop :=
  trie_ok (ip_resolved_table e) /\ trie_model (ip_resolved_table e) = ∅ /\ ip_unresolved_nexthops e = []
  /\ ip_unresolved_table e = [] /\ ip_resolving_parents e = [] /\ trie_ok (resolving_routes e)
  /\ trie_model (resolving_routes e) = ∅.

(** The final table holds the routes of [W]. *)
Definition redist_ok (t : RedistTable A) W : Prop :=
  trie_ok (rt_routes t) /\ trie_model (rt_routes t) = W /\ Forall net_wf (rt_index t)
  /\ forall k, is_Some (W !! k) <-> exists n, n ∈ rt_index t /\ net_id n = k.

Definition rep e W I : Prop :=
  no_resolution e /\ trie_ok (wining_routes e) /\ trie_model (wining_routes e) = W
  /\ trie_ok (wining_igp_routes e) /\ trie_model (wining_igp_routes e) = I /\ redist_ok (next_table e) W.

(** The tables and their distances are the same. *)
Definition same_ads e e' : Prop :=
  igp_ad_set e' = igp_ad_set e /\ egp_ad_set e' = egp_ad_set e /\ all_tables e' = all_tables e.

Lemma same_ads_refl e : same_ads e e.
Proof. done. Qed.
Lemma same_ads_trans e1 e2 e3 : same_ads e1 e2 -> same_ads e2 e3 -> same_ads e1 e3.
Proof. intros (? & ? & ?) (? & ? & ?). unfold same_ads. split_conj; congruence. Qed.

Lemma indexed_spec t W n : redist_ok t W -> net_wf n -> indexed n t = true <-> is_Some (W !! net_id n).
Proof.
  intros (_ & _ & Hf & Hi) Hn. rewrite Hi. unfold indexed. rewrite existsb_exists. rewrite Forall_forall in Hf. split.
  - intros (x & Hin & E). apply list_elem_of_In in Hin. apply net_eqb_spec in E as <-; eauto.
  - intros (x & Hin & E). exists x. split; [by apply list_elem_of_In|]. apply net_eqb_spec; eauto.
    symmetry. eapply net_id_inj; eauto.
Qed.

Lemma redist_new_ok : redist_ok redist_new ∅.
Proof.
  unfold redist_ok. split_conj; [done|done|by constructor|]. intros k. rewrite lookup_empty. split; [by intros [? ?]|].
  by intros (n & ?%elem_of_nil & _).
Qed.

Lemma redist_add_ok t W r : redist_ok t W -> net_wf (r_net r) -> W !! key_of r = None ->
  exists t', redist_add_route r t = Ok t' /\ redist_ok t' (<[key_of r := r]> W).
Proof.
  intros Ht Hn Hk. unfold redist_add_route.
  destruct (indexed (r_net r) t) eqn:E; [apply (indexed_spec _ _ _ Ht Hn) in E as [? E]; unfold key_of in Hk; congruence|].
  destruct Ht as (Hok & Hm & Hf & Hi).
  destruct (t_insert_ok (rt_routes t) (r_net r) r Hok Hn) as (t' & -> & Hok' & Hm'). cbn.
  eexists. split; [done|]. unfold redist_ok; split_conj; cbn; [done|by rewrite Hm', Hm|by constructor|].
  intros k. destruct (decide (k = key_of r)) as [->|Hne].
  - rewrite lookup_insert_eq. split; [|eauto]. intros _. exists (r_net r). split; [by left|done].
  - rewrite lookup_insert_ne, Hi by done. split; intros (n & Hin & <-); exists n; (split; [|done]).
    + by right.
    + apply elem_of_cons in Hin as [->|]; [done|done].
Qed.

Lemma redist_delete_ok t W r w : redist_ok t W -> net_wf (r_net r) -> W !! key_of r = Some w ->
  exists t', redist_delete_route r t = Ok t' /\ redist_ok t' (delete (key_of r) W).
Proof.
  intros Ht Hn Hk. unfold redist_delete_route.
  rewrite (proj2 (indexed_spec _ _ _ Ht Hn)) by eauto.
  destruct Ht as (Hok & Hm & Hf & Hi). rewrite <- Hm in Hk.
  destruct (t_erase_ok _ _ _ Hok Hn Hk) as [Hok' Hm']. eexists. split; [done|].
  assert (forall n, In n (List.filter (fun n => negb (net_eqb (r_net r) n)) (rt_index t)) <-> n ∈ rt_index t /\ n <> r_net r) as Hin.
  { intros n. rewrite filter_In, <- list_elem_of_In. rewrite Forall_forall in Hf. split; intros [Hi' Hne]; (split; [done|]).
    - intros ->. by rewrite (proj2 (net_eqb_spec _ _ Hn Hn)) in Hne.
    - destruct (net_eqb (r_net r) n) eqn:E; [|done]. apply net_eqb_spec in E; [done..|by apply Hf]. }
  unfold redist_ok; split_conj; cbn; [done|by rewrite Hm', Hm| |].
  - apply Forall_forall. intros n. rewrite list_elem_of_In, Hin. rewrite Forall_forall in Hf. by intros [? _]; apply Hf.
  - intros k. destruct (decide (k = key_of r)) as [->|Hne].
    + rewrite lookup_delete_eq. split; [by intros [? ?]|]. intros (n & Hi' & E). apply list_elem_of_In, Hin in Hi' as [Hi' Hne'].
      exfalso. apply Hne'. apply net_id_inj; [|done|done]. rewrite Forall_forall in Hf. by apply Hf.
    + rewrite lookup_delete_ne, Hi by done. split; intros (n & Hi' & <-); exists n; (split; [|done]).
      * apply list_elem_of_In, Hin. split; [done|]. intros ->. done.
      * by apply list_elem_of_In, Hin in Hi' as [? _].
Qed.

(** ** The two moves on the winning routes *)
Lemma rep_win e W I r : rep e W I -> net_wf (r_net r) -> W !! key_of r = None ->
  exists e', win r e = Ok e' /\ rep e' (<[key_of r := r]> W) I /\ same_ads e e'.
Proof.
  intros (Hq & Hw & Ew & Hi & Ei & Hr) Hn Hk. unfold win, pass_add.
  destruct (t_insert_ok (wining_routes e) (r_net r) r Hw Hn) as (w & -> & Hw' & Ew'). cbn.
  destruct (redist_add_ok _ _ _ Hr Hn Hk) as (t & -> & Ht). cbn.
  eexists. split; [done|]. split; [|done]. unfold rep; split_conj; cbn; try done. by rewrite Ew', Ew.
Qed.

Lemma rep_unwin e W I r w : rep e W I -> net_wf (r_net r) -> W !! key_of r = Some w ->
  exists e', unwin r e = Ok e' /\ rep e' (delete (key_of r) W) I /\ same_ads e e'.
Proof.
  intros (Hq & Hw & Ew & Hi & Ei & Hr) Hn Hk. unfold unwin, pass_delete. cbn.
  destruct (redist_delete_ok _ _ _ _ Hr Hn Hk) as (t & -> & Ht). cbn. rewrite <- Ew in Hk.
  destruct (t_erase_ok _ _ _ Hw Hn Hk) as [Hw' Ew']. eexists. split; [done|]. split; [|done].
  unfold rep; split_conj; cbn; try done. by rewrite Ew', Ew.
Qed.

Lemma rep_igp_insert e W I r : rep e W I -> net_wf (r_net r) ->
  exists w, t_insert (wining_igp_routes e) (r_net r) r = Ok w /\ rep (set_wining_igp w e) W (<[key_of r := r]> I).
Proof.
  intros (Hq & Hw & Ew & Hi & Ei & Hr) Hn.
  destruct (t_insert_ok (wining_igp_routes e) (r_net r) r Hi Hn) as (w & -> & Hw' & Ew').
  eexists. split; [done|]. unfold rep; split_conj; cbn; try done. by rewrite Ew', Ei.
Qed.

Lemma rep_igp_erase e W I n w : rep e W I -> net_wf n -> I !! net_id n = Some w ->
  rep (set_wining_igp (trie_erase (wining_igp_routes e) n) e) W (delete (net_id n) I).
Proof.
  intros (Hq & Hw & Ew & Hi & Ei & Hr) Hn Hk. rewrite <- Ei in Hk.
  destruct (t_erase_ok _ _ _ Hi Hn Hk) as [Hi' Ei']. unfold rep; split_conj; cbn; try done. by rewrite Ei', Ei.
Qed.

Lemma rep_win_lookup e W I n : rep e W I -> net_wf n -> lookup_route e n = W !! net_id n.
Proof. intros (_ & Hw & <- & _) Hn. by apply t_lookup_model. Qed.

Lemma rep_igp_lookup e W I n : rep e W I -> net_wf n -> t_lookup (wining_igp_routes e) n = I !! net_id n.
Proof. intros (_ & _ & _ & Hi & <- & _) Hn. by apply t_lookup_model. Qed.

(** ** Without resolutions, the next hops need no attention *)
Lemma recalculate_nothing e W I r : rep e W I -> net_wf (r_net r) -> recalculate_nexthops r e = Ok e.
Proof.
  intros ((_ & _ & _ & _ & _ & Hr & Er) & _) Hn. unfold recalculate_nexthops.
  pose proof (find_less_specific_cases _ (r_net r) Hr Hn) as Hc.
  destruct (trie_find_less_specific _ _) as [q|]; [|done]. destruct Hc as (k & v & l & t & _ & E & _).
  by rewrite Er, lookup_empty in E.
Qed.

Lemma resolve_nothing e W I r : rep e W I -> resolve_unresolved_nexthops r e = Ok e.
Proof. intros ((_ & _ & E & _) & _). unfold resolve_unresolved_nexthops. by rewrite E. Qed.

Lemma delete_resolved_nothing e W I r b : rep e W I -> delete_resolved_routes r b e = Ok e.
Proof.
  intros ((_ & _ & _ & _ & E & _) & _). unfold delete_resolved_routes, lookup_by_igp_parent. by rewrite E.
Qed.

Lemma delete_ext_ok e W I r w : rep e W I -> net_wf (r_net r) -> W !! key_of r = Some w ->
  admin_distance r ∈ egp_ad_set e \/ admin_distance r ∈ igp_ad_set e ->
  exists e', delete_ext_route r e = Ok (e', true) /\ rep e' (delete (key_of r) W) I /\ same_ads e e'.
Proof.
  intros Hrep Hn Hk Had. destruct (rep_unwin _ _ _ _ _ Hrep Hn Hk) as (e' & E & Hrep' & Hs).
  destruct Hrep as ((Hrt & Ert & _ & Eut & _) & _). unfold delete_ext_route, lookup_in_resolved_table.
  rewrite t_lookup_model, Ert, lookup_empty by done. unfold delete_unresolved_nexthop. rewrite Eut. cbn -[pass_delete].
  assert (bool_decide (admin_distance r ∈ egp_ad_set e) || bool_decide (admin_distance r ∈ igp_ad_set e) = true) as ->.
  { destruct Had as [Had|Had]; rewrite (bool_decide_eq_true_2 _ Had); by rewrite ?orb_true_r. }
  unfold unwin in E. rewrite E. cbn. eauto.
Qed.

(** ** External routes *)
Lemma make_room_ok e W I r : rep e W I -> net_wf (r_net r) ->
  match W !! key_of r with
  | None => make_room r e = Ok (Some e)
  | Some f =>
      if admin_distance f <? admin_distance r then make_room r e = Ok None
      else if admin_distance f =? admin_distance r then True
      else net_wf (r_net f) -> key_of f = key_of r ->
           exists e', make_room r e = Ok (Some e') /\ rep e' (delete (key_of r) W) I /\ same_ads e e'
  end.
Proof.
  intros Hrep Hn. unfold make_room. rewrite (rep_win_lookup _ _ _ _ Hrep Hn). change (net_id (r_net r)) with (key_of r).
  destruct (W !! key_of r) as [f|] eqn:Ef; [|done]. repeat (case_if; [done|]). intros Hf Hk.
  rewrite <- Hk in Ef. destruct (rep_unwin _ _ _ _ _ Hrep Hf Ef) as (e' & -> & Hrep' & Hs). cbn. rewrite Hk in Hrep'. eauto.
Qed.

(** The better of the route found and a new one. *)
Definition better (o : option route) r : route :=
  match o with Some f => if admin_distance f <? admin_distance r then f else r | None => r end.

(** The entries of a map are filed under their subnets. *)
Definition filed (o : option route) (k : Z * Z) : Prop :=
  forall f, o = Some f -> net_wf (r_net f) /\ key_of f = k.

Lemma add_egp_ok e W I r : rep e W I -> net_wf (r_net r) -> nh_type r = PEER_NEXTHOP ->
  admin_distance r ∈ egp_ad_set e -> filed (W !! key_of r) (key_of r) ->
  (forall f, W !! key_of r = Some f -> admin_distance f <> admin_distance r) ->
  exists e', add_egp_route r e = Ok e' /\ rep e' (<[key_of r := better (W !! key_of r) r]> W) I /\ same_ads e e'.
Proof.
  intros Hrep Hn Ht Had Hfl Hne. unfold add_egp_route. rewrite bool_decide_eq_true_2 by done. cbn [negb].
  rewrite bool_decide_eq_true_2 by done. unfold add_direct_egp_route.
  pose proof (make_room_ok _ _ _ _ Hrep Hn) as Hm. destruct (W !! key_of r) as [f|] eqn:Ef; cbn [better].
  - destruct (Hfl f eq_refl) as [Hf Hk]. specialize (Hne f eq_refl).
    destruct (admin_distance f <? admin_distance r) eqn:E1.
    { rewrite Hm. cbn. exists e. split; [done|]. by rewrite insert_id. }
    destruct (Z.eqb_spec (admin_distance f) (admin_distance r)); [done|].
    destruct (Hm Hf Hk) as (e1 & -> & Hrep1 & Hs1). cbn.
    destruct (rep_win _ _ _ _ Hrep1 Hn) as (e2 & -> & Hrep2 & Hs2); [by rewrite lookup_delete_eq|].
    exists e2. rewrite insert_delete_eq in Hrep2. eauto using same_ads_trans.
  - rewrite Hm. cbn. destruct (rep_win _ _ _ _ Hrep Hn Ef) as (e2 & -> & Hrep2 & Hs2). eauto.
Qed.

(** ** Internal routes *)

(** What the handlers rely on at the key of a route: [w] and [i] are the winning route and the winning internal one. *)
Record local_ok e (k : Z * Z) (w i : option route) : Prop := {
  lo_filed : filed w k;
  lo_filed_igp : filed i k;
  lo_known : forall f, w = Some f -> admin_distance f ∈ igp_ad_set e \/ admin_distance f ∈ egp_ad_set e;
  lo_igp : forall f, i = Some f -> admin_distance f ∈ igp_ad_set e;
  lo_win_igp : forall f, w = Some f -> admin_distance f ∈ igp_ad_set e -> i = Some f;
  lo_le : forall f g, w = Some f -> i = Some g -> admin_distance f <= admin_distance g;
  lo_eq : forall f g, w = Some f -> i = Some g -> admin_distance f = admin_distance g -> f = g }.

Section Handlers.
Context (origin : table_ptr -> option (OriginTable A)).

(** A winning internal route is withdrawn for a better one. *)
Lemma delete_igp_quiet add e W I old : rep e W I -> net_wf (r_net old) -> I !! key_of old = Some old ->
  local_ok e (key_of old) (W !! key_of old) (Some old) ->
  exists e', delete_igp_route_with origin add old true e = Ok e'
    /\ rep e' (match W !! key_of old with
               | Some f => if admin_distance f =? admin_distance old then delete (key_of old) W else W
               | None => W end) (delete (key_of old) I)
    /\ same_ads e e'.
Proof.
  intros Hrep Hn Hi Hlo. unfold delete_igp_route_with, deleting_best_igp_route.
  rewrite (rep_igp_lookup _ _ _ _ Hrep Hn). change (net_id (r_net old)) with (key_of old). rewrite Hi, Z.eqb_refl.
  pose proof (rep_igp_erase _ _ _ _ _ Hrep Hn Hi) as Hrep1. set (e1 := set_wining_igp _ _) in *.
  assert (same_ads e e1) as Hs1 by done. unfold delete_best_igp_route.
  rewrite bool_decide_eq_true_2 by (by apply (lo_igp _ _ _ _ Hlo)). cbn [negb].
  rewrite (rep_win_lookup _ _ _ _ Hrep1 Hn). change (net_id (r_net old)) with (key_of old).
  destruct (W !! key_of old) as [f|] eqn:Ef; [|eauto].
  pose proof (lo_le _ _ _ _ Hlo f old eq_refl eq_refl) as Hle.
  destruct (Z.ltb_spec (admin_distance f) (admin_distance old)).
  { rewrite (proj2 (Z.eqb_neq _ _)) by lia. eauto. }
  rewrite (proj2 (Z.eqb_eq (admin_distance f) _)) by lia. cbn [negb].
  destruct (rep_unwin _ _ _ _ _ Hrep1 Hn Ef) as (e2 & -> & Hrep2 & Hs2). cbn [result_bind].
  rewrite (delete_resolved_nothing _ _ _ _ _ Hrep2). exists e2. split; [by destruct (bool_decide _)|].
  eauto using same_ads_trans.
Qed.

Definition best_igp_winners W I r : routes :=
  match I !! key_of r, W !! key_of r with
  | Some old, Some f =>
      if (admin_distance r <? admin_distance old) && (admin_distance f =? admin_distance old) then delete (key_of r) W else W
  | _, _ => W
  end.

Lemma best_igp_ok e W I r : rep e W I -> net_wf (r_net r) -> local_ok e (key_of r) (W !! key_of r) (I !! key_of r) ->
  (forall w, I !! key_of r = Some w -> admin_distance w = admin_distance r -> w = r) ->
  match I !! key_of r with
  | Some w => admin_distance w < admin_distance r
  | None => False
  end /\ best_igp_route origin r e = Ok (e, false)
  \/ match I !! key_of r with
     | Some w => admin_distance r <= admin_distance w
     | None => True
     end /\ exists e', best_igp_route origin r e = Ok (e', true) /\ rep e' (best_igp_winners W I r) (<[key_of r := r]> I)
             /\ same_ads e e'.
Proof.
  intros Hrep Hn Hlo Hsame. unfold best_igp_route, best_igp_winners. rewrite (rep_igp_lookup _ _ _ _ Hrep Hn).
  change (net_id (r_net r)) with (key_of r). destruct (I !! key_of r) as [old|] eqn:Ei.
  - destruct (lo_filed_igp _ _ _ _ Hlo old eq_refl) as [Hf Hk].
    destruct (Z.ltb_spec (admin_distance r) (admin_distance old)) as [Hlt|Hge].
    + right. split; [lia|]. rewrite <- Hk in Ei, Hlo.
      destruct (delete_igp_quiet (fun _ s => Ok s) _ _ _ _ Hrep Hf Ei Hlo) as (e1 & -> & Hrep1 & Hs1).
      rewrite Hk in Hrep1. cbn [result_bind].
      destruct (rep_igp_insert _ _ _ _ Hrep1 Hn) as (w & -> & Hrep2). cbn [result_bind andb].
      rewrite insert_delete_eq in Hrep2. eexists. split; [done|]. by split.
    + destruct (Z.eqb_spec (admin_distance old) (admin_distance r)) as [E|E]; [right|left; split; [lia|done]].
      split; [lia|]. exists e. split; [done|]. split; [|done]. rewrite (Hsame old eq_refl E) in Ei.
      rewrite insert_id by done. by destruct (W !! key_of r).
  - right. split; [done|]. destruct (rep_igp_insert _ _ _ _ Hrep Hn) as (w & -> & Hrep2).
    cbn [result_bind]. eexists. split; [done|]. by split.
Qed.

(** After the choice among internal routes: the route against an external one. *)
Lemma install_igp_ok e W I r : rep e W I -> net_wf (r_net r) ->
  filed (W !! key_of r) (key_of r) ->
  (forall f, W !! key_of r = Some f -> admin_distance f <> admin_distance r /\ admin_distance f ∈ egp_ad_set e) ->
  exists e',
    (let external := negb (bool_decide (egp_ad_set e = ∅)) in
     y <-! (if external then
               match lookup_route e (r_net r) with
               | None => Ok (Some e)
               | Some found =>
                   if admin_distance found <? admin_distance r then Ok None
                   else if admin_distance found =? admin_distance r then Throw AssertFailed
                   else d <-! delete_ext_route found e ;; Ok (Some (fst d))
               end
             else Ok (Some e)) ;;
      match y with
      | None => Ok e
      | Some s =>
          s <-! win r s ;;
          if external then s <-! recalculate_nexthops r s ;; resolve_unresolved_nexthops r s else Ok s
      end) = Ok e'
    /\ rep e' (<[key_of r := better (W !! key_of r) r]> W) I /\ same_ads e e'.
Proof.
  intros Hrep Hn Hfl Hf. cbn zeta. rewrite (rep_win_lookup _ _ _ _ Hrep Hn). change (net_id (r_net r)) with (key_of r).
  assert (forall e1 W1, rep e1 W1 I -> W1 !! key_of r = None -> exists e', (s <-! win r e1 ;;
    if negb (bool_decide (egp_ad_set e = ∅)) then s <-! recalculate_nexthops r s ;; resolve_unresolved_nexthops r s else Ok s) = Ok e'
    /\ rep e' (<[key_of r := r]> W1) I /\ same_ads e1 e') as Hwin.
  { intros e1 W1 Hrep1 Hno. destruct (rep_win _ _ _ _ Hrep1 Hn Hno) as (e2 & -> & Hrep2 & Hs2). cbn [result_bind].
    rewrite (recalculate_nothing _ _ _ _ Hrep2 Hn). cbn [result_bind]. rewrite (resolve_nothing _ _ _ _ Hrep2).
    exists e2. by destruct (negb _). }
  destruct (W !! key_of r) as [f|] eqn:Ef; cbn [better].
  - destruct (Hf f eq_refl) as [Hne Hin]. destruct (Hfl f eq_refl) as [Hfw Hk].
    assert (egp_ad_set e <> ∅) as Hsome by (intros E; rewrite E in Hin; by apply not_elem_of_empty in Hin).
    rewrite (bool_decide_eq_false_2 _ Hsome) in Hwin |- *. cbn [negb] in *.
    destruct (admin_distance f <? admin_distance r).
    { exists e. split; [done|]. by rewrite insert_id. }
    rewrite (proj2 (Z.eqb_neq _ _)) by done. rewrite <- Hk in Ef.
    destruct (delete_ext_ok _ _ _ _ _ Hrep Hfw Ef (or_introl Hin)) as (e1 & -> & Hrep1 & Hs1). cbn [result_bind fst].
    rewrite Hk in Hrep1. destruct (Hwin e1 _ Hrep1) as (e2 & -> & Hrep2 & Hs2); [by rewrite lookup_delete_eq|].
    rewrite insert_delete_eq in Hrep2. eauto using same_ads_trans.
  - destruct (Hwin e W Hrep Ef) as (e2 & E & Hrep2 & Hs2). exists e2. split; [|done].
    by destruct (negb (bool_decide _)).
Qed.

Lemma add_igp_ok e W I r : rep e W I -> net_wf (r_net r) -> nh_type r <> EXTERNAL_NEXTHOP ->
  admin_distance r ∈ igp_ad_set e -> igp_ad_set e ## egp_ad_set e ->
  local_ok e (key_of r) (W !! key_of r) (I !! key_of r) ->
  (forall w, I !! key_of r = Some w -> admin_distance w = admin_distance r -> w = r) ->
  (forall f, W !! key_of r = Some f -> admin_distance f <> admin_distance r) ->
  (forall w, I !! key_of r = Some w -> admin_distance w < admin_distance r -> is_Some (W !! key_of r)) ->
  exists e', add_igp_route origin r e = Ok e'
    /\ rep e' (<[key_of r := better (W !! key_of r) r]> W) (<[key_of r := better (I !! key_of r) r]> I) /\ same_ads e e'.
Proof.
  intros Hrep Hn Ht Had Hdisj Hlo Hsame Hne Hcov. unfold add_igp_route.
  rewrite (bool_decide_eq_true_2 _ Had), (bool_decide_eq_false_2 _ Ht). cbn [negb].
  destruct (best_igp_ok _ _ _ _ Hrep Hn Hlo Hsame) as [[Hlt ->]|[Hge (e1 & -> & Hrep1 & Hs1)]]; cbn [result_bind fst snd negb].
  - destruct (I !! key_of r) as [w|] eqn:Ei; [|done]. exists e. split; [done|]. split; [|done].
    destruct (Hcov w eq_refl Hlt) as [f Ef]. rewrite Ef in *. pose proof (lo_le _ _ _ _ Hlo f w eq_refl eq_refl).
    cbn [better]. rewrite !(proj2 (Z.ltb_lt _ _)) by lia. by rewrite !insert_id.
  - assert (better (I !! key_of r) r = r) as ->.
    { destruct (I !! key_of r) as [w|]; cbn; [|done]. by rewrite (proj2 (Z.ltb_ge _ _)). }
    assert (<[key_of r := better (best_igp_winners W I r !! key_of r) r]> (best_igp_winners W I r)
            = <[key_of r := better (W !! key_of r) r]> W
            /\ (forall f, best_igp_winners W I r !! key_of r = Some f ->
                 W !! key_of r = Some f /\ admin_distance f ∈ egp_ad_set e)) as [E1 E2].
    { unfold best_igp_winners. destruct (W !! key_of r) as [f|] eqn:Ef; [|destruct (I !! key_of r); rewrite Ef; by split].
      destruct (lo_known _ _ _ _ Hlo f eq_refl) as [Hk|Hk].
      - pose proof (lo_win_igp _ _ _ _ Hlo f eq_refl Hk) as Ei. rewrite Ei in *. rewrite Z.eqb_refl, andb_true_r.
        specialize (Hne f eq_refl). rewrite (proj2 (Z.ltb_lt _ _)) by lia. rewrite lookup_delete_eq. cbn [better].
        rewrite insert_delete_eq, (proj2 (Z.ltb_ge _ _)) by lia. done.
      - destruct (I !! key_of r) as [old|]; [|rewrite Ef; split; [done|by intros ? [= <-]]].
        destruct (Z.eqb_spec (admin_distance f) (admin_distance old)) as [Eq|]; [|rewrite andb_false_r, Ef; split; [done|by intros ? [= <-]]].
        pose proof (lo_igp _ _ _ _ Hlo old eq_refl). rewrite <- Eq in *. set_solver. }
    destruct (install_igp_ok e1 _ _ r Hrep1 Hn) as (e2 & E & Hrep2 & Hs2).
    + intros f Hf. destruct (E2 f Hf) as [Hf' _]. by apply (lo_filed _ _ _ _ Hlo).
    + intros f Hf. destruct (E2 f Hf) as [Hf' Hin]. destruct Hs1 as (_ & -> & _). eauto.
    + rewrite E1 in Hrep2. eauto using same_ads_trans.
Qed.
End Handlers.
End Rep.
