(* ===== verification/RibKeys.v ===== *)
(** * The winning route of a subnet

    For one subnet, the candidates are the routes of the origin tables, by
    administrative distance.  [key_ok] says that the winning route is the candidate
    with the lowest distance and that a winning internal route is remembered as such.
    The handlers of ExtIntTable keep it when a candidate appears or disappears. *)

From Stdlib Require Import ZArith Lia String Sorted.
From stdpp Require Import base tactics option list numbers gmap strings.
From S2P Require Import Prelude Addr IPNet OMap Trie TrieSpec TrieMap RibTables ExtInt ExtIntProps.
Local Open Scope Z_scope.
Local Open Scope xorp_scope.

Section Keys.
Context `{AddrSpec A}.
Abbreviation route := (IPRouteEntry A).
Abbreviation routes := (gmap (Z * Z) (IPRouteEntry A)).
Implicit Types (e : ExtIntTable A) (r : route) (W I : routes) (c : Z -> option route).

(** The candidates at [k] are routes with their distance, subnet and a connected next hop, of known tables. *)
Definition cand_ok e (k : Z * Z) c : Prop :=
  forall ad g, c ad = Some g ->
    admin_distance g = ad /\ net_wf (r_net g) /\ key_of g = k /\ nh_type g = PEER_NEXTHOP
    /\ (ad ∈ igp_ad_set e \/ ad ∈ egp_ad_set e).

(** [w] is the candidate with the lowest distance. *)
Definition lowest c (w : option route) : Prop :=
  match w with
  | Some f => c (admin_distance f) = Some f /\ forall ad g, c ad = Some g -> admin_distance f <= ad
  | None => forall ad, c ad = None
  end.

Record key_ok e c (w i : option route) : Prop := {
  ko_lowest : lowest c w;
  ko_igp : forall f, i = Some f -> c (admin_distance f) = Some f /\ admin_distance f ∈ igp_ad_set e;
  ko_win_igp : forall f, w = Some f -> admin_distance f ∈ igp_ad_set e -> i = Some f }.

(** Candidate [o] at distance [ad]. *)
Definition with_cand (ad : Z) (o : option route) c : Z -> option route := fun a => if a =? ad then o else c a.

Lemma with_cand_same ad o c : with_cand ad o c ad = o.
Proof. unfold with_cand. by rewrite Z.eqb_refl. Qed.
Lemma with_cand_other ad o c a : a <> ad -> with_cand ad o c a = c a.
Proof. unfold with_cand. intros. by rewrite (proj2 (Z.eqb_neq _ _)). Qed.

Lemma key_ok_local e k c w i : cand_ok e k c -> key_ok e c w i -> local_ok e k w i.
Proof.
  intros Hc [Hl Hi Hw]. split.
  - intros f ->. destruct Hl as [Hl _]. by destruct (Hc _ _ Hl) as (_ & ? & ? & _).
  - intros f ->. destruct (Hi f eq_refl) as [Hf _]. by destruct (Hc _ _ Hf) as (_ & ? & ? & _).
  - intros f ->. destruct Hl as [Hl _]. by destruct (Hc _ _ Hl) as (_ & _ & _ & _ & ?).
  - intros f ->. by apply Hi.
  - done.
  - intros f g -> ->. destruct Hl as [_ Hl]. apply (Hl _ g). by apply Hi.
  - intros f g -> -> E. destruct Hl as [Hl _], (Hi g eq_refl) as [Hg _]. congruence.
Qed.

(** The state in which the handlers of an addition start: a winner may have been withdrawn to make room for [r],
    which is then better than every candidate. *)
Definition ready e c (w i : option route) r : Prop :=
  key_ok e c w i
  \/ (w = None /\ (forall f, i = Some f -> admin_distance f ∈ igp_ad_set e /\ (f = r \/ c (admin_distance f) = Some f))
      /\ forall a g, c a = Some g -> admin_distance r < a).

Lemma ready_local e c w i r : cand_ok e (key_of r) c -> net_wf (r_net r) -> ready e c w i r -> local_ok e (key_of r) w i.
Proof.
  intros Hc Hn [Hk|(-> & Hi & _)]; [by eapply key_ok_local|]. split; try done.
  - intros f ->. destruct (Hi f eq_refl) as [_ [->|Hf]]; [done|]. by destruct (Hc _ _ Hf) as (_ & ? & ? & _).
  - intros f ->. by apply Hi.
Qed.

Lemma better_cases (o : option route) r :
  (better o r = r /\ forall f, o = Some f -> admin_distance r <= admin_distance f)
  \/ exists f, o = Some f /\ better o r = f /\ admin_distance f < admin_distance r.
Proof.
  destruct o as [f|]; cbn; [|by left].
  destruct (Z.ltb_spec (admin_distance f) (admin_distance r)); [right; eauto|left]. split; [done|]. by intros ? [= <-].
Qed.

Lemma ready_winner e c w i r : ready e c w i r -> c (admin_distance r) = None ->
  forall f, w = Some f -> admin_distance f <> admin_distance r.
Proof. intros [[Hl _ _]|(-> & _)] Hno f; [|done]. intros -> E. destruct Hl. congruence. Qed.

(** A remembered internal route is another candidate, or the route itself. *)
Lemma ready_igp e c w i r : ready e c w i r -> forall f, i = Some f ->
  admin_distance f ∈ igp_ad_set e /\ (f = r \/ c (admin_distance f) = Some f).
Proof. intros [[_ Hi _]|(_ & Hi & _)] f Hf; [|by apply Hi]. destruct (Hi f Hf). auto. Qed.

Lemma ready_covered e c w i r : ready e c w i r -> forall f, i = Some f -> admin_distance f < admin_distance r ->
  exists g, w = Some g /\ admin_distance g <= admin_distance f.
Proof.
  intros [[Hl Hi _]|(_ & Hi & Hr)] f Hf Hlt.
  - destruct (Hi f Hf) as [Hg _]. destruct w as [g|]; [|by rewrite Hl in Hg]. destruct Hl as [_ Hl]. eauto.
  - destruct (Hi f Hf) as [_ [->|Hg]]; [lia|]. specialize (Hr _ _ Hg). lia.
Qed.

Lemma lowest_with e c w i r : ready e c w i r -> c (admin_distance r) = None ->
  lowest (with_cand (admin_distance r) (Some r) c) (Some (better w r)).
Proof.
  intros Hr Hno. cbn. destruct (better_cases w r) as [[-> Hlt]|(f & -> & -> & Hlt)].
  - rewrite with_cand_same. split; [done|]. intros ad g.
    destruct (Z.eqb_spec ad (admin_distance r)) as [->|Ea]; [lia|]. rewrite with_cand_other by done. intros Hg.
    destruct Hr as [[Hl _ _]|(_ & _ & Hl)]; [|specialize (Hl _ _ Hg); lia]. destruct w as [f|]; [|by rewrite Hl in Hg].
    destruct Hl as [_ Hl]. specialize (Hl _ _ Hg). specialize (Hlt f eq_refl). lia.
  - destruct Hr as [[[Hf Hl] _ _]|(? & _)]; [|done]. rewrite with_cand_other by lia. split; [done|]. intros ad g.
    destruct (Z.eqb_spec ad (admin_distance r)) as [->|Ea]; [lia|]. rewrite with_cand_other by done. apply Hl.
Qed.

Lemma key_ok_ext e c c' w i : (forall a, c a = c' a) -> key_ok e c w i -> key_ok e c' w i.
Proof.
  intros E [Hl Hi Hw]. split; [|intros f Hf; rewrite <- E; by apply Hi|done].
  destruct w as [f|]; cbn in *; [|intros a; by rewrite <- E]. rewrite <- E. destruct Hl as [? Hl]. split; [done|].
  intros a g. rewrite <- E. apply Hl.
Qed.

Lemma ready_ext e c c' w i r : (forall a, c a = c' a) -> ready e c w i r -> ready e c' w i r.
Proof.
  intros E [Hk|(? & Hi & Hr)]; [left; by eapply key_ok_ext|right]. split; [done|]. split.
  - intros f Hf. rewrite <- E. by apply Hi.
  - intros a g. rewrite <- E. apply Hr.
Qed.

Lemma cand_ok_without e k c ad : cand_ok e k c -> cand_ok e k (with_cand ad None c).
Proof.
  intros Hc a g. destruct (Z.eqb_spec a ad) as [->|]; [by rewrite with_cand_same|]. rewrite with_cand_other by done. apply Hc.
Qed.

Lemma same_cand_ok e e' k c : same_ads e e' -> cand_ok e k c -> cand_ok e' k c.
Proof. intros (E1 & E2 & _) Hc a g Hg. rewrite E1, E2. by apply Hc. Qed.

Lemma same_key_ok e e' c w i : same_ads e e' -> key_ok e c w i -> key_ok e' c w i.
Proof. intros (E1 & E2 & _) []. split; rewrite ?E1; auto. Qed.

Lemma key_ok_sets e e' c w i : key_ok e c w i ->
  (forall ad g, c ad = Some g -> ad ∈ igp_ad_set e' <-> ad ∈ igp_ad_set e) -> key_ok e' c w i.
Proof.
  intros [Hl Hi Hw] Hs. split; [done| |].
  - intros f Hf. destruct (Hi f Hf) as [Hc Hin]. split; [done|]. by apply (Hs _ _ Hc).
  - intros f Hf Hin. apply Hw; [done|]. subst w. destruct Hl as [Hc _]. by apply (Hs _ _ Hc).
Qed.

(** An external candidate appears. *)
Lemma add_egp_key e W I r c : rep e W I -> net_wf (r_net r) -> nh_type r = PEER_NEXTHOP ->
  admin_distance r ∈ egp_ad_set e -> igp_ad_set e ## egp_ad_set e ->
  cand_ok e (key_of r) c -> c (admin_distance r) = None -> ready e c (W !! key_of r) (I !! key_of r) r ->
  exists e' W', add_egp_route r e = Ok e' /\ rep e' W' I /\ same_ads e e'
    /\ (forall j, j <> key_of r -> W' !! j = W !! j)
    /\ key_ok e' (with_cand (admin_distance r) (Some r) c) (W' !! key_of r) (I !! key_of r).
Proof.
  intros Hrep Hn Ht Had Hd Hc Hno Hr. pose proof (ready_local _ _ _ _ _ Hc Hn Hr) as Hlo.
  rewrite elem_of_disjoint in Hd.
  destruct (add_egp_ok _ _ _ _ Hrep Hn Ht Had (lo_filed _ _ _ _ Hlo) (ready_winner _ _ _ _ _ Hr Hno)) as (e' & E & Hrep' & Hs).
  exists e', (<[key_of r := better (W !! key_of r) r]> W). split_conj; try done; [intros; by rewrite lookup_insert_ne|].
  rewrite lookup_insert_eq. destruct Hs as (Hs1 & Hs2 & _). split; rewrite ?Hs1.
  - by eapply lowest_with.
  - intros f Hf. destruct (ready_igp _ _ _ _ _ Hr f Hf) as [Hin [->|Hg]]; [by destruct (Hd _ Hin Had)|].
    rewrite with_cand_other; [done|]. intros Eq. rewrite Eq in Hin. by destruct (Hd _ Hin Had).
  - intros f [= <-] Hin. destruct (better_cases (W !! key_of r) r) as [[Eb _]|(f & Ef & Eb & _)]; rewrite Eb in *.
    + by destruct (Hd _ Hin Had).
    + by apply (lo_win_igp _ _ _ _ Hlo).
Qed.

Section Origin.
Context (origin : table_ptr -> option (OriginTable A)).

(** An internal candidate appears. *)
Lemma add_igp_key e W I r c : rep e W I -> net_wf (r_net r) -> nh_type r = PEER_NEXTHOP ->
  admin_distance r ∈ igp_ad_set e -> igp_ad_set e ## egp_ad_set e ->
  cand_ok e (key_of r) c -> c (admin_distance r) = None -> ready e c (W !! key_of r) (I !! key_of r) r ->
  exists e' W' I', add_igp_route origin r e = Ok e' /\ rep e' W' I' /\ same_ads e e'
    /\ (forall j, j <> key_of r -> W' !! j = W !! j /\ I' !! j = I !! j)
    /\ key_ok e' (with_cand (admin_distance r) (Some r) c) (W' !! key_of r) (I' !! key_of r).
Proof.
  intros Hrep Hn Ht Had Hd Hc Hno Hr. pose proof (ready_local _ _ _ _ _ Hc Hn Hr) as Hlo.
  pose proof (ready_igp _ _ _ _ _ Hr) as Hig. pose proof (ready_covered _ _ _ _ _ Hr) as Hcov.
  destruct (add_igp_ok origin _ _ _ _ Hrep Hn ltac:(by rewrite Ht) Had Hd Hlo) as (e' & E & Hrep' & Hs).
  { intros f Hf Eq. destruct (Hig f Hf) as [_ [->|Hg]]; [done|]. congruence. }
  { by eapply ready_winner. }
  { intros f Hf Hlt. destruct (Hcov f Hf Hlt) as (g & -> & _). eauto. }
  eexists e', _, _. split; [done|]. split; [done|]. split; [done|].
  split; [intros; by rewrite !lookup_insert_ne|]. rewrite !lookup_insert_eq. destruct Hs as (Hs1 & Hs2 & _).
  split; rewrite ?Hs1.
  - by eapply lowest_with.
  - intros f [= <-]. destruct (better_cases (I !! key_of r) r) as [[-> _]|(f & Ef & -> & Hlt)].
    + by rewrite with_cand_same.
    + destruct (Hig f Ef) as [Hin [->|Hg]]; [lia|]. by rewrite with_cand_other by lia.
  - intros f [= <-] Hin. f_equal. destruct (better_cases (W !! key_of r) r) as [[-> Hge]|(f & Ef & Eb & Hlt)].
    + destruct (better_cases (I !! key_of r) r) as [[-> _]|(g & Eg & -> & Hlt)]; [done|].
      destruct (Hcov g Eg Hlt) as (f & Ef & Hle). specialize (Hge f Ef). lia.
    + rewrite Eb in *. rewrite (lo_win_igp _ _ _ _ Hlo f Ef Hin). cbn. by rewrite (proj2 (Z.ltb_lt _ _)).
Qed.

(** ** The route that a deleted one masked *)

(** The origin tables hold the candidates at [k]. *)
Definition served e (k : Z * Z) c : Prop :=
  m_sorted (all_tables e)
  /\ (forall ad p, (ad, p) ∈ all_tables e ->
       exists ot, origin p = Some ot /\ forall n, net_wf n -> net_id n = k -> lookup_ip_route ot n = c ad)
  /\ forall ad g, c ad = Some g -> exists p, (ad, p) ∈ all_tables e.

Lemma first_route_ok c (k : Z * Z) n ts : net_wf n -> net_id n = k -> m_sorted ts ->
  (forall ad p, (ad, p) ∈ ts ->
     exists ot, origin p = Some ot /\ forall n, net_wf n -> net_id n = k -> lookup_ip_route ot n = c ad) ->
  exists o, first_route origin n ts = Ok o
    /\ match o with
       | Some m => exists ad p, (ad, p) ∈ ts /\ c ad = Some m /\ forall ad' p' g, (ad', p') ∈ ts -> c ad' = Some g -> ad <= ad'
       | None => forall ad p, (ad, p) ∈ ts -> c ad = None
       end.
Proof.
  intros Hn Hk. induction ts as [|[ad p] ts IH]; intros Hs Ho; cbn [first_route].
  { exists None. split; [done|]. by intros ? ? ?%elem_of_nil. }
  apply sorted_cons in Hs as [Hs Hlt]. destruct (Ho ad p) as (ot & -> & Hot); [by left|]. rewrite (Hot n Hn Hk).
  destruct (c ad) as [m|] eqn:Ec.
  - exists (Some m). split; [done|]. exists ad, p. split; [by left|]. split; [done|]. intros ad' p' g [[= -> ->]|Hin]%elem_of_cons _; [lia|].
    apply Hlt in Hin. unfold key_ltb, Z_key in Hin. lia.
  - destruct IH as (o & -> & Hp); [done|intros ? ? ?; apply (Ho ad0); by right|]. exists o. split; [done|]. destruct o as [m|].
    + destruct Hp as (ad' & p' & Hin & Hm & Hmin). exists ad', p'. split; [by right|]. split; [done|].
      intros ad'' p'' g [[= -> ->]|Hin']%elem_of_cons Hg; [congruence|]. eauto.
    + intros ad' p' [[= -> ->]|Hin]%elem_of_cons; eauto.
Qed.

Lemma masked_ok e c r p : net_wf (r_net r) -> served e (key_of r) c -> cand_ok e (key_of r) c ->
  (admin_distance r, p) ∈ all_tables e ->
  exists o, masked_route origin r e = Ok o
    /\ match o with
       | Some m => c (admin_distance m) = Some m /\ admin_distance r < admin_distance m
                   /\ forall ad g, c ad = Some g -> admin_distance r < ad -> admin_distance m <= ad
       | None => forall ad g, c ad = Some g -> ~ admin_distance r < ad
       end.
Proof.
  intros Hn (Hs & Ho & Hl) Hc Hin. unfold masked_route. rewrite (proj2 (find_elem _ p _ Hs)) by done.
  assert (forall ad p, (ad, p) ∈ worse_tables r e <-> (ad, p) ∈ all_tables e /\ admin_distance r < ad) as Hw.
  { intros ad q. unfold worse_tables. rewrite list_elem_of_filter. cbn. tauto. }
  destruct (first_route_ok c (key_of r) (r_net r) (worse_tables r e)) as (o & -> & Hp); [done|done| | |].
  - by apply filter_sorted.
  - intros ad q [? _]%Hw. by apply (Ho ad).
  - exists o. split; [done|]. destruct o as [m|].
    + destruct Hp as (ad & q & [_ Hlt]%Hw & Hm & Hmin). destruct (Hc _ _ Hm) as [Ead _]. rewrite Ead.
      split; [done|]. split; [lia|]. intros ad' g Hg Hlt'. destruct (Hl _ _ Hg) as [q' Hq]. apply (Hmin ad' q' g); [by apply Hw|done].
    + intros ad g Hg Hlt. destruct (Hl _ _ Hg) as [q Hq]. rewrite (Hp ad q) in Hg; [done|]. by apply Hw.
Qed.

Lemma same_served e e' k c : same_ads e e' -> served e k c -> served e' k c.
Proof. intros (_ & _ & E) Hs. unfold served. by rewrite E. Qed.

(** A candidate that neither wins nor is remembered disappears. *)
Lemma key_ok_remove e c w i ad : key_ok e c w i -> is_Some w -> (forall f, w = Some f -> admin_distance f <> ad) ->
  (forall f, i = Some f -> admin_distance f <> ad) -> key_ok e (with_cand ad None c) w i.
Proof.
  intros [Hl Hi Hw] [f ->] Hnw Hni. specialize (Hnw f eq_refl). split.
  - cbn in *. rewrite with_cand_other by done. destruct Hl as [? Hl]. split; [done|]. intros a g.
    destruct (Z.eq_dec a ad) as [->|]; [by rewrite with_cand_same|]. rewrite with_cand_other by done. apply Hl.
  - intros g ->. rewrite with_cand_other by (by apply Hni). by apply Hi.
  - done.
Qed.

Lemma winner_of_cand e c w i ad r : key_ok e c w i -> c ad = Some r -> exists f, w = Some f /\ admin_distance f <= ad.
Proof. intros [Hl _ _] Hc. destruct w as [f|]; [|by rewrite Hl in Hc]. destruct Hl as [_ Hl]. eauto. Qed.

(** After the winner was withdrawn, the masked route takes its place. *)
Lemma readd_ok e W I c (k : Z * Z) o : rep e W I -> igp_ad_set e ## egp_ad_set e -> cand_ok e k c -> W !! k = None ->
  (forall f, I !! k = Some f -> admin_distance f ∈ igp_ad_set e /\ c (admin_distance f) = Some f) ->
  match o with
  | Some m => c (admin_distance m) = Some m /\ forall ad g, c ad = Some g -> admin_distance m <= ad
  | None => forall ad, c ad = None
  end ->
  exists e' W' I', readd (add_igp_route origin) o e = Ok e' /\ rep e' W' I' /\ same_ads e e'
    /\ (forall j, j <> k -> W' !! j = W !! j /\ I' !! j = I !! j)
    /\ key_ok e' c (W' !! k) (I' !! k).
Proof.
  intros Hrep Hd Hc Hw Hi Ho. destruct o as [m|].
  2: { exists e, W, I. split_conj; try done. rewrite Hw. split; [done| |done]. intros f Hf. destruct (Hi f Hf). congruence. }
  destruct Ho as [Hm Hmin]. destruct (Hc _ _ Hm) as (_ & Hn & Hk & Ht & Hin). subst k.
  set (c' := with_cand (admin_distance m) None c).
  assert (forall a, with_cand (admin_distance m) (Some m) c' a = c a) as Ec.
  { intros a. unfold c'. destruct (Z.eqb_spec a (admin_distance m)) as [->|]; [by rewrite with_cand_same|by rewrite !with_cand_other]. }
  assert (ready e c' (W !! key_of m) (I !! key_of m) m) as Hr.
  { right. split; [done|]. split.
    - intros f Hf. destruct (Hi f Hf) as [? Hg]. split; [done|].
      destruct (Z.eq_dec (admin_distance f) (admin_distance m)) as [E|]; [left|right; unfold c'; by rewrite with_cand_other].
      congruence.
    - intros a g. unfold c'. destruct (Z.eq_dec a (admin_distance m)) as [->|]; [by rewrite with_cand_same|].
      rewrite with_cand_other by done. intros Hg. specialize (Hmin _ _ Hg). lia. }
  assert (cand_ok e (key_of m) c') as Hc' by (by apply cand_ok_without).
  assert (c' (admin_distance m) = None) as Hno by apply with_cand_same. cbn [readd].
  destruct (bool_decide_reflect (admin_distance m ∈ igp_ad_set e)) as [Hig|Hig].
  - destruct (add_igp_key _ _ _ _ _ Hrep Hn Ht Hig Hd Hc' Hno Hr) as (e' & W' & I' & E & Hrep' & Hs & Hj & Hko).
    exists e', W', I'. split_conj; try done. by eapply key_ok_ext.
  - destruct Hin as [|Heg]; [done|]. rewrite (bool_decide_eq_true_2 _ Heg).
    destruct (add_egp_key _ _ _ _ _ Hrep Hn Ht Heg Hd Hc' Hno Hr) as (e' & W' & E & Hrep' & Hs & Hj & Hko).
    exists e', W', I. split_conj; try done; [intros j Hne; by rewrite Hj|]. by eapply key_ok_ext.
Qed.

(** The rest of the candidates once the winner [r] is gone. *)
Lemma rest_above e c w i r : key_ok e c w i -> w = Some r ->
  forall a g, with_cand (admin_distance r) None c a = Some g -> admin_distance r < a.
Proof.
  intros [Hl _ _] -> a g. destruct (Z.eq_dec a (admin_distance r)) as [->|]; [by rewrite with_cand_same|].
  rewrite with_cand_other by done. intros Hg. destruct Hl as [_ Hl]. specialize (Hl _ _ Hg). lia.
Qed.

Lemma masked_lowest e c r p : net_wf (r_net r) -> served e (key_of r) c -> cand_ok e (key_of r) c ->
  (admin_distance r, p) ∈ all_tables e -> (forall a g, c a = Some g -> admin_distance r < a) ->
  exists o, masked_route origin r e = Ok o
    /\ match o with
       | Some m => c (admin_distance m) = Some m /\ forall ad g, c ad = Some g -> admin_distance m <= ad
       | None => forall ad, c ad = None
       end.
Proof.
  intros Hn Hsv Hc Hp Hab. destruct (masked_ok e c r p Hn Hsv Hc Hp) as (o & -> & Ho). exists o. split; [done|].
  destruct o as [m|].
  - destruct Ho as (Hm & _ & Hmin). eauto.
  - intros ad. destruct (c ad) as [g|] eqn:Eg; [|done]. by destruct (Ho _ _ Eg (Hab _ _ Eg)).
Qed.

(** The last part of [delete_best_igp_route]: the winner [r] is withdrawn, and unless [b] the masked route takes over. *)
Lemma withdraw_igp_key e e1 W I r c p b : rep e1 W (delete (key_of r) I) -> same_ads e e1 -> igp_ad_set e ## egp_ad_set e ->
  net_wf (r_net r) -> cand_ok e (key_of r) c -> key_ok e c (W !! key_of r) (I !! key_of r) -> W !! key_of r = Some r ->
  served e (key_of r) (with_cand (admin_distance r) None c) -> (admin_distance r, p) ∈ all_tables e ->
  exists e' W' I',
    (s <-! unwin r e1 ;;
     s <-! (if bool_decide (egp_ad_set s = ∅) then Ok s else delete_resolved_routes r b s) ;;
     if b then Ok s else m <-! masked_route origin r s ;; readd (add_igp_route origin) m s) = Ok e'
    /\ rep e' W' I' /\ same_ads e e' /\ (forall j, j <> key_of r -> W' !! j = W !! j /\ I' !! j = I !! j)
    /\ if b then forall r', admin_distance r' = admin_distance r ->
                 ready e' (with_cand (admin_distance r) None c) (W' !! key_of r) (I' !! key_of r) r'
       else key_ok e' (with_cand (admin_distance r) None c) (W' !! key_of r) (I' !! key_of r).
Proof.
  intros Hrep1 Hs1 Hd Hn Hc Hko Ef Hsv Hp. set (c' := with_cand (admin_distance r) None c) in *.
  pose proof (cand_ok_without _ _ _ (admin_distance r) Hc : cand_ok e (key_of r) c') as Hc'.
  destruct (rep_unwin _ _ _ _ _ Hrep1 Hn Ef) as (e2 & -> & Hrep2 & Hs2). cbn [result_bind].
  rewrite (delete_resolved_nothing _ _ _ _ _ Hrep2). pose proof (same_ads_trans _ _ _ Hs1 Hs2) as Hs.
  replace (if bool_decide (egp_ad_set e2 = ∅) then Ok e2 else Ok e2) with (@Ok xorp_exn _ e2) by (by destruct (bool_decide _)).
  cbn [result_bind]. pose proof (rest_above _ _ _ _ _ Hko Ef) as Hab. fold c' in Hab. destruct b.
  - exists e2, (delete (key_of r) W), (delete (key_of r) I). split_conj; try done; [intros; by rewrite !lookup_delete_ne|].
    rewrite !lookup_delete_eq. intros r' E. right. split; [done|]. split; [done|]. by rewrite E.
  - destruct (masked_lowest e2 c' r p Hn (same_served _ _ _ _ Hs Hsv) (same_cand_ok _ _ _ _ Hs Hc')) as (o & -> & Ho); [by destruct Hs as (_ & _ & ->)|done|].
    cbn [result_bind]. destruct (readd_ok e2 _ _ c' (key_of r) o Hrep2) as (e3 & W' & I' & E3 & Hrep3 & Hs3 & Hj & Hko3);
      [by destruct Hs as (-> & -> & _)|by eapply same_cand_ok|by rewrite lookup_delete_eq|by rewrite lookup_delete_eq|done|].
    exists e3, W', I'. split; [done|]. split; [done|]. split; [by eapply same_ads_trans|]. split; [|done].
    intros j Hj'. destruct (Hj j Hj') as [-> ->]. by rewrite !lookup_delete_ne.
Qed.

(** An internal candidate disappears. *)
Lemma delete_igp_key e W I r c p b : rep e W I -> igp_ad_set e ## egp_ad_set e -> cand_ok e (key_of r) c ->
  c (admin_distance r) = Some r -> key_ok e c (W !! key_of r) (I !! key_of r) -> admin_distance r ∈ igp_ad_set e ->
  served e (key_of r) (with_cand (admin_distance r) None c) -> (admin_distance r, p) ∈ all_tables e ->
  exists e' W' I', delete_igp_route origin r b e = Ok e' /\ rep e' W' I' /\ same_ads e e'
    /\ (forall j, j <> key_of r -> W' !! j = W !! j /\ I' !! j = I !! j)
    /\ if b then forall r', admin_distance r' = admin_distance r ->
                 ready e' (with_cand (admin_distance r) None c) (W' !! key_of r) (I' !! key_of r) r'
       else key_ok e' (with_cand (admin_distance r) None c) (W' !! key_of r) (I' !! key_of r).
Proof.
  intros Hrep Hd Hc Hr Hko Had Hsv Hp. destruct (Hc _ _ Hr) as (_ & Hn & _).
  set (c' := with_cand (admin_distance r) None c) in *. pose proof (cand_ok_without _ _ _ (admin_distance r) Hc : cand_ok e (key_of r) c') as Hc'.
  destruct (winner_of_cand _ _ _ _ _ _ Hko Hr) as (f & Ef & Hle).
  assert (admin_distance f = admin_distance r -> f = r) as Huniq.
  { intros E. pose proof (ko_lowest _ _ _ _ Hko) as Hl. rewrite Ef in Hl. destruct Hl as [Hf _]. congruence. }
  assert (forall e', key_ok e' c' (W !! key_of r) (I !! key_of r) ->
    if b then forall r', admin_distance r' = admin_distance r -> ready e' c' (W !! key_of r) (I !! key_of r) r'
    else key_ok e' c' (W !! key_of r) (I !! key_of r)) as Hdone.
  { intros e' Hk. destruct b; [|done]. intros r' _. by left. }
  unfold delete_igp_route, delete_igp_route_with, deleting_best_igp_route.
  rewrite (rep_igp_lookup _ _ _ _ Hrep Hn). change (net_id (r_net r)) with (key_of r).
  assert ((exists w, I !! key_of r = Some w /\ admin_distance w = admin_distance r)
          \/ forall w, I !! key_of r = Some w -> admin_distance w <> admin_distance r) as [(w & Ei & Ew)|Hnot].
  { destruct (I !! key_of r) as [w|]; [|by right]. destruct (Z.eq_dec (admin_distance w) (admin_distance r)); [left; eauto|right].
    by intros ? [= <-]. }
  2: { exists e, W, I. split; [destruct (I !! key_of r) as [w|]; [|done]; by rewrite (proj2 (Z.eqb_neq _ _)) by auto|].
       split_conj; try done. apply Hdone, key_ok_remove; [done|eauto| |done].
       intros g Hg E. apply (Hnot f); [|congruence]. apply (ko_win_igp _ _ _ _ Hko); [done|].
       rewrite (Huniq ltac:(congruence)). done. }
  assert (w = r) as -> by (destruct (ko_igp _ _ _ _ Hko w Ei); congruence).
  rewrite Ei, Z.eqb_refl. pose proof (rep_igp_erase _ _ _ _ _ Hrep Hn Ei) as Hrep1. set (e1 := set_wining_igp _ _) in *.
  assert (same_ads e e1) as Hs1 by done. unfold delete_best_igp_route. rewrite (bool_decide_eq_true_2 _ (Had : _ ∈ igp_ad_set e1)).
  cbn [negb]. rewrite (rep_win_lookup _ _ _ _ Hrep1 Hn). change (net_id (r_net r)) with (key_of r) in *. rewrite Ef.
  destruct (Z.ltb_spec (admin_distance f) (admin_distance r)) as [Hlt|Hge].
  { exists e1, W, (delete (key_of r) I). split_conj; try done; [intros; by rewrite lookup_delete_ne|].
    rewrite lookup_delete_eq. enough (key_ok e1 c' (W !! key_of r) None) by (destruct b; [left|]; done).
    apply key_ok_remove; [|eauto|intros g Hg; assert (g = f) as -> by congruence; lia|done].
    apply (same_key_ok _ _ _ _ _ Hs1). destruct Hko as [Hl _ Hwi]. split; [done|done|].
    intros g Hg Hin. pose proof (Hwi g Hg Hin) as E. assert (g = r) as -> by congruence. assert (r = f) as -> by congruence. lia. }
  assert (f = r) as -> by (apply Huniq; lia). rewrite Z.eqb_refl. cbn [negb].
  by apply (withdraw_igp_key e e1 W I r c p b).
Qed.

(** An external candidate disappears. *)
Lemma delete_egp_key e W I r c p : rep e W I -> igp_ad_set e ## egp_ad_set e -> cand_ok e (key_of r) c ->
  c (admin_distance r) = Some r -> key_ok e c (W !! key_of r) (I !! key_of r) -> admin_distance r ∈ egp_ad_set e ->
  served e (key_of r) (with_cand (admin_distance r) None c) -> (admin_distance r, p) ∈ all_tables e ->
  exists e' W' I', delete_egp_route origin r false e = Ok e' /\ rep e' W' I' /\ same_ads e e'
    /\ (forall j, j <> key_of r -> W' !! j = W !! j /\ I' !! j = I !! j)
    /\ key_ok e' (with_cand (admin_distance r) None c) (W' !! key_of r) (I' !! key_of r).
Proof.
  intros Hrep Hd Hc Hr Hko Had Hsv Hp. destruct (Hc _ _ Hr) as (_ & Hn & _). pose proof Hd as Hd'. rewrite elem_of_disjoint in Hd'.
  set (c' := with_cand (admin_distance r) None c) in *. pose proof (cand_ok_without _ _ _ (admin_distance r) Hc : cand_ok e (key_of r) c') as Hc'.
  destruct (winner_of_cand _ _ _ _ _ _ Hko Hr) as (f & Ef & Hle).
  assert (forall g, I !! key_of r = Some g -> admin_distance g ∈ igp_ad_set e /\ c' (admin_distance g) = Some g) as Hig.
  { intros g Hg. destruct (ko_igp _ _ _ _ Hko g Hg) as [Hcg Hin]. split; [done|]. unfold c'. rewrite with_cand_other; [done|].
    intros E. rewrite E in Hin. by destruct (Hd' _ Hin Had). }
  unfold delete_egp_route. rewrite (bool_decide_eq_true_2 _ Had). cbn [negb].
  rewrite (rep_win_lookup _ _ _ _ Hrep Hn). change (net_id (r_net r)) with (key_of r). rewrite Ef.
  destruct (Z.ltb_spec (admin_distance f) (admin_distance r)) as [Hlt|Hge].
  { exists e, W, I. split_conj; try done. apply key_ok_remove; [done|eauto| |].
    - intros g Hg. assert (g = f) as -> by congruence. lia.
    - intros g Hg E. destruct (Hig g Hg) as [Hin _]. rewrite E in Hin. by destruct (Hd' _ Hin Had). }
  assert (f = r) as ->.
  { pose proof (ko_lowest _ _ _ _ Hko) as Hl. rewrite Ef in Hl. destruct Hl as [Hf _].
    replace (admin_distance f) with (admin_distance r) in Hf by lia. congruence. }
  pose proof (rest_above _ _ _ _ _ Hko Ef) as Hab. fold c' in Hab.
  destruct (masked_lowest e c' r p Hn Hsv Hc' Hp Hab) as (o & -> & Ho). cbn [result_bind].
  destruct (delete_ext_ok _ _ _ _ _ Hrep Hn Ef (or_introl Had)) as (e2 & -> & Hrep2 & Hs2). cbn [result_bind fst snd].
  destruct (readd_ok e2 _ _ c' (key_of r) o Hrep2) as (e3 & W' & I' & E3 & Hrep3 & Hs3 & Hj & Hko3);
    [by destruct Hs2 as (-> & -> & _)|by eapply same_cand_ok|by rewrite lookup_delete_eq|by destruct Hs2 as (-> & _)|done|].
  exists e3, W', I'. split; [done|]. split; [done|]. split; [by eapply same_ads_trans|]. split; [|done].
  intros j Hj'. destruct (Hj j Hj') as [-> ->]. by rewrite lookup_delete_ne.
Qed.
End Origin.
End Keys.
