(* ===== verification/RibProps.v ===== *)
(** * The RIB: invariant and operations

    [rib_inv]: the tables and their administrative distances agree with what
    ExtIntTable knows of them, every stored route has a connected next hop, and for
    every subnet the final table holds the stored route with the lowest distance.
    Every operation on routes keeps it and changes the stored routes as its name says. *)

From Stdlib Require Import ZArith Lia String Sorted.
From stdpp Require Import base tactics option list numbers gmap strings.
From S2P Require Import Prelude Addr IPNet OMap Trie TrieSpec TrieMap RibTables ExtInt ExtIntProps RibKeys Rib.
Local Open Scope Z_scope.
Local Open Scope xorp_scope.

Section RibInv.
Context `{AddrSpec A}.
Abbreviation route := (IPRouteEntry A).
Abbreviation routes := (gmap (Z * Z) (IPRouteEntry A)).
Implicit Types (s : RIB A) (e : ExtIntTable A) (r : route) (W I : routes) (p q : table_ptr).

(** The route that table [p] stores for a subnet. *)
Definition stored s p (k : Z * Z) : option route :=
  match find_table s p with Some ot => trie_model (ip_route_table ot) !! k | None => None end.

(** The candidates for a subnet, by distance. *)
Definition cand s (k : Z * Z) (ad : Z) : option route :=
  match m_find ad (all_tables (ext_int_table s)) with Some p => stored s p k | None => None end.

Definition table_routes_ok (ot : OriginTable A) : Prop :=
  trie_ok (ip_route_table ot)
  /\ forall k g, trie_model (ip_route_table ot) !! k = Some g ->
       net_wf (r_net g) /\ key_of g = k /\ nh_type g = PEER_NEXTHOP /\ admin_distance g = ot_admin_distance ot.

Record tables_ok s : Prop := {
  to_sorted : m_sorted (all_tables (ext_int_table s));
  to_listed : forall ad p, (ad, p) ∈ all_tables (ext_int_table s)
    <-> exists ot, find_table s p = Some ot /\ ot_admin_distance ot = ad;
  to_igp : forall ad, ad ∈ igp_ad_set (ext_int_table s) <-> exists n, (ad, (IGP, n)) ∈ all_tables (ext_int_table s);
  to_egp : forall ad, ad ∈ egp_ad_set (ext_int_table s) <-> exists n, (ad, (EGP, n)) ∈ all_tables (ext_int_table s);
  to_routes : forall p ot, find_table s p = Some ot -> table_routes_ok ot;
  to_type : forall p ot, find_table s p = Some ot -> ot_type ot = fst p }.

Definition vif_addr_wf (a : VifAddr A) : Prop :=
  a_wf (va_addr a) /\ net_wf (va_subnet a) /\ a_wf (va_broadcast a) /\ a_wf (va_peer a).
Definition vifs_ok s : Prop :=
  vifs s !! ""%string = None /\ forall name w, vifs s !! name = Some w -> Forall vif_addr_wf (addr_list w).

Definition base s : Prop :=
  tables_ok s /\ vifs_ok s /\ is_Some (igp_origin_tables s !! "connected"%string).

Definition rib_inv s : Prop :=
  base s /\ exists W I, rep (ext_int_table s) W I /\ forall k, key_ok (ext_int_table s) (cand s k) (W !! k) (I !! k).

(** The invariant without the table of connected routes, which the constructor adds. *)
Definition rib_core s : Prop :=
  tables_ok s /\ vifs_ok s
  /\ exists W I, rep (ext_int_table s) W I /\ forall k, key_ok (ext_int_table s) (cand s k) (W !! k) (I !! k).

Lemma rib_inv_core s : rib_inv s <-> rib_core s /\ is_Some (igp_origin_tables s !! "connected"%string).
Proof. unfold rib_inv, rib_core, base. tauto. Qed.

(** The invariant except at the subnet [k], which is about to get the route [r]. *)
Definition rib_ready s (k : Z * Z) r : Prop :=
  base s /\ exists W I, rep (ext_int_table s) W I
    /\ (forall j, j <> k -> key_ok (ext_int_table s) (cand s j) (W !! j) (I !! j))
    /\ ready (ext_int_table s) (cand s k) (W !! k) (I !! k) r.

Lemma inv_ready s k r : rib_inv s -> rib_ready s k r.
Proof. intros (Hb & W & I & Hrep & Hk). split; [done|]. exists W, I. split_conj; [done|auto|by left]. Qed.

(** ** Tables *)
Lemma find_set_table s p q ot : find_table (set_table p ot s) q = if decide (p = q) then Some ot else find_table s q.
Proof.
  destruct p as [[] n], q as [[] n']; unfold find_table, set_table; cbn; try (by rewrite decide_False by congruence).
  all: destruct (decide (n = n')) as [->|Hne]; [by rewrite lookup_insert_eq, decide_True|].
  all: by rewrite lookup_insert_ne, decide_False by congruence.
Qed.
Lemma find_set_ext s e q : find_table (set_ext e s) q = find_table s q.
Proof. done. Qed.

Lemma ext_set_table s p ot : ext_int_table (set_table p ot s) = ext_int_table s.
Proof. by destruct p as [[] n]. Qed.
Lemma vifs_set_table s p ot : vifs (set_table p ot s) = vifs s.
Proof. by destruct p as [[] n]. Qed.

Lemma stored_set_table s p q ot k :
  stored (set_table p ot s) q k = if decide (p = q) then trie_model (ip_route_table ot) !! k else stored s q k.
Proof. unfold stored. rewrite find_set_table. by destruct (decide (p = q)). Qed.

Lemma table_unique s p q ot ot' : tables_ok s -> find_table s p = Some ot -> find_table s q = Some ot' ->
  ot_admin_distance ot = ot_admin_distance ot' -> p = q.
Proof.
  intros Hto Hp Hq E. apply (find_unique (ot_admin_distance ot) p q (all_tables (ext_int_table s))); [by apply Hto|..];
    apply to_listed; eauto.
Qed.

Lemma table_found s p ot : tables_ok s -> find_table s p = Some ot ->
  m_find (ot_admin_distance ot) (all_tables (ext_int_table s)) = Some p.
Proof. intros Hto Hp. apply find_elem; [by apply Hto|]. apply to_listed; eauto. Qed.

Lemma ads_disjoint s : tables_ok s -> igp_ad_set (ext_int_table s) ## egp_ad_set (ext_int_table s).
Proof.
  intros Hto. apply elem_of_disjoint. intros ad (n & Hn)%(to_igp _ Hto) (n' & Hn')%(to_egp _ Hto).
  by pose proof (find_unique ad _ _ _ (to_sorted _ Hto) Hn Hn').
Qed.

Lemma ad_known s p ot : tables_ok s -> find_table s p = Some ot ->
  match fst p with
  | IGP => ot_admin_distance ot ∈ igp_ad_set (ext_int_table s)
  | EGP => ot_admin_distance ot ∈ egp_ad_set (ext_int_table s)
  end.
Proof.
  intros Hto Hp. assert ((ot_admin_distance ot, p) ∈ all_tables (ext_int_table s)) as Hin by (apply to_listed; eauto).
  destruct p as [[] n]; cbn; [apply (to_igp _ Hto)|apply (to_egp _ Hto)]; eauto.
Qed.

Lemma cand_stored s k p ot : tables_ok s -> find_table s p = Some ot -> cand s k (ot_admin_distance ot) = stored s p k.
Proof. intros Hto Hp. unfold cand. by rewrite (table_found _ _ _ Hto Hp). Qed.

Lemma cand_inv s k ad g : tables_ok s -> cand s k ad = Some g ->
  exists p ot, find_table s p = Some ot /\ ot_admin_distance ot = ad /\ stored s p k = Some g.
Proof.
  intros Hto. unfold cand. destruct (m_find ad _) as [p|] eqn:E; [|done]. intros Hg.
  apply find_elem in E; [|by apply Hto]. apply to_listed in E as (ot & Hp & Had); [|done]. eauto.
Qed.

Lemma stored_inv s p k g : tables_ok s -> stored s p k = Some g ->
  net_wf (r_net g) /\ key_of g = k /\ nh_type g = PEER_NEXTHOP
  /\ exists ot, find_table s p = Some ot /\ admin_distance g = ot_admin_distance ot.
Proof.
  intros Hto. unfold stored. destruct (find_table s p) as [ot|] eqn:E; [|done]. intros Hg.
  destruct (to_routes _ Hto _ _ E) as [_ Hr]. destruct (Hr _ _ Hg) as (? & ? & ? & ?). eauto 10.
Qed.

Lemma cand_cand_ok s k : tables_ok s -> cand_ok (ext_int_table s) k (cand s k).
Proof.
  intros Hto ad g Hg. destruct (cand_inv _ _ _ _ Hto Hg) as (p & ot & Hp & <- & Hs).
  destruct (stored_inv _ _ _ _ Hto Hs) as (Hn & Hk & Ht & ot' & Hp' & Ead).
  assert (ot' = ot) as -> by congruence. split_conj; try done.
  pose proof (ad_known _ _ _ Hto Hp) as Hkn. destruct (fst p); auto.
Qed.

(** A table gets a new trie of routes. *)
Lemma tables_ok_set s p ot ot' : tables_ok s -> find_table s p = Some ot -> ot_type ot' = ot_type ot ->
  ot_admin_distance ot' = ot_admin_distance ot -> table_routes_ok ot' -> tables_ok (set_table p ot' s).
Proof.
  intros Hto Hp Ety Ead Hr. split; rewrite ?ext_set_table; try apply Hto.
  - intros ad q. rewrite (to_listed _ Hto), find_set_table. destruct (decide (p = q)) as [<-|]; [|done].
    rewrite Hp. split; intros (o & [= <-] & <-); eauto.
  - intros q o. rewrite find_set_table. destruct (decide (p = q)) as [<-|]; [by intros [= <-]|apply (to_routes _ Hto)].
  - intros q o. rewrite find_set_table. destruct (decide (p = q)) as [<-|]; [|apply (to_type _ Hto)].
    intros [= <-]. rewrite Ety. by apply (to_type _ Hto).
Qed.

Lemma tables_ok_ext s e : same_ads (ext_int_table s) e -> tables_ok s -> tables_ok (set_ext e s).
Proof. intros (E1 & E2 & E3) [Hs Hl Hi He Hr Ht]. split; cbn; rewrite ?E1, ?E2, ?E3; done. Qed.

Lemma cand_set s p ot ot' k : tables_ok s -> find_table s p = Some ot -> ot_admin_distance ot' = ot_admin_distance ot ->
  forall ad, cand (set_table p ot' s) k ad
    = with_cand (ot_admin_distance ot) (trie_model (ip_route_table ot') !! k) (cand s k) ad.
Proof.
  intros Hto Hp Ead ad. unfold cand. rewrite ext_set_table.
  destruct (Z.eq_dec ad (ot_admin_distance ot)) as [->|Hne].
  - rewrite with_cand_same, (table_found _ _ _ Hto Hp), stored_set_table. by rewrite decide_True.
  - rewrite with_cand_other by done. destruct (m_find ad _) as [q|] eqn:E; [|done]. rewrite stored_set_table.
    rewrite decide_False; [done|]. intros <-. apply find_elem in E; [|by apply Hto].
    apply to_listed in E as (o & Ho & Eo); [|done]. congruence.
Qed.

Lemma cand_set_ext s e k ad : same_ads (ext_int_table s) e -> cand (set_ext e s) k ad = cand s k ad.
Proof. intros (_ & _ & E). unfold cand. cbn. by rewrite E. Qed.

Lemma base_set s p ot e : tables_ok (set_table p ot s) -> same_ads (ext_int_table s) e -> is_Some (find_table s p) -> base s ->
  base (set_ext e (set_table p ot s)).
Proof.
  intros Hto Hs Hp (_ & Hv & Hc). unfold base. split_conj.
  - apply tables_ok_ext; [|done]. by rewrite ext_set_table.
  - unfold vifs_ok. cbn. by rewrite vifs_set_table.
  - change (is_Some (find_table (set_table p ot s) (IGP, "connected"%string))). rewrite find_set_table.
    destruct (decide _); [eauto|done].
Qed.

(** What an operation on table [p] changes: the route stored for [k]. *)
Definition frame s s' p (k : Z * Z) (o : option route) : Prop :=
  (forall q j, stored s' q j = if decide (q = p /\ j = k) then o else stored s q j)
  /\ (forall q, q <> p -> find_table s' q = find_table s q)
  /\ option_map ot_admin_distance (find_table s' p) = option_map ot_admin_distance (find_table s p)
  /\ vifs s' = vifs s /\ admin_distances s' = admin_distances s /\ errors_are_fatal s' = errors_are_fatal s.

Lemma frame_set s p ot ot' e k : find_table s p = Some ot -> ot_admin_distance ot' = ot_admin_distance ot ->
  (forall j, j <> k -> trie_model (ip_route_table ot') !! j = trie_model (ip_route_table ot) !! j) ->
  frame s (set_ext e (set_table p ot' s)) p k (trie_model (ip_route_table ot') !! k).
Proof.
  intros Hp Ead Hj. unfold frame. split_conj; try (by destruct p as [[] ?]).
  - intros q j. change (stored (set_ext e (set_table p ot' s)) q j) with (stored (set_table p ot' s) q j).
    rewrite stored_set_table. destruct (decide (p = q)) as [<-|]; [|rewrite decide_False by (intros [? ?]; congruence); done].
    destruct (decide (j = k)) as [->|]; [by rewrite decide_True|]. rewrite decide_False by (intros [? ?]; congruence).
    unfold stored. rewrite Hp. by apply Hj.
  - intros q Hq. by rewrite find_set_ext, find_set_table, decide_False.
  - rewrite find_set_ext, find_set_table, decide_True, Hp by done. cbn. by rewrite Ead.
Qed.

Lemma stored_ready s p ot k r : rib_ready s k r -> find_table s p = Some ot -> trie_ok (ip_route_table ot).
Proof. intros ((Hto & _) & _) Hp. by apply (to_routes _ Hto _ _ Hp). Qed.

(** The candidates after a table and ExtIntTable changed. *)
Lemma cand_both s p ot ot' e k : tables_ok s -> find_table s p = Some ot -> ot_admin_distance ot' = ot_admin_distance ot ->
  same_ads (ext_int_table s) e ->
  forall a, cand (set_ext e (set_table p ot' s)) k a
    = with_cand (ot_admin_distance ot) (trie_model (ip_route_table ot') !! k) (cand s k) a.
Proof.
  intros Hto Hp Ead Hs a. rewrite cand_set_ext by (by rewrite ext_set_table). by apply cand_set.
Qed.

(** The other subnets are not concerned. *)
Lemma keys_frame s p ot ot' e (k : Z * Z) W I W' I' : tables_ok s -> find_table s p = Some ot ->
  ot_admin_distance ot' = ot_admin_distance ot -> same_ads (ext_int_table s) e ->
  (forall j, j <> k -> trie_model (ip_route_table ot') !! j = trie_model (ip_route_table ot) !! j) ->
  (forall j, j <> k -> W' !! j = W !! j /\ I' !! j = I !! j) ->
  (forall j, j <> k -> key_ok (ext_int_table s) (cand s j) (W !! j) (I !! j)) ->
  forall j, j <> k -> key_ok e (cand (set_ext e (set_table p ot' s)) j) (W' !! j) (I' !! j).
Proof.
  intros Hto Hp Ead Hs Hm Hw Hk j Hj. destruct (Hw j Hj) as [-> ->]. apply (same_key_ok (ext_int_table s)); [done|].
  apply (key_ok_ext _ (cand s j)); [|by apply Hk]. intros a. rewrite (cand_both s p ot ot'), Hm by done.
  destruct (Z.eq_dec a (ot_admin_distance ot)) as [->|]; [|by rewrite with_cand_other].
  rewrite with_cand_same, (cand_stored _ _ _ _ Hto Hp). unfold stored. by rewrite Hp.
Qed.

(** The handler of ExtIntTable for a new route of table [p]. *)
Lemma handler_add_ok s origin p ot W I r : tables_ok s -> find_table s p = Some ot -> rep (ext_int_table s) W I ->
  net_wf (r_net r) -> nh_type r = PEER_NEXTHOP -> admin_distance r = ot_admin_distance ot ->
  cand s (key_of r) (admin_distance r) = None -> ready (ext_int_table s) (cand s (key_of r)) (W !! key_of r) (I !! key_of r) r ->
  exists e' W' I', match fst p with
    | IGP => add_igp_route origin r (ext_int_table s)
    | EGP => add_egp_route r (ext_int_table s)
    end = Ok e' /\ rep e' W' I' /\ same_ads (ext_int_table s) e'
    /\ (forall j, j <> key_of r -> W' !! j = W !! j /\ I' !! j = I !! j)
    /\ key_ok e' (with_cand (admin_distance r) (Some r) (cand s (key_of r))) (W' !! key_of r) (I' !! key_of r).
Proof.
  intros Hto Hp Hrep Hn Ht Ead Hno Hr. pose proof (cand_cand_ok s (key_of r) Hto). pose proof (ads_disjoint s Hto).
  pose proof (ad_known _ _ _ Hto Hp) as Hkn. rewrite <- Ead in Hkn. destruct (fst p).
  - by apply (add_igp_key origin (ext_int_table s) W I r (cand s (key_of r))).
  - destruct (add_egp_key (ext_int_table s) W I r (cand s (key_of r))) as (e' & W' & ? & ? & ? & Hj & ?); try done.
    exists e', W', I. split_conj; try done. intros. by rewrite Hj.
Qed.

(** [OriginTable::add_route] of a subnet that the table does not have. *)
Lemma ot_add_ok s p ot r : find_table s p = Some ot -> net_wf (r_net r) -> nh_type r = PEER_NEXTHOP ->
  rib_ready s (key_of r) (set_admin_distance (ot_admin_distance ot) r) -> stored s p (key_of r) = None ->
  exists s', ot_add_route p r s = Ok (s', true) /\ rib_inv s'
    /\ frame s s' p (key_of r) (Some (set_admin_distance (ot_admin_distance ot) r)).
Proof.
  intros Hp Hn Ht (Hb & W & I & Hrep & Hk & Hr) Hno. pose proof Hb as (Hto & _).
  destruct (to_routes _ Hto _ _ Hp) as [Htr Hrs]. unfold ot_add_route. rewrite Hp. unfold origin_store, lookup_ip_route.
  rewrite t_lookup_model by done. unfold stored in Hno. rewrite Hp in Hno. change (net_id (r_net r)) with (key_of r). rewrite Hno.
  set (r' := set_admin_distance _ r) in *. destruct (t_insert_ok (ip_route_table ot) (r_net r') r' Htr Hn) as (t & -> & Ht' & Et).
  cbn [result_bind]. change (net_id (r_net r')) with (key_of r) in Et. set (ot' := mkOrigin _ _ t).
  assert (tables_ok (set_table p ot' s)) as Hto'.
  { apply (tables_ok_set s p ot ot'); try done. split; [done|]. intros k g. cbn. rewrite Et.
    intros [[<- <-]|[_ Hg]]%lookup_insert_Some; [done|by apply Hrs]. }
  assert (cand s (key_of r') (admin_distance r') = None) as Hcn.
  { cbn [admin_distance r' set_admin_distance]. rewrite (cand_stored _ _ _ _ Hto Hp). unfold stored. by rewrite Hp. }
  destruct (handler_add_ok s (find_table (set_table p ot' s)) p ot W I r' Hto Hp Hrep Hn Ht eq_refl Hcn Hr)
    as (e' & W' & I' & E & Hrep' & Hs & Hj & Hko).
  rewrite ext_set_table, E. cbn [result_bind]. eexists. split; [done|]. split.
  - split; [by apply base_set; eauto|]. exists W', I'. split; [done|]. intros k. cbn [ext_int_table set_ext].
    destruct (decide (k = key_of r')) as [->|Hne].
    + eapply key_ok_ext; [|exact Hko]. intros a. rewrite (cand_both s p ot ot') by done. cbn [ip_route_table ot'].
      by rewrite Et, lookup_insert_eq.
    + apply (keys_frame s p ot ot' e' (key_of r') W I); try done. intros j Hj'. cbn [ip_route_table ot']. by rewrite Et, lookup_insert_ne.
  - replace (Some r') with (trie_model (ip_route_table ot') !! key_of r) by (cbn; by rewrite Et, lookup_insert_eq).
    apply (frame_set s p ot); [done|done|]. intros j Hne. cbn. by rewrite Et, lookup_insert_ne.
Qed.

Lemma served_cand s k : tables_ok s -> served (find_table s) (ext_int_table s) k (cand s k).
Proof.
  intros Hto. unfold served. split_conj; [by apply Hto| |].
  - intros ad p Hin. apply to_listed in Hin as (ot & Hp & <-); [|done]. exists ot. split; [done|]. intros n Hn <-.
    rewrite (cand_stored _ _ _ _ Hto Hp). unfold lookup_ip_route, stored. rewrite Hp. apply t_lookup_model; [|done].
    by apply (to_routes _ Hto _ _ Hp).
  - intros ad g Hg. destruct (cand_inv _ _ _ _ Hto Hg) as (p & ot & Hp & <- & _). exists p. apply to_listed; eauto.
Qed.

Lemma served_ext (origin : table_ptr -> option (OriginTable A)) e k c c' : (forall a, c a = c' a) ->
  served origin e k c -> served origin e k c'.
Proof.
  intros E (Hs & Ho & Hl). unfold served. split_conj; [done| |].
  - intros ad p Hin. destruct (Ho ad p Hin) as (ot & ? & Hot). exists ot. split; [done|]. intros. rewrite <- E. auto.
  - intros ad g. rewrite <- E. apply Hl.
Qed.

(** The handler of ExtIntTable for a route that left table [p]; [s'] has the route removed. *)
Lemma handler_delete_ok s s' p ot W I r b : tables_ok s -> tables_ok s' -> ext_int_table s' = ext_int_table s ->
  find_table s p = Some ot -> rep (ext_int_table s) W I ->
  key_ok (ext_int_table s) (cand s (key_of r)) (W !! key_of r) (I !! key_of r) ->
  admin_distance r = ot_admin_distance ot -> stored s p (key_of r) = Some r ->
  (forall a, cand s' (key_of r) a = with_cand (admin_distance r) None (cand s (key_of r)) a) ->
  (b = true -> fst p = IGP) ->
  exists e' W' I', match fst p with
    | IGP => delete_igp_route (find_table s') r b (ext_int_table s)
    | EGP => delete_egp_route (find_table s') r b (ext_int_table s)
    end = Ok e' /\ rep e' W' I' /\ same_ads (ext_int_table s) e'
    /\ (forall j, j <> key_of r -> W' !! j = W !! j /\ I' !! j = I !! j)
    /\ if b then forall r', admin_distance r' = admin_distance r ->
                ready e' (with_cand (admin_distance r) None (cand s (key_of r))) (W' !! key_of r) (I' !! key_of r) r'
       else key_ok e' (with_cand (admin_distance r) None (cand s (key_of r))) (W' !! key_of r) (I' !! key_of r).
Proof.
  intros Hto Hto' Ee Hp Hrep Hko Ead Hst Hc Hb. pose proof (cand_cand_ok s (key_of r) Hto). pose proof (ads_disjoint s Hto).
  assert (cand s (key_of r) (admin_distance r) = Some r) by (by rewrite Ead, (cand_stored _ _ _ _ Hto Hp)).
  assert (served (find_table s') (ext_int_table s) (key_of r) (with_cand (admin_distance r) None (cand s (key_of r)))) as Hsv.
  { eapply served_ext; [apply Hc|]. rewrite <- Ee. by apply served_cand. }
  assert ((admin_distance r, p) ∈ all_tables (ext_int_table s)) by (apply to_listed; eauto).
  pose proof (ad_known _ _ _ Hto Hp) as Hkn. rewrite <- Ead in Hkn. destruct (fst p).
  - by apply (delete_igp_key (find_table s') (ext_int_table s) W I r (cand s (key_of r)) p b).
  - destruct b; [by specialize (Hb eq_refl)|].
    by apply (delete_egp_key (find_table s') (ext_int_table s) W I r (cand s (key_of r)) p).
Qed.

(** [OriginTable::delete_route]. *)
Lemma ot_delete_ok s p ot n b : rib_inv s -> find_table s p = Some ot -> net_wf n -> (b = true -> fst p = IGP) ->
  match stored s p (net_id n) with
  | None => ot_delete_route p n b s = Ok (s, false)
  | Some r =>
      exists s', ot_delete_route p n b s = Ok (s', true) /\ frame s s' p (net_id n) None
        /\ if b then forall r', admin_distance r' = ot_admin_distance ot -> rib_ready s' (net_id n) r' else rib_inv s'
  end.
Proof.
  intros (Hb & W & I & Hrep & Hk) Hp Hn Hig. pose proof Hb as (Hto & _). destruct (to_routes _ Hto _ _ Hp) as [Htr Hrs].
  unfold ot_delete_route, origin_remove, lookup_ip_route. rewrite Hp, t_lookup_model by done.
  assert (stored s p (net_id n) = trie_model (ip_route_table ot) !! net_id n) as Est by (unfold stored; by rewrite Hp).
  rewrite Est. destruct (trie_model (ip_route_table ot) !! net_id n) as [r|] eqn:Er; [|done].
  destruct (Hrs _ _ Er) as (Hrn & Hrk & _ & Hra). rewrite <- Hrk in *.
  destruct (t_erase_ok _ _ _ Htr Hn ltac:(rewrite <- Hrk; exact Er)) as [Htr' Et]. rewrite <- Hrk in Et.
  set (ot' := mkOrigin _ _ _).
  assert (tables_ok (set_table p ot' s)) as Hto'.
  { apply (tables_ok_set s p ot ot'); try done. split; [done|]. intros k g. cbn. rewrite Et.
    intros [_ Hg]%lookup_delete_Some. by apply Hrs. }
  assert (forall j, j <> key_of r -> trie_model (ip_route_table ot') !! j = trie_model (ip_route_table ot) !! j) as Hoj
    by (intros j Hj; cbn; by rewrite Et, lookup_delete_ne).
  assert (trie_model (ip_route_table ot') !! key_of r = None) as Hor by (cbn; by rewrite Et, lookup_delete_eq).
  destruct (handler_delete_ok s (set_table p ot' s) p ot W I r b) as (e' & W' & I' & E & Hrep' & Hs & Hj & Hko); try done.
  { apply ext_set_table. }
  { intros a. by rewrite (cand_set s p ot ot'), Hra, Hor. }
  rewrite ext_set_table, E. cbn [result_bind]. set (s' := set_ext e' _).
  assert (base s') as Hb' by (by apply base_set; eauto).
  pose proof (keys_frame s p ot ot' e' (key_of r) W I W' I' Hto Hp eq_refl Hs Hoj Hj ltac:(intros; apply Hk)) as Hne. fold s' in Hne.
  assert (forall a, with_cand (admin_distance r) None (cand s (key_of r)) a = cand s' (key_of r) a) as Hcr.
  { intros a. unfold s'. by rewrite (cand_both s p ot ot'), Hra, Hor. }
  exists s'. split; [done|]. split.
  - pose proof (frame_set s p ot ot' e' (key_of r) Hp eq_refl Hoj) as Hf. by rewrite Hor in Hf.
  - destruct b.
    + intros r' Ead. split; [done|]. exists W', I'. split; [done|]. split; [done|].
      eapply ready_ext; [apply Hcr|]. apply Hko. congruence.
    + split; [done|]. exists W', I'. split; [done|]. intros k.
      destruct (decide (k = key_of r)) as [->|]; [|by apply Hne]. by eapply key_ok_ext.
Qed.
End RibInv.
