(* ===== verification/RibRun.v ===== *)
(** * Runs of the RIB

    The operations of [RIB<A>] on tables, distances, routes and interfaces keep the
    invariant as long as every next hop is directly connected, the distances of the
    tables differ and no external route is replaced; what happens in the other cases is
    shown on concrete runs. *)

From Stdlib Require Import ZArith Lia String Sorted.
From stdpp Require Import base tactics option list numbers gmap strings.
From S2P Require Import Prelude Addr IPNet OMap Trie TrieSpec TrieMap RibTables ExtInt ExtIntProps RibKeys Rib RibProps.
Local Open Scope Z_scope.
Local Open Scope xorp_scope.

Section RibOps.
Context `{AddrSpec A}.
Abbreviation route := (IPRouteEntry A).
Implicit Types (s : RIB A) (e : ExtIntTable A) (r : route) (p q : table_ptr).

(** The interface toward a next hop: the one named, or that of a connected route. *)
Definition peer_of s (nexthop : A) (vifname : string) : option string :=
  if bool_decide (vifname = ""%string) then
    match igp_origin_tables s !! "connected"%string with
    | Some connected => match lookup_ip_route_addr connected nexthop with Some re => vif re | None => None end
    | None => None
    end
  else match vifs s !! vifname with Some _ => Some vifname | None => None end.

Definition peer_route (t : string) (n : IPNet A) (nexthop : A) (w : string) (m : Z) (tags : list Z) : route :=
  mkRoute n (Some w) PEER_NEXTHOP nexthop t m tags UNKNOWN_ADMIN_DISTANCE.

Lemma rib_add_route_eq t n nh v m tags s : is_Some (igp_origin_tables s !! "connected"%string) ->
  rib_add_route t n nh v m tags s =
  match find_origin_table s t with
  | None => if errors_are_fatal s then Throw Fatal else Ok (s, false)
  | Some p =>
      match peer_of s nh v with
      | Some w => x <-! ot_add_route p (peer_route t n nh w m tags) s ;; Ok (fst x, true)
      | None =>
          if bool_decide (v = ""%string) && bool_decide (fst p = EGP)
          then x <-! ot_add_route p (mkRoute n None EXTERNAL_NEXTHOP nh t m tags UNKNOWN_ADMIN_DISTANCE) s ;; Ok (fst x, true)
          else Ok (s, false)
      end
  end.
Proof.
  intros [ct Hct]. unfold rib_add_route, peer_of. rewrite Hct. destruct (find_origin_table s t) as [[ty name]|]; [|done].
  destruct (bool_decide (v = ""%string)); cbn [negb andb].
  - destruct (lookup_ip_route_addr ct nh) as [re|]; [destruct (vif re)|]; try done; by destruct ty.
  - by destruct (vifs s !! v).
Qed.

Lemma find_origin_inv s t p : find_origin_table s t = Some p -> exists ot, find_table s p = Some ot.
Proof.
  unfold find_origin_table. destruct (egp_origin_tables s !! t) as [ot|] eqn:E; [intros [= <-]; by exists ot|].
  destruct (igp_origin_tables s !! t) as [ot|] eqn:E'; [|done]. intros [= <-]. by exists ot.
Qed.

Lemma frame_find s s' p k o t : frame s s' p k o -> is_Some (find_table s p) -> find_origin_table s' t = find_origin_table s t.
Proof.
  intros (_ & Hq & Hp & _) [ot Ep].
  assert (forall q, is_Some (find_table s' q) <-> is_Some (find_table s q)) as Hiff.
  { intros q. destruct (decide (q = p)) as [->|Hne]; [|by rewrite Hq].
    rewrite Ep in *. destruct (find_table s' p); [|done]. split; eauto. }
  unfold find_origin_table. pose proof (Hiff (EGP, t)) as He. pose proof (Hiff (IGP, t)) as Hi. unfold find_table in He, Hi. cbn in He, Hi.
  destruct (egp_origin_tables s' !! t), (egp_origin_tables s !! t); try done.
  - by destruct (proj1 He) as [? ?].
  - by destruct (proj2 He) as [? ?].
  - destruct (igp_origin_tables s' !! t), (igp_origin_tables s !! t); try done.
    + by destruct (proj1 Hi) as [? ?].
    + by destruct (proj2 Hi) as [? ?].
Qed.

Lemma key_peer_route t n nh w m tags : key_of (peer_route t n nh w m tags) = net_id n.
Proof. done. Qed.

(** [RIB::add_route] with a connected next hop. *)
Lemma rib_add_ok s t p ot n nh v w m tags : is_Some (igp_origin_tables s !! "connected"%string) ->
  find_origin_table s t = Some p -> find_table s p = Some ot -> peer_of s nh v = Some w -> net_wf n ->
  let r := set_admin_distance (ot_admin_distance ot) (peer_route t n nh w m tags) in
  match stored s p (net_id n) with
  | Some _ => trie_ok (ip_route_table ot) -> rib_add_route t n nh v m tags s = Ok (s, true)
  | None => rib_ready s (net_id n) r ->
      exists s', rib_add_route t n nh v m tags s = Ok (s', true) /\ rib_inv s' /\ frame s s' p (net_id n) (Some r)
  end.
Proof.
  intros Hc Ht Hp Hw Hn r. rewrite rib_add_route_eq, Ht, Hw by done. destruct (stored s p (net_id n)) as [g|] eqn:Eg.
  - intros Htr. unfold ot_add_route, origin_store, lookup_ip_route. rewrite Hp, t_lookup_model by done.
    unfold stored in Eg. rewrite Hp in Eg. cbn [r_net peer_route]. by rewrite Eg.
  - intros Hr. destruct (ot_add_ok s p ot (peer_route t n nh w m tags) Hp Hn eq_refl) as (s' & -> & Hi & Hf);
      rewrite ?key_peer_route; try done. cbn. eauto.
Qed.

Lemma rib_add_inv s t n nh v m tags : rib_inv s -> net_wf n -> (find_origin_table s t = None -> errors_are_fatal s = false) ->
  (forall p, find_origin_table s t = Some p -> fst p = EGP -> v = ""%string -> is_Some (peer_of s nh v)) ->
  exists s' b, rib_add_route t n nh v m tags s = Ok (s', b) /\ rib_inv s' /\ vifs s' = vifs s.
Proof.
  intros Hi Hn Hfat Hdir. pose proof Hi as ((Hto & _ & Hc) & _).
  destruct (find_origin_table s t) as [p|] eqn:Et.
  2: { rewrite rib_add_route_eq, Et, (Hfat eq_refl) by done. eauto. }
  destruct (find_origin_inv _ _ _ Et) as [ot Hp]. destruct (peer_of s nh v) as [w|] eqn:Ew.
  - pose proof (rib_add_ok s t p ot n nh v w m tags Hc Et Hp Ew Hn) as Ha. cbn zeta in Ha.
    destruct (stored s p (net_id n)).
    + rewrite Ha by (by apply (to_routes _ Hto _ _ Hp)). eauto.
    + destruct Ha as (s' & E & Hi' & _ & _ & _ & Ev & _); [by apply inv_ready|]. eauto.
  - rewrite rib_add_route_eq, Et, Ew by done. specialize (Hdir p eq_refl).
    destruct (bool_decide_reflect (v = ""%string)), (bool_decide_reflect (fst p = EGP)); cbn; eauto.
    by destruct Hdir as [? ?].
Qed.

Lemma rib_delete_ok s t n : rib_inv s -> net_wf n ->
  exists s' b, rib_delete_route t n s = Ok (s', b) /\ rib_inv s' /\ vifs s' = vifs s
    /\ forall p, find_origin_table s t = Some p -> frame s s' p (net_id n) None.
Proof.
  intros Hi Hn. unfold rib_delete_route. destruct (find_origin_table s t) as [p|] eqn:Et; [|by exists s, false].
  destruct (find_origin_inv _ _ _ Et) as [ot Hp]. pose proof (ot_delete_ok s p ot n false Hi Hp Hn ltac:(done)) as Hd.
  destruct (stored s p (net_id n)) as [r|] eqn:Er.
  - destruct Hd as (s' & -> & Hf & Hi'). exists s', true. pose proof Hf as (_ & _ & _ & Ev & _).
    split_conj; try done. by intros ? [= <-].
  - rewrite Hd. exists s, false. split_conj; try done. intros ? [= <-]. unfold frame. split_conj; try done.
    intros q j. destruct (decide _) as [[-> ->]|]; done.
Qed.

(** [RIB::replace_route] in an internal table, when the new next hop is connected. *)
Lemma rib_replace_ok s t p n nh v w m tags : rib_inv s -> net_wf n -> find_origin_table s t = Some p -> fst p = IGP ->
  peer_of s nh v = Some w -> (v = ""%string -> p <> (IGP, "connected"%string)) ->
  exists s' b, rib_replace_route t n nh v m tags s = Ok (s', b) /\ rib_inv s'.
Proof.
  intros Hi Hn Et Hty Hw Hnc. pose proof Hi as ((Hto & _ & Hc) & _). destruct (find_origin_inv _ _ _ Et) as [ot Hp].
  unfold rib_replace_route. rewrite Et. pose proof (ot_delete_ok s p ot n true Hi Hp Hn ltac:(done)) as Hd.
  destruct (stored s p (net_id n)) as [g|]; [|rewrite Hd; cbn; eauto].
  destruct Hd as (s1 & -> & Hf & Hr). cbn [result_bind snd fst]. pose proof Hf as (Hst & Hq & Had & Ev & _).
  assert (find_origin_table s1 t = Some p) as Et1 by (by rewrite (frame_find _ _ _ _ _ _ Hf) by eauto).
  destruct (find_origin_inv _ _ _ Et1) as [ot1 Hp1]. rewrite Hp, Hp1 in Had. injection Had as Had.
  set (r := set_admin_distance (ot_admin_distance ot1) (peer_route t n nh w m tags)).
  destruct (Hr r) as [Hb1 Hr1]; [done|]. destruct Hb1 as (Hto1 & Hv1 & Hc1).
  assert (peer_of s1 nh v = Some w) as Hw1.
  { rewrite <- Hw. unfold peer_of. destruct (bool_decide_reflect (v = ""%string)) as [Hv|]; [|by rewrite Ev].
    pose proof (Hq (IGP, "connected"%string) ltac:(intros E; by apply (Hnc Hv))) as E. unfold find_table in E. cbn in E. by rewrite E. }
  pose proof (rib_add_ok s1 t p ot1 n nh v w m tags Hc1 Et1 Hp1 Hw1 Hn) as Ha. cbn zeta in Ha.
  rewrite Hst, decide_True in Ha by done. destruct Ha as (s' & E & Hi' & _); [by apply Hr|]. eauto.
Qed.

(** ** Tables and distances *)

(** No table has distance [ad], except perhaps the table at [p]. *)
Definition ad_free s p (ad : Z) : Prop := forall q ot, find_table s q = Some ot -> ot_admin_distance ot = ad -> q = p.

(** A table without routes comes, or changes its distance. *)
Lemma inv_retable s s' p ot' : rib_core s -> tables_ok s' -> vifs s' = vifs s -> (forall k, stored s p k = None) ->
  find_table s' p = Some ot' -> trie_model (ip_route_table ot') = ∅ -> (forall q, q <> p -> find_table s' q = find_table s q) ->
  (exists i x t, ext_int_table s' = set_ads i x t (ext_int_table s)) -> rib_core s'.
Proof.
  intros (Hto & Hv & W & I & Hrep & Hk) Hto' Ev Hno Hp' Hemp Hq (i & x & t & Ee). split; [done|].
  split; [unfold vifs_ok in *; by rewrite Ev|]. exists W, I. split; [by rewrite Ee|]. intros k.
  assert (forall q, stored s' q k = stored s q k) as Hst.
  { intros q. destruct (decide (q = p)) as [->|Hne]; [|unfold stored; by rewrite Hq].
    rewrite Hno. unfold stored. by rewrite Hp', Hemp, lookup_empty. }
  assert (forall q g, stored s q k = Some g -> q <> p) as Hnp by (intros q g Hg ->; by rewrite Hno in Hg).
  assert (forall a, cand s k a = cand s' k a) as Hcc.
  { intros a. destruct (cand s k a) as [g|] eqn:E; [|destruct (cand s' k a) as [g|] eqn:E'; [|done]].
    - destruct (cand_inv _ _ _ _ Hto E) as (q & ot & Hf & <- & Hs). rewrite <- (Hq q (Hnp _ _ Hs)) in Hf.
      by rewrite (cand_stored _ _ _ _ Hto' Hf), Hst.
    - destruct (cand_inv _ _ _ _ Hto' E') as (q & ot & Hf & <- & Hs). rewrite Hst in Hs. rewrite (Hq q (Hnp _ _ Hs)) in Hf.
      rewrite (cand_stored _ _ _ _ Hto Hf) in E. congruence. }
  apply (key_ok_ext _ (cand s k)); [done|]. apply (key_ok_sets (ext_int_table s)); [done|].
  intros ad g Hg. destruct (cand_inv _ _ _ _ Hto Hg) as (q & ot & Hf & <- & Hs). pose proof (Hnp _ _ Hs) as Hne.
  rewrite (to_igp _ Hto), (to_igp _ Hto').
  assert ((ot_admin_distance ot, q) ∈ all_tables (ext_int_table s)) as H1 by (apply to_listed; eauto).
  assert ((ot_admin_distance ot, q) ∈ all_tables (ext_int_table s')) as H2 by (apply to_listed; [done|]; rewrite Hq; eauto).
  split; intros (name & Hx); exists name.
  - by rewrite <- (find_unique _ _ _ _ (to_sorted _ Hto') H2 Hx).
  - by rewrite <- (find_unique _ _ _ _ (to_sorted _ Hto) H1 Hx).
Qed.

Lemma empty_routes_ok ty ad : table_routes_ok (mkOrigin ty ad (trie_empty : Trie A route)).
Proof. split; [apply trie_empty_ok|]. intros k g Hg. cbn in Hg. by rewrite lookup_empty in Hg. Qed.

Lemma connected_kept s p ot : is_Some (igp_origin_tables s !! "connected"%string) ->
  is_Some (igp_origin_tables (set_table p ot s) !! "connected"%string).
Proof.
  intros Hc. change (is_Some (find_table (set_table p ot s) (IGP, "connected"%string))). rewrite find_set_table.
  destruct (decide _); [eauto|done].
Qed.

(** The tables of ExtIntTable after table [p] got distance [ad] and left [old]. *)
Lemma tables_ok_move s p ot (ad : Z) (t0 : list (Z * table_ptr)) (i0 e0 : gset Z) : tables_ok s -> ad_free s p ad ->
  table_routes_ok ot -> ot_admin_distance ot = ad -> ot_type ot = fst p -> m_sorted t0 ->
  (forall a q, (a, q) ∈ t0 <-> q <> p /\ (a, q) ∈ all_tables (ext_int_table s)) ->
  (forall a, a ∈ i0 <-> exists n, (a, (IGP, n)) ∈ t0) -> (forall a, a ∈ e0 <-> exists n, (a, (EGP, n)) ∈ t0) ->
  tables_ok (set_ext (set_ads (match fst p with IGP => {[ad]} ∪ i0 | EGP => i0 end)
                        (match fst p with IGP => e0 | EGP => {[ad]} ∪ e0 end)
                        (m_insert ad p t0) (ext_int_table s)) (set_table p ot s)).
Proof.
  intros Hto Hfree Hrt Ead Ety Hs Ht Hi He.
  assert (forall a q, (a, q) ∈ m_insert ad p t0 <-> (a = ad /\ q = p) \/ (a, q) ∈ t0) as Hin.
  { intros a q. rewrite insert_elem by done. split; [tauto|]. intros [?|Hq]; [auto|right]. split; [|done]. intros ->.
    apply Ht in Hq as [Hne Hq]. apply to_listed in Hq as (o & Ho & Eo); [|done]. by destruct Hne; eapply Hfree. }
  split; cbn [ext_int_table set_ext all_tables set_ads igp_ad_set egp_ad_set].
  - by apply insert_sorted.
  - intros a q. rewrite Hin, Ht, find_set_ext, find_set_table. destruct (decide (p = q)) as [<-|Hne].
    + split; [intros [[-> _]|[? _]]; [eauto|done]|]. intros (o & [= <-] & <-). auto.
    + rewrite (to_listed _ Hto). split; [intros [[_ ->]|[_ ?]]; done|auto].
  - intros a. destruct p as [[] name]; cbn [fst]; rewrite ?elem_of_union, ?elem_of_singleton, Hi; split.
    + intros [->|[x ?]]; [exists name|exists x]; apply Hin; auto.
    + intros (x & [[-> _]|?]%Hin); eauto.
    + intros [x ?]. exists x. apply Hin. auto.
    + intros (x & [[_ ?]|?]%Hin); [done|eauto].
  - intros a. destruct p as [[] name]; cbn [fst]; rewrite ?elem_of_union, ?elem_of_singleton, He; split.
    + intros [x ?]. exists x. apply Hin. auto.
    + intros (x & [[_ ?]|?]%Hin); [done|eauto].
    + intros [->|[x ?]]; [exists name|exists x]; apply Hin; auto.
    + intros (x & [[-> _]|?]%Hin); eauto.
  - intros q o. rewrite find_set_ext, find_set_table. destruct (decide (p = q)); [by intros [= <-]|apply (to_routes _ Hto)].
  - intros q o. rewrite find_set_ext, find_set_table. destruct (decide (p = q)) as [<-|]; [by intros [= <-]|apply (to_type _ Hto)].
Qed.

Lemma add_table_ok s ty name : rib_core s ->
  (find_table s (ty, name) = None ->
     u16 (get_protocol_admin_distance s name) <= 255 /\ ad_free s (ty, name) (u16 (get_protocol_admin_distance s name))) ->
  exists s', add_origin_table ty name s = Ok s' /\ rib_core s' /\ is_Some (find_table s' (ty, name))
    /\ forall q, q <> (ty, name) -> find_table s' q = find_table s q.
Proof.
  intros Hi Hfree. pose proof Hi as (Hto & Hv & _). unfold add_origin_table.
  destruct (find_table s (ty, name)) as [ot|] eqn:Hp; [exists s; rewrite Hp; by eauto|]. destruct (Hfree eq_refl) as [Hle Hf]. clear Hfree.
  set (ad := u16 _) in *. unfold origin_new. rewrite (proj2 (Z.ltb_ge _ _)) by lia. cbn [result_bind ot_admin_distance].
  assert (forall q, (ad, q) ∉ all_tables (ext_int_table s)) as Hnot.
  { intros q Hin. apply to_listed in Hin as (o & Ho & Eo); [|done]. pose proof (Hf q o Ho Eo). congruence. }
  assert (forall a q, (a, q) ∈ all_tables (ext_int_table s) <-> q <> (ty, name) /\ (a, q) ∈ all_tables (ext_int_table s)) as Ht.
  { intros a q. split; [|tauto]. intros Hin. split; [|done]. intros ->. apply to_listed in Hin as (o & Ho & _); [|done]. congruence. }
  pose proof (tables_ok_move s (ty, name) (mkOrigin ty ad trie_empty) ad _ _ _ Hto Hf (empty_routes_ok ty ad) eq_refl eq_refl
    (to_sorted _ Hto) Ht (to_igp _ Hto) (to_egp _ Hto)) as Hto'. cbn [fst] in Hto'.
  unfold add_protocol_table. cbn [fst].
  rewrite (bool_decide_eq_false_2 (ad ∈ _)).
  2: { destruct ty; [rewrite (to_igp _ Hto)|rewrite (to_egp _ Hto)]; intros (n & Hn); by apply Hnot in Hn. }
  rewrite (bool_decide_eq_false_2 (is_Some _)).
  2: { intros [q Hq]. apply find_elem in Hq; [|by apply Hto]. by apply Hnot in Hq. }
  cbn [result_bind]. eexists. split; [done|].
  rewrite find_set_ext, find_set_table, decide_True by done. split; [|split; [done|]].
  2: { intros q Hq. rewrite find_set_ext, find_set_table. by rewrite decide_False. }
  apply (inv_retable s _ (ty, name) (mkOrigin ty ad trie_empty)); try done.
  - by destruct ty.
  - cbn [set_ext vifs]. apply vifs_set_table.
  - intros k. unfold stored. by rewrite Hp.
  - rewrite find_set_ext, find_set_table. by rewrite decide_True.
  - intros q Hq. rewrite find_set_ext, find_set_table. by rewrite decide_False.
  - destruct ty; eauto.
Qed.

(** ExtIntTable without the table at [p]. *)
Definition ads_without s p (old : Z) (ty : ProtocolType) : gset Z :=
  let ads := match ty with IGP => igp_ad_set (ext_int_table s) | EGP => egp_ad_set (ext_int_table s) end in
  if bool_decide (ty = fst p) then ads ∖ {[old]} else ads.

Lemma tables_erase s p ot : tables_ok s -> find_table s p = Some ot ->
  let old := ot_admin_distance ot in let t0 := m_erase old (all_tables (ext_int_table s)) in
  (old, p) ∈ all_tables (ext_int_table s)
  /\ (forall a q, (a, q) ∈ t0 <-> q <> p /\ (a, q) ∈ all_tables (ext_int_table s))
  /\ (forall a, a ∈ ads_without s p old IGP <-> exists n, (a, (IGP, n)) ∈ t0)
  /\ (forall a, a ∈ ads_without s p old EGP <-> exists n, (a, (EGP, n)) ∈ t0).
Proof.
  intros Hto Hp old t0. assert ((old, p) ∈ all_tables (ext_int_table s)) as Hold by (apply to_listed; eauto).
  assert (forall a q, (a, q) ∈ t0 <-> a <> old /\ (a, q) ∈ all_tables (ext_int_table s)) as Ht' by (intros; apply erase_elem, Hto).
  assert (forall a q, (a, q) ∈ t0 <-> q <> p /\ (a, q) ∈ all_tables (ext_int_table s)) as Ht.
  { intros a q. rewrite Ht'. split; intros [Hne Hin]; (split; [|done]).
    - intros ->. apply to_listed in Hin as (o & Ho & Eo); [|done]. apply Hne. unfold old. congruence.
    - intros ->. by pose proof (find_unique _ _ _ _ (to_sorted _ Hto) Hin Hold). }
  assert (forall a ty, a ∈ match ty with IGP => igp_ad_set (ext_int_table s) | EGP => egp_ad_set (ext_int_table s) end
            <-> exists n, (a, (ty, n)) ∈ all_tables (ext_int_table s)) as Hads
    by (intros a []; [apply (to_igp _ Hto)|apply (to_egp _ Hto)]).
  assert (forall a ty, a ∈ ads_without s p old ty <-> exists n, (a, (ty, n)) ∈ t0) as Hw.
  { intros a ty. unfold ads_without. destruct (bool_decide_reflect (ty = fst p)) as [|Hne].
    - rewrite elem_of_difference, elem_of_singleton, Hads. split; [intros [[n Hn] Hne]; exists n; by apply Ht'|].
      intros (n & [Hne Hn]%Ht'). eauto.
    - rewrite Hads. split; [intros [n Hn]; exists n; apply Ht; split; [by intros <-|done]|]. intros (n & [_ Hn]%Ht). eauto. }
  auto.
Qed.

Lemma set_distance_ok s name ad : rib_inv s ->
  (forall p, find_origin_table s name = Some p -> ad_free s p (u16 ad)) ->
  exists s' b, set_protocol_admin_distance name ad s = Ok (s', b) /\ rib_inv s'.
Proof.
  intros Hi Hfree. unfold set_protocol_admin_distance.
  assert (forall s1, rib_inv s1 -> exists s' b, (Ok (set_distances (<[name:=ad]> (admin_distances s1)) s1, true) : result xorp_exn (RIB A * bool)) = Ok (s', b) /\ rib_inv s') as Hrem.
  { intros s1 ((Hto & Hv & Hc) & W & I & Hrep & Hk). eexists _, _. split; [done|]. split; [|by exists W, I].
    unfold base. split_conj; [|done|done]. by destruct Hto. }
  destruct (admin_distances s !! name); [|by apply Hrem].
  destruct (find_origin_table s name) as [p|] eqn:Et; [|by apply Hrem].
  destruct (find_origin_inv _ _ _ Et) as [ot Hp]. rewrite Hp. specialize (Hfree p eq_refl).
  destruct (Z.ltb_spec 0 (route_count ot)) as [|Hcnt]; [eauto|].
  pose proof Hi as ((Hto & Hv & Hc) & _). destruct (to_routes _ Hto _ _ Hp) as [Htr Hrs].
  assert (trie_model (ip_route_table ot) = ∅) as Hemp.
  { apply map_size_empty_inv. destruct Htr as [_ Hn]. unfold route_count in Hcnt. lia. }
  destruct (tables_erase s p ot Hto Hp) as (Hold & Ht & Hi0 & He0).
  set (ot' := mkOrigin (ot_type ot) (u16 ad) (ip_route_table ot)).
  assert (table_routes_ok ot') as Hrt by (split; [done|]; intros k g; cbn; rewrite Hemp, lookup_empty; done).
  pose proof (tables_ok_move s p ot' (u16 ad) _ _ _ Hto Hfree Hrt eq_refl (to_type _ Hto _ _ Hp)
    ltac:(apply erase_sorted; [by apply Hto]) Ht Hi0 He0) as Hto'.
  pose proof (ad_known _ _ _ Hto Hp) as Hkn. unfold change_admin_distance.
  rewrite (bool_decide_eq_true_2 (ot_admin_distance ot ∈ _)) by (by destruct (fst p)). cbn [negb].
  rewrite (proj2 (find_elem _ _ _ (to_sorted _ Hto)) Hold), bool_decide_eq_true_2 by done. cbn [negb result_bind].
  apply Hrem, rib_inv_core. split; [|by apply (connected_kept s p)]. apply rib_inv_core in Hi as [Hi _].
  apply (inv_retable s _ p ot'); try done.
  - by destruct p as [[] pn].
  - cbn [set_ext vifs]. apply vifs_set_table.
  - intros k. unfold stored. by rewrite Hp, Hemp, lookup_empty.
  - rewrite find_set_ext, find_set_table. by rewrite decide_True.
  - intros q Hq. rewrite find_set_ext, find_set_table. by rewrite decide_False.
  - destruct (fst p); eauto.
Qed.

(** ** Interfaces *)
Lemma inv_set_vifs s v : rib_inv s -> vifs_ok (set_vifs v s) -> rib_inv (set_vifs v s).
Proof.
  intros ((Hto & _ & Hc) & W & I & Hrep & Hk) Hv. split; [|by exists W, I].
  unfold base. split_conj; [|done|done]. by destruct Hto.
Qed.

Lemma vifs_insert_ok s name w : vifs_ok s -> name <> ""%string -> Forall vif_addr_wf (addr_list w) ->
  vifs_ok (set_vifs (<[name := w]> (vifs s)) s).
Proof.
  intros [He Hv] Hne Hw. split; cbn; [by rewrite lookup_insert_ne|].
  intros nm x [[<- <-]|[_ Hx]]%lookup_insert_Some; [done|by eapply Hv].
Qed.

Lemma connected_found s : is_Some (igp_origin_tables s !! "connected"%string) -> find_origin_table s "connected"%string <> None.
Proof. intros [ot E]. unfold find_origin_table. destruct (egp_origin_tables s !! _); [done|]. by rewrite E. Qed.

Lemma peer_net_ok w n peer : a_wf peer ->
  exists o, peer_net w n peer = Ok o /\ match o with Some h => net_wf h | None => True end.
Proof.
  intros Hp. unfold peer_net. destruct (_ && _); [|by eexists]. pose proof (bitlen_pos (A := A)).
  destruct (net_new_ok peer addr_bitlen Hp) as (h & -> & Hh & _); [lia|]. cbn. eauto.
Qed.

Lemma add_connected_ok s name w n a peer : rib_inv s -> name <> ""%string -> net_wf n -> a_wf peer ->
  exists s', add_connected_route name w n a peer s = Ok s' /\ rib_inv s' /\ vifs s' = vifs s.
Proof.
  intros Hi Hne Hn Hp. unfold add_connected_route.
  assert (forall s n a, rib_inv s -> net_wf n -> exists s' b, rib_add_route "connected"%string n a name 0 [] s = Ok (s', b)
            /\ rib_inv s' /\ vifs s' = vifs s) as Hadd.
  { intros s1 n1 a1 Hi1 Hn1. apply rib_add_inv; try done. intros E. apply connected_found in E; [done|]. apply Hi1. }
  destruct (Hadd s n a Hi Hn) as (s1 & b & -> & Hi1 & Ev1). cbn [result_bind fst].
  destruct (peer_net_ok w n peer Hp) as ([h|] & -> & Hh); cbn [result_bind]; [|eauto].
  destruct (Hadd s1 h peer Hi1 Hh) as (s2 & b2 & -> & Hi2 & Ev2). cbn. exists s2. by rewrite Ev2.
Qed.

Lemma delete_connected_ok s w n peer : rib_inv s -> net_wf n -> a_wf peer ->
  exists s', delete_connected_route w n peer s = Ok s' /\ rib_inv s' /\ vifs s' = vifs s.
Proof.
  intros Hi Hn Hp. unfold delete_connected_route.
  destruct (rib_delete_ok s "connected"%string n Hi Hn) as (s1 & b & -> & Hi1 & Ev1 & _). cbn [result_bind fst].
  destruct (peer_net_ok w n peer Hp) as ([h|] & -> & Hh); cbn [result_bind]; [|eauto].
  destruct (rib_delete_ok s1 "connected"%string h Hi1 Hh) as (s2 & b2 & -> & Hi2 & Ev2 & _). cbn. exists s2. by rewrite Ev2.
Qed.

Lemma add_connected_all_ok name w l s : rib_inv s -> name <> ""%string -> Forall vif_addr_wf l ->
  exists s', add_connected_routes name w l s = Ok s' /\ rib_inv s' /\ vifs s' = vifs s.
Proof.
  intros Hi Hne Hl. revert s Hi. induction Hl as [|a l (_ & Hn & _ & Hp) _ IH]; intros s Hi; cbn [add_connected_routes]; [eauto|].
  destruct (add_connected_ok s name w _ (va_addr a) _ Hi Hne Hn Hp) as (s1 & -> & Hi1 & Ev1). cbn [result_bind].
  destruct (IH s1 Hi1) as (s2 & -> & Hi2 & Ev2). exists s2. by rewrite Ev2.
Qed.

Lemma delete_connected_all_ok w l s : rib_inv s -> Forall vif_addr_wf l ->
  exists s', delete_connected_routes w l s = Ok s' /\ rib_inv s' /\ vifs s' = vifs s.
Proof.
  intros Hi Hl. revert s Hi. induction Hl as [|a l (_ & Hn & _ & Hp) _ IH]; intros s Hi; cbn [delete_connected_routes]; [eauto|].
  destruct (delete_connected_ok s w _ _ Hi Hn Hp) as (s1 & -> & Hi1 & Ev1). cbn [result_bind].
  destruct (IH s1 Hi1) as (s2 & -> & Hi2 & Ev2). exists s2. by rewrite Ev2.
Qed.

(** ** Runs *)
Inductive rib_op :=
  | OAddTable (ty : ProtocolType) (name : string)
  | OSetDistance (name : string) (ad : Z)
  | OAdd (t : string) (n : IPNet A) (nh : A) (v : string) (m : Z) (tags : list Z)
  | OReplace (t : string) (n : IPNet A) (nh : A) (v : string) (m : Z) (tags : list Z)
  | ODelete (t : string) (n : IPNet A)
  | ONewVif (name : string) (w : RibVif A)
  | ODeleteVif (name : string)
  | OVifFlags (name : string) (p2p up : bool)
  | OAddAddr (name : string) (a : VifAddr A)
  | ODeleteAddr (name : string) (a : A).

Definition rib_exec (o : rib_op) s : result xorp_exn (RIB A * bool) :=
  match o with
  | OAddTable ty name => x <-! add_origin_table ty name s ;; Ok (x, true)
  | OSetDistance name ad => set_protocol_admin_distance name ad s
  | OAdd t n nh v m tags => rib_add_route t n nh v m tags s
  | OReplace t n nh v m tags => rib_replace_route t n nh v m tags s
  | ODelete t n => rib_delete_route t n s
  | ONewVif name w => new_vif name w s
  | ODeleteVif name => delete_vif name s
  | OVifFlags name p2p up => set_vif_flags name p2p up s
  | OAddAddr name a => add_vif_address name a s
  | ODeleteAddr name a => delete_vif_address name a s
  end.

Fixpoint rib_run (l : list rib_op) s : result xorp_exn (RIB A) :=
  match l with [] => Ok s | o :: l => x <-! rib_exec o s ;; rib_run l (fst x) end.

(** The subnets and addresses of an operation are well formed, and an interface has a name. *)
Definition rib_op_wf (o : rib_op) : Prop :=
  match o with
  | OAdd _ n _ _ _ _ | OReplace _ n _ _ _ _ | ODelete _ n => net_wf n
  | ONewVif name w => name <> ""%string /\ Forall vif_addr_wf (addr_list w)
  | OAddAddr _ a => vif_addr_wf a
  | _ => True
  end.

(** When an operation is allowed: the distances of the tables differ and fit, the next hop of a route in an external
    table is connected, a route that is replaced is internal and its new next hop is connected. *)
Definition allowed (o : rib_op) s : bool :=
  match o with
  | OAddTable ty name =>
      let ad := u16 (get_protocol_admin_distance s name) in
      match find_table s (ty, name), m_find ad (all_tables (ext_int_table s)) with
      | None, None => ad <=? 255
      | None, Some _ => false
      | Some _, _ => true
      end
  | OSetDistance name ad =>
      match find_origin_table s name, m_find (u16 ad) (all_tables (ext_int_table s)) with
      | Some p, Some q => bool_decide (q = p)
      | _, _ => true
      end
  | OAdd t n nh v _ _ =>
      match find_origin_table s t with
      | None => negb (errors_are_fatal s)
      | Some (EGP, _) => negb (bool_decide (v = ""%string)) || bool_decide (is_Some (peer_of s nh v))
      | Some (IGP, _) => true
      end
  | OReplace t n nh v _ _ =>
      match find_origin_table s t with
      | None => true
      | Some (EGP, _) => false
      | Some (IGP, name) =>
          bool_decide (is_Some (peer_of s nh v))
          && negb (bool_decide (v = ""%string) && bool_decide (name = "connected"%string))
      end
  | _ => true
  end.

(** Every operation of a run is allowed in the state it finds. *)
Fixpoint allowed_run (l : list rib_op) s : bool :=
  match l with
  | [] => true
  | o :: l => allowed o s && match rib_exec o s with Ok (s', _) => allowed_run l s' | Throw _ => true end
  end.

Lemma ad_free_find s p ad : tables_ok s -> (forall q, m_find ad (all_tables (ext_int_table s)) = Some q -> q = p) -> ad_free s p ad.
Proof. intros Hto Hm q ot Hq <-. apply Hm. by apply table_found. Qed.

Lemma vif_name_ok s name w : vifs_ok s -> vifs s !! name = Some w -> name <> ""%string /\ Forall vif_addr_wf (addr_list w).
Proof. intros [He Hv] Hw. split; [|by eapply Hv]. intros ->. congruence. Qed.

Lemma erase_address_wf a l : Forall vif_addr_wf l -> Forall vif_addr_wf (erase_address a l).
Proof. induction 1 as [|x l Hx Hl IH]; cbn; [by constructor|]. destruct (a_eqb _ _); [done|by constructor]. Qed.

Lemma vif_ops_ok o s : rib_inv s -> rib_op_wf o ->
  match o with ONewVif _ _ | ODeleteVif _ | OVifFlags _ _ _ | OAddAddr _ _ | ODeleteAddr _ _ => True | _ => False end ->
  exists s' b, rib_exec o s = Ok (s', b) /\ rib_inv s'.
Proof.
  intros Hi Hc Ho. pose proof Hi as ((_ & Hv & _) & _). destruct o as [| | | | |name w|name|name p2p up|name a|name a]; try done; cbn [rib_exec].
  - unfold new_vif. destruct (vifs s !! name) eqn:E; [eauto|]. destruct Hc as [Hne Hw].
    pose proof (inv_set_vifs s _ Hi (vifs_insert_ok _ _ _ Hv Hne Hw)) as Hi1. destruct (is_underlying_vif_up w); [|cbn; eauto].
    destruct (add_connected_all_ok name w (addr_list w) _ Hi1 Hne Hw) as (s2 & -> & Hi2 & _). cbn. eauto.
  - unfold delete_vif. destruct (vifs s !! name) as [w|] eqn:E; [|eauto]. destruct (vif_name_ok _ _ _ Hv E) as [Hne Hw].
    assert (exists s1, (if is_underlying_vif_up w then delete_connected_routes w (addr_list w) s else Ok s) = Ok s1 /\ rib_inv s1 /\ vifs s1 = vifs s)
      as (s1 & -> & Hi1 & Ev) by (destruct (is_underlying_vif_up w); [by apply delete_connected_all_ok|eauto]).
    cbn. eexists _, _. split; [done|]. apply inv_set_vifs; [done|]. destruct Hv as [He Hv]. split; cbn; rewrite Ev.
    + rewrite lookup_delete_ne by done. done.
    + intros nm x [_ Hx]%lookup_delete_Some. by eapply Hv.
  - unfold set_vif_flags. destruct (vifs s !! name) as [w|] eqn:E; [|eauto]. destruct (vif_name_ok _ _ _ Hv E) as [Hne Hw].
    pose proof (inv_set_vifs s _ Hi (vifs_insert_ok _ _ (mkVif p2p up (addr_list w)) Hv Hne Hw)) as Hi1.
    destruct (Bool.eqb _ _); [eauto|]. destruct up.
    + destruct (add_connected_all_ok name (mkVif p2p true (addr_list w)) (addr_list w) _ Hi1 Hne Hw) as (s2 & -> & Hi2 & _). cbn. eauto.
    + destruct (delete_connected_all_ok (mkVif p2p false (addr_list w)) (addr_list w) _ Hi1 Hw) as (s2 & -> & Hi2 & _). cbn. eauto.
  - unfold add_vif_address. destruct (vifs s !! name) as [w|] eqn:E; [|eauto]. destruct (vif_name_ok _ _ _ Hv E) as [Hne Hw].
    assert (Forall vif_addr_wf (addr_list (vif_add_address a w))) as Hw'.
    { unfold vif_add_address. case_if; [done|]. cbn. apply Forall_app. auto. }
    pose proof (inv_set_vifs s _ Hi (vifs_insert_ok _ _ _ Hv Hne Hw')) as Hi1. destruct (is_underlying_vif_up _); [|cbn; eauto].
    destruct Hc as (_ & Hn & _ & Hp).
    destruct (add_connected_ok _ name (vif_add_address a w) _ (va_addr a) _ Hi1 Hne Hn Hp) as (s2 & -> & Hi2 & _). cbn. eauto.
  - unfold delete_vif_address. destruct (vifs s !! name) as [w|] eqn:E; [|eauto]. destruct (vif_name_ok _ _ _ Hv E) as [Hne Hw].
    destruct (List.find _ (addr_list w)) as [x|] eqn:Ex; [|eauto]. apply find_some in Ex as [Hin _]. apply list_elem_of_In in Hin.
    pose proof (proj1 (Forall_forall _ _) Hw x Hin) as (_ & Hn & _ & Hp). set (w' := mkVif _ _ _).
    pose proof (inv_set_vifs s _ Hi (vifs_insert_ok _ name w' Hv Hne (erase_address_wf a _ Hw))) as Hi1.
    destruct (is_underlying_vif_up w'); [|cbn; eauto].
    destruct (delete_connected_ok _ w' _ _ Hi1 Hn Hp) as (s2 & -> & Hi2 & _). cbn. eauto.
Qed.

Lemma rib_exec_ok o s : rib_inv s -> rib_op_wf o -> allowed o s = true -> exists s' b, rib_exec o s = Ok (s', b) /\ rib_inv s'.
Proof.
  intros Hi Hn Hc. pose proof Hi as ((Hto & _ & _) & _).
  destruct o as [ty name|name ad|t n nh v m tags|t n nh v m tags|t n| | | | |]; try (by apply vif_ops_ok); cbn [rib_exec rib_op_wf allowed] in *.
  - apply rib_inv_core in Hi as [Hi Hcon]. destruct (add_table_ok s ty name Hi) as (s' & -> & Hi' & Hnew & Hq).
    { intros E. rewrite E in Hc. destruct (m_find _ _) eqn:Em; [done|]. split; [lia|]. apply ad_free_find; [done|]. intros q. by rewrite Em. }
    cbn. eexists _, _. split; [done|]. apply rib_inv_core. split; [done|].
    destruct (decide ((IGP, "connected"%string) = (ty, name))) as [[= <- <-]|Hne]; [done|].
    change (is_Some (find_table s' (IGP, "connected"%string))). by rewrite Hq.
  - apply set_distance_ok; [done|]. intros p E. rewrite E in Hc. apply ad_free_find; [done|]. intros q Hq. rewrite Hq in Hc.
    by apply bool_decide_eq_true in Hc.
  - destruct (rib_add_inv s t n nh v m tags Hi Hn) as (s' & b & -> & Hi' & _); [..|eauto].
    + intros E. rewrite E in Hc. by apply negb_true_iff in Hc.
    + intros p E Hty Hv. rewrite E in Hc. destruct p as [[] pn]; [done|]. rewrite (bool_decide_eq_true_2 _ Hv) in Hc.
      by apply bool_decide_eq_true in Hc.
  - destruct (find_origin_table s t) as [[[] pn]|] eqn:E; [|done|unfold rib_replace_route; rewrite E; eauto].
    apply andb_true_iff in Hc as [[w Hw]%bool_decide_eq_true Hnc].
    apply (rib_replace_ok s t (IGP, pn) n nh v w); try done. intros -> [= ->]. done.
  - destruct (rib_delete_ok s t n Hi Hn) as (s' & b & -> & Hi' & _). eauto.
Qed.

Lemma rib_run_ok l s : rib_inv s -> Forall rib_op_wf l -> allowed_run l s = true -> exists s', rib_run l s = Ok s' /\ rib_inv s'.
Proof.
  intros Hi Hw. revert s Hi. induction Hw as [|o l Ho _ IH]; intros s Hi Hc; cbn [rib_run allowed_run] in *; [eauto|].
  apply andb_true_iff in Hc as [Ha Hc]. destruct (rib_exec_ok o s Hi Ho Ha) as (s1 & b & E & Hi1). rewrite E in *. cbn. by apply IH.
Qed.
End RibOps.
