(* ===== verification/RibClaims.v ===== *)
(** * Theorems about the RIB

    Which routes the RIB installs in every run with connected next hops, what a lookup
    answers, what the operations store, and the runs that fail. *)

From Stdlib Require Import ZArith Lia String Sorted.
From stdpp Require Import base tactics option list numbers gmap strings.
From S2P Require Import Prelude Word32 Addr IPv4 IPNet Sample OMap Trie TrieSpec TrieMap RibTables ExtInt ExtIntProps RibKeys Rib RibProps.
From S2P Require Import RibRun.
Local Open Scope Z_scope.
Local Open Scope xorp_scope.

Section RibClaims.
Context `{AddrSpec A}.
Implicit Types (s : RIB A) (p q : table_ptr).

(** The route of table [p] for a subnet, as [OriginTable::lookup_ip_route] finds it. *)
Definition has_route s p (n : IPNet A) : option (IPRouteEntry A) :=
  match find_table s p with Some ot => lookup_ip_route ot n | None => None end.
(** The route that the final table holds for a subnet. *)
Definition installed s (n : IPNet A) : option (IPRouteEntry A) := t_lookup (rt_routes (next_table (ext_int_table s))) n.

(** Every subnet with a route has one installed, the one with the strictly lowest distance. *)
Definition installs_lowest s : Prop :=
  forall n, net_wf n ->
    match installed s n with
    | Some r => exists p, has_route s p n = Some r
                 /\ forall q g, q <> p -> has_route s q n = Some g -> admin_distance r < admin_distance g
    | None => forall q, has_route s q n = None
    end.

Lemma has_route_stored s p n : rib_inv s -> net_wf n -> has_route s p n = stored s p (net_id n).
Proof.
  intros ((Hto & _) & _) Hn. unfold has_route, stored, lookup_ip_route. destruct (find_table s p) as [ot|] eqn:Hp; [|done].
  apply t_lookup_model; [|done]. by apply (to_routes _ Hto _ _ Hp).
Qed.

(** The winner at a key, in terms of the tables. *)
Lemma winner_stored s k w i : tables_ok s -> key_ok (ext_int_table s) (cand s k) w i ->
  match w with
  | Some r => exists p, stored s p k = Some r /\ forall q g, q <> p -> stored s q k = Some g -> admin_distance r < admin_distance g
  | None => forall q, stored s q k = None
  end.
Proof.
  intros Hto Hk. pose proof (ko_lowest _ _ _ _ Hk) as Hl. destruct w as [r|]; cbn in Hl.
  - destruct Hl as [Hr Hl]. destruct (cand_inv _ _ _ _ Hto Hr) as (p & ot & Hp & Ead & Hs). exists p. split; [done|].
    intros q g Hne Hg. destruct (stored_inv _ _ _ _ Hto Hg) as (_ & _ & _ & oq & Hq & Eq).
    pose proof (Hl (ot_admin_distance oq) g ltac:(by rewrite (cand_stored _ _ _ _ Hto Hq))) as Hle.
    enough (ot_admin_distance oq <> ot_admin_distance ot) by lia. intros E. apply Hne. by eapply table_unique.
  - intros q. destruct (stored s q k) as [g|] eqn:Hg; [|done]. destruct (stored_inv _ _ _ _ Hto Hg) as (_ & _ & _ & oq & Hq & Eq).
    rewrite <- (cand_stored _ _ _ _ Hto Hq) in Hg. by rewrite Hl in Hg.
Qed.

Lemma inv_installs s : rib_inv s -> installs_lowest s.
Proof.
  intros Hi n Hn. pose proof Hi as ((Hto & _) & W & I & Hrep & Hk). destruct Hrep as (_ & _ & _ & _ & _ & (Ht & Em & _)).
  unfold installed. rewrite t_lookup_model, Em by done. pose proof (winner_stored _ _ _ _ Hto (Hk (net_id n))) as Hw.
  destruct (W !! net_id n) as [r|]; [|intros q; by rewrite has_route_stored].
  destruct Hw as (p & Hp & Hmin). exists p. rewrite has_route_stored by done. split; [done|].
  intros q g. rewrite has_route_stored by done. apply Hmin.
Qed.

Lemma empty_core d fatal : rib_core (mkRIB ∅ ∅ (extint_new : ExtIntTable A) d ∅ fatal).
Proof.
  assert (tables_ok (mkRIB ∅ ∅ (extint_new : ExtIntTable A) d ∅ fatal)) as Hto.
  { assert (forall p, find_table (mkRIB ∅ ∅ (extint_new : ExtIntTable A) d ∅ fatal) p = None) as Hf.
    { intros [[] n]; unfold find_table; cbn; apply lookup_empty. }
    split; cbn; try (intros; by rewrite Hf in *); [by constructor| | |].
    - intros ad p. rewrite elem_of_nil, Hf. split; [done|by intros (? & ? & _)].
    - intros ad. rewrite elem_of_empty. split; [done|]. by intros (n & ?%elem_of_nil).
    - intros ad. rewrite elem_of_empty. split; [done|]. by intros (n & ?%elem_of_nil). }
  split; [done|]. split; [split; [done|]; intros ? ? E; cbn in E; by rewrite lookup_empty in E|].
  exists ∅, ∅. split.
  - unfold rep, no_resolution. split_conj; try done. apply redist_new_ok.
  - intros k. rewrite lookup_empty. by split.
Qed.

Lemma rib_new_ok static fatal : exists s, rib_new static fatal = Ok s /\ rib_inv s.
Proof.
  unfold rib_new, add_igp_table. set (s0 := mkRIB _ _ _ _ _ _).
  assert (get_protocol_admin_distance s0 "connected"%string = 0) as E.
  { unfold get_protocol_admin_distance, default_distances, s0. cbn. by rewrite lookup_insert_eq. }
  destruct (add_table_ok s0 IGP "connected"%string (empty_core _ _)) as (s & -> & Hi & Hc & _).
  - intros _. rewrite E. split; [done|]. intros [[] q] ot Hq; unfold find_table in Hq; cbn in Hq; by rewrite lookup_empty in Hq.
  - exists s. split; [done|]. by apply rib_inv_core.
Qed.

(** C3: In every run of the RIB in which the next hops are connected, the distances of
    the tables differ and no external route is replaced, no assertion fails, in the RIB
    or in the table after it, and for every subnet the route that is installed is the
    stored one with the lowest administrative distance; no subnet with a stored route is
    left without one. *)
Theorem rib_run_correct static fatal s0 l : rib_new static fatal = Ok s0 -> Forall rib_op_wf l -> allowed_run l s0 = true ->
  exists s, rib_run l s0 = Ok s /\ installs_lowest s.
Proof.
  intros E Hwf Hc. destruct (rib_new_ok static fatal) as (s1 & E1 & Hi). rewrite E in E1. injection E1 as <-.
  destruct (rib_run_ok l s0 Hi Hwf Hc) as (s & -> & Hi'). eauto using inv_installs.
Qed.

(** C18: In every run in which the next hops of external routes are connected, the distances
    of the tables differ and no external route is replaced, the route that the RIB finds for
    an address is that of the longest subnet with a route in any table, and among the routes
    of this subnet the one with the lowest distance; it finds none only when no table has a
    route for the address. *)
Theorem rib_lookup_correct static fatal s0 l s a : rib_new static fatal = Ok s0 -> Forall rib_op_wf l -> allowed_run l s0 = true ->
  rib_run l s0 = Ok s -> a_wf a ->
  match lookup_route_addr (ext_int_table s) a with
  | Some r => in_net (a_val a) (r_net r)
      /\ (exists p, has_route s p (r_net r) = Some r
            /\ forall q g, q <> p -> has_route s q (r_net r) = Some g -> admin_distance r < admin_distance g)
      /\ forall q n g, net_wf n -> has_route s q n = Some g -> in_net (a_val a) n -> prefix_len n <= prefix_len (r_net r)
  | None => forall q n g, net_wf n -> has_route s q n = Some g -> ~ in_net (a_val a) n
  end.
Proof.
  intros E Hwf Hc Er Ha. destruct (rib_new_ok static fatal) as (s1 & E1 & Hi). rewrite E in E1. injection E1 as <-.
  destruct (rib_run_ok l s0 Hi Hwf Hc) as (s' & Er' & Hi'). rewrite Er in Er'. injection Er' as <-.
  pose proof Hi' as ((Hto & _) & W & I & (_ & Hw & Ew & _) & Hk). unfold lookup_route_addr.
  pose proof (t_find_model (wining_routes (ext_int_table s)) a Hw Ha) as Hf. rewrite Ew in Hf.
  assert (forall q n g, net_wf n -> has_route s q n = Some g -> exists w, W !! net_id n = Some w) as Hex.
  { intros q n g Hn Hg. rewrite has_route_stored in Hg by done. pose proof (winner_stored _ _ _ _ Hto (Hk (net_id n))) as Hws.
    destruct (W !! net_id n); [eauto|]. by rewrite Hws in Hg. }
  destruct (t_find (wining_routes (ext_int_table s)) a) as [r|].
  - destruct Hf as (k & Hkw & Hr & Hin & Hmax). pose proof (winner_stored _ _ _ _ Hto (Hk (net_id k))) as Hws.
    rewrite Hr in Hws. destruct Hws as (p & Hp & Hmin). destruct (stored_inv _ _ _ _ Hto Hp) as (Hrn & Hrk & _).
    assert (r_net r = k) as -> by (by apply net_id_inj). split; [done|]. split.
    + exists p. rewrite has_route_stored by done. split; [done|]. intros q g. rewrite has_route_stored by done. apply Hmin.
    + intros q n g Hn Hg Hin'. destruct (Hex q n g Hn Hg) as [w Hw']. by eapply Hmax.
  - intros q n g Hn Hg. destruct (Hex q n g Hn Hg) as [w Hw']. by eapply Hf.
Qed.


End RibClaims.

(** ** Concrete runs *)
Definition eth0 : RibVif IPv4 := mkVif false true [mkVifAddr (ip4 10 0 0 1) (net4 10 0 0 0 24) (ip4 10 0 0 255) (ip4 0 0 0 0)].
Definition gateway : IPv4 := ip4 10 0 0 2.
Definition net20 : IPNet IPv4 := net4 20 0 0 0 8.
Definition net30 : IPNet IPv4 := net4 30 0 0 0 8.
(** Inside [net30] *)
Definition far : IPv4 := ip4 30 0 0 1.

Definition plumbed : list (rib_op (A := IPv4)) :=
  [OAddTable IGP "static"%string; OAddTable IGP "ospf"%string; OAddTable EGP "ebgp"%string; OAddTable EGP "ibgp"%string;
   ONewVif "eth0"%string eth0].
Definition add_to (t : string) (n : IPNet IPv4) (nh : IPv4) : rib_op := OAdd t n nh ""%string 1 [].
Definition outcome (l : list (rib_op (A := IPv4))) : result xorp_exn (RIB IPv4) :=
  s <-! rib_new 1 false ;; rib_run (plumbed ++ l) s.

Definition failure (l : list (rib_op (A := IPv4))) : option xorp_exn :=
  match outcome l with Ok _ => None | Throw x => Some x end.
(** Whether table [p] has a route for [n] at the end of a run, and whether one is installed. *)
Definition stored_installed (l : list (rib_op (A := IPv4))) (p : table_ptr) (n : IPNet IPv4) : result xorp_exn (bool * bool) :=
  s <-! outcome l ;; Ok (bool_decide (is_Some (has_route s p n)), bool_decide (is_Some (installed s n))).
(** The routes that resolve a next hop and that no table has any more. *)
Definition dangling (l : list (rib_op (A := IPv4))) (p : table_ptr) : result xorp_exn nat :=
  s <-! outcome l ;;
  Ok (List.length (List.filter (fun e => bool_decide (has_route s p (r_net (resolving_parent (snd e))) = None))
                     (ip_resolving_parents (ext_int_table s)))).

(** The situations that the theorems about runs leave out.  The RIB fails an assertion
    when an installed external route is replaced, when two protocols without a known
    distance are added, and when two external routes with an unresolved next hop for the
    same subnet are deleted.  It leaves a subnet without a route although a table has a
    usable one when the route next in distance is an unresolved external one, when the
    table that resolved a worse external route withdraws its route, and when the addition
    in [replace_route] is refused.  It goes on using a deleted route to resolve a next
    hop when an external route for the same subnet was installed. *)
Lemma rib_runs_that_fail :
  failure [add_to "ebgp" net20 gateway; OReplace "ebgp" net20 gateway "" 2 []] = Some AssertFailed
  /\ failure [OAddTable IGP "foo"; OAddTable IGP "bar"] = Some AssertFailed
  /\ failure [add_to "ibgp" net20 far; add_to "ebgp" net20 far; ODelete "ibgp" net20; ODelete "ebgp" net20] = Some AssertFailed
  /\ stored_installed [add_to "ospf" net20 gateway; add_to "static" net20 gateway; add_to "ebgp" net20 far; ODelete "static" net20]
       (IGP, "ospf"%string) net20 = Ok (true, false)
  /\ stored_installed [add_to "ospf" net30 gateway; add_to "ibgp" net20 far; add_to "ebgp" net20 gateway; ODelete "ospf" net30]
       (EGP, "ebgp"%string) net20 = Ok (true, false)
  /\ stored_installed [add_to "ospf" net20 gateway; add_to "static" net20 gateway; OReplace "static" net20 far "" 1 []]
       (IGP, "ospf"%string) net20 = Ok (true, false)
  /\ dangling [add_to "ospf" net30 gateway; add_to "ebgp" net30 gateway; add_to "ebgp" net20 far; ODelete "ospf" net30]
       (IGP, "ospf"%string) = Ok 1%nat.
Proof. split_conj; vm_compute; reflexivity. Qed.

(** ** Witnesses *)
Definition sample_rib_ops : list (rib_op (A := IPv4)) :=
  plumbed ++ [add_to "ospf" net20 gateway; add_to "ebgp" net20 gateway; add_to "static" net20 gateway;
              ODelete "static" net20; OReplace "ospf" net20 (ip4 10 0 0 3) "" 5 []; OSetDistance "static" 150;
              add_to "ibgp" net30 gateway; OVifFlags "eth0" false false; OVifFlags "eth0" false true].
Definition sample_rib : RIB IPv4 :=
  match rib_new 1 false with Ok s => s | Throw _ => mkRIB ∅ ∅ extint_new ∅ ∅ false end.
Definition sample_rib_end : RIB IPv4 :=
  match rib_run sample_rib_ops sample_rib with Ok s => s | Throw _ => sample_rib end.

Lemma sample_rib_wf : Forall rib_op_wf sample_rib_ops.
Proof. repeat constructor; try done; by_eval. Qed.
Lemma sample_rib_allowed : allowed_run sample_rib_ops sample_rib = true.
Proof. vm_compute. reflexivity. Qed.
Lemma sample_rib_new : rib_new 1 false = Ok sample_rib.
Proof. destruct (rib_new_ok (A := IPv4) 1 false) as (s & E & _). unfold sample_rib. by rewrite E. Qed.
Lemma sample_rib_run : rib_run sample_rib_ops sample_rib = Ok sample_rib_end.
Proof.
  assert (match rib_run sample_rib_ops sample_rib with Ok _ => true | Throw _ => false end = true) as E by (vm_compute; reflexivity).
  unfold sample_rib_end. by destruct (rib_run sample_rib_ops sample_rib).
Qed.

Lemma rib_run_correct_witness :
  option_map protocol (installed sample_rib_end net20) = Some "ebgp"%string
  /\ exists s, rib_run sample_rib_ops sample_rib = Ok s /\ installs_lowest s.
Proof.
  split; [vm_compute; reflexivity|].
  apply (rib_run_correct 1 false sample_rib sample_rib_ops); [apply sample_rib_new|apply sample_rib_wf|vm_compute; reflexivity].
Defined.

Lemma rib_lookup_correct_witness :
  option_map protocol (lookup_route_addr (ext_int_table sample_rib_end) (ip4 20 1 2 3)) = Some "ebgp"%string
  /\ match lookup_route_addr (ext_int_table sample_rib_end) (ip4 20 1 2 3) with
     | Some r => in_net (a_val (ip4 20 1 2 3)) (r_net r)
     | None => False
     end.
Proof.
  assert (option_map protocol (lookup_route_addr (ext_int_table sample_rib_end) (ip4 20 1 2 3)) = Some "ebgp"%string) as E
    by (vm_compute; reflexivity).
  split; [done|].
  pose proof (rib_lookup_correct 1 false sample_rib sample_rib_ops sample_rib_end (ip4 20 1 2 3) sample_rib_new sample_rib_wf
    sample_rib_allowed sample_rib_run ltac:(by_eval)) as Hl.
  destruct (lookup_route_addr (ext_int_table sample_rib_end) (ip4 20 1 2 3)) as [r|]; [|discriminate E]. exact (proj1 Hl).
Defined.

