(* ===== verification/RipQueue.v ===== *)
(** * The update queue of RIP (rip/update_queue.cc)

    A queue with one writer and several readers: the updates are kept in blocks, a
    reader is a block and a position in it, a block counts the readers inside it, and
    the blocks at the front that no reader is in are dropped.  The queue holds
    references to routes; dropping a block releases them, and the operations that
    collect garbage return the references they release, in order.  A node of the list
    of blocks is named by a number. *)

From Stdlib Require Import ZArith Lia.
From stdpp Require Import base tactics option numbers list.
From S2P Require Import Prelude.
Local Open Scope xorp_scope.

(** [UpdateBlock::MAX_UPDATES] *)
Definition MAX_UPDATES : nat := 100.

(** [UpdateBlock]: the updates in the slots that are in use, and the number of readers inside. *)
Record UpdateBlock (T : Type) := mkBlock { ub_name : nat; updates : list T; block_refs : nat }.
Arguments mkBlock {T}.
Arguments ub_name {T}.
Arguments updates {T}.
Arguments block_refs {T}.

(** [ReaderPos] *)
Record ReaderPos := mkReader { rp_bi : nat; rp_pos : nat }.

(** [UpdateQueueImpl]; [next_name] names the next node of the list. *)
Record UpdateQueue (T : Type) := mkUQ {
  update_blocks : list (UpdateBlock T);
  next_name : nat;
  readers : list (option ReaderPos);
  num_readers : nat }.
Arguments mkUQ {T}.
Arguments update_blocks {T}.
Arguments next_name {T}.
Arguments readers {T}.
Arguments num_readers {T}.

Section Queue.
Context {T : Type}.
Implicit Types (q : UpdateQueue T) (b : UpdateBlock T) (bs : list (UpdateBlock T)) (u : T).

(** ** Blocks *)
Definition block_count b : nat := length (updates b).
Definition block_full b : bool := bool_decide (block_count b = MAX_UPDATES).
Definition block_empty b : bool := bool_decide (block_count b = 0%nat).
Definition add_update u b : UpdateBlock T * bool :=
  if block_full b then (b, false) else (mkBlock (ub_name b) (updates b ++ [u]) (block_refs b), true).
(** [get]: a slot that is not in use holds a null reference. *)
Definition block_get b (pos : nat) : result xorp_exn (option T) :=
  if decide (pos < MAX_UPDATES)%nat then Ok (updates b !! pos) else Throw AssertFailed.
Definition block_ref b : UpdateBlock T := mkBlock (ub_name b) (updates b) (S (block_refs b)).
Definition block_unref b : result xorp_exn (UpdateBlock T) :=
  match block_refs b with O => Throw AssertFailed | S n => Ok (mkBlock (ub_name b) (updates b) n) end.

(** The node of the list with a name, the node after it, and the last one. *)
Fixpoint find_block (n : nat) bs : option (UpdateBlock T) :=
  match bs with [] => None | b :: bs => if decide (ub_name b = n) then Some b else find_block n bs end.
Fixpoint next_block (n : nat) bs : option (UpdateBlock T) :=
  match bs with [] => None | b :: bs => if decide (ub_name b = n) then head bs else next_block n bs end.
Fixpoint modify_block (n : nat) (f : UpdateBlock T -> UpdateBlock T) bs : list (UpdateBlock T) :=
  match bs with
  | [] => []
  | b :: bs => if decide (ub_name b = n) then f b :: bs else b :: modify_block n f bs
  end.
Definition get_node (o : option (UpdateBlock T)) : result xorp_exn (UpdateBlock T) :=
  match o with Some b => Ok b | None => Throw OutOfBounds end.

Definition set_blocks bs q : UpdateQueue T := mkUQ bs (next_name q) (readers q) (num_readers q).
Definition set_reader (id : nat) (rp : option ReaderPos) q : UpdateQueue T :=
  mkUQ (update_blocks q) (next_name q) (<[id := rp]> (readers q)) (num_readers q).
Definition push_block q : UpdateQueue T :=
  mkUQ (update_blocks q ++ [mkBlock (next_name q) [] 0]) (S (next_name q)) (readers q) (num_readers q).

Definition ref_node (n : nat) q : result xorp_exn (UpdateQueue T) :=
  _ <-! get_node (find_block n (update_blocks q)) ;;
  Ok (set_blocks (modify_block n block_ref (update_blocks q)) q).
Definition unref_node (n : nat) q : result xorp_exn (UpdateQueue T) :=
  b <-! get_node (find_block n (update_blocks q)) ;;
  b' <-! block_unref b ;;
  Ok (set_blocks (modify_block n (fun _ => b') (update_blocks q)) q).

(** The reader with an id, which must be in use. *)
Definition get_reader (id : nat) q : result xorp_exn ReaderPos :=
  match readers q !! id with Some (Some rp) => Ok rp | _ => Throw AssertFailed end.

(** ** The queue *)
Definition queue_new : UpdateQueue T := push_block (mkUQ [] 0 [] 0).

(** The first free slot. *)
Fixpoint free_slot (rs : list (option ReaderPos)) : nat :=
  match rs with [] => 0 | None :: _ => 0 | Some _ :: rs => S (free_slot rs) end.
Definition add_reader q : result xorp_exn (UpdateQueue T * nat) :=
  lb <-! get_node (last (update_blocks q)) ;;
  q <-! ref_node (ub_name lb) q ;;
  let rp := mkReader (ub_name lb) (block_count lb) in
  let i := free_slot (readers q) in
  let rs := if decide (i < length (readers q))%nat then <[i := Some rp]> (readers q) else readers q ++ [Some rp] in
  Ok (mkUQ (update_blocks q) (next_name q) rs (S (num_readers q)), i).

Fixpoint collect bs : list (UpdateBlock T) * list T :=
  match bs with
  | b :: (_ :: _) as rest =>
      if decide (block_refs b = 0%nat) then let '(bs', dropped) := collect rest in (bs', updates b ++ dropped)
      else (bs, [])
  | _ => (bs, [])
  end.
Definition garbage_collect q : UpdateQueue T * list T :=
  let '(bs, dropped) := collect (update_blocks q) in (set_blocks bs q, dropped).

Definition remove_reader (id : nat) q : result xorp_exn (UpdateQueue T * list T) :=
  match readers q !! id with
  | Some (Some rp) =>
      q <-! unref_node (rp_bi rp) q ;;
      let q := mkUQ (update_blocks q) (next_name q) (<[id := None]> (readers q)) (pred (num_readers q)) in
      lb <-! get_node (last (update_blocks q)) ;;
      let q := if bool_decide (num_readers q = 0%nat) && negb (block_empty lb) then push_block q else q in
      Ok (garbage_collect q)
  | _ => Ok (q, [])
  end.

(** [ReaderPos::move_to]; [ReaderPos::advance_block] moves to the next block. *)
Definition move_to (id : nat) (bi pos : nat) q : result xorp_exn (UpdateQueue T) :=
  rp <-! get_reader id q ;;
  q <-! unref_node (rp_bi rp) q ;;
  q <-! ref_node bi q ;;
  Ok (set_reader id (Some (mkReader bi pos)) q).
Definition advance_block (id : nat) q : result xorp_exn (UpdateQueue T) :=
  rp <-! get_reader id q ;;
  nb <-! get_node (next_block (rp_bi rp) (update_blocks q)) ;;
  move_to id (ub_name nb) 0 q.

Definition is_last (n : nat) q : bool :=
  match last (update_blocks q) with Some b => bool_decide (ub_name b = n) | None => false end.

Definition advance_reader (id : nat) q : result xorp_exn (UpdateQueue T * list T) :=
  rp <-! get_reader id q ;;
  b <-! get_node (find_block (rp_bi rp) (update_blocks q)) ;;
  let pos := if decide (rp_pos rp < block_count b)%nat then S (rp_pos rp) else rp_pos rp in
  let q := set_reader id (Some (mkReader (rp_bi rp) pos)) q in
  if bool_decide (pos = block_count b) && negb (block_empty b) then
    let q := if is_last (rp_bi rp) q then push_block q else q in
    q <-! advance_block id q ;;
    Ok (garbage_collect q)
  else Ok (q, []).

Definition ffwd_reader (id : nat) q : result xorp_exn (UpdateQueue T * list T) :=
  _ <-! get_reader id q ;;
  lb <-! get_node (last (update_blocks q)) ;;
  q <-! move_to id (ub_name lb) (block_count lb) q ;;
  r <-! advance_reader id q ;;
  let '(q, d1) := r in
  let '(q, d2) := garbage_collect q in
  Ok (q, d1 ++ d2).

Definition rwd_reader (id : nat) q : result xorp_exn (UpdateQueue T) :=
  _ <-! get_reader id q ;;
  fb <-! get_node (head (update_blocks q)) ;;
  move_to id (ub_name fb) 0 q.

(** The readers from number [id] on, of which there are [n]. *)
Fixpoint ffwd_all (n id : nat) q : result xorp_exn (UpdateQueue T * list T) :=
  match n with
  | O => Ok (q, [])
  | S n =>
      r <-! (match readers q !! id with Some (Some _) => ffwd_reader id q | _ => Ok (q, []) end) ;;
      let '(q, d1) := r in
      r <-! ffwd_all n (S id) q ;;
      let '(q, d2) := r in
      Ok (q, d1 ++ d2)
  end.
Definition queue_flush q : result xorp_exn (UpdateQueue T * list T) :=
  let q := push_block q in ffwd_all (length (readers q)) 0 q.

Definition queue_read (id : nat) q : result xorp_exn (UpdateQueue T * list T * option T) :=
  rp <-! get_reader id q ;;
  b <-! get_node (find_block (rp_bi rp) (update_blocks q)) ;;
  r <-! (if decide (rp_pos rp = block_count b) then advance_reader id q else Ok (q, [])) ;;
  let '(q, dropped) := r in
  rp <-! get_reader id q ;;
  b <-! get_node (find_block (rp_bi rp) (update_blocks q)) ;;
  if decide (rp_pos rp < block_count b)%nat then u <-! block_get b (rp_pos rp) ;; Ok (q, dropped, u)
  else Ok (q, dropped, None).

(** [UpdateQueue::next]: [advance_reader] answers [true]. *)
Definition queue_next (id : nat) q : result xorp_exn (UpdateQueue T * list T * option T) :=
  r <-! advance_reader id q ;;
  let '(q, d1) := r in
  r <-! queue_read id q ;;
  let '(q, d2, u) := r in
  Ok (q, d1 ++ d2, u).

Definition modify_last (f : UpdateBlock T -> UpdateBlock T) bs : list (UpdateBlock T) :=
  match last bs with Some lb => modify_block (ub_name lb) f bs | None => bs end.
Definition push_back u q : result xorp_exn (UpdateQueue T * bool) :=
  if decide (num_readers q = 0%nat) then Ok (q, true)
  else
    lb <-! get_node (last (update_blocks q)) ;;
    let q := if block_full lb then push_block q else q in
    lb <-! get_node (last (update_blocks q)) ;;
    let '(_, ok) := add_update u lb in
    Ok (set_blocks (modify_last (fun b => fst (add_update u b)) (update_blocks q)) q, ok).

Definition updates_queued q : nat := sum_list_with block_count (update_blocks q).
End Queue.
