(* ===== verification/RipQueueProps.v ===== *)
(** * The update queue refines a log with cursors

    The abstract queue is the list of all updates written so far and a cursor per
    reader.  [absq] reads it off a queue and the updates released before; every
    operation keeps the invariant [queue_ok] and does on the abstract queue what its
    specification says. *)

From Stdlib Require Import ZArith Lia.
From stdpp Require Import base tactics option numbers list.
From S2P Require Import Prelude RipQueue.
Local Open Scope xorp_scope.
Local Open Scope nat_scope.

Section QueueProps.
Context {T : Type}.
Implicit Types (q : UpdateQueue T) (b : UpdateBlock T) (bs : list (UpdateBlock T)) (rs : list (option ReaderPos)).

(** ** The abstract queue *)
Record log_queue := mkLog { lq_log : list T; lq_cursors : list (option nat) }.
Implicit Types (a : log_queue).

Definition in_use {X} (o : option X) : nat := match o with Some _ => 1 | None => 0 end.
Definition users {X} (l : list (option X)) : nat := sum_list_with in_use l.

Fixpoint slot_of (l : list (option nat)) : nat :=
  match l with [] => 0 | None :: _ => 0 | Some _ :: l => S (slot_of l) end.
Definition log_push (u : T) a : log_queue :=
  if decide (users (lq_cursors a) = 0) then a else mkLog (lq_log a ++ [u]) (lq_cursors a).
Definition log_add_reader a : log_queue * nat :=
  let i := slot_of (lq_cursors a) in
  let c := Some (length (lq_log a)) in
  (mkLog (lq_log a) (if decide (i < length (lq_cursors a)) then <[i := c]> (lq_cursors a) else lq_cursors a ++ [c]), i).
Definition log_remove (i : nat) a : log_queue := mkLog (lq_log a) (<[i := None]> (lq_cursors a)).
Definition log_seek (i c : nat) a : log_queue := mkLog (lq_log a) (<[i := Some c]> (lq_cursors a)).
Definition log_cursor (i : nat) a : nat := match lq_cursors a !! i with Some (Some c) => c | _ => 0 end.
Definition log_advance (i : nat) a : log_queue := log_seek i (min (S (log_cursor i a)) (length (lq_log a))) a.
Definition log_ffwd (i : nat) a : log_queue := log_seek i (length (lq_log a)) a.
Definition log_read (i : nat) a : option T := lq_log a !! log_cursor i a.
Definition log_flush a : log_queue := mkLog (lq_log a) (map (fmap (fun _ => length (lq_log a))) (lq_cursors a)).

(** ** Reading the abstract queue off a queue *)
Definition contents bs : list T := concat (map updates bs).
Fixpoint offset (n : nat) bs : nat :=
  match bs with [] => 0 | b :: bs => if decide (ub_name b = n) then 0 else block_count b + offset n bs end.
Definition cursor (d : list T) bs (rp : ReaderPos) : nat := length d + offset (rp_bi rp) bs + rp_pos rp.
Definition absq (d : list T) q : log_queue :=
  mkLog (d ++ contents (update_blocks q)) (map (fmap (cursor d (update_blocks q))) (readers q)).

(** ** The invariant *)
Definition inside (n : nat) (o : option ReaderPos) : nat :=
  match o with Some rp => if decide (rp_bi rp = n) then 1 else 0 | None => 0 end.
Definition readers_in (n : nat) rs : nat := sum_list_with (inside n) rs.
Definition with_refs rs bs : list (UpdateBlock T) :=
  map (fun b => mkBlock (ub_name b) (updates b) (readers_in (ub_name b) rs)) bs.

Definition reader_ok bs (rp : ReaderPos) : Prop :=
  exists b, b ∈ bs /\ ub_name b = rp_bi rp /\ rp_pos rp <= block_count b.

Record core q : Prop := {
  co_names : NoDup (map ub_name (update_blocks q));
  co_fresh : forall b, b ∈ update_blocks q -> ub_name b < next_name q;
  co_ne : update_blocks q <> [];
  co_count : forall b, b ∈ update_blocks q -> block_count b <= MAX_UPDATES;
  co_refs : forall b, b ∈ update_blocks q -> block_refs b = readers_in (ub_name b) (readers q);
  co_readers : forall i rp, readers q !! i = Some (Some rp) -> reader_ok (update_blocks q) rp;
  co_num : num_readers q = users (readers q) }.

(** The blocks behind the readers, then blocks that are not empty, the last one excepted. *)
Definition live bs : Prop :=
  exists old cur lb, bs = old ++ cur ++ [lb] /\ Forall (fun b => block_refs b = 0) old /\ Forall (fun b => updates b <> []) cur.

(** Without readers nothing is kept. *)
Record queue_ok q : Prop := {
  qo_core : core q;
  qo_live : live (update_blocks q);
  qo_idle : num_readers q = 0 -> contents (update_blocks q) = [] }.

#[local] Arguments contents : simpl never.
#[local] Arguments with_refs : simpl never.
#[local] Arguments users : simpl never.

(** ** Lists of readers *)
Lemma sum_insert {X} (f : X -> nat) (l : list X) i x y : l !! i = Some x ->
  sum_list_with f (<[i := y]> l) + f x = sum_list_with f l + f y.
Proof.
  revert i. induction l as [|z l IH]; intros [|i]; simpl; [done|done|intros [= ->]; lia|].
  intros Hi. specialize (IH _ Hi). lia.
Qed.

Lemma sum_zero {X} (f : X -> nat) (l : list X) : sum_list_with f l = 0 <-> forall i x, l !! i = Some x -> f x = 0.
Proof.
  induction l as [|y l IH]; cbn; [split; [done|done]|]. split.
  - intros Hs [|i] x; cbn; [intros [= ->]; lia|]. apply IH. lia.
  - intros Hx. pose proof (Hx 0 y eq_refl). enough (sum_list_with f l = 0) by lia. apply IH. intros i x. apply (Hx (S i)).
Qed.

Lemma users_map {X Y} (f : X -> Y) (l : list (option X)) : users (map (fmap f) l) = users l.
Proof. unfold users. induction l as [|[x|] l IH]; cbn; congruence. Qed.

Lemma slot_map (f : ReaderPos -> nat) rs : slot_of (map (fmap f) rs) = free_slot rs.
Proof. induction rs as [|[x|] l IH]; cbn; congruence. Qed.

Lemma free_slot_free rs : free_slot rs < length rs -> rs !! free_slot rs = Some None.
Proof. induction rs as [|[x|] rs IH]; cbn; [lia| |done]. intros. apply IH. lia. Qed.
Lemma free_slot_le rs : free_slot rs <= length rs.
Proof. induction rs as [|[x|] rs IH]; cbn; lia. Qed.

Lemma readers_in_pos n rs i rp : rs !! i = Some (Some rp) -> rp_bi rp = n -> 0 < readers_in n rs.
Proof.
  intros Hi Hn. destruct (decide (readers_in n rs = 0)) as [H0|]; [|lia].
  pose proof (proj1 (sum_zero _ _) H0 _ _ Hi) as H1. cbn in H1. rewrite decide_True in H1; done.
Qed.

(** ** Blocks *)
Lemma find_block_elem n bs b : NoDup (map ub_name bs) -> find_block n bs = Some b <-> b ∈ bs /\ ub_name b = n.
Proof.
  induction bs as [|c bs IH]; cbn; intros Hn.
  { split; [done|]. by intros [?%elem_of_nil _]. }
  apply NoDup_cons in Hn as [Hc Hn]. rewrite elem_of_cons. destruct (decide (ub_name c = n)) as [E|E].
  - split; [intros [= <-]; auto|]. intros [[->|Hb] Eb]; [done|]. destruct Hc. rewrite E, <- Eb.
    by apply list_elem_of_fmap_2.
  - rewrite IH by done. split; [intros []; auto|]. intros [[->|] ?]; [done|auto].
Qed.

Lemma modify_block_map n f bs : NoDup (map ub_name bs) ->
  modify_block n f bs = map (fun b => if decide (ub_name b = n) then f b else b) bs.
Proof.
  induction bs as [|c bs IH]; cbn; intros Hn; [done|]. apply NoDup_cons in Hn as [Hc Hn].
  destruct (decide (ub_name c = n)) as [E|E]; [|by rewrite IH]. f_equal.
  symmetry. rewrite <- (map_id bs) at 2. apply map_ext_in. intros b Hb.
  rewrite decide_False; [done|]. intros Eb. destruct Hc. rewrite E, <- Eb.
  apply list_elem_of_fmap_2. by apply list_elem_of_In.
Qed.

Lemma with_refs_names rs bs : map ub_name (with_refs rs bs) = map ub_name bs.
Proof. unfold with_refs. rewrite map_map. by apply map_ext. Qed.
Lemma with_refs_contents rs bs : contents (with_refs rs bs) = contents bs.
Proof. unfold contents, with_refs. rewrite map_map. done. Qed.
Lemma with_refs_offset rs bs n : offset n (with_refs rs bs) = offset n bs.
Proof. unfold with_refs. induction bs as [|b bs IH]; simpl; [done|]. by rewrite IH. Qed.
Lemma with_refs_twice rs rs' bs : with_refs rs (with_refs rs' bs) = with_refs rs bs.
Proof. unfold with_refs. rewrite map_map. done. Qed.
Lemma with_refs_elem rs bs b : b ∈ with_refs rs bs <->
  exists c, c ∈ bs /\ b = mkBlock (ub_name c) (updates c) (readers_in (ub_name c) rs).
Proof. unfold with_refs. rewrite list_elem_of_fmap. split; intros (c & ? & ?); by exists c. Qed.
Lemma with_refs_reader rs bs rp : reader_ok (with_refs rs bs) rp <-> reader_ok bs rp.
Proof.
  unfold reader_ok. setoid_rewrite with_refs_elem. split.
  - intros (b & (c & Hc & ->) & ? & ?). by exists c.
  - intros (c & Hc & ? & ?). eexists. split; [by exists c|done].
Qed.
Lemma with_refs_last rs bs b : last bs = Some b ->
  last (with_refs rs bs) = Some (mkBlock (ub_name b) (updates b) (readers_in (ub_name b) rs)).
Proof.
  intros E. unfold with_refs. by rewrite (fmap_last (fun b => mkBlock (ub_name b) (updates b) (readers_in (ub_name b) rs))), E.
Qed.

Lemma contents_app bs1 bs2 : contents (bs1 ++ bs2) = contents bs1 ++ contents bs2.
Proof. unfold contents. by rewrite map_app, concat_app. Qed.

Lemma offset_app_l n bs1 bs2 : (exists b, b ∈ bs1 /\ ub_name b = n) -> offset n (bs1 ++ bs2) = offset n bs1.
Proof.
  induction bs1 as [|c bs1 IH]; cbn; intros (b & Hb & E); [by apply elem_of_nil in Hb|].
  destruct (decide (ub_name c = n)); [done|]. rewrite IH; [done|]. apply elem_of_cons in Hb as [->|]; [done|eauto].
Qed.
Lemma offset_app_r n bs1 bs2 : (forall b, b ∈ bs1 -> ub_name b <> n) ->
  offset n (bs1 ++ bs2) = length (contents bs1) + offset n bs2.
Proof.
  induction bs1 as [|c bs1 IH]; intros Hb; [done|]. cbn [offset app]. rewrite decide_False by (apply Hb; by left).
  rewrite IH by (intros; apply Hb; by right). unfold contents, block_count. cbn. rewrite length_app. lia.
Qed.

Lemma names_app bs1 b bs2 : NoDup (map ub_name (bs1 ++ b :: bs2)) ->
  (forall c, c ∈ bs1 -> ub_name c <> ub_name b) /\ (forall c, c ∈ bs2 -> ub_name c <> ub_name b).
Proof.
  rewrite map_app. intros (_ & Hd & Hn)%NoDup_app. cbn in Hn. apply NoDup_cons in Hn as [Hb _]. split.
  - intros c Hc E. apply (Hd (ub_name c)); [by apply list_elem_of_fmap_2|]. rewrite E. by left.
  - intros c Hc E. apply Hb. rewrite <- E. by apply list_elem_of_fmap_2.
Qed.

Lemma last_split bs : bs <> [] -> exists bs' lb, bs = bs' ++ [lb] /\ last bs = Some lb.
Proof.
  intros Hb. destruct (exists_last Hb) as (bs' & lb & ->). exists bs', lb. by rewrite last_snoc.
Qed.

(** An offset in a block, in terms of the contents. *)
Lemma contents_lookup bs1 b bs2 pos : NoDup (map ub_name (bs1 ++ b :: bs2)) -> pos < block_count b ->
  contents (bs1 ++ b :: bs2) !! (offset (ub_name b) (bs1 ++ b :: bs2) + pos) = updates b !! pos.
Proof.
  intros Hn Hp. destruct (names_app _ _ _ Hn) as [H1 _]. rewrite offset_app_r by done. cbn [offset].
  rewrite decide_True by done. rewrite contents_app. rewrite Nat.add_0_r, lookup_app_r by lia.
  replace (_ + pos - _) with pos by lia. unfold contents. cbn. by rewrite lookup_app_l.
Qed.

(** ** Moving a reader *)
Definition moved (id : nat) (rp : ReaderPos) q : UpdateQueue T :=
  let rs := <[id := Some rp]> (readers q) in mkUQ (with_refs rs (update_blocks q)) (next_name q) rs (num_readers q).

Lemma reader_find q rp : core q -> reader_ok (update_blocks q) rp ->
  exists b, find_block (rp_bi rp) (update_blocks q) = Some b /\ b ∈ update_blocks q /\ ub_name b = rp_bi rp
    /\ rp_pos rp <= block_count b.
Proof. intros Hc (b & Hb & E & Hp). exists b. split; [|done]. by apply find_block_elem; [apply Hc|]. Qed.

(** The counts of the blocks when a reader leaves its block or enters one. *)
Lemma unref_eq q id rp : core q -> readers q !! id = Some (Some rp) ->
  unref_node (rp_bi rp) q = Ok (set_blocks (with_refs (<[id := None]> (readers q)) (update_blocks q)) q).
Proof.
  intros Hc Hi. destruct (reader_find q rp Hc (co_readers q Hc _ _ Hi)) as (b & Hf & Hb & Eb & _).
  pose proof (readers_in_pos (ub_name b) _ _ _ Hi (eq_sym Eb)) as Hpos. rewrite <- (co_refs q Hc b Hb) in Hpos.
  unfold unref_node, block_unref. rewrite Hf. cbn [get_node result_bind].
  destruct (block_refs b) as [|n] eqn:En; [lia|]. cbn [result_bind]. do 2 f_equal. rewrite modify_block_map by apply Hc.
  apply map_ext_in. intros c Hin%list_elem_of_In.
  pose proof (sum_insert (inside (ub_name c)) _ id _ None Hi) as Hs. cbn in Hs. unfold readers_in in *.
  fold (readers_in (ub_name c) (readers q)) in Hs. rewrite <- (co_refs q Hc c Hin) in Hs.
  destruct (decide (ub_name c = rp_bi rp)) as [E|E].
  - assert (c = b) as -> by (eapply (inj Some); rewrite <- Hf; symmetry; by apply find_block_elem; [apply Hc|]).
    rewrite decide_True in Hs by done. f_equal. lia.
  - rewrite decide_False in Hs by done. destruct c. cbn in *. f_equal. lia.
Qed.

Lemma ref_eq q n rs b : NoDup (map ub_name (update_blocks q)) -> b ∈ update_blocks q -> ub_name b = n ->
  (forall c, c ∈ update_blocks q -> readers_in (ub_name c) rs = block_refs c + if decide (ub_name c = n) then 1 else 0) ->
  ref_node n q = Ok (set_blocks (with_refs rs (update_blocks q)) q).
Proof.
  intros Hn Hb Eb Hr. unfold ref_node. rewrite (proj2 (find_block_elem n _ b Hn)) by done. cbn [get_node result_bind].
  rewrite modify_block_map by done. do 2 f_equal. apply map_ext_in. intros c Hin%list_elem_of_In. rewrite (Hr c Hin).
  destruct c as [m us r]. cbn. case_decide; unfold block_ref; cbn; f_equal; lia.
Qed.

Lemma move_to_eq q id rp bi pos : core q -> readers q !! id = Some (Some rp) ->
  reader_ok (update_blocks q) (mkReader bi pos) -> move_to id bi pos q = Ok (moved id (mkReader bi pos) q).
Proof.
  intros Hc Hi (t & Ht & Et & _). unfold move_to, get_reader. rewrite Hi. cbn [result_bind]. rewrite (unref_eq q id rp) by done.
  cbn [result_bind]. set (q1 := set_blocks _ q). set (rs := <[id := Some (mkReader bi pos)]> (readers q)).
  rewrite (ref_eq q1 bi rs (mkBlock (ub_name t) (updates t) (readers_in (ub_name t) (<[id := None]> (readers q))))).
  - cbn. unfold set_reader, moved, set_blocks. cbn. by rewrite with_refs_twice.
  - cbn. rewrite with_refs_names. apply Hc.
  - apply with_refs_elem. by exists t.
  - done.
  - intros c' (c & Hcin & ->)%with_refs_elem. cbn. unfold readers_in, rs.
    rewrite <- (list_insert_insert_eq (readers q) id (Some (mkReader bi pos)) None).
    assert (<[id := None]> (readers q) !! id = Some None) as Hx by (apply list_lookup_insert_eq; by eapply lookup_lt_Some).
    pose proof (sum_insert (inside (ub_name c)) _ id None (Some (mkReader bi pos)) Hx) as Hs. cbn in Hs.
    destruct (decide (bi = ub_name c)), (decide (ub_name c = bi)); try congruence; lia.
Qed.

Lemma users_insert {X} (l : list (option X)) i x y : l !! i = Some (Some x) -> users (<[i := Some y]> l) = users l.
Proof. intros Hi. pose proof (sum_insert in_use l i (Some x) (Some y) Hi). unfold users. cbn in *. lia. Qed.

Lemma moved_core q id rp rp' : core q -> readers q !! id = Some (Some rp) -> reader_ok (update_blocks q) rp' ->
  core (moved id rp' q).
Proof.
  intros Hc Hi Hr. pose proof Hc as []. split; unfold moved; cbn [update_blocks next_name readers num_readers].
  - by rewrite with_refs_names.
  - intros b (c & Hin & ->)%with_refs_elem. by apply (co_fresh0 c).
  - by destruct (update_blocks q).
  - intros b (c & Hin & ->)%with_refs_elem. by apply (co_count0 c).
  - intros b (c & Hin & ->)%with_refs_elem. done.
  - intros i p Hp. apply with_refs_reader. destruct (decide (i = id)) as [->|].
    + rewrite list_lookup_insert_eq in Hp by (by eapply lookup_lt_Some). by injection Hp as [= <-].
    + rewrite list_lookup_insert_ne in Hp by done. by eapply co_readers0.
  - by erewrite users_insert.
Qed.

Lemma map_insert {X Y} (f : X -> Y) (l : list X) i x : map f (<[i := x]> l) = <[i := f x]> (map f l).
Proof. apply (list_fmap_insert f). Qed.

Lemma moved_abs d q id rp : absq d (moved id rp q) = log_seek id (cursor d (update_blocks q) rp) (absq d q).
Proof.
  unfold absq, log_seek, moved. cbn [update_blocks readers lq_log lq_cursors]. rewrite with_refs_contents. f_equal. rewrite map_insert. cbn [fmap option_fmap option_map].
  f_equal; [unfold cursor; by rewrite with_refs_offset|]. apply map_ext. intros [p|]; cbn; [|done]. f_equal.
  unfold cursor. by rewrite with_refs_offset.
Qed.

(** ** Blocks at either end *)
Lemma collect_spec bs : bs <> [] -> exists pre, bs = pre ++ fst (collect bs) /\ snd (collect bs) = contents pre
  /\ Forall (fun b => block_refs b = 0) pre /\ fst (collect bs) <> [].
Proof.
  induction bs as [|b bs IH]; intros Hb; [done|]. destruct bs as [|b' bs].
  { exists []. done. }
  change (collect (b :: b' :: bs)) with (if decide (block_refs b = 0)
    then let '(bs', dropped) := collect (b' :: bs) in (bs', updates b ++ dropped) else (b :: b' :: bs, [])).
  case_decide as E; [|by exists []].
  destruct (IH ltac:(done)) as (pre & E1 & E2 & E3 & E4). destruct (collect (b' :: bs)) as [bs' dr]. cbn [fst snd] in *.
  exists (b :: pre). split; [by rewrite E1|]. split; [by rewrite E2|]. split; [by constructor|done].
Qed.

Lemma reader_suffix q pre bs rp i : core q -> update_blocks q = pre ++ bs -> Forall (fun b => block_refs b = 0) pre ->
  readers q !! i = Some (Some rp) -> exists b, b ∈ bs /\ ub_name b = rp_bi rp /\ rp_pos rp <= block_count b.
Proof.
  intros Hc E Hz Hi. destruct (co_readers q Hc _ _ Hi) as (b & Hb & En & Hp).
  pose proof (readers_in_pos (ub_name b) _ _ _ Hi (eq_sym En)) as Hpos. rewrite <- (co_refs q Hc b Hb) in Hpos.
  rewrite E in Hb. apply elem_of_app in Hb as [Hb|Hb]; [|by exists b].
  rewrite Forall_forall in Hz. rewrite (Hz _ Hb) in Hpos. lia.
Qed.

Lemma drop_core q pre bs d : core q -> update_blocks q = pre ++ bs -> Forall (fun b => block_refs b = 0) pre -> bs <> [] ->
  core (set_blocks bs q) /\ absq (d ++ contents pre) (set_blocks bs q) = absq d q.
Proof.
  intros Hc E Hz Hne. pose proof Hc as []. rewrite E in *. split.
  - split; cbn; [| | | | | |done].
    + rewrite map_app in co_names0. by apply NoDup_app in co_names0 as (_ & _ & ?).
    + intros b Hb. apply co_fresh0. apply elem_of_app. by right.
    + done.
    + intros b Hb. apply co_count0. apply elem_of_app. by right.
    + intros b Hb. apply co_refs0. apply elem_of_app. by right.
    + intros i rp Hi. by eapply reader_suffix.
  - unfold absq, set_blocks. cbn. rewrite E, contents_app, app_assoc. f_equal. apply map_ext_in. intros [rp|] Hin; [|done].
    cbn. f_equal. apply list_elem_of_In, list_elem_of_lookup in Hin as [i Hi].
    destruct (reader_suffix q pre bs rp i Hc E Hz Hi) as (b & Hb & En & _). unfold cursor. rewrite length_app.
    rewrite offset_app_r; [lia|]. intros c Hcp Ec. apply list_elem_of_split in Hb as (l1 & l2 & ->).
    rewrite app_assoc in co_names0. apply names_app in co_names0 as [H1 _]. apply (H1 c); [|congruence].
    apply elem_of_app. by left.
Qed.

Lemma drop_live pre bs : bs <> [] -> live (pre ++ bs) -> live bs.
Proof.
  intros Hne (old & cur & lb & E & Hold & Hcur). unfold live.
  destruct (last_split bs Hne) as (bs' & lb' & -> & _). rewrite !app_assoc in E. apply app_inj_tail in E as [E ->].
  apply app_eq_app in E as (l & [[-> E]|[-> E]]).
  - exists [], bs', lb. split; [done|]. split; [done|]. rewrite E in Hcur. by apply Forall_app in Hcur as [_ ?].
  - exists l, cur, lb. rewrite E, <- app_assoc. split; [done|]. by apply Forall_app in Hold as [_ ?].
Qed.

Lemma gc_ok d q : core q -> exists q' d', garbage_collect q = (q', d') /\ core q' /\ absq (d ++ d') q' = absq d q
  /\ (live (update_blocks q) -> live (update_blocks q')) /\ readers q' = readers q.
Proof.
  intros Hc. destruct (collect_spec _ (co_ne q Hc)) as (pre & E1 & E2 & E3 & E4). unfold garbage_collect.
  destruct (collect (update_blocks q)) as [bs dr]. cbn in *. exists (set_blocks bs q), dr. split; [done|].
  rewrite E2. destruct (drop_core q pre bs d Hc E1 E3 E4) as [? ?]. split_conj; [done|done| |done].
  rewrite E1. by apply drop_live.
Qed.

Lemma no_reader_in q n : core q -> (forall b, b ∈ update_blocks q -> ub_name b <> n) -> readers_in n (readers q) = 0.
Proof.
  intros Hc Hn. apply sum_zero. intros i [rp|] Hi; [|done]. cbn.
  destruct (co_readers q Hc _ _ Hi) as (b & Hb & E & _). rewrite decide_False; [done|]. rewrite <- E. by apply Hn.
Qed.

Lemma push_block_core q : core q -> core (push_block q).
Proof.
  intros Hc. pose proof Hc as []. split; cbn.
  - rewrite map_app. apply NoDup_app. split; [done|]. split; [|apply NoDup_singleton].
    intros n Hn Hx. cbn in Hx. apply list_elem_of_singleton in Hx as ->. apply list_elem_of_fmap in Hn as (b & E & Hb).
    apply co_fresh0 in Hb. lia.
  - intros b [Hb| ->%list_elem_of_singleton]%elem_of_app; [|cbn; lia]. apply co_fresh0 in Hb. lia.
  - by destruct (update_blocks q).
  - intros b [Hb| ->%list_elem_of_singleton]%elem_of_app; [by apply co_count0|]. cbn. unfold MAX_UPDATES. lia.
  - intros b [Hb| ->%list_elem_of_singleton]%elem_of_app; [by apply co_refs0|]. cbn. symmetry. apply no_reader_in; [done|].
    intros b Hb. apply co_fresh0 in Hb. lia.
  - intros i rp Hi. destruct (co_readers0 _ _ Hi) as (b & Hb & ?). exists b. split; [|done]. apply elem_of_app. by left.
  - done.
Qed.

Lemma push_block_abs d q : core q -> absq d (push_block q) = absq d q.
Proof.
  intros Hc. unfold absq. cbn. rewrite contents_app. cbn. rewrite app_nil_r. f_equal. apply map_ext_in.
  intros [rp|] Hin; [|done]. cbn. f_equal. unfold cursor. apply list_elem_of_In, list_elem_of_lookup in Hin as [i Hi].
  destruct (co_readers q Hc _ _ Hi) as (b & Hb & E & _). rewrite offset_app_l; [done|eauto].
Qed.
End QueueProps.
Arguments mkLog {T}.
