(* ===== verification/RipQueueRun.v ===== *)
(** * The operations and runs of the update queue of RIP

    What each operation does on the log with cursors, and the runs of programs that
    write to and read from the queue.  A reader that has just been created may stand at
    the end of a block; it is [settled] once it has read or was fast forwarded. *)

From Stdlib Require Import ZArith Lia.
From stdpp Require Import base tactics option numbers list.
From S2P Require Import Prelude RipQueue RipQueueProps.
Local Open Scope xorp_scope.
Local Open Scope nat_scope.
#[local] Arguments contents : simpl never.
#[local] Arguments with_refs : simpl never.
#[local] Arguments users : simpl never.

Section QueueOps.
Context {T : Type}.
Implicit Types (q : UpdateQueue T) (b : UpdateBlock T) (bs : list (UpdateBlock T)) (d : list T).

(** The reader stands before an update of its block, or in an empty block. *)
Definition settled bs (rp : ReaderPos) : Prop :=
  exists b, b ∈ bs /\ ub_name b = rp_bi rp /\ (rp_pos rp < block_count b \/ block_count b = 0).

(** What an operation for reader [id] leaves alone. *)
Definition keeps (id : nat) q q' : Prop :=
  (live (update_blocks q) -> live (update_blocks q'))
  /\ forall j, j <> id -> readers q' !! j = readers q !! j
     /\ forall rp, readers q !! j = Some (Some rp) -> settled (update_blocks q) rp -> settled (update_blocks q') rp.

Lemma keeps_refl id q : keeps id q q.
Proof. split; [done|]. by intros. Qed.
Lemma keeps_trans id q1 q2 q3 : keeps id q1 q2 -> keeps id q2 q3 -> keeps id q1 q3.
Proof.
  intros [L1 K1] [L2 K2]. split; [auto|]. intros j Hj. destruct (K1 j Hj) as [E1 S1], (K2 j Hj) as [E2 S2].
  split; [congruence|]. intros rp Hr Hs. apply S2; [by rewrite E1|]. by apply S1.
Qed.

Lemma settled_with_refs rs bs rp : settled bs rp -> settled (with_refs rs bs) rp.
Proof. intros (b & Hb & ?). eexists. split; [apply with_refs_elem; by exists b|done]. Qed.
Lemma settled_app bs bs' rp : settled bs rp -> settled (bs ++ bs') rp.
Proof. intros (b & Hb & ?). exists b. split; [|done]. apply elem_of_app. by left. Qed.

(** The blocks stay live when no reader enters one that was left. *)
Lemma live_refs rs bs old cur lb : bs = old ++ cur ++ [lb] -> Forall (fun b => updates b <> []) cur ->
  (forall c, c ∈ old -> readers_in (ub_name c) rs = 0) -> live (with_refs rs bs).
Proof.
  intros -> Hcur Hold. unfold with_refs. rewrite !map_app.
  exists (with_refs rs old), (with_refs rs cur), (mkBlock (ub_name lb) (updates lb) (readers_in (ub_name lb) rs)).
  split; [done|]. split; apply Forall_forall; intros c' (c & Hin & ->)%with_refs_elem; [by apply Hold|].
  rewrite Forall_forall in Hcur. by apply (Hcur c).
Qed.

(** Moving a reader forward. *)
Lemma moved_live q id rp rp' l0 b l1 t : core q -> readers q !! id = Some (Some rp) ->
  update_blocks q = l0 ++ b :: l1 -> ub_name b = rp_bi rp -> t ∈ b :: l1 -> ub_name t = rp_bi rp' ->
  live (update_blocks q) -> live (update_blocks (moved id rp' q)).
Proof.
  intros Hc Hi E Eb Ht Et (old & cur & lb & E' & Hold & Hcur). cbn.
  assert (Hb : block_refs b <> 0).
  { rewrite (co_refs q Hc) by (rewrite E; apply elem_of_app; right; by left).
    pose proof (readers_in_pos (ub_name b) _ _ _ Hi (eq_sym Eb)). lia. }
  assert (exists k, l0 = old ++ k) as [k ->].
  { rewrite E in E'. apply app_eq_app in E' as (k & [[-> E']|[-> E']]); [eauto|]. destruct k as [|c k].
    - exists []. by rewrite !app_nil_r.
    - injection E' as -> _. apply Forall_app in Hold as [_ Hold]. apply Forall_cons in Hold as [? _]. done. }
  apply (live_refs _ _ old cur lb E' Hcur). intros c Hcin.
  pose proof (sum_insert (inside (ub_name c)) _ id _ (Some rp') Hi) as Hs. cbn in Hs.
  fold (readers_in (ub_name c) (readers q)) in Hs.
  fold (readers_in (ub_name c) (<[id := Some rp']> (readers q))) in Hs.
  rewrite <- (co_refs q Hc c) in Hs by (rewrite E'; apply elem_of_app; by left).
  rewrite Forall_forall in Hold. rewrite (Hold _ Hcin) in Hs.
  rewrite (decide_False (P := rp_bi rp' = _)) in Hs; [lia|]. intros En.
  pose proof (co_names q Hc) as Hn. rewrite E, <- app_assoc, map_app in Hn. apply NoDup_app in Hn as (_ & Hd & _).
  apply (Hd (ub_name c)); [by apply list_elem_of_fmap_2|]. rewrite <- En, <- Et. apply list_elem_of_fmap_2.
  apply elem_of_app. by right.
Qed.

Lemma moved_keeps q id rp rp' l0 b l1 t : core q -> readers q !! id = Some (Some rp) ->
  update_blocks q = l0 ++ b :: l1 -> ub_name b = rp_bi rp -> t ∈ b :: l1 -> ub_name t = rp_bi rp' ->
  keeps id q (moved id rp' q).
Proof.
  intros. split; [by eapply moved_live|]. intros j Hj. cbn. split; [by rewrite list_lookup_insert_ne|].
  intros rj _. apply settled_with_refs.
Qed.

Lemma set_reader_moved q id rp pos : core q -> readers q !! id = Some (Some rp) ->
  set_reader id (Some (mkReader (rp_bi rp) pos)) q = moved id (mkReader (rp_bi rp) pos) q.
Proof.
  intros Hc Hi. unfold set_reader, moved. f_equal. unfold with_refs. rewrite <- (map_id (update_blocks q)) at 1.
  apply map_ext_in. intros b Hb%list_elem_of_In. destruct b as [n us r]. cbn. f_equal.
  pose proof (sum_insert (inside n) _ id _ (Some (mkReader (rp_bi rp) pos)) Hi) as Hs. cbn in Hs.
  pose proof (co_refs q Hc _ Hb) as Hr. cbn in Hr. unfold readers_in in *. lia.
Qed.

Lemma push_block_keeps id q : (forall lb, last (update_blocks q) = Some lb -> updates lb <> []) -> keeps id q (push_block q).
Proof.
  intros Hl. split.
  - intros (old & cur & lb & E & Hold & Hcur). exists old, (cur ++ [lb]), (mkBlock (next_name q) [] 0). cbn.
    split; [by rewrite E, <- !app_assoc|]. split; [done|]. apply Forall_app. split; [done|]. apply Forall_singleton.
    apply Hl. by rewrite E, app_assoc, last_snoc.
  - intros j Hj. split; [done|]. intros rp _. apply settled_app.
Qed.

Lemma gc_keeps id d q : core q -> exists q' d', garbage_collect q = (q', d') /\ core q' /\ absq (d ++ d') q' = absq d q
  /\ readers q' = readers q /\ keeps id q q'
  /\ forall j rp, readers q !! j = Some (Some rp) -> settled (update_blocks q) rp -> settled (update_blocks q') rp.
Proof.
  intros Hc. destruct (collect_spec _ (co_ne q Hc)) as (pre & E1 & E2 & E3 & E4). unfold garbage_collect.
  destruct (collect (update_blocks q)) as [bs dr]. cbn in *. exists (set_blocks bs q), dr. split; [done|].
  rewrite E2. destruct (drop_core q pre bs d Hc E1 E3 E4) as [? ?]. split; [done|]. split; [done|]. split; [done|].
  assert (forall j rp, readers q !! j = Some (Some rp) -> settled (update_blocks q) rp -> settled bs rp) as Hs.
  { intros j rp Hj (b & Hb & En & Hp). destruct (reader_suffix q pre bs rp j Hc E1 E3 Hj) as (b' & Hb' & En' & _).
    assert (b' = b) as ->; [|by exists b].
    eapply (inj Some). rewrite <- (proj2 (find_block_elem (rp_bi rp) (update_blocks q) b (co_names q Hc))) by done.
    symmetry. apply find_block_elem; [apply Hc|]. split; [|done]. rewrite E1. apply elem_of_app. by right. }
  split; [|done]. split; [cbn; rewrite E1; by apply drop_live|]. intros j _. split; [done|]. intros rp. apply Hs.
Qed.

(** ** The end of a block *)
Lemma next_block_app l0 b nb l1 : NoDup (map ub_name (l0 ++ b :: nb :: l1)) ->
  next_block (ub_name b) (l0 ++ b :: nb :: l1) = Some nb.
Proof.
  intros Hn. apply names_app in Hn as [H1 _]. induction l0 as [|c l0 IH]; cbn.
  - by rewrite decide_True.
  - rewrite decide_False by (apply H1; by left). apply IH. intros c' ?. apply H1. by right.
Qed.
Lemma offset_at l0 b l1 : NoDup (map ub_name (l0 ++ b :: l1)) -> offset (ub_name b) (l0 ++ b :: l1) = length (contents l0).
Proof.
  intros Hn. rewrite offset_app_r by (by apply (names_app _ _ _ Hn)). cbn. rewrite decide_True by done. lia.
Qed.
Lemma offset_next l0 b nb l1 : NoDup (map ub_name (l0 ++ b :: nb :: l1)) ->
  offset (ub_name nb) (l0 ++ b :: nb :: l1) = length (contents l0) + block_count b.
Proof.
  intros Hn. replace (l0 ++ b :: nb :: l1) with ((l0 ++ [b]) ++ nb :: l1) in * by (by rewrite <- app_assoc).
  rewrite offset_at by done. rewrite contents_app, length_app. unfold contents, block_count. cbn. rewrite app_nil_r. lia.
Qed.

Lemma is_last_spec q l0 b l1 : core q -> update_blocks q = l0 ++ b :: l1 ->
  is_last (ub_name b) q = bool_decide (l1 = []).
Proof.
  intros Hc E. pose proof (co_names q Hc) as Hn. unfold is_last. rewrite E in *. apply names_app in Hn as [_ Hn].
  destruct l1 as [|c l1].
  - by rewrite last_snoc, !bool_decide_true.
  - destruct (last_split (c :: l1)) as (l & x & E2 & E3); [done|]. rewrite E2.
    replace (l0 ++ b :: l ++ [x]) with ((l0 ++ b :: l) ++ [x]) by (by rewrite <- app_assoc).
    rewrite last_snoc, !bool_decide_false; [done| |]; [by destruct l|]. apply Hn. rewrite E2. apply elem_of_app.
    right. by left.
Qed.

Lemma log_seek_twice i c c' (a : log_queue) : log_seek i c (log_seek (T := T) i c' a) = log_seek i c a.
Proof. unfold log_seek. cbn. f_equal. apply list_insert_insert_eq. Qed.

Lemma cursor_at d q rp l0 b l1 : core q -> update_blocks q = l0 ++ b :: l1 -> ub_name b = rp_bi rp ->
  cursor d (update_blocks q) rp = length d + length (contents l0) + rp_pos rp.
Proof.
  intros Hc E En. unfold cursor. rewrite <- En, E. pose proof (co_names q Hc) as Hn. rewrite E in Hn.
  by rewrite offset_at.
Qed.

(** ** Readers *)
(** The outcome of an operation for reader [id], which leaves its cursor at [c]. *)
Definition reader_moves (id c : nat) d q (m : result xorp_exn (UpdateQueue T * list T)) : Prop :=
  exists q' d' rp', m = Ok (q', d') /\ core q' /\ absq (d ++ d') q' = log_seek id c (absq d q) /\ keeps id q q'
    /\ readers q' !! id = Some (Some rp') /\ settled (update_blocks q') rp' /\ length (readers q') = length (readers q).

Lemma reader_split q id rp : core q -> readers q !! id = Some (Some rp) ->
  exists l0 b l1, update_blocks q = l0 ++ b :: l1 /\ ub_name b = rp_bi rp /\ rp_pos rp <= block_count b
    /\ find_block (rp_bi rp) (update_blocks q) = Some b.
Proof.
  intros Hc Hi. destruct (reader_find q rp Hc (co_readers q Hc _ _ Hi)) as (b & Hf & Hb & En & Hp).
  pose proof Hb as Hb'. apply list_elem_of_split in Hb' as (l0 & l1 & E). by exists l0, b, l1.
Qed.

Lemma moved_lookup id rp rp' q : readers q !! id = Some rp -> readers (moved id rp' q) !! id = Some (Some rp').
Proof. intros Hi. cbn. apply list_lookup_insert_eq. by eapply lookup_lt_Some. Qed.

(** At the end of a block that is not empty, the reader enters the next one. *)
Lemma enter_next_ok d q id rp l0 b l1 : core q -> readers q !! id = Some (Some rp) ->
  update_blocks q = l0 ++ b :: l1 -> ub_name b = rp_bi rp -> block_count b <> 0 ->
  reader_moves id (length d + length (contents l0) + block_count b) d q
    (q <-! advance_block id (if is_last (ub_name b) q then push_block q else q) ;; Ok (garbage_collect q)).
Proof.
  intros Hc Hi E En E0. rewrite (is_last_spec q _ _ _ Hc E). set (q2 := if bool_decide (l1 = []) then push_block q else q).
  assert (H2 : core q2 /\ absq d q2 = absq d q /\ keeps id q q2 /\ readers q2 = readers q
    /\ exists nb l2, update_blocks q2 = l0 ++ b :: nb :: l2).
  { unfold q2. case_bool_decide as El.
    - split; [by apply push_block_core|]. split; [by apply push_block_abs|]. split.
      + apply push_block_keeps. intros lb. rewrite E, El, last_snoc. intros [= <-] Eu. unfold block_count in E0.
        by rewrite Eu in E0.
      + split; [done|]. cbn. rewrite E, El, <- app_assoc. eexists _, _. reflexivity.
    - split; [done|]. split; [done|]. split; [apply keeps_refl|]. split; [done|].
      destruct l1 as [|nb l2]; [done|]. by exists nb, l2. }
  destruct H2 as (Hc2 & Ha2 & Hk2 & Hr2 & nb & l2 & E2). clearbody q2.
  unfold advance_block, get_reader. rewrite Hr2, Hi. cbn [result_bind].
  pose proof (co_names q2 Hc2) as Hn2. rewrite E2 in Hn2. rewrite E2, <- En, next_block_app by done.
  cbn [get_node result_bind].
  assert (Hnb : nb ∈ update_blocks q2) by (rewrite E2; apply elem_of_app; right; right; by left).
  set (r3 := mkReader (ub_name nb) 0).
  assert (Hrn : reader_ok (update_blocks q2) r3) by (exists nb; split; [done|]; split; [done|]; cbn; lia).
  rewrite (move_to_eq q2 id rp) by (done || by rewrite Hr2). cbn [result_bind]. fold r3. set (q3 := moved id r3 q2).
  assert (Hc3 : core q3) by (eapply moved_core; [done|rewrite Hr2; exact Hi|done]).
  destruct (gc_keeps id d q3 Hc3) as (q4 & d4 & Eg & Hc4 & Ha4 & Hr4 & Hk4 & Hs4). rewrite Eg.
  assert (Hi3 : readers q3 !! id = Some (Some r3)) by (eapply moved_lookup; by rewrite Hr2).
  exists q4, d4, r3. split; [done|]. split; [done|]. split; [|split; [|split; [|split]]].
  - rewrite Ha4. unfold q3. rewrite moved_abs, Ha2. f_equal. unfold cursor, r3. cbn [rp_bi rp_pos].
    rewrite E2, offset_next by done. lia.
  - eapply keeps_trans; [exact Hk2|]. eapply keeps_trans; [|exact Hk4].
    eapply (moved_keeps q2 id rp r3); [done|by rewrite Hr2|exact E2|done| |done]. right. by left.
  - by rewrite Hr4.
  - eapply Hs4; [exact Hi3|]. unfold q3. cbn. apply settled_with_refs. exists nb. split; [done|]. split; [done|]. cbn. lia.
  - rewrite Hr4. cbn. by rewrite length_insert, Hr2.
Qed.

Lemma advance_ok d q id rp l0 b l1 : core q -> readers q !! id = Some (Some rp) ->
  update_blocks q = l0 ++ b :: l1 -> ub_name b = rp_bi rp -> rp_pos rp <= block_count b ->
  let c := cursor d (update_blocks q) rp in
  reader_moves id (if decide (rp_pos rp < block_count b) then S c else c) d q (advance_reader id q).
Proof.
  intros Hc Hi E En Hp c. unfold advance_reader, get_reader. rewrite Hi. cbn [result_bind].
  assert (Hb : b ∈ update_blocks q) by (rewrite E; apply elem_of_app; right; by left).
  rewrite (proj2 (find_block_elem _ _ b (co_names q Hc))) by done. cbn [get_node result_bind].
  rewrite set_reader_moved by done.
  set (pos := if decide (rp_pos rp < block_count b) then S (rp_pos rp) else rp_pos rp).
  set (r1 := mkReader (rp_bi rp) pos). set (q1 := moved id r1 q).
  assert (Hpos : rp_pos rp <= pos <= block_count b) by (unfold pos; case_decide; lia).
  assert (Hc1 : core q1) by (eapply moved_core; [done..|]; exists b; split; [done|]; split; [done|]; cbn; lia).
  assert (Hi1 : readers q1 !! id = Some (Some r1)) by (by eapply moved_lookup).
  assert (Hk1 : keeps id q q1) by (eapply moved_keeps; eauto; by left).
  set (b1 := mkBlock (ub_name b) (updates b) (readers_in (ub_name b) (readers q1))).
  assert (E1 : update_blocks q1 = with_refs (readers q1) l0 ++ b1 :: with_refs (readers q1) l1).
  { unfold q1, moved. cbn. rewrite E. unfold with_refs. by rewrite map_app. }
  assert (Ha1 : absq d q1 = log_seek id (length d + length (contents l0) + pos) (absq d q)).
  { unfold q1. rewrite moved_abs. f_equal. by rewrite (cursor_at d q r1 l0 b l1). }
  replace (if decide (rp_pos rp < block_count b) then S c else c) with (length d + length (contents l0) + pos).
  2:{ unfold c. rewrite (cursor_at d q rp l0 b l1) by done. unfold pos. case_decide; lia. }
  assert (Hl1 : length (readers q1) = length (readers q)) by (cbn; by rewrite length_insert).
  clearbody pos q1. destruct (bool_decide_reflect (pos = block_count b)) as [Ep|Ep],
    (bool_decide_reflect (block_count b = 0)) as [E0|E0]; unfold block_empty; cbn [andb].
  2:{ rewrite bool_decide_false by done. cbn [negb]. rewrite <- En. change (ub_name b) with (ub_name b1).
      destruct (enter_next_ok d q1 id r1 _ b1 _ Hc1 Hi1 E1 En E0) as (q4 & d4 & r4 & -> & Hc4 & Ha4 & Hk4 & Hi4 & Hs4 & Hl4).
      exists q4, d4, r4. split; [done|]. split; [done|]. split; [|split; [by eapply keeps_trans|]; by rewrite Hl4].
      rewrite Ha4, Ha1, log_seek_twice, with_refs_contents. f_equal. by rewrite Ep. }
  1: rewrite bool_decide_true by done; cbn [negb].
  all: exists q1, [], r1; rewrite app_nil_r; split; [done|]; split; [done|]; split; [done|]; split; [done|];
    split; [done|]; split; [|done]; exists b1; split; [rewrite E1; apply elem_of_app; right; by left|];
    split; [done|]; unfold b1, block_count, r1 in *; cbn; lia.
Qed.

Lemma ffwd_ok d q id rp : core q -> readers q !! id = Some (Some rp) ->
  reader_moves id (length (lq_log (absq d q))) d q (ffwd_reader id q).
Proof.
  intros Hc Hi. unfold ffwd_reader, get_reader. rewrite Hi. cbn [result_bind].
  destruct (last_split _ (co_ne q Hc)) as (l & lb & E & El). rewrite El. cbn [get_node result_bind].
  assert (Hlb : lb ∈ update_blocks q) by (rewrite E; apply elem_of_app; right; by left).
  set (r1 := mkReader (ub_name lb) (block_count lb)).
  assert (Hr : reader_ok (update_blocks q) r1) by (by exists lb).
  rewrite (move_to_eq q id rp) by done. cbn [result_bind]. fold r1. set (q1 := moved id r1 q).
  assert (Hc1 : core q1) by (by eapply moved_core).
  assert (Hi1 : readers q1 !! id = Some (Some r1)) by (by eapply moved_lookup).
  set (b1 := mkBlock (ub_name lb) (updates lb) (readers_in (ub_name lb) (readers q1))).
  assert (E1 : update_blocks q1 = with_refs (readers q1) l ++ b1 :: []).
  { unfold q1, moved. cbn. rewrite E. unfold with_refs. by rewrite map_app. }
  destruct (advance_ok d q1 id r1 _ b1 [] Hc1 Hi1 E1 eq_refl (le_n _)) as (q2 & d2 & r2 & -> & Hc2 & Ha2 & Hk2 & Hi2 & Hs2 & Hl2).
  cbn [result_bind]. destruct (gc_keeps id (d ++ d2) q2 Hc2) as (q3 & d3 & -> & Hc3 & Ha3 & Hr3 & Hk3 & Hs3).
  exists q3, (d2 ++ d3), r2. split; [done|]. split; [done|]. split; [|split; [|split; [|split]]].
  - rewrite app_assoc, Ha3, Ha2. rewrite decide_False by (unfold r1, b1, block_count; cbn; lia).
    unfold q1. rewrite moved_abs, log_seek_twice. f_equal. rewrite (cursor_at d (moved id r1 q) r1 _ b1 [] Hc1 E1 eq_refl).
    rewrite with_refs_contents. unfold absq. cbn. rewrite E, contents_app, !length_app. unfold contents, block_count. cbn.
    rewrite app_nil_r. lia.
  - eapply keeps_trans; [|eapply keeps_trans; [exact Hk2|exact Hk3]].
    destruct (reader_split q id rp Hc Hi) as (l0 & b & l1 & E' & En & _).
    eapply (moved_keeps q id rp r1 l0 b l1 lb); try done. rewrite E in E'.
    destruct (last_split (b :: l1)) as (l' & x & E2 & _); [done|]. rewrite E2, app_assoc in E'.
    apply app_inj_tail in E' as [_ ->]. rewrite E2. apply elem_of_app. right. by left.
  - by rewrite Hr3.
  - by eapply Hs3.
  - rewrite Hr3, Hl2. cbn. by rewrite length_insert.
Qed.

(** ** Operations that keep the readers in use *)
Lemma users_pos {X} (l : list (option X)) i x : l !! i = Some (Some x) -> users l <> 0.
Proof. intros Hi H0. by pose proof (proj1 (sum_zero _ _) H0 _ _ Hi). Qed.

Lemma moves_ok id c d q m : reader_moves id c d q m -> live (update_blocks q) ->
  exists q' d', m = Ok (q', d') /\ queue_ok q' /\ absq (d ++ d') q' = log_seek id c (absq d q) /\ keeps id q q'
    /\ exists rp', readers q' !! id = Some (Some rp') /\ settled (update_blocks q') rp'.
Proof.
  intros (q' & d' & rp & -> & Hc & Ha & Hk & Hi & Hs & _) Hl. exists q', d'. split; [done|]. split; [|eauto].
  split; [done|by apply Hk|]. rewrite (co_num q' Hc). intros H0. by apply users_pos in Hi.
Qed.

Lemma log_cursor_abs d q id rp : readers q !! id = Some (Some rp) -> log_cursor id (absq d q) = cursor d (update_blocks q) rp.
Proof. intros Hi. unfold log_cursor, absq. cbn. by rewrite (list_lookup_fmap (fmap (cursor d (update_blocks q)))), Hi. Qed.

(** A reader in an empty block has read everything. *)
Lemma empty_block_end d q id rp l0 b l1 : queue_ok q -> readers q !! id = Some (Some rp) ->
  update_blocks q = l0 ++ b :: l1 -> ub_name b = rp_bi rp -> updates b = [] ->
  length (lq_log (absq d q)) = length d + length (contents l0).
Proof.
  intros [Hc (old & cur & lb & E' & Hold & Hcur) _] Hi E En Eu.
  assert (Hb : block_refs b <> 0).
  { rewrite (co_refs q Hc) by (rewrite E; apply elem_of_app; right; by left).
    pose proof (readers_in_pos (ub_name b) _ _ _ Hi (eq_sym En)). lia. }
  assert (b = lb /\ l1 = []) as [-> ->].
  { assert (Hin : b ∈ old ++ cur ++ [lb]) by (rewrite <- E', E; apply elem_of_app; right; by left).
    rewrite Forall_forall in Hold, Hcur. rewrite !elem_of_app, list_elem_of_singleton in Hin.
    destruct Hin as [Hin|[Hin| ->]]; [by destruct (Hb (Hold _ Hin))|by destruct (Hcur _ Hin)|]. split; [done|].
    destruct l1 as [|x l1]; [done|exfalso]. rewrite E in E'. rewrite app_assoc in E'.
    destruct (last_split (x :: l1)) as (l & y & E2 & _); [done|]. rewrite E2 in *.
    replace (l0 ++ lb :: l ++ [y]) with ((l0 ++ lb :: l) ++ [y]) in * by (by rewrite <- app_assoc).
    apply app_inj_tail in E' as [_ ->]. pose proof (co_names q Hc) as Hn. rewrite E, <- app_assoc in Hn.
    apply (names_app l0 lb (l ++ [lb])) in Hn as [_ Hn]. apply (Hn lb); [|done]. apply elem_of_app. right. by left. }
  unfold absq. cbn. rewrite E, contents_app, !length_app. unfold contents at 2. cbn. rewrite Eu. cbn. lia.
Qed.

(** A settled reader has an update before it or has read everything. *)
Lemma settled_cases d q id rp : queue_ok q -> readers q !! id = Some (Some rp) -> settled (update_blocks q) rp ->
  let c := cursor d (update_blocks q) rp in
  (exists b u, find_block (rp_bi rp) (update_blocks q) = Some b /\ rp_pos rp < block_count b <= MAX_UPDATES
     /\ updates b !! rp_pos rp = Some u /\ lq_log (absq d q) !! c = Some u)
  \/ (exists b, find_block (rp_bi rp) (update_blocks q) = Some b /\ updates b = [] /\ rp_pos rp = 0
     /\ c = length (lq_log (absq d q))).
Proof.
  intros Hq Hi (b' & Hb' & En' & Hs) c. pose proof (qo_core q Hq) as Hc.
  destruct (reader_split q id rp Hc Hi) as (l0 & b & l1 & E & En & Hp & Hf).
  assert (b' = b) as ->.
  { eapply (inj Some). rewrite <- Hf. symmetry. by apply find_block_elem; [apply Hc|]. }
  destruct (decide (rp_pos rp < block_count b)) as [Hlt|Hge].
  - left. destruct (lookup_lt_is_Some_2 (updates b) (rp_pos rp) Hlt) as [u Hu]. exists b, u.
    split; [done|]. split; [split; [done|by apply Hc]|]. split; [done|]. unfold c, cursor, absq. cbn.
    rewrite lookup_app_r by lia. replace (_ + _ + _ - _) with (offset (rp_bi rp) (update_blocks q) + rp_pos rp) by lia.
    pose proof (co_names q Hc) as Hn. rewrite E in Hn |- *. rewrite <- En, contents_lookup; done.
  - right. exists b. assert (Eu : updates b = []) by (apply nil_length_inv; unfold block_count in *; lia).
    split; [done|]. split; [done|]. split; [unfold block_count in *; rewrite Eu in Hp; cbn in Hp; lia|].
    rewrite (empty_block_end d q id rp l0 b l1) by done. unfold c. rewrite (cursor_at d q rp l0 b l1) by done.
    unfold block_count in *. rewrite Eu in Hp. cbn in Hp. lia.
Qed.

Lemma log_seek_same d q id rp : readers q !! id = Some (Some rp) ->
  log_seek id (cursor d (update_blocks q) rp) (absq d q) = absq d q.
Proof.
  intros Hi. unfold log_seek, absq. cbn. f_equal. apply list_insert_id.
  by rewrite (list_lookup_fmap (fmap (cursor d (update_blocks q)))), Hi.
Qed.

(** What [queue_read] and [queue_next] answer. *)
Definition reads (id : nat) (a : log_queue) d q (m : result xorp_exn (UpdateQueue T * list T * option T)) : Prop :=
  exists q' d' u, m = Ok (q', d', u) /\ queue_ok q' /\ absq (d ++ d') q' = a /\ u = log_read id a /\ keeps id q q'
    /\ exists rp', readers q' !! id = Some (Some rp') /\ settled (update_blocks q') rp'.

Lemma read_settled d (x : list T) q id rp : queue_ok q -> readers q !! id = Some (Some rp) -> settled (update_blocks q) rp ->
  (rp <-! get_reader id q ;;
   b <-! get_node (find_block (rp_bi rp) (update_blocks q)) ;;
   if decide (rp_pos rp < block_count b) then u <-! block_get b (rp_pos rp) ;; Ok (q, x, u) else Ok (q, x, None))
  = Ok (q, x, log_read id (absq d q)).
Proof.
  intros Hq Hi Hs. unfold get_reader. rewrite Hi. cbn [result_bind]. unfold log_read. rewrite (log_cursor_abs d q id rp Hi).
  destruct (settled_cases d q id rp Hq Hi Hs) as [(b & u & -> & Hlt & Hu & ->)|(b & -> & Eu & Hp & ->)]; cbn [get_node result_bind].
  - rewrite decide_True by lia. unfold block_get. rewrite decide_True by lia. cbn. by rewrite Hu.
  - rewrite decide_False by (unfold block_count; rewrite Eu; cbn; lia).
    by rewrite (proj2 (lookup_ge_None _ _)) by done.
Qed.

Lemma read_ok d q id rp : queue_ok q -> readers q !! id = Some (Some rp) -> reads id (absq d q) d q (queue_read id q).
Proof.
  intros Hq Hi. pose proof (qo_core q Hq) as Hc. unfold queue_read, reads. unfold get_reader at 1. rewrite Hi. cbn [result_bind].
  destruct (reader_split q id rp Hc Hi) as (l0 & b & l1 & E & En & Hp & Hf). rewrite Hf. cbn [get_node result_bind].
  destruct (decide (rp_pos rp = block_count b)) as [Ep|Ep].
  - pose proof (advance_ok d q id rp l0 b l1 Hc Hi E En Hp) as Hm. cbn in Hm. rewrite decide_False in Hm by lia.
    destruct (moves_ok _ _ _ _ _ Hm (qo_live q Hq)) as (q' & d' & -> & Hq' & Ha & Hk & rp' & Hi' & Hs'). cbn [result_bind].
    rewrite (read_settled (d ++ d') d' q' id rp') by done. rewrite log_seek_same in Ha by done. rewrite Ha.
    exists q', d', (log_read id (absq d q)). split; [done|]. split; [done|]. split; [done|]. split; [done|]. eauto.
  - cbn [result_bind]. assert (Hs : settled (update_blocks q) rp).
    { exists b. split; [rewrite E; apply elem_of_app; right; by left|]. split; [done|]. lia. }
    rewrite (read_settled d [] q id rp) by done. exists q, [], (log_read id (absq d q)). rewrite app_nil_r.
    split; [done|]. split; [done|]. split; [done|]. split; [done|]. split; [apply keeps_refl|eauto].
Qed.

Lemma next_ok d q id rp : queue_ok q -> readers q !! id = Some (Some rp) -> settled (update_blocks q) rp ->
  reads id (log_advance id (absq d q)) d q (queue_next id q).
Proof.
  intros Hq Hi Hs. pose proof (qo_core q Hq) as Hc. unfold queue_next, log_advance. rewrite (log_cursor_abs d q id rp Hi).
  destruct (reader_split q id rp Hc Hi) as (l0 & b & l1 & E & En & Hp & Hf).
  pose proof (advance_ok d q id rp l0 b l1 Hc Hi E En Hp) as Hm. cbn in Hm.
  assert (Hmin : (if decide (rp_pos rp < block_count b) then S (cursor d (update_blocks q) rp) else cursor d (update_blocks q) rp)
    = S (cursor d (update_blocks q) rp) `min` length (lq_log (absq d q))).
  { destruct (settled_cases d q id rp Hq Hi Hs) as [(b' & u & Hf' & Hlt & _ & Hu)|(b' & Hf' & Eu & Hp0 & Ec)];
      rewrite Hf in Hf'; injection Hf' as <-.
    - rewrite decide_True by lia. apply lookup_lt_Some in Hu. lia.
    - unfold block_count. rewrite Eu, decide_False by (cbn; lia). lia. }
  rewrite Hmin in Hm.
  destruct (moves_ok _ _ _ _ _ Hm (qo_live q Hq)) as (q' & d' & -> & Hq' & Ha & Hk & rp' & Hi' & Hs'). cbn [result_bind].
  destruct (read_ok (d ++ d') q' id rp' Hq' Hi') as (q2 & d2 & u & -> & Hq2 & Ha2 & -> & Hk2 & Hr2).
  exists q2, (d' ++ d2), (log_read id (absq (d ++ d') q')). cbn [result_bind]. rewrite app_assoc, Ha2, Ha.
  split; [done|]. split; [done|]. split; [done|]. split; [done|]. split; [by eapply keeps_trans|done].
Qed.

(** ** Writing *)
Definition grown (u : T) b : UpdateBlock T := mkBlock (ub_name b) (updates b ++ [u]) (block_refs b).

Lemma add_last_core u q l b : core q -> update_blocks q = l ++ [b] -> block_count b < MAX_UPDATES ->
  core (set_blocks (l ++ [grown u b]) q)
  /\ forall i rp, readers q !! i = Some (Some rp) -> settled (update_blocks q) rp -> settled (l ++ [grown u b]) rp.
Proof.
  intros Hc E Hlt. pose proof Hc as []. rewrite E in *.
  assert (Hg : block_count (grown u b) = S (block_count b)) by (unfold block_count; cbn; rewrite length_app; cbn; lia).
  assert (Hin : forall c, c ∈ l ++ [grown u b] -> exists c', c' ∈ l ++ [b] /\ ub_name c' = ub_name c /\ block_refs c' = block_refs c
    /\ (c' = c \/ block_count c <= MAX_UPDATES)).
  { intros c [Hl| ->%list_elem_of_singleton]%elem_of_app; [exists c|exists b]; rewrite elem_of_app, list_elem_of_singleton;
      split_conj; auto. right. lia. }
  assert (Hout : forall c, c ∈ l ++ [b] -> exists c', c' ∈ l ++ [grown u b] /\ ub_name c' = ub_name c
    /\ (c' = c \/ block_count c' = S (block_count c))).
  { intros c [Hl| ->%list_elem_of_singleton]%elem_of_app; [exists c|exists (grown u b)];
      rewrite elem_of_app, list_elem_of_singleton; auto. }
  split; [split; cbn|].
  - rewrite map_app in *. done.
  - intros c (c' & Hc' & <- & _)%Hin. auto.
  - by destruct l.
  - intros c (c' & Hc' & _ & _ & [->|?])%Hin; auto.
  - intros c (c' & Hc' & <- & <- & _)%Hin. auto.
  - intros i rp Hi. destruct (co_readers _ _ Hi) as (c & (c' & ? & ? & Hz)%Hout & En & Hp). exists c'. split; [done|].
    split; [congruence|]. destruct Hz as [->| ->]; lia.
  - done.
  - intros i rp Hi (c & Hcin & En & Hs). destruct (Hout c Hcin) as (c' & Hc' & En' & Hz). exists c'. split; [done|].
    split; [congruence|]. destruct Hz as [->|Hz]; [done|]. left. destruct (co_readers _ _ Hi) as (c2 & Hc2 & En2 & Hp2).
    assert (c2 = c) as ->; [|lia]. eapply (inj Some). rewrite <- (proj2 (find_block_elem (rp_bi rp) _ c co_names)) by done.
    symmetry. by apply find_block_elem.
Qed.

Lemma offset_grown u n l b c : c ∈ l ++ [b] -> ub_name c = n -> offset n (l ++ [grown u b]) = offset n (l ++ [b]).
Proof.
  induction l as [|x l IH]; cbn; intros Hin En.
  - apply list_elem_of_singleton in Hin as ->. by rewrite !decide_True.
  - case_decide; [done|]. apply elem_of_cons in Hin as [->|Hin]; [done|]. by rewrite IH.
Qed.

Lemma add_last_abs d u q l b : core q -> update_blocks q = l ++ [b] ->
  absq d (set_blocks (l ++ [grown u b]) q) = mkLog (lq_log (absq d q) ++ [u]) (lq_cursors (absq d q)).
Proof.
  intros Hc E. unfold absq. cbn. rewrite E. f_equal.
  - rewrite !contents_app. unfold contents. cbn. by rewrite !app_nil_r, !app_assoc.
  - apply map_ext_in. intros [rp|] Hin; [|done]. cbn. f_equal. unfold cursor.
    apply list_elem_of_In, list_elem_of_lookup in Hin as [i Hi].
    destruct (co_readers q Hc _ _ Hi) as (c & Hcin & En & _). rewrite E in Hcin. by erewrite offset_grown.
Qed.

Lemma modify_last_grown u l b : NoDup (map ub_name (l ++ [b])) -> block_count b < MAX_UPDATES ->
  modify_last (fun c => fst (add_update u c)) (l ++ [b]) = l ++ [grown u b].
Proof.
  intros [Hn _]%names_app Hb. unfold modify_last. rewrite last_snoc. induction l as [|c l IH]; cbn.
  - rewrite decide_True by done. unfold add_update, block_full. by rewrite bool_decide_false by lia.
  - rewrite decide_False by (apply Hn; by left). f_equal. apply IH. intros c' ?. apply Hn. by right.
Qed.

Lemma live_last l b b' : live (l ++ [b]) -> live (l ++ [b']).
Proof.
  intros (old & cur & lb & E & Ho & Hcu). rewrite app_assoc in E. apply app_inj_tail in E as [-> _].
  exists old, cur, b'. by rewrite <- app_assoc.
Qed.

Lemma push_back_ok d u q : queue_ok q -> exists q', push_back u q = Ok (q', true) /\ queue_ok q'
  /\ absq d q' = log_push u (absq d q) /\ readers q' = readers q
  /\ forall i rp, readers q !! i = Some (Some rp) -> settled (update_blocks q) rp -> settled (update_blocks q') rp.
Proof.
  intros Hq. pose proof (qo_core q Hq) as Hc. unfold push_back, log_push. cbn [absq lq_cursors].
  rewrite users_map, <- (co_num q Hc). destruct (decide (num_readers q = 0)) as [H0|H0]; [by exists q|].
  destruct (last_split _ (co_ne q Hc)) as (l & lb & E & El). rewrite El. cbn [get_node result_bind].
  set (q1 := if block_full lb then push_block q else q).
  assert (H1 : core q1 /\ absq d q1 = absq d q /\ keeps (length (readers q)) q q1 /\ readers q1 = readers q
    /\ num_readers q1 = num_readers q /\ exists l1 b1, update_blocks q1 = l1 ++ [b1] /\ block_count b1 < MAX_UPDATES).
  { unfold q1, block_full. case_bool_decide as Ef.
    - split; [by apply push_block_core|]. split; [by apply push_block_abs|]. split.
      + apply push_block_keeps. rewrite El. intros ? [= <-] Eu. unfold block_count in Ef. by rewrite Eu in Ef.
      + split; [done|]. split; [done|]. eexists _, _. split; [reflexivity|]. cbn. unfold MAX_UPDATES. lia.
    - split; [done|]. split; [done|]. split; [apply keeps_refl|]. split; [done|]. split; [done|]. exists l, lb.
      split; [done|]. assert (block_count lb <= MAX_UPDATES) by (apply Hc; rewrite E; apply elem_of_app; right; by left). lia. }
  destruct H1 as (Hc1 & Ha1 & [Hl1 Hs1] & Hr1 & Hn1 & l1 & b1 & E1 & Hb1). clearbody q1.
  pose proof (co_names q1 Hc1) as Hn. rewrite E1 in Hn.
  rewrite E1, last_snoc. cbn [get_node result_bind]. unfold add_update at 1, block_full. rewrite bool_decide_false by lia.
  rewrite modify_last_grown by done. destruct (add_last_core u q1 l1 b1 Hc1 E1 Hb1) as [Hc2 Hs2].
  exists (set_blocks (l1 ++ [grown u b1]) q1). split; [done|]. split; [split|split; [|split]].
  - done.
  - cbn. eapply live_last. rewrite <- E1. by apply Hl1, Hq.
  - cbn. by rewrite Hn1.
  - rewrite (add_last_abs d u q1 l1 b1 Hc1 E1). by rewrite Ha1.
  - done.
  - intros i rp Hi Hs. assert (i <> length (readers q)) as Hne by (apply lookup_lt_Some in Hi; lia).
    apply (Hs2 i); [by rewrite Hr1|]. by eapply (Hs1 i Hne).
Qed.
End QueueOps.
