(* ===== verification/RipQueueClaims.v ===== *)
(** * Readers that come and go, and the runs of the update queue of RIP

    Creating and destroying readers, flushing the queue, and the refinement of the log
    with cursors by every program that first reads and then steps forward. *)

From Stdlib Require Import ZArith Lia.
From stdpp Require Import base tactics option numbers list.
From S2P Require Import Prelude RipQueue RipQueueProps RipQueueRun.
Local Open Scope xorp_scope.
Local Open Scope nat_scope.
#[local] Arguments contents : simpl never.
#[local] Arguments with_refs : simpl never.
#[local] Arguments users : simpl never.

Section Readers.
Context {T : Type}.
Implicit Types (q : UpdateQueue T) (b : UpdateBlock T) (bs : list (UpdateBlock T)) (d : list T) (rs : list (option ReaderPos)).

(** What happens to the readers other than [id]. *)
Definition others_kept (id : nat) q q' : Prop :=
  forall j rp, j <> id -> readers q !! j = Some (Some rp) -> settled (update_blocks q) rp ->
    readers q' !! j = Some (Some rp) /\ settled (update_blocks q') rp.

Lemma keeps_others id q q' : keeps id q q' -> others_kept id q q'.
Proof. intros [_ Hk] j rp Hj Hi Hs. destruct (Hk j Hj) as [E Hs']. rewrite E. auto. Qed.

(** ** A new reader takes the first free slot *)
Definition enlist {X} (i : nat) (x : X) (l : list (option X)) : list (option X) :=
  if decide (i < length l) then <[i := Some x]> l else l ++ [Some x].

Lemma lookup_enlist {X} i (x : X) l j : i <= length l -> enlist i x l !! j = if decide (j = i) then Some (Some x) else l !! j.
Proof.
  intros Hi. unfold enlist. case_decide as Hl.
  - destruct (decide (j = i)) as [->|]; [by apply list_lookup_insert_eq|by apply list_lookup_insert_ne].
  - assert (i = length l) as -> by lia. destruct (decide (j = length l)) as [->|].
    + rewrite lookup_app_r by lia. by rewrite Nat.sub_diag.
    + destruct (decide (j < length l)); [by apply lookup_app_l|]. rewrite lookup_app_r by lia.
      rewrite (lookup_ge_None_2 l) by lia. apply lookup_ge_None. cbn. lia.
Qed.

Lemma sum_enlist (f : option ReaderPos -> nat) rs rp : f None = 0 ->
  sum_list_with f (enlist (free_slot rs) rp rs) = sum_list_with f rs + f (Some rp).
Proof.
  intros Hf. unfold enlist. case_decide as Hl.
  - pose proof (sum_insert f rs _ None (Some rp) (free_slot_free rs Hl)). lia.
  - rewrite sum_list_with_app. cbn. lia.
Qed.

Lemma map_enlist {X Y} (f : X -> Y) i x (l : list (option X)) : map (fmap f) (enlist i x l) = enlist i (f x) (map (fmap f) l).
Proof. unfold enlist. rewrite length_map. case_decide; [by rewrite map_insert|by rewrite map_app]. Qed.

Lemma add_reader_ok d q : queue_ok q -> exists q' i, add_reader q = Ok (q', i) /\ queue_ok q'
  /\ log_add_reader (absq d q) = (absq d q', i) /\ others_kept i q q'.
Proof.
  intros [Hc Hl _]. unfold add_reader. destruct (last_split _ (co_ne q Hc)) as (l & lb & E & El). rewrite El.
  cbn [get_node result_bind].
  assert (Hlb : lb ∈ update_blocks q) by (rewrite E; apply elem_of_app; right; by left).
  set (rp := mkReader (ub_name lb) (block_count lb)). set (i := free_slot (readers q)). set (rs := enlist i rp (readers q)).
  assert (Hin : forall n, readers_in n rs = readers_in n (readers q) + (if decide (ub_name lb = n) then 1 else 0)).
  { intros n. by apply (sum_enlist (inside n)). }
  rewrite (ref_eq q (ub_name lb) rs lb (co_names q Hc) Hlb eq_refl).
  2:{ intros c Hcin. rewrite Hin, (co_refs q Hc c Hcin). f_equal. repeat case_decide; congruence. }
  cbn [result_bind set_blocks readers num_readers next_name update_blocks]. fold i.
  change (if decide (i < length (readers q)) then _ else _) with rs.
  eexists _, i. split; [reflexivity|]. split; [split|split].
  - pose proof Hc as []. split; cbn; [by rewrite with_refs_names| |by rewrite E; destruct l| | | |].
    + intros b (c & Hcin & ->)%with_refs_elem. by apply (co_fresh c).
    + intros b (c & Hcin & ->)%with_refs_elem. by apply (co_count c).
    + by intros b (c & Hcin & ->)%with_refs_elem.
    + intros j r Hj. apply with_refs_reader. unfold rs in Hj. rewrite lookup_enlist in Hj by apply free_slot_le.
      case_decide; [injection Hj as <-; by exists lb|eauto].
    + rewrite co_num. unfold users, rs, i. rewrite (sum_enlist in_use) by done. cbn. lia.
  - destruct Hl as (old & cur & lb' & E' & Hold & Hcur). cbn. eapply live_refs; [exact E'|done|].
    intros c Hcin. rewrite Hin. rewrite <- (co_refs q Hc c) by (rewrite E'; apply elem_of_app; by left).
    rewrite Forall_forall in Hold. rewrite (Hold c Hcin). rewrite decide_False; [done|]. intros En.
    pose proof (co_names q Hc) as Hn. rewrite E' in E. rewrite app_assoc in E. apply app_inj_tail in E as [_ <-].
    rewrite E', app_assoc in Hn. apply names_app in Hn as [Hn _]. apply (Hn c); [apply elem_of_app; by left|done].
  - cbn. lia.
  - unfold log_add_reader, absq. cbn [lq_cursors lq_log update_blocks readers]. rewrite slot_map. fold i. f_equal.
    rewrite with_refs_contents. unfold rs. rewrite map_enlist. unfold enlist. rewrite !length_map.
    f_equal. assert (cursor d (with_refs rs (update_blocks q)) rp = length (d ++ contents (update_blocks q))) as Hcu.
    { unfold cursor. rewrite with_refs_offset, E. cbn [rp rp_bi rp_pos]. pose proof (co_names q Hc) as Hn. rewrite E in Hn.
      rewrite offset_at by done. rewrite contents_app, !length_app. unfold contents, block_count. cbn. rewrite app_nil_r. lia. }
    unfold rs, enlist in Hcu. assert (forall o : option ReaderPos, (fmap (cursor d (with_refs rs (update_blocks q)))) o
      = fmap (cursor d (update_blocks q)) o) as Hf.
    { intros [r|]; [|done]. cbn. unfold cursor. by rewrite with_refs_offset. }
    unfold rs, enlist in Hf. rewrite (map_ext _ _ Hf), Hcu. done.
  - intros j r Hj Hi Hs. cbn. split; [|by apply settled_with_refs].
    unfold rs. rewrite lookup_enlist by apply free_slot_le. by rewrite decide_False.
Qed.

(** ** A reader leaves *)
Lemma collect_all bs b : Forall (fun c => block_refs c = 0) bs -> collect (bs ++ [b]) = ([b], contents bs).
Proof.
  induction bs as [|c bs IH]; intros Hz; [done|]. apply Forall_cons in Hz as [Hz Hbs]. specialize (IH Hbs).
  cbn [app]. destruct (bs ++ [b]) as [|x y] eqn:E; [by destruct bs|].
  change (collect (c :: x :: y)) with (if decide (block_refs c = 0)
    then let '(bs', dropped) := collect (x :: y) in (bs', updates c ++ dropped) else (c :: x :: y, [])).
  rewrite decide_True, IH by done. done.
Qed.

Definition without (id : nat) q : UpdateQueue T :=
  let rs := <[id := None]> (readers q) in mkUQ (with_refs rs (update_blocks q)) (next_name q) rs (pred (num_readers q)).

Lemma without_ok d q id rp : queue_ok q -> readers q !! id = Some (Some rp) ->
  core (without id q) /\ live (update_blocks (without id q)) /\ absq d (without id q) = log_remove id (absq d q)
  /\ others_kept id q (without id q).
Proof.
  intros [Hc (old & cur & lb & E & Hold & Hcur) _] Hi. pose proof Hc as [].
  assert (Hlt : id < length (readers q)) by (by eapply lookup_lt_Some). unfold without.
  split; [split; cbn|split; [|split]].
  - by rewrite with_refs_names.
  - intros b (c & Hcin & ->)%with_refs_elem. by apply (co_fresh c).
  - by rewrite E; destruct old, cur.
  - intros b (c & Hcin & ->)%with_refs_elem. by apply (co_count c).
  - by intros b (c & Hcin & ->)%with_refs_elem.
  - intros j r Hj. apply with_refs_reader. destruct (decide (j = id)) as [->|].
    + by rewrite list_lookup_insert_eq in Hj.
    + rewrite list_lookup_insert_ne in Hj by done. eauto.
  - rewrite co_num. pose proof (sum_insert in_use _ id _ None Hi) as Hs. cbn in Hs. unfold users. lia.
  - cbn. eapply live_refs; [exact E|done|]. intros c Hcin.
    pose proof (sum_insert (inside (ub_name c)) _ id _ None Hi) as Hs. cbn in Hs. unfold readers_in.
    fold (readers_in (ub_name c) (readers q)) in Hs. rewrite <- (co_refs c) in Hs by (rewrite E; apply elem_of_app; by left).
    rewrite Forall_forall in Hold. rewrite (Hold c Hcin) in Hs. lia.
  - unfold absq, log_remove. cbn [update_blocks readers lq_log lq_cursors]. rewrite with_refs_contents, map_insert. f_equal.
    f_equal. apply map_ext. intros [r|]; [|done]. cbn. unfold cursor. by rewrite with_refs_offset.
  - intros j r Hj Hr Hs. cbn. split; [by rewrite list_lookup_insert_ne|]. by apply settled_with_refs.
Qed.

Lemma remove_reader_ok d q id rp : queue_ok q -> readers q !! id = Some (Some rp) ->
  exists q' d', remove_reader id q = Ok (q', d') /\ queue_ok q' /\ absq (d ++ d') q' = log_remove id (absq d q)
    /\ others_kept id q q'.
Proof.
  intros Hq Hi. pose proof (qo_core q Hq) as Hc. unfold remove_reader. rewrite Hi, (unref_eq q id rp) by done.
  destruct (without_ok d q id rp Hq Hi) as (Hc1 & Hl1 & Ha1 & Ho1). cbn [result_bind].
  change (mkUQ _ _ _ _) with (without id q). generalize dependent (without id q). intros q1 Hc1 Hl1 Ha1 Ho1.
  destruct (last_split _ (co_ne q1 Hc1)) as (l & lb & E & El). rewrite El. cbn [get_node result_bind].
  set (q2 := if bool_decide (num_readers q1 = 0) && negb (block_empty lb) then push_block q1 else q1).
  assert (H2 : core q2 /\ absq d q2 = absq d q1 /\ keeps id q1 q2 /\ num_readers q2 = num_readers q1
    /\ (num_readers q1 = 0 -> exists l2 b2, update_blocks q2 = l2 ++ [b2] /\ updates b2 = [])).
  { unfold q2, block_empty. destruct (bool_decide_reflect (num_readers q1 = 0)) as [H0|H0]; cbn [andb].
    2:{ split; [done|]. split; [done|]. split; [apply keeps_refl|]. done. }
    case_bool_decide as Eb; cbn [negb].
    - split; [done|]. split; [done|]. split; [apply keeps_refl|]. split; [done|]. intros _. exists l, lb. split; [done|].
      by apply nil_length_inv.
    - split; [by apply push_block_core|]. split; [by apply push_block_abs|]. split.
      + apply push_block_keeps. rewrite El. intros ? [= <-] Eu. unfold block_count in Eb. by rewrite Eu in Eb.
      + split; [done|]. intros _. eexists _, _. by split. }
  destruct H2 as (Hc2 & Ha2 & Hk2 & Hn2 & Hidle). clearbody q2.
  destruct (gc_keeps id d q2 Hc2) as (q3 & d3 & Eg & Hc3 & Ha3 & Hr3 & Hk3 & Hs3). rewrite Eg. exists q3, d3.
  split; [done|]. split; [split; [done|by apply Hk3, Hk2|]|split].
  - intros H0. assert (Hn3 : num_readers q3 = num_readers q2).
    { unfold garbage_collect in Eg. destruct (collect _). by injection Eg as <- <-. }
    rewrite Hn3, Hn2 in H0. destruct (Hidle H0) as (l2 & b2 & E2 & Eu). unfold garbage_collect in Eg.
    rewrite E2, collect_all in Eg.
    + injection Eg as <- _. cbn. unfold contents. cbn. by rewrite Eu.
    + apply Forall_forall. intros c Hcin. rewrite (co_refs q2 Hc2) by (rewrite E2; apply elem_of_app; by left).
      apply sum_zero. intros j [r|] Hj; [|done]. apply users_pos in Hj. rewrite <- (co_num q2 Hc2) in Hj. congruence.
  - by rewrite Ha3, Ha2, Ha1.
  - intros j r Hj Hr Hs. destruct (Ho1 j r Hj Hr Hs) as [Hr1 Hs1]. apply (keeps_others id q1); [|done..].
    by eapply keeps_trans.
Qed.

(** ** Flushing *)
Lemma ffwd_empty q id rp l lb : core q -> readers q !! id = Some (Some rp) -> update_blocks q = l ++ [lb] -> updates lb = [] ->
  ffwd_reader id q = Ok (garbage_collect (moved id (mkReader (ub_name lb) 0) q)).
Proof.
  intros Hc Hi E Eu. assert (Hlb : lb ∈ update_blocks q) by (rewrite E; apply elem_of_app; right; by left).
  assert (E0 : block_count lb = 0) by (unfold block_count; by rewrite Eu).
  unfold ffwd_reader. unfold get_reader at 1. rewrite Hi. cbn [result_bind]. rewrite E, last_snoc. cbn [get_node result_bind]. rewrite E0.
  rewrite (move_to_eq q id rp) by (done || (exists lb; split; [done|]; split; [done|]; cbn; lia)). cbn [result_bind].
  set (q1 := moved id _ q).
  assert (Hi1 : readers q1 !! id = Some (Some (mkReader (ub_name lb) 0))) by (by eapply moved_lookup).
  assert (Hn1 : NoDup (map ub_name (update_blocks q1))) by (cbn; rewrite with_refs_names; apply Hc).
  unfold advance_reader, get_reader. rewrite Hi1. cbn [result_bind rp_bi rp_pos].
  rewrite (proj2 (find_block_elem _ (update_blocks q1) (mkBlock (ub_name lb) [] (readers_in (ub_name lb) (readers q1))) Hn1)).
  - cbn [get_node result_bind]. rewrite decide_False by (cbn; lia). unfold block_empty, set_reader.
    rewrite (bool_decide_true (block_count _ = 0)) by done. rewrite andb_false_r, list_insert_id by done. cbn [result_bind].
    change (mkUQ (update_blocks q1) (next_name q1) (readers q1) (num_readers q1)) with q1. by destruct (garbage_collect q1).
  - split; [|done]. apply with_refs_elem. exists lb. by rewrite Eu.
Qed.

(** The last block is empty, and the first [n] readers are in it. *)
Definition flushed (n : nat) (e : nat) q : Prop :=
  core q /\ (exists l r, update_blocks q = l ++ [mkBlock e [] r])
  /\ forall i rp, readers q !! i = Some (Some rp) -> i < n -> rp = mkReader e 0.

Lemma flush_reader d q id rp e : flushed id e q -> readers q !! id = Some (Some rp) ->
  exists q' d', ffwd_reader id q = Ok (q', d') /\ flushed (S id) e q' /\ lq_log (absq (d ++ d') q') = lq_log (absq d q)
    /\ readers q' = <[id := Some (mkReader e 0)]> (readers q).
Proof.
  intros (Hc & (l & r & E) & Hin) Hi. rewrite (ffwd_empty q id rp l _ Hc Hi E eq_refl). cbn [ub_name].
  set (q1 := moved id (mkReader e 0) q).
  assert (Hc1 : core q1).
  { eapply moved_core; [done..|]. exists (mkBlock e [] r). split; [rewrite E; apply elem_of_app; right; by left|]. done. }
  destruct (gc_keeps id d q1 Hc1) as (q2 & d2 & Eg & Hc2 & Ha2 & Hr2 & _). rewrite Eg. exists q2, d2.
  split; [done|]. split; [split; [done|split]|split].
  - unfold garbage_collect in Eg. destruct (collect_spec (update_blocks q1) (co_ne q1 Hc1)) as (pre & E1 & _ & _ & Hne).
    destruct (collect (update_blocks q1)) as [bs x]. injection Eg as <- <-. cbn in *.
    destruct (last_split bs Hne) as (l' & b & -> & _). rewrite E in E1. unfold with_refs in E1. rewrite map_app in E1.
    rewrite app_assoc in E1. apply app_inj_tail in E1 as [_ <-]. eexists _, _. reflexivity.
  - intros i p. rewrite Hr2. cbn. intros Hp Hlt. destruct (decide (i = id)) as [->|].
    + rewrite list_lookup_insert_eq in Hp by (by eapply lookup_lt_Some). by injection Hp as <-.
    + rewrite list_lookup_insert_ne in Hp by done. eapply Hin; [done|lia].
  - rewrite Ha2. unfold q1. by rewrite moved_abs.
  - done.
Qed.

Lemma ffwd_all_ok n : forall id q d e, flushed id e q -> id + n = length (readers q) ->
  exists q' d', ffwd_all n id q = Ok (q', d') /\ flushed (length (readers q)) e q'
    /\ lq_log (absq (d ++ d') q') = lq_log (absq d q)
    /\ readers q' = map (fmap (fun _ => mkReader e 0)) (readers q).
Proof.
  induction n as [|n IH]; intros id q d e Hf Hn.
  - exists q, []. rewrite app_nil_r. split; [done|]. rewrite Nat.add_0_r in Hn. rewrite <- Hn. split; [done|]. split; [done|].
    rewrite <- (map_id (readers q)) at 1. apply map_ext_in. intros [rp|] Hin; [|done].
    apply list_elem_of_In, list_elem_of_lookup in Hin as [i Hi]. cbn. f_equal. destruct Hf as (_ & _ & Hf).
    eapply Hf; [exact Hi|]. rewrite Hn. by eapply lookup_lt_Some.
  - cbn [ffwd_all]. destruct (lookup_lt_is_Some_2 (readers q) id) as [[rp|] Hi]; [lia| |]; rewrite Hi.
    + destruct (flush_reader d q id rp e Hf Hi) as (q1 & d1 & -> & Hf1 & Ha1 & Hr1). cbn [result_bind].
      assert (Hlen : length (readers q1) = length (readers q)) by (rewrite Hr1; apply length_insert).
      destruct (IH (S id) q1 (d ++ d1) e Hf1) as (q2 & d2 & -> & Hf2 & Ha2 & Hr2); [lia|]. cbn [result_bind].
      exists q2, (d1 ++ d2). rewrite app_assoc, <- Hlen. split; [done|]. split; [done|]. split; [by rewrite Ha2|].
      rewrite Hr2, Hr1, map_insert. apply list_insert_id. by rewrite (list_lookup_fmap (fmap _)), Hi.
    + cbn [result_bind]. assert (Hf1 : flushed (S id) e q).
      { destruct Hf as (Hc & Hb & Hin). split; [done|]. split; [done|]. intros i rp Hr Hlt.
        destruct (decide (i = id)) as [->|]; [congruence|]. eapply Hin; [done|lia]. }
      destruct (IH (S id) q d e Hf1) as (q2 & d2 & -> & ?); [lia|]. cbn [result_bind]. by exists q2, d2.
Qed.

(** The last reader that moves leaves nothing behind. *)
Lemma flush_last q id rp e : flushed id e q -> readers q !! id = Some (Some rp) -> (forall j rj, readers q !! j = Some (Some rj) -> j <= id) ->
  exists q' d', ffwd_reader id q = Ok (q', d') /\ contents (update_blocks q') = [] /\ forall j, id < j -> readers q' !! j = readers q !! j.
Proof.
  intros (Hc & (l & r & E) & Hin) Hi Hlast. rewrite (ffwd_empty q id rp l _ Hc Hi E eq_refl). cbn [ub_name].
  set (q1 := moved id (mkReader e 0) q).
  assert (Hc1 : core q1).
  { eapply moved_core; [done..|]. exists (mkBlock e [] r). split; [rewrite E; apply elem_of_app; right; by left|]. done. }
  unfold garbage_collect. unfold q1 at 1. cbn [update_blocks moved]. rewrite E.
  unfold with_refs. rewrite map_app. cbn [map ub_name updates]. fold (with_refs (<[id := Some (mkReader e 0)]> (readers q)) l).
  rewrite collect_all.
  - eexists _, _. split; [reflexivity|]. split; [done|]. intros j Hj. cbn. rewrite list_lookup_insert_ne by lia. done.
  - apply Forall_forall. intros c' (c & Hcin & ->)%with_refs_elem. cbn [block_refs]. apply sum_zero. intros j [rj|] Hj; [|done]. cbn.
    assert (rp_bi rj = e) as ->.
    { destruct (decide (j = id)) as [->|Hne].
      - rewrite list_lookup_insert_eq in Hj by (by eapply lookup_lt_Some). by injection Hj as <-.
      - rewrite list_lookup_insert_ne in Hj by done. pose proof (Hlast _ _ Hj). rewrite (Hin j rj Hj) by lia. done. }
    rewrite decide_False; [done|]. intros En. pose proof (co_names q Hc) as Hn. rewrite E in Hn. apply names_app in Hn as [Hn _].
    by apply (Hn c Hcin).
Qed.

Lemma ffwd_none n : forall id q, (forall j rj, readers q !! j = Some (Some rj) -> j < id) -> ffwd_all n id q = Ok (q, []).
Proof.
  induction n as [|n IH]; intros id q Hn; [done|]. cbn [ffwd_all].
  replace (match readers q !! id with Some (Some _) => ffwd_reader id q | _ => Ok (q, []) end) with (Ok (E := xorp_exn) (q, @nil T)).
  - cbn [result_bind]. rewrite IH; [done|]. intros j rj Hj. specialize (Hn j rj Hj). lia.
  - destruct (readers q !! id) as [[rp|]|] eqn:E; [|done|done]. specialize (Hn _ _ E). lia.
Qed.

Lemma last_in_use {X} (l : list (option X)) i x : l !! i = Some (Some x) ->
  exists j y, l !! j = Some (Some y) /\ forall k z, l !! k = Some (Some z) -> k <= j.
Proof.
  revert i x. induction l as [|o l IH] using rev_ind; intros i x Hi; [done|]. destruct o as [y|].
  - exists (length l), y. rewrite lookup_app_r, Nat.sub_diag by lia. split; [done|]. intros k z Hk. apply lookup_lt_Some in Hk.
    rewrite length_app in Hk. cbn in Hk. lia.
  - assert (Hc : forall k z, (l ++ [None]) !! k = Some (Some z) -> l !! k = Some (Some z)).
    { intros k z [?|[_ Hk]]%lookup_app_Some; [done|]. destruct (k - length l) as [|[|?]]; done. }
    destruct (IH i x (Hc _ _ Hi)) as (j & y & Hj & Hmax). exists j, y. split; [by apply lookup_app_l_Some|]. intros k z Hk. eauto.
Qed.

Lemma ffwd_all_empty n : forall id q e, flushed id e q -> id + n = length (readers q) -> (exists j rj, id <= j /\ readers q !! j = Some (Some rj)) ->
  forall q' d', ffwd_all n id q = Ok (q', d') -> contents (update_blocks q') = [].
Proof.
  induction n as [|n IH]; intros id q e Hf Hn (j & rj & Hj & Hr) q' d'.
  { apply lookup_lt_Some in Hr. lia. }
  cbn [ffwd_all]. destruct (lookup_lt_is_Some_2 (readers q) id) as [[rp|] Hi]; [lia| |]; rewrite Hi.
  - destruct (last_in_use _ _ _ Hi) as (m & y & Hm & Hmax). destruct (decide (m = id)) as [->|Hne].
    + destruct (flush_last q id rp e Hf Hi Hmax) as (q1 & d1 & -> & Hc1 & Hr1). cbn [result_bind].
      rewrite ffwd_none. { cbn [result_bind]. intros [= <- _]. done. }
      intros k rk Hk. destruct (decide (id < k)); [|lia]. rewrite Hr1 in Hk by done. apply Hmax in Hk. lia.
    + destruct (flush_reader [] q id rp e Hf Hi) as (q1 & d1 & -> & Hf1 & _ & Hr1). cbn [result_bind].
      destruct (ffwd_all n (S id) q1) as [[q2 d2]|] eqn:E2; [|done]. cbn [result_bind]. intros [= <- _].
      eapply (IH (S id) q1 e Hf1); [rewrite Hr1, length_insert; lia| |exact E2].
      exists m, y. pose proof (Hmax _ _ Hi). split; [lia|]. rewrite Hr1. by rewrite list_lookup_insert_ne.
  - cbn [result_bind]. destruct (ffwd_all n (S id) q) as [[q2 d2]|] eqn:E2; [|done]. cbn [result_bind]. intros [= <- _].
    eapply (IH (S id) q e); [|lia| |exact E2].
    + destruct Hf as (Hc & Hb & Hin). split; [done|]. split; [done|]. intros i rp Hri Hlt.
      destruct (decide (i = id)) as [->|]; [congruence|]. eapply Hin; [done|lia].
    + exists j, rj. split; [|done]. destruct (decide (j = id)) as [->|]; [congruence|lia].
Qed.

Lemma flush_empties q q' d' : queue_ok q -> queue_flush q = Ok (q', d') -> contents (update_blocks q') = [].
Proof.
  intros Hq. unfold queue_flush. cbn [push_block readers]. fold (push_block q). intros E. pose proof (qo_core q Hq) as Hc.
  assert (Hf : flushed 0 (next_name q) (push_block q)).
  { split; [by apply push_block_core|]. split; [by eexists _, 0|]. intros. lia. }
  destruct (decide (users (readers q) = 0)) as [H0|H0].
  - rewrite ffwd_none in E.
    + injection E as <- _. cbn. rewrite contents_app, (qo_idle q Hq); [done|]. by rewrite (co_num q Hc).
    + intros j rj Hj. by apply users_pos in Hj.
  - assert (exists j rj, readers q !! j = Some (Some rj)) as (j & rj & Hj).
    { clear - H0. induction (readers q) as [|[rp|] l IH]; [done|by exists 0, rp|]. destruct IH as (j & rj & ?); [done|]. by exists (S j), rj. }
    eapply (ffwd_all_empty (length (readers q)) 0 (push_block q)); [exact Hf|done| |exact E]. exists j, rj. split; [lia|done].
Qed.

Lemma flush_ok d q : queue_ok q -> exists q' d', queue_flush q = Ok (q', d') /\ queue_ok q'
  /\ absq (d ++ d') q' = log_flush (absq d q)
  /\ (forall i rp, readers q' !! i = Some (Some rp) -> settled (update_blocks q') rp).
Proof.
  intros Hq. pose proof (qo_core q Hq) as Hc. unfold queue_flush. cbn [push_block readers]. fold (push_block q).
  assert (Hf : flushed 0 (next_name q) (push_block q)).
  { split; [by apply push_block_core|]. split; [by eexists _, 0|]. intros. lia. }
  destruct (ffwd_all_ok (length (readers q)) 0 (push_block q) d _ Hf eq_refl) as (q' & d' & -> & (Hc' & (l & r & E) & Hin) & Ha & Hr).
  cbn in Hr. rewrite push_block_abs in Ha by done. exists q', d'. split; [done|].
  assert (Hall : forall i rp, readers q' !! i = Some (Some rp) -> rp = mkReader (next_name q) 0).
  { intros i rp Hi. eapply Hin; [exact Hi|]. cbn. rewrite <- (length_map (fmap (fun _ => mkReader (next_name q) 0))), <- Hr.
    by eapply lookup_lt_Some. }
  assert (Hlog : length (lq_log (absq d q)) = length (d ++ d') + length (contents l)).
  { rewrite <- Ha. unfold absq. cbn. rewrite E, contents_app, !length_app. unfold contents at 2. cbn. lia. }
  pose proof (co_names q' Hc') as Hn. rewrite E in Hn. split; [split|split].
  - done.
  - rewrite E. exists l, [], (mkBlock (next_name q) [] r). split; [done|]. split; [|done]. apply Forall_forall. intros c Hcin.
    rewrite (co_refs q' Hc') by (rewrite E; apply elem_of_app; by left). apply sum_zero. intros i [rp|] Hi; [|done].
    rewrite (Hall i rp Hi). cbn. rewrite decide_False; [done|]. apply names_app in Hn as [Hn _]. intros En.
    by apply (Hn c Hcin).
  - intros H0. rewrite (co_num q' Hc'), Hr, users_map, <- (co_num q Hc) in H0. pose proof (qo_idle q Hq H0) as Hx.
    assert (length (d ++ d' ++ contents (update_blocks q')) = length d) as Hlen.
    { unfold absq in Ha. cbn in Ha. rewrite app_assoc, Ha, Hx, app_nil_r. done. }
    apply nil_length_inv. rewrite !length_app in Hlen. lia.
  - unfold log_flush. rewrite Hlog. unfold absq in Ha |- *. cbn in Ha |- *. rewrite Ha. f_equal. rewrite Hr, !map_map.
    apply map_ext. intros [rp|]; [|done]. cbn. f_equal. unfold cursor. rewrite E. cbn [rp_bi rp_pos].
    change (next_name q) with (ub_name (mkBlock (T := T) (next_name q) [] r)) at 1. rewrite offset_at by done. lia.
  - intros i rp Hi. rewrite (Hall i rp Hi). exists (mkBlock (next_name q) [] r). split; [rewrite E; apply elem_of_app; right; by left|].
    split; [done|]. by right.
Qed.
End Readers.

(** ** Runs *)
Section Runs.
Context {T : Type}.
Implicit Types (q : UpdateQueue T) (d : list T) (a : log_queue (T := T)) (fresh : list nat).

(** The operations of [UpdateQueue], and what they answer. *)
Inductive uq_op := UPush (u : T) | UCreate | UDestroy (id : nat) | UGet (id : nat) | UNext (id : nat) | UFfwd (id : nat) | UFlush.
Inductive uq_out := OUnit | OReader (id : nat) | ORoute (u : option T).

Definition uq_step (op : uq_op) q : result xorp_exn (UpdateQueue T * list T * uq_out) :=
  match op with
  | UPush u => r <-! push_back u q ;; Ok (fst r, [], OUnit)
  | UCreate => r <-! add_reader q ;; Ok (fst r, [], OReader (snd r))
  | UDestroy id => r <-! remove_reader id q ;; Ok (r, OUnit)
  | UGet id => r <-! queue_read id q ;; Ok (fst r, ORoute (snd r))
  | UNext id => r <-! queue_next id q ;; Ok (fst r, ORoute (snd r))
  | UFfwd id => r <-! ffwd_reader id q ;; Ok (r, OUnit)
  | UFlush => r <-! queue_flush q ;; Ok (r, OUnit)
  end.

(** The same on the log. *)
Definition log_step (op : uq_op) a : log_queue * uq_out :=
  match op with
  | UPush u => (log_push u a, OUnit)
  | UCreate => let '(a, id) := log_add_reader a in (a, OReader id)
  | UDestroy id => (log_remove id a, OUnit)
  | UGet id => (a, ORoute (log_read id a))
  | UNext id => let a := log_advance id a in (a, ORoute (log_read id a))
  | UFfwd id => (log_ffwd id a, OUnit)
  | UFlush => (log_flush a, OUnit)
  end.

Fixpoint uq_run (ops : list uq_op) q d : result xorp_exn (UpdateQueue T * list T * list uq_out) :=
  match ops with
  | [] => Ok (q, d, [])
  | op :: ops =>
      r <-! uq_step op q ;;
      let '(q, d', out) := r in
      r <-! uq_run ops q (d ++ d') ;;
      let '(q, d, outs) := r in Ok (q, d, out :: outs)
  end.
Fixpoint log_run (ops : list uq_op) a : log_queue * list uq_out :=
  match ops with
  | [] => (a, [])
  | op :: ops => let '(a, out) := log_step op a in let '(a, outs) := log_run ops a in (a, out :: outs)
  end.

(** A program uses the readers it has created, and reads before it steps forward: [fresh] are the readers that have
    not been used yet. *)
Definition used (id : nat) a : bool := match lq_cursors a !! id with Some (Some _) => true | _ => false end.
Definition op_proper (op : uq_op) a fresh : bool :=
  match op with
  | UPush _ | UCreate | UFlush => true
  | UDestroy id | UGet id | UFfwd id => used id a
  | UNext id => used id a && negb (bool_decide (id ∈ fresh))
  end.
Definition without_id (id : nat) fresh : list nat := filter (fun j => j <> id) fresh.
Definition fresh_after (op : uq_op) (out : uq_out) fresh : list nat :=
  match op with
  | UPush _ => fresh
  | UCreate => match out with OReader id => id :: fresh | _ => fresh end
  | UDestroy id | UGet id | UNext id | UFfwd id => without_id id fresh
  | UFlush => []
  end.
Fixpoint proper (ops : list uq_op) a fresh : bool :=
  match ops with
  | [] => true
  | op :: ops => op_proper op a fresh && let '(a', out) := log_step op a in proper ops a' (fresh_after op out fresh)
  end.

Definition all_settled fresh q : Prop :=
  forall i rp, readers q !! i = Some (Some rp) -> i ∉ fresh -> settled (update_blocks q) rp.

Lemma used_reader id d q : used id (absq d q) = true -> exists rp, readers q !! id = Some (Some rp).
Proof.
  unfold used, absq. cbn. rewrite (list_lookup_fmap (fmap _)). destruct (readers q !! id) as [[rp|]|]; cbn; [eauto|done|done].
Qed.

Lemma used_reader_not id d q d' q' : absq (d ++ d') q' = log_remove id (absq d q) -> forall rp, readers q' !! id <> Some (Some rp).
Proof.
  intros Ha rp Hi. assert (Hx : lq_cursors (absq (d ++ d') q') !! id = Some (Some (cursor (d ++ d') (update_blocks q') rp))).
  { unfold absq. cbn. by rewrite (list_lookup_fmap (fmap _)), Hi. }
  rewrite Ha in Hx. cbn in Hx. apply list_lookup_insert_Some in Hx as [(_ & ? & _)|(? & _)]; done.
Qed.

(** An operation for reader [id] does not unsettle the others. *)
Lemma settled_other id d q d' q' fresh : (forall j, j <> id -> lq_cursors (absq d' q') !! j = lq_cursors (absq d q) !! j) ->
  others_kept id q q' -> all_settled fresh q ->
  forall i rp, i <> id -> i ∉ fresh -> readers q' !! i = Some (Some rp) -> settled (update_blocks q') rp.
Proof.
  intros Hc Ho Hs i rp Hne Hf Hi. destruct (used_reader i d q) as [rp' Hi'].
  { unfold used. rewrite <- Hc by done. unfold absq. cbn. by rewrite (list_lookup_fmap (fmap _)), Hi. }
  destruct (Ho i rp' Hne Hi' (Hs _ _ Hi' Hf)) as [Hi2 ?]. rewrite Hi in Hi2. by injection Hi2 as ->.
Qed.

Lemma settled_without id d q d' q' fresh : (forall j, j <> id -> lq_cursors (absq d' q') !! j = lq_cursors (absq d q) !! j) ->
  others_kept id q q' -> (forall rp, readers q' !! id = Some (Some rp) -> settled (update_blocks q') rp) ->
  all_settled fresh q -> all_settled (without_id id fresh) q'.
Proof.
  intros Hc Ho Hid Hs i rp Hi Hn. destruct (decide (i = id)) as [->|Hne]; [by apply Hid|].
  eapply (settled_other id d q d' q'); eauto. intros Hf. apply Hn. by apply list_elem_of_filter.
Qed.

Lemma seek_others id c a j : j <> id -> lq_cursors (log_seek id c a) !! j = lq_cursors a !! j.
Proof. intros. cbn. by rewrite list_lookup_insert_ne. Qed.

Lemma add_others d q a id j : log_add_reader (absq d q) = (a, id) -> j <> id -> lq_cursors a !! j = lq_cursors (absq d q) !! j.
Proof.
  intros E Hj. assert (lq_cursors a = enlist (slot_of (lq_cursors (absq d q))) (length (lq_log (absq d q))) (lq_cursors (absq d q))
    /\ id = slot_of (lq_cursors (absq d q))) as [-> ->] by (by injection E as <- <-).
  rewrite lookup_enlist; [by rewrite decide_False|].
  unfold absq. cbn. rewrite slot_map, length_map. apply free_slot_le.
Qed.

Lemma uq_step_ok op d q fresh : queue_ok q -> all_settled fresh q -> op_proper op (absq d q) fresh = true ->
  exists q' d' out, uq_step op q = Ok (q', d', out) /\ queue_ok q' /\ log_step op (absq d q) = (absq (d ++ d') q', out)
    /\ all_settled (fresh_after op out fresh) q'.
Proof.
  intros Hq Hs Hp. destruct op as [u| |id|id|id|id|]; cbn [uq_step log_step op_proper fresh_after] in *.
  - destruct (push_back_ok d u q Hq) as (q' & -> & Hq' & Ha & Hr & Hk). exists q', [], OUnit. cbn. rewrite app_nil_r, Ha.
    split; [done|]. split; [done|]. split; [done|]. intros i rp Hi Hf. rewrite Hr in Hi. eapply Hk; eauto.
  - destruct (add_reader_ok d q Hq) as (q' & id & -> & Hq' & Ha & Ho). exists q', [], (OReader id). rewrite Ha. cbn.
    rewrite app_nil_r. split; [done|]. split; [done|]. split; [done|]. intros i rp Hi [Hne Hf]%not_elem_of_cons.
    eapply (settled_other id d q d q'); eauto. intros. by eapply add_others.
  - destruct (used_reader id d q Hp) as [rp Hi].
    destruct (remove_reader_ok d q id rp Hq Hi) as (q' & d' & -> & Hq' & Ha & Ho). exists q', d', OUnit. cbn. rewrite Ha.
    split; [done|]. split; [done|]. split; [done|]. apply (settled_without id d q (d ++ d') q'); [|done| |done].
    + rewrite Ha. intros. cbn. by rewrite list_lookup_insert_ne.
    + intros r Hr. by destruct (used_reader_not id d q d' q' Ha r).
  - destruct (used_reader id d q Hp) as [rp Hi].
    destruct (read_ok d q id rp Hq Hi) as (q' & d' & u & -> & Hq' & Ha & -> & Hk & r & Hr & Hst).
    exists q', d', (ORoute (log_read id (absq d q))). cbn. rewrite Ha. split; [done|]. split; [done|]. split; [done|].
    apply (settled_without id d q (d ++ d') q'); [by rewrite Ha|by apply keeps_others| |done]. intros r' Hr'. congruence.
  - apply andb_true_iff in Hp as [Hp Hf%negb_true_iff%bool_decide_eq_false]. destruct (used_reader id d q Hp) as [rp Hi].
    destruct (next_ok d q id rp Hq Hi (Hs _ _ Hi Hf)) as (q' & d' & u & -> & Hq' & Ha & -> & Hk & r & Hr & Hst).
    exists q', d', (ORoute (log_read id (log_advance id (absq d q)))). cbn. rewrite Ha. split; [done|]. split; [done|]. split; [done|].
    apply (settled_without id d q (d ++ d') q'); [rewrite Ha; apply seek_others|by apply keeps_others| |done]. intros r' Hr'. congruence.
  - destruct (used_reader id d q Hp) as [rp Hi].
    destruct (moves_ok _ _ _ _ _ (ffwd_ok d q id rp (qo_core q Hq) Hi) (qo_live q Hq)) as (q' & d' & -> & Hq' & Ha & Hk & r & Hr & Hst).
    exists q', d', OUnit. cbn. unfold log_ffwd. rewrite Ha. split; [done|]. split; [done|]. split; [done|].
    apply (settled_without id d q (d ++ d') q'); [rewrite Ha; apply seek_others|by apply keeps_others| |done]. intros r' Hr'. congruence.
  - destruct (flush_ok d q Hq) as (q' & d' & -> & Hq' & Ha & Hst). exists q', d', OUnit. cbn. rewrite Ha.
    split; [done|]. split; [done|]. split; [done|]. intros i rp Hi _. eauto.
Qed.

Lemma queue_new_ok : queue_ok (queue_new (T := T)).
Proof.
  split; [split| |]; cbn.
  - apply NoDup_singleton.
  - intros b ->%list_elem_of_singleton. cbn. lia.
  - done.
  - intros b ->%list_elem_of_singleton. cbn. unfold MAX_UPDATES. lia.
  - by intros b ->%list_elem_of_singleton.
  - done.
  - done.
  - by exists [], [], (mkBlock 0 [] 0).
  - done.
Qed.

Lemma uq_run_ok ops : forall d q fresh, queue_ok q -> all_settled fresh q -> proper ops (absq d q) fresh = true ->
  exists q' d' outs, uq_run ops q d = Ok (q', d', outs) /\ queue_ok q' /\ log_run ops (absq d q) = (absq d' q', outs).
Proof.
  induction ops as [|op ops IH]; intros d q fresh Hq Hs Hp; cbn [uq_run log_run proper] in *; [by exists q, d, []|].
  apply andb_true_iff in Hp as [Hop Hp].
  destruct (uq_step_ok op d q fresh Hq Hs Hop) as (q1 & d1 & out & -> & Hq1 & E1 & Hs1). rewrite E1 in *. cbn [result_bind].
  destruct (IH (d ++ d1) q1 _ Hq1 Hs1 Hp) as (q2 & d2 & outs & -> & Hq2 & ->). cbn [result_bind]. by exists q2, d2, (out :: outs).
Qed.
End Runs.
Arguments uq_op : clear implicits.
Arguments uq_out : clear implicits.

(** C8: the update queue of RIP implements a log with one cursor per reader.  A program that creates, uses and destroys
    readers, writes and flushes, and that reads with a reader before it steps it forward, never fails an assertion or
    leaves the list of blocks; it receives exactly the updates the log holds at the cursors.  The updates released so far,
    followed by those still in the blocks, are all the updates written, each once and in order, so that no reader misses
    one that is still to be read; without readers nothing is kept. *)
Theorem update_queue_refines_log (T : Type) (ops : list (uq_op T)) : proper ops (mkLog [] []) [] = true ->
  exists q d outs, uq_run ops queue_new [] = Ok (q, d, outs)
    /\ log_run ops (mkLog [] []) = (absq d q, outs)
    /\ lq_log (fst (log_run ops (mkLog [] []))) = d ++ contents (update_blocks q)
    /\ (users (readers q) = 0 -> contents (update_blocks q) = []).
Proof.
  intros Hp. destruct (uq_run_ok ops [] queue_new [] queue_new_ok) as (q & d & outs & E & Hq & El); [by intros [|i] rp| |].
  - exact Hp.
  - exists q, d, outs. split; [done|]. change (absq [] queue_new) with (mkLog (T := T) [] []) in El. rewrite El.
    split; [done|]. split; [done|]. rewrite <- (co_num q (qo_core q Hq)). apply Hq.
Qed.

(** Two readers, one created in the middle of a block. *)
Definition sample_ops : list (uq_op nat) :=
  [UCreate; UPush 1; UPush 2; UGet 0; UCreate; UPush 3; UNext 0; UGet 1; UNext 0; UNext 0; UDestroy 0; UGet 1; UNext 1; UFlush; UDestroy 1].

Lemma update_queue_refines_log_witness :
  proper sample_ops (mkLog [] []) [] = true
  /\ (exists q d outs, uq_run sample_ops queue_new [] = Ok (q, d, outs)
      /\ log_run sample_ops (mkLog [] []) = (absq d q, outs)
      /\ lq_log (fst (log_run sample_ops (mkLog [] []))) = d ++ contents (update_blocks q)
      /\ (users (readers q) = 0 -> contents (update_blocks q) = []))
  /\ snd (log_run sample_ops (mkLog [] [])) = [OReader 0; OUnit; OUnit; ORoute (Some 1); OReader 1; OUnit; ORoute (Some 2);
       ORoute (Some 3); ORoute (Some 3); ORoute None; OUnit; ORoute (Some 3); ORoute None; OUnit; OUnit].
Proof.
  split; [by vm_compute|]. split; [|by vm_compute]. apply (update_queue_refines_log nat sample_ops). by vm_compute.
Defined.

(** [rwd] after a flush without readers: the reader enters an empty block that is not the last one, and never leaves it. *)
Lemma rwd_gets_stuck :
  match (r <-! queue_flush (queue_new (T := nat)) ;;
         r <-! add_reader (fst r) ;;
         r <-! push_back 7 (fst r) ;;
         q <-! rwd_reader 0 (fst r) ;;
         queue_read 0 q) with
  | Ok (q, _, u) => u = None /\ updates_queued q = 1 /\ queue_next 0 q = Ok (q, [], None)
  | Throw _ => False
  end.
Proof. vm_compute. auto. Qed.
