(* ===== verification/RipRoute.v ===== *)
(** * The routes of RIP and their filters (rip/route_entry.cc, rip/rip_varrw.cc)

    [RouteEntry<A>] with its setters, and the three policy filters a route passes through.
    A subnet is used as the key of ordered maps only, and a next hop is compared and
    tested; both are types with these operations.  The policy engine is a parameter: for
    a filter and the variables of a route it answers with the verdict, whether it read a
    variable, and the variables it writes.  At the end, [NetCmp<A>], the order of the
    containers of RIP, and the next hops of the two address families. *)

From Stdlib Require Import ZArith Lia String.
From stdpp Require Import base tactics option numbers list gmap strings decidable.
From S2P Require Import Prelude OMap Word32 Addr IPv4 IPv6 IPNet.
Local Open Scope Z_scope.
Local Open Scope xorp_scope.

(** rip/constants.hh *)
Definition RIP_INFINITY : Z := 16.
Definition RIP_MAX_COST : Z := 0xffff.
Definition DEFAULT_EXPIRY_SECS : Z := 180.
Definition DEFAULT_DELETION_SECS : Z := 120.

Definition cost16 (z : Z) : Z := z mod 2 ^ 16.

(** What the route database asks of an address. *)
Class NextHop (Addr : Type) := {
  nh_is_linklocal_unicast : Addr -> bool;
  nh_is_zero : Addr -> bool }.

(** [PolicyTags] *)
Record PolicyTags := mkTags { ptags : gset Z; ptag : Z }.
#[global] Instance PolicyTags_eq_dec : EqDecision PolicyTags.
Proof. solve_decision. Defined.
Definition no_tags : PolicyTags := mkTags ∅ 0.

(** The timer of a route: when it expires, whether it is scheduled, and the function it calls. *)
Inductive timer_call := CallExpire | CallDelete.
Record RouteTimer := mkTimer { t_expires : Z; t_scheduled : bool; t_call : timer_call }.

Record RouteEntry (Net Addr : Type) := mkRoute {
  re_net : Net;
  re_nh : Addr;
  re_ifname : string;
  re_vifname : string;
  re_cost : Z;
  re_origin : option nat;
  re_tag : Z;
  re_ref_cnt : Z;
  re_timer : option RouteTimer;
  re_policytags : PolicyTags;
  re_filtered : bool }.
Arguments mkRoute {Net Addr}.
Arguments re_net {Net Addr}.
Arguments re_nh {Net Addr}.
Arguments re_ifname {Net Addr}.
Arguments re_vifname {Net Addr}.
Arguments re_cost {Net Addr}.
Arguments re_origin {Net Addr}.
Arguments re_tag {Net Addr}.
Arguments re_ref_cnt {Net Addr}.
Arguments re_timer {Net Addr}.
Arguments re_policytags {Net Addr}.
Arguments re_filtered {Net Addr}.

Section Entry.
Context {Net Addr : Type} `{EqDecision Addr, NextHop Addr}.
Abbreviation route := (RouteEntry Net Addr).
Implicit Types (r : route).

(** The constructor. *)
Definition route_new (n : Net) (nh : Addr) (ifname vifname : string) (cost : Z) (o : option nat) (tag : Z) (pt : PolicyTags) : route :=
  mkRoute n nh ifname vifname (cost16 cost) o (cost16 tag) 0 None pt false.

(** Replacing a member. *)
Definition put_nh x r : route := mkRoute (re_net r) x (re_ifname r) (re_vifname r) (re_cost r) (re_origin r) (re_tag r) (re_ref_cnt r) (re_timer r) (re_policytags r) (re_filtered r).
Definition put_ifname x r : route := mkRoute (re_net r) (re_nh r) x (re_vifname r) (re_cost r) (re_origin r) (re_tag r) (re_ref_cnt r) (re_timer r) (re_policytags r) (re_filtered r).
Definition put_vifname x r : route := mkRoute (re_net r) (re_nh r) (re_ifname r) x (re_cost r) (re_origin r) (re_tag r) (re_ref_cnt r) (re_timer r) (re_policytags r) (re_filtered r).
Definition put_cost x r : route := mkRoute (re_net r) (re_nh r) (re_ifname r) (re_vifname r) x (re_origin r) (re_tag r) (re_ref_cnt r) (re_timer r) (re_policytags r) (re_filtered r).
Definition put_origin x r : route := mkRoute (re_net r) (re_nh r) (re_ifname r) (re_vifname r) (re_cost r) x (re_tag r) (re_ref_cnt r) (re_timer r) (re_policytags r) (re_filtered r).
Definition put_tag x r : route := mkRoute (re_net r) (re_nh r) (re_ifname r) (re_vifname r) (re_cost r) (re_origin r) x (re_ref_cnt r) (re_timer r) (re_policytags r) (re_filtered r).
Definition put_ref_cnt x r : route := mkRoute (re_net r) (re_nh r) (re_ifname r) (re_vifname r) (re_cost r) (re_origin r) (re_tag r) x (re_timer r) (re_policytags r) (re_filtered r).
Definition set_timer x r : route := mkRoute (re_net r) (re_nh r) (re_ifname r) (re_vifname r) (re_cost r) (re_origin r) (re_tag r) (re_ref_cnt r) x (re_policytags r) (re_filtered r).
Definition put_policytags x r : route := mkRoute (re_net r) (re_nh r) (re_ifname r) (re_vifname r) (re_cost r) (re_origin r) (re_tag r) (re_ref_cnt r) (re_timer r) x (re_filtered r).
Definition set_filtered x r : route := mkRoute (re_net r) (re_nh r) (re_ifname r) (re_vifname r) (re_cost r) (re_origin r) (re_tag r) (re_ref_cnt r) (re_timer r) (re_policytags r) x.

(** The setters answer whether the member changed. *)
Definition set_ifname (x : string) r : route * bool := if decide (x = re_ifname r) then (r, false) else (put_ifname x r, true).
Definition set_vifname (x : string) r : route * bool := if decide (x = re_vifname r) then (r, false) else (put_vifname x r, true).
Definition set_nexthop (x : Addr) r : route * bool :=
  if decide (x = re_nh r) then (r, false)
  else
    let r := put_nh x r in
    if negb (nh_is_linklocal_unicast x || nh_is_zero x) then
      let '(r, _) := set_ifname "" r in let '(r, _) := set_vifname "" r in (r, true)
    else (r, true).
Definition set_cost (x : Z) r : route * bool :=
  let x := cost16 x in if decide (x = re_cost r) then (r, false) else (put_cost x r, true).
Definition set_tag (x : Z) r : route * bool :=
  let x := cost16 x in if decide (x = re_tag r) then (r, false) else (put_tag x r, true).
Definition set_policytags (x : PolicyTags) r : route * bool :=
  if decide (x = re_policytags r) then (r, false) else (put_policytags x r, true).

(** ** Filters *)
Inductive filter_kind := IMPORT | EXPORT_SOURCEMATCH | EXPORT.

(** The variables of a route, and the writes of a filter. *)
Record route_vars := mkVars { v_net : Net; v_nexthop : Addr; v_metric : Z; v_tag : Z; v_policytags : gset Z }.
Inductive route_write :=
  | WriteNexthop (nh : Addr)
  | WriteMetric (m : Z)
  | WriteTag (t : Z)
  | WritePolicytags (t : gset Z).
Record filter_result := mkFilter { f_accepted : bool; f_read : bool; f_writes : list route_write }.

(** [start_read] copies the tag of the policy tags. *)
Definition start_read r : route :=
  if decide (ptag (re_policytags r) = 0) then r else fst (set_tag (ptag (re_policytags r)) r).
(** [single_write] *)
Definition single_write (w : route_write) r : route :=
  match w with
  | WriteNexthop nh => fst (set_nexthop nh r)
  | WriteMetric m => fst (set_cost m r)
  | WriteTag t => let r := fst (set_tag t r) in put_policytags (mkTags (ptags (re_policytags r)) t) r
  | WritePolicytags t => put_policytags (mkTags t (ptag (re_policytags r))) r
  end.
Definition vars_of r : route_vars := mkVars (re_net r) (re_nh r) (re_cost r) (re_tag r) (ptags (re_policytags r)).

(** The policy engine; [None] is a [PolicyException]. *)
Context (run_filter : filter_kind -> route_vars -> option filter_result).

Definition filter_route (f : filter_kind) r : result xorp_exn (route * bool) :=
  match run_filter f (vars_of (start_read r)) with
  | None => Throw Fatal
  | Some x =>
      let r := if f_read x then start_read r else r in
      Ok (fold_left (fun r w => single_write w r) (f_writes x) r, f_accepted x)
  end.

(** [RouteDB::do_filtering]: the route after the filters, the verdict and the cost. *)
Definition do_filtering r : result xorp_exn (route * bool * Z) :=
  x <-! filter_route IMPORT r ;;
  let '(r, accepted) := x in
  x <-! (if accepted then filter_route EXPORT_SOURCEMATCH r else Ok (r, accepted)) ;;
  let '(r, accepted) := x in
  x <-! (if accepted then filter_route EXPORT r else Ok (r, accepted)) ;;
  let '(r, accepted) := x in
  if RIP_INFINITY <? re_cost r then
    let r := fst (set_cost RIP_INFINITY r) in Ok (r, false, re_cost r)
  else Ok (r, accepted, re_cost r).
End Entry.
Arguments route_vars : clear implicits.
Arguments route_write : clear implicits.
Arguments filter_result : clear implicits.
Arguments mkVars {Net Addr}.
Arguments mkFilter {Addr}.

Section NetCmp.
Context `{AddrSpec A} `{!EqDecision A} `{!forall n : IPNet A, Decision (net_wf n)}.

(** [NetCmp::operator()] *)
Definition netcmp (l r : IPNet A) : bool :=
  if prefix_len l <? prefix_len r then true
  else if prefix_len r <? prefix_len l then false
  else a_ltb (masked_addr l) (masked_addr r).

(** A subnet as its constructor leaves it. *)
Definition rip_net : Type := dsig (net_wf (A := A)).

#[global] Instance rip_net_eq : EqDecision rip_net.
Proof. intros x y. destruct (decide (`x = `y)) as [E|E]; [left; by apply dsig_eq|right; intros ->; by apply E]. Defined.
#[global] Instance rip_net_key : KeyOrder rip_net := fun x y => netcmp (`x) (`y).

Lemma netcmp_spec l r : net_wf l -> net_wf r ->
  netcmp l r = true <-> prefix_len l < prefix_len r \/ (prefix_len l = prefix_len r /\ net_lo l < net_lo r).
Proof.
  intros (Hl & _) (Hr & _). unfold netcmp, net_lo. rewrite (a_ltb_spec _ _ Hl Hr).
  destruct (Z.ltb_spec (prefix_len l) (prefix_len r)), (Z.ltb_spec (prefix_len r) (prefix_len l)); rewrite ?Z.ltb_lt; lia || (split; [done|lia]).
Qed.

#[global] Instance rip_net_laws : KeyOrderLaws rip_net.
Proof.
  split; unfold key_ltb, rip_net_key.
  - intros k. apply not_true_is_false. rewrite netcmp_spec by apply proj2_dsig. lia.
  - intros a b c. rewrite !netcmp_spec by apply proj2_dsig. lia.
  - intros a b Ha Hb. apply dsig_eq. pose proof (proj2_dsig a) as Wa. pose proof (proj2_dsig b) as Wb.
    apply not_true_iff_false in Ha, Hb. rewrite netcmp_spec in Ha, Hb by done.
    destruct (proj1_sig a) as [ma la], (proj1_sig b) as [mb lb]. unfold net_lo in *. cbn in *.
    f_equal; [|lia]. apply a_val_inj; [apply Wa|apply Wb|lia].
Qed.
End NetCmp.
Arguments rip_net A {_ _ _}.

Section Families.
Context `{HostOrder}.

#[global] Instance ipv4_net_wf_dec (n : IPNet IPv4) : Decision (net_wf n).
Proof. unfold net_wf. cbn. unfold ipv4_wf, is_u32. apply _. Defined.
#[global] Instance ipv6_net_wf_dec (n : IPNet IPv6) : Decision (net_wf n).
Proof. unfold net_wf. cbn. unfold ipv6_wf, is_u32. apply _. Defined.

(** [is_linklocal_unicast] and [is_zero] *)
Definition ipv4_is_linklocal_unicast (a : IPv4) : bool := false.
Definition ipv6_is_linklocal_unicast (a : IPv6) : bool := Z.land (ntohl (v6_0 a)) 0xffc00000 =? 0xfe800000.
#[global] Instance ipv4_nexthop : NextHop IPv4 :=
  {| nh_is_linklocal_unicast := ipv4_is_linklocal_unicast; nh_is_zero := fun a => a_eqb a a_zero |}.
#[global] Instance ipv6_nexthop : NextHop IPv6 :=
  {| nh_is_linklocal_unicast := ipv6_is_linklocal_unicast; nh_is_zero := fun a => a_eqb a a_zero |}.
End Families.
