(* ===== verification/RipDB.v ===== *)
(** * The route database of RIP (rip/route_db.cc, rip/route_entry.cc)

    [RouteDB<A>], the origins of its routes and the store its routes live in.  A route
    is shared by the table, by the store of its origin and by the update queue; it is
    counted by reference and deleted when the count, 16 bits wide, returns to zero.  A
    route is named by a number, and so is an origin.  Time is in microseconds.  The
    peers of the database are in RipPeer. *)

From Stdlib Require Import ZArith Lia String.
From stdpp Require Import base tactics option numbers list gmap strings.
From S2P Require Import Prelude OMap RipQueue RipRoute.
Local Open Scope Z_scope.
Local Open Scope xorp_scope.

(** [RouteEntryOrigin]: its routes, and how long they live. *)
Record RouteOrigin (Net : Type) := mkOrg { rtstore : list (Net * nat); expiry_secs : Z; deletion_secs : Z }.
Arguments mkOrg {Net}.
Arguments rtstore {Net}.
Arguments expiry_secs {Net}.
Arguments deletion_secs {Net}.

Record RouteDB (Net Addr : Type) := mkDB {
  db_heap : gmap nat (RouteEntry Net Addr);
  db_fresh : nat;
  db_origins : gmap nat (RouteOrigin Net);
  db_routes : list (Net * nat);
  db_uq : UpdateQueue nat;
  db_rib_routes : list (Net * RouteEntry Net Addr);
  db_rib_origin : option nat;
  db_now : Z }.
Arguments mkDB {Net Addr}.
Arguments db_heap {Net Addr}.
Arguments db_fresh {Net Addr}.
Arguments db_origins {Net Addr}.
Arguments db_routes {Net Addr}.
Arguments db_uq {Net Addr}.
Arguments db_rib_routes {Net Addr}.
Arguments db_rib_origin {Net Addr}.
Arguments db_now {Net Addr}.

Section DB.
Context {Net Addr : Type} `{KeyOrder Net, EqDecision Addr, NextHop Addr}.
Context (run_filter : filter_kind -> route_vars Net Addr -> option (filter_result Addr)).
Abbreviation route := (RouteEntry Net Addr).
Abbreviation db := (RouteDB Net Addr).
Implicit Types (s : db) (r : route).

Definition with_heap h s : db := mkDB h (db_fresh s) (db_origins s) (db_routes s) (db_uq s) (db_rib_routes s) (db_rib_origin s) (db_now s).
Definition with_origins x s : db := mkDB (db_heap s) (db_fresh s) x (db_routes s) (db_uq s) (db_rib_routes s) (db_rib_origin s) (db_now s).
Definition with_routes x s : db := mkDB (db_heap s) (db_fresh s) (db_origins s) x (db_uq s) (db_rib_routes s) (db_rib_origin s) (db_now s).
Definition with_uq x s : db := mkDB (db_heap s) (db_fresh s) (db_origins s) (db_routes s) x (db_rib_routes s) (db_rib_origin s) (db_now s).
Definition with_rib x o s : db := mkDB (db_heap s) (db_fresh s) (db_origins s) (db_routes s) (db_uq s) x o (db_now s).
Definition with_now t s : db := mkDB (db_heap s) (db_fresh s) (db_origins s) (db_routes s) (db_uq s) (db_rib_routes s) (db_rib_origin s) t.

(** ** The store *)
Definition deref (p : nat) s : result xorp_exn route :=
  match db_heap s !! p with Some r => Ok r | None => Throw OutOfBounds end.
Definition put (p : nat) r s : db := with_heap (<[p := r]> (db_heap s)) s.
Definition get_origin (o : nat) s : result xorp_exn (RouteOrigin Net) :=
  match db_origins s !! o with Some x => Ok x | None => Throw OutOfBounds end.

(** [RouteEntryOrigin::associate], [dissociate], [find_route] *)
Definition set_store (o : nat) (x : RouteOrigin Net) (m : list (Net * nat)) s : db :=
  with_origins (<[o := mkOrg m (expiry_secs x) (deletion_secs x)]> (db_origins s)) s.
Definition origin_associate (o : nat) (n : Net) (p : nat) s : result xorp_exn db :=
  x <-! get_origin o s ;;
  match m_find n (rtstore x) with
  | Some _ => Throw Fatal
  | None => Ok (set_store o x (m_insert n p (rtstore x)) s)
  end.
Definition origin_dissociate (o : nat) (n : Net) s : result xorp_exn db :=
  x <-! get_origin o s ;;
  match m_find n (rtstore x) with
  | None => Throw Fatal
  | Some _ => Ok (set_store o x (m_erase n (rtstore x)) s)
  end.
Definition origin_find_route (o : nat) (n : Net) s : result xorp_exn (option nat) :=
  x <-! get_origin o s ;; Ok (m_find n (rtstore x)).

(** [new RouteEntry] with an origin, and the destructor. *)
Definition new_entry r s : result xorp_exn (db * nat) :=
  let p := db_fresh s in
  let s := mkDB (<[p := r]> (db_heap s)) (S p) (db_origins s) (db_routes s) (db_uq s) (db_rib_routes s) (db_rib_origin s) (db_now s) in
  s <-! (match re_origin r with Some o => origin_associate o (re_net r) p s | None => Ok s end) ;;
  Ok (s, p).
Definition delete_entry (p : nat) s : result xorp_exn db :=
  r <-! deref p s ;;
  let s := with_heap (delete p (db_heap s)) s in
  match re_origin r with Some o => origin_dissociate o (re_net r) s | None => Ok s end.

(** [RouteEntry::set_origin] *)
Definition set_origin (p : nat) (o : nat) s : result xorp_exn db :=
  r <-! deref p s ;;
  if decide (re_origin r = Some o) then Ok s
  else
    s <-! (match re_origin r with Some o' => origin_dissociate o' (re_net r) s | None => Ok s end) ;;
    s <-! origin_associate o (re_net r) p s ;;
    Ok (put p (put_origin (Some o) r) s).

(** [RouteEntryRef]: [ref], and [release], which deletes the route. *)
Definition ref (p : nat) s : result xorp_exn db :=
  r <-! deref p s ;; Ok (put p (put_ref_cnt (cost16 (re_ref_cnt r + 1)) r) s).
Definition release (p : nat) s : result xorp_exn db :=
  r <-! deref p s ;;
  let c := cost16 (re_ref_cnt r - 1) in
  let s := put p (put_ref_cnt c r) s in
  if decide (c = 0) then delete_entry p s else Ok s.
Fixpoint release_all (ps : list nat) s : result xorp_exn db :=
  match ps with [] => Ok s | p :: ps => s <-! release p s ;; release_all ps s end.

(** [_uq->push_back(r)], with the temporary reference it converts to; [_routes.insert], likewise. *)
Definition push_update (p : nat) s : result xorp_exn db :=
  s <-! ref p s ;;
  x <-! push_back p (db_uq s) ;;
  s <-! (if decide (num_readers (db_uq s) = 0%nat) then Ok s else ref p s) ;;
  release p (with_uq (fst x) s).
Definition insert_route (n : Net) (p : nat) s : result xorp_exn db :=
  match m_find n (db_routes s) with
  | Some _ => Throw AssertFailed
  | None => s <-! ref p s ;; s <-! ref p s ;; release p (with_routes (m_insert n p (db_routes s)) s)
  end.

(** ** Timers *)
Definition MSEC : Z := 1000.
Definition timer_after (secs : Z) (call : timer_call) s : RouteTimer :=
  mkTimer (db_now s + secs * 1000 * MSEC) true call.
Definition set_deletion_timer (p : nat) s : result xorp_exn db :=
  r <-! deref p s ;;
  match re_origin r with
  | None => Throw OutOfBounds
  | Some o =>
      x <-! get_origin o s ;;
      Ok (put p (set_timer (Some (timer_after (deletion_secs x) CallDelete s)) r) s)
  end.
Definition set_expiry_timer (p : nat) s : result xorp_exn db :=
  r <-! deref p s ;;
  match re_origin r with
  | None => Throw OutOfBounds
  | Some o =>
      x <-! get_origin o s ;;
      let t := if decide (expiry_secs x = 0) then None else Some (timer_after (expiry_secs x) CallExpire s) in
      Ok (put p (set_timer t r) s)
  end.

(** ** Updates *)
(** The fields of the new route that the stored one takes, and whether one of them changed. *)
Definition take_fields (new r : route) : route * bool :=
  let '(r, b1) := set_nexthop (re_nh new) r in
  let '(r, b2) := set_ifname (re_ifname new) r in
  let '(r, b3) := set_vifname (re_vifname new) r in
  let '(r, b4) := set_tag (re_tag new) r in
  let '(r, b5) := set_cost (re_cost new) r in
  let '(r, b6) := set_policytags (re_policytags new) r in
  (r, b1 || b2 || b3 || b4 || b5 || b6).

Definition timer_scheduled r : bool := match re_timer r with Some t => t_scheduled t | None => false end.
Definition time_remaining r s : option Z :=
  match re_timer r with Some t => Some (if t_expires t <=? db_now s then 0 else t_expires t - db_now s) | None => None end.

(** An update by the origin of the route. *)
Definition update_same (p : nat) (new : route) (cost : Z) (accepted is_policy_push updated : bool) s :
    result xorp_exn (db * bool) :=
  r <-! deref p s ;;
  let orig_cost := re_cost r in
  let '(r, changed) := take_fields new r in
  let updated := updated || changed in
  let s := put p r s in
  s <-! (if decide (cost = RIP_INFINITY) then
           if decide (orig_cost = RIP_INFINITY /\ timer_scheduled r = true) then Ok s else set_deletion_timer p s
         else if is_policy_push && negb updated then Ok s else set_expiry_timer p s) ;;
  r <-! deref p s ;;
  let was_filtered := re_filtered r in
  let s := put p (set_filtered (negb accepted) r) s in
  if accepted then
    let updated := updated || was_filtered in
    s <-! (if updated then push_update p s else Ok s) ;; Ok (s, updated)
  else if was_filtered then Ok (s, false)
  else if decide (cost = RIP_INFINITY) then
    s <-! (if updated then push_update p s else Ok s) ;; Ok (s, updated)
  else
    r <-! deref p s ;;
    let s := put p (fst (set_cost RIP_INFINITY r)) s in
    s <-! set_deletion_timer p s ;;
    s <-! push_update p s ;;
    Ok (s, true).

(** Whether the route of another origin replaces the stored one. *)
Definition should_replace (r new : route) s : result xorp_exn bool :=
  if re_cost new <? re_cost r then Ok true
  else if re_cost r <? re_cost new then Ok false
  else if decide (re_cost new = RIP_INFINITY) then Ok false
  else
    expiry <-! (match re_origin r with Some o => x <-! get_origin o s ;; Ok (expiry_secs x) | None => Ok 0 end) ;;
    if decide (expiry = 0) then Ok false
    else
      match time_remaining r s with
      | None => Ok false
      | Some remain => Ok (remain <? expiry * 1000 * MSEC / 2)
      end.

(** An update by another origin. *)
Definition update_other (p : nat) (new : route) (o : nat) (accepted updated : bool) s : result xorp_exn (db * bool) :=
  if negb accepted then Ok (s, false)
  else
    r <-! deref p s ;;
    replace <-! should_replace r new s ;;
    s <-! (if replace : bool then
             let s := put p (fst (take_fields new r)) s in
             s <-! set_origin p o s ;; set_expiry_timer p s
           else Ok s) ;;
    let updated := updated || replace in
    s <-! (if updated then push_update p s else Ok s) ;; Ok (s, updated).

Definition update_existing (p : nat) (nexthop : Addr) (ifname vifname : string) (cost tag : Z) (o : nat)
    (policytags : PolicyTags) (is_policy_push updated : bool) s : result xorp_exn (db * bool) :=
  r <-! deref p s ;;
  x <-! do_filtering run_filter (route_new (re_net r) nexthop ifname vifname cost None tag policytags) ;;
  let '(new, accepted, cost) := x in
  if decide (re_origin r = Some o) then update_same p new cost accepted is_policy_push updated s
  else update_other p new o accepted updated s.

Definition update_route (net : Net) (nexthop : Addr) (ifname vifname : string) (cost tag : Z) (o : nat)
    (policytags : PolicyTags) (is_policy_push : bool) s : result xorp_exn (db * bool) :=
  if 0xffff <? tag then Throw Fatal
  else
    match m_find net (db_routes s) with
    | Some p => update_existing p nexthop ifname vifname cost tag o policytags is_policy_push false s
    | None =>
        old <-! origin_find_route o net s ;;
        match old with
        | None =>
            x <-! new_entry (route_new net nexthop ifname vifname cost (Some o) tag policytags) s ;;
            let '(s, p) := x in
            s <-! set_expiry_timer p s ;;
            s <-! insert_route net p s ;;
            r <-! deref p s ;;
            x <-! do_filtering run_filter r ;;
            let '(r, accepted, cost) := x in
            let s := put p (set_filtered (negb accepted) r) s in
            if negb accepted || bool_decide (cost = RIP_INFINITY) then Ok (s, false)
            else s <-! push_update p s ;; Ok (s, true)
        | Some p =>
            s <-! insert_route net p s ;;
            r <-! deref p s ;;
            x <-! do_filtering run_filter r ;;
            let '(r, accepted, cost) := x in
            let s := put p (set_filtered (negb accepted) r) s in
            if decide (cost = RIP_INFINITY) then Ok (s, false)
            else update_existing p nexthop ifname vifname cost tag o policytags is_policy_push accepted s
        end
    end.

(** ** Expiry *)
(** [expire_route]: the answer of [update_route] is only logged. *)
Definition expire_route (p : nat) s : result xorp_exn db :=
  r <-! deref p s ;;
  match re_origin r with
  | None => Throw OutOfBounds
  | Some o =>
      x <-! update_route (re_net r) (re_nh r) (re_ifname r) (re_vifname r) RIP_INFINITY (re_tag r) o (re_policytags r) false s ;;
      Ok (fst x)
  end.
(** Pushing a route of the RIB, from [delete_route] and [push_routes]. *)
Definition update_rib_route (r : route) (is_policy_push : bool) s : result xorp_exn db :=
  match db_rib_origin s with
  | None => Throw OutOfBounds
  | Some o =>
      x <-! update_route (re_net r) (re_nh r) (re_ifname r) (re_vifname r) (re_cost r) (re_tag r) o (re_policytags r) is_policy_push s ;;
      Ok (fst x)
  end.
Definition delete_route (p : nat) s : result xorp_exn db :=
  r <-! deref p s ;;
  match m_find (re_net r) (db_routes s) with
  | None => Ok s
  | Some p' =>
      s <-! release p' (with_routes (m_erase (re_net r) (db_routes s)) s) ;;
      match m_find (re_net r) (db_rib_routes s) with
      | None => Ok s
      | Some rr => update_rib_route rr false s
      end
  end.

(** The timer of a route runs out. *)
Definition fire_timer (p : nat) s : result xorp_exn db :=
  r <-! deref p s ;;
  match re_timer r with
  | Some t =>
      if t_scheduled t && (t_expires t <=? db_now s) then
        let s := put p (set_timer (Some (mkTimer (t_expires t) false (t_call t))) r) s in
        match t_call t with CallExpire => expire_route p s | CallDelete => delete_route p s end
      else Ok s
  | None => Ok s
  end.

(** ** The other operations *)
Definition flush_routes s : result xorp_exn db :=
  x <-! queue_flush (db_uq s) ;;
  let '(q, dropped) := x in
  s <-! release_all dropped (with_uq q s) ;;
  let ps := map snd (db_routes s) in
  release_all ps (with_routes [] s).

Definition find_route (n : Net) s : option route := m_find n (db_routes s) ≫= fun p => db_heap s !! p.
Definition dump_routes s : list nat := map snd (db_routes s).
Definition route_count s : nat := length (db_routes s).

Definition add_rib_route (net : Net) (nexthop : Addr) (ifname vifname : string) (cost tag : Z) (o : nat)
    (policytags : PolicyTags) s : db :=
  with_rib (m_insert net (route_new net nexthop ifname vifname cost None tag policytags) (db_rib_routes s)) (Some o) s.
Definition delete_rib_route (net : Net) s : db := with_rib (m_erase net (db_rib_routes s)) (db_rib_origin s) s.
Fixpoint push_rib_routes (rs : list (Net * route)) s : result xorp_exn db :=
  match rs with
  | [] => Ok s
  | (_, r) :: rs => s <-! update_rib_route r true s ;; push_rib_routes rs s
  end.

(** The readers of the update queue; the routes they leave behind are released. *)
Definition create_reader s : result xorp_exn (db * nat) :=
  x <-! add_reader (db_uq s) ;; Ok (with_uq (fst x) s, snd x).
Definition destroy_reader (id : nat) s : result xorp_exn db :=
  x <-! remove_reader id (db_uq s) ;; release_all (snd x) (with_uq (fst x) s).
Definition uq_get (id : nat) s : result xorp_exn (db * option nat) :=
  x <-! queue_read id (db_uq s) ;;
  let '(q, dropped, p) := x in
  s <-! release_all dropped (with_uq q s) ;; Ok (s, p).
Definition uq_next (id : nat) s : result xorp_exn (db * option nat) :=
  x <-! queue_next id (db_uq s) ;;
  let '(q, dropped, p) := x in
  s <-! release_all dropped (with_uq q s) ;; Ok (s, p).
Definition uq_ffwd (id : nat) s : result xorp_exn db :=
  x <-! ffwd_reader id (db_uq s) ;; release_all (snd x) (with_uq (fst x) s).

(** A new database, and a new origin. *)
Definition db_new (now : Z) : db := mkDB ∅ 0 ∅ [] queue_new [] None now.
Definition new_origin (o : nat) (expiry deletion : Z) s : db :=
  with_origins (<[o := mkOrg [] expiry deletion]> (db_origins s)) s.
(** [~RouteEntryOrigin] *)
Definition delete_origin (o : nat) s : result xorp_exn db :=
  x <-! get_origin o s ;;
  if decide (rtstore x = []) then Ok (with_origins (delete o (db_origins s)) s) else Throw AssertFailed.
End DB.
