(* ===== verification/RipDBProps.v ===== *)
(** * The invariant of the route database of RIP

    [db_inv ex s]: the table, the stores of the origins and the update queue refer to
    live routes, the routes know their origin and are in its store, and the reference
    count of a route is the number of references to it: from the table, from the queue,
    and those of [ex], which an operation holds for a moment. *)

From Stdlib Require Import ZArith Lia String.
From stdpp Require Import base tactics option numbers list gmap strings.
From S2P Require Import Prelude OMap RipQueue RipQueueProps RipQueueRun RipQueueClaims RipRoute RipDB.
Local Open Scope Z_scope.
Local Open Scope xorp_scope.
#[local] Arguments contents : simpl never.

(** The number of times a name occurs. *)
Definition occ (p : nat) (l : list nat) : nat := count_occ Nat.eq_dec l p.

#[global] Arguments occ : simpl never.

Lemma occ_app p l1 l2 : occ p (l1 ++ l2) = (occ p l1 + occ p l2)%nat.
Proof. apply count_occ_app. Qed.
Lemma occ_perm p l1 l2 : l1 ≡ₚ l2 -> occ p l1 = occ p l2.
Proof. intros Hp. by apply Permutation_count_occ. Qed.
Lemma occ_elem p l : p ∈ l <-> (0 < occ p l)%nat.
Proof. unfold occ. rewrite list_elem_of_In, (count_occ_In Nat.eq_dec). lia. Qed.
Lemma occ_cons p q l : occ p (q :: l) = ((if decide (p = q) then 1 else 0) + occ p l)%nat.
Proof. unfold occ. cbn. destruct (Nat.eq_dec q p), (decide (p = q)); congruence || lia. Qed.
Lemma occ_le p l : (occ p l <= length l)%nat.
Proof. induction l as [|q l IH]; [done|]. rewrite occ_cons. cbn. case_decide; lia. Qed.
Lemma occ_nodup p l : NoDup l -> (occ p l <= 1)%nat.
Proof. intros Hn. unfold occ. apply NoDup_ListNoDup in Hn. by apply NoDup_count_occ. Qed.

Lemma erase_perm {K V} `{KeyOrder K, !KeyOrderLaws K} (k : K) (v : V) m : m_sorted m -> m_find k m = Some v ->
  m ≡ₚ (k, v) :: m_erase k m.
Proof.
  induction m as [|[k' v'] m IH]; intros Hs; [done|]. apply sorted_cons in Hs as [Hs _]. cbn.
  destruct (key_ltb k k') eqn:E1; [done|]. destruct (key_ltb k' k) eqn:E2.
  - intros Hf. rewrite (IH Hs Hf) at 1. apply Permutation_swap.
  - intros [= ->]. by rewrite (key_total _ _ E1 E2).
Qed.
Lemma m_insert_perm {K V} `{KeyOrder K, !KeyOrderLaws K} (k : K) (v : V) m : m_find k m = None ->
  m_insert k v m ≡ₚ (k, v) :: m.
Proof.
  induction m as [|[k' v'] m IH]; cbn; [done|]. destruct (key_ltb k k') eqn:E1; [done|].
  destruct (key_ltb k' k) eqn:E2; [|done]. intros Hf. rewrite (IH Hf). apply Permutation_swap.
Qed.

Lemma occ_insert {K} `{KeyOrder K, !KeyOrderLaws K} (k : K) (p q : nat) m : m_find k m = None ->
  occ q (map snd (m_insert k p m)) = occ q (p :: map snd m).
Proof. intros Hf. apply occ_perm. apply (Permutation_map snd (m_insert_perm k p m Hf)). Qed.
Lemma occ_erase {K} `{KeyOrder K, !KeyOrderLaws K} (k : K) (p q : nat) m : m_sorted m -> m_find k m = Some p ->
  occ q (map snd m) = occ q (p :: map snd (m_erase k m)).
Proof. intros Hs Hf. apply occ_perm. apply (Permutation_map snd (erase_perm k p m Hs Hf)). Qed.

Section DBProps.
Context {Net Addr : Type} `{KeyOrder Net, !KeyOrderLaws Net, !EqDecision Net, !EqDecision Addr, !NextHop Addr}.
Abbreviation route := (RouteEntry Net Addr).
Abbreviation db := (RouteDB Net Addr).
Implicit Types (s : db) (r : route) (ex : list nat).

(** ** The invariant *)
Definition uq_list s : list nat := contents (update_blocks (db_uq s)).
Definition refs ex s : list nat := map snd (db_routes s) ++ uq_list s ++ ex.

(** A route that does not change its key. *)
Record db_inv ex s : Prop := {
  di_heap : forall p r, db_heap s !! p = Some r ->
    exists o x, re_origin r = Some o /\ db_origins s !! o = Some x /\ (re_net r, p) ∈ rtstore x;
  di_sorted : forall o x, db_origins s !! o = Some x -> m_sorted (rtstore x);
  di_store : forall o x n p, db_origins s !! o = Some x -> (n, p) ∈ rtstore x ->
    exists r, db_heap s !! p = Some r /\ re_net r = n /\ re_origin r = Some o;
  di_table : m_sorted (db_routes s);
  di_routes : forall n p, (n, p) ∈ db_routes s -> exists r, db_heap s !! p = Some r /\ re_net r = n;
  di_count : forall p r, db_heap s !! p = Some r -> re_ref_cnt r = Z.of_nat (occ p (refs ex s));
  di_live : forall p, p ∈ refs ex s -> is_Some (db_heap s !! p);
  di_fresh : forall p, is_Some (db_heap s !! p) -> (p < db_fresh s)%nat;
  di_queue : queue_ok (db_uq s) }.

(** Every route is referred to. *)
Definition referred ex s : Prop := forall p, is_Some (db_heap s !! p) -> p ∈ refs ex s.

(** The 16-bit counts do not wrap. *)
Definition MAX_QUEUED : Z := 65500.
Definition fits ex s : Prop := forall p, Z.of_nat (occ p (uq_list s ++ ex)) <= MAX_QUEUED.

Lemma fits_tail ex ex' s : fits (ex' ++ ex) s -> fits ex s.
Proof. intros Hf p. specialize (Hf p). rewrite !occ_app in *. lia. Qed.
Lemma fits_same ex s s' : db_uq s' = db_uq s -> fits ex s -> fits ex s'.
Proof. unfold fits, uq_list. by intros ->. Qed.

Lemma find_routes ex s n p : db_inv ex s -> m_find n (db_routes s) = Some p ->
  exists r, db_heap s !! p = Some r /\ re_net r = n.
Proof. intros Hi Hf. apply (di_routes _ _ Hi). by apply find_elem; [apply Hi|]. Qed.

Lemma table_nodup ex s : db_inv ex s -> NoDup (map snd (db_routes s)).
Proof.
  intros Hi. pose proof (di_table _ _ Hi) as Hs. pose proof (di_routes _ _ Hi) as Hr. clear Hi.
  induction (db_routes s) as [|[n p] l IH]; [constructor|]. cbn. apply sorted_cons in Hs as [Hs Hlt].
  apply NoDup_cons. split; [|apply IH; [done|]; intros; apply Hr; by right].
  intros ([n' p'] & E & Hin)%list_elem_of_fmap. cbn in E. subst p'. destruct (Hr n p) as (r & Hp & En); [by left|].
  destruct (Hr n' p) as (r' & Hp' & En'); [by right|]. assert (n' = n) as -> by congruence.
  apply Hlt in Hin. by rewrite key_irrefl in Hin.
Qed.

Lemma refs_bound ex s p : db_inv ex s -> fits ex s -> Z.of_nat (occ p (refs ex s)) <= 1 + MAX_QUEUED.
Proof.
  intros Hi Hb. unfold refs. rewrite !occ_app. pose proof (occ_nodup p _ (table_nodup ex s Hi)). 
  specialize (Hb p). rewrite occ_app in Hb. lia.
Qed.

(** The references of a state and of another with the same table and queue. *)
Lemma refs_same ex s s' : db_routes s' = db_routes s -> db_uq s' = db_uq s -> refs ex s' = refs ex s.
Proof. unfold refs, uq_list. by intros -> ->. Qed.

(** ** Changing a route *)
(** [r'] has the same key, origin and count as [r]. *)
Definition same_identity r r' : Prop := re_net r' = re_net r /\ re_origin r' = re_origin r /\ re_ref_cnt r' = re_ref_cnt r.

Lemma put_lookup p r s p' : db_heap (put p r s) !! p' = if decide (p' = p) then Some r else db_heap s !! p'.
Proof. cbn. destruct (decide (p' = p)) as [->|]; [by rewrite lookup_insert_eq|by rewrite lookup_insert_ne]. Qed.

(** The count of [p] becomes that of the references in [ex']; everything else stays. *)
Lemma put_inv ex ex' p r r' s : db_inv ex s -> db_heap s !! p = Some r -> re_net r' = re_net r -> re_origin r' = re_origin r ->
  (forall p', occ p' (refs ex' s) = if decide (p' = p) then Z.to_nat (re_ref_cnt r') else occ p' (refs ex s)) ->
  0 <= re_ref_cnt r' -> db_inv ex' (put p r' s).
Proof.
  intros Hi Hp En Eo Hc H0.
  assert (Hput : forall q x, db_heap s !! q = Some x -> exists x', db_heap (put p r' s) !! q = Some x' /\ re_net x' = re_net x /\ re_origin x' = re_origin x).
  { intros q x Hq. rewrite put_lookup. destruct (decide (q = p)) as [->|]; [|by exists x]. exists r'. rewrite Hp in Hq. injection Hq as <-. done. }
  pose proof Hi as []. split; cbn [db_origins db_routes db_fresh db_uq put with_heap]; try done.
  - intros q x Hq. rewrite put_lookup in Hq. destruct (decide (q = p)) as [->|]; [|by apply di_heap0]. injection Hq as <-.
    rewrite En, Eo. by apply di_heap0.
  - intros o x n q Ho Hin. destruct (di_store0 o x n q Ho Hin) as (y & Hy & En' & Eo'). destruct (Hput q y Hy) as (y' & ? & ? & ?).
    exists y'. split; [done|]. split; congruence.
  - intros n q Hin. destruct (di_routes0 n q Hin) as (y & Hy & En'). destruct (Hput q y Hy) as (y' & ? & ? & ?).
    exists y'. split; [done|]. congruence.
  - intros q x Hq. rewrite put_lookup in Hq. rewrite (refs_same ex' s) by done. rewrite Hc. destruct (decide (q = p)) as [->|].
    + injection Hq as <-. lia.
    + by apply di_count0.
  - intros q. rewrite (refs_same ex' s) by done. rewrite occ_elem, Hc. rewrite put_lookup. destruct (decide (q = p)); [done|].
    rewrite <- occ_elem. apply di_live0.
  - intros q. rewrite put_lookup. destruct (decide (q = p)) as [->|]; [intros _; apply di_fresh0; by exists r|apply di_fresh0].
Qed.

Lemma put_same_inv ex p r r' s : db_inv ex s -> db_heap s !! p = Some r -> same_identity r r' -> db_inv ex (put p r' s).
Proof.
  intros Hi Hp (En & Eo & Ec). pose proof (di_count _ _ Hi _ _ Hp) as Hc.
  eapply put_inv; eauto; [|lia]. intros p'. case_decide; [subst; rewrite Ec; lia|done].
Qed.

Lemma ref_ok ex p r s : db_inv ex s -> fits ex s -> db_heap s !! p = Some r ->
  ref p s = Ok (put p (put_ref_cnt (re_ref_cnt r + 1) r) s) /\ db_inv (p :: ex) (put p (put_ref_cnt (re_ref_cnt r + 1) r) s).
Proof.
  intros Hi Hb Hp. pose proof (di_count _ _ Hi _ _ Hp) as Hc. pose proof (refs_bound ex s p Hi Hb) as Hle. unfold MAX_QUEUED in Hle.
  unfold ref, deref. rewrite Hp. cbn [result_bind]. unfold cost16. rewrite Z.mod_small by lia. split; [done|].
  eapply put_inv; eauto; cbn; [|lia]. intros p'. unfold refs. rewrite !occ_app, occ_cons. unfold refs in Hc. rewrite !occ_app in Hc.
  destruct (decide (p' = p)) as [->|]; lia.
Qed.

(** [release] when other references are left. *)
Lemma release_keep ex p r s : db_inv (p :: ex) s -> fits (p :: ex) s -> db_heap s !! p = Some r -> p ∈ refs ex s ->
  release p s = Ok (put p (put_ref_cnt (re_ref_cnt r - 1) r) s) /\ db_inv ex (put p (put_ref_cnt (re_ref_cnt r - 1) r) s).
Proof.
  intros Hi Hb Hp Hin. pose proof (di_count _ _ Hi _ _ Hp) as Hc. pose proof (refs_bound _ s p Hi Hb) as Hle. cbn in Hle.
  unfold MAX_QUEUED in Hle. apply occ_elem in Hin. unfold refs in *. rewrite !occ_app in *. rewrite occ_cons, decide_True in * by done.
  unfold release, deref. rewrite Hp. cbn [result_bind]. unfold cost16. rewrite Z.mod_small by lia. rewrite decide_False by lia.
  split; [done|]. eapply put_inv; eauto; cbn; [|lia]. intros p'. unfold refs. rewrite !occ_app, occ_cons.
  destruct (decide (p' = p)) as [->|]; lia.
Qed.

(** ** Deleting a route *)
(** What the operations on references leave alone. *)
Record same_rest s s' : Prop := {
  sr_routes : db_routes s' = db_routes s;
  sr_uq : db_uq s' = db_uq s;
  sr_rib : db_rib_routes s' = db_rib_routes s;
  sr_rib_origin : db_rib_origin s' = db_rib_origin s;
  sr_now : db_now s' = db_now s;
  sr_fresh : db_fresh s' = db_fresh s;
  sr_origins : forall o, (fun x => (expiry_secs x, deletion_secs x)) <$> (db_origins s' !! o)
    = (fun x => (expiry_secs x, deletion_secs x)) <$> (db_origins s !! o) }.

Lemma same_rest_refl s : same_rest s s.
Proof. by split. Qed.
Lemma same_rest_trans s1 s2 s3 : same_rest s1 s2 -> same_rest s2 s3 -> same_rest s1 s3.
Proof. intros [] []. split; intros; etransitivity; eauto. Qed.
Lemma same_rest_put p r s : same_rest s (put p r s).
Proof. by split. Qed.

Lemma store_find o x s ex n p : db_inv ex s -> db_origins s !! o = Some x -> m_find n (rtstore x) = Some p <-> (n, p) ∈ rtstore x.
Proof. intros Hi Ho. apply find_elem. by eapply di_sorted. Qed.

Lemma db_delete_ok ex p r s : db_inv ex s -> db_heap s !! p = Some r -> p ∉ refs ex s ->
  exists s', delete_entry p s = Ok s' /\ db_inv ex s' /\ same_rest s s' /\ db_heap s' = delete p (db_heap s).
Proof.
  intros Hi Hp Hn. destruct (di_heap _ _ Hi _ _ Hp) as (o & x & Eo & Ho & Hin).
  unfold delete_entry, deref. rewrite Hp. cbn [result_bind]. rewrite Eo. unfold origin_dissociate, get_origin. cbn [db_origins with_heap].
  rewrite Ho. cbn [result_bind]. rewrite (proj2 (store_find o x s ex _ p Hi Ho)) by done. eexists. split; [reflexivity|].
  pose proof Hi as []. split; [|split; [|done]].
  2:{ split; try done. intros o'. cbn. destruct (decide (o' = o)) as [->|]; [by rewrite lookup_insert_eq, Ho|by rewrite lookup_insert_ne]. }
  assert (Hst : forall o' x', db_origins (set_store o x (m_erase (re_net r) (rtstore x)) (with_heap (delete p (db_heap s)) s)) !! o' = Some x' ->
    (o' = o /\ rtstore x' = m_erase (re_net r) (rtstore x)) \/ (o' <> o /\ db_origins s !! o' = Some x')).
  { intros o' x'. cbn. destruct (decide (o' = o)) as [->|]; [rewrite lookup_insert_eq|rewrite lookup_insert_ne by done; auto].
    intros [= <-]. by left. }
  split; cbn [db_routes db_fresh db_uq db_heap set_store with_origins with_heap]; try done.
  - intros q y [Hq Hy]%lookup_delete_Some. destruct (di_heap0 q y Hy) as (o' & x' & Eo' & Ho' & Hin').
    exists o'. cbn. destruct (decide (o' = o)) as [->|]; [rewrite lookup_insert_eq|rewrite lookup_insert_ne by done; eauto].
    eexists. split; [done|]. split; [done|]. cbn. assert (x' = x) as -> by congruence.
    apply erase_elem; [by eapply di_sorted0|]. split; [|done]. intros E. apply Hq. rewrite E in Hin'.
    eapply find_unique; [by eapply di_sorted0|exact Hin|exact Hin'].
  - intros o' x' [[-> Ex]|[_ Hx]]%Hst; [|by eapply di_sorted0]. rewrite Ex. apply erase_sorted. by eapply di_sorted0.
  - intros o' x' n q Hx Hin'. destruct (decide (q = p)) as [->|Hq].
    + exfalso. apply Hst in Hx as [[-> Ex]|[Hne Hx]].
      * rewrite Ex in Hin'. apply erase_elem in Hin' as [Hne Hin']; [|by eapply di_sorted0].
        destruct (di_store0 _ _ _ _ Ho Hin') as (r' & Hr' & En & _). congruence.
      * destruct (di_store0 _ _ _ _ Hx Hin') as (r' & Hr' & _ & Eo'). congruence.
    + rewrite lookup_delete_ne by done. apply Hst in Hx as [[-> Ex]|[Hne Hx]]; [|eauto].
      rewrite Ex in Hin'. apply erase_elem in Hin' as [_ Hin']; [|by eapply di_sorted0]. eauto.
  - intros n q Hin'. rewrite lookup_delete_ne; [eauto|]. intros ->. apply Hn. unfold refs. apply elem_of_app. left.
    apply list_elem_of_fmap. by exists (n, q).
  - intros q y [_ Hy]%lookup_delete_Some. rewrite (refs_same ex s) by done. auto.
  - intros q. rewrite (refs_same ex s) by done. intros Hq. rewrite lookup_delete_ne; [auto|]. by intros ->.
  - intros q Hq. apply di_fresh0. destruct Hq as [y [_ Hy]%lookup_delete_Some]. by exists y.
Qed.

(** Routes may disappear and change their count, nothing else. *)
Definition shrinks s s' : Prop :=
  forall q r', db_heap s' !! q = Some r' -> exists r c, db_heap s !! q = Some r /\ r' = put_ref_cnt c r.
Lemma shrinks_trans s1 s2 s3 : shrinks s1 s2 -> shrinks s2 s3 -> shrinks s1 s3.
Proof. intros H1 H2 q r3 H3. destruct (H2 _ _ H3) as (r2 & c2 & E2 & ->). destruct (H1 _ _ E2) as (r1 & c1 & E1 & ->). by exists r1, c2. Qed.

(** Dropping a reference. *)
Lemma release_ok ex p s : db_inv (p :: ex) s -> fits (p :: ex) s ->
  exists s', release p s = Ok s' /\ db_inv ex s' /\ same_rest s s' /\ (referred (p :: ex) s -> referred ex s')
    /\ shrinks s s' /\ forall q, q <> p -> db_heap s' !! q = db_heap s !! q.
Proof.
  intros Hi Hb. assert (is_Some (db_heap s !! p)) as [r Hp].
  { apply (di_live _ _ Hi). unfold refs. apply elem_of_app. right. apply elem_of_app. right. by left. }
  destruct (decide (p ∈ refs ex s)) as [Hin|Hin].
  - destruct (release_keep ex p r s Hi Hb Hp Hin) as [-> Hi']. eexists. split; [reflexivity|]. split; [done|].
    split; [apply same_rest_put|]. split; [|split; [|intros q Hq; by rewrite put_lookup, decide_False]].
    2:{ intros q r'. rewrite put_lookup. destruct (decide (q = p)) as [->|]; [intros [= <-]; eauto|]. intros Hq. exists r', (re_ref_cnt r').
        by destruct r'. }
    intros Hr q. rewrite put_lookup, (refs_same ex s) by done. destruct (decide (q = p)) as [->|]; [done|]. intros Hq.
    specialize (Hr q Hq). unfold refs in *. rewrite !elem_of_app, elem_of_cons in *. tauto.
  - pose proof (di_count _ _ Hi _ _ Hp) as Hc. rewrite occ_elem in Hin. unfold refs in Hin, Hc. rewrite !occ_app in Hin, Hc.
    rewrite occ_cons, decide_True in Hc by done. unfold release, deref. rewrite Hp. cbn [result_bind]. unfold cost16.
    replace (re_ref_cnt r - 1) with 0 by lia. rewrite Z.mod_0_l by lia. rewrite decide_True by done.
    assert (Hi' : db_inv ex (put p (put_ref_cnt 0 r) s)).
    { eapply put_inv; eauto; cbn; [|lia]. intros q. unfold refs. rewrite !occ_app, occ_cons. destruct (decide (q = p)) as [->|]; lia. }
    destruct (db_delete_ok ex p (put_ref_cnt 0 r) (put p (put_ref_cnt 0 r) s) Hi') as (s' & -> & Hs' & Hr' & Hh').
    + by rewrite put_lookup, decide_True.
    + rewrite (refs_same ex s) by done. rewrite occ_elem. unfold refs. rewrite !occ_app. lia.
    + exists s'. split; [done|]. split; [done|]. split; [by eapply same_rest_trans; [apply same_rest_put|]|]. split.
      * intros Hr q. rewrite Hh', (refs_same ex s) by (apply Hr'). destruct (decide (q = p)) as [->|Hq].
        { rewrite lookup_delete_eq. by intros []. }
        rewrite lookup_delete_ne, put_lookup, decide_False by done. intros Hx. specialize (Hr q Hx). unfold refs in *.
        rewrite !elem_of_app, elem_of_cons in *. tauto.
      * split; [|intros q Hq; by rewrite Hh', lookup_delete_ne, put_lookup, decide_False].
        intros q r'. rewrite Hh'. intros [Hq Hx]%lookup_delete_Some. rewrite put_lookup, decide_False in Hx by done.
        exists r', (re_ref_cnt r'). by destruct r'.
Qed.

Lemma release_all_ok ps : forall ex s, db_inv (ps ++ ex) s -> fits (ps ++ ex) s ->
  exists s', release_all ps s = Ok s' /\ db_inv ex s' /\ same_rest s s' /\ (referred (ps ++ ex) s -> referred ex s') /\ shrinks s s'.
Proof.
  induction ps as [|p ps IH]; intros ex s Hi Hb.
  { exists s. split; [done|]. split; [done|]. split; [apply same_rest_refl|]. split; [done|]. intros q r Hq. exists r, (re_ref_cnt r).
    by destruct r. }
  destruct (release_ok (ps ++ ex) p s Hi Hb) as (s1 & E & Hi1 & Hr1 & Hf1 & Hk1 & _). cbn. rewrite E. cbn [result_bind].
  destruct (IH ex s1 Hi1) as (s2 & -> & Hi2 & Hr2 & Hf2 & Hk2).
  { eapply fits_same; [apply Hr1|]. by apply (fits_tail _ [p]). }
  exists s2. split; [done|]. split; [done|]. split; [by eapply same_rest_trans|].
  split; [intros Hr; by apply Hf2, Hf1|by eapply shrinks_trans].
Qed.

(** ** The queue, the table and the origins *)
Lemma with_uq_inv ex ex' q s : db_inv ex s -> queue_ok q ->
  (forall p, occ p (contents (update_blocks q) ++ ex') = occ p (uq_list s ++ ex)) ->
  db_inv ex' (with_uq q s) /\ (referred ex s -> referred ex' (with_uq q s)).
Proof.
  intros Hi Hq Hc. assert (Hr : forall p, occ p (refs ex' (with_uq q s)) = occ p (refs ex s)).
  { intros p. unfold refs. cbn [db_routes with_uq]. rewrite !(occ_app p (map snd (db_routes s))). f_equal. apply Hc. }
  pose proof Hi as []. split; [split; cbn [db_heap db_origins db_routes db_fresh db_uq with_uq]; try done|].
  - intros p r Hp. rewrite Hr. auto.
  - intros p Hp. apply di_live0. by rewrite occ_elem, <- Hr, <- occ_elem.
  - intros Hf p Hp. rewrite occ_elem, Hr, <- occ_elem. by apply Hf.
Qed.

Lemma put_put p r r' s : put p r (put p r' s) = put p r s.
Proof. unfold put, with_heap. cbn. by rewrite insert_insert_eq. Qed.

(** A route of the table is announced. *)
Definition announced (p : nat) r s s' : Prop :=
  exists q', push_back p (db_uq s) = Ok (q', true) /\ queue_ok q'
    /\ s' = put p (put_ref_cnt (re_ref_cnt r + (if decide (num_readers (db_uq s) = 0%nat) then 0 else 1)) r) (with_uq q' s)
    /\ contents (update_blocks q') = uq_list s ++ (if decide (num_readers (db_uq s) = 0%nat) then [] else [p]).

Lemma push_back_contents (p : nat) (q : UpdateQueue nat) : queue_ok q -> exists q', push_back p q = Ok (q', true) /\ queue_ok q'
  /\ contents (update_blocks q') = contents (update_blocks q) ++ (if decide (num_readers q = 0%nat) then [] else [p]).
Proof.
  intros Hq. destruct (push_back_ok [] p q Hq) as (q' & E & Hq' & Ha & _). exists q'. split; [done|]. split; [done|].
  apply (f_equal lq_log) in Ha. unfold log_push in Ha. cbn [absq lq_cursors] in Ha.
  rewrite users_map, <- (co_num q (qo_core q Hq)) in Ha.
  destruct (decide (num_readers q = 0%nat)); cbn in Ha; [by rewrite app_nil_r|done].
Qed.

Lemma push_update_ok ex p r s : db_inv ex s -> fits (p :: p :: ex) s -> db_heap s !! p = Some r -> p ∈ refs ex s ->
  exists s', push_update p s = Ok s' /\ announced p r s s' /\ db_inv ex s' /\ (referred ex s -> referred ex s').
Proof.
  intros Hi Hb Hp Hin. destruct (push_back_contents p (db_uq s) (di_queue _ _ Hi)) as (q' & Eq & Hq' & Hc).
  destruct (ref_ok ex p r s Hi (fits_tail ex [p; p] s Hb) Hp) as [E1 Hi1]. unfold push_update. rewrite E1. cbn [result_bind].
  set (s1 := put p _ s) in *. change (db_uq s1) with (db_uq s). rewrite Eq. cbn [result_bind fst].
  assert (Hin' : p ∈ refs ex (with_uq q' s)).
  { unfold refs, uq_list in *. cbn [db_routes db_uq with_uq]. rewrite Hc. rewrite !elem_of_app in *. tauto. }
  assert (Hfit : fits (p :: ex) (with_uq q' s1)).
  { intros x. specialize (Hb x). unfold uq_list in *. cbn [db_uq with_uq]. rewrite Hc. rewrite !occ_app, !occ_cons in *.
    destruct (decide (num_readers (db_uq s) = 0%nat)); rewrite ?occ_cons; change (occ x []) with 0%nat; lia. }
  destruct (decide (num_readers (db_uq s) = 0%nat)) as [E0|E0].
  - cbn [result_bind].
    destruct (with_uq_inv (p :: ex) (p :: ex) q' s1 Hi1 Hq') as [Hi2 _].
    { intros p'. rewrite Hc, app_nil_r. done. }
    destruct (release_keep ex p (put_ref_cnt (re_ref_cnt r + 1) r) (with_uq q' s1) Hi2 Hfit) as [E3 Hi3].
    { apply lookup_insert_eq. }
    { done. }
    eexists. split; [exact E3|]. split; [|split; [exact Hi3|]].
    + exists q'. rewrite !decide_True by done. split; [done|]. split; [done|]. split; [|done].
      unfold put, with_heap, with_uq, s1. cbn. rewrite insert_insert_eq. unfold put_ref_cnt. cbn. repeat f_equal. lia.
    + intros Hr x. rewrite put_lookup. unfold refs, uq_list. cbn [db_routes db_uq with_uq put with_heap db_heap s1]. rewrite Hc, app_nil_r. destruct (decide (x = p)) as [->|]; [by intros _|].
      rewrite lookup_insert_ne by done. apply Hr.
  - destruct (ref_ok (p :: ex) p (put_ref_cnt (re_ref_cnt r + 1) r) s1 Hi1) as [E2 Hi2].
    { apply (fits_same _ s); [done|]. by apply (fits_tail _ [p]). }
    { apply lookup_insert_eq. }
    rewrite E2. cbn [result_bind]. set (s2 := put p _ s1) in *.
    destruct (with_uq_inv (p :: p :: ex) (p :: ex) q' s2 Hi2 Hq') as [Hi3 _].
    { intros p'. rewrite Hc, !occ_app, !occ_cons. change (uq_list s2) with (contents (update_blocks (db_uq s))).
      change (occ p' []) with 0%nat. lia. }
    destruct (release_keep ex p (put_ref_cnt (re_ref_cnt r + 2) r) (with_uq q' s2) Hi3) as [E4 Hi4].
    { eapply fits_same; [|exact Hfit]. done. }
    { cbn. rewrite lookup_insert_eq. unfold put_ref_cnt. cbn. by replace (re_ref_cnt r + 1 + 1) with (re_ref_cnt r + 2) by lia. }
    { done. }
    eexists. split; [exact E4|]. split; [|split; [exact Hi4|]].
    + exists q'. rewrite !decide_False by done. split; [done|]. split; [done|]. split; [|done].
      unfold put, with_heap, with_uq, s2, s1. cbn. rewrite !insert_insert_eq. unfold put_ref_cnt. cbn. by replace (re_ref_cnt r + 2 - 1) with (re_ref_cnt r + 1) by lia.
    + intros Hr x. rewrite put_lookup. unfold refs, uq_list. cbn [db_routes db_uq with_uq put with_heap db_heap s1 s2]. rewrite Hc. destruct (decide (x = p)) as [->|].
      { intros _. rewrite !elem_of_app. right. left. right. by left. }
      rewrite !lookup_insert_ne by done. intros Hx. specialize (Hr x Hx). unfold refs, uq_list in Hr. rewrite !elem_of_app in *. tauto.
Qed.

(** A new route. *)
Lemma new_entry_ok ex o x r s : db_inv ex s -> db_origins s !! o = Some x -> m_find (re_net r) (rtstore x) = None ->
  re_origin r = Some o -> re_ref_cnt r = 0 ->
  exists s', new_entry r s = Ok (s', db_fresh s) /\ db_inv ex s' /\ db_heap s !! db_fresh s = None
    /\ db_heap s' = <[db_fresh s := r]> (db_heap s) /\ db_routes s' = db_routes s /\ db_uq s' = db_uq s
    /\ db_rib_routes s' = db_rib_routes s /\ db_rib_origin s' = db_rib_origin s /\ db_now s' = db_now s
    /\ db_origins s' = <[o := mkOrg (m_insert (re_net r) (db_fresh s) (rtstore x)) (expiry_secs x) (deletion_secs x)]> (db_origins s).
Proof.
  intros Hi Ho Hf Eo Ec. pose proof Hi as [].
  assert (Hp : db_heap s !! db_fresh s = None).
  { apply eq_None_not_Some. intros Hx%di_fresh0. lia. }
  unfold new_entry. rewrite Eo. unfold origin_associate, get_origin. cbn [db_origins]. rewrite Ho. cbn [result_bind]. rewrite Hf.
  cbn [result_bind]. eexists. split; [reflexivity|]. split; [|done].
  set (p := db_fresh s) in *.
  assert (Hst : forall o' y, <[o := mkOrg (m_insert (re_net r) p (rtstore x)) (expiry_secs x) (deletion_secs x)]> (db_origins s) !! o' = Some y ->
    (o' = o /\ rtstore y = m_insert (re_net r) p (rtstore x)) \/ (o' <> o /\ db_origins s !! o' = Some y)).
  { intros o' y. destruct (decide (o' = o)) as [->|]; [rewrite lookup_insert_eq|rewrite lookup_insert_ne by done; auto].
    intros [= <-]. by left. }
  assert (Hne : forall q y, db_heap s !! q = Some y -> q <> p) by (intros q y Hq ->; congruence).
  split; cbn [db_routes db_fresh db_uq db_heap db_origins set_store with_origins]; try done.
  - intros q y Hq. destruct (decide (q = p)) as [->|].
    + rewrite lookup_insert_eq in Hq. injection Hq as <-. exists o. rewrite lookup_insert_eq. eexists. split; [done|]. split; [done|]. cbn.
      apply insert_elem; [by eapply di_sorted0|]. by left.
    + rewrite lookup_insert_ne in Hq by done. destruct (di_heap0 q y Hq) as (o' & x' & Eo' & Ho' & Hin'). exists o'.
      destruct (decide (o' = o)) as [->|]; [rewrite lookup_insert_eq|rewrite lookup_insert_ne by done; eauto].
      assert (x' = x) as -> by congruence. eexists. split; [done|]. split; [done|]. cbn. apply insert_elem; [by eapply di_sorted0|].
      right. split; [|done]. intros E. rewrite E in Hin'. by rewrite (proj2 (store_find o x s ex _ q Hi Ho)) in Hf.
  - intros o' y [[-> Ey]|[_ Hy]]%Hst; [|by eapply di_sorted0]. rewrite Ey. apply insert_sorted. by eapply di_sorted0.
  - intros o' y n q [[-> Ey]|[_ Hy]]%Hst Hin.
    + rewrite Ey in Hin. apply insert_elem in Hin as [[-> ->]|[Hnn Hin]]; [| |by eapply di_sorted0].
      * exists r. by rewrite lookup_insert_eq.
      * destruct (di_store0 _ _ _ _ Ho Hin) as (z & Hz & ?). exists z. by rewrite lookup_insert_ne by (symmetry; eauto).
    + destruct (di_store0 _ _ _ _ Hy Hin) as (z & Hz & ?). exists z. by rewrite lookup_insert_ne by (symmetry; eauto).
  - intros n q Hin. destruct (di_routes0 n q Hin) as (z & Hz & ?). exists z. by rewrite lookup_insert_ne by (symmetry; eauto).
  - intros q y Hq. rewrite (refs_same ex s) by done. destruct (decide (q = p)) as [->|].
    + rewrite lookup_insert_eq in Hq. injection Hq as <-. rewrite Ec. destruct (decide (0 < occ p (refs ex s))%nat) as [Hx|]; [|lia].
      apply occ_elem, di_live0 in Hx as [z Hz]. congruence.
    + rewrite lookup_insert_ne in Hq by done. auto.
  - intros q. rewrite (refs_same ex s) by done. intros [y Hy]%di_live0. rewrite lookup_insert_ne by (symmetry; eauto). by exists y.
  - intros q [y Hq]. destruct (decide (q = p)) as [->|]; [lia|]. rewrite lookup_insert_ne in Hq by done.
    assert (q < p)%nat by (apply di_fresh0; by exists y). lia.
Qed.

(** A route enters the table. *)
Lemma insert_route_ok ex p r s : db_inv ex s -> fits (p :: p :: ex) s -> db_heap s !! p = Some r -> m_find (re_net r) (db_routes s) = None ->
  let s' := put p (put_ref_cnt (re_ref_cnt r + 1) r) (with_routes (m_insert (re_net r) p (db_routes s)) s) in
  insert_route (re_net r) p s = Ok s' /\ db_inv ex s' /\ ((forall q, is_Some (db_heap s !! q) -> q = p \/ q ∈ refs ex s) -> referred ex s').
Proof.
  intros Hi Hb Hp Hf s'. unfold insert_route. rewrite Hf.
  destruct (ref_ok ex p r s Hi (fits_tail ex [p; p] s Hb) Hp) as [E1 Hi1]. rewrite E1. cbn [result_bind].
  set (s1 := put p _ s) in *.
  destruct (ref_ok (p :: ex) p (put_ref_cnt (re_ref_cnt r + 1) r) s1 Hi1) as [E2 Hi2].
  { apply (fits_same _ s); [done|]. by apply (fits_tail _ [p]). }
  { apply lookup_insert_eq. }
  rewrite E2. cbn [result_bind]. set (s2 := put p _ s1) in *.
  pose proof (fun q => occ_insert (re_net r) p q _ Hf) as Hocc.
  assert (Hr : forall q y, occ q (refs (p :: y) (with_routes (m_insert (re_net r) p (db_routes s)) s2)) = occ q (refs (p :: p :: y) s2)).
  { intros q y. unfold refs. cbn [db_routes with_routes put with_heap s2 s1]. rewrite !occ_app, Hocc, !occ_cons.
    change (uq_list (with_routes _ s2)) with (uq_list s2). lia. }
  assert (Hi3 : db_inv (p :: ex) (with_routes (m_insert (re_net r) p (db_routes s)) s2)).
  { pose proof Hi2 as []. split; cbn [db_routes db_fresh db_uq db_heap db_origins with_routes]; try done.
    - apply insert_sorted. apply Hi.
    - intros n q Hin. apply insert_elem in Hin as [[-> ->]|[_ Hin]]; [|by apply di_routes0|by apply Hi].
      eexists. split; [apply lookup_insert_eq|done].
    - intros q y Hq. rewrite Hr. auto.
    - intros q. rewrite occ_elem, Hr, <- occ_elem. auto. }
  destruct (release_keep ex p (put_ref_cnt (re_ref_cnt r + 2) r) _ Hi3) as [E4 Hi4].
  { apply (fits_same _ s); [done|]. by apply (fits_tail _ [p]). }
  { cbn. rewrite lookup_insert_eq. unfold put_ref_cnt. cbn. by replace (re_ref_cnt r + 1 + 1) with (re_ref_cnt r + 2) by lia. }
  { unfold refs. apply elem_of_app. left. cbn [db_routes with_routes].
    rewrite occ_elem, Hocc, occ_cons, decide_True by done. lia. }
  assert (Es : put p (put_ref_cnt (re_ref_cnt (put_ref_cnt (re_ref_cnt r + 2) r) - 1) (put_ref_cnt (re_ref_cnt r + 2) r))
    (with_routes (m_insert (re_net r) p (db_routes s)) s2) = s').
  { unfold s', put, with_heap, with_routes, s2, s1. cbn. rewrite !insert_insert_eq. unfold put_ref_cnt. cbn.
    by replace (re_ref_cnt r + 2 - 1) with (re_ref_cnt r + 1) by lia. }
  rewrite Es in *. split; [done|]. split; [done|]. intros Hq q Hx. unfold refs. cbn [db_routes s' put with_heap with_routes].
  apply elem_of_app. rewrite (occ_elem q (map snd _)), Hocc, <- occ_elem, elem_of_cons.
  assert (Hy : is_Some (db_heap s !! q)).
  { unfold s' in Hx. rewrite put_lookup in Hx. destruct (decide (q = p)) as [->|]; [by exists r|done]. }
  destruct (Hq q Hy) as [->|Hin]; [auto|]. unfold refs in Hin. rewrite elem_of_app in Hin. tauto.
Qed.

(** A route leaves the table; its reference is still to be released. *)
Lemma erase_route_inv ex n p s : db_inv ex s -> m_find n (db_routes s) = Some p ->
  db_inv (p :: ex) (with_routes (m_erase n (db_routes s)) s) /\ (referred ex s -> referred (p :: ex) (with_routes (m_erase n (db_routes s)) s)).
Proof.
  intros Hi Hf. assert (Hr : forall q, occ q (refs (p :: ex) (with_routes (m_erase n (db_routes s)) s)) = occ q (refs ex s)).
  { intros q. unfold refs. cbn [db_routes with_routes]. rewrite !occ_app, (occ_erase n p q (db_routes s) (di_table _ _ Hi) Hf), !occ_cons.
    change (uq_list (with_routes _ s)) with (uq_list s). lia. }
  pose proof Hi as []. split; [split; cbn [db_routes db_fresh db_uq db_heap db_origins with_routes]; try done|].
  - by apply erase_sorted.
  - intros m q Hin. apply erase_elem in Hin as [_ Hin]; [|done]. auto.
  - intros q y Hq. rewrite Hr. auto.
  - intros q. rewrite occ_elem, Hr, <- occ_elem. auto.
  - intros Hx q Hq. rewrite occ_elem, Hr, <- occ_elem. by apply Hx.
Qed.

(** A route changes its origin. *)
Lemma set_origin_ok ex p r o x s : db_inv ex s -> db_heap s !! p = Some r -> re_origin r <> Some o -> db_origins s !! o = Some x ->
  m_find (re_net r) (rtstore x) = None ->
  exists s', set_origin p o s = Ok s' /\ db_inv ex s' /\ same_rest s s' /\ db_heap s' = <[p := put_origin (Some o) r]> (db_heap s)
    /\ (exists x', db_origins s' !! o = Some x' /\ (re_net r, p) ∈ rtstore x')
    /\ (forall o' x' n q, db_origins s' !! o' = Some x' -> (n, q) ∈ rtstore x' ->
          (o' = o /\ n = re_net r /\ q = p) \/ exists y, db_origins s !! o' = Some y /\ (n, q) ∈ rtstore y).
Proof.
  intros Hi Hp Hne Ho Hf. pose proof Hi as []. destruct (di_heap0 _ _ Hp) as (o1 & x1 & Eo & Ho1 & Hin).
  assert (Hoo : o1 <> o) by congruence.
  unfold set_origin, deref. rewrite Hp. cbn [result_bind]. rewrite decide_False by done. rewrite Eo. unfold origin_dissociate, get_origin.
  rewrite Ho1. cbn [result_bind]. rewrite (proj2 (store_find o1 x1 s ex _ p Hi Ho1)) by done. cbn [result_bind].
  unfold origin_associate, get_origin. cbn [set_store with_origins db_origins]. rewrite lookup_insert_ne, Ho by done. cbn [result_bind].
  rewrite Hf. cbn [result_bind]. eexists. split; [reflexivity|].
  set (x1' := mkOrg (m_erase (re_net r) (rtstore x1)) (expiry_secs x1) (deletion_secs x1)).
  set (x' := mkOrg (m_insert (re_net r) p (rtstore x)) (expiry_secs x) (deletion_secs x)).
  cbn [set_store with_origins db_origins put with_heap].
  assert (Hst : forall o' y, <[o := x']> (<[o1 := x1']> (db_origins s)) !! o' = Some y ->
    (o' = o /\ y = x') \/ (o' = o1 /\ y = x1') \/ (o' <> o /\ o' <> o1 /\ db_origins s !! o' = Some y)).
  { intros o' y. destruct (decide (o' = o)) as [->|]; [rewrite lookup_insert_eq; intros [= <-]; auto|]. rewrite lookup_insert_ne by done.
    destruct (decide (o' = o1)) as [->|]; [rewrite lookup_insert_eq; intros [= <-]; auto|]. rewrite lookup_insert_ne by done. auto 6. }
  assert (Hs1 : m_sorted (rtstore x1)) by eauto. assert (Hsx : m_sorted (rtstore x)) by eauto.
  split; [|split; [|split; [done|split]]].
  - split; cbn [db_routes db_fresh db_uq db_heap db_origins set_store with_origins put with_heap]; try done.
    + intros q y Hq. destruct (decide (q = p)) as [->|Hqp].
      { rewrite lookup_insert_eq in Hq. injection Hq as <-. exists o, x'. rewrite lookup_insert_eq. split; [done|]. split; [done|].
        apply insert_elem; [done|]. by left. }
      rewrite lookup_insert_ne in Hq by done. destruct (di_heap0 q y Hq) as (o' & z & Eo' & Ho' & Hin'). exists o'.
      destruct (decide (o' = o)) as [->|]; [exists x'; rewrite lookup_insert_eq|].
      { assert (z = x) as -> by congruence. split; [done|]. split; [done|]. apply insert_elem; [done|]. right. split; [|done].
        intros E. rewrite E in Hin'. by rewrite (proj2 (store_find o x s ex _ q Hi Ho)) in Hf. }
      rewrite lookup_insert_ne by done. destruct (decide (o' = o1)) as [->|]; [exists x1'; rewrite lookup_insert_eq|].
      { assert (z = x1) as -> by congruence. split; [done|]. split; [done|]. apply erase_elem; [done|]. split; [|done].
        intros E. apply Hqp. rewrite E in Hin'. by eapply (find_unique (re_net r) q p (rtstore x1) Hs1). }
      rewrite lookup_insert_ne by done. eauto.
    + intros o' y [[-> ->]|[[-> ->]|(_ & _ & Hy)]]%Hst; [by apply insert_sorted|by apply erase_sorted|eauto].
    + assert (Hold : forall o' y n q, db_origins s !! o' = Some y -> (n, q) ∈ rtstore y -> ~ (o' = o1 /\ n = re_net r) ->
        exists z, <[p := put_origin (Some o) r]> (db_heap s) !! q = Some z /\ re_net z = n /\ re_origin z = Some o').
      { intros o' y n q Hy Hiny Hnot. destruct (di_store0 _ _ _ _ Hy Hiny) as (z & Hz & En & Eo'). exists z.
        rewrite lookup_insert_ne; [done|]. intros <-. apply Hnot. rewrite Hp in Hz. injection Hz as <-. split; congruence. }
      intros o' y n q [[-> ->]|[[-> ->]|(Hn1 & Hn2 & Hy)]]%Hst Hiny.
      * apply insert_elem in Hiny as [[-> ->]|[_ Hiny]]; [| |done].
        { eexists. rewrite lookup_insert_eq. done. }
        eapply Hold; eauto. by intros [? _].
      * apply erase_elem in Hiny as [Hnn Hiny]; [|done]. eapply Hold; eauto. by intros [_ ?].
      * eapply Hold; eauto. by intros [? _].
    + intros n q Hq. destruct (di_routes0 n q Hq) as (z & Hz & En). destruct (decide (q = p)) as [->|].
      * eexists. rewrite lookup_insert_eq. split; [done|]. cbn. congruence.
      * exists z. by rewrite lookup_insert_ne.
    + intros q y Hq. rewrite (refs_same ex s) by done. destruct (decide (q = p)) as [->|].
      * rewrite lookup_insert_eq in Hq. injection Hq as <-. cbn. auto.
      * rewrite lookup_insert_ne in Hq by done. auto.
    + intros q. rewrite (refs_same ex s) by done. intros Hq%di_live0. destruct (decide (q = p)) as [->|]; [by rewrite lookup_insert_eq|].
      by rewrite lookup_insert_ne.
    + intros q. destruct (decide (q = p)) as [->|]; [intros _; apply di_fresh0; by exists r|]. rewrite lookup_insert_ne by done. auto.
  - split; try done. intros o'. cbn [db_origins set_store with_origins put with_heap]. destruct (decide (o' = o)) as [->|]; [by rewrite lookup_insert_eq, Ho|].
    rewrite lookup_insert_ne by done. destruct (decide (o' = o1)) as [->|]; [by rewrite lookup_insert_eq, Ho1|by rewrite lookup_insert_ne].
  - exists x'. cbn [db_origins set_store with_origins put with_heap]. rewrite lookup_insert_eq. split; [done|]. apply insert_elem; [done|]. by left.
  - cbn [db_origins set_store with_origins put with_heap]. intros o' y n q [[-> ->]|[[-> ->]|(Hn1 & Hn2 & Hy)]]%Hst Hiny; [| |eauto].
    + apply insert_elem in Hiny as [[-> ->]|[_ Hiny]]; [by left|right; eauto|done].
    + apply erase_elem in Hiny as [_ Hiny]; [|done]. right. eauto.
Qed.
End DBProps.
