(* ===== verification/RipDBUpdate.v ===== *)
(** * Updates of the route database of RIP

    What [update_route] does in each of its cases: to the route it concerns, as a
    function of the old route and the filtered new one, and to the rest of the database,
    which keeps its invariant. *)

From Stdlib Require Import ZArith Lia String.
From stdpp Require Import base tactics option numbers list gmap strings.
From S2P Require Import Prelude OMap RipQueue RipQueueProps RipQueueRun RipQueueClaims RipRoute RipDB RipDBProps.
Local Open Scope Z_scope.
Local Open Scope xorp_scope.
#[local] Arguments contents : simpl never.

Section Update.
Context {Net Addr : Type} `{KeyOrder Net, !KeyOrderLaws Net, !EqDecision Net, !EqDecision Addr, !NextHop Addr}.
Abbreviation route := (RouteEntry Net Addr).
Abbreviation db := (RouteDB Net Addr).
Implicit Types (s : db) (r : route).
Context (run_filter : filter_kind -> route_vars Net Addr -> option (filter_result Addr)).

(** ** Routes and filters *)
(** Everything the setters do not touch. *)
Definition same_place r r' : Prop :=
  re_net r' = re_net r /\ re_origin r' = re_origin r /\ re_ref_cnt r' = re_ref_cnt r /\ re_timer r' = re_timer r
  /\ re_filtered r' = re_filtered r.

Lemma same_place_refl r : same_place r r.
Proof. by repeat split. Qed.
Lemma same_place_trans r1 r2 r3 : same_place r1 r2 -> same_place r2 r3 -> same_place r1 r3.
Proof. unfold same_place. intros (?&?&?&?&?) (?&?&?&?&?). split_conj; congruence. Qed.
Lemma same_place_identity r r' : same_place r r' -> same_identity r r'.
Proof. intros (?&?&?&_). by repeat split. Qed.

Lemma set_ifname_place x r : same_place r (fst (set_ifname x r)).
Proof. unfold set_ifname. case_decide; by repeat split. Qed.
Lemma set_vifname_place x r : same_place r (fst (set_vifname x r)).
Proof. unfold set_vifname. case_decide; by repeat split. Qed.
Lemma set_nexthop_place x r : same_place r (fst (set_nexthop x r)).
Proof.
  unfold set_nexthop. case_decide; [apply same_place_refl|]. destruct (negb _); [|by repeat split].
  pose proof (set_ifname_place "" (put_nh x r)) as H1. destruct (set_ifname "" (put_nh x r)) as [r1 b1]. cbn [fst] in H1.
  pose proof (set_vifname_place "" r1) as H2. destruct (set_vifname "" r1) as [r2 b2]. cbn [fst] in *.
  eapply same_place_trans; [|exact H2]. eapply same_place_trans; [|exact H1]. by repeat split.
Qed.
Lemma set_cost_place x r : same_place r (fst (set_cost x r)).
Proof. unfold set_cost. case_decide; by repeat split. Qed.
Lemma set_tag_place x r : same_place r (fst (set_tag x r)).
Proof. unfold set_tag. case_decide; by repeat split. Qed.
Lemma set_policytags_place x r : same_place r (fst (set_policytags x r)).
Proof. unfold set_policytags. case_decide; by repeat split. Qed.
Lemma start_read_place r : same_place r (start_read r).
Proof. unfold start_read. case_decide; [apply same_place_refl|apply set_tag_place]. Qed.
Lemma single_write_place w r : same_place r (single_write w r).
Proof.
  destruct w; cbn; [apply set_nexthop_place|apply set_cost_place| |by repeat split].
  eapply same_place_trans; [apply (set_tag_place t)|by repeat split].
Qed.

Lemma set_cost_cost x r : re_cost (fst (set_cost x r)) = cost16 x.
Proof. unfold set_cost. case_decide; [done|]. by cbn. Qed.
Lemma set_tag_tag x r : re_tag (fst (set_tag x r)) = cost16 x.
Proof. unfold set_tag. case_decide; [done|]. by cbn. Qed.
Lemma cost16_range x : 0 <= cost16 x < 2 ^ 16.
Proof. unfold cost16. apply Z.mod_pos_bound. lia. Qed.

(** Costs and tags stay 16 bits wide. *)
Definition words_ok r : Prop := 0 <= re_cost r < 2 ^ 16 /\ 0 <= re_tag r < 2 ^ 16.
Lemma set_nexthop_words x r : re_cost (fst (set_nexthop x r)) = re_cost r /\ re_tag (fst (set_nexthop x r)) = re_tag r.
Proof. unfold set_nexthop, set_ifname, set_vifname. repeat (case_decide || destruct (negb _)); cbn; done. Qed.
Lemma set_tag_words x r : words_ok r -> words_ok (fst (set_tag x r)).
Proof. intros [? ?]. unfold set_tag. case_decide; [done|]. split; cbn; [done|apply cost16_range]. Qed.
Lemma start_read_words r : words_ok r -> words_ok (start_read r).
Proof. intros Hr. unfold start_read. case_decide; [done|by apply set_tag_words]. Qed.
Lemma single_write_words w r : words_ok r -> words_ok (single_write w r).
Proof.
  intros Hr. destruct w; cbn.
  - unfold words_ok. by destruct (set_nexthop_words nh r) as [-> ->].
  - unfold set_cost. case_decide; [done|]. split; cbn; [apply cost16_range|apply Hr].
  - pose proof (set_tag_words t r Hr) as Ht. unfold words_ok in *. by cbn.
  - done.
Qed.

Lemma writes_place ws r : same_place r (fold_left (fun r w => single_write w r) ws r).
Proof.
  revert r. induction ws as [|w ws IH]; intros r; [apply same_place_refl|]. cbn.
  eapply same_place_trans; [apply (single_write_place w)|apply IH].
Qed.
Lemma writes_words ws r : words_ok r -> words_ok (fold_left (fun r w => single_write w r) ws r).
Proof. revert r. induction ws as [|w ws IH]; intros r Hr; [done|]. cbn. by apply IH, single_write_words. Qed.

Lemma filter_route_place f r r' a : filter_route run_filter f r = Ok (r', a) -> same_place r r' /\ (words_ok r -> words_ok r').
Proof.
  unfold filter_route. destruct (run_filter f _) as [x|]; [|done]. intros [= <- _]. destruct (f_read x).
  - split; [eapply same_place_trans; [apply start_read_place|apply writes_place]|]. intros. by apply writes_words, start_read_words.
  - split; [apply writes_place|apply writes_words].
Qed.

(** The policy engine raises no exception. *)
Definition no_policy_exception : Prop := forall f v, run_filter f v <> None.

Lemma filter_route_total f r : no_policy_exception -> exists r' a, filter_route run_filter f r = Ok (r', a).
Proof. intros Hn. unfold filter_route. destruct (run_filter f _) eqn:E; [eauto|by destruct (Hn _ _ E)]. Qed.

(** A filtered route costs at most infinity, and the cost answered is its cost. *)
Lemma do_filtering_ok r : no_policy_exception -> words_ok r ->
  exists r' a, do_filtering run_filter r = Ok (r', a, re_cost r') /\ same_place r r' /\ words_ok r' /\ re_cost r' <= RIP_INFINITY.
Proof.
  intros Hn Hw. unfold do_filtering. destruct (filter_route_total IMPORT r Hn) as (r1 & a1 & E1). rewrite E1. cbn [result_bind].
  apply filter_route_place in E1 as [P1 W1].
  assert (H2 : exists r2 a2, (if a1 : bool then filter_route run_filter EXPORT_SOURCEMATCH r1 else Ok (r1, a1)) = Ok (r2, a2)
    /\ same_place r1 r2 /\ (words_ok r1 -> words_ok r2)).
  { destruct a1; [|exists r1, false; split; [done|]; split; [apply same_place_refl|done]].
    destruct (filter_route_total EXPORT_SOURCEMATCH r1 Hn) as (r2 & a2 & E2). exists r2, a2. split; [done|]. by eapply filter_route_place. }
  destruct H2 as (r2 & a2 & -> & P2 & W2). cbn [result_bind].
  assert (H3 : exists r3 a3, (if a2 : bool then filter_route run_filter EXPORT r2 else Ok (r2, a2)) = Ok (r3, a3)
    /\ same_place r2 r3 /\ (words_ok r2 -> words_ok r3)).
  { destruct a2; [|exists r2, false; split; [done|]; split; [apply same_place_refl|done]].
    destruct (filter_route_total EXPORT r2 Hn) as (r3 & a3 & E3). exists r3, a3. split; [done|]. by eapply filter_route_place. }
  destruct H3 as (r3 & a3 & -> & P3 & W3). cbn [result_bind].
  assert (P : same_place r r3) by (eapply same_place_trans; [exact P1|]; by eapply same_place_trans).
  assert (W : words_ok r3) by auto. destruct (Z.ltb_spec RIP_INFINITY (re_cost r3)).
  - exists (fst (set_cost RIP_INFINITY r3)), false. split; [done|]. split; [eapply same_place_trans; [exact P|apply set_cost_place]|].
    rewrite set_cost_cost. split; [|by vm_compute]. split; [rewrite set_cost_cost; apply cost16_range|].
    unfold set_cost. case_decide; cbn; apply W.
  - exists r3, a3. split; [done|]. split; [done|]. split; [done|lia].
Qed.

Lemma take_fields_place new r : same_place r (fst (take_fields new r)).
Proof.
  unfold take_fields. pose proof (set_nexthop_place (re_nh new) r) as P1. destruct (set_nexthop (re_nh new) r) as [r1 b1].
  pose proof (set_ifname_place (re_ifname new) r1) as P2. destruct (set_ifname (re_ifname new) r1) as [r2 b2].
  pose proof (set_vifname_place (re_vifname new) r2) as P3. destruct (set_vifname (re_vifname new) r2) as [r3 b3].
  pose proof (set_tag_place (re_tag new) r3) as P4. destruct (set_tag (re_tag new) r3) as [r4 b4].
  pose proof (set_cost_place (re_cost new) r4) as P5. destruct (set_cost (re_cost new) r4) as [r5 b5].
  pose proof (set_policytags_place (re_policytags new) r5) as P6. destruct (set_policytags (re_policytags new) r5) as [r6 b6].
  cbn [fst] in *. repeat (eapply same_place_trans; [eassumption|]). apply same_place_refl.
Qed.

(** The announced fields. *)
Definition same_fields r r' : Prop :=
  re_nh r' = re_nh r /\ re_ifname r' = re_ifname r /\ re_vifname r' = re_vifname r /\ re_tag r' = re_tag r
  /\ re_cost r' = re_cost r /\ re_policytags r' = re_policytags r.

Lemma cost16_small x : 0 <= x < 2 ^ 16 -> cost16 x = x.
Proof. apply Z.mod_small. Qed.

Lemma set_nexthop_nh x r : re_nh (fst (set_nexthop x r)) = x.
Proof. unfold set_nexthop, set_ifname, set_vifname. case_decide; [done|]. destruct (negb _); [|done]. by repeat (case_decide; cbn). Qed.

(** A setter that changes nothing leaves the route as it is. *)
Lemma take_fields_eq new r : words_ok new ->
  fst (take_fields new r) = put_policytags (re_policytags new) (put_cost (re_cost new) (put_tag (re_tag new)
    (put_vifname (re_vifname new) (put_ifname (re_ifname new) (fst (set_nexthop (re_nh new) r)))))).
Proof.
  intros [Hc Ht]. unfold take_fields. destruct (set_nexthop (re_nh new) r) as [r1 b1]. cbn [fst].
  unfold set_ifname, set_vifname, set_tag, set_cost, set_policytags. rewrite (cost16_small _ Hc), (cost16_small _ Ht).
  destruct r1 as [a1 a2 a3 a4 a5 a6 a7 a8 a9 a10 a11]. do 5 (case_decide; cbn [fst re_ifname re_vifname re_tag re_cost re_policytags put_ifname put_vifname put_tag put_cost] in *); subst; done.
Qed.
Lemma take_fields_values new r : words_ok new -> same_fields new (fst (take_fields new r)).
Proof.
  intros Hw. rewrite take_fields_eq by done. unfold same_fields. cbn. rewrite set_nexthop_nh. by split_conj.
Qed.

(** ** The effect of an update on the database *)
(** Route [p] becomes [r'], and is announced if [b]. *)
Record changes (p : nat) (r' : route) (b : bool) s s' : Prop := {
  ch_inv : db_inv [] s';
  ch_ref : referred [] s';
  ch_routes : db_routes s' = db_routes s;
  ch_this : exists c, db_heap s' !! p = Some (put_ref_cnt c r');
  ch_other : forall q, q <> p -> db_heap s' !! q = db_heap s !! q;
  ch_rib : db_rib_routes s' = db_rib_routes s /\ db_rib_origin s' = db_rib_origin s /\ db_now s' = db_now s;
  ch_secs : forall o, (fun x => (expiry_secs x, deletion_secs x)) <$> (db_origins s' !! o)
    = (fun x => (expiry_secs x, deletion_secs x)) <$> (db_origins s !! o);
  ch_readers : num_readers (db_uq s') = num_readers (db_uq s);
  ch_queue : uq_list s' = uq_list s ++ (if b && negb (bool_decide (num_readers (db_uq s) = 0%nat)) then [p] else []) }.

(** A healthy state, with room in the queue. *)
Definition roomy s : Prop := Z.of_nat (length (uq_list s)) <= 65000.
Lemma roomy_fits s ex : roomy s -> (length ex <= 10)%nat -> fits ex s.
Proof.
  unfold roomy, MAX_QUEUED. intros Hr Hx p. rewrite occ_app. pose proof (occ_le p (uq_list s)). pose proof (occ_le p ex). unfold MAX_QUEUED. lia.
Qed.

Lemma put_ref_cnt_same r : put_ref_cnt (re_ref_cnt r) r = r.
Proof. by destruct r. Qed.
Lemma put_ref_cnt_twice c c' r : put_ref_cnt c (put_ref_cnt c' r) = put_ref_cnt c r.
Proof. done. Qed.

Lemma put_changes p r r' s : db_inv [] s -> referred [] s -> db_heap s !! p = Some r -> same_identity r r' ->
  changes p r' false s (put p r' s).
Proof.
  intros Hi Hr Hp Hs. split; try done.
  - by eapply put_same_inv.
  - intros q. rewrite put_lookup, (refs_same [] s) by done. case_decide; [subst; intros _; apply Hr; by exists r|apply Hr].
  - exists (re_ref_cnt r'). by rewrite put_lookup, decide_True, put_ref_cnt_same.
  - intros q Hq. by rewrite put_lookup, decide_False.
  - by rewrite app_nil_r.
Qed.

Lemma announce_changes p r s : db_inv [] s -> referred [] s -> roomy s -> db_heap s !! p = Some r ->
  exists s', push_update p s = Ok s' /\ changes p r true s s'.
Proof.
  intros Hi Hr Hb Hp. destruct (push_update_ok [] p r s Hi) as (s' & E & (q' & Eq & Hq & -> & Hc) & Hi' & Hr'); [by apply roomy_fits; cbn; [|lia]|done|apply Hr; by exists r|].
  eexists. split; [exact E|]. split; try done.
  - by apply Hr'.
  - eexists. by rewrite put_lookup, decide_True.
  - intros x Hx. by rewrite put_lookup, decide_False.
  - cbn. destruct (push_back_ok [] p (db_uq s) (di_queue _ _ Hi)) as (q2 & E2 & Hq2 & _ & Hrd & _). rewrite Eq in E2. injection E2 as <-.
    rewrite (co_num q' (qo_core q' Hq)), Hrd. symmetry. apply co_num. apply Hi.
  - unfold uq_list at 1. cbn [db_uq put with_heap with_uq]. rewrite Hc. f_equal. cbn [andb]. case_decide as E0.
    + by rewrite bool_decide_true.
    + by rewrite bool_decide_false.
Qed.

Lemma changes_trans p r1 r2 b s s1 s2 : changes p r1 false s s1 -> changes p r2 b s1 s2 -> changes p r2 b s s2.
Proof.
  intros [] []. split; try done.
  - congruence.
  - intros q Hq. by rewrite ch_other1, ch_other0.
  - destruct ch_rib0 as (?&?&?), ch_rib1 as (?&?&?). split_conj; congruence.
  - intros o. by rewrite ch_secs1.
  - congruence.
  - rewrite ch_queue1, ch_queue0, ch_readers0. cbn [andb]. by rewrite app_nil_r.
Qed.

Lemma changes_roomy p r s s' : changes p r false s s' -> roomy s -> roomy s'.
Proof. intros [] Hr. unfold roomy. rewrite ch_queue0. cbn. by rewrite app_nil_r. Qed.

Lemma changes_heap p r b s s' : changes p r b s s' -> exists c, db_heap s' !! p = Some (put_ref_cnt c r).
Proof. by intros []. Qed.

(** The route is announced or not. *)
Lemma announce_if (b : bool) p r s s0 : changes p r false s0 s -> roomy s0 ->
  exists s', (if b then push_update p s else Ok s) = Ok s' /\ changes p r b s0 s'.
Proof.
  intros Hc Hb. destruct b; [|by exists s]. destruct (changes_heap _ _ _ _ _ Hc) as [c Hp].
  destruct (announce_changes p (put_ref_cnt c r) s) as (s' & -> & Hc'); [apply Hc|apply Hc|by eapply changes_roomy|done|].
  exists s'. split; [done|]. eapply changes_trans; [exact Hc|]. destruct Hc'. split; try done.
Qed.

(** ** Updates by the origin of the route *)
Definition deletion_timer (x : RouteOrigin Net) (now : Z) : option RouteTimer :=
  Some (mkTimer (now + deletion_secs x * 1000 * MSEC) true CallDelete).
Definition expiry_timer (x : RouteOrigin Net) (now : Z) : option RouteTimer :=
  if decide (expiry_secs x = 0) then None else Some (mkTimer (now + expiry_secs x * 1000 * MSEC) true CallExpire).

Definition same_result (x : RouteOrigin Net) (now : Z) (new r : route) (cost : Z) (accepted is_policy_push updated : bool) : route * bool :=
  let r1 := fst (take_fields new r) in
  let updated := updated || snd (take_fields new r) in
  let r2 := if decide (cost = RIP_INFINITY) then
              if decide (re_cost r = RIP_INFINITY /\ timer_scheduled r1 = true) then r1 else set_timer (deletion_timer x now) r1
            else if is_policy_push && negb updated then r1 else set_timer (expiry_timer x now) r1 in
  let r3 := set_filtered (negb accepted) r2 in
  if accepted then (r3, updated || re_filtered r)
  else if re_filtered r then (r3, false)
  else if decide (cost = RIP_INFINITY) then (r3, updated)
  else (set_timer (deletion_timer x now) (fst (set_cost RIP_INFINITY r3)), true).

(** The origin of a changed route. *)
Lemma changes_origin p r b s s' o x : changes p r b s s' -> re_origin r = Some o -> db_origins s !! o = Some x ->
  exists x', db_origins s' !! o = Some x' /\ expiry_secs x' = expiry_secs x /\ deletion_secs x' = deletion_secs x.
Proof.
  intros Hc Ho Hx. pose proof (ch_secs _ _ _ _ _ Hc o) as Hs. rewrite Hx in Hs. cbn in Hs.
  destruct (db_origins s' !! o) as [x'|]; [|done]. cbn in Hs. injection Hs as ? ?. by exists x'.
Qed.

(** Setting a member, in a sequence of changes. *)
Lemma change_more p r r' s s0 f : changes p r false s0 s -> (forall c, f (put_ref_cnt c r) = put_ref_cnt c r') -> same_identity r r' ->
  forall r1, db_heap s !! p = Some r1 -> changes p r' false s0 (put p (f r1) s).
Proof.
  intros Hc Hf Hs r1 Hr1. destruct (changes_heap _ _ _ _ _ Hc) as [c Hp]. rewrite Hp in Hr1. injection Hr1 as <-. rewrite Hf.
  eapply changes_trans; [exact Hc|].
  assert (Hx : changes p (put_ref_cnt c r') false s (put p (put_ref_cnt c r') s)).
  { eapply put_changes; [apply Hc|apply Hc|exact Hp|]. destruct Hs as (?&?&?). by repeat split. }
  destruct Hx. split; try done.
Qed.

Lemma deletion_timer_changes p r s s0 o x : changes p r false s0 s -> re_origin r = Some o -> db_origins s0 !! o = Some x ->
  exists s', set_deletion_timer p s = Ok s' /\ changes p (set_timer (deletion_timer x (db_now s0)) r) false s0 s'.
Proof.
  intros Hc Eo Hx. destruct (changes_heap _ _ _ _ _ Hc) as [c Hp]. destruct (changes_origin _ _ _ _ _ _ _ Hc Eo Hx) as (x' & Hx' & _ & Ed).
  unfold set_deletion_timer, deref. rewrite Hp. cbn [result_bind re_origin put_ref_cnt]. rewrite Eo. unfold get_origin. rewrite Hx'. cbn [result_bind].
  eexists. split; [reflexivity|]. destruct (ch_rib _ _ _ _ _ Hc) as (_ & _ & En). unfold timer_after. rewrite En, Ed.
  apply (change_more p r _ s s0 (set_timer (deletion_timer x (db_now s0))) Hc); [done|by repeat split|done].
Qed.

Lemma expiry_timer_changes p r s s0 o x : changes p r false s0 s -> re_origin r = Some o -> db_origins s0 !! o = Some x ->
  exists s', set_expiry_timer p s = Ok s' /\ changes p (set_timer (expiry_timer x (db_now s0)) r) false s0 s'.
Proof.
  intros Hc Eo Hx. destruct (changes_heap _ _ _ _ _ Hc) as [c Hp]. destruct (changes_origin _ _ _ _ _ _ _ Hc Eo Hx) as (x' & Hx' & Ee & _).
  unfold set_expiry_timer, deref. rewrite Hp. cbn [result_bind re_origin put_ref_cnt]. rewrite Eo. unfold get_origin. rewrite Hx'. cbn [result_bind].
  eexists. split; [reflexivity|]. destruct (ch_rib _ _ _ _ _ Hc) as (_ & _ & En). unfold timer_after. rewrite En, Ee.
  apply (change_more p r _ s s0 (set_timer (expiry_timer x (db_now s0))) Hc); [done|by repeat split|done].
Qed.

Lemma set_cost_put_ref x c r : fst (set_cost x (put_ref_cnt c r)) = put_ref_cnt c (fst (set_cost x r)).
Proof. unfold set_cost. cbn. by case_decide. Qed.

Lemma update_same_ok p r o x new cost acc push upd s : db_inv [] s -> referred [] s -> roomy s -> db_heap s !! p = Some r ->
  re_origin r = Some o -> db_origins s !! o = Some x ->
  let res := same_result x (db_now s) new r cost acc push upd in
  exists s', update_same p new cost acc push upd s = Ok (s', snd res) /\ changes p (fst res) (snd res) s s'.
Proof.
  intros Hi Hr Hb Hp Eo Hx res. unfold update_same, deref. rewrite Hp. cbn [result_bind].
  pose proof (take_fields_place new r) as Hpl. unfold res, same_result. clear res.
  destruct (take_fields new r) as [r1 ch]. cbn [fst snd] in *. set (u := upd || ch). destruct Hpl as (P1 & P2 & P3 & P4 & P5).
  assert (C1 : changes p r1 false s (put p r1 s)) by (by eapply put_changes).
  set (r2 := if decide (cost = RIP_INFINITY) then
               if decide (re_cost r = RIP_INFINITY /\ timer_scheduled r1 = true) then r1 else set_timer (deletion_timer x (db_now s)) r1
             else if push && negb u then r1 else set_timer (expiry_timer x (db_now s)) r1).
  assert (H2 : exists s2, (if decide (cost = RIP_INFINITY) then
      if decide (re_cost r = RIP_INFINITY /\ timer_scheduled r1 = true) then Ok (put p r1 s) else set_deletion_timer p (put p r1 s)
    else if push && negb u then Ok (put p r1 s) else set_expiry_timer p (put p r1 s)) = Ok s2 /\ changes p r2 false s s2
    /\ re_origin r2 = Some o /\ re_filtered r2 = re_filtered r).
  { assert (Eo1 : re_origin r1 = Some o) by congruence. unfold r2. case_decide; [case_decide|destruct (push && negb u)].
    - exists (put p r1 s). done.
    - destruct (deletion_timer_changes p r1 _ s o x C1 Eo1 Hx) as (s2 & -> & C2). by exists s2.
    - exists (put p r1 s). done.
    - destruct (expiry_timer_changes p r1 _ s o x C1 Eo1 Hx) as (s2 & -> & C2). by exists s2. }
  destruct H2 as (s2 & -> & C2 & Eo2 & Ef). clearbody r2. cbn [result_bind]. destruct (changes_heap _ _ _ _ _ C2) as [c Hp2].
  unfold deref. rewrite Hp2. cbn [result_bind]. cbn [re_filtered put_ref_cnt]. rewrite Ef.
  set (r3 := set_filtered (negb acc) r2).
  assert (C3 : changes p r3 false s (put p (set_filtered (negb acc) (put_ref_cnt c r2)) s2)).
  { apply (change_more p r2 r3 s2 s (set_filtered (negb acc)) C2); [done|by repeat split|done]. }
  destruct acc; cbn [negb] in *.
  { destruct (announce_if (u || re_filtered r) p r3 _ s C3 Hb) as (s' & -> & C'). by exists s'. }
  destruct (re_filtered r); [by eexists|]. destruct (decide (cost = RIP_INFINITY)).
  { destruct (announce_if u p r3 _ s C3 Hb) as (s' & -> & C'). by exists s'. }
  cbn [result_bind]. rewrite put_lookup, decide_True by done. cbn [result_bind].
  set (r4 := fst (set_cost RIP_INFINITY r3)).
  assert (C4 : changes p r4 false s (put p (fst (set_cost RIP_INFINITY (set_filtered true (put_ref_cnt c r2)))) (put p (set_filtered true (put_ref_cnt c r2)) s2))).
  { apply (change_more p r3 r4 _ s (fun r => fst (set_cost RIP_INFINITY r)) C3); [intros; by rewrite set_cost_put_ref| |by rewrite put_lookup, decide_True].
    apply same_place_identity, set_cost_place. }
  assert (Eo4 : re_origin r4 = Some o) by (unfold r4; destruct (set_cost_place RIP_INFINITY r3) as (_ & -> & _); done).
  destruct (deletion_timer_changes p r4 _ s o x C4 Eo4 Hx) as (s5 & -> & C5). cbn [result_bind].
  destruct (announce_if true p _ s5 s C5 Hb) as (s' & -> & C'). by exists s'.
Qed.

(** ** Updates by another origin *)
(** RIP's decision: the cheaper route wins; at equal cost, a route that is at least halfway to its expiry gives way. *)
Definition replaces (x : RouteOrigin Net) (now : Z) (r new : route) : bool :=
  if re_cost new <? re_cost r then true
  else if re_cost r <? re_cost new then false
  else if decide (re_cost new = RIP_INFINITY) then false
  else if decide (expiry_secs x = 0) then false
  else match re_timer r with
       | None => false
       | Some t => (if t_expires t <=? now then 0 else t_expires t - now) <? expiry_secs x * 1000 * MSEC / 2
       end.

Lemma should_replace_eq r new o x s : re_origin r = Some o -> db_origins s !! o = Some x ->
  should_replace r new s = Ok (replaces x (db_now s) r new).
Proof.
  intros Eo Hx. unfold should_replace, replaces, get_origin, time_remaining. rewrite Eo, Hx. cbn [result_bind].
  destruct (re_cost new <? re_cost r), (re_cost r <? re_cost new); try done. case_decide; [done|]. case_decide; [done|].
  by destruct (re_timer r).
Qed.

(** The route after it has been taken over by origin [o]. *)
Definition taken_over (o : nat) (x : RouteOrigin Net) (now : Z) (new r : route) : route :=
  set_timer (expiry_timer x now) (put_origin (Some o) (fst (take_fields new r))).

Lemma set_origin_changes p r o x s s0 : changes p r false s0 s -> re_origin r <> Some o -> db_origins s !! o = Some x ->
  m_find (re_net r) (rtstore x) = None ->
  exists s', set_origin p o s = Ok s' /\ changes p (put_origin (Some o) r) false s0 s'.
Proof.
  intros Hc Hne Hx Hf. destruct (changes_heap _ _ _ _ _ Hc) as [c Hp].
  destruct (set_origin_ok [] p (put_ref_cnt c r) o x s (ch_inv _ _ _ _ _ Hc) Hp Hne Hx Hf) as (s' & -> & Hi & Hsr & Hh & _).
  exists s'. split; [done|]. eapply changes_trans; [exact Hc|]. pose proof (sr_uq _ _ Hsr) as Euq. destruct Hsr. split; try done.
  - intros q. rewrite Hh, (refs_same [] s) by done. intros Hq. apply (ch_ref _ _ _ _ _ Hc).
    destruct (decide (q = p)) as [->|]; [by eexists|]. by rewrite lookup_insert_ne in Hq.
  - rewrite Hh, lookup_insert_eq. by exists c.
  - intros q Hq. by rewrite Hh, lookup_insert_ne.
  - by rewrite Euq.
  - unfold uq_list. by rewrite Euq, app_nil_r.
Qed.

Lemma update_other_ok p r o o' x x' new acc s : db_inv [] s -> referred [] s -> roomy s -> db_heap s !! p = Some r ->
  re_origin r = Some o' -> o' <> o -> db_origins s !! o' = Some x' -> db_origins s !! o = Some x ->
  let b := acc && replaces x' (db_now s) r new in
  (b = true -> m_find (re_net r) (rtstore x) = None) ->
  exists s', update_other p new o acc false s = Ok (s', b)
    /\ if b then changes p (taken_over o x (db_now s) new r) true s s' else s' = s.
Proof.
  intros Hi Hr Hb Hp Eo Hne Hx' Hx b Hnone. unfold update_other, deref. unfold b in *. clear b.
  destruct acc; cbn [negb andb] in *; [|by exists s]. rewrite Hp. cbn [result_bind]. rewrite (should_replace_eq r new o' x') by done. cbn [result_bind].
  destruct (replaces x' (db_now s) r new); cbn [orb]; [|by exists s]. specialize (Hnone eq_refl).
  pose proof (take_fields_place new r) as (P1 & P2 & P3 & _). set (r1 := fst (take_fields new r)) in *.
  assert (C1 : changes p r1 false s (put p r1 s)) by (by eapply put_changes).
  destruct (set_origin_changes p r1 o x _ s C1) as (s2 & -> & C2); [congruence|done|by rewrite P1|]. cbn [result_bind].
  destruct (expiry_timer_changes p (put_origin (Some o) r1) s2 s o x C2 eq_refl Hx) as (s3 & -> & C3). cbn [result_bind].
  destruct (announce_if true p _ s3 s C3 Hb) as (s' & -> & C'). by exists s'.
Qed.

(** ** An update of a subnet that is in the table *)
Lemma route_new_words n nh i v c o t pt : words_ok (route_new (Net := Net) (Addr := Addr) n nh i v c o t pt).
Proof. split; cbn; apply cost16_range. Qed.

(** The outcome of [update_existing]: the filtered new route, and what becomes of the stored one. *)
Definition existing_outcome (p : nat) (r new : route) (o : nat) (acc push upd : bool) s s' (b : bool) : Prop :=
  (exists x, re_origin r = Some o /\ db_origins s !! o = Some x
     /\ let res := same_result x (db_now s) new r (re_cost new) acc push upd in b = snd res /\ changes p (fst res) (snd res) s s')
  \/ (exists o' x x', re_origin r = Some o' /\ o' <> o /\ db_origins s !! o' = Some x' /\ db_origins s !! o = Some x
     /\ b = acc && replaces x' (db_now s) r new
     /\ if b then changes p (taken_over o x (db_now s) new r) true s s' else s' = s).

(** The origin of the update still has a route for the subnet, and that of the table is not it. *)
Definition clash (n : Net) (o : nat) s : Prop :=
  exists p r x q, m_find n (db_routes s) = Some p /\ db_heap s !! p = Some r /\ re_origin r <> Some o
    /\ db_origins s !! o = Some x /\ m_find n (rtstore x) = Some q.

Lemma update_existing_ok p r nh i v c t o pt push upd s : no_policy_exception -> db_inv [] s -> referred [] s -> roomy s ->
  db_heap s !! p = Some r -> is_Some (db_origins s !! o) -> (re_origin r <> Some o -> upd = false) ->
  m_find (re_net r) (db_routes s) = Some p -> ~ clash (re_net r) o s ->
  exists new acc s' b, do_filtering run_filter (route_new (re_net r) nh i v c None t pt) = Ok (new, acc, re_cost new)
    /\ words_ok new /\ re_cost new <= RIP_INFINITY
    /\ update_existing run_filter p nh i v c t o pt push upd s = Ok (s', b) /\ existing_outcome p r new o acc push upd s s' b.
Proof.
  intros Hn Hi Hr Hb Hp [x Hx] Hu Hf Hcl.
  destruct (do_filtering_ok (route_new (re_net r) nh i v c None t pt) Hn (route_new_words _ _ _ _ _ _ _ _)) as (new & acc & E & _ & Hw & Hle).
  exists new, acc. unfold update_existing, deref. rewrite Hp. cbn [result_bind]. rewrite E. cbn [result_bind].
  destruct (di_heap _ _ Hi _ _ Hp) as (o' & x' & Eo & Hx' & _). destruct (decide (re_origin r = Some o)) as [Es|Es].
  - destruct (update_same_ok p r o x new (re_cost new) acc push upd s) as (s' & -> & C); try done.
    eexists _, _. split; [done|]. split; [done|]. split; [done|]. split; [done|]. left. by exists x.
  - rewrite (Hu Es). assert (o' <> o) by congruence.
    destruct (update_other_ok p r o o' x x' new acc s) as (s' & -> & C); try done.
    + intros _. destruct (m_find (re_net r) (rtstore x)) as [q|] eqn:Eq; [|done]. destruct Hcl. by exists p, r, x, q.
    + eexists _, _. split; [done|]. split; [done|]. split; [done|]. split; [done|]. right. by exists o', x, x'.
Qed.

(** ** An update of a subnet that is not in the table *)
(** Route [p], which becomes [r'], enters the table. *)
Record inserted (p : nat) (r' : route) s s' : Prop := {
  in_inv : db_inv [] s';
  in_ref : referred [] s';
  in_free : m_find (re_net r') (db_routes s) = None;
  in_routes : db_routes s' = m_insert (re_net r') p (db_routes s);
  in_this : exists c, db_heap s' !! p = Some (put_ref_cnt c r');
  in_other : forall q, q <> p -> db_heap s' !! q = db_heap s !! q;
  in_rib : db_rib_routes s' = db_rib_routes s /\ db_rib_origin s' = db_rib_origin s /\ db_now s' = db_now s;
  in_secs : forall o, (fun x => (expiry_secs x, deletion_secs x)) <$> (db_origins s' !! o)
    = (fun x => (expiry_secs x, deletion_secs x)) <$> (db_origins s !! o);
  in_queue : db_uq s' = db_uq s }.

Lemma inserted_table p r s s' : inserted p r s s' -> m_find (re_net r) (db_routes s') = Some p.
Proof.
  intros Hc. pose proof (di_table _ _ (in_inv _ _ _ _ Hc)) as Hs. rewrite (in_routes _ _ _ _ Hc) in *. clear - KeyOrderLaws0 Hs.
  apply find_elem; [done|]. induction (db_routes s) as [|[k v] m IH]; cbn in *; [by left|].
  destruct (key_ltb (re_net r) k); [by left|]. destruct (key_ltb k (re_net r)); [|by left]. right. apply IH.
  by apply sorted_cons in Hs as [? _].
Qed.

Lemma insert_new n nh i v c o t pt x s : db_inv [] s -> referred [] s -> roomy s -> db_origins s !! o = Some x ->
  m_find n (rtstore x) = None -> m_find n (db_routes s) = None ->
  let p := db_fresh s in
  let r := set_timer (expiry_timer x (db_now s)) (route_new n nh i v c (Some o) t pt) in
  exists s1, (y <-! new_entry (route_new n nh i v c (Some o) t pt) s ;;
              let '(s, p) := y in s <-! set_expiry_timer p s ;; s <-! insert_route n p s ;; Ok (s, p)) = Ok (s1, p)
    /\ inserted p r s s1.
Proof.
  intros Hi Hr Hb Hx Hf Ht p r.
  destruct (new_entry_ok [] o x (route_new n nh i v c (Some o) t pt) s Hi Hx Hf eq_refl eq_refl) as (s1 & -> & Hi1 & Hp0 & Hh & Er & Eq & E1 & E2 & E3 & Eo).
  cbn [result_bind]. fold p in Hh, Hp0 |- *. unfold set_expiry_timer, deref. rewrite Hh, lookup_insert_eq. cbn [result_bind re_origin route_new].
  unfold get_origin. rewrite Eo, lookup_insert_eq. cbn [result_bind expiry_secs].
  set (r0 := route_new n nh i v c (Some o) t pt) in *. unfold timer_after. rewrite E3.
  change (set_timer _ r0) with r. set (s2 := put p r s1).
  assert (Hp1 : db_heap s1 !! p = Some r0) by (by rewrite Hh, lookup_insert_eq).
  assert (Hi2 : db_inv [] s2) by (eapply put_same_inv; [done|exact Hp1|by repeat split]).
  destruct (insert_route_ok [] p r s2 Hi2) as (Ei & Hi3 & Hr3).
  { apply (fits_same _ s); [done|]. apply roomy_fits; [done|]. cbn. lia. }
  { unfold s2; by rewrite put_lookup, decide_True. }
  { change (db_routes s2) with (db_routes s1). by rewrite Er. }
  change (re_net r) with n in Ei, Hi3, Hr3. rewrite Ei. cbn [result_bind]. eexists. split; [reflexivity|]. change (re_net r) with n. split; try done.
  - apply Hr3. intros q Hq. unfold s2 in Hq. rewrite put_lookup in Hq. destruct (decide (q = p)); [by left|right].
    rewrite Hh, lookup_insert_ne in Hq by done. rewrite (refs_same [] s); [by apply Hr|done|done].
  - cbn. by rewrite Er.
  - eexists. by rewrite put_lookup, decide_True.
  - intros q Hq. rewrite put_lookup, decide_False by done. unfold s2. cbn. by rewrite Hh, !lookup_insert_ne.
  - intros o1. cbn. rewrite Eo. destruct (decide (o1 = o)) as [->|]; [by rewrite lookup_insert_eq, Hx|by rewrite lookup_insert_ne].
Qed.

Lemma insert_old p r s : db_inv [] s -> referred [] s -> roomy s -> db_heap s !! p = Some r -> m_find (re_net r) (db_routes s) = None ->
  exists s1, insert_route (re_net r) p s = Ok s1 /\ inserted p r s s1.
Proof.
  intros Hi Hr Hb Hp Hf. destruct (insert_route_ok [] p r s Hi) as (-> & Hi3 & Hr3); [apply roomy_fits; [done|cbn; lia]|done|done|].
  eexists. split; [reflexivity|]. split; try done.
  - apply Hr3. intros q Hq. right. by apply Hr.
  - eexists. by rewrite put_lookup, decide_True.
  - intros q Hq. by rewrite put_lookup, decide_False.
Qed.

(** The filters run on the route that has just been inserted. *)
Lemma filter_inserted p r s s1 : no_policy_exception -> inserted p r s s1 -> words_ok r ->
  exists r1 r' acc, deref p s1 = Ok r1 /\ do_filtering run_filter r1 = Ok (r', acc, re_cost r') /\ same_place r1 r' /\ words_ok r'
    /\ re_cost r' <= RIP_INFINITY /\ (exists c, r1 = put_ref_cnt c r)
    /\ changes p (set_filtered (negb acc) r') false s1 (put p (set_filtered (negb acc) r') s1).
Proof.
  intros Hn Hc Hw. destruct (in_this _ _ _ _ Hc) as [c Hp].
  destruct (do_filtering_ok (put_ref_cnt c r) Hn Hw) as (r' & acc & E & Hpl & Hw' & Hle). exists (put_ref_cnt c r), r', acc.
  unfold deref. rewrite Hp. split; [done|]. split; [done|]. split; [done|]. split; [done|]. split; [done|]. split; [by exists c|].
  eapply put_changes; [apply Hc|apply Hc|exact Hp|]. destruct Hpl as (?&?&?&_). by repeat split.
Qed.

Inductive update_outcome (n : Net) (nh : Addr) (i v : string) (c t : Z) (o : nat) (pt : PolicyTags) (push : bool) s : db -> bool -> Prop :=
  (** The subnet is in the table. *)
  | UpdateExisting p r new acc s' b : m_find n (db_routes s) = Some p -> db_heap s !! p = Some r ->
      do_filtering run_filter (route_new n nh i v c None t pt) = Ok (new, acc, re_cost new) -> words_ok new -> re_cost new <= RIP_INFINITY ->
      existing_outcome p r new o acc push false s s' b -> update_outcome n nh i v c t o pt push s s' b
  (** The subnet is new. *)
  | UpdateNew x s1 r1 r acc s' b : db_origins s !! o = Some x -> m_find n (rtstore x) = None ->
      inserted (db_fresh s) (set_timer (expiry_timer x (db_now s)) (route_new n nh i v c (Some o) t pt)) s s1 ->
      (exists k, r1 = put_ref_cnt k (set_timer (expiry_timer x (db_now s)) (route_new n nh i v c (Some o) t pt))) ->
      do_filtering run_filter r1 = Ok (r, acc, re_cost r) -> same_place r1 r -> words_ok r -> re_cost r <= RIP_INFINITY ->
      b = acc && negb (bool_decide (re_cost r = RIP_INFINITY)) ->
      changes (db_fresh s) (set_filtered (negb acc) r) b s1 s' -> update_outcome n nh i v c t o pt push s s' b
  (** The origin still has a route for the subnet, which has left the table: it returns as it was, and the update is lost
      if its cost is infinity. *)
  | UpdateDead p x r0 s1 r1 r acc s' : db_origins s !! o = Some x -> m_find n (rtstore x) = Some p -> db_heap s !! p = Some r0 ->
      inserted p r0 s s1 -> (exists k, r1 = put_ref_cnt k r0) -> do_filtering run_filter r1 = Ok (r, acc, re_cost r) -> same_place r1 r ->
      words_ok r -> re_cost r = RIP_INFINITY -> changes p (set_filtered (negb acc) r) false s1 s' ->
      update_outcome n nh i v c t o pt push s s' false
  | UpdateRevived p x r0 s1 r1 r acc0 s2 r2 new acc s' b : db_origins s !! o = Some x -> m_find n (rtstore x) = Some p ->
      db_heap s !! p = Some r0 -> inserted p r0 s s1 -> (exists k, r1 = put_ref_cnt k r0) ->
      do_filtering run_filter r1 = Ok (r, acc0, re_cost r) -> same_place r1 r -> words_ok r -> re_cost r < RIP_INFINITY ->
      changes p (set_filtered (negb acc0) r) false s1 s2 -> db_heap s2 !! p = Some r2 ->
      do_filtering run_filter (route_new n nh i v (re_cost r) None t pt) = Ok (new, acc, re_cost new) -> words_ok new -> re_cost new <= RIP_INFINITY ->
      existing_outcome p r2 new o acc push acc0 s2 s' b -> update_outcome n nh i v c t o pt push s s' b.

Lemma update_route_ok n nh i v c t o pt push s : no_policy_exception -> db_inv [] s -> referred [] s -> roomy s ->
  (forall p r, db_heap s !! p = Some r -> words_ok r) ->
  t <= 0xffff -> is_Some (db_origins s !! o) -> ~ clash n o s ->
  exists s' b, update_route run_filter n nh i v c t o pt push s = Ok (s', b) /\ update_outcome n nh i v c t o pt push s s' b.
Proof.
  intros Hn Hi Hr Hb Hw Ht [x Hx] Hcl. unfold update_route. rewrite (proj2 (Z.ltb_ge _ _)) by done.
  destruct (m_find n (db_routes s)) as [p|] eqn:Ef.
  { destruct (find_routes _ _ _ _ Hi Ef) as (r & Hp & <-).
    destruct (update_existing_ok p r nh i v c t o pt push false s) as (new & acc & s' & b & E1 & Hwn & Hle & E2 & Ho); try done.
    exists s', b. split; [done|]. by eapply UpdateExisting. }
  unfold origin_find_route, get_origin. rewrite Hx. cbn [result_bind]. destruct (m_find n (rtstore x)) as [p|] eqn:Es.
  - destruct (di_store _ _ Hi o x n p Hx) as (r0 & Hp & <- & Eo); [by apply (store_find o x s [])|].
    destruct (insert_old p r0 s Hi Hr Hb Hp Ef) as (s1 & -> & Hin). cbn [result_bind].
    destruct (filter_inserted p r0 s s1 Hn Hin (Hw _ _ Hp)) as (r1 & r & acc0 & -> & E1 & Hpl & Hwr & Hle & Hk & C). cbn [result_bind].
    rewrite E1. cbn [result_bind]. destruct (decide (re_cost r = RIP_INFINITY)) as [Ei|Ei].
    { eexists _, _. split; [reflexivity|]. by eapply UpdateDead. }
    set (s2 := put p _ s1) in *. set (r2 := set_filtered (negb acc0) r) in *.
    assert (Hp2 : db_heap s2 !! p = Some r2) by (unfold s2; by rewrite put_lookup, decide_True).
    assert (En : re_net r2 = re_net r0) by (destruct Hk as [k ->], Hpl as (Ep & _); cbn; rewrite Ep; done).
    assert (Eo2 : re_origin r2 = Some o) by (destruct Hk as [k ->], Hpl as (_ & Ep & _); cbn; rewrite Ep; done).
    destruct (update_existing_ok p r2 nh i v (re_cost r) t o pt push acc0 s2) as (new & acc & s' & b & E2 & Hwn & Hle2 & E3 & Ho); try done.
    + apply C.
    + apply C.
    + eapply changes_roomy; [exact C|]. unfold roomy, uq_list. by rewrite (in_queue _ _ _ _ Hin).
    + destruct (di_heap _ _ (ch_inv _ _ _ _ _ C) _ _ Hp2) as (o' & y & E' & Hy & _). rewrite Eo2 in E'. injection E' as <-. by exists y.
    + rewrite En. rewrite (ch_routes _ _ _ _ _ C). by eapply inserted_table.
    + intros (p' & r' & y & q & Hf' & Hh' & Hno & _). rewrite En, (ch_routes _ _ _ _ _ C), (inserted_table _ _ _ _ Hin) in Hf'.
      injection Hf' as <-. congruence.
    + rewrite En in E2. exists s', b. split; [done|]. eapply UpdateRevived; try done. lia.
  - destruct (insert_new n nh i v c o t pt x s Hi Hr Hb Hx Es Ef) as (s1 & E & Hin).
    destruct (new_entry _ s) as [[sa pa]|]; [|done]. cbn [result_bind] in E |- *.
    destruct (set_expiry_timer pa sa) as [sb|]; [|done]. cbn [result_bind] in E |- *.
    destruct (insert_route n pa sb) as [sc|]; [|done]. cbn [result_bind] in E |- *. injection E as -> ->.
    destruct (filter_inserted _ _ s s1 Hn Hin) as (r1 & r & acc & -> & E1 & Hpl & Hwr & Hle & Hk & C); [split; cbn; apply cost16_range|].
    cbn [result_bind]. rewrite E1. cbn [result_bind].
    assert (Hb1 : roomy s1) by (unfold roomy, uq_list; by rewrite (in_queue _ _ _ _ Hin)).
    destruct (announce_if (acc && negb (bool_decide (re_cost r = RIP_INFINITY))) _ _ _ s1 C Hb1) as (s' & E2 & C').
    exists s', (acc && negb (bool_decide (re_cost r = RIP_INFINITY))). split; [|by eapply UpdateNew].
    destruct acc, (bool_decide (re_cost r = RIP_INFINITY)); cbn [negb orb andb] in *; rewrite ?E2; cbn [result_bind]; congruence.
Qed.
End Update.
