(* ===== verification/RipDBRun.v ===== *)
(** * Runs of the route database of RIP

    [db_good] is the invariant of the database between two operations.  An operation
    keeps it and does not fail when the caller respects [op_ok]: tags of 16 bits,
    existing origins, room in the update queue, and no [clash]. *)

From Stdlib Require Import ZArith Lia String.
From stdpp Require Import base tactics option numbers list gmap strings.
From S2P Require Import Prelude OMap RipQueue RipQueueProps RipQueueRun RipQueueClaims RipRoute RipDB RipDBProps RipDBUpdate.
Local Open Scope Z_scope.
Local Open Scope xorp_scope.
#[local] Arguments contents : simpl never.

Section Run.
Context {Net Addr : Type} `{KeyOrder Net, !KeyOrderLaws Net, !EqDecision Net, !EqDecision Addr, !NextHop Addr}.
Abbreviation route := (RouteEntry Net Addr).
Abbreviation db := (RouteDB Net Addr).
Implicit Types (s : db) (r : route).
Context (run_filter : filter_kind -> route_vars Net Addr -> option (filter_result Addr)).
Context (Hpolicy : no_policy_exception run_filter).

(** ** The invariant between operations *)
Definition cost_ok r : Prop := words_ok r /\ re_cost r <= RIP_INFINITY.

Record db_good s : Prop := {
  dg_inv : db_inv [] s;
  dg_ref : referred [] s;
  dg_cost : forall p r, db_heap s !! p = Some r -> cost_ok r;
  dg_timer : forall p r, db_heap s !! p = Some r -> timer_scheduled r = true -> m_find (re_net r) (db_routes s) = Some p;
  dg_rib : m_sorted (db_rib_routes s) /\ forall n r, (n, r) ∈ db_rib_routes s -> re_net r = n /\ words_ok r;
  dg_rib_origin : db_rib_routes s <> [] -> exists o, db_rib_origin s = Some o /\ is_Some (db_origins s !! o) }.

Lemma origin_kept s s' o : (fun x : RouteOrigin Net => (expiry_secs x, deletion_secs x)) <$> (db_origins s' !! o)
    = (fun x => (expiry_secs x, deletion_secs x)) <$> (db_origins s !! o) -> is_Some (db_origins s !! o) -> is_Some (db_origins s' !! o).
Proof. intros E [x Hx]. rewrite Hx in E. destruct (db_origins s' !! o); [by eexists|done]. Qed.

Lemma changes_good p r b s s' : db_good s -> changes p r b s s' -> m_find (re_net r) (db_routes s) = Some p -> cost_ok r -> db_good s'.
Proof.
  intros Hg Hc Hf Hr. destruct Hg, Hc as [? ? Er [c Hp] Ho (E1 & E2 & E3) Hs _ _]. split; try done.
  - intros q x Hq. destruct (decide (q = p)) as [->|]; [rewrite Hp in Hq; injection Hq as <-; done|]. rewrite Ho in Hq by done. eauto.
  - intros q x Hq Ht. rewrite Er. destruct (decide (q = p)) as [->|]; [rewrite Hp in Hq; injection Hq as <-; done|]. rewrite Ho in Hq by done. eauto.
  - by rewrite E1.
  - rewrite E1, E2. intros Hne. destruct (dg_rib_origin0 Hne) as (o & ? & ?). exists o. split; [done|]. apply (origin_kept s s'); [apply Hs|done].
Qed.

Lemma inserted_good p r0 r b s s1 s' : db_good s -> inserted p r0 s s1 -> changes p r b s1 s' -> re_net r = re_net r0 -> cost_ok r -> db_good s'.
Proof.
  intros Hg Hin Hc En Hr. pose proof (inserted_table _ _ _ _ Hin) as Hf. destruct Hg.
  destruct Hin as [_ _ Hno Er1 _ Ho1 (F1 & F2 & F3) Hs1 _], Hc as [? ? Er [c Hp] Ho (E1 & E2 & E3) Hs _ _].
  assert (Hq : forall q x, db_heap s' !! q = Some x -> q <> p -> db_heap s !! q = Some x).
  { intros q x Hx Hne. by rewrite <- Ho1, <- Ho. }
  split; try done.
  - intros q x Hx. destruct (decide (q = p)) as [->|]; [rewrite Hp in Hx; injection Hx as <-; done|]. eauto.
  - intros q x Hx Ht. rewrite Er. destruct (decide (q = p)) as [->|]; [rewrite Hp in Hx; injection Hx as <-; cbn; by rewrite En|].
    rewrite Er1, find_insert by (apply dg_inv0). pose proof (dg_timer0 q x (Hq _ _ Hx n) Ht) as Hm.
    destruct (decide (re_net x = re_net r0)) as [Ex|]; [|done]. congruence.
  - by rewrite E1, F1.
  - rewrite E1, E2, F1, F2. intros Hne. destruct (dg_rib_origin0 Hne) as (o & ? & ?). exists o. split; [done|].
    apply (origin_kept s1 s'); [apply Hs|]. apply (origin_kept s s1); [apply Hs1|done].
Qed.

(** ** Updates *)
Lemma same_result_cost x now new r c acc push upd : cost_ok new -> cost_ok (fst (same_result x now new r c acc push upd)).
Proof.
  intros [Hw Hle]. unfold same_result. pose proof (take_fields_values new r Hw) as (_ & _ & _ & Et & Ec & _).
  set (r1 := fst (take_fields new r)) in *.
  assert (H1 : cost_ok r1) by (unfold cost_ok, words_ok in *; rewrite Et, Ec; done).
  match goal with |- context [set_filtered _ ?r2] => set (r2' := r2) end.
  assert (H2 : cost_ok r2') by (unfold r2'; repeat case_decide; repeat (destruct (_ && _)); done).
  clearbody r2'. destruct acc; [done|]. destruct (re_filtered r); [done|]. case_decide; [done|]. cbn [fst].
  unfold cost_ok, words_ok. cbn [set_timer re_cost re_tag]. rewrite set_cost_cost. split; [|by vm_compute].
  split; [apply cost16_range|]. unfold set_cost. case_decide; cbn; apply H2.
Qed.

Lemma same_result_net x now new r c acc push upd : re_net (fst (same_result x now new r c acc push upd)) = re_net r.
Proof.
  unfold same_result. pose proof (take_fields_place new r) as (En & _). set (r1 := fst (take_fields new r)) in *.
  match goal with |- context [set_filtered _ ?r2] => set (r2' := r2) end.
  assert (H2 : re_net r2' = re_net r) by (unfold r2'; repeat case_decide; repeat (destruct (_ && _)); done).
  clearbody r2'. destruct acc; [done|]. destruct (re_filtered r); [done|]. case_decide; [done|]. cbn [fst set_timer re_net].
  destruct (set_cost_place RIP_INFINITY (set_filtered (negb false) r2')) as (-> & _). done.
Qed.

Lemma taken_over_ok o x now new r : cost_ok new -> cost_ok (taken_over o x now new r) /\ re_net (taken_over o x now new r) = re_net r.
Proof.
  intros [Hw Hle]. pose proof (take_fields_values new r Hw) as (_ & _ & _ & Et & Ec & _). pose proof (take_fields_place new r) as (En & _).
  unfold taken_over, cost_ok, words_ok in *. cbn. rewrite Et, Ec. done.
Qed.

Lemma existing_good p r new o acc push upd s s' b : db_good s -> db_heap s !! p = Some r -> m_find (re_net r) (db_routes s) = Some p ->
  cost_ok new -> existing_outcome p r new o acc push upd s s' b -> db_good s'.
Proof.
  intros Hg Hp Hf Hn [(x & _ & _ & _ & C)|(o' & x & x' & _ & _ & _ & _ & _ & C)].
  - eapply changes_good; [exact Hg|exact C|by rewrite same_result_net|by apply same_result_cost].
  - destruct b; [|by rewrite C]. destruct (taken_over_ok o x (db_now s) new r Hn) as [? En].
    eapply changes_good; [exact Hg|exact C|by rewrite En|done].
Qed.

Lemma outcome_good n nh i v c t o pt push s s' b : db_good s -> update_outcome run_filter n nh i v c t o pt push s s' b -> db_good s'.
Proof.
  intros Hg Hu. pose proof (dg_inv s Hg) as Hi.
  destruct Hu as [p r new acc s' b Hf Hp _ Hw Hle Ho|x s1 r1 r acc s' b Hx Hf Hin [k ->] _ Hpl Hw Hle _ C
    |p x r0 s1 r1 r acc s' Hx Hf Hp Hin [k ->] _ Hpl Hw Hle C
    |p x r0 s1 r1 r acc0 s2 r2 new acc s' b Hx Hf Hp Hin [k ->] _ Hpl Hw Hlt C Hp2 _ Hwn Hle Ho].
  - destruct (find_routes _ _ _ _ Hi Hf) as (r' & Hp' & En). rewrite Hp in Hp'. injection Hp' as <-.
    eapply existing_good; [done|exact Hp|by rewrite En|by split|exact Ho].
  - eapply inserted_good; [done|exact Hin|exact C| |by split]. destruct Hpl as (En & _). exact En.
  - eapply inserted_good; [done|exact Hin|exact C| |split; [done|cbn; lia]]. destruct Hpl as (En & _). exact En.
  - destruct Hpl as (En & _). assert (Hg2 : db_good s2).
    { eapply inserted_good; [done|exact Hin|exact C|exact En|]. split; [done|]. cbn. lia. }
    destruct (ch_this _ _ _ _ _ C) as [c2 Hc2]. rewrite Hp2 in Hc2. injection Hc2 as ->.
    eapply existing_good; [done|exact Hp2| |by split|exact Ho]. cbn. rewrite (ch_routes _ _ _ _ _ C), En. cbn. by eapply inserted_table.
Qed.

Lemma update_good n nh i v c t o pt push s : db_good s -> roomy s -> t <= 0xffff -> is_Some (db_origins s !! o) -> ~ clash n o s ->
  exists s' b, update_route run_filter n nh i v c t o pt push s = Ok (s', b) /\ db_good s'
    /\ update_outcome run_filter n nh i v c t o pt push s s' b.
Proof.
  intros Hg Hb Ht Ho Hc. destruct (update_route_ok run_filter n nh i v c t o pt push s) as (s' & b & E & Hu); try done; [apply Hg..| |].
  - intros p r Hp. by apply (dg_cost s Hg p r).
  - exists s', b. split; [done|]. split; [|done]. by eapply outcome_good.
Qed.

(** ** References that are dropped *)
(** The part of the invariant that does not count references. *)
Record fair s : Prop := {
  fa_cost : forall p r, db_heap s !! p = Some r -> cost_ok r;
  fa_timer : forall p r, db_heap s !! p = Some r -> timer_scheduled r = true -> m_find (re_net r) (db_routes s) = Some p;
  fa_rib : m_sorted (db_rib_routes s) /\ forall n r, (n, r) ∈ db_rib_routes s -> re_net r = n /\ words_ok r;
  fa_rib_origin : db_rib_routes s <> [] -> exists o, db_rib_origin s = Some o /\ is_Some (db_origins s !! o) }.

Lemma good_fair s : db_good s -> fair s.
Proof. by intros []. Qed.
Lemma fair_good s : db_inv [] s -> referred [] s -> fair s -> db_good s.
Proof. intros ? ? []. by split. Qed.

Lemma shrunk_fair s s' : fair s -> same_rest s s' -> shrinks s s' -> fair s'.
Proof.
  intros [] Hs Hk. pose proof (sr_origins _ _ Hs) as Ho. destruct Hs as [Er _ E1 E2 _ _ _]. split.
  - intros p r Hp. destruct (Hk _ _ Hp) as (r0 & c & H0 & ->). by apply fa_cost0 in H0.
  - intros p r Hp Ht. destruct (Hk _ _ Hp) as (r0 & c & H0 & ->). rewrite Er. by apply (fa_timer0 p r0).
  - by rewrite E1.
  - rewrite E1, E2. intros Hne. destruct (fa_rib_origin0 Hne) as (o & ? & ?). exists o. split; [done|]. apply (origin_kept s s'); [apply Ho|done].
Qed.

(** The queue drops the references [d]. *)
Lemma drop_good q' d s : db_good s -> roomy s -> queue_ok q' -> d ++ contents (update_blocks q') = uq_list s ->
  exists s', release_all d (with_uq q' s) = Ok s' /\ db_good s' /\ same_rest (with_uq q' s) s'.
Proof.
  intros Hg Hb Hq Hd. destruct (with_uq_inv [] d q' s (dg_inv s Hg) Hq) as [Hi Hr].
  { intros p. rewrite <- Hd, app_nil_r, !occ_app. lia. }
  destruct (release_all_ok d [] (with_uq q' s)) as (s' & E & Hi' & Hs & Hr' & Hk); rewrite ?app_nil_r; try done.
  { intros p. pose proof (occ_le p (uq_list s)) as Hle. rewrite <- Hd, occ_app, length_app in Hle. unfold roomy in Hb.
    rewrite <- Hd, length_app in Hb. rewrite occ_app. change (uq_list (with_uq q' s)) with (contents (update_blocks q')). unfold MAX_QUEUED. lia. }
  exists s'. split; [done|]. split; [|done]. apply fair_good; [done| |].
  - apply Hr'. rewrite app_nil_r. apply Hr, Hg.
  - eapply shrunk_fair; [|exact Hs|exact Hk]. destruct (good_fair s Hg). by split.
Qed.

(** ** Timers *)
Lemma rib_good rr (push : bool) s : db_good s -> roomy s -> m_find (re_net rr) (db_rib_routes s) = Some rr ->
  (forall o, db_rib_origin s = Some o -> ~ clash (re_net rr) o s) ->
  exists s', update_rib_route run_filter rr push s = Ok s' /\ db_good s'.
Proof.
  intros Hg Hb Hf Hcl. destruct (dg_rib s Hg) as [Hs Hr]. apply find_elem in Hf; [|done].
  destruct (dg_rib_origin s Hg) as (o & Eo & Ho); [by intros E; rewrite E in Hf; apply elem_of_nil in Hf|].
  destruct (Hr _ _ Hf) as [_ [_ Ht]]. unfold update_rib_route. rewrite Eo.
  destruct (update_good (re_net rr) (re_nh rr) (re_ifname rr) (re_vifname rr) (re_cost rr) (re_tag rr) o (re_policytags rr) push s) as (s' & b & -> & Hg' & _);
    [done|done|lia|done|by apply Hcl|]. by exists s'.
Qed.

Lemma delete_good p r s : db_good s -> roomy s -> db_heap s !! p = Some r -> timer_scheduled r = false -> m_find (re_net r) (db_routes s) = Some p ->
  exists s', delete_route run_filter p s = Ok s' /\ db_good s'
    /\ (m_find (re_net r) (db_rib_routes s) = None -> db_routes s' = m_erase (re_net r) (db_routes s)).
Proof.
  intros Hg Hb Hp Ht Hf. pose proof (dg_inv s Hg) as Hi. unfold delete_route, deref. rewrite Hp. cbn [result_bind]. rewrite Hf.
  destruct (erase_route_inv [] (re_net r) p s Hi Hf) as [Hi1 Hr1]. set (s1 := with_routes _ s) in *.
  destruct (release_ok [] p s1 Hi1) as (s2 & -> & Hi2 & Hs2 & Hr2 & Hk2 & _).
  { apply (fits_same _ s); [done|]. apply roomy_fits; [done|]. cbn. lia. }
  cbn [result_bind]. assert (Hg2 : db_good s2).
  { apply fair_good; [done|apply Hr2, Hr1, Hg|]. apply (shrunk_fair s1); [|done|done]. destruct (good_fair s Hg). split; try done.
    intros q x Hq Hx. cbn [s1 with_routes db_routes]. apply find_elem; [apply erase_sorted, Hi|]. apply erase_elem; [apply Hi|].
    specialize (fa_timer0 q x Hq Hx). split; [|by apply find_elem in fa_timer0; [|apply Hi]].
    intros En. rewrite En, Hf in fa_timer0. injection fa_timer0 as ->. change (db_heap s1) with (db_heap s) in Hq. congruence. }
  pose proof (sr_rib _ _ Hs2) as Erib. change (db_rib_routes s1) with (db_rib_routes s) in Erib. rewrite Erib.
  destruct (m_find (re_net r) (db_rib_routes s)) as [rr|] eqn:Er.
  2:{ exists s2. split; [done|]. split; [done|]. intros _. apply (sr_routes _ _ Hs2). }
  rewrite <- Erib in Er. assert (En : re_net rr = re_net r).
  { destruct (dg_rib s2 Hg2) as [Hs Hx]. apply find_elem in Er; [|done]. by apply Hx in Er as [? _]. }
  destruct (rib_good rr false s2) as (s' & E' & Hg'); [done| |by rewrite En| |by exists s'].
  - unfold roomy, uq_list. rewrite (sr_uq _ _ Hs2). apply Hb.
  - intros o _ (q & y & z & w & Hq & _). rewrite En, (sr_routes _ _ Hs2) in Hq. cbn [s1 with_routes db_routes] in Hq.
    apply find_elem in Hq; [|apply erase_sorted, Hi]. apply erase_elem in Hq as [? _]; [done|apply Hi].
Qed.

(** The timer that runs out is that of a route of the table. *)
Lemma fire_good p r s : db_good s -> roomy s -> db_heap s !! p = Some r -> exists s', fire_timer run_filter p s = Ok s' /\ db_good s'.
Proof.
  intros Hg Hb Hp. unfold fire_timer, deref. rewrite Hp. cbn [result_bind]. destruct (re_timer r) as [t|] eqn:Et; [|by exists s].
  destruct (t_scheduled t && (t_expires t <=? db_now s)) eqn:Ed; [|by exists s]. apply andb_true_iff in Ed as [Hsch _].
  assert (Hf : m_find (re_net r) (db_routes s) = Some p) by (apply (dg_timer s Hg p r Hp); unfold timer_scheduled; by rewrite Et).
  set (r1 := set_timer _ r). assert (C : changes p r1 false s (put p r1 s)) by (eapply put_changes; [apply Hg|apply Hg|exact Hp|by repeat split]).
  assert (Hg1 : db_good (put p r1 s)) by (eapply changes_good; [exact Hg|exact C|done|apply (dg_cost s Hg p r Hp)]).
  assert (Hp1 : db_heap (put p r1 s) !! p = Some r1) by (by rewrite put_lookup, decide_True).
  destruct (t_call t).
  - unfold expire_route, deref. rewrite Hp1. cbn [result_bind]. destruct (di_heap _ _ (dg_inv s Hg) _ _ Hp) as (o & x & Eo & Hx & _).
    change (re_origin r1) with (re_origin r). rewrite Eo. destruct (dg_cost s Hg p r Hp) as [[_ Hrt] _].
    edestruct (update_good (re_net r1) (re_nh r1) (re_ifname r1) (re_vifname r1) RIP_INFINITY (re_tag r1) o (re_policytags r1) false (put p r1 s))
      as (s' & b & -> & Hg' & _); [done|by eapply changes_roomy|cbn; lia|by exists x| |by exists s'].
    intros (q & y & z & w & Hq & Hy & Hne & _). change (db_routes (put p r1 s)) with (db_routes s) in Hq. cbn [r1 set_timer re_net] in Hq.
    rewrite Hf in Hq. injection Hq as <-. rewrite Hp1 in Hy. injection Hy as <-. done.
  - destruct (delete_good p r1 (put p r1 s)) as (s' & -> & Hg' & _); [done|by eapply changes_roomy|done|done|done|by exists s'].
Qed.

(** ** Readers, flushing, origins and routes of the RIB *)
Definition reader_used (id : nat) s : Prop := exists rp, readers (db_uq s) !! id = Some (Some rp).
(** The reader has read before. *)
Definition reader_settled (id : nat) s : Prop :=
  exists rp, readers (db_uq s) !! id = Some (Some rp) /\ settled (update_blocks (db_uq s)) rp.

Lemma log_contents (d : list nat) (q : UpdateQueue nat) : lq_log (absq d q) = d ++ contents (update_blocks q).
Proof. done. Qed.

Lemma create_reader_good s : db_good s -> exists s' id, create_reader s = Ok (s', id) /\ db_good s'.
Proof.
  intros Hg. unfold create_reader. destruct (add_reader_ok [] (db_uq s) (di_queue _ _ (dg_inv s Hg))) as (q' & id & -> & Hq & Ha & _).
  cbn [result_bind fst snd]. exists (with_uq q' s), id. split; [done|].
  assert (Ec : contents (update_blocks q') = uq_list s).
  { assert (E : lq_log (absq [] q') = lq_log (fst (log_add_reader (absq [] (db_uq s))))) by (by rewrite Ha). exact E. }
  destruct (with_uq_inv [] [] q' s (dg_inv s Hg) Hq) as [Hi Hr]; [intros p; by rewrite Ec|].
  apply fair_good; [done|apply Hr, Hg|]. destruct (good_fair s Hg). by split.
Qed.

Lemma destroy_reader_good id s : db_good s -> roomy s -> reader_used id s -> exists s', destroy_reader id s = Ok s' /\ db_good s'.
Proof.
  intros Hg Hb [rp Hi]. unfold destroy_reader.
  destruct (remove_reader_ok [] (db_uq s) id rp (di_queue _ _ (dg_inv s Hg)) Hi) as (q' & d & -> & Hq & Ha & _). cbn [result_bind fst snd].
  apply (f_equal lq_log) in Ha. destruct (drop_good q' d s Hg Hb Hq Ha) as (s' & E & Hg' & _). by exists s'.
Qed.

Lemma uq_get_good id s : db_good s -> roomy s -> reader_used id s -> exists s' p, uq_get id s = Ok (s', p) /\ db_good s' /\ reader_settled id s'.
Proof.
  intros Hg Hb [rp Hi]. unfold uq_get.
  destruct (read_ok [] (db_uq s) id rp (di_queue _ _ (dg_inv s Hg)) Hi) as (q' & d & u & -> & Hq & Ha & _ & _ & rp' & Hr & Hs). cbn [result_bind].
  apply (f_equal lq_log) in Ha. destruct (drop_good q' d s Hg Hb Hq Ha) as (s' & -> & Hg' & Hsr). exists s', u. split; [done|]. split; [done|].
  exists rp'. by rewrite (sr_uq _ _ Hsr).
Qed.
Lemma uq_next_good id s : db_good s -> roomy s -> reader_settled id s -> exists s' p, uq_next id s = Ok (s', p) /\ db_good s' /\ reader_settled id s'.
Proof.
  intros Hg Hb (rp & Hi & Hst). unfold uq_next.
  destruct (next_ok [] (db_uq s) id rp (di_queue _ _ (dg_inv s Hg)) Hi Hst) as (q' & d & u & -> & Hq & Ha & _ & _ & rp' & Hr & Hs). cbn [result_bind].
  apply (f_equal lq_log) in Ha. destruct (drop_good q' d s Hg Hb Hq Ha) as (s' & -> & Hg' & Hsr). exists s', u. split; [done|]. split; [done|].
  exists rp'. by rewrite (sr_uq _ _ Hsr).
Qed.
Lemma uq_ffwd_good id s : db_good s -> roomy s -> reader_used id s -> exists s', uq_ffwd id s = Ok s' /\ db_good s'.
Proof.
  intros Hg Hb [rp Hi]. unfold uq_ffwd. pose proof (di_queue _ _ (dg_inv s Hg)) as Hq0.
  destruct (moves_ok _ _ _ _ _ (ffwd_ok [] (db_uq s) id rp (qo_core _ Hq0) Hi) (qo_live _ Hq0)) as (q' & d & -> & Hq & Ha & _). cbn [result_bind fst snd].
  apply (f_equal lq_log) in Ha. destruct (drop_good q' d s Hg Hb Hq Ha) as (s' & E & Hg' & _). by exists s'.
Qed.

(** Flushing deletes every route. *)
Lemma flush_good s : db_good s -> roomy s -> exists s', flush_routes s = Ok s' /\ db_good s' /\ db_heap s' = ∅ /\ db_routes s' = [].
Proof.
  intros Hg Hb. unfold flush_routes. pose proof (di_queue _ _ (dg_inv s Hg)) as Hq0.
  destruct (flush_ok [] (db_uq s) Hq0) as (q' & d & Ef & Hq & Ha & _). pose proof (flush_empties _ _ _ Hq0 Ef) as He. rewrite Ef. cbn [result_bind].
  apply (f_equal lq_log) in Ha. destruct (drop_good q' d s Hg Hb Hq Ha) as (s1 & -> & Hg1 & Hs1). cbn [result_bind].
  set (s2 := with_routes [] s1). pose proof (dg_inv s1 Hg1) as Hi1.
  assert (Hu1 : uq_list s1 = []) by (unfold uq_list; by rewrite (sr_uq _ _ Hs1)).
  assert (Hrf : refs (map snd (db_routes s1) ++ []) s2 = refs [] s1).
  { unfold refs. cbn [s2 with_routes db_routes map]. change (uq_list s2) with (uq_list s1). by rewrite Hu1, !app_nil_r. }
  assert (Hi2 : db_inv (map snd (db_routes s1) ++ []) s2).
  { pose proof Hi1 as []. split; cbn [s2 with_routes db_heap db_origins db_routes db_fresh db_uq]; try done.
    - constructor.
    - by intros n p ?%elem_of_nil.
    - intros p r Hp. rewrite Hrf. auto.
    - intros p. rewrite Hrf. auto. }
  destruct (release_all_ok (map snd (db_routes s1)) [] s2 Hi2) as (s3 & E3 & Hi3 & Hs3 & Hr3 & Hk3).
  { intros p. change (uq_list s2) with (uq_list s1). rewrite Hu1, app_nil_r. cbn [app]. pose proof (occ_nodup p _ (table_nodup [] s1 Hi1)).
    unfold MAX_QUEUED. lia. }
  assert (Hh : db_heap s3 = ∅).
  { apply map_empty. intros p. apply eq_None_not_Some. intros Hp. assert (Hin : p ∈ refs [] s3).
    { apply Hr3; [|done]. intros x Hx. rewrite Hrf. by apply (dg_ref s1 Hg1). }
    unfold refs in Hin. rewrite (sr_routes _ _ Hs3) in Hin. unfold uq_list in Hin. rewrite (sr_uq _ _ Hs3) in Hin. cbn [s2 with_routes db_routes db_uq map app] in Hin.
    fold (uq_list s1) in Hin. rewrite Hu1 in Hin. by apply elem_of_nil in Hin. }
  exists s3. split; [done|]. split; [|split; [done|by rewrite (sr_routes _ _ Hs3)]].
  apply fair_good; [done|intros p; rewrite Hh; by intros []|]. destruct (good_fair s1 Hg1). split.
  - intros p r. by rewrite Hh.
  - intros p r. by rewrite Hh.
  - by rewrite (sr_rib _ _ Hs3).
  - rewrite (sr_rib _ _ Hs3), (sr_rib_origin _ _ Hs3). intros Hne. destruct (fa_rib_origin0 Hne) as (o & ? & ?). exists o. split; [done|].
    apply (origin_kept s2 s3); [apply (sr_origins _ _ Hs3)|done].
Qed.

(** ** Runs *)
Inductive db_op :=
  | DbUpdate (n : Net) (nh : Addr) (ifname vifname : string) (cost tag : Z) (o : nat) (pt : PolicyTags) (push : bool)
  | DbFire (p : nat)
  | DbTick (t : Z)
  | DbAddRib (n : Net) (nh : Addr) (ifname vifname : string) (cost tag : Z) (o : nat) (pt : PolicyTags)
  | DbDeleteRib (n : Net)
  | DbPushRib (n : Net)
  | DbCreateReader
  | DbDestroyReader (id : nat)
  | DbGet (id : nat)
  | DbNext (id : nat)
  | DbFfwd (id : nat)
  | DbFlush
  | DbNewOrigin (o : nat) (expiry deletion : Z)
  | DbDeleteOrigin (o : nat).

Definition db_exec (op : db_op) s : result xorp_exn db :=
  match op with
  | DbUpdate n nh i v c t o pt push => x <-! update_route run_filter n nh i v c t o pt push s ;; Ok (fst x)
  | DbFire p => fire_timer run_filter p s
  | DbTick t => Ok (with_now t s)
  | DbAddRib n nh i v c t o pt => Ok (add_rib_route n nh i v c t o pt s)
  | DbDeleteRib n => Ok (delete_rib_route n s)
  | DbPushRib n => match m_find n (db_rib_routes s) with Some r => update_rib_route run_filter r true s | None => Ok s end
  | DbCreateReader => x <-! create_reader s ;; Ok (fst x)
  | DbDestroyReader id => destroy_reader id s
  | DbGet id => x <-! uq_get id s ;; Ok (fst x)
  | DbNext id => x <-! uq_next id s ;; Ok (fst x)
  | DbFfwd id => uq_ffwd id s
  | DbFlush => flush_routes s
  | DbNewOrigin o e d => Ok (new_origin o e d s)
  | DbDeleteOrigin o => delete_origin o s
  end.

(** What the callers have to respect. *)
Definition op_ok (op : db_op) s : Prop :=
  roomy s /\
  match op with
  | DbUpdate n _ _ _ _ t o _ _ => t <= 0xffff /\ is_Some (db_origins s !! o) /\ ~ clash n o s
  | DbFire p => is_Some (db_heap s !! p)
  | DbTick t => db_now s <= t
  | DbAddRib _ _ _ _ _ _ o _ => is_Some (db_origins s !! o)
  | DbPushRib n => forall o, db_rib_origin s = Some o -> ~ clash n o s
  | DbDestroyReader id | DbGet id | DbFfwd id => reader_used id s
  | DbNext id => reader_settled id s
  | DbNewOrigin o _ _ => db_origins s !! o = None
  | DbDeleteOrigin o => (exists x, db_origins s !! o = Some x /\ rtstore x = []) /\ db_rib_origin s <> Some o
  | DbDeleteRib _ | DbCreateReader | DbFlush => True
  end.

Fixpoint db_run (ops : list db_op) s : result xorp_exn db :=
  match ops with [] => Ok s | op :: ops => s <-! db_exec op s ;; db_run ops s end.
Fixpoint run_ok (ops : list db_op) s : Prop :=
  match ops with [] => True | op :: ops => op_ok op s /\ forall s', db_exec op s = Ok s' -> run_ok ops s' end.

Lemma rib_insert_good n r o s : db_good s -> words_ok r -> re_net r = n -> is_Some (db_origins s !! o) ->
  db_good (with_rib (m_insert n r (db_rib_routes s)) (Some o) s).
Proof.
  intros Hg Hw En Ho. destruct (dg_rib s Hg) as [Hs Hr]. destruct Hg. pose proof dg_inv0 as []. split; try done; cbn.
  - split; [by apply insert_sorted|]. intros n' r' [[-> ->]|[_ Hin]]%insert_elem; [done|by apply Hr|done].
  - intros _. by exists o.
Qed.

Lemma origins_good (m : gmap nat (RouteOrigin Net)) s : db_good s -> db_inv [] (with_origins m s) ->
  (forall o, db_rib_origin s = Some o -> is_Some (db_origins s !! o) -> is_Some (m !! o)) -> db_good (with_origins m s).
Proof.
  intros [] Hi Hm. split; try done. cbn. intros Hne. destruct (dg_rib_origin0 Hne) as (o & E & Ho). exists o. split; [done|]. by apply Hm.
Qed.

Lemma new_origin_good o e d s : db_good s -> db_origins s !! o = None -> db_good (new_origin o e d s).
Proof.
  intros Hg Hn. apply origins_good; [done| |].
  - pose proof (dg_inv s Hg) as []. split; cbn [with_origins db_heap db_origins db_routes db_fresh db_uq]; try done.
    + intros p r Hp. destruct (di_heap p r Hp) as (o' & x & Eo & Hx & Hin). exists o', x. rewrite lookup_insert_ne by congruence. done.
    + intros o' x. destruct (decide (o' = o)) as [->|]; [rewrite lookup_insert_eq; intros [= <-]; constructor|].
      rewrite lookup_insert_ne by done. apply di_sorted.
    + intros o' x n p. destruct (decide (o' = o)) as [->|]; [rewrite lookup_insert_eq; intros [= <-] ?%elem_of_nil; done|].
      rewrite lookup_insert_ne by done. apply di_store.
  - intros o' _ Ho'. destruct (decide (o' = o)) as [->|]; [by rewrite lookup_insert_eq|by rewrite lookup_insert_ne].
Qed.

Lemma delete_origin_good o x s : db_good s -> db_origins s !! o = Some x -> rtstore x = [] -> db_rib_origin s <> Some o ->
  exists s', delete_origin o s = Ok s' /\ db_good s'.
Proof.
  intros Hg Hx Ee Hne. unfold delete_origin, get_origin. rewrite Hx. cbn [result_bind]. rewrite decide_True by done. eexists. split; [reflexivity|].
  apply origins_good; [done| |].
  - pose proof (dg_inv s Hg) as []. split; cbn [with_origins db_heap db_origins db_routes db_fresh db_uq]; try done.
    + intros p r Hp. destruct (di_heap p r Hp) as (o' & y & Eo & Hy & Hin). exists o', y. rewrite lookup_delete_ne; [done|].
      intros ->. rewrite Hx in Hy. injection Hy as <-. rewrite Ee in Hin. by apply elem_of_nil in Hin.
    + intros o' y [_ Hy]%lookup_delete_Some. by eapply di_sorted.
    + intros o' y n p [_ Hy]%lookup_delete_Some. by eapply di_store.
  - intros o' Eo' Ho'. rewrite lookup_delete_ne; [done|]. congruence.
Qed.

Lemma db_exec_good op s : db_good s -> op_ok op s -> exists s', db_exec op s = Ok s' /\ db_good s'.
Proof.
  intros Hg [Hb Hop]. destruct op; cbn [db_exec op_ok] in *.
  - destruct Hop as (Ht & Ho & Hc). destruct (update_good n nh ifname vifname cost tag o pt push s Hg Hb Ht Ho Hc) as (s' & b & -> & Hg' & _). by exists s'.
  - destruct Hop as [r Hp]. by eapply fire_good.
  - eexists. split; [reflexivity|]. destruct Hg as [[] ? ? ? ? ?]. by split.
  - eexists. split; [reflexivity|]. apply rib_insert_good; [done|apply route_new_words|done|done].
  - eexists. split; [reflexivity|]. destruct (dg_rib s Hg) as [Hs Hr]. destruct Hg. pose proof dg_inv0 as []. split; try done; cbn.
    + split; [by apply erase_sorted|]. intros n' r' [_ Hin]%erase_elem; [by apply Hr|done].
    + intros Hne. apply dg_rib_origin0. intros E. rewrite E in Hne. done.
  - destruct (m_find n (db_rib_routes s)) as [rr|] eqn:Er; [|by exists s]. assert (En : re_net rr = n).
    { destruct (dg_rib s Hg) as [Hs Hx]. pose proof Er as Er'. apply find_elem in Er'; [|done]. by apply Hx in Er' as [? _]. }
    apply rib_good; [done|done|by rewrite En|by rewrite En].
  - destruct (create_reader_good s Hg) as (s' & id & -> & Hg'). by exists s'.
  - by apply destroy_reader_good.
  - destruct (uq_get_good id s Hg Hb Hop) as (s' & p & -> & Hg' & _). by exists s'.
  - destruct (uq_next_good id s Hg Hb Hop) as (s' & p & -> & Hg' & _). by exists s'.
  - by apply uq_ffwd_good.
  - destruct (flush_good s Hg Hb) as (s' & -> & Hg' & _). by exists s'.
  - eexists. split; [reflexivity|]. by apply new_origin_good.
  - destruct Hop as [(x & Hx & Ee) Hne]. by eapply delete_origin_good.
Qed.

Lemma db_new_good now : db_good (db_new now).
Proof.
  split; try done.
  - split; try done; cbn.
    + constructor.
    + by intros n p ?%elem_of_nil.
    + by intros p ?%elem_of_nil.
    + by intros p [].
    + apply queue_new_ok.
  - by intros p [].
  - split; [constructor|]. by intros n r ?%elem_of_nil.
Qed.

Lemma db_run_good ops : forall s, db_good s -> run_ok ops s -> exists s', db_run ops s = Ok s' /\ db_good s'.
Proof.
  induction ops as [|op ops IH]; intros s Hg Hr; [by exists s|]. destruct Hr as [Hop Hr].
  destruct (db_exec_good op s Hg Hop) as (s1 & E & Hg1). cbn [db_run]. rewrite E. cbn [result_bind]. apply IH; [done|]. by apply Hr.
Qed.
End Run.
