(* ===== verification/RipClaims.v ===== *)
(** * What the route database of RIP promises

    Safety of every run, convergence to the cheapest route when the neighbours repeat
    their announcements, the life of a route that is not refreshed, and the runs that
    fail. *)

From Stdlib Require Import ZArith Lia String.
From stdpp Require Import base tactics option numbers list gmap strings.
From S2P Require Import Prelude Word32 Addr IPv4 IPNet Sample OMap RipQueue RipQueueProps RipQueueRun RipQueueClaims RipRoute RipDB.
From S2P Require Import RipDBProps RipDBUpdate RipDBRun.
Local Open Scope Z_scope.
Local Open Scope xorp_scope.
#[local] Arguments contents : simpl never.

Section Converge.
Context {Net Addr : Type} `{KeyOrder Net, !KeyOrderLaws Net, !EqDecision Net, !EqDecision Addr, !NextHop Addr}.
Abbreviation route := (RouteEntry Net Addr).
Abbreviation db := (RouteDB Net Addr).
Implicit Types (s : db) (r : route).

(** The policy that accepts every route and changes none. *)
Definition accept_all (f : filter_kind) (v : route_vars Net Addr) : option (filter_result Addr) := Some (mkFilter true false []).

Lemma accept_all_total : no_policy_exception accept_all.
Proof. by intros f v. Qed.

Lemma do_filtering_accept r r' acc c : re_cost r <= RIP_INFINITY -> do_filtering accept_all r = Ok (r', acc, c) -> r' = r /\ acc = true /\ c = re_cost r.
Proof.
  intros Hle. unfold do_filtering, filter_route, accept_all. cbn [result_bind f_read f_writes f_accepted fold_left].
  rewrite (proj2 (Z.ltb_ge _ _)) by done. by intros [= <- <- <-].
Qed.

(** ** The origin and the cost of the route for a subnet *)
Definition view (n : Net) s : option (nat * Z) :=
  r ← find_route n s; o ← re_origin r; Some (o, re_cost r).

Lemma view_at n s p r o : m_find n (db_routes s) = Some p -> db_heap s !! p = Some r -> re_origin r = Some o -> view n s = Some (o, re_cost r).
Proof. intros Hf Hp Ho. unfold view, find_route. rewrite Hf. cbn. rewrite Hp. cbn. by rewrite Ho. Qed.

(** Every route for the subnet that is alive is the one of the table. *)
Definition no_dead (n : Net) s : Prop := forall q r, db_heap s !! q = Some r -> re_net r = n -> m_find n (db_routes s) = Some q.

Lemma no_dead_no_clash n o s : db_good s -> no_dead n s -> ~ clash n o s.
Proof.
  intros Hg Hn (p & r & x & q & Hf & Hp & Hne & Hx & Hq).
  destruct (di_store _ _ (dg_inv s Hg) o x n q Hx) as (y & Hy & En & Eo); [by apply (store_find o x s []); [apply Hg|..]|].
  rewrite (Hn q y Hy En) in Hf. injection Hf as <-. congruence.
Qed.

Lemma changes_no_dead n p r0 r b s s' : no_dead n s -> changes p r b s s' -> db_heap s !! p = Some r0 -> re_net r = re_net r0 -> no_dead n s'.
Proof.
  intros Hn C Hp En q x Hq Ex. rewrite (ch_routes _ _ _ _ _ C). destruct (decide (q = p)) as [->|Hne].
  - destruct (ch_this _ _ _ _ _ C) as [c Hc]. rewrite Hc in Hq. injection Hq as <-. apply (Hn p r0 Hp). rewrite <- En. exact Ex.
  - rewrite (ch_other _ _ _ _ _ C) in Hq by done. by apply (Hn q x).
Qed.

(** What an update by [o] with cost [c] may do to the route. *)
Definition view_step (o : nat) (c : Z) (v v' : option (nat * Z)) : Prop :=
  match v with
  | None => v' = Some (o, c)
  | Some (o', k) => if decide (o' = o) then v' = Some (o, c) else (v' = Some (o, c) /\ c <= k) \/ (v' = v /\ k <= c)
  end.

Lemma replaces_cost x now r new : if replaces x now r new then re_cost new <= re_cost r else re_cost r <= re_cost new.
Proof.
  unfold replaces. destruct (Z.ltb_spec (re_cost new) (re_cost r)); [lia|]. destruct (Z.ltb_spec (re_cost r) (re_cost new)); [lia|].
  case_decide; [lia|]. case_decide; [lia|]. destruct (re_timer r); [|lia]. destruct (_ <? _); lia.
Qed.

Lemma changes_origins p r b s s' o : changes p r b s s' -> is_Some (db_origins s !! o) -> is_Some (db_origins s' !! o).
Proof. intros C. apply origin_kept. apply (ch_secs _ _ _ _ _ C). Qed.

Lemma changes_length p r b s s' : changes p r b s s' -> (length (uq_list s') <= S (length (uq_list s)))%nat.
Proof. intros C. rewrite (ch_queue _ _ _ _ _ C), length_app. destruct (_ && _); cbn; lia. Qed.

(** The result of an update by the origin itself takes the cost of the update, when the route is accepted. *)
Lemma same_result_accept x now new r push upd : words_ok new ->
  re_cost (fst (same_result x now new r (re_cost new) true push upd)) = re_cost new
  /\ re_origin (fst (same_result x now new r (re_cost new) true push upd)) = re_origin r.
Proof.
  intros Hw. unfold same_result. cbn [fst]. pose proof (take_fields_values new r Hw) as (_ & _ & _ & _ & Ec & _).
  pose proof (take_fields_place new r) as (_ & Eo & _). cbn [set_filtered re_cost re_origin].
  repeat case_decide; repeat destruct (_ && _); cbn; done.
Qed.

Lemma update_view n nh i v c t o pt push s : db_good s -> roomy s -> no_dead n s -> t <= 0xffff -> is_Some (db_origins s !! o) -> 0 <= c <= RIP_INFINITY ->
  exists s' b, update_route accept_all n nh i v c t o pt push s = Ok (s', b) /\ db_good s' /\ no_dead n s'
    /\ view_step o c (view n s) (view n s') /\ (length (uq_list s') <= S (length (uq_list s)))%nat
    /\ forall o', is_Some (db_origins s !! o') -> is_Some (db_origins s' !! o').
Proof.
  intros Hg Hb Hn Ht Ho Hc. pose proof (dg_inv s Hg) as Hi. assert (Ec : cost16 c = c) by (apply cost16_small; unfold RIP_INFINITY in Hc; lia).
  destruct (update_good accept_all accept_all_total n nh i v c t o pt push s Hg Hb Ht Ho (no_dead_no_clash n o s Hg Hn)) as (s' & b & E & Hg' & Hu).
  exists s', b. split; [done|]. split; [done|].
  destruct Hu as [p r new acc s' b Hf Hp Ed Hw Hle Hex|x s1 r1 r acc s' b Hx Hf Hin [k ->] Ed Hpl Hw Hle _ C
    |p x r0 s1 r1 r acc s' Hx Hf Hp Hin _ _ _ _ _ C
    |p x r0 s1 r1 r acc0 s2 r2 new acc s' b Hx Hf Hp Hin _ _ _ _ _ C _ _ _ _ Hex].
  - destruct (find_routes _ _ _ _ Hi Hf) as (r' & Hp' & En). rewrite Hp in Hp'. injection Hp' as <-.
    apply do_filtering_accept in Ed as (-> & -> & _); [|cbn; rewrite Ec; lia]. set (new := route_new n nh i v c None t pt) in *.
    assert (Enew : re_cost new = c) by (cbn; done). destruct (di_heap _ _ Hi _ _ Hp) as (or & y & Eor & Hy & _).
    rewrite (view_at n s p r or Hf Hp Eor). destruct Hex as [(x & Es & Hx & _ & C)|(o' & x & x' & Es & Hne & Hx' & Hx & Eb & C)].
    + destruct (same_result_accept x (db_now s) new r push false Hw) as [E1 E2].
      assert (En' : re_net (fst (same_result x (db_now s) new r (re_cost new) true push false)) = re_net r) by apply same_result_net.
      set (r' := fst (same_result _ _ _ _ _ _ _ _)) in *. set (b' := snd (same_result _ _ _ _ _ _ _ _)) in *.
      split; [by eapply changes_no_dead|]. split; [|split; [by eapply changes_length|intros o'; by eapply changes_origins]].
      destruct (ch_this _ _ _ _ _ C) as [k Hk]. unfold view_step. assert (or = o) as -> by congruence. rewrite decide_True by done.
      rewrite (view_at n s' p (put_ref_cnt k r') o); [|by rewrite (ch_routes _ _ _ _ _ C)|done|exact (eq_trans E2 Eor)].
      change (re_cost (put_ref_cnt k r')) with (re_cost r'). by rewrite E1, Enew.
    + assert (or = o') as -> by congruence. pose proof (replaces_cost x' (db_now s) r new) as Hrc. rewrite Eb in C. cbn [andb] in *.
      destruct (replaces x' (db_now s) r new).
      * destruct (taken_over_ok o x (db_now s) new r) as [_ En']; [by split|].
        split; [by eapply changes_no_dead|]. split; [|split; [by eapply changes_length|intros o2; by eapply changes_origins]].
        destruct (ch_this _ _ _ _ _ C) as [k Hk]. unfold view_step. rewrite decide_False by done. left. rewrite <- Enew. split; [|done].
        rewrite (view_at n s' p (put_ref_cnt k (taken_over o x (db_now s) new r)) o); [|by rewrite (ch_routes _ _ _ _ _ C)|done|done].
        pose proof (take_fields_values new r Hw) as (_ & _ & _ & _ & E5 & _). cbn. by rewrite E5.
      * subst s'. split; [done|]. split; [|split; [lia|done]]. unfold view_step. rewrite decide_False by done. right.
        rewrite (view_at n s p r o' Hf Hp Eor). split; [done|]. by rewrite <- Enew.
  - apply do_filtering_accept in Ed as (-> & -> & _); [|cbn; rewrite Ec; lia].
    set (r0 := set_timer (expiry_timer x (db_now s)) (route_new n nh i v c (Some o) t pt)) in *. pose proof (inserted_table _ _ _ _ Hin) as Hft.
    change (re_net r0) with n in Hft. destruct (ch_this _ _ _ _ _ C) as [k2 Hk2].
    assert (Hv : view n s = None) by (unfold view, find_route; change n with (re_net r0); by rewrite (in_free _ _ _ _ Hin)).
    rewrite Hv. split; [|split; [|split]].
    + intros q y Hq Ey. rewrite (ch_routes _ _ _ _ _ C). destruct (decide (q = db_fresh s)) as [->|Hne]; [done|].
      rewrite (ch_other _ _ _ _ _ C), (in_other _ _ _ _ Hin) in Hq by done. pose proof (Hn q y Hq Ey) as Hm.
      pose proof (in_free _ _ _ _ Hin) as Hnone. change (re_net r0) with n in Hnone. congruence.
    + cbn [view_step]. erewrite (view_at n s' (db_fresh s)); [|by rewrite (ch_routes _ _ _ _ _ C)|exact Hk2|done]. cbn. by rewrite Ec.
    + eapply Nat.le_trans; [by eapply changes_length|]. unfold uq_list. by rewrite (in_queue _ _ _ _ Hin).
    + intros o' Ho'. eapply changes_origins; [exact C|]. apply (origin_kept s s1); [apply Hin|done].
  - exfalso. destruct (di_store _ _ Hi o x n p Hx) as (y & Hy & En & _); [by apply (store_find o x s [])|].
    pose proof (Hn p y Hy En) as Hm. pose proof (in_free _ _ _ _ Hin) as Hnone. assert (y = r0) as -> by congruence. congruence.
  - exfalso. destruct (di_store _ _ Hi o x n p Hx) as (y & Hy & En & _); [by apply (store_find o x s [])|].
    pose proof (Hn p y Hy En) as Hm. pose proof (in_free _ _ _ _ Hin) as Hnone. assert (y = r0) as -> by congruence. congruence.
Qed.

(** ** Rounds of announcements *)
Record announcement := mkAnn { an_origin : nat; an_nh : Addr; an_ifname : string; an_vifname : string; an_cost : Z; an_tag : Z; an_tags : PolicyTags }.

Fixpoint announce_all (n : Net) (us : list announcement) s : result xorp_exn db :=
  match us with
  | [] => Ok s
  | u :: us =>
      x <-! update_route accept_all n (an_nh u) (an_ifname u) (an_vifname u) (an_cost u) (an_tag u) (an_origin u) (an_tags u) false s ;;
      announce_all n us (fst x)
  end.

Lemma announce_app n us1 us2 s : announce_all n (us1 ++ us2) s = (s1 <-! announce_all n us1 s ;; announce_all n us2 s1).
Proof.
  revert s. induction us1 as [|u us1 IH]; intros s; [done|]. cbn. destruct (update_route _ _ _ _ _ _ _ _ _ _ s) as [[s' b]|]; [apply IH|done].
Qed.

Definition ann_ok (u : announcement) s : Prop := 0 <= an_cost u <= RIP_INFINITY /\ an_tag u <= 0xffff /\ is_Some (db_origins s !! an_origin u).

(** A property of the view that every announcement of a list preserves or establishes. *)
Lemma announce_views n (P : list announcement -> option (nat * Z) -> Prop) us : forall dn s,
  db_good s -> no_dead n s -> Z.of_nat (length (uq_list s) + length us) <= 65000 -> (forall u, u ∈ us -> ann_ok u s) -> P dn (view n s) ->
  (forall dn u v v', u ∈ us -> P dn v -> view_step (an_origin u) (an_cost u) v v' -> P (dn ++ [u]) v') ->
  exists s', announce_all n us s = Ok s' /\ db_good s' /\ no_dead n s' /\ P (dn ++ us) (view n s')
    /\ (length (uq_list s') <= length (uq_list s) + length us)%nat /\ forall o, is_Some (db_origins s !! o) -> is_Some (db_origins s' !! o).
Proof.
  induction us as [|u us IH]; intros dn s Hg Hn Hb Hu HP Hstep.
  { exists s. rewrite app_nil_r. split; [done|]. split; [done|]. split; [done|]. split; [done|]. split; [lia|done]. }
  destruct (Hu u) as (Hc & Ht & Ho); [by left|]. cbn [length] in Hb.
  destruct (update_view n (an_nh u) (an_ifname u) (an_vifname u) (an_cost u) (an_tag u) (an_origin u) (an_tags u) false s Hg) as (s1 & b & E & Hg1 & Hn1 & Hv & Hl & Hor);
    [unfold roomy; lia|done|done|done|done|].
  cbn [announce_all]. rewrite E. cbn [result_bind fst].
  destruct (IH (dn ++ [u]) s1 Hg1 Hn1) as (s' & -> & Hg' & Hn' & HP' & Hl' & Hor').
  - lia.
  - intros u' Hin. destruct (Hu u') as (? & ? & ?); [by right|]. split; [done|]. split; [done|]. by apply Hor.
  - eapply Hstep; [by left|exact HP|exact Hv].
  - intros dn' u' v v' Hin. apply Hstep. by right.
  - exists s'. rewrite <- app_assoc in HP'. split; [done|]. split; [done|]. split; [done|]. split; [done|]. split; [cbn; lia|]. auto.
Qed.

(** After a round, the route costs what its origin announced in it. *)
Definition round_one (us : list announcement) (dn : list announcement) (v : option (nat * Z)) : Prop :=
  (dn <> [] -> v <> None) /\ forall o k, v = Some (o, k) -> (exists u, u ∈ us /\ an_origin u = o) /\ forall u, u ∈ dn -> an_origin u = o -> an_cost u = k.
(** In the second round it is no dearer than what has been announced. *)
Definition round_two (us : list announcement) (dn : list announcement) (v : option (nat * Z)) : Prop :=
  exists u k, v = Some (an_origin u, k) /\ u ∈ us /\ k = an_cost u /\ forall u', u' ∈ dn -> k <= an_cost u'.

Lemma round_one_step us dn u v v' : NoDup (map an_origin us) -> (forall x, x ∈ dn -> x ∈ us) -> u ∈ us ->
  round_one us dn v -> view_step (an_origin u) (an_cost u) v v' -> round_one us (dn ++ [u]) v'.
Proof.
  intros Hnd Hdn Hu [Hne Ho] Hs.
  assert (Huniq : forall x y, x ∈ us -> y ∈ us -> an_origin x = an_origin y -> x = y).
  { intros x y Hx Hy E. apply list_elem_of_lookup in Hx as [i Hi], Hy as [j Hj].
    assert (i = j) as ->; [|congruence]. eapply (NoDup_lookup (map an_origin us)); [done|rewrite (list_lookup_fmap an_origin), Hi; done|].
    rewrite (list_lookup_fmap an_origin), Hj. cbn. by rewrite E. }
  assert (Hnew : round_one us (dn ++ [u]) (Some (an_origin u, an_cost u))).
  { split; [done|]. intros o k [= <- <-]. split; [eauto|]. intros x [Hx| ->%list_elem_of_singleton]%elem_of_app E; [|done].
    f_equal. apply Huniq; [by apply Hdn|done|done]. }
  unfold view_step in Hs. destruct v as [[o k]|]; [|by rewrite Hs]. case_decide as Eo; [by rewrite Hs|].
  destruct Hs as [[-> _]|[-> _]]; [done|]. split; [done|]. intros o' k' [= <- <-]. destruct (Ho o k eq_refl) as [He Hk]. split; [done|].
  intros x [Hx| ->%list_elem_of_singleton]%elem_of_app E; [by apply Hk|]. by destruct Eo.
Qed.

Lemma round_two_step us dn u v v' : NoDup (map an_origin us) -> u ∈ us ->
  round_two us dn v -> view_step (an_origin u) (an_cost u) v v' -> round_two us (dn ++ [u]) v'.
Proof.
  intros Hnd Hu (w & k & -> & Hw & Ek & Hle) Hs. cbn in Hs. case_decide as Eo.
  - assert (w = u) as ->.
    { apply list_elem_of_lookup in Hw as [i Hi], Hu as [j Hj]. assert (i = j) as ->; [|congruence].
      eapply (NoDup_lookup (map an_origin us)); [done|rewrite (list_lookup_fmap an_origin), Hi; done|].
      rewrite (list_lookup_fmap an_origin), Hj. cbn. by rewrite Eo. }
    exists u, (an_cost u). split; [done|]. split; [done|]. split; [done|]. intros x [Hx| ->%list_elem_of_singleton]%elem_of_app; [|done].
    rewrite <- Ek. auto.
  - destruct Hs as [[-> Hc]|[-> Hc]].
    + exists u, (an_cost u). split; [done|]. split; [done|]. split; [done|]. intros x [Hx| ->%list_elem_of_singleton]%elem_of_app; [|done].
      specialize (Hle x Hx). lia.
    + exists w, k. split; [done|]. split; [done|]. split; [done|]. intros x [Hx| ->%list_elem_of_singleton]%elem_of_app; [auto|done].
Qed.

(** C9: RIP converges to the cheapest route.  Whatever the database held before, after two rounds in which every
    neighbour announces the subnet once at its cost, each round in an order of its own and the second after the first,
    and with a policy that accepts every route, the route in the table belongs to a neighbour whose cost is the lowest,
    provided the previous route was from one of these neighbours, no route for the subnet that has left the table is
    still waiting in the update queue, and the queue has room.  One round is not enough, as the loser of a decision is
    forgotten; nor are two announcements of each neighbour that do not form rounds. *)
Theorem rip_converges (n : Net) (us us' : list announcement) s : db_good s -> no_dead n s -> us <> [] -> us ≡ₚ us' -> NoDup (map an_origin us) ->
  (forall u, u ∈ us -> ann_ok u s) -> Z.of_nat (length (uq_list s) + 2 * length us) <= 65000 ->
  (forall o k, view n s = Some (o, k) -> o ∈ map an_origin us) ->
  exists s' u, announce_all n (us ++ us') s = Ok s' /\ db_good s' /\ u ∈ us /\ view n s' = Some (an_origin u, an_cost u)
    /\ forall u', u' ∈ us -> an_cost u <= an_cost u'.
Proof.
  intros Hg Hn Hne Hp Hnd Hu Hb Hv. assert (Hlen := Permutation_length Hp).
  destruct (announce_views n (fun dn v => (forall x, x ∈ dn -> x ∈ us) /\ round_one us dn v) us [] s Hg Hn) as (s1 & E1 & Hg1 & Hn1 & [_ [Hsome Hone]] & Hl1 & Ho1).
  - lia.
  - done.
  - split; [by intros x ?%elem_of_nil|]. split; [done|]. intros o k E. split; [|by intros u ?%elem_of_nil].
    apply Hv, list_elem_of_fmap in E as (u & -> & Hin). eauto.
  - intros dn u v v' Hin [Hd HP] Hs. split; [intros x [Hx| ->%list_elem_of_singleton]%elem_of_app; auto|]. by eapply round_one_step.
  - destruct (view n s1) as [[o k]|] eqn:Ev; [|by destruct (Hsome Hne)]. destruct (Hone o k eq_refl) as [(u & Hin & <-) Hk].
    destruct (announce_views n (round_two us) us' [] s1 Hg1 Hn1) as (s2 & E2 & Hg2 & Hn2 & (w & k2 & Ew & Hw & -> & Hle) & _).
    + lia.
    + intros x Hx. rewrite <- Hp in Hx. destruct (Hu x Hx) as (? & ? & ?). split; [done|]. split; [done|]. by apply Ho1.
    + exists u, k. rewrite Ev. split; [done|]. split; [done|]. split; [symmetry; by apply Hk|]. by intros x ?%elem_of_nil.
    + intros dn x v v' Hin' HP Hs. rewrite <- Hp in Hin'. by eapply round_two_step.
    + exists s2, w. rewrite announce_app, E1. split_conj; try done. intros u' Hu'. apply Hle. cbn. by rewrite <- Hp.
Qed.


Lemma now_good t s : db_good s -> db_good (with_now t s).
Proof. intros [[] ? ? ? ? ?]. by split. Qed.





(** ** A route that has left the table *)
(** an announcement that finds a stale route is lost.  When a neighbour's route has been deleted at infinite cost and
    the update queue still holds it, the neighbour's next announcement puts the stale route back as it was: the cost
    stays infinite whatever was announced, no reader is told, and no timer runs. *)
Theorem rip_revived_update_lost (n : Net) nh i v (c t : Z) (o p : nat) pt (x : RouteOrigin Net) r s : db_good s -> roomy s -> t <= 0xffff ->
  m_find n (db_routes s) = None -> db_origins s !! o = Some x -> m_find n (rtstore x) = Some p ->
  db_heap s !! p = Some r -> re_cost r = RIP_INFINITY ->
  exists s' r', update_route accept_all n nh i v c t o pt false s = Ok (s', false) /\ find_route n s' = Some r'
    /\ re_cost r' = RIP_INFINITY /\ timer_scheduled r' = false /\ uq_list s' = uq_list s.
Proof.
  intros Hg Hb Ht Hf Hx Hs Hp Hc. assert (Hsch : timer_scheduled r = false).
  { apply not_true_is_false. intros Hsch. destruct (di_store _ _ (dg_inv s Hg) o x n p Hx) as (y & Hy & En & _); [by apply (store_find o x s []); [apply Hg|..]|].
    pose proof (dg_timer s Hg p r Hp Hsch). congruence. }
  destruct (update_good accept_all accept_all_total n nh i v c t o pt false s Hg Hb Ht) as (s' & b & E & Hg' & Hu);
    [by exists x|by intros (q & y & z & w & Hq & _); congruence|].
  destruct Hu as [q y new acc s' b Hq|y s1 r1 y' acc s' b Hy Hn|q y r0 s1 r1 y' acc s' Hy Hn Hq Hin [k ->] Ed _ _ _ C
    |q y r0 s1 r1 y' acc s2 y2 new acc2 s' b Hy Hn Hq _ [k ->] Ed _ _ Hlt]; [congruence|congruence| |exfalso].
  all: assert (y = x) as -> by congruence; assert (q = p) as -> by congruence; assert (r0 = r) as -> by congruence;
    apply do_filtering_accept in Ed as (-> & -> & _); [|cbn; lia].
  2: { cbn in Hlt. lia. }
  destruct (ch_this _ _ _ _ _ C) as [k2 Hk2]. exists s', (put_ref_cnt k2 (set_filtered (negb true) (put_ref_cnt k r))).
  destruct (di_store _ _ (dg_inv s Hg) o x n p Hx) as (y & Hy' & En & _); [by apply (store_find o x s []); [apply Hg|..]|].
  assert (y = r) as -> by congruence. split; [done|]. split; [|split; [done|split; [done|]]].
  - unfold find_route. rewrite (ch_routes _ _ _ _ _ C), <- En, (inserted_table _ _ _ _ Hin). done.
  - rewrite (ch_queue _ _ _ _ _ C). cbn. rewrite app_nil_r. unfold uq_list. by rewrite (in_queue _ _ _ _ Hin).
Qed.

(** C37: two stale routes end the program.  When the route of the table belongs to one neighbour while the update queue
    still holds a deleted route of another, a better announcement by the second one aborts: it takes the route over and
    finds that it already has a route for the subnet. *)
Theorem rip_clash_aborts (n : Net) nh i v (c t : Z) (o o' p q p' : nat) pt (x x' : RouteOrigin Net) r s : t <= 0xffff -> 0 <= c < re_cost r ->
  re_cost r <= RIP_INFINITY -> m_find n (db_routes s) = Some p -> db_heap s !! p = Some r -> re_net r = n -> re_origin r = Some o' -> o' <> o ->
  db_origins s !! o' = Some x' -> m_find n (rtstore x') = Some p' -> db_origins s !! o = Some x -> m_find n (rtstore x) = Some q ->
  update_route accept_all n nh i v c t o pt false s = Throw Fatal.
Proof.
  intros Ht Hc Hle Hf Hp En Eo Hne Hx' Hs' Hx Hs. assert (Ec : cost16 c = c) by (apply cost16_small; unfold RIP_INFINITY in Hle; lia).
  unfold update_route. rewrite (proj2 (Z.ltb_ge _ _)), Hf by done. unfold update_existing, deref. rewrite Hp. cbn [result_bind].
  destruct (do_filtering accept_all _) as [[[new acc] cost]|e] eqn:Ed.
  2: { exfalso. revert Ed. unfold do_filtering, filter_route, accept_all. cbn. by destruct (_ <? _). }
  apply do_filtering_accept in Ed as (-> & -> & _); [|cbn; rewrite Ec; unfold RIP_INFINITY in *; lia]. cbn [result_bind].
  rewrite decide_False by congruence. unfold update_other, deref. cbn [negb]. rewrite Hp. cbn [result_bind]. unfold should_replace.
  rewrite (proj2 (Z.ltb_lt _ _)) by (cbn; lia). cbn [result_bind]. set (r1 := fst (take_fields _ r)).
  pose proof (take_fields_place (route_new (re_net r) nh i v c None t pt) r) as (E1 & E2 & _). fold r1 in E1, E2. rewrite En in E1. rewrite Eo in E2.
  unfold set_origin, deref. rewrite put_lookup, decide_True by done. cbn [result_bind]. rewrite E2, decide_False by congruence.
  unfold origin_dissociate, get_origin. cbn [put with_heap db_origins]. rewrite Hx', E1. cbn [result_bind]. rewrite Hs'. cbn [result_bind].
  unfold origin_associate, get_origin. cbn [set_store with_origins db_origins put with_heap]. rewrite lookup_insert_ne, Hx by done. cbn [result_bind]. by rewrite Hs.
Qed.

(** C5: every run of the database is safe.  Starting from an empty database, with any policy that raises no exception, a run
    whose callers use 16-bit tags, existing origins and readers, never let the update queue reach 65000 updates and never
    announce over a stale route never fails.  At its end every route of the table is alive, under its own subnet and in the
    store of its origin; every live route costs at most infinity, fits its 16-bit fields, and its reference count is the
    number of times the table and the update queue refer to it; and a route whose timer runs is in the table. *)
Theorem rip_run_safe (run_filter : filter_kind -> route_vars Net Addr -> option (filter_result Addr)) (ops : list db_op) (now : Z) :
  no_policy_exception run_filter -> run_ok run_filter ops (db_new now) ->
  exists s : db, db_run run_filter ops (db_new now) = Ok s
    /\ (forall n p, m_find n (db_routes s) = Some p -> exists r o x, db_heap s !! p = Some r /\ re_net r = n /\ re_origin r = Some o
          /\ db_origins s !! o = Some x /\ m_find n (rtstore x) = Some p)
    /\ (forall p r, db_heap s !! p = Some r -> 0 <= re_cost r <= RIP_INFINITY /\ 0 <= re_tag r <= 0xffff
          /\ re_ref_cnt r = Z.of_nat (occ p (map snd (db_routes s) ++ uq_list s)) /\ 0 < re_ref_cnt r
          /\ (timer_scheduled r = true -> m_find (re_net r) (db_routes s) = Some p))
    /\ db_good s.
Proof.
  intros Hn Hr. destruct (db_run_good run_filter Hn ops (db_new now) (db_new_good now) Hr) as (s & E & Hg). exists s. pose proof (dg_inv s Hg) as Hi.
  split; [done|]. split; [|split; [|done]].
  - intros n p Hf. destruct (find_routes _ _ _ _ Hi Hf) as (r & Hp & En). destruct (di_heap _ _ Hi p r Hp) as (o & x & Eo & Hx & Hin).
    exists r, o, x. split; [done|]. split; [done|]. split; [done|]. split; [done|]. rewrite <- En. apply find_elem; [by apply (di_sorted _ _ Hi o)|done].
  - intros p r Hp. destruct (dg_cost s Hg p r Hp) as [[Hc Ht] Hle]. pose proof (di_count _ _ Hi p r Hp) as Hk. unfold refs in Hk. rewrite app_nil_r in Hk.
    split; [lia|]. split; [lia|]. split; [done|]. split; [|by apply (dg_timer s Hg)].
    rewrite Hk. assert (Hin : p ∈ refs [] s) by (apply (dg_ref s Hg); by exists r). unfold refs in Hin. rewrite app_nil_r in Hin.
    apply occ_elem in Hin. lia.
Qed.
End Converge.

(** ** Examples *)
(** 10.0.0.0/8, two neighbours with the default timers, and a reader of the update queue. *)
Definition rip_sample_net : rip_net IPv4 := exist _ (net4 10 0 0 0 8) I.
Definition rip_sample_ann (o : nat) (c : Z) : announcement (Addr := IPv4) := mkAnn o (ip4 192 168 0 (Z.of_nat o)) "eth0" "eth0" c 0 no_tags.
Definition ok_of {Net Addr} (m : result xorp_exn (RouteDB Net Addr)) : RouteDB Net Addr := match m with Ok s => s | Throw _ => db_new 0 end.
Definition rip_sample_db : RouteDB (rip_net IPv4) IPv4 := new_origin 1 180 120 (new_origin 2 180 120 (db_new 0)).
Definition rip_sample_start : RouteDB (rip_net IPv4) IPv4 := ok_of (db_exec accept_all DbCreateReader rip_sample_db).
Definition rip_sample_update (o : nat) (c : Z) : db_op := DbUpdate rip_sample_net (ip4 192 168 0 (Z.of_nat o)) "eth0" "eth0" c 0 o no_tags false.

Lemma rip_sample_db_good : db_good rip_sample_db.
Proof. apply new_origin_good; [apply new_origin_good; [apply db_new_good|done]|done]. Qed.
Lemma exec_of_good op (s : RouteDB (rip_net IPv4) IPv4) : db_good s -> op_ok op s -> db_good (ok_of (db_exec accept_all op s)).
Proof. intros Hg Ho. by destruct (db_exec_good accept_all accept_all_total op s Hg Ho) as (s' & -> & Hg'). Qed.
Lemma rip_sample_start_good : db_good rip_sample_start.
Proof. apply exec_of_good; [apply rip_sample_db_good|]. split; [by vm_compute|done]. Qed.

Lemma rip_converges_witness : exists s' u, announce_all rip_sample_net ([rip_sample_ann 1 5; rip_sample_ann 2 3] ++ [rip_sample_ann 2 3; rip_sample_ann 1 5]) rip_sample_db = Ok s'
  /\ db_good s' /\ u ∈ [rip_sample_ann 1 5; rip_sample_ann 2 3] /\ view rip_sample_net s' = Some (an_origin u, an_cost u)
  /\ forall u', u' ∈ [rip_sample_ann 1 5; rip_sample_ann 2 3] -> an_cost u <= an_cost u'.
Proof.
  apply rip_converges.
  - apply rip_sample_db_good.
  - by intros q r.
  - done.
  - apply Permutation_swap.
  - by apply (bool_decide_unpack _); vm_compute.
  - intros u [->|[->|[]%elem_of_nil]%elem_of_cons]%elem_of_cons; (split; [by vm_compute|split; [by vm_compute|by eexists]]).
  - by vm_compute.
  - done.
Defined.

(** The route at 180 s, after one announcement. *)
Definition rip_sample_old : RouteDB (rip_net IPv4) IPv4 := with_now 180000000 (ok_of (db_exec accept_all (rip_sample_update 1 3) rip_sample_start)).
Lemma no_clash_fresh n o (s : RouteDB (rip_net IPv4) IPv4) : m_find n (db_routes s) = None -> ~ clash n o s.
Proof. intros E (p & r & x & q & Hf & _). congruence. Qed.
Lemma rip_sample_old_good : db_good rip_sample_old.
Proof.
  apply now_good, exec_of_good; [apply rip_sample_start_good|]. split; [by vm_compute|]. split; [done|]. split; [by eexists|].
  apply no_clash_fresh. by vm_compute.
Qed.


(** The route at 301 s: it has been deleted, and the reader has not read the updates. *)
Definition rip_sample_stale : RouteDB (rip_net IPv4) IPv4 :=
  ok_of (db_exec accept_all (DbFire 0) (with_now 301000000 (ok_of (db_exec accept_all (DbFire 0) rip_sample_old)))).
Lemma rip_sample_stale_good : db_good rip_sample_stale.
Proof.
  apply exec_of_good; [apply now_good, exec_of_good; [apply rip_sample_old_good|]|]; (split; [by vm_compute|]); cbn [op_ok]; apply (bool_decide_unpack _); by vm_compute.
Qed.

Lemma rip_revived_update_lost_witness : exists s' r', update_route accept_all rip_sample_net (ip4 192 168 0 1) "eth0" "eth0" 3 0 1 no_tags false rip_sample_stale = Ok (s', false)
  /\ find_route rip_sample_net s' = Some r' /\ re_cost r' = RIP_INFINITY /\ timer_scheduled r' = false /\ uq_list s' = uq_list rip_sample_stale.
Proof.
  destruct (fmap_Some_1 re_cost (db_heap rip_sample_stale !! 0%nat) RIP_INFINITY) as (r & Hr & Ec); [by vm_compute|].
  destruct (fmap_Some_1 (fun x => m_find rip_sample_net (rtstore x)) (db_origins rip_sample_stale !! 1%nat) (Some 0%nat)) as (x & Hx & Es); [by vm_compute|].
  apply (rip_revived_update_lost rip_sample_net (ip4 192 168 0 1) "eth0" "eth0" 3 0 1 0 no_tags x r rip_sample_stale rip_sample_stale_good);
    [by vm_compute|by vm_compute|by vm_compute|exact Hx|done|exact Hr|done].
Defined.

(** Then the other neighbour announces the subnet, and the first one announces it again. *)
Definition rip_sample_clash : RouteDB (rip_net IPv4) IPv4 := ok_of (db_exec accept_all (rip_sample_update 2 5) rip_sample_stale).
Lemma rip_sample_clash_good : db_good rip_sample_clash.
Proof.
  apply exec_of_good; [apply rip_sample_stale_good|]. split; [by vm_compute|]. split; [done|]. split; [by apply (bool_decide_unpack _); vm_compute|].
  apply no_clash_fresh. by vm_compute.
Qed.
Lemma rip_clash_aborts_witness : update_route accept_all rip_sample_net (ip4 192 168 0 1) "eth0" "eth0" 3 0 1 no_tags false rip_sample_clash = Throw Fatal.
Proof.
  destruct (fmap_Some_1 (fun r => (re_cost r, re_origin r)) (db_heap rip_sample_clash !! 1%nat) (5, Some 2%nat)) as (r & Hr & [= Ec Eo]); [by vm_compute|].
  destruct (fmap_Some_1 (fun x => m_find rip_sample_net (rtstore x)) (db_origins rip_sample_clash !! 1%nat) (Some 0%nat)) as (x & Hx & Es); [by vm_compute|].
  destruct (fmap_Some_1 (fun x => m_find rip_sample_net (rtstore x)) (db_origins rip_sample_clash !! 2%nat) (Some 1%nat)) as (x' & Hx' & Es'); [by vm_compute|].
  assert (Hf : m_find rip_sample_net (db_routes rip_sample_clash) = Some 1%nat) by (by vm_compute).
  destruct (find_routes [] rip_sample_clash rip_sample_net 1) as (r' & Hr' & En); [apply rip_sample_clash_good|done|]. assert (r' = r) as -> by congruence.
  apply (rip_clash_aborts rip_sample_net (ip4 192 168 0 1) "eth0" "eth0" 3 0 1 2 1 0 1 no_tags x x' r rip_sample_clash);
    [lia|lia|unfold RIP_INFINITY; lia|exact Hf|exact Hr|exact En|exact (eq_sym Eo)|lia|exact Hx'|exact (eq_sym Es')|exact Hx|exact (eq_sym Es)].
Defined.

Lemma rip_run_safe_witness : exists s, db_run accept_all [DbNewOrigin 1 180 120; DbCreateReader; rip_sample_update 1 3] (db_new 0) = Ok s /\ db_good s.
Proof.
  destruct (rip_run_safe accept_all [DbNewOrigin 1 180 120; DbCreateReader; rip_sample_update 1 3] 0 accept_all_total) as (s & E & _ & _ & Hg).
  - split; [split; [by vm_compute|done]|]. intros s1 [= <-]. split; [split; [by vm_compute|done]|]. intros s2 [= <-].
    split; [|done]. split; [by vm_compute|]. split; [done|]. split; [by eexists|]. apply no_clash_fresh. by vm_compute.
  - exists s. exact (conj E Hg).
Defined.
