(* ===== verification/RipPacket.v ===== *)
(** * RIP packets (rip/packets.hh, rip/packet_assembly.hh, libproto/packet.hh)

    A packet is the list of its octets: a header of four, and route entries of twenty
    each.  The readers are views of the octets, the writers produce the octets they
    store.  RIPv2 and RIPng differ in their entries: an RIPng entry has no next hop,
    and an entry of its own announces the next hop of those that follow. *)

From Stdlib Require Import ZArith Lia.
From stdpp Require Import base tactics option numbers list.
From S2P Require Import Prelude Word32 Addr IPv4 IPv6 IPNet NetProps VrrpPacket VrrpPacketProps RipRoute.
Local Open Scope Z_scope.
Local Open Scope xorp_scope.

(** ** Octets (libproto/packet.hh) *)
Definition embed_8 (v : Z) : list Z := [Z.land v 0xff].
Definition embed_32 (v : Z) : list Z :=
  [Z.land (Z.shiftr v 24) 0xff; Z.land (Z.shiftr v 16) 0xff; Z.land (Z.shiftr v 8) 0xff; Z.land v 0xff].
Definition extract_8 (p : list Z) (off : nat) : Z := octet_at p off.
Definition extract_16 (p : list Z) (off : nat) : Z := Z.lor (Z.shiftl (octet_at p off) 8) (octet_at p (off + 1)).
Definition extract_32 (p : list Z) (off : nat) : Z :=
  Z.lor (Z.shiftl (Z.lor (Z.shiftl (Z.lor (Z.shiftl (octet_at p off) 8) (octet_at p (off + 1))) 8) (octet_at p (off + 2))) 8) (octet_at p (off + 3)).

(** ** [RipPacketHeader] *)
Definition REQUEST : Z := 1.
Definition RESPONSE : Z := 2.
Definition HEADER_SIZE : nat := 4.
Definition ENTRY_SIZE : nat := 20.
Definition RIPv2_ROUTES_PER_PACKET : nat := 25.
Definition RIPv2_MIN_PACKET_BYTES : nat := 4.
Definition RIPv2_MIN_AUTH_PACKET_BYTES : nat := 4 + 20.
Definition RIPv2_MAX_PACKET_BYTES : nat := 4 + 20 * RIPv2_ROUTES_PER_PACKET.

Definition rph_command (p : list Z) : Z := extract_8 p 0.
Definition rph_version (p : list Z) : Z := extract_8 p 1.
Definition rph_unused0 (p : list Z) : Z := extract_8 p 2.
Definition rph_unused1 (p : list Z) : Z := extract_8 p 3.
Definition valid_command (p : list Z) : bool := (rph_command p =? REQUEST) || (rph_command p =? RESPONSE).
Definition valid_version (v : Z) (p : list Z) : bool := rph_version p =? v.
Definition valid_padding (p : list Z) : bool := Z.lor (rph_unused0 p) (rph_unused1 p) =? 0.
Definition rph_initialize (cmd vers : Z) : list Z := embed_8 cmd ++ embed_8 vers ++ embed_8 0 ++ embed_8 0.

Section Entries.
Context `{HostOrder}.

(** ** [PacketRouteEntry<IPv4>] *)
Definition ADDR_FAMILY4 : Z := 2.
Definition ADDR_FAMILY_DUMP : Z := 0.
Definition ADDR_FAMILY_AUTH : Z := 0xffff.
Definition pre4_addr_family (e : list Z) : Z := extract_16 e 0.
Definition pre4_tag (e : list Z) : Z := extract_16 e 2.
Definition pre4_addr (e : list Z) : IPv4 := ipv4_copy_in (drop 4 e).
Definition pre4_prefix_len (e : list Z) : Z := ipv4_mask_len (ipv4_copy_in (drop 8 e)).
Definition pre4_net (e : list Z) : result xorp_exn (IPNet IPv4) := net_new (pre4_addr e) (pre4_prefix_len e).
Definition pre4_nexthop (e : list Z) : IPv4 := ipv4_copy_in (drop 12 e).
Definition pre4_metric (e : list Z) : Z := extract_32 e 16.
Definition pre4_is_table_request (e : list Z) : bool := (pre4_addr_family e =? ADDR_FAMILY_DUMP) && (pre4_metric e =? RIP_INFINITY).
Definition pre4_is_auth_entry (e : list Z) : bool := pre4_addr_family e =? ADDR_FAMILY_AUTH.

Definition pre4_initialize (tag : Z) (net : IPNet IPv4) (nh : IPv4) (cost : Z) : list Z :=
  embed_16 ADDR_FAMILY4 ++ embed_16 tag ++ ipv4_copy_out (masked_addr net) ++ ipv4_copy_out (netmask net)
  ++ ipv4_copy_out nh ++ embed_32 cost.
Definition pre4_initialize_table_request : list Z :=
  embed_16 ADDR_FAMILY_DUMP ++ embed_16 0 ++ ipv4_copy_out ipv4_ZERO ++ ipv4_copy_out ipv4_ZERO ++ ipv4_copy_out ipv4_ZERO
  ++ embed_32 RIP_INFINITY.

(** ** [PacketRouteEntry<IPv6>] *)
Definition NEXTHOP_METRIC : Z := 0xff.
Definition pre6_prefix (e : list Z) : IPv6 := ipv6_copy_in e.
Definition pre6_tag (e : list Z) : Z := extract_16 e 16.
Definition pre6_prefix_len (e : list Z) : Z := extract_8 e 18.
Definition pre6_metric (e : list Z) : Z := extract_8 e 19.
Definition pre6_net (e : list Z) : result xorp_exn (IPNet IPv6) := net_new (pre6_prefix e) (pre6_prefix_len e).
Definition pre6_is_nexthop (e : list Z) : bool := pre6_metric e =? NEXTHOP_METRIC.
Definition pre6_is_table_request (e : list Z) : bool :=
  if negb (pre6_metric e =? RIP_INFINITY) then false
  else if negb (pre6_prefix_len e =? 0) then false
  else ipv6_eqb (pre6_prefix e) ipv6_ZERO.

Definition pre6_initialize_route (tag : Z) (net : IPNet IPv6) (cost : Z) : list Z :=
  ipv6_copy_out (masked_addr net) ++ embed_16 tag ++ embed_8 (prefix_len net) ++ embed_8 cost.
Definition pre6_initialize_nexthop (nh : IPv6) : list Z := ipv6_copy_out nh ++ embed_16 0 ++ embed_8 0 ++ embed_8 NEXTHOP_METRIC.
Definition pre6_initialize_table_request : list Z := ipv6_copy_out ipv6_ZERO ++ embed_16 0 ++ embed_8 0 ++ embed_8 RIP_INFINITY.
End Entries.

(** ** [RipPacket] *)
Record RipPacket (A : Type) := mkPkt { pk_addr : A; pk_port : Z; pk_data : list Z; pk_max_entries : nat }.
Arguments mkPkt {A}.
Arguments pk_addr {A}.
Arguments pk_port {A}.
Arguments pk_data {A}.
Arguments pk_max_entries {A}.

Section Packet.
Context {A : Type}.
Abbreviation packet := (RipPacket A).

Definition set_max_entries (n : nat) (p : packet) : packet :=
  if decide (n = pk_max_entries p) then p
  else mkPkt (pk_addr p) (pk_port p) (resize (ENTRY_SIZE * n + HEADER_SIZE) (pk_data p)) n.
Definition pkt_new (addr : A) (port : Z) (n : nat) : packet := set_max_entries n (mkPkt addr port [] 0).
(** [None] is the null pointer. *)
Definition route_entry_ptr (n : nat) (p : packet) : option nat :=
  if (pk_max_entries p <=? n)%nat then None else Some (HEADER_SIZE + n * ENTRY_SIZE)%nat.
Definition append_data (d : list Z) (p : packet) : packet := mkPkt (pk_addr p) (pk_port p) (pk_data p ++ d) (pk_max_entries p).
Definition write_data (off : nat) (bs : list Z) (p : packet) : packet := mkPkt (pk_addr p) (pk_port p) (put off bs (pk_data p)) (pk_max_entries p).
(** A writer on the entry. *)
Definition write_entry (n : nat) (e : list Z) (p : packet) : result xorp_exn packet :=
  match route_entry_ptr n p with None => Throw OutOfBounds | Some off => Ok (write_data off e p) end.
Definition data_bytes (p : packet) : nat := length (pk_data p).
End Packet.

(** The [n]-th entry of a received packet from the offset on; outside of the packet, it is not the program's to read. *)
Definition entry_at (d : list Z) (off n : nat) : result xorp_exn (list Z) :=
  if (off + (n + 1) * ENTRY_SIZE <=? length d)%nat then Ok (take ENTRY_SIZE (drop (off + n * ENTRY_SIZE) d)) else Throw OutOfBounds.

(** ** The assembler of RIPng responses *)
Section Ripng.
Context `{HostOrder}.

Definition ipv6_ALL_ONES : IPv6 := mkIPv6 0xffffffff 0xffffffff 0xffffffff 0xffffffff.
Definition RIPng_VERSION : Z := 1.
Definition RIPng_MAX_ENTRIES : nat := 25.
Record assembler6 := mkAsm6 { a6_pkt : RipPacket IPv6; a6_pos : nat; a6_lnh : IPv6 }.

Definition packet_start6 (p : RipPacket IPv6) : assembler6 :=
  mkAsm6 (write_data 0 (rph_initialize RESPONSE RIPng_VERSION) p) 0 ipv6_ALL_ONES.
Definition packet_full6 (a : assembler6) : bool := u32_sub (Z.of_nat RIPng_MAX_ENTRIES) (Z.of_nat (a6_pos a)) <=? 2.
Definition packet_add_route6 (net : IPNet IPv6) (nexthop : IPv6) (cost tag : Z) (a : assembler6) : result xorp_exn (assembler6 * bool) :=
  if packet_full6 a then Ok (a, false)
  else
    a <-! (if ipv6_eqb nexthop (a6_lnh a) then Ok a
           else p <-! write_entry (a6_pos a) (pre6_initialize_nexthop nexthop) (a6_pkt a) ;; Ok (mkAsm6 p (S (a6_pos a)) nexthop)) ;;
    p <-! write_entry (a6_pos a) (pre6_initialize_route tag net cost) (a6_pkt a) ;;
    Ok (mkAsm6 p (S (a6_pos a)) (a6_lnh a), true).
Definition packet_finish6 (a : assembler6) : RipPacket IPv6 := set_max_entries (a6_pos a) (a6_pkt a).

(** [RequestTablePacketAssembler<IPv6>::prepare] *)
Definition request_table6 (p : RipPacket IPv6) : result xorp_exn (RipPacket IPv6) :=
  write_entry 0 pre6_initialize_table_request (set_max_entries 1 (write_data 0 (rph_initialize REQUEST RIPng_VERSION) p)).
End Ripng.

(** ** Words *)
Lemma embed_16_shape x : embed_16 x = [octet 1 x; octet 0 x].
Proof. unfold embed_16, u16_octets, octet. by rewrite Z.shiftr_0_r. Qed.
Lemma embed_32_shape x : embed_32 x = [octet 3 x; octet 2 x; octet 1 x; octet 0 x].
Proof. unfold embed_32, octet. by rewrite Z.shiftr_0_r. Qed.
Lemma shl8_lor a b : 0 <= b < 256 -> Z.lor (Z.shiftl a 8) b = 256 * a + b.
Proof. intros Hb. rewrite Z.lor_comm, <- (add_lor_shiftl 8) by lia. change (2 ^ 8) with 256. lia. Qed.
Lemma octets_16 x : 0 <= x < 2 ^ 16 -> Z.lor (Z.shiftl (octet 1 x) 8) (octet 0 x) = x.
Proof.
  intros Hx. rewrite shl8_lor by apply octet_range. rewrite !octet_mod by lia. change (2 ^ (8 * 0)) with 1. change (2 ^ (8 * 1)) with 256. dlia.
Qed.
Lemma octets_32 x : is_u32 x ->
  Z.lor (Z.shiftl (Z.lor (Z.shiftl (Z.lor (Z.shiftl (octet 3 x) 8) (octet 2 x)) 8) (octet 1 x)) 8) (octet 0 x) = x.
Proof.
  intros Hx. unfold is_u32 in Hx. rewrite !shl8_lor by apply octet_range. rewrite !octet_mod by lia.
  change (2 ^ (8 * 0)) with 1. change (2 ^ (8 * 1)) with 256. change (2 ^ (8 * 2)) with 65536. change (2 ^ (8 * 3)) with 16777216. dlia.
Qed.
Lemma octet_small x : 0 <= x < 256 -> Z.land x 0xff = x.
Proof. intros Hx. change 0xff with (Z.ones 8). rewrite Z.land_ones by lia. by apply Z.mod_small. Qed.

(** ** Entries *)
Section EntryProps.
Context `{HostOrder}.

Lemma copy_in_out4 a l : ipv4_wf a -> ipv4_copy_in (ipv4_copy_out a ++ l) = a.
Proof.
  intros Ha. unfold ipv4_copy_in, ipv4_copy_out. rewrite take_mem, u32_mem_roundtrip by done. by destruct a.
Qed.
Lemma copy_in_out6 a l : ipv6_wf a -> ipv6_copy_in (ipv6_copy_out a ++ l) = a.
Proof.
  intros (H0 & H1 & H2 & H3). unfold ipv6_copy_in, ipv6_copy_out. rewrite <- !app_assoc, take_mem, drop_mem.
  replace (drop 8 (u32_to_mem (v6_0 a) ++ u32_to_mem (v6_1 a) ++ u32_to_mem (v6_2 a) ++ u32_to_mem (v6_3 a) ++ l))
    with (u32_to_mem (v6_2 a) ++ u32_to_mem (v6_3 a) ++ l) by (rewrite (app_assoc (u32_to_mem (v6_0 a))), drop_app_length'; [done|by rewrite length_app, !u32_to_mem_length]).
  replace (drop 12 (u32_to_mem (v6_0 a) ++ u32_to_mem (v6_1 a) ++ u32_to_mem (v6_2 a) ++ u32_to_mem (v6_3 a) ++ l))
    with (u32_to_mem (v6_3 a) ++ l) by (rewrite (app_assoc (u32_to_mem (v6_0 a))), (app_assoc (_ ++ _)), drop_app_length'; [done|by rewrite !length_app, !u32_to_mem_length]).
  rewrite !take_mem, !u32_mem_roundtrip by done. by destruct a.
Qed.
Lemma copy_out6_length a : length (ipv6_copy_out a) = 16%nat.
Proof. unfold ipv6_copy_out. by rewrite !length_app, !u32_to_mem_length. Qed.

Lemma net_new_masked {A} `{AddrSpec A} (n : IPNet A) : net_wf n -> net_new (masked_addr n) (prefix_len n) = Ok n.
Proof.
  intros Hn. destruct Hn as (Ha & Hp & Hal). destruct (net_new_ok (masked_addr n) (prefix_len n) Ha Hp) as (m & -> & Hm & Ep & El).
  f_equal. apply net_eq; [done|by split|done|]. rewrite El. exact Hal.
Qed.

Lemma octet_at_drop d off i : octet_at d (off + i) = octet_at (drop off d) i.
Proof. unfold octet_at. by rewrite !nth_lookup, lookup_drop. Qed.
Lemma extract_16_drop d off : extract_16 d off = extract_16 (drop off d) 0.
Proof. unfold extract_16. rewrite <- (octet_at_drop d off 0), <- (octet_at_drop d off (0 + 1)). by rewrite Nat.add_0_r. Qed.
Lemma extract_32_drop d off : extract_32 d off = extract_32 (drop off d) 0.
Proof.
  unfold extract_32. rewrite <- (octet_at_drop d off 0), <- (octet_at_drop d off (0 + 1)), <- (octet_at_drop d off (0 + 2)), <- (octet_at_drop d off (0 + 3)).
  by rewrite Nat.add_0_r.
Qed.
Lemma extract_embed_16 x l : 0 <= x < 2 ^ 16 -> extract_16 (embed_16 x ++ l) 0 = x.
Proof. intros Hx. rewrite embed_16_shape. unfold extract_16, octet_at. cbn [nth app Nat.add]. by apply octets_16. Qed.
Lemma extract_embed_32 x l : is_u32 x -> extract_32 (embed_32 x ++ l) 0 = x.
Proof. intros Hx. rewrite embed_32_shape. unfold extract_32, octet_at. cbn [nth app Nat.add]. by apply octets_32. Qed.
Lemma drop_embed_16 x l n : drop (2 + n) (embed_16 x ++ l) = drop n l.
Proof. done. Qed.
Lemma drop_copy_out4 a l n : drop (4 + n) (ipv4_copy_out a ++ l) = drop n l.
Proof. unfold ipv4_copy_out. by rewrite <- drop_drop, drop_mem. Qed.
Lemma drop_copy_out6 a l n : drop (16 + n) (ipv6_copy_out a ++ l) = drop n l.
Proof. rewrite <- drop_drop, drop_app_length' by (by rewrite copy_out6_length). done. Qed.

Lemma netmask_len n : net_wf n -> ipv4_mask_len (netmask n) = prefix_len n.
Proof.
  intros (_ & Hp & _). destruct (proj1 (mask_len_make_prefix (prefix_len n)) Hp) as (m & Hm & El). unfold netmask. cbn [a_make_prefix ipv4_ops].
  by rewrite Hm.
Qed.

(** What an RIPv2 entry says. *)
Lemma pre4_read tag net nh cost l : 0 <= tag < 2 ^ 16 -> net_wf net -> ipv4_wf nh -> is_u32 cost ->
  let e := pre4_initialize tag net nh cost ++ l in
  pre4_addr_family e = ADDR_FAMILY4 /\ pre4_tag e = tag /\ pre4_addr e = masked_addr net /\ pre4_prefix_len e = prefix_len net
  /\ pre4_net e = Ok net /\ pre4_nexthop e = nh /\ pre4_metric e = cost.
Proof.
  intros Ht Hn Hh Hc e. assert (Ee : e = embed_16 ADDR_FAMILY4 ++ embed_16 tag ++ ipv4_copy_out (masked_addr net) ++ ipv4_copy_out (netmask net)
    ++ ipv4_copy_out nh ++ embed_32 cost ++ l) by (unfold e, pre4_initialize; by rewrite <- !app_assoc). clearbody e. subst e. set (e := embed_16 _ ++ _).
  destruct (netmask_spec net Hn) as (_ & Hmw & _).
  assert (Ea : pre4_addr e = masked_addr net) by (apply copy_in_out4, Hn).
  assert (El : pre4_prefix_len e = prefix_len net).
  { unfold pre4_prefix_len, e. rewrite (drop_embed_16 _ _ 6), (drop_embed_16 _ _ 4), (drop_copy_out4 _ _ 0), drop_0, copy_in_out4 by done. by apply netmask_len. }
  split; [done|]. split; [unfold pre4_tag; rewrite extract_16_drop; by apply extract_embed_16|]. split; [done|]. split; [done|].
  split; [unfold pre4_net; rewrite Ea, El; by apply net_new_masked|]. unfold pre4_nexthop, pre4_metric. rewrite extract_32_drop. unfold e. split.
  - rewrite (drop_embed_16 _ _ 10), (drop_embed_16 _ _ 8), (drop_copy_out4 _ _ 4), (drop_copy_out4 _ _ 0). by apply copy_in_out4.
  - rewrite (drop_embed_16 _ _ 14), (drop_embed_16 _ _ 12), (drop_copy_out4 _ _ 8), (drop_copy_out4 _ _ 4), (drop_copy_out4 _ _ 0). by apply extract_embed_32.
Qed.
Lemma pre4_length tag net nh cost : length (pre4_initialize tag net nh cost) = ENTRY_SIZE.
Proof. unfold pre4_initialize. by rewrite !length_app, !copy_out_length. Qed.

(** What the entries of RIPng say. *)
Lemma pre6_read_route tag net cost l : 0 <= tag < 2 ^ 16 -> net_wf net -> 0 <= cost < NEXTHOP_METRIC ->
  let e := pre6_initialize_route tag net cost ++ l in
  pre6_is_nexthop e = false /\ pre6_tag e = tag /\ pre6_prefix_len e = prefix_len net /\ pre6_net e = Ok net /\ pre6_metric e = cost.
Proof.
  intros Ht Hn Hc e.
  assert (Ee : e = ipv6_copy_out (masked_addr net) ++ embed_16 tag ++ embed_8 (prefix_len net) ++ embed_8 cost ++ l)
    by (unfold e, pre6_initialize_route; by rewrite <- !app_assoc). clearbody e. subst e. set (e := ipv6_copy_out _ ++ _).
  unfold NEXTHOP_METRIC in Hc.
  assert (Hp : 0 <= prefix_len net < 256) by (destruct Hn as (_ & Hp & _); cbn in Hp; lia).
  assert (El : pre6_prefix_len e = prefix_len net).
  { unfold pre6_prefix_len, extract_8, e. rewrite (octet_at_drop _ 18 0), (drop_copy_out6 _ _ 2), (drop_embed_16 _ _ 0). cbn. by apply octet_small. }
  assert (Em : pre6_metric e = cost).
  { unfold pre6_metric, extract_8, e. rewrite (octet_at_drop _ 19 0), (drop_copy_out6 _ _ 3), (drop_embed_16 _ _ 1). cbn. apply octet_small. lia. }
  split; [unfold pre6_is_nexthop; rewrite Em; unfold NEXTHOP_METRIC; lia|]. split; [|split; [done|split; [|done]]].
  - unfold pre6_tag. rewrite extract_16_drop. unfold e. rewrite (drop_copy_out6 _ _ 0). by apply extract_embed_16.
  - unfold pre6_net, pre6_prefix. rewrite El. unfold e. rewrite copy_in_out6 by apply Hn. by apply net_new_masked.
Qed.
Lemma pre6_read_nexthop nh l : ipv6_wf nh -> let e := pre6_initialize_nexthop nh ++ l in pre6_is_nexthop e = true /\ pre6_prefix e = nh.
Proof.
  intros Hn e.
  assert (Ee : e = ipv6_copy_out nh ++ embed_16 0 ++ embed_8 0 ++ embed_8 NEXTHOP_METRIC ++ l)
    by (unfold e, pre6_initialize_nexthop; by rewrite <- !app_assoc). clearbody e. subst e. set (e := ipv6_copy_out _ ++ _).
  split; [|by apply copy_in_out6].
  unfold pre6_is_nexthop, pre6_metric, extract_8, e. by rewrite (octet_at_drop _ 19 0), (drop_copy_out6 _ _ 3), (drop_embed_16 _ _ 1).
Qed.
Lemma pre6_route_length tag net cost : length (pre6_initialize_route tag net cost) = ENTRY_SIZE.
Proof. unfold pre6_initialize_route. by rewrite !length_app, !copy_out6_length. Qed.
Lemma pre6_nexthop_length nh : length (pre6_initialize_nexthop nh) = ENTRY_SIZE.
Proof. unfold pre6_initialize_nexthop. by rewrite !length_app, !copy_out6_length. Qed.
End EntryProps.
