(* ===== verification/RipAuth.v ===== *)
(** * Authentication of RIPv2 packets (rip/auth.cc, rip/auth.hh, rip/packets.hh)

    The three handlers of [AuthHandlerBase]: none, a plain-text password, and keyed MD5
    with its chains of keys.  The digest is a parameter, as it is OpenSSL's; times are in
    microseconds.  The messages of [set_error] are not kept.  At the end, the assembler
    of RIPv2 responses, which leaves room for the authentication entry. *)

From Stdlib Require Import ZArith Lia.
From stdpp Require Import base tactics option numbers list gmap.
From S2P Require Import Prelude Word32 Addr IPv4 IPNet VrrpPacket RipRoute RipPacket.
Local Open Scope Z_scope.
Local Open Scope xorp_scope.

#[global] Instance IPv4_countable : Countable IPv4.
Proof. refine (inj_countable' ipv4_addr mkIPv4 _). by intros []. Defined.

(** ** The authentication entries *)
(** [PlaintextPacketRouteEntry4] *)
Definition AUTH_TYPE_PLAINTEXT : Z := 2.
Definition ppr_addr_family (e : list Z) : Z := extract_16 e 0.
Definition ppr_auth_type (e : list Z) : Z := extract_16 e 2.
(** [password()] makes a string of the octets from the entry's password on, up to a zero, and takes 16 characters of it; with
    no zero up to the end of the packet it reads on. *)
Fixpoint c_string (d : list Z) : result xorp_exn (list Z) :=
  match d with
  | [] => Throw OutOfBounds
  | c :: d => if c =? 0 then Ok [] else s <-! c_string d ;; Ok (c :: s)
  end.
Definition ppr_password (d : list Z) : result xorp_exn (list Z) := s <-! c_string (drop (HEADER_SIZE + 4) d) ;; Ok (take 16 s).
Definition ppr_initialize (s : list Z) : list Z := embed_16 ADDR_FAMILY_AUTH ++ embed_16 AUTH_TYPE_PLAINTEXT ++ resize 16 s.

(** [MD5PacketRouteEntry4] and [MD5PacketTrailer] *)
Definition AUTH_TYPE_MD5 : Z := 3.
Definition mpr_addr_family (e : list Z) : Z := extract_16 e 0.
Definition mpr_auth_type (e : list Z) : Z := extract_16 e 2.
Definition mpr_auth_off (e : list Z) : Z := extract_16 e 4.
Definition mpr_key_id (e : list Z) : Z := extract_8 e 6.
Definition mpr_auth_bytes (e : list Z) : Z := extract_8 e 7.
Definition mpr_seqno (e : list Z) : Z := extract_32 e 8.
Definition mpr_initialize (auth_off key_id auth_bytes seqno : Z) : list Z :=
  embed_16 ADDR_FAMILY_AUTH ++ embed_16 AUTH_TYPE_MD5 ++ embed_16 auth_off ++ embed_8 key_id ++ embed_8 auth_bytes
  ++ embed_32 seqno ++ replicate 8 0.
Definition TRAILER_SIZE : nat := 20.
Definition mpt_valid (t : list Z) : bool := (extract_16 t 0 =? 0xffff) && (extract_16 t 2 =? 1).
Definition mpt_auth_data_offset : nat := 4.
Definition mpt_auth_data (t : list Z) : list Z := take 16 (drop mpt_auth_data_offset t).
Definition mpt_initialize : list Z := embed_16 0xffff ++ embed_16 1.

(** ** [MD5AuthHandler::MD5Key] *)
Record MD5Key := mkKey {
  k_id : Z;
  k_data : list Z;
  k_start : Z;
  k_end : Z;
  k_persistent : bool;
  k_pkts_recv : gmap IPv4 bool;
  k_lr_seqno : gmap IPv4 Z;
  k_o_seqno : Z;
  k_start_timer : bool;
  k_stop_timer : bool }.

Definition key_new (id : Z) (key : list Z) (start_time end_time : Z) (start_timer stop_timer : bool) : MD5Key :=
  mkKey id (resize 16 (take 16 key)) start_time end_time false ∅ ∅ 0 start_timer stop_timer.
Definition set_persistent (v : bool) (k : MD5Key) : MD5Key :=
  mkKey (k_id k) (k_data k) (k_start k) (k_end k) v (k_pkts_recv k) (k_lr_seqno k) (k_o_seqno k) (k_start_timer k) (k_stop_timer k).
Definition set_received (pr : gmap IPv4 bool) (sn : gmap IPv4 Z) (k : MD5Key) : MD5Key :=
  mkKey (k_id k) (k_data k) (k_start k) (k_end k) (k_persistent k) pr sn (k_o_seqno k) (k_start_timer k) (k_stop_timer k).
Definition valid_at (when : Z) (k : MD5Key) : bool := if k_persistent k then true else (k_start k <=? when) && (when <=? k_end k).
Definition key_reset (k : MD5Key) : MD5Key := set_received ∅ ∅ k.
Definition key_reset_from (src : IPv4) (k : MD5Key) : MD5Key := set_received (delete src (k_pkts_recv k)) (delete src (k_lr_seqno k)) k.
Definition packets_received (src : IPv4) (k : MD5Key) : bool := default false (k_pkts_recv k !! src).
Definition last_seqno_recv (src : IPv4) (k : MD5Key) : Z := default 0 (k_lr_seqno k !! src).
Definition set_last_seqno_recv (src : IPv4) (seqno : Z) (k : MD5Key) : MD5Key :=
  set_received (<[src := true]> (k_pkts_recv k)) (<[src := seqno]> (k_lr_seqno k)) k.
Definition next_seqno_out (k : MD5Key) : Z * MD5Key :=
  (k_o_seqno k, mkKey (k_id k) (k_data k) (k_start k) (k_end k) (k_persistent k) (k_pkts_recv k) (k_lr_seqno k)
                      (u32_add (k_o_seqno k) 1) (k_start_timer k) (k_stop_timer k)).
Definition id_matches (id : Z) (k : MD5Key) : bool := k_id k =? id.

(** ** The handlers *)
Record KeyChains := mkChains { valid_keys : list MD5Key; invalid_keys : list MD5Key }.
Inductive AuthHandler :=
  | NullAuth
  | PlaintextAuth (key : list Z)
  | MD5Auth (c : KeyChains).

(** [find_if], [erase] and a change in place *)
Fixpoint find_key (id : Z) (ks : list MD5Key) : option MD5Key :=
  match ks with [] => None | k :: ks => if id_matches id k then Some k else find_key id ks end.
Fixpoint erase_key (id : Z) (ks : list MD5Key) : list MD5Key :=
  match ks with [] => [] | k :: ks => if id_matches id k then ks else k :: erase_key id ks end.
Fixpoint change_key (id : Z) (f : MD5Key -> MD5Key) (ks : list MD5Key) : list MD5Key :=
  match ks with [] => [] | k :: ks => if id_matches id k then f k :: ks else k :: change_key id f ks end.

Definition set_plaintext_key (key : list Z) : AuthHandler := PlaintextAuth (take 16 key).

Definition no_keys (c : KeyChains) : bool := match valid_keys c with [] => true | _ => false end.
Definition head_entries (h : AuthHandler) : nat :=
  match h with NullAuth => 0 | PlaintextAuth _ => 1 | MD5Auth c => if no_keys c then 0 else 1 end.
Definition max_routing_entries (h : AuthHandler) : nat :=
  match h with
  | NullAuth => RIPv2_ROUTES_PER_PACKET
  | PlaintextAuth _ => RIPv2_ROUTES_PER_PACKET - 1
  | MD5Auth c => if no_keys c then RIPv2_ROUTES_PER_PACKET else RIPv2_ROUTES_PER_PACKET - 1
  end.
Definition reset_handler (h : AuthHandler) : AuthHandler :=
  match h with
  | MD5Auth c => if no_keys c then h else MD5Auth (mkChains (map key_reset (valid_keys c)) (invalid_keys c))
  | _ => h
  end.

(** [add_key], [remove_key] and the timers of a key *)
Definition remove_key (id : Z) (c : KeyChains) : KeyChains * bool :=
  match find_key id (valid_keys c) with
  | Some _ => (mkChains (erase_key id (valid_keys c)) (invalid_keys c), true)
  | None =>
      match find_key id (invalid_keys c) with
      | Some _ => (mkChains (valid_keys c) (erase_key id (invalid_keys c)), true)
      | None => (c, false)
      end
  end.
Definition TIME_MAXIMUM : Z := 0x7fffffff * 1000000 + 999999.
Definition add_key (id : Z) (key : list Z) (start_time end_time now : Z) (c : KeyChains) : KeyChains * bool :=
  if end_time <? start_time then (c, false)
  else if end_time <? now then (c, false)
  else
    let start_timer := now <? start_time in
    let stop_timer := negb (end_time =? TIME_MAXIMUM) in
    let c :=
      match valid_keys c with
      | [k] => if k_persistent k then mkChains [] (invalid_keys c ++ [set_persistent false k]) else c
      | _ => c
      end in
    let c := fst (remove_key id c) in
    let k := key_new id key start_time end_time start_timer stop_timer in
    (if start_timer then mkChains (valid_keys c) (invalid_keys c ++ [k]) else mkChains (valid_keys c ++ [k]) (invalid_keys c), true).
Definition key_start_cb (id : Z) (c : KeyChains) : KeyChains :=
  match find_key id (invalid_keys c) with
  | Some k => mkChains (valid_keys c ++ [k]) (erase_key id (invalid_keys c))
  | None => c
  end.
Definition key_stop_cb (id : Z) (c : KeyChains) : KeyChains :=
  match find_key id (valid_keys c) with
  | Some k =>
      match valid_keys c with
      | [_] => mkChains (change_key id (set_persistent true) (valid_keys c)) (invalid_keys c)
      | _ => mkChains (erase_key id (valid_keys c)) (invalid_keys c ++ [k])
      end
  | None => c
  end.

Section Auth.
Context `{HostOrder} (md5 : list Z -> list Z).
Abbreviation packet := (RipPacket IPv4).

(** ** Received packets: the place of the entries and their number, [None] when the packet is rejected *)
Definition null_inbound (d : list Z) : option (nat * Z) :=
  let n := length d in
  if (RIPv2_MAX_PACKET_BYTES <? n)%nat then None
  else if (n <? RIPv2_MIN_PACKET_BYTES)%nat then None
  else
    let entry_bytes := (n - HEADER_SIZE)%nat in
    if negb (entry_bytes mod ENTRY_SIZE =? 0)%nat then None
    else
      let n_entries := (entry_bytes / ENTRY_SIZE)%nat in
      if (n_entries =? 0)%nat then Some (0%nat, 0)
      else if pre4_is_auth_entry (drop HEADER_SIZE d) then None
      else Some (HEADER_SIZE, Z.of_nat n_entries).

Definition plaintext_inbound (key : list Z) (d : list Z) : result xorp_exn (option (nat * Z)) :=
  let n := length d in
  if (RIPv2_MAX_PACKET_BYTES <? n)%nat then Ok None
  else if (n <? RIPv2_MIN_AUTH_PACKET_BYTES)%nat then Ok None
  else
    let entry_bytes := (n - HEADER_SIZE)%nat in
    if negb (entry_bytes mod ENTRY_SIZE =? 0)%nat then Ok None
    else
      let ppr := drop HEADER_SIZE d in
      if negb (ppr_addr_family ppr =? ADDR_FAMILY_AUTH) then Ok None
      else if negb (ppr_auth_type ppr =? AUTH_TYPE_PLAINTEXT) then Ok None
      else
        passwd <-! ppr_password d ;;
        if decide (passwd = key) then
          let n_entries := (entry_bytes / ENTRY_SIZE - 1)%nat in
          Ok (Some ((HEADER_SIZE + ENTRY_SIZE)%nat, Z.of_nat n_entries))
        else Ok None.

Definition md5_inbound (c : KeyChains) (d : list Z) (src : IPv4) (new_peer : bool) : KeyChains * option (nat * Z) :=
  if no_keys c then (c, null_inbound d)
  else
    let n := length d in
    if (RIPv2_MAX_PACKET_BYTES + TRAILER_SIZE <? n)%nat then (c, None)
    else if (n <? RIPv2_MIN_AUTH_PACKET_BYTES)%nat then (c, None)
    else
      let mpr := drop HEADER_SIZE d in
      if negb (mpr_addr_family mpr =? ADDR_FAMILY_AUTH) then (c, None)
      else if negb (mpr_auth_type mpr =? AUTH_TYPE_MD5) then (c, None)
      else if negb (mpr_auth_bytes mpr =? Z.of_nat TRAILER_SIZE) then (c, None)
      else if negb (mpr_auth_off mpr + mpr_auth_bytes mpr =? Z.of_nat n) then (c, None)
      else
        match find_key (mpr_key_id mpr) (valid_keys c) with
        | None => (c, None)
        | Some k =>
            let set k c := mkChains (change_key (mpr_key_id mpr) (fun _ => k) (valid_keys c)) (invalid_keys c) in
            let k := if new_peer then key_reset_from src k else k in
            let c := set k c in
            if packets_received src k && negb (new_peer && (mpr_seqno mpr =? 0))
               && (0x7fffffff <=? u32_sub (mpr_seqno mpr) (last_seqno_recv src k)) then (c, None)
            else
              let off := Z.to_nat (mpr_auth_off mpr) in
              let mpt := drop off d in
              if negb (mpt_valid mpt) then (c, None)
              else if decide (md5 (take (off + mpt_auth_data_offset) d ++ k_data k) = mpt_auth_data mpt) then
                let n_entries := ((mpr_auth_off mpr - Z.of_nat HEADER_SIZE) / Z.of_nat ENTRY_SIZE - 1) mod 2 ^ 32 in
                (set (set_last_seqno_recv src (mpr_seqno mpr) k) c, Some ((HEADER_SIZE + ENTRY_SIZE)%nat, n_entries))
              else (c, None)
        end.

Definition authenticate_inbound (d : list Z) (src : IPv4) (new_peer : bool) (h : AuthHandler) : result xorp_exn (AuthHandler * option (nat * Z)) :=
  match h with
  | NullAuth => Ok (h, null_inbound d)
  | PlaintextAuth key => x <-! plaintext_inbound key d ;; Ok (h, x)
  | MD5Auth c => let '(c, x) := md5_inbound c d src new_peer in Ok (MD5Auth c, x)
  end.

(** ** Packets to be sent: the packets, one for each key, and the number of routes *)
Definition routes_of (n : nat) : nat := ((n - HEADER_SIZE) / ENTRY_SIZE)%nat.

Definition md5_packet (p : packet) (k : MD5Key) : result xorp_exn (packet * MD5Key) :=
  let '(seqno, k) := next_seqno_out k in
  let auth_off := Z.of_nat (data_bytes p) mod 2 ^ 16 in
  p <-! write_entry 0 (mpr_initialize auth_off (k_id k) (Z.of_nat TRAILER_SIZE) seqno) p ;;
  let digest := md5 (take (Z.to_nat auth_off) (pk_data p) ++ mpt_initialize ++ k_data k) in
  Ok (append_data (mpt_initialize ++ digest) p, k).
Fixpoint md5_packets (p : packet) (ks : list MD5Key) : result xorp_exn (list packet * list MD5Key) :=
  match ks with
  | [] => Ok ([], [])
  | k :: ks =>
      x <-! md5_packet p k ;;
      y <-! md5_packets p ks ;;
      Ok (fst x :: fst y, snd x :: snd y)
  end.

Definition authenticate_outbound (p : packet) (h : AuthHandler) : result xorp_exn (AuthHandler * list packet * nat) :=
  match h with
  | NullAuth => Ok (h, [p], routes_of (data_bytes p))
  | PlaintextAuth key =>
      p <-! write_entry 0 (ppr_initialize key) p ;; Ok (h, [p], (routes_of (data_bytes p) - 1)%nat)
  | MD5Auth c =>
      if no_keys c then Ok (h, [p], routes_of (data_bytes p))
      else
        x <-! md5_packets p (valid_keys c) ;;
        Ok (MD5Auth (mkChains (snd x) (invalid_keys c)), fst x, (data_bytes p / ENTRY_SIZE - 1)%nat)
  end.

(** ** The assembler of RIPv2 responses *)
Definition RIPv2_VERSION : Z := 2.
Record assembler4 := mkAsm4 { a4_pkt : packet; a4_pos : nat; a4_ah : AuthHandler }.

Definition packet_start4 (h : AuthHandler) (p : packet) : assembler4 :=
  let p := set_max_entries (head_entries h + max_routing_entries h) p in
  mkAsm4 (write_data 0 (rph_initialize RESPONSE RIPv2_VERSION) p) (head_entries h) h.
Definition packet_full4 (a : assembler4) : bool := (a4_pos a =? max_routing_entries (a4_ah a))%nat.
Definition packet_add_route4 (net : IPNet IPv4) (nexthop : IPv4) (cost tag : Z) (a : assembler4) : result xorp_exn (assembler4 * bool) :=
  if packet_full4 a then Ok (a, false)
  else
    p <-! write_entry (a4_pos a) (pre4_initialize tag net nexthop cost) (a4_pkt a) ;;
    Ok (mkAsm4 p (S (a4_pos a)) (a4_ah a), true).
(** The packets, [None] for an error; the handler counts its sequence numbers. *)
Definition packet_finish4 (a : assembler4) : result xorp_exn (AuthHandler * option (list packet)) :=
  x <-! authenticate_outbound (set_max_entries (a4_pos a) (a4_pkt a)) (a4_ah a) ;;
  let '(h, ps, n_routes) := x in
  Ok (h, if (n_routes =? 0)%nat then None else Some ps).

(** [RequestTablePacketAssembler<IPv4>::prepare] *)
Definition request_table4 (h : AuthHandler) (p : packet) : result xorp_exn (AuthHandler * option (list packet)) :=
  let p := set_max_entries (1 + head_entries h) (write_data 0 (rph_initialize REQUEST RIPv2_VERSION) p) in
  p <-! write_entry (head_entries h) pre4_initialize_table_request p ;;
  x <-! authenticate_outbound p h ;;
  let '(h, ps, n_routes) := x in
  Ok (h, if (n_routes =? 0)%nat then None else Some ps).
End Auth.
