(* ===== verification/RipPeer.v ===== *)
(** * The peers of RIP (rip/peer.cc, rip/peer.hh)

    A peer is a neighbour that has sent packets.  It is the origin of its routes in the
    database, under the number [peer_origin], and it keeps the routes as it first received
    them, to push them through the filters again when the policy changes. *)

From Stdlib Require Import ZArith Lia String.
From stdpp Require Import base tactics option numbers list gmap strings.
From S2P Require Import Prelude Word32 OMap RipQueue RipRoute RipDB.
Local Open Scope Z_scope.
Local Open Scope xorp_scope.

(** [PeerCounters] *)
Record PeerCounters := mkPeerCnt {
  pc_packets_recv : Z;
  pc_updates_recv : Z;
  pc_requests_recv : Z;
  pc_bad_routes : Z;
  pc_bad_packets : Z;
  pc_bad_auth_packets : Z }.
Definition peer_counters_new : PeerCounters := mkPeerCnt 0 0 0 0 0 0.
Definition pc_incr_packets_recv (c : PeerCounters) := mkPeerCnt (u32_add (pc_packets_recv c) 1) (pc_updates_recv c) (pc_requests_recv c) (pc_bad_routes c) (pc_bad_packets c) (pc_bad_auth_packets c).
Definition pc_incr_updates_recv (c : PeerCounters) := mkPeerCnt (pc_packets_recv c) (u32_add (pc_updates_recv c) 1) (pc_requests_recv c) (pc_bad_routes c) (pc_bad_packets c) (pc_bad_auth_packets c).
Definition pc_incr_requests_recv (c : PeerCounters) := mkPeerCnt (pc_packets_recv c) (pc_updates_recv c) (u32_add (pc_requests_recv c) 1) (pc_bad_routes c) (pc_bad_packets c) (pc_bad_auth_packets c).
Definition pc_incr_bad_routes (c : PeerCounters) := mkPeerCnt (pc_packets_recv c) (pc_updates_recv c) (pc_requests_recv c) (u32_add (pc_bad_routes c) 1) (pc_bad_packets c) (pc_bad_auth_packets c).
Definition pc_incr_bad_packets (c : PeerCounters) := mkPeerCnt (pc_packets_recv c) (pc_updates_recv c) (pc_requests_recv c) (pc_bad_routes c) (u32_add (pc_bad_packets c) 1) (pc_bad_auth_packets c).
Definition pc_incr_bad_auth_packets (c : PeerCounters) := mkPeerCnt (pc_packets_recv c) (pc_updates_recv c) (pc_requests_recv c) (pc_bad_routes c) (pc_bad_packets c) (u32_add (pc_bad_auth_packets c) 1).

(** [Peer], with the store of [_peer_routes] *)
Record Peer (Net Addr : Type) := mkPeer {
  peer_addr : Addr;
  peer_origin : nat;
  peer_counters : PeerCounters;
  peer_last_active : Z;
  peer_routes : list (Net * RouteEntry Net Addr) }.
Arguments mkPeer {Net Addr}.
Arguments peer_addr {Net Addr}.
Arguments peer_origin {Net Addr}.
Arguments peer_counters {Net Addr}.
Arguments peer_last_active {Net Addr}.
Arguments peer_routes {Net Addr}.

Section Peers.
Context {Net Addr : Type} `{KeyOrder Net, EqDecision Addr, NextHop Addr}.
Context (run_filter : filter_kind -> route_vars Net Addr -> option (filter_result Addr)).
Abbreviation peer := (Peer Net Addr).
Abbreviation db := (RouteDB Net Addr).
Implicit Types (s : db) (p : peer).

Definition with_counters (f : PeerCounters -> PeerCounters) p : peer :=
  mkPeer (peer_addr p) (peer_origin p) (f (peer_counters p)) (peer_last_active p) (peer_routes p).
Definition with_last_active (t : Z) p : peer := mkPeer (peer_addr p) (peer_origin p) (peer_counters p) t (peer_routes p).
Definition with_peer_routes rs p : peer := mkPeer (peer_addr p) (peer_origin p) (peer_counters p) (peer_last_active p) rs.

(** The constructor; the origin is fresh, with the times of the port. *)
Definition peer_new (addr : Addr) (o : nat) : peer := mkPeer addr o peer_counters_new 0 [].

(** [Peer::set_expiry_timer]: the timer deletes the stored route. *)
Definition peer_timer (secs : Z) s : option RouteTimer :=
  if decide (secs = 0) then None else Some (mkTimer (db_now s + secs * 1000 * MSEC) true CallExpire).
Definition peer_update_route (ifname vifname : string) (secs : Z) (net : Net) (nexthop : Addr) (cost tag : Z)
    (policytags : PolicyTags) p s : result xorp_exn (peer * db * bool) :=
  let route := match m_find net (peer_routes p) with
               | Some r => r
               | None => route_new net nexthop ifname vifname cost None tag policytags
               end in
  let p := with_peer_routes (m_insert net (set_timer (peer_timer secs s) route) (peer_routes p)) p in
  x <-! update_route run_filter net nexthop ifname vifname cost tag (peer_origin p) policytags false s ;;
  Ok (p, fst x, snd x).

Fixpoint push_stored (o : nat) (rs : list (Net * RouteEntry Net Addr)) s : result xorp_exn db :=
  match rs with
  | [] => Ok s
  | (_, r) :: rs =>
      x <-! update_route run_filter (re_net r) (re_nh r) (re_ifname r) (re_vifname r) (re_cost r) (re_tag r) o (re_policytags r) true s ;;
      push_stored o rs (fst x)
  end.
Definition peer_push_routes (port_enabled : bool) p s : result xorp_exn db :=
  if negb port_enabled then Ok s else push_stored (peer_origin p) (peer_routes p) s.

(** [Peer::expire_route], when the timer of a stored route runs out. *)
Definition peer_expire_route (net : Net) p s : peer :=
  match m_find net (peer_routes p) with
  | Some r =>
      match re_timer r with
      | Some t => if t_scheduled t && (t_expires t <=? db_now s) then with_peer_routes (m_erase net (peer_routes p)) p else p
      | None => p
      end
  | None => p
  end.

(** [RouteDB::push_routes], over the peers of enabled and of other ports *)
Fixpoint push_peers (ps : list (bool * peer)) s : result xorp_exn db :=
  match ps with [] => Ok s | (en, p) :: ps => s <-! peer_push_routes en p s ;; push_peers ps s end.
Definition push_routes (ps : list (bool * peer)) s : result xorp_exn db :=
  s <-! push_peers ps s ;; push_rib_routes run_filter (db_rib_routes s) s.
End Peers.
