(* ===== verification/RipOutput.v ===== *)
(** * The output of RIP (rip/packet_queue.cc, rip/output_table.cc, rip/output_updates.cc, rip/route_db.cc)

    The queue of packets to be sent; the walk over the routes of the database, which may
    be interrupted; and the two producers of responses: the dump of the table and the
    triggered updates.  They are written against the assembler of packets of the address
    family, [assembler], and against [Port::route_policy], the argument [policy]. *)

From Stdlib Require Import ZArith Lia String.
From stdpp Require Import base tactics option numbers list gmap strings.
From S2P Require Import Prelude Word32 Addr IPNet OMap VrrpPacket RipQueue RipRoute RipDB RipPacket.
Local Open Scope Z_scope.
Local Open Scope xorp_scope.

(** ** [PacketQueue] *)
Record PacketQueue (A : Type) := mkPQ { ready_packets : list (RipPacket A); buffered_bytes : Z; max_buffered_bytes : Z; drops : Z }.
Arguments mkPQ {A}.
Arguments ready_packets {A}.
Arguments buffered_bytes {A}.
Arguments max_buffered_bytes {A}.
Arguments drops {A}.

Section Queue.
Context {A : Type}.
Implicit Types (q : PacketQueue A) (p : RipPacket A).

Definition pq_new : PacketQueue A := mkPQ [] 0 64000 0.
Definition pkt_bytes p : Z := Z.of_nat (data_bytes p).
(** The second packet goes: the first may be on its way. *)
Definition drop_old q : PacketQueue A * bool :=
  match ready_packets q with
  | h :: _ :: rest => (mkPQ (h :: rest) (buffered_bytes q) (max_buffered_bytes q) (u32_add (drops q) 1), true)
  | _ => (q, false)
  end.
(** The loop of [enqueue_packet]; each turn drops a packet. *)
Fixpoint make_space (n : nat) p q : PacketQueue A :=
  match n with
  | O => q
  | S n =>
      if max_buffered_bytes q <=? u32_add (buffered_bytes q) (pkt_bytes p) then
        let '(q, dropped) := drop_old q in if dropped : bool then make_space n p q else q
      else q
  end.
Definition enqueue_packet p q : PacketQueue A :=
  let q := make_space (S (length (ready_packets q))) p q in
  mkPQ (ready_packets q ++ [p]) (u32_add (buffered_bytes q) (pkt_bytes p)) (max_buffered_bytes q) (drops q).
Definition pq_head q : option (RipPacket A) := head (ready_packets q).
Definition pop_head q : PacketQueue A :=
  match ready_packets q with
  | [] => q
  | p :: rest => mkPQ rest (u32_sub (buffered_bytes q) (pkt_bytes p)) (max_buffered_bytes q) (drops q)
  end.
Fixpoint flush_loop (ps : list (RipPacket A)) (bytes : Z) : Z :=
  match ps with [] => bytes | p :: ps => flush_loop ps (u32_sub bytes (pkt_bytes p)) end.
Definition flush_packets q : result xorp_exn (PacketQueue A) :=
  let bytes := flush_loop (ready_packets q) (buffered_bytes q) in
  if decide (bytes = 0) then Ok (mkPQ [] 0 (max_buffered_bytes q) (drops q)) else Throw AssertFailed.
Definition reset_drop_count q : PacketQueue A := mkPQ (ready_packets q) (buffered_bytes q) (max_buffered_bytes q) 0.
Definition set_max_buffered_bytes (n : Z) q : PacketQueue A := mkPQ (ready_packets q) (buffered_bytes q) n (drops q).
Definition enqueue_all (ps : list (RipPacket A)) q : PacketQueue A := fold_left (fun q p => enqueue_packet p q) ps q.
End Queue.

(** ** The assembler of a family; [H] is the state of its authentication *)
Record assembler (A H : Type) := mkAssembler {
  as_state : Type;
  as_start : H -> RipPacket A -> as_state;
  as_full : as_state -> bool;
  as_add : IPNet A -> A -> Z -> Z -> as_state -> result xorp_exn (as_state * bool);
  as_finish : as_state -> result xorp_exn (H * option (list (RipPacket A))) }.
Arguments as_state {A H}.
Arguments as_start {A H}.
Arguments as_full {A H}.
Arguments as_add {A H}.
Arguments as_finish {A H}.

Section Output.
Context {A H : Type} `{AddrSpec A, !EqDecision A, !NextHop A, !forall n : IPNet A, Decision (net_wf n)}.
Context (asm : assembler A H).
Abbreviation Net := (rip_net A).
Abbreviation route := (RouteEntry Net A).
Abbreviation db := (RouteDB Net A).
Implicit Types (s : db) (r : route).

(** ** [RouteWalker]: the position is the entry it is at, [None] at the end *)
Inductive walker_state := STATE_RUNNING | STATE_PAUSED.
Record RouteWalker := mkRW { rw_state : walker_state; rw_last_visited : IPNet A; rw_pos : option Net }.
(** [NO_NET] is made of the address of all ones and the length zero: the constructor masks it. *)
Definition NO_NET : IPNet A := match net_new (a_not a_zero) 0 with Ok n => n | Throw _ => net_default end.

Definition m_begin {V} (m : list (Net * V)) : option Net := match m with [] => None | (k, _) :: _ => Some k end.
(** [upper_bound], and the iterator after the one at the key *)
Fixpoint m_upper_bound {V} (k : IPNet A) (m : list (Net * V)) : option Net :=
  match m with [] => None | (k', _) :: m => if netcmp k (`k') then Some k' else m_upper_bound k m end.
Fixpoint m_find_net {V} (k : IPNet A) (m : list (Net * V)) : option Net :=
  match m with [] => None | (k', _) :: m => if negb (netcmp k (`k')) && negb (netcmp (`k') k) then Some k' else m_find_net k m end.

Definition rw_new s : RouteWalker := mkRW STATE_RUNNING NO_NET (m_begin (db_routes s)).
Definition rw_reset s (w : RouteWalker) : RouteWalker := mkRW STATE_RUNNING (rw_last_visited w) (m_begin (db_routes s)).
Definition rw_deref (w : RouteWalker) s : result xorp_exn (option (nat * route)) :=
  match rw_pos w with
  | None => Ok None
  | Some k => match m_find k (db_routes s) with Some p => r <-! deref p s ;; Ok (Some (p, r)) | None => Throw OutOfBounds end
  end.
Definition current_route (w : RouteWalker) s : result xorp_exn (option (nat * route)) :=
  match rw_state w with STATE_RUNNING => rw_deref w s | STATE_PAUSED => Ok None end.
Definition next_route (w : RouteWalker) s : result xorp_exn (RouteWalker * option (nat * route)) :=
  match rw_state w with
  | STATE_PAUSED => Ok (w, None)
  | STATE_RUNNING =>
      match rw_pos w with
      | None => Throw OutOfBounds
      | Some k =>
          let w := mkRW (rw_state w) (rw_last_visited w) (m_upper_bound (`k) (db_routes s)) in
          x <-! rw_deref w s ;; Ok (w, x)
      end
  end.
(** A route about to be deleted is kept for twice the pause. *)
Definition rw_pause (pause_ms : Z) (w : RouteWalker) s : result xorp_exn (RouteWalker * db) :=
  match rw_state w with
  | STATE_PAUSED => Ok (w, s)
  | STATE_RUNNING =>
      x <-! rw_deref w s ;;
      match x with
      | None => Ok (mkRW STATE_PAUSED NO_NET (rw_pos w), s)
      | Some (p, r) =>
          let s :=
            match re_timer r with
            | Some t =>
                let next_run := db_now s + 1000 * pause_ms * 2 in
                if t_scheduled t && (re_cost r =? RIP_INFINITY) && (t_expires t <=? next_run)
                then put p (set_timer (Some (mkTimer next_run true (t_call t))) r) s else s
            | None => s
            end in
          Ok (mkRW STATE_PAUSED (proj1_sig (re_net r)) (rw_pos w), s)
      end
  end.
Definition rw_resume (w : RouteWalker) s : RouteWalker :=
  match rw_state w with
  | STATE_RUNNING => w
  | STATE_PAUSED =>
      let pos := if net_eqb (rw_last_visited w) NO_NET then None
                 else match m_find_net (rw_last_visited w) (db_routes s) with
                      | Some k => Some k
                      | None => m_upper_bound (rw_last_visited w) (db_routes s)
                      end in
      mkRW STATE_RUNNING (rw_last_visited w) pos
  end.

(** ** [OutputTable] *)
Record OutputTable := mkOT { ot_addr : A; ot_port : Z; ot_rw : RouteWalker; ot_rw_valid : bool; ot_op_timer : option Z; ot_pkts_out : Z }.
Definition ot_new (addr : A) (port : Z) s : OutputTable := mkOT addr port (rw_new s) false None 0.
Definition ot_running (o : OutputTable) : bool := match ot_op_timer o with Some _ => true | None => false end.

(** The routes of a packet; the count of those added, and whether the walk goes on. *)
Fixpoint fill_table (n : nat) (policy : route -> A * Z) (w : RouteWalker) (cur : option (nat * route)) (a : as_state asm) (done : nat) s :
    result xorp_exn (RouteWalker * as_state asm * nat * bool) :=
  match cur with
  | None => Ok (w, a, done, false)
  | Some (_, r) =>
      match n with
      | O => Throw OutOfBounds
      | S n =>
          let go_on (a : as_state asm) (done : nat) :=
            x <-! next_route w s ;; fill_table n policy (fst x) (snd x) a done s in
          if re_filtered r then go_on a done
          else
            let '(nh, cost) := policy r in
            if RIP_INFINITY <? cost then go_on a done
            else
              x <-! as_add asm (proj1_sig (re_net r)) nh (cost16 cost) (re_tag r) a ;;
              let a := fst x in
              let done := S done in
              if as_full asm a then x <-! next_route w s ;; Ok (fst x, a, done, true)
              else go_on a done
      end
  end.

(** [output_packet]: the packets, the state of the authentication, and the database, whose timers a pause may move. *)
Definition ot_output_packet (policy : route -> A * Z) (gap_ms : Z) (h : H) (o : OutputTable) s :
    result xorp_exn (OutputTable * H * list (RipPacket A) * db) :=
  let w := if ot_rw_valid o then ot_rw o else rw_reset s (ot_rw o) in
  let w := rw_resume w s in
  let a := as_start asm h (pkt_new (ot_addr o) (ot_port o) RIPv2_ROUTES_PER_PACKET) in
  cur <-! current_route w s ;;
  x <-! fill_table (S (length (db_routes s))) policy w cur a 0 s ;;
  let '(w, a, done, more) := x in
  f <-! (if (done =? 0)%nat then Ok (h, None) else as_finish asm a) ;;
  let '(h, ps) := f in
  let ps := default [] ps in
  let sent := u32_add (ot_pkts_out o) (Z.of_nat (length ps)) in
  if more : bool then
    x <-! rw_pause gap_ms w s ;;
    let '(w, s) := x in
    Ok (mkOT (ot_addr o) (ot_port o) w true (Some (db_now s + gap_ms * 1000)) sent, h, ps, s)
  else Ok (mkOT (ot_addr o) (ot_port o) w false None sent, h, ps, s).
Definition ot_start (policy : route -> A * Z) (gap_ms : Z) (h : H) (o : OutputTable) s :=
  if ot_running o then Ok (o, h, [], s) else ot_output_packet policy gap_ms h o s.
Definition ot_stop (o : OutputTable) : OutputTable := mkOT (ot_addr o) (ot_port o) (ot_rw o) (ot_rw_valid o) None (ot_pkts_out o).

(** ** [OutputUpdates]; [None] is a reader not created *)
Record OutputUpdates := mkOU { ou_addr : A; ou_port : Z; ou_reader : option nat; ou_op_timer : option Z; ou_pkts_out : Z }.
Definition ou_new (addr : A) (port : Z) : OutputUpdates := mkOU addr port None None 0.
Definition ou_running (o : OutputUpdates) : bool := match ou_op_timer o with Some _ => true | None => false end.

(** The updates of a packet: a route is told once in a packet. *)
Fixpoint fill_updates (n : nat) (policy : route -> A * Z) (id : nat) (cur : option nat) (a : as_state asm) (added : list nat) s :
    result xorp_exn (db * as_state asm * list nat * bool) :=
  match cur with
  | None => Ok (s, a, added, false)
  | Some p =>
      match n with
      | O => Throw OutOfBounds
      | S n =>
          let go_on (a : as_state asm) (added : list nat) :=
            x <-! uq_next id s ;; fill_updates n policy id (snd x) a added (fst x) in
          if bool_decide (p ∈ added) then go_on a added
          else
            r <-! deref p s ;;
            let '(nh, cost) := policy r in
            if RIP_INFINITY <? cost then go_on a added
            else
              x <-! as_add asm (proj1_sig (re_net r)) nh (cost16 cost) (re_tag r) a ;;
              let a := fst x in
              let added := added ++ [p] in
              if as_full asm a then x <-! uq_next id s ;; Ok (fst x, a, added, true)
              else go_on a added
      end
  end.

Definition ou_output_packet (policy : route -> A * Z) (gap_ms : Z) (h : H) (o : OutputUpdates) s :
    result xorp_exn (OutputUpdates * H * list (RipPacket A) * db) :=
  match ou_reader o with
  | None => Throw OutOfBounds
  | Some id =>
      let a := as_start asm h (pkt_new (ou_addr o) (ou_port o) RIPv2_ROUTES_PER_PACKET) in
      x <-! uq_get id s ;;
      let '(s, cur) := x in
      x <-! fill_updates (S (updates_queued (db_uq s))) policy id cur a [] s ;;
      let '(s, a, added, more) := x in
      f <-! (if (length added =? 0)%nat then Ok (h, None) else as_finish asm a) ;;
      let '(h, ps) := f in
      let ps := default [] ps in
      let sent := u32_add (ou_pkts_out o) (Z.of_nat (length ps)) in
      let timer := if more : bool then Some (db_now s + gap_ms * 1000) else None in
      Ok (mkOU (ou_addr o) (ou_port o) (Some id) timer sent, h, ps, s)
  end.
Definition ou_start (policy : route -> A * Z) (gap_ms : Z) (h : H) (o : OutputUpdates) s :
    result xorp_exn (OutputUpdates * H * list (RipPacket A) * db) :=
  if ou_running o then Ok (o, h, [], s)
  else
    x <-! (match ou_reader o with
           | Some _ => Ok (o, s)
           | None => x <-! create_reader s ;; Ok (mkOU (ou_addr o) (ou_port o) (Some (snd x)) (ou_op_timer o) (ou_pkts_out o), fst x)
           end) ;;
    ou_output_packet policy gap_ms h (fst x) (snd x).
Definition ou_stop (o : OutputUpdates) s : result xorp_exn (OutputUpdates * db) :=
  s <-! (match ou_reader o with Some id => destroy_reader id s | None => Ok s end) ;;
  Ok (mkOU (ou_addr o) (ou_port o) None None (ou_pkts_out o), s).
Definition ou_ffwd (o : OutputUpdates) s : result xorp_exn db :=
  match ou_reader o with Some id => uq_ffwd id s | None => Throw OutOfBounds end.
End Output.
