(* ===== verification/RipOutputProps.v ===== *)
(** * What the output of RIP promises

    The packet queue is a first-in first-out queue that counts its octets, until it drops
    a packet; and a dump of the table tells every advertised route exactly once, in the
    order of the table, whatever the assembler of the family. *)

From Stdlib Require Import ZArith Lia String.
From stdpp Require Import base tactics option numbers list gmap strings.
From S2P Require Import Prelude Word32 Addr IPNet OMap VrrpPacket RipQueue RipQueueProps RipRoute RipDB RipDBProps RipDBUpdate RipDBRun.
From S2P Require Import RipPacket RipOutput.
Local Open Scope Z_scope.
Local Open Scope xorp_scope.

(** ** The packet queue *)
Section QueueProps.
Context {A : Type}.
Implicit Types (q : PacketQueue A) (p : RipPacket A) (ps : list (RipPacket A)).

Definition total ps : Z := Z.of_nat (list_sum (map data_bytes ps)).
Lemma total_cons p ps : total (p :: ps) = pkt_bytes p + total ps.
Proof. unfold total, pkt_bytes. by rewrite <- Nat2Z.inj_add. Qed.
Lemma total_nil : total [] = 0.
Proof. done. Qed.
Lemma total_app ps1 ps2 : total (ps1 ++ ps2) = total ps1 + total ps2.
Proof. unfold total. rewrite map_app, list_sum_app. lia. Qed.
Lemma total_nonneg ps : 0 <= total ps.
Proof. unfold total. lia. Qed.
Lemma pkt_bytes_nonneg p : 0 <= pkt_bytes p.
Proof. unfold pkt_bytes. lia. Qed.
#[local] Hint Resolve total_nonneg pkt_bytes_nonneg : core.

Lemma u32_add_small a b : 0 <= a -> 0 <= b -> a + b < 2 ^ 32 -> u32_add a b = a + b.
Proof. intros. unfold u32_add, u32. apply Z.mod_small. lia. Qed.
Lemma u32_sub_small a b : 0 <= b <= a -> a < 2 ^ 32 -> u32_sub a b = a - b.
Proof. intros. unfold u32_sub, u32. apply Z.mod_small. lia. Qed.

(** The octets counted are those of the packets, and [leak] that are not there any more. *)
Definition counted (leak : Z) q : Prop := buffered_bytes q = total (ready_packets q) + leak /\ 0 <= leak /\ total (ready_packets q) + leak < 2 ^ 31.

Lemma flush_loop_total ps bytes : total ps <= bytes < 2 ^ 32 -> flush_loop ps bytes = bytes - total ps.
Proof.
  revert bytes. induction ps as [|p ps IH]; intros bytes Hb; [cbn [flush_loop]; rewrite total_nil; lia|]. rewrite total_cons in *. cbn [flush_loop].
  pose proof (total_nonneg ps). pose proof (pkt_bytes_nonneg p). rewrite u32_sub_small by lia. rewrite IH by lia. lia.
Qed.
Lemma flush_counted leak q : counted leak q -> flush_packets q = if decide (leak = 0) then Ok (mkPQ [] 0 (max_buffered_bytes q) (drops q)) else Throw AssertFailed.
Proof.
  intros (Eb & Hl & Ht). unfold flush_packets. rewrite flush_loop_total by (rewrite Eb; split; lia). rewrite Eb.
  destruct (decide (leak = 0)) as [->|Hn]; [by rewrite decide_True by lia|by rewrite decide_False by lia].
Qed.

(** A queue that is not full takes the packet at its end. *)
Lemma enqueue_room leak p q : counted leak q -> buffered_bytes q + pkt_bytes p < max_buffered_bytes q -> max_buffered_bytes q < 2 ^ 31 ->
  enqueue_packet p q = mkPQ (ready_packets q ++ [p]) (buffered_bytes q + pkt_bytes p) (max_buffered_bytes q) (drops q)
  /\ counted leak (enqueue_packet p q).
Proof.
  intros (Eb & Hl & Ht) Hr Hm. pose proof (total_nonneg (ready_packets q)). pose proof (pkt_bytes_nonneg p).
  assert (E : enqueue_packet p q = mkPQ (ready_packets q ++ [p]) (buffered_bytes q + pkt_bytes p) (max_buffered_bytes q) (drops q)).
  { unfold enqueue_packet. cbn [make_space]. rewrite u32_add_small by lia. rewrite (proj2 (Z.leb_gt _ _)) by lia. cbn. by rewrite u32_add_small by lia. }
  split; [done|]. rewrite E. unfold counted. cbn [ready_packets buffered_bytes]. rewrite total_app, (total_cons p []), total_nil. lia.
Qed.

(** A full queue drops every packet but the first, and goes on counting them. *)
Lemma make_space_full p : forall n q h rest, ready_packets q = h :: rest -> (length rest < n)%nat ->
  max_buffered_bytes q <= u32_add (buffered_bytes q) (pkt_bytes p) ->
  exists d, make_space n p q = mkPQ [h] (buffered_bytes q) (max_buffered_bytes q) d.
Proof.
  induction n as [|n IH]; intros [rp b mx d] h rest Er Hn Hf; [lia|]. cbn [ready_packets buffered_bytes max_buffered_bytes] in *. subst rp.
  cbn [make_space buffered_bytes max_buffered_bytes]. rewrite (proj2 (Z.leb_le _ _)) by done. destruct rest as [|x rest]; [by eexists|]. cbn [drop_old ready_packets buffered_bytes max_buffered_bytes drops].
  apply (IH (mkPQ (h :: rest) b mx (u32_add d 1)) h rest); [done|cbn in Hn; lia|done].
Qed.

Lemma pop_counted leak q : counted leak q -> counted leak (pop_head q) /\ ready_packets (pop_head q) = tail (ready_packets q).
Proof.
  intros (Eb & Hl & Ht). unfold pop_head, counted. destruct (ready_packets q) as [|p ps] eqn:Er; [by rewrite Er|]. rewrite total_cons in *.
  pose proof (total_nonneg ps). pose proof (pkt_bytes_nonneg p). cbn [ready_packets buffered_bytes]. rewrite u32_sub_small by lia. split; [lia|done].
Qed.

(** ** Runs of the queue *)
Inductive pq_op := PqEnqueue p | PqPop | PqFlush.
Definition pq_exec (op : pq_op) q : result xorp_exn (PacketQueue A) :=
  match op with PqEnqueue p => Ok (enqueue_packet p q) | PqPop => Ok (pop_head q) | PqFlush => flush_packets q end.
Fixpoint pq_run (ops : list pq_op) q : result xorp_exn (PacketQueue A) :=
  match ops with [] => Ok q | op :: ops => q <-! pq_exec op q ;; pq_run ops q end.
(** The reference: a list of packets. *)
Definition fifo_exec (op : pq_op) ps : list (RipPacket A) :=
  match op with PqEnqueue p => ps ++ [p] | PqPop => tail ps | PqFlush => [] end.
Fixpoint fits_all (mx : Z) (ops : list pq_op) ps : Prop :=
  match ops with [] => True | op :: ops => total (fifo_exec op ps) < mx /\ fits_all mx ops (fifo_exec op ps) end.

Lemma pq_run_fifo ops : forall q, counted 0 q -> max_buffered_bytes q < 2 ^ 31 -> fits_all (max_buffered_bytes q) ops (ready_packets q) ->
  exists q', pq_run ops q = Ok q' /\ counted 0 q' /\ ready_packets q' = fold_left (fun ps op => fifo_exec op ps) ops (ready_packets q).
Proof.
  induction ops as [|op ops IH]; intros q Hq Hm Hf; [by exists q|]. destruct Hf as [Hf Hfs]. cbn [pq_run fold_left].
  assert (Hstep : exists q1, pq_exec op q = Ok q1 /\ counted 0 q1 /\ ready_packets q1 = fifo_exec op (ready_packets q) /\ max_buffered_bytes q1 = max_buffered_bytes q).
  { destruct op as [p| |]; cbn [pq_exec fifo_exec] in *.
    - rewrite total_app, (total_cons p []) in Hf. destruct Hq as (Eb & Hl & Ht). rewrite total_nil in Hf.
      destruct (enqueue_room 0 p q) as [E Hc]; [by split|lia|done|]. exists (enqueue_packet p q). by rewrite E in *.
    - destruct (pop_counted 0 q Hq) as [Hc E]. exists (pop_head q). split; [done|]. split; [done|]. split; [done|]. unfold pop_head. by destruct (ready_packets q).
    - rewrite (flush_counted 0 q Hq), decide_True by done. eexists. split; [done|]. split; [|done]. unfold counted. cbn [ready_packets buffered_bytes]. rewrite total_nil. lia. }
  destruct Hstep as (q1 & -> & Hq1 & Er & Em). cbn [result_bind]. rewrite <- Er. apply IH; [done|by rewrite Em|]. by rewrite Em, Er.
Qed.

(** the packet queue keeps packets in order.  As long as the packets that wait have together fewer octets than the
    limit, any sequence of enqueueing, sending and flushing leaves exactly the packets a list would hold, in order, and
    the count of octets is theirs. *)
Theorem packet_queue_fifo ops (mx d : Z) : mx < 2 ^ 31 -> fits_all mx ops [] ->
  exists q, pq_run ops (mkPQ [] 0 mx d) = Ok q /\ ready_packets q = fold_left (fun ps op => fifo_exec op ps) ops [] /\ buffered_bytes q = total (ready_packets q).
Proof.
  intros Hm Hf. destruct (pq_run_fifo ops (mkPQ [] 0 mx d)) as (q & E & Hc & Er); [unfold counted; cbn [ready_packets buffered_bytes]; rewrite total_nil; lia|done|done|].
  exists q. split; [done|]. split; [done|]. destruct Hc as (Eb & _). lia.
Qed.

(** a queue that has dropped a packet ends the program.  When a packet does not fit and at least two wait, all but the
    first are dropped but stay in the count of octets; the next flush, or the end of the queue, aborts. *)
Theorem packet_queue_drop_aborts p q h x rest : counted 0 q -> ready_packets q = h :: x :: rest -> 0 < pkt_bytes x ->
  total (ready_packets q) + pkt_bytes p < 2 ^ 31 -> max_buffered_bytes q <= total (ready_packets q) + pkt_bytes p ->
  ready_packets (enqueue_packet p q) = [h; p] /\ flush_packets (enqueue_packet p q) = Throw AssertFailed.
Proof.
  intros (Eb & _ & Ht) Er Hx Hs Hf. pose proof (total_nonneg rest). pose proof (pkt_bytes_nonneg p). pose proof (pkt_bytes_nonneg h).
  rewrite Er, !total_cons in *. destruct (make_space_full p (S (length (ready_packets q))) q h (x :: rest) Er) as (d & E).
  { rewrite Er. cbn. lia. }
  { rewrite u32_add_small by lia. lia. }
  unfold enqueue_packet. rewrite E. cbn [ready_packets buffered_bytes max_buffered_bytes drops app]. rewrite u32_add_small by lia. split; [done|].
  rewrite (flush_counted (pkt_bytes x + total rest)); [by rewrite decide_False by lia|].
  unfold counted. cbn [ready_packets buffered_bytes]. rewrite !total_cons, total_nil. lia.
Qed.
End QueueProps.

(** ** What an assembler promises *)
Definition told (A : Type) : Type := IPNet A * A * Z * Z.
Class AssemblerLaws {A H : Type} (asm : assembler A H) := {
  al_hok : H -> Prop;
  (** The state of the authentication after some packets. *)
  al_next : H -> H -> Prop;
  al_next_refl h : al_next h h;
  al_next_trans h1 h2 h3 : al_next h1 h2 -> al_next h2 h3 -> al_next h1 h3;
  al_told_ok : told A -> Prop;
  (** The assembler has taken these routes. *)
  al_holds : H -> as_state asm -> list (told A) -> Prop;
  (** The packet, sent with this state of the authentication, says these routes. *)
  al_carries : H -> RipPacket A -> list (told A) -> Prop;
  al_start h addr port : al_hok h -> al_holds h (as_start asm h (pkt_new addr port RIPv2_ROUTES_PER_PACKET)) [];
  al_room h a : al_holds h a [] -> as_full asm a = false;
  al_add h a rs net nh c t : al_holds h a rs -> as_full asm a = false -> al_told_ok (net, nh, c, t) ->
    exists a', as_add asm net nh c t a = Ok (a', true) /\ al_holds h a' (rs ++ [(net, nh, c, t)]);
  al_finish h a rs : al_holds h a rs -> rs <> [] ->
    exists h' ps, as_finish asm a = Ok (h', Some ps) /\ al_hok h' /\ al_next h h' /\ ps <> [] /\ Forall (fun p => al_carries h p rs) ps }.

Section Dump.
Context {A H : Type} `{AddrSpec A, !EqDecision A, !NextHop A, !forall n : IPNet A, Decision (net_wf n)}.
Context (asm : assembler A H) `{!AssemblerLaws asm}.
Abbreviation Net := (rip_net A).
Abbreviation route := (RouteEntry Net A).
Abbreviation db := (RouteDB Net A).
Implicit Types (s : db) (r : route).
Context (policy : route -> A * Z) (policy_timer : forall t r, policy (set_timer t r) = policy r).

(** What is told of a route, and of a part of the table. *)
Definition tell r : option (told A) :=
  if re_filtered r then None
  else let '(nh, cost) := policy r in if RIP_INFINITY <? cost then None else Some (proj1_sig (re_net r), nh, cost16 cost, re_tag r).
Definition advertised s (l : list (Net * nat)) : list (told A) := omap (fun x => db_heap s !! x.2 ≫= tell) l.

Record table_ok s : Prop := {
  to_sorted : m_sorted (db_routes s);
  to_alive : forall k p, (k, p) ∈ db_routes s -> exists r, db_heap s !! p = Some r /\ re_net r = k;
  to_told : Forall al_told_ok (advertised s (db_routes s)) }.

Lemma table_split s pre k p l : table_ok s -> db_routes s = pre ++ (k, p) :: l ->
  (exists r, db_heap s !! p = Some r /\ re_net r = k) /\ m_find k (db_routes s) = Some p.
Proof.
  intros Ht E. assert (Hin : (k, p) ∈ db_routes s) by (rewrite E; apply elem_of_app; right; by left).
  split; [by apply Ht|]. apply find_elem; [apply Ht|done].
Qed.

(** ** The iterators *)
Lemma sorted_app_lt {V} (pre l : list (Net * V)) k v : m_sorted (pre ++ (k, v) :: l) ->
  (forall x, x ∈ pre -> key_ltb x.1 k = true) /\ (forall x, x ∈ l -> key_ltb k x.1 = true).
Proof.
  induction pre as [|[k0 v0] pre IH]; cbn [app]; intros Hs; apply sorted_cons in Hs as [Hs Hlt].
  - split; [by intros x ?%elem_of_nil|]. intros [k' v'] Hx. by apply (Hlt k' v').
  - destruct (IH Hs) as [Ha Hb]. split; [|done]. intros x [->|Hx]%elem_of_cons; [|by apply Ha]. apply (Hlt k v), elem_of_app. right. by left.
Qed.
Lemma netcmp_key (x y : Net) : netcmp (`x) (`y) = key_ltb x y.
Proof. done. Qed.

Lemma upper_bound_next {V} (pre l : list (Net * V)) k v : m_sorted (pre ++ (k, v) :: l) -> m_upper_bound (`k) (pre ++ (k, v) :: l) = m_begin l.
Proof.
  intros Hs. destruct (sorted_app_lt _ _ _ _ Hs) as [Hlt Hgt]. clear Hs. induction pre as [|[k0 v0] pre IH]; cbn [app m_upper_bound]; rewrite netcmp_key.
  - rewrite key_irrefl. destruct l as [|[k' v'] l]; [done|]. cbn [m_upper_bound m_begin]. rewrite netcmp_key.
    pose proof (Hgt (k', v') ltac:(by left)) as E. cbn in E. by rewrite E.
  - destruct (key_ltb k k0) eqn:E; [|apply IH; intros x Hx; apply Hlt; by right].
    pose proof (Hlt (k0, v0) ltac:(by left)) as E2. cbn in E2. pose proof (key_trans _ _ _ E E2) as E3. by rewrite key_irrefl in E3.
Qed.
Lemma find_net_at {V} (pre l : list (Net * V)) k v : m_sorted (pre ++ (k, v) :: l) -> m_find_net (`k) (pre ++ (k, v) :: l) = Some k.
Proof.
  intros Hs. destruct (sorted_app_lt _ _ _ _ Hs) as [Hlt _]. clear Hs. induction pre as [|[k0 v0] pre IH]; cbn [app m_find_net]; rewrite !netcmp_key.
  - by rewrite key_irrefl.
  - pose proof (Hlt (k0, v0) ltac:(by left)) as E. cbn in E. rewrite E, andb_false_r. apply IH. intros x Hx. apply Hlt. by right.
Qed.
Lemma not_no_net {V} (pre l : list (Net * V)) k v : m_sorted (pre ++ (k, v) :: l) -> pre <> [] -> net_eqb (`k) NO_NET = false.
Proof.
  intros Hs Hne. destruct (sorted_app_lt _ _ _ _ Hs) as [Hlt _]. destruct pre as [|[k0 v0] pre]; [done|].
  pose proof (Hlt (k0, v0) ltac:(by left)) as E. cbn in E. rewrite <- netcmp_key, netcmp_spec in E by apply proj2_dsig.
  apply not_true_is_false. intros En. destruct (a_not_spec a_zero (proj1 a_zero_spec)) as [Hz _].
  destruct (net_new_ok (a_not a_zero) 0 Hz) as (m & Em & Hm & Ep & _); [pose proof bitlen_pos; lia|].
  unfold NO_NET in En. rewrite Em in En. apply net_eqb_spec in En; [|apply proj2_dsig|done].
  pose proof (proj2_dsig k0) as W0. pose proof (net_wf_lo _ W0). destruct W0 as (_ & Hp0 & _).
  pose proof (net_wf_hi _ Hm). pose proof (net_wf_lo _ Hm) as Hlo. rewrite En in E. unfold net_hi, net_free in *. rewrite Ep, Z.sub_0_r in *. lia.
Qed.

(** The walker at the head of the rest of the table. *)
Definition walks (w : RouteWalker) s (l : list (Net * nat)) : Prop := rw_state w = STATE_RUNNING /\ rw_pos w = m_begin l.

Lemma walk_deref w s pre l : table_ok s -> db_routes s = pre ++ l -> walks w s l ->
  rw_deref w s = Ok (match l with [] => None | (k, p) :: _ => (fun r => (p, r)) <$> db_heap s !! p end).
Proof.
  intros Ht E [_ Ep]. unfold rw_deref. rewrite Ep. destruct l as [|[k p] l]; [done|]. cbn.
  destruct (table_split s pre k p l Ht E) as [(r & Hp & _) ->]. unfold deref. by rewrite Hp.
Qed.
Lemma walk_next w s pre k p l : table_ok s -> db_routes s = pre ++ (k, p) :: l -> walks w s ((k, p) :: l) ->
  exists w', next_route w s = Ok (w', match l with [] => None | (k, p) :: _ => (fun r => (p, r)) <$> db_heap s !! p end) /\ walks w' s l.
Proof.
  intros Ht E [Es Ep]. unfold next_route. rewrite Es, Ep. cbn [m_begin]. rewrite E, upper_bound_next by (rewrite <- E; apply Ht).
  set (w' := mkRW _ _ _). assert (Hw : walks w' s l) by done. rewrite (walk_deref w' s (pre ++ [(k, p)]) l Ht); [|by rewrite <- app_assoc|done].
  by exists w'.
Qed.

(** ** One packet *)
Definition cur_of s (l : list (Net * nat)) : option (nat * route) :=
  match l with [] => None | (k, p) :: _ => (fun r => (p, r)) <$> db_heap s !! p end.

Lemma advertised_cons s k p l r : db_heap s !! p = Some r -> advertised s ((k, p) :: l) = option_list (tell r) ++ advertised s l.
Proof. intros Hp. unfold advertised. cbn [omap list_omap snd]. rewrite Hp. cbn. by destruct (tell r). Qed.
Lemma advertised_app s l1 l2 : advertised s (l1 ++ l2) = advertised s l1 ++ advertised s l2.
Proof. apply omap_app. Qed.

Lemma fill_table_ok h s : forall l n pre w a rs done, table_ok s -> db_routes s = pre ++ l -> walks w s l -> (length l < n)%nat ->
  al_holds h a rs -> as_full asm a = false ->
  exists w' a' l1 l2 more, fill_table asm n policy w (cur_of s l) a done s = Ok (w', a', (done + length (advertised s l1))%nat, more)
    /\ l = l1 ++ l2 /\ walks w' s l2 /\ al_holds h a' (rs ++ advertised s l1)
    /\ if more : bool then advertised s l1 <> [] else l2 = [].
Proof.
  induction l as [|[k p] l IH]; intros n pre w a rs done Ht E Hw Hn Ha Hf.
  { exists w, a, [], [], false. change (advertised s []) with (@nil (told A)). rewrite (app_nil_r rs). cbn [length]. rewrite Nat.add_0_r.
    split; [by destruct n|]. by split_conj. }
  destruct n as [|n]; [cbn in Hn; lia|]. destruct (table_split s pre k p l Ht E) as [(r & Hp & En) _].
  destruct (walk_next w s pre k p l Ht E Hw) as (w1 & Ew & Hw1). fold (cur_of s l) in Ew.
  assert (E1 : db_routes s = (pre ++ [(k, p)]) ++ l) by (by rewrite <- app_assoc).
  assert (Hn1 : (length l < n)%nat) by (cbn in Hn; lia).
  cbn [cur_of]. rewrite Hp. cbn [fmap option_fmap option_map fill_table]. rewrite Ew. cbn [result_bind fst snd].
  assert (Hskip : tell r = None -> exists w' a' l1 l2 more, fill_table asm n policy w1 (cur_of s l) a done s = Ok (w', a', (done + length (advertised s l1))%nat, more)
    /\ (k, p) :: l = l1 ++ l2 /\ walks w' s l2 /\ al_holds h a' (rs ++ advertised s l1) /\ if more : bool then advertised s l1 <> [] else l2 = []).
  { intros Et. destruct (IH n (pre ++ [(k, p)]) w1 a rs done Ht E1 Hw1 Hn1 Ha Hf) as (w' & a' & l1 & l2 & more & Ef & -> & Hw' & Ha' & Hm).
    exists w', a', ((k, p) :: l1), l2, more. rewrite (advertised_cons s k p l1 r Hp), Et. by split_conj. }
  unfold tell in Hskip. destruct (re_filtered r) eqn:Efl; [by apply Hskip|]. destruct (policy r) as [nh cost] eqn:Epol.
  destruct (RIP_INFINITY <? cost) eqn:Einf; [by apply Hskip|]. clear Hskip.
  assert (Et : tell r = Some (proj1_sig (re_net r), nh, cost16 cost, re_tag r)) by (unfold tell; by rewrite Efl, Epol, Einf).
  assert (Hok : al_told_ok (proj1_sig (re_net r), nh, cost16 cost, re_tag r)).
  { pose proof (to_told s Ht) as Hall. rewrite E, advertised_app, (advertised_cons s k p l r Hp), Et in Hall. apply Forall_app in Hall as [_ Hall].
    by apply Forall_cons in Hall as [? _]. }
  destruct (al_add h a rs _ nh (cost16 cost) (re_tag r) Ha Hf Hok) as (a1 & -> & Ha1). cbn [result_bind fst]. destruct (as_full asm a1) eqn:Ef1.
  - exists w1, a1, [(k, p)], l, true. rewrite (advertised_cons s k p [] r Hp), Et. change (advertised s []) with (@nil (told A)). cbn [option_list app length].
    split; [by rewrite Nat.add_1_r|]. by split_conj.
  - destruct (IH n (pre ++ [(k, p)]) w1 a1 _ (S done) Ht E1 Hw1 Hn1 Ha1 Ef1) as (w' & a' & l1 & l2 & more & Ef & -> & Hw' & Ha' & Hm).
    exists w', a', ((k, p) :: l1), l2, more. rewrite (advertised_cons s k p l1 r Hp), Et. cbn [option_list app length]. rewrite <- app_assoc in Ha'.
    split; [by rewrite Ef, Nat.add_succ_comm|]. split_conj; try done. by destruct more.
Qed.

(** The change of a timer keeps the table. *)
Definition same_told s s' : Prop := db_routes s' = db_routes s /\ forall p r, db_heap s !! p = Some r -> exists t, db_heap s' !! p = Some (set_timer t r).
Lemma tell_timer t r : tell (set_timer t r) = tell r.
Proof. unfold tell. rewrite policy_timer. done. Qed.
Lemma same_advertised s s' l : same_told s s' -> (forall k p, (k, p) ∈ l -> is_Some (db_heap s !! p)) -> advertised s' l = advertised s l.
Proof.
  intros [_ Hs] Hl. unfold advertised. induction l as [|[k p] l IH]; [done|]. cbn [omap list_omap snd]. destruct (Hl k p) as [r Hr]; [by left|].
  destruct (Hs p r Hr) as [t Ht]. rewrite Hr, Ht. cbn [mbind option_bind]. rewrite tell_timer, IH; [done|]. intros k' p' Hin. apply (Hl k'). by right.
Qed.
Lemma same_table_ok s s' : table_ok s -> same_told s s' -> table_ok s' /\ forall l1 l2, db_routes s = l1 ++ l2 -> advertised s' l2 = advertised s l2.
Proof.
  intros Ht Hs. assert (Ha : forall l1 l2, db_routes s = l1 ++ l2 -> advertised s' l2 = advertised s l2).
  { intros l1 l2 E. apply same_advertised; [done|]. intros k p Hin. destruct (to_alive s Ht k p) as (r & Hr & _); [rewrite E; apply elem_of_app; by right|by exists r]. }
  split; [|done]. destruct Hs as [Er Hh]. split.
  - rewrite Er. apply Ht.
  - intros k p Hin. rewrite Er in Hin. destruct (to_alive s Ht k p Hin) as (r & Hr & <-). destruct (Hh p r Hr) as [t Ht']. by exists (set_timer t r).
  - rewrite Er, (Ha [] (db_routes s)) by done. apply Ht.
Qed.

Lemma set_timer_same r : set_timer (re_timer r) r = r.
Proof. by destruct r. Qed.
Lemma same_told_refl s : same_told s s.
Proof. split; [done|]. intros p r Hp. exists (re_timer r). by rewrite set_timer_same. Qed.
Lemma same_told_trans s1 s2 s3 : same_told s1 s2 -> same_told s2 s3 -> same_told s1 s3.
Proof.
  intros [E1 H1'] [E2 H2']. split; [congruence|]. intros p r Hp. destruct (H1' p r Hp) as [t Ht]. destruct (H2' p _ Ht) as [t' Ht']. by exists t'.
Qed.
Lemma same_told_now t s : same_told s (with_now t s).
Proof. apply (same_told_refl s). Qed.

(** An interrupted dump: the rest of the table is still to be told. *)
Definition to_tell (o : OutputTable) s (pre l : list (Net * nat)) : Prop :=
  db_routes s = pre ++ l /\
  if ot_rw_valid o then
    rw_state (ot_rw o) = STATE_PAUSED
    /\ match l with
       | [] => rw_last_visited (ot_rw o) = NO_NET
       | (k, _) :: _ => rw_last_visited (ot_rw o) = `k /\ pre <> []
       end
  else pre = [].

Lemma resume_walks o s pre l : table_ok s -> to_tell o s pre l -> walks (rw_resume (if ot_rw_valid o then ot_rw o else rw_reset s (ot_rw o)) s) s l.
Proof.
  intros Ht [E Hc]. destruct (ot_rw_valid o); [|subst pre; split; [done|cbn; by rewrite E]]. destruct Hc as [Es Hl]. unfold rw_resume. rewrite Es. split; [done|]. cbn.
  destruct l as [|[k p] l].
  - rewrite Hl. destruct (net_eqb NO_NET NO_NET) eqn:En; [done|]. exfalso. apply not_true_iff_false in En. apply En.
    unfold net_eqb. rewrite Z.eqb_refl, andb_true_l. destruct (a_not_spec a_zero (proj1 a_zero_spec)) as [Hz _].
    destruct (net_new_ok (a_not a_zero) 0 Hz) as (m & Em & Hm & _); [pose proof bitlen_pos; lia|]. unfold NO_NET. rewrite Em. by apply a_eqb_eq; [apply Hm..|].
  - destruct Hl as [-> Hne]. assert (Hs : m_sorted (pre ++ (k, p) :: l)) by (rewrite <- E; apply Ht).
    by rewrite (not_no_net pre l k p Hs Hne), E, (find_net_at pre l k p Hs).
Qed.

Lemma pause_ok gap w s pre l : table_ok s -> db_routes s = pre ++ l -> walks w s l ->
  exists w' s', rw_pause gap w s = Ok (w', s') /\ same_told s s' /\ rw_state w' = STATE_PAUSED
    /\ rw_last_visited w' = match l with [] => NO_NET | (k, _) :: _ => `k end.
Proof.
  intros Ht E Hw. unfold rw_pause. rewrite (proj1 Hw), (walk_deref w s pre l Ht E Hw). cbn [result_bind]. destruct l as [|[k p] l].
  { eexists _, s. split; [done|]. split; [apply same_told_refl|done]. }
  destruct (table_split s pre k p l Ht E) as [(r & Hp & En) _]. rewrite Hp. cbn [fmap option_fmap option_map].
  eexists _, _. split; [reflexivity|]. split; [|split; [done|cbn; by rewrite En]].
  destruct (re_timer r) as [t|]; [|apply same_told_refl]. destruct (_ && _); [|apply same_told_refl]. split; [done|].
  intros q x Hq. rewrite put_lookup. case_decide as Eq; [|by exists (re_timer x); rewrite set_timer_same]. subst q. rewrite Hp in Hq. injection Hq as <-. by eexists.
Qed.

(** The packets of one turn say these routes. *)
Definition batch_ok (h0 : H) (ps : list (RipPacket A)) (rs : list (told A)) : Prop :=
  (rs = [] /\ ps = []) \/ (rs <> [] /\ ps <> [] /\ exists h, al_next h0 h /\ al_hok h /\ Forall (fun p => al_carries h p rs) ps).
Lemma batch_next h h' ps rs : al_next h h' -> batch_ok h' ps rs -> batch_ok h ps rs.
Proof. intros Hn [?|(Hr & Hne & h1 & Hn1 & ?)]; [by left|]. right. split; [done|]. split; [done|]. exists h1. split; [by eapply al_next_trans|done]. Qed.

Lemma output_packet_ok gap h o s pre l : table_ok s -> al_hok h -> to_tell o s pre l ->
  exists o' h' ps s' l1 l2, ot_output_packet asm policy gap h o s = Ok (o', h', ps, s') /\ l = l1 ++ l2 /\ same_told s s' /\ al_hok h' /\ al_next h h'
    /\ batch_ok h ps (advertised s l1)
    /\ match ot_op_timer o' with Some _ => l1 <> [] /\ to_tell o' s' (pre ++ l1) l2 | None => l2 = [] end.
Proof.
  intros Ht Hh Hc. pose proof (resume_walks o s pre l Ht Hc) as Hw. unfold ot_output_packet. set (w := rw_resume _ s) in *.
  destruct Hc as [E _]. unfold current_route. rewrite (proj1 Hw), (walk_deref w s pre l Ht E Hw). cbn [result_bind].
  pose proof (al_start h (ot_addr o) (ot_port o) Hh) as Ha0. set (a0 := as_start asm h _) in *.
  destruct (fill_table_ok h s l (S (length (db_routes s))) pre w a0 [] 0 Ht E Hw) as (w' & a' & l1 & l2 & more & Ef & -> & Hw' & Ha' & Hm);
    [rewrite E, length_app; lia|exact Ha0|by eapply al_room|].
  unfold cur_of in Ef. rewrite Ef. cbn [result_bind app Nat.add] in *.
  assert (Hfin : exists h' ps, (if (length (advertised s l1) =? 0)%nat then Ok (h, None) else as_finish asm a') = Ok (h', ps) /\ al_hok h' /\ al_next h h'
    /\ batch_ok h (default [] ps) (advertised s l1)).
  { destruct (Nat.eqb_spec (length (advertised s l1)) 0) as [El|El].
    - apply nil_length_inv in El. exists h, None. split; [done|]. split; [done|]. split; [apply al_next_refl|]. left. by rewrite El.
    - destruct (al_finish h a' _ Ha') as (h' & ps & -> & Hh' & Hnx & Hne & Hps); [by intros Eq; rewrite Eq in El|]. exists h', (Some ps). split; [done|]. split; [done|].
      split; [done|]. right. split; [by intros Eq; rewrite Eq in El|]. split; [done|]. exists h. split; [apply al_next_refl|done]. }
  destruct Hfin as (h' & ps & -> & Hh' & Hnx & Hb). cbn [result_bind]. destruct more.
  - rewrite app_assoc in E. destruct (pause_ok gap w' s (pre ++ l1) l2 Ht E Hw') as (w2 & s2 & -> & Hs2 & Es & El). cbn [result_bind].
    eexists _, h', _, s2, l1, l2. split; [reflexivity|]. split; [done|]. split; [done|]. split; [done|]. split; [done|]. split; [done|]. cbn [ot_op_timer].
    assert (Hne : l1 <> []) by (intros ->; by apply Hm). split; [done|]. split; [destruct Hs2 as [-> _]; exact E|]. cbn [ot_rw_valid ot_rw]. split; [done|]. rewrite El.
    destruct l2 as [|[k p] l2]; [done|]. split; [done|]. destruct pre; [done|discriminate].
  - subst l2. eexists _, h', _, s, l1, []. split; [reflexivity|]. split; [done|]. split; [apply same_told_refl|]. by split_conj.
Qed.

(** ** The whole dump: the timer runs out until there is nothing left *)
Fixpoint dump (n : nat) (gap : Z) (h : H) (o : OutputTable) s : result xorp_exn (list (list (RipPacket A)) * OutputTable * H * db) :=
  match n with
  | O => Throw OutOfBounds
  | S n =>
      x <-! ot_output_packet asm policy gap h o s ;;
      let '(o, h, ps, s) := x in
      match ot_op_timer o with
      | None => Ok ([ps], o, h, s)
      | Some t => y <-! dump n gap h o (with_now t s) ;; let '(pss, o, h, s) := y in Ok (ps :: pss, o, h, s)
      end
  end.

Lemma dump_ok gap : forall n l h o s pre, (length l < n)%nat -> table_ok s -> al_hok h -> to_tell o s pre l ->
  exists pss o' h' s' rss, dump n gap h o s = Ok (pss, o', h', s') /\ ot_op_timer o' = None /\ same_told s s'
    /\ Forall2 (batch_ok h) pss rss /\ concat rss = advertised s l.
Proof.
  induction n as [|n IH]; intros l h o s pre Hn Ht Hh Hc; [lia|]. cbn [dump].
  destruct (output_packet_ok gap h o s pre l Ht Hh Hc) as (o1 & h1 & ps & s1 & l1 & l2 & -> & -> & Hs1 & Hh1 & Hnx & Hb & Hnext). cbn [result_bind].
  destruct (ot_op_timer o1) as [t|] eqn:Et.
  - destruct Hnext as [Hne Hc1]. destruct (same_table_ok s s1 Ht Hs1) as [Ht1 Ha1]. set (s2 := with_now t s1).
    pose proof (same_told_now t s1) as Hs12. destruct (same_table_ok s1 s2 Ht1 Hs12) as [Ht2 Ha2].
    destruct (IH l2 h1 o1 s2 (pre ++ l1)) as (pss & o' & h' & s' & rss & -> & Eo & Hs' & Hf & Ec); [|done|done|exact Hc1|].
    { rewrite length_app in Hn. destruct l1; [done|cbn in Hn; lia]. }
    cbn [result_bind]. exists (ps :: pss), o', h', s', (advertised s l1 :: rss). split; [done|]. split; [done|].
    split; [eapply same_told_trans; [exact Hs1|eapply same_told_trans; [exact Hs12|exact Hs']]|].
    split; [constructor; [done|eapply Forall2_impl; [exact Hf|]; intros; by eapply batch_next]|].
    assert (Er1 : db_routes s1 = (pre ++ l1) ++ l2) by apply Hc1. assert (Er : db_routes s = (pre ++ l1) ++ l2) by (rewrite <- Er1; symmetry; apply Hs1).
    cbn [concat]. rewrite Ec, advertised_app. f_equal. rewrite (Ha2 (pre ++ l1) l2) by done. by apply (Ha1 (pre ++ l1)).
  - subst l2. rewrite app_nil_r. exists [ps], o1, h1, s1, [advertised s l1]. split; [done|]. split; [done|]. split; [done|]. split; [by constructor|]. cbn. by rewrite app_nil_r.
Qed.

(** C19: a dump of the table is complete.  A dump that nothing interrupts but its own pauses ends after at most one turn per
    route; the packets of its turns together say every route the policy lets out, once each and in the order of the table,
    with the costs of the policy, whatever the address family and the authentication. *)
Theorem output_table_complete gap h o s : table_ok s -> al_hok h -> ot_rw_valid o = false ->
  exists pss o' h' s' rss, dump (S (length (db_routes s))) gap h o s = Ok (pss, o', h', s') /\ ot_running o' = false
    /\ Forall2 (batch_ok h) pss rss /\ concat rss = advertised s (db_routes s).
Proof.
  intros Ht Hh Hv. destruct (dump_ok gap (S (length (db_routes s))) (db_routes s) h o s []) as (pss & o' & h' & s' & rss & E & Eo & _ & Hf & Ec);
    [lia|done|done|split; [done|by rewrite Hv]|].
  exists pss, o', h', s', rss. split; [done|]. split; [unfold ot_running; by rewrite Eo|]. done.
Qed.
End Dump.
