(* ===== verification/RipAsm.v ===== *)
(** * The assemblers keep what an assembler promises

    [assembler4] with its authentication handlers, and [assembler6], as instances of
    [AssemblerLaws]: what a packet says is what the code that receives it reads. *)

From Stdlib Require Import ZArith Lia.
From stdpp Require Import base tactics option numbers list gmap.
From S2P Require Import Prelude Word32 Addr IPv4 IPv6 IPNet VrrpPacket VrrpPacketProps RipRoute RipPacket RipAuth.
From S2P Require Import RipOutput RipOutputProps.
Local Open Scope Z_scope.
Local Open Scope xorp_scope.

(** ** Buffers of entries *)
Definition entries20 (es : list (list Z)) : Prop := Forall (fun e => length e = ENTRY_SIZE) es.

Lemma concat20_length es : entries20 es -> length (concat es) = (length es * ENTRY_SIZE)%nat.
Proof. induction 1 as [|e es He _ IH]; [done|]. cbn [concat length]. rewrite length_app, IH, He. lia. Qed.
Lemma entries20_snoc es e : entries20 es -> length e = ENTRY_SIZE -> entries20 (es ++ [e]).
Proof. intros He Hl. apply Forall_app. split; [done|]. by constructor. Qed.

Lemma put_entry hd es rest e : length hd = HEADER_SIZE -> entries20 es -> length e = ENTRY_SIZE -> (ENTRY_SIZE <= length rest)%nat ->
  VrrpPacket.put (HEADER_SIZE + length es * ENTRY_SIZE) e (hd ++ concat es ++ rest) = hd ++ concat (es ++ [e]) ++ drop ENTRY_SIZE rest.
Proof.
  intros Hh He Hl Hr. rewrite app_assoc, put_app by (rewrite length_app, concat20_length by done; lia). rewrite concat_app. cbn [concat]. rewrite app_nil_r, <- !app_assoc, Hl. done.
Qed.
Lemma put_first hd es rest e0 e : length hd = HEADER_SIZE -> length e0 = ENTRY_SIZE -> length e = ENTRY_SIZE ->
  VrrpPacket.put HEADER_SIZE e (hd ++ concat (e0 :: es) ++ rest) = hd ++ concat (e :: es) ++ rest.
Proof. intros Hh Hl0 Hl. rewrite put_app by done. cbn [concat]. rewrite <- !app_assoc, Hl, <- Hl0, drop_app_length. done. Qed.
Lemma resize_entries hd es rest : length hd = HEADER_SIZE -> entries20 es ->
  resize (ENTRY_SIZE * length es + HEADER_SIZE) (hd ++ concat es ++ rest) = hd ++ concat es.
Proof.
  intros Hh He. unfold resize. pose proof (concat20_length es He) as Hc.
  assert (Hl : length (hd ++ concat es) = (ENTRY_SIZE * length es + HEADER_SIZE)%nat) by (rewrite length_app; lia).
  rewrite app_assoc, <- Hl, take_app_length. rewrite !length_app. replace (_ - _)%nat with 0%nat by lia. apply app_nil_r.
Qed.

Lemma entry_at_ok hd es rest e n off : length hd = off -> entries20 es -> es !! n = Some e -> entry_at (hd ++ concat es ++ rest) off n = Ok e.
Proof.
  intros Hh He Hn. pose proof (take_drop_middle es n e Hn) as Em. pose proof (lookup_lt_Some _ _ _ Hn) as Hlt.
  assert (Hl : length e = ENTRY_SIZE) by (by eapply Forall_lookup_1 in He).
  assert (Ht : entries20 (take n es)) by (by apply Forall_take). unfold entry_at.
  rewrite (proj2 (Nat.leb_le _ _)) by (rewrite !length_app, concat20_length by done; unfold ENTRY_SIZE; lia).
  f_equal. rewrite <- Em, concat_app. cbn [concat]. rewrite <- !app_assoc, app_assoc, drop_app_length'.
  - rewrite <- Hl. apply take_app_length.
  - rewrite length_app, concat20_length, length_take by done. lia.
Qed.

(** The packet holds the entries, and room for others. *)
Record filled {A} (p : RipPacket A) (hd : list Z) (es : list (list Z)) : Prop := {
  fi_data : exists rest, pk_data p = hd ++ concat es ++ rest /\ (length rest = (pk_max_entries p - length es) * ENTRY_SIZE)%nat;
  fi_head : length hd = HEADER_SIZE;
  fi_entries : entries20 es;
  fi_max : (length es <= pk_max_entries p)%nat }.

Lemma filled_write {A} (p : RipPacket A) hd es e : filled p hd es -> length e = ENTRY_SIZE -> (length es < pk_max_entries p)%nat ->
  exists p', write_entry (length es) e p = Ok p' /\ filled p' hd (es ++ [e]) /\ pk_max_entries p' = pk_max_entries p.
Proof.
  intros [(rest & Ed & Hr) Hh He Hm] Hl Hlt. unfold write_entry, route_entry_ptr. rewrite (proj2 (Nat.leb_gt _ _)) by done.
  eexists. split; [reflexivity|]. split; [|done]. unfold ENTRY_SIZE in *. split; cbn [write_data pk_data pk_max_entries].
  - exists (drop 20 rest). rewrite Ed, put_entry by (done || (unfold ENTRY_SIZE; lia)). split; [done|]. rewrite length_drop, length_app. cbn [length]. unfold ENTRY_SIZE. lia.
  - done.
  - by apply entries20_snoc.
  - rewrite length_app. cbn. lia.
Qed.
Lemma filled_finish {A} (p : RipPacket A) hd es : filled p hd es ->
  pk_data (set_max_entries (length es) p) = hd ++ concat es /\ pk_max_entries (set_max_entries (length es) p) = length es.
Proof.
  intros [(rest & Ed & Hr) Hh He Hm]. unfold set_max_entries. case_decide as El.
  - split; [|done]. rewrite Ed. assert (rest = []) as -> by (apply nil_length_inv; lia). by rewrite app_nil_r.
  - cbn. split; [|done]. rewrite Ed. by apply resize_entries.
Qed.
Lemma filled_first {A} (p : RipPacket A) hd e0 es e : pk_data p = hd ++ concat (e0 :: es) -> pk_max_entries p = S (length es) -> length hd = HEADER_SIZE ->
  length e0 = ENTRY_SIZE -> length e = ENTRY_SIZE -> exists p', write_entry 0 e p = Ok p' /\ pk_data p' = hd ++ concat (e :: es) /\ pk_max_entries p' = S (length es).
Proof.
  intros Ed Em Hh Hl0 Hl. unfold write_entry, route_entry_ptr. rewrite Em. cbn. eexists. split; [reflexivity|]. split; [|done]. cbn [write_data pk_data].
  pose proof (put_first hd es [] e0 e Hh Hl0 Hl) as Hp. rewrite !app_nil_r in Hp. rewrite Ed. exact Hp.
Qed.

(** The entries of a received packet, from the offset on. *)
Fixpoint entries_of (d : list Z) (off i n : nat) : result xorp_exn (list (list Z)) :=
  match n with
  | O => Ok []
  | S n => e <-! entry_at d off i ;; es <-! entries_of d off (S i) n ;; Ok (e :: es)
  end.
Lemma entries_of_ok hd rest off : forall es pre, length hd = off -> entries20 (pre ++ es) ->
  entries_of (hd ++ concat (pre ++ es) ++ rest) off (length pre) (length es) = Ok es.
Proof.
  induction es as [|e es IH]; intros pre Hh He; [done|]. cbn [entries_of length].
  rewrite (entry_at_ok hd (pre ++ e :: es) rest e (length pre) off Hh He) by (by rewrite list_lookup_middle).
  cbn [result_bind]. pose proof (IH (pre ++ [e]) Hh) as IH'. rewrite <- app_assoc, length_app, Nat.add_1_r in IH'. cbn [app] in IH'. by rewrite IH'.
Qed.

(** ** RIPng *)
Section Asm6.
Context `{HostOrder}.

Definition asm6 : assembler IPv6 unit :=
  mkAssembler IPv6 unit assembler6 (fun _ p => packet_start6 p) packet_full6 packet_add_route6 (fun a => Ok (tt, Some [packet_finish6 a])).

(** The entries of the routes: a next hop is told when it changes. *)
Fixpoint encode6 (lnh : IPv6) (rs : list (told IPv6)) : list (list Z) :=
  match rs with
  | [] => []
  | (net, nh, c, t) :: rs => (if decide (nh = lnh) then [] else [pre6_initialize_nexthop nh]) ++ [pre6_initialize_route t net c] ++ encode6 nh rs
  end.
Definition last_nexthop (lnh : IPv6) (rs : list (told IPv6)) : IPv6 := fold_left (fun _ x => snd (fst (fst x))) rs lnh.
(** What the entries say. *)
Fixpoint decode6 (nh : IPv6) (es : list (list Z)) : list (told IPv6) :=
  match es with
  | [] => []
  | e :: es =>
      if pre6_is_nexthop e then decode6 (pre6_prefix e) es
      else match pre6_net e with Ok net => (net, nh, pre6_metric e, pre6_tag e) :: decode6 nh es | Throw _ => decode6 nh es end
  end.

Definition told_ok6 (x : told IPv6) : Prop :=
  let '(net, nh, c, t) := x in net_wf net /\ ipv6_wf nh /\ 0 <= c < NEXTHOP_METRIC /\ 0 <= t < 2 ^ 16.

Lemma encode6_app lnh rs1 rs2 : encode6 lnh (rs1 ++ rs2) = encode6 lnh rs1 ++ encode6 (last_nexthop lnh rs1) rs2.
Proof.
  revert lnh. induction rs1 as [|[[[net nh] c] t] rs1 IH]; intros lnh; [done|]. cbn [encode6 app last_nexthop fold_left fst snd]. rewrite IH. by rewrite <- !app_assoc.
Qed.
Lemma encode6_20 lnh rs : entries20 (encode6 lnh rs).
Proof.
  revert lnh. induction rs as [|[[[net nh] c] t] rs IH]; intros lnh; [constructor|]. cbn [encode6]. apply Forall_app. split.
  - case_decide; constructor; [|constructor]. apply pre6_nexthop_length.
  - constructor; [apply pre6_route_length|apply IH].
Qed.
Lemma decode_encode6 lnh rs : Forall told_ok6 rs -> decode6 lnh (encode6 lnh rs) = rs.
Proof.
  intros Ha. revert lnh. induction Ha as [|[[[net nh] c] t] rs (Hn & Hh & Hc & Ht) _ IH]; intros lnh; [done|].
  destruct (pre6_read_route t net c [] Ht Hn Hc) as (E1 & E2 & _ & E4 & E5). rewrite app_nil_r in *.
  assert (Hr : forall nh', decode6 nh' (pre6_initialize_route t net c :: encode6 nh rs) = (net, nh', c, t) :: decode6 nh' (encode6 nh rs)).
  { intros nh'. cbn [decode6]. by rewrite E1, E4, E5, E2. }
  cbn [encode6]. case_decide as En.
  - cbn [app]. subst lnh. rewrite (Hr nh). by rewrite IH.
  - destruct (pre6_read_nexthop nh [] Hh) as [F1 F2]. rewrite app_nil_r in *.
    assert (Hx : forall es, decode6 lnh (pre6_initialize_nexthop nh :: es) = decode6 nh es) by (intros es; cbn [decode6]; by rewrite F1, F2).
    cbn [app]. rewrite Hx, (Hr nh). by rewrite IH.
Qed.

Definition header6 : list Z := rph_initialize RESPONSE RIPng_VERSION.
(** The octets a receiver reads. *)
Definition carries6 (_ : unit) (p : RipPacket IPv6) (rs : list (told IPv6)) : Prop :=
  take HEADER_SIZE (pk_data p) = header6 /\ exists n es, length (pk_data p) = (HEADER_SIZE + n * ENTRY_SIZE)%nat /\ entries_of (pk_data p) HEADER_SIZE 0 n = Ok es /\ decode6 ipv6_ALL_ONES es = rs
    /\ es = encode6 ipv6_ALL_ONES rs.

Record holds6 (h : unit) (a : assembler6) (rs : list (told IPv6)) : Prop := {
  h6_filled : filled (a6_pkt a) header6 (encode6 ipv6_ALL_ONES rs);
  h6_pos : a6_pos a = length (encode6 ipv6_ALL_ONES rs);
  h6_lnh : a6_lnh a = last_nexthop ipv6_ALL_ONES rs;
  h6_wf : ipv6_wf (a6_lnh a);
  h6_max : pk_max_entries (a6_pkt a) = RIPng_MAX_ENTRIES;
  h6_room : (a6_pos a <= 24)%nat;
  h6_ok : Forall told_ok6 rs }.

Lemma full6_spec a : (a6_pos a <= 24)%nat -> packet_full6 a = (23 <=? a6_pos a)%nat.
Proof.
  intros Hp. unfold packet_full6, u32_sub, u32, RIPng_MAX_ENTRIES. rewrite Z.mod_small by lia. apply bool_eq_iff. rewrite Z.leb_le, Nat.leb_le. lia.
Qed.

Lemma ones_wf : ipv6_wf ipv6_ALL_ONES.
Proof. by vm_compute. Qed.
Lemma start6 h addr port : holds6 h (packet_start6 (pkt_new addr port RIPv2_ROUTES_PER_PACKET)) [].
Proof.
  split; [|done|done|apply ones_wf|done|apply Nat.le_0_l|constructor]. split; [|done|constructor|apply Nat.le_0_l]. by exists (replicate 500 0).
Qed.

Lemma add6 h a rs net nh c t : holds6 h a rs -> packet_full6 a = false -> told_ok6 (net, nh, c, t) ->
  exists a', packet_add_route6 net nh c t a = Ok (a', true) /\ holds6 h a' (rs ++ [(net, nh, c, t)]).
Proof.
  intros [Hf Hp Hl Hw Hm Hr Hok] Hfull (Hn & Hh & Hc & Ht). unfold packet_add_route6. rewrite Hfull. rewrite full6_spec in Hfull by done. apply Nat.leb_gt in Hfull.
  assert (Ee : ipv6_eqb nh (a6_lnh a) = bool_decide (nh = a6_lnh a)).
  { apply bool_eq_iff. rewrite bool_decide_eq_true. exact (a_eqb_eq (A := IPv6) nh (a6_lnh a) Hh Hw). }
  assert (Hlast : last_nexthop ipv6_ALL_ONES (rs ++ [(net, nh, c, t)]) = nh) by (unfold last_nexthop; by rewrite fold_left_app).
  assert (Henc : encode6 ipv6_ALL_ONES (rs ++ [(net, nh, c, t)]) = encode6 ipv6_ALL_ONES rs ++ (if decide (nh = a6_lnh a) then [] else [pre6_initialize_nexthop nh]) ++ [pre6_initialize_route t net c])
    by (by rewrite encode6_app, Hl).
  assert (Hall : Forall told_ok6 (rs ++ [(net, nh, c, t)])) by (apply Forall_app; split; [done|]; constructor; [|constructor]; by split_conj).
  rewrite Ee. destruct (decide (nh = a6_lnh a)) as [E|E].
  - rewrite bool_decide_eq_true_2 by done. cbn [result_bind]. rewrite Hp.
    destruct (filled_write (a6_pkt a) header6 _ (pre6_initialize_route t net c) Hf) as (p' & -> & Hf' & Hm'); [apply pre6_route_length|rewrite Hm, <- Hp; unfold RIPng_MAX_ENTRIES; lia|].
    cbn [result_bind]. eexists. split; [reflexivity|]. split; cbn [a6_pkt a6_pos a6_lnh]; rewrite ?Henc; cbn [app]; try done.
    + rewrite length_app. cbn. lia.
    + by rewrite Hlast, E.
    + by rewrite Hm'.
    + lia.
  - rewrite bool_decide_eq_false_2 by done. rewrite Hp.
    destruct (filled_write (a6_pkt a) header6 _ (pre6_initialize_nexthop nh) Hf) as (p1 & -> & Hf1 & Hm1); [apply pre6_nexthop_length|rewrite Hm, <- Hp; unfold RIPng_MAX_ENTRIES; lia|].
    cbn [result_bind a6_pkt a6_pos].
    destruct (filled_write p1 header6 _ (pre6_initialize_route t net c) Hf1) as (p2 & E2 & Hf2 & Hm2); [apply pre6_route_length|rewrite Hm1, Hm, length_app, <- Hp; cbn; unfold RIPng_MAX_ENTRIES; lia|].
    rewrite length_app, Nat.add_1_r in E2. rewrite E2. cbn [result_bind]. eexists. split; [reflexivity|].
    split; cbn [a6_pkt a6_pos a6_lnh]; rewrite ?Henc; try done.
    + by rewrite app_assoc.
    + rewrite !length_app. cbn. lia.
    + by rewrite Hm2, Hm1.
    + lia.
Qed.

Lemma finish6 h a rs : holds6 h a rs -> carries6 h (packet_finish6 a) rs.
Proof.
  intros [Hf Hp _ _ Hm Hr Hok]. unfold carries6, packet_finish6. rewrite Hp. destruct (filled_finish _ _ _ Hf) as [-> _]. split; [done|].
  exists (length (encode6 ipv6_ALL_ONES rs)), (encode6 ipv6_ALL_ONES rs). split; [rewrite length_app, concat20_length by apply encode6_20; done|]. split; [|split; [by apply decode_encode6|done]].
  pose proof (entries_of_ok header6 [] HEADER_SIZE (encode6 ipv6_ALL_ONES rs) [] eq_refl (encode6_20 _ _)) as He. cbn [app length] in He. by rewrite app_nil_r in He.
Qed.

#[global] Instance asm6_laws : AssemblerLaws asm6.
Proof.
  refine (Build_AssemblerLaws IPv6 unit asm6 (fun _ => True) (fun _ _ => True) _ _ told_ok6 holds6 carries6 _ _ _ _).
  - done.
  - done.
  - intros h addr port _. apply start6.
  - intros h a Ha. cbn. rewrite full6_spec by apply Ha. by rewrite (h6_pos _ _ _ Ha).
  - intros h a rs net nh c t. apply add6.
  - intros h a rs Ha _. exists tt, [packet_finish6 a]. split; [done|]. split; [done|]. split; [done|]. split; [done|]. constructor; [by apply (finish6 h)|constructor].
Defined.
End Asm6.

(** ** RIPv2 *)
Section Asm4.
Context `{HostOrder} (md5 : list Z -> list Z).

Definition asm4 : assembler IPv4 AuthHandler := mkAssembler IPv4 AuthHandler assembler4 packet_start4 packet_full4 packet_add_route4 (packet_finish4 md5).

Definition encode4 (x : told IPv4) : list Z := let '(net, nh, c, t) := x in pre4_initialize t net nh c.
(** What an entry says. *)
Definition decode4 (e : list Z) : option (told IPv4) :=
  if pre4_addr_family e =? ADDR_FAMILY4 then
    match pre4_net e with Ok net => Some (net, pre4_nexthop e, pre4_metric e, pre4_tag e) | Throw _ => None end
  else None.
Definition told_ok4 (x : told IPv4) : Prop := let '(net, nh, c, t) := x in net_wf net /\ ipv4_wf nh /\ is_u32 c /\ 0 <= t < 2 ^ 16.

Lemma encode4_20 rs : entries20 (map encode4 rs).
Proof. induction rs as [|[[[net nh] c] t] rs IH]; constructor; [apply pre4_length|done]. Qed.
Lemma decode_encode4 rs : Forall told_ok4 rs -> mapM decode4 (map encode4 rs) = Some rs.
Proof.
  induction 1 as [|[[[net nh] c] t] rs (Hn & Hh & Hc & Ht) _ IH]; [done|]. cbn [map mapM]. rewrite IH. cbn [encode4].
  destruct (pre4_read t net nh c [] Ht Hn Hh Hc) as (E1 & E2 & _ & _ & E5 & E6 & E7). rewrite app_nil_r in *. unfold decode4. by rewrite E1, E2, E5, E6, E7.
Qed.

(** A key as the constructor and the counter leave it; a password without a zero octet. *)
Definition key_ok (k : MD5Key) : Prop := 0 <= k_id k < 256 /\ is_u32 (k_o_seqno k) /\ length (k_data k) = 16%nat.
Definition handler_ok (h : AuthHandler) : Prop :=
  match h with
  | NullAuth => True
  | PlaintextAuth key => (length key <= 16)%nat /\ Forall (fun c => c <> 0) key
  | MD5Auth c => Forall key_ok (valid_keys c)
  end.
(** The receiver has the secret of the sender, and is not ahead of its sequence numbers. *)
Definition trusts (h h' : AuthHandler) (src : IPv4) (new_peer : bool) : Prop :=
  match h, h' with
  | NullAuth, NullAuth => True
  | PlaintextAuth k, PlaintextAuth k' => k' = k
  | MD5Auth c, MD5Auth c' =>
      (valid_keys c = [] -> valid_keys c' = [])
      /\ forall k, k ∈ valid_keys c -> exists k', find_key (k_id k) (valid_keys c') = Some k' /\ k_data k' = k_data k
         /\ (new_peer = false -> packets_received src k' = true -> u32_sub (k_o_seqno k) (last_seqno_recv src k') < 0x7fffffff)
  | _, _ => False
  end.

(** The same secrets; the sequence numbers may have advanced. *)
Definition same_key (k k' : MD5Key) : Prop := k_id k' = k_id k /\ k_data k' = k_data k.
Definition same_secrets (h h' : AuthHandler) : Prop :=
  match h, h' with
  | NullAuth, NullAuth => True
  | PlaintextAuth k, PlaintextAuth k' => k' = k
  | MD5Auth c, MD5Auth c' => Forall2 same_key (valid_keys c) (valid_keys c')
  | _, _ => False
  end.
Lemma same_secrets_refl h : same_secrets h h.
Proof. destruct h as [| |c]; try done. cbn. by apply Forall_Forall2_diag, Forall_forall. Qed.
Lemma same_secrets_trans h1 h2 h3 : same_secrets h1 h2 -> same_secrets h2 h3 -> same_secrets h1 h3.
Proof.
  destruct h1 as [| |c1], h2 as [| |c2], h3 as [| |c3]; cbn; try done; [congruence|]. intros Ha Hb.
  eapply Forall2_trans; [|exact Ha|exact Hb]. intros k1 k2 k3 [E1 E2] [E3 E4]. split; congruence.
Qed.

Definition header4 : list Z := rph_initialize RESPONSE RIPv2_VERSION.
(** A receiver that trusts the sender takes the packet and reads these routes. *)
Definition carries4 (h : AuthHandler) (p : RipPacket IPv4) (rs : list (told IPv4)) : Prop :=
  take HEADER_SIZE (pk_data p) = header4 /\
  forall h' src new_peer, trusts h h' src new_peer ->
    exists h'' off es, authenticate_inbound md5 (pk_data p) src new_peer h' = Ok (h'', Some (off, Z.of_nat (length rs)))
      /\ entries_of (pk_data p) off 0 (length rs) = Ok es /\ mapM decode4 es = Some rs /\ es = map encode4 rs.

Definition blank : list Z := replicate ENTRY_SIZE 0.
(** What the assembler holds: an empty entry where the authentication goes, and the routes. *)
Definition heads (h : AuthHandler) : list (list Z) := replicate (head_entries h) blank.
Record holds4 (h : AuthHandler) (a : assembler4) (rs : list (told IPv4)) : Prop := {
  h4_filled : filled (a4_pkt a) header4 (heads h ++ map encode4 rs);
  h4_pos : a4_pos a = (head_entries h + length rs)%nat;
  h4_ah : a4_ah a = h;
  h4_max : pk_max_entries (a4_pkt a) = (head_entries h + max_routing_entries h)%nat;
  h4_room : (a4_pos a <= max_routing_entries h)%nat;
  h4_hok : handler_ok h;
  h4_ok : Forall told_ok4 rs }.

Lemma head_le h : (head_entries h < max_routing_entries h <= 25)%nat.
Proof. unfold max_routing_entries, head_entries, RIPv2_ROUTES_PER_PACKET. destruct h as [| |c]; [lia|lia|]. destruct (no_keys c); lia. Qed.
Lemma heads_20 h rs : entries20 (heads h ++ map encode4 rs).
Proof. apply Forall_app. split; [|apply encode4_20]. apply Forall_replicate. done. Qed.

Lemma replicate_concat n : concat (replicate n blank) = replicate (n * ENTRY_SIZE) 0.
Proof. induction n as [|n IH]; [done|]. cbn [replicate concat]. rewrite IH. unfold blank. by rewrite <- replicate_add. Qed.
Lemma zero_buffer n m : (n <= m)%nat -> replicate (ENTRY_SIZE * m + HEADER_SIZE) 0 = replicate HEADER_SIZE 0 ++ concat (replicate n blank) ++ replicate ((m - n) * ENTRY_SIZE) 0.
Proof. intros Hn. rewrite replicate_concat, <- !replicate_add. f_equal. unfold ENTRY_SIZE. lia. Qed.

Lemma pkt_new_zero (addr : IPv4) port n : n <> 0%nat -> pk_data (pkt_new addr port n) = replicate (ENTRY_SIZE * n + HEADER_SIZE) 0 /\ pk_max_entries (pkt_new addr port n) = n.
Proof. intros Hn. unfold pkt_new, set_max_entries. rewrite decide_False by done. cbn [pk_data pk_max_entries]. unfold resize. rewrite take_nil. cbn [app length]. by rewrite Nat.sub_0_r. Qed.
Lemma set_max_zero (p : RipPacket IPv4) n m : pk_data p = replicate (ENTRY_SIZE * n + HEADER_SIZE) 0 -> pk_max_entries p = n ->
  pk_data (set_max_entries m p) = replicate (ENTRY_SIZE * m + HEADER_SIZE) 0 /\ pk_max_entries (set_max_entries m p) = m.
Proof.
  intros Ed Em. unfold set_max_entries. case_decide as E; [by subst m; rewrite Em|]. cbn. split; [|done]. rewrite Ed. unfold resize. rewrite take_replicate, length_replicate, <- replicate_add.
  f_equal. unfold ENTRY_SIZE. lia.
Qed.

Lemma start4 h addr port : handler_ok h -> holds4 h (packet_start4 h (pkt_new addr port RIPv2_ROUTES_PER_PACKET)) [].
Proof.
  intros Hh. pose proof (head_le h) as Hle. destruct (pkt_new_zero addr port RIPv2_ROUTES_PER_PACKET) as [Ed Em]; [done|].
  destruct (set_max_zero _ _ (head_entries h + max_routing_entries h) Ed Em) as [Ed2 Em2]. unfold packet_start4. set (p := set_max_entries _ _) in *.
  split; cbn [a4_pkt a4_pos a4_ah write_data pk_max_entries map length]; try done; try lia.
  rewrite app_nil_r. unfold heads. split; cbn [pk_data write_data pk_max_entries].
  - exists (replicate (max_routing_entries h * ENTRY_SIZE) 0). rewrite Ed2, (zero_buffer (head_entries h)) by lia. split.
    + unfold VrrpPacket.put. cbn [take app Nat.add]. rewrite drop_app_length' by done. unfold header4. by replace (_ + _ - _)%nat with (max_routing_entries h) by lia.
    + rewrite length_replicate, length_replicate, Em2. f_equal. lia.
  - done.
  - apply Forall_replicate. done.
  - rewrite length_replicate, Em2. lia.
Qed.
Lemma full4_spec h a rs : holds4 h a rs -> packet_full4 a = false <-> (a4_pos a < max_routing_entries h)%nat.
Proof. intros Ha. unfold packet_full4. rewrite (h4_ah _ _ _ Ha), Nat.eqb_neq. pose proof (h4_room _ _ _ Ha). lia. Qed.
Lemma add4 h a rs net nh c t : holds4 h a rs -> packet_full4 a = false -> told_ok4 (net, nh, c, t) ->
  exists a', packet_add_route4 net nh c t a = Ok (a', true) /\ holds4 h a' (rs ++ [(net, nh, c, t)]).
Proof.
  intros Ha Hfull Hx. pose proof Hfull as Hlt. rewrite (full4_spec h a rs Ha) in Hlt. unfold packet_add_route4. rewrite Hfull. destruct Ha as [Hf Hp Hah Hm Hr Hh Hok].
  assert (El : a4_pos a = length (heads h ++ map encode4 rs)) by (rewrite length_app, length_map; unfold heads; rewrite length_replicate; lia).
  destruct (filled_write (a4_pkt a) header4 _ (pre4_initialize t net nh c) Hf) as (p' & E & Hf' & Hm'); [apply pre4_length|rewrite Hm, <- El; lia|].
  rewrite El, E. cbn [result_bind]. eexists. split; [reflexivity|]. split; cbn [a4_pkt a4_pos a4_ah]; try done.
  - by rewrite map_app, app_assoc.
  - rewrite <- El, Hp, length_app. cbn. lia.
  - by rewrite Hm'.
  - rewrite <- El. lia.
  - apply Forall_app. split; [done|]. by constructor.
Qed.

(** *** No authentication *)
Lemma read_entries hd es rest off rs : length hd = off -> es = map encode4 rs -> Forall told_ok4 rs ->
  entries_of (hd ++ concat es ++ rest) off 0 (length rs) = Ok es /\ mapM decode4 es = Some rs.
Proof.
  intros Hh -> Hok. split; [|by apply decode_encode4]. pose proof (entries_of_ok hd rest off (map encode4 rs) [] Hh (encode4_20 rs)) as He.
  cbn [app length] in He. by rewrite length_map in He.
Qed.
Lemma entries_bytes n : (HEADER_SIZE + n * ENTRY_SIZE - HEADER_SIZE = n * ENTRY_SIZE)%nat.
Proof. lia. Qed.
Lemma whole_entries n : (n * ENTRY_SIZE mod ENTRY_SIZE = 0 /\ n * ENTRY_SIZE / ENTRY_SIZE = n)%nat.
Proof. split; [by apply Nat.Div0.mod_mul|by apply Nat.div_mul]. Qed.

Lemma null_takes rs : Forall told_ok4 rs -> rs <> [] -> (length rs <= 25)%nat ->
  null_inbound (header4 ++ concat (map encode4 rs)) = Some (HEADER_SIZE, Z.of_nat (length rs)).
Proof.
  intros Hok Hne Hl. unfold null_inbound. rewrite length_app, concat20_length, length_map by apply encode4_20. change (length header4) with HEADER_SIZE.
  rewrite (proj2 (Nat.ltb_ge _ _)) by (unfold RIPv2_MAX_PACKET_BYTES, RIPv2_ROUTES_PER_PACKET, ENTRY_SIZE, HEADER_SIZE; lia).
  rewrite (proj2 (Nat.ltb_ge _ _)) by (unfold RIPv2_MIN_PACKET_BYTES, HEADER_SIZE; lia). rewrite entries_bytes.
  destruct (whole_entries (length rs)) as [-> ->]. cbn [Nat.eqb negb]. destruct rs as [|[[[net nh] c] t] rs]; [done|]. cbn [length Nat.eqb].
  replace (pre4_is_auth_entry _) with false; [done|]. unfold pre4_is_auth_entry. change (drop HEADER_SIZE (header4 ++ ?x)) with x. cbn [map concat encode4].
  apply Forall_cons in Hok as [(Hn & Hh & Hc & Ht) _]. by destruct (pre4_read t net nh c (concat (map encode4 rs)) Ht Hn Hh Hc) as (-> & _).
Qed.

(** *** Passwords *)
Lemma c_string_stop s l : Forall (fun c => c <> 0) s -> c_string (s ++ 0 :: l) = Ok s.
Proof. induction 1 as [|c s Hc _ IH]; [done|]. cbn [app c_string]. rewrite (proj2 (Z.eqb_neq _ _)) by done. by rewrite IH. Qed.
Lemma password_read key rest : (length key <= 16)%nat -> Forall (fun c => c <> 0) key -> (length key < 16)%nat \/ (exists l, rest = 0 :: l) ->
  ppr_password (header4 ++ ppr_initialize key ++ rest) = Ok key.
Proof.
  intros Hl Hz Hr. unfold ppr_password, ppr_initialize. change (drop (HEADER_SIZE + 4) _) with (resize 16 key ++ rest). unfold resize. rewrite take_ge by done.
  assert (Hc : c_string ((key ++ replicate (16 - length key) 0) ++ rest) = Ok key).
  { destruct (decide (length key = 16%nat)) as [E|E].
    - rewrite E. cbn [Nat.sub replicate]. rewrite app_nil_r. destruct Hr as [Hr|[l ->]]; [lia|]. by apply c_string_stop.
    - destruct (16 - length key)%nat as [|n] eqn:En; [lia|]. cbn [replicate]. rewrite <- app_assoc. by apply c_string_stop. }
  rewrite Hc. cbn [result_bind]. by rewrite take_ge.
Qed.
Lemma ppr_length key : length (ppr_initialize key) = ENTRY_SIZE.
Proof. unfold ppr_initialize. rewrite !length_app, resize_length. done. Qed.
Lemma plaintext_takes key rs : (length key <= 16)%nat -> Forall (fun c => c <> 0) key -> Forall told_ok4 rs -> rs <> [] -> (length rs <= 24)%nat ->
  plaintext_inbound key (header4 ++ concat (ppr_initialize key :: map encode4 rs)) = Ok (Some ((HEADER_SIZE + ENTRY_SIZE)%nat, Z.of_nat (length rs))).
Proof.
  intros Hk Hz Hok Hne Hl. unfold plaintext_inbound. assert (He : entries20 (ppr_initialize key :: map encode4 rs)) by (constructor; [apply ppr_length|apply encode4_20]).
  rewrite length_app, concat20_length by done. cbn [length]. rewrite length_map. change (length header4) with HEADER_SIZE.
  rewrite (proj2 (Nat.ltb_ge _ _)) by (unfold RIPv2_MAX_PACKET_BYTES, RIPv2_ROUTES_PER_PACKET, ENTRY_SIZE, HEADER_SIZE; lia).
  rewrite (proj2 (Nat.ltb_ge _ _)) by (unfold RIPv2_MIN_AUTH_PACKET_BYTES, HEADER_SIZE, ENTRY_SIZE; lia). rewrite entries_bytes.
  destruct (whole_entries (S (length rs))) as [-> ->]. cbn [Nat.eqb negb]. change (drop HEADER_SIZE (header4 ++ ?x)) with x. cbn [concat].
  assert (E1 : ppr_addr_family (ppr_initialize key ++ concat (map encode4 rs)) = ADDR_FAMILY_AUTH) by done.
  assert (E2 : ppr_auth_type (ppr_initialize key ++ concat (map encode4 rs)) = AUTH_TYPE_PLAINTEXT) by done.
  rewrite E1, E2, !Z.eqb_refl. cbn [negb]. rewrite password_read; [|done|done|].
  - cbn [result_bind]. rewrite decide_True by done. by rewrite Nat.sub_succ, Nat.sub_0_r.
  - right. destruct rs as [|[[[net nh] c] t] rs]; [done|]. cbn [map concat encode4]. by eexists.
Qed.

(** *** Keyed digests *)
Context (md5_length : forall l, length (md5 l) = 16%nat).

Lemma mpr_length off id n seq : length (mpr_initialize off id n seq) = ENTRY_SIZE.
Proof. done. Qed.
Lemma mpr_read off id n seq l : 0 <= off < 2 ^ 16 -> 0 <= id < 256 -> 0 <= n < 256 -> is_u32 seq ->
  let e := mpr_initialize off id n seq ++ l in
  mpr_addr_family e = ADDR_FAMILY_AUTH /\ mpr_auth_type e = AUTH_TYPE_MD5 /\ mpr_auth_off e = off /\ mpr_key_id e = id /\ mpr_auth_bytes e = n /\ mpr_seqno e = seq.
Proof.
  intros Ho Hi Hn Hs e. split; [done|]. split; [done|]. unfold mpr_auth_off, mpr_key_id, mpr_auth_bytes, mpr_seqno, extract_8. rewrite extract_16_drop, extract_32_drop.
  split; [by apply extract_embed_16|]. split; [by apply octet_small|]. split; [by apply octet_small|]. by apply extract_embed_32.
Qed.

(** The packet of a key. *)
Definition md5_octets (k : MD5Key) (rs : list (told IPv4)) : list Z :=
  let off := Z.of_nat (HEADER_SIZE + S (length rs) * ENTRY_SIZE) in
  let d := header4 ++ concat (mpr_initialize off (k_id k) (Z.of_nat TRAILER_SIZE) (k_o_seqno k) :: map encode4 rs) in
  d ++ mpt_initialize ++ md5 (d ++ mpt_initialize ++ k_data k).

Lemma md5_entries_20 e rs : length e = ENTRY_SIZE -> entries20 (e :: map encode4 rs).
Proof. intros He. constructor; [done|apply encode4_20]. Qed.

Lemma md5_packet_ok k p rs : key_ok k -> (length rs <= 24)%nat -> pk_data p = header4 ++ concat (blank :: map encode4 rs) -> pk_max_entries p = S (length rs) ->
  exists p' k', md5_packet md5 p k = Ok (p', k') /\ pk_data p' = md5_octets k rs /\ key_ok k' /\ same_key k k'.
Proof.
  intros (Hid & Hseq & Hdata) Hl Ed Em. unfold md5_packet. cbn [next_seqno_out].
  assert (Hdl : data_bytes p = (HEADER_SIZE + S (length rs) * ENTRY_SIZE)%nat).
  { unfold data_bytes. rewrite Ed, length_app, concat20_length by (by apply md5_entries_20). cbn [length]. by rewrite length_map. }
  rewrite Hdl. set (off := Z.of_nat (HEADER_SIZE + S (length rs) * ENTRY_SIZE)).
  assert (Ho : off mod 2 ^ 16 = off) by (apply Z.mod_small; unfold off, HEADER_SIZE, ENTRY_SIZE; lia). rewrite Ho. cbn [k_id].
  destruct (filled_first p header4 blank (map encode4 rs) (mpr_initialize off (k_id k) (Z.of_nat TRAILER_SIZE) (k_o_seqno k)) Ed) as (p' & -> & Ed' & _);
    [by rewrite length_map|done|done|done|].
  cbn [result_bind]. eexists _, _. split; [reflexivity|]. split.
  - cbn [append_data pk_data]. unfold md5_octets. fold off. rewrite Ed'. set (d := header4 ++ _). rewrite take_ge; [done|].
    unfold off, d. rewrite length_app, concat20_length by (by apply md5_entries_20). cbn [length]. rewrite length_map. change (length header4) with HEADER_SIZE. lia.
  - split; [|done]. split; [done|]. split; [|done]. cbn. unfold is_u32, u32_add, u32. apply Z.mod_pos_bound. lia.
Qed.
Lemma md5_packets_ok ks p rs : Forall key_ok ks -> (length rs <= 24)%nat -> pk_data p = header4 ++ concat (blank :: map encode4 rs) -> pk_max_entries p = S (length rs) ->
  exists ps ks', md5_packets md5 p ks = Ok (ps, ks') /\ Forall key_ok ks' /\ Forall2 same_key ks ks' /\ length ps = length ks /\ Forall (fun p' => exists k, k ∈ ks /\ pk_data p' = md5_octets k rs) ps.
Proof.
  intros Hk Hl Ed Em. induction Hk as [|k ks Hk _ IH]; [by exists [], []|].
  destruct (md5_packet_ok k p rs Hk Hl Ed Em) as (p' & k' & E & Ep & Hk' & Hsk). destruct IH as (ps & ks' & E2 & Hks' & Hsks & Hlen & Hps).
  cbn [md5_packets]. rewrite E, E2. cbn [result_bind fst snd]. exists (p' :: ps), (k' :: ks'). split; [done|]. split; [by constructor|]. split; [by constructor|].
  split; [cbn [length]; by rewrite Hlen|]. constructor.
  - exists k. split; [by left|done].
  - eapply Forall_impl; [exact Hps|]. cbn. intros q (k0 & Hin & Eq). exists k0. split; [by right|done].
Qed.

Lemma md5_takes k rs c src new_peer k' : key_ok k -> Forall told_ok4 rs -> (length rs <= 24)%nat -> find_key (k_id k) (valid_keys c) = Some k' ->
  k_data k' = k_data k -> (new_peer = false -> packets_received src k' = true -> u32_sub (k_o_seqno k) (last_seqno_recv src k') < 0x7fffffff) ->
  exists c', md5_inbound md5 c (md5_octets k rs) src new_peer = (c', Some ((HEADER_SIZE + ENTRY_SIZE)%nat, Z.of_nat (length rs))).
Proof.
  intros (Hid & Hseq & Hdata) Hok Hl Hf Ek Hsq. unfold md5_inbound. assert (Hnk : no_keys c = false) by (unfold no_keys; by destruct (valid_keys c)). rewrite Hnk.
  set (off := Z.of_nat (HEADER_SIZE + S (length rs) * ENTRY_SIZE)).
  assert (Hoff : 24 <= off <= 504) by (unfold off, HEADER_SIZE, ENTRY_SIZE; lia).
  set (mpr := mpr_initialize off (k_id k) (Z.of_nat TRAILER_SIZE) (k_o_seqno k)). set (body := concat (map encode4 rs)). set (d := header4 ++ mpr ++ body).
  set (dig := md5 (d ++ mpt_initialize ++ k_data k)). assert (Ed : md5_octets k rs = d ++ mpt_initialize ++ dig) by done.
  assert (Hld : length d = Z.to_nat off).
  { unfold d, body. rewrite !length_app, concat20_length, length_map by apply encode4_20. change (length header4) with HEADER_SIZE. change (length mpr) with ENTRY_SIZE. unfold off. lia. }
  assert (Hlen : length (md5_octets k rs) = (Z.to_nat off + TRAILER_SIZE)%nat) by (rewrite Ed, !length_app, Hld; unfold dig; rewrite md5_length; done).
  rewrite Hlen. rewrite (proj2 (Nat.ltb_ge _ _)) by (unfold RIPv2_MAX_PACKET_BYTES, RIPv2_ROUTES_PER_PACKET, TRAILER_SIZE; lia).
  rewrite (proj2 (Nat.ltb_ge _ _)) by (unfold RIPv2_MIN_AUTH_PACKET_BYTES; lia).
  assert (Edrop : drop HEADER_SIZE (md5_octets k rs) = mpr ++ body ++ mpt_initialize ++ dig) by (rewrite Ed; unfold d; by rewrite <- !app_assoc).
  rewrite Edrop. destruct (mpr_read off (k_id k) (Z.of_nat TRAILER_SIZE) (k_o_seqno k) (body ++ mpt_initialize ++ dig)) as (E1 & E2 & E3 & E4 & E5 & E6);
    [lia|done|done|done|]. fold mpr in E1, E2, E3, E4, E5, E6. rewrite E1, E2, E3, E4, E5, E6, !Z.eqb_refl. cbn [negb].
  rewrite (proj2 (Z.eqb_eq _ _)) by (rewrite Nat2Z.inj_add; lia). cbn [negb]. rewrite Hf. set (k1 := if new_peer then key_reset_from src k' else k').
  assert (Hk1 : k_data k1 = k_data k) by (unfold k1; by destruct new_peer).
  assert (Hs : packets_received src k1 && negb (new_peer && (k_o_seqno k =? 0)) && (0x7fffffff <=? u32_sub (k_o_seqno k) (last_seqno_recv src k1)) = false).
  { unfold k1. destruct new_peer; [unfold packets_received, key_reset_from; cbn; by rewrite lookup_delete_eq|]. cbn [andb negb]. rewrite andb_true_r.
    destruct (packets_received src k') eqn:Ep; [|done]. cbn. apply Z.leb_gt. by apply Hsq. }
  rewrite Hs. rewrite Ed, <- Hld, drop_app_length. change (mpt_valid (mpt_initialize ++ dig)) with true. cbn [negb].
  replace (mpt_auth_data (mpt_initialize ++ dig)) with dig by (unfold mpt_auth_data; change (drop mpt_auth_data_offset (mpt_initialize ++ dig)) with dig; rewrite take_ge; [done|unfold dig; by rewrite md5_length]).
  replace (take (length d + mpt_auth_data_offset) (d ++ mpt_initialize ++ dig)) with (d ++ mpt_initialize)
    by (rewrite app_assoc, take_app_length'; [done|by rewrite length_app]).
  rewrite Hk1, <- app_assoc, decide_True by done. eexists. f_equal. f_equal. f_equal.
  replace ((off - Z.of_nat HEADER_SIZE) / Z.of_nat ENTRY_SIZE) with (Z.of_nat (S (length rs)));
    [rewrite Z.mod_small; lia|]. unfold off. rewrite Nat2Z.inj_add, Nat2Z.inj_mul, Z.add_comm, Z.add_simpl_r. symmetry. by apply Z.div_mul.
Qed.

(** *** The packets of a response *)
Lemma finish_null h a rs p : handler_ok h -> head_entries h = 0%nat -> p = set_max_entries (a4_pos a) (a4_pkt a) -> holds4 h a rs -> rs <> [] ->
  pk_data p = header4 ++ concat (map encode4 rs) /\ routes_of (data_bytes p) = length rs /\ (length rs <= 25)%nat.
Proof.
  intros Hh E0 -> [Hf Hp Hah Hm Hr _ Hok] Hne. unfold heads in Hf. rewrite E0 in *. cbn [replicate app Nat.add] in *. pose proof (head_le h) as Hle.
  destruct (filled_finish _ _ _ Hf) as [Ed _]. rewrite length_map in Ed. rewrite Hp, Ed. split; [done|]. split; [|lia]. unfold routes_of, data_bytes.
  rewrite Ed, length_app, concat20_length, length_map by apply encode4_20. change (length header4) with HEADER_SIZE. rewrite entries_bytes. apply whole_entries.
Qed.
Lemma null_carries h rs p : (h = NullAuth \/ exists c, h = MD5Auth c /\ valid_keys c = []) -> Forall told_ok4 rs -> rs <> [] -> (length rs <= 25)%nat ->
  pk_data p = header4 ++ concat (map encode4 rs) -> carries4 h p rs.
Proof.
  intros Hh Hok Hne Hl Ed. unfold carries4. rewrite Ed. split; [done|]. intros h' src new Ht.
  destruct (read_entries header4 (map encode4 rs) [] HEADER_SIZE rs) as [He Hm]; [done|done|done|]. rewrite app_nil_r in He.
  pose proof (null_takes rs Hok Hne Hl) as Hn. destruct Hh as [->|(c & -> & Ec)]; destruct h' as [|k'|c']; try done.
  - exists NullAuth, HEADER_SIZE, (map encode4 rs). cbn [authenticate_inbound]. by rewrite Hn.
  - destruct Ht as [Hc _]. exists (MD5Auth c'), HEADER_SIZE, (map encode4 rs). cbn [authenticate_inbound]. unfold md5_inbound, no_keys. rewrite (Hc Ec), Hn. done.
Qed.

Lemma headed h a rs : head_entries h = 1%nat -> holds4 h a rs ->
  pk_data (set_max_entries (a4_pos a) (a4_pkt a)) = header4 ++ concat (blank :: map encode4 rs)
  /\ pk_max_entries (set_max_entries (a4_pos a) (a4_pkt a)) = S (length rs)
  /\ data_bytes (set_max_entries (a4_pos a) (a4_pkt a)) = (HEADER_SIZE + S (length rs) * ENTRY_SIZE)%nat.
Proof.
  intros E1 [Hf Hp _ _ _ _ _]. unfold heads in Hf. rewrite E1 in *. cbn [replicate app Nat.add] in *. destruct (filled_finish _ _ _ Hf) as [Ed Em].
  cbn [length] in Ed, Em. rewrite length_map in Ed, Em. rewrite Hp, Ed, Em. split; [done|]. split; [done|]. unfold data_bytes. rewrite Ed, length_app, concat20_length by (by apply md5_entries_20).
  cbn [length]. by rewrite length_map.
Qed.

Lemma finish4 h a rs : holds4 h a rs -> rs <> [] ->
  exists h' ps, packet_finish4 md5 a = Ok (h', Some ps) /\ handler_ok h' /\ same_secrets h h' /\ ps <> [] /\ Forall (fun p => carries4 h p rs) ps.
Proof.
  intros Ha Hne. pose proof Ha as [_ Hp Hah _ Hroom Hh Hok]. unfold packet_finish4. rewrite Hah. set (p := set_max_entries (a4_pos a) (a4_pkt a)).
  assert (Hn0 : (length rs =? 0)%nat = false) by (apply Nat.eqb_neq; by destruct rs).
  assert (Hnull : head_entries h = 0%nat -> (h = NullAuth \/ exists c, h = MD5Auth c /\ valid_keys c = []) ->
    (routes_of (data_bytes p) =? 0)%nat = false /\ carries4 h p rs).
  { intros E0 Hc. destruct (finish_null h a rs p Hh E0 eq_refl Ha Hne) as (Ed & Er & Hl). rewrite Er, Hn0. split; [done|]. by apply null_carries. }
  destruct h as [|key|c]; cbn [authenticate_outbound].
  - destruct Hnull as [E Hc]; [done|by left|]. cbn [result_bind]. rewrite E. exists NullAuth, [p]. split; [done|]. split; [done|]. split; [done|]. split; [done|]. by constructor.
  - destruct (headed (PlaintextAuth key) a rs eq_refl Ha) as (Ed & Em & Eb). fold p in Ed, Em, Eb. destruct Hh as [Hk Hz].
    destruct (filled_first p header4 blank (map encode4 rs) (ppr_initialize key) Ed) as (p' & -> & Ed' & _); [by rewrite length_map|done|done|apply ppr_length|].
    cbn [result_bind]. assert (Er : (routes_of (data_bytes p') - 1 = length rs)%nat).
    { unfold routes_of, data_bytes. rewrite Ed', length_app, concat20_length by (apply md5_entries_20, ppr_length). cbn [length]. rewrite length_map.
      change (length header4) with HEADER_SIZE. rewrite entries_bytes, (proj2 (whole_entries _)). lia. }
    rewrite Er, Hn0. exists (PlaintextAuth key), [p']. split; [done|]. split; [by split|]. split; [done|]. split; [done|]. constructor; [|constructor].
    unfold carries4. rewrite Ed'. split; [done|]. intros h' src new Ht. destruct h' as [|k'|c']; try done. cbn in Ht. subst k'.
    destruct (read_entries (header4 ++ ppr_initialize key) (map encode4 rs) [] (HEADER_SIZE + ENTRY_SIZE) rs) as [He Hm];
      [by rewrite length_app, ppr_length|done|done|]. rewrite app_nil_r, <- app_assoc in He.
    exists (PlaintextAuth key), (HEADER_SIZE + ENTRY_SIZE)%nat, (map encode4 rs). cbn [authenticate_inbound].
    rewrite plaintext_takes; [done|done|done|done|done|]. cbn in Hp, Hroom. unfold RIPv2_ROUTES_PER_PACKET in Hroom. lia.
  - unfold no_keys in *. cbn [head_entries max_routing_entries] in *. destruct (valid_keys c) as [|k0 ks0] eqn:Ek.
    { destruct Hnull as [E Hc]; [unfold no_keys; by rewrite Ek|right; by exists c|]. cbn [result_bind]. rewrite E. exists (MD5Auth c), [p]. split; [done|]. split; [done|].
      split; [apply same_secrets_refl|]. split; [done|]. by constructor. }
    assert (Eh : head_entries (MD5Auth c) = 1%nat) by (cbn; unfold no_keys; by rewrite Ek).
    destruct (headed (MD5Auth c) a rs Eh Ha) as (Ed & Em & Eb). fold p in Ed, Em, Eb.
    assert (Hl : (length rs <= 24)%nat) by (unfold no_keys, RIPv2_ROUTES_PER_PACKET in *; rewrite Ek in *; lia).
    rewrite <- Ek in *. destruct (md5_packets_ok (valid_keys c) p rs Hh Hl Ed Em) as (ps & ks' & -> & Hks & Hsks & Hlen & Hps). cbn [result_bind fst snd].
    assert (Er : (data_bytes p / ENTRY_SIZE - 1 = length rs)%nat).
    { rewrite Eb, Nat.add_comm, Nat.div_add_l by done. cbn. lia. }
    rewrite Er, Hn0. eexists _, ps. split; [reflexivity|]. split; [exact Hks|]. split; [exact Hsks|]. split; [intros ->; by rewrite Ek in Hlen|].
    eapply Forall_impl; [exact Hps|]. intros q (k & Hin & Eq). unfold carries4. rewrite Eq. split; [done|]. intros h' src new Ht.
    destruct h' as [|k'|c']; try done. destruct Ht as [_ Ht]. destruct (Ht k Hin) as (k' & Hf & Ekd & Hsq).
    assert (Hkk : key_ok k) by (by eapply Forall_forall in Hh).
    destruct (md5_takes k rs c' src new k' Hkk Hok Hl Hf Ekd Hsq) as [c2 Ec].
    set (off := Z.of_nat (HEADER_SIZE + S (length rs) * ENTRY_SIZE)). set (mpr := mpr_initialize off (k_id k) (Z.of_nat TRAILER_SIZE) (k_o_seqno k)).
    set (tl := mpt_initialize ++ md5 ((header4 ++ concat (mpr :: map encode4 rs)) ++ mpt_initialize ++ k_data k)).
    destruct (read_entries (header4 ++ mpr) (map encode4 rs) tl (HEADER_SIZE + ENTRY_SIZE) rs) as [He Hm]; [done|done|done|].
    exists (MD5Auth c2), (HEADER_SIZE + ENTRY_SIZE)%nat, (map encode4 rs). split; [unfold authenticate_inbound; by rewrite Ec|]. split; [|done].
    rewrite <- He. f_equal.
Qed.

#[global] Instance asm4_laws : AssemblerLaws asm4.
Proof.
  refine (Build_AssemblerLaws IPv4 AuthHandler asm4 handler_ok same_secrets same_secrets_refl same_secrets_trans told_ok4 holds4 carries4 _ _ _ _).
  - intros h addr port Hh. by apply start4.
  - intros h a Ha. apply (full4_spec h a [] Ha). rewrite (h4_pos _ _ _ Ha). cbn. pose proof (head_le h). lia.
  - intros h a rs net nh c t. apply add4.
  - intros h a rs. apply finish4.
Defined.
End Asm4.
