(* ===== verification/RipPort.v ===== *)
(** * The ports of RIP (rip/port.cc, rip/port.hh, rip/port_vars.hh)

    [Port<A>]: what a port does with a received packet, its peers, its requests and its
    output.  The state is the port and the route database it shares with the other ports.
    Both address families are instances of [family], which has the entries, the assembler
    and the checks of each.  Times are in microseconds.  The random part of an interval
    and the success of a send are arguments, since they come from outside of the port. *)

From Stdlib Require Import ZArith Lia String.
From stdpp Require Import base tactics option numbers list gmap strings.
From S2P Require Import Prelude Word32 Addr IPv4 IPv6 IPNet OMap VrrpPacket RipQueue RipRoute RipDB RipPacket RipAuth RipPeer RipOutput.
Local Open Scope Z_scope.
Local Open Scope xorp_scope.

(** ** The mirror of the interfaces (libfeaclient/ifmgr_atoms.hh) *)
Record IfAddr (A : Type) := mkIfAddr { ia_addr : A; ia_enabled : bool; ia_broadcast : option A; ia_prefix_len : Z }.
Record IfVif (A : Type) := mkIfVif { iv_name : string; iv_enabled : bool; iv_addrs : list (IfAddr A) }.
Record IfAtom (A : Type) := mkIfAtom { if_name : string; if_enabled : bool; if_no_carrier : bool; if_vifs : list (IfVif A) }.
Arguments mkIfAddr {A}.
Arguments ia_addr {A}.
Arguments ia_enabled {A}.
Arguments ia_broadcast {A}.
Arguments ia_prefix_len {A}.
Arguments mkIfVif {A}.
Arguments iv_name {A}.
Arguments iv_enabled {A}.
Arguments iv_addrs {A}.
Arguments mkIfAtom {A}.
Arguments if_name {A}.
Arguments if_enabled {A}.
Arguments if_no_carrier {A}.
Arguments if_vifs {A}.

Section Mirror.
Context {A : Type} `{AddrOps A}.

(** [IfMgrIfTree::find_addr] *)
Definition find_addr (ifname vifname : string) (a : A) (t : list (IfAtom A)) : option (IfAddr A) :=
  i ← list_find (fun i => if_name i = ifname) t;
  v ← list_find (fun v => iv_name v = vifname) (if_vifs (snd i));
  x ← list_find (fun x => a_eqb (ia_addr x) a = true) (iv_addrs (snd v));
  Some (snd x).

(** The loops over the addresses of the enabled interfaces: the first match in an interface ends its loop. *)
Fixpoint vif_matches (bcast : bool) (a : A) (xs : list (IfAddr A)) : bool * bool :=
  match xs with
  | [] => (false, false)
  | x :: xs =>
      if negb (ia_enabled x) then vif_matches bcast a xs
      else if a_eqb (ia_addr x) a then (true, false)
      else if bcast && match ia_broadcast x with Some b => a_eqb b a | None => false end then (false, true)
      else vif_matches bcast a xs
  end.
Definition or2 (x y : bool * bool) : bool * bool := (fst x || fst y, snd x || snd y).
Definition if_matches (bcast : bool) (a : A) (i : IfAtom A) : bool * bool :=
  if negb (if_enabled i) || if_no_carrier i then (false, false)
  else fold_left (fun acc v => if iv_enabled v then or2 acc (vif_matches bcast a (iv_addrs v)) else acc) (if_vifs i) (false, false).
(** Whether one of my addresses, or a broadcast address, is the address. *)
Definition my_matches (bcast : bool) (a : A) (t : list (IfAtom A)) : bool * bool := fold_left (fun acc i => or2 acc (if_matches bcast a i)) t (false, false).
End Mirror.

(** ** The state of a port *)
Inductive RipHorizon := NONE | SPLIT | SPLIT_POISON_REVERSE.
Record PortConfig := mkConfig {
  c_en : bool;
  c_cost : Z;
  c_horizon : RipHorizon;
  c_adv_def_rt : bool;
  c_acc_def_rt : bool;
  c_passive : bool;
  c_acc_non_rip_reqs : bool }.
Definition config_new : PortConfig := mkConfig false 1 SPLIT_POISON_REVERSE true true false true.
Record PortIO (A : Type) := mkIO { io_ifname : string; io_vifname : string; io_address : A; io_enabled : bool; io_pending : bool }.
Arguments mkIO {A}.
Arguments io_ifname {A}.
Arguments io_vifname {A}.
Arguments io_address {A}.
Arguments io_enabled {A}.
Arguments io_pending {A}.
(** [PortTimerConstants]; the jitters are in the random intervals. *)
Record Constants := mkConst { k_expiry_secs : Z; k_deletion_secs : Z; k_table_request_secs : Z; k_interpacket_msecs : Z; k_interquery_msecs : Z }.
Definition constants_new : Constants := mkConst DEFAULT_EXPIRY_SECS DEFAULT_DELETION_SECS 1 50 250.
(** [PortCounters] *)
Record PortCounters := mkPortCnt {
  n_packets_recv : Z; n_updates_recv : Z; n_bad_routes : Z; n_bad_packets : Z; n_bad_auth_packets : Z; n_triggered : Z; n_unsolicited : Z;
  n_requests_sent : Z; n_requests_recv : Z; n_non_rip_requests_recv : Z; n_non_rip_updates_sent : Z }.
Definition port_counters_new : PortCounters := mkPortCnt 0 0 0 0 0 0 0 0 0 0 0.
Inductive counter := CPacketsRecv | CUpdatesRecv | CBadRoutes | CBadPackets | CBadAuthPackets | CTriggered | CUnsolicited | CRequestsSent | CRequestsRecv
  | CNonRipRequestsRecv | CNonRipUpdatesSent.
Definition incr (k : counter) (n : PortCounters) : PortCounters :=
  let f k' x := match k, k' with
    | CPacketsRecv, CPacketsRecv | CUpdatesRecv, CUpdatesRecv | CBadRoutes, CBadRoutes | CBadPackets, CBadPackets | CBadAuthPackets, CBadAuthPackets
    | CTriggered, CTriggered | CUnsolicited, CUnsolicited | CRequestsSent, CRequestsSent | CRequestsRecv, CRequestsRecv
    | CNonRipRequestsRecv, CNonRipRequestsRecv | CNonRipUpdatesSent, CNonRipUpdatesSent => u32_add x 1
    | _, _ => x end in
  mkPortCnt (f CPacketsRecv (n_packets_recv n)) (f CUpdatesRecv (n_updates_recv n)) (f CBadRoutes (n_bad_routes n)) (f CBadPackets (n_bad_packets n))
    (f CBadAuthPackets (n_bad_auth_packets n)) (f CTriggered (n_triggered n)) (f CUnsolicited (n_unsolicited n)) (f CRequestsSent (n_requests_sent n))
    (f CRequestsRecv (n_requests_recv n)) (f CNonRipRequestsRecv (n_non_rip_requests_recv n)) (f CNonRipUpdatesSent (n_non_rip_updates_sent n)).
(** The timers of a port, [None] when not scheduled. *)
Record PortTimers := mkTimers { t_request : option Z; t_gc : option Z; t_unsolicited : option Z; t_triggered : option Z; t_query_blocked : option Z }.
Definition timers_new : PortTimers := mkTimers None None None None None.

(** What becomes of an entry of a response. *)
Inductive verdict (A : Type) :=
  | VBadRoute
  | VBadPacket
  | VIgnore
  | VUpdate (net : IPNet A) (nh : A) (metric tag : Z).
Arguments VBadRoute {A}.
Arguments VBadPacket {A}.
Arguments VIgnore {A}.
Arguments VUpdate {A}.

Section Families.
Context `{HostOrder}.

(** ** [Port<IPv4>::parse_response], for an entry *)
Definition ipv4_of (x : Z) : IPv4 := mkIPv4 (htonl x).
Definition net_filter : IPv4 := ipv4_of 0xff000000.
Definition class_b_net : IPv4 := ipv4_of 0x80000000.
Definition class_c_net : IPv4 := ipv4_of 0xc0000000.
Definition class_d_net : IPv4 := ipv4_of 0xe0000000.
Definition class_e_net : IPv4 := ipv4_of 0xf0000000.
Definition classful_len (a : IPv4) : Z :=
  if ipv4_ltb a class_b_net then 8 else if ipv4_ltb a class_c_net then 16 else if ipv4_ltb a class_d_net then 24 else 32.
Definition add_cost (metric cost : Z) : Z := let m := cost16 (metric + cost) in if RIP_INFINITY <? m then RIP_INFINITY else m.

Definition entry_nexthop4 (t : list (IfAtom IPv4)) (io : PortIO IPv4) (src nh : IPv4) : result xorp_exn (option IPv4) :=
  if ipv4_eqb nh ipv4_ZERO then Ok (Some src)
  else if ipv4_eqb nh (io_address io) then Ok None
  else
    match find_addr (io_ifname io) (io_vifname io) (io_address io) t with
    | None => Throw AssertFailed
    | Some ifa =>
        n1 <-! net_new nh (ia_prefix_len ifa) ;;
        n2 <-! net_new (ia_addr ifa) (ia_prefix_len ifa) ;;
        Ok (Some (if net_eqb n1 n2 then nh else src))
    end.

Definition parse_entry4 (c : PortConfig) (t : list (IfAtom IPv4)) (io : PortIO IPv4) (src : IPv4) (e : list Z) : result xorp_exn (verdict IPv4) :=
  if negb (pre4_addr_family e =? AF_INET) then Ok VBadRoute
  else
    let metric := cost16 (pre4_metric e) in
    if RIP_INFINITY <? metric then Ok VBadRoute
    else
      let plen := pre4_prefix_len e in
      if addr_bitlen (A := IPv4) <? plen then Ok VBadPacket
      else
        net <-! pre4_net e ;;
        let addr := pre4_addr e in
        x <-! (if (plen =? 0) && negb (ipv4_eqb addr ipv4_ZERO)
               then n <-! net_new addr (classful_len addr) ;; Ok (classful_len addr, n) else Ok (plen, net)) ;;
        let '(plen, net) := x in
        if net_eqb net net_default && negb (c_acc_def_rt c) then Ok VIgnore
        else
          let masked_net := ipv4_and (masked_addr net) net_filter in
          if ipv4_is_multicast masked_net then Ok VBadRoute
          else if ipv4_is_loopback masked_net then Ok VBadRoute
          else if negb (ipv4_ltb masked_net class_e_net) then Ok VBadRoute
          else if ipv4_eqb masked_net ipv4_ZERO && (negb (prefix_len net =? 0) || negb (c_acc_def_rt c)) then Ok VBadRoute
          else
            let '(mine, bcast) := if plen =? addr_bitlen (A := IPv4) then my_matches true (masked_addr net) t else (false, false) in
            if mine then Ok VBadRoute
            else if bcast then Ok VBadRoute
            else
              nh <-! entry_nexthop4 t io src (pre4_nexthop e) ;;
              match nh with
              | None => Ok VIgnore
              | Some nh => Ok (VUpdate net nh (add_cost metric (c_cost c)) (pre4_tag e))
              end.
(** The loop over the entries; a turn reads twenty octets of the packet. *)
Fixpoint parse_entries4 (n : nat) (c : PortConfig) (t : list (IfAtom IPv4)) (io : PortIO IPv4) (src : IPv4) (d : list Z) (off i : nat) (n_entries : Z) :
    result xorp_exn (list (verdict IPv4)) :=
  if Z.of_nat i =? n_entries then Ok []
  else
    match n with
    | O => Throw OutOfBounds
    | S n =>
        e <-! entry_at d off i ;;
        v <-! parse_entry4 c t io src e ;;
        vs <-! parse_entries4 n c t io src d off (S i) n_entries ;;
        Ok (v :: vs)
    end.

(** ** [Port<IPv6>::parse_response] *)
Definition ipv6_is_multicast (a : IPv6) : bool := Z.land (ntohl (v6_0 a)) 0xff000000 =? 0xff000000.
Definition ipv6_is_loopback (a : IPv6) : bool := ipv6_eqb a (mkIPv6 0 0 0 (htonl 1)).
Definition parse_entry6 (c : PortConfig) (t : list (IfAtom IPv6)) (src nh : IPv6) (e : list Z) : result xorp_exn (IPv6 * verdict IPv6) :=
  if pre6_is_nexthop e then
    let nh := pre6_prefix e in
    let nh := if negb (ipv6_is_linklocal_unicast nh) then ipv6_ZERO else nh in
    Ok (if ipv6_eqb nh ipv6_ZERO then src else nh, VIgnore)
  else if ipv6_eqb nh ipv6_ALL_ONES then Ok (nh, VBadRoute)
  else
    let metric := pre6_metric e in
    if RIP_INFINITY <? metric then Ok (nh, VBadRoute)
    else if addr_bitlen (A := IPv6) <? pre6_prefix_len e then Ok (nh, VBadPacket)
    else
      net <-! pre6_net e ;;
      let masked_net := masked_addr net in
      if ipv6_is_multicast masked_net then Ok (nh, VBadRoute)
      else if ipv6_is_linklocal_unicast masked_net then Ok (nh, VBadRoute)
      else if ipv6_is_loopback masked_net then Ok (nh, VBadRoute)
      else if ipv6_eqb masked_net ipv6_ZERO && (negb (prefix_len net =? 0) || negb (c_acc_def_rt c)) then Ok (nh, VBadRoute)
      else
        let mine := if pre6_prefix_len e =? addr_bitlen (A := IPv6) then fst (my_matches false masked_net t) else false in
        if mine then Ok (nh, VBadRoute)
        else Ok (nh, VUpdate net nh (add_cost metric (metric + c_cost c)) (pre6_tag e)).
Fixpoint parse_entries6 (n : nat) (c : PortConfig) (t : list (IfAtom IPv6)) (src nh : IPv6) (d : list Z) (off i : nat) (n_entries : Z) :
    result xorp_exn (list (verdict IPv6)) :=
  if Z.of_nat i =? n_entries then Ok []
  else
    match n with
    | O => Throw OutOfBounds
    | S n =>
        e <-! entry_at d off i ;;
        x <-! parse_entry6 c t src nh e ;;
        vs <-! parse_entries6 n c t src (fst x) d off (S i) n_entries ;;
        Ok (snd x :: vs)
    end.
End Families.

(** ** The families *)
(** What is done with a received packet of a known peer: rejected by the authentication, or entries at an offset; the flag says
    that the packet is counted as bad all the same. *)
Inductive inbound := IbReject | IbEntries (off : nat) (n : Z) (bad : bool).
Record family (A H : Type) := mkFamily {
  fam_port : Z;
  fam_group : A;
  fam_version : Z;
  fam_asm : assembler A H;
  fam_request_table : H -> RipPacket A -> result xorp_exn (H * option (list (RipPacket A)));
  fam_reset : H -> H;
  fam_inbound : list Z -> A -> bool -> H -> result xorp_exn (H * inbound);
  fam_is_table_request : list Z -> bool;
  fam_entry_prefix_len : list Z -> Z;
  fam_entry_net : list Z -> result xorp_exn (IPNet A);
  fam_response : PortConfig -> list (IfAtom A) -> PortIO A -> A -> list Z -> nat -> Z -> result xorp_exn (list (verdict A)) }.
Arguments fam_port {A H}.
Arguments fam_group {A H}.
Arguments fam_version {A H}.
Arguments fam_asm {A H}.
Arguments fam_request_table {A H}.
Arguments fam_reset {A H}.
Arguments fam_inbound {A H}.
Arguments fam_is_table_request {A H}.
Arguments fam_entry_prefix_len {A H}.
Arguments fam_entry_net {A H}.
Arguments fam_response {A H}.

Section FamilyInstances.
Context `{HostOrder} (md5 : list Z -> list Z).

Definition RIP_PORT : Z := 520.
Definition RIP_NG_PORT : Z := 521.
Definition family4 : family IPv4 AuthHandler := mkFamily IPv4 AuthHandler RIP_PORT (ipv4_of 0xe0000009) RIPv2_VERSION
  (mkAssembler IPv4 AuthHandler assembler4 packet_start4 packet_full4 packet_add_route4 (packet_finish4 md5))
  (request_table4 md5) reset_handler
  (fun d src new_peer h =>
     x <-! authenticate_inbound md5 d src new_peer h ;;
     Ok (fst x, match snd x with Some (off, n) => IbEntries off n false | None => IbReject end))
  pre4_is_table_request pre4_prefix_len pre4_net
  (fun c t io src d off n => parse_entries4 (S (length d)) c t io src d off 0 n).
Definition inbound6 (d : list Z) : inbound :=
  let n := ((length d - HEADER_SIZE) / ENTRY_SIZE)%nat in
  IbEntries HEADER_SIZE (Z.of_nat n) (negb (n * ENTRY_SIZE + HEADER_SIZE =? length d)%nat).
Definition family6 : family IPv6 unit := mkFamily IPv6 unit RIP_NG_PORT (mkIPv6 (htonl 0xff020000) 0 0 (htonl 9)) RIPng_VERSION
  (mkAssembler IPv6 unit assembler6 (fun _ p => packet_start6 p) packet_full6 packet_add_route6 (fun a => Ok (tt, Some [packet_finish6 a])))
  (fun _ p => p <-! request_table6 p ;; Ok (tt, Some [p])) (fun h => h)
  (fun d src new_peer h => Ok (h, inbound6 d))
  pre6_is_table_request pre6_prefix_len pre6_net
  (fun c t io src d off n => parse_entries6 (S (length d)) c t src ipv6_ALL_ONES d off 0 n).
End FamilyInstances.

(** ** [Port] *)
Section Ports.
Context {A H : Type} `{AddrSpec A, !EqDecision A, !NextHop A, !forall n : IPNet A, Decision (net_wf n)}.
Context (fam : family A H).
Context (run_filter : filter_kind -> route_vars (rip_net A) A -> option (filter_result A)).
Abbreviation Net := (rip_net A).
Abbreviation route := (RouteEntry Net A).
Abbreviation db := (RouteDB Net A).
Abbreviation peer := (Peer Net A).

Record Port := mkPort {
  po_ah : H;
  po_peers : list peer;
  po_timers : PortTimers;
  po_config : PortConfig;
  po_io : PortIO A;
  po_queue : PacketQueue A;
  po_constants : Constants;
  po_counters : PortCounters;
  po_ur_out : option (OutputTable (A := A));
  po_tu_out : option (OutputUpdates (A := A));
  po_su_out : option (OutputTable (A := A)) }.
Implicit Types (p : Port) (s : db).

Definition port_new (h : H) (io : PortIO A) : Port := mkPort h [] timers_new config_new io pq_new constants_new port_counters_new None None None.
Definition set_ah x p := mkPort x (po_peers p) (po_timers p) (po_config p) (po_io p) (po_queue p) (po_constants p) (po_counters p) (po_ur_out p) (po_tu_out p) (po_su_out p).
Definition set_peers x p := mkPort (po_ah p) x (po_timers p) (po_config p) (po_io p) (po_queue p) (po_constants p) (po_counters p) (po_ur_out p) (po_tu_out p) (po_su_out p).
Definition set_timers x p := mkPort (po_ah p) (po_peers p) x (po_config p) (po_io p) (po_queue p) (po_constants p) (po_counters p) (po_ur_out p) (po_tu_out p) (po_su_out p).
Definition set_config x p := mkPort (po_ah p) (po_peers p) (po_timers p) x (po_io p) (po_queue p) (po_constants p) (po_counters p) (po_ur_out p) (po_tu_out p) (po_su_out p).
Definition set_io x p := mkPort (po_ah p) (po_peers p) (po_timers p) (po_config p) x (po_queue p) (po_constants p) (po_counters p) (po_ur_out p) (po_tu_out p) (po_su_out p).
Definition set_queue x p := mkPort (po_ah p) (po_peers p) (po_timers p) (po_config p) (po_io p) x (po_constants p) (po_counters p) (po_ur_out p) (po_tu_out p) (po_su_out p).
Definition set_constants x p := mkPort (po_ah p) (po_peers p) (po_timers p) (po_config p) (po_io p) (po_queue p) x (po_counters p) (po_ur_out p) (po_tu_out p) (po_su_out p).
Definition set_counters x p := mkPort (po_ah p) (po_peers p) (po_timers p) (po_config p) (po_io p) (po_queue p) (po_constants p) x (po_ur_out p) (po_tu_out p) (po_su_out p).
Definition set_outs ur tu su p := mkPort (po_ah p) (po_peers p) (po_timers p) (po_config p) (po_io p) (po_queue p) (po_constants p) (po_counters p) ur tu su.
Definition count (k : counter) p : Port := set_counters (incr k (po_counters p)) p.

(** ** Peers *)
Definition find_peer (a : A) p : option peer := snd <$> list_find (fun q => a_eqb (peer_addr q) a = true) (po_peers p).
Definition update_peer (a : A) (f : peer -> peer) p : Port :=
  set_peers (map (fun q => if a_eqb (peer_addr q) a then f q else q) (po_peers p)) p.
(** [create_peer]; [o] is the number of the new origin. *)
Definition create_peer (a : A) (o : nat) p s : Port * db :=
  match find_peer a p with
  | Some _ => (p, s)
  | None =>
      let q := with_last_active (db_now s) (peer_new a o) in
      let p := set_peers (po_peers p ++ [q]) p in
      let t := po_timers p in
      let p := set_timers (mkTimers (t_request t) (Some (db_now s + 180 * 1000 * MSEC)) (t_unsolicited t) (t_triggered t) (t_query_blocked t)) p in
      (p, new_origin o (k_expiry_secs (po_constants p)) (k_deletion_secs (po_constants p)) s)
  end.
(** Ports know their peers by address; [record_*] count for the port and, if there is one, for the peer. *)
Definition record (k : counter) (f : PeerCounters -> PeerCounters) (a : option A) p : Port :=
  let p := count k p in
  match a with Some a => update_peer a (with_counters f) p | None => p end.
Definition record_packet (a : option A) p s : Port :=
  let p := record CPacketsRecv pc_incr_packets_recv a p in
  match a with Some a => update_peer a (with_last_active (db_now s)) p | None => p end.
Definition record_response_packet := record CUpdatesRecv pc_incr_updates_recv.
Definition record_request_packet := record CRequestsRecv pc_incr_requests_recv.
Definition record_bad_packet := record CBadPackets pc_incr_bad_packets.
Definition record_bad_auth_packet := record CBadAuthPackets pc_incr_bad_auth_packets.
Definition record_bad_route := record CBadRoutes pc_incr_bad_routes.

(** ** Output *)
(** [push_packets]: the answer of [send] decides. *)
Definition push_packets (send_ok : bool) p : result xorp_exn Port :=
  if io_pending (po_io p) then Ok p
  else
    match pq_head (po_queue p) with
    | None => Ok p
    | Some _ =>
        if send_ok then let io := po_io p in Ok (set_io (mkIO (io_ifname io) (io_vifname io) (io_address io) (io_enabled io) true) p)
        else q <-! flush_packets (po_queue p) ;; Ok (set_queue q p)
    end.
Definition port_io_send_completion (send_ok : bool) p : result xorp_exn Port :=
  match pq_head (po_queue p) with
  | None => Throw AssertFailed
  | Some _ =>
      let io := po_io p in
      push_packets send_ok (set_io (mkIO (io_ifname io) (io_vifname io) (io_address io) (io_enabled io) false) (set_queue (pop_head (po_queue p)) p))
  end.

(** [route_policy] *)
Definition route_policy p (r : route) : A * Z :=
  if net_eqb (proj1_sig (re_net r)) net_default && negb (c_adv_def_rt (po_config p)) then (a_zero, RIP_MAX_COST)
  else
    let from_here := match re_origin r with
                     | Some o => bool_decide (Exists (fun q => peer_origin q = o) (po_peers p))
                     | None => false
                     end in
    let cost := if negb from_here then re_cost r
                else match c_horizon (po_config p) with NONE => re_cost r | SPLIT => RIP_MAX_COST | SPLIT_POISON_REVERSE => RIP_INFINITY end in
    (a_zero, cost).

Definition send_all (k : counter) (ps : list (RipPacket A)) (send_ok : bool) p : result xorp_exn Port :=
  match ps with
  | [] => Ok p
  | _ =>
      let p := set_queue (enqueue_all ps (po_queue p)) p in
      push_packets send_ok (fold_left (fun p _ => count k p) ps p)
  end.
Definition out_counter (port : Z) : counter := if port =? fam_port fam then CUnsolicited else CNonRipUpdatesSent.
(** The two table outputs and the triggered one, each at a start or when its timer runs out. *)
Definition run_table (start : bool) (o : OutputTable (A := A)) (send_ok : bool) p s : result xorp_exn (OutputTable (A := A) * Port * db) :=
  let gap := k_interpacket_msecs (po_constants p) in
  x <-! (if start then ot_start (fam_asm fam) (route_policy p) gap (po_ah p) o s else ot_output_packet (fam_asm fam) (route_policy p) gap (po_ah p) o s) ;;
  let '(o, h, ps, s) := x in
  p <-! send_all (out_counter (ot_port o)) ps send_ok (set_ah h p) ;;
  Ok (o, p, s).
Definition run_updates (start : bool) (o : OutputUpdates (A := A)) (send_ok : bool) p s : result xorp_exn (OutputUpdates (A := A) * Port * db) :=
  let gap := k_interpacket_msecs (po_constants p) in
  x <-! (if start then ou_start (fam_asm fam) (route_policy p) gap (po_ah p) o s else ou_output_packet (fam_asm fam) (route_policy p) gap (po_ah p) o s) ;;
  let '(o, h, ps, s) := x in
  p <-! send_all CTriggered ps send_ok (set_ah h p) ;;
  Ok (o, p, s).
Definition fire_ur_out (send_ok : bool) p s : result xorp_exn (Port * db) :=
  match po_ur_out p with
  | Some o => x <-! run_table false o send_ok p s ;; let '(o, p, s) := x in Ok (set_outs (Some o) (po_tu_out p) (po_su_out p) p, s)
  | None => Ok (p, s)
  end.
Definition fire_su_out (send_ok : bool) p s : result xorp_exn (Port * db) :=
  match po_su_out p with
  | Some o => x <-! run_table false o send_ok p s ;; let '(o, p, s) := x in Ok (set_outs (po_ur_out p) (po_tu_out p) (Some o) p, s)
  | None => Ok (p, s)
  end.
Definition fire_tu_out (send_ok : bool) p s : result xorp_exn (Port * db) :=
  match po_tu_out p with
  | Some o => x <-! run_updates false o send_ok p s ;; let '(o, p, s) := x in Ok (set_outs (po_ur_out p) (Some o) (po_su_out p) p, s)
  | None => Ok (p, s)
  end.

(** The periodic dump; a port without output has null pointers here. *)
Definition unsolicited_response_timeout (interval : Z) (send_ok : bool) p s : result xorp_exn (Port * db) :=
  match po_tu_out p, po_ur_out p with
  | Some tu, Some ur =>
      s <-! (if ou_running tu then ou_ffwd tu s else Ok s) ;;
      let ur := if ot_running ur then ot_stop ur else ur in
      x <-! run_table true ur send_ok p s ;;
      let '(ur, p, s) := x in
      let t := po_timers p in
      Ok (set_timers (mkTimers (t_request t) (t_gc t) (Some (db_now s + interval)) (t_triggered t) (t_query_blocked t))
            (set_outs (Some ur) (po_tu_out p) (po_su_out p) p), s)
  | _, _ => Throw OutOfBounds
  end.
Definition triggered_update_timeout (delay : Z) (send_ok : bool) p s : result xorp_exn (Port * db) :=
  match po_tu_out p, po_ur_out p with
  | Some tu, Some ur =>
      x <-! (if ot_running ur then Ok (tu, p, s) else if ou_running tu then Ok (tu, p, s) else run_updates true tu send_ok p s) ;;
      let '(tu, p, s) := x in
      let t := po_timers p in
      Ok (set_timers (mkTimers (t_request t) (t_gc t) (t_unsolicited t) (Some (db_now s + delay)) (t_query_blocked t))
            (set_outs (po_ur_out p) (Some tu) (po_su_out p) p), s)
  | _, _ => Throw OutOfBounds
  end.
Definition start_output_processing (interval delay : Z) p s : Port :=
  let t := po_timers p in
  set_timers (mkTimers (t_request t) (t_gc t) (Some (db_now s + interval)) (Some (db_now s + delay)) (t_query_blocked t))
    (set_outs (Some (ot_new (fam_group fam) (fam_port fam) s)) (Some (ou_new (fam_group fam) (fam_port fam))) (po_su_out p) p).
Definition stop_output_processing p s : result xorp_exn (Port * db) :=
  s <-! (match po_tu_out p with Some tu => x <-! ou_stop tu s ;; Ok (snd x) | None => Ok s end) ;;
  let t := po_timers p in
  Ok (set_timers (mkTimers (t_request t) (t_gc t) None None (t_query_blocked t)) (set_outs None None (po_su_out p) p), s).

(** [request_table] and its timer *)
Definition request_table (send_ok : bool) p : result xorp_exn Port :=
  x <-! fam_request_table fam (po_ah p) (pkt_new (fam_group fam) (fam_port fam) RIPv2_ROUTES_PER_PACKET) ;;
  let p := set_ah (fst x) p in
  match snd x with
  | Some ps => push_packets send_ok (fold_left (fun p _ => count CRequestsSent p) ps (set_queue (enqueue_all ps (po_queue p)) p))
  | None => push_packets send_ok p
  end.
Definition start_request_table_timer p s : Port :=
  let t := po_timers p in
  let secs := k_table_request_secs (po_constants p) in
  set_timers (mkTimers (if secs =? 0 then None else Some (db_now s + secs * 1000 * MSEC)) (t_gc t) (t_unsolicited t) (t_triggered t) (t_query_blocked t)) p.
Definition stop_request_table_timer p : Port :=
  let t := po_timers p in set_timers (mkTimers None (t_gc t) (t_unsolicited t) (t_triggered t) (t_query_blocked t)) p.
Definition request_table_timeout (send_ok : bool) p s : result xorp_exn Port :=
  match po_peers p with
  | [] => p <-! request_table send_ok p ;; Ok (start_request_table_timer p s)
  | _ => Ok (stop_request_table_timer p)
  end.

(** [kill_peer_routes]: every route of every peer is unreachable *)
Definition port_peer_update (a : A) (net : Net) (nh : A) (cost tag : Z) (pt : PolicyTags) p s : result xorp_exn (Port * db) :=
  match find_peer a p with
  | None => Throw OutOfBounds
  | Some q =>
      x <-! peer_update_route run_filter (io_ifname (po_io p)) (io_vifname (po_io p)) (k_expiry_secs (po_constants p)) net nh cost tag pt q s ;;
      let '(q, s, _) := x in Ok (update_peer a (fun _ => q) p, s)
  end.
Fixpoint kill_routes (a : A) (rs : list nat) p s : result xorp_exn (Port * db) :=
  match rs with
  | [] => Ok (p, s)
  | n :: rs =>
      r <-! deref n s ;;
      x <-! port_peer_update a (re_net r) (re_nh r) RIP_INFINITY (re_tag r) (re_policytags r) p s ;;
      kill_routes a rs (fst x) (snd x)
  end.
Fixpoint kill_peers (qs : list peer) p s : result xorp_exn (Port * db) :=
  match qs with
  | [] => Ok (p, s)
  | q :: qs =>
      x <-! get_origin (peer_origin q) s ;;
      y <-! kill_routes (peer_addr q) (map snd (rtstore x)) p s ;;
      kill_peers qs (fst y) (snd y)
  end.
Definition kill_peer_routes p s : result xorp_exn (Port * db) := kill_peers (po_peers p) (set_ah (fam_reset fam (po_ah p)) p) s.

(** Enabling, and the passive mode *)
Definition output_allowed p : bool := c_en (po_config p) && io_enabled (po_io p) && negb (c_passive (po_config p)).
Definition start_stop_output_processing (interval delay : Z) (send_ok : bool) p s : result xorp_exn (Port * db) :=
  if output_allowed p then
    p <-! request_table send_ok (start_output_processing interval delay (start_request_table_timer p s) s) ;; Ok (p, s)
  else stop_output_processing (stop_request_table_timer p) s.
Definition with_enabled (en : bool) (c : PortConfig) : PortConfig :=
  mkConfig en (c_cost c) (c_horizon c) (c_adv_def_rt c) (c_acc_def_rt c) (c_passive c) (c_acc_non_rip_reqs c).
Definition with_passive (b : bool) (c : PortConfig) : PortConfig :=
  mkConfig (c_en c) (c_cost c) (c_horizon c) (c_adv_def_rt c) (c_acc_def_rt c) b (c_acc_non_rip_reqs c).
Definition set_enabled (interval delay : Z) (send_ok en : bool) p s : result xorp_exn (Port * db) :=
  let old_allowed := output_allowed p in
  let p := set_config (with_enabled en (po_config p)) p in
  x <-! (if eqb (output_allowed p) old_allowed then Ok (p, s) else start_stop_output_processing interval delay send_ok p s) ;;
  if en then Ok x else kill_peer_routes (fst x) (snd x).
Definition set_passive (interval delay : Z) (send_ok b : bool) p s : result xorp_exn (Port * db) :=
  let old_allowed := output_allowed p in
  let p := set_config (with_passive b (po_config p)) p in
  if eqb (output_allowed p) old_allowed then Ok (p, s) else start_stop_output_processing interval delay send_ok p s.
Definition port_io_enabled_change (interval delay : Z) (send_ok en : bool) p s : result xorp_exn (Port * db) :=
  let io := po_io p in
  let p := set_io (mkIO (io_ifname io) (io_vifname io) (io_address io) en (io_pending io)) p in
  x <-! start_stop_output_processing interval delay send_ok p s ;;
  if en then Ok x else kill_peer_routes (fst x) (snd x).

(** [peer_gc_timeout]: peers without routes go *)
Fixpoint gc_peers (qs : list peer) s : result xorp_exn (list peer * db) :=
  match qs with
  | [] => Ok ([], s)
  | q :: qs =>
      x <-! get_origin (peer_origin q) s ;;
      if decide (rtstore x = []) then s <-! delete_origin (peer_origin q) s ;; gc_peers qs s
      else y <-! gc_peers qs s ;; Ok (q :: fst y, snd y)
  end.
Definition peer_gc_timeout p s : result xorp_exn (Port * db) :=
  x <-! gc_peers (po_peers p) s ;;
  let p := set_peers (fst x) p in
  let t := po_timers p in
  let gc := match po_peers p with [] => None | _ => Some (db_now s + 180 * 1000 * MSEC) end in
  let p := set_timers (mkTimers (t_request t) gc (t_unsolicited t) (t_triggered t) (t_query_blocked t)) p in
  Ok (match po_peers p with [] => start_request_table_timer p s | _ => p end, snd x).

(** ** Received packets *)
(** The subnet as a key: the constructor has masked it. *)
Definition as_key (n : IPNet A) : result xorp_exn Net := match decide (net_wf n) with left Hn => Ok (dexist n Hn) | right _ => Throw OutOfBounds end.

Fixpoint apply_verdicts (a : A) (vs : list (verdict A)) p s : result xorp_exn (Port * db) :=
  match vs with
  | [] => Ok (p, s)
  | v :: vs =>
      x <-! (match v with
             | VBadRoute => Ok (record_bad_route (Some a) p, s)
             | VBadPacket => Ok (record_bad_packet (Some a) p, s)
             | VIgnore => Ok (p, s)
             | VUpdate net nh metric tag => n <-! as_key net ;; port_peer_update a n nh metric tag no_tags p s
             end) ;;
      apply_verdicts a vs (fst x) (snd x)
  end.
(** [parse_response]; [o] is a fresh number for the origin of a new peer. *)
Definition parse_response (t : list (IfAtom A)) (a : A) (o : nat) (d : list Z) (off : nat) (n : Z) p s : result xorp_exn (Port * db) :=
  let '(p, s) :=
    match find_peer a p with
    | Some _ => (p, s)
    | None =>
        let '(p, s) := create_peer a o p s in
        (update_peer a (with_counters (fun c => pc_incr_updates_recv (pc_incr_packets_recv c))) p, s)
    end in
  vs <-! fam_response fam (po_config p) t (po_io p) a d off n ;;
  apply_verdicts a vs p s.

Definition queries_blocked p s : bool := match t_query_blocked (po_timers p) with Some t => db_now s <? t | None => false end.
Definition block_queries p s : Port :=
  let t := po_timers p in
  set_timers (mkTimers (t_request t) (t_gc t) (t_unsolicited t) (t_triggered t) (Some (db_now s + k_interquery_msecs (po_constants p) * 1000))) p.

(** The answer to a query: as many entries as the packet takes.  On a bad prefix length the packet is deleted, and then finished. *)
Fixpoint answer_entries (n : nat) (d : list Z) (off i : nat) (n_entries : Z) (a : as_state (fam_asm fam)) s : result xorp_exn (as_state (fam_asm fam) * nat) :=
  if as_full (fam_asm fam) a || (Z.of_nat i =? n_entries) then Ok (a, i)
  else
    match n with
    | O => Throw OutOfBounds
    | S n =>
        e <-! entry_at d off i ;;
        if addr_bitlen (A := A) <? fam_entry_prefix_len fam e then Throw OutOfBounds
        else
          net <-! fam_entry_net fam e ;;
          k <-! as_key net ;;
          x <-! (match find_route k s with
                 | Some r => as_add (fam_asm fam) (proj1_sig (re_net r)) (re_nh r) (cost16 (re_cost r)) (re_tag r) a
                 | None => as_add (fam_asm fam) net a_zero RIP_INFINITY 0 a
                 end) ;;
          answer_entries n d off (S i) n_entries (fst x) s
    end.
Fixpoint answer_packets (n : nat) (src : A) (src_port : Z) (d : list Z) (off i : nat) (n_entries : Z) p s : result xorp_exn Port :=
  if Z.of_nat i =? n_entries then Ok p
  else
    match n with
    | O => Throw OutOfBounds
    | S n =>
        x <-! answer_entries (S (length d)) d off i n_entries (as_start (fam_asm fam) (po_ah p) (pkt_new src src_port RIPv2_ROUTES_PER_PACKET)) s ;;
        y <-! as_finish (fam_asm fam) (fst x) ;;
        let p := set_ah (fst y) p in
        match snd y with
        | None => Ok p
        | Some ps =>
            answer_packets n src src_port d off (snd x) n_entries (fold_left (fun p _ => count CNonRipUpdatesSent p) ps (set_queue (enqueue_all ps (po_queue p)) p)) s
        end
    end.
(** [parse_request] *)
Definition parse_request (interval : Z) (send_ok : bool) (src : A) (src_port : Z) (o : nat) (d : list Z) (off : nat) (n : Z) p s : result xorp_exn (Port * db) :=
  if negb (io_enabled (po_io p)) then Ok (p, s)
  else if (n =? 1) && fam_is_table_request fam (drop off d) then
    if src_port =? fam_port fam then
      let '(p, s) :=
        match find_peer src p with
        | Some _ => (p, s)
        | None =>
            let '(p, s) := create_peer src o p s in
            (update_peer src (with_counters (fun c => pc_incr_requests_recv (pc_incr_packets_recv c))) p, s)
        end in
      unsolicited_response_timeout interval send_ok p s
    else if queries_blocked p s then Ok (p, s)
    else if match po_su_out p with Some su => ot_running su | None => false end then Ok (p, s)
    else
      x <-! run_table true (ot_new src src_port s) send_ok p s ;;
      let '(su, p, s) := x in
      Ok (block_queries (set_outs (po_ur_out p) (po_tu_out p) (Some su) p) s, s)
  else if queries_blocked p s then Ok (p, s)
  else
    p <-! answer_packets (S (length d)) src src_port d off 0 n p s ;;
    p <-! push_packets send_ok p ;;
    Ok (block_queries p s, s).

(** [port_io_receive] *)
Definition port_io_receive (t : list (IfAtom A)) (interval : Z) (send_ok : bool) (src : A) (src_port : Z) (o : nat) (d : list Z) p s : result xorp_exn (Port * db) :=
  if negb (c_en (po_config p)) then Ok (p, s)
  else
    let rip_port := src_port =? fam_port fam in
    let known := if rip_port then peer_addr <$> find_peer src p else None in
    if negb rip_port && negb (c_acc_non_rip_reqs (po_config p)) then Ok (p, s)
    else
      let p := record_packet known p s in
      let bad := Ok (record_bad_packet known p, s) in
      if (length d <? RIPv2_MIN_PACKET_BYTES)%nat then bad
      else if negb (valid_command d) then bad
      else if negb (valid_version (fam_version fam) d) then bad
      else if negb (valid_padding d) then bad
      else if (rph_command d =? RESPONSE) && negb rip_port then bad
      else
        new_peer <-! (match known with
                      | Some a =>
                          match find_peer a p with
                          | Some q => x <-! get_origin (peer_origin q) s ;; Ok (match rtstore x with [] => true | _ => false end)
                          | None => Ok true
                          end
                      | None => Ok true
                      end) ;;
        x <-! fam_inbound fam d src new_peer (po_ah p) ;;
        let p := set_ah (fst x) p in
        match snd x with
        | IbReject => Ok (record_bad_auth_packet known p, s)
        | IbEntries off n bad_size =>
            let p := if bad_size : bool then record_bad_packet known p else p in
            if (n =? 0) && (fam_version fam =? 2) then Ok (p, s)
            else if rip_port && (rph_command d =? RESPONSE) then parse_response t src o d off n (record_response_packet known p) s
            else if negb (rph_command d =? REQUEST) then Throw AssertFailed
            else
              let p := if rip_port then record_request_packet known p else count CNonRipRequestsRecv p in
              parse_request interval send_ok src src_port o d off n p s
        end.
End Ports.
