(* ===== verification/RipPortProps.v ===== *)
(** * What a RIP port promises of the packets it receives

    The entries of a response: which ones become updates, with which next hop and metric.
    No sequence of octets makes the input path fail, outside of the cases that are proved
    to fail in their own theorems. *)

From Stdlib Require Import ZArith Lia String.
From stdpp Require Import base tactics option numbers list gmap strings.
From S2P Require Import Prelude Word32 Addr IPv4 IPv6 IPNet OMap VrrpPacket RipQueue RipQueueProps RipRoute RipDB RipDBProps RipDBUpdate.
From S2P Require Import RipDBRun RipPacket RipAuth RipPeer RipOutput RipOutputProps RipAsm RipPort.
Local Open Scope Z_scope.
Local Open Scope xorp_scope.

(** ** Octets *)
Definition octets (d : list Z) : Prop := Forall (fun x => 0 <= x < 256) d.

Lemma octets_drop n d : octets d -> octets (drop n d).
Proof. apply Forall_drop. Qed.
Lemma octets_take n d : octets d -> octets (take n d).
Proof. apply Forall_take. Qed.
Lemma octets_at d n : octets d -> 0 <= octet_at d n < 256.
Proof.
  intros Hd. unfold octet_at. rewrite nth_lookup. destruct (d !! n) as [x|] eqn:E; [exact (Forall_lookup_1 _ _ _ _ Hd E)|done].
Qed.
Lemma extract_16_range d n : octets d -> 0 <= extract_16 d n <= 0xffff.
Proof.
  intros Hd. pose proof (octets_at d n Hd). pose proof (octets_at d (n + 1) Hd). unfold extract_16. rewrite shl8_lor by done. lia.
Qed.
Lemma extract_8_range d n : octets d -> 0 <= extract_8 d n < 256.
Proof. apply octets_at. Qed.

Section Octets.
Context `{HostOrder}.

Lemma mem_range l : octets l -> (4 <= length l)%nat -> is_u32 (u32_of_mem (take 4 l)).
Proof.
  intros Hl Hn. destruct l as [|a [|b [|c [|d l]]]]; try (cbn in Hn; lia). cbn [take]. unfold octets in Hl. rewrite !Forall_cons in Hl.
  destruct Hl as (? & ? & ? & ? & _). by apply mem_u32_roundtrip.
Qed.
Lemma copy_in4_wf l : octets l -> (4 <= length l)%nat -> ipv4_wf (ipv4_copy_in l).
Proof. apply mem_range. Qed.
Lemma copy_in6_wf l : octets l -> (16 <= length l)%nat -> ipv6_wf (ipv6_copy_in l).
Proof.
  intros Hl Hn. unfold ipv6_copy_in, ipv6_wf. cbn. split_conj; apply mem_range; try (by apply octets_drop); try done; rewrite ?length_drop; lia.
Qed.

Lemma mask_len_loop_range n : forall c x, 0 <= c -> c + Z.of_nat n < 2 ^ 32 -> 0 <= ipv4_mask_len_loop n c x <= c + Z.of_nat n.
Proof.
  induction n as [|n IH]; intros c x Hc Hn; cbn [ipv4_mask_len_loop]; [lia|]. destruct (negb _); [|lia].
  assert (E : u32_add c 1 = c + 1) by (unfold u32_add, u32; apply Z.mod_small; lia). rewrite E. specialize (IH (c + 1) (u32_shl x 1)). lia.
Qed.
Lemma mask_len_range a : 0 <= ipv4_mask_len a <= 32.
Proof. apply (mask_len_loop_range 32 0); lia. Qed.

(** ** The first octet of an address *)
Definition first_octet (a : IPv4) : Z := ipv4_val a / 2 ^ 24.

Lemma first_octet_range a : ipv4_wf a -> 0 <= first_octet a < 256.
Proof. intros Ha%ipv4_val_range. unfold first_octet, is_u32 in *. split; [apply Z.div_pos; lia|apply Z.div_lt_upper_bound; lia]. Qed.

(** The checks of [parse_response] on the masked address. *)
Definition filtered (a : IPv4) : IPv4 := ipv4_and a net_filter.
Lemma filtered_val a : ipv4_wf a -> ipv4_val (filtered a) = 2 ^ 24 * first_octet a /\ ipv4_wf (filtered a).
Proof.
  intros Ha. destruct (ipv4_of_host 0xff000000) as [Hw Ev]; [by vm_compute|].
  split; [|by apply u32_land].
  assert (E : ipv4_val (filtered a) = Z.land (ipv4_val a) (ipv4_val (mkIPv4 (htonl 0xff000000)))) by (by apply ntohl_land). rewrite E, Ev.
  pose proof (ipv4_val_range a Ha) as Hr. unfold is_u32 in Hr. unfold first_octet.
  change 0xff000000 with (Z.shiftl (Z.ones 8) 24). apply Z.bits_inj'. intros i Hi. rewrite Z.land_spec, Z.shiftl_spec by lia.
  rewrite <- Z.shiftr_div_pow2, Z.mul_comm, <- Z.shiftl_mul_pow2, Z.shiftl_spec by lia.
  destruct (Z.ltb_spec i 24); [rewrite (Z.testbit_neg_r (Z.ones 8)), (Z.testbit_neg_r (Z.shiftr _ _)) by lia; by rewrite andb_false_r|].
  rewrite Z.shiftr_spec by lia. replace (i - 24 + 24) with i by lia. destruct (Z.ltb_spec i 32).
  - rewrite Z.ones_spec_low by lia. by rewrite andb_true_r.
  - rewrite Z.ones_spec_high by lia. rewrite andb_false_r. symmetry. destruct (Z.eq_dec (ipv4_val a) 0) as [->|Hn]; [apply Z.bits_0|].
    apply Z.bits_above_log2; [lia|]. apply Z.log2_lt_pow2; [lia|]. eapply Z.lt_le_trans; [apply Hr|]. apply Z.pow_le_mono_r; lia.
Qed.

Definition checks (o : Z) : bool :=
  let x := 2 ^ 24 * o in
  eqb (IN_MULTICAST x || (Z.land x 0xff000000 =? u32_shl 127 24) || negb (x <? 0xf0000000) || (x =? 0))
      (negb ((1 <=? o) && (o <? 224) && negb (o =? 127))).
Lemma checks_all : forallb checks (map Z.of_nat (seq 0 256)) = true.
Proof. by vm_compute. Qed.
Lemma checks_octet o : 0 <= o < 256 -> checks o = true.
Proof.
  intros Ho. apply (proj1 (forallb_forall checks _) checks_all). apply in_map_iff. exists (Z.to_nat o). split; [lia|]. apply in_seq. lia.
Qed.

(** A subnet RIP accepts: of class A, B or C, and neither 0/8 nor 127/8. *)
Definition unicast_net (a : IPv4) : bool := let o := first_octet a in (1 <=? o) && (o <? 224) && negb (o =? 127).
Lemma unicast_checks a : ipv4_wf a ->
  ipv4_is_multicast (filtered a) || ipv4_is_loopback (filtered a) || negb (ipv4_ltb (filtered a) class_e_net) || ipv4_eqb (filtered a) ipv4_ZERO = negb (unicast_net a).
Proof.
  intros Ha. destruct (filtered_val a Ha) as [Ev Hw]. pose proof (checks_octet _ (first_octet_range a Ha)) as Hc. apply eqb_prop in Hc.
  unfold unicast_net. rewrite <- Hc. unfold ipv4_is_multicast, ipv4_is_loopback, ipv4_ltb. fold (ipv4_val (filtered a)). rewrite Ev.
  destruct (ipv4_of_host 0xf0000000) as [_ Ee]; [by vm_compute|]. unfold ipv4_val in Ee. change (ipv4_addr class_e_net) with (htonl 0xf0000000). cbn [ipv4_addr] in Ee. rewrite Ee.
  f_equal. apply bool_eq_iff. unfold ipv4_eqb. rewrite !Z.eqb_eq, <- Ev. split.
  - intros E0. unfold ipv4_val. rewrite E0. apply ntohl_0.
  - intros E0. assert (filtered a = ipv4_ZERO) as ->; [|done]. apply ipv4_val_inj; [done|by vm_compute|]. rewrite E0. symmetry. apply ntohl_0.
Qed.
End Octets.

(** ** The entries of a RIPv2 response *)
Section Entries4.
Context `{HostOrder}.

(** The interface tree knows the address of the port. *)
Definition io_known4 (t : list (IfAtom IPv4)) (io : PortIO IPv4) : Prop :=
  exists ifa, find_addr (io_ifname io) (io_vifname io) (io_address io) t = Some ifa /\ ipv4_wf (ia_addr ifa) /\ 0 <= ia_prefix_len ifa <= 32.
(** A next hop on the subnet of the port that is not the port. *)
Definition on_link (t : list (IfAtom IPv4)) (io : PortIO IPv4) (nh : IPv4) : Prop :=
  ipv4_eqb nh (io_address io) = false /\ exists ifa n, find_addr (io_ifname io) (io_vifname io) (io_address io) t = Some ifa
    /\ net_new nh (ia_prefix_len ifa) = Ok n /\ exists n', net_new (ia_addr ifa) (ia_prefix_len ifa) = Ok n' /\ net_eqb n n' = true.

Lemma net_new4 (a : IPv4) p : ipv4_wf a -> 0 <= p <= 32 -> exists n, net_new a p = Ok n /\ net_wf n /\ prefix_len n = p.
Proof. intros Ha Hp. destruct (net_new_ok (A := IPv4) a p) as (n & E & W & P & _); [exact Ha|exact Hp|]. by exists n. Qed.

Lemma entry_nexthop4_ok t io src nh : io_known4 t io -> ipv4_wf nh ->
  exists x, entry_nexthop4 t io src nh = Ok x /\ match x with Some y => y = src \/ (y = nh /\ on_link t io nh) | None => ipv4_eqb nh (io_address io) = true end.
Proof.
  intros (ifa & Ef & Hw & Hp) Hn. unfold entry_nexthop4. destruct (ipv4_eqb nh ipv4_ZERO); [exists (Some src); split; [done|by left]|].
  destruct (ipv4_eqb nh (io_address io)) eqn:Ea; [by exists None|]. rewrite Ef.
  destruct (net_new4 nh (ia_prefix_len ifa) Hn Hp) as (n & En & _). destruct (net_new4 (ia_addr ifa) (ia_prefix_len ifa) Hw Hp) as (n' & En' & _).
  rewrite En, En'. cbn [result_bind]. eexists. split; [done|]. destruct (net_eqb n n') eqn:Eq; [right|by left]. split; [done|]. split; [done|].
  exists ifa, n. split; [done|]. split; [done|]. by exists n'.
Qed.

Lemma add_cost_min m c : 0 <= m <= RIP_INFINITY -> 0 <= c < 2 ^ 15 -> add_cost m c = Z.min RIP_INFINITY (m + c).
Proof.
  unfold add_cost, cost16, RIP_INFINITY. intros Hm Hc. rewrite Z.mod_small by lia. destruct (Z.ltb_spec 16 (m + c)); lia.
Qed.

(** What an entry becomes. *)
Definition update4 (c : PortConfig) (t : list (IfAtom IPv4)) (io : PortIO IPv4) (src : IPv4) (e : list Z) (v : verdict IPv4) : Prop :=
  match v with
  | VUpdate net nh m tag =>
      net_wf net /\ (unicast_net (masked_addr net) = true \/ (prefix_len net = 0 /\ c_acc_def_rt c = true))
      /\ (prefix_len net = 32 -> my_matches true (masked_addr net) t = (false, false))
      /\ m = Z.min RIP_INFINITY (cost16 (pre4_metric e) + c_cost c) /\ tag = pre4_tag e
      /\ (nh = src \/ (nh = pre4_nexthop e /\ on_link t io nh))
  | _ => True
  end.

Lemma classful_range a : 0 <= classful_len a <= 32.
Proof. unfold classful_len. repeat case_match; lia. Qed.

Lemma parse_entry4_ok c t io src e : io_known4 t io -> 0 <= c_cost c <= RIP_INFINITY -> octets e -> length e = ENTRY_SIZE ->
  exists v, parse_entry4 c t io src e = Ok v /\ update4 c t io src e v.
Proof.
  intros Hio Hc He Hl. unfold ENTRY_SIZE in Hl. unfold parse_entry4.
  assert (Hlen : forall n, (n <= 16)%nat -> ipv4_wf (ipv4_copy_in (drop n e))) by (intros n Hn; apply copy_in4_wf; [by apply octets_drop|rewrite length_drop; lia]).
  destruct (negb (pre4_addr_family e =? AF_INET)); [by exists VBadRoute|]. destruct (Z.ltb_spec RIP_INFINITY (cost16 (pre4_metric e))) as [|Hm]; [by exists VBadRoute|].
  destruct (_ <? pre4_prefix_len e); [by exists VBadPacket|]. unfold pre4_net.
  destruct (net_new4 (pre4_addr e) (pre4_prefix_len e)) as (net0 & E0 & W0 & P0); [by apply Hlen; lia|apply mask_len_range|]. rewrite E0. cbn [result_bind].
  assert (Hx : exists net, (if (pre4_prefix_len e =? 0) && negb (ipv4_eqb (pre4_addr e) ipv4_ZERO)
      then n <-! net_new (pre4_addr e) (classful_len (pre4_addr e)) ;; Ok (classful_len (pre4_addr e), n) else Ok (pre4_prefix_len e, net0)) = Ok (prefix_len net, net) /\ net_wf net).
  { destruct (_ && _); [|exists net0; by rewrite P0]. destruct (net_new4 (pre4_addr e) (classful_len (pre4_addr e))) as (n & En & Wn & Pn);
      [by apply Hlen; lia|apply classful_range|]. exists n. rewrite En. cbn [result_bind]. by rewrite Pn. }
  destruct Hx as (net & -> & Wn). cbn [result_bind]. destruct (_ && _); [by exists VIgnore|]. fold (filtered (masked_addr net)).
  pose proof (unicast_checks (masked_addr net) (proj1 Wn)) as Hu. destruct (ipv4_is_multicast _); [by exists VBadRoute|].
  destruct (ipv4_is_loopback _); [by exists VBadRoute|]. destruct (negb (ipv4_ltb _ _)); [by exists VBadRoute|]. cbn [orb] in Hu. rewrite Hu.
  destruct (negb (unicast_net (masked_addr net)) && _) eqn:Ez; [by exists VBadRoute|].
  set (mt := if prefix_len net =? addr_bitlen then _ else _). destruct mt as [mine bcast] eqn:Em. destruct mine; [by exists VBadRoute|]. destruct bcast; [by exists VBadRoute|].
  destruct (entry_nexthop4_ok t io src (pre4_nexthop e) Hio) as (x & -> & Hx); [apply Hlen; lia|]. cbn [result_bind]. destruct x as [nh|]; [|by exists VIgnore].
  eexists. split; [done|]. cbn [update4]. split; [done|]. split; [|split; [|split; [|split; [done|]]]].
  - destruct (unicast_net _); [by left|right]. apply andb_false_iff in Ez as [?|Ez]; [done|]. apply orb_false_iff in Ez as [E1 E2].
    apply negb_false_iff in E1, E2. by apply Z.eqb_eq in E1.
  - intros E32. unfold mt in Em. change (addr_bitlen (A := IPv4)) with 32 in Em. by rewrite E32, Z.eqb_refl in Em.
  - apply add_cost_min; [|unfold RIP_INFINITY in *; lia]. split; [|done]. apply cost16_range.
  - destruct Hx as [->|[-> Ho]]; [by left|by right].
Qed.
End Entries4.

(** ** The entries of a RIPng response *)
Section Entries6.
Context `{HostOrder}.

(** The next hop of the entries that follow: none yet, the sender, or a link-local address. *)
Definition nexthop6 (src nh : IPv6) : Prop := nh = ipv6_ALL_ONES \/ nh = src \/ ipv6_is_linklocal_unicast nh = true.
Definition update6 (c : PortConfig) (t : list (IfAtom IPv6)) (src : IPv6) (e : list Z) (v : verdict IPv6) : Prop :=
  match v with
  | VUpdate net nh m tag =>
      net_wf net /\ ipv6_is_multicast (masked_addr net) = false /\ ipv6_is_linklocal_unicast (masked_addr net) = false /\ ipv6_is_loopback (masked_addr net) = false
      /\ (ipv6_eqb (masked_addr net) ipv6_ZERO = true -> prefix_len net = 0 /\ c_acc_def_rt c = true)
      /\ (prefix_len net = 128 -> fst (my_matches false (masked_addr net) t) = false)
      /\ m = Z.min RIP_INFINITY (pre6_metric e + (pre6_metric e + c_cost c)) /\ tag = pre6_tag e
      /\ (nh = src \/ ipv6_is_linklocal_unicast nh = true)
  | _ => True
  end.

Lemma net_new6 (a : IPv6) p : ipv6_wf a -> 0 <= p <= 128 -> exists n, net_new a p = Ok n /\ net_wf n /\ prefix_len n = p.
Proof. intros Ha Hp. destruct (net_new_ok (A := IPv6) a p) as (n & E & W & P & _); [exact Ha|exact Hp|]. by exists n. Qed.

Lemma parse_entry6_ok c t src nh e : nexthop6 src nh -> 0 <= c_cost c <= RIP_INFINITY -> octets e -> length e = ENTRY_SIZE ->
  exists nh' v, parse_entry6 c t src nh e = Ok (nh', v) /\ nexthop6 src nh' /\ update6 c t src e v.
Proof.
  intros Hnh Hc He Hl. unfold ENTRY_SIZE in Hl. unfold parse_entry6. destruct (pre6_is_nexthop e).
  { eexists _, _. split; [done|]. split; [|done]. destruct (ipv6_is_linklocal_unicast (pre6_prefix e)) eqn:El; cbn [negb].
    - case_match; [right; by left|by right; right].
    - change (ipv6_eqb ipv6_ZERO ipv6_ZERO) with true. right. by left. }
  destruct (ipv6_eqb nh ipv6_ALL_ONES) eqn:Ea; [by exists nh, VBadRoute|]. destruct (Z.ltb_spec RIP_INFINITY (pre6_metric e)) as [|Hm]; [by exists nh, VBadRoute|].
  destruct (Z.ltb_spec (addr_bitlen (A := IPv6)) (pre6_prefix_len e)) as [|Hp]; [by exists nh, VBadPacket|]. unfold pre6_net.
  pose proof (extract_8_range e 18 He) as Hp0. pose proof (extract_8_range e 19 He) as Hm0. change (pre6_prefix_len e <= 128) in Hp.
  destruct (net_new6 (pre6_prefix e) (pre6_prefix_len e)) as (net & -> & Wn & Pn); [apply copy_in6_wf; [done|lia]|split; [apply Hp0|done]|]. cbn [result_bind].
  destruct (ipv6_is_multicast _) eqn:E1; [by exists nh, VBadRoute|]. destruct (ipv6_is_linklocal_unicast (masked_addr net)) eqn:E2; [by exists nh, VBadRoute|].
  destruct (ipv6_is_loopback _) eqn:E3; [by exists nh, VBadRoute|]. destruct (ipv6_eqb (masked_addr net) ipv6_ZERO && _) eqn:E4; [by exists nh, VBadRoute|].
  set (mine := if pre6_prefix_len e =? addr_bitlen then _ else _). destruct mine eqn:Em; [by exists nh, VBadRoute|].
  eexists nh, _. split; [done|]. split; [done|]. cbn [update6]. split; [done|]. split; [done|]. split; [done|]. split; [done|]. split; [|split; [|split; [|split; [done|]]]].
  - intros Ez. rewrite Ez in E4. cbn [andb] in E4. apply orb_false_iff in E4 as [E5 E6]. apply negb_false_iff in E5, E6. by apply Z.eqb_eq in E5.
  - intros E128. unfold mine in Em. change (addr_bitlen (A := IPv6)) with 128 in Em. by rewrite <- Pn, E128, Z.eqb_refl in Em.
  - apply add_cost_min; unfold RIP_INFINITY in *; unfold pre6_metric in *; lia.
  - destruct Hnh as [->|[->|Hl2]]; [done|by left|by right].
Qed.
End Entries6.

(** ** The loops *)
Lemma entry_at_in d off n : (off + (n + 1) * ENTRY_SIZE <= length d)%nat -> octets d ->
  exists e, entry_at d off n = Ok e /\ octets e /\ length e = ENTRY_SIZE.
Proof.
  intros Hn Hd. unfold entry_at. rewrite (proj2 (Nat.leb_le _ _)) by done. eexists. split; [done|]. split; [by apply octets_take, octets_drop|].
  rewrite length_take, length_drop. unfold ENTRY_SIZE in *. lia.
Qed.

Section Loops.
Context `{HostOrder}.

Lemma parse_entries4_ok c t io src d off : io_known4 t io -> 0 <= c_cost c <= RIP_INFINITY -> octets d ->
  forall m i n, (off + (i + m) * ENTRY_SIZE <= length d)%nat -> (m < n)%nat ->
  exists vs, parse_entries4 n c t io src d off i (Z.of_nat (i + m)) = Ok vs /\ length vs = m
    /\ Forall (fun v => exists e, octets e /\ length e = ENTRY_SIZE /\ update4 c t io src e v) vs.
Proof.
  intros Hio Hc Hd. induction m as [|m IH]; intros i n Hm Hn; (destruct n as [|n]; [lia|]); cbn [parse_entries4].
  { rewrite (proj2 (Z.eqb_eq _ _)) by lia. by exists []. }
  rewrite (proj2 (Z.eqb_neq _ _)) by lia. destruct (entry_at_in d off i) as (e & -> & He & Hl); [unfold ENTRY_SIZE in *; lia|done|]. cbn [result_bind].
  destruct (parse_entry4_ok c t io src e Hio Hc He Hl) as (v & -> & Hv). cbn [result_bind].
  destruct (IH (S i) n) as (vs & E & Hlen & Hvs); [unfold ENTRY_SIZE in *; lia|lia|]. rewrite Nat.add_succ_comm in E. rewrite E. cbn [result_bind].
  exists (v :: vs). split; [done|]. split; [cbn; by rewrite Hlen|]. constructor; [by exists e|done].
Qed.
Lemma parse_entries6_ok c t src d off : 0 <= c_cost c <= RIP_INFINITY -> octets d ->
  forall m i n nh, nexthop6 src nh -> (off + (i + m) * ENTRY_SIZE <= length d)%nat -> (m < n)%nat ->
  exists vs, parse_entries6 n c t src nh d off i (Z.of_nat (i + m)) = Ok vs /\ length vs = m
    /\ Forall (fun v => exists e, octets e /\ length e = ENTRY_SIZE /\ update6 c t src e v) vs.
Proof.
  intros Hc Hd. induction m as [|m IH]; intros i n nh Hnh Hm Hn; (destruct n as [|n]; [lia|]); cbn [parse_entries6].
  { rewrite (proj2 (Z.eqb_eq _ _)) by lia. by exists []. }
  rewrite (proj2 (Z.eqb_neq _ _)) by lia. destruct (entry_at_in d off i) as (e & -> & He & Hl); [unfold ENTRY_SIZE in *; lia|done|]. cbn [result_bind].
  destruct (parse_entry6_ok c t src nh e Hnh Hc He Hl) as (nh' & v & -> & Hnh' & Hv). cbn [result_bind fst snd].
  destruct (IH (S i) n nh') as (vs & E & Hlen & Hvs); [done|unfold ENTRY_SIZE in *; lia|lia|]. rewrite Nat.add_succ_comm in E. rewrite E. cbn [result_bind].
  exists (v :: vs). split; [done|]. split; [cbn; by rewrite Hlen|]. constructor; [by exists e|done].
Qed.
End Loops.

(** ** What a family promises of the packets it reads *)
Definition verdict_ok {A} `{AddrSpec A} (v : verdict A) : Prop :=
  match v with VUpdate net nh m tag => net_wf net /\ 0 <= m <= RIP_INFINITY /\ 0 <= tag <= 0xffff | _ => True end.
(** The entries lie in the packet. *)
Definition entries_in (d : list Z) (ib : inbound) : Prop :=
  match ib with IbReject => True | IbEntries off n _ => exists m, n = Z.of_nat m /\ (off + m * ENTRY_SIZE <= length d)%nat end.
Class FamilySafe {A H : Type} `{AddrSpec A} (fam : family A H) := {
  (** The interface tree has what the family looks up. *)
  fs_io : list (IfAtom A) -> PortIO A -> Prop;
  (** The authentication stays in the packet. *)
  fs_sized : list Z -> H -> Prop;
  fs_inbound d src new_peer h : octets d -> (HEADER_SIZE <= length d)%nat -> fs_sized d h ->
    exists h' ib, fam_inbound fam d src new_peer h = Ok (h', ib) /\ entries_in d ib;
  fs_response c t io src d off m : fs_io t io -> 0 <= c_cost c <= RIP_INFINITY -> octets d -> (off + m * ENTRY_SIZE <= length d)%nat ->
    exists vs, fam_response fam c t io src d off (Z.of_nat m) = Ok vs /\ length vs = m /\ Forall verdict_ok vs }.

Section SafeFamilies.
Context `{HostOrder} (md5 : list Z -> list Z).

Lemma null_inbound_in d off n : (HEADER_SIZE <= length d)%nat -> null_inbound d = Some (off, n) -> entries_in d (IbEntries off n false).
Proof.
  intros Hl. unfold null_inbound. set (q := ((length d - HEADER_SIZE) / ENTRY_SIZE)%nat). pose proof (Nat.Div0.mul_div_le (length d - HEADER_SIZE) ENTRY_SIZE) as Hq. fold q in Hq.
  clearbody q. repeat case_match; intros [= <- <-]; [exists 0%nat; split; [done|lia]|]. exists q. split; [done|]. lia.
Qed.
Lemma c_string_ok d : 0 ∈ d -> exists s, c_string d = Ok s.
Proof.
  induction d as [|c d IH]; [by intros ?%elem_of_nil|]. intros Hin. cbn [c_string]. destruct (Z.eqb_spec c 0); [by exists []|].
  apply elem_of_cons in Hin as [|Hin]; [congruence|]. destruct (IH Hin) as [s ->]. by exists (c :: s).
Qed.

(** A zero octet ends the password, and the digest is behind the authentication entry. *)
Definition sized4 (d : list Z) (h : AuthHandler) : Prop :=
  match h with
  | NullAuth => True
  | PlaintextAuth _ => 0 ∈ drop (HEADER_SIZE + 4) d
  | MD5Auth c => no_keys c = false -> 24 <= mpr_auth_off (drop HEADER_SIZE d)
  end.

Lemma plaintext_inbound_in key d : 0 ∈ drop (HEADER_SIZE + 4) d ->
  exists x, plaintext_inbound key d = Ok x /\ match x with Some (off, n) => entries_in d (IbEntries off n false) | None => True end.
Proof.
  intros H0. unfold plaintext_inbound. destruct (_ <? length d)%nat; [by exists None|]. destruct (Nat.ltb_spec (length d) RIPv2_MIN_AUTH_PACKET_BYTES) as [|Hl]; [by exists None|].
  destruct (negb _); [by exists None|]. destruct (negb _); [by exists None|]. destruct (negb _); [by exists None|]. unfold ppr_password.
  destruct (c_string_ok _ H0) as [s ->]. cbn [result_bind]. case_decide; [|by exists None]. eexists. split; [done|]. eexists. split; [done|].
  pose proof (Nat.Div0.mul_div_le (length d - HEADER_SIZE) ENTRY_SIZE). unfold RIPv2_MIN_AUTH_PACKET_BYTES, HEADER_SIZE, ENTRY_SIZE in *.
  assert (1 <= (length d - 4) / 20)%nat by (apply Nat.div_le_lower_bound; lia). lia.
Qed.
Lemma md5_inbound_in c d src new_peer : octets d -> (HEADER_SIZE <= length d)%nat -> (no_keys c = false -> 24 <= mpr_auth_off (drop HEADER_SIZE d)) ->
  match snd (md5_inbound md5 c d src new_peer) with Some (off, n) => entries_in d (IbEntries off n false) | None => True end.
Proof.
  intros Hd Hl Hs. unfold md5_inbound. destruct (no_keys c); [cbn [snd]; destruct (null_inbound d) as [[off n]|] eqn:E; [by apply null_inbound_in|done]|].
  specialize (Hs eq_refl). destruct (_ <? _)%nat; [done|]. destruct (_ <? _)%nat; [done|]. destruct (negb _); [done|]. destruct (negb _); [done|].
  destruct (negb (mpr_auth_bytes _ =? _)) eqn:Eb; [done|]. destruct (negb (_ + _ =? _)) eqn:Ee; [done|]. apply negb_false_iff, Z.eqb_eq in Eb, Ee. rewrite Eb in Ee.
  destruct (find_key _ _) as [k|]; [|done]. destruct (_ && _ && _); [done|]. destruct (negb _); [done|]. case_decide; [|done]. cbn [snd entries_in].
  set (off := mpr_auth_off (drop HEADER_SIZE d)) in *.
  pose proof (extract_16_range (drop HEADER_SIZE d) 4 (octets_drop _ _ Hd)) as Ho. fold (mpr_auth_off (drop HEADER_SIZE d)) in Ho. fold off in Ho.
  assert (H1 : 1 <= (off - Z.of_nat HEADER_SIZE) / Z.of_nat ENTRY_SIZE) by (apply Z.div_le_lower_bound; unfold HEADER_SIZE, ENTRY_SIZE; lia).
  pose proof (Z.mul_div_le (off - Z.of_nat HEADER_SIZE) (Z.of_nat ENTRY_SIZE) ltac:(unfold ENTRY_SIZE; lia)) as H2.
  exists (Z.to_nat ((off - Z.of_nat HEADER_SIZE) / Z.of_nat ENTRY_SIZE - 1)). set (q := (off - _) / _) in *. unfold HEADER_SIZE, ENTRY_SIZE, TRAILER_SIZE in *.
  rewrite Z.mod_small by lia. split; lia.
Qed.

#[global] Instance family4_safe : FamilySafe (family4 md5).
Proof.
  refine (Build_FamilySafe IPv4 AuthHandler _ _ (family4 md5) io_known4 sized4 _ _).
  - intros d src new_peer h Hd Hl Hs. cbn [family4 fam_inbound]. destruct h as [|key|c]; cbn [authenticate_inbound].
    + eexists _, _. split; [done|]. cbn [snd]. destruct (null_inbound d) as [[off n]|] eqn:E; [by apply null_inbound_in|done].
    + destruct (plaintext_inbound_in key d Hs) as (x & -> & Hx). cbn [result_bind fst snd]. eexists _, _. split; [done|]. by destruct x as [[off n]|].
    + pose proof (md5_inbound_in c d src new_peer Hd Hl Hs) as Hx. destruct (md5_inbound md5 c d src new_peer) as [c' x]. cbn [snd] in Hx. cbn [result_bind fst snd].
      eexists _, _. split; [done|]. by destruct x as [[off n]|].
  - intros c t io src d off m Hio Hc Hd Hm. destruct (parse_entries4_ok c t io src d off Hio Hc Hd m 0 (S (length d))) as (vs & E & Hl & Hv); [done|unfold ENTRY_SIZE in Hm; lia|].
    exists vs. split; [exact E|]. split; [done|]. eapply Forall_impl; [exact Hv|]. intros [| | |net nh mt tag]; try done.
    intros (e & He & _ & Wn & _ & _ & -> & -> & _). split; [done|]. split; [|by apply extract_16_range].
    pose proof (cost16_range (pre4_metric e)). unfold RIP_INFINITY in *. lia.
Defined.

#[global] Instance family6_safe : FamilySafe family6.
Proof.
  refine (Build_FamilySafe IPv6 unit _ _ family6 (fun _ _ => True) (fun _ _ => True) _ _).
  - intros d src new_peer h Hd Hl _. eexists _, _. split; [done|]. eexists. split; [done|].
    pose proof (Nat.Div0.mul_div_le (length d - HEADER_SIZE) ENTRY_SIZE). rewrite Nat.mul_comm. lia.
  - intros c t io src d off m _ Hc Hd Hm.
    destruct (parse_entries6_ok c t src d off Hc Hd m 0 (S (length d)) ipv6_ALL_ONES) as (vs & E & Hl & Hv); [by left|done|unfold ENTRY_SIZE in Hm; lia|].
    exists vs. split; [exact E|]. split; [done|]. eapply Forall_impl; [exact Hv|]. intros [| | |net nh mt tag]; try done.
    intros (e & He & _ & Wn & _ & _ & _ & _ & _ & -> & -> & _). split; [done|]. split; [|by apply extract_16_range].
    pose proof (extract_8_range e 19 He) as Hr. unfold pre6_metric, RIP_INFINITY in *. lia.
Defined.
End SafeFamilies.
