(* ===== verification/RipPortSafe.v ===== *)
(** * Received responses are safe

    A database without stale routes stays one under updates; so the responses of the
    neighbours, whatever their octets, keep the invariant of the database. *)

From Stdlib Require Import ZArith Lia String.
From stdpp Require Import base tactics option numbers list gmap strings.
From S2P Require Import Prelude Word32 Addr IPv4 IPv6 IPNet OMap VrrpPacket RipQueue RipQueueProps RipRoute RipDB RipDBProps RipDBUpdate.
From S2P Require Import RipDBRun RipClaims RipPacket RipAuth RipPeer RipOutput RipOutputProps RipAsm RipPort RipPortProps.
Local Open Scope Z_scope.
Local Open Scope xorp_scope.

(** ** Updates of a database without stale routes *)
Section Clean.
Context {Net Addr : Type} `{KeyOrder Net, !KeyOrderLaws Net, !EqDecision Net, !EqDecision Addr, !NextHop Addr}.
Abbreviation db := (RouteDB Net Addr).
Context (run_filter : filter_kind -> route_vars Net Addr -> option (filter_result Addr)) (Hpolicy : no_policy_exception run_filter).
Implicit Types (s : db).

(** Every live route is in the table. *)
Record db_clean s : Prop := { dc_good : db_good s; dc_live : forall n, no_dead n s }.

Lemma inserted_no_dead n p r s s' : m_sorted (db_routes s) -> no_dead n s -> inserted p r s s' -> no_dead n s'.
Proof.
  intros Hs Hn Hin q x Hq Ex. destruct (decide (q = p)) as [->|Hne].
  { destruct (in_this _ _ _ _ Hin) as [c Hc]. rewrite Hc in Hq. injection Hq as <-. rewrite <- Ex. exact (inserted_table _ _ _ _ Hin). }
  rewrite (in_other _ _ _ _ Hin) in Hq by done. pose proof (Hn q x Hq Ex) as Hm. pose proof (in_free _ _ _ _ Hin) as Hfree.
  rewrite (in_routes _ _ _ _ Hin), find_insert by done. case_decide; [subst n; congruence|done].
Qed.

Lemma store_dead n o (x : RouteOrigin Net) p r0 s : db_clean s -> db_origins s !! o = Some x -> m_find n (rtstore x) = Some p -> db_heap s !! p = Some r0 ->
  m_find (re_net r0) (db_routes s) = None -> False.
Proof.
  intros [Hg Hn] Hx Hs Hp Hf. destruct (di_store _ _ (dg_inv s Hg) o x n p Hx) as (y & Hy & En & _); [by apply (store_find o x s []); [apply Hg|..]|].
  assert (y = r0) as -> by congruence. rewrite (Hn _ p r0 Hp eq_refl) in Hf. done.
Qed.

Lemma update_clean n nh i v c t o pt push s : db_clean s -> roomy s -> t <= 0xffff -> is_Some (db_origins s !! o) ->
  exists s' b, update_route run_filter n nh i v c t o pt push s = Ok (s', b) /\ db_clean s'
    /\ (length (uq_list s') <= S (length (uq_list s)))%nat /\ forall o', is_Some (db_origins s !! o') -> is_Some (db_origins s' !! o').
Proof.
  intros [Hg Hn] Hb Ht Ho. pose proof (dg_inv s Hg) as Hi.
  destruct (update_good run_filter Hpolicy n nh i v c t o pt push s Hg Hb Ht Ho (no_dead_no_clash n o s Hg (Hn n))) as (s' & b & E & Hg' & Hu).
  exists s', b. split; [done|].
  assert (Hch : forall p r0 r1 b' s0 s1, (forall m, no_dead m s0) -> changes p r1 b' s0 s1 -> db_heap s0 !! p = Some r0 -> re_net r1 = re_net r0 ->
    (forall m, no_dead m s1) /\ (length (uq_list s1) <= S (length (uq_list s0)))%nat /\ forall o', is_Some (db_origins s0 !! o') -> is_Some (db_origins s1 !! o')).
  { intros p r0 r1 b' s0 s1 Hn0 C Hp En. split; [intros m; exact (changes_no_dead m p r0 r1 b' s0 s1 (Hn0 m) C Hp En)|]. split; [by eapply changes_length|]. intros o'. by eapply changes_origins. }
  destruct Hu as [p r new acc s' b Hf Hp Ed Hw Hle Hex|x s1 r1 r acc s' b Hx Hf Hin [k ->] Ed Hpl Hw Hle _ C
    |p x r0 s1 r1 r acc s' Hx Hf Hp Hin|p x r0 s1 r1 r acc0 s2 r2 new acc s' b Hx Hf Hp Hin].
  - destruct Hex as [(x & Es & Hx & _ & C)|(o' & x & x' & Es & Hne & Hx' & Hx & _ & C)].
    + destruct (Hch p r _ _ s s' Hn C Hp) as (? & ? & ?); [apply same_result_net|]. by split.
    + destruct b; [|subst s'; split; [by split|split; [lia|done]]].
      destruct (Hch p r _ _ s s' Hn C Hp) as (? & ? & ?); [apply taken_over_ok; by split|]. by split.
  - destruct (in_this _ _ _ _ Hin) as [k1 Hk1]. destruct (Hch (db_fresh s) _ _ _ s1 s' (fun m => inserted_no_dead m _ _ s s1 (di_table _ _ Hi) (Hn m) Hin) C Hk1) as (? & Hl & Hor).
    { destruct Hpl as [En _]. exact En. }
    split; [by split|]. split; [unfold uq_list in *; by rewrite (in_queue _ _ _ _ Hin) in Hl|]. intros o' Ho'. apply Hor, (origin_kept s s1); [apply Hin|done].
  - exfalso. apply (store_dead n o x p r0 s); [by split|done|done|done|apply Hin].
  - exfalso. apply (store_dead n o x p r0 s); [by split|done|done|done|apply Hin].
Qed.

Lemma new_origin_clean o e d s : db_clean s -> db_origins s !! o = None -> db_clean (new_origin o e d s).
Proof. intros [Hg Hn] Ho. split; [by apply new_origin_good|exact Hn]. Qed.
End Clean.

(** ** The port *)
Section PortSafe.
Context {A H : Type} `{AddrSpec A, !EqDecision A, !NextHop A, !forall n : IPNet A, Decision (net_wf n)}.
Context (fam : family A H) `{!FamilySafe fam}.
Context (run_filter : filter_kind -> route_vars (rip_net A) A -> option (filter_result A)) (Hpolicy : no_policy_exception run_filter).
Abbreviation db := (RouteDB (rip_net A) A).
Abbreviation port := (Port (A := A) (H := H)).
Implicit Types (p : port) (s : db).

(** Every peer is an origin of the database. *)
Definition peers_ok p s : Prop := Forall (fun q => is_Some (db_origins s !! peer_origin q)) (po_peers p).
(** What the input leaves of a port. *)
Definition same_setup p p' : Prop := po_config p' = po_config p /\ po_io p' = po_io p.

Lemma same_setup_trans p1 p2 p3 : same_setup p1 p2 -> same_setup p2 p3 -> same_setup p1 p3.
Proof. intros [E1 E2] [E3 E4]. split; congruence. Qed.

Lemma find_peer_in a p q : find_peer a p = Some q -> q ∈ po_peers p /\ a_eqb (peer_addr q) a = true.
Proof.
  unfold find_peer. destruct (list_find _ _) as [[i x]|] eqn:E; [|done]. cbn. intros [= <-]. apply list_find_Some in E as (Hl & Hx & _).
  split; [by eapply list_elem_of_lookup_2|done].
Qed.
Lemma find_peer_is_Some a p : is_Some (find_peer a p) <-> Exists (fun q => a_eqb (peer_addr q) a = true) (po_peers p).
Proof.
  unfold find_peer. rewrite fmap_is_Some, Exists_exists. split.
  - intros [[i x] E]. apply list_find_Some in E as (Hl & Hx & _). exists x. split; [by eapply list_elem_of_lookup_2|done].
  - intros (x & Hin & Hx). by eapply list_find_elem_of.
Qed.
Lemma update_peer_keeps a f p s : peers_ok p s -> (forall q, peer_origin (f q) = peer_origin q /\ peer_addr (f q) = peer_addr q) ->
  peers_ok (update_peer a f p) s /\ same_setup p (update_peer a f p) /\ (is_Some (find_peer a p) -> is_Some (find_peer a (update_peer a f p))).
Proof.
  intros Hp Hf. split; [|split; [done|]].
  - unfold peers_ok, update_peer. cbn. apply Forall_map. eapply Forall_impl; [exact Hp|]. cbn. intros q Hq. destruct (a_eqb _ _); [by rewrite (proj1 (Hf q))|done].
  - rewrite !find_peer_is_Some. unfold update_peer. cbn. rewrite !Exists_exists. intros (q & Hin & Hq). exists (f q). split; [|by rewrite (proj2 (Hf q))].
    apply list_elem_of_fmap. exists q. by rewrite Hq.
Qed.

Lemma record_keeps k f a b p s : peers_ok p s -> peers_ok (record k f b p) s /\ same_setup p (record k f b p) /\ (is_Some (find_peer a p) -> is_Some (find_peer a (record k f b p))).
Proof.
  intros Hp. unfold record. destruct b as [b|]; [|done]. change (peers_ok (count k p) s) in Hp.
  destruct (update_peer_keeps b (with_counters f) (count k p) s Hp) as (Ha1 & Ha2 & _); [done|]. split; [exact Ha1|]. split; [exact Ha2|].
  rewrite !find_peer_is_Some. unfold update_peer. cbn. rewrite !Exists_exists. intros (q & Hin & Hq). eexists. split; [apply list_elem_of_fmap; by exists q|].
  by destruct (a_eqb (peer_addr q) b).
Qed.

(** One update of a peer *)
Lemma peer_update_safe a net nh c t pt p s : peers_ok p s -> db_clean s -> roomy s -> t <= 0xffff -> is_Some (find_peer a p) ->
  exists p' s', port_peer_update run_filter a net nh c t pt p s = Ok (p', s') /\ peers_ok p' s' /\ db_clean s' /\ same_setup p p' /\ is_Some (find_peer a p')
    /\ (length (uq_list s') <= S (length (uq_list s)))%nat.
Proof.
  intros Hp Hc Hb Ht [q Hq]. unfold port_peer_update. rewrite Hq. unfold peer_update_route. set (q' := with_peer_routes _ q).
  destruct (find_peer_in a p q Hq) as [Hin Ha]. assert (Ho : is_Some (db_origins s !! peer_origin q')) by exact (proj1 (Forall_forall _ _) Hp q Hin).
  destruct (update_clean run_filter Hpolicy net nh (io_ifname (po_io p)) (io_vifname (po_io p)) c t (peer_origin q') pt false s Hc Hb Ht Ho) as (s' & b & -> & Hc' & Hl & Hor).
  cbn [result_bind fst snd]. eexists _, s'. split; [done|]. split; [|split; [done|split; [done|split; [|done]]]].
  - unfold peers_ok, update_peer. cbn. apply Forall_map. eapply Forall_impl; [exact Hp|]. cbn. intros x Hx. destruct (a_eqb (peer_addr x) a); [apply Hor, Ho|apply Hor, Hx].
  - apply find_peer_is_Some. unfold update_peer. cbn. apply Exists_exists. exists q'. split; [|exact Ha]. apply list_elem_of_fmap. exists q. by rewrite Ha.
Qed.

Lemma apply_verdicts_safe a vs : forall p s, peers_ok p s -> db_clean s -> Z.of_nat (length (uq_list s) + length vs) <= 65000 -> Forall verdict_ok vs -> is_Some (find_peer a p) ->
  exists p' s', apply_verdicts run_filter a vs p s = Ok (p', s') /\ peers_ok p' s' /\ db_clean s' /\ same_setup p p'
    /\ (length (uq_list s') <= length (uq_list s) + length vs)%nat.
Proof.
  induction vs as [|v vs IH]; intros p s Hp Hc Hb Hv Ha; [exists p, s; split; [done|]; by split_conj; [..|lia]|].
  apply Forall_cons in Hv as [Hv Hvs]. cbn [apply_verdicts length] in *.
  assert (Hone : exists p' s', (match v with VBadRoute => Ok (record_bad_route (Some a) p, s) | VBadPacket => Ok (record_bad_packet (Some a) p, s) | VIgnore => Ok (p, s)
      | VUpdate net nh metric tag => n <-! as_key net ;; port_peer_update run_filter a n nh metric tag no_tags p s end) = Ok (p', s')
    /\ peers_ok p' s' /\ db_clean s' /\ same_setup p p' /\ is_Some (find_peer a p') /\ (length (uq_list s') <= S (length (uq_list s)))%nat).
  { destruct v as [| | |net nh m tag].
    - destruct (record_keeps CBadRoutes pc_incr_bad_routes a (Some a) p s Hp) as (? & ? & ?). eexists _, s. split; [done|]. split; [done|]. split; [done|]. split; [done|]. split; [auto|lia].
    - destruct (record_keeps CBadPackets pc_incr_bad_packets a (Some a) p s Hp) as (? & ? & ?). eexists _, s. split; [done|]. split; [done|]. split; [done|]. split; [done|]. split; [auto|lia].
    - exists p, s. split; [done|]. split; [done|]. split; [done|]. split; [done|]. split; [done|lia].
    - destruct Hv as (Wn & _ & Ht). unfold as_key. destruct (decide (net_wf net)); [|done]. cbn [result_bind]. apply peer_update_safe; [done|done|unfold roomy; lia|lia|done]. }
  destruct Hone as (p1 & s1 & -> & Hp1 & Hc1 & [E1 E2] & Ha1 & Hl1). cbn [result_bind fst snd].
  destruct (IH p1 s1 Hp1 Hc1) as (p2 & s2 & -> & Hp2 & Hc2 & [E3 E4] & Hl2); [lia|done|done|].
  exists p2, s2. split; [done|]. split; [done|]. split; [done|]. split; [split; congruence|]. lia.
Qed.
(** The sender is a peer from now on. *)
Lemma create_peer_ok a o p s : a_wf a -> peers_ok p s -> db_clean s -> db_origins s !! o = None ->
  exists p' s', create_peer a o p s = (p', s') /\ peers_ok p' s' /\ db_clean s' /\ same_setup p p' /\ is_Some (find_peer a p') /\ uq_list s' = uq_list s.
Proof.
  intros Ha Hp Hc Ho. unfold create_peer. destruct (find_peer a p) as [q|] eqn:Eq.
  { exists p, s. split; [done|]. split; [done|]. split; [done|]. split; [done|]. by rewrite Eq. }
  eexists _, _. split; [done|]. split; [|split; [by apply new_origin_clean|split; [done|split; [|done]]]].
  - unfold peers_ok. cbn. apply Forall_app. split; [|constructor; [by rewrite lookup_insert_eq|constructor]].
    eapply Forall_impl; [exact Hp|]. cbn. intros q Hq. destruct (decide (peer_origin q = o)) as [->|]; [by rewrite lookup_insert_eq|by rewrite lookup_insert_ne].
  - apply find_peer_is_Some. cbn. apply Exists_app. right. apply Exists_cons_hd. cbn. by apply a_eqb_eq.
Qed.

Lemma parse_response_safe t a o d off m p s : a_wf a -> peers_ok p s -> db_clean s -> db_origins s !! o = None -> octets d -> (off + m * ENTRY_SIZE <= length d)%nat ->
  fs_io t (po_io p) -> 0 <= c_cost (po_config p) <= RIP_INFINITY -> Z.of_nat (length (uq_list s) + length d) <= 65000 ->
  exists p' s', parse_response fam run_filter t a o d off (Z.of_nat m) p s = Ok (p', s') /\ peers_ok p' s' /\ db_clean s' /\ same_setup p p'
    /\ (length (uq_list s') <= length (uq_list s) + m)%nat.
Proof.
  intros Ha Hp Hc Ho Hd Hm Hio Hcost Hb. unfold parse_response.
  assert (Hx : exists p1 s1, (match find_peer a p with Some _ => (p, s) | None => let '(p, s) := create_peer a o p s in
      (update_peer a (with_counters (fun c => pc_incr_updates_recv (pc_incr_packets_recv c))) p, s) end) = (p1, s1)
    /\ peers_ok p1 s1 /\ db_clean s1 /\ same_setup p p1 /\ is_Some (find_peer a p1) /\ uq_list s1 = uq_list s).
  { destruct (find_peer a p) as [q|] eqn:Eq; [exists p, s; split; [done|]; split; [done|]; split; [done|]; split; [done|]; by rewrite Eq|].
    destruct (create_peer_ok a o p s Ha Hp Hc Ho) as (p1 & s1 & -> & Hp1 & Hc1 & [E1 E2] & Ha1 & Hu).
    destruct (update_peer_keeps a (with_counters (fun c => pc_incr_updates_recv (pc_incr_packets_recv c))) p1 s1 Hp1) as (Hp2 & [E3 E4] & Ha2); [done|].
    eexists _, s1. split; [done|]. split; [done|]. split; [done|]. split; [split; congruence|]. split; [by apply Ha2|done]. }
  destruct Hx as (p1 & s1 & -> & Hp1 & Hc1 & [E1 E2] & Ha1 & Hu). rewrite E1, E2.
  destruct (fs_response (fam := fam) (po_config p) t (po_io p) a d off m Hio Hcost Hd Hm) as (vs & -> & Hl & Hv). cbn [result_bind].
  destruct (apply_verdicts_safe a vs p1 s1 Hp1 Hc1) as (p2 & s2 & -> & Hp2 & Hc2 & [E3 E4] & Hl2); [rewrite Hu, Hl; unfold ENTRY_SIZE in Hm; lia|done|done|].
  exists p2, s2. split; [done|]. split; [done|]. split; [done|]. split; [split; congruence|]. rewrite Hu, Hl in Hl2. exact Hl2.
Qed.

Lemma new_peer_ok known p s : peers_ok p s -> exists b, (match known with
    | Some a => match find_peer a p with
                | Some q => x <-! get_origin (peer_origin q) s ;; Ok (match rtstore x with [] => true | _ => false end)
                | None => Ok true end
    | None => Ok true end) = Ok b.
Proof.
  intros Hp. destruct known as [a|]; [|by exists true]. destruct (find_peer a p) as [q|] eqn:Eq; [|by exists true].
  destruct (find_peer_in a p q Eq) as [Hin _]. destruct (proj1 (Forall_forall _ _) Hp q Hin) as [x Hx]. unfold get_origin. rewrite Hx. by eexists.
Qed.

Lemma bad_packet_safe b p s : peers_ok p s -> db_clean s -> exists p' s', Ok (record_bad_packet b p, s) = (Ok (p', s') : result xorp_exn (port * db)) /\ peers_ok p' s' /\ db_clean s' /\ same_setup p p'.
Proof. intros Hp Hc. destruct (record_keeps CBadPackets pc_incr_bad_packets a_zero b p s Hp) as (? & ? & _). by eexists _, s. Qed.

(** C7: a response can make a port fail only through its authentication.  Whatever its sender and its other octets, a packet
    that is not a request is either counted as bad or its routes go to the database, and the invariant of the database
    holds at the end: nothing is read outside of the packet, no assertion fails, and every peer stays an origin of the
    database.  The conditions: the authentication stays in the packet ([sized4]: with a password, an octet zero follows
    somewhere, so that the C string ends; with keys, the offset of the digest is at least 24; without authentication and
    in RIPng nothing), the policy raises no exception, the address of the port is that of an interface, its cost is at
    most infinity, the name of a new peer's origin is fresh, no stale route is waiting in the update queue, and the queue
    has room.  [md5_short_offset_overread] is what happens to a smaller offset. *)
Theorem rip_response_safe t interval send_ok src src_port o d p s : a_wf src -> octets d -> rph_command d <> REQUEST -> fs_sized d (po_ah p) ->
  fs_io t (po_io p) -> 0 <= c_cost (po_config p) <= RIP_INFINITY -> peers_ok p s -> db_clean s -> db_origins s !! o = None ->
  Z.of_nat (length (uq_list s) + length d) <= 65000 ->
  exists p' s', port_io_receive fam run_filter t interval send_ok src src_port o d p s = Ok (p', s')
    /\ peers_ok p' s' /\ db_clean s' /\ same_setup p p'.
Proof.
  intros Ha Hd Hcmd Hsz Hio Hcost Hp Hc Ho Hb. unfold port_io_receive. destruct (negb (c_en _)); [by exists p, s|].
  set (known := if src_port =? fam_port fam then peer_addr <$> find_peer src p else None). destruct (negb _ && negb _); [by exists p, s|].
  assert (Hrec : peers_ok (record_packet known p s) s /\ same_setup p (record_packet known p s) /\ po_ah (record_packet known p s) = po_ah p).
  { unfold record_packet. destruct (record_keeps CPacketsRecv pc_incr_packets_recv src known p s Hp) as (H3 & H4 & _). destruct known as [a|]; [|done].
    destruct (update_peer_keeps a (with_last_active (db_now s)) _ s H3) as (H5 & _ & _); [done|]. done. }
  set (p1 := record_packet known p s) in *. clearbody p1. destruct Hrec as (Hp1 & [E1 E2] & E3).
  assert (Hbad : exists p' s', Ok (record_bad_packet known p1, s) = (Ok (p', s') : result xorp_exn (port * db)) /\ peers_ok p' s' /\ db_clean s' /\ same_setup p p').
  { destruct (bad_packet_safe known p1 s Hp1 Hc) as (p' & s' & E & Hp' & Hc' & [E4 E5]). exists p', s'. split; [done|]. split; [done|]. split; [done|]. split; congruence. }
  destruct (Nat.ltb_spec (length d) RIPv2_MIN_PACKET_BYTES) as [|Hl]; [done|]. destruct (negb (valid_command d)) eqn:Ev; [done|]. destruct (negb (valid_version _ _)); [done|].
  destruct (negb (valid_padding d)); [done|]. apply negb_false_iff, orb_true_iff in Ev as [Ev|Ev]; apply Z.eqb_eq in Ev; [done|]. rewrite Ev. cbn [andb].
  destruct (src_port =? fam_port fam) eqn:Eport; [|done]. cbn [negb]. change (RESPONSE =? RESPONSE) with true. cbn [andb].
  destruct (new_peer_ok known p1 s Hp1) as [b ->]. cbn [result_bind]. rewrite E3.
  destruct (fs_inbound (fam := fam) d src b (po_ah p) Hd Hl Hsz) as (h' & ib & -> & Hib). cbn [result_bind fst snd]. set (p2 := set_ah h' p1).
  assert (Hp2 : peers_ok p2 s) by exact Hp1. assert (Hs2 : same_setup p p2) by (split; [exact E1|exact E2]). clearbody p2. destruct ib as [|off n bad].
  { destruct (record_keeps CBadAuthPackets pc_incr_bad_auth_packets src known p2 s Hp2) as (H3 & H4 & _). eexists _, s. split; [done|]. split; [done|].
    split; [done|]. exact (same_setup_trans _ _ _ Hs2 H4). }
  destruct Hib as (m & -> & Hm). set (p3 := if bad then _ else p2). assert (H3 : peers_ok p3 s /\ same_setup p p3).
  { unfold p3. destruct bad; [|done]. destruct (record_keeps CBadPackets pc_incr_bad_packets src known p2 s Hp2) as (H3 & H4 & _). split; [done|]. exact (same_setup_trans _ _ _ Hs2 H4). }
  clearbody p3. destruct H3 as [Hp3 Hs3]. destruct (_ && (fam_version fam =? 2)); [by exists p3, s|].
  destruct (record_keeps CUpdatesRecv pc_incr_updates_recv src known p3 s Hp3) as (Hp4 & [E4 E5] & _). fold (record_response_packet known p3) in *. destruct Hs3 as [E6 E7].
  destruct (parse_response_safe t src o d off m (record_response_packet known p3) s Ha Hp4 Hc Ho Hd Hm) as (p5 & s5 & -> & Hp5 & Hc5 & [E8 E9] & _);
    [by rewrite E5, E7|by rewrite E4, E6|done|].
  exists p5, s5. split; [done|]. split; [done|]. split; [done|]. split; congruence.
Qed.
End PortSafe.
