(* ===== verification/RipHeard.v ===== *)
(** * What a neighbour hears of a dump

    The table of one port, told in packets, as the port of a neighbour reads it: for
    RIPv2 with any authentication the two share, and for RIPng. *)

From Stdlib Require Import ZArith Lia String.
From stdpp Require Import base tactics option numbers list gmap strings.
From S2P Require Import Prelude Word32 Addr IPv4 IPv6 IPNet Sample OMap VrrpPacket RipQueue RipQueueProps RipRoute RipDB RipDBProps.
From S2P Require Import RipDBUpdate RipDBRun RipClaims RipPacket RipAuth RipPeer RipOutput RipOutputProps RipAsm RipPort.
From S2P Require Import RipPortProps.
Local Open Scope Z_scope.
Local Open Scope xorp_scope.

(** ** The table of a port *)
Section Table.
Context {A H : Type} `{AddrSpec A, !EqDecision A, !NextHop A, !forall n : IPNet A, Decision (net_wf n)}.
Context (asm : assembler A H) `{!AssemblerLaws asm}.
Abbreviation db := (RouteDB (rip_net A) A).
Abbreviation port := (Port (A := A) (H := H)).
Implicit Types (p : port) (s : db).

Lemma route_policy_timer p t (r : RouteEntry (rip_net A) A) : route_policy p (set_timer t r) = route_policy p r.
Proof. done. Qed.

(** What a port can say of a route. *)
Lemma told_fields p s l x : db_good s -> (forall n q, (n, q) ∈ l -> (n, q) ∈ db_routes s) -> x ∈ advertised (route_policy p) s l ->
  exists n q r c, (n, q) ∈ l /\ db_heap s !! q = Some r /\ re_net r = n /\ x = (`n, a_zero, c, re_tag r) /\ 0 <= c <= RIP_INFINITY /\ 0 <= re_tag r <= 0xffff
    /\ route_policy p r = (a_zero, c) /\ re_filtered r = false.
Proof.
  intros Hg Hl Hx. unfold advertised in Hx. apply list_elem_of_omap in Hx as ([n q] & Hin & Ht). cbn in Ht. destruct (db_heap s !! q) as [r|] eqn:Hr; [|done]. cbn in Ht.
  destruct (dg_cost s Hg q r Hr) as [[Hc Htag] Hle]. destruct (find_routes [] s n q (dg_inv s Hg)) as (r' & Hr' & En); [apply find_elem; [apply Hg|by apply Hl]|].
  assert (r' = r) as -> by congruence. unfold tell in Ht. destruct (re_filtered r) eqn:Ef; [done|]. destruct (route_policy p r) as [nh c] eqn:Ep.
  destruct (Z.ltb_spec RIP_INFINITY c) as [|Hcle]; [done|]. injection Ht as <-.
  assert (Hnh : nh = a_zero /\ 0 <= c).
  { unfold route_policy in Ep. repeat case_match; injection Ep as <- <-; split; try done; unfold RIP_MAX_COST, RIP_INFINITY; lia. }
  destruct Hnh as [-> Hc0]. exists n, q, r, c. split; [done|]. split; [done|]. split; [done|]. rewrite <- En, cost16_small by (unfold RIP_INFINITY in *; lia). split; [done|]. split; [done|]. split; [split; [apply Htag|apply Z.lt_succ_r, Htag]|]. done.
Qed.

Lemma table_told p s : db_good s -> (forall n q r c, (n, q) ∈ db_routes s -> 0 <= c <= RIP_INFINITY -> 0 <= re_tag r <= 0xffff -> al_told_ok (`n, a_zero, c, re_tag (r : RouteEntry (rip_net A) A))) ->
  table_ok asm (route_policy p) s.
Proof.
  intros Hg Hok. split.
  - apply Hg.
  - intros k q Hin. apply (find_routes [] s k q (dg_inv s Hg)). by apply find_elem; [apply Hg|].
  - apply Forall_forall. intros x Hx. destruct (told_fields p s (db_routes s) x Hg (fun _ _ E => E) Hx) as (n & q & r & c & Hin & _ & _ & -> & Hc & Ht & _). by apply (Hok n q).
Qed.
End Table.

Lemma Forall2_concat {X Y} (P : X -> list Y -> Prop) (Q : Y -> Prop) xs yss : Forall2 P xs yss -> Forall Q (concat yss) -> Forall2 (fun x ys => P x ys /\ Forall Q ys) xs yss.
Proof.
  induction 1 as [|x ys xs yss HP _ IH]; intros HQ; [constructor|]. cbn in HQ. apply Forall_app in HQ as [HQ HQs]. constructor; [by split|by apply IH].
Qed.

(** ** RIPv2 *)
Section Heard4.
Context `{HostOrder} (md5 : list Z -> list Z) (md5_length : forall l, length (md5 l) = 16%nat).

Definition heard4 (c : PortConfig) (src : IPv4) (x : told IPv4) : verdict IPv4 :=
  let '(net, nh, cost, tag) := x in VUpdate net src (Z.min RIP_INFINITY (cost + c_cost c)) tag.
(** A subnet the receiver takes: unicast or the default route, and not an address of its own. *)
Definition takes4 (c : PortConfig) (t : list (IfAtom IPv4)) (net : IPNet IPv4) : Prop :=
  (if decide (prefix_len net = 0) then c_acc_def_rt c = true else unicast_net (masked_addr net) = true)
  /\ (prefix_len net = 32 -> my_matches true (masked_addr net) t = (false, false)).
Definition hearable4 (c : PortConfig) (t : list (IfAtom IPv4)) (x : told IPv4) : Prop :=
  let '(net, nh, cost, tag) := x in nh = ipv4_ZERO /\ 0 <= cost <= RIP_INFINITY /\ takes4 c t net.

Lemma masked_default (net : IPNet IPv4) : net_wf net -> prefix_len net = 0 -> masked_addr net = ipv4_ZERO.
Proof.
  intros Wn E0. destruct (net_new4 ipv4_ZERO 0) as (n & En & _); [by vm_compute|lia|]. pose proof (net_new_masked net Wn) as Em. rewrite E0 in Em.
  pose proof Wn as (Ha & _ & Hal). unfold net_new in Em. cbn in Em. injection Em as Em. apply ipv4_val_inj; [exact Ha|by vm_compute|].
  pose proof (net_wf_lo _ Wn) as Hlo. pose proof (net_wf_hi _ Wn) as Hhi. unfold net_hi, net_free, net_lo in *. rewrite E0, Z.sub_0_r in *. cbn in *.
  change (ipv4_val ipv4_ZERO) with (ntohl 0). rewrite ntohl_0. lia.
Qed.

Lemma parse_heard4 c t io src x : told_ok4 x -> hearable4 c t x -> 0 <= c_cost c <= RIP_INFINITY -> parse_entry4 c t io src (encode4 x) = Ok (heard4 c src x).
Proof.
  destruct x as [[[net nh] cost] tag]. intros (Wn & Wh & Wc & Wt) (-> & Hcost & Hpre & Hmine) Hc. cbn [encode4 heard4].
  destruct (pre4_read tag net ipv4_ZERO cost [] Wt Wn Wh Wc) as (E1 & E2 & E3 & E4 & E5 & E6 & E7). rewrite app_nil_r in *. set (e := pre4_initialize _ _ _ _) in *.
  unfold parse_entry4. rewrite E1, E7. change (ADDR_FAMILY4 =? AF_INET) with true. cbn [negb]. rewrite cost16_small by (unfold RIP_INFINITY in *; lia).
  rewrite (proj2 (Z.ltb_ge _ _)) by lia. rewrite E4, E3, E5. pose proof Wn as (Wa & Hp & _). rewrite (proj2 (Z.ltb_ge _ _)) by apply Hp. cbn [result_bind].
  assert (Ez : (prefix_len net =? 0) && negb (ipv4_eqb (masked_addr net) ipv4_ZERO) = false).
  { destruct (Z.eqb_spec (prefix_len net) 0) as [E0|]; [|done]. by rewrite (masked_default net Wn E0). }
  rewrite Ez. cbn [result_bind]. pose proof (unicast_checks (masked_addr net) Wa) as Hu. fold (filtered (masked_addr net)).
  assert (Hnot : ipv4_is_multicast (filtered (masked_addr net)) = false /\ ipv4_is_loopback (filtered (masked_addr net)) = false
    /\ ipv4_ltb (filtered (masked_addr net)) class_e_net = true
    /\ ipv4_eqb (filtered (masked_addr net)) ipv4_ZERO && (negb (prefix_len net =? 0) || negb (c_acc_def_rt c)) = false
    /\ net_eqb net net_default && negb (c_acc_def_rt c) = false).
  { case_decide as E0.
    - rewrite Hpre, E0. cbn [negb Z.eqb orb]. rewrite !andb_false_r. rewrite (masked_default net Wn E0). split; [|split; [|split; [|done]]].
      all: unfold ipv4_is_multicast, ipv4_is_loopback, ipv4_ltb, filtered; fold (ipv4_val (ipv4_and ipv4_ZERO net_filter)); fold (filtered ipv4_ZERO);
        rewrite (proj1 (filtered_val ipv4_ZERO ltac:(by vm_compute))); unfold first_octet; change (ipv4_val ipv4_ZERO) with (ntohl 0); rewrite ntohl_0; try done.
      change (ipv4_addr class_e_net) with (htonl 0xf0000000). destruct (ipv4_of_host 0xf0000000 ltac:(by vm_compute)) as [_ Ee]. unfold ipv4_val in Ee. cbn [ipv4_addr] in Ee. by rewrite Ee.
    - rewrite Hpre in Hu. cbn [negb] in Hu. rewrite !orb_false_iff in Hu. destruct Hu as (((-> & ->) & Hu) & ->). apply negb_false_iff in Hu. rewrite Hu.
      split; [done|]. split; [done|]. split; [done|]. split; [done|]. unfold net_eqb. cbn [prefix_len net_default]. by rewrite (proj2 (Z.eqb_neq _ _)). }
  destruct Hnot as (-> & -> & -> & -> & ->). cbn [negb]. change (addr_bitlen (A := IPv4)) with 32.
  assert (Hm : (if prefix_len net =? 32 then my_matches true (masked_addr net) t else (false, false)) = (false, false))
    by (destruct (Z.eqb_spec (prefix_len net) 32); auto). rewrite Hm, E6, E2. unfold entry_nexthop4. change (ipv4_eqb ipv4_ZERO ipv4_ZERO) with true. cbn [result_bind].
  by rewrite add_cost_min by (unfold RIP_INFINITY in *; lia).
Qed.

Lemma parse_all4 c t io src d off rs : Forall (fun x => told_ok4 x /\ hearable4 c t x) rs -> 0 <= c_cost c <= RIP_INFINITY ->
  forall i n, entries_of d off i (length rs) = Ok (map encode4 rs) -> (length rs < n)%nat ->
  parse_entries4 n c t io src d off i (Z.of_nat (i + length rs)) = Ok (map (heard4 c src) rs).
Proof.
  intros Hrs Hc. induction Hrs as [|x rs [Hx1 Hx2] _ IH]; intros i n He Hn; (destruct n as [|n]; [cbn in Hn; lia|]); cbn [parse_entries4 length].
  { by rewrite (proj2 (Z.eqb_eq _ _)) by (cbn; lia). }
  rewrite (proj2 (Z.eqb_neq _ _)) by lia. cbn [entries_of length map] in He. destruct (entry_at d off i) as [e|] eqn:Ee; [|done]. cbn [result_bind] in He.
  destruct (entries_of d off (S i) (length rs)) as [es|] eqn:Es; [|done]. cbn [result_bind] in He. injection He as -> ->. cbn [result_bind].
  rewrite (parse_heard4 c t io src x Hx1 Hx2 Hc). cbn [result_bind]. pose proof (IH (S i) n Es ltac:(cbn in Hn; lia)) as E. rewrite Nat.add_succ_comm in E. by rewrite E.
Qed.

Lemma entries_of_length d off : forall n i es, entries_of d off i n = Ok es -> (n <= length d)%nat.
Proof.
  assert (Hx : forall n i es, entries_of d off i n = Ok es -> n = 0%nat \/ ((i + n) * ENTRY_SIZE <= length d)%nat).
  { induction n as [|n IH]; intros i es He; [by left|]. right. cbn [entries_of] in He. unfold entry_at in He. destruct (Nat.leb_spec (off + (i + 1) * ENTRY_SIZE) (length d)); [|done].
    cbn [result_bind] in He. destruct (entries_of d off (S i) n) as [es'|] eqn:Es; [|done]. destruct (IH _ _ Es) as [->|]; unfold ENTRY_SIZE in *; lia. }
  intros n i es He. destruct (Hx n i es He); unfold ENTRY_SIZE in *; lia.
Qed.

(** A receiver with the secrets of the sender takes the packet and updates its routes. *)
Definition hears4 (c : PortConfig) (t : list (IfAtom IPv4)) (io : PortIO IPv4) (h1 : AuthHandler) (q : RipPacket IPv4) (rs : list (told IPv4)) : Prop :=
  forall h2 src new_peer, trusts h1 h2 src new_peer ->
    exists h3 off, fam_inbound (family4 md5) (pk_data q) src new_peer h2 = Ok (h3, IbEntries off (Z.of_nat (length rs)) false)
      /\ fam_response (family4 md5) c t io src (pk_data q) off (Z.of_nat (length rs)) = Ok (map (heard4 c src) rs).
Lemma carries_hears4 c t io h1 q rs : 0 <= c_cost c <= RIP_INFINITY -> Forall (fun x => told_ok4 x /\ hearable4 c t x) rs -> carries4 md5 h1 q rs -> hears4 c t io h1 q rs.
Proof.
  intros Hc Hrs [_ Hq] h2 src new Ht. destruct (Hq h2 src new Ht) as (h3 & off & es & Ea & Ee & _ & ->). exists h3, off. split.
  - cbn [family4 fam_inbound]. by rewrite Ea.
  - apply (parse_all4 c t io src (pk_data q) off rs Hrs Hc 0); [done|]. apply entries_of_length in Ee. lia.
Qed.

(** C6: the neighbours hear the table.  A dump of a port's table ends, and its packets carry every route that the port
    advertises, once each and in order.  A neighbour that shares the authentication (none, the password, or each key of the
    chain), whose sequence numbers are not ahead ([trusts]) and which takes all subnets of the table ([takes4]: unicast
    subnets that are no address of its own, and the default route if it is configured to) accepts each packet and turns it
    into exactly these updates: the same subnet and tag, the sender as the next hop, and the metric with the neighbour's
    cost added, at most infinity. *)
Theorem rip_dump_heard (p : Port (A := IPv4) (H := AuthHandler)) gap h o c t io (s : RouteDB (rip_net IPv4) IPv4) : db_good s -> handler_ok h -> ot_rw_valid o = false ->
  0 <= c_cost c <= RIP_INFINITY -> (forall n q, (n, q) ∈ db_routes s -> takes4 c t (proj1_sig n)) ->
  exists pss o' h' s' rss, dump (asm4 md5) (route_policy p) (S (length (db_routes s))) gap h o s = Ok (pss, o', h', s')
    /\ concat rss = advertised (route_policy p) s (db_routes s)
    /\ Forall2 (fun ps rs => (rs = [] /\ ps = []) \/ (rs <> [] /\ ps <> [] /\ exists h1, same_secrets h h1 /\ Forall (fun q => hears4 c t io h1 q rs) ps)) pss rss.
Proof.
  intros Hg Hh Hv Hc Htakes. pose (laws := asm4_laws md5 md5_length).
  assert (Hok : forall x, x ∈ advertised (route_policy p) s (db_routes s) -> told_ok4 x /\ hearable4 c t x).
  { intros x Hx. destruct (told_fields p s (db_routes s) x Hg (fun _ _ E => E) Hx) as (n & q & r & k & Hin & _ & _ & -> & Hk & Htag & _). split.
    - split; [apply proj2_dsig|]. split; [by vm_compute|]. unfold is_u32, RIP_INFINITY in *. split; [lia|]. split; [apply Htag|eapply Z.le_lt_trans; [apply Htag|done]].
    - split; [done|]. split; [done|]. by apply (Htakes n q). }
  assert (Ht : table_ok (asm4 md5) (route_policy p) s).
  { apply table_told; [done|]. intros n q r k Hin Hk Htag. split; [apply proj2_dsig|]. split; [by vm_compute|]. unfold is_u32, RIP_INFINITY in *. split; [lia|].
    split; [apply Htag|eapply Z.le_lt_trans; [apply Htag|done]]. }
  destruct (dump_ok (asm4 md5) (route_policy p) (route_policy_timer p) gap (S (length (db_routes s))) (db_routes s) h o s []) as (pss & o' & h' & s' & rss & E & _ & _ & Hf & Ec);
    [lia|done|exact Hh|split; [done|by rewrite Hv]|].
  exists pss, o', h', s', rss. split; [done|]. split; [done|]. apply (Forall2_concat _ (fun x => told_ok4 x /\ hearable4 c t x)) in Hf; [|rewrite Ec; by apply Forall_forall].
  eapply Forall2_impl; [exact Hf|]. intros ps rs [[Hnil|(Hnr & Hne & h1 & Hn1 & _ & Hps)] Hrs]; [by left|]. right. split; [done|]. split; [done|]. exists h1. split; [exact Hn1|].
  eapply Forall_impl; [exact Hps|]. intros q Hq. by apply carries_hears4.
Qed.
End Heard4.

(** ** RIPng *)
Section Heard6.
Context `{HostOrder}.

Definition heard6 (c : PortConfig) (src : IPv6) (x : told IPv6) : verdict IPv6 :=
  let '(net, nh, cost, tag) := x in VUpdate net src (Z.min RIP_INFINITY (2 * cost + c_cost c)) tag.
Definition takes6 (c : PortConfig) (t : list (IfAtom IPv6)) (net : IPNet IPv6) : Prop :=
  ipv6_is_multicast (masked_addr net) = false /\ ipv6_is_linklocal_unicast (masked_addr net) = false /\ ipv6_is_loopback (masked_addr net) = false
  /\ (masked_addr net = ipv6_ZERO -> prefix_len net = 0 /\ c_acc_def_rt c = true) /\ (prefix_len net = 128 -> fst (my_matches false (masked_addr net) t) = false).
Definition hearable6 (c : PortConfig) (t : list (IfAtom IPv6)) (x : told IPv6) : Prop :=
  let '(net, nh, cost, tag) := x in nh = ipv6_ZERO /\ 0 <= cost <= RIP_INFINITY /\ takes6 c t net.

Lemma ipv6_eqb_true a b : ipv6_eqb a b = true -> a = b.
Proof. destruct a, b. unfold ipv6_eqb. cbn. rewrite !andb_true_iff, !Z.eqb_eq. intros (((-> & ->) & ->) & ->). done. Qed.

Lemma parse_heard6 c t src net cost tag : told_ok6 (net, ipv6_ZERO, cost, tag) -> hearable6 c t (net, ipv6_ZERO, cost, tag) -> src <> ipv6_ALL_ONES -> 0 <= c_cost c <= RIP_INFINITY ->
  parse_entry6 c t src src (pre6_initialize_route tag net cost) = Ok (src, heard6 c src (net, ipv6_ZERO, cost, tag)).
Proof.
  intros (Wn & _ & Wc & Wt) (_ & Hcost & Em & El & Elo & Hz & Hmine) Hsrc Hc. destruct (pre6_read_route tag net cost [] Wt Wn Wc) as (E1 & E2 & E3 & E4 & E5). rewrite app_nil_r in *.
  unfold parse_entry6. rewrite E1, E2, E3, E4, E5. destruct (ipv6_eqb src ipv6_ALL_ONES) eqn:Es; [by apply ipv6_eqb_true in Es|].
  rewrite (proj2 (Z.ltb_ge _ _)) by lia. rewrite (proj2 (Z.ltb_ge _ _)) by apply Wn. cbn [result_bind]. rewrite Em, El, Elo.
  assert (Ez : ipv6_eqb (masked_addr net) ipv6_ZERO && (negb (prefix_len net =? 0) || negb (c_acc_def_rt c)) = false).
  { destruct (ipv6_eqb (masked_addr net) ipv6_ZERO) eqn:Ez; [|done]. destruct (Hz (ipv6_eqb_true _ _ Ez)) as [-> ->]. done. }
  rewrite Ez. change (addr_bitlen (A := IPv6)) with 128.
  assert (Hm : (if prefix_len net =? 128 then fst (my_matches false (masked_addr net) t) else false) = false) by (destruct (Z.eqb_spec (prefix_len net) 128); auto).
  rewrite Hm. cbn [heard6]. rewrite add_cost_min by (unfold RIP_INFINITY in *; lia). do 3 f_equal. lia.
Qed.
Lemma parse_zero_nexthop c t src nh : parse_entry6 c t src nh (pre6_initialize_nexthop ipv6_ZERO) = Ok (src, VIgnore).
Proof.
  destruct (pre6_read_nexthop ipv6_ZERO [] ltac:(by vm_compute)) as [F1 F2]. rewrite app_nil_r in *. unfold parse_entry6. rewrite F1, F2.
  destruct (negb _); by change (ipv6_eqb ipv6_ZERO ipv6_ZERO) with true.
Qed.

Lemma encode6_zero lnh rs : Forall (fun x : told IPv6 => x.1.1.2 = ipv6_ZERO) rs -> encode6 lnh rs = match rs with [] => [] | _ => (if decide (ipv6_ZERO = lnh) then [] else [pre6_initialize_nexthop ipv6_ZERO])
  ++ map (fun x => pre6_initialize_route x.2 x.1.1.1 x.1.2) rs end.
Proof.
  intros Hz. revert lnh. induction Hz as [|[[[net nh] cost] tag] rs Hx Hz IH]; intros lnh; [done|]. cbn in Hx. subst nh. cbn [encode6 map fst snd]. rewrite IH.
  case_decide; cbn [app]; destruct rs; try done; by rewrite decide_True.
Qed.

Lemma parse_all6 c t src d off rs : Forall (fun x => told_ok6 x /\ hearable6 c t x) rs -> src <> ipv6_ALL_ONES -> 0 <= c_cost c <= RIP_INFINITY ->
  forall i n, entries_of d off i (length rs) = Ok (map (fun x => pre6_initialize_route x.2 x.1.1.1 x.1.2) rs) -> (length rs < n)%nat ->
  parse_entries6 n c t src src d off i (Z.of_nat (i + length rs)) = Ok (map (heard6 c src) rs).
Proof.
  intros Hrs Hsrc Hc. induction Hrs as [|[[[net nh] cost] tag] rs [Hx1 Hx2] _ IH]; intros i n He Hn; (destruct n as [|n]; [cbn in Hn; lia|]); cbn [parse_entries6 length].
  { by rewrite (proj2 (Z.eqb_eq _ _)) by (cbn; lia). }
  rewrite (proj2 (Z.eqb_neq _ _)) by lia. cbn [entries_of length map fst snd] in He. destruct (entry_at d off i) as [e|] eqn:Ee; [|done]. cbn [result_bind] in He.
  destruct (entries_of d off (S i) (length rs)) as [es|] eqn:Es; [|done]. cbn [result_bind] in He. injection He as -> ->. cbn [result_bind].
  pose proof Hx2 as (-> & _). rewrite (parse_heard6 c t src net cost tag Hx1 Hx2 Hsrc Hc). cbn [result_bind fst snd].
  pose proof (IH (S i) n Es ltac:(cbn in Hn; lia)) as E. rewrite Nat.add_succ_comm in E. by rewrite E.
Qed.

Definition hears6 (c : PortConfig) (t : list (IfAtom IPv6)) (io : PortIO IPv6) (q : RipPacket IPv6) (rs : list (told IPv6)) : Prop :=
  forall src new_peer, src <> ipv6_ALL_ONES ->
    exists off n, fam_inbound family6 (pk_data q) src new_peer tt = Ok (tt, IbEntries off n false)
      /\ fam_response family6 c t io src (pk_data q) off n = Ok (VIgnore :: map (heard6 c src) rs).
Lemma carries_hears6 c t io q rs : rs <> [] -> 0 <= c_cost c <= RIP_INFINITY -> Forall (fun x => told_ok6 x /\ hearable6 c t x) rs -> carries6 tt q rs -> hears6 c t io q rs.
Proof.
  intros Hne Hc Hrs [_ (n & es & Hl & Ee & _ & ->)] src new Hsrc. exists HEADER_SIZE, (Z.of_nat n). cbn [family6 fam_inbound fam_response]. unfold inbound6. rewrite Hl.
  replace (HEADER_SIZE + n * ENTRY_SIZE - HEADER_SIZE)%nat with (n * ENTRY_SIZE)%nat by lia. rewrite Nat.div_mul by done. rewrite (proj2 (Nat.eqb_eq _ _)) by lia. split; [done|].
  rewrite encode6_zero in Ee by (eapply Forall_impl; [exact Hrs|]; intros [[[net nh] cost] tag] [_ (-> & _)]; done).
  destruct rs as [|x0 rs0] eqn:Ers; [done|]. rewrite <- Ers in *. rewrite decide_False in Ee by done. cbn [app] in Ee.
  assert (Hn : n = S (length rs)).
  { assert (Hlen : forall n i es, entries_of (pk_data q) HEADER_SIZE i n = Ok es -> length es = n).
    { induction n0 as [|m IH]; intros i es He; cbn [entries_of] in He; [by injection He as <-|]. destruct (entry_at _ _ _); [|done]. cbn [result_bind] in He.
      destruct (entries_of _ _ _ m) as [es'|] eqn:Es; [|done]. injection He as <-. cbn. by rewrite (IH _ _ Es). }
    apply Hlen in Ee. cbn [length] in Ee. by rewrite length_map in Ee. }
  subst n. cbn [entries_of] in Ee. destruct (entry_at (pk_data q) HEADER_SIZE 0) as [e|] eqn:E0; [|done]. cbn [result_bind] in Ee.
  destruct (entries_of (pk_data q) HEADER_SIZE 1 (length rs)) as [es'|] eqn:Es; [|done]. injection Ee as -> ->. cbn [parse_entries6].
  rewrite (proj2 (Z.eqb_neq _ _)) by lia. rewrite E0. cbn [result_bind]. rewrite parse_zero_nexthop. cbn [result_bind fst snd].
  pose proof (parse_all6 c t src (pk_data q) HEADER_SIZE rs Hrs Hsrc Hc 1 (length (pk_data q)) Es ltac:(rewrite Hl; unfold HEADER_SIZE, ENTRY_SIZE; lia)) as E. cbn [Nat.add] in E.
  rewrite Hl in E. by rewrite E.
Qed.

(** C36: RIPng counts every hop twice.  A dump of an RIPng table also ends with every advertised route said once, and a
    neighbour accepts its packets; but the metric of each of its updates is twice the metric that was sent, plus the cost
    of its port.  A route at metric 8 is unreachable at the next router. *)
Theorem ripng_dump_heard (p : Port (A := IPv6) (H := unit)) gap o c t io (s : RouteDB (rip_net IPv6) IPv6) : db_good s -> ot_rw_valid o = false ->
  0 <= c_cost c <= RIP_INFINITY -> (forall n q, (n, q) ∈ db_routes s -> takes6 c t (proj1_sig n)) ->
  exists pss o' s' rss, dump asm6 (route_policy p) (S (length (db_routes s))) gap tt o s = Ok (pss, o', tt, s')
    /\ concat rss = advertised (route_policy p) s (db_routes s)
    /\ Forall2 (fun ps rs => (rs = [] /\ ps = []) \/ (rs <> [] /\ ps <> [] /\ Forall (fun q => hears6 c t io q rs) ps)) pss rss.
Proof.
  intros Hg Hv Hc Htakes.
  assert (Hok : forall x, x ∈ advertised (route_policy p) s (db_routes s) -> told_ok6 x /\ hearable6 c t x).
  { intros x Hx. destruct (told_fields p s (db_routes s) x Hg (fun _ _ E => E) Hx) as (n & q & r & k & Hin & _ & _ & -> & Hk & Htag & _). split.
    - split; [apply proj2_dsig|]. split; [by vm_compute|]. unfold NEXTHOP_METRIC, RIP_INFINITY in *. split; [lia|]. split; [apply Htag|eapply Z.le_lt_trans; [apply Htag|done]].
    - split; [done|]. split; [done|]. by apply (Htakes n q). }
  assert (Ht : table_ok asm6 (route_policy p) s).
  { apply table_told; [done|]. intros n q r k Hin Hk Htag. split; [apply proj2_dsig|]. split; [by vm_compute|]. unfold NEXTHOP_METRIC, RIP_INFINITY in *. split; [lia|].
    split; [apply Htag|eapply Z.le_lt_trans; [apply Htag|done]]. }
  destruct (dump_ok asm6 (route_policy p) (route_policy_timer p) gap (S (length (db_routes s))) (db_routes s) tt o s []) as (pss & o' & [] & s' & rss & E & _ & _ & Hf & Ec);
    [lia|done|done|split; [done|by rewrite Hv]|].
  exists pss, o', s', rss. split; [done|]. split; [done|]. apply (Forall2_concat _ (fun x => told_ok6 x /\ hearable6 c t x)) in Hf; [|rewrite Ec; by apply Forall_forall].
  eapply Forall2_impl; [exact Hf|]. intros ps rs [[Hnil|(Hnr & Hne & h1 & _ & _ & Hps)] Hrs]; [by left|]. right. split; [done|]. split; [done|].
  eapply Forall_impl; [exact Hps|]. intros q Hq. destruct h1. by apply carries_hears6.
Qed.
End Heard6.
