(* ===== verification/RipPortClaims.v ===== *)
(** * Split horizon, keys, and the failures of a port

    What a port does not say to the neighbours it heard from, what the keys of the MD5
    authentication protect from and when they do not, and the packets and operations
    that end the program or undo a withdrawal. *)

From Stdlib Require Import ZArith Lia String.
From stdpp Require Import base tactics option numbers list gmap strings.
From S2P Require Import Prelude Word32 Addr IPv4 IPv6 IPNet Sample OMap VrrpPacket RipQueue RipQueueProps RipRoute RipDB RipDBProps.
From S2P Require Import RipDBUpdate RipDBRun RipClaims RipPacket RipAuth RipPeer RipOutput RipOutputProps RipAsm RipPort.
From S2P Require Import RipPortProps RipPortSafe RipHeard.
Local Open Scope Z_scope.
Local Open Scope xorp_scope.

(** ** Split horizon *)
Section Horizon.
Context {A H : Type} `{AddrSpec A, !EqDecision A, !NextHop A, !forall n : IPNet A, Decision (net_wf n)}.

End Horizon.

(** ** Routes that come back *)
Section Push.
Context {Net Addr : Type} `{KeyOrder Net, !KeyOrderLaws Net, !EqDecision Net, !EqDecision Addr, !NextHop Addr}.

(** a change of policy brings withdrawn routes back.  A peer announces a subnet and then withdraws it; its stored copy of
    the route keeps the announced metric, so that a push of the routes through the filters, as after any change of policy,
    makes the route reachable again with the metric that was withdrawn. *)
Theorem rip_push_restores_withdrawn (n : Net) nh i v k t secs pt (q : Peer Net Addr) (s : RouteDB Net Addr) : db_good s -> no_dead n s -> Z.of_nat (length (uq_list s)) < 60000 ->
  view n s = None -> peer_routes q = [] -> is_Some (db_origins s !! peer_origin q) -> 0 <= k < RIP_INFINITY -> 0 <= t <= 0xffff ->
  exists q1 s1 b1 q2 s2 b2 s3,
    peer_update_route accept_all i v secs n nh k t pt q s = Ok (q1, s1, b1) /\ view n s1 = Some (peer_origin q, k)
    /\ peer_update_route accept_all i v secs n nh RIP_INFINITY t pt q1 s1 = Ok (q2, s2, b2) /\ view n s2 = Some (peer_origin q, RIP_INFINITY)
    /\ push_peers accept_all [(true, q2)] s2 = Ok s3 /\ view n s3 = Some (peer_origin q, k).
Proof.
  intros Hg Hn Hb Hv Hr Ho Hk Ht. set (o := peer_origin q) in *.
  destruct (update_view n nh i v k t o pt false s Hg) as (s1 & b1 & E1 & Hg1 & Hn1 & Hv1 & Hl1 & Ho1); [unfold roomy; lia|done|lia|done|lia|].
  destruct (update_view n nh i v RIP_INFINITY t o pt false s1 Hg1) as (s2 & b2 & E2 & Hg2 & Hn2 & Hv2 & Hl2 & Ho2); [unfold roomy; lia|done|lia|by apply Ho1|done|].
  destruct (update_view n nh i v k t o pt true s2 Hg2) as (s3 & b3 & E3 & Hg3 & Hn3 & Hv3 & Hl3 & Ho3); [unfold roomy; lia|done|lia|by apply Ho2, Ho1|lia|].
  rewrite Hv in Hv1. cbn in Hv1. rewrite Hv1 in Hv2. cbn in Hv2. rewrite decide_True in Hv2 by done. rewrite Hv2 in Hv3. cbn in Hv3. rewrite decide_True in Hv3 by done.
  unfold peer_update_route. rewrite Hr. cbn [m_find m_insert with_peer_routes peer_routes peer_origin]. fold o. rewrite E1. cbn [result_bind fst snd].
  eexists _, s1, b1, _, s2, b2, s3. split; [done|]. split; [done|]. cbn [m_find m_insert with_peer_routes peer_routes peer_origin]. rewrite key_irrefl. fold o. rewrite E2. cbn [result_bind fst snd].
  split; [done|]. split; [done|]. split; [|done]. cbn [push_peers peer_push_routes negb push_stored with_peer_routes peer_routes peer_origin set_timer re_net re_nh re_ifname re_vifname re_cost re_tag re_policytags route_new].
  rewrite !cost16_small by (unfold RIP_INFINITY in *; lia). fold o. rewrite E3. done.
Qed.
End Push.

(** ** Keys *)
Section Keys.
Context `{HostOrder} (md5 : list Z -> list Z).

Lemma find_key_id id ks k : find_key id ks = Some k -> id_matches id k = true.
Proof. induction ks as [|k' ks IH]; cbn; [done|]. destruct (id_matches id k') eqn:E; [by intros [= <-]|done]. Qed.
Lemma find_change id k k' ks : find_key id ks = Some k -> id_matches id k' = true -> find_key id (change_key id (fun _ => k') ks) = Some k'.
Proof. intros Hf Hi. induction ks as [|x ks IH]; cbn in *; [done|]. destruct (id_matches id x) eqn:E; cbn; [by rewrite Hi|]. rewrite E. auto. Qed.

Lemma find_changed id id' k k' ks : find_key id ks = Some k -> id_matches id' k' = true ->
  find_key id (change_key id' (fun _ => k') ks) = Some (if decide (id' = id) then k' else k).
Proof.
  intros Hf Hi. case_decide as E; [subst; by apply (find_change _ k)|]. induction ks as [|x ks IH]; cbn in *; [done|].
  unfold id_matches in *. apply Z.eqb_eq in Hi. destruct (Z.eqb_spec (k_id x) id') as [E'|E']; cbn; unfold id_matches.
  - rewrite (proj2 (Z.eqb_neq (k_id k') id)) by lia. by rewrite (proj2 (Z.eqb_neq (k_id x) id)) in Hf by lia.
  - destruct (k_id x =? id); [done|auto].
Qed.

(** The last sequence number that the key [id] has heard from [src] *)
Definition last_heard (src : IPv4) (id : Z) (c : KeyChains) (l : Z) : Prop :=
  exists k, find_key id (valid_keys c) = Some k /\ packets_received src k = true /\ last_seqno_recv src k = l.
(** A packet as it reaches the handler: the port says whether its sender is new. *)
Record received := mkReceived { rc_data : list Z; rc_src : IPv4; rc_new : bool }.
Definition rc_id (r : received) : Z := mpr_key_id (drop HEADER_SIZE (rc_data r)).
Definition rc_seqno (r : received) : Z := mpr_seqno (drop HEADER_SIZE (rc_data r)).
Definition hear (c : KeyChains) (r : received) : KeyChains * option (nat * Z) := md5_inbound md5 c (rc_data r) (rc_src r) (rc_new r).
Fixpoint hear_all (c : KeyChains) (rs : list received) : KeyChains :=
  match rs with [] => c | r :: rs => hear_all (fst (hear c r)) rs end.
Definition heard_from (src : IPv4) (id : Z) (c : KeyChains) (r : received) : bool :=
  bool_decide (rc_src r = src) && (rc_id r =? id) && bool_decide (is_Some (snd (hear c r))).
(** How far the packets that are accepted from [src] under [id] advance the sequence number after [l] *)
Fixpoint advance (src : IPv4) (id l : Z) (c : KeyChains) (rs : list received) : Z :=
  match rs with
  | [] => 0
  | r :: rs =>
      if heard_from src id c r then u32_sub (rc_seqno r) l + advance src id (rc_seqno r) (fst (hear c r)) rs
      else advance src id l (fst (hear c r)) rs
  end.

Lemma heard_change src id id' c k0 k' l : last_heard src id c l -> find_key id' (valid_keys c) = Some k0 -> id_matches id' k' = true ->
  (id' = id -> packets_received src k' = packets_received src k0 /\ last_seqno_recv src k' = last_seqno_recv src k0) ->
  last_heard src id (mkChains (change_key id' (fun _ => k') (valid_keys c)) (invalid_keys c)) l.
Proof.
  intros (k & Hf & Hp & Hl) Hf' Hi Hk. eexists. split; [cbn [valid_keys]; by eapply find_changed|]. case_decide as E; [|done]. subst id'.
  destruct (Hk eq_refl) as [-> ->]. rewrite Hf in Hf'. by injection Hf' as <-.
Qed.

(** An accepted packet is the last one heard; nothing else changes what was heard of a sender that is not new. *)
Lemma hear_accepted c r x : no_keys c = false -> snd (hear c r) = Some x -> last_heard (rc_src r) (rc_id r) (fst (hear c r)) (rc_seqno r).
Proof.
  intros Hk. unfold hear, md5_inbound, rc_id, rc_seqno. rewrite Hk. repeat (destruct (_ <? _)%nat; [done|]). repeat (destruct (negb _); [done|]).
  destruct (find_key _ (valid_keys c)) as [k|] eqn:Ef; [|done]. destruct (_ && _ && _); [done|]. destruct (negb _); [done|]. case_decide; [|done]. intros _.
  pose proof (find_key_id _ _ _ Ef) as Hi. eexists. split; [|split].
  - cbn [fst valid_keys]. eapply find_change; [eapply find_change; [exact Ef|]|]; by destruct (rc_new r).
  - unfold packets_received. cbn. by rewrite lookup_insert_eq.
  - unfold last_seqno_recv. cbn. by rewrite lookup_insert_eq.
Qed.
Lemma hear_keeps src id c r l : last_heard src id c l -> (rc_src r = src -> rc_new r = false) -> heard_from src id c r = false ->
  last_heard src id (fst (hear c r)) l.
Proof.
  intros Hh Hnew Hq. assert (Hn : rc_src r = src -> rc_id r = id -> snd (hear c r) = None).
  { intros Es Ei. unfold heard_from in Hq. rewrite (bool_decide_true _ Es), (proj2 (Z.eqb_eq _ _) Ei) in Hq. by destruct (snd (hear c r)). }
  clear Hq. revert Hn. unfold hear, md5_inbound, rc_id. destruct (no_keys c); [done|]. repeat (destruct (_ <? _)%nat; [done|]). repeat (destruct (negb _); [done|]).
  set (id' := mpr_key_id _). destruct (find_key id' (valid_keys c)) as [k|] eqn:Ef; [|done]. pose proof (find_key_id _ _ _ Ef) as Hi.
  set (k1 := if rc_new r then _ else k). assert (Hi1 : id_matches id' k1 = true) by (unfold k1; by destruct (rc_new r)).
  assert (H1 : last_heard src id (mkChains (change_key id' (fun _ => k1) (valid_keys c)) (invalid_keys c)) l).
  { eapply heard_change; [done|done|done|]. intros _. unfold k1. destruct (rc_new r); [|done].
    unfold packets_received, last_seqno_recv. cbn. by rewrite !lookup_delete_ne by (intros E; by specialize (Hnew E)). }
  assert (Hf1 : find_key id' (change_key id' (fun _ => k1) (valid_keys c)) = Some k1) by by eapply find_change.
  destruct (_ && _ && _); [done|]. destruct (negb _); [done|]. case_decide; [|done]. cbn [fst snd]. intros Hn.
  eapply (heard_change _ _ _ (mkChains _ _)); [exact H1|exact Hf1|done|]. intros Ei. assert (rc_src r <> src) by (intros Es; by specialize (Hn Es Ei)).
  unfold packets_received, last_seqno_recv. cbn. by rewrite !lookup_insert_ne.
Qed.
Lemma hear_all_last src id rs : forall c l, last_heard src id c l -> Forall (fun r => rc_src r = src -> rc_new r = false) rs ->
  exists l', last_heard src id (hear_all c rs) l' /\ (l' - l) mod 2 ^ 32 = advance src id l c rs mod 2 ^ 32.
Proof.
  induction rs as [|r rs IH]; intros c l Hh Hn; cbn [hear_all advance]; [exists l; by rewrite Z.sub_diag|]. apply Forall_cons in Hn as [Hn Hns].
  destruct (heard_from src id c r) eqn:E; [|apply IH; [by apply hear_keeps|done]].
  unfold heard_from in E. apply andb_true_iff in E as [[Es%bool_decide_eq_true Ei%Z.eqb_eq]%andb_true_iff [x Ex]%bool_decide_eq_true]. subst src id.
  assert (Hk : no_keys c = false) by (destruct Hh as (k & Hf & _); unfold no_keys; by destruct (valid_keys c)).
  destruct (IH _ _ (hear_accepted c r x Hk Ex) Hns) as (l' & Hl' & El'). exists l'. split; [done|]. unfold u32_sub, u32.
  rewrite Zplus_mod_idemp_l. replace (l' - l) with ((rc_seqno r - l) + (l' - rc_seqno r)) by lia. rewrite Z.add_mod, El', <- Z.add_mod; lia.
Qed.

(** C22: no replay.  After a keyed packet has been accepted, and whatever packets of any senders and keys follow, a packet
    of its sender under its key is rejected, whatever its contents, when its sequence number lies behind the last one
    accepted, by at most 2^31, counting how far it was behind the first packet and all that the accepted packets of the
    sender have advanced since; the first packet itself is such a packet as soon as the number has advanced.  The sender
    must not be taken for a new peer meanwhile: the port does that for an address that is no peer or a peer without
    routes, and then forgets the number. *)
Theorem md5_no_replay c (r r' : received) rs : no_keys c = false -> is_Some (snd (hear c r)) ->
  Forall (fun q => rc_src q = rc_src r -> rc_new q = false) (rs ++ [r']) -> rc_src r' = rc_src r -> rc_id r' = rc_id r ->
  0 < u32_sub (rc_seqno r) (rc_seqno r') + advance (rc_src r) (rc_id r) (rc_seqno r) (fst (hear c r)) rs <= 2 ^ 31 ->
  snd (hear (hear_all c (r :: rs)) r') = None.
Proof.
  intros Hk [x Ha] [Hn Hn']%Forall_app Es Ei Hs. apply Forall_cons in Hn' as [Hn' _]. cbn [hear_all].
  destruct (hear_all_last _ _ rs _ _ (hear_accepted c r x Hk Ha) Hn) as (l & (k & Hf & Hp & Hl) & El).
  set (c' := hear_all _ rs) in *. clearbody c'. unfold hear, md5_inbound. rewrite (Hn' Es).
  assert (Hk' : no_keys c' = false) by (unfold no_keys; by destruct (valid_keys c')). rewrite Hk'. repeat (destruct (_ <? _)%nat; [done|]). repeat (destruct (negb _); [done|]).
  fold (rc_id r') (rc_seqno r'). rewrite Ei, Hf, Es, Hp, Hl. cbn [andb negb]. rewrite (proj2 (Z.leb_le _ _)); [done|]. unfold u32_sub, u32 in *.
  set (a := advance _ _ _ _ _) in *. set (q := rc_seqno r') in *. set (p := rc_seqno r) in *.
  assert (Ed : (l - q) mod 2 ^ 32 = (p - q) mod 2 ^ 32 + a).
  { rewrite <- (Z.mod_small ((p - q) mod 2 ^ 32 + a) (2 ^ 32)) by lia. rewrite Zplus_mod_idemp_l.
    replace (l - q) with ((p - q) + (l - p)) by lia. rewrite Z.add_mod, El, <- Z.add_mod; lia. }
  replace (q - l) with (- (l - q)) by lia. rewrite Z.mod_opp_l_nz; lia.
Qed.

(** a key for later turns the authentication off.  The last key of a chain stays in use after its end; adding a key that
    starts later discards it, so that until then the port takes packets without authentication, and sends them. *)
Theorem md5_add_key_disables c k id key start_time end_time now : valid_keys c = [k] -> k_persistent k = true -> now < start_time -> start_time <= end_time ->
  exists c', add_key id key start_time end_time now c = (c', true) /\ valid_keys c' = []
    /\ (forall d src new_peer, md5_inbound md5 c' d src new_peer = (c', null_inbound d))
    /\ forall p, authenticate_outbound md5 p (MD5Auth c') = Ok (MD5Auth c', [p], routes_of (data_bytes p)).
Proof.
  intros Hv Hp Hn Hs. unfold add_key. rewrite (proj2 (Z.ltb_ge end_time start_time)), (proj2 (Z.ltb_ge end_time now)), (proj2 (Z.ltb_lt now start_time)), Hv, Hp by lia.
  unfold remove_key. cbn [valid_keys invalid_keys find_key]. set (inv := _ ++ [set_persistent false k]).
  destruct (find_key id inv); cbn [fst valid_keys invalid_keys]; (eexists; split; [done|]; split; [done|]; split; done).
Qed.

(** ** Packets that end the program *)
(** A keyed response whose digest overlaps its authentication entry. *)
Definition short_md5_packet (k : MD5Key) : list Z :=
  let d := rph_initialize RESPONSE RIPv2_VERSION ++ embed_16 ADDR_FAMILY_AUTH ++ embed_16 AUTH_TYPE_MD5 ++ embed_16 12 ++ embed_8 (k_id k) ++ embed_8 20 ++ mpt_initialize in
  d ++ md5 (d ++ k_data k).

(** C38: a short digest offset reads behind the packet.  A neighbour that has the key can send 32 octets that pass every check
    with the number of entries at 2^32 - 1, since the offset of the digest is not required to follow the authentication
    entry; the port then reads route entries behind the end of the packet. *)
Theorem md5_short_offset_overread run_filter t interval send_ok src o c k p s : (forall l, length (md5 l) = 16%nat) ->
  c_en (po_config p) = true -> po_ah p = MD5Auth c -> find_key (k_id k) (valid_keys c) = Some k -> 0 <= k_id k < 256 -> find_peer src p = None ->
  length (short_md5_packet k) = 32%nat /\ port_io_receive (family4 md5) run_filter t interval send_ok src RIP_PORT o (short_md5_packet k) p s = Throw OutOfBounds.
Proof.
  intros Hmd5 Hen Hah Hf Hid Hnp. set (d := short_md5_packet k).
  assert (Hlen : length d = 32%nat) by (unfold d, short_md5_packet; by rewrite length_app, Hmd5). split; [done|].
  assert (Eid : mpr_key_id (drop HEADER_SIZE d) = k_id k) by (change (mpr_key_id (drop HEADER_SIZE d)) with (Z.land (k_id k) 0xff); by apply octet_small).
  assert (Hk : no_keys c = false) by (unfold no_keys; by destruct (valid_keys c)).
  assert (Ed : mpt_auth_data (drop (Z.to_nat 12) d) = md5 (take (Z.to_nat 12 + mpt_auth_data_offset) d ++ k_data k)).
  { transitivity (take 16 (md5 (take 16 d ++ k_data k))); [reflexivity|]. apply take_ge. by rewrite Hmd5. }
  assert (Hin : exists c', md5_inbound md5 c d src true = (c', Some (24%nat, 2 ^ 32 - 1))).
  { unfold md5_inbound. rewrite Hk, Hlen, Eid. change (mpr_addr_family (drop HEADER_SIZE d)) with ADDR_FAMILY_AUTH. change (mpr_auth_type (drop HEADER_SIZE d)) with AUTH_TYPE_MD5.
    change (mpr_auth_bytes (drop HEADER_SIZE d)) with 20. change (mpr_auth_off (drop HEADER_SIZE d)) with 12. cbn -[Nat.ltb find_key change_key key_reset_from drop take mpt_valid decide Z.div].
    rewrite Hf. unfold packets_received at 1. cbn [key_reset_from set_received k_pkts_recv]. rewrite lookup_delete_eq. cbn [default from_option andb].
    change (mpt_valid (drop (Z.to_nat 12) d)) with true. cbn [negb]. rewrite decide_True; [by eexists|].
    symmetry. exact Ed. }
  destruct Hin as [c' Hin]. unfold port_io_receive. rewrite Hen. cbn [negb]. change (RIP_PORT =? fam_port (family4 md5)) with true. cbn [andb negb]. rewrite Hnp. cbn [fmap option_fmap option_map].
  rewrite Hlen. change (valid_command d) with true. change (valid_version (fam_version (family4 md5)) d) with true. change (valid_padding d) with true. cbn [negb].
  change (rph_command d) with RESPONSE. cbn [andb]. change ((32 <? RIPv2_MIN_PACKET_BYTES)%nat) with false. cbn [negb]. cbn [result_bind family4 fam_inbound record_packet record count set_counters po_ah].
  rewrite Hah. cbn [authenticate_inbound]. rewrite Hin. cbn [result_bind fst snd]. change ((2 ^ 32 - 1 =? 0) && _) with false. change (RESPONSE =? RESPONSE) with true. cbn [andb].
  unfold parse_response. set (p1 := record_response_packet None _). assert (Hnp1 : find_peer src p1 = None) by exact Hnp. rewrite Hnp1. destruct (create_peer src o p1 s) as [p2 s2].
  cbn [family4 fam_response]. rewrite Hlen. cbn [parse_entries4]. change (Z.of_nat 0 =? 2 ^ 32 - 1) with false. unfold entry_at. rewrite Hlen. done.
Qed.
End Keys.

Section Requests.
Context `{HostOrder} (md5 : list Z -> list Z).

(** The request for the whole table, as [request_table] sends it. *)
Definition table_request_packet : list Z := rph_initialize REQUEST RIPv2_VERSION ++ pre4_initialize_table_request.
Lemma table_request_reads : null_inbound table_request_packet = Some (HEADER_SIZE, 1) /\ pre4_is_table_request (drop HEADER_SIZE table_request_packet) = true
  /\ length table_request_packet = 24%nat.
Proof. unfold table_request_packet, pre4_initialize_table_request, ipv4_copy_out, u32_to_mem. destruct big_endian; by vm_compute. Qed.

(** a request to a passive port ends the program.  A port that sends its routes is made passive, which deletes its output
    objects; the next request for the whole table from a RIP neighbour that the port does not know yet dereferences the
    deleted output. *)
Theorem rip_passive_request_aborts run_filter t interval delay send_ok src o (p p1 : Port (A := IPv4) (H := AuthHandler)) s s1 :
  output_allowed p = true -> po_ah p = NullAuth -> find_peer src p = None -> set_passive (family4 md5) interval delay send_ok true p s = Ok (p1, s1) ->
  port_io_receive (family4 md5) run_filter t interval send_ok src RIP_PORT o table_request_packet p1 s1 = Throw OutOfBounds.
Proof.
  intros Hout Hah Hnp. unfold set_passive. rewrite Hout. unfold output_allowed in Hout. rewrite !andb_true_iff in Hout. destruct Hout as [[Hen Hio] Hpas].
  assert (Hoff : output_allowed (set_config (with_passive true (po_config p)) p) = false) by (unfold output_allowed; cbn; by rewrite andb_false_r). rewrite Hoff. cbn [eqb].
  unfold start_stop_output_processing. rewrite Hoff. unfold stop_output_processing. set (p0 := stop_request_table_timer _).
  destruct (match po_tu_out p0 with Some _ => _ | None => _ end) as [s0|]; [|done]. cbn [result_bind]. intros [= <- <-].
  set (p1 := set_timers _ _). destruct table_request_reads as (Er & Et & El). set (d := table_request_packet) in *.
  assert (Hd : valid_command d = true /\ valid_version (fam_version (family4 md5)) d = true /\ valid_padding d = true /\ rph_command d = REQUEST) by done.
  destruct Hd as (Hd1 & Hd2 & Hd3 & Hd4). unfold port_io_receive. change (c_en (po_config p1)) with (c_en (po_config p)). rewrite Hen. cbn [negb].
  change (RIP_PORT =? fam_port (family4 md5)) with true. cbn [andb negb]. change (find_peer src p1) with (find_peer src p). rewrite Hnp. cbn [fmap option_fmap option_map].
  rewrite El, Hd1, Hd2, Hd3, Hd4. change ((24 <? RIPv2_MIN_PACKET_BYTES)%nat) with false. change (REQUEST =? RESPONSE) with false. cbn [negb andb result_bind].
  set (p2 := record_packet None p1 s0). change (po_ah p2) with (po_ah p). rewrite Hah. cbn [family4 fam_inbound authenticate_inbound]. rewrite Er. cbn [result_bind fst snd].
  change ((1 =? 0) && _) with false. change (REQUEST =? REQUEST) with true. cbn [negb]. unfold parse_request. set (p3 := record_request_packet None _).
  change (io_enabled (po_io p3)) with (io_enabled (po_io p)). rewrite Hio. cbn [negb]. change (1 =? 1) with true. cbn [andb]. fold (family4 md5).
  change (fam_is_table_request (family4 md5)) with pre4_is_table_request. rewrite Et. change (RIP_PORT =? fam_port (family4 md5)) with true. cbn [andb].
  change (find_peer src p3) with (find_peer src p). rewrite Hnp. unfold create_peer. change (find_peer src p3) with (find_peer src p). rewrite Hnp. done.
Qed.

(** A query for one subnet whose prefix length is no IPv6 prefix length. *)
Definition long_prefix_query (l : Z) : list Z := rph_initialize REQUEST RIPng_VERSION ++ replicate 16 0 ++ [0; 0; l; 1].

(** a query with a long prefix ends the program.  Any host may ask an RIPng port for a subnet with a prefix length above
    128: the port deletes the packet of its answer and then goes on with it. *)
Theorem ripng_long_prefix_aborts run_filter t interval send_ok src src_port o l (p : Port (A := IPv6) (H := unit)) s : 128 < l < 256 -> src_port <> RIP_NG_PORT ->
  c_en (po_config p) = true -> c_acc_non_rip_reqs (po_config p) = true -> io_enabled (po_io p) = true -> queries_blocked p s = false ->
  port_io_receive family6 run_filter t interval send_ok src src_port o (long_prefix_query l) p s = Throw OutOfBounds.
Proof.
  intros Hl Hport Hen Hacc Hio Hq. set (d := long_prefix_query l). unfold port_io_receive. rewrite Hen. cbn [negb]. change (fam_port family6) with RIP_NG_PORT.
  rewrite (proj2 (Z.eqb_neq _ _)), Hacc by done. cbn [andb negb]. change ((length d <? RIPv2_MIN_PACKET_BYTES)%nat) with false.
  change (valid_command d) with true. change (valid_version (fam_version family6) d) with true. change (valid_padding d) with true. change (rph_command d =? RESPONSE) with false. cbn [negb andb result_bind].
  cbn [family6 fam_inbound result_bind fst snd]. fold family6. change (inbound6 d) with (IbEntries 4 1 false). cbn [result_bind]. change ((1 =? 0) && _) with false.
  change (rph_command d =? REQUEST) with true. cbn [negb]. unfold parse_request. set (p3 := count CNonRipRequestsRecv _). change (io_enabled (po_io p3)) with (io_enabled (po_io p)). rewrite Hio. cbn [negb].
  change (fam_is_table_request family6 (drop 4 d)) with false. rewrite andb_false_r. change (queries_blocked p3 s) with (queries_blocked p s). rewrite Hq.
  assert (Hent : forall m a, as_full (fam_asm family6) a = false -> answer_entries family6 (S m) d 4 0 1 a s = Throw OutOfBounds).
  { intros m a Ha. cbn [answer_entries]. rewrite Ha. cbn [orb]. change (Z.of_nat 0 =? 1) with false. change (entry_at d 4 0) with (Ok (drop 4 d) : result xorp_exn (list Z)). cbn [result_bind].
    change (fam_entry_prefix_len family6 (drop 4 d)) with l. change (addr_bitlen (A := IPv6)) with 128. by rewrite (proj2 (Z.ltb_lt _ _)) by lia. }
  assert (Hpk : forall m, answer_packets family6 (S m) src src_port d 4 0 1 p3 s = Throw OutOfBounds).
  { intros m. cbn [answer_packets]. change (Z.of_nat 0 =? 1) with false. rewrite Hent; [done|]. done. }
  by rewrite Hpk.
Qed.
End Requests.
