(* ===== verification/RipExamples.v ===== *)
(** * RIP at work

    A port, its neighbours and their packets on concrete data: the theorems on the output
    and the input of RIP, applied. *)

From Stdlib Require Import ZArith Lia String.
From stdpp Require Import base tactics option numbers list gmap strings.
From S2P Require Import Prelude Word32 Addr IPv4 IPv6 IPNet Sample OMap VrrpPacket RipQueue RipQueueProps RipRoute RipDB RipDBProps.
From S2P Require Import RipDBUpdate RipDBRun RipClaims RipPacket RipAuth RipPeer RipOutput RipOutputProps RipAsm RipPort.
From S2P Require Import RipPortProps RipPortSafe RipHeard RipPortClaims.
Local Open Scope Z_scope.
Local Open Scope xorp_scope.

(** ** Packets and their queue *)
Definition zero_md5 (l : list Z) : list Z := replicate 16 0.
Definition sample_pkt (n : nat) : RipPacket IPv4 := mkPkt (ip4 224 0 0 9) RIP_PORT (replicate n 0) 25.

Lemma packet_queue_fifo_witness : exists q, pq_run [PqEnqueue (sample_pkt 24); PqEnqueue (sample_pkt 44); PqPop] (mkPQ [] 0 (64 * 1024) 0) = Ok q
  /\ ready_packets q = [sample_pkt 44] /\ buffered_bytes q = total (ready_packets q).
Proof.
  apply (packet_queue_fifo [PqEnqueue (sample_pkt 24); PqEnqueue (sample_pkt 44); PqPop] (64 * 1024) 0); [done|]. split; [by vm_compute|]. split; [by vm_compute|]. by split.
Defined.
Lemma packet_queue_drop_aborts_witness :
  let q := mkPQ [sample_pkt 504; sample_pkt 504; sample_pkt 24] 1032 1200 0 in
  ready_packets (enqueue_packet (sample_pkt 200) q) = [sample_pkt 504; sample_pkt 200] /\ flush_packets (enqueue_packet (sample_pkt 200) q) = Throw AssertFailed.
Proof.
  intros q. apply (packet_queue_drop_aborts (sample_pkt 200) q (sample_pkt 504) (sample_pkt 504) [sample_pkt 24]); [|done|by vm_compute|by vm_compute|by vm_compute].
  split; [by vm_compute|]. split; by vm_compute.
Defined.

(** ** A port with 192.168.0.254 on eth0, and the route 10.0.0.0/8 of its neighbour *)
Definition sample_io : PortIO IPv4 := mkIO "eth0" "eth0" (ip4 192 168 0 254) true false.
Definition sample_tree : list (IfAtom IPv4) :=
  [mkIfAtom "eth0" true false [mkIfVif "eth0" true [mkIfAddr (ip4 192 168 0 254) true (Some (ip4 192 168 0 255)) 24]]].
Definition sample_config : PortConfig := mkConfig true 1 SPLIT_POISON_REVERSE true true false true.
Definition sample_port (h : AuthHandler) : Port (A := IPv4) (H := AuthHandler) :=
  set_peers [peer_new (ip4 192 168 0 1) 1] (set_config sample_config (port_new h sample_io)).
Definition sample_ot : OutputTable (A := IPv4) := ot_new (ip4 224 0 0 9) RIP_PORT rip_sample_old.

Lemma sample_routes n q : (n, q) ∈ db_routes rip_sample_old -> n = rip_sample_net /\ q = 0%nat.
Proof.
  intros Hin. set (f := fun x : rip_net IPv4 * nat => (bool_decide (x.1 = rip_sample_net), x.2)). assert (E : map f (db_routes rip_sample_old) = [(true, 0%nat)]) by (by vm_compute).
  assert (Hf : f (n, q) ∈ map f (db_routes rip_sample_old)) by (apply list_elem_of_fmap; by exists (n, q)). rewrite E in Hf. apply list_elem_of_singleton in Hf.
  unfold f in Hf. cbn [fst snd] in Hf. injection Hf as Hn Hq. by apply bool_decide_eq_true in Hn.
Qed.

Lemma output_table_complete_witness : exists pss o' h' s' rss,
  dump (asm4 zero_md5) (route_policy (sample_port NullAuth)) (S (length (db_routes rip_sample_old))) 50 NullAuth sample_ot rip_sample_old = Ok (pss, o', h', s')
  /\ ot_running o' = false /\ Forall2 (batch_ok (asm4 zero_md5) (AssemblerLaws0 := asm4_laws zero_md5 (fun _ => eq_refl)) NullAuth) pss rss
  /\ concat rss = advertised (route_policy (sample_port NullAuth)) rip_sample_old (db_routes rip_sample_old).
Proof.
  apply (output_table_complete (asm4 zero_md5) (AssemblerLaws0 := asm4_laws zero_md5 (fun _ => eq_refl)) (route_policy (sample_port NullAuth)) (route_policy_timer _)).
  - apply table_told; [apply rip_sample_old_good|]. intros n q r c _ Hc Ht. split; [apply proj2_dsig|]. split; [by vm_compute|]. unfold is_u32, RIP_INFINITY in *. split; [lia|].
    split; [apply Ht|eapply Z.le_lt_trans; [apply Ht|done]].
  - done.
  - done.
Defined.


(** A neighbour on 192.168.1.0/24 hears the dump. *)
Definition other_tree : list (IfAtom IPv4) := [mkIfAtom "eth1" true false [mkIfVif "eth1" true [mkIfAddr (ip4 192 168 0 2) true None 24]]].
Definition other_io : PortIO IPv4 := mkIO "eth1" "eth1" (ip4 192 168 0 2) true false.
Definition sample_key (id start_time end_time : Z) : MD5Key := key_new id [115; 101; 99; 114; 101; 116] start_time end_time false false.
Definition sample_chain : KeyChains := mkChains [sample_key 1 0 TIME_MAXIMUM] [].

Lemma rip_dump_heard_witness : exists pss o' h' s' rss,
  dump (asm4 zero_md5) (route_policy (sample_port (MD5Auth sample_chain))) (S (length (db_routes rip_sample_old))) 50 (MD5Auth sample_chain) sample_ot rip_sample_old = Ok (pss, o', h', s')
  /\ concat rss = [(net4 10 0 0 0 8, ipv4_ZERO, RIP_INFINITY, 0)]
  /\ Forall2 (fun ps rs => (rs = [] /\ ps = []) \/ (rs <> [] /\ ps <> [] /\ exists h1, same_secrets (MD5Auth sample_chain) h1
       /\ Forall (fun q => hears4 zero_md5 sample_config other_tree other_io h1 q rs) ps)) pss rss.
Proof.
  assert (E : advertised (route_policy (sample_port (MD5Auth sample_chain))) rip_sample_old (db_routes rip_sample_old) = [(net4 10 0 0 0 8, ipv4_ZERO, RIP_INFINITY, 0)]) by (by vm_compute).
  rewrite <- E. apply (rip_dump_heard zero_md5 (fun _ => eq_refl)).
  - apply rip_sample_old_good.
  - constructor; [|constructor]. by vm_compute.
  - done.
  - by vm_compute.
  - intros n q [-> ->]%sample_routes. split; [by vm_compute|]. by vm_compute.
Defined.

(** ** Received packets *)
Definition sample_response : list Z := header4 ++ encode4 (net4 10 1 0 0 16, ipv4_ZERO, 3, 0).
Lemma rip_sample_db_clean : db_clean rip_sample_db.
Proof. split; [apply rip_sample_db_good|]. by intros n q r. Qed.

Lemma rip_response_safe_witness : exists p' s',
  port_io_receive (family4 zero_md5) accept_all sample_tree 0 true (ip4 192 168 0 7) RIP_PORT 7 sample_response (sample_port NullAuth) rip_sample_db = Ok (p', s')
  /\ peers_ok p' s' /\ db_clean s' /\ same_setup (sample_port NullAuth) p'.
Proof.
  apply (rip_response_safe (family4 zero_md5) accept_all accept_all_total).
  - by vm_compute.
  - apply (bool_decide_unpack _). by vm_compute.
  - done.
  - done.
  - exists (mkIfAddr (ip4 192 168 0 254) true (Some (ip4 192 168 0 255)) 24). split; [by vm_compute|]. split; by vm_compute.
  - by vm_compute.
  - constructor; [by eexists|constructor].
  - apply rip_sample_db_clean.
  - done.
  - by vm_compute.
Defined.

Lemma rip_push_restores_withdrawn_witness : exists q1 s1 b1 q2 s2 b2 s3,
  peer_update_route accept_all "eth0" "eth0" 180 rip_sample_net (ip4 192 168 0 1) 3 0 no_tags (peer_new (ip4 192 168 0 1) 1) rip_sample_db = Ok (q1, s1, b1)
  /\ view rip_sample_net s1 = Some (1%nat, 3)
  /\ peer_update_route accept_all "eth0" "eth0" 180 rip_sample_net (ip4 192 168 0 1) RIP_INFINITY 0 no_tags q1 s1 = Ok (q2, s2, b2)
  /\ view rip_sample_net s2 = Some (1%nat, RIP_INFINITY) /\ push_peers accept_all [(true, q2)] s2 = Ok s3 /\ view rip_sample_net s3 = Some (1%nat, 3).
Proof.
  apply (rip_push_restores_withdrawn rip_sample_net (ip4 192 168 0 1) "eth0" "eth0" 3 0 180 no_tags (peer_new (ip4 192 168 0 1) 1) rip_sample_db).
  - apply rip_sample_db_good.
  - by intros q r.
  - by vm_compute.
  - done.
  - done.
  - by eexists.
  - by vm_compute.
  - by vm_compute.
Defined.

(** ** Keys *)
Definition sample_packet (seqno : Z) : list Z :=
  let k := sample_key 1 0 TIME_MAXIMUM in
  md5_octets zero_md5 (mkKey 1 (k_data k) 0 TIME_MAXIMUM false ∅ ∅ seqno false false) [(net4 10 1 0 0 16, ipv4_ZERO, 3, 0)].
(** A packet from [n], and its replay after two others, of which one is accepted from the same sender. *)
Definition sample_received (n : Z) (seqno : Z) (new : bool) : received := mkReceived (sample_packet seqno) (ip4 192 168 0 n) new.
Definition sample_between : list received := [sample_received 2 5 true; sample_received 1 9 false].
Lemma md5_no_replay_witness :
  snd (hear zero_md5 (hear_all zero_md5 sample_chain (sample_received 1 7 true :: sample_between)) (sample_received 1 7 false)) = None.
Proof.
  apply (md5_no_replay zero_md5 sample_chain (sample_received 1 7 true) (sample_received 1 7 false) sample_between).
  - reflexivity.
  - vm_compute. eexists. reflexivity.
  - repeat constructor; intros E; vm_compute in E; discriminate E.
  - reflexivity.
  - vm_compute. reflexivity.
  - split; by vm_compute.
Defined.
Lemma md5_add_key_disables_witness : exists c', add_key 2 [110; 101; 119] 2000000 TIME_MAXIMUM 1000000 (mkChains [set_persistent true (sample_key 1 0 500000)] []) = (c', true)
  /\ valid_keys c' = [] /\ (forall d src new_peer, md5_inbound zero_md5 c' d src new_peer = (c', null_inbound d))
  /\ forall p, authenticate_outbound zero_md5 p (MD5Auth c') = Ok (MD5Auth c', [p], routes_of (data_bytes p)).
Proof.
  apply (md5_add_key_disables zero_md5 (mkChains [set_persistent true (sample_key 1 0 500000)] []) (set_persistent true (sample_key 1 0 500000))); [done|done|lia|by vm_compute].
Defined.
Lemma md5_short_offset_overread_witness : length (short_md5_packet zero_md5 (sample_key 1 0 TIME_MAXIMUM)) = 32%nat
  /\ port_io_receive (family4 zero_md5) accept_all sample_tree 0 true (ip4 192 168 0 7) RIP_PORT 7 (short_md5_packet zero_md5 (sample_key 1 0 TIME_MAXIMUM))
       (sample_port (MD5Auth sample_chain)) rip_sample_db = Throw OutOfBounds.
Proof.
  apply (md5_short_offset_overread zero_md5 accept_all sample_tree 0 true (ip4 192 168 0 7) 7 sample_chain (sample_key 1 0 TIME_MAXIMUM) (sample_port (MD5Auth sample_chain)) rip_sample_db); [done|reflexivity|reflexivity|reflexivity|by vm_compute|reflexivity].
Defined.

(** ** Requests *)
Definition sending_port : Port (A := IPv4) (H := AuthHandler) := start_output_processing (family4 zero_md5) 30000000 3000000 (sample_port NullAuth) rip_sample_db.
Definition passive_port : Port (A := IPv4) (H := AuthHandler) * RouteDB (rip_net IPv4) IPv4 :=
  match set_passive (family4 zero_md5) 0 0 true true sending_port rip_sample_db with Ok x => x | Throw _ => (sending_port, rip_sample_db) end.
Definition succeeds {E X} (m : result E X) : bool := match m with Ok _ => true | Throw _ => false end.
Lemma sending_goes_passive : succeeds (set_passive (family4 zero_md5) 0 0 true true sending_port rip_sample_db) = true.
Proof. lazy. reflexivity. Qed.
Lemma rip_passive_request_aborts_witness : set_passive (family4 zero_md5) 0 0 true true sending_port rip_sample_db = Ok (fst passive_port, snd passive_port)
  /\ port_io_receive (family4 zero_md5) accept_all sample_tree 0 true (ip4 192 168 0 7) RIP_PORT 7 table_request_packet (fst passive_port) (snd passive_port) = Throw OutOfBounds.
Proof.
  assert (E : set_passive (family4 zero_md5) 0 0 true true sending_port rip_sample_db = Ok (fst passive_port, snd passive_port)).
  { assert (Hok : match set_passive (family4 zero_md5) 0 0 true true sending_port rip_sample_db with Ok _ => true | Throw _ => false end = true) by (by vm_compute).
    unfold passive_port. destruct (set_passive _ _ _ _ _ _ _) as [[p1 s1]|e]; [reflexivity|discriminate]. }
  assert (H1 : output_allowed sending_port = true) by (lazy; reflexivity). assert (H2 : po_ah sending_port = NullAuth) by reflexivity.
  assert (H3 : find_peer (ip4 192 168 0 7) sending_port = None) by reflexivity.
  split; [exact E|]. exact (rip_passive_request_aborts zero_md5 accept_all sample_tree 0 0 true (ip4 192 168 0 7) 7 sending_port (fst passive_port) rip_sample_db (snd passive_port) H1 H2 H3 E).
Defined.

(** An RIPng port, and the route 2001:db8::/32. *)
Definition sample_net6 : rip_net IPv6 := exist _ (mkIPNet (mkIPv6 (htonl 0x20010db8) 0 0 0) 32) I.
Definition sample_addr6 (n : Z) : IPv6 := mkIPv6 (htonl 0xfe800000) 0 0 (htonl n).
Definition sample_port6 : Port (A := IPv6) (H := unit) := set_config sample_config (port_new tt (mkIO "eth0" "eth0" (sample_addr6 254) true false)).
Definition sample_db6 : RouteDB (rip_net IPv6) IPv6 :=
  ok_of (db_exec accept_all (DbUpdate sample_net6 (sample_addr6 1) "eth0" "eth0" 3 0 1 no_tags false) (new_origin 1 180 120 (db_new 0))).
Lemma sample_db6_good : db_good sample_db6.
Proof.
  unfold sample_db6. destruct (db_exec_good accept_all accept_all_total (DbUpdate sample_net6 (sample_addr6 1) "eth0" "eth0" 3 0 1 no_tags false) (new_origin 1 180 120 (db_new 0))) as (s & -> & Hg);
    [apply new_origin_good; [apply db_new_good|done]| |exact Hg].
  split; [by vm_compute|]. split; [done|]. split; [by eexists|]. intros (p & r & x & q & Hf & _). done.
Qed.
Lemma sample_routes6 n q : (n, q) ∈ db_routes sample_db6 -> n = sample_net6.
Proof.
  intros Hin. set (f := fun x : rip_net IPv6 * nat => bool_decide (x.1 = sample_net6)). assert (E : map f (db_routes sample_db6) = [true]) by (by vm_compute).
  assert (Hf : f (n, q) ∈ map f (db_routes sample_db6)) by (apply list_elem_of_fmap; by exists (n, q)). rewrite E in Hf. apply list_elem_of_singleton in Hf.
  unfold f in Hf. cbn [fst] in Hf. by apply bool_decide_eq_true in Hf.
Qed.
Lemma ripng_dump_heard_witness : exists pss o' s' rss,
  dump asm6 (route_policy sample_port6) (S (length (db_routes sample_db6))) 50 tt (ot_new (sample_addr6 9) RIP_NG_PORT sample_db6) sample_db6 = Ok (pss, o', tt, s')
  /\ concat rss = [(proj1_sig sample_net6, ipv6_ZERO, 3, 0)]
  /\ Forall2 (fun ps rs => (rs = [] /\ ps = []) \/ (rs <> [] /\ ps <> [] /\ Forall (fun q => hears6 sample_config [] (mkIO "eth0" "eth0" (sample_addr6 2) true false) q rs) ps)) pss rss.
Proof.
  assert (E : advertised (route_policy sample_port6) sample_db6 (db_routes sample_db6) = [(proj1_sig sample_net6, ipv6_ZERO, 3, 0)]) by (by vm_compute).
  rewrite <- E. apply ripng_dump_heard.
  - apply sample_db6_good.
  - done.
  - by vm_compute.
  - intros n q ->%sample_routes6. split; [by vm_compute|]. split; [by vm_compute|]. split; [by vm_compute|]. split; [|by vm_compute]. intros E0. by vm_compute in E0.
Defined.
Lemma ripng_long_prefix_aborts_witness :
  port_io_receive family6 accept_all [] 0 true (sample_addr6 7) 4000 7 (long_prefix_query 200) sample_port6 sample_db6 = Throw OutOfBounds.
Proof. apply ripng_long_prefix_aborts; [lia|done|done|done|done|done]. Defined.
