(* ===== verification/PolicyElem.v ===== *)
(** * The elements of policies (policy/common/element.hh, element.cc, elem_set.cc, element_factory.cc)

    An element is a value of the policy language: the constants of a policy, the attributes
    of a route and the results of operations.  Every element has a type, named by a string,
    a hash by which the dispatcher finds the operations, and a text from which the factory
    makes it again.  The texts of addresses are those of [inet_ntop] and [inet_pton], which
    are parameters. *)

From Stdlib Require Import ZArith Lia String Ascii.
From stdpp Require Import base tactics option numbers list strings.
From S2P Require Import Prelude Word32 Addr IPv4 IPv6 IPNet AsPath.
Local Open Scope Z_scope.
Local Open Scope xorp_scope.

(** ** Numbers in text (stdlib.h) *)
Definition digit_char (d : Z) : ascii := ascii_of_nat (Z.to_nat (48 + d)).
(** The digits of a number below [10 ^ fuel], in front of [acc]. *)
Fixpoint dec_digits (fuel : nat) (n : Z) (acc : string) : string :=
  match fuel with
  | O => acc
  | S fuel => let acc := String (digit_char (n mod 10)) acc in if n / 10 =? 0 then acc else dec_digits fuel (n / 10) acc
  end.
(** [policy_utils::to_str], [operator<<] and ["%u"] on integers of 32 bits *)
Definition dec_str (n : Z) : string := if n <? 0 then String "-" (dec_digits 20 (- n) "") else dec_digits 20 n "".

Definition is_space (c : ascii) : bool := let n := nat_of_ascii c in ((9 <=? n) && (n <=? 13) || (n =? 32))%nat.
Fixpoint skip_space (s : string) : string := match s with String c s' => if is_space c then skip_space s' else s | EmptyString => s end.
Definition digit_in (base : Z) (c : ascii) : option Z :=
  let n := Z.of_nat (nat_of_ascii c) in
  let d := if (48 <=? n) && (n <=? 57) then n - 48 else if (97 <=? n) && (n <=? 122) then n - 87 else if (65 <=? n) && (n <=? 90) then n - 55 else 99 in
  if d <? base then Some d else None.
Fixpoint scan_num (base acc : Z) (s : string) : Z :=
  match s with String c s => match digit_in base c with Some d => scan_num base (acc * base + d) s | None => acc end | EmptyString => acc end.
(** The base of a number whose base is 0: hexadecimal after [0x], octal after [0]. *)
Definition find_base (base : Z) (s : string) : Z * string :=
  if negb (base =? 0) then (base, s)
  else match s with
       | String "0" (String "x" (String c _ as r)) | String "0" (String "X" (String c _ as r)) =>
           match digit_in 16 c with Some _ => (16, r) | None => (8, s) end
       | String "0" _ => (8, s)
       | _ => (10, s)
       end.
Definition read_sign (s : string) : bool * string :=
  match s with String "-" s => (true, s) | String "+" s => (false, s) | _ => (false, s) end.
Definition read_num (base : Z) (s : string) : bool * Z :=
  let '(neg, s) := read_sign (skip_space s) in
  let '(base, s) := find_base base s in (neg, scan_num base 0 s).
(** [strtoul] and [strtol], with a [long] of 64 bits *)
Definition c_strtoul (base : Z) (s : string) : Z :=
  let '(neg, v) := read_num base s in
  if 2 ^ 64 - 1 <? v then 2 ^ 64 - 1 else if neg : bool then (- v) mod 2 ^ 64 else v.
Definition c_strtol (base : Z) (s : string) : Z :=
  let '(neg, v) := read_num base s in
  if neg : bool then Z.max (- v) (- 2 ^ 63) else Z.min v (2 ^ 63 - 1).
Definition s32 (x : Z) : Z := (x + 2 ^ 31) mod 2 ^ 32 - 2 ^ 31.

(** ** Searching strings *)
(** The parts before and after the first occurrence of a character, of two dots. *)
Fixpoint split_at (c : ascii) (s : string) : option (string * string) :=
  match s with
  | EmptyString => None
  | String x s' => if bool_decide (x = c) then Some (EmptyString, s')
                   else match split_at c s' with Some (a, b) => Some (String x a, b) | None => None end
  end.
Fixpoint split_dots (s : string) : option (string * string) :=
  match s with
  | String "." (String "." s') => Some (EmptyString, s')
  | String x s' => match split_dots s' with Some (a, b) => Some (String x a, b) | None => None end
  | EmptyString => None
  end.
(** [policy_utils::str_to_list] *)
Fixpoint strip_ws (s : string) : string :=
  match s with String c s => if is_space c then strip_ws s else String c (strip_ws s) | EmptyString => EmptyString end.
Fixpoint split_commas (s : string) : list string :=
  match s with
  | EmptyString => []
  | String "," s => EmptyString :: split_commas s
  | String c s => match split_commas s with [] => [String c EmptyString] | t :: ts => String c t :: ts end
  end.
Definition str_to_list (s : string) : list string := split_commas (strip_ws s).
(** [for ...: s += x + ","], without the last comma *)
Fixpoint join_commas (l : list string) : string :=
  match l with [] => "" | [x] => x | x :: l => x ++ "," ++ join_commas l end%string.

(** ** [std::set], as the list of its elements in increasing order *)
Section StdSet.
Context {T : Type} (ltb : T -> T -> bool).
Fixpoint set_add (x : T) (l : list T) : list T :=
  match l with
  | [] => [x]
  | y :: l' => if ltb x y then x :: l else if ltb y x then y :: set_add x l' else l
  end.
Definition set_add_all (l s : list T) : list T := fold_left (fun s x => set_add x s) l s.
Fixpoint set_mem (x : T) (l : list T) : bool :=
  match l with [] => false | y :: l => if ltb x y then false else if ltb y x then set_mem x l else true end.
Fixpoint set_remove (x : T) (l : list T) : list T :=
  match l with [] => [] | y :: l' => if ltb x y then l else if ltb y x then y :: set_remove x l' else l' end.
(** [set_intersection]: the elements of the first set that the second one has. *)
Definition set_inter (a b : list T) : list T := List.filter (fun x => set_mem x b) a.
End StdSet.

(** ** Elements *)
Inductive Mod := MOD_NONE | MOD_EXACT | MOD_SHORTER | MOD_ORSHORTER | MOD_LONGER | MOD_ORLONGER | MOD_NOT.
Inductive NextHopVar := VAR_NONE | VAR_DISCARD | VAR_NEXT_TABLE | VAR_PEER_ADDRESS | VAR_REJECT | VAR_SELF.
#[global] Instance Mod_eq_dec : EqDecision Mod.
Proof. solve_decision. Defined.
#[global] Instance NextHopVar_eq_dec : EqDecision NextHopVar.
Proof. solve_decision. Defined.
Record ElemNet (A : Type) := mkNet { en_net : IPNet A; en_mod : Mod }.
Arguments mkNet {A}.
Arguments en_net {A}.
Arguments en_mod {A}.
#[global] Instance ElemNet_eq_dec A `{EqDecision A} : EqDecision (ElemNet A).
Proof. solve_decision. Defined.

Inductive Elem :=
  | EInt32 (v : Z) | EU32 (v : Z) | ECom32 (v : Z) | EStr (v : string) | EBool (v : bool)
  | EIPv4 (v : IPv4) | EIPv6 (v : IPv6) | EIPv4Range (lo hi : IPv4) | EIPv6Range (lo hi : IPv6)
  | EIPv4Net (v : ElemNet IPv4) | EIPv6Net (v : ElemNet IPv6) | EU32Range (lo hi : Z)
  | ESetU32 (v : list Z) | ESetCom32 (v : list Z) | ESetIPv4Net (v : list (ElemNet IPv4)) | ESetIPv6Net (v : list (ElemNet IPv6))
  | ESetStr (v : list string) | ENull | EFilter (v : nat) | EASPath (v : ASPath)
  | EIPv4NextHop (var : NextHopVar) (a : IPv4) | EIPv6NextHop (var : NextHopVar) (a : IPv6).
#[global] Instance ASPath_eq_dec : EqDecision ASPath.
Proof. solve_decision. Defined.
#[global] Instance Elem_eq_dec : EqDecision Elem.
Proof. solve_decision. Defined.

(** The enumeration [HASH_ELEM_INT32], ... *)
Definition elem_hash (e : Elem) : Z :=
  match e with
  | EInt32 _ => 1 | EU32 _ => 2 | ECom32 _ => 3 | EStr _ => 4 | EBool _ => 5 | EIPv4 _ => 6 | EIPv6 _ => 7 | EIPv4Range _ _ => 8 | EIPv6Range _ _ => 9
  | EIPv4Net _ => 10 | EIPv6Net _ => 11 | EU32Range _ _ => 12 | ESetU32 _ => 13 | ESetCom32 _ => 14 | ESetIPv4Net _ => 15 | ESetIPv6Net _ => 16
  | ESetStr _ => 17 | ENull => 18 | EFilter _ => 19 | EASPath _ => 20 | EIPv4NextHop _ _ => 21 | EIPv6NextHop _ _ => 22
  end.
Definition elem_type (e : Elem) : string :=
  match e with
  | EInt32 _ => "i32" | EU32 _ => "u32" | ECom32 _ => "com32" | EStr _ => "txt" | EBool _ => "bool" | EIPv4 _ => "ipv4" | EIPv6 _ => "ipv6"
  | EIPv4Range _ _ => "ipv4range" | EIPv6Range _ _ => "ipv6range" | EIPv4Net _ => "ipv4net" | EIPv6Net _ => "ipv6net" | EU32Range _ _ => "u32range"
  | ESetU32 _ => "set_u32" | ESetCom32 _ => "set_com32" | ESetIPv4Net _ => "set_ipv4net" | ESetIPv6Net _ => "set_ipv6net" | ESetStr _ => "set_str"
  | ENull => "null" | EFilter _ => "filter" | EASPath _ => "aspath" | EIPv4NextHop _ _ => "ipv4nexthop" | EIPv6NextHop _ _ => "ipv6nexthop"
  end%string.
Definition is_null (e : Elem) : bool := elem_hash e =? 18.

(** The texts of addresses *)
Class AddrText := {
  ipv4_text : IPv4 -> string;
  ipv4_parse : string -> result xorp_exn IPv4;
  ipv6_text : IPv6 -> string;
  ipv6_parse : string -> result xorp_exn IPv6 }.

Section Text.
Context `{HostOrder, AddrText}.

(** [catch (...)] of the constructors from text: what the program throws becomes an [ElemInitError]. *)
Definition catch_init {T} (m : result xorp_exn T) : result xorp_exn T :=
  match m with
  | Throw (InvalidNetmaskLength _ | InvalidString | InvalidFamily _ | CorruptMessage | VrrpException) => Throw PolicyException
  | m => m
  end.
Definition parse_range {T} (parse : string -> result xorp_exn T) (s : string) : result xorp_exn (T * T) :=
  match split_dots s with
  | None => v <-! parse s ;; Ok (v, v)
  | Some (EmptyString, _) | Some (_, EmptyString) => Throw InvalidString
  | Some (a, b) => lo <-! parse a ;; hi <-! parse b ;; Ok (lo, hi)
  end.
Definition range_text {T} (text : T -> string) (ltb : T -> T -> bool) (lo hi : T) : string :=
  (text lo ++ (if ltb lo hi then ".." ++ text hi else ""))%string.
Definition u32_parse (s : string) : Z := u32 (c_strtoul 10 s).

(** [IPNet<A>::str], [ElemNet<A>] *)
Definition net_text {A} (text : A -> string) (n : IPNet A) : string := (text (masked_addr n) ++ "/" ++ dec_str (prefix_len n))%string.
Definition mod_to_str (m : Mod) : string :=
  match m with MOD_NONE => "" | MOD_EXACT => "==" | MOD_SHORTER => ">" | MOD_ORSHORTER => ">=" | MOD_LONGER => "<" | MOD_ORLONGER => "<=" | MOD_NOT => "!=" end%string.
Definition str_to_mod (s : string) : result xorp_exn Mod :=
  if decide (s = "<=" \/ s = "orlonger")%string then Ok MOD_ORLONGER
  else if decide (s = "<" \/ s = "longer")%string then Ok MOD_LONGER
  else if decide (s = ">" \/ s = "shorter")%string then Ok MOD_SHORTER
  else if decide (s = ">=" \/ s = "orshorter")%string then Ok MOD_ORSHORTER
  else if decide (s = "!=" \/ s = "not")%string then Ok MOD_NOT
  else if decide (s = "==" \/ s = ":" \/ s = "exact")%string then Ok MOD_EXACT
  else Throw PolicyException.
Definition elemnet_text {A} (text : A -> string) (n : ElemNet A) : string :=
  (net_text text (en_net n) ++ (if decide (en_mod n = MOD_NONE) then "" else "~" ++ mod_to_str (en_mod n)))%string.
Definition elemnet_parse {A} `{AddrOps A} (parse : string -> result xorp_exn A) (s : string) : result xorp_exn (ElemNet A) :=
  x <-! (match split_at "~" s with Some (a, b) => m <-! str_to_mod b ;; Ok (a, m) | None => Ok (s, MOD_NONE) end) ;;
  n <-! catch_init (net_of_string parse (fst x)) ;; Ok (mkNet n (snd x)).

(** Communities *)
Definition com_aliases : list (string * Z) := [("NO_EXPORT", 0xFFFFFF01); ("NO_ADVERTISE", 0xFFFFFF02); ("NO_EXPORT_SUBCONFED", 0xFFFFFF03)]%string.
Definition com32_parse (s : string) : result xorp_exn Z :=
  match split_at ":" s with
  | Some (_, b) =>
      let msw := u32 (c_strtoul 0 s) in
      let lsw := u32 (c_strtoul 0 b) in
      if (0xffff <? msw) || (0xffff <? lsw) then Throw PolicyException else Ok (u32_add (u32_shl msw 16) lsw)
  | None => Ok (match find (fun p => bool_decide (fst p = s)) com_aliases with Some p => snd p | None => u32 (c_strtoul 0 s) end)
  end.
Definition com32_text (v : Z) : string :=
  match find (fun p => snd p =? v) com_aliases with
  | Some p => fst p
  | None => (dec_str (Z.shiftr v 16) ++ ":" ++ dec_str (Z.land v 0xffff))%string
  end.

(** [AsNum::str], [ASSegment::str], [ASPath::str] and their short forms *)
Definition asnum_short_text (n : Z) : string :=
  if extended n then (dec_str (Z.land (Z.shiftr n 16) 0xffff) ++ "." ++ dec_str (Z.land n 0xffff))%string else dec_str n.
Definition asnum_text (n : Z) : string := ("AS/" ++ asnum_short_text n)%string.
Fixpoint join_with (sep : string) (l : list string) : string :=
  match l with [] => "" | [x] => x | x :: l => x ++ sep ++ join_with sep l end%string.
Definition seg_text (s : ASSegment) : string :=
  let '(o, c) := match seg_type s with AS_NONE => ("", "") | AS_SET => ("{", "}") | AS_SEQUENCE => ("[", "]") | AS_CONFED_SEQUENCE => ("(", ")")
                                     | AS_CONFED_SET => ("<", ">") end%string in
  let body := join_with ", " (map asnum_text (aslist s)) in
  match seg_type s, aslist s with
  | AS_NONE, [] => "" | AS_NONE, _ => body ++ ", "     (* the separator is appended at the end *)
  | _, [] => c | _, _ => o ++ body ++ c
  end%string.
Definition seg_short_text (s : ASSegment) : string :=
  let '(o, c) := match seg_type s with AS_NONE => ("", "") | AS_SET => ("{", "}") | AS_SEQUENCE => ("", "") | AS_CONFED_SEQUENCE => ("(", ")")
                                     | AS_CONFED_SET => ("<", ">") end%string in
  let body := join_with " " (map asnum_short_text (aslist s)) in
  match seg_type s, aslist s with
  | AS_NONE, [] => "" | AS_NONE, _ => body ++ " "
  | _, [] => c | _, _ => o ++ body ++ c
  end%string.
Definition aspath_text (p : ASPath) : string := ("ASPath:" ++ foldr (fun s acc => " " ++ seg_text s ++ acc) "" (segments p))%string.
Definition aspath_short_text (p : ASPath) : string := join_with " " (map seg_short_text (segments p)).

Definition nexthop_text {A} (text : A -> string) (var : NextHopVar) (a : A) : string :=
  match var with VAR_NONE => text a | VAR_DISCARD => "discard" | VAR_NEXT_TABLE => "next-table" | VAR_PEER_ADDRESS => "peer-address"
               | VAR_REJECT => "reject" | VAR_SELF => "self" end%string.
Definition nexthop_parse {A} `{AddrOps A} (parse : string -> result xorp_exn A) (s : string) : result xorp_exn (NextHopVar * A) :=
  if decide (s = "discard")%string then Ok (VAR_DISCARD, a_zero)
  else if decide (s = "next-table")%string then Ok (VAR_NEXT_TABLE, a_zero)
  else if decide (s = "peer-address")%string then Ok (VAR_PEER_ADDRESS, a_zero)
  else if decide (s = "reject")%string then Ok (VAR_REJECT, a_zero)
  else if decide (s = "self")%string then Ok (VAR_SELF, a_zero)
  else a <-! parse s ;; Ok (VAR_NONE, a).

Definition elemnet_ltb {A} `{AddrOps A} (x y : ElemNet A) : bool := net_ltb (en_net x) (en_net y).
(** The constructor of [ElemSetAny<T>] from text: the tokens are a set of strings first. *)
Fixpoint parse_all {T} (parse : string -> result xorp_exn T) (l : list string) : result xorp_exn (list T) :=
  match l with [] => Ok [] | s :: l => x <-! parse s ;; xs <-! parse_all parse l ;; Ok (x :: xs) end.
Definition set_parse {T} (ltb : T -> T -> bool) (parse : string -> result xorp_exn T) (s : string) : result xorp_exn (list T) :=
  xs <-! parse_all parse (set_add_all String.ltb (str_to_list s) []) ;; Ok (set_add_all ltb xs []).

(** [Element::str] *)
Definition elem_str (e : Elem) : string :=
  match e with
  | EInt32 v | EU32 v => dec_str v
  | ECom32 v => com32_text v
  | EStr s => s
  | EBool b => if b then "true" else "false"
  | EIPv4 a => ipv4_text a | EIPv6 a => ipv6_text a
  | EIPv4Range lo hi => range_text ipv4_text ipv4_ltb lo hi | EIPv6Range lo hi => range_text ipv6_text ipv6_ltb lo hi
  | EIPv4Net n => elemnet_text ipv4_text n | EIPv6Net n => elemnet_text ipv6_text n
  | EU32Range lo hi => range_text dec_str Z.ltb lo hi
  | ESetU32 l => join_commas (map dec_str l) | ESetCom32 l => join_commas (map com32_text l)
  | ESetIPv4Net l => join_commas (map (elemnet_text ipv4_text) l) | ESetIPv6Net l => join_commas (map (elemnet_text ipv6_text) l)
  | ESetStr l => join_commas l
  | ENull => "null" | EFilter _ => "policy filter" | EASPath p => aspath_text p
  | EIPv4NextHop v a => nexthop_text ipv4_text v a | EIPv6NextHop v a => nexthop_text ipv6_text v a
  end%string.

(** [ElementFactory::create] with the constructors of [RegisterElements]; no text is the dummy of the semantic check. *)
Definition u32range_parse (s : string) : result xorp_exn (Z * Z) := parse_range (fun s => Ok (u32_parse s)) s.
Definition elem_create (key : string) (arg : option string) : result xorp_exn Elem :=
  let on {T} (d : T) (parse : string -> result xorp_exn T) (k : T -> Elem) : result xorp_exn Elem :=
    match arg with None => Ok (k d) | Some s => v <-! parse s ;; Ok (k v) end in
  if decide (key = "i32") then on 0 (fun s => Ok (s32 (c_strtol 10 s))) EInt32
  else if decide (key = "u32") then on 0 (fun s => Ok (u32_parse s)) EU32
  else if decide (key = "u32range") then on (0, 0) (fun s => catch_init (u32range_parse s)) (fun p => EU32Range (fst p) (snd p))
  else if decide (key = "txt") then on "" (fun s => Ok s) EStr
  else if decide (key = "bool") then on false (fun s => Ok (bool_decide (s = "true"))) EBool
  else if decide (key = "null") then Ok ENull
  else if decide (key = "ipv4") then on ipv4_ZERO (fun s => catch_init (ipv4_parse s)) EIPv4
  else if decide (key = "ipv4net") then on (mkNet net_default MOD_NONE) (elemnet_parse ipv4_parse) EIPv4Net
  else if decide (key = "ipv4range") then on (ipv4_ZERO, ipv4_ZERO) (fun s => catch_init (parse_range ipv4_parse s)) (fun p => EIPv4Range (fst p) (snd p))
  else if decide (key = "ipv6") then on ipv6_ZERO (fun s => catch_init (ipv6_parse s)) EIPv6
  else if decide (key = "ipv6range") then on (ipv6_ZERO, ipv6_ZERO) (fun s => catch_init (parse_range ipv6_parse s)) (fun p => EIPv6Range (fst p) (snd p))
  else if decide (key = "ipv6net") then on (mkNet net_default MOD_NONE) (elemnet_parse ipv6_parse) EIPv6Net
  else if decide (key = "set_u32") then on [] (set_parse Z.ltb (fun s => Ok (u32_parse s))) ESetU32
  else if decide (key = "set_com32") then on [] (set_parse Z.ltb com32_parse) ESetCom32
  else if decide (key = "set_ipv4net") then on [] (set_parse elemnet_ltb (elemnet_parse ipv4_parse)) ESetIPv4Net
  else if decide (key = "set_ipv6net") then on [] (set_parse elemnet_ltb (elemnet_parse ipv6_parse)) ESetIPv6Net
  else if decide (key = "set_str") then on [] (set_parse String.ltb (fun s => Ok s)) ESetStr
  else if decide (key = "aspath") then on aspath_empty (fun s => catch_init (aspath_of_string (list_ascii_of_string s))) EASPath
  else if decide (key = "ipv4nexthop") then on (VAR_NONE, ipv4_ZERO) (nexthop_parse ipv4_parse) (fun p => EIPv4NextHop (fst p) (snd p))
  else if decide (key = "ipv6nexthop") then on (VAR_NONE, ipv6_ZERO) (nexthop_parse ipv6_parse) (fun p => EIPv6NextHop (fst p) (snd p))
  else Throw PolicyException.
Definition can_create (key : string) : bool :=
  existsb (fun k => bool_decide (k = key)) ["i32"; "u32"; "u32range"; "txt"; "bool"; "null"; "ipv4"; "ipv4net"; "ipv4range"; "ipv6"; "ipv6range"; "ipv6net";
    "set_u32"; "set_com32"; "set_ipv4net"; "set_ipv6net"; "set_str"; "aspath"; "ipv4nexthop"; "ipv6nexthop"]%string.
End Text.
