(* ===== verification/PolicyOps.v ===== *)
(** * The operations of policies (policy/common/operator.hh, register_operations.cc, dispatcher.cc)

    An operation is found by its operator and the types of its operands: the dispatcher
    keeps one table, indexed by a key of fifteen bits, five for the operator and five for
    each operand.  A function of the table casts its operands without a test; a cast to a
    wrong type is [OutOfBounds] here.  An operation says whether its result is a new element,
    which the caller has to delete, or one of the two shared booleans. *)

From Stdlib Require Import ZArith Lia String Ascii.
From stdpp Require Import base tactics option numbers list strings.
From S2P Require Import Prelude Word32 Addr IPv4 IPv6 IPNet AsPath PolicyElem.
Local Open Scope Z_scope.
Local Open Scope xorp_scope.

Inductive Oper :=
  | OpAnd | OpOr | OpXor | OpNot | OpEq | OpNe | OpLt | OpGt | OpLe | OpGe | OpAdd | OpSub | OpMul | OpDiv | OpLShift | OpRShift
  | OpBitAnd | OpBitOr | OpBitXor | OpRegex | OpCtr | OpNEInt | OpHead.
#[global] Instance Oper_eq_dec : EqDecision Oper.
Proof. solve_decision. Defined.
(** [HASH_OP_AND], ... *)
Definition oper_hash (o : Oper) : Z :=
  match o with
  | OpAnd => 1 | OpOr => 2 | OpXor => 3 | OpNot => 4 | OpEq => 5 | OpNe => 6 | OpLt => 7 | OpGt => 8 | OpLe => 9 | OpGe => 10 | OpAdd => 11 | OpSub => 12
  | OpMul => 13 | OpDiv => 14 | OpLShift => 15 | OpRShift => 16 | OpBitAnd => 17 | OpBitOr => 18 | OpBitXor => 19 | OpRegex => 20 | OpCtr => 21 | OpNEInt => 22
  | OpHead => 23
  end.
Definition oper_arity (o : Oper) : nat := match o with OpNot | OpHead => 1 | _ => 2 end.
Definition oper_str (o : Oper) : string :=
  match o with
  | OpAnd => "AND" | OpOr => "OR" | OpXor => "XOR" | OpNot => "NOT" | OpEq => "==" | OpNe => "!=" | OpLt => "<" | OpGt => ">" | OpLe => "<=" | OpGe => ">="
  | OpAdd => "+" | OpSub => "-" | OpMul => "*" | OpDiv => "/" | OpLShift => "<<" | OpRShift => ">>" | OpBitAnd => "&" | OpBitOr => "|" | OpBitXor => "^"
  | OpRegex => "REGEX" | OpCtr => "CTR" | OpNEInt => "NON_EMPTY_INTERSECTION" | OpHead => "HEAD"
  end%string.

(** The callbacks that are registered, by the name of their template *)
Inductive callback :=
  | f_not | f_head | f_and | f_or | f_xor
  | f_eq | f_ne | f_lt | f_gt | f_le | f_ge
  | f_add | f_sub | f_mul | f_div | f_lshift | f_rshift | f_bit_and | f_bit_or | f_bit_xor
  | f_eq_nv | f_ne_nv | f_lt_nv | f_gt_nv | f_le_nv | f_ge_nv
  | f_eq_sw | f_ne_sw | f_lt_sw | f_gt_sw | f_le_sw | f_ge_sw
  | f_lt_net | f_gt_net | f_le_net | f_ge_net
  | f_set_add | f_set_del | f_set_ne_int | f_str_add | f_str_mul | f_ctr | f_str_regex | f_str_setregex
  | f_aspath_prepend | f_aspath_expand | f_aspath_contains | f_aspath_regex | f_aspath_setregex | f_net_set_match.
#[global] Instance callback_eq_dec : EqDecision callback.
Proof. solve_decision. Defined.

(** The hashes of the types, by their names in the code *)
Module H.
Definition i32 := 1.
Definition u32 := 2.
Definition com32 := 3.
Definition str := 4.
Definition bool := 5.
Definition ipv4 := 6.
Definition ipv6 := 7.
Definition ipv4range := 8.
Definition ipv6range := 9.
Definition ipv4net := 10.
Definition ipv6net := 11.
Definition u32range := 12.
Definition set_u32 := 13.
Definition set_com32 := 14.
Definition set_ipv4net := 15.
Definition set_ipv6net := 16.
Definition set_str := 17.
Definition aspath := 20.
Definition ipv4nh := 21.
Definition ipv6nh := 22.
End H.

(** [RegisterOperations::RegisterOperations] *)
Definition registration : Type := Oper * list Z * callback.
Definition add_bin (l r : Z) (f : callback) (o : Oper) : registration := (o, [l; r], f).
Definition eqop2 l r := [add_bin l r f_eq OpEq; add_bin l r f_ne OpNe].
Definition relop2 l r := [add_bin l r f_lt OpLt; add_bin l r f_gt OpGt; add_bin l r f_le OpLe; add_bin l r f_ge OpGe].
Definition relop_net a := [add_bin a a f_lt_net OpLt; add_bin a a f_gt_net OpGt; add_bin a a f_le_net OpLe; add_bin a a f_ge_net OpGe].
Definition mathop a := [add_bin a a f_add OpAdd; add_bin a a f_sub OpSub; add_bin a a f_mul OpMul; add_bin a a f_div OpDiv; add_bin a a f_lshift OpLShift;
  add_bin a a f_rshift OpRShift; add_bin a a f_bit_and OpBitAnd; add_bin a a f_bit_or OpBitOr; add_bin a a f_bit_xor OpBitXor].
Definition lsetbinop s a := [add_bin s a f_eq_nv OpEq; add_bin s a f_ne_nv OpNe; add_bin s a f_lt_nv OpLt; add_bin s a f_gt_nv OpGt; add_bin s a f_le_nv OpLe;
  add_bin s a f_ge_nv OpGe].
Definition setbinop s a := lsetbinop s a ++ [add_bin a s f_eq_sw OpEq; add_bin a s f_ne_sw OpNe; add_bin a s f_lt_sw OpLt; add_bin a s f_gt_sw OpGt;
  add_bin a s f_le_sw OpLe; add_bin a s f_ge_sw OpGe].
Definition registrations : list registration :=
  [(OpNot, [H.bool], f_not); (OpHead, [H.str], f_head); add_bin H.bool H.bool f_and OpAnd; add_bin H.bool H.bool f_or OpOr; add_bin H.bool H.bool f_xor OpXor]
  ++ eqop2 H.bool H.bool
  ++ [add_bin H.set_u32 H.u32 f_set_add OpAdd; add_bin H.set_com32 H.com32 f_set_add OpAdd;
      add_bin H.set_u32 H.set_u32 f_set_ne_int OpNEInt; add_bin H.set_u32 H.set_u32 f_set_add OpAdd; add_bin H.set_u32 H.set_u32 f_set_del OpSub;
      add_bin H.set_com32 H.set_com32 f_set_ne_int OpNEInt; add_bin H.set_com32 H.set_com32 f_set_add OpAdd; add_bin H.set_com32 H.set_com32 f_set_del OpSub]
  ++ map (fun a => add_bin H.str a f_ctr OpCtr)
       [H.i32; H.u32; H.com32; H.str; H.bool; H.ipv4; H.ipv6; H.ipv4range; H.ipv6range; H.ipv4net; H.ipv6net; H.u32range]
  ++ [add_bin H.u32 H.aspath f_aspath_prepend OpAdd; add_bin H.u32 H.aspath f_aspath_expand OpMul; add_bin H.aspath H.u32 f_aspath_contains OpNEInt;
      add_bin H.aspath H.str f_aspath_regex OpRegex; add_bin H.aspath H.set_str f_aspath_setregex OpRegex]
  ++ lsetbinop H.set_u32 H.set_u32 ++ lsetbinop H.set_com32 H.set_com32
  ++ eqop2 H.i32 H.i32 ++ relop2 H.i32 H.i32 ++ mathop H.i32
  ++ eqop2 H.u32 H.u32 ++ relop2 H.u32 H.u32 ++ mathop H.u32 ++ setbinop H.set_u32 H.u32
  ++ eqop2 H.u32 H.u32range ++ relop2 H.u32 H.u32range
  ++ eqop2 H.com32 H.com32 ++ setbinop H.set_com32 H.com32
  ++ eqop2 H.str H.str
  ++ [add_bin H.str H.str f_str_add OpAdd; add_bin H.str H.u32 f_str_mul OpMul; add_bin H.str H.str f_str_regex OpRegex;
      add_bin H.str H.set_str f_str_setregex OpRegex]
  ++ eqop2 H.ipv4 H.ipv4 ++ eqop2 H.ipv4 H.ipv4range ++ relop2 H.ipv4 H.ipv4 ++ relop2 H.ipv4 H.ipv4range
  ++ relop2 H.ipv4nh H.ipv4range ++ eqop2 H.ipv4nh H.ipv4range
  ++ eqop2 H.ipv4net H.ipv4net ++ eqop2 H.ipv4net H.u32range ++ relop_net H.ipv4net ++ relop2 H.ipv4net H.u32range
  ++ setbinop H.set_ipv4net H.ipv4net ++ [add_bin H.ipv4net H.set_ipv4net f_net_set_match OpLe]
  ++ eqop2 H.ipv6 H.ipv6 ++ eqop2 H.ipv6 H.ipv6range ++ relop2 H.ipv6 H.ipv6 ++ relop2 H.ipv6 H.ipv6range
  ++ relop2 H.ipv6nh H.ipv6range ++ eqop2 H.ipv6nh H.ipv6range
  ++ eqop2 H.ipv6net H.ipv6net ++ eqop2 H.ipv6net H.u32range ++ relop_net H.ipv6net ++ relop2 H.ipv6net H.u32range
  ++ setbinop H.set_ipv6net H.ipv6net ++ [add_bin H.ipv6net H.set_ipv6net f_net_set_match OpLe].

(** [Dispatcher::makeKey]: the operand [i] is shifted by [5 * (i + 1)]. *)
Fixpoint key_of_hashes (shift : Z) (hs : list Z) (key : Z) : Z :=
  match hs with [] => key | h :: hs => key_of_hashes (shift + 5) hs (Z.lor key (Z.shiftl h shift)) end.
Definition makeKey (o : Oper) (hs : list Z) : Z := key_of_hashes 5 hs (oper_hash o).
(** [Dispatcher::add] fills a table of pointers; a later registration replaces an earlier one. *)
Definition key_entry (r : registration) : Z * callback := (makeKey (fst (fst r)) (snd (fst r)), snd r).
Definition dispatch_map : list (Z * callback) := rev (map key_entry registrations).
Fixpoint map_at (key : Z) (m : list (Z * callback)) : option callback :=
  match m with [] => None | (k, f) :: m => if k =? key then Some f else map_at key m end.
Definition DISPATCHER_MAP_SZ : Z := 32768.

(** ** The callbacks *)
Section Callbacks.
Context `{HostOrder, AddrText}.
(** [policy_utils::regex]: [regcomp] and [regexec]; [None] when the expression does not compile *)
Context (regex : string -> string -> option bool).

Definition shared (b : bool) : Elem * bool := (EBool b, false).   (* [return_bool] *)
Definition fresh (e : Elem) : Elem * bool := (e, true).

(** [==], [<] and what [std::rel_ops] makes of them *)
Definition rel {T} (eqb ltb : T -> T -> bool) (f : callback) (x y : T) : bool :=
  match f with
  | f_eq => eqb x y | f_ne => negb (eqb x y) | f_lt => ltb x y | f_gt => ltb y x | f_le => negb (ltb y x) | f_ge => negb (ltb x y)
  | _ => false
  end.
(** The comparisons with a range *)
Definition range_rel {T} (leb : T -> T -> bool) (f : callback) (x lo hi : T) : bool :=
  match f with
  | f_eq => leb lo x && leb x hi | f_ne => negb (leb lo x) || negb (leb x hi) | f_lt => negb (leb lo x) | f_gt => negb (leb x hi) | f_le => leb x hi
  | f_ge => leb lo x | _ => false
  end.
Definition ipv4_range_rel (f : callback) (a lo hi : IPv4) : bool :=
  match f with
  | f_eq => ipv4_range_eqb a lo hi | f_ne => ipv4_range_neqb a lo hi | f_lt => ipv4_range_ltb a lo hi | f_gt => ipv4_range_gtb a lo hi
  | f_le => ipv4_range_leb a lo hi | f_ge => ipv4_range_geb a lo hi | _ => false
  end.
Definition ipv6_leb (x y : IPv6) : bool := negb (ipv6_ltb y x).
Definition with_nexthop {A T} (var : NextHopVar) (a : A) (k : A -> result xorp_exn T) : result xorp_exn T :=
  if decide (var = VAR_NONE) then k a else Throw AssertFailed.   (* [ElemNextHop<A>::addr] *)

(** [x.val() op y.val()] *)
Definition compare_vals (f : callback) (l r : Elem) : result xorp_exn bool :=
  match l, r with
  | EBool a, EBool b => Ok (rel Bool.eqb (fun a b => negb a && b) f a b)
  | EInt32 a, EInt32 b | EU32 a, EU32 b | ECom32 a, ECom32 b => Ok (rel Z.eqb Z.ltb f a b)
  | EU32 a, EU32Range lo hi => Ok (range_rel Z.leb f a lo hi)
  | EStr a, EStr b => Ok (rel String.eqb String.ltb f a b)
  | EIPv4 a, EIPv4 b => Ok (rel ipv4_eqb ipv4_ltb f a b)
  | EIPv4 a, EIPv4Range lo hi => Ok (ipv4_range_rel f a lo hi)
  | EIPv4NextHop v a, EIPv4Range lo hi => with_nexthop v a (fun a => Ok (ipv4_range_rel f a lo hi))
  | EIPv4Net a, EIPv4Net b => Ok (rel net_eqb net_ltb f (en_net a) (en_net b))
  | EIPv4Net a, EU32Range lo hi => Ok (range_rel Z.leb f (prefix_len (en_net a)) lo hi)
  | EIPv6 a, EIPv6 b => Ok (rel ipv6_eqb ipv6_ltb f a b)
  | EIPv6 a, EIPv6Range lo hi => Ok (range_rel ipv6_leb f a lo hi)
  | EIPv6NextHop v a, EIPv6Range lo hi => with_nexthop v a (fun a => Ok (range_rel ipv6_leb f a lo hi))
  | EIPv6Net a, EIPv6Net b => Ok (rel net_eqb net_ltb f (en_net a) (en_net b))
  | EIPv6Net a, EU32Range lo hi => Ok (range_rel Z.leb f (prefix_len (en_net a)) lo hi)
  | _, _ => Throw OutOfBounds
  end.

(** Arithmetic of [int32_t] and [uint32_t]; what the language leaves undefined is an error. *)
Definition in_s32 (z : Z) : result xorp_exn Z := if (- 2 ^ 31 <=? z) && (z <? 2 ^ 31) then Ok z else Throw IntOverflow.
Definition shift_ok (y : Z) : bool := (0 <=? y) && (y <? 32).
Definition math_i32 (f : callback) (x y : Z) : result xorp_exn Z :=
  match f with
  | f_add => in_s32 (x + y) | f_sub => in_s32 (x - y) | f_mul => in_s32 (x * y)
  | f_div => if y =? 0 then Throw DivideByZero else in_s32 (Z.quot x y)
  | f_lshift => if shift_ok y then Ok (s32 (Z.shiftl x y)) else Throw IntOverflow
  | f_rshift => if shift_ok y then Ok (Z.shiftr x y) else Throw IntOverflow
  | f_bit_and => Ok (Z.land x y) | f_bit_or => Ok (Z.lor x y) | f_bit_xor => Ok (Z.lxor x y)
  | _ => Throw OutOfBounds
  end.
Definition math_u32 (f : callback) (x y : Z) : result xorp_exn Z :=
  match f with
  | f_add => Ok (u32 (x + y)) | f_sub => Ok (u32 (x - y)) | f_mul => Ok (u32 (x * y))
  | f_div => if y =? 0 then Throw DivideByZero else Ok (x / y)
  | f_lshift => if shift_ok y then Ok (u32 (Z.shiftl x y)) else Throw IntOverflow
  | f_rshift => if shift_ok y then Ok (Z.shiftr x y) else Throw IntOverflow
  | f_bit_and => Ok (Z.land x y) | f_bit_or => Ok (Z.lor x y) | f_bit_xor => Ok (Z.lxor x y)
  | _ => Throw OutOfBounds
  end.

(** [ElemSetAny<T>]: the comparisons of two sets, and of a set with an element *)
Section Sets.
Context {T : Type} (eqb ltb : T -> T -> bool).
Implicit Types (a b : list T) (x : T).
Fixpoint set_eqb a b : bool :=
  match a, b with [], [] => true | x :: a, y :: b => eqb x y && set_eqb a b | _, _ => false end.
Definition set_ltb a b : bool := if (length b <=? length a)%nat then false else set_eqb (set_inter ltb a b) a.
Definition set_leb a b : bool := set_ltb a b || set_eqb a b.
Definition set_rel (f : callback) a b : bool :=
  match f with
  | f_eq_nv => set_eqb a b | f_ne_nv => negb (set_eqb a b) | f_lt_nv => set_ltb a b | f_gt_nv => set_ltb b a
  | f_le_nv => set_leb a b | f_ge_nv => set_ltb b a || set_eqb a b | _ => false
  end.
Definition set_lt_elem a : bool := match a with [] => true | _ => false end.
Definition set_gt_elem a x : bool := set_mem ltb x a && (2 <=? length a)%nat.
Definition set_eq_elem a x : bool := (length a =? 1)%nat && set_mem ltb x a.
Definition set_elem_rel (f : callback) a x : bool :=
  match f with
  | f_eq_nv | f_eq_sw => set_eq_elem a x
  | f_ne_nv | f_ne_sw => negb (set_mem ltb x a)
  | f_lt_nv | f_gt_sw => set_lt_elem a
  | f_gt_nv | f_lt_sw => set_gt_elem a x
  | f_le_nv | f_ge_sw => set_lt_elem a || set_eq_elem a x
  | f_ge_nv | f_le_sw => set_gt_elem a x || set_eq_elem a x
  | _ => false
  end.
Definition nonempty_intersection a b : bool := match set_inter ltb a b with [] => false | _ => true end.
Definition set_union a b : list T := set_add_all ltb b (set_add_all ltb a []).
Definition set_erase a b : list T := fold_left (fun s x => set_remove ltb x s) b (set_add_all ltb a []).
End Sets.
Definition elemnet_eqb {A} `{AddrOps A} (x y : ElemNet A) : bool := net_eqb (en_net x) (en_net y).
Definition compare_sets (f : callback) (l r : Elem) : result xorp_exn bool :=
  match l, r with
  | ESetU32 a, ESetU32 b | ESetCom32 a, ESetCom32 b => Ok (set_rel Z.eqb Z.ltb f a b)
  | ESetU32 a, EU32 x | ESetCom32 a, ECom32 x | EU32 x, ESetU32 a | ECom32 x, ESetCom32 a => Ok (set_elem_rel Z.ltb f a x)
  | ESetIPv4Net a, EIPv4Net x | EIPv4Net x, ESetIPv4Net a => Ok (set_elem_rel elemnet_ltb f a x)
  | ESetIPv6Net a, EIPv6Net x | EIPv6Net x, ESetIPv6Net a => Ok (set_elem_rel elemnet_ltb f a x)
  | _, _ => Throw OutOfBounds
  end.

(** [op_lt_net] and its kind *)
Definition net_rel {A} `{AddrOps A} (f : callback) (x y : IPNet A) : bool :=
  match f with
  | f_lt_net => net_contains y x && negb (net_eqb y x) | f_gt_net => net_contains x y && negb (net_eqb x y)
  | f_le_net => net_contains y x | f_ge_net => net_contains x y | _ => false
  end.
(** [ElemNet<A>::op] and [net_match], which finds the operation of the modifier by the dispatcher: for [==] and [!=] it is
    the comparison of the values, for the others the one of networks. *)
Definition mod_op (m : Mod) : Oper :=
  match m with MOD_NONE | MOD_EXACT => OpEq | MOD_NOT => OpNe | MOD_SHORTER => OpGt | MOD_ORSHORTER => OpGe | MOD_LONGER => OpLt | MOD_ORLONGER => OpLe end.
Definition net_op {A} `{AddrOps A} (h : Z) (o : Oper) (x y : IPNet A) : result xorp_exn bool :=
  match map_at (makeKey o [h; h]) dispatch_map with
  | Some (f_eq as f | f_ne as f) => Ok (rel net_eqb net_ltb f x y)
  | Some (f_lt_net as f | f_gt_net as f | f_le_net as f | f_ge_net as f) => Ok (net_rel f x y)
  | Some _ => Throw Fatal        (* [abort] *)
  | None => Throw AssertFailed
  end.
Fixpoint net_set_match {A} `{AddrOps A} (h : Z) (x : ElemNet A) (l : list (ElemNet A)) : result xorp_exn bool :=
  match l with
  | [] => Ok false
  | r :: l => b <-! net_op h (mod_op (en_mod r)) (en_net x) (en_net r) ;; if b : bool then Ok true else net_set_match h x l
  end.

Definition regex_match (s re : string) : result xorp_exn bool := match regex s re with Some b => Ok b | None => Throw PolicyException end.
Fixpoint setregex (s : string) (res : list string) : result xorp_exn bool :=
  match res with [] => Ok false | re :: res => b <-! regex_match s re ;; if b : bool then Ok true else setregex s res end.
(** [op_head]: up to the first comma, else up to the first blank. *)
Definition str_head (s : string) : string :=
  match split_at "," s with Some (a, _) => a | None => match split_at " " s with Some (a, _) => a | None => s end end.
Fixpoint str_repeat (n : nat) (s acc : string) : string := match n with O => acc | S n => str_repeat n s (acc ++ s)%string end.
Fixpoint prepend_times (n : nat) (p : ASPath) (head : Z) : result xorp_exn ASPath :=
  match n with O => Ok p | S n => p <-! prepend_as p head ;; prepend_times n p head end.
Definition aspath_expand (times : Z) (p : ASPath) : result xorp_exn ASPath :=
  if path_len p =? 0 then Ok p else head <-! aspath_first_asnum p ;; prepend_times (Z.to_nat times) p head.

Definition run_callback (f : callback) (args : list Elem) : result xorp_exn (Elem * bool) :=
  match f, args with
  | f_not, [EBool b] => Ok (fresh (EBool (negb b)))
  | f_head, [EStr s] => Ok (fresh (EStr (str_head s)))
  | f_and, [EBool a; EBool b] => Ok (shared (a && b))
  | f_or, [EBool a; EBool b] => Ok (shared (a || b))
  | f_xor, [EBool a; EBool b] => Ok (shared (xorb a b))
  | (f_eq | f_ne | f_lt | f_gt | f_le | f_ge), [l; r] => b <-! compare_vals f l r ;; Ok (shared b)
  | (f_add | f_sub | f_mul | f_div | f_lshift | f_rshift | f_bit_and | f_bit_or | f_bit_xor), [EInt32 a; EInt32 b] =>
      v <-! math_i32 f a b ;; Ok (fresh (EInt32 v))
  | (f_add | f_sub | f_mul | f_div | f_lshift | f_rshift | f_bit_and | f_bit_or | f_bit_xor), [EU32 a; EU32 b] =>
      v <-! math_u32 f a b ;; Ok (fresh (EU32 v))
  | (f_eq_nv | f_ne_nv | f_lt_nv | f_gt_nv | f_le_nv | f_ge_nv | f_eq_sw | f_ne_sw | f_lt_sw | f_gt_sw | f_le_sw | f_ge_sw), [l; r] =>
      b <-! compare_sets f l r ;; Ok (fresh (EBool b))
  | (f_lt_net | f_gt_net | f_le_net | f_ge_net), [EIPv4Net a; EIPv4Net b] => Ok (shared (net_rel f (en_net a) (en_net b)))
  | (f_lt_net | f_gt_net | f_le_net | f_ge_net), [EIPv6Net a; EIPv6Net b] => Ok (shared (net_rel f (en_net a) (en_net b)))
  | f_set_add, [ESetU32 a; EU32 x] => Ok (fresh (ESetU32 (set_add Z.ltb x (set_add_all Z.ltb a []))))
  | f_set_add, [ESetCom32 a; ECom32 x] => Ok (fresh (ESetCom32 (set_add Z.ltb x (set_add_all Z.ltb a []))))
  | f_set_add, [ESetU32 a; ESetU32 b] => Ok (fresh (ESetU32 (set_union Z.ltb a b)))
  | f_set_add, [ESetCom32 a; ESetCom32 b] => Ok (fresh (ESetCom32 (set_union Z.ltb a b)))
  | f_set_del, [ESetU32 a; ESetU32 b] => Ok (fresh (ESetU32 (set_erase Z.ltb a b)))
  | f_set_del, [ESetCom32 a; ESetCom32 b] => Ok (fresh (ESetCom32 (set_erase Z.ltb a b)))
  | f_set_ne_int, ([ESetU32 a; ESetU32 b] | [ESetCom32 a; ESetCom32 b]) => Ok (fresh (EBool (nonempty_intersection Z.ltb a b)))
  | f_str_add, [EStr a; EStr b] => Ok (fresh (EStr (a ++ b)))
  | f_str_mul, [EStr a; EU32 n] => Ok (fresh (EStr (str_repeat (Z.to_nat n) a "")))
  | f_ctr, [EStr key; e] => e <-! elem_create key (Some (elem_str e)) ;; Ok (fresh e)
  | f_str_regex, [EStr a; EStr re] => b <-! regex_match a re ;; Ok (fresh (EBool b))
  | f_str_setregex, [EStr a; ESetStr res] => b <-! setregex a res ;; Ok (fresh (EBool b))
  | f_aspath_prepend, [EU32 n; EASPath p] => p <-! prepend_as p n ;; Ok (fresh (EASPath p))
  | f_aspath_expand, [EU32 n; EASPath p] => p <-! aspath_expand n p ;; Ok (fresh (EASPath p))
  | f_aspath_contains, [EASPath p; EU32 n] => Ok (fresh (EBool (aspath_contains p n)))
  | f_aspath_regex, [EASPath p; EStr re] => b <-! regex_match (aspath_short_text p) re ;; Ok (fresh (EBool b))
  | f_aspath_setregex, [EASPath p; ESetStr res] => b <-! setregex (aspath_short_text p) res ;; Ok (fresh (EBool b))
  | f_net_set_match, [EIPv4Net x; ESetIPv4Net l] => b <-! net_set_match H.ipv4net x l ;; Ok (shared b)
  | f_net_set_match, [EIPv6Net x; ESetIPv6Net l] => b <-! net_set_match H.ipv6net x l ;; Ok (shared b)
  | _, _ => Throw OutOfBounds
  end.

(** [Dispatcher::run]; the operands are given from the left, the program's array holds them from the right. *)
Definition disp_run (o : Oper) (args : list Elem) : result xorp_exn (Elem * bool) :=
  if negb (oper_arity o =? length args)%nat then Throw AssertFailed
  else if existsb is_null args then Ok (fresh ENull)
  else
    match o, args with
    | OpCtr, [l; r] =>
        match l with EStr key => e <-! elem_create key (Some (elem_str r)) ;; Ok (fresh e) | _ => Throw PolicyException end
    | _, _ =>
        let key := makeKey o (map elem_hash args) in
        if negb (key <? DISPATCHER_MAP_SZ) then Throw AssertFailed
        else match map_at key dispatch_map with None => Throw AssertFailed | Some f => run_callback f args end
    end.
End Callbacks.
