(* ===== verification/PolicyExec.v ===== *)
(** * The virtual machine of policies (policy/backend/iv_exec.cc, policy/common/varrw.cc, policy/test_varrw.cc)

    [IvExec] runs the instructions of a filter on a stack of 128 elements.  The attributes of
    the route are behind [VarRW], a class here as in the program; its instance [TestVarRW], a
    map, is here, and [SingleVarRW] in PolicyVar.v.  Subroutines call each other by name, so
    that the machine carries fuel for the depth of calls.  The log of a trace is not kept. *)

From Stdlib Require Import ZArith Lia String.
From stdpp Require Import base tactics option numbers list gmap strings.
From S2P Require Import Prelude Word32 Addr IPv4 IPv6 IPNet AsPath PolicyElem PolicyOps.
Local Open Scope Z_scope.
Local Open Scope xorp_scope.

(** ** Variables (policy/common/varrw.hh) *)
Definition VAR_TRACE : Z := 0.
Definition VAR_POLICYTAGS : Z := 1.
Definition VAR_TAG : Z := 5.
Definition VAR_MAX : Z := 32.

Class VarRW (V : Type) := {
  vr_read : Z -> V -> result xorp_exn (V * Elem);
  vr_write : Z -> Elem -> V -> result xorp_exn V;
  vr_sync : V -> result xorp_exn V }.

(** [TestVarRW] *)
Definition TestVarRW : Type := gmap Z Elem.
#[global] Instance test_varrw : VarRW TestVarRW := {
  vr_read id v := match v !! id with Some e => Ok (v, e) | None => Throw PolicyException end;
  vr_write id e v := Ok (<[id := e]> v);
  vr_sync v := Ok v }.

(** ** Instructions (policy/backend/instruction.hh, term_instr.hh, policy_instr.hh) *)
Inductive Flow := FLOW_TERM | FLOW_POLICY.
#[global] Instance Flow_eq_dec : EqDecision Flow.
Proof. solve_decision. Defined.
Inductive Instr :=
  | Push (e : Elem)
  | PushSet (setid : string)
  | OnFalseExit
  | Load (id : Z)
  | Store (id : Z)
  | Accept
  | Reject
  | Next (f : Flow)
  | Subr (target : string)
  | NaryInstr (op : Oper).
#[global] Instance Instr_eq_dec : EqDecision Instr.
Proof. solve_decision. Defined.
Record TermInstr := mkTermInstr { ti_name : string; ti_instrs : list Instr }.
Record PolicyInstr := mkPolicyInstr { pi_name : string; pi_terms : list TermInstr; pi_trace : bool }.
#[global] Instance TermInstr_eq_dec : EqDecision TermInstr.
Proof. solve_decision. Defined.
#[global] Instance PolicyInstr_eq_dec : EqDecision PolicyInstr.
Proof. solve_decision. Defined.
Definition SUBR : Type := gmap string PolicyInstr.

(** ** The machine *)
Inductive FlowAction := FA_ACCEPT | FA_REJ | FA_DEFAULT.
#[global] Instance FlowAction_eq_dec : EqDecision FlowAction.
Proof. solve_decision. Defined.

Section IvExec.
Context `{HostOrder, AddrText} (regex : string -> string -> option bool).
Context {V : Type} `{VarRW V}.
(** [SetManager::getSet] and the subroutines of the filter *)
Context (get_set : string -> option Elem) (subrs : SUBR).

(** The stack from its top down to [_stack_bottom]; [x_frame] is the number of elements below [_stack]. *)
Record IvExec := mkExec {
  x_stack : list Elem;
  x_frame : nat;
  x_trashc : nat;
  x_finished : bool;
  x_fa : FlowAction;
  x_flow : Flow;
  x_trace : Z;       (* [VarRW::_trace] *)
  x_vars : V }.
Implicit Types (x : IvExec).

Definition STACK_SIZE : nat := 128.
Definition TRASH_SIZE : nat := 2000.
Definition set_stack (st : list Elem) x : IvExec := mkExec st (x_frame x) (x_trashc x) (x_finished x) (x_fa x) (x_flow x) (x_trace x) (x_vars x).
Definition set_frame (n : nat) x : IvExec := mkExec (x_stack x) n (x_trashc x) (x_finished x) (x_fa x) (x_flow x) (x_trace x) (x_vars x).
Definition set_finished (b : bool) (fa : FlowAction) x : IvExec := mkExec (x_stack x) (x_frame x) (x_trashc x) b fa (x_flow x) (x_trace x) (x_vars x).
Definition set_flow (f : Flow) x : IvExec := mkExec (x_stack x) (x_frame x) (x_trashc x) (x_finished x) (x_fa x) f (x_trace x) (x_vars x).
Definition set_vars (v : V) x : IvExec := mkExec (x_stack x) (x_frame x) (x_trashc x) (x_finished x) (x_fa x) (x_flow x) (x_trace x) v.
Definition set_trace (t : Z) x : IvExec := mkExec (x_stack x) (x_frame x) (x_trashc x) (x_finished x) (x_fa x) (x_flow x) t (x_vars x).
Definition set_trashc (n : nat) x : IvExec := mkExec (x_stack x) (x_frame x) n (x_finished x) (x_fa x) (x_flow x) (x_trace x) (x_vars x).

(** [_stackptr++], the assertion that the stack has room, and the store *)
Definition push_elem (e : Elem) x : result xorp_exn IvExec :=
  if (length (x_stack x) <? STACK_SIZE)%nat then Ok (set_stack (e :: x_stack x) x) else Throw AssertFailed.
(** A new element is deleted at the end of the run. *)
Definition trash_elem x : result xorp_exn IvExec :=
  if (S (x_trashc x) <? TRASH_SIZE)%nat then Ok (set_trashc (S (x_trashc x)) x) else Throw AssertFailed.
Definition stack_empty x : bool := (length (x_stack x) <=? x_frame x)%nat.   (* [_stackptr < _stack] *)

(** [VarRW::write_trace] *)
Definition write_trace (id : Z) (e : Elem) x : result xorp_exn IvExec :=
  if id =? VAR_TRACE then match e with EU32 t => Ok (set_trace t x) | _ => Throw AssertFailed end
  else v <-! vr_write id e (x_vars x) ;; Ok (set_vars v x).

Definition exec_onfalse x : result xorp_exn IvExec :=
  if stack_empty x then Throw PolicyException
  else match x_stack x with
       | EBool b :: _ => Ok (if b then x else set_finished true (x_fa x) x)
       | e :: _ => if is_null e then Ok (set_finished true (x_fa x) x) else Throw PolicyException
       | [] => Throw OutOfBounds
       end.
Definition exec_store (id : Z) x : result xorp_exn IvExec :=
  if stack_empty x then Throw PolicyException
  else match x_stack x with
       | [] => Throw OutOfBounds
       | e :: st => let x := set_stack st x in if is_null e then Ok x else write_trace id e x
       end.
Definition exec_nary (op : Oper) x : result xorp_exn IvExec :=
  let arity := oper_arity op in
  if (length (x_stack x) <? x_frame x + arity)%nat then Throw AssertFailed
  else
    r <-! disp_run regex op (take arity (x_stack x)) ;;
    x <-! (if snd r : bool then trash_elem x else Ok x) ;;
    push_elem (fst r) (set_stack (drop arity (x_stack x)) x).

(** An instruction; a subroutine runs by [run_policy]. *)
Definition exec_instr (run_policy : PolicyInstr -> IvExec -> result xorp_exn (IvExec * FlowAction)) (i : Instr) x : result xorp_exn IvExec :=
  match i with
  | Push e => push_elem e x
  | PushSet s => match get_set s with Some e => push_elem e x | None => Throw PolicyException end
  | OnFalseExit => exec_onfalse x
  | Load id => r <-! vr_read id (x_vars x) ;; push_elem (snd r) (set_vars (fst r) x)
  | Store id => exec_store id x
  | Accept => Ok (set_finished true FA_ACCEPT x)
  | Reject => Ok (set_finished true FA_REJ x)
  | Next f => Ok (set_flow f (set_finished true (x_fa x) x))
  | NaryInstr op => exec_nary op x
  | Subr s =>
      match subrs !! s with
      | None => Throw AssertFailed
      | Some pi =>
          r <-! run_policy pi x ;;
          let x' := set_finished (x_finished x) (x_fa x) (fst r) in
          x' <-! push_elem (EBool (match snd r with FA_REJ => false | _ => true end)) x' ;;
          trash_elem x'
      end
  end.
Fixpoint exec_instrs (run_policy : PolicyInstr -> IvExec -> result xorp_exn (IvExec * FlowAction)) (il : list Instr) x : result xorp_exn IvExec :=
  match il with
  | [] => Ok x
  | i :: il => x <-! exec_instr run_policy i x ;; if x_finished x then Ok x else exec_instrs run_policy il x
  end.
(** [IvExec::runTerm]; the stack is cleared down to the frame. *)
Definition clear_frame x : IvExec := set_stack (drop (length (x_stack x) - x_frame x) (x_stack x)) x.
Definition run_term (run_policy : PolicyInstr -> IvExec -> result xorp_exn (IvExec * FlowAction)) (t : TermInstr) x :
    result xorp_exn (IvExec * FlowAction) :=
  x <-! exec_instrs run_policy (ti_instrs t) (clear_frame (set_finished false FA_DEFAULT x)) ;; Ok (x, x_fa x).
Fixpoint run_terms (run_policy : PolicyInstr -> IvExec -> result xorp_exn (IvExec * FlowAction)) (ts : list TermInstr) x :
    result xorp_exn (IvExec * FlowAction) :=
  match ts with
  | [] => Ok (x, FA_DEFAULT)
  | t :: ts =>
      r <-! run_term run_policy t x ;;
      if negb (bool_decide (snd r = FA_DEFAULT)) then Ok r
      else if decide (x_flow (fst r) = FLOW_POLICY) then Ok (fst r, FA_DEFAULT)
      else run_terms run_policy ts (fst r)
  end.
(** [IvExec::runPolicy]: a frame of the stack, and back.  The elements below the frame are not touched. *)
Fixpoint runPolicy (fuel : nat) (pi : PolicyInstr) x : result xorp_exn (IvExec * FlowAction) :=
  if negb (length (x_stack x) <? STACK_SIZE)%nat then Throw AssertFailed
  else
    r <-! run_terms (match fuel with O => fun _ _ => Throw Fatal | S fuel => runPolicy fuel end) (pi_terms pi)
            (set_flow FLOW_TERM (set_frame (length (x_stack x)) x)) ;;
    Ok (set_stack (x_stack x) (set_frame (x_frame x) (fst r)), snd r).

(** [IvExec::run]: the policies from the last to the first, until one decides; [_varrw->sync] *)
Fixpoint run_policies (fuel : nat) (ps : list PolicyInstr) x : result xorp_exn (IvExec * FlowAction) :=
  match ps with
  | [] => Ok (x, FA_DEFAULT)
  | p :: ps =>
      r <-! runPolicy fuel p x ;;
      if negb (bool_decide (snd r = FA_DEFAULT)) then Ok r else run_policies fuel ps (fst r)
  end.
Definition run (fuel : nat) (ps : list PolicyInstr) (trashc : nat) (t : Z) (v : V) : result xorp_exn (Z * V * FlowAction) :=
  r <-! run_policies fuel (rev ps) (mkExec [] 0 trashc false FA_DEFAULT FLOW_TERM t v) ;;
  v <-! vr_sync (x_vars (fst r)) ;;
  Ok (x_trace (fst r), v, snd r).
(** [PolicyFilter::acceptRoute] *)
Definition acceptRoute (fuel : nat) (policies : option (list PolicyInstr)) (t : Z) (v : V) : result xorp_exn (V * bool) :=
  match policies with
  | None => v <-! vr_sync v ;; Ok (v, true)
  | Some ps => r <-! run fuel ps 0 t v ;; Ok (snd (fst r), match snd r with FA_REJ => false | _ => true end)
  end.
End IvExec.
