(* ===== verification/PolicyCode.v ===== *)
(** * Policies and the code made of them (policy/node.hh, term.cc, policy_statement.cc, var_map.cc, code_generator.cc,
      filter_manager.cc, policy/backend/backend.ll, backend.yy, policy_filter.cc)

    The policy manager keeps policies as trees and sends them to the routing processes as a
    text, one instruction per line; the process reads the text with a scanner and a grammar.
    [CodeGenerator] writes the code of import policies; [FilterManager::update_queue] adds
    the sets and the subroutines. *)

From Stdlib Require Import ZArith Lia String Ascii.
From stdpp Require Import base tactics option numbers list gmap strings.
From S2P Require Import Prelude Word32 Addr IPv4 IPv6 IPNet AsPath OMap PolicyElem PolicyOps PolicyExec.
Local Open Scope Z_scope.
Local Open Scope xorp_scope.

(** ** Trees (policy/node.hh) *)
Inductive Node :=
  | NodeUn (op : Oper) (n : Node)
  | NodeBin (op : Oper) (l r : Node)
  | NodeAssign (varid : string) (md : option Oper) (rvalue : Node)
  | NodeVar (v : string)
  | NodeSet (setid : string)
  | NodeElem (e : Elem)
  | NodeAccept
  | NodeReject
  | NodeProto (proto : string)
  | NodeNext (f : Flow)
  | NodeSubr (policy : string).
Definition is_accept_or_reject (n : Node) : bool := match n with NodeAccept | NodeReject => true | _ => false end.
(** The statements of a term are in the order of their configuration nodes. *)
Record Term := mkTerm { t_name : string; t_source : list Node; t_dest : list Node; t_action : list Node }.
Record PolicyStatement := mkPolicy { p_name : string; p_terms : list Term }.
Definition PolicyMap : Type := gmap string PolicyStatement.
Definition pmap_find (pm : PolicyMap) (name : string) : result xorp_exn PolicyStatement :=
  match pm !! name with Some p => Ok p | None => Throw PolicyException end.

(** ** Variables of the protocols (policy/var_map.cc) *)
Inductive Access := READ | READ_WRITE | WRITE.
#[global] Instance Access_eq_dec : EqDecision Access.
Proof. solve_decision. Defined.
Record Variable_ := mkVariable { v_access : Access; v_name : string; v_type : string; v_id : Z }.
#[global] Instance Variable_eq_dec : EqDecision Variable_.
Proof. solve_decision. Defined.
Definition writable (v : Variable_) : bool := negb (bool_decide (v_access v = READ)).
Record VarMap := mkVarMap { vm_protocols : gmap string (list (Z * Variable_)); vm_metavars : list (Z * Variable_) }.
Definition vm_new : VarMap :=
  mkVarMap ∅ (m_insert VAR_TAG (mkVariable READ_WRITE "tag" "u32" VAR_TAG) (m_insert VAR_TRACE (mkVariable WRITE "trace" "u32" VAR_TRACE) [])).
Definition add_variable (v : Variable_) (vm : list (Z * Variable_)) : result xorp_exn (list (Z * Variable_)) :=
  match m_find (v_id v) vm with
  | Some old => if decide (old = v) then Ok vm else Throw PolicyException
  | None => Ok (m_insert (v_id v) v vm)
  end.
Fixpoint add_variables (vs : list (Z * Variable_)) (vm : list (Z * Variable_)) : result xorp_exn (list (Z * Variable_)) :=
  match vs with [] => Ok vm | (_, v) :: vs => vm <-! add_variable v vm ;; add_variables vs vm end.
Definition add_protocol_variable (proto : string) (v : Variable_) (m : VarMap) : result xorp_exn VarMap :=
  if negb (can_create (v_type v)) then Throw PolicyException
  else
    vm <-! (match vm_protocols m !! proto with Some vm => Ok vm | None => add_variables (vm_metavars m) [] end) ;;
    vm <-! add_variable v vm ;; Ok (mkVarMap (<[proto := vm]> (vm_protocols m)) (vm_metavars m)).
Fixpoint find_var (name : string) (vm : list (Z * Variable_)) : option Variable_ :=
  match vm with [] => None | (_, v) :: vm => if decide (v_name v = name) then Some v else find_var name vm end.
Definition var2id (m : VarMap) (proto name : string) : result xorp_exn Z :=
  match vm_protocols m !! proto with
  | None => Throw PolicyException
  | Some vm => match find_var name vm with Some v => Ok (v_id v) | None => Throw PolicyException end
  end.
Definition variable (m : VarMap) (proto : string) (id : Z) : result xorp_exn Variable_ :=
  match vm_protocols m !! proto with
  | None => Throw PolicyException
  | Some vm => match m_find id vm with Some v => Ok v | None => Throw PolicyException end
  end.

(** ** The code generator of import policies *)
Definition nl_char : ascii := "010".
Definition quote_char : ascii := "034".
Definition nl : string := String nl_char EmptyString.
Definition quote : string := String quote_char EmptyString.
#[global] Instance string_key : KeyOrder string := String.ltb.

Section Generator.
Context `{HostOrder, AddrText} (vm : VarMap) (pm : PolicyMap) (protocol : string).
Local Open Scope string_scope.

(** [_os], and of [_code] the code, the subroutines and the names of the sets *)
Record CodeGenerator := mkGen { cg_os : string; cg_code : string; cg_subr : list (string * string); cg_sets : list string }.
Implicit Types (g : CodeGenerator).
Definition gen_new : CodeGenerator := mkGen "" "" [] [].
Definition put_os (s : string) g : CodeGenerator := mkGen s (cg_code g) (cg_subr g) (cg_sets g).
Definition emit (line : string) g : CodeGenerator := put_os (cg_os g ++ line ++ nl) g.
Definition flow_str (f : Flow) : string := match f with FLOW_POLICY => "POLICY" | FLOW_TERM => "TERM" end.

Fixpoint gen_node (subr : string -> CodeGenerator -> result xorp_exn CodeGenerator) (n : Node) g : result xorp_exn CodeGenerator :=
  match n with
  | NodeUn op n => g <-! gen_node subr n g ;; Ok (emit (oper_str op) g)
  | NodeBin op l r => g <-! gen_node subr r g ;; g <-! gen_node subr l g ;; Ok (emit (oper_str op) g)
  | NodeAssign v md rvalue =>
      g <-! gen_node subr rvalue g ;;
      id <-! var2id vm protocol v ;;
      let g := match md with Some op => emit (oper_str op) (emit ("LOAD " ++ dec_str id) g) | None => g end in
      Ok (emit ("STORE " ++ dec_str id) g)
  | NodeVar v => id <-! var2id vm protocol v ;; Ok (emit ("LOAD " ++ dec_str id) g)
  | NodeSet s => let g := emit ("PUSH_SET " ++ s) g in Ok (mkGen (cg_os g) (cg_code g) (cg_subr g) (set_add String.ltb s (cg_sets g)))
  | NodeElem e => Ok (emit ("PUSH " ++ elem_type e ++ " " ++ quote ++ elem_str e ++ quote) g)
  | NodeAccept => Ok (emit "ACCEPT" g)
  | NodeReject => Ok (emit "REJECT" g)
  | NodeProto _ => Throw PolicyException
  | NodeNext f => Ok (emit ("NEXT " ++ flow_str f) g)
  | NodeSubr s =>
      let tmp := cg_os g in
      g <-! subr s (put_os "" g) ;;
      Ok (emit ("POLICY " ++ s) (put_os tmp (mkGen (cg_os g) (cg_code g) (m_insert s (cg_code g) (cg_subr g)) (cg_sets g))))
  end.
Fixpoint gen_nodes (subr : string -> CodeGenerator -> result xorp_exn CodeGenerator) (after : string) (ns : list Node) g : result xorp_exn CodeGenerator :=
  match ns with
  | [] => Ok g
  | n :: ns => g <-! gen_node subr n g ;; gen_nodes subr after ns (if decide (after = "") then g else emit after g)
  end.
(** [CodeGenerator::visit_term]: the accepting and rejecting statements come last. *)
Definition gen_term (subr : string -> CodeGenerator -> result xorp_exn CodeGenerator) (t : Term) g : result xorp_exn CodeGenerator :=
  let g := emit ("TERM_START " ++ t_name t) g in
  g <-! gen_nodes subr "ONFALSE_EXIT" (t_source t) g ;;
  match t_dest t with
  | _ :: _ => Throw PolicyException
  | [] =>
      g <-! gen_nodes subr "" (List.filter (fun n => negb (is_accept_or_reject n)) (t_action t)) g ;;
      g <-! gen_nodes subr "" (List.filter is_accept_or_reject (t_action t)) g ;;
      Ok (emit "TERM_END" g)
  end.
Fixpoint gen_terms (subr : string -> CodeGenerator -> result xorp_exn CodeGenerator) (ts : list Term) g : result xorp_exn CodeGenerator :=
  match ts with [] => Ok g | t :: ts => g <-! gen_term subr t g ;; gen_terms subr ts g end.
(** [visit_policy]; the fuel is the depth of the calls. *)
Definition gen_policy_with (subr : string -> CodeGenerator -> result xorp_exn CodeGenerator) (ps : PolicyStatement) g : result xorp_exn CodeGenerator :=
  g <-! gen_terms subr (p_terms ps) g ;;
  Ok (mkGen (cg_os g) ("POLICY_START " ++ p_name ps ++ nl ++ cg_os g ++ "POLICY_END" ++ nl) (cg_subr g) (cg_sets g)).
Fixpoint gen_subr (fuel : nat) (name : string) g : result xorp_exn CodeGenerator :=
  match fuel with
  | O => Throw Fatal
  | S fuel => ps <-! pmap_find pm name ;; gen_policy_with (gen_subr fuel) ps g
  end.
Definition visit_policy (fuel : nat) (ps : PolicyStatement) : result xorp_exn CodeGenerator := gen_policy_with (gen_subr fuel) ps gen_new.
End Generator.

(** ** [FilterManager::update_queue]: the text that is sent *)
Section Conf.
Context `{HostOrder, AddrText} (get_set : string -> result xorp_exn Elem).
Local Open Scope string_scope.
Definition set_line (name : string) (e : Elem) : string := "SET " ++ elem_type e ++ " " ++ name ++ " " ++ quote ++ elem_str e ++ quote ++ nl.
Fixpoint set_lines (names : list string) : result xorp_exn string :=
  match names with [] => Ok "" | n :: names => e <-! get_set n ;; s <-! set_lines names ;; Ok (set_line n e ++ s) end.
Definition subr_lines (subr : list (string * string)) : string :=
  match subr with [] => "" | _ => "SUBR_START" ++ nl ++ foldr (fun p acc => snd p ++ acc) "" subr ++ "SUBR_END" ++ nl end.
Definition filter_conf (g : CodeGenerator) : result xorp_exn string :=
  sets <-! set_lines (cg_sets g) ;; Ok (cg_code g ++ sets ++ subr_lines (cg_subr g)).
End Conf.

(** ** The scanner (policy/backend/backend.ll)

    Outside of quotes, the longest match is a word: up to a blank, a quote or a newline.  A word
    that is a keyword is one.  Between quotes, everything up to the next quote is an argument,
    and nothing is none. *)
Inductive token := KW (s : string) | ARG (s : string) | NL.
#[global] Instance token_eq_dec : EqDecision token.
Proof. solve_decision. Defined.
Definition keywords : list string :=
  ["POLICY_START"; "POLICY_END"; "TERM_START"; "TERM_END"; "SET"; "PUSH"; "PUSH_SET"; "REGEX"; "LOAD"; "STORE"; "ACCEPT"; "REJECT"; "NOT"; "AND"; "XOR"; "OR";
   "HEAD"; "CTR"; "ONFALSE_EXIT"; "NON_EMPTY_INTERSECTION"; "NEXT"; "POLICY"; "TERM"; "SUBR_START"; "SUBR_END"; "<<"; ">>"; "=="; "!="; "<"; ">"; "<="; ">=";
   "+"; "-"; "*"; "/"; "&"; "|"; "^"]%string.
Definition is_keyword (s : string) : bool := existsb (fun k => bool_decide (k = s)) keywords.
Definition word_token (w : string) : list token :=
  match w with EmptyString => [] | _ => [if is_keyword w then KW w else ARG w] end.
Definition arg_token (w : string) : list token := match w with EmptyString => [] | _ => [ARG w] end.
Definition is_blank (c : ascii) : bool := bool_decide (c = " "%char \/ c = "009"%char).
Fixpoint scan (quoted : bool) (w s : string) : list token :=
  match s with
  | EmptyString => if quoted then arg_token w else word_token w
  | String c s =>
      if quoted then if decide (c = quote_char) then arg_token w ++ scan false "" s else scan true (w ++ String c "") s
      else if decide (c = quote_char) then word_token w ++ scan true "" s
      else if decide (c = nl_char) then word_token w ++ NL :: scan false "" s
      else if is_blank c then word_token w ++ scan false "" s
      else scan false (w ++ String c "") s
  end.
(** The lines of tokens; the grammar has a newline at the end of every production, and nowhere else. *)
Fixpoint token_lines (ts : list token) (line : list token) : option (list (list token)) :=
  match ts with
  | [] => match line with [] => Some [] | _ => None end
  | NL :: ts => match token_lines ts [] with Some ls => Some (line :: ls) | None => None end
  | t :: ts => token_lines ts (line ++ [t])
  end.

(** ** The grammar (policy/backend/backend.yy) *)
Section Parser.
Context `{HostOrder, AddrText}.
Definition oper_of_str (s : string) : option Oper :=
  find (fun o => bool_decide (oper_str o = s)) [OpAnd; OpOr; OpXor; OpNot; OpEq; OpNe; OpLt; OpGt; OpLe; OpGe; OpAdd; OpSub; OpMul; OpDiv; OpLShift; OpRShift;
    OpBitAnd; OpBitOr; OpBitXor; OpRegex; OpCtr; OpNEInt; OpHead].
(** [strtoul] whose end is the end of the string *)
Fixpoint all_dec (s : string) : bool := match s with EmptyString => true | String c s => match digit_in 10 c with Some _ => all_dec s | None => false end end.
Definition parse_id (s : string) : result xorp_exn Z :=
  let '(_, r) := read_sign (skip_space s) in
  match r with EmptyString => Throw PolicyException | _ => if all_dec r then Ok (s32 (c_strtoul 10 s)) else Throw PolicyException end.
Definition parse_statement (line : list token) : result xorp_exn Instr :=
  match line with
  | [KW "PUSH"; ARG ty; ARG v] => e <-! elem_create ty (Some v) ;; Ok (Push e)
  | [KW "PUSH_SET"; ARG s] => Ok (PushSet s)
  | [KW "ONFALSE_EXIT"] => Ok OnFalseExit
  | [KW "LOAD"; ARG s] => id <-! parse_id s ;; Ok (Load id)
  | [KW "STORE"; ARG s] => id <-! parse_id s ;; Ok (Store id)
  | [KW "ACCEPT"] => Ok Accept
  | [KW "REJECT"] => Ok Reject
  | [KW "NEXT"; KW "POLICY"] => Ok (Next FLOW_POLICY)
  | [KW "NEXT"; KW "TERM"] => Ok (Next FLOW_TERM)
  | [KW "POLICY"; ARG s] => Ok (Subr s)
  | [KW s] => match oper_of_str s with Some o => Ok (NaryInstr o) | None => Throw PolicyException end
  | _ => Throw PolicyException
  end.

(** Where the parser is: between policies, in a policy and in a term; and whether in the subroutines *)
Inductive place :=
  | AtTop
  | AtSubr
  | InPolicy (sub : bool) (name : string) (terms : list TermInstr)
  | InTerm (sub : bool) (name : string) (terms : list TermInstr) (term : string) (instrs : list Instr).
Record Parse := mkParse { pa_policies : list PolicyInstr; pa_sets : gmap string Elem; pa_subr : SUBR; pa_trace : bool; pa_place : place }.
Definition parse_new : Parse := mkParse [] ∅ ∅ false AtTop.
Definition go_to (pl : place) (p : Parse) : Parse := mkParse (pa_policies p) (pa_sets p) (pa_subr p) (pa_trace p) pl.
Definition end_policy (sub : bool) (name : string) (terms : list TermInstr) (p : Parse) : Parse :=
  let pi := mkPolicyInstr name terms (pa_trace p) in
  if sub then mkParse (pa_policies p) (pa_sets p) (<[name := pi]> (pa_subr p)) false AtSubr
  else mkParse (pa_policies p ++ [pi]) (pa_sets p) (pa_subr p) false AtTop.
Definition parse_line (line : list token) (p : Parse) : result xorp_exn Parse :=
  match pa_place p, line with
  | AtTop, [KW "SET"; ARG ty; ARG name; ARG v] =>
      e <-! elem_create ty (Some v) ;; Ok (mkParse (pa_policies p) (<[name := e]> (pa_sets p)) (pa_subr p) (pa_trace p) AtTop)
  | AtTop, [KW "SUBR_START"] => Ok (go_to AtSubr p)
  | AtSubr, [KW "SUBR_END"] => Ok (go_to AtTop p)
  | AtTop, [KW "POLICY_START"; ARG name] => Ok (go_to (InPolicy false name []) p)
  | AtSubr, [KW "POLICY_START"; ARG name] => Ok (go_to (InPolicy true name []) p)
  | InPolicy sub name ts, [KW "TERM_START"; ARG t] => Ok (go_to (InTerm sub name ts t []) p)
  | InPolicy sub name ts, [KW "POLICY_END"] => Ok (end_policy sub name ts p)
  | InTerm sub name ts t is_, [KW "TERM_END"] => Ok (go_to (InPolicy sub name (ts ++ [mkTermInstr t is_])) p)
  | InTerm sub name ts t is_, _ =>
      i <-! parse_statement line ;;
      let tr := pa_trace p || bool_decide (i = Store VAR_TRACE) in
      Ok (mkParse (pa_policies p) (pa_sets p) (pa_subr p) tr (InTerm sub name ts t (is_ ++ [i])))
  | _, _ => Throw PolicyException
  end.
Fixpoint parse_lines (ls : list (list token)) (p : Parse) : result xorp_exn Parse :=
  match ls with [] => Ok p | l :: ls => p <-! parse_line l p ;; parse_lines ls p end.
(** [policy_backend_parse], from [PolicyFilter::configure], which turns a syntax error into an exception *)
Definition policy_backend_parse (conf : string) : result xorp_exn (list PolicyInstr * gmap string Elem * SUBR) :=
  match token_lines (scan false "" conf) [] with
  | None => Throw PolicyException
  | Some ls =>
      p <-! parse_lines ls parse_new ;;
      match pa_place p with AtTop => Ok (pa_policies p, pa_sets p, pa_subr p) | _ => Throw PolicyException end
  end.
End Parser.
