(* ===== verification/PolicyVisit.v ===== *)
(** * The semantic check and the test run of policies (policy/visitor_semantic.cc, semantic_varrw.cc, visitor_test.cc)

    Two visitors walk over the tree of a policy.  [VisitorSemantic] checks it before code is
    made: it runs every operation on dummy elements of the types of the variables.
    [VisitorTest] runs the policy itself on the attributes of a route, without code. *)

From Stdlib Require Import ZArith Lia String.
From stdpp Require Import base tactics option numbers list gmap strings.
From S2P Require Import Prelude Word32 Addr IPv4 IPv6 IPNet AsPath OMap PolicyElem PolicyOps PolicyExec PolicyCode.
Local Open Scope Z_scope.
Local Open Scope xorp_scope.

(** A node may be a statement, which has no value; the visitors dereference its null pointer. *)
Definition deref_elem (e : option Elem) : result xorp_exn Elem := match e with Some e => Ok e | None => Throw OutOfBounds end.

Section Test.
Context `{HostOrder, AddrText} (regex : string -> string -> option bool).
Context (get_set : string -> option Elem) (pm : PolicyMap) (vm : VarMap).
Context {V : Type} `{VarRW V}.
(** [_protocol], the protocol of the route *)
Context (protocol : string).

(** [VisitorTest]; the outcome is a [FlowAction].  [_mod] keeps the texts of what was written. *)
Record VisitorTest := mkTest {
  vt_vars : V;
  vt_current : string;
  vt_finished : bool;
  vt_outcome : FlowAction;
  vt_flow : Flow;
  vt_mod : gmap string string }.
Implicit Types (t : VisitorTest).
Definition vt_set_vars (v : V) t : VisitorTest := mkTest v (vt_current t) (vt_finished t) (vt_outcome t) (vt_flow t) (vt_mod t).
Definition change_protocol (p : string) t : VisitorTest := mkTest (vt_vars t) p (vt_finished t) (vt_outcome t) (vt_flow t) (vt_mod t).
Definition vt_finish (fin : bool) (o : FlowAction) (f : Flow) t : VisitorTest := mkTest (vt_vars t) (vt_current t) fin o f (vt_mod t).

Definition var2variable (t : VisitorTest) (var : string) : result xorp_exn Variable_ :=
  let p := if decide (vt_current t = "" /\ (var = "network4" \/ var = "network6"))%string then "bgp"%string else vt_current t in
  if decide (p = "")%string then Throw PolicyException
  else id <-! var2id vm p var ;; variable vm p id.
Definition vt_read (name : string) t : result xorp_exn (VisitorTest * Elem) :=
  v <-! var2variable t name ;; r <-! vr_read (v_id v) (vt_vars t) ;; Ok (vt_set_vars (fst r) t, snd r).
Definition vt_write (name : string) (e : Elem) t : result xorp_exn VisitorTest :=
  v <-! var2variable t name ;;
  if negb (writable v) then Throw PolicyException
  else if negb (bool_decide (v_type v = elem_type e)) then Throw PolicyException
  else
    vars <-! vr_write (v_id v) e (vt_vars t) ;;
    Ok (mkTest vars (vt_current t) (vt_finished t) (vt_outcome t) (vt_flow t) (<[name := elem_str e]> (vt_mod t))).

Fixpoint test_node (subr : string -> VisitorTest -> result xorp_exn VisitorTest) (n : Node) t : result xorp_exn (VisitorTest * option Elem) :=
  match n with
  | NodeUn op n =>
      r <-! test_node subr n t ;; e <-! deref_elem (snd r) ;;
      x <-! disp_run regex op [e] ;; Ok (fst r, Some (fst x))
  | NodeBin op l r =>
      a <-! test_node subr l t ;; b <-! test_node subr r (fst a) ;;
      ea <-! deref_elem (snd a) ;; eb <-! deref_elem (snd b) ;;
      x <-! disp_run regex op [ea; eb] ;; Ok (fst b, Some (fst x))
  | NodeAssign v md rvalue =>
      r <-! test_node subr rvalue t ;;
      x <-! (match md with
             | None => Ok r
             | Some op =>
                 l <-! vt_read v (fst r) ;; er <-! deref_elem (snd r) ;;
                 x <-! disp_run regex op [snd l; er] ;; Ok (fst l, Some (fst x))
             end) ;;
      e <-! deref_elem (snd x) ;;
      t <-! vt_write v e (fst x) ;; Ok (t, None)
  | NodeVar v => r <-! vt_read v t ;; Ok (fst r, Some (snd r))
  | NodeSet s => match get_set s with Some e => Ok (t, Some e) | None => Throw PolicyException end
  | NodeElem e => Ok (t, Some e)
  | NodeAccept => Ok (vt_finish true FA_ACCEPT (vt_flow t) t, None)
  | NodeReject => Ok (vt_finish true FA_REJ (vt_flow t) t, None)
  | NodeProto p => Ok (change_protocol p t, None)
  | NodeNext f => Ok (vt_finish true (vt_outcome t) f t, None)
  | NodeSubr s =>
      t' <-! subr s t ;;
      Ok (vt_finish (vt_finished t) (vt_outcome t) (vt_flow t) t', Some (EBool (negb (bool_decide (vt_outcome t' = FA_REJ)))))
  end.
(** [match]: a statement matches; a value has to be a boolean. *)
Definition vt_match (e : option Elem) : result xorp_exn bool :=
  match e with None => Ok true | Some (EBool b) => Ok b | Some _ => Throw AssertFailed end.
(** The statements of a block of conditions: whether all match before one finishes the term. *)
Fixpoint test_match (subr : string -> VisitorTest -> result xorp_exn VisitorTest) (ns : list Node) t : result xorp_exn (VisitorTest * bool) :=
  match ns with
  | [] => Ok (t, true)
  | n :: ns =>
      r <-! test_node subr n t ;;
      if vt_finished (fst r) then Ok (fst r, false)
      else b <-! vt_match (snd r) ;; if b : bool then test_match subr ns (fst r) else Ok (fst r, false)
  end.
Fixpoint test_actions (subr : string -> VisitorTest -> result xorp_exn VisitorTest) (ns : list Node) t : result xorp_exn VisitorTest :=
  match ns with
  | [] => Ok t
  | n :: ns => r <-! test_node subr n t ;; if vt_finished (fst r) then Ok (fst r) else test_actions subr ns (fst r)
  end.
Definition test_term (subr : string -> VisitorTest -> result xorp_exn VisitorTest) (tm : Term) t : result xorp_exn VisitorTest :=
  let t := change_protocol protocol (vt_finish false (vt_outcome t) FLOW_TERM t) in
  r <-! test_match subr (t_source tm) t ;;
  if negb (snd r) then Ok (fst r)
  else
    r <-! test_match subr (t_dest tm) (change_protocol protocol (fst r)) ;;
    if negb (snd r) then Ok (fst r) else test_actions subr (t_action tm) (fst r).
Fixpoint test_terms (subr : string -> VisitorTest -> result xorp_exn VisitorTest) (ts : list Term) t : result xorp_exn VisitorTest :=
  match ts with
  | [] => Ok t
  | tm :: ts =>
      t <-! test_term subr tm t ;;
      if negb (bool_decide (vt_outcome t = FA_DEFAULT)) then Ok t
      else if vt_finished t && bool_decide (vt_flow t = FLOW_POLICY) then Ok t
      else test_terms subr ts t
  end.
(** [do_policy_statement]; the fuel is the depth of the calls. *)
Definition test_policy_with (subr : string -> VisitorTest -> result xorp_exn VisitorTest) (ps : PolicyStatement) t : result xorp_exn VisitorTest :=
  test_terms subr (p_terms ps) (vt_finish (vt_finished t) FA_DEFAULT (vt_flow t) t).
Fixpoint test_subr (fuel : nat) (name : string) t : result xorp_exn VisitorTest :=
  match fuel with
  | O => Throw Fatal
  | S fuel => ps <-! pmap_find pm name ;; test_policy_with (test_subr fuel) ps t
  end.
Definition test_new (v : V) : VisitorTest := mkTest v protocol false FA_DEFAULT FLOW_TERM ∅.
Definition test_policy (fuel : nat) (ps : PolicyStatement) (v : V) : result xorp_exn VisitorTest := test_policy_with (test_subr fuel) ps (test_new v).
Definition vt_accepted (t : VisitorTest) : bool := negb (bool_decide (vt_outcome t = FA_REJ)).
End Test.

(** ** [VisitorSemantic] and [SemanticVarRW] *)
Section Semantic.
Context `{HostOrder, AddrText} (regex : string -> string -> option bool).
Context (get_set : string -> option Elem) (pm : PolicyMap) (vm : VarMap).
Inductive PolicyType := PT_IMPORT | PT_EXPORT.
Context (protocol : string) (ptype : PolicyType).

(** [_semantic_protocol] with the protocol of the variables, [_current_protocol], [_reject] and the sets *)
Record VisitorSemantic := mkSem { vs_semantic : string; vs_current : string; vs_reject : bool; vs_sets : list string }.
Implicit Types (s : VisitorSemantic).
Definition sem_new : VisitorSemantic := mkSem "" "" false [].
Definition sem_protocol (p : string) s : VisitorSemantic := mkSem p (vs_current s) (vs_reject s) (vs_sets s).
Definition sem_read (id : Z) s : result xorp_exn Elem :=
  v <-! variable vm (vs_semantic s) id ;; elem_create (v_type v) None.
Definition sem_write (id : Z) (e : Elem) s : result xorp_exn unit :=
  v <-! variable vm (vs_semantic s) id ;;
  if negb (writable v) then Throw PolicyException
  else if negb (bool_decide (v_type v = elem_type e)) then Throw PolicyException else Ok tt.

Fixpoint sem_node (subr : string -> VisitorSemantic -> result xorp_exn VisitorSemantic) (n : Node) s : result xorp_exn (VisitorSemantic * option Elem) :=
  match n with
  | NodeUn op n =>
      r <-! sem_node subr n s ;; e <-! deref_elem (snd r) ;;
      x <-! disp_run regex op [e] ;; Ok (fst r, Some (fst x))
  | NodeBin op l r =>
      a <-! sem_node subr l s ;; b <-! sem_node subr r (fst a) ;;
      ea <-! deref_elem (snd a) ;; eb <-! deref_elem (snd b) ;;
      x <-! disp_run regex op [ea; eb] ;; Ok (fst b, Some (fst x))
  | NodeAssign v md rvalue =>
      r <-! sem_node subr rvalue s ;;
      id <-! var2id vm (vs_semantic (fst r)) v ;;
      x <-! (match md with
             | None => Ok (snd r)
             | Some op =>
                 l <-! sem_read id (fst r) ;; er <-! deref_elem (snd r) ;;
                 x <-! disp_run regex op [l; er] ;; Ok (Some (fst x))
             end) ;;
      e <-! deref_elem x ;; _ <-! sem_write id e (fst r) ;; Ok (fst r, None)
  | NodeVar v => id <-! var2id vm (vs_semantic s) v ;; e <-! sem_read id s ;; Ok (s, Some e)
  | NodeSet name =>
      match get_set name with
      | Some e => Ok (mkSem (vs_semantic s) (vs_current s) (vs_reject s) (set_add String.ltb name (vs_sets s)), Some e)
      | None => Throw PolicyException
      end
  | NodeElem e => Ok (s, Some e)
  | NodeAccept => Ok (s, None)
  | NodeReject => Ok (mkSem (vs_semantic s) (vs_current s) true (vs_sets s), None)
  | NodeProto p =>
      match ptype with
      | PT_IMPORT => Throw PolicyException
      | PT_EXPORT =>
          if negb (bool_decide (vs_current s = ""%string)) then Throw PolicyException
          else Ok (mkSem p p (vs_reject s) (vs_sets s), None)
      end
  | NodeNext _ => Ok (s, None)
  | NodeSubr name =>
      s' <-! subr name s ;;
      Ok (mkSem protocol (vs_current s') (vs_reject s) (vs_sets s'), Some (EBool (negb (vs_reject s'))))
  end.
Fixpoint sem_nodes (subr : string -> VisitorSemantic -> result xorp_exn VisitorSemantic) (ns : list Node) s : result xorp_exn VisitorSemantic :=
  match ns with [] => Ok s | n :: ns => r <-! sem_node subr n s ;; sem_nodes subr ns (fst r) end.
Definition sem_term (subr : string -> VisitorSemantic -> result xorp_exn VisitorSemantic) (tm : Term) s : result xorp_exn VisitorSemantic :=
  s <-! sem_nodes subr (t_source tm) (mkSem protocol "" (vs_reject s) (vs_sets s)) ;;
  let s := sem_protocol protocol s in
  if bool_decide (vs_current s = ""%string) && (match ptype with PT_EXPORT => true | PT_IMPORT => false end)
     && negb (match t_source tm with [] => true | _ => false end) then Throw PolicyException
  else if (match ptype with PT_IMPORT => true | PT_EXPORT => false end) && negb (match t_dest tm with [] => true | _ => false end) then Throw PolicyException
  else s <-! sem_nodes subr (t_dest tm) s ;; sem_nodes subr (t_action tm) s.
Fixpoint sem_terms (subr : string -> VisitorSemantic -> result xorp_exn VisitorSemantic) (ts : list Term) s : result xorp_exn VisitorSemantic :=
  match ts with [] => Ok s | t :: ts => s <-! sem_term subr t s ;; sem_terms subr ts s end.
Definition sem_policy_with (subr : string -> VisitorSemantic -> result xorp_exn VisitorSemantic) (ps : PolicyStatement) s : result xorp_exn VisitorSemantic :=
  sem_terms subr (p_terms ps) (mkSem (vs_semantic s) (vs_current s) false (vs_sets s)).
Fixpoint sem_subr (fuel : nat) (name : string) s : result xorp_exn VisitorSemantic :=
  match fuel with
  | O => Throw Fatal
  | S fuel => ps <-! pmap_find pm name ;; sem_policy_with (sem_subr fuel) ps s
  end.
Definition sem_policy (fuel : nat) (ps : PolicyStatement) : result xorp_exn VisitorSemantic := sem_policy_with (sem_subr fuel) ps sem_new.
End Semantic.
