(* ===== verification/PolicyRun.v ===== *)
(** * The code of a policy does what the policy says

    [comp_policy] is the list of instructions that the code of a policy stands for.
    [policy_ok] holds of the policies whose test run and whose code agree in the order of what
    they do; [fits] of those that the stack and the trash of the machine have room for.
    Run by the virtual machine, the code of such a policy has the outcome of the test run of
    the policy and leaves the same variables, for every implementation of the variables that
    keeps the laws [VarRWLaws].  The machine evaluates the right operand first: neither may
    write. *)

From Stdlib Require Import ZArith Lia String.
From stdpp Require Import base tactics option numbers list gmap strings.
From S2P Require Import Prelude OMap Word32 Addr IPv4 IPv6 IPNet AsPath PolicyElem PolicyOps PolicyExec PolicyCode.
From S2P Require Import PolicyVisit.
Local Open Scope Z_scope.
Local Open Scope xorp_scope.

(** ** What the machine may assume of variables *)
Class VarRWLaws (V : Type) `{VarRW V} := {
  vr_wf : V -> Prop;
  vr_get : V -> Z -> option Elem;
  vr_dom : Z -> Prop;
  vr_read_ok v id e : vr_wf v -> vr_get v id = Some e -> exists v', vr_read id v = Ok (v', e) /\ vr_wf v' /\ forall i, vr_get v' i = vr_get v i;
  vr_read_none v id : vr_wf v -> vr_get v id = None -> exists x, vr_read id v = Throw x;
  vr_write_ok v id e : vr_wf v -> vr_dom id ->
    exists v', vr_write id e v = Ok v' /\ vr_wf v' /\ forall i, vr_get v' i = if decide (i = id) then Some e else vr_get v i;
  vr_write_dom v id e v' : vr_wf v -> vr_write id e v = Ok v' -> vr_dom id }.

#[global] Program Instance test_varrw_laws : VarRWLaws TestVarRW := {
  vr_wf _ := True; vr_get v id := v !! id; vr_dom _ := True }.
Next Obligation. intros v id e _ Hg. exists v. cbn. by rewrite Hg. Qed.
Next Obligation. intros v id _ Hg. exists PolicyException. cbn. by rewrite Hg. Qed.
Next Obligation.
  intros v id e _ _. exists (<[id := e]> v). split_conj; [done..|]. intros i.
  unfold TestVarRW in *. destruct (decide (i = id)) as [->|Hi]; [apply lookup_insert_eq|by apply lookup_insert_ne].
Qed.
Next Obligation. done. Qed.

(** ** The instructions of a policy *)
Section Compile.
Context (vm : VarMap) (pm : PolicyMap) (protocol : string).

Fixpoint comp_node (n : Node) : result xorp_exn (list Instr) :=
  match n with
  | NodeUn op n => c <-! comp_node n ;; Ok (c ++ [NaryInstr op])
  | NodeBin op l r => cr <-! comp_node r ;; cl <-! comp_node l ;; Ok (cr ++ cl ++ [NaryInstr op])
  | NodeAssign v md rvalue =>
      c <-! comp_node rvalue ;; id <-! var2id vm protocol v ;;
      Ok (c ++ (match md with Some op => [Load id; NaryInstr op] | None => [] end) ++ [Store id])
  | NodeVar v => id <-! var2id vm protocol v ;; Ok [Load id]
  | NodeSet s => Ok [PushSet s]
  | NodeElem e => Ok [Push e]
  | NodeAccept => Ok [Accept]
  | NodeReject => Ok [Reject]
  | NodeProto _ => Throw PolicyException
  | NodeNext f => Ok [Next f]
  | NodeSubr s => Ok [Subr s]
  end.
Fixpoint comp_nodes (after : list Instr) (ns : list Node) : result xorp_exn (list Instr) :=
  match ns with [] => Ok [] | n :: ns => c <-! comp_node n ;; cs <-! comp_nodes after ns ;; Ok (c ++ after ++ cs) end.
Definition comp_term (t : Term) : result xorp_exn TermInstr :=
  src <-! comp_nodes [OnFalseExit] (t_source t) ;;
  match t_dest t with
  | _ :: _ => Throw PolicyException
  | [] =>
      acts <-! comp_nodes [] (List.filter (fun n => negb (is_accept_or_reject n)) (t_action t)) ;;
      ends <-! comp_nodes [] (List.filter is_accept_or_reject (t_action t)) ;;
      Ok (mkTermInstr (t_name t) (src ++ acts ++ ends))
  end.
Fixpoint comp_terms (ts : list Term) : result xorp_exn (list TermInstr) :=
  match ts with [] => Ok [] | t :: ts => i <-! comp_term t ;; l <-! comp_terms ts ;; Ok (i :: l) end.
Definition stores_trace (ts : list TermInstr) : bool := existsb (fun t => existsb (fun i => bool_decide (i = Store VAR_TRACE)) (ti_instrs t)) ts.
Definition comp_policy (ps : PolicyStatement) : result xorp_exn PolicyInstr :=
  ts <-! comp_terms (p_terms ps) ;; Ok (mkPolicyInstr (p_name ps) ts (stores_trace ts)).

(** ** The policies whose order of execution the code keeps

    [writes]: an assignment is reached.  The operands of an operation are evaluated from the right by the code and from the
    left by the test run, so neither may write.  The code accepts and rejects at the end of a term, so nothing may follow.
    A subroutine may not end with [next policy], which the machine does not undo. *)
Definition node_fold {T} (join : T -> T -> T) (leaf : Node -> T) : Node -> T :=
  fix go n := match n with
              | NodeUn _ m => join (leaf n) (go m)
              | NodeBin _ l r => join (leaf n) (join (go l) (go r))
              | NodeAssign _ _ m => join (leaf n) (go m)
              | _ => leaf n
              end.
Definition writes_node (wsub : string -> bool) : Node -> bool :=
  node_fold orb (fun n => match n with NodeAssign _ _ _ => true | NodeSubr s => wsub s | _ => false end).
Definition all_nodes (t : Term) : list Node := t_source t ++ t_dest t ++ t_action t.
Definition writes_policy_with (wsub : string -> bool) (ps : PolicyStatement) : bool :=
  existsb (fun t => existsb (writes_node wsub) (all_nodes t)) (p_terms ps).
Fixpoint writes_subr (fuel : nat) (s : string) : bool :=
  match fuel with
  | O => false
  | S fuel => match pm !! s with Some ps => writes_policy_with (writes_subr fuel) ps | None => false end
  end.

Definition is_expr (n : Node) : bool :=
  match n with NodeUn _ _ | NodeBin _ _ _ | NodeVar _ | NodeSet _ | NodeElem _ | NodeSubr _ => true | _ => false end.
(** [ok s]: the subroutine [s] is one of these policies. *)
Fixpoint expr_ok (ok wsub : string -> bool) (n : Node) : bool :=
  match n with
  | NodeUn op n => (oper_arity op =? 1)%nat && expr_ok ok wsub n
  | NodeBin op l r => (oper_arity op =? 2)%nat && expr_ok ok wsub l && expr_ok ok wsub r && negb (writes_node wsub l) && negb (writes_node wsub r)
  | NodeVar _ | NodeSet _ | NodeElem _ => true
  | NodeSubr s => ok s
  | _ => false
  end.
Definition action_ok (ok wsub : string -> bool) (next_policy : bool) (n : Node) : bool :=
  match n with
  | NodeAssign v md r =>
      expr_ok ok wsub r && match md with Some op => (oper_arity op =? 2)%nat | None => true end
      && match var2id vm protocol v with Ok id => negb (id =? VAR_TRACE) | Throw _ => false end
  | NodeAccept | NodeReject => true
  | NodeNext f => next_policy || bool_decide (f = FLOW_TERM)
  | n => expr_ok ok wsub n
  end.
Fixpoint ends_last (ns : list Node) : bool :=
  match ns with [] => true | n :: ns => if is_accept_or_reject n then forallb is_accept_or_reject ns else ends_last ns end.
Definition term_ok (ok wsub : string -> bool) (next_policy : bool) (t : Term) : bool :=
  forallb (expr_ok ok wsub) (t_source t) && forallb (action_ok ok wsub next_policy) (t_action t) && ends_last (t_action t).
Definition policy_ok_with (ok wsub : string -> bool) (next_policy : bool) (ps : PolicyStatement) : bool :=
  forallb (term_ok ok wsub next_policy) (p_terms ps).
Fixpoint subr_ok (fuel : nat) (s : string) : bool :=
  match fuel with
  | O => false
  | S fuel => match pm !! s with Some ps => policy_ok_with (subr_ok fuel) (writes_subr fuel) false ps | None => false end
  end.
Definition policy_ok (fuel : nat) (ps : PolicyStatement) : bool := policy_ok_with (subr_ok fuel) (writes_subr fuel) true ps.

(** ** The room a policy takes: on the stack, and of new elements *)
Fixpoint depth_node (sub : string -> nat) (n : Node) : nat :=
  match n with
  | NodeUn _ n => depth_node sub n
  | NodeBin _ l r => Nat.max (depth_node sub r) (S (depth_node sub l))
  | NodeAssign _ _ r => Nat.max (depth_node sub r) 2
  | NodeSubr s => Nat.max 1 (sub s)
  | _ => 1
  end.
Fixpoint depth_nodes (sub : string -> nat) (ns : list Node) : nat :=
  match ns with [] => 0 | n :: ns => Nat.max (depth_node sub n) (S (depth_nodes sub ns)) end.
Definition depth_policy_with (sub : string -> nat) (ps : PolicyStatement) : nat :=
  foldr (fun t acc => Nat.max (depth_nodes sub (t_source t ++ t_action t)) acc) 1%nat (p_terms ps).
Fixpoint depth_subr (fuel : nat) (s : string) : nat :=
  match fuel with O => 0 | S fuel => match pm !! s with Some ps => depth_policy_with (depth_subr fuel) ps | None => 0 end end.
Definition trash_node (sub : string -> nat) : Node -> nat :=
  node_fold Nat.add (fun n => match n with
    | NodeUn _ _ | NodeBin _ _ _ | NodeAssign _ (Some _) _ => 1 | NodeSubr s => S (sub s) | _ => 0 end%nat).
Definition trash_nodes (sub : string -> nat) (ns : list Node) : nat := foldr (fun n acc => trash_node sub n + acc)%nat 0%nat ns.
Definition trash_policy_with (sub : string -> nat) (ps : PolicyStatement) : nat :=
  foldr (fun t acc => trash_nodes sub (t_source t ++ t_action t) + acc)%nat 0%nat (p_terms ps).
Fixpoint trash_subr (fuel : nat) (s : string) : nat :=
  match fuel with O => 0 | S fuel => match pm !! s with Some ps => trash_policy_with (trash_subr fuel) ps | None => 0 end end.
Definition fits (fuel : nat) (ps : PolicyStatement) : Prop :=
  (depth_policy_with (depth_subr fuel) ps <= STACK_SIZE)%nat /\ (trash_policy_with (trash_subr fuel) ps < TRASH_SIZE)%nat.
End Compile.

(** The subroutines and sets that a policy refers to *)
Inductive Ref := RSubr (s : string) | RSet (s : string).
Definition refs_node : Node -> list Ref := node_fold (@app Ref) (fun n => match n with NodeSubr s => [RSubr s] | NodeSet s => [RSet s] | _ => [] end).
Definition refs_policy (ps : PolicyStatement) : list Ref := concat (map (fun t => concat (map refs_node (t_source t ++ t_action t))) (p_terms ps)).

(** The first step of a computation that succeeds *)
Ltac bind_ok H E :=
  match type of H with result_bind ?m _ = Ok _ => destruct m eqn:E in H; [cbn [result_bind] in H|discriminate H] end.
Ltac bind_pair H a b E :=
  match type of H with result_bind ?m _ = Ok _ => destruct m as [[a b]|] eqn:E in H; [cbn [result_bind fst snd] in H|discriminate H] end.

(** ** Simulation *)
Section Simulation.
Context `{HO : HostOrder, AT : AddrText} (regex : string -> string -> option bool).
Context {V : Type} `{VR : VarRW V, VL : !VarRWLaws V}.
(** The sets of the policies, and the sets and subroutines of the machine *)
Context (get_set mget : string -> option Elem) (subrs : SUBR) (pm : PolicyMap) (vm : VarMap) (protocol : string).
Abbreviation exec := (@IvExec V).
Abbreviation vtest := (@VisitorTest V).
Implicit Types (x : exec) (t : vtest) (n : Node) (rp : PolicyInstr -> exec -> result xorp_exn (exec * FlowAction)).
Context (protocol_known : protocol <> ""%string).
(** What a policy refers to is there. *)
Definition ref_ok (r : Ref) : Prop := match r with RSubr s => is_Some (subrs !! s) | RSet s => mget s = get_set s end.
(** The variables of the protocol are under their own numbers, and none has the type of a missing value. *)
Definition vars_sane : Prop := forall name id, var2id vm protocol name = Ok id ->
  exists v, variable vm protocol id = Ok v /\ v_id v = id /\ v_type v <> "null"%string.
Context (sane : vars_sane).

Definition sim t x : Prop :=
  vr_wf (vt_vars t) /\ vr_wf (x_vars x) /\ (forall i, vr_get (vt_vars t) i = vr_get (x_vars x) i) /\ vt_current t = protocol.
Definition ctl x := (x_frame x, x_finished x, x_fa x, x_flow x, x_trace x).
Definition vctl t := (vt_finished t, vt_outcome t, vt_flow t).
(** The code [c] takes the machine from [x] to [x'] and goes on. *)
Definition steps rp (c : list Instr) x x' : Prop :=
  forall k, exec_instrs regex mget subrs rp (c ++ k) x = exec_instrs regex mget subrs rp k x'.

Lemma steps_nil rp x : steps rp [] x x.
Proof. by intros k. Qed.
Lemma steps_app rp c1 c2 x1 x2 x3 : steps rp c1 x1 x2 -> steps rp c2 x2 x3 -> steps rp (c1 ++ c2) x1 x3.
Proof. intros H1 H2 k. by rewrite <- app_assoc, H1, H2. Qed.
Lemma steps_one rp i x x' : exec_instr regex mget subrs rp i x = Ok x' -> x_finished x' = false -> steps rp [i] x x'.
Proof. intros H1 H2 k. cbn [app exec_instrs]. rewrite H1. cbn. by rewrite H2. Qed.

Lemma push_room e x : (length (x_stack x) < STACK_SIZE)%nat -> push_elem e x = Ok (set_stack (e :: x_stack x) x).
Proof. intros Hl. unfold push_elem. by rewrite (proj2 (Nat.ltb_lt _ _) Hl). Qed.
Lemma trash_room x : (S (x_trashc x) < TRASH_SIZE)%nat -> trash_elem x = Ok (set_trashc (S (x_trashc x)) x).
Proof. intros Hl. unfold trash_elem. by rewrite (proj2 (Nat.ltb_lt _ _) Hl). Qed.

Lemma sim_ctl t x x' : x_vars x' = x_vars x -> sim t x -> sim t x'.
Proof. unfold sim. by intros ->. Qed.

(** Reading and writing a variable on both sides *)
Lemma var2variable_known t name : vt_current t = protocol ->
  var2variable vm t name = (id <-! var2id vm protocol name ;; variable vm protocol id).
Proof.
  intros Hc. unfold var2variable. rewrite Hc.
  destruct (decide (protocol = ""%string /\ _)) as [[? _]|_]; [done|]. cbv zeta. by destruct (decide (protocol = ""%string)).
Qed.
Lemma find_variable name id : var2id vm protocol name = Ok id -> exists v, variable vm protocol id = Ok v /\ v_id v = id /\ v_type v <> "null"%string
  /\ forall t, vt_current t = protocol -> var2variable vm t name = Ok v.
Proof.
  intros Hid. destruct (sane _ _ Hid) as (v & Hv & Hi & Hn). exists v. split_conj; [done..|]. intros t Hc.
  by rewrite (var2variable_known _ _ Hc), Hid.
Qed.
Lemma var2variable_inv t name v : vt_current t = protocol -> var2variable vm t name = Ok v ->
  exists id, var2id vm protocol name = Ok id /\ v_id v = id /\ v_type v <> "null"%string.
Proof.
  intros Hc Hv. destruct (var2id vm protocol name) as [id|x] eqn:Hid.
  - destruct (find_variable _ _ Hid) as (v' & _ & Hi & Hn & Hall). rewrite (Hall _ Hc) in Hv. injection Hv as <-. eauto.
  - by rewrite (var2variable_known _ _ Hc), Hid in Hv.
Qed.

Lemma vt_read_sim name t t' e x : sim t x -> vt_read vm name t = Ok (t', e) ->
  exists id v, var2id vm protocol name = Ok id /\ vr_read id (x_vars x) = Ok (v, e) /\ vctl t' = vctl t
    /\ (forall i, vr_get (vt_vars t') i = vr_get (vt_vars t) i) /\ forall x', x_vars x' = v -> sim t' x'.
Proof.
  intros (Hw1 & Hw2 & Hg & Hc) Hr. unfold vt_read in Hr. destruct (var2variable vm t name) as [v|] eqn:Ev; [|done]. cbn in Hr.
  destruct (var2variable_inv _ _ _ Hc Ev) as (id & Hid & Hi & _). rewrite Hi in Hr.
  destruct (vr_get (vt_vars t) id) as [e0|] eqn:Eg; [|destruct (vr_read_none _ _ Hw1 Eg) as [y Hy]; by rewrite Hy in Hr].
  destruct (vr_read_ok _ _ _ Hw1 Eg) as (v1 & Hr1 & Hwf1 & Hg1). rewrite Hr1 in Hr. cbn in Hr. injection Hr as <- <-.
  rewrite Hg in Eg. destruct (vr_read_ok _ _ _ Hw2 Eg) as (v2 & Hr2 & Hwf2 & Hg2).
  exists id, v2. split_conj; [done..|]. intros x' Hx. unfold sim. rewrite Hx. cbn. split_conj; [done..| |done]. intros i. by rewrite Hg1, Hg2, Hg.
Qed.
Lemma vt_write_sim name t t' e x : sim t x -> vt_write vm name e t = Ok t' ->
  exists id v, var2id vm protocol name = Ok id /\ vr_write id e (x_vars x) = Ok v /\ is_null e = false /\ vctl t' = vctl t
    /\ forall x', x_vars x' = v -> sim t' x'.
Proof.
  intros (Hw1 & Hw2 & Hg & Hc) Hr. unfold vt_write in Hr. destruct (var2variable vm t name) as [v|] eqn:Ev; [|done]. cbn in Hr.
  destruct (var2variable_inv _ _ _ Hc Ev) as (id & Hid & Hi & Hnull). rewrite Hi in Hr.
  case_if_in Hr; [done|]. case_if_in Hr; [done|]. bool_prop.
  destruct (vr_write id e (vt_vars t)) as [v1|] eqn:Ew; [|done]. cbn in Hr. injection Hr as <-.
  assert (Hdom := vr_write_dom _ _ _ _ Hw1 Ew).
  destruct (vr_write_ok _ _ e Hw1 Hdom) as (v1' & Ew' & Hwf1 & Hg1). rewrite Ew in Ew'. injection Ew' as <-.
  destruct (vr_write_ok _ _ e Hw2 Hdom) as (v2 & Ew2 & Hwf2 & Hg2).
  exists id, v2. split_conj; [done..| |done|].
  - match goal with E : bool_decide _ = true |- _ => apply bool_decide_eq_true in E; rewrite E in Hnull end. destruct e; done.
  - intros x' Hx. unfold sim. rewrite Hx. cbn. split_conj; [done..| |done]. intros i. rewrite Hg1, Hg2, Hg. by case_decide.
Qed.

(** What is left of the machine: the stack, the trash and the frame *)
Definition room x (d k : nat) : Prop :=
  (length (x_stack x) + d <= STACK_SIZE)%nat /\ (x_trashc x + k < TRASH_SIZE)%nat /\ (x_frame x <= length (x_stack x))%nat
  /\ x_finished x = false /\ x_flow x = FLOW_TERM.
Definition same_view t t' : Prop := forall i, vr_get (vt_vars t') i = vr_get (vt_vars t) i.
Lemma room_le x d k d' k' : room x d k -> (d' <= d)%nat -> (k' <= k)%nat -> room x d' k'.
Proof. unfold room. intuition lia. Qed.
Lemma room_step x x' d k d' k' : room x d k -> ctl x' = ctl x -> (x_frame x <= length (x_stack x'))%nat ->
  (length (x_stack x') + d' <= length (x_stack x) + d)%nat -> (x_trashc x' + k' <= x_trashc x + k)%nat -> room x' d' k'.
Proof. unfold room, ctl. intros (?&?&?&?&?) Hc ???. injection Hc as E1 E2 E3 E4 E5. rewrite E1, E2, E4. intuition lia. Qed.
Lemma sim_view t t' x : sim t x -> vr_wf (vt_vars t') -> vt_current t' = protocol -> same_view t t' -> sim t' x.
Proof. intros (_&?&Hg&_) ?? Hv. unfold sim. split_conj; [done..| |done]. intros i. by rewrite Hv, Hg. Qed.

(** An operation on the operands on top of the stack *)
Lemma nary_steps rp op args st x e (f : bool) d k : x_stack x = args ++ st -> (oper_arity op =? length args)%nat = true -> (1 <= length args)%nat ->
  disp_run regex op args = Ok (e, f) -> room x d (S k) -> (x_frame x <= length st)%nat ->
  exists x', steps rp [NaryInstr op] x x' /\ x_vars x' = x_vars x /\ x_stack x' = e :: st /\ ctl x' = ctl x /\ (x_trashc x' <= S (x_trashc x))%nat.
Proof.
  intros Hst Ha%Nat.eqb_eq Hpos Hd (Hl & Ht & _ & Hfin & _) Hf. assert (Hlen := f_equal length Hst). rewrite length_app in Hlen.
  exists (set_stack (e :: st) (if f then set_trashc (S (x_trashc x)) x else x)). split_conj; [|by destruct f..|destruct f; cbn; lia].
  apply steps_one; [|by destruct f]. unfold exec_instr, exec_nary. cbv zeta.
  rewrite (proj2 (Nat.ltb_ge _ _)) by lia. rewrite Ha, Hst, take_app_length, Hd. cbn [result_bind snd fst].
  assert (Hd' : drop (length args) (x_stack x) = st) by (rewrite Hst; apply drop_app_length).
  destruct f; [rewrite trash_room by lia|]; cbn [result_bind]; cbn [set_trashc x_stack]; rewrite Hd', push_room by (cbn; lia); done.
Qed.

Ltac less_room H := eapply room_le; [exact H|lia..].

Section Expr.
Context (sub : string -> vtest -> result xorp_exn vtest) (ok wsub : string -> bool) (dsub tsub : string -> nat).
Context (rp : PolicyInstr -> exec -> result xorp_exn (exec * FlowAction)).
(** A subroutine of these policies, run by both *)
Context (sub_sim : forall s t t' x, ok s = true -> is_Some (subrs !! s) -> sub s t = Ok t' -> sim t x -> x_flow x = FLOW_TERM ->
  (length (x_stack x) < STACK_SIZE)%nat -> (length (x_stack x) + dsub s <= STACK_SIZE)%nat -> (x_trashc x + tsub s < TRASH_SIZE)%nat ->
  exists pi x', subrs !! s = Some pi /\ rp pi x = Ok (x', vt_outcome t') /\ sim t' x' /\ x_stack x' = x_stack x /\ x_frame x' = x_frame x
    /\ x_flow x' = FLOW_TERM /\ x_trace x' = x_trace x /\ (x_trashc x' <= x_trashc x + tsub s)%nat /\ (wsub s = false -> same_view t t')).

Definition linked n : Prop := Forall ref_ok (refs_node n).
Lemma depth_pos n : expr_ok ok wsub n = true -> (1 <= depth_node dsub n)%nat.
Proof. induction n; cbn; intros; bool_prop; first [done | lia | by apply IHn]. Qed.

(** The counts, a node at a time *)
Lemma trash_un op n : trash_node tsub (NodeUn op n) = S (trash_node tsub n).
Proof. done. Qed.
Lemma trash_bin op l r : trash_node tsub (NodeBin op l r) = S (trash_node tsub l + trash_node tsub r).
Proof. done. Qed.
Lemma writes_bin op l r : writes_node wsub (NodeBin op l r) = writes_node wsub l || writes_node wsub r.
Proof. done. Qed.
#[local] Arguments trash_node : simpl never.
#[local] Arguments writes_node : simpl never.

(** The value of an expression is left on the stack. *)
Lemma expr_sim n : forall t t' oe, expr_ok ok wsub n = true -> linked n -> test_node regex get_set vm sub n t = Ok (t', oe) ->
  exists e, oe = Some e /\ forall x c, sim t x -> room x (depth_node dsub n) (trash_node tsub n) -> comp_node vm protocol n = Ok c ->
    exists x', steps rp c x x' /\ sim t' x' /\ x_stack x' = e :: x_stack x /\ ctl x' = ctl x /\ (x_trashc x' <= x_trashc x + trash_node tsub n)%nat
      /\ vctl t' = vctl t /\ (writes_node wsub n = false -> same_view t t').
Proof.
  induction n as [op n IH|op l IHl r IHr|v md r IH|v|s|e| | |p|f|s]; intros t t' oe Hok Hlk Hrun; try discriminate Hok; cbn in Hok, Hrun.
  - bool_prop. bind_pair Hrun t1 oe1 E. destruct (IH _ _ _ ltac:(done) Hlk E) as (e1 & -> & Hx).
    cbn in Hrun. bind_pair Hrun e f Ed. injection Hrun as <- <-. exists e. split; [done|]. intros x c Hsim Hroom Hc.
    cbn in Hc. bind_ok Hc Ec. injection Hc as <-. cbn in Hroom. rewrite trash_un in *.
    destruct (Hx x _ Hsim ltac:(less_room Hroom) Ec) as (x1 & Hs1 & Hsim1 & Hst1 & Hctl1 & Htr1 & Hv & Hw).
    assert (Hpos := depth_pos n ltac:(done)).
    destruct (nary_steps rp op [e1] (x_stack x) x1 e f 0 0 Hst1 ltac:(done) ltac:(cbn; lia) Ed) as (x2 & Hs2 & Hv2 & Hst2 & Hctl2 & Htr2).
    { apply (room_step _ _ _ _ _ _ Hroom Hctl1); rewrite ?Hst1; unfold room in Hroom; cbn; lia. }
    { replace (x_frame x1) with (x_frame x) by (unfold ctl in Hctl1; congruence). unfold room in Hroom. lia. }
    exists x2. split_conj; [eapply steps_app; eassumption|by apply (sim_ctl _ x1)|done|congruence|lia|done..].
  - bool_prop. bind_pair Hrun t1 oe1 E1. bind_pair Hrun t2 oe2 E2. apply Forall_app in Hlk as [_ [Hll Hlr]%Forall_app].
    destruct (IHl _ _ _ ltac:(done) Hll E1) as (e1 & -> & Hl). destruct (IHr _ _ _ ltac:(done) Hlr E2) as (e2 & -> & Hr).
    cbn in Hrun. bind_pair Hrun e f Ed. injection Hrun as <- <-. exists e. split; [done|]. intros x c Hsim Hroom Hc.
    cbn in Hc. bind_ok Hc Er. bind_ok Hc El. injection Hc as <-. cbn in Hroom. rewrite trash_bin in *.
    assert (Hpl := depth_pos l ltac:(done)). assert (Hpr := depth_pos r ltac:(done)).
    destruct (Hl x _ Hsim ltac:(less_room Hroom) El) as (x0 & _ & Hsim0 & _ & _ & _ & Hv1 & Hw1).
    specialize (Hw1 ltac:(done)).
    assert (Hsim1 : sim t1 x) by (destruct Hsim0 as (?&_&_&?); by apply (sim_view t)).
    destruct (Hr x _ Hsim1 ltac:(less_room Hroom) Er) as (x1 & Hs1 & Hsim2 & Hst1 & Hctl1 & Htr1 & Hv2 & Hw2).
    specialize (Hw2 ltac:(done)). assert (Hview : same_view t t2) by (intros i; by rewrite Hw2, Hw1).
    assert (Hsim3 : sim t x1).
    { apply (sim_view t2); [done|by destruct Hsim as (?&_)|by destruct Hsim as (_&_&_&?)|intros i; by rewrite Hview]. }
    assert (Hroom1 : room x1 (depth_node dsub l) (S (trash_node tsub l))).
    { apply (room_step _ _ _ _ _ _ Hroom Hctl1); rewrite ?Hst1; unfold room in Hroom; cbn; lia. }
    destruct (Hl x1 _ Hsim3 ltac:(less_room Hroom1) El) as (x2 & Hs2 & Hsim4 & Hst2 & Hctl2 & Htr2 & _ & _).
    destruct (nary_steps rp op [e1; e2] (x_stack x) x2 e f 0 0 ltac:(by rewrite Hst2, Hst1) ltac:(done) ltac:(cbn; lia) Ed) as (x3 & Hs3 & Hv3 & Hst3 & Hctl3 & Htr3).
    { apply (room_step _ _ _ _ _ _ Hroom1 Hctl2); rewrite ?Hst2; unfold room in Hroom1; cbn; lia. }
    { replace (x_frame x2) with (x_frame x) by (unfold ctl in Hctl1, Hctl2; congruence). unfold room in Hroom. lia. }
    exists x3. split_conj.
    + eapply steps_app; [eassumption|]. eapply steps_app; eassumption.
    + apply (sim_ctl _ x2); [done|]. destruct Hsim2 as (?&_&_&?). apply (sim_view t); [|done..].
      destruct Hsim as (?&_&_&?). apply (sim_view t1); [done..|]. intros i. by rewrite Hw1.
    + done.
    + congruence.
    + lia.
    + congruence.
    + done.
  - bind_pair Hrun t1 e E. injection Hrun as <- <-. exists e. split; [done|]. intros x c Hsim (Hl & Ht & Hf & Hfin & _) Hc.
    cbn in Hc, Hl. bind_ok Hc Ei. injection Hc as <-. destruct (vt_read_sim _ _ _ _ _ Hsim E) as (id & v' & Hid & Hr & Hv & Hw & Hs).
    rewrite Ei in Hid. injection Hid as ->. exists (set_stack (e :: x_stack x) (set_vars v' x)). split_conj; [|by apply Hs|done|done|cbn; lia|done..].
    apply steps_one; [|done]. cbn. rewrite Hr. cbn. by rewrite push_room by (cbn; lia).
  - destruct (get_set s) as [e|] eqn:E; [|done]. injection Hrun as <- <-. exists e. split; [done|]. intros x c Hsim (Hl & _ & _ & Hfin & _) Hc.
    cbn in Hc, Hl. injection Hc as <-. exists (set_stack (e :: x_stack x) x). split_conj; [|done|done|done|cbn; lia|done|done].
    apply (proj1 (Forall_singleton _ _)) in Hlk. apply steps_one; [|done]. cbn. by rewrite Hlk, E, push_room by lia.
  - injection Hrun as <- <-. exists e. split; [done|]. intros x c Hsim (Hl & _ & _ & Hfin & _) Hc.
    cbn in Hc, Hl. injection Hc as <-. exists (set_stack (e :: x_stack x) x). split_conj; [|done|done|done|cbn; lia|done|done].
    apply steps_one; [|done]. cbn. by rewrite push_room by lia.
  - bind_ok Hrun E. injection Hrun as <- <-. eexists. split; [done|]. intros x c Hsim (Hl & Ht & Hf & Hfin & Hflow) Hc.
    cbn in Hc, Hl. injection Hc as <-. apply (proj1 (Forall_singleton _ _)) in Hlk. change (trash_node tsub (NodeSubr s)) with (S (tsub s)) in *.
    destruct (sub_sim _ _ _ x Hok Hlk E Hsim) as (pi & x1 & Hpi & Hrp & Hsim1 & Hst & Hfr & Hfl & Htr & Hk & Hw); [done|lia..|].
    eexists (set_trashc (S (x_trashc x1)) (set_stack (_ :: x_stack x1) (set_finished (x_finished x) (x_fa x) x1))). split_conj; [..|done|done].
    + apply steps_one; [|done]. cbn. rewrite Hpi, Hrp. cbn [result_bind fst snd]. cbn. rewrite push_room by (cbn; rewrite Hst; lia). cbn.
      rewrite trash_room by (cbn; lia). done.
    + by apply (sim_ctl _ x1).
    + cbn. rewrite Hst. by destruct (vt_outcome a).
    + unfold ctl. cbn. congruence.
    + cbn. lia.
Qed.

(** A statement may also end the term, with an outcome. *)
Definition goes (c : list Instr) x x' : Prop :=
  forall k, exec_instrs regex mget subrs rp (c ++ k) x = if x_finished x' then Ok x' else exec_instrs regex mget subrs rp k x'.
Lemma goes_steps c x x' : steps rp c x x' -> x_finished x' = false -> goes c x x'.
Proof. intros Hs Hf k. by rewrite Hs, Hf. Qed.
Lemma goes_one i x x' : exec_instr regex mget subrs rp i x = Ok x' -> goes [i] x x'.
Proof. intros Hi k. cbn [app exec_instrs]. by rewrite Hi. Qed.
Lemma goes_app c1 c2 x1 x2 x3 : goes c1 x1 x2 -> (x_finished x2 = false -> goes c2 x2 x3) -> (x_finished x2 = true -> x3 = x2) -> goes (c1 ++ c2) x1 x3.
Proof.
  intros H1 H2 H3 k. rewrite <- app_assoc, H1. destruct (x_finished x2) eqn:E.
  - rewrite (H3 eq_refl), E. done.
  - by rewrite H2.
Qed.

Definition agree t x : Prop := x_finished x = vt_finished t /\ x_fa x = vt_outcome t /\ x_flow x = vt_flow t.
(** [k] new elements and [l] more elements on the stack; [w]: it may write; [np]: [next policy] may end it. *)
Definition moves (np w : bool) (l k : nat) t t' x x' : Prop :=
  sim t' x' /\ x_frame x' = x_frame x /\ x_trace x' = x_trace x /\ (x_trashc x' <= x_trashc x + k)%nat
  /\ (x_frame x <= length (x_stack x') <= length (x_stack x) + l)%nat
  /\ (w = false -> same_view t t') /\ (np = false \/ vt_finished t' = false -> vt_flow t' = FLOW_TERM).

(** The conditions of a term *)
Lemma match_sim ns : forall t t' b x c, forallb (expr_ok ok wsub) ns = true -> Forall linked ns -> comp_nodes vm protocol [OnFalseExit] ns = Ok c ->
  test_match regex get_set vm sub ns t = Ok (t', b) -> sim t x -> agree t x -> room x (depth_nodes dsub ns) (trash_nodes tsub ns) ->
  exists x', goes c x x' /\ moves false (existsb (writes_node wsub) ns) (length ns) (trash_nodes tsub ns) t t' x x'
    /\ vctl t' = vctl t /\ x_finished x' = negb b /\ x_fa x' = x_fa x /\ x_flow x' = x_flow x.
Proof.
  induction ns as [|n ns IH]; intros t t' b x c Hok Hlk Hc Hrun Hsim (Hfin & Hfa & Hfl) Hroom.
  - injection Hc as <-. injection Hrun as <- <-. exists x. destruct Hroom as (?&?&?&Hf&Hflow). split; [by apply goes_steps|].
    unfold moves. cbn. split_conj; try done; try lia. by rewrite <- Hfl.
  - cbn in Hok, Hc, Hrun. bool_prop. inversion Hlk as [|? ? Hl1 Hl2]; subst. bind_ok Hc Ec. bind_ok Hc Ecs. injection Hc as <-.
    bind_pair Hrun t1 oe E1. destruct (expr_sim n _ _ _ ltac:(done) Hl1 E1) as (e & -> & Hx). cbn in Hroom.
    destruct (Hx x _ Hsim ltac:(less_room Hroom) Ec) as (x1 & Hs1 & Hsim1 & Hst1 & Hctl1 & Htr1 & Hv1 & Hw1).
    unfold vctl in Hv1. injection Hv1 as Hv1 Hv2 Hv3. unfold ctl in Hctl1. injection Hctl1 as Hc1 Hc2 Hc3 Hc4 Hc5. destruct Hroom as (Hl & Ht & Hf & Hxf & Hxt).
    rewrite Hv1, <- Hfin, Hxf in Hrun. bind_ok Hrun Eb. cbn [vt_match] in Eb. destruct e; try discriminate Eb. injection Eb as ->. cbn [snd fst] in Hrun.
    assert (Hne : stack_empty x1 = false) by (unfold stack_empty; rewrite Hst1; apply Nat.leb_gt; cbn; lia).
    assert (Hexec : exec_instr regex mget subrs rp OnFalseExit x1 = Ok (if a1 then x1 else set_finished true (x_fa x1) x1)).
    { cbn. unfold exec_onfalse. by rewrite Hne, Hst1. }
    destruct a1.
    + assert (Hag : agree t1 x1) by (unfold agree; split_conj; congruence).
      destruct (IH t1 t' b x1 _ ltac:(done) Hl2 Ecs Hrun Hsim1 Hag) as (x2 & Hg2 & (Hsim2 & ? & ? & ? & ? & Hw2 & Hnp) & Hv & ? & ? & ?).
      { unfold room. rewrite Hst1. cbn. cbn in Ht. unfold trash_nodes in *. split_conj; try lia; congruence. }
      exists x2. split_conj; try congruence.
      * eapply goes_app; [apply (goes_steps _ _ _ Hs1); congruence| |congruence]. intros _. eapply (goes_app [_]); [by apply goes_one|done|congruence].
      * rewrite Hst1, ?Hc1 in *. cbn in *. unfold trash_nodes in *. unfold moves. split_conj; try congruence; try done; try lia. cbn. intros Hw. bool_prop. intros i. rewrite Hw2 by done. by apply Hw1.
      * unfold vctl in *. congruence.
    + injection Hrun as <- <-. exists (set_finished true (x_fa x1) x1). split_conj; try (cbn; congruence).
      * eapply goes_app; [apply (goes_steps _ _ _ Hs1); congruence| |congruence]. intros _. eapply (goes_app [_]); [by apply goes_one|done|done].
      * unfold moves. cbn. rewrite Hst1. cbn. split_conj; try congruence; try done; try lia. intros Hw. bool_prop. by apply Hw1.
      * unfold vctl in *. congruence.
Qed.

(** The actions of a term *)
Lemma action_expr np n : action_ok vm protocol ok wsub np n = true -> expr_ok ok wsub n = true \/
  (exists v md r, n = NodeAssign v md r) \/ n = NodeAccept \/ n = NodeReject \/ (exists f, n = NodeNext f /\ (np = false -> f = FLOW_TERM)).
Proof.
  destruct n; cbn; intros Ha; eauto 8. right; right; right; right. exists f. split; [done|]. intros ->. by apply bool_decide_eq_true in Ha.
Qed.
Lemma store_goes id e st v x : x_stack x = e :: st -> x_finished x = false -> (x_frame x <= length st)%nat -> is_null e = false ->
  (id =? VAR_TRACE) = false -> vr_write id e (x_vars x) = Ok v -> steps rp [Store id] x (set_vars v (set_stack st x)).
Proof.
  intros Hst Hfin Hf Hn Hid Hw. apply steps_one; [|done]. cbn. unfold exec_store, stack_empty. rewrite Hst, Hn. cbn [length].
  rewrite (proj2 (Nat.leb_gt _ _)) by lia. unfold write_trace. rewrite Hid. cbn. by rewrite Hw.
Qed.
Lemma assign_sim np v md r t t' oe x c : action_ok vm protocol ok wsub np (NodeAssign v md r) = true -> linked r -> comp_node vm protocol (NodeAssign v md r) = Ok c ->
  test_node regex get_set vm sub (NodeAssign v md r) t = Ok (t', oe) -> sim t x -> room x (depth_node dsub (NodeAssign v md r)) (trash_node tsub (NodeAssign v md r)) ->
  exists x', steps rp c x x' /\ sim t' x' /\ x_stack x' = x_stack x /\ ctl x' = ctl x /\ (x_trashc x' <= x_trashc x + trash_node tsub (NodeAssign v md r))%nat
    /\ vctl t' = vctl t.
Proof.
  intros Hok Hlk Hc Hrun Hsim Hroom. cbn in Hok, Hc, Hrun, Hroom. bool_prop. bind_ok Hc Er. bind_ok Hc Ei. injection Hc as <-.
  bind_pair Hrun t1 oe1 E1. destruct (expr_sim r _ _ _ ltac:(done) Hlk E1) as (e1 & -> & Hx).
  set (k := trash_node tsub (NodeAssign v md r)) in *.
  assert (Hk : k = (match md with Some _ => 1 | None => 0 end + trash_node tsub r)%nat) by (by destruct md).
  destruct (Hx x _ Hsim ltac:(less_room Hroom) Er) as (x1 & Hs1 & Hsim1 & Hst1 & Hctl1 & Htr1 & Hv1 & Hw1).
  assert (Hmd : exists t2 e2 x2, vt_write vm v e2 t2 = Ok t' /\ steps rp (match md with Some op => [Load a0; NaryInstr op] | None => [] end) x1 x2 /\ sim t2 x2
    /\ x_stack x2 = e2 :: x_stack x /\ ctl x2 = ctl x /\ (x_trashc x2 <= x_trashc x + k)%nat /\ vctl t2 = vctl t).
  { destruct md as [op|].
    - bind_ok Hrun Ex. bind_pair Ex t2 l El. cbn [deref_elem result_bind] in Ex. bind_pair Ex e f Ed. injection Ex as <-. cbn [fst snd deref_elem result_bind] in Hrun.
      bind_ok Hrun Ew. injection Hrun as <- <-. destruct (vt_read_sim _ _ _ _ _ Hsim1 El) as (id & v' & Hid & Hr & Hv2 & _ & Hs). rewrite Ei in Hid. injection Hid as <-.
      set (x2 := set_stack (l :: x_stack x1) (set_vars v' x1)). assert (Hctl2 : ctl x2 = ctl x) by (unfold x2, ctl in *; cbn; congruence).
      destruct Hroom as (Hl & Ht & Hf & Hfin & Hflow).
      destruct (nary_steps rp op [l; e1] (x_stack x) x2 e f 0 0) as (x3 & Hs3 & Hv3 & Hst3 & Hctl3 & Htr3); [cbn; by rewrite Hst1|done|cbn; lia|done|..].
      { unfold room. unfold ctl in Hctl1. injection Hctl1 as E1' E2' _ E4' _. subst x2. cbn. rewrite Hst1. cbn. split_conj; try congruence; lia. }
      { unfold ctl in Hctl1. injection Hctl1 as E1' _ _ _ _. subst x2. cbn. lia. }
      exists t2, e, x3. split_conj; [done| |apply (sim_ctl _ x2); [done|by apply Hs]|done|congruence|subst x2; cbn in Htr3; lia|congruence].
      apply (steps_app _ [Load a0] [NaryInstr op] _ x2); [|done]. apply steps_one; [|subst x2; cbn; unfold ctl in Hctl1; congruence].
      cbn. rewrite Hr. cbn. rewrite push_room; [done|]. cbn. rewrite Hst1. cbn. lia.
    - cbn [fst snd deref_elem result_bind] in Hrun. bind_ok Hrun Ew. injection Hrun as <- <-. exists t1, e1, x1. split_conj; try done; lia. }
  destruct Hmd as (t2 & e2 & x2 & Hwr & Hs2 & Hsim2 & Hst2 & Hctl2 & Htr2 & Hv2).
  destruct (vt_write_sim _ _ _ _ _ Hsim2 Hwr) as (id & v' & Hid & Hw & Hnull & Hv3 & Hs). rewrite Ei in Hid. injection Hid as <-.
  rewrite Ei in *. bool_prop. exists (set_vars v' (set_stack (x_stack x) x2)).
  destruct Hroom as (Hl & Ht & Hf & Hfin & Hflow). assert (Hfr := Hctl2). unfold ctl in Hfr. injection Hfr as Hf1 Hf2 _ _ _.
  split_conj; [|by apply Hs|done|unfold ctl in *; cbn; congruence|done|congruence].
  eapply steps_app; [eassumption|]. eapply steps_app; [eassumption|]. apply (store_goes _ e2); [done|congruence|lia|done|by apply Z.eqb_neq|done].
Qed.

Lemma action_sim np n t t' oe x c : action_ok vm protocol ok wsub np n = true -> linked n -> comp_node vm protocol n = Ok c ->
  test_node regex get_set vm sub n t = Ok (t', oe) -> sim t x -> agree t x -> room x (depth_node dsub n) (trash_node tsub n) ->
  exists x', goes c x x' /\ moves np (writes_node wsub n) 1 (trash_node tsub n) t t' x x' /\ agree t' x'.
Proof.
  intros Hok Hlk Hc Hrun Hsim (Hfin & Hfa & Hfl) Hroom. assert (Hr := Hroom). destruct Hr as (Hl & Ht & Hf & Hxf & Hxt).
  destruct (action_expr _ _ Hok) as [He|[(v&md&r&->)|[->|[->|(f&->&Hnf)]]]].
  - destruct (expr_sim n _ _ _ He Hlk Hrun) as (e & -> & Hx). destruct (Hx x _ Hsim Hroom Hc) as (x1 & Hs1 & Hsim1 & Hst1 & Hctl1 & Htr1 & Hv1 & Hw1).
    unfold ctl, vctl in *. injection Hctl1 as Hc1 Hc2 Hc3 Hc4 Hc5. injection Hv1 as Hv1 Hv2 Hv3.
    exists x1. split; [apply goes_steps; [done|congruence]|]. unfold moves, agree. rewrite Hst1. cbn. split_conj; try congruence; try done; try lia; intros _; congruence.
  - destruct (assign_sim np v md r _ _ _ _ _ Hok Hlk Hc Hrun Hsim Hroom) as (x1 & Hs1 & Hsim1 & Hst1 & Hctl1 & Htr1 & Hv1).
    unfold ctl, vctl in *. injection Hctl1 as Hc1 Hc2 Hc3 Hc4 Hc5. injection Hv1 as Hv1 Hv2 Hv3.
    exists x1. split; [apply goes_steps; [done|congruence]|]. unfold moves, agree. rewrite Hst1. split_conj; try congruence; try done; try lia; intros _; congruence.
  - injection Hc as <-. injection Hrun as <- <-. exists (set_finished true FA_ACCEPT x). split; [by apply goes_one|].
    unfold moves, agree. cbn. split_conj; try congruence; try done; try lia; intros _; congruence.
  - injection Hc as <-. injection Hrun as <- <-. exists (set_finished true FA_REJ x). split; [by apply goes_one|].
    unfold moves, agree. cbn. split_conj; try congruence; try done; try lia; intros _; congruence.
  - injection Hc as <-. injection Hrun as <- <-. exists (set_flow f (set_finished true (x_fa x) x)). split; [by apply goes_one|].
    unfold moves, agree. cbn. split_conj; try congruence; try done; try lia; intros [Hn|Hn]; [by apply Hnf|done].
Qed.
Lemma moves_trans np w1 w2 l1 l2 k1 k2 t1 t2 t3 x1 x2 x3 : moves np w1 l1 k1 t1 t2 x1 x2 -> moves np w2 l2 k2 t2 t3 x2 x3 ->
  moves np (w1 || w2) (l1 + l2) (k1 + k2) t1 t3 x1 x3.
Proof.
  intros (_&?&?&?&?&Hw1&_) (?&?&?&?&?&Hw2&?). unfold moves. split_conj; try done; try congruence; try lia.
  intros [E1 E2]%orb_false_iff i. by rewrite (Hw2 E2), (Hw1 E1).
Qed.
Lemma moves_le np np' (w w' : bool) l l' k k' t t' x x' : moves np w l k t t' x x' -> (w' = false -> w = false) -> (np' = false -> np = false) ->
  (l <= l')%nat -> (k <= k')%nat -> moves np' w' l' k' t t' x x'.
Proof. intros (?&?&?&?&?&?&?) ????. unfold moves. split_conj; try done; try lia; [auto|]. intros [|]; auto. Qed.
Lemma actions_sim np ns : forall t t' x c, forallb (action_ok vm protocol ok wsub np) ns = true -> Forall linked ns -> comp_nodes vm protocol [] ns = Ok c ->
  test_actions regex get_set vm sub ns t = Ok t' -> sim t x -> agree t x -> room x (depth_nodes dsub ns) (trash_nodes tsub ns) ->
  exists x', goes c x x' /\ moves np (existsb (writes_node wsub) ns) (length ns) (trash_nodes tsub ns) t t' x x' /\ agree t' x'.
Proof.
  induction ns as [|n ns IH]; intros t t' x c Hok Hlk Hc Hrun Hsim Hag Hroom.
  - injection Hc as <-. injection Hrun as <-. exists x. destruct Hroom as (?&?&?&Hf&Hflow), Hag as (?&?&Hfl). split; [by apply goes_steps|].
    unfold moves, agree. cbn. split_conj; try done; try lia. by rewrite <- Hfl.
  - cbn in Hok, Hc, Hrun. bool_prop. inversion Hlk as [|? ? Hl1 Hl2]; subst. bind_ok Hc Ec. bind_ok Hc Ecs. injection Hc as <-.
    bind_pair Hrun t1 oe E1. cbn in Hroom.
    destruct (action_sim np n _ _ _ x _ ltac:(done) Hl1 Ec E1 Hsim Hag ltac:(less_room Hroom)) as (x1 & Hg1 & Hm1 & Hag1).
    assert (Ha := Hag1). destruct Ha as (Hfin & Hfa & Hfl). destruct (vt_finished t1) eqn:Ef.
    + injection Hrun as <-. exists x1. split_conj; [|eapply moves_le; [exact Hm1|..]; cbn; unfold trash_nodes; cbn; first [done|lia|by intros [? _]%orb_false_iff]|done].
      eapply goes_app; [done|congruence|done].
    + destruct Hm1 as (Hsim1 & Hm2 & Hm3 & Hm4 & Hm5 & Hm6 & Hm7).
      destruct (IH t1 t' x1 _ ltac:(done) Hl2 Ecs Hrun Hsim1 Hag1) as (x2 & Hg2 & Hmv2 & Hag2).
      { destruct Hroom as (?&?&?&?&?). unfold room. cbn in *. unfold trash_nodes in *. split_conj; try lia; [done|]. rewrite Hfl. apply Hm7. by right. }
      exists x2. split_conj; [|eapply moves_le; [exact (moves_trans _ _ _ _ _ _ _ _ _ _ _ _ _ (conj Hsim1 (conj Hm2 (conj Hm3 (conj Hm4 (conj Hm5 (conj Hm6 Hm7)))))) Hmv2)|..]; done|done].
      eapply goes_app; [done| |congruence]. done.
Qed.

(** A term *)
Lemma comp_nodes_app after ns1 ns2 c1 c2 : comp_nodes vm protocol after ns1 = Ok c1 -> comp_nodes vm protocol after ns2 = Ok c2 ->
  comp_nodes vm protocol after (ns1 ++ ns2) = Ok (c1 ++ c2).
Proof.
  revert c1. induction ns1 as [|n ns1 IH]; cbn; intros c1 H1 H2; [by injection H1 as <-|].
  bind_ok H1 E1. bind_ok H1 E2. injection H1 as <-. rewrite E1. cbn. rewrite (IH _ E2 H2). cbn. by rewrite <- !app_assoc.
Qed.
Lemma ends_filter ns : ends_last ns = true -> List.filter (fun n => negb (is_accept_or_reject n)) ns ++ List.filter is_accept_or_reject ns = ns.
Proof.
  induction ns as [|n ns IH]; cbn; [done|]. destruct (is_accept_or_reject n) eqn:E; cbn; [|intros He; by rewrite IH].
  intros Hall. assert (Hn : List.filter (fun n => negb (is_accept_or_reject n)) ns = [] /\ List.filter is_accept_or_reject ns = ns); [|by destruct Hn as [-> ->]].
  clear IH E n. induction ns as [|n ns IH]; [done|]. cbn in *. bool_prop. rewrite H. cbn. destruct (IH ltac:(done)) as [-> ->]. done.
Qed.
Lemma comp_term_inv np tm ti : term_ok vm protocol ok wsub np tm = true -> comp_term vm protocol tm = Ok ti -> t_dest tm = [] /\
  exists c1 c2, comp_nodes vm protocol [OnFalseExit] (t_source tm) = Ok c1 /\ comp_nodes vm protocol [] (t_action tm) = Ok c2 /\ ti_instrs ti = c1 ++ c2.
Proof.
  unfold term_ok, comp_term. intros Hok Hc. bool_prop. bind_ok Hc E1. destruct (t_dest tm); [|done]. split; [done|].
  bind_ok Hc E2. bind_ok Hc E3. injection Hc as <-. eexists _, _. split_conj; [done| |done]. rewrite <- (ends_filter (t_action tm)) by done. by apply comp_nodes_app.
Qed.
Lemma depth_nodes_app ns1 ns2 : (depth_nodes dsub ns1 <= depth_nodes dsub (ns1 ++ ns2))%nat /\
  (length ns1 + depth_nodes dsub ns2 <= depth_nodes dsub (ns1 ++ ns2))%nat.
Proof. induction ns1 as [|n ns1 [IH1 IH2]]; cbn; lia. Qed.
Lemma trash_nodes_app ns1 ns2 : trash_nodes tsub (ns1 ++ ns2) = (trash_nodes tsub ns1 + trash_nodes tsub ns2)%nat.
Proof. unfold trash_nodes. induction ns1 as [|n ns1 IH]; cbn; [done|]. rewrite IH. lia. Qed.
Lemma sim_vt t t' x : vt_vars t' = vt_vars t -> vt_current t' = protocol -> sim t x -> sim t' x.
Proof. unfold sim. intros -> -> (?&?&?&?). done. Qed.

Definition term_writes tm : bool := existsb (writes_node wsub) (all_nodes tm).
Definition term_body tm : list Node := t_source tm ++ t_action tm.
Lemma term_sim np tm ti t t' x : term_ok vm protocol ok wsub np tm = true -> Forall linked (term_body tm) -> comp_term vm protocol tm = Ok ti ->
  test_term regex get_set vm protocol sub tm t = Ok t' -> sim t x -> vt_outcome t = FA_DEFAULT -> x_flow x = FLOW_TERM ->
  (x_frame x + depth_nodes dsub (term_body tm) <= STACK_SIZE)%nat -> (x_frame x <= length (x_stack x))%nat -> (x_trashc x + trash_nodes tsub (term_body tm) < TRASH_SIZE)%nat ->
  exists x', run_term regex mget subrs rp ti x = Ok (x', vt_outcome t') /\ moves np (term_writes tm) (length (term_body tm)) (trash_nodes tsub (term_body tm)) t t' x x'
    /\ x_flow x' = vt_flow t'.
Proof.
  intros Hok Hlk Hc Hrun Hsim Ho Hfl Hd Hf Ht. destruct (comp_term_inv _ _ _ Hok Hc) as (Hdest & c1 & c2 & E1 & E2 & Hti).
  unfold term_ok in Hok. bool_prop. apply Forall_app in Hlk as [Hl1 Hl2]. unfold test_term in Hrun. cbv zeta in Hrun. rewrite Hdest in Hrun.
  unfold term_body, run_term in *. set (x0 := clear_frame (set_finished false FA_DEFAULT x)). set (t0 := change_protocol protocol (vt_finish false (vt_outcome t) FLOW_TERM t)) in *.
  assert (Hlen : length (x_stack x0) = x_frame x) by (unfold x0; cbn; rewrite length_drop; lia).
  destruct (depth_nodes_app (t_source tm) (t_action tm)) as [Hd1 Hd2]. assert (Htr := trash_nodes_app (t_source tm) (t_action tm)).
  bind_pair Hrun t1 b Em.
  destruct (match_sim (t_source tm) t0 t1 b x0 c1) as (x1 & Hg1 & Hm1 & Hv1 & Hf1 & Hfa1 & Hfl1); try done.
  { by apply (sim_vt t), (sim_ctl t x). }
  { unfold room. rewrite Hlen. cbn. split_conj; try done; lia. }
  assert (Hrest : forall t2 x2 w, moves np w (length (t_source tm ++ t_action tm)) (trash_nodes tsub (t_source tm) + trash_nodes tsub (t_action tm)) t0 t2 x0 x2 ->
    (term_writes tm = false -> w = false) -> moves np (term_writes tm) (length (t_source tm ++ t_action tm)) (trash_nodes tsub (t_source tm ++ t_action tm)) t t2 x x2).
  { intros t2 x2 w (Ha & Hb & Hc' & Hd' & He & Hf' & Hg) Hw. rewrite Hlen in He. cbn in Hb, Hc', Hd', He. unfold moves. rewrite Htr.
    split_conj; try done; try lia. intros ?. by apply Hf', Hw. }
  unfold term_writes, all_nodes in *. rewrite !existsb_app in *. injection Hv1 as Hva Hvb Hvc. destruct b; cbn [negb fst snd] in Hrun, Hf1.
  - cbn [test_match result_bind fst snd negb] in Hrun. destruct Hm1 as (Hsim1 & Hm). set (t2 := change_protocol protocol (change_protocol protocol t1)) in *.
    destruct (actions_sim np (t_action tm) t2 t' x1 c2) as (x2 & Hg2 & Hm2 & Ha2); try done.
    { by apply (sim_vt t1). }
    { unfold agree, t2. cbn. rewrite Hva, Hvb, Hvc, Hf1, Hfa1, Hfl1. cbn. by rewrite Ho, Hfl. }
    { destruct Hm as (M1 & M2 & M3 & M4 & _). unfold room. rewrite Hlen in M4. cbn in M1, M3, M4, Hfl1. split_conj; try done; try lia; congruence. }
    exists x2. split_conj.
    + rewrite Hti. rewrite <- (app_nil_r (c1 ++ c2)). rewrite (goes_app c1 c2 x0 x1 x2 Hg1 ltac:(done) ltac:(congruence) []).
      destruct Ha2 as (_ & Hfa2 & _). destruct (x_finished x2); cbn; by rewrite Hfa2.
    + assert (Hm1 : moves np (existsb (writes_node wsub) (t_source tm)) (length (t_source tm)) (trash_nodes tsub (t_source tm)) t0 t2 x0 x1).
      { eapply (moves_le false np); [split; [by apply (sim_vt t1)|exact Hm]|..]; done. }
      eapply Hrest; [eapply moves_le; [exact (moves_trans _ _ _ _ _ _ _ _ _ _ _ _ _ Hm1 Hm2)|..]|]; rewrite ?length_app; try lia; try done.
      intros ?. bool_prop. by apply orb_false_iff.
    + by destruct Ha2 as (_ & _ & ->).
  - injection Hrun as <-. exists x1. split_conj.
    + rewrite Hti. rewrite <- (app_nil_r (c1 ++ c2)). rewrite (goes_app c1 c2 x0 x1 x1 Hg1 ltac:(congruence) ltac:(done) []). rewrite Hf1. cbn. rewrite Hfa1, Hvb. cbn. by rewrite Ho.
    + eapply Hrest; [eapply moves_le; [exact Hm1|..]|]; try done; rewrite ?length_app; try lia.
      intros ?. bool_prop. done.
    + rewrite Hfl1, Hvc. done.
Qed.

(** The terms of a policy, until one decides *)
Definition ran (w np : bool) (k : nat) t t' x x' : Prop :=
  sim t' x' /\ x_frame x' = x_frame x /\ x_trace x' = x_trace x /\ (x_trashc x' <= x_trashc x + k)%nat
  /\ (w = false -> same_view t t') /\ (np = false -> x_flow x' = FLOW_TERM).
Lemma terms_sim np tms : forall ts t t' x, forallb (term_ok vm protocol ok wsub np) tms = true -> Forall (fun tm => Forall linked (term_body tm)) tms ->
  comp_terms vm protocol tms = Ok ts -> test_terms regex get_set vm protocol sub tms t = Ok t' -> sim t x -> vt_outcome t = FA_DEFAULT -> x_flow x = FLOW_TERM ->
  (x_frame x + foldr (fun tm acc => Nat.max (depth_nodes dsub (term_body tm)) acc) 1%nat tms <= STACK_SIZE)%nat -> (x_frame x <= length (x_stack x))%nat ->
  (x_trashc x + foldr (fun tm acc => trash_nodes tsub (term_body tm) + acc) 0 tms < TRASH_SIZE)%nat ->
  exists x', run_terms regex mget subrs rp ts x = Ok (x', vt_outcome t')
    /\ ran (existsb term_writes tms) np (foldr (fun tm acc => trash_nodes tsub (term_body tm) + acc) 0 tms)%nat t t' x x'.
Proof.
  induction tms as [|tm tms IH]; intros ts t t' x Hok Hlk Hc Hrun Hsim Ho Hfl Hd Hf Ht; cbn in Hok, Hc, Hrun.
  - injection Hc as <-. injection Hrun as <-. exists x. cbn. rewrite Ho. unfold ran. split_conj; try done; lia.
  - bool_prop. inversion Hlk as [|? ? Hl1 Hl2]; subst. bind_ok Hc Ei. bind_ok Hc Eis. injection Hc as <-. bind_ok Hrun Et. cbn in Hd, Ht.
    destruct (term_sim np tm _ _ _ x ltac:(done) Hl1 Ei Et Hsim Ho Hfl) as (x1 & Hr1 & (Hsim1 & Hm2 & Hm3 & Hm4 & Hm5 & Hm6 & Hm7) & Hfl1); [lia..|].
    cbn [run_terms]. rewrite Hr1. cbn [result_bind fst snd]. destruct (bool_decide (vt_outcome _ = FA_DEFAULT)) eqn:Eo in Hrun |- *; cbn [negb] in Hrun |- *.
    + apply bool_decide_eq_true in Eo. destruct (vt_finished _ && _) eqn:Efin in Hrun.
      * bool_prop. match goal with E : bool_decide _ = true |- _ => apply bool_decide_eq_true in E; rename E into Hpol end.
        injection Hrun as <-. rewrite decide_True by congruence. exists x1. rewrite Eo. split; [done|]. unfold ran. cbn. split_conj; try done; try lia.
        { intros ?. bool_prop. auto. } intros ->. rewrite Hfl1. auto.
      * assert (Hx1 : x_flow x1 = FLOW_TERM).
        { rewrite Hfl1. apply andb_false_iff in Efin as [Efin|Efin%bool_decide_eq_false]; [auto|]. by destruct (vt_flow _). }
        rewrite decide_False by congruence.
        destruct (IH _ _ _ x1 ltac:(done) Hl2 Eis Hrun Hsim1 Eo Hx1) as (x2 & Hr2 & R1 & R2 & R3 & R4 & R5 & R6); [rewrite Hm2; lia|rewrite Hm2; lia|lia|].
        exists x2. split; [done|]. unfold ran. cbn. split_conj; try done; try congruence; try lia. intros [? ?]%orb_false_iff. intros i. rewrite R5 by done. by apply Hm6.
    + injection Hrun as <-. exists x1. split; [done|]. unfold ran. cbn. split_conj; try done; try lia. { intros ?. bool_prop. auto. } intros ->. rewrite Hfl1. auto.
Qed.
Lemma policy_with_sim np ps pi f t t' x : rp = match f with O => fun _ _ => Throw Fatal | S f => runPolicy regex mget subrs f end ->
  policy_ok_with vm protocol ok wsub np ps = true -> Forall ref_ok (refs_policy ps) -> comp_policy vm protocol ps = Ok pi ->
  test_policy_with regex get_set vm protocol sub ps t = Ok t' -> sim t x ->
  (length (x_stack x) + depth_policy_with dsub ps <= STACK_SIZE)%nat -> (x_trashc x + trash_policy_with tsub ps < TRASH_SIZE)%nat ->
  exists x', runPolicy regex mget subrs f pi x = Ok (x', vt_outcome t') /\ x_stack x' = x_stack x
    /\ ran (writes_policy_with wsub ps) np (trash_policy_with tsub ps) t t' x x'.
Proof.
  intros Hrp Hok Hlk Hc Hrun Hsim Hd Ht. unfold comp_policy in Hc. bind_ok Hc Ec. injection Hc as <-.
  assert (Hpos : (1 <= depth_policy_with dsub ps)%nat). { unfold depth_policy_with. clear. induction (p_terms ps); cbn [foldr]; lia. }
  assert (Hlk' : Forall (fun tm => Forall linked (term_body tm)) (p_terms ps)).
  { unfold refs_policy in Hlk. rewrite Forall_concat, Forall_map in Hlk. eapply Forall_impl; [exact Hlk|]. intros tm Htm.
    cbn in Htm. rewrite Forall_concat, Forall_map in Htm. done. }
  destruct (terms_sim np (p_terms ps) _ _ _ (set_flow FLOW_TERM (set_frame (length (x_stack x)) x)) Hok Hlk' Ec Hrun) as (x1 & Hr1 & R1 & R2 & R3 & R4 & R5 & R6); try done.
  exists (set_stack (x_stack x) (set_frame (x_frame x) x1)). split_conj; [|done|].
  - destruct f; cbn [runPolicy]; rewrite (proj2 (Nat.ltb_lt _ _)) by lia; cbn [negb pi_terms]; rewrite <- Hrp, Hr1; done.
  - unfold ran. cbn. split_conj; done.
Qed.

End Expr.
(** The subroutines of the filter are the code of the policies of their names, with the ones they call. *)
Definition subrs_linked : Prop := forall s pi, subrs !! s = Some pi ->
  exists ps, pm !! s = Some ps /\ comp_policy vm protocol ps = Ok pi /\ Forall ref_ok (refs_policy ps).
Lemma policy_sim k : forall F f np ps pi t t' x, subrs_linked -> (k <= f)%nat ->
  policy_ok_with vm protocol (subr_ok vm pm protocol k) (writes_subr pm k) np ps = true -> Forall ref_ok (refs_policy ps) ->
  comp_policy vm protocol ps = Ok pi -> test_policy_with regex get_set vm protocol (test_subr regex get_set pm vm protocol F) ps t = Ok t' -> sim t x ->
  (length (x_stack x) + depth_policy_with (depth_subr pm k) ps <= STACK_SIZE)%nat -> (x_trashc x + trash_policy_with (trash_subr pm k) ps < TRASH_SIZE)%nat ->
  exists x', runPolicy regex mget subrs f pi x = Ok (x', vt_outcome t') /\ x_stack x' = x_stack x
    /\ ran (writes_policy_with (writes_subr pm k) ps) np (trash_policy_with (trash_subr pm k) ps) t t' x x'.
Proof.
  induction k as [|k IH]; intros F f np ps pi t t' x Hlink Hkf Hok Hcalls Hc Hrun Hsim Hd Ht;
    (eapply policy_with_sim; [|reflexivity|exact Hok|exact Hcalls|exact Hc|exact Hrun|exact Hsim|exact Hd|exact Ht]); [done|].
  intros s t0 t1 x0 Hs [pi0 Hpi] Hr0 Hsim0 Hfl0 Hl0 Hd0 Ht0. destruct (Hlink _ _ Hpi) as (ps0 & Hpm & Hcomp & Hcalls0).
  destruct F as [|F]; [done|]. destruct f as [|f]; [lia|]. cbn in Hs, Hr0, Hd0, Ht0. unfold pmap_find in Hr0. rewrite Hpm in *. cbn in Hr0.
  destruct (IH F f false ps0 pi0 t0 t1 x0 Hlink ltac:(lia) Hs Hcalls0 Hcomp Hr0 Hsim0 Hd0 Ht0) as (x1 & Hr1 & Hst1 & R1 & R2 & R3 & R4 & R5 & R6).
  exists pi0, x1. cbn. rewrite Hpm. split_conj; try done. by apply R6.
Qed.

End Simulation.
