(* ===== verification/PolicyText.v ===== *)
(** * The text of the code, and reading it again (policy/code_generator.cc, policy/backend/backend.ll, backend.yy)

    [CodeGenerator] writes the text of the instructions [comp_policy], with the subroutines and
    the names of the sets that they refer to; the scanner and the grammar of the backend make
    the same instructions of it, when the names are words of the scanner and the elements can
    be made again from their texts ([elem_ok]): numbers, booleans, strings and sets of numbers
    can ([plain_ok]). *)

From Stdlib Require Import ZArith Lia String Ascii Sorted.
From stdpp Require Import base tactics option numbers list gmap strings sorting.
From S2P Require Import Prelude OMap Word32 Addr IPv4 IPv6 IPNet AsPath PolicyElem PolicyOps PolicyExec PolicyCode.
From S2P Require Import PolicyRun.
Local Open Scope Z_scope.
Local Open Scope xorp_scope.

(** ** Strings *)
Lemma string_app_assoc (a b c : string) : ((a ++ b) ++ c = a ++ (b ++ c))%string.
Proof. induction a as [|x a IH]; [done|]. exact (f_equal (String x) IH). Qed.
Lemma string_app_nil (a : string) : (a ++ "" = a)%string.
Proof. induction a as [|x a IH]; [done|]. exact (f_equal (String x) IH). Qed.

(** ** The text of the instructions *)
Section Text.
Context `{HO : HostOrder, AT : AddrText}.
Local Open Scope string_scope.
Definition instr_text (i : Instr) : string :=
  match i with
  | Push e => "PUSH " ++ elem_type e ++ " " ++ quote ++ elem_str e ++ quote
  | PushSet s => "PUSH_SET " ++ s
  | OnFalseExit => "ONFALSE_EXIT"
  | Load id => "LOAD " ++ dec_str id
  | Store id => "STORE " ++ dec_str id
  | Accept => "ACCEPT"
  | Reject => "REJECT"
  | Next f => "NEXT " ++ flow_str f
  | Subr s => "POLICY " ++ s
  | NaryInstr op => oper_str op
  end.
Definition instrs_text (c : list Instr) : string := foldr (fun i acc => instr_text i ++ nl ++ acc) "" c.
Definition term_text (t : TermInstr) : string := "TERM_START " ++ ti_name t ++ nl ++ instrs_text (ti_instrs t) ++ "TERM_END" ++ nl.
Definition terms_text (ts : list TermInstr) : string := foldr (fun t acc => term_text t ++ acc) "" ts.
Definition policy_text (p : PolicyInstr) : string := "POLICY_START " ++ pi_name p ++ nl ++ terms_text (pi_terms p) ++ "POLICY_END" ++ nl.

Lemma instrs_text_app c1 c2 : instrs_text (c1 ++ c2)%list = instrs_text c1 ++ instrs_text c2.
Proof. induction c1 as [|i c1 IH]; cbn [instrs_text foldr app]; [done|]. fold (instrs_text (c1 ++ c2)%list) (instrs_text c1). by rewrite IH, !string_app_assoc. Qed.
Lemma instrs_text_one i : instrs_text [i] = instr_text i ++ nl.
Proof. cbn [instrs_text foldr]. by rewrite string_app_nil. Qed.
Lemma terms_text_app c1 c2 : terms_text (c1 ++ c2)%list = terms_text c1 ++ terms_text c2.
Proof. induction c1 as [|i c1 IH]; cbn [terms_text foldr app]; [done|]. fold (terms_text (c1 ++ c2)%list) (terms_text c1). by rewrite IH, !string_app_assoc. Qed.
Lemma emit_os line g : cg_os (emit line g) = cg_os g ++ line ++ nl.
Proof. done. Qed.
Opaque instr_text.

(** ** What the generator leaves *)
Context (vm : VarMap) (pm : PolicyMap) (protocol : string).
Definition ref_in (g : CodeGenerator) (r : Ref) : Prop := match r with RSubr s => s ∈ map fst (cg_subr g) | RSet s => s ∈ cg_sets g end.
Definition code_of (g : CodeGenerator) (s code : string) : Prop :=
  exists ps pi, pm !! s = Some ps /\ comp_policy vm protocol ps = Ok pi /\ code = policy_text pi /\ Forall (ref_in g) (refs_policy ps).
Definition known (g : CodeGenerator) : Prop := Forall (fun p => code_of g (fst p) (snd p)) (cg_subr g).
Definition grows (g g' : CodeGenerator) : Prop := forall r, ref_in g r -> ref_in g' r.
Lemma grows_refl g : grows g g.
Proof. by intros r. Qed.
Lemma grows_trans g1 g2 g3 : grows g1 g2 -> grows g2 g3 -> grows g1 g3.
Proof. intros H1 H2 r Hr. by apply H2, H1. Qed.
Lemma refs_grow g g' l : grows g g' -> Forall (ref_in g) l -> Forall (ref_in g') l.
Proof. intros Hg Hl. eapply Forall_impl; [exact Hl|]. apply Hg. Qed.
Lemma code_of_grow g g' s code : grows g g' -> code_of g s code -> code_of g' s code.
Proof. intros Hg (ps & pi & ? & ? & ? & ?). exists ps, pi. split_conj; try done. by eapply refs_grow. Qed.

Lemma string_ltb_total (a b : string) : String.ltb a b = false -> String.ltb b a = false -> a = b.
Proof.
  unfold String.ltb. intros Ha Hb. apply String.compare_eq_iff. rewrite String.compare_antisym in Hb.
  by destruct (a ?= b)%string.
Qed.
Lemma set_add_elem (x y : string) l : x ∈ set_add String.ltb y l <-> x = y \/ x ∈ l.
Proof.
  induction l as [|z l IH]; cbn; [by rewrite elem_of_cons|].
  destruct (String.ltb y z) eqn:E1; [by rewrite !elem_of_cons|]. destruct (String.ltb z y) eqn:E2; [rewrite !elem_of_cons, IH; tauto|].
  rewrite (string_ltb_total _ _ E1 E2), elem_of_cons. tauto.
Qed.
Lemma keys_insert {T} (k : string) (v : T) m x : x ∈ map fst (m_insert k v m) <-> x = k \/ x ∈ map fst m.
Proof.
  induction m as [|[a b] m IH]; cbn; [by rewrite elem_of_cons|]. unfold key_ltb, string_key.
  destruct (String.ltb k a) eqn:E1; [cbn; by rewrite !elem_of_cons|].
  destruct (String.ltb a k) eqn:E2; cbn; [rewrite !elem_of_cons, IH; tauto|]. rewrite (string_ltb_total _ _ E1 E2), elem_of_cons. tauto.
Qed.
Lemma m_insert_Forall {T} (P : string * T -> Prop) (k : string) (v : T) m : P (k, v) -> Forall P m -> Forall P (m_insert k v m).
Proof.
  intros Hv Hm. induction Hm as [|[a b] m Hab Hm IH]; cbn; [by repeat constructor|].
  repeat case_match; repeat constructor; done.
Qed.

(** A block of nodes: its text is appended, and what it refers to is kept. *)
Definition emits (g g' : CodeGenerator) (text : string) (refs : list Ref) : Prop :=
  cg_os g' = cg_os g ++ text /\ known g' /\ grows g g' /\ Forall (ref_in g') refs.
Lemma emits_trans g1 g2 g3 t1 t2 r1 r2 : emits g1 g2 t1 r1 -> emits g2 g3 t2 r2 -> emits g1 g3 (t1 ++ t2) (r1 ++ r2)%list.
Proof.
  intros (Ho1 & _ & Hg1 & Hr1) (Ho2 & Hk & Hg2 & Hr2). unfold emits. rewrite Ho2, Ho1, string_app_assoc. split_conj; [done..|by eapply grows_trans|].
  apply Forall_app. split; [by eapply refs_grow|done].
Qed.
Lemma emits_line g line : known g -> emits g (emit line g) (line ++ nl) [].
Proof. intros Hk. unfold emits. split_conj; [done..| |constructor]. by intros [?|?] ?. Qed.
Lemma emits_instr g i : known g -> emits g (emit (instr_text i) g) (instrs_text [i]) [].
Proof. intros Hk. rewrite instrs_text_one. by apply emits_line. Qed.
Lemma emits_same g g' t t' r r' : t = t' -> r = r' -> emits g g' t r -> emits g g' t' r'.
Proof. by intros -> ->. Qed.

Context (subr : string -> CodeGenerator -> result xorp_exn CodeGenerator).
Context (subr_ok : forall s g g', subr s g = Ok g' -> cg_os g = "" -> known g -> known g' /\ grows g g' /\ code_of g' s (cg_code g')).

Lemma gen_node_emits n : forall g g', gen_node vm protocol subr n g = Ok g' -> known g ->
  exists c, comp_node vm protocol n = Ok c /\ emits g g' (instrs_text c) (refs_node n).
Proof.
  induction n as [op n IH|op l IHl r IHr|v md r IH|v|s|e| | |p|f|s]; intros g g' Hg Hk; cbn in Hg |- *.
  - bind_ok Hg E. injection Hg as <-. destruct (IH _ _ E Hk) as (c & -> & He). exists (c ++ [NaryInstr op])%list. split; [done|].
    eapply emits_same; [symmetry; apply instrs_text_app|apply app_nil_r|]. eapply emits_trans; [exact He|]. apply (emits_instr _ (NaryInstr op)), He.
  - bind_ok Hg E1. bind_ok Hg E2. injection Hg as <-. destruct (IHr _ _ E1 Hk) as (cr & -> & He1). destruct (IHl _ _ E2 (proj1 (proj2 He1))) as (cl & -> & He2).
    exists (cr ++ cl ++ [NaryInstr op])%list. split; [done|]. rewrite !instrs_text_app.
    destruct (emits_trans _ _ _ _ _ _ _ He1 (emits_trans _ _ _ _ _ _ _ He2 (emits_instr _ (NaryInstr op) (proj1 (proj2 He2))))) as (Ho & Hk' & Hgr & Hr).
    unfold emits. split_conj; try done. rewrite app_nil_r in Hr. apply Forall_app in Hr as [??]. by apply Forall_app.
  - bind_ok Hg E. bind_ok Hg Ei. injection Hg as <-. destruct (IH _ _ E Hk) as (c & -> & He). rewrite Ei. cbn [result_bind]. eexists. split; [done|].
    rewrite instrs_text_app. eapply emits_same; [done|apply app_nil_r|]. eapply emits_trans; [exact He|]. destruct He as (_ & Hk' & _).
    destruct md as [op|]; [|by apply (emits_instr _ (Store a0))].
    change ([Load a0; NaryInstr op] ++ [Store a0])%list with ([Load a0] ++ [NaryInstr op] ++ [Store a0])%list. rewrite !instrs_text_app.
    exact (emits_trans _ _ _ _ _ [] [] (emits_instr a (Load a0) Hk') (emits_trans _ _ _ _ _ [] []
      (emits_instr (emit _ _) (NaryInstr op) Hk') (emits_instr (emit _ (emit _ _)) (Store a0) Hk'))).
  - bind_ok Hg E. injection Hg as <-. rewrite E. cbn [result_bind]. eexists. split; [done|]. by apply (emits_instr _ (Load a)).
  - injection Hg as <-. eexists. split; [done|]. rewrite instrs_text_one. set (g' := mkGen _ _ _ _).
    assert (Hgr : grows g g') by (intros [x|x] Hx; [done|]; cbn; apply set_add_elem; by right).
    unfold emits. split_conj; [done| |done|]; [|repeat constructor; cbn; apply set_add_elem; by left].
    eapply Forall_impl; [exact Hk|]. intros p. by apply code_of_grow.
  - injection Hg as <-. eexists. split; [done|]. by apply (emits_instr _ (Push e)).
  - injection Hg as <-. eexists. split; [done|]. by apply (emits_instr _ Accept).
  - injection Hg as <-. eexists. split; [done|]. by apply (emits_instr _ Reject).
  - done.
  - injection Hg as <-. eexists. split; [done|]. by apply (emits_instr _ (Next f)).
  - bind_ok Hg E. injection Hg as <-. eexists. split; [done|]. rewrite instrs_text_one.
    destruct (subr_ok _ _ _ E eq_refl Hk) as (Hk' & Hgr & Hc). set (g' := emit _ _).
    assert (Hgr' : grows a g') by (intros [x|x] Hx; [cbn; apply keys_insert; by right|done]).
    unfold emits. split_conj; [done| | |]; [|by intros r Hr; apply Hgr', Hgr|repeat constructor; cbn; apply keys_insert; by left].
    apply m_insert_Forall; [by apply (code_of_grow a)|]. eapply Forall_impl; [exact Hk'|]. intros p. by apply code_of_grow.
Qed.
Lemma gen_nodes_emits after c0 ns : (after = "" /\ c0 = [] \/ after = instr_text OnFalseExit /\ c0 = [OnFalseExit]) -> forall g g',
  gen_nodes vm protocol subr after ns g = Ok g' -> known g ->
  exists c, comp_nodes vm protocol c0 ns = Ok c /\ emits g g' (instrs_text c) (concat (map refs_node ns)).
Proof.
  intros Hafter. induction ns as [|n ns IH]; intros g g' Hg Hk; cbn in Hg |- *.
  - injection Hg as <-. exists []. split; [done|]. unfold emits. rewrite string_app_nil. split_conj; [done..|apply grows_refl|constructor].
  - bind_ok Hg E. destruct (gen_node_emits n _ _ E Hk) as (c & -> & He). cbn [result_bind].
    assert (He' : emits g (if decide (after = "") then a else emit after a) (instrs_text (c ++ c0)) (refs_node n)).
    { destruct Hafter as [[-> ->]|[-> ->]]; cbn [app]; [by rewrite app_nil_r|]. rewrite instrs_text_app.
      eapply emits_same; [done|apply app_nil_r|]. eapply emits_trans; [exact He|]. apply (emits_instr a OnFalseExit), He. }
    destruct (IH _ _ Hg (proj1 (proj2 He'))) as (cs & -> & Hes). eexists. split; [done|]. rewrite app_assoc, instrs_text_app. by eapply emits_trans.
Qed.
Lemma filter_refs (P : Ref -> Prop) p ns : Forall P (concat (map refs_node (List.filter (fun n => negb (p n)) ns))) ->
  Forall P (concat (map refs_node (List.filter p ns))) -> Forall P (concat (map refs_node ns)).
Proof.
  induction ns as [|n ns IH]; [done|]. cbn. destruct (p n); cbn [negb map concat]; intros H1 H2; apply Forall_app;
    [apply Forall_app in H2 as [??]|apply Forall_app in H1 as [??]]; auto.
Qed.
Lemma gen_term_emits t g g' : gen_term vm protocol subr t g = Ok g' -> known g ->
  exists ti, comp_term vm protocol t = Ok ti /\ emits g g' (term_text ti) (concat (map refs_node (t_source t ++ t_action t))).
Proof.
  unfold gen_term, comp_term. cbv zeta. intros Hg Hk. bind_ok Hg E1.
  destruct (gen_nodes_emits "ONFALSE_EXIT" [OnFalseExit] _ ltac:(by right) _ _ E1 Hk) as (c1 & -> & He1). cbn [result_bind].
  destruct (t_dest t); [|done]. bind_ok Hg E2. bind_ok Hg E3. injection Hg as <-.
  destruct (gen_nodes_emits "" [] _ ltac:(by left) _ _ E2 (proj1 (proj2 He1))) as (c2 & -> & He2).
  destruct (gen_nodes_emits "" [] _ ltac:(by left) _ _ E3 (proj1 (proj2 He2))) as (c3 & -> & He3). cbn [result_bind].
  eexists. split; [done|]. destruct (emits_trans _ _ _ _ _ _ _ (emits_line g ("TERM_START " ++ t_name t) Hk)
    (emits_trans _ _ _ _ _ _ _ He1 (emits_trans _ _ _ _ _ _ _ He2 (emits_trans _ _ _ _ _ _ _ He3 (emits_line _ "TERM_END" (proj1 (proj2 He3))))))) as (Ho & Hk' & Hgr & Hr).
  unfold emits. split_conj; [|done..|].
  - rewrite Ho. unfold term_text. cbn [ti_name ti_instrs]. by rewrite !instrs_text_app, !string_app_assoc.
  - rewrite !Forall_app in Hr. destruct Hr as (_ & Hr1 & Hr2 & Hr3 & _). rewrite map_app, concat_app. apply Forall_app. split; [done|]. by eapply filter_refs.
Qed.
Lemma gen_terms_emits ts : forall g g', gen_terms vm protocol subr ts g = Ok g' -> known g ->
  exists tis, comp_terms vm protocol ts = Ok tis /\ emits g g' (terms_text tis) (concat (map (fun t => concat (map refs_node (t_source t ++ t_action t))) ts)).
Proof.
  induction ts as [|t ts IH]; intros g g' Hg Hk; cbn in Hg |- *.
  - injection Hg as <-. exists []. split; [done|]. unfold emits. rewrite string_app_nil. split_conj; [done..|apply grows_refl|constructor].
  - bind_ok Hg E. destruct (gen_term_emits _ _ _ E Hk) as (ti & -> & He). destruct (IH _ _ Hg (proj1 (proj2 He))) as (tis & -> & Hes).
    eexists. split; [done|]. by eapply emits_trans.
Qed.
Lemma gen_policy_with_code ps g g' : gen_policy_with vm protocol subr ps g = Ok g' -> cg_os g = "" -> known g ->
  known g' /\ grows g g' /\ exists pi, comp_policy vm protocol ps = Ok pi /\ cg_code g' = policy_text pi /\ Forall (ref_in g') (refs_policy ps).
Proof.
  unfold gen_policy_with, comp_policy. intros Hg Hos Hk. bind_ok Hg E. injection Hg as <-.
  destruct (gen_terms_emits _ _ _ E Hk) as (tis & -> & Ho & Hk' & Hgr & Hr). split_conj; [done..|]. eexists. split_conj; [done| |done].
  cbn [cg_code]. unfold policy_text. cbn [pi_name pi_terms]. rewrite Ho, Hos. done.
Qed.
End Text.

(** The generator, and the policies it calls *)
Section Generated.
Context `{HO : HostOrder, AT : AddrText} (vm : VarMap) (pm : PolicyMap) (protocol : string).
Lemma gen_subr_code fuel : forall s g g', gen_subr vm pm protocol fuel s g = Ok g' -> cg_os g = ""%string -> known vm pm protocol g ->
  known vm pm protocol g' /\ grows g g' /\ code_of vm pm protocol g' s (cg_code g').
Proof.
  induction fuel as [|fuel IH]; [done|]. intros s g g' Hg Hos Hk. cbn in Hg. unfold pmap_find in Hg. destruct (pm !! s) as [ps|] eqn:E; [|done]. cbn in Hg.
  destruct (gen_policy_with_code vm pm protocol _ IH ps g g' Hg Hos Hk) as (Hk' & Hgr & pi & Hc & Hcode & Hr). split_conj; [done..|]. by exists ps, pi.
Qed.
Lemma visit_policy_code fuel ps g : visit_policy vm pm protocol fuel ps = Ok g ->
  known vm pm protocol g /\ exists pi, comp_policy vm protocol ps = Ok pi /\ cg_code g = policy_text pi /\ Forall (ref_in g) (refs_policy ps).
Proof.
  intros Hg. destruct (gen_policy_with_code vm pm protocol _ (gen_subr_code fuel) ps _ g Hg eq_refl) as (Hk & _ & H); [constructor|]. done.
Qed.
End Generated.

(** ** Numbers are read back *)
Lemma digit_cases (P : Z -> Prop) d : 0 <= d < 10 -> P 0 -> P 1 -> P 2 -> P 3 -> P 4 -> P 5 -> P 6 -> P 7 -> P 8 -> P 9 -> P d.
Proof.
  intros Hd. assert (Hc : d = 0 \/ d = 1 \/ d = 2 \/ d = 3 \/ d = 4 \/ d = 5 \/ d = 6 \/ d = 7 \/ d = 8 \/ d = 9) by lia.
  by repeat destruct Hc as [->|Hc]; [..|subst].
Qed.
Lemma digit_in_char d : 0 <= d < 10 -> digit_in 10 (digit_char d) = Some d.
Proof. intros Hd. by apply (digit_cases (fun d => digit_in 10 (digit_char d) = Some d)). Qed.
Lemma dec_digits_head f n s : 0 <= n -> exists d r, 0 <= d < 10 /\ dec_digits (S f) n s = String (digit_char d) r.
Proof.
  revert n s. induction f as [|f IH]; intros n s Hn; cbn [dec_digits]; cbv zeta; assert (Hm := Z.mod_pos_bound n 10 ltac:(lia)).
  - exists (n mod 10), s. split; [done|]. by destruct (n / 10 =? 0).
  - destruct (n / 10 =? 0); [by exists (n mod 10), s|]. apply IH. apply Z.div_pos; lia.
Qed.
Lemma dec_digits_all f n s : 0 <= n -> all_dec s = true -> all_dec (dec_digits f n s) = true.
Proof.
  revert n s. induction f as [|f IH]; intros n s Hn Hs; cbn [dec_digits]; cbv zeta; [done|]. assert (Hm := Z.mod_pos_bound n 10 ltac:(lia)).
  assert (Hs' : all_dec (String (digit_char (n mod 10)) s) = true) by (cbn [all_dec]; by rewrite digit_in_char).
  destruct (n / 10 =? 0); [done|]. apply IH; [apply Z.div_pos; lia|done].
Qed.
Lemma dec_digits_scan f n s : 0 <= n < 10 ^ Z.of_nat f -> (0 < f)%nat -> exists m, forall a, scan_num 10 a (dec_digits f n s) = scan_num 10 (a * m + n) s.
Proof.
  revert n s. induction f as [|f IH]; intros n s Hn Hf; [lia|]. cbn [dec_digits]. cbv zeta. assert (Hm := Z.mod_pos_bound n 10 ltac:(lia)).
  assert (Hstep : forall a, scan_num 10 a (String (digit_char (n mod 10)) s) = scan_num 10 (a * 10 + n mod 10) s) by (intros a; cbn [scan_num]; by rewrite digit_in_char).
  destruct (Z.eqb_spec (n / 10) 0) as [E|E].
  - exists 10. intros a. rewrite Hstep. f_equal. dlia.
  - destruct f as [|f]; [cbn in Hn; exfalso; dlia|].
    destruct (IH (n / 10) (String (digit_char (n mod 10)) s)) as [m Hs]; [|lia|].
    + rewrite Nat2Z.inj_succ, Z.pow_succ_r in Hn by lia. split; [apply Z.div_pos; lia|]. apply Z.div_lt_upper_bound; lia.
    + exists (m * 10). intros a. rewrite Hs, Hstep. f_equal. dlia.
Qed.
Lemma scan_digits n : 0 <= n < 2 ^ 63 -> scan_num 10 0 (dec_digits 20 n "") = n.
Proof. intros Hn. destruct (dec_digits_scan 20 n "") as [m Hs]; [lia|lia|]. by rewrite Hs. Qed.
Lemma read_digits n : 0 <= n < 2 ^ 63 -> read_num 10 (dec_digits 20 n "") = (false, n) /\ read_num 10 (String "-" (dec_digits 20 n "")) = (true, n).
Proof.
  intros Hn. assert (Hs := scan_digits n Hn). unfold read_num. destruct (dec_digits_head 19 n "" ltac:(lia)) as (d & r & Hd & E). rewrite E in *. split.
  - assert (Hsk : read_sign (skip_space (String (digit_char d) r)) = (false, String (digit_char d) r)).
    { by apply (digit_cases (fun d => read_sign (skip_space (String (digit_char d) r)) = (false, String (digit_char d) r)) d). }
    rewrite Hsk. cbn [find_base negb Z.eqb]. by rewrite Hs.
  - change (read_sign (skip_space (String "-" ?x))) with (true, x). cbn [find_base negb Z.eqb]. by rewrite Hs.
Qed.
Lemma strtoul_dec n : 0 <= n < 2 ^ 63 -> c_strtoul 10 (dec_str n) = n.
Proof.
  intros Hn. unfold c_strtoul, dec_str. rewrite (proj2 (Z.ltb_ge _ _)) by lia. rewrite (proj1 (read_digits n Hn)). by rewrite (proj2 (Z.ltb_ge _ _)) by lia.
Qed.
Lemma strtol_dec n : - 2 ^ 63 < n < 2 ^ 63 -> c_strtol 10 (dec_str n) = n.
Proof.
  intros Hn. unfold c_strtol, dec_str. destruct (Z.ltb_spec n 0).
  - rewrite (proj2 (read_digits (- n) ltac:(lia))). lia.
  - rewrite (proj1 (read_digits n ltac:(lia))). lia.
Qed.
Lemma parse_id_dec id : 0 <= id < 2 ^ 31 -> parse_id (dec_str id) = Ok id.
Proof.
  intros Hn. unfold parse_id. assert (Hul := strtoul_dec id ltac:(lia)). unfold dec_str in *. rewrite (proj2 (Z.ltb_ge _ _)) in * by lia.
  assert (Hall := dec_digits_all 20 id "" ltac:(lia) eq_refl). destruct (dec_digits_head 19 id "" ltac:(lia)) as (d & r & Hd & E). rewrite E in *.
  assert (Hsk : read_sign (skip_space (String (digit_char d) r)) = (false, String (digit_char d) r)).
  { by apply (digit_cases (fun d => read_sign (skip_space (String (digit_char d) r)) = (false, String (digit_char d) r)) d). }
  rewrite Hsk, Hall, Hul. f_equal. unfold s32. rewrite Z.mod_small; lia.
Qed.

(** ** The scanner *)
Fixpoint all_chars (p : ascii -> bool) (s : string) : bool := match s with EmptyString => true | String c s => p c && all_chars p s end.
Definition word_char (c : ascii) : bool := negb (bool_decide (c = quote_char \/ c = nl_char)) && negb (is_blank c).
Definition is_word (w : string) : bool := negb (bool_decide (w = ""%string)) && all_chars word_char w.
(** A name that the grammar takes, and a text that can stand between quotes *)
Definition name_ok (w : string) : bool := is_word w && negb (is_keyword w).
Definition quotable (s : string) : bool := negb (bool_decide (s = ""%string)) && all_chars (fun c => negb (bool_decide (c = quote_char))) s.

Lemma scan_word w : forall acc rest, all_chars word_char w = true -> scan false acc (w ++ rest) = scan false (acc ++ w) rest.
Proof.
  induction w as [|c w IH]; intros acc rest Hw; [by rewrite string_app_nil|]. cbn in Hw. bool_prop. unfold word_char in H. bool_prop.
  apply bool_decide_eq_false in H. change (String c w ++ rest)%string with (String c (w ++ rest)). cbn [scan].
  rewrite decide_False by tauto. rewrite decide_False by tauto. rewrite H1, IH by done. by rewrite string_app_assoc.
Qed.
Lemma scan_quoted v : forall acc rest, all_chars (fun c => negb (bool_decide (c = quote_char))) v = true ->
  scan true acc (v ++ String quote_char rest) = arg_token (acc ++ v) ++ scan false "" rest.
Proof.
  induction v as [|c v IH]; intros acc rest Hw; [change ("" ++ String quote_char rest)%string with (String quote_char rest); cbn [scan]; rewrite decide_True by done; by rewrite string_app_nil|].
  cbn in Hw. bool_prop. apply bool_decide_eq_false in H. change (String c v ++ String quote_char rest)%string with (String c (v ++ String quote_char rest)). cbn [scan].
  rewrite decide_False by done. rewrite IH by done. by rewrite string_app_assoc.
Qed.
Lemma word_parts w : is_word w = true -> w <> ""%string /\ all_chars word_char w = true.
Proof. unfold is_word. intros Hw. bool_prop. apply bool_decide_eq_false in H. done. Qed.
Lemma word_token_word w : is_word w = true -> word_token w = [if is_keyword w then KW w else ARG w].
Proof. intros [Hw _]%word_parts. by destruct w. Qed.
(** A word before a blank, and at the end of a line *)
Lemma scan_blank w rest : is_word w = true -> scan false "" (w ++ String " " rest) = word_token w ++ scan false "" rest.
Proof. intros [_ Hw]%word_parts. by rewrite scan_word by done. Qed.
Lemma scan_nl w rest : is_word w = true -> scan false "" (w ++ nl ++ rest) = word_token w ++ NL :: scan false "" rest.
Proof. intros [_ Hw]%word_parts. by rewrite scan_word by done. Qed.
Lemma scan_text v rest : quotable v = true -> scan false "" (quote ++ v ++ quote ++ nl ++ rest) = ARG v :: NL :: scan false "" rest.
Proof.
  unfold quotable. intros Hv. bool_prop. apply bool_decide_eq_false in H. change (quote ++ v ++ quote ++ nl ++ rest)%string with (String quote_char (v ++ String quote_char (nl ++ rest))).
  cbn [scan]. rewrite decide_True by done. rewrite scan_quoted by done. cbn [append]. by destruct v.
Qed.

Ltac no_nl := cbn; repeat (apply not_elem_of_cons; split; [done|]); apply not_elem_of_nil.

(** Texts that are lines of tokens *)
Definition line_toks (ls : list (list token)) : list token := concat (map (fun l => l ++ [NL]) ls).
Definition reads (text : string) (ls : list (list token)) : Prop := Forall (fun l => NL ∉ l) ls /\ forall rest, scan false "" (text ++ rest) = line_toks ls ++ scan false "" rest.
Lemma reads_nil : reads "" [].
Proof. split; [constructor|done]. Qed.
Lemma reads_app t1 t2 l1 l2 : reads t1 l1 -> reads t2 l2 -> reads (t1 ++ t2) (l1 ++ l2).
Proof.
  intros [N1 H1] [N2 H2]. split; [by apply Forall_app|]. intros rest. unfold line_toks. rewrite string_app_assoc, H1, H2, map_app, concat_app.
  by rewrite app_assoc.
Qed.
Lemma reads_line text l : NL ∉ l -> (forall rest, scan false "" (text ++ nl ++ rest) = l ++ NL :: scan false "" rest) -> reads (text ++ nl) [l].
Proof.
  intros Hn Hs. split; [by repeat constructor|]. intros rest. unfold line_toks. cbn [map concat]. rewrite app_nil_r, <- app_assoc, string_app_assoc. apply Hs.
Qed.
Lemma token_lines_app l : forall ts acc, NL ∉ l -> token_lines (l ++ NL :: ts) acc = match token_lines ts [] with Some ls => Some ((acc ++ l) :: ls) | None => None end.
Proof.
  induction l as [|t l IH]; intros ts acc Hn; cbn [app token_lines]; [by rewrite app_nil_r|]. apply not_elem_of_cons in Hn as [Ht Hl].
  destruct t; [..|done]; rewrite IH by done; by rewrite <- app_assoc.
Qed.
Lemma token_lines_reads text ls : reads text ls -> token_lines (scan false "" text) [] = Some ls.
Proof.
  intros [Hn Hs]. specialize (Hs ""%string). rewrite string_app_nil in Hs. rewrite Hs. cbn [scan word_token]. rewrite app_nil_r. clear Hs.
  unfold line_toks. induction Hn as [|l ls Hl Hn IH]; [done|]. cbn [map concat]. rewrite <- app_assoc. cbn [app]. rewrite token_lines_app by done. by rewrite IH.
Qed.

(** ** The lines of the instructions *)
Section Lines.
Context `{HO : HostOrder, AT : AddrText}.
(** The element can be quoted and made again. *)
Definition elem_ok (e : Elem) : bool := quotable (elem_str e) && bool_decide (elem_create (elem_type e) (Some (elem_str e)) = Ok e).
Definition id_ok (id : Z) : bool := (0 <=? id) && (id <? 2 ^ 31).
Definition instr_ok (i : Instr) : bool :=
  match i with
  | Push e => elem_ok e
  | PushSet s | Subr s => name_ok s
  | Load id | Store id => id_ok id
  | _ => true
  end.
Definition instr_tokens (i : Instr) : list token :=
  match i with
  | Push e => [KW "PUSH"; ARG (elem_type e); ARG (elem_str e)]
  | PushSet s => [KW "PUSH_SET"; ARG s]
  | OnFalseExit => [KW "ONFALSE_EXIT"]
  | Load id => [KW "LOAD"; ARG (dec_str id)]
  | Store id => [KW "STORE"; ARG (dec_str id)]
  | Accept => [KW "ACCEPT"]
  | Reject => [KW "REJECT"]
  | Next f => [KW "NEXT"; KW (flow_str f)]
  | Subr s => [KW "POLICY"; ARG s]
  | NaryInstr op => [KW (oper_str op)]
  end%string.

Lemma name_token s : name_ok s = true -> is_word s = true /\ word_token s = [ARG s].
Proof. unfold name_ok. intros H. bool_prop. split; [done|]. rewrite word_token_word by done. by rewrite H0. Qed.
Lemma type_name e : name_ok (elem_type e) = true.
Proof. by destruct e. Qed.
Lemma all_chars_dec s : all_dec s = true -> all_chars word_char s = true.
Proof.
  induction s as [|c s IH]; [done|]. cbn. destruct (digit_in 10 c) eqn:E; [|done]. intros Hs. rewrite IH by done. rewrite andb_true_r.
  destruct c as [[] [] [] [] [] [] [] []]; done.
Qed.
Lemma dec_name id : 0 <= id -> name_ok (dec_str id) = true.
Proof.
  intros Hid. unfold dec_str. rewrite (proj2 (Z.ltb_ge _ _)) by lia. assert (Ha := all_chars_dec _ (dec_digits_all 20 id "" ltac:(lia) eq_refl)).
  destruct (dec_digits_head 19 id "" ltac:(lia)) as (d & r & Hd & E). rewrite E in *. unfold name_ok, is_word. rewrite Ha, bool_decide_eq_false_2 by done. cbn [negb andb].
  apply negb_true_iff. destruct (is_keyword _) eqn:Ek; [exfalso|done]. unfold is_keyword in Ek. apply existsb_exists in Ek as (k & Hin & Hk). apply bool_decide_eq_true in Hk.
  assert (Hall : forallb (fun k => match k with String c _ => match digit_in 10 c with Some _ => false | None => true end | _ => true end) keywords = true) by done.
  rewrite forallb_forall in Hall. specialize (Hall _ Hin). rewrite Hk, digit_in_char in Hall by done. done.
Qed.
(** A keyword with a name *)
Lemma reads_kw_name k s : is_word k = true -> is_keyword k = true -> name_ok s = true -> reads ((k ++ String " " s) ++ nl) [[KW k; ARG s]].
Proof.
  intros Hk Hkw Hs. destruct (name_token _ Hs) as [Hw Ht]. apply reads_line; [no_nl|]. intros rest. rewrite string_app_assoc.
  change (String " " s ++ nl ++ rest)%string with (String " " (s ++ nl ++ rest)). rewrite scan_blank, scan_nl, (word_token_word _ Hk), Hkw, Ht by done. done.
Qed.
Lemma reads_kw k : is_word k = true -> is_keyword k = true -> reads (k ++ nl) [[KW k]].
Proof. intros Hk Hkw. apply reads_line; [no_nl|]. intros rest. by rewrite scan_nl, (word_token_word _ Hk), Hkw. Qed.
Transparent instr_text.
Lemma reads_instr i : instr_ok i = true -> reads (instr_text i ++ nl) [instr_tokens i].
Proof.
  destruct i as [e|s| |id|id| | |f|s|op]; intros Hok; cbn in Hok.
  - unfold elem_ok in Hok. bool_prop. destruct (name_token _ (type_name e)) as [Hw Ht]. apply reads_line; [no_nl|]. intros rest. cbn [instr_text instr_tokens].
    rewrite !string_app_assoc. change ("PUSH " ++ ?x)%string with ("PUSH" ++ String " " x)%string. rewrite scan_blank by done.
    change (" " ++ ?x)%string with (String " " x). rewrite scan_blank, Ht, scan_text by done. done.
  - by apply (reads_kw_name "PUSH_SET").
  - by apply (reads_kw "ONFALSE_EXIT").
  - unfold id_ok in Hok. bool_prop. apply (reads_kw_name "LOAD"); [done..|by apply dec_name].
  - unfold id_ok in Hok. bool_prop. apply (reads_kw_name "STORE"); [done..|by apply dec_name].
  - by apply (reads_kw "ACCEPT").
  - by apply (reads_kw "REJECT").
  - destruct f; (apply reads_line; [no_nl|done]).
  - by apply (reads_kw_name "POLICY").
  - apply reads_kw; by destruct op.
Qed.
Lemma reads_instrs c : forallb instr_ok c = true -> reads (instrs_text c) (map instr_tokens c).
Proof.
  induction c as [|i c IH]; cbn [forallb instrs_text foldr map]; intros Hok; [apply reads_nil|]. bool_prop. rewrite <- string_app_assoc.
  apply (reads_app _ _ [_]); [by apply reads_instr|by apply IH].
Qed.

(** ** The lines of terms and policies *)
Definition term_instr_ok (t : TermInstr) : bool := name_ok (ti_name t) && forallb instr_ok (ti_instrs t).
Definition policy_instr_ok (p : PolicyInstr) : bool := name_ok (pi_name p) && forallb term_instr_ok (pi_terms p).
Definition term_lines (t : TermInstr) : list (list token) := ([KW "TERM_START"; ARG (ti_name t)] :: map instr_tokens (ti_instrs t) ++ [[KW "TERM_END"]])%string.
Definition policy_lines (p : PolicyInstr) : list (list token) :=
  ([KW "POLICY_START"; ARG (pi_name p)] :: concat (map term_lines (pi_terms p)) ++ [[KW "POLICY_END"]])%string.
Lemma reads_term t : term_instr_ok t = true -> reads (term_text t) (term_lines t).
Proof.
  unfold term_instr_ok. intros Hok. bool_prop. unfold term_text, term_lines. change ("TERM_START " ++ ?x)%string with ("TERM_START" ++ String " " x)%string.
  replace ("TERM_START" ++ String " " (ti_name t ++ nl ++ instrs_text (ti_instrs t) ++ "TERM_END" ++ nl))%string
    with ((("TERM_START" ++ String " " (ti_name t)) ++ nl) ++ instrs_text (ti_instrs t) ++ "TERM_END" ++ nl)%string by (by rewrite !string_app_assoc).
  apply (reads_app _ _ [_]); [by apply reads_kw_name|]. apply reads_app; [by apply reads_instrs|by apply reads_kw].
Qed.
Lemma reads_terms ts : forallb term_instr_ok ts = true -> reads (terms_text ts) (concat (map term_lines ts)).
Proof.
  induction ts as [|t ts IH]; cbn [forallb terms_text foldr map concat]; intros Hok; [apply reads_nil|]. bool_prop.
  apply reads_app; [by apply reads_term|by apply IH].
Qed.
Lemma reads_policy p : policy_instr_ok p = true -> reads (policy_text p) (policy_lines p).
Proof.
  unfold policy_instr_ok. intros Hok. bool_prop. unfold policy_text, policy_lines.
  replace ("POLICY_START " ++ pi_name p ++ nl ++ terms_text (pi_terms p) ++ "POLICY_END" ++ nl)%string
    with ((("POLICY_START" ++ String " " (pi_name p)) ++ nl) ++ terms_text (pi_terms p) ++ "POLICY_END" ++ nl)%string by (by rewrite !string_app_assoc).
  apply (reads_app _ _ [_]); [by apply reads_kw_name|]. apply reads_app; [by apply reads_terms|by apply reads_kw].
Qed.

(** ** The grammar *)
Lemma parse_statement_instr i : instr_ok i = true -> parse_statement (instr_tokens i) = Ok i.
Proof.
  destruct i as [e|s| |id|id| | |f|s|op]; intros Hok; cbn in Hok; try done.
  - unfold elem_ok in Hok. bool_prop. apply bool_decide_eq_true in H0. cbn. by rewrite H0.
  - unfold id_ok in Hok. bool_prop. cbn. by rewrite parse_id_dec.
  - unfold id_ok in Hok. bool_prop. cbn. by rewrite parse_id_dec.
  - by destruct f.
  - by destruct op.
Qed.
Lemma parse_line_instr i p sub name ts t is_ : instr_ok i = true -> pa_place p = InTerm sub name ts t is_ ->
  parse_line (instr_tokens i) p = Ok (mkParse (pa_policies p) (pa_sets p) (pa_subr p) (pa_trace p || bool_decide (i = Store VAR_TRACE)) (InTerm sub name ts t (is_ ++ [i]))).
Proof.
  intros Hok Hp. assert (Hi := parse_statement_instr i Hok). unfold parse_line. rewrite Hp. destruct i as [e|s| |id|id| | |f|s|op];
    [..|destruct op]; cbn [instr_tokens] in *; by rewrite Hi.
Qed.
Lemma parse_lines_app l1 l2 p p' : parse_lines l1 p = Ok p' -> parse_lines (l1 ++ l2) p = parse_lines l2 p'.
Proof.
  revert p. induction l1 as [|l l1 IH]; intros p H; cbn in H |- *; [by injection H as ->|]. destruct (parse_line l p) eqn:E; [|done]. cbn in H |- *. by apply IH.
Qed.
Definition stores_here (c : list Instr) : bool := existsb (fun i => bool_decide (i = Store VAR_TRACE)) c.
Lemma parse_instrs c : forall p sub name ts t is_, forallb instr_ok c = true -> pa_place p = InTerm sub name ts t is_ ->
  parse_lines (map instr_tokens c) p = Ok (mkParse (pa_policies p) (pa_sets p) (pa_subr p) (pa_trace p || stores_here c) (InTerm sub name ts t (is_ ++ c))).
Proof.
  induction c as [|i c IH]; intros p sub name ts t is_ Hok Hp; cbn [map parse_lines forallb] in *.
  - rewrite app_nil_r. unfold stores_here. cbn. rewrite orb_false_r, <- Hp. by destruct p.
  - bool_prop. rewrite (parse_line_instr i p _ _ _ _ _ H Hp). cbn [result_bind]. erewrite IH; [|done|reflexivity]. cbn. by rewrite <- orb_assoc, <- app_assoc.
Qed.
Lemma parse_terms ts : forall p sub name ts0, forallb term_instr_ok ts = true -> pa_place p = InPolicy sub name ts0 ->
  parse_lines (concat (map term_lines ts)) p = Ok (mkParse (pa_policies p) (pa_sets p) (pa_subr p) (pa_trace p || stores_trace ts) (InPolicy sub name (ts0 ++ ts))).
Proof.
  induction ts as [|t ts IH]; intros p sub name ts0 Hok Hp; cbn [map concat] in *.
  - rewrite app_nil_r. unfold stores_trace. cbn. rewrite orb_false_r, <- Hp. by destruct p.
  - cbn [forallb] in Hok. bool_prop. unfold term_instr_ok in H. bool_prop. unfold term_lines. rewrite <- app_comm_cons, <- app_assoc. cbn [parse_lines]. unfold parse_line at 1. rewrite Hp.
    cbn [result_bind]. erewrite parse_lines_app; [|by apply parse_instrs]. cbn [app parse_lines parse_line pa_place result_bind go_to].
    erewrite IH; [|done|reflexivity]. cbn. rewrite <- orb_assoc, <- app_assoc. destruct t; done.
Qed.
Lemma parse_policy (pi : PolicyInstr) (sub : bool) p : policy_instr_ok pi = true -> pi_trace pi = stores_trace (pi_terms pi) -> pa_trace p = false ->
  pa_place p = (if sub then AtSubr else AtTop) -> parse_lines (policy_lines pi) p =
    Ok (if sub then mkParse (pa_policies p) (pa_sets p) (<[pi_name pi := pi]> (pa_subr p)) false AtSubr
        else mkParse (pa_policies p ++ [pi]) (pa_sets p) (pa_subr p) false AtTop).
Proof.
  unfold policy_instr_ok. intros Hok Htr Ht Hp. bool_prop. unfold policy_lines. cbn [parse_lines]. unfold parse_line at 1. rewrite Hp. destruct sub; cbn [result_bind];
    (erewrite parse_lines_app; [|by apply parse_terms]); cbn; rewrite Ht; unfold end_policy; cbn; destruct pi; cbn in *; by rewrite Htr.
Qed.
End Lines.

(** ** Elements that can be made again from their texts *)
Definition digit_only (s : string) : Prop := s <> ""%string /\ all_dec s = true.
Lemma dec_digit_only n : 0 <= n -> digit_only (dec_str n).
Proof.
  intros Hn. unfold dec_str. rewrite (proj2 (Z.ltb_ge _ _)) by lia. split; [|by apply dec_digits_all].
  destruct (dec_digits_head 19 n "" Hn) as (d & r & _ & E). by rewrite E.
Qed.
Lemma digits_ind (P : string -> Prop) : P ""%string -> (forall d s, 0 <= d < 10 -> all_dec s = true -> P s -> P (String (digit_char d) s)) ->
  forall s, all_dec s = true -> P s.
Proof.
  intros H0 Hs. induction s as [|c s IH]; [done|]. cbn. destruct (digit_in 10 c) as [d|] eqn:E; [|done]. intros Ha.
  assert (Hc : 0 <= d < 10 /\ c = digit_char d) by (destruct c as [[] [] [] [] [] [] [] []]; try discriminate E; by injection E as <-).
  destruct Hc as [Hd ->]. auto.
Qed.
Lemma digits_quotable s : digit_only s -> quotable s = true.
Proof.
  intros [Hne Ha]. unfold quotable. rewrite (bool_decide_eq_false_2 _ Hne). cbn [negb andb]. clear Hne. revert s Ha.
  apply (digits_ind (fun s => all_chars (fun c => negb (bool_decide (c = quote_char))) s = true)); [done|]. intros d s Hd _ IH. cbn [all_chars]. rewrite IH, andb_true_r. by apply (digit_cases (fun d => negb (bool_decide (digit_char d = quote_char)) = true) d).
Qed.
Lemma dec_quotable n : quotable (dec_str n) = true.
Proof.
  destruct (Z.ltb_spec n 0) as [Hn|Hn]; [|by apply digits_quotable, dec_digit_only].
  assert (Hq := digits_quotable _ (dec_digit_only (- n) ltac:(lia))). unfold quotable, dec_str in *. rewrite (proj2 (Z.ltb_ge (- n) 0)) in Hq by lia.
  rewrite (proj2 (Z.ltb_lt n 0)) by lia. apply andb_true_iff in Hq as [_ Hq]. exact Hq.
Qed.
Lemma strip_digits s r : all_dec s = true -> strip_ws (s ++ r) = (s ++ strip_ws r)%string.
Proof.
  revert s. apply (digits_ind (fun s => strip_ws (s ++ r) = (s ++ strip_ws r)%string)); [done|]. intros d s Hd _ IH.
  change (String (digit_char d) s ++ r)%string with (String (digit_char d) (s ++ r)). change (String (digit_char d) s ++ strip_ws r)%string with (String (digit_char d) (s ++ strip_ws r)).
  cbn [strip_ws]. by rewrite (digit_cases (fun d => is_space (digit_char d) = false) d), IH.
Qed.
Lemma split_digit d s : 0 <= d < 10 -> split_commas (String (digit_char d) s) = match split_commas s with [] => [String (digit_char d) ""] | t :: ts => String (digit_char d) t :: ts end%string.
Proof. intros Hd. by apply (digit_cases (fun d => split_commas (String (digit_char d) s) = match split_commas s with [] => [String (digit_char d) ""] | t :: ts => String (digit_char d) t :: ts end%string) d). Qed.
Lemma split_digits s r : all_dec s = true -> split_commas (s ++ String "," r) = s :: split_commas r.
Proof.
  revert s. apply (digits_ind (fun s => split_commas (s ++ String "," r) = s :: split_commas r)); [done|]. intros d s Hd _ IH.
  change (String (digit_char d) s ++ String "," r)%string with (String (digit_char d) (s ++ String "," r)). by rewrite split_digit, IH.
Qed.
Lemma split_last s : digit_only s -> split_commas s = [s].
Proof.
  intros [Hne Ha]. assert (Hd : split_commas s = match s with ""%string => [] | _ => [s] end); [|by destruct s]. revert Ha. clear Hne. revert s.
  apply (digits_ind (fun s => split_commas s = match s with ""%string => [] | _ => [s] end)); [done|]. intros d r Hd _ IH. rewrite split_digit, IH by done. by destruct r.
Qed.
(** [str_to_list] is the inverse of [join_commas] on numbers. *)
Lemma list_of_numbers l : Forall digit_only l -> str_to_list (join_commas l) = l.
Proof.
  unfold str_to_list. intros Hl. assert (Hs : strip_ws (join_commas l) = join_commas l).
  { induction Hl as [|x l [_ Hx] Hl IH]; [done|]. destruct l as [|y l]; [pose proof (strip_digits x "" Hx) as E; by rewrite !string_app_nil in E|].
    change (join_commas (x :: y :: l)) with (x ++ String "," (join_commas (y :: l)))%string. rewrite strip_digits by done. cbn [strip_ws].
    change (is_space ",") with false. cbv iota. by rewrite IH. }
  rewrite Hs. clear Hs. induction Hl as [|x l Hx Hl IH]; [done|]. destruct l as [|y l]; [by apply split_last|].
  change (join_commas (x :: y :: l)) with (x ++ String "," (join_commas (y :: l)))%string. rewrite split_digits by apply Hx. by rewrite IH.
Qed.

Section SetRead.
Context {T : Type} (ltb : T -> T -> bool) (Htri : forall x y, ltb x y = false -> ltb y x = false -> x = y).
Lemma elem_of_set_add x y l : y ∈ set_add ltb x l <-> y = x \/ y ∈ l.
Proof.
  induction l as [|z l IH]; cbn; [rewrite list_elem_of_singleton, elem_of_nil; tauto|]. destruct (ltb x z) eqn:E1; [by rewrite elem_of_cons|].
  destruct (ltb z x) eqn:E2; [rewrite !elem_of_cons, IH; tauto|]. rewrite (Htri x z) by done. rewrite elem_of_cons. tauto.
Qed.
Lemma elem_of_set_add_all y l : forall s, y ∈ set_add_all ltb l s <-> y ∈ l \/ y ∈ s.
Proof. induction l as [|x l IH]; intros s; cbn; [rewrite elem_of_nil; tauto|]. unfold set_add_all in IH. rewrite IH, elem_of_set_add, elem_of_cons. tauto. Qed.
End SetRead.
Lemma string_tri (x y : string) : String.ltb x y = false -> String.ltb y x = false -> x = y.
Proof.
  unfold String.ltb. rewrite (String.compare_antisym x y). destruct (String.compare y x) eqn:E; try done. intros _ _. symmetry. by apply String.compare_eq_iff.
Qed.
Lemma Z_tri x y : (x <? y) = false -> (y <? x) = false -> x = y.
Proof. intros ?%Z.ltb_ge ?%Z.ltb_ge. lia. Qed.
Lemma set_add_sorted (x : Z) l : StronglySorted Z.lt l -> StronglySorted Z.lt (set_add Z.ltb x l).
Proof.
  induction 1 as [|y l Hl IH Hy]; cbn; [repeat constructor|]. destruct (Z.ltb_spec x y); [constructor; [by constructor|]; constructor; [done|]; eapply Forall_impl; [exact Hy|]; cbn; lia|].
  destruct (Z.ltb_spec y x); [|by constructor]. constructor; [done|]. apply Forall_forall. intros z Hz. apply (elem_of_set_add _ Z_tri) in Hz as [->|Hz]; [done|].
  rewrite Forall_forall in Hy. by apply Hy.
Qed.
Lemma set_add_all_sorted (l : list Z) : forall s, StronglySorted Z.lt s -> StronglySorted Z.lt (set_add_all Z.ltb l s).
Proof. induction l as [|x l IH]; intros s Hs; [done|]. apply IH. by apply set_add_sorted. Qed.
Lemma sorted_nodup (l : list Z) : StronglySorted Z.lt l -> NoDup l.
Proof. induction 1 as [|x l Hl IH Hx]; constructor; [|done]. intros Hin. rewrite Forall_forall in Hx. specialize (Hx x Hin). lia. Qed.
Lemma sorted_same (l l' : list Z) : StronglySorted Z.lt l -> StronglySorted Z.lt l' -> (forall x, x ∈ l <-> x ∈ l') -> l = l'.
Proof.
  intros Hl Hl' He. apply (StronglySorted_unique_strong Z.lt); [intros; lia|done|done|]. apply NoDup_Permutation; [by apply sorted_nodup..|done].
Qed.
Lemma parse_all_total {T} (f : string -> T) l : parse_all (fun s => Ok (f s)) l = Ok (map f l).
Proof. induction l as [|s l IH]; [done|]. cbn. by rewrite IH. Qed.

Section Plain.
Context `{HO : HostOrder, AT : AddrText}.
Lemma u32_parse_dec n : 0 <= n < 2 ^ 32 -> u32_parse (dec_str n) = n.
Proof. intros Hn. unfold u32_parse. rewrite strtoul_dec by lia. by apply Z.mod_small. Qed.
Lemma set_u32_read l : l <> [] -> StronglySorted Z.lt l -> Forall (fun n => 0 <= n < 2 ^ 32) l ->
  set_parse Z.ltb (fun s => Ok (u32_parse s)) (join_commas (map dec_str l)) = Ok l.
Proof.
  intros Hne Hs Hr. unfold set_parse. rewrite list_of_numbers, parse_all_total.
  2:{ apply Forall_map. eapply Forall_impl; [exact Hr|]. intros n [Hn _]. by apply dec_digit_only. }
  cbn [result_bind]. f_equal. apply sorted_same; [apply set_add_all_sorted; constructor|done|]. intros x.
  rewrite (elem_of_set_add_all _ Z_tri). rewrite list_elem_of_fmap. setoid_rewrite (elem_of_set_add_all _ string_tri). setoid_rewrite list_elem_of_fmap.
  rewrite Forall_forall in Hr. split.
  - intros [(t & -> & [(n & -> & Hn)|Hn%elem_of_nil])|Hn%elem_of_nil]; [|done..]. by rewrite u32_parse_dec by auto.
  - intros Hx. left. exists (dec_str x). rewrite u32_parse_dec by auto. eauto.
Qed.

(** Numbers, booleans, strings and sets of numbers satisfy the condition of the round trip; so do the addresses and subnets
    whose texts [inet_ntop] and [inet_pton] exchange. *)
Definition plain (e : Elem) : Prop :=
  match e with
  | EU32 n => 0 <= n < 2 ^ 32
  | EInt32 n => - 2 ^ 31 <= n < 2 ^ 31
  | EBool _ | ENull => True
  | EStr s => quotable s = true
  | ESetU32 l => l <> [] /\ StronglySorted Z.lt l /\ Forall (fun n => 0 <= n < 2 ^ 32) l
  | EIPv4 a => quotable (ipv4_text a) = true /\ ipv4_parse (ipv4_text a) = Ok a
  | EIPv6 a => quotable (ipv6_text a) = true /\ ipv6_parse (ipv6_text a) = Ok a
  | _ => False
  end.
Lemma all_chars_comma (p : ascii -> bool) x r : all_chars p x = true -> p "," %char = true -> all_chars p r = true -> all_chars p (x ++ String "," r) = true.
Proof.
  intros Hx Hc Hr. induction x as [|c x IH]; [by apply andb_true_iff|]. apply andb_true_iff in Hx as [Hx Hx']. apply andb_true_iff. by split; [|apply IH].
Qed.
Lemma join_quotable l : l <> [] -> Forall digit_only l -> quotable (join_commas l) = true.
Proof.
  intros Hne Hl. unfold quotable. apply andb_true_iff. split.
  - destruct Hl as [|x l [Hx _] Hl]; [done|]. destruct x; [done|]. by destruct l.
  - clear Hne. induction Hl as [|x l Hx Hl IH]; [done|]. assert (Hq := digits_quotable x Hx). unfold quotable in Hq. apply andb_true_iff in Hq as [_ Hq].
    destruct l as [|y l]; [done|]. change (join_commas (x :: y :: l)) with (x ++ String "," (join_commas (y :: l)))%string. by apply all_chars_comma.
Qed.
Lemma plain_ok (e : Elem) : plain e -> elem_ok e = true.
Proof.
  intros Hp. unfold elem_ok. apply andb_true_iff. split.
  - destruct e; cbn in Hp |- *; try done; try apply Hp; try apply dec_quotable; try by case_match.
    destruct Hp as (Hne & _ & Hr). apply join_quotable; [by intros ?%map_eq_nil|]. apply Forall_map. eapply Forall_impl; [exact Hr|]. intros n [Hn _]. by apply dec_digit_only.
  - apply bool_decide_eq_true. destruct e as [n|n| | |b|a|a| | | | | |l| | | | | | | | |]; cbn in Hp; try done.
    + change (Ok (EInt32 (s32 (c_strtol 10 (dec_str n)))) = (Ok (EInt32 n) : result xorp_exn Elem)). rewrite strtol_dec by lia. unfold s32.
      rewrite Z.mod_small by lia. do 2 f_equal. lia.
    + change (Ok (EU32 (u32_parse (dec_str n))) = (Ok (EU32 n) : result xorp_exn Elem)). by rewrite u32_parse_dec.
    + by destruct b.
    + change ((v <-! catch_init (ipv4_parse (ipv4_text a)) ;; Ok (EIPv4 v)) = Ok (EIPv4 a)). by destruct Hp as [_ ->].
    + change ((v <-! catch_init (ipv6_parse (ipv6_text a)) ;; Ok (EIPv6 v)) = Ok (EIPv6 a)). by destruct Hp as [_ ->].
    + change ((v <-! set_parse Z.ltb (fun s => Ok (u32_parse s)) (join_commas (map dec_str l)) ;; Ok (ESetU32 v)) = Ok (ESetU32 l)).
      destruct Hp as (Hne & Hs & Hr). by rewrite set_u32_read.
Qed.
End Plain.


(** ** The whole text *)
Section Conf.
Context `{HO : HostOrder, AT : AddrText} (vm : VarMap) (pm : PolicyMap) (protocol : string) (sm : gmap string Elem).
(** [SetMap::getSet] *)
Definition set_map_get (s : string) : result xorp_exn Elem := match sm !! s with Some e => Ok e | None => Throw PolicyException end.
Context (sets_ok : forall s e, sm !! s = Some e -> name_ok s = true /\ elem_ok e = true).

Lemma reads_set_line s e : name_ok s = true -> elem_ok e = true -> reads (set_line s e) [[KW "SET"; ARG (elem_type e); ARG s; ARG (elem_str e)]]%string.
Proof.
  intros Hs He. unfold elem_ok in He. bool_prop. destruct (name_token _ Hs) as [Hw Ht], (name_token _ (type_name e)) as [Hwt Htt]. unfold set_line.
  assert (Hl : forall rest, (("SET " ++ elem_type e ++ " " ++ s ++ " " ++ quote ++ elem_str e ++ quote ++ nl) ++ rest
    = "SET" ++ String " " (elem_type e ++ String " " (s ++ String " " (quote ++ elem_str e ++ quote ++ nl ++ rest))))%string).
  { intros rest. rewrite !string_app_assoc. done. }
  split; [repeat constructor; no_nl|]. intros rest. rewrite Hl, !scan_blank, Htt, Ht, scan_text by done. done.
Qed.
(** What a block of lines does to the parser between policies *)
Definition same_but (p p' : Parse) : Prop := pa_policies p' = pa_policies p /\ pa_trace p' = pa_trace p /\ pa_place p' = pa_place p.
Lemma parse_sets names : forall text, set_lines set_map_get names = Ok text -> exists ls, reads text ls /\ forall p, pa_place p = AtTop ->
  exists p', parse_lines ls p = Ok p' /\ same_but p p' /\ pa_subr p' = pa_subr p
    /\ forall s, s ∈ names \/ pa_sets p !! s = sm !! s -> pa_sets p' !! s = sm !! s.
Proof.
  induction names as [|n names IH]; intros text Hl; cbn in Hl.
  - injection Hl as <-. exists []. split; [apply reads_nil|]. intros p Hp. exists p. split_conj; try done. intros s [[]%elem_of_nil|H]; done.
  - bind_ok Hl E. bind_ok Hl Es. injection Hl as <-. unfold set_map_get in E. destruct (sm !! n) as [e|] eqn:En; [|done]. injection E as <-.
    destruct (sets_ok _ _ En) as [Hn He]. destruct (IH _ Es) as (ls & Hr & Hp). eexists. split; [exact (reads_app _ _ _ _ (reads_set_line n e Hn He) Hr)|].
    intros p Hpl. assert (Hc := He). unfold elem_ok in Hc. bool_prop. apply bool_decide_eq_true in H0.
    destruct (Hp (mkParse (pa_policies p) (<[n := e]> (pa_sets p)) (pa_subr p) (pa_trace p) AtTop) eq_refl) as (p' & Hp' & (S1 & S2 & S3) & Hsub & Hsets).
    exists p'. split_conj.
    + cbn [app parse_lines]. unfold parse_line. rewrite Hpl. rewrite H0. exact Hp'.
    + unfold same_but. rewrite Hpl. done.
    + done.
    + intros s Hs. apply Hsets. cbn. destruct (decide (s = n)) as [->|Hne]; [right; by rewrite lookup_insert_eq|]. rewrite lookup_insert_ne by done.
      destruct Hs as [[->|Hs]%elem_of_cons|Hs]; [done|by left|by right].
Qed.
Lemma parse_subrs (Good : string -> PolicyInstr -> Prop) l :
  Forall (fun q => exists pi, snd q = policy_text pi /\ policy_instr_ok pi = true /\ pi_trace pi = stores_trace (pi_terms pi) /\ pi_name pi = fst q /\ Good (fst q) pi) l ->
  exists ls, reads (foldr (fun q acc => snd q ++ acc)%string ""%string l) ls /\ forall p, pa_place p = AtSubr -> pa_trace p = false ->
  exists p', parse_lines ls p = Ok p' /\ same_but p p' /\ pa_sets p' = pa_sets p
    /\ (forall s pi, pa_subr p' !! s = Some pi -> pa_subr p !! s = Some pi \/ Good s pi)
    /\ forall s, s ∈ map fst l \/ is_Some (pa_subr p !! s) -> is_Some (pa_subr p' !! s).
Proof.
  induction 1 as [|[n code] l (pi & Hc & Hok & Htr & Hn & Hg) _ IH].
  - exists []. split; [apply reads_nil|]. intros p Hp Ht. exists p. split_conj; try done; [by left|]. intros s [[]%elem_of_nil|H]; done.
  - destruct IH as (ls & Hr & Hp). cbn in Hc, Hn, Hg. subst n code. eexists. split; [exact (reads_app _ _ _ _ (reads_policy pi Hok) Hr)|].
    intros p Hpl Ht. destruct (Hp (mkParse (pa_policies p) (pa_sets p) (<[pi_name pi := pi]> (pa_subr p)) false AtSubr) eq_refl eq_refl) as (p' & Hp' & (S1 & S2 & S3) & Hs & H1 & H2).
    exists p'. split_conj.
    + erewrite parse_lines_app; [exact Hp'|]. by apply (parse_policy pi true).
    + unfold same_but. rewrite Hpl, Ht. done.
    + done.
    + intros s pi' Hl. destruct (H1 _ _ Hl) as [Hin|Hgood]; [|by right]. cbn in Hin. destruct (decide (s = pi_name pi)) as [->|Hne].
      * unfold SUBR in Hin. rewrite lookup_insert_eq in Hin. injection Hin as <-. by right.
      * unfold SUBR in Hin. rewrite lookup_insert_ne in Hin by done. by left.
    + intros s Hs'. apply H2. cbn. unfold SUBR in *. destruct (decide (s = pi_name pi)) as [->|Hne]; [right; by rewrite lookup_insert_eq|]. rewrite lookup_insert_ne by done.
      destruct Hs' as [[->|Hs']%elem_of_cons|Hs']; [done|by left|by right].
Qed.

(** The policies of the manager: under their own names, with names and elements that can be read *)
Definition readable : Prop := forall s ps pi, pm !! s = Some ps -> comp_policy vm protocol ps = Ok pi -> p_name ps = s /\ policy_instr_ok pi = true.
Lemma subrs_read g : readable -> known vm pm protocol g -> exists ls, reads (subr_lines (cg_subr g)) ls /\ forall p, pa_place p = AtTop -> pa_trace p = false ->
  exists p', parse_lines ls p = Ok p' /\ same_but p p' /\ pa_sets p' = pa_sets p
    /\ (forall s pi, pa_subr p' !! s = Some pi -> pa_subr p !! s = Some pi \/
          exists ps, pm !! s = Some ps /\ comp_policy vm protocol ps = Ok pi /\ Forall (ref_in g) (refs_policy ps))
    /\ forall s, s ∈ map fst (cg_subr g) -> is_Some (pa_subr p' !! s).
Proof.
  intros Hread Hk.
  destruct (parse_subrs (fun s pi => exists ps, pm !! s = Some ps /\ comp_policy vm protocol ps = Ok pi /\ Forall (ref_in g) (refs_policy ps)) (cg_subr g)) as (ls & Hr & Hp).
  { eapply Forall_impl; [exact Hk|]. intros q (ps & pi & Hpm & Hc & Hcode & Hrefs). destruct (Hread _ _ _ Hpm Hc) as [Hname Hok]. exists pi. split_conj; try done.
    - unfold comp_policy in Hc. bind_ok Hc E. by injection Hc as <-.
    - unfold comp_policy in Hc. bind_ok Hc E. by injection Hc as <-.
    - by exists ps. }
  destruct (cg_subr g) as [|q subr] eqn:Esub.
  - exists []. split; [apply reads_nil|]. intros p Hpl Ht. exists p. split_conj; try done; [by left|]. by intros s ?%elem_of_nil.
  - cbn [subr_lines]. exists ([[KW "SUBR_START"%string]] ++ ls ++ [[KW "SUBR_END"%string]])%list. split.
    + rewrite <- (string_app_assoc "SUBR_START" nl). apply reads_app; [by apply reads_kw|]. apply reads_app; [done|by apply reads_kw].
    + intros p Hpl Ht. destruct (Hp (go_to AtSubr p) eq_refl Ht) as (p1 & Hp1 & (S1 & S2 & S3) & Hsets & H1 & H2). exists (go_to AtTop p1). split_conj.
      * cbn [app parse_lines]. unfold parse_line at 1. rewrite Hpl. cbn [result_bind]. erewrite parse_lines_app; [|exact Hp1]. cbn [parse_lines]. unfold parse_line. by rewrite S3.
      * unfold same_but. cbn in *. by rewrite Hpl.
      * done.
      * exact H1.
      * intros s Hs. apply H2. by left.
Qed.
Lemma conf_read fuel ps pi g conf : readable -> visit_policy vm pm protocol fuel ps = Ok g -> filter_conf set_map_get g = Ok conf ->
  comp_policy vm protocol ps = Ok pi -> policy_instr_ok pi = true ->
  exists sets subrs, policy_backend_parse conf = Ok ([pi], sets, subrs)
    /\ Forall (ref_ok (fun s => sm !! s) (fun s => sets !! s) subrs) (refs_policy ps)
    /\ subrs_linked (fun s => sm !! s) (fun s => sets !! s) subrs pm vm protocol.
Proof.
  intros Hread Hg Hconf Hpi Hok. destruct (visit_policy_code _ _ _ _ _ _ Hg) as (Hk & pi' & Hc & Hcode & Hrefs). rewrite Hpi in Hc. injection Hc as <-.
  unfold filter_conf in Hconf. bind_ok Hconf Es. injection Hconf as <-. destruct (parse_sets _ _ Es) as (l1 & R1 & P1). destruct (subrs_read g Hread Hk) as (l2 & R2 & P2).
  assert (Htrace : pi_trace pi = stores_trace (pi_terms pi)) by (unfold comp_policy in Hpi; bind_ok Hpi E; by injection Hpi as <-).
  destruct (P1 (mkParse [pi] ∅ ∅ false AtTop) eq_refl) as (p1 & Hp1 & (A1 & A2 & A3) & A4 & A5).
  destruct (P2 p1 A3 A2) as (p2 & Hp2 & (B1 & B2 & B3) & B4 & B5 & B6). exists (pa_sets p2), (pa_subr p2).
  assert (Hin : forall r, ref_in g r -> ref_ok (fun s => sm !! s) (fun s => pa_sets p2 !! s) (pa_subr p2) r).
  { intros [s|s] Hr; cbn in *; [by apply B6|]. rewrite B4. apply A5. by left. }
  split_conj.
  - unfold policy_backend_parse. erewrite token_lines_reads; [|rewrite Hcode; apply reads_app; [by apply reads_policy|apply reads_app; eassumption]].
    erewrite parse_lines_app; [|by apply (parse_policy pi false parse_new)]. cbn [parse_new pa_policies pa_sets pa_subr app].
    erewrite parse_lines_app; [|exact Hp1]. rewrite Hp2. cbn [result_bind]. rewrite B3, A3, B1, A1. done.
  - eapply Forall_impl; [exact Hrefs|]. exact Hin.
  - intros s pi0 Hs. destruct (B5 _ _ Hs) as [Hs1|(ps0 & Hpm & Hc & Hr)]; [rewrite A4 in Hs1; cbn in Hs1; unfold SUBR in Hs1; by rewrite lookup_empty in Hs1|].
    exists ps0. split_conj; try done. eapply Forall_impl; [exact Hr|]. exact Hin.
Qed.
End Conf.
