(* ===== verification/PolicyVar.v ===== *)
(** * The variables of a route (policy/backend/single_varrw.cc, rip/rip_varrw.cc)

    [SingleVarRW] keeps the elements that a filter reads and writes: the client is asked for
    an element once, and gets the writes at the end, in the order of the variables.  The
    client of RIP is [RIPVarRW]; its start of reading and its writes are those of [RipRoute].
    The trash, an array of sixteen elements, is counted. *)

From Stdlib Require Import ZArith Lia String.
From stdpp Require Import base tactics option numbers list gmap strings.
From S2P Require Import Prelude Word32 Addr IPv4 IPv6 IPNet AsPath OMap RipRoute PolicyElem PolicyOps PolicyExec PolicyRun.
Local Open Scope Z_scope.
Local Open Scope xorp_scope.

(** What a protocol implements: [start_read], with the elements it initialises, [single_read] and [single_write] *)
Class VarClient (R : Type) := {
  vc_start : R -> R * list (Z * option Elem);
  vc_read : Z -> R -> result xorp_exn (option Elem);
  vc_write : Z -> Elem -> R -> result xorp_exn R }.

Section Single.
Context {R : Type} `{VC : VarClient R}.
Record SingleVarRW := mkSV { sv_route : R; sv_elems : gmap Z Elem; sv_modified : gset Z; sv_trashc : nat; sv_did_first_read : bool }.
Implicit Types (s : SingleVarRW).
Definition sv_new (r : R) : SingleVarRW := mkSV r ∅ ∅ 0 false.
Definition SV_TRASH : nat := 16.
Definition var_index (id : Z) : bool := (0 <=? id) && (id <? VAR_MAX).
(** No element is the missing value. *)
Definition or_null (e : option Elem) : Elem := default ENull e.
Definition initialize (id : Z) (e : option Elem) s : result xorp_exn SingleVarRW :=
  if negb (var_index id) then Throw OutOfBounds
  else match sv_elems s !! id with
       | Some _ => Ok s
       | None =>
           if (sv_trashc s <? SV_TRASH)%nat
           then Ok (mkSV (sv_route s) (<[id := or_null e]> (sv_elems s)) (sv_modified s) (S (sv_trashc s)) (sv_did_first_read s))
           else Throw AssertFailed
       end.
Fixpoint initialize_all (l : list (Z * option Elem)) s : result xorp_exn SingleVarRW :=
  match l with [] => Ok s | (id, e) :: l => s <-! initialize id e s ;; initialize_all l s end.
Definition sv_start s : result xorp_exn SingleVarRW :=
  if sv_did_first_read s then Ok s
  else
    let '(r, l) := vc_start (sv_route s) in
    s <-! initialize_all l (mkSV r (sv_elems s) (sv_modified s) (sv_trashc s) false) ;;
    Ok (mkSV (sv_route s) (sv_elems s) (sv_modified s) (sv_trashc s) true).
Definition sv_read (id : Z) s : result xorp_exn (SingleVarRW * Elem) :=
  if negb (var_index id) then Throw OutOfBounds
  else match sv_elems s !! id with
       | Some e => Ok (s, e)
       | None =>
           s <-! sv_start s ;;
           match sv_elems s !! id with
           | Some e => Ok (s, e)
           | None =>
               e <-! vc_read id (sv_route s) ;;
               s <-! initialize id e s ;;
               match sv_elems s !! id with Some e => Ok (s, e) | None => Throw PolicyException end
           end
       end.
Definition sv_write (id : Z) (e : Elem) s : result xorp_exn SingleVarRW :=
  if negb (var_index id) then Throw OutOfBounds
  else Ok (mkSV (sv_route s) (<[id := e]> (sv_elems s)) ({[id]} ∪ sv_modified s) (sv_trashc s) (sv_did_first_read s)).
(** [sync]: the modified variables from 0 to 31 *)
Fixpoint sv_commit (ids : list Z) s : result xorp_exn R :=
  match ids with
  | [] => Ok (sv_route s)
  | i :: ids =>
      if decide (i ∈ sv_modified s) then
        match sv_elems s !! i with
        | None => Throw AssertFailed
        | Some e => r <-! vc_write i e (sv_route s) ;; sv_commit ids (mkSV r (sv_elems s) (sv_modified s) (sv_trashc s) (sv_did_first_read s))
        end
      else sv_commit ids s
  end.
Definition var_ids : list Z := map Z.of_nat (seq 0 32).
Definition sv_sync s : result xorp_exn SingleVarRW := r <-! sv_commit var_ids s ;; Ok (mkSV r ∅ ∅ 0 (sv_did_first_read s)).
#[global] Instance single_varrw : VarRW SingleVarRW := { vr_read := sv_read; vr_write := sv_write; vr_sync := sv_sync }.

(** ** The laws, of a client with at most sixteen variables *)
Class VarClientLaws := {
  vc_ids : list Z;
  vc_ids_room : (length vc_ids <= SV_TRASH)%nat;
  vc_start_ids r i e : (i, e) ∈ snd (vc_start r) -> i ∈ vc_ids /\ 0 <= i < VAR_MAX;
  vc_read_ids r i e : vc_read i r = Ok e -> i ∈ vc_ids }.
Context `{!VarClientLaws}.

Definition sv_started s : R * list (Z * option Elem) := if sv_did_first_read s then (sv_route s, []) else vc_start (sv_route s).
Fixpoint init_of (id : Z) (l : list (Z * option Elem)) : option Elem :=
  match l with [] => None | (i, e) :: l => if decide (i = id) then Some (or_null e) else init_of id l end.
Definition sv_get s (id : Z) : option Elem :=
  if negb (var_index id) then None
  else match sv_elems s !! id with
       | Some e => Some e
       | None => match init_of id (snd (sv_started s)) with
                 | Some e => Some e
                 | None => match vc_read id (fst (sv_started s)) with Ok e => Some (or_null e) | Throw _ => None end
                 end
       end.
Definition owned s : list Z := List.filter (fun i => match sv_elems s !! i with Some _ => true | None => false end) vc_ids.
Definition sv_wf s : Prop := (sv_trashc s <= length (owned s))%nat.

Lemma filter_length_lt {T} (p q : T -> bool) l x : x ∈ l -> p x = false -> q x = true -> (forall y, p y = true -> q y = true) ->
  (S (length (List.filter p l)) <= length (List.filter q l))%nat.
Proof.
  intros Hx Hp Hq Hpq. assert (Hle : forall m, (length (List.filter p m) <= length (List.filter q m))%nat).
  { intros m. induction m as [|y m IH]; cbn; [lia|]. specialize (Hpq y). destruct (p y); [rewrite Hpq by done; cbn; lia|]. destruct (q y); cbn; lia. }
  induction l as [|y l IH]; [by apply elem_of_nil in Hx|]. cbn. apply elem_of_cons in Hx as [<-|Hx]; [rewrite Hp, Hq; cbn; specialize (Hle l); lia|].
  specialize (IH Hx). specialize (Hpq y). destruct (p y); [rewrite Hpq by done; cbn; lia|]. destruct (q y); cbn; lia.
Qed.
Lemma filter_true {T} (l : list T) : List.filter (fun _ => true) l = l.
Proof. induction l; cbn; congruence. Qed.
Definition merged (m : gmap Z Elem) (f : Z -> option Elem) (i : Z) : option Elem := match m !! i with Some e => Some e | None => f i end.
Lemma initialize_ok id e s : sv_wf s -> id ∈ vc_ids -> 0 <= id < VAR_MAX -> exists s', initialize id e s = Ok s' /\ sv_wf s' /\ sv_route s' = sv_route s
  /\ sv_did_first_read s' = sv_did_first_read s /\ forall i, sv_elems s' !! i = merged (sv_elems s) (fun i => if decide (id = i) then Some (or_null e) else None) i.
Proof.
  intros Hwf Hid Hr. unfold initialize, var_index, merged. rewrite (proj2 (Z.leb_le _ _)), (proj2 (Z.ltb_lt _ _)) by lia. cbn [andb negb].
  destruct (sv_elems s !! id) as [e0|] eqn:E.
  - exists s. split_conj; try done. intros i. destruct (sv_elems s !! i) eqn:Ei; [done|]. by destruct (decide (id = i)) as [->|]; [congruence|].
  - unfold sv_wf in Hwf. unfold owned in *. set (p := fun i => match sv_elems s !! i with Some _ => true | None => false end) in *.
    assert (H1 := filter_length_lt p (fun _ => true) vc_ids id Hid ltac:(unfold p; by rewrite E) eq_refl ltac:(done)). rewrite filter_true in H1.
    assert (H2 := vc_ids_room). rewrite (proj2 (Nat.ltb_lt _ _)) by lia. eexists. split_conj; try done.
    + unfold sv_wf, owned. cbn.
      assert (H3 := filter_length_lt p (fun i => match <[id := or_null e]> (sv_elems s) !! i with Some _ => true | None => false end) vc_ids id Hid
        ltac:(unfold p; by rewrite E) ltac:(cbv beta; by rewrite lookup_insert_eq)). etransitivity; [|apply H3]; [lia|]. intros y. unfold p. destruct (decide (id = y)) as [->|]; [by rewrite E|].
      by rewrite lookup_insert_ne.
    + intros i. cbn. destruct (decide (id = i)) as [->|]; [by rewrite lookup_insert_eq, E|]. rewrite lookup_insert_ne by done. by destruct (sv_elems s !! i).
Qed.
Lemma initialize_all_ok l : forall s, sv_wf s -> (forall i e, (i, e) ∈ l -> i ∈ vc_ids /\ 0 <= i < VAR_MAX) -> exists s', initialize_all l s = Ok s' /\ sv_wf s'
  /\ sv_route s' = sv_route s /\ forall i, sv_elems s' !! i = merged (sv_elems s) (fun i => init_of i l) i.
Proof.
  unfold merged. induction l as [|[id e] l IH]; intros s Hwf Hl; cbn [initialize_all init_of].
  - exists s. split_conj; try done. intros i. by destruct (sv_elems s !! i).
  - destruct (Hl id e ltac:(by left)) as [H1 H2]. destruct (initialize_ok id e s Hwf H1 H2) as (s1 & -> & Hwf1 & R1 & _ & E1). cbn [result_bind].
    destruct (IH s1 Hwf1) as (s2 & -> & Hwf2 & R2 & E2); [intros i e' Hi; apply (Hl i e'); by right|]. exists s2. split_conj; try done; [congruence|].
    intros i. rewrite E2, E1. unfold merged. destruct (sv_elems s !! i); [done|]. by destruct (decide (id = i)).
Qed.
Lemma sv_start_ok s : sv_wf s -> exists s', sv_start s = Ok s' /\ sv_wf s' /\ sv_did_first_read s' = true /\ sv_route s' = fst (sv_started s)
  /\ (forall i, sv_elems s' !! i = merged (sv_elems s) (fun i => init_of i (snd (sv_started s))) i).
Proof.
  intros Hwf. unfold sv_start, sv_started. destruct (sv_did_first_read s) eqn:Ed.
  - exists s. split_conj; try done. intros i. unfold merged. cbn. by destruct (sv_elems s !! i).
  - destruct (vc_start (sv_route s)) as [r l] eqn:Es.
    destruct (initialize_all_ok l (mkSV r (sv_elems s) (sv_modified s) (sv_trashc s) false) Hwf) as (s' & -> & Hwf' & Hr & He).
    { intros i e Hi. apply (vc_start_ids (sv_route s) i e). by rewrite Es. }
    eexists. split_conj; [done|done|done|exact Hr|exact He].
Qed.
Lemma sv_get_in s id : 0 <= id < VAR_MAX -> sv_get s id = merged (sv_elems s) (fun i => match init_of i (snd (sv_started s)) with
  | Some e => Some e | None => match vc_read i (fst (sv_started s)) with Ok e => Some (or_null e) | Throw _ => None end end) id.
Proof. intros Hid. unfold sv_get, var_index. rewrite (proj2 (Z.leb_le _ _)), (proj2 (Z.ltb_lt _ _)) by lia. done. Qed.
Lemma sv_get_out s id : ~ (0 <= id < VAR_MAX) -> sv_get s id = None.
Proof. intros Hid. unfold sv_get. destruct (var_index id) eqn:E; [|done]. unfold var_index in E. bool_prop. lia. Qed.
(** After the start, what is not kept is read from the client. *)
Lemma sv_get_started s id : sv_did_first_read s = true -> 0 <= id < VAR_MAX ->
  sv_get s id = merged (sv_elems s) (fun i => match vc_read i (sv_route s) with Ok e => Some (or_null e) | Throw _ => None end) id.
Proof. intros Hd Hid. rewrite sv_get_in by done. unfold sv_started. rewrite Hd. done. Qed.
Lemma sv_start_get s s' id : sv_did_first_read s' = true -> sv_route s' = fst (sv_started s) ->
  (forall i, sv_elems s' !! i = merged (sv_elems s) (fun i => init_of i (snd (sv_started s))) i) -> 0 <= id < VAR_MAX -> sv_get s' id = sv_get s id.
Proof.
  intros Hd Hr He Hid. rewrite sv_get_started, sv_get_in by done. unfold merged. rewrite He, Hr. unfold merged. destruct (sv_elems s !! id); [done|].
  by destruct (init_of id _).
Qed.
Lemma sv_read_ok s id e : sv_wf s -> sv_get s id = Some e -> exists s', sv_read id s = Ok (s', e) /\ sv_wf s' /\ forall i, sv_get s' i = sv_get s i.
Proof.
  intros Hwf Hg. destruct (decide (0 <= id < VAR_MAX)) as [Hid|Hid]; [|by rewrite sv_get_out in Hg]. unfold sv_read.
  assert (Hx : var_index id = true) by (unfold var_index; rewrite (proj2 (Z.leb_le _ _)), (proj2 (Z.ltb_lt _ _)) by lia; done). rewrite Hx. cbn [negb].
  rewrite sv_get_in in Hg by done. destruct (sv_elems s !! id) as [e0|] eqn:E.
  { exists s. unfold merged in Hg. rewrite E in Hg. by injection Hg as ->. }
  destruct (sv_start_ok s Hwf) as (s1 & -> & Hwf1 & Hd1 & Hr1 & He1). cbn [result_bind]. rewrite He1. unfold merged in *. rewrite E in *.
  assert (Hsame : forall i, sv_get s1 i = sv_get s i).
  { intros i. destruct (decide (0 <= i < VAR_MAX)); [by apply (sv_start_get s s1)|by rewrite !sv_get_out]. }
  destruct (init_of id (snd (sv_started s))) as [e1|] eqn:Ei.
  { exists s1. by injection Hg as ->. }
  rewrite Hr1. destruct (vc_read id (fst (sv_started s))) as [o|] eqn:Er; [|done]. injection Hg as <-. cbn [result_bind].
  destruct (initialize_ok id o s1 Hwf1 (vc_read_ids _ _ _ Er) Hid) as (s2 & -> & Hwf2 & Hr2 & Hd2 & He2). cbn [result_bind]. rewrite He2. unfold merged.
  rewrite He1, E, Ei, decide_True by done. exists s2. split_conj; [done..|]. intros i. rewrite <- Hsame.
  destruct (decide (0 <= i < VAR_MAX)) as [Hi|]; [|by rewrite !sv_get_out]. rewrite !sv_get_started by congruence. unfold merged. rewrite He2. unfold merged.
  destruct (sv_elems s1 !! i) eqn:E1i; [done|]. rewrite Hr2. destruct (decide (id = i)) as [<-|]; [|done]. by rewrite Hr1, Er.
Qed.
Lemma sv_read_none s id : sv_wf s -> sv_get s id = None -> exists x, sv_read id s = Throw x.
Proof.
  intros Hwf Hg. unfold sv_read. destruct (var_index id) eqn:Hx; cbn [negb]; [|by eexists].
  assert (Hid : 0 <= id < VAR_MAX) by (unfold var_index in Hx; bool_prop; lia). rewrite sv_get_in in Hg by done. unfold merged in Hg.
  destruct (sv_elems s !! id) as [e0|] eqn:E; [done|]. destruct (sv_start_ok s Hwf) as (s1 & -> & Hwf1 & Hd1 & Hr1 & He1). cbn [result_bind]. rewrite He1.
  unfold merged. rewrite E. destruct (init_of id _); [done|]. rewrite Hr1. destruct (vc_read id _) as [|x]; [done|]. by exists x.
Qed.
Lemma sv_write_ok s id e : sv_wf s -> 0 <= id < VAR_MAX ->
  exists s', sv_write id e s = Ok s' /\ sv_wf s' /\ forall i, sv_get s' i = if decide (i = id) then Some e else sv_get s i.
Proof.
  intros Hwf Hid. unfold sv_write, var_index. rewrite (proj2 (Z.leb_le _ _)), (proj2 (Z.ltb_lt _ _)) by lia. cbn [andb negb]. eexists. split_conj; [done| |].
  - unfold sv_wf, owned in *. cbn. etransitivity; [exact Hwf|]. clear Hwf. induction vc_ids as [|y l IH]; cbn; [lia|].
    destruct (decide (id = y)) as [->|Hn]; [rewrite lookup_insert_eq; destruct (sv_elems s !! y); cbn; lia|].
    rewrite lookup_insert_ne by done. destruct (sv_elems s !! y); cbn; lia.
  - intros i. destruct (decide (0 <= i < VAR_MAX)) as [Hi|]; [|rewrite !sv_get_out by done; by destruct (decide (i = id)) as [->|]].
    rewrite !sv_get_in by done. unfold merged. cbn. destruct (decide (i = id)) as [->|Hn]; [by rewrite lookup_insert_eq|]. by rewrite lookup_insert_ne by done.
Qed.
#[global] Program Instance single_varrw_laws : VarRWLaws SingleVarRW := { vr_wf := sv_wf; vr_get := sv_get; vr_dom id := 0 <= id < VAR_MAX }.
Next Obligation. exact sv_read_ok. Qed.
Next Obligation. exact sv_read_none. Qed.
Next Obligation. exact sv_write_ok. Qed.
Next Obligation.
  intros s id e s' _ Hw. cbn in Hw. unfold sv_write in Hw. destruct (var_index id) eqn:E; [|done]. unfold var_index in E. bool_prop. lia.
Qed.

(** ** A run of reads and writes, and the commit *)
Inductive var_op := ReadVar (id : Z) | WriteVar (id : Z) (e : Elem).
Fixpoint run_ops (ops : list var_op) s : result xorp_exn (SingleVarRW * list Elem) :=
  match ops with
  | [] => Ok (s, [])
  | ReadVar id :: ops => x <-! sv_read id s ;; r <-! run_ops ops (fst x) ;; Ok (fst r, snd x :: snd r)
  | WriteVar id e :: ops => s <-! sv_write id e s ;; run_ops ops s
  end.
(** What the reads answer, given what was written before and what the variables were at first *)
Fixpoint answers (first : Z -> option Elem) (ops : list var_op) (written : gmap Z Elem) : list (option Elem) :=
  match ops with
  | [] => []
  | ReadVar id :: ops => merged written first id :: answers first ops written
  | WriteVar id e :: ops => answers first ops (<[id := e]> written)
  end.
Fixpoint last_writes (ops : list var_op) (written : gmap Z Elem) : gmap Z Elem :=
  match ops with [] => written | ReadVar _ :: ops => last_writes ops written | WriteVar id e :: ops => last_writes ops (<[id := e]> written) end.
Fixpoint write_all (ids : list Z) (written : gmap Z Elem) (r : R) : result xorp_exn R :=
  match ids with
  | [] => Ok r
  | i :: ids => match written !! i with Some e => r <-! vc_write i e r ;; write_all ids written r | None => write_all ids written r end
  end.
(** The cache after the writes [w] on the route [r] *)
Definition caches (r : R) (w : gmap Z Elem) s : Prop :=
  sv_wf s /\ (forall i, sv_get s i = merged w (sv_get (sv_new r)) i) /\ (forall i, i ∈ sv_modified s <-> is_Some (w !! i))
  /\ (forall i e, w !! i = Some e -> sv_elems s !! i = Some e) /\ (sv_route s = if sv_did_first_read s then fst (vc_start r) else r).
Lemma caches_new r : caches r ∅ (sv_new r).
Proof.
  unfold caches. split_conj; try done; [unfold sv_wf; cbn; lia|..].
  intros i. cbn. rewrite lookup_empty. split; [by intros ?%not_elem_of_empty|by intros [? ?]].
Qed.
(** What a read leaves as it was *)
Definition extends s s' : Prop := sv_modified s' = sv_modified s /\ forall i x, sv_elems s !! i = Some x -> sv_elems s' !! i = Some x.
Lemma initialize_keeps id e s s' : initialize id e s = Ok s' -> extends s s' /\ sv_route s' = sv_route s /\ sv_did_first_read s' = sv_did_first_read s.
Proof.
  unfold initialize, extends. intros Hi. case_if_in Hi; [done|]. destruct (sv_elems s !! id) eqn:Es; [by injection Hi as <-|]. case_if_in Hi; [|done]. injection Hi as <-.
  split_conj; try done. intros i x Hx. cbn. rewrite lookup_insert_ne by congruence. done.
Qed.
Lemma initialize_all_keeps l : forall s s', initialize_all l s = Ok s' -> extends s s' /\ sv_route s' = sv_route s.
Proof.
  induction l as [|[id e] l IH]; intros s s' Hi; cbn in Hi; [by injection Hi as <-|].
  destruct (initialize id e s) as [s1|] eqn:E; [|done]. cbn in Hi. destruct (initialize_keeps _ _ _ _ E) as ([M1 K1] & R1 & _), (IH _ _ Hi) as [[M2 K2] R2].
  unfold extends. split_conj; try congruence. auto.
Qed.
Lemma read_keeps s s' id e : sv_read id s = Ok (s', e) -> extends s s'
  /\ (sv_did_first_read s' = sv_did_first_read s /\ sv_route s' = sv_route s
       \/ sv_did_first_read s = false /\ sv_did_first_read s' = true /\ sv_route s' = fst (vc_start (sv_route s))).
Proof.
  unfold sv_read. intros Hr. case_if_in Hr; [done|]. destruct (sv_elems s !! id) eqn:Es; [injection Hr as <- <-; split; [done|by left]|].
  destruct (sv_start s) as [s1|] eqn:E1; [|done]. cbn in Hr.
  assert (H1 : extends s s1 /\ (sv_did_first_read s1 = sv_did_first_read s /\ sv_route s1 = sv_route s
       \/ sv_did_first_read s = false /\ sv_did_first_read s1 = true /\ sv_route s1 = fst (vc_start (sv_route s)))).
  { unfold sv_start in E1. destruct (sv_did_first_read s) eqn:Ed; [injection E1 as <-; split; [done|by left]|]. destruct (vc_start (sv_route s)) as [r l] eqn:Ev.
    destruct (initialize_all l _) as [s2|] eqn:E2; [|done]. cbn in E1. injection E1 as <-. destruct (initialize_all_keeps _ _ _ E2) as [[M K] R2].
    split; [done|]. right. split_conj; done. }
  destruct H1 as [[M1 K1] H1]. destruct (sv_elems s1 !! id) eqn:Es1; [by injection Hr as <- <-|].
  destruct (vc_read id (sv_route s1)) as [o|]; [|done]. cbn in Hr. destruct (initialize id o s1) as [s2|] eqn:E2; [|done]. cbn in Hr.
  destruct (initialize_keeps _ _ _ _ E2) as ([M2 K2] & R2 & D2). destruct (sv_elems s2 !! id); [|done]. injection Hr as <- <-.
  split; [unfold extends; split; [congruence|auto]|]. by rewrite D2, R2.
Qed.
Lemma caches_read r w s id x : caches r w s -> sv_read id s = Ok x -> caches r w (fst x) /\ merged w (sv_get (sv_new r)) id = Some (snd x).
Proof.
  intros (Hwf & Hg & Hm & He & Hr) Hx. destruct x as [s' e]. cbn. destruct (sv_get s id) as [e0|] eqn:Eg; [|by destruct (sv_read_none _ _ Hwf Eg) as [y Hy]; congruence].
  destruct (sv_read_ok _ _ _ Hwf Eg) as (s1 & E1 & Hwf1 & Hg1). rewrite Hx in E1. injection E1 as <- <-. destruct (read_keeps _ _ _ _ Hx) as [[M K] HR].
  split; [|by rewrite <- Hg]. unfold caches. split_conj; [done|by intros i; rewrite Hg1|by rewrite M|auto|].
  destruct HR as [[-> ->]|(Hf & -> & ->)]; [done|]. by rewrite Hr, Hf.
Qed.
Lemma caches_write r w s s' id e : caches r w s -> sv_write id e s = Ok s' -> caches r (<[id := e]> w) s'.
Proof.
  intros (Hwf & Hg & Hm & He & Hr) Hx. assert (Hid : 0 <= id < VAR_MAX) by (unfold sv_write in Hx; destruct (var_index id) eqn:E; [|done]; unfold var_index in E; bool_prop; lia).
  destruct (sv_write_ok s id e Hwf Hid) as (s1 & E1 & Hwf1 & Hg1). rewrite Hx in E1. injection E1 as <-.
  unfold sv_write in Hx. case_if_in Hx; [done|]. injection Hx as <-. unfold caches. cbn in *. split_conj; try done.
  - intros i. rewrite Hg1, Hg. unfold merged. destruct (decide (i = id)) as [->|]; [by rewrite lookup_insert_eq|]. by rewrite lookup_insert_ne.
  - intros i. rewrite elem_of_union, elem_of_singleton, Hm. destruct (decide (i = id)) as [->|]; [rewrite lookup_insert_eq; split; [done|by left]|].
    rewrite lookup_insert_ne by done. tauto.
  - intros i x. destruct (decide (i = id)) as [->|]; [by rewrite !lookup_insert_eq|]. rewrite !lookup_insert_ne by done. apply He.
Qed.
Lemma caches_run ops r : forall w s s' out, caches r w s -> run_ops ops s = Ok (s', out) ->
  caches r (last_writes ops w) s' /\ map Some out = answers (sv_get (sv_new r)) ops w.
Proof.
  induction ops as [|[id|id e] ops IH]; intros w s s' out Hc Hrun; cbn in Hrun |- *.
  - by injection Hrun as <- <-.
  - destruct (sv_read id s) as [x|] eqn:E; [|done]. cbn in Hrun. destruct (run_ops ops (fst x)) as [[s1 l]|] eqn:E1; [|done]. cbn in Hrun. injection Hrun as <- <-.
    destruct (caches_read _ _ _ _ _ Hc E) as [Hc1 Hv]. destruct (IH _ _ _ _ Hc1 E1) as [Hc2 Ho]. split; [done|]. cbn. by rewrite Hv, Ho.
  - destruct (sv_write id e s) as [s1|] eqn:E; [|done]. cbn in Hrun. by apply (IH _ s1 _ _ (caches_write _ _ _ _ _ _ Hc E)).
Qed.
Lemma commit_writes ids w : forall s, (forall i, i ∈ sv_modified s <-> is_Some (w !! i)) -> (forall i e, w !! i = Some e -> sv_elems s !! i = Some e) ->
  sv_commit ids s = write_all ids w (sv_route s).
Proof.
  induction ids as [|i ids IH]; intros s Hm He; cbn; [done|]. destruct (w !! i) as [e|] eqn:Ew.
  - rewrite decide_True by (apply Hm; by eexists). rewrite (He _ _ Ew). destruct (vc_write i e (sv_route s)) as [r|]; [|done]. cbn. by rewrite IH.
  - rewrite decide_False by (rewrite Hm, Ew; by intros [? ?]). by apply IH.
Qed.
End Single.
Arguments SingleVarRW : clear implicits.

(** ** The variables of RIP (rip/rip_varrw.cc) *)
Definition RIP_VAR_NETWORK4 : Z := 10.
Definition RIP_VAR_NEXTHOP4 : Z := 11.
Definition RIP_VAR_NETWORK6 : Z := 12.
Definition RIP_VAR_NEXTHOP6 : Z := 13.
Definition RIP_VAR_METRIC : Z := 14.
(** The variables of a route, after [start_read] of the route, and the writes so far *)
Definition RipVars (A : Type) : Type := route_vars (IPNet A) A * list (route_write A).
Definition tags_elem (t : gset Z) : Elem := ESetU32 (set_add_all Z.ltb (elements t) []).
Definition rip_start {A} (nets : route_vars (IPNet A) A -> list (Z * option Elem)) (v : RipVars A) : RipVars A * list (Z * option Elem) :=
  (v, [(VAR_POLICYTAGS, Some (tags_elem (v_policytags (fst v))))] ++ nets (fst v)
      ++ [(RIP_VAR_METRIC, Some (EU32 (v_metric (fst v)))); (VAR_TAG, Some (EU32 (v_tag (fst v))))]).
(** [single_write], with [write_nexthop]; other variables are ignored. *)
Definition rip_write {A} (nexthop : Z -> Elem -> option (NextHopVar * A)) (id : Z) (e : Elem) (v : RipVars A) : result xorp_exn (RipVars A) :=
  let put w := Ok (fst v, snd v ++ [w]) in
  if id =? VAR_POLICYTAGS then match e with ESetU32 l => put (WritePolicytags (list_to_set l)) | _ => Throw PolicyException end
  else match nexthop id e with
       | Some (var, a) => if decide (var = VAR_NONE) then put (WriteNexthop a) else Throw AssertFailed
       | None =>
           if id =? RIP_VAR_METRIC then match e with EU32 m => put (WriteMetric m) | _ => Throw AssertFailed end
           else if id =? VAR_TAG then match e with EU32 t => put (WriteTag t) | _ => Throw AssertFailed end
           else Ok v
       end.
(** [read_route_nexthop] *)
Definition rip_nets4 (v : route_vars (IPNet IPv4) IPv4) : list (Z * option Elem) :=
  [(RIP_VAR_NETWORK4, Some (EIPv4Net (mkNet (v_net v) MOD_NONE))); (RIP_VAR_NEXTHOP4, Some (EIPv4NextHop VAR_NONE (v_nexthop v)));
   (RIP_VAR_NETWORK6, None); (RIP_VAR_NEXTHOP6, None)].
Definition rip_nets6 (v : route_vars (IPNet IPv6) IPv6) : list (Z * option Elem) :=
  [(RIP_VAR_NETWORK6, Some (EIPv6Net (mkNet (v_net v) MOD_NONE))); (RIP_VAR_NEXTHOP6, Some (EIPv6NextHop VAR_NONE (v_nexthop v)));
   (RIP_VAR_NETWORK4, None); (RIP_VAR_NEXTHOP4, None)].
Definition rip_nexthop4 (id : Z) (e : Elem) : option (NextHopVar * IPv4) :=
  if id =? RIP_VAR_NEXTHOP4 then match e with EIPv4NextHop var a => Some (var, a) | _ => None end else None.
Definition rip_nexthop6 (id : Z) (e : Elem) : option (NextHopVar * IPv6) :=
  if id =? RIP_VAR_NEXTHOP6 then match e with EIPv6NextHop var a => Some (var, a) | _ => None end else None.
(** [single_read] is not reached. *)
#[global] Instance rip_client4 : VarClient (RipVars IPv4) := { vc_start := rip_start rip_nets4; vc_read _ _ := Throw Fatal; vc_write := rip_write rip_nexthop4 }.
#[global] Instance rip_client6 : VarClient (RipVars IPv6) := { vc_start := rip_start rip_nets6; vc_read _ _ := Throw Fatal; vc_write := rip_write rip_nexthop6 }.
Definition rip_var_ids : list Z := [1; 5; 10; 11; 12; 13; 14].
Lemma rip_var_in i : (existsb (Z.eqb i) rip_var_ids && var_index i)%bool = true -> i ∈ rip_var_ids /\ 0 <= i < VAR_MAX.
Proof.
  unfold rip_var_ids, var_index. cbn [existsb]. intros [H1 H2]%andb_true_iff. split; [|bool_prop; lia].
  rewrite !elem_of_cons. bool_prop; first [discriminate|tauto].
Qed.
#[global] Program Instance rip_client4_laws : VarClientLaws (R := RipVars IPv4) := { vc_ids := rip_var_ids }.
Next Obligation. cbn. unfold SV_TRASH. lia. Qed.
Next Obligation.
  intros r i e Hi. cbn [vc_start rip_client4 rip_start snd fst rip_nets4 app] in Hi.
  repeat (apply elem_of_cons in Hi as [Hi|Hi]; [injection Hi as -> _; apply rip_var_in; reflexivity|]).
  by apply elem_of_nil in Hi.
Qed.
Next Obligation. done. Qed.
#[global] Program Instance rip_client6_laws : VarClientLaws (R := RipVars IPv6) := { vc_ids := rip_var_ids }.
Next Obligation. cbn. unfold SV_TRASH. lia. Qed.
Next Obligation.
  intros r i e Hi. cbn [vc_start rip_client6 rip_start snd fst rip_nets6 app] in Hi.
  repeat (apply elem_of_cons in Hi as [Hi|Hi]; [injection Hi as -> _; apply rip_var_in; reflexivity|]). by apply elem_of_nil in Hi.
Qed.
Next Obligation. done. Qed.

(** ** The policy filters of a protocol (policy/backend/policy_filter.cc, policy_filters.cc)

    A filter is configured with the text of its code, and keeps the one it has when the text
    cannot be read; a route passes a filter that has none. *)
Section Filters.
Context `{HO : HostOrder, AT : AddrText} (regex : string -> string -> option bool).
Record PolicyFilter := mkPolicyFilter { pf_policies : option (list PolicyInstr); pf_sets : gmap string Elem; pf_subrs : SUBR }.
Definition pf_new : PolicyFilter := mkPolicyFilter None ∅ ∅.
Context (parse : string -> result xorp_exn (list PolicyInstr * gmap string Elem * SUBR)).
Definition pf_configure (conf : string) (f : PolicyFilter) : PolicyFilter * option xorp_exn :=
  match parse conf with
  | Ok (ps, sets, subrs) => (mkPolicyFilter (Some ps) sets subrs, None)
  | Throw x => (f, Some x)
  end.
Definition pf_accept {V} `{VarRW V} (fuel : nat) (f : PolicyFilter) (v : V) : result xorp_exn (V * bool) :=
  acceptRoute regex (fun s => pf_sets f !! s) (pf_subrs f) fuel (pf_policies f) 0 v.
Record PolicyFilters := mkFilters { fs_import : PolicyFilter; fs_export_sm : PolicyFilter; fs_export : PolicyFilter }.
Definition whichFilter (ftype : Z) (fs : PolicyFilters) : result xorp_exn PolicyFilter :=
  if ftype =? 1 then Ok (fs_import fs) else if ftype =? 2 then Ok (fs_export_sm fs) else if ftype =? 4 then Ok (fs_export fs) else Throw PolicyException.
Definition filter_number (k : filter_kind) : Z := match k with IMPORT => 1 | EXPORT_SOURCEMATCH => 2 | EXPORT => 4 end.
Definition run_filter {V} `{VarRW V} (fuel : nat) (fs : PolicyFilters) (ftype : Z) (v : V) : result xorp_exn (V * bool) :=
  f <-! whichFilter ftype fs ;; pf_accept fuel f v.
(** What RipRoute.v asks of the policy engine *)
Definition rip_run_filter {A} `{VarClient (RipVars A)} (fuel : nat) (fs : PolicyFilters) (k : filter_kind) (v : route_vars (IPNet A) A) : option (filter_result A) :=
  match run_filter fuel fs (filter_number k) (sv_new (v, [])) with
  | Ok (s, accepted) => Some (mkFilter accepted (sv_did_first_read s) (snd (sv_route s)))
  | Throw _ => None
  end.
End Filters.
