(* ===== verification/PolicyTypes.v ===== *)
(** * The types that the semantic check finds

    [VisitorSemantic] runs a policy on dummy elements.  The type of an operation depends on
    the types of its operands alone, except for the constructor [OpCtr], so that the dummy
    results have the types of the real ones, where these are not missing. *)

From Stdlib Require Import ZArith Lia String.
From stdpp Require Import base tactics option numbers list gmap strings.
From S2P Require Import Prelude Word32 Addr IPv4 IPv6 IPNet AsPath OMap PolicyElem PolicyOps PolicyExec PolicyCode PolicyVisit PolicyRun.
Local Open Scope Z_scope.
Local Open Scope xorp_scope.

(** ** The type of the result of an operation *)
Definition result_hash (f : callback) (hs : list Z) : Z :=
  match f with
  | f_head | f_str_add | f_str_mul => H.str
  | f_aspath_prepend | f_aspath_expand => H.aspath
  | f_add | f_sub | f_mul | f_div | f_lshift | f_rshift | f_bit_and | f_bit_or | f_bit_xor | f_set_add | f_set_del => hd 0 hs
  | _ => H.bool
  end.
Lemma type_of_hash a b : elem_hash a = elem_hash b -> elem_type a = elem_type b.
Proof. by destruct a, b. Qed.
Lemma hash_of_type a b : elem_type a = elem_type b -> elem_hash a = elem_hash b.
Proof. by destruct a, b. Qed.
Lemma null_type e : is_null e = true -> e = ENull.
Proof. by destruct e. Qed.

Section Types.
Context `{HO : HostOrder, AT : AddrText} (regex : string -> string -> option bool).
Ltac bind_all H := repeat match type of H with context [result_bind ?m _] => let E := fresh "E" in destruct m eqn:E in H; cbn [result_bind] in H; [|discriminate H] end.
Lemma run_callback_hash f args x : f <> f_ctr -> run_callback regex f args = Ok x -> elem_hash (fst x) = result_hash f (map elem_hash args).
Proof.
  intros Hf Hr. destruct f; try done; destruct args as [|a [|b [|c args]]]; try discriminate Hr; destruct a; try discriminate Hr; cbn in Hr;
    try (injection Hr as <-; reflexivity); destruct b; try discriminate Hr; cbn in Hr; bind_all Hr; try discriminate Hr; by injection Hr as <-.
Qed.
Lemma create_type key e : elem_create key None = Ok e -> elem_type e = key.
Proof.
  unfold elem_create. cbv zeta. intros He.
  repeat match type of He with context [decide (key = ?k)] => destruct (decide (key = k)) as [->|_]; [by injection He as <-|] end. done.
Qed.

(** The operator is in the low bits of a key, so that [OpCtr] alone finds its constructor. *)
Lemma key_low hs : forall shift key, 5 <= shift -> Z.land (key_of_hashes shift hs key) 31 = Z.land key 31.
Proof.
  induction hs as [|h hs IH]; intros shift key Hs; cbn [key_of_hashes]; [done|]. rewrite IH by lia. rewrite Z.land_lor_distr_l.
  replace (Z.land (Z.shiftl h shift) 31) with 0; [by rewrite Z.lor_0_r|]. symmetry. apply Z.bits_inj'. intros n Hn. rewrite Z.land_spec, Z.bits_0.
  destruct (Z.ltb_spec n shift); [by rewrite Z.shiftl_spec_low by lia|]. change 31 with (Z.ones 5). rewrite Z.ones_spec_high by lia. apply andb_false_r.
Qed.
Lemma map_at_in key m f : map_at key m = Some f -> In (key, f) m.
Proof. induction m as [|[k g] m IH]; cbn; [done|]. destruct (Z.eqb_spec k key) as [->|]; [intros [= ->]; by left|]. intros. right. auto. Qed.
Lemma no_ctr op hs f : op <> OpCtr -> map_at (makeKey op hs) dispatch_map = Some f -> f <> f_ctr.
Proof.
  intros Hop Hf ->. apply map_at_in in Hf.
  assert (Hall : forallb (fun p => negb (bool_decide (snd p = f_ctr)) || (Z.land (fst p) 31 =? 21)) dispatch_map = true) by by vm_compute.
  rewrite forallb_forall in Hall. specialize (Hall _ Hf). cbn [fst snd] in Hall. rewrite bool_decide_eq_true_2 in Hall by done. cbn [negb orb] in Hall.
  unfold makeKey in Hall. rewrite key_low in Hall by lia. by destruct op.
Qed.

(** The real operand has the type of the dummy one, or is missing. *)
Definition typed_as (e d : Elem) : Prop := elem_type e = elem_type d \/ e = ENull.
Lemma typed_null e d : typed_as e d -> is_null d = true -> e = ENull.
Proof. intros [H| ->] Hd; [|done]. apply null_type in Hd as ->. by destruct e. Qed.
Lemma disp_typed op args ds x y : op <> OpCtr -> Forall2 typed_as args ds -> disp_run regex op args = Ok x -> disp_run regex op ds = Ok y -> typed_as (fst x) (fst y).
Proof.
  unfold disp_run. intros Hop Ht Hx Hy. assert (Hlen := Forall2_length _ _ _ Ht). rewrite Hlen in Hx. case_if_in Hx; [done|]. cbn [negb] in Hy. try rewrite E in Hy.
  destruct (existsb is_null args) eqn:En; [injection Hx as <-; by right|].
  assert (Hh : map elem_hash args = map elem_hash ds /\ existsb is_null ds = false).
  { clear Hx Hy E Hlen. induction Ht as [|e d args ds Hed Ht IH]; [done|]. cbn in En |- *. apply orb_false_iff in En as [E1 E2]. destruct (IH E2) as [-> Hn]. rewrite Hn.
    destruct Hed as [Hed| ->]; [|done]. rewrite (hash_of_type _ _ Hed). split; [done|]. unfold is_null in *. by rewrite <- (hash_of_type _ _ Hed), E1. }
  destruct Hh as [Hh Hn]. rewrite Hn in Hy. left. apply type_of_hash.
  assert (Hr : forall args x, (let key := makeKey op (map elem_hash args) in if negb (key <? DISPATCHER_MAP_SZ) then Throw AssertFailed
    else match map_at key dispatch_map with None => Throw AssertFailed | Some f => run_callback regex f args end) = Ok x ->
    exists f, map_at (makeKey op (map elem_hash args)) dispatch_map = Some f /\ run_callback regex f args = Ok x).
  { intros l z Hz. cbv zeta in Hz. case_if_in Hz; [discriminate Hz|]. destruct (map_at (makeKey op (map elem_hash l)) dispatch_map) as [f|] eqn:Em; [|discriminate Hz]. by exists f. }
  assert (Hx' : exists f, map_at (makeKey op (map elem_hash args)) dispatch_map = Some f /\ run_callback regex f args = Ok x) by (destruct op; try done; by apply Hr).
  assert (Hy' : exists f, map_at (makeKey op (map elem_hash ds)) dispatch_map = Some f /\ run_callback regex f ds = Ok y) by (destruct op; try done; by apply Hr).
  destruct Hx' as (f & Hf & Hrx), Hy' as (f' & Hf' & Hry). rewrite Hh in Hf. rewrite Hf in Hf'. injection Hf' as <-.
  assert (Hn' := no_ctr _ _ _ Hop Hf). rewrite (run_callback_hash _ _ _ Hn' Hrx), (run_callback_hash _ _ _ Hn' Hry). by rewrite Hh.
Qed.
End Types.

(** ** The check and the test run *)
Section Check.
Context `{HO : HostOrder, AT : AddrText} (regex : string -> string -> option bool) (get_set : string -> option Elem) (pm : PolicyMap) (vm : VarMap).
Context {V : Type} `{VR : VarRW V, VL : !VarRWLaws V} (protocol : string).
Abbreviation vtest := (@VisitorTest V).
Implicit Types (t : vtest) (n : Node).
Context (protocol_known : protocol <> ""%string) (sane : vars_sane vm protocol).

(** The variables hold elements of their types, or none. *)
Definition vars_typed t : Prop := vr_wf (vt_vars t) /\ vt_current t = protocol /\
  forall id e var, vr_get (vt_vars t) id = Some e -> variable vm protocol id = Ok var -> elem_type e = v_type var \/ e = ENull.
Definition no_proto : Node -> bool := node_fold andb (fun n => match n with NodeProto _ => false | _ => true end).
Definition without_ctr : Node -> bool := node_fold andb (fun n => match n with
  | NodeUn op _ | NodeBin op _ _ | NodeAssign _ (Some op) _ => negb (bool_decide (op = OpCtr)) | _ => true end).
Definition import_only : Prop := forall s ps tm, pm !! s = Some ps -> In tm (p_terms ps) -> forallb no_proto (all_nodes tm) = true.

Lemma read_typed name t t' e : vars_typed t -> vt_read vm name t = Ok (t', e) -> vars_typed t' /\
  exists id var, var2id vm protocol name = Ok id /\ variable vm protocol id = Ok var /\ (elem_type e = v_type var \/ e = ENull).
Proof.
  intros (Hw & Hc & Ht) Hr. unfold vt_read in Hr. destruct (var2variable vm t name) as [v|] eqn:Ev; [|done]. cbn in Hr.
  rewrite (var2variable_known vm protocol protocol_known t name Hc) in Ev. destruct (var2id vm protocol name) as [id|] eqn:Hid; [|done]. cbn in Ev. destruct (sane _ _ Hid) as (v' & Hv & Hi & _).
  rewrite Ev in Hv. injection Hv as <-. rewrite Hi in Hr.
  destruct (vr_get (vt_vars t) id) as [e0|] eqn:Eg; [|destruct (vr_read_none _ _ Hw Eg) as [y Hy]; by rewrite Hy in Hr].
  destruct (vr_read_ok _ _ _ Hw Eg) as (v1 & Hr1 & Hwf1 & Hg1). rewrite Hr1 in Hr. cbn in Hr. injection Hr as <- <-. split; [|by exists id, v; eauto].
  unfold vars_typed. cbn. split_conj; [done..|]. intros i x var. rewrite Hg1. apply Ht.
Qed.
Lemma write_typed name t t' e : vars_typed t -> vt_write vm name e t = Ok t' -> vars_typed t'.
Proof.
  intros (Hw & Hc & Ht) Hr. unfold vt_write in Hr. destruct (var2variable vm t name) as [v|] eqn:Ev; [|done]. cbn in Hr.
  rewrite (var2variable_known vm protocol protocol_known t name Hc) in Ev. destruct (var2id vm protocol name) as [id|] eqn:Hid; [|done]. cbn in Ev. destruct (sane _ _ Hid) as (v' & Hv & Hi & _).
  rewrite Ev in Hv. injection Hv as <-. rewrite Hi in Hr. case_if_in Hr; [done|]. case_if_in Hr; [done|]. bool_prop.
  match goal with E : bool_decide _ = true |- _ => apply bool_decide_eq_true in E; rename E into Hty end.
  destruct (vr_write id e (vt_vars t)) as [v1|] eqn:Ew; [|done]. cbn in Hr. injection Hr as <-.
  destruct (vr_write_ok _ _ e Hw (vr_write_dom _ _ _ _ Hw Ew)) as (v1' & Ew' & Hwf1 & Hg1). rewrite Ew in Ew'. injection Ew' as <-.
  unfold vars_typed. cbn. split_conj; [done..|]. intros i x var. rewrite Hg1. case_decide; [subst i; intros [= <-] Hvar; left; congruence|apply Ht].
Qed.
Lemma finish_typed fin o f t : vars_typed t -> vars_typed (vt_finish fin o f t).
Proof. done. Qed.
Lemma protocol_typed t : vars_typed t -> vars_typed (change_protocol protocol t).
Proof. unfold vars_typed. by intros (? & _ & ?). Qed.

Section Node.
Context (subr : string -> vtest -> result xorp_exn vtest) (subr_typed : forall s t t', subr s t = Ok t' -> vars_typed t -> vars_typed t').
Lemma node_typed n : forall t t' oe, no_proto n = true -> test_node regex get_set vm subr n t = Ok (t', oe) -> vars_typed t -> vars_typed t'.
Proof.
  induction n as [op n IH|op l IHl r IHr|v md r IH|v|s|e| | |p|f|s]; intros t t' oe Hn Hr Ht; cbn in Hn, Hr; try discriminate Hn; fold no_proto in Hn.
  - bind_pair Hr t1 o1 E1. bind_ok Hr E2. bind_ok Hr E3. injection Hr as <- _. by eapply IH.
  - apply andb_true_iff in Hn as [Hn1 Hn2]. bind_pair Hr t1 o1 E1. bind_pair Hr t2 o2 E2. bind_ok Hr E3. bind_ok Hr E4. bind_ok Hr E5. injection Hr as <- _. eauto.
  - bind_pair Hr t1 o1 E1. bind_pair Hr t2 o2 E2. bind_ok Hr E3. bind_ok Hr E4. injection Hr as <- _. eapply write_typed; [|exact E4].
    assert (Ht1 : vars_typed t1) by eauto. destruct md as [op|]; [|by injection E2 as <- _].
    bind_pair E2 t3 x E5. bind_ok E2 E6. bind_ok E2 E7. injection E2 as <- _. by apply (read_typed _ _ _ _ Ht1 E5).
  - bind_pair Hr t1 x E1. injection Hr as <- _. by apply (read_typed _ _ _ _ Ht E1).
  - destruct (get_set s); [|done]. by injection Hr as <- _.
  - by injection Hr as <- _.
  - by injection Hr as <- _.
  - by injection Hr as <- _.
  - by injection Hr as <- _.
  - bind_ok Hr E1. injection Hr as <- _. apply finish_typed. by eapply subr_typed.
Qed.
Lemma match_typed ns : forall t t' b, forallb no_proto ns = true -> test_match regex get_set vm subr ns t = Ok (t', b) -> vars_typed t -> vars_typed t'.
Proof.
  induction ns as [|n ns IH]; intros t t' b Hn Hr Ht; cbn in Hn, Hr; [by injection Hr as <- _|]. apply andb_true_iff in Hn as [Hn1 Hn2].
  bind_pair Hr t1 o E. assert (Ht1 : vars_typed t1) by (by eapply node_typed). case_if_in Hr; [by injection Hr as <- _|].
  bind_ok Hr Eb. case_if_in Hr; [by eapply IH|by injection Hr as <- _].
Qed.
Lemma actions_typed ns : forall t t', forallb no_proto ns = true -> test_actions regex get_set vm subr ns t = Ok t' -> vars_typed t -> vars_typed t'.
Proof.
  induction ns as [|n ns IH]; intros t t' Hn Hr Ht; cbn in Hn, Hr; [by injection Hr as <-|]. apply andb_true_iff in Hn as [Hn1 Hn2].
  bind_pair Hr t1 o E. assert (Ht1 : vars_typed t1) by (by eapply node_typed). case_if_in Hr; [by injection Hr as <-|by eapply IH].
Qed.
Lemma term_typed tm t t' : forallb no_proto (all_nodes tm) = true -> test_term regex get_set vm protocol subr tm t = Ok t' -> vars_typed t -> vars_typed t'.
Proof.
  unfold all_nodes, test_term. rewrite !forallb_app. intros [Hs [Hd Ha]%andb_true_iff]%andb_true_iff Hr Ht. cbv zeta in Hr.
  bind_pair Hr t1 b1 E1. assert (Ht1 : vars_typed t1) by (eapply match_typed; [exact Hs|exact E1|by apply protocol_typed, finish_typed]).
  case_if_in Hr; [by injection Hr as <-|]. bind_pair Hr t2 b2 E2. assert (Ht2 : vars_typed t2) by (eapply match_typed; [exact Hd|exact E2|by apply protocol_typed]).
  case_if_in Hr; [by injection Hr as <-|by eapply actions_typed].
Qed.
Lemma policy_typed ps : forall t t', (forall tm, In tm (p_terms ps) -> forallb no_proto (all_nodes tm) = true) ->
  test_policy_with regex get_set vm protocol subr ps t = Ok t' -> vars_typed t -> vars_typed t'.
Proof.
  unfold test_policy_with. intros t t' Hps Hr Ht. apply (finish_typed (vt_finished t) FA_DEFAULT (vt_flow t)) in Ht. revert Hps Hr Ht. generalize (vt_finish (vt_finished t) FA_DEFAULT (vt_flow t) t).
  induction (p_terms ps) as [|tm tms IH]; intros t0 Hps Hr Ht; cbn in Hr; [by injection Hr as <-|]. bind_ok Hr E.
  assert (Ht1 : vars_typed a) by (exact (term_typed tm _ _ (Hps tm (or_introl eq_refl)) E Ht)). case_if_in Hr; [by injection Hr as <-|].
  destruct (vt_finished a && _) in Hr; [by injection Hr as <-|].
  eapply IH; [|exact Hr|exact Ht1]. intros tm' Hin. apply Hps. by right.
Qed.
End Node.
Lemma subr_typed fuel : forall s t t', import_only -> test_subr regex get_set pm vm protocol fuel s t = Ok t' -> vars_typed t -> vars_typed t'.
Proof.
  induction fuel as [|fuel IH]; [done|]. intros s t t' Him Hr Ht. cbn in Hr. unfold pmap_find in Hr. destruct (pm !! s) as [ps|] eqn:E; [|done]. cbn in Hr.
  eapply (policy_typed (test_subr regex get_set pm vm protocol fuel)); [intros ????; by eapply IH|intros tm Htm; by eapply Him|exact Hr|exact Ht].
Qed.

(** The check of an import policy *)
Context (ssub : string -> VisitorSemantic -> result xorp_exn VisitorSemantic).
Lemma sem_keeps n : forall s s' o, sem_node regex get_set vm protocol PT_IMPORT ssub n s = Ok (s', o) -> vs_semantic s = protocol -> vs_semantic s' = protocol /\ no_proto n = true.
Proof.
  induction n as [op n IH|op l IHl r IHr|v md r IH|v|x|e| | |p|f|x]; intros s s' o Hr Hs; cbn in Hr.
  - bind_pair Hr s1 o1 E1. bind_ok Hr E2. bind_ok Hr E3. injection Hr as <- _. by eapply IH.
  - bind_pair Hr s1 o1 E1. bind_pair Hr s2 o2 E2. bind_ok Hr E3. bind_ok Hr E4. bind_ok Hr E5. injection Hr as <- _.
    destruct (IHl _ _ _ E1 Hs) as [Hs1 Hl]. destruct (IHr _ _ _ E2 Hs1) as [Hs2 Hrr]. split; [done|]. change (no_proto l && no_proto r = true). by rewrite Hl, Hrr.
  - bind_pair Hr s1 o1 E1. bind_ok Hr E2. bind_ok Hr E3. bind_ok Hr E4. bind_ok Hr E5. injection Hr as <- _. by eapply IH.
  - bind_ok Hr E1. bind_ok Hr E2. by injection Hr as <- _.
  - destruct (get_set x); [|done]. by injection Hr as <- _.
  - by injection Hr as <- _.
  - by injection Hr as <- _.
  - by injection Hr as <- _.
  - done.
  - by injection Hr as <- _.
  - bind_ok Hr E1. by injection Hr as <- _.
Qed.
Lemma sem_typed subr n : (forall s t t', subr s t = Ok t' -> vars_typed t -> vars_typed t') -> forall s s' o t t' o', without_ctr n = true ->
  sem_node regex get_set vm protocol PT_IMPORT ssub n s = Ok (s', o) -> vs_semantic s = protocol -> test_node regex get_set vm subr n t = Ok (t', o') -> vars_typed t ->
  match o, o' with Some d, Some e => typed_as e d | None, None => True | _, _ => False end.
Proof.
  intros Hsub. induction n as [op n IH|op l IHl r IHr|v md r IH|v|x|e| | |p|f|x]; intros s s' o t t' o' Hctr Hr Hs Hx Ht; cbn in Hr, Hx, Hctr; fold without_ctr in Hctr.
  - apply andb_true_iff in Hctr as [Hop%negb_true_iff%bool_decide_eq_false Hctr]. bind_pair Hr s1 o1 E1. bind_ok Hr E2. bind_ok Hr E3. injection Hr as <- <-.
    bind_pair Hx t1 o1' F1. bind_ok Hx F2. bind_ok Hx F3. injection Hx as <- <-. specialize (IH _ _ _ _ _ _ Hctr E1 Hs F1 Ht).
    destruct o1 as [d|]; [|done]. destruct o1' as [e|]; [|done]. injection E2 as <-. injection F2 as <-. eapply disp_typed; [exact Hop| |exact F3|exact E3]. by apply List.Forall2_cons.
  - apply andb_true_iff in Hctr as [Hop%negb_true_iff%bool_decide_eq_false [Hc1 Hc2]%andb_true_iff].
    bind_pair Hr s1 o1 E1. bind_pair Hr s2 o2 E2. bind_ok Hr E3. bind_ok Hr E4. bind_ok Hr E5. injection Hr as <- <-.
    bind_pair Hx t1 p1 F1. bind_pair Hx t2 p2 F2. bind_ok Hx F3. bind_ok Hx F4. bind_ok Hx F5. injection Hx as <- <-.
    destruct (sem_keeps _ _ _ _ E1 Hs) as [Hs1 Hl]. specialize (IHl _ _ _ _ _ _ Hc1 E1 Hs F1 Ht).
    specialize (IHr _ _ _ _ _ _ Hc2 E2 Hs1 F2 (node_typed subr Hsub _ _ _ _ Hl F1 Ht)).
    destruct o1 as [d1|]; [|done]. destruct o2 as [d2|]; [|done]. destruct p1 as [e1|]; [|done]. destruct p2 as [e2|]; [|done].
    injection E3 as <-. injection E4 as <-. injection F3 as <-. injection F4 as <-. eapply disp_typed; [exact Hop| |exact F5|exact E5]. by repeat apply List.Forall2_cons.
  - bind_pair Hr s1 o1 E1. bind_ok Hr E2. bind_ok Hr E3. bind_ok Hr E4. bind_ok Hr E5. injection Hr as <- <-.
    bind_pair Hx t1 p1 F1. bind_ok Hx F2. bind_ok Hx F3. bind_ok Hx F4. by injection Hx as <- <-.
  - bind_ok Hr E1. bind_ok Hr E2. injection Hr as <- <-. rewrite Hs in *. unfold sem_read in E2. bind_ok E2 E3.
    bind_pair Hx t1 e F1. injection Hx as <- <-. destruct (read_typed _ _ _ _ Ht F1) as (_ & id & var & Hid & Hvar & Hty). rewrite E1 in Hid. injection Hid as <-.
    rewrite Hs in E3. rewrite E3 in Hvar. injection Hvar as <-. apply create_type in E2. unfold typed_as. by rewrite E2.
  - destruct (get_set x) as [e|]; [|done]. injection Hr as <- <-. injection Hx as <- <-. by left.
  - injection Hr as <- <-. injection Hx as <- <-. by left.
  - injection Hr as <- <-. by injection Hx as <- <-.
  - injection Hr as <- <-. by injection Hx as <- <-.
  - done.
  - injection Hr as <- <-. by injection Hx as <- <-.
  - bind_ok Hr E1. injection Hr as <- <-. bind_ok Hx F1. injection Hx as <- <-. by left.
Qed.
End Check.
