(* ===== verification/PolicyClaims.v ===== *)
(** * What the policy engine guarantees

    The text of a policy is read as its code; the code does what the test run of the policy
    says, on the variables of any protocol; and the variables are committed as they were
    last written. *)

From Stdlib Require Import ZArith Lia String.
From stdpp Require Import base tactics option numbers list gmap strings.
From S2P Require Import Prelude Word32 Addr IPv4 IPv6 IPNet AsPath OMap RipRoute PolicyElem PolicyOps PolicyExec PolicyCode PolicyVisit.
From S2P Require Import Sample PolicyRun PolicyText PolicyVar PolicyTypes.
Local Open Scope Z_scope.
Local Open Scope xorp_scope.

Section Claims.
Context `{HO : HostOrder, AT : AddrText} (regex : string -> string -> option bool).
Context (vm : VarMap) (pm : PolicyMap) (protocol : string) (sm : gmap string Elem).
(** The sets and the policies of the manager have names that are words and elements that can be made again from their texts. *)
Definition sets_readable : Prop := forall s e, sm !! s = Some e -> name_ok s = true /\ elem_ok e = true.
Definition policies_readable (ps : PolicyStatement) : Prop :=
  readable vm pm protocol /\ forall pi, comp_policy vm protocol ps = Ok pi -> policy_instr_ok pi = true.

(** C12: The text that the policy manager generates for an import policy, with its sets and subroutines, is accepted by
    the backend and gives back exactly the instructions of the policy, every set it refers to, and the instructions of
    every subroutine it calls, directly or not, on two conditions: the names of policies, terms and sets are words of the
    scanner and not its keywords, and every constant and set can be quoted and made again from its text, which numbers,
    booleans, non-empty strings without quotes and sets of numbers can. *)
Theorem policy_text_roundtrip (fuel : nat) (ps : PolicyStatement) (g : CodeGenerator) (conf : string) :
  sets_readable -> policies_readable ps -> visit_policy vm pm protocol fuel ps = Ok g -> filter_conf (set_map_get sm) g = Ok conf ->
  exists pi sets subrs, comp_policy vm protocol ps = Ok pi /\ policy_backend_parse conf = Ok ([pi], sets, subrs)
    /\ Forall (ref_ok (fun s => sm !! s) (fun s => sets !! s) subrs) (refs_policy ps)
    /\ forall s pi', subrs !! s = Some pi' -> exists ps', pm !! s = Some ps' /\ comp_policy vm protocol ps' = Ok pi'
         /\ Forall (ref_ok (fun s => sm !! s) (fun s => sets !! s) subrs) (refs_policy ps').
Proof.
  intros Hsets [Hread Hok] Hg Hconf. destruct (visit_policy_code _ _ _ _ _ _ Hg) as (_ & pi & Hpi & _).
  destruct (conf_read vm pm protocol sm Hsets fuel ps pi g conf Hread Hg Hconf Hpi (Hok _ Hpi)) as (sets & subrs & Hp & Hr & Hl).
  exists pi, sets, subrs. done.
Qed.

Context {V : Type} `{VR : VarRW V, VL : !VarRWLaws V}.
(** C4: For the import policies that satisfy [policy_ok], a filter that is configured with the text of the policy accepts a
    route exactly when the test run of the policy does, and leaves the variables of the route as the test run does, for
    every implementation of the variables that keeps the laws; it stays within the 128 elements of the stack and the
    2000 of the trash.  [policy_ok] asks that only accepting or rejecting statements follow one in a term, that no
    subroutine says [next policy], that the operands of an operation call no subroutine that assigns variables, and that
    the trace variable is not assigned; the policy must also fit the stack and the trash, its names and elements must be
    read back from their texts, the map of variables must be sane, and the test run must have an outcome. *)
Theorem policy_filter_correct (fuel depth tfuel : nat) (ps : PolicyStatement) (g : CodeGenerator) (conf : string) (v : V) (t : VisitorTest) :
  protocol <> ""%string -> vars_sane vm protocol -> sets_readable -> policies_readable ps ->
  policy_ok vm pm protocol depth ps = true -> fits pm depth ps ->
  visit_policy vm pm protocol fuel ps = Ok g -> filter_conf (set_map_get sm) g = Ok conf ->
  vr_wf v -> test_policy regex (fun s => sm !! s) pm vm protocol tfuel ps v = Ok t ->
  exists f v', pf_configure policy_backend_parse conf pf_new = (f, None) /\ vr_wf v' /\ (forall i, vr_get v' i = vr_get (vt_vars t) i)
    /\ pf_accept regex depth f v = (v'' <-! vr_sync v' ;; Ok (v'', vt_accepted t)).
Proof.
  intros Hp Hsane Hsets [Hread Hok] Hpok [Hd Ht] Hg Hconf Hwf Hrun. destruct (visit_policy_code _ _ _ _ _ _ Hg) as (_ & pi & Hpi & _).
  destruct (conf_read vm pm protocol sm Hsets fuel ps pi g conf Hread Hg Hconf Hpi (Hok _ Hpi)) as (sets & subrs & Hparse & Hr & Hl).
  set (x := mkExec [] 0 0 false FA_DEFAULT FLOW_TERM 0 v). assert (Hsim : sim protocol (test_new protocol v) x) by done.
  destruct (policy_sim regex (fun s => sm !! s) (fun s => sets !! s) subrs pm vm protocol Hp Hsane depth tfuel depth true ps pi (test_new protocol v) t x)
    as (x' & Hx & Hst & (_ & Hw & Hview & _) & _); try done.
  exists (mkPolicyFilter (Some [pi]) sets subrs), (x_vars x'). split_conj; [by unfold pf_configure; rewrite Hparse|done|by intros i; rewrite Hview|].
  unfold pf_accept, acceptRoute, run. cbn [pf_policies pf_sets pf_subrs rev app run_policies]. fold x. rewrite Hx. cbn [result_bind fst snd].
  unfold vt_accepted. destruct (bool_decide (vt_outcome t = FA_DEFAULT)) eqn:E; cbn [negb result_bind fst snd].
  - apply bool_decide_eq_true in E. rewrite E. by destruct (vr_sync (x_vars x')).
  - destruct (vr_sync (x_vars x')); cbn; [|done]. by destruct (vt_outcome t).
Qed.
End Claims.

Section Variables.
Context {R : Type} `{VC : VarClient R, VL : !VarClientLaws}.
(** C21: In any run of reads and writes on the variables of a route, each read answers the last write of the variable, or
    else the value that the client gave at first; and the commit hands every written variable to the client once, in
    increasing order, with its last value, on the route as the client left it when it started to read. *)
Theorem single_varrw_commit (r : R) (ops : list var_op) (s : SingleVarRW R) (out : list Elem) :
  run_ops ops (sv_new r) = Ok (s, out) ->
  map Some out = answers (sv_get (sv_new r)) ops ∅ /\
  sv_sync s = (r' <-! write_all var_ids (last_writes ops ∅) (if sv_did_first_read s then fst (vc_start r) else r) ;; Ok (mkSV r' ∅ ∅ 0 (sv_did_first_read s))).
Proof.
  intros Hrun. destruct (caches_run ops r ∅ (sv_new r) s out (caches_new r) Hrun) as [(Hwf & Hg & Hm & He & Hr) Ho]. split; [done|].
  unfold sv_sync. by rewrite (commit_writes var_ids _ s Hm He), Hr.
Qed.
End Variables.

Section Types.
Context `{HO : HostOrder, AT : AddrText} (regex : string -> string -> option bool) (get_set : string -> option Elem) (pm : PolicyMap) (vm : VarMap).
Context {V : Type} `{VR : VarRW V, VL : !VarRWLaws V} (protocol : string).
(** C27: What the semantic check finds of an expression of an import policy is right: on variables that hold elements of
    their types or none, the expression, when the test run gives it a value, has the type of the dummy value of the check
    or is missing, and the variables keep their types.  The constructor [CTR] is left out: its type is a value. *)
Theorem semantic_check_types (fuel : nat) (ssub : string -> VisitorSemantic -> result xorp_exn VisitorSemantic) (n : Node)
    (s s' : VisitorSemantic) (d e : Elem) (t t' : VisitorTest (V := V)) :
  protocol <> ""%string -> vars_sane vm protocol -> import_only pm -> without_ctr n = true -> vs_semantic s = protocol ->
  sem_node regex get_set vm protocol PT_IMPORT ssub n s = Ok (s', Some d) ->
  vars_typed vm protocol t -> test_node regex get_set vm (test_subr regex get_set pm vm protocol fuel) n t = Ok (t', Some e) ->
  (elem_type e = elem_type d \/ e = ENull) /\ vars_typed vm protocol t'.
Proof.
  intros Hp Hsane Him Hctr Hs Hsem Ht Htest.
  assert (Hsub : forall s t t', test_subr regex get_set pm vm protocol fuel s t = Ok t' -> vars_typed vm protocol t -> vars_typed vm protocol t').
  { intros ???. by apply (subr_typed regex get_set pm vm protocol Hp Hsane). }
  split; [exact (sem_typed regex get_set vm protocol Hp Hsane ssub _ n Hsub _ _ _ _ _ _ Hctr Hsem Hs Htest Ht)|].
  destruct (sem_keeps regex get_set vm protocol ssub n _ _ _ Hsem Hs) as [_ Hn]. by eapply node_typed.
Qed.
End Types.

(** ** Examples *)
Module Example.
(** Variables as [add_variable] puts them *)
Definition sane_entry (l : list (Z * Variable_)) (p : Z * Variable_) : bool :=
  bool_decide (m_find (fst p) l = Some (snd p)) && (v_id (snd p) =? fst p) && negb (bool_decide (v_type (snd p) = "null"%string)).
Lemma find_var_in name l v : find_var name l = Some v -> exists k, In (k, v) l.
Proof. induction l as [|[k w] l IH]; cbn; [done|]. case_decide; [intros [= ->]; exists k; by left|]. intros Hf. destruct (IH Hf) as [k' Hk]. exists k'. by right. Qed.
Lemma sane_vars vm protocol l : vm_protocols vm !! protocol = Some l -> forallb (sane_entry l) l = true -> vars_sane vm protocol.
Proof.
  intros Hl Hall name id Hid. unfold var2id, variable in *. rewrite Hl in *. destruct (find_var name l) as [v|] eqn:E; [|done]. injection Hid as <-.
  apply find_var_in in E as [k Hk]. rewrite forallb_forall in Hall. specialize (Hall _ Hk). unfold sane_entry in Hall. cbn [fst snd] in Hall. bool_prop.
  apply bool_decide_eq_true in H. apply bool_decide_eq_false in H0. subst k. exists v. by rewrite H.
Qed.
Lemma m_find_in (id : Z) (l : list (Z * Variable_)) v : m_find id l = Some v -> In (id, v) l.
Proof.
  induction l as [|[k w] l IH]; cbn; [done|]. unfold key_ltb, Z_key. destruct (Z.ltb_spec id k); [done|]. destruct (Z.ltb_spec k id); [right; auto|].
  intros [= ->]. left. f_equal. lia.
Qed.

(** Texts of addresses for the examples: the number of the address *)
#[local] Instance sample_text : AddrText := {
  ipv4_text a := dec_str (ntohl (ipv4_addr a)); ipv4_parse s := Ok (mkIPv4 (htonl (u32 (c_strtoul 10 s))));
  ipv6_text _ := "::"%string; ipv6_parse _ := Ok ipv6_ZERO }.
Definition no_regex (s re : string) : option bool := None.
Definition get_ok {E T} (d : T) (m : result E T) : T := match m with Ok x => x | Throw _ => d end.
Definition vm : VarMap := get_ok vm_new (add_protocol_variable "rip" (mkVariable READ_WRITE "metric" "u32" RIP_VAR_METRIC) vm_new).
Definition sm : gmap string Elem := {[ "good"%string := ESetU32 [7; 9] ]}.
Local Open Scope string_scope.
Definition tagged : PolicyStatement :=
  mkPolicy "tagged" [mkTerm "a" [NodeBin OpLe (NodeVar "tag") (NodeSet "good")] [] [NodeAccept]; mkTerm "b" [] [] [NodeReject]].
Definition main : PolicyStatement :=
  mkPolicy "main" [mkTerm "near" [NodeBin OpLt (NodeVar "metric") (NodeElem (EU32 5)); NodeSubr "tagged"] []
                    [NodeAssign "metric" (Some OpAdd) (NodeElem (EU32 3)); NodeAccept];
                   mkTerm "rest" [] [] [NodeReject]].
Definition pm : PolicyMap := {[ "tagged" := tagged ]}.
Definition gen : CodeGenerator := get_ok gen_new (visit_policy vm pm "rip" 2 main).
Definition conf : string := get_ok "" (filter_conf (set_map_get sm) gen).
Definition route_start : RipVars IPv4 := (mkVars (net4 10 0 0 0 8) (ip4 10 0 0 1) 2 7 {[ 1%Z ]}, []).
Definition route : SingleVarRW (RipVars IPv4) := sv_new route_start.
Definition tested : VisitorTest (V := SingleVarRW (RipVars IPv4)) :=
  get_ok (test_new "rip" route) (test_policy no_regex (fun s => sm !! s) pm vm "rip" 2 main route).
Local Open Scope Z_scope.

Lemma sane : vars_sane vm "rip".
Proof. eapply sane_vars; vm_compute; reflexivity. Qed.
Lemma sets_ok : sets_readable sm.
Proof. intros s e He. unfold sm in He. apply lookup_singleton_Some in He as [<- <-]. split; vm_compute; reflexivity. Qed.
Lemma policies_ok : policies_readable vm pm "rip" main.
Proof.
  split; [intros s ps pi Hs Hc; unfold pm in Hs; apply lookup_singleton_Some in Hs as [<- <-]; split; [done|]|intros pi Hc];
    vm_compute in Hc; injection Hc as <-; vm_compute; reflexivity.
Qed.
Lemma routes_typed : vars_typed vm "rip" (test_new "rip" route).
Proof.
  split; [|split; [done|]]; [apply Nat.le_0_l|]. intros id e var He Hv. unfold variable in Hv.
  destruct (vm_protocols vm !! "rip"%string) as [l|] eqn:El; [|done]. vm_compute in El. injection El as <-.
  destruct (m_find id _) as [w|] eqn:Ef; [|done]. injection Hv as ->. apply m_find_in in Ef.
  repeat (destruct Ef as [Ef|Ef]; [injection Ef as <- <-; vm_compute in He; first [discriminate He|injection He as <-; left; reflexivity]|]). done.
Qed.

Lemma policy_text_roundtrip_witness : exists sets subrs,
  policy_backend_parse conf = Ok ([get_ok (mkPolicyInstr "" [] false) (comp_policy vm "rip" main)], sets, subrs).
Proof.
  destruct (policy_text_roundtrip vm pm "rip" sm 2 main gen conf sets_ok policies_ok) as (pi & sets & subrs & Hc & Hp & _);
    [vm_compute; reflexivity|vm_compute; reflexivity|].
  exists sets, subrs. rewrite Hc. exact Hp.
Defined.
Lemma tested_accepted : vt_accepted tested = true.
Proof. vm_compute. reflexivity. Qed.
Lemma tested_metric : vr_get (vt_vars tested) RIP_VAR_METRIC = Some (EU32 5).
Proof. vm_compute. reflexivity. Qed.
Lemma policy_filter_correct_witness : exists f v', pf_configure policy_backend_parse conf pf_new = (f, None)
  /\ vr_get v' RIP_VAR_METRIC = Some (EU32 5) /\ pf_accept no_regex 2 f route = (v'' <-! vr_sync v' ;; Ok (v'', true)).
Proof.
  destruct (policy_filter_correct no_regex vm pm "rip" sm 2 2 2 main gen conf route tested) as (f & v' & Hf & _ & Hg & Ha);
    [discriminate|exact sane|exact sets_ok|exact policies_ok|vm_compute; reflexivity|split; apply Nat.leb_le; vm_compute; reflexivity
    |vm_compute; reflexivity|vm_compute; reflexivity|apply Nat.le_0_l|vm_compute; reflexivity|].
  exists f, v'. split; [exact Hf|]. split; [rewrite Hg; exact tested_metric|]. rewrite Ha, tested_accepted. reflexivity.
Defined.
Definition ops : list var_op := [ReadVar 14; WriteVar 14 (EU32 5); ReadVar 14; WriteVar 1 (ESetU32 [4])].
Definition ran : SingleVarRW (RipVars IPv4) * list Elem := get_ok (route, []) (run_ops ops route).
Definition committed : RipVars IPv4 := get_ok route_start (write_all var_ids (last_writes ops ∅) route_start).
Lemma single_varrw_commit_witness : map Some (snd ran) = [Some (EU32 2); Some (EU32 5)]
  /\ sv_sync (fst ran) = Ok (mkSV committed ∅ ∅ 0 true) /\ snd committed = [WritePolicytags {[ 4 ]}; WriteMetric 5].
Proof.
  destruct (single_varrw_commit route_start ops (fst ran) (snd ran)) as [Ho Hs]; [vm_compute; reflexivity|].
  split; [rewrite Ho; vm_compute; reflexivity|]. split; [rewrite Hs; vm_compute; reflexivity|vm_compute; reflexivity].
Defined.
Definition near : Node := NodeBin OpLt (NodeVar "metric") (NodeElem (EU32 5)).
Definition near_sem : VisitorSemantic * option Elem :=
  get_ok (sem_new, None) (sem_node no_regex (fun s => sm !! s) vm "rip" PT_IMPORT (fun _ s => Ok s) near (sem_protocol "rip" sem_new)).
Definition near_test : VisitorTest (V := SingleVarRW (RipVars IPv4)) * option Elem :=
  get_ok (test_new "rip" route, None) (test_node no_regex (fun s => sm !! s) vm (test_subr no_regex (fun s => sm !! s) pm vm "rip" 2) near (test_new "rip" route)).
Lemma semantic_check_types_witness : elem_type (EBool true) = elem_type (EBool true) \/ EBool true = ENull.
Proof.
  apply (semantic_check_types no_regex (fun s => sm !! s) pm vm "rip" 2 (fun _ s => Ok s) near (sem_protocol "rip" sem_new) (fst near_sem) (EBool true) (EBool true)
    (test_new "rip" route) (fst near_test)).
  - discriminate.
  - exact sane.
  - intros s ps tm Hs Hin. unfold pm in Hs. apply lookup_singleton_Some in Hs as [_ <-]. cbn in Hin. destruct Hin as [<-|[<-|[]]]; reflexivity.
  - reflexivity.
  - reflexivity.
  - vm_compute; reflexivity.
  - exact routes_typed.
  - vm_compute; reflexivity.
Defined.

(** ** Policies whose code does not do what the test run says *)
Definition outcomes (pm : PolicyMap) (ps : PolicyStatement) : result xorp_exn bool * result xorp_exn bool :=
  (t <-! test_policy no_regex (fun s => sm !! s) pm vm "rip" 2 ps route ;; Ok (vt_accepted t),
   g <-! visit_policy vm pm "rip" 2 ps ;; c <-! filter_conf (set_map_get sm) g ;;
   r <-! pf_accept no_regex 2 (fst (pf_configure policy_backend_parse c pf_new)) route ;; Ok (snd r)).
(** A subroutine that ends with [next policy] also ends the policy that calls it: its later terms are not run. *)
Lemma next_policy_escapes :
  outcomes {[ "sub"%string := mkPolicy "sub" [mkTerm "a" [] [] [NodeNext FLOW_POLICY]] ]}
    (mkPolicy "main" [mkTerm "a" [NodeSubr "sub"] [] []; mkTerm "b" [] [] [NodeReject]]) = (Ok false, Ok true).
Proof. vm_compute. reflexivity. Qed.
(** What follows an accepting statement is done by the code and not by the test run. *)
Definition accept_first : PolicyStatement := mkPolicy "main" [mkTerm "a" [] [] [NodeAccept; NodeAssign "metric" None (NodeElem (EU32 9))]].
Lemma accept_comes_last :
  (t <-! test_policy no_regex (fun s => sm !! s) ∅ vm "rip" 1 accept_first route ;; Ok (vr_get (vt_vars t) RIP_VAR_METRIC)) = Ok (Some (EU32 2)) /\
  (g <-! visit_policy vm ∅ "rip" 1 accept_first ;; c <-! filter_conf (set_map_get sm) g ;;
   r <-! pf_accept no_regex 1 (fst (pf_configure policy_backend_parse c pf_new)) route ;; Ok (snd (sv_route (fst r)))) = Ok [WriteMetric 9].
Proof. split; vm_compute; reflexivity. Qed.
(** A policy named like a keyword cannot be read by the backend, and an empty text is no argument: the filter stays as it was. *)
Lemma keyword_names_fail :
  snd (pf_configure policy_backend_parse (get_ok "" (g <-! visit_policy vm ∅ "rip" 1 (mkPolicy "NEXT" []) ;; filter_conf (set_map_get sm) g)) pf_new) = Some PolicyException /\
  snd (pf_configure policy_backend_parse (get_ok "" (g <-! visit_policy vm ∅ "rip" 1 (mkPolicy "p" [mkTerm "t" [NodeBin OpEq (NodeElem (EStr "")) (NodeElem (EStr "a"))] [] []]) ;;
    filter_conf (set_map_get sm) g)) pf_new) = Some PolicyException.
Proof. split; vm_compute; reflexivity. Qed.
(** A next hop of a kind such as [discard] aborts the process when the route is committed. *)
Lemma nexthop_kind_aborts (a : IPv4) : vc_write (R := RipVars IPv4) RIP_VAR_NEXTHOP4 (EIPv4NextHop VAR_DISCARD a) route_start = Throw AssertFailed.
Proof. reflexivity. Qed.
(** A policy that calls itself passes the check of its dependencies, and neither the semantic check nor the code generator
    ever comes to an end of it: no fuel is enough. *)
Definition loops : PolicyStatement := mkPolicy "p" [mkTerm "a" [NodeSubr "p"%string] [] []].
Lemma recursive_policy_never_ends (fuel : nat) :
  visit_policy vm {[ "p"%string := loops ]} "rip" fuel loops = Throw Fatal /\
  forall s, sem_subr no_regex (fun s => sm !! s) {[ "p"%string := loops ]} vm "rip" PT_IMPORT fuel "p" s = Throw Fatal.
Proof.
  split.
  - assert (Hwith : forall subr g, (forall g, subr "p"%string g = Throw Fatal) -> gen_policy_with vm "rip" subr loops g = Throw Fatal).
    { intros subr g Hs. unfold gen_policy_with, gen_terms, gen_term, gen_nodes. cbn. by rewrite Hs. }
    apply Hwith. induction fuel as [|fuel IH]; intros g; [done|]. cbn [gen_subr]. apply Hwith, IH.
  - assert (Hwith : forall ssub s, (forall s, ssub "p"%string s = Throw Fatal) -> sem_policy_with no_regex (fun s => sm !! s) vm "rip" PT_IMPORT ssub loops s = Throw Fatal).
    { intros ssub s Hs. unfold sem_policy_with, sem_terms, sem_term, sem_nodes. cbn. by rewrite Hs. }
    induction fuel as [|fuel IH]; intros s; [done|]. cbn [sem_subr]. apply Hwith, IH.
Qed.
End Example.
